(* ===== verification/_CoqProject ===== *)
-Q . S2P
Prelude.v
Oracle.v
Ssi.v
Rid.v
Store.v
Checksum.v
Page.v
DbHeader.v
Slotted.v
Overflow.v
Vfs.v
Disk.v
Wal.v
WalSegment.v
Float64.v
Bson.v
BsonCompare.v
KeyEnc.v
PageStore.v
Heap.v
Pool.v
Pager.v
PagerInv.v
PagerLaws.v
PagerFree.v
PagerLog.v
PagerDurable.v
PagerCommit.v
PagerOpen.v
PagerProps.v
HeapPager.v
BNode.v
BTree.v
BTreeInv.v
BTreeSpec.v
BTreeScan.v
BTreeProps.v
BTreeCheck.v
BTreeCheckProps.v
PagerIndex.v
ColValue.v
ColEncoding.v
ColSegment.v
ColStore.v
Query.v
QueryShape.v
IndexSpec.v
PlanBounds.v
PlanStages.v
Plan.v
Update.v
UpdateProps.v
