(* ===== verification/Prelude.v ===== *)
(** * A verification library for the doc embedded document database

    doc is an embedded document database in Go: one data file of fixed-size
    pages, a write-ahead log beside it, BSON documents in heap pages, B-tree
    indexes over order-preserving keys, multi-version transactions, and the filters,
    plans and updates that run on them. This library models its core as Rocq
    definitions that run, and proves what the parts promise. Names follow the source:
    a definition bears the name of the function it translates, file names below are
    relative to src/.

    ** The parts and how they interact

    - versions and transactions (mvcc/). An oracle hands out snapshot and commit
      versions and detects conflicts; the store keeps a chain of versions per
      record and asks the oracle at every begin, commit and collection. [Oracle]
      is mvcc/oracle.go, [Ssi] mvcc/ssi.go, [Store] mvcc/version.go, txn.go and
      store.go. Each method runs under the oracle's or the store's mutex, so a
      method is one function on the state, and concurrency is the interleaving of
      methods: the [step] relations of [Ssi] and [Store] let any number of
      transactions take any method in any order.
    - pages on disk (format/, storage/). [Checksum] is format/checksum.go, [Page]
      format/page.go and errors.go, [DbHeader] format/header.go, [Slotted]
      format/slotted.go, [Overflow] format/overflow.go, [Rid] the record
      identifiers of storage/spi.go. A page is a list of bytes; integers in it are
      Z with the width written out ([u16], [u32], [u64] of this file), so what wraps
      around in Go wraps around here.
    - files (vfs/). [Vfs] states the File interface as a class of operations
      ([FileOps]) with the laws a durable log relies on ([FileLaws]), models
      vfs/memfs.go (handles share one backing store) as an instance, and
      vfs/faultfs.go as a transformer of any file.
    - the write-ahead log (wal/). [Wal] is wal/wal.go, writer.go and reader.go,
      written and proved against [FileOps] and [FileLaws]; [WalSegment] is the
      archive format of wal/segment.go.
    - documents (bson/). [Bson] is bson/types.go, bson.go, value.go, reader.go,
      builder.go and id.go, [BsonCompare] bson/compare.go; both use [Float64], the
      part of Go's float64 they need, on 64-bit words.
    - index keys and indexes (index/). [KeyEnc] is index/key.go, encode.go,
      field.go and decode.go. The B-tree of index/btree.go, cursor.go, tx.go and
      check.go is [BNode] (nodes on pages, the state, the monad the methods run in),
      [BTree] (the methods), [BTreeCheck] (Stats and Check). It is written against
      [PageStore], the class of what layers above the pager use of
      pager/pager.go, with its laws and an instance that keeps pages in memory.
      [BTreeInv], [BTreeSpec], [BTreeScan], [BTreeProps], [BTreeCheckProps] hold the
      proofs: the shape of a stored tree, what each method does to the sorted list
      of keys the tree stands for, what a scan yields, the theorems.
    - the pager (pager/). [Disk] is a disk of files whose writes a crash may lose,
      tear or reorder. [Pool] is pool.go and frame.go; [Pager] is pager.go, check.go, backup.go
      and archive.go over any file system, the pager's fields in a record, a frame
      named by its page number. It calls [Wal] to append and scan and [DbHeader] for
      page 0. [PagerInv] and [PagerLaws] prove that on a disk it is an instance of
      [PageStore], the interface the B-tree is written against; [PagerFree],
      [PagerLog], [PagerDurable], [PagerCommit] and [PagerOpen] what each method does
      to what a crash would leave; [PagerProps] and [PagerIndex] the theorems.
    - the record store (heap/). [Heap] is heap/heap.go, record.go, scan.go and
      check.go: documents in slotted pages, moved documents behind forwarding stubs,
      large ones in overflow chains. It runs on any [PageStore]; [HeapPager] runs it
      on the pager.
    - the column store (colstore/). [ColValue] is colstore/value.go with the
      variable-length integers of Go's encoding/binary, [ColEncoding] encoding.go (six
      encodings and the choice among them), [ColSegment] segment.go and the predicate
      of aggregate.go, [ColStore] store.go, the scan of aggregate.go and
      reconstruct.go. Fields and documents are those of [Bson].
    - filters (query/). [Query] is query/match.go, leaves.go and traverse.go
      (a filter compiled to a tree of predicates, their evaluation),
      [QueryShape] project.go, sort.go and distinct.go.
    - index entries (catalog/spec.go). [IndexSpec]: what an index specification is and
      which keys a document has in it.
    - plans (plan/). [PlanBounds] is plan/bounds.go, from a filter to a range of keys;
      [PlanStages] stages.go, the stages documents are pulled through; [Plan]
      planner.go and source.go, which puts both together. A plan calls [Query] to
      match, [QueryShape] to sort and project, [IndexSpec] and [KeyEnc] for keys; its
      collection and its index cursor are arguments.
    - updates (update/). [Update] is update/update.go, operators.go, container.go,
      array.go, numeric.go and bit.go; [UpdateProps] its theorems.

    ** How a Go function becomes a definition

    A function that returns an error, or can panic, returns [res] (this file) or a
    sum of an error and a value. A method that changes its receiver takes and
    returns the state; where an error leaves a partial change behind ([Slotted],
    [Vfs], [Wal], [BNode]) the monad keeps the state on errors too. A loop whose end is not
    structural takes fuel; running out of it is a value of its own, told apart
    from every error of the code, and the theorems that say an operation returns say so
    for all fuel above a stated bound.

    ** What the theorems show

    - Transactions. The store refines an abstract snapshot isolation in which the
      first committer of a record wins ([Store.store_refines_snapshot_isolation]):
      reads are stable, a commit is seen whole or not at all, collection removes only
      what no snapshot reads. The oracle refuses no more and no fewer commits although
      it prunes its index of them; serializable writers have an acyclic dependency graph, and the
      classic read-only anomaly, which the code admits, is exhibited.
    - Log and files. A scan of a log cut anywhere returns exactly the transactions
      that were wholly appended, the writer produces the log the scan reads, and
      damage within a frame ends the scan there.
    - Pages. A slotted page implements a list of slots, on every branch of every
      operation, compaction included; overflow chains give back the payload; page
      and header checksums detect the damage they claim to.
    - Documents. What the builder writes the reader returns, Validate
      accepts exactly the well-formed documents, Compare is a total preorder that
      orders numbers of different types by their exact values.
    - Indexes. The byte order of encoded keys is the order of the values, except on
      the kinds of keys the theorems single out; covered fields decode to what was
      encoded; no key is a prefix of another. The B-tree refines a sorted list of
      keys under any sequence of operations, with splits at every level, and a
      scan yields the entries of its range, in order, once, as long as
      no field is a prefix of another and fields are short enough to split by count.
      Check finds no fault in the structure of a well-formed tree.
    - The pager. Whatever moment the power fails at, in any call that [allowed] and
      [allowed_last] of [PagerProps] list, Open finds the database of the last
      commit, or of the commit that was under way; recovery may itself be cut short
      any number of times. Commit does not fail on a healthy disk and changes nothing
      but checksums. A key put in an index and committed is, after any crash, in a
      well-formed tree whose root the database header names: the B-tree is run on the
      pager, SetCatalogRoot is its onRoot, and every call it makes is shown to be one
      the pager is owed ([PagerIndex.put_survives_crash]). What the pager does not
      protect is a theorem too: a checkpoint in the middle of a transaction.
    - The column store. Whatever sequence of inserts, updates, deletes, flushes and
      rebuilds a store has been through, a scan returns what an append-only log of
      its rows holds at the version ([ColStore.column_store_refines_log]): the
      encodings give back every column, the zone maps skip no row that matches, and
      what a reader at a version sees does not change; all unless a NaN is among the
      values of the column a predicate is on.
    - Filters. A field predicate is true exactly when the path reaches a value that
      satisfies it ([Query.match_semantics]); every filter compiles or is refused;
      a projected document holds the elements asked for, unless a dotted path is
      excluded; the sort is the one stable order.
    - Plans. An index plan that is not covered, whichever the costs choose, finds
      what the scan of the collection finds, in an order the sort allows
      ([Plan.index_plan_finds_the_same]): the range of keys misses no match, the
      stages are functions on the list of documents pulled through them, and an
      index has a key equal to a value when the filter matches it.
    - Updates. The operators of an update act at their paths at once, whatever their
      order, and leave every other path alone
      ([UpdateProps.operators_act_at_their_paths]); an update that changes nothing
      gives back the same bytes; integer arithmetic is exact or refused at 32 bits and
      wraps around at 64; $addToSet is a union.
    - Where the code does not do what it says, a theorem says what it does: a split
      by count that loses keys, a unique check skipped when a page cannot be read, a
      log scan that takes a read error for the end of the log, keys that collide,
      a heap that lets the pages of a large document go twice, damaged columns that
      panic, a NaN that hides the rows of its segment, covered plans that answer
      differently, ranges that miss matches on arrays, array updates that write names.

    ** Bounds and fuel

    - [BTreeInv.small] bounds the entries of a tree, a field and its RID, by m bytes
      with (m + 8) * (m + 16) at most 8 times the body of a page: 168 bytes, or
      fields of 162, on pages of 4096 bytes. A split halves a node by count, and
      this is what makes both halves fit whatever the entries are; the code accepts
      entries of up to a quarter of the body, and [BTreeProps.split_loses_keys] shows
      what happens to them.
    - The walks of the B-tree take fuel; [fuel_ok] asks for at least 2^32, more
      than there are page numbers, and a tree's pages are distinct, so the fuel is
      never used up. [Overflow] takes one step per page of the chain, and a chain
      that loops, which the code follows forever, is a theorem.
    - The laws of [PageStore] bound how many pages may still be allocated
      ([pg_room]); it decreases by at most one with each Allocate.
    - A crash leaves of the data file a mixture: each sector of 512 bytes, on its
      own, as it was at some moment since the file's last Sync, a write under way
      counted up to any sector ([Disk.mixes]). Writes are so kept, lost, torn and
      reordered, as the controller of src/engine/crash_reorder_test.go does. The log
      is only appended to between two Syncs and keeps its writes in order, the last
      one up to a sector ([Disk.once]): what a log with a hole in it scans to would
      rest on the checksum of the frames after the hole. A file just made may be
      missing until its first Sync. The crash theorems ask that log sequence numbers
      do not reach 2^64, that the sync level is not SyncOff, that Open has more fuel
      than the log has bytes, and that no checkpoint is asked for while changes are
      uncommitted; they do not cover IncrementalVacuum and Backup, whose definitions
      run all the same.

    ** Not modelled

    The operating system's files (vfs/osfs.go) and locks are the
    platform's; encryption calls the ciphers of Go's standard library; the wire
    server, the command-line tools, the public package and the options are glue and
    I/O over the parts below. The collection layer, the catalog's store,
    aggregation, schema validation and extended JSON are layers above those
    modelled. Of the planner, the cost estimate (math.Pow, math.Log2 on floats) and
    the explain text are left out, so that the theorems are about any plan it may
    choose. Of the column store, GroupBy, SumField, GroupExec and the
    cost model are left out: they add and divide floats, and [Float64] compares and
    converts them only. The heap is modelled and run, its defects on the pager are
    theorems; a refinement proof of it is not part of this library. *)

From stdpp Require Export base tactics numbers list gmap sorting.
From Stdlib Require Export ZArith Lia.

#[global] Open Scope Z_scope.

(** [lia] with division and modulus by constants. *)
Ltac zlia := Z.div_mod_to_equations; lia.

(** ** Results of Go functions

    A Go function that returns [(value, error)] and that can also panic (an
    index out of range) is a value of [res E A]: [Ok a] is a normal return with
    a nil error, [Err e] a return with a non-nil error, [Panic] a run-time
    panic. *)

Inductive res (E A : Type) : Type :=
| Ok (a : A)
| Err (e : E)
| Panic.
Arguments Ok {E A} a.
Arguments Err {E A} e.
Arguments Panic {E A}.

Definition res_bind {E A B} (m : res E A) (k : A -> res E B) : res E B :=
  match m with
  | Ok a => k a
  | Err e => Err e
  | Panic => Panic
  end.

Definition res_map {E A B} (f : A -> B) (m : res E A) : res E B :=
  res_bind m (fun a => Ok (f a)).

(** An indexing step that panics when it is out of range. *)
Definition or_panic {E A} (o : option A) : res E A :=
  match o with Some a => Ok a | None => Panic end.

Declare Scope res_scope.
Delimit Scope res_scope with res.
Notation "'let*' x := m 'in' k" := (res_bind m (fun x => k))
  (at level 200, x name, m at level 100, k at level 200, right associativity) : res_scope.
Notation "'let*' ' p := m 'in' k" := (res_bind m (fun x => match x with p => k end))
  (at level 200, p pattern, m at level 100, k at level 200, right associativity) : res_scope.
#[global] Open Scope res_scope.

(** ** Machine integers *)

Definition wrap (w x : Z) : Z := x mod 2 ^ w.
Abbreviation u8 := (wrap 8).
Abbreviation u16 := (wrap 16).
Abbreviation u32 := (wrap 32).
Abbreviation u64 := (wrap 64).

Definition in_u (w x : Z) : Prop := 0 <= x < 2 ^ w.

(** Two's-complement reading of a 64-bit word (the conversion int64(x)). *)
Definition to_i64 (x : Z) : Z := if x <? 2 ^ 63 then x else x - 2 ^ 64.

Definition max_u64 : Z := 2 ^ 64 - 1.

(** ** Byte strings *)

Abbreviation bytes := (list Z).

Definition byte_ok (b : Z) : Prop := 0 <= b < 256.
Definition bytes_ok (bs : bytes) : Prop := Forall byte_ok bs.

Definition blen {A} (b : list A) : Z := Z.of_nat (length b).

(** [sub off n b] is the Go slice b[off : off+n]; [put off s b] is b after
    copy(b[off:], s). Both are total here; the checked forms [rd] and [wr]
    panic the way a Go slice expression does. *)
Definition sub {A} (off n : nat) (b : list A) : list A := take n (drop off b).
Definition put {A} (off : nat) (s b : list A) : list A :=
  take off b ++ s ++ drop (off + length s) b.

Definition rd {E} (off n : Z) (b : bytes) : res E bytes :=
  if (0 <=? off) && (0 <=? n) && (off + n <=? blen b)
  then Ok (sub (Z.to_nat off) (Z.to_nat n) b) else Panic.

Definition wr {E} (off : Z) (s b : bytes) : res E bytes :=
  if (0 <=? off) && (off + blen s <=? blen b)
  then Ok (put (Z.to_nat off) s b) else Panic.

(** Little-endian and big-endian fixed-width integers (encoding/binary). *)
Fixpoint le_bytes (n : nat) (v : Z) : bytes :=
  match n with
  | O => []
  | S n' => v mod 256 :: le_bytes n' (v / 256)
  end.

Fixpoint le_val (bs : bytes) : Z :=
  match bs with
  | [] => 0
  | b :: t => b + 256 * le_val t
  end.

Definition be_bytes (n : nat) (v : Z) : bytes := rev (le_bytes n v).
Definition be_val (bs : bytes) : Z := le_val (rev bs).

(** bytes.Compare: lexicographic, a proper prefix is smaller. *)
Fixpoint bcmp (a b : bytes) : comparison :=
  match a, b with
  | [], [] => Eq
  | [], _ :: _ => Lt
  | _ :: _, [] => Gt
  | x :: a', y :: b' =>
      match x ?= y with
      | Eq => bcmp a' b'
      | c => c
      end
  end.

Definition bltb (a b : bytes) : bool := match bcmp a b with Lt => true | _ => false end.
Definition bleb (a b : bytes) : bool := match bcmp a b with Gt => false | _ => true end.
Definition blt (a b : bytes) : Prop := bcmp a b = Lt.
Definition ble (a b : bytes) : Prop := bcmp a b <> Gt.

(** ** Lemmas: results *)

Lemma res_bind_Ok {E A B} (m : res E A) (k : A -> res E B) b :
  res_bind m k = Ok b <-> exists a, m = Ok a /\ k a = Ok b.
Proof.
  split.
  - destruct m; simpl; [eauto|discriminate|discriminate].
  - intros (a & -> & ?). done.
Qed.

Lemma res_bind_assoc {E A B C} (m : res E A) (f : A -> res E B) (g : B -> res E C) :
  res_bind (res_bind m f) g = res_bind m (fun a => res_bind (f a) g).
Proof. by destruct m. Qed.

Create HintDb doc.

(** ** Lemmas: machine integers *)

Lemma wrap_small w x : in_u w x -> wrap w x = x.
Proof. intros H. unfold wrap, in_u in *. by apply Z.mod_small. Qed.

Lemma wrap_in_u w x : 0 <= w -> in_u w (wrap w x).
Proof. intros. unfold wrap, in_u. apply Z.mod_pos_bound. lia. Qed.

Lemma wrap_wrap w x : wrap w (wrap w x) = wrap w x.
Proof. unfold wrap. by rewrite Zmod_mod. Qed.

Lemma to_i64_range x : in_u 64 x -> - 2 ^ 63 <= to_i64 x < 2 ^ 63.
Proof. unfold in_u, to_i64. intros. case (Z.ltb_spec x (2 ^ 63)); lia. Qed.

Lemma to_i64_u64 x : - 2 ^ 63 <= x < 2 ^ 63 -> to_i64 (u64 x) = x.
Proof.
  intros H. unfold to_i64, wrap.
  destruct (Z.ltb_spec x 0).
  - rewrite <- (Z.mod_add x 1), Z.mod_small by lia.
    case (Z.ltb_spec (x + 1 * 2 ^ 64) (2 ^ 63)); lia.
  - rewrite Z.mod_small by lia. case (Z.ltb_spec x (2 ^ 63)); lia.
Qed.

Lemma u64_to_i64 x : in_u 64 x -> u64 (to_i64 x) = x.
Proof.
  unfold in_u, to_i64, wrap. intros.
  case (Z.ltb_spec x (2 ^ 63)); intros; [apply Z.mod_small; lia|].
  rewrite <- (Z.mod_add _ 1), Z.mod_small; lia.
Qed.

(** Ranges of the common widths, in the form [lia] uses. *)
Lemma in_u_bounds w x : in_u w x <-> 0 <= x < 2 ^ w.
Proof. done. Qed.

#[export] Hint Resolve wrap_in_u : doc.

(** ** Lemmas: sub and put *)

Section sub_put.
Context {A : Type}.
Implicit Types b s : list A.

Lemma length_sub off n b : (off + n <= length b)%nat -> length (sub off n b) = n.
Proof. intros. unfold sub. rewrite length_take, length_drop. lia. Qed.

Lemma length_put off s b :
  (off + length s <= length b)%nat -> length (put off s b) = length b.
Proof.
  intros. unfold put. rewrite !length_app, length_take, length_drop. lia.
Qed.

Lemma sub_lookup off n b i :
  (i < n)%nat -> sub off n b !! i = b !! (off + i)%nat.
Proof. intros. unfold sub. rewrite lookup_take_lt by lia. apply lookup_drop. Qed.

Lemma sub_ext off n b b' :
  (forall i, (i < n)%nat -> b !! (off + i)%nat = b' !! (off + i)%nat) ->
  sub off n b = sub off n b'.
Proof.
  intros H. apply list_eq. intros i. destruct (decide (i < n)%nat).
  - rewrite !sub_lookup by done. auto.
  - unfold sub. by rewrite !lookup_take_ge by lia.
Qed.

Lemma put_lookup_in off s b i :
  (off + length s <= length b)%nat -> (off <= i < off + length s)%nat ->
  put off s b !! i = s !! (i - off)%nat.
Proof.
  intros. unfold put.
  rewrite lookup_app_r by (rewrite length_take; lia).
  rewrite length_take, lookup_app_l by lia. f_equal. lia.
Qed.

Lemma put_lookup_out off s b i :
  (off + length s <= length b)%nat -> (i < off \/ off + length s <= i)%nat ->
  put off s b !! i = b !! i.
Proof.
  intros Hl [Hi|Hi]; unfold put.
  - rewrite lookup_app_l by (rewrite length_take; lia).
    apply lookup_take_lt. lia.
  - rewrite lookup_app_r by (rewrite length_take; lia).
    rewrite length_take, lookup_app_r by lia.
    rewrite lookup_drop. f_equal. lia.
Qed.

(** Reading back what was written. *)
Lemma sub_put_eq off s b :
  (off + length s <= length b)%nat -> sub off (length s) (put off s b) = s.
Proof.
  intros. apply list_eq. intros i. destruct (decide (i < length s)%nat).
  - rewrite sub_lookup, put_lookup_in by lia. f_equal. lia.
  - rewrite !lookup_ge_None_2; rewrite ?length_sub; try done; rewrite ?length_put; lia.
Qed.

Lemma sub_put_eq' off n s b :
  n = length s -> (off + n <= length b)%nat -> sub off n (put off s b) = s.
Proof. intros ->. apply sub_put_eq. Qed.

(** A write outside the range read does not change what is read. *)
Lemma sub_put_ne off s b off' n :
  (off + length s <= length b)%nat ->
  (off' + n <= off \/ off + length s <= off')%nat ->
  sub off' n (put off s b) = sub off' n b.
Proof. intros. apply sub_ext. intros i ?. apply put_lookup_out; lia. Qed.

(** A read inside the range written. *)
Lemma sub_put_inside off s b off' n :
  (off + length s <= length b)%nat ->
  (off <= off')%nat -> (off' + n <= off + length s)%nat ->
  sub off' n (put off s b) = sub (off' - off) n s.
Proof.
  intros. apply list_eq. intros i. destruct (decide (i < n)%nat).
  - rewrite !sub_lookup, put_lookup_in by lia. f_equal. lia.
  - unfold sub. by rewrite !lookup_take_ge by lia.
Qed.

Lemma sub_full b : sub 0 (length b) b = b.
Proof. unfold sub. by rewrite drop_0, take_ge by lia. Qed.

Lemma sub_sub off n off' n' b :
  (off' + n' <= n)%nat -> sub off' n' (sub off n b) = sub (off + off') n' b.
Proof.
  intros. apply list_eq. intros i. destruct (decide (i < n')%nat).
  - rewrite !sub_lookup by lia. f_equal. lia.
  - unfold sub. by rewrite !lookup_take_ge by lia.
Qed.

Lemma sub_app_l off n b b' :
  (off + n <= length b)%nat -> sub off n (b ++ b') = sub off n b.
Proof. intros. apply sub_ext. intros. by rewrite lookup_app_l by lia. Qed.

Lemma sub_app_r off n b b' :
  (length b <= off)%nat -> sub off n (b ++ b') = sub (off - length b) n b'.
Proof.
  intros. unfold sub. f_equal. rewrite drop_app_ge by lia. done.
Qed.

(** Reading one field of a record laid out as the concatenation of its fields. *)
Lemma sub_concat k (fs : list (list A)) f off n :
  fs !! k = Some f -> length (concat (take k fs)) = off -> length f = n ->
  sub off n (concat fs) = f.
Proof.
  intros Hk <- <-. rewrite <- (take_drop_middle fs k f Hk) at 2.
  rewrite concat_app. simpl. unfold sub. rewrite drop_app_length.
  apply take_app_length.
Qed.

(** One element changed, outside or inside the range read. *)
Lemma sub_insert_out off n i y b :
  (i < off \/ off + n <= i)%nat -> sub off n (<[i := y]> b) = sub off n b.
Proof. intros. apply sub_ext. intros j ?. apply list_lookup_insert_ne. lia. Qed.

Lemma sub_insert_in off n i y b :
  (off <= i < off + n)%nat -> sub off n (<[i := y]> b) = <[(i - off)%nat := y]> (sub off n b).
Proof.
  intros. unfold sub. rewrite drop_insert_ge by lia.
  apply list_eq. intros j. destruct (decide (j < n)%nat).
  - rewrite lookup_take_lt by lia. destruct (decide (j = i - off)%nat) as [->|].
    + destruct (decide (i - off < length (drop off b))%nat).
      * rewrite !list_lookup_insert_eq by (rewrite ?length_take; lia). done.
      * rewrite !lookup_ge_None_2 by (rewrite length_insert, ?length_take; lia). done.
    + rewrite !list_lookup_insert_ne by done. by rewrite lookup_take_lt by lia.
  - rewrite lookup_take_ge by lia. rewrite list_lookup_insert_ne by lia. by rewrite lookup_take_ge by lia.
Qed.

Lemma sub_Forall (P : A -> Prop) off n b : Forall P b -> Forall P (sub off n b).
Proof. intros. unfold sub. by apply Forall_take, Forall_drop. Qed.

Lemma put_Forall (P : A -> Prop) off s b :
  Forall P s -> Forall P b -> Forall P (put off s b).
Proof.
  intros. unfold put. rewrite !Forall_app. split_and!; auto using Forall_take, Forall_drop.
Qed.
End sub_put.

#[export] Hint Resolve sub_Forall put_Forall : doc.

Lemma rd_Ok {E} off n b :
  0 <= off -> 0 <= n -> off + n <= blen b ->
  rd (E:=E) off n b = Ok (sub (Z.to_nat off) (Z.to_nat n) b).
Proof.
  intros. unfold rd.
  by rewrite (proj2 (Z.leb_le _ _) H), (proj2 (Z.leb_le _ _) H0), (proj2 (Z.leb_le _ _) H1).
Qed.

Lemma wr_Ok {E} off s b :
  0 <= off -> off + blen s <= blen b -> wr (E:=E) off s b = Ok (put (Z.to_nat off) s b).
Proof.
  intros. unfold wr.
  by rewrite (proj2 (Z.leb_le _ _) H), (proj2 (Z.leb_le _ _) H0).
Qed.

Lemma rd_Panic {E} off n b : 0 <= n -> blen b < off + n -> rd (E:=E) off n b = Panic.
Proof.
  intros. unfold rd. rewrite (proj2 (Z.leb_gt (off + n) (blen b))), andb_false_r by lia. done.
Qed.

Lemma blen_app {A} (a b : list A) : blen (a ++ b) = blen a + blen b.
Proof. unfold blen. rewrite length_app. lia. Qed.

Lemma blen_cons {A} (x : A) (l : list A) : blen (x :: l) = 1 + blen l.
Proof. unfold blen. cbn [length]. lia. Qed.

Lemma blen_nonneg {A} (l : list A) : 0 <= blen l.
Proof. unfold blen. lia. Qed.

Lemma drop_blen {A} (a b : list A) : drop (Z.to_nat (blen a)) (a ++ b) = b.
Proof. unfold blen. by rewrite Nat2Z.id, drop_app_length. Qed.

Lemma sub_mid {A} (a s b : list A) : sub (length a) (length s) (a ++ s ++ b) = s.
Proof. unfold sub. by rewrite drop_app_length, take_app_length. Qed.

(** ** Lemmas: integer codecs *)

Lemma length_le_bytes n v : length (le_bytes n v) = n.
Proof. revert v; induction n; intros; simpl; auto. Qed.

Lemma length_be_bytes n v : length (be_bytes n v) = n.
Proof. unfold be_bytes. by rewrite length_rev, length_le_bytes. Qed.

#[export] Hint Rewrite @length_le_bytes @length_be_bytes : doc.

Lemma byte_ok_mod v : byte_ok (v mod 256).
Proof. unfold byte_ok. apply Z.mod_pos_bound. lia. Qed.

Lemma bytes_ok_le n v : bytes_ok (le_bytes n v).
Proof.
  unfold bytes_ok.
  revert v; induction n; intros; simpl; constructor; auto using byte_ok_mod.
Qed.

(** The decidable form, for concrete strings. *)
Definition bytes_okb (bs : bytes) : bool := forallb (fun b => (0 <=? b) && (b <? 256)) bs.

Lemma bytes_okb_ok bs : bytes_okb bs = true -> bytes_ok bs.
Proof.
  unfold bytes_okb, bytes_ok. rewrite forallb_forall, Forall_forall. setoid_rewrite <- list_elem_of_In.
  intros H b Hb. apply H in Hb. unfold byte_ok. lia.
Qed.

Lemma bytes_ok_rev bs : bytes_ok bs -> bytes_ok (rev bs).
Proof. unfold bytes_ok. intros. by apply Forall_rev. Qed.

Lemma bytes_ok_be n v : bytes_ok (be_bytes n v).
Proof. apply bytes_ok_rev, bytes_ok_le. Qed.

#[export] Hint Resolve byte_ok_mod bytes_ok_le bytes_ok_be bytes_ok_rev : doc.

Lemma pow256_S n : 2 ^ (8 * Z.of_nat (S n)) = 256 * 2 ^ (8 * Z.of_nat n).
Proof.
  replace (8 * Z.of_nat (S n)) with (8 + 8 * Z.of_nat n) by lia.
  rewrite Z.pow_add_r by lia. done.
Qed.

Lemma le_val_le_bytes_mod n v : le_val (le_bytes n v) = wrap (8 * Z.of_nat n) v.
Proof.
  unfold wrap. revert v. induction n as [|n IH]; intros v.
  - simpl. by rewrite Z.mod_1_r.
  - cbn [le_bytes le_val]. rewrite IH, pow256_S.
    rewrite Z.rem_mul_r by lia. lia.
Qed.

(** An n-byte field holds exactly the values of its width. *)
Lemma le_val_le_bytes n v :
  in_u (8 * Z.of_nat n) v -> le_val (le_bytes n v) = v.
Proof. intros. by rewrite le_val_le_bytes_mod, wrap_small. Qed.

Lemma le_val_bound bs : bytes_ok bs -> in_u (8 * blen bs) (le_val bs).
Proof.
  unfold blen, in_u. induction 1 as [|b bs Hb _ IH]; [simpl; lia|].
  cbn [length le_val]. rewrite pow256_S. unfold byte_ok in Hb. lia.
Qed.

Lemma le_bytes_le_val bs : bytes_ok bs -> le_bytes (length bs) (le_val bs) = bs.
Proof.
  induction 1 as [|b bs Hb _ IH]; [done|]. cbn [length le_val le_bytes].
  unfold byte_ok in Hb. f_equal.
  - rewrite Z.mul_comm, Z_mod_plus by lia. by apply Z.mod_small.
  - rewrite Z.mul_comm, Z_div_plus by lia. rewrite Z.div_small by lia. done.
Qed.

Lemma le_val_inj a b :
  bytes_ok a -> bytes_ok b -> length a = length b -> le_val a = le_val b -> a = b.
Proof.
  intros Ha Hb Hl E. rewrite <- (le_bytes_le_val a), <- (le_bytes_le_val b) by done. congruence.
Qed.

Lemma le_val_insert_ne b i x y :
  bytes_ok b -> byte_ok y -> b !! i = Some x -> x <> y -> le_val (<[i := y]> b) <> le_val b.
Proof.
  intros Hb Hy Hi Hne E. apply le_val_inj in E; [|by apply Forall_insert|done|apply length_insert].
  apply lookup_lt_Some in Hi as Hlt. apply (f_equal (.!! i)) in E.
  rewrite list_lookup_insert_eq in E by done. congruence.
Qed.

Lemma be_val_be_bytes n v :
  in_u (8 * Z.of_nat n) v -> be_val (be_bytes n v) = v.
Proof. intros. unfold be_val, be_bytes. by rewrite rev_involutive, le_val_le_bytes. Qed.

Lemma be_bytes_be_val bs : bytes_ok bs -> be_bytes (length bs) (be_val bs) = bs.
Proof.
  intros. unfold be_val, be_bytes.
  rewrite <- (length_rev bs), le_bytes_le_val, rev_involutive; auto with doc.
Qed.

Lemma be_val_bound bs : bytes_ok bs -> in_u (8 * blen bs) (be_val bs).
Proof.
  intros. unfold be_val.
  pose proof (le_val_bound (rev bs) (bytes_ok_rev _ H)). unfold blen in *.
  by rewrite length_rev in H0.
Qed.

Lemma be_bytes_S n v : be_bytes (S n) v = be_bytes n (v / 256) ++ [v mod 256].
Proof. done. Qed.

(** The leading byte of the big-endian form. *)
Lemma be_bytes_cons n v :
  be_bytes (S n) v = (v / 2 ^ (8 * Z.of_nat n)) mod 256 :: be_bytes n v.
Proof.
  revert v. induction n as [|n IH]; intros v.
  - cbn. by rewrite Z.div_1_r.
  - rewrite be_bytes_S, IH, (be_bytes_S n v). simpl. f_equal.
    rewrite Z.div_div by lia. by rewrite <- pow256_S.
Qed.

(** ** Lemmas: bytes.Compare is a total order *)

Lemma bcmp_refl a : bcmp a a = Eq.
Proof. induction a; simpl; [done|]. by rewrite Z.compare_refl. Qed.

Lemma bcmp_eq a b : bcmp a b = Eq <-> a = b.
Proof.
  split; [|intros ->; apply bcmp_refl].
  revert b; induction a as [|x a IH]; intros [|y b]; simpl; try done.
  destruct (x ?= y) eqn:E; try done. apply Z.compare_eq in E. subst. intros. f_equal. auto.
Qed.

Lemma bcmp_antisym a b : bcmp b a = CompOpp (bcmp a b).
Proof.
  revert b; induction a as [|x a IH]; intros [|y b]; simpl; try done.
  rewrite (Z.compare_antisym x y). destruct (x ?= y); simpl; auto.
Qed.

Lemma blt_trans a b c : blt a b -> blt b c -> blt a c.
Proof.
  unfold blt. revert b c; induction a as [|x a IH]; intros [|y b] [|z c]; simpl; try done.
  destruct (Z.compare_spec x y), (Z.compare_spec y z); subst; try done; intros.
  - rewrite Z.compare_refl. eauto.
  - by rewrite (proj2 (Z.compare_lt_iff y z)).
  - by rewrite (proj2 (Z.compare_lt_iff x z)).
  - rewrite (proj2 (Z.compare_lt_iff x z)); [done|lia].
Qed.

Lemma ble_lt_or_eq a b : ble a b <-> blt a b \/ a = b.
Proof.
  unfold ble, blt. rewrite <- bcmp_eq. destruct (bcmp a b); naive_solver.
Qed.

Lemma ble_not_lt a b : ble a b <-> ~ blt b a.
Proof. unfold ble, blt. rewrite (bcmp_antisym a b). destruct (bcmp a b); naive_solver. Qed.

Lemma blt_irrefl a : ~ blt a a.
Proof. unfold blt. by rewrite bcmp_refl. Qed.

Lemma ble_refl a : ble a a.
Proof. unfold ble. by rewrite bcmp_refl. Qed.

Lemma blt_ble a b : blt a b -> ble a b.
Proof. unfold ble. by intros ->. Qed.

Lemma blt_ble_trans a b c : blt a b -> ble b c -> blt a c.
Proof. rewrite ble_lt_or_eq. intros ? [?| ->]; eauto using blt_trans. Qed.

Lemma ble_blt_trans a b c : ble a b -> blt b c -> blt a c.
Proof. rewrite ble_lt_or_eq. intros [?| ->]; eauto using blt_trans. Qed.

Lemma ble_trans a b c : ble a b -> ble b c -> ble a c.
Proof.
  rewrite (ble_lt_or_eq b c). intros ? [?| ->]; eauto using blt_ble, ble_blt_trans.
Qed.

Lemma ble_antisym a b : ble a b -> ble b a -> a = b.
Proof.
  rewrite (ble_lt_or_eq a b), ble_not_lt. naive_solver.
Qed.

Lemma blt_total a b : blt a b \/ a = b \/ blt b a.
Proof.
  unfold blt. rewrite (bcmp_antisym a b), <- bcmp_eq. destruct (bcmp a b); naive_solver.
Qed.

Lemma bltb_blt a b : bltb a b = true <-> blt a b.
Proof. unfold bltb, blt. destruct (bcmp a b); naive_solver. Qed.

Lemma bltb_false a b : bltb a b = false <-> ble b a.
Proof.
  rewrite ble_not_lt, <- bltb_blt. destruct (bltb a b); naive_solver.
Qed.

Lemma bleb_ble a b : bleb a b = true <-> ble a b.
Proof. unfold bleb, ble. destruct (bcmp a b); naive_solver. Qed.

Lemma bleb_false a b : bleb a b = false <-> blt b a.
Proof.
  unfold bleb, blt. rewrite (bcmp_antisym a b). destruct (bcmp a b); naive_solver.
Qed.

#[global] Instance blt_dec a b : Decision (blt a b).
Proof. unfold blt. solve_decision. Defined.

#[global] Instance ble_dec a b : Decision (ble a b).
Proof. unfold ble. apply _. Defined.

#[global] Instance ble_preorder : PreOrder ble.
Proof. split; [exact ble_refl | exact ble_trans]. Qed.

#[global] Instance blt_strict : StrictOrder blt.
Proof. split; [exact blt_irrefl | exact blt_trans]. Qed.

#[export] Hint Resolve ble_refl blt_ble blt_irrefl : doc.

Lemma ble_nil a : ble [] a.
Proof. unfold ble. by destruct a. Qed.

(** A common prefix does not change the comparison. *)
Lemma bcmp_app_same p a b : bcmp (p ++ a) (p ++ b) = bcmp a b.
Proof. induction p; simpl; [done|]. by rewrite Z.compare_refl. Qed.

(** When the heads have equal length they decide first. *)
Lemma bcmp_app_len a b c d :
  length a = length b ->
  bcmp (a ++ c) (b ++ d) = match bcmp a b with Eq => bcmp c d | r => r end.
Proof.
  revert b; induction a as [|x a IH]; intros [|y b]; simpl; try done.
  intros [= ?]. rewrite IH by done. by destruct (x ?= y).
Qed.

(** Fixed-width big-endian encoding is monotone: bytewise order is numeric
    order. *)
Lemma bcmp_be_bytes n x y :
  in_u (8 * Z.of_nat n) x -> in_u (8 * Z.of_nat n) y ->
  bcmp (be_bytes n x) (be_bytes n y) = (x ?= y).
Proof.
  revert x y. induction n as [|n IH]; intros x y.
  - unfold in_u. simpl. intros. replace x with y by lia. symmetry. apply Z.compare_refl.
  - unfold in_u. rewrite pow256_S. intros Hx Hy. rewrite !be_bytes_S.
    rewrite bcmp_app_len by by rewrite !length_be_bytes.
    assert (0 < 2 ^ (8 * Z.of_nat n)) by lia.
    rewrite IH.
    + destruct (Z.compare_spec (x / 256) (y / 256)) as [E|E|E].
      * simpl. destruct (Z.compare_spec (x mod 256) (y mod 256)) as [F|F|F].
        -- replace x with y; [by rewrite Z.compare_refl|].
           rewrite (Z.div_mod x 256), (Z.div_mod y 256) by lia. lia.
        -- symmetry. apply Z.compare_lt_iff.
           rewrite (Z.div_mod x 256), (Z.div_mod y 256) by lia. lia.
        -- symmetry. apply Z.compare_gt_iff.
           rewrite (Z.div_mod x 256), (Z.div_mod y 256) by lia. lia.
      * symmetry. apply Z.compare_lt_iff.
        pose proof (Z.mod_pos_bound x 256). pose proof (Z.mod_pos_bound y 256).
        rewrite (Z.div_mod x 256), (Z.div_mod y 256) by lia. lia.
      * symmetry. apply Z.compare_gt_iff.
        pose proof (Z.mod_pos_bound x 256). pose proof (Z.mod_pos_bound y 256).
        rewrite (Z.div_mod x 256), (Z.div_mod y 256) by lia. lia.
    + unfold in_u. split; [apply Z.div_pos; lia|]. apply Z.div_lt_upper_bound; lia.
    + unfold in_u. split; [apply Z.div_pos; lia|]. apply Z.div_lt_upper_bound; lia.
Qed.

(** ** Standard-library search and sorting *)

(** sort.Search(n, f): the binary search of Go's sort package, on the window
    [i, j). The window at least halves, so n steps are enough. *)
Fixpoint search_loop (fuel : nat) (f : nat -> bool) (i j : nat) : nat :=
  match fuel with
  | O => i
  | S fuel' =>
      if (i <? j)%nat then
        let h := ((i + j) / 2)%nat in
        if f h then search_loop fuel' f i h else search_loop fuel' f (S h) j
      else i
  end.

Definition sort_Search (n : nat) (f : nat -> bool) : nat := search_loop n f 0 n.

(** slices.BinarySearch(x, target), the found flag. *)
Definition slices_BinarySearch (x : list Z) (target : Z) : bool :=
  let i := sort_Search (length x) (fun h => target <=? nth h x 0) in
  (i <? length x)%nat && (nth i x 0 =? target).

Lemma search_loop_spec fuel f i j :
  (j - i <= fuel)%nat -> (i <= j)%nat ->
  (forall a b, (a <= b)%nat -> f a = true -> f b = true) ->
  let r := search_loop fuel f i j in
  (i <= r <= j)%nat /\ (forall k, (i <= k < r)%nat -> f k = false) /\
  (forall k, (r <= k < j)%nat -> f k = true).
Proof.
  intros Hf Hij Hmono. revert i j Hf Hij. induction fuel as [|fuel IH]; intros i j Hf Hij;
    cbn [search_loop].
  - split_and!; [lia|lia| |]; intros; lia.
  - destruct (Nat.ltb_spec i j) as [Hlt|Hge].
    2:{ split_and!; try lia; intros; lia. }
    assert (Hh : (i <= (i + j) / 2 < j)%nat).
    { split; [apply Nat.div_le_lower_bound; lia | apply Nat.div_lt_upper_bound; lia]. }
    generalize dependent ((i + j) / 2)%nat. intros h Hh. cbv zeta in IH.
    destruct (f h) eqn:Efh.
    + destruct (IH i h) as (Hr & Hlo & Hhi); [lia|lia|]. split_and!; [lia|lia|done|].
      intros k Hk. destruct (decide (k < h)%nat); [apply Hhi; lia|].
      apply (Hmono h); [lia|done].
    + destruct (IH (S h) j) as (Hr & Hlo & Hhi); [lia|lia|]. split_and!; [lia|lia| |].
      * intros k Hk. destruct (decide (k <= h)%nat) as [Hle|Hgt]; [|apply Hlo; lia].
        destruct (f k) eqn:Efk; [|done].
        by rewrite (Hmono k h Hle Efk) in Efh.
      * intros k Hk. apply Hhi. lia.
Qed.

(** sort.Search returns the least index at which a monotone predicate holds. *)
Lemma sort_Search_spec n f :
  (forall a b, (a <= b)%nat -> f a = true -> f b = true) ->
  forall r, sort_Search n f = r ->
  (r <= n)%nat /\ (forall k, (k < r)%nat -> f k = false) /\
  (forall k, (r <= k < n)%nat -> f k = true).
Proof.
  unfold sort_Search. intros Hm r Hr.
  destruct (search_loop_spec n f 0 n) as (? & H1 & H2); [lia|lia|done|].
  rewrite Hr in *. split_and!; [lia| |]; intros k ?; [apply H1|apply H2]; lia.
Qed.

(** The same with monotonicity only inside the range searched. *)
Lemma sort_Search_spec' n f :
  (forall a b, (a <= b < n)%nat -> f a = true -> f b = true) ->
  forall r, sort_Search n f = r ->
  (r <= n)%nat /\ (forall k, (k < r)%nat -> f k = false) /\
  (forall k, (r <= k < n)%nat -> f k = true).
Proof.
  intros Hm r Hr. unfold sort_Search in Hr.
  set (g := fun k => if (n <=? k)%nat then true else f k).
  assert (Hg : forall fuel i j, (j <= n)%nat ->
    search_loop fuel f i j = search_loop fuel g i j).
  { induction fuel as [|fuel IH]; intros i j Hj; cbn [search_loop]; [done|].
    destruct (Nat.ltb_spec i j); [|done].
    assert ((i + j) / 2 < j)%nat by (apply Nat.div_lt_upper_bound; lia).
    unfold g at 1. destruct (Nat.leb_spec n ((i + j) / 2)); [lia|].
    rewrite !IH by lia. done. }
  rewrite Hg in Hr by lia.
  destruct (sort_Search_spec n g) with (r := r) as (? & H1 & H2).
  { intros a b Hab. unfold g. destruct (Nat.leb_spec n a), (Nat.leb_spec n b); try done; [lia|].
    intros. by apply (Hm a b). }
  { done. }
  split_and!; [done| |].
  - intros k Hk. specialize (H1 k Hk). unfold g in H1. by destruct (n <=? k)%nat.
  - intros k Hk. specialize (H2 k Hk). unfold g in H2.
    destruct (Nat.leb_spec n k); [lia|done].
Qed.

(** Searching a list that splits where the predicate turns true. *)
Lemma sort_Search_app {A} (a b : list A) d (g : A -> bool) :
  Forall (fun x => g x = false) a -> Forall (fun x => g x = true) b ->
  sort_Search (length (a ++ b)) (fun i => g (nth i (a ++ b) d)) = length a.
Proof.
  intros Ha Hb.
  assert (Hlo : forall i, (i < length a)%nat -> g (nth i (a ++ b) d) = false).
  { intros i Hi. rewrite app_nth1 by done. rewrite List.Forall_forall in Ha. apply Ha. by apply nth_In. }
  assert (Hhi : forall i, (length a <= i < length (a ++ b))%nat -> g (nth i (a ++ b) d) = true).
  { intros i Hi. rewrite length_app in Hi. rewrite app_nth2 by lia. rewrite List.Forall_forall in Hb. apply Hb. apply nth_In. lia. }
  destruct (sort_Search_spec' (length (a ++ b)) (fun i => g (nth i (a ++ b) d))) with (r := sort_Search (length (a ++ b)) (fun i => g (nth i (a ++ b) d)))
    as (H1 & H2 & H3); [|done|].
  { intros i j Hij Hi. destruct (le_lt_dec (length a) i); [apply Hhi; lia|]. rewrite Hlo in Hi by done. done. }
  set (r := sort_Search _ _) in *. rewrite length_app in *.
  destruct (lt_eq_lt_dec r (length a)) as [[Hr|Hr]|Hr]; [|done|].
  - specialize (H3 r). rewrite Hlo in H3 by done. discriminate H3. lia.
  - specialize (H2 (length a)). rewrite Hhi in H2 by lia. discriminate H2. lia.
Qed.

Lemma StronglySorted_nth {A} (R : A -> A -> Prop) l d i j :
  StronglySorted R l -> (i < j < length l)%nat -> R (nth i l d) (nth j l d).
Proof.
  intros Hs. revert i j. induction Hs as [|x l Hs IH Hx]; intros i j Hij; simpl in *; [lia|].
  destruct j as [|j]; [lia|]. destruct i as [|i]; simpl.
  - rewrite Forall_forall in Hx. apply Hx, list_elem_of_In, nth_In. lia.
  - apply IH. lia.
Qed.

Lemma slices_BinarySearch_spec x t :
  StronglySorted Z.le x -> slices_BinarySearch x t = true <-> t ∈ x.
Proof.
  intros Hs. unfold slices_BinarySearch.
  destruct (sort_Search_spec' (length x) (fun h => t <=? nth h x 0))
    with (r := sort_Search (length x) (fun h => t <=? nth h x 0)) as (Hr & Hlo & Hhi).
  { intros a b Hab Ha. apply Z.leb_le in Ha. apply Z.leb_le.
    destruct (decide (a = b)) as [->|]; [done|].
    pose proof (StronglySorted_nth Z.le x 0 a b Hs ltac:(lia)). lia. }
  { done. }
  generalize dependent (sort_Search (length x) (fun h => t <=? nth h x 0)).
  intros r Hr Hlo Hhi. rewrite andb_true_iff, Nat.ltb_lt, Z.eqb_eq. split.
  - intros [Hlt <-]. apply list_elem_of_In, nth_In. lia.
  - intros Hin. apply list_elem_of_In in Hin. apply (In_nth _ _ 0) in Hin as (k & Hk & Ek).
    assert (r <= k)%nat.
    { destruct (decide (r <= k)%nat); [done|]. specialize (Hlo k ltac:(lia)).
      apply Z.leb_gt in Hlo. lia. }
    split; [lia|]. specialize (Hhi r ltac:(lia)). apply Z.leb_le in Hhi.
    destruct (decide (r = k)) as [->|]; [done|].
    pose proof (StronglySorted_nth Z.le x 0 r k Hs ltac:(lia)). lia.
Qed.
