(* ===== verification/Oracle.v ===== *)
(** * mvcc/oracle.go: version assignment, live snapshots, conflict detection

    The oracle's state, each method under its mutex as one function on the
    state, and the lemmas about them: the cached watermark is the oldest live
    snapshot, the committed-since index holds every commit a live transaction
    can conflict with. The serializable methods are in [Ssi]. *)

From S2P Require Import Prelude.

(** ** State *)

(** Errors of the mvcc package and of the storage interface it returns. The
    durability hook may fail with any error of its own: [ErrDurable]. *)
Inductive txnErr : Type :=
| ErrTxnDone
| ConflictError (ConflictVer : Z)
| SerializationFailureError
| ErrReadOnly
| ErrNotFound
| ErrMaxRetries
| ErrDurable (code : nat).

#[global] Instance txnErr_eq_dec : EqDecision txnErr.
Proof. solve_decision. Defined.

(** Both conflict errors unwrap to storage.ErrConflict. *)
Definition is_ErrConflict (e : txnErr) : bool :=
  match e with ConflictError _ | SerializationFailureError => true | _ => false end.

Record committedTxn := CommittedTxn {
  ct_commitVer : Z;
  ct_writeSet : list Z
}.

Record ssiTxn := SsiTxn {
  st_startVer : Z;
  st_reads : gset Z;
  st_inConflict : bool;
  st_outConflict : bool;
  st_doomed : bool
}.

Record ssiCommitted := SsiCommitted {
  sc_commitVer : Z;
  sc_startVer : Z;
  sc_reads : list Z;
  sc_writes : list Z;
  sc_inConflict : bool;
  sc_outConflict : bool
}.

Record oracle := Oracle {
  commitVer : Z;
  nextTxn : Z;
  live : gmap Z Z;
  minLive : Z;
  recent : list committedTxn;
  ssiLive : gmap Z ssiTxn;
  ssiRecent : list ssiCommitted
}.

Definition set_live (l : gmap Z Z) (o : oracle) : oracle :=
  Oracle (commitVer o) (nextTxn o) l (minLive o) (recent o) (ssiLive o) (ssiRecent o).
Definition set_minLive (m : Z) (o : oracle) : oracle :=
  Oracle (commitVer o) (nextTxn o) (live o) m (recent o) (ssiLive o) (ssiRecent o).
Definition set_recent (r : list committedTxn) (o : oracle) : oracle :=
  Oracle (commitVer o) (nextTxn o) (live o) (minLive o) r (ssiLive o) (ssiRecent o).
Definition set_commitVer (v : Z) (o : oracle) : oracle :=
  Oracle v (nextTxn o) (live o) (minLive o) (recent o) (ssiLive o) (ssiRecent o).
Definition set_nextTxn (n : Z) (o : oracle) : oracle :=
  Oracle (commitVer o) n (live o) (minLive o) (recent o) (ssiLive o) (ssiRecent o).
Definition set_ssiLive (m : gmap Z ssiTxn) (o : oracle) : oracle :=
  Oracle (commitVer o) (nextTxn o) (live o) (minLive o) (recent o) m (ssiRecent o).
Definition set_ssiRecent (r : list ssiCommitted) (o : oracle) : oracle :=
  Oracle (commitVer o) (nextTxn o) (live o) (minLive o) (recent o) (ssiLive o) r.

(** ** Operations *)

Definition NewOracle (startCommitVer : Z) : oracle :=
  Oracle startCommitVer 0 ∅ startCommitVer [] ∅ [].

(** live[startVer]++ on a missing key starts from zero. *)
Definition Acquire (o : oracle) : Z * Z * oracle :=
  let startVer := commitVer o in
  let o1 := set_nextTxn (u64 (nextTxn o + 1)) o in
  let o2 := if (size (live o1) =? 0)%nat then set_minLive startVer o1 else o1 in
  let o3 := set_live (<[startVer := default 0 (live o2 !! startVer) + 1]> (live o2)) o2 in
  (startVer, nextTxn o3, o3).

(** The loop over the keys of the live map, from ^uint64(0). *)
Definition min_start (l : gmap Z Z) : Z :=
  map_fold (fun s _ m => if s <? m then s else m) max_u64 l.

Definition releaseLocked (startVer : Z) (o : oracle) : oracle :=
  let n := default 0 (live o !! startVer) in
  let o1 := set_live (if n <=? 1 then delete startVer (live o)
                      else <[startVer := n - 1]> (live o)) o in
  if negb (startVer =? minLive o1) then o1
  else if (size (live o1) =? 0)%nat then set_minLive (commitVer o1) o1
  else set_minLive (min_start (live o1)) o1.

(** [cut] counts the leading entries at or below the watermark; the slice is
    then shifted down by [cut]. *)
Fixpoint prune_cut (wm : Z) (r : list committedTxn) : list committedTxn :=
  match r with
  | [] => []
  | c :: r' => if ct_commitVer c <=? wm then prune_cut wm r' else r
  end.

Definition pruneLocked (o : oracle) : oracle :=
  set_recent (prune_cut (minLive o) (recent o)) o.

Definition Release (startVer : Z) (o : oracle) : oracle :=
  pruneLocked (releaseLocked startVer o).

Definition Watermark (o : oracle) : Z := minLive o.
Definition CommitVersion (o : oracle) : Z := commitVer o.

Definition LiveSnapshots (o : oracle) : Z :=
  map_fold (fun _ c n => n + c) 0 (live o).

(** The merge walk over two sorted slices. *)
Fixpoint intersects (a : list Z) : list Z -> bool :=
  fix go (b : list Z) : bool :=
    match a, b with
    | [], _ => false
    | _ :: _, [] => false
    | x :: a', y :: b' =>
        if x =? y then true
        else if x <? y then intersects a' b
        else go b'
    end.

(** Sorted keys of a set of records (a map[uint64]struct{}). *)
Definition sortedKeys (m : gset Z) : list Z := merge_sort Z.le (elements m).

(** First-committer-wins: walk the index from its newest entry down to the
    first one at or below the snapshot. The argument is the index reversed. *)
Fixpoint scan_conflict (startVer : Z) (ws : list Z) (newest_first : list committedTxn)
  : option Z :=
  match newest_first with
  | [] => None
  | c :: r =>
      if ct_commitVer c <=? startVer then None
      else if intersects (ct_writeSet c) ws then Some (ct_commitVer c)
      else scan_conflict startVer ws r
  end.

Definition find_conflict (o : oracle) (startVer : Z) (ws : list Z) : option Z :=
  scan_conflict startVer ws (rev (recent o)).

Section commit.
(** [St] is the state of the engine whose publish hook installs versions. *)
Context {St : Type}.

Definition run_durable (durable : option (Z -> option txnErr)) (cv : Z) : option txnErr :=
  match durable with Some f => f cv | None => None end.

Definition run_publish (publish : option (Z -> St -> St)) (cv : Z) (st : St) : St :=
  match publish with Some f => f cv st | None => st end.

Definition Commit (startVer : Z) (writeSet : list Z)
    (durable : option (Z -> option txnErr)) (publish : option (Z -> St -> St))
    (o : oracle) (st : St) : (txnErr + Z) * oracle * St :=
  match find_conflict o startVer writeSet with
  | Some v => (inl (ConflictError v), pruneLocked (releaseLocked startVer o), st)
  | None =>
      let cv := u64 (commitVer o + 1) in
      match run_durable durable cv with
      | Some err => (inl err, pruneLocked (releaseLocked startVer o), st)
      | None =>
          let st' := run_publish publish cv st in
          let o1 := set_commitVer cv o in
          let o2 := set_recent (recent o1 ++ [CommittedTxn cv writeSet]) o1 in
          (inr cv, pruneLocked (releaseLocked startVer o2), st')
      end
  end.
End commit.

(** ** Lemmas: helpers *)

Lemma intersects_nil_l b : intersects [] b = false.
Proof. by destruct b. Qed.

Lemma intersects_nil_r a : intersects a [] = false.
Proof. by destruct a. Qed.

Lemma intersects_cons x a y b :
  intersects (x :: a) (y :: b) =
  if x =? y then true else if x <? y then intersects a (y :: b) else intersects (x :: a) b.
Proof. done. Qed.

(** The merge walk decides whether two sorted slices share an element. *)
Lemma intersects_true a b :
  StronglySorted Z.le a -> StronglySorted Z.le b ->
  intersects a b = true <-> exists k, k ∈ a /\ k ∈ b.
Proof.
  intros Ha. revert b. induction Ha as [|x a Ha IHa Hx]; intros b Hb.
  { rewrite intersects_nil_l. split; [done|]. intros (k & []%not_elem_of_nil & _). }
  induction Hb as [|y b Hb IHb Hy].
  { rewrite intersects_nil_r. split; [done|]. intros (k & _ & []%not_elem_of_nil). }
  rewrite intersects_cons. destruct (Z.eqb_spec x y) as [->|Hne].
  { split; [|done]. intros _. exists y. split; left. }
  rewrite Forall_forall in Hx, Hy. destruct (Z.ltb_spec x y) as [Hlt|Hge].
  - rewrite IHa by (constructor; [done|by rewrite Forall_forall]).
    split; intros (k & Hk & Hk'); exists k; split; auto.
    + by right.
    + apply elem_of_cons in Hk as [->|]; [|done]. exfalso.
      apply elem_of_cons in Hk' as [->|Hk']; [lia|]. apply Hy in Hk'. lia.
  - rewrite IHb. split; intros (k & Hk & Hk'); exists k; split; auto.
    + by right.
    + apply elem_of_cons in Hk' as [->|]; [|done]. exfalso.
      apply elem_of_cons in Hk as [->|Hk]; [lia|]. apply Hx in Hk. lia.
Qed.

#[global] Instance Zle_total : Total Z.le.
Proof. intros x y. lia. Qed.

Lemma sortedKeys_sorted m : StronglySorted Z.le (sortedKeys m).
Proof. apply StronglySorted_merge_sort; [|apply _]. intros x y z. lia. Qed.

Lemma elem_of_sortedKeys m k : k ∈ sortedKeys m <-> k ∈ m.
Proof. unfold sortedKeys. by rewrite merge_sort_Permutation, elem_of_elements. Qed.

Lemma NoDup_sortedKeys m : NoDup (sortedKeys m).
Proof. unfold sortedKeys. rewrite merge_sort_Permutation. apply NoDup_elements. Qed.

#[export] Hint Resolve sortedKeys_sorted NoDup_sortedKeys : doc.

Lemma size_map_0 {V} (m : gmap Z V) : (size m =? 0)%nat = true <-> m = ∅.
Proof. rewrite Nat.eqb_eq. apply map_size_empty_iff. Qed.

Lemma min_start_spec l :
  l <> ∅ -> (forall s n, l !! s = Some n -> s <= max_u64) ->
  is_Some (l !! min_start l) /\ (forall s, is_Some (l !! s) -> min_start l <= s).
Proof.
  intros Hne Hb.
  enough (H : (forall s, is_Some (l !! s) -> min_start l <= s) /\
    (min_start l = max_u64 \/ is_Some (l !! min_start l))).
  { destruct H as [H1 [H2|H2]]; [|done]. split; [|done].
    apply map_choose in Hne as (s & n & Hs).
    specialize (H1 s (mk_is_Some _ _ Hs)). specialize (Hb s n Hs).
    replace (min_start l) with s by lia. eauto. }
  clear Hne Hb. unfold min_start.
  apply (map_fold_weak_ind
    (fun m l => (forall s, is_Some (l !! s) -> m <= s) /\ (m = max_u64 \/ is_Some (l !! m)))).
  - split; [|auto]. intros s [n Hn]. by rewrite lookup_empty in Hn.
  - intros s n m r Hm [IH1 IH2]. split.
    + intros s' Hs'. apply lookup_insert_is_Some in Hs' as [->|[? Hs']].
      * destruct (Z.ltb_spec s' r); lia.
      * specialize (IH1 _ Hs'). destruct (Z.ltb_spec s r); lia.
    + rewrite lookup_insert_is_Some. destruct (Z.ltb_spec s r); [auto|].
      destruct IH2 as [?|?]; [auto|]. destruct (decide (s = r)); auto.
Qed.

(** ** The oracle invariant

    The cached watermark is the least live start version, or the commit version
    when no snapshot is live; every live start version is an assigned version. *)
Record oracle_ok (o : oracle) : Prop := {
  ok_cv : in_u 64 (commitVer o);
  ok_live : forall s n, live o !! s = Some n -> 0 <= s <= commitVer o /\ 1 <= n;
  ok_min_empty : live o = ∅ -> minLive o = commitVer o;
  ok_min_mem : live o <> ∅ -> is_Some (live o !! minLive o);
  ok_min_le : forall s, is_Some (live o !! s) -> minLive o <= s
}.

(** The invariant reads only the commit version, the live map and the cached
    watermark. *)
Lemma oracle_ok_ext o o' :
  commitVer o = commitVer o' -> live o = live o' -> minLive o = minLive o' ->
  oracle_ok o -> oracle_ok o'.
Proof. intros E1 E2 E3 []. split; rewrite <- ?E1, <- ?E2, <- ?E3; done. Qed.

Lemma ok_minLive_range o : oracle_ok o -> 0 <= minLive o <= commitVer o.
Proof.
  intros Ho. destruct (decide (live o = ∅)) as [E|E].
  - rewrite (ok_min_empty _ Ho E). destruct (ok_cv _ Ho). lia.
  - destruct (ok_min_mem _ Ho E) as [n Hn]. apply (ok_live _ Ho) in Hn. lia.
Qed.

Lemma NewOracle_ok v : in_u 64 v -> oracle_ok (NewOracle v).
Proof.
  intros Hv. split; simpl; try done.
  intros s [n Hn]. by rewrite lookup_empty in Hn.
Qed.

Lemma Acquire_state o s t o' :
  Acquire o = (s, t, o') ->
  s = commitVer o /\ t = u64 (nextTxn o + 1) /\ commitVer o' = commitVer o /\
  nextTxn o' = t /\
  live o' = <[s := default 0 (live o !! s) + 1]> (live o) /\
  minLive o' = (if decide (live o = ∅) then commitVer o else minLive o) /\
  recent o' = recent o /\ ssiLive o' = ssiLive o /\ ssiRecent o' = ssiRecent o.
Proof.
  unfold Acquire. simpl.
  destruct (size (live o) =? 0)%nat eqn:E; intros [= <- <- <-]; simpl.
  - apply size_map_0 in E. by rewrite decide_True.
  - rewrite decide_False; [done|]. intros F. apply size_map_0 in F. congruence.
Qed.

Lemma Acquire_ok o s t o' : oracle_ok o -> Acquire o = (s, t, o') -> oracle_ok o'.
Proof.
  intros Ho (Hs & _ & Ecv & _ & El & Em & _)%Acquire_state.
  pose proof (ok_minLive_range _ Ho). pose proof (ok_cv _ Ho) as Hcv.
  assert (0 <= default 0 (live o !! s)).
  { destruct (live o !! s) eqn:E; simpl; [|lia]. apply (ok_live _ Ho) in E. lia. }
  split; rewrite ?Ecv, ?El, ?Em; subst s.
  - done.
  - intros s n [[<- <-]|[? Hn]]%lookup_insert_Some.
    + unfold in_u in *. lia.
    + by apply (ok_live _ Ho).
  - intros E. by apply insert_non_empty in E.
  - intros _. case_decide; [rewrite lookup_insert_is_Some; auto|].
    rewrite lookup_insert_is_Some'. right. by apply (ok_min_mem _ Ho).
  - intros s Hs. apply lookup_insert_is_Some' in Hs as [<-|Hs].
    + case_decide; lia.
    + case_decide as E; [|by apply (ok_min_le _ Ho)].
      rewrite E in Hs. destruct Hs as [? Hs]. by rewrite lookup_empty in Hs.
Qed.

Lemma releaseLocked_fields s o :
  commitVer (releaseLocked s o) = commitVer o /\ nextTxn (releaseLocked s o) = nextTxn o /\
  recent (releaseLocked s o) = recent o /\ ssiLive (releaseLocked s o) = ssiLive o /\
  ssiRecent (releaseLocked s o) = ssiRecent o /\
  live (releaseLocked s o) =
    (if default 0 (live o !! s) <=? 1 then delete s (live o)
     else <[s := default 0 (live o !! s) - 1]> (live o)).
Proof. unfold releaseLocked. repeat case_match; done. Qed.

Lemma releaseLocked_live_lookup s o s' n :
  live (releaseLocked s o) !! s' = Some n ->
  exists n', live o !! s' = Some n' /\ 
    ((s' <> s /\ n = n') \/ (s' = s /\ 1 < n' /\ n = n' - 1)).
Proof.
  destruct (releaseLocked_fields s o) as (_ & _ & _ & _ & _ & ->).
  destruct (live o !! s) as [k|] eqn:E; simpl.
  - destruct (Z.leb_spec k 1).
    + intros [??]%lookup_delete_Some. eauto.
    + intros [[<- <-]|[? ?]]%lookup_insert_Some; eauto 6.
  - intros [??]%lookup_delete_Some. eauto.
Qed.

Lemma releaseLocked_minLive s o :
  minLive (releaseLocked s o) =
    if decide (s = minLive o) then
      if decide (live (releaseLocked s o) = ∅) then commitVer o
      else min_start (live (releaseLocked s o))
    else minLive o.
Proof.
  destruct (releaseLocked_fields s o) as (_ & _ & _ & _ & _ & ->).
  unfold releaseLocked. simpl.
  destruct (Z.eqb_spec s (minLive o)) as [->|Hne]; simpl.
  2:{ by rewrite decide_False. }
  rewrite (decide_True (P := minLive o = minLive o)) by done.
  match goal with |- context [(size ?l =? 0)%nat] => generalize l; intros l' end.
  destruct (size l' =? 0)%nat eqn:E.
  - apply size_map_0 in E. by rewrite decide_True.
  - rewrite decide_False; [done|]. intros F. apply size_map_0 in F. congruence.
Qed.

(** Releasing a live snapshot keeps the invariant, and the watermark rises. *)
Lemma releaseLocked_ok s o :
  oracle_ok o -> is_Some (live o !! s) -> oracle_ok (releaseLocked s o).
Proof.
  intros Ho Hs. pose proof (releaseLocked_live_lookup s o) as Hl.
  pose proof (releaseLocked_minLive s o) as Hm.
  destruct (releaseLocked_fields s o) as (Ecv & _ & _ & _ & _ & El).
  assert (Hl' : forall s' n, live (releaseLocked s o) !! s' = Some n ->
    0 <= s' <= commitVer o /\ 1 <= n).
  { intros s' n (n' & Hn' & Hcase)%Hl. apply (ok_live _ Ho) in Hn'. lia. }
  pose proof (ok_cv _ Ho) as Hcv.
  assert (Hmin : live (releaseLocked s o) <> ∅ ->
    is_Some (live (releaseLocked s o) !! min_start (live (releaseLocked s o))) /\
    (forall s', is_Some (live (releaseLocked s o) !! s') ->
      min_start (live (releaseLocked s o)) <= s')).
  { intros Hne. apply min_start_spec; [done|].
    intros s' n Hn. apply Hl' in Hn. unfold in_u, max_u64 in *. lia. }
  split; rewrite ?Ecv; try done.
  - intros E. rewrite Hm. case_decide as E1; [by rewrite decide_True|]. exfalso.
    assert (live o <> ∅) as Hne.
    { destruct Hs as [n Hn]. intros F. by rewrite F, lookup_empty in Hn. }
    destruct (ok_min_mem _ Ho Hne) as [n Hn].
    assert (live (releaseLocked s o) !! minLive o = Some n) as F.
    { rewrite El. destruct (_ <=? _).
      - by rewrite lookup_delete_ne.
      - by rewrite lookup_insert_ne. }
    by rewrite E, lookup_empty in F.
  - intros Hne. rewrite Hm. case_decide as E1.
    + rewrite decide_False by done. by apply Hmin.
    + assert (live o <> ∅) as Hne'.
      { destruct Hs as [n Hn]. intros F. by rewrite F, lookup_empty in Hn. }
      destruct (ok_min_mem _ Ho Hne') as [n Hn]. exists n.
      rewrite El. destruct (_ <=? _).
      * by rewrite lookup_delete_ne.
      * by rewrite lookup_insert_ne.
  - intros s' Hs'. rewrite Hm. case_decide as E1.
    + assert (live (releaseLocked s o) <> ∅) as Hne.
      { destruct Hs' as [n Hn]. intros F. by rewrite F, lookup_empty in Hn. }
      rewrite decide_False by done. by apply Hmin.
    + apply (ok_min_le _ Ho). destruct Hs' as [n (n' & ? & _)%Hl]. eauto.
Qed.

Lemma releaseLocked_minLive_le s o :
  oracle_ok o -> is_Some (live o !! s) -> minLive o <= minLive (releaseLocked s o).
Proof.
  intros Ho Hs. pose proof (releaseLocked_ok s o Ho Hs) as Ho'.
  destruct (releaseLocked_fields s o) as (Ecv & _).
  destruct (decide (live (releaseLocked s o) = ∅)) as [E|E].
  - rewrite (ok_min_empty _ Ho' E), Ecv. by apply ok_minLive_range.
  - destruct (ok_min_mem _ Ho' E) as [n (n' & ? & _)%releaseLocked_live_lookup].
    apply (ok_min_le _ Ho). eauto.
Qed.

Lemma pruneLocked_ok o : oracle_ok o -> oracle_ok (pruneLocked o).
Proof. by apply oracle_ok_ext. Qed.

Lemma Release_ok s o : oracle_ok o -> is_Some (live o !! s) -> oracle_ok (Release s o).
Proof. intros. by apply pruneLocked_ok, releaseLocked_ok. Qed.

(** A commit installs the next version; its snapshot is still live then. *)
Lemma oracle_ok_bump s r o :
  oracle_ok o -> is_Some (live o !! s) -> commitVer o < max_u64 ->
  oracle_ok (set_recent r (set_commitVer (u64 (commitVer o + 1)) o)).
Proof.
  intros Ho Hs Hlt. pose proof (ok_cv _ Ho) as Hcv. unfold in_u, max_u64 in *.
  rewrite wrap_small by (unfold in_u; lia). split; simpl.
  - unfold in_u. lia.
  - intros s' n Hn. apply (ok_live _ Ho) in Hn. lia.
  - intros E. destruct Hs as [n Hn]. by rewrite E, lookup_empty in Hn.
  - apply (ok_min_mem _ Ho).
  - apply (ok_min_le _ Ho).
Qed.
