(* ===== verification/Ssi.v ===== *)
(** * mvcc/ssi.go: serializable snapshot isolation over the oracle

    Read tracking, the antidependency flags and the serializable commit, then
    the transition system of one oracle shared by snapshot-isolation and
    serializable transactions, with a ghost history of every commit, and the
    theorems about it: first-committer-wins over the pruned index, the absence
    of committed pivots, and the acyclicity of the dependency graph of the
    committed serializable writers. *)

From S2P Require Import Prelude Oracle.

(** ** Operations *)

Definition RegisterSSI (txnID startVer : Z) (o : oracle) : oracle :=
  set_ssiLive (<[txnID := SsiTxn startVer ∅ false false false]> (ssiLive o)) o.

Definition ReleaseSSI (txnID : Z) (o : oracle) : oracle :=
  set_ssiLive (delete txnID (ssiLive o)) o.

Definition set_inConflict (c : ssiCommitted) : ssiCommitted :=
  SsiCommitted (sc_commitVer c) (sc_startVer c) (sc_reads c) (sc_writes c)
    true (sc_outConflict c).
Definition set_outConflict (c : ssiCommitted) : ssiCommitted :=
  SsiCommitted (sc_commitVer c) (sc_startVer c) (sc_reads c) (sc_writes c)
    (sc_inConflict c) true.

(** The read-time loop over ssiRecent. *)
Fixpoint read_loop (startVer key : Z) (t : ssiTxn) (l : list ssiCommitted)
  : ssiTxn * list ssiCommitted :=
  match l with
  | [] => (t, [])
  | c :: l' =>
      if sc_commitVer c <=? startVer then
        let '(t', r) := read_loop startVer key t l' in (t', c :: r)
      else if slices_BinarySearch (sc_writes c) key then
        let c1 := set_inConflict c in
        let t1 := SsiTxn (st_startVer t) (st_reads t) (st_inConflict t) true
                    (st_doomed t || (sc_inConflict c1 && sc_outConflict c1)) in
        let '(t', r) := read_loop startVer key t1 l' in (t', c1 :: r)
      else
        let '(t', r) := read_loop startVer key t l' in (t', c :: r)
  end.

Definition RecordRead (txnID startVer key : Z) (o : oracle) : oracle :=
  match ssiLive o !! txnID with
  | None => o
  | Some t =>
      let t0 := SsiTxn (st_startVer t) ({[key]} ∪ st_reads t) (st_inConflict t)
                  (st_outConflict t) (st_doomed t) in
      let '(t', r) := read_loop startVer key t0 (ssiRecent o) in
      set_ssiRecent r (set_ssiLive (<[txnID := t']> (ssiLive o)) o)
  end.

Definition intersectsMapSorted (m : gset Z) (s : list Z) : bool :=
  existsb (fun k => bool_decide (k ∈ m)) s.

(** The loop over the live readers: which of them is a reader of [ws], and the
    flags it sets on them. Go iterates the map in no fixed order; each
    iteration writes its own entry and only sets flags, so the order does not
    matter. *)
Definition live_reader (txnID : Z) (ws : list Z) (id : Z) (t : ssiTxn) : bool :=
  negb (id =? txnID) && intersectsMapSorted (st_reads t) ws.

Definition mark_readers (txnID : Z) (ws : list Z) (m : gmap Z ssiTxn) : gmap Z ssiTxn :=
  map_imap (fun id t =>
    Some (if live_reader txnID ws id t
          then SsiTxn (st_startVer t) (st_reads t) (st_inConflict t) true (st_doomed t)
          else t)) m.

Definition any_reader (txnID : Z) (ws : list Z) (m : gmap Z ssiTxn) : bool :=
  map_fold (fun id t acc => acc || live_reader txnID ws id t) false m.

Definition any_pivot_reader (txnID : Z) (ws : list Z) (m : gmap Z ssiTxn) : bool :=
  map_fold (fun id t acc => acc || (live_reader txnID ws id t && st_inConflict t)) false m.

(** The loop over the recently committed transactions. *)
Record ssiFlags := SsiFlags { f_in : bool; f_out : bool; f_doomed : bool }.

Definition in_edge (ws : list Z) (p : ssiFlags * ssiCommitted) : ssiFlags * ssiCommitted :=
  let '(f, c) := p in
  if intersects (sc_reads c) ws then
    let c1 := set_outConflict c in
    (SsiFlags true (f_out f) (f_doomed f || (sc_inConflict c1 && sc_outConflict c1)), c1)
  else (f, c).

Definition out_edge (selfReads : option (gset Z)) (p : ssiFlags * ssiCommitted)
  : ssiFlags * ssiCommitted :=
  let '(f, c) := p in
  match selfReads with
  | Some m =>
      if intersectsMapSorted m (sc_writes c) then
        let c1 := set_inConflict c in
        (SsiFlags (f_in f) true (f_doomed f || (sc_inConflict c1 && sc_outConflict c1)), c1)
      else (f, c)
  | None => (f, c)
  end.

Fixpoint commit_loop (startVer : Z) (ws : list Z) (selfReads : option (gset Z))
    (f : ssiFlags) (l : list ssiCommitted) : ssiFlags * list ssiCommitted :=
  match l with
  | [] => (f, [])
  | c :: l' =>
      if sc_commitVer c <=? startVer then
        let '(f', r) := commit_loop startVer ws selfReads f l' in (f', c :: r)
      else
        let '(f1, c1) := out_edge selfReads (in_edge ws (f, c)) in
        let '(f', r) := commit_loop startVer ws selfReads f1 l' in (f', c1 :: r)
  end.

Fixpoint prune_ssi_cut (wm : Z) (r : list ssiCommitted) : list ssiCommitted :=
  match r with
  | [] => []
  | c :: r' => if sc_commitVer c <=? wm then prune_ssi_cut wm r' else r
  end.

Definition pruneSSILocked (o : oracle) : oracle :=
  set_ssiRecent (prune_ssi_cut (minLive o) (ssiRecent o)) o.

Definition abortSSILocked (startVer txnID : Z) (o : oracle) : oracle :=
  pruneSSILocked (pruneLocked (releaseLocked startVer (ReleaseSSI txnID o))).

(** The pivot detection of a commit: the flags and the marked structures. *)
Definition ssi_detect (startVer txnID : Z) (ws : list Z) (o : oracle)
  : ssiFlags * option (gset Z) * oracle :=
  let self := ssiLive o !! txnID in
  let selfReads := option_map st_reads self in
  let f0 := match self with
            | Some s => SsiFlags (st_inConflict s) (st_outConflict s) (st_doomed s)
            | None => SsiFlags false false false
            end in
  let f1 := SsiFlags (f_in f0 || any_reader txnID ws (ssiLive o)) (f_out f0)
              (f_doomed f0 || any_pivot_reader txnID ws (ssiLive o)) in
  let '(f2, r) := commit_loop startVer ws selfReads f1 (ssiRecent o) in
  (f2, selfReads, set_ssiRecent r (set_ssiLive (mark_readers txnID ws (ssiLive o)) o)).

Section commit_serializable.
Context {St : Type}.

Definition CommitSerializable (startVer txnID : Z) (writeSet : list Z)
    (durable : option (Z -> option txnErr)) (publish : option (Z -> St -> St))
    (o : oracle) (st : St) : (txnErr + Z) * oracle * St :=
  match find_conflict o startVer writeSet with
  | Some v => (inl (ConflictError v), abortSSILocked startVer txnID o, st)
  | None =>
      let '(f, selfReads, o1) := ssi_detect startVer txnID writeSet o in
      if f_doomed f || (f_in f && f_out f) then
        (inl SerializationFailureError, abortSSILocked startVer txnID o1, st)
      else
        let cv := u64 (commitVer o1 + 1) in
        match run_durable durable cv with
        | Some err => (inl err, abortSSILocked startVer txnID o1, st)
        | None =>
            let st' := run_publish publish cv st in
            let o2 := set_commitVer cv o1 in
            let o3 := set_recent (recent o2 ++ [CommittedTxn cv writeSet]) o2 in
            let o4 := set_ssiRecent (ssiRecent o3 ++
              [SsiCommitted cv startVer (sortedKeys (default ∅ selfReads)) writeSet
                 (f_in f) (f_out f)]) o3 in
            let o5 := ReleaseSSI txnID o4 in
            (inr cv, pruneSSILocked (pruneLocked (releaseLocked startVer o5)), st')
        end
  end.
End commit_serializable.

(** ** The transition system

    A transaction is begun, registered when it is serializable, reads, and ends
    with a commit attempt or a release; the two calls of a serializable release
    (ReleaseSSI, then Release) are two steps, as are Acquire and RegisterSSI,
    because each takes the oracle's mutex on its own. The log is a ghost
    history of the successful commits, [d_reads] the keys a transaction read. *)

Inductive phase := PFresh | PActive | PEnding.

Record desc := Desc {
  d_start : Z;
  d_ser : bool;
  d_phase : phase;
  d_reads : gset Z
}.

Record hist := Hist {
  h_start : Z;
  h_commit : Z;
  h_ser : bool;
  h_reads : gset Z;
  h_writes : list Z
}.

Record sys := Sys {
  s_o : oracle;
  s_txns : gmap Z desc;
  s_log : list hist
}.

Definition sys_init (v : Z) : sys := Sys (NewOracle v) ∅ [].

(** What a commit attempt adds to the history. *)
Definition log_commit (log : list hist) (d : desc) (ws : list Z) (r : txnErr + Z) : list hist :=
  match r with
  | inr cv => log ++ [Hist (d_start d) cv (d_ser d) (d_reads d) ws]
  | inl _ => log
  end.

Inductive step : sys -> sys -> Prop :=
| step_acquire o txns log ser s t o' :
    nextTxn o < max_u64 ->
    Acquire o = (s, t, o') ->
    step (Sys o txns log)
         (Sys o' (<[t := Desc s ser (if ser then PFresh else PActive) ∅]> txns) log)
| step_register o txns log t d :
    txns !! t = Some d -> d_ser d = true -> d_phase d = PFresh ->
    step (Sys o txns log)
         (Sys (RegisterSSI t (d_start d) o)
              (<[t := Desc (d_start d) true PActive ∅]> txns) log)
| step_read o txns log t d k :
    txns !! t = Some d -> d_ser d = true -> d_phase d = PActive ->
    step (Sys o txns log)
         (Sys (RecordRead t (d_start d) k o)
              (<[t := Desc (d_start d) true PActive ({[k]} ∪ d_reads d)]> txns) log)
| step_commit o txns log t d ws durable r o' (u : unit) :
    txns !! t = Some d -> d_ser d = false -> d_phase d = PActive ->
    StronglySorted Z.le ws -> commitVer o < max_u64 ->
    Commit (d_start d) ws durable None o tt = (r, o', u) ->
    step (Sys o txns log) (Sys o' (delete t txns) (log_commit log d ws r))
| step_commit_serializable o txns log t d ws durable r o' (u : unit) :
    txns !! t = Some d -> d_ser d = true -> d_phase d = PActive ->
    StronglySorted Z.le ws -> commitVer o < max_u64 ->
    CommitSerializable (d_start d) t ws durable None o tt = (r, o', u) ->
    step (Sys o txns log) (Sys o' (delete t txns) (log_commit log d ws r))
| step_release_ssi o txns log t d :
    txns !! t = Some d -> d_ser d = true -> d_phase d = PActive ->
    step (Sys o txns log)
         (Sys (ReleaseSSI t o)
              (<[t := Desc (d_start d) true PEnding (d_reads d)]> txns) log)
| step_release o txns log t d :
    txns !! t = Some d ->
    (d_ser d = false /\ d_phase d = PActive) \/ d_phase d = PEnding ->
    step (Sys o txns log) (Sys (Release (d_start d) o) (delete t txns) log).

Inductive reachable (v : Z) : sys -> Prop :=
| reach_init : in_u 64 v -> reachable v (sys_init v)
| reach_step s s' : reachable v s -> step s s' -> reachable v s'.

(** ** The dependency graph of the committed history

    Edges between committed transactions [a], [b] as snapshot isolation makes
    them: [b] overwrites [a] (ww), [b] reads what [a] wrote or something newer
    (wr), [a] read a version that [b] overwrote (rw, the antidependency). *)

Definition shares (R : gset Z) (W : list Z) : Prop := exists k, k ∈ R /\ k ∈ W.

Definition ww (a b : hist) : Prop :=
  (exists k, k ∈ h_writes a /\ k ∈ h_writes b) /\ h_commit a < h_commit b.
Definition wr (a b : hist) : Prop := shares (h_reads b) (h_writes a) /\ h_commit a <= h_start b.
Definition rw (a b : hist) : Prop :=
  shares (h_reads a) (h_writes b) /\ h_start a < h_commit b /\ h_commit a <> h_commit b.
Definition dep (a b : hist) : Prop := ww a b \/ wr a b \/ rw a b.

(** The edges the detector is about: an antidependency between concurrent
    serializable transactions. *)
Definition rwc (a b : hist) : Prop :=
  h_ser a = true /\ h_ser b = true /\ rw a b /\ h_start b < h_commit a.

(** A path of dependencies through committed serializable transactions. *)
Inductive dep_path (log : list hist) : hist -> hist -> Prop :=
| dep_one a b : a ∈ log -> b ∈ log -> h_ser a = true -> h_ser b = true ->
    dep a b -> dep_path log a b
| dep_more a b c : dep_path log a b -> c ∈ log -> h_ser c = true ->
    dep b c -> dep_path log a c.

(** ** Lemmas: the loops *)

#[local] Arguments in_edge : simpl never.
#[local] Arguments out_edge : simpl never.

Lemma intersectsMapSorted_true m s : intersectsMapSorted m s = true <-> shares m s.
Proof.
  unfold intersectsMapSorted, shares. rewrite existsb_exists.
  split; intros (k & Hk & Hk'); exists k.
  - rewrite bool_decide_eq_true in Hk'. by rewrite list_elem_of_In.
  - rewrite bool_decide_eq_true, <- list_elem_of_In. auto.
Qed.

Lemma intersects_sortedKeys R W :
  StronglySorted Z.le W -> intersects (sortedKeys R) W = true <-> shares R W.
Proof.
  intros. rewrite intersects_true by auto with doc. unfold shares.
  by setoid_rewrite elem_of_sortedKeys.
Qed.

Lemma prune_cut_spec wm r :
  exists d, r = d ++ prune_cut wm r /\ Forall (fun c => ct_commitVer c <= wm) d.
Proof.
  induction r as [|c r (d & E & Hd)]; simpl; [by exists []|].
  destruct (Z.leb_spec (ct_commitVer c) wm).
  - exists (c :: d). rewrite E at 1. split; [done|]. by constructor.
  - by exists [].
Qed.

Lemma prune_ssi_cut_spec wm r :
  exists d, r = d ++ prune_ssi_cut wm r /\ Forall (fun c => sc_commitVer c <= wm) d.
Proof.
  induction r as [|c r (d & E & Hd)]; simpl; [by exists []|].
  destruct (Z.leb_spec (sc_commitVer c) wm).
  - exists (c :: d). rewrite E at 1. split; [done|]. by constructor.
  - by exists [].
Qed.

(** On an index ordered by commit version, stopping at the first entry the
    snapshot sees loses nothing. *)
Lemma scan_conflict_None s ws l :
  StronglySorted (fun a b => ct_commitVer b < ct_commitVer a) l ->
  scan_conflict s ws l = None <->
  (forall c, c ∈ l -> s < ct_commitVer c -> intersects (ct_writeSet c) ws = false).
Proof.
  induction 1 as [|c l Hl IH Hc]; simpl.
  { split; [|done]. intros _ c []%not_elem_of_nil. }
  rewrite Forall_forall in Hc. destruct (Z.leb_spec (ct_commitVer c) s) as [Hle|Hgt].
  - split; [|done]. intros _ c' [->|Hc']%elem_of_cons; [lia|]. apply Hc in Hc'. lia.
  - destruct (intersects (ct_writeSet c) ws) eqn:E.
    + split; [done|]. intros H. rewrite H in E; [done|left|lia].
    + rewrite IH. split.
      * intros H c' [->|Hc']%elem_of_cons ?; auto.
      * intros H c' ? ?. apply H; [by right|done].
Qed.

Lemma StronglySorted_rev {A} (R : A -> A -> Prop) l :
  StronglySorted R l -> StronglySorted (fun a b => R b a) (rev l).
Proof.
  induction 1 as [|x l Hl IH Hx]; simpl; [constructor|].
  apply StronglySorted_app. split_and!; [|done|repeat constructor].
  intros a b Ha [->|[]%not_elem_of_nil]%elem_of_cons.
  rewrite Forall_forall in Hx. apply Hx. by rewrite list_elem_of_In, in_rev, <- list_elem_of_In.
Qed.

Definition ct_of (h : hist) : committedTxn := CommittedTxn (h_commit h) (h_writes h).

Definition hist_lt (a b : hist) : Prop := h_commit a < h_commit b.

(** ** The link between the retained records and the history *)

(** [c] is the retained record of [h]: its flags cover every edge that the
    history has at [h]. *)
Record entry_ok (log : list hist) (h : hist) (c : ssiCommitted) : Prop := {
  eo_commit : sc_commitVer c = h_commit h;
  eo_start : sc_startVer c = h_start h;
  eo_reads : sc_reads c = sortedKeys (h_reads h);
  eo_writes : sc_writes c = h_writes h;
  eo_sorted : StronglySorted Z.le (h_writes h);
  eo_in : forall a, a ∈ log -> rwc a h -> sc_inConflict c = true;
  eo_out : forall b, b ∈ log -> rwc h b -> sc_outConflict c = true
}.

Lemma entry_ok_inConflict log h c : entry_ok log h c -> entry_ok log h (set_inConflict c).
Proof. intros []. by split. Qed.

Lemma entry_ok_outConflict log h c : entry_ok log h c -> entry_ok log h (set_outConflict c).
Proof. intros []. by split. Qed.

#[local] Hint Resolve entry_ok_inConflict entry_ok_outConflict : doc.

Lemma read_loop_ok s k t l log kept :
  Forall2 (entry_ok log) kept l ->
  Forall2 (entry_ok log) kept (read_loop s k t l).2.
Proof.
  intros H. revert t. induction H as [|h c kept l Hc _ IH]; intros t; simpl; [constructor|].
  destruct (_ <=? _); [|destruct (slices_BinarySearch _ _)].
  all: match goal with |- context [read_loop _ _ ?u _] => specialize (IH u) end.
  all: destruct (read_loop _ _ _ _); simpl in *; constructor; auto with doc.
Qed.

Lemma read_loop_txn s k t l :
  st_reads (read_loop s k t l).1 = st_reads t /\
  st_startVer (read_loop s k t l).1 = st_startVer t.
Proof.
  revert t. induction l as [|c l IH]; intros t; simpl; [done|].
  destruct (_ <=? _); [|destruct (slices_BinarySearch _ _)].
  all: match goal with |- context [read_loop _ _ ?u _] => specialize (IH u) end.
  all: destruct (read_loop _ _ _ _); simpl in *; auto.
Qed.

Lemma commit_loop_keep s ws sr f l log kept :
  Forall2 (entry_ok log) kept l ->
  Forall2 (entry_ok log) kept (commit_loop s ws sr f l).2.
Proof.
  intros H. revert f. induction H as [|h c kept l Hc _ IH]; intros f; simpl; [constructor|].
  destruct (_ <=? _).
  - specialize (IH f). destruct (commit_loop _ _ _ _ _); simpl in *. by constructor.
  - destruct (out_edge sr (in_edge ws (f, c))) as [f1 c1] eqn:E.
    specialize (IH f1). destruct (commit_loop _ _ _ _ _); simpl in *.
    constructor; [|done]. unfold out_edge, in_edge in E.
    repeat case_match; simplify_eq; auto with doc.
Qed.

Lemma mark_readers_lookup t ws m id :
  mark_readers t ws m !! id =
  (fun u => if live_reader t ws id u
            then SsiTxn (st_startVer u) (st_reads u) (st_inConflict u) true (st_doomed u)
            else u) <$> m !! id.
Proof.
  unfold mark_readers. rewrite map_lookup_imap. by destruct (m !! id).
Qed.

(** What one iteration of the commit loop establishes about its record, for a
    committing transaction [T]: edges to and from [T] are on the record, and an
    edge that makes the record a pivot dooms the commit. *)
Record detected (log : list hist) (T h : hist) (f f' : ssiFlags) (c' : ssiCommitted) : Prop := {
  de_entry : entry_ok (log ++ [T]) h c';
  de_in : f_in f = true \/ rwc h T -> f_in f' = true;
  de_out : f_out f = true \/ rwc T h -> f_out f' = true;
  de_doom : f_doomed f = true -> f_doomed f' = true;
  de_pivot : rwc h T \/ rwc T h -> f_doomed f' = false ->
    sc_inConflict c' = false \/ sc_outConflict c' = false
}.

Lemma edges_detected log T h f c :
  entry_ok log h c -> h_ser T = true ->
  StronglySorted Z.le (h_writes T) -> h_start T < h_commit h ->
  let p := out_edge (Some (h_reads T)) (in_edge (h_writes T) (f, c)) in
  detected log T h f p.1 p.2.
Proof.
  intros [Ec Es Er Ew Hs Hi Ho] HT HsT Hlt. simpl.
  assert (Hin : rwc h T -> intersects (sc_reads c) (h_writes T) = true).
  { intros (_ & _ & (Hsh & _) & _). rewrite Er. by apply intersects_sortedKeys. }
  assert (Hout : rwc T h -> intersectsMapSorted (h_reads T) (sc_writes c) = true).
  { intros (_ & _ & (Hsh & _) & _). rewrite Ew. by apply intersectsMapSorted_true. }
  assert (Hni : intersects (sc_reads c) (h_writes T) = false -> ~ rwc h T).
  { intros E R. apply Hin in R. congruence. }
  assert (Hno : intersectsMapSorted (h_reads T) (sc_writes c) = false -> ~ rwc T h).
  { intros E R. apply Hout in R. congruence. }
  unfold in_edge, out_edge.
  destruct (intersects (sc_reads c) (h_writes T)) eqn:E1; simpl;
  destruct (intersectsMapSorted (h_reads T) (sc_writes c)) eqn:E2; simpl.
  all: split; simpl; try (by intuition); rewrite ?orb_true_r, ?andb_true_r; try (by intuition).
  all: try (by intros ->).
  all: try (split; simpl; try done; intros x [Hx|[->|[]%not_elem_of_nil]%elem_of_cons]%elem_of_app;
    solve [eauto | by intros ?%Hni | by intros ?%Hno | intros; exfalso; by intuition]).
  all: try (intros _ [? ?]%orb_false_iff; tauto).
Qed.

Lemma entry_ok_old log T h c :
  entry_ok log h c -> h_commit h <= h_start T -> entry_ok (log ++ [T]) h c.
Proof.
  intros [] Hle. split; try done.
  - intros a [Ha|Ha%list_elem_of_singleton]%elem_of_app; [by eauto|]. subst a.
    intros (_ & _ & (_ & ? & _) & _). lia.
  - intros b [Hb|Hb%list_elem_of_singleton]%elem_of_app; [by eauto|]. subst b.
    intros (_ & _ & _ & ?). lia.
Qed.

(** The whole commit loop. *)
Record loop_detected (log : list hist) (T : hist) (kept : list hist) (f f' : ssiFlags)
    (l' : list ssiCommitted) : Prop := {
  ld_entry : Forall2 (entry_ok (log ++ [T])) kept l';
  ld_in : f_in f = true \/ (exists h, h ∈ kept /\ rwc h T) -> f_in f' = true;
  ld_out : f_out f = true \/ (exists h, h ∈ kept /\ rwc T h) -> f_out f' = true;
  ld_doom : f_doomed f = true -> f_doomed f' = true;
  ld_pivot : f_doomed f' = false ->
    Forall2 (fun h c => rwc h T \/ rwc T h -> sc_inConflict c = false \/ sc_outConflict c = false)
      kept l'
}.

Lemma commit_loop_detected log T kept f l :
  Forall2 (entry_ok log) kept l -> h_ser T = true -> StronglySorted Z.le (h_writes T) ->
  let p := commit_loop (h_start T) (h_writes T) (Some (h_reads T)) f l in
  loop_detected log T kept f p.1 p.2.
Proof.
  intros Hl HT Hs. revert f. induction Hl as [|h c kept l Hc _ IH]; intros f; simpl.
  { split; simpl; try constructor; try tauto.
    - intros [?|(h & []%not_elem_of_nil & _)]; done.
    - intros [?|(h & []%not_elem_of_nil & _)]; done. }
  destruct (Z.leb_spec (sc_commitVer c) (h_start T)) as [Hle|Hgt];
    rewrite (eo_commit _ _ _ Hc) in *.
  - specialize (IH f). simpl in IH. destruct (commit_loop _ _ _ _ _) as [f' l']; simpl in *.
    destruct IH as [I1 I2 I3 I4 I5]. 
    assert (Hn : ~ (rwc h T \/ rwc T h)).
    { intros [(_ & _ & _ & ?)|(_ & _ & (_ & ? & _) & _)]; lia. }
    split; simpl; auto.
    + constructor; [by apply entry_ok_old|done].
    + intros [?|(x & [->|?]%elem_of_cons & ?)]; [auto|tauto|eauto].
    + intros [?|(x & [->|?]%elem_of_cons & ?)]; [auto|tauto|eauto].
    + intros Hd. constructor; [tauto|auto].
  - pose proof (edges_detected log T h f c Hc HT Hs Hgt) as D. simpl in D.
    destruct (out_edge _ (in_edge _ _)) as [f1 c1]. specialize (IH f1). simpl in IH.
    destruct (commit_loop _ _ _ _ _) as [f' l']; simpl in *.
    destruct D as [D1 D2 D3 D4 D5], IH as [I1 I2 I3 I4 I5]. split; simpl; auto.
    + intros [?|(x & [->|?]%elem_of_cons & ?)]; apply I2; eauto.
    + intros [?|(x & [->|?]%elem_of_cons & ?)]; apply I3; eauto.
    + intros Hd. constructor; [|auto]. intros He. apply D5; [done|].
      destruct (f_doomed f1) eqn:E; [|done]. rewrite I4 in Hd; [done|auto].
Qed.

(** ** The invariant *)

Definition recent_ok (m : Z) (r : list committedTxn) (log : list hist) : Prop :=
  exists d, map ct_of log = d ++ r /\ Forall (fun c => ct_commitVer c <= m) d.

Definition ser_log (log : list hist) : list hist := filter (fun h => h_ser h = true) log.

Definition ssi_ok (m : Z) (r : list ssiCommitted) (log : list hist) : Prop :=
  exists d kept, ser_log log = d ++ kept /\ Forall2 (entry_ok log) kept r /\
    Forall (fun h => h_commit h <= m) d.

Definition count_start (v : Z) (txns : gmap Z desc) : nat :=
  size (filter (fun p => d_start p.2 = v) txns).

Record snap_ok (o : oracle) (txns : gmap Z desc) : Prop := {
  sn_o : oracle_ok o;
  sn_cnt : forall v, default 0 (live o !! v) = Z.of_nat (count_start v txns);
  sn_next : 0 <= nextTxn o <= max_u64;
  sn_fresh : forall t d, txns !! t = Some d -> t <= nextTxn o;
  sn_reg : forall t d, txns !! t = Some d -> d_ser d = true -> d_phase d = PActive ->
    exists st, ssiLive o !! t = Some st /\ st_reads st = d_reads d
}.

Record log_ok (o : oracle) (log : list hist) : Prop := {
  lg_sorted : StronglySorted hist_lt log;
  lg_range : forall h, h ∈ log -> 0 <= h_start h < h_commit h /\ h_commit h <= commitVer o;
  lg_writes : forall h, h ∈ log -> StronglySorted Z.le (h_writes h);
  lg_recent : recent_ok (minLive o) (recent o) log;
  lg_ssi : ssi_ok (minLive o) (ssiRecent o) log;
  lg_fcw : forall a b, a ∈ log -> b ∈ log -> h_start b < h_commit a < h_commit b ->
    forall k, k ∈ h_writes a -> k ∈ h_writes b -> False;
  lg_pivot : forall a b c, a ∈ log -> b ∈ log -> c ∈ log -> rwc a b -> rwc b c -> False
}.

Record inv (s : sys) : Prop := {
  inv_snap : snap_ok (s_o s) (s_txns s);
  inv_log : log_ok (s_o s) (s_log s)
}.

(** *** Pruning keeps the retained windows complete *)

Lemma recent_ok_mono m m' r log : recent_ok m r log -> m <= m' -> recent_ok m' r log.
Proof.
  intros (d & E & Hd) Hm. exists d. split; [done|]. eapply Forall_impl; [done|].
  intros c ?; simpl in *; lia.
Qed.

Lemma recent_ok_prune m r log : recent_ok m r log -> recent_ok m (prune_cut m r) log.
Proof.
  intros (d & E & Hd). destruct (prune_cut_spec m r) as (d' & E' & Hd').
  exists (d ++ d'). rewrite <- app_assoc, <- E'. split; [done|]. by apply Forall_app.
Qed.

Lemma ssi_ok_mono m m' r log : ssi_ok m r log -> m <= m' -> ssi_ok m' r log.
Proof.
  intros (d & k & E & Hk & Hd) Hm. exists d, k. split_and!; [done|done|].
  eapply Forall_impl; [done|]. intros c ?; simpl in *; lia.
Qed.

Lemma ssi_ok_prune m r log : ssi_ok m r log -> ssi_ok m (prune_ssi_cut m r) log.
Proof.
  intros (d & k & E & Hk & Hd). destruct (prune_ssi_cut_spec m r) as (d' & E' & Hd').
  rewrite E' in Hk. apply Forall2_app_inv_r in Hk as (k1 & k2 & Hk1 & Hk2 & ->).
  exists (d ++ k1), k2. rewrite <- app_assoc. split_and!; [done|done|].
  apply Forall_app. split; [done|].
  clear -Hk1 Hd'. induction Hk1 as [|h c ks cs Hc _ IH]; [constructor|].
  apply Forall_cons in Hd' as [? ?]. constructor; [|auto].
  by rewrite <- (eo_commit _ _ _ Hc).
Qed.

(** The log invariant only needs the commit version, the watermark and the two
    windows; it survives a rising watermark and pruning. *)
Lemma log_ok_ext o o' log :
  log_ok o log -> commitVer o <= commitVer o' ->
  recent_ok (minLive o') (recent o') log -> ssi_ok (minLive o') (ssiRecent o') log ->
  log_ok o' log.
Proof.
  intros [] ? ? ?. split; try done. intros h Hh. destruct (lg_range0 h Hh). lia.
Qed.

(** *** Releasing one snapshot of a live transaction *)

Lemma count_start_insert v t d txns :
  txns !! t = None ->
  count_start v (<[t := d]> txns) = ((if decide (d_start d = v) then 1 else 0) + count_start v txns)%nat.
Proof.
  intros Ht. unfold count_start. case_decide.
  - rewrite map_filter_insert_True by done.
    rewrite map_size_insert_None; [done|]. apply map_lookup_filter_None. auto.
  - rewrite map_filter_insert_False by done. by rewrite delete_id.
Qed.

Lemma count_start_delete v t d txns :
  txns !! t = Some d ->
  count_start v txns = ((if decide (d_start d = v) then 1 else 0) + count_start v (delete t txns))%nat.
Proof.
  intros Ht. rewrite <- (count_start_insert _ t) by apply lookup_delete_eq.
  by rewrite insert_delete_id.
Qed.

Lemma count_start_update v t d d' txns :
  txns !! t = Some d -> d_start d' = d_start d ->
  count_start v (<[t := d']> txns) = count_start v txns.
Proof.
  intros Ht E. rewrite (count_start_delete v t d txns) by done.
  rewrite <- insert_delete_eq, count_start_insert by apply lookup_delete_eq. by rewrite E.
Qed.

Lemma snap_live o txns t d :
  snap_ok o txns -> txns !! t = Some d -> is_Some (live o !! d_start d).
Proof.
  intros Hs Ht. pose proof (sn_cnt _ _ Hs (d_start d)) as Hc.
  rewrite (count_start_delete _ t d) in Hc by done. rewrite decide_True in Hc by done.
  destruct (live o !! d_start d); [eauto|]. simpl in Hc. lia.
Qed.

Lemma default_live_release s o v :
  oracle_ok o -> is_Some (live o !! s) ->
  default 0 (live (releaseLocked s o) !! v) =
  default 0 (live o !! v) - (if decide (s = v) then 1 else 0).
Proof.
  intros Ho [n Hn]. pose proof (ok_live _ Ho s n Hn) as [_ ?].
  destruct (releaseLocked_fields s o) as (_ & _ & _ & _ & _ & ->).
  rewrite Hn. simpl. case_decide as E; [subst v; rewrite Hn; simpl|]; destruct (Z.leb_spec n 1).
  - rewrite lookup_delete_eq. simpl. lia.
  - rewrite lookup_insert_eq. simpl. lia.
  - rewrite lookup_delete_ne by done. lia.
  - rewrite lookup_insert_ne by done. lia.
Qed.

(** *** First-committer-wins on the pruned index *)

Lemma recent_in_log o log c :
  log_ok o log -> c ∈ recent o -> exists h, h ∈ log /\ c = ct_of h.
Proof.
  intros Hl Hc. destruct (lg_recent _ _ Hl) as (d & E & _).
  assert (c ∈ map ct_of log) as H by (rewrite E; apply elem_of_app; auto).
  apply list_elem_of_In, in_map_iff in H as (h & <- & H). exists h.
  by rewrite list_elem_of_In.
Qed.

Lemma log_in_recent o log h :
  log_ok o log -> h ∈ log -> minLive o < h_commit h -> ct_of h ∈ recent o.
Proof.
  intros Hl Hh Hm. destruct (lg_recent _ _ Hl) as (d & E & Hd).
  assert (ct_of h ∈ d ++ recent o) as [Hi|?]%elem_of_app; [|exfalso|done].
  - rewrite <- E. apply list_elem_of_In, in_map_iff. exists h. by rewrite <- list_elem_of_In.
  - rewrite Forall_forall in Hd. apply Hd in Hi. simpl in Hi. lia.
Qed.

Lemma recent_sorted o log :
  log_ok o log -> StronglySorted (fun a b => ct_commitVer a < ct_commitVer b) (recent o).
Proof.
  intros Hl. destruct (lg_recent _ _ Hl) as (d & E & _).
  eapply StronglySorted_app_1_r. rewrite <- E.
  pose proof (lg_sorted _ _ Hl) as Hs. clear -Hs. induction Hs as [|h l Hs IH Hh]; simpl;
    constructor; [done|].
  rewrite Forall_forall in Hh. apply Forall_forall. intros c Hc.
  apply list_elem_of_In, in_map_iff in Hc as (h' & <- & Hh'). apply Hh. by apply list_elem_of_In.
Qed.

Lemma find_conflict_None_log o log s ws :
  log_ok o log -> minLive o <= s -> StronglySorted Z.le ws ->
  find_conflict o s ws = None <->
  (forall h, h ∈ log -> s < h_commit h -> ~ exists k, k ∈ h_writes h /\ k ∈ ws).
Proof.
  intros Hl Hm Hw. unfold find_conflict. rewrite scan_conflict_None.
  2:{ apply StronglySorted_rev. by eapply recent_sorted. }
  assert (Hin : forall c, c ∈ rev (recent o) <-> c ∈ recent o).
  { intros c. by rewrite !list_elem_of_In, <- in_rev. }
  split.
  - intros H h Hh Hs Hex. specialize (H (ct_of h)). rewrite Hin in H.
    rewrite <- not_true_iff_false in H. apply H; [|done|].
    + eapply log_in_recent; [done..|lia].
    + apply intersects_true; [by apply (lg_writes _ _ Hl)|done|done].
  - intros H c Hc Hs. rewrite Hin in Hc. apply (recent_in_log _ _ _ Hl) in Hc as (h & Hh & ->).
    apply not_true_iff_false. rewrite intersects_true; [by apply H|by apply (lg_writes _ _ Hl)|done].
Qed.

Lemma scan_conflict_Some s ws l v :
  scan_conflict s ws l = Some v ->
  exists c, c ∈ l /\ ct_commitVer c = v /\ s < v /\ intersects (ct_writeSet c) ws = true.
Proof.
  induction l as [|c l IH]; simpl; [done|].
  destruct (Z.leb_spec (ct_commitVer c) s); [done|].
  destruct (intersects (ct_writeSet c) ws) eqn:E.
  - intros [= <-]. exists c. split_and!; [left|done|lia|done].
  - intros (c' & ? & ?)%IH. exists c'. split; [by right|done].
Qed.

(** *** Appending a commit to the history *)

Lemma ser_log_elem h log : h ∈ ser_log log <-> h ∈ log /\ h_ser h = true.
Proof. unfold ser_log. rewrite list_elem_of_filter. tauto. Qed.

Lemma ser_log_app log h :
  ser_log (log ++ [h]) = ser_log log ++ (if h_ser h then [h] else []).
Proof.
  unfold ser_log. rewrite filter_app. f_equal.
  destruct (h_ser h) eqn:E.
  - by rewrite filter_cons_True.
  - rewrite filter_cons_False; [done|congruence].
Qed.

Lemma rwc_ser a b : rwc a b -> h_ser a = true /\ h_ser b = true.
Proof. unfold rwc. tauto. Qed.

Lemma entry_ok_unser log T h c :
  entry_ok log h c -> h_ser T = false -> entry_ok (log ++ [T]) h c.
Proof.
  intros [] HT. split; try done.
  - intros a [Ha|Ha%list_elem_of_singleton]%elem_of_app; [by eauto|]. subst a.
    intros [? ?]%rwc_ser. congruence.
  - intros b [Hb|Hb%list_elem_of_singleton]%elem_of_app; [by eauto|]. subst b.
    intros [? ?]%rwc_ser. congruence.
Qed.

(** A committed transaction with an edge to or from a transaction that started
    at or above the watermark is still retained. *)
Lemma ssi_kept m r log T d kept h :
  ser_log log = d ++ kept -> Forall2 (entry_ok log) kept r ->
  Forall (fun h => h_commit h <= m) d -> m <= h_start T ->
  h ∈ log -> rwc h T \/ rwc T h -> h ∈ kept.
Proof.
  intros E _ Hd Hm Hh He.
  assert (h_ser h = true) by (destruct He as [?%rwc_ser|?%rwc_ser]; tauto).
  assert (h ∈ ser_log log) as Hi by by apply ser_log_elem.
  rewrite E in Hi. apply elem_of_app in Hi as [Hi|?]; [|done]. exfalso.
  rewrite Forall_forall in Hd. apply Hd in Hi.
  destruct He as [(_ & _ & _ & ?)|(_ & _ & (_ & ? & _) & _)]; lia.
Qed.

Lemma log_snoc_common o log T :
  log_ok o log -> h_commit T = commitVer o + 1 -> 0 <= h_start T <= commitVer o ->
  minLive o <= h_start T -> StronglySorted Z.le (h_writes T) ->
  find_conflict o (h_start T) (h_writes T) = None ->
  StronglySorted hist_lt (log ++ [T]) /\
  (forall h, h ∈ log ++ [T] -> 0 <= h_start h < h_commit h /\ h_commit h <= commitVer o + 1) /\
  (forall h, h ∈ log ++ [T] -> StronglySorted Z.le (h_writes h)) /\
  recent_ok (minLive o) (recent o ++ [ct_of T]) (log ++ [T]) /\
  (forall a b, a ∈ log ++ [T] -> b ∈ log ++ [T] -> h_start b < h_commit a < h_commit b ->
    forall k, k ∈ h_writes a -> k ∈ h_writes b -> False).
Proof.
  intros Hl Hcv Hst Hm Hw Hf. pose proof (lg_range _ _ Hl) as Hr.
  split_and!.
  - apply StronglySorted_app. split_and!; [|apply Hl|repeat constructor].
    intros a b Ha Hb%list_elem_of_singleton. subst b. apply Hr in Ha. unfold hist_lt. lia.
  - intros h [Hh|Hh%list_elem_of_singleton]%elem_of_app; [apply Hr in Hh; lia|subst; lia].
  - intros h [Hh|Hh%list_elem_of_singleton]%elem_of_app; [by apply (lg_writes _ _ Hl)|by subst].
  - destruct (lg_recent _ _ Hl) as (d & E & Hd). exists d. split; [|done].
    rewrite map_app, E. by rewrite <- app_assoc.
  - intros a b Ha Hb Hab k Hka Hkb.
    rewrite find_conflict_None_log in Hf by done.
    apply elem_of_app in Ha as [Ha|Ha%list_elem_of_singleton];
      apply elem_of_app in Hb as [Hb|Hb%list_elem_of_singleton]; subst.
    + by apply (lg_fcw _ _ Hl a b Ha Hb Hab k).
    + apply (Hf a Ha); [lia|eauto].
    + apply Hr in Hb. lia.
    + lia.
Qed.

Lemma elem_of_log_snoc (T h : hist) log :
  h ∈ log ++ [T] -> h ∈ log \/ h = T.
Proof. rewrite elem_of_app, list_elem_of_singleton. done. Qed.

Lemma rwc_irrefl T : ~ rwc T T.
Proof. intros (_ & _ & (_ & _ & ?) & _). done. Qed.

(** A snapshot-isolation commit. *)
Lemma log_ok_commit_si o o' log T :
  log_ok o log -> h_ser T = false ->
  h_commit T = commitVer o + 1 -> 0 <= h_start T <= commitVer o ->
  minLive o <= h_start T -> StronglySorted Z.le (h_writes T) ->
  find_conflict o (h_start T) (h_writes T) = None ->
  commitVer o' = commitVer o + 1 -> minLive o <= minLive o' ->
  recent o' = prune_cut (minLive o') (recent o ++ [ct_of T]) ->
  ssiRecent o' = ssiRecent o ->
  log_ok o' (log ++ [T]).
Proof.
  intros Hl HT Hcv Hst Hm Hw Hf Ecv Hm' Er Es.
  destruct (log_snoc_common o log T) as (H1 & H2 & H3 & H4 & H5); try done.
  assert (Hin : forall h, h ∈ log ++ [T] -> h_ser h = true -> h ∈ log).
  { intros h [?| ->]%elem_of_log_snoc ?; [done|congruence]. }
  split; rewrite ?Ecv, ?Er, ?Es; try done.
  - apply recent_ok_prune. by eapply recent_ok_mono.
  - eapply ssi_ok_mono; [|done]. destruct (lg_ssi _ _ Hl) as (d & kept & E & Hk & Hd).
    exists d, kept. rewrite ser_log_app, HT, app_nil_r. split_and!; [done| |done].
    eapply Forall2_impl; [done|]. intros; by apply entry_ok_unser.
  - intros a b c Ha Hb Hc Hab Hbc.
    pose proof (rwc_ser _ _ Hab) as [? ?]. pose proof (rwc_ser _ _ Hbc) as [? ?].
    eapply (lg_pivot _ _ Hl a b c); eauto.
Qed.

(** A serializable commit whose detection neither doomed it nor found it to be
    a pivot. *)
Lemma no_new_pivot log T kept f f' r :
  (forall a b c, a ∈ log -> b ∈ log -> c ∈ log -> rwc a b -> rwc b c -> False) ->
  (forall h, h ∈ log -> rwc h T \/ rwc T h -> h ∈ kept) ->
  loop_detected log T kept f f' r ->
  f_doomed f' = false -> (f_in f' && f_out f') = false ->
  forall a b c, a ∈ log ++ [T] -> b ∈ log ++ [T] -> c ∈ log ++ [T] ->
    rwc a b -> rwc b c -> False.
Proof.
  intros Hp Hkept [L1 L2 L3 L4 L5] Hd Hio a b c Ha Hb Hc Hab Hbc.
  pose proof (elem_of_log_snoc _ _ _ Ha) as Ha'. pose proof (elem_of_log_snoc _ _ _ Hc) as Hc'.
  apply elem_of_log_snoc in Hb as [Hb| ->].
  - (* an old record in the middle *)
    destruct Ha' as [Ha'| ->], Hc' as [Hc'| ->]; [by eapply (Hp a b c)| | |].
    all: assert (Hbk : b ∈ kept) by eauto.
    all: apply list_elem_of_lookup in Hbk as [i Hi].
    all: destruct (Forall2_lookup_l _ _ _ _ _ L1 Hi) as (e & He & Hee).
    all: destruct (Forall2_lookup_l _ _ _ _ _ (L5 Hd) Hi) as (e' & He' & Hno).
    all: simplify_eq; destruct Hno as [Hno|Hno]; [by auto..|idtac|idtac].
    all: first [ rewrite (eo_in _ _ _ Hee a) in Hno by done
               | rewrite (eo_in _ _ _ Hee T) in Hno by done
               | rewrite (eo_out _ _ _ Hee c) in Hno by done
               | rewrite (eo_out _ _ _ Hee T) in Hno by done ]; done.
  - (* the committing transaction in the middle *)
    destruct Ha' as [Ha'| ->]; [|by apply rwc_irrefl in Hab].
    destruct Hc' as [Hc'| ->]; [|by apply rwc_irrefl in Hbc].
    rewrite L2, L3 in Hio; [done| |]; right; eauto.
Qed.

Lemma log_ok_commit_ser o o' log T kept d f f' r :
  log_ok o log -> h_ser T = true ->
  h_commit T = commitVer o + 1 -> 0 <= h_start T <= commitVer o ->
  minLive o <= h_start T -> StronglySorted Z.le (h_writes T) ->
  find_conflict o (h_start T) (h_writes T) = None ->
  ser_log log = d ++ kept -> Forall2 (entry_ok log) kept (ssiRecent o) ->
  Forall (fun h => h_commit h <= minLive o) d ->
  loop_detected log T kept f f' r ->
  f_doomed f' = false -> (f_in f' && f_out f') = false ->
  commitVer o' = commitVer o + 1 -> minLive o <= minLive o' ->
  recent o' = prune_cut (minLive o') (recent o ++ [ct_of T]) ->
  ssiRecent o' = prune_ssi_cut (minLive o')
    (r ++ [SsiCommitted (h_commit T) (h_start T) (sortedKeys (h_reads T)) (h_writes T)
             (f_in f') (f_out f')]) ->
  log_ok o' (log ++ [T]).
Proof.
  intros Hl HT Hcv Hst Hm Hw Hf E Hk Hd L Hdm Hio Ecv Hm' Er Es.
  destruct (log_snoc_common o log T) as (H1 & H2 & H3 & H4 & H5); try done.
  assert (Hkept : forall h, h ∈ log -> rwc h T \/ rwc T h -> h ∈ kept).
  { intros h Hh He. by eapply ssi_kept. }
  split; rewrite ?Ecv, ?Er, ?Es; try done.
  - apply recent_ok_prune. by eapply recent_ok_mono.
  - apply ssi_ok_prune. eapply ssi_ok_mono; [|done].
    exists d, (kept ++ [T]). rewrite ser_log_app, HT, E, <- app_assoc. split_and!; [done| |done].
    apply Forall2_app; [apply (ld_entry _ _ _ _ _ _ L)|]. constructor; [|constructor].
    split; simpl; try done.
    + intros a [Ha| ->]%elem_of_log_snoc He; [|by apply rwc_irrefl in He].
      apply (ld_in _ _ _ _ _ _ L). right; eauto.
    + intros b [Hb| ->]%elem_of_log_snoc He; [|by apply rwc_irrefl in He].
      apply (ld_out _ _ _ _ _ _ L). right; eauto.
  - eapply no_new_pivot; try done. apply (lg_pivot _ _ Hl).
Qed.

(** *** The transaction map *)

Lemma snap_ok_acquire o txns s t o' ser :
  snap_ok o txns -> nextTxn o < max_u64 -> Acquire o = (s, t, o') ->
  txns !! t = None /\
  snap_ok o' (<[t := Desc s ser (if ser then PFresh else PActive) ∅]> txns).
Proof.
  intros Hs Hn HA. pose proof (Acquire_ok _ _ _ _ (sn_o _ _ Hs) HA) as Ho'.
  apply Acquire_state in HA as (Es & Et & Ecv & Ent & El & _ & _ & Esl & _).
  destruct (sn_next _ _ Hs) as [Hn0 _].
  rewrite wrap_small in Et by (unfold in_u, max_u64 in *; lia).
  assert (Hf : txns !! t = None).
  { destruct (txns !! t) eqn:E; [|done]. apply (sn_fresh _ _ Hs) in E. lia. }
  split; [done|]. split; [done| | | |].
  - intros v. rewrite El, count_start_insert by done. simpl.
    rewrite Nat2Z.inj_add, <- (sn_cnt _ _ Hs). case_decide as E.
    + subst v. rewrite lookup_insert_eq. simpl. lia.
    + rewrite lookup_insert_ne by done. simpl. lia.
  - lia.
  - intros t' d' [[<- <-]|[? Ht']]%lookup_insert_Some; [lia|].
    apply (sn_fresh _ _ Hs) in Ht'. lia.
  - rewrite Esl. intros t' d' [[<- <-]|[? Ht']]%lookup_insert_Some; simpl.
    + by intros ->.
    + by apply (sn_reg _ _ Hs).
Qed.

Lemma snap_ok_retire o o1 o' txns t d :
  snap_ok o txns -> txns !! t = Some d ->
  oracle_ok o1 -> live o1 = live o -> oracle_ok o' ->
  live o' = live (releaseLocked (d_start d) o1) -> nextTxn o' = nextTxn o ->
  (forall id st, id <> t -> ssiLive o !! id = Some st ->
    exists st', ssiLive o' !! id = Some st' /\ st_reads st' = st_reads st) ->
  snap_ok o' (delete t txns).
Proof.
  intros Hs Ht Ho1 E1 Ho' El En Hl.
  pose proof (snap_live _ _ _ _ Hs Ht) as Hlive.
  split; [done| | | |].
  - intros v. rewrite El, default_live_release by (rewrite ?E1; done).
    rewrite E1, (sn_cnt _ _ Hs), (count_start_delete v t d) by done.
    case_decide; lia.
  - rewrite En. apply (sn_next _ _ Hs).
  - rewrite En. intros t' d' [_ Ht']%lookup_delete_Some. by eapply (sn_fresh _ _ Hs).
  - intros t' d' [? Ht']%lookup_delete_Some Hser Hph.
    destruct (sn_reg _ _ Hs t' d' Ht' Hser Hph) as (st & Hst & Hr).
    destruct (Hl t' st) as (st' & ? & ?); [done..|]. exists st'. split; [done|]. congruence.
Qed.

(** Updating the phase or the reads of one transaction. *)
Lemma snap_ok_update o o' txns t d d' :
  snap_ok o txns -> txns !! t = Some d -> d_start d' = d_start d ->
  commitVer o' = commitVer o -> live o' = live o -> minLive o' = minLive o ->
  nextTxn o' = nextTxn o ->
  (forall id st, id <> t -> ssiLive o !! id = Some st ->
    exists st', ssiLive o' !! id = Some st' /\ st_reads st' = st_reads st) ->
  (d_ser d' = true -> d_phase d' = PActive ->
    exists st, ssiLive o' !! t = Some st /\ st_reads st = d_reads d') ->
  snap_ok o' (<[t := d']> txns).
Proof.
  intros Hs Ht Ed Ecv El Em En Hl Hd'. split.
  - eapply oracle_ok_ext; [..|apply (sn_o _ _ Hs)]; done.
  - intros v. rewrite El, (sn_cnt _ _ Hs). by rewrite (count_start_update v t d d').
  - rewrite En. apply (sn_next _ _ Hs).
  - rewrite En. intros t' d'' [[<- _]|[? Ht']]%lookup_insert_Some.
    + by eapply (sn_fresh _ _ Hs).
    + by eapply (sn_fresh _ _ Hs).
  - intros t' d'' [[<- <-]|[? Ht']]%lookup_insert_Some Hser Hph; [auto|].
    destruct (sn_reg _ _ Hs t' d'' Ht' Hser Hph) as (st & Hst & Hr).
    destruct (Hl t' st) as (st' & ? & ?); [done..|]. exists st'. split; [done|]. congruence.
Qed.

(** *** Each step preserves the invariant *)

Lemma inv_retire o o1 o' txns log t d :
  snap_ok o txns -> log_ok o1 log -> txns !! t = Some d ->
  oracle_ok o1 -> live o1 = live o -> nextTxn o1 = nextTxn o ->
  (forall id st, id <> t -> ssiLive o !! id = Some st ->
    exists st', ssiLive o' !! id = Some st' /\ st_reads st' = st_reads st) ->
  o' = Release (d_start d) o1 \/ o' = abortSSILocked (d_start d) t o1 ->
  inv (Sys o' (delete t txns) log).
Proof.
  intros Hs Hl Ht Ho1 E1 En Hssi Hcase.
  assert (Hlive : is_Some (live o1 !! d_start d)) by (rewrite E1; by eapply snap_live).
  pose proof (releaseLocked_fields (d_start d) o1) as (Ecv & En1 & Er & Esl & Esr & _).
  pose proof (releaseLocked_minLive_le _ _ Ho1 Hlive) as Hm.
  destruct Hcase as [-> | ->]; split; simpl.
  - eapply snap_ok_retire; try done; [by apply Release_ok|simpl; congruence].
  - eapply log_ok_ext; [done|simpl; lia| |]; simpl; rewrite ?Er, ?Esr.
    + apply recent_ok_prune. eapply recent_ok_mono; [apply (lg_recent _ _ Hl)|done].
    + eapply ssi_ok_mono; [apply (lg_ssi _ _ Hl)|done].
  - assert (Ho2 : oracle_ok (ReleaseSSI t o1)) by by eapply oracle_ok_ext; [..|exact Ho1].
    eapply (snap_ok_retire o (ReleaseSSI t o1)); try done.
    + eapply oracle_ok_ext; [..|apply (releaseLocked_ok (d_start d) (ReleaseSSI t o1))]; done.
    + simpl. pose proof (releaseLocked_fields (d_start d) (ReleaseSSI t o1)) as (_ & E & _).
      rewrite E. done.
  - pose proof (releaseLocked_fields (d_start d) (ReleaseSSI t o1)) as (Ecv' & _ & Er' & _ & Esr' & El').
    assert (Em : minLive (releaseLocked (d_start d) (ReleaseSSI t o1)) =
      minLive (releaseLocked (d_start d) o1)).
    { unfold releaseLocked. simpl. repeat case_match; done. }
    eapply log_ok_ext; [done|simpl; rewrite Ecv'; simpl; lia| |]; simpl; rewrite ?Er', ?Esr', Em.
    + apply recent_ok_prune. eapply recent_ok_mono; [apply (lg_recent _ _ Hl)|done].
    + apply ssi_ok_prune. eapply ssi_ok_mono; [apply (lg_ssi _ _ Hl)|done].
Qed.

Lemma Commit_spec s ws du o r o' u :
  Commit s ws du None o tt = (r, o', u) ->
  (exists e, r = inl e /\ o' = Release s o) \/
  (find_conflict o s ws = None /\ r = inr (u64 (commitVer o + 1)) /\
   o' = Release s (set_recent (recent o ++ [CommittedTxn (u64 (commitVer o + 1)) ws])
          (set_commitVer (u64 (commitVer o + 1)) o))).
Proof.
  unfold Commit. destruct (find_conflict o s ws); [intros [= <- <- _]; eauto|].
  destruct (run_durable _ _); intros [= <- <- _]; eauto.
Qed.

Lemma inv_commit_si o txns log t d ws du r o' u :
  inv (Sys o txns log) -> txns !! t = Some d -> d_ser d = false ->
  StronglySorted Z.le ws -> commitVer o < max_u64 ->
  Commit (d_start d) ws du None o tt = (r, o', u) ->
  inv (Sys o' (delete t txns) (log_commit log d ws r)).
Proof.
  intros [Hs Hl] Ht Hser Hw Hmax HC. simpl in *.
  pose proof (sn_o _ _ Hs) as Ho. pose proof (snap_live _ _ _ _ Hs Ht) as Hlive.
  apply Commit_spec in HC as [(e & -> & ->)|(Hf & -> & ->)]; simpl.
  { eapply inv_retire; try done; [|by left].
    intros id st ? ?. exists st. simpl.
    by rewrite (proj1 (proj2 (proj2 (proj2 (releaseLocked_fields _ _))))). }
  pose proof (ok_cv _ Ho) as Hcv. destruct Hlive as [n Hn].
  pose proof (ok_live _ Ho _ _ Hn) as [Hst _].
  pose proof (ok_min_le _ Ho _ (mk_is_Some _ _ Hn)) as Hmin.
  set (o2 := set_recent _ (set_commitVer _ o)).
  assert (Ho2 : oracle_ok o2) by (by apply oracle_ok_bump with (s := d_start d)).
  pose proof (releaseLocked_fields (d_start d) o2) as (Ecv & En1 & Er & Esl & Esr & _).
  assert (E64 : u64 (commitVer o + 1) = commitVer o + 1).
  { apply wrap_small. unfold in_u, max_u64 in *. lia. }
  split; simpl.
  - eapply (snap_ok_retire o o2); try done; [by apply Release_ok|].
    intros id st ? ?. exists st. simpl. by rewrite Esl.
  - eapply (log_ok_commit_si o); try done; simpl; try lia.
    + rewrite Ecv. simpl. lia.
    + change (minLive o) with (minLive o2). by apply releaseLocked_minLive_le.
    + rewrite Er. done.
Qed.

Lemma ssi_detect_fields s t ws o f sr o1 :
  ssi_detect s t ws o = (f, sr, o1) ->
  commitVer o1 = commitVer o /\ nextTxn o1 = nextTxn o /\ live o1 = live o /\
  minLive o1 = minLive o /\ recent o1 = recent o /\
  ssiLive o1 = mark_readers t ws (ssiLive o) /\
  sr = option_map st_reads (ssiLive o !! t) /\
  exists f1, (f, ssiRecent o1) = commit_loop s ws sr f1 (ssiRecent o).
Proof.
  unfold ssi_detect. destruct (commit_loop _ _ _ _ _) as [f2 r] eqn:E.
  intros [= <- <- <-]. simpl. split_and!; try done. by eexists.
Qed.

Lemma CommitSerializable_spec s t ws du o r o' u :
  CommitSerializable s t ws du None o tt = (r, o', u) ->
  (exists e v, r = inl e /\ find_conflict o s ws = Some v /\ o' = abortSSILocked s t o) \/
  (exists e f sr o1, r = inl e /\ ssi_detect s t ws o = (f, sr, o1) /\
     o' = abortSSILocked s t o1) \/
  (exists f sr o1 cv, find_conflict o s ws = None /\ ssi_detect s t ws o = (f, sr, o1) /\
     f_doomed f = false /\ (f_in f && f_out f) = false /\ cv = u64 (commitVer o1 + 1) /\
     r = inr cv /\
     o' = abortSSILocked s t (set_ssiRecent (ssiRecent o1 ++
            [SsiCommitted cv s (sortedKeys (default ∅ sr)) ws (f_in f) (f_out f)])
          (set_recent (recent o1 ++ [CommittedTxn cv ws]) (set_commitVer cv o1)))).
Proof.
  unfold CommitSerializable.
  destruct (find_conflict o s ws) eqn:E; [intros [= <- <- _]; eauto 6|].
  destruct (ssi_detect s t ws o) as [[f sr] o1] eqn:D.
  destruct (f_doomed f || _) eqn:Ef; [intros [= <- <- _]; right; left; by eexists _, _, _, _|].
  apply orb_false_iff in Ef as [? ?].
  destruct (run_durable _ _).
  - intros [= <- <- _]. right; left. by eexists _, _, _, _.
  - intros [= <- <- _]. right; right. by eexists _, _, _, _.
Qed.

Lemma mark_readers_reads t ws m id st :
  m !! id = Some st -> exists st', mark_readers t ws m !! id = Some st' /\ st_reads st' = st_reads st.
Proof.
  intros E. rewrite mark_readers_lookup, E. simpl. eexists. split; [done|]. by case_match.
Qed.

Lemma abort_ssiLive s t o id :
  id <> t -> ssiLive (abortSSILocked s t o) !! id = ssiLive o !! id.
Proof.
  intros. unfold abortSSILocked. simpl.
  rewrite (proj1 (proj2 (proj2 (proj2 (releaseLocked_fields _ _))))). simpl.
  by rewrite lookup_delete_ne.
Qed.

Lemma log_ok_detect o o1 log s t ws f sr :
  log_ok o log -> ssi_detect s t ws o = (f, sr, o1) -> log_ok o1 log.
Proof.
  intros Hl (Ecv & _ & _ & Em & Er & _ & _ & f1 & Ef)%ssi_detect_fields.
  eapply log_ok_ext; [done|lia| |]; rewrite ?Em, ?Er; [apply (lg_recent _ _ Hl)|].
  destruct (lg_ssi _ _ Hl) as (d & kept & E & Hk & Hd). exists d, kept. split_and!; try done.
  assert (ssiRecent o1 = (commit_loop s ws sr f1 (ssiRecent o)).2) as -> by by rewrite <- Ef.
  by apply commit_loop_keep.
Qed.

Lemma inv_commit_ser o txns log t d ws du r o' u :
  inv (Sys o txns log) -> txns !! t = Some d -> d_ser d = true -> d_phase d = PActive ->
  StronglySorted Z.le ws -> commitVer o < max_u64 ->
  CommitSerializable (d_start d) t ws du None o tt = (r, o', u) ->
  inv (Sys o' (delete t txns) (log_commit log d ws r)).
Proof.
  intros [Hs Hl] Ht Hser Hph Hw Hmax HC. simpl in *.
  pose proof (sn_o _ _ Hs) as Ho. pose proof (snap_live _ _ _ _ Hs Ht) as Hlive.
  apply CommitSerializable_spec in HC as
    [(e & v & -> & Hf & ->)|[(e & f & sr & o1 & -> & D & ->)|
     (f & sr & o1 & cv & Hf & D & Hdm & Hio & Ecv & -> & ->)]]; simpl.
  - eapply inv_retire; try done; [|by right].
    intros id st ? ?. exists st. by rewrite abort_ssiLive.
  - pose proof (log_ok_detect _ _ _ _ _ _ _ _ Hl D) as Hl1.
    apply ssi_detect_fields in D as (E1 & E2 & E3 & E4 & E5 & E6 & _).
    eapply (inv_retire o o1); try done; [by eapply oracle_ok_ext; [..|exact Ho]| |by right].
    intros id st Hid Hst. rewrite abort_ssiLive, E6 by done. by apply mark_readers_reads.
  - pose proof (ssi_detect_fields _ _ _ _ _ _ _ D) as (E1 & E2 & E3 & E4 & E5 & E6 & E7 & f1 & E8).
    pose proof (ok_cv _ Ho) as Hcv. destruct Hlive as [n Hn].
    pose proof (ok_live _ Ho _ _ Hn) as [Hst _].
    pose proof (ok_min_le _ Ho _ (mk_is_Some _ _ Hn)) as Hmin.
    destruct (sn_reg _ _ Hs t d Ht Hser Hph) as (st & Hreg & Hreads).
    rewrite Hreg in E7. simpl in E7. subst sr. rewrite Hreads in *.
    rewrite E1 in Ecv. rewrite wrap_small in Ecv by (unfold in_u, max_u64 in *; lia).
    set (T := Hist (d_start d) cv (d_ser d) (d_reads d) ws).
    destruct (lg_ssi _ _ Hl) as (dr & kept & Ek & Hk & Hd).
    pose proof (commit_loop_detected log T kept f1 (ssiRecent o) Hk Hser Hw) as L.
    simpl in L. rewrite <- E8 in L. simpl in L.
    set (o2 := set_ssiRecent _ _).
    assert (Ho2 : oracle_ok o2).
    { assert (Hb := oracle_ok_bump (d_start d) [] o Ho (mk_is_Some _ _ Hn) Hmax).
      eapply oracle_ok_ext; [..|exact Hb]; simpl; try done.
      rewrite wrap_small; [done|]. unfold in_u, max_u64 in *. lia. }
    pose proof (releaseLocked_fields (d_start d) (ReleaseSSI t o2)) as (F1 & F2 & F3 & F4 & F5 & _).
    assert (Ho3 : oracle_ok (ReleaseSSI t o2)) by (eapply oracle_ok_ext; [..|exact Ho2]; done).
    assert (Hlv : is_Some (live (ReleaseSSI t o2) !! d_start d)).
    { simpl. rewrite E3. eauto. }
    split; simpl.
    + eapply (snap_ok_retire o (ReleaseSSI t o2)); try done.
      * eapply oracle_ok_ext; [..|apply (releaseLocked_ok (d_start d) _ Ho3 Hlv)]; done.
      * simpl. rewrite F2. done.
      * intros id st' Hid Hst'. rewrite abort_ssiLive by done. simpl. rewrite E6.
        by apply mark_readers_reads.
    + eapply (log_ok_commit_ser o _ log T kept dr f1 f (ssiRecent o1)); try done; simpl; try lia.
      * rewrite F1. simpl. lia.
      * pose proof (releaseLocked_minLive_le (d_start d) (ReleaseSSI t o2) Ho3 Hlv) as Hm.
        simpl in Hm. lia.
      * rewrite F3. simpl. by rewrite E5.
      * rewrite F5. done.
Qed.

Lemma RecordRead_spec t s k o st :
  ssiLive o !! t = Some st ->
  exists st', commitVer (RecordRead t s k o) = commitVer o /\
    nextTxn (RecordRead t s k o) = nextTxn o /\ live (RecordRead t s k o) = live o /\
    minLive (RecordRead t s k o) = minLive o /\ recent (RecordRead t s k o) = recent o /\
    ssiLive (RecordRead t s k o) = <[t := st']> (ssiLive o) /\
    st_reads st' = {[k]} ∪ st_reads st /\
    (forall log kept, Forall2 (entry_ok log) kept (ssiRecent o) ->
       Forall2 (entry_ok log) kept (ssiRecent (RecordRead t s k o))).
Proof.
  intros E. unfold RecordRead. rewrite E.
  match goal with |- context [read_loop _ _ ?u _] =>
    pose proof (read_loop_txn s k u (ssiRecent o)) as [Hr _];
    pose proof (fun log kept => read_loop_ok s k u (ssiRecent o) log kept) as Hok end.
  destruct (read_loop _ _ _ _) as [t' r]. simpl in *. exists t'. by split_and!.
Qed.

Lemma inv_step s s' : inv s -> step s s' -> inv s'.
Proof.
  intros Hi Hstep. destruct Hstep.
  - destruct Hi as [Hs Hl]. simpl in *.
    pose proof (snap_ok_acquire _ _ _ _ _ ser Hs H H0) as [_ Hs']. split; [done|]. simpl.
    apply Acquire_state in H0 as (_ & _ & Ecv & _ & _ & Em & Er & _ & Esr).
    assert (Em' : minLive o <= minLive o').
    { rewrite Em. pose proof (ok_minLive_range _ (sn_o _ _ Hs)). case_decide; lia. }
    eapply log_ok_ext; [done|lia| |]; rewrite ?Er, ?Esr.
    + eapply recent_ok_mono; [apply (lg_recent _ _ Hl)|done].
    + eapply ssi_ok_mono; [apply (lg_ssi _ _ Hl)|done].
  - destruct Hi as [Hs Hl]. split; simpl in *.
    + eapply snap_ok_update; try done; simpl.
      * intros id st Hid Hst. exists st. by rewrite lookup_insert_ne.
      * intros _ _. eexists. by rewrite lookup_insert_eq.
    + eapply log_ok_ext; [done|simpl; lia|apply (lg_recent _ _ Hl)|apply (lg_ssi _ _ Hl)].
  - destruct Hi as [Hs Hl]. simpl in *.
    destruct (sn_reg _ _ Hs t d) as (st & Hst & Hr); [done..|].
    destruct (RecordRead_spec t (d_start d) k o st Hst)
      as (st' & E1 & E2 & E3 & E4 & E5 & E6 & E7 & E8).
    split; simpl.
    + eapply snap_ok_update; try done; simpl.
      * intros id u Hid Hu. exists u. by rewrite E6, lookup_insert_ne.
      * intros _ _. exists st'. rewrite E6, lookup_insert_eq. split; [done|]. by rewrite E7, Hr.
    + eapply log_ok_ext; [done|lia| |]; rewrite E4, ?E5; [apply (lg_recent _ _ Hl)|].
      destruct (lg_ssi _ _ Hl) as (dr & kept & ? & ? & ?). exists dr, kept. auto.
  - by eapply inv_commit_si.
  - by eapply inv_commit_ser.
  - destruct Hi as [Hs Hl]. split; simpl in *.
    + eapply snap_ok_update; try done; simpl.
      intros id st Hid Hst. exists st. by rewrite lookup_delete_ne.
    + eapply log_ok_ext; [done|simpl; lia|apply (lg_recent _ _ Hl)|apply (lg_ssi _ _ Hl)].
  - destruct Hi as [Hs Hl]. simpl in *.
    eapply (inv_retire o o); try done; [apply Hs| |by left].
    intros id st ? ?. exists st. simpl.
    by rewrite (proj1 (proj2 (proj2 (proj2 (releaseLocked_fields _ _))))).
Qed.

Lemma inv_reachable v s : reachable v s -> inv s.
Proof.
  induction 1 as [Hv|s s' _ IH Hstep]; [|by eapply inv_step].
  split; split; simpl; try done.
  - by apply NewOracle_ok.
  - constructor.
  - intros h []%not_elem_of_nil.
  - intros h []%not_elem_of_nil.
  - by exists [].
  - exists [], []. by split_and!.
  - intros a b []%not_elem_of_nil.
  - intros a b c []%not_elem_of_nil.
Qed.

(** ** Executing a schedule

    The transition system run as a function, for concrete schedules. *)

Inductive op :=
| OpBegin (ser : bool)
| OpRegister (t : Z)
| OpRead (t k : Z)
| OpCommit (t : Z) (ws : list Z)
| OpReleaseSSI (t : Z)
| OpRelease (t : Z).

Fixpoint sortedb (l : list Z) : bool :=
  match l with
  | x :: (y :: _) as l' => (x <=? y) && sortedb l'
  | _ => true
  end.

Definition phase_eqb (p q : phase) : bool :=
  match p, q with PFresh, PFresh | PActive, PActive | PEnding, PEnding => true | _, _ => false end.

Definition exec (s : sys) (a : op) : option sys :=
  let '(Sys o txns log) := s in
  match a with
  | OpBegin ser =>
      if nextTxn o <? max_u64 then
        let '(sv, t, o') := Acquire o in
        Some (Sys o' (<[t := Desc sv ser (if ser then PFresh else PActive) ∅]> txns) log)
      else None
  | OpRegister t =>
      d ← txns !! t;
      if d_ser d && phase_eqb (d_phase d) PFresh then
        Some (Sys (RegisterSSI t (d_start d) o) (<[t := Desc (d_start d) true PActive ∅]> txns) log)
      else None
  | OpRead t k =>
      d ← txns !! t;
      if d_ser d && phase_eqb (d_phase d) PActive then
        Some (Sys (RecordRead t (d_start d) k o)
                  (<[t := Desc (d_start d) true PActive ({[k]} ∪ d_reads d)]> txns) log)
      else None
  | OpCommit t ws =>
      d ← txns !! t;
      if phase_eqb (d_phase d) PActive && sortedb ws && (commitVer o <? max_u64) then
        let '(r, o', _) :=
          if d_ser d then CommitSerializable (d_start d) t ws None None o tt
          else Commit (d_start d) ws None None o tt in
        Some (Sys o' (delete t txns) (log_commit log d ws r))
      else None
  | OpReleaseSSI t =>
      d ← txns !! t;
      if d_ser d && phase_eqb (d_phase d) PActive then
        Some (Sys (ReleaseSSI t o) (<[t := Desc (d_start d) true PEnding (d_reads d)]> txns) log)
      else None
  | OpRelease t =>
      d ← txns !! t;
      if (negb (d_ser d) && phase_eqb (d_phase d) PActive) || phase_eqb (d_phase d) PEnding then
        Some (Sys (Release (d_start d) o) (delete t txns) log)
      else None
  end.

Definition exec_all (s : sys) (ops : list op) : option sys :=
  foldl (fun m a => s ← m; exec s a) (Some s) ops.

Lemma sortedb_sorted l : sortedb l = true -> StronglySorted Z.le l.
Proof.
  intros H. apply Sorted_StronglySorted; [intros x y z; lia|].
  induction l as [|x [|y l] IH]; [constructor|repeat constructor|].
  simpl in H. apply andb_true_iff in H as [H1 H2]. constructor; [by apply IH|].
  constructor. by apply Z.leb_le.
Qed.

Lemma phase_eqb_eq p q : phase_eqb p q = true -> p = q.
Proof. by destruct p, q. Qed.

Lemma exec_step s a s' : exec s a = Some s' -> step s s'.
Proof.
  destruct s as [o txns log], a; simpl; intros H.
  - destruct (Z.ltb_spec (nextTxn o) max_u64); [|done].
    destruct (Acquire o) as [[sv t] o'] eqn:E. simplify_eq. by eapply step_acquire.
  - apply bind_Some in H as (d & Ht & H). case_match eqn:E; simplify_eq.
    apply andb_true_iff in E as [? ?%phase_eqb_eq]. by eapply step_register.
  - apply bind_Some in H as (d & Ht & H). case_match eqn:E; simplify_eq.
    apply andb_true_iff in E as [? ?%phase_eqb_eq]. by eapply step_read.
  - apply bind_Some in H as (d & Ht & H). case_match eqn:E; simplify_eq.
    apply andb_true_iff in E as [[?%phase_eqb_eq ?%sortedb_sorted]%andb_true_iff ?%Z.ltb_lt].
    destruct (d_ser d) eqn:Ed.
    + destruct (CommitSerializable _ _ _ _ _ _ _) as [[r o'] u] eqn:C. simplify_eq.
      by eapply step_commit_serializable.
    + destruct (Commit _ _ _ _ _ _) as [[r o'] u] eqn:C. simplify_eq.
      by eapply step_commit.
  - apply bind_Some in H as (d & Ht & H). case_match eqn:E; simplify_eq.
    apply andb_true_iff in E as [? ?%phase_eqb_eq]. by eapply step_release_ssi.
  - apply bind_Some in H as (d & Ht & H). case_match eqn:E; simplify_eq.
    apply orb_true_iff in E as [[?%negb_true_iff ?%phase_eqb_eq]%andb_true_iff|?%phase_eqb_eq];
      eapply step_release; eauto.
Qed.

Lemma exec_all_rtc ops s s' : exec_all s ops = Some s' -> rtc step s s'.
Proof.
  unfold exec_all. revert s. induction ops as [|a ops IH]; intros s H; simpl in H.
  - simplify_eq. apply rtc_refl.
  - destruct (exec s a) as [s1|] eqn:E; simpl in H.
    + eapply rtc_l; [by eapply exec_step|]. auto.
    + exfalso. clear -H. induction ops as [|b ops IH]; simpl in H; [done|auto].
Qed.

Lemma reachable_rtc v s s' : reachable v s -> rtc step s s' -> reachable v s'.
Proof. intros H. induction 1; [done|]. eauto using reach_step. Qed.

Lemma exec_all_reachable v ops s :
  in_u 64 v -> exec_all (sys_init v) ops = Some s -> reachable v s.
Proof. intros. eapply reachable_rtc; [by apply reach_init|by eapply exec_all_rtc]. Qed.

(** ** Theorems *)

(** *** Serializability of the committed writers *)

Lemma dep_cases o log a b :
  log_ok o log -> a ∈ log -> b ∈ log -> h_ser a = true -> h_ser b = true -> dep a b ->
  h_commit a <= h_start b \/ rwc a b.
Proof.
  intros Hl Ha Hb Sa Sb [[(k & ? & ?) ?]|[[_ ?]|Hrw]]; [|by left|].
  - left. destruct (Z.le_gt_cases (h_commit a) (h_start b)); [done|]. exfalso.
    by apply (lg_fcw _ _ Hl a b Ha Hb ltac:(lia) k).
  - destruct (Z.le_gt_cases (h_commit a) (h_start b)); [by left|]. right.
    split_and!; done || lia.
Qed.

(** What a path of dependencies says about versions: [ea] tells that the path
    starts with a concurrent antidependency from [a], [eb] that it ends with
    one into [b]. *)
Inductive path_order (log : list hist) (a b : hist) : Prop :=
| po_ff : h_commit a <= h_start b -> path_order log a b
| po_fv x : x ∈ log -> rwc x b -> h_commit a < h_commit b -> path_order log a b
| po_vf y : y ∈ log -> rwc a y -> h_start a < h_start b -> path_order log a b
| po_vv x y : x ∈ log -> y ∈ log -> rwc x b -> rwc a y -> h_start a < h_commit b ->
    path_order log a b.

Lemma dep_path_order o log a b :
  log_ok o log -> dep_path log a b -> a ∈ log /\ b ∈ log /\ h_ser b = true /\ path_order log a b.
Proof.
  intros Hl. induction 1 as [a b Ha Hb Sa Sb Hd|a b c _ IH Hc Sc Hd].
  - split_and!; try done.
    destruct (dep_cases _ _ _ _ Hl Ha Hb Sa Sb Hd) as [?|Hr]; [by apply po_ff|].
    apply (po_vv _ _ _ a b); try done. by destruct Hr as (_ & _ & (_ & ? & _) & _).
  - destruct IH as (Ha & Hb & Sb & P). split_and!; try done.
    pose proof (lg_range _ _ Hl b Hb) as [[_ Rb] _]. pose proof (lg_range _ _ Hl a Ha) as [[_ Ra] _].
    destruct (dep_cases _ _ _ _ Hl Hb Hc Sb Sc Hd) as [Hf|Hr].
    + destruct P as [P|x Hx Hxb P|y Hy Hay P|x y Hx Hy Hxb Hay P].
      * apply po_ff. lia.
      * apply po_ff. lia.
      * apply (po_vf _ _ _ y); [done..|lia].
      * apply (po_vf _ _ _ y); [done..|lia].
    + pose proof Hr as (_ & _ & (_ & Hr1 & _) & _).
      destruct P as [P|x Hx Hxb P|y Hy Hay P|x y Hx Hy Hxb Hay P].
      * apply (po_fv _ _ _ b); [done..|lia].
      * exfalso. by apply (lg_pivot _ _ Hl x b c).
      * apply (po_vv _ _ _ b y); [done..|lia].
      * exfalso. by apply (lg_pivot _ _ Hl x b c).
Qed.

(** C7. Serializable isolation is serializable for the transactions it commits:
    in every reachable state of the oracle, under any interleaving of
    snapshot-isolation and serializable transactions, the dependency graph
    (ww, wr and rw edges) of the committed serializable writers has no cycle. *)
Theorem serializable_acyclic v s a :
  reachable v s -> ~ dep_path (s_log s) a a.
Proof.
  intros Hr Hp. pose proof (inv_log _ (inv_reachable _ _ Hr)) as Hl.
  pose proof (dep_path_order _ _ _ _ Hl Hp) as (Ha & _ & _ & P).
  pose proof (lg_range _ _ Hl a Ha) as [[_ ?] _].
  destruct P as [P|x Hx Hxb P|y Hy Hay P|x y Hx Hy Hxa Hay P]; [lia|lia|lia|].
  by apply (lg_pivot _ _ Hl x a y).
Qed.

(** C8. No committed pivot: no serializable transaction of the history has both
    an incoming and an outgoing antidependency to concurrent committed
    serializable transactions. *)
Theorem no_committed_pivot v s a b c :
  reachable v s -> a ∈ s_log s -> b ∈ s_log s -> c ∈ s_log s ->
  ~ (rwc a b /\ rwc b c).
Proof.
  intros Hr Ha Hb Hc [Hab Hbc].
  by apply (lg_pivot _ _ (inv_log _ (inv_reachable _ _ Hr)) a b c).
Qed.

(** C9. First committer wins: two committed transactions that overlap in time
    never wrote the same record, at either isolation level. *)
Theorem first_committer_wins v s a b k :
  reachable v s -> a ∈ s_log s -> b ∈ s_log s ->
  h_start b < h_commit a < h_commit b -> k ∈ h_writes a -> k ∉ h_writes b.
Proof.
  intros Hr Ha Hb Hab Hka Hkb.
  by apply (lg_fcw _ _ (inv_log _ (inv_reachable _ _ Hr)) a b Ha Hb Hab k).
Qed.

(** C31. The pruned committed-since index loses nothing: in every reachable state, for
    a live transaction and the records it wrote, in order, the write-write check
    over the index succeeds exactly when no transaction of the whole history that
    committed after its snapshot wrote one of them. *)
Theorem conflict_check_complete v s t d ws :
  reachable v s -> s_txns s !! t = Some d -> StronglySorted Z.le ws ->
  find_conflict (s_o s) (d_start d) ws = None <->
  (forall h, h ∈ s_log s -> d_start d < h_commit h -> ~ exists k, k ∈ h_writes h /\ k ∈ ws).
Proof.
  intros Hr Ht Hw. destruct (inv_reachable _ _ Hr) as [Hs Hl].
  apply find_conflict_None_log; try done.
  pose proof (snap_live _ _ _ _ Hs Ht) as Hlive.
  by apply (ok_min_le _ (sn_o _ _ Hs)).
Qed.

(** The watermark is the oldest live snapshot's start version, or the
    commit version when no transaction is live. *)
Theorem watermark_oldest_live v s :
  reachable v s ->
  (s_txns s = ∅ -> Watermark (s_o s) = CommitVersion (s_o s)) /\
  (forall t d, s_txns s !! t = Some d -> Watermark (s_o s) <= d_start d) /\
  (s_txns s <> ∅ -> exists t d, s_txns s !! t = Some d /\ d_start d = Watermark (s_o s)).
Proof.
  intros Hr. destruct (inv_reachable _ _ Hr) as [Hs _]. pose proof (sn_o _ _ Hs) as Ho.
  unfold Watermark, CommitVersion. split_and!.
  - intros E. apply (ok_min_empty _ Ho). apply map_eq. intros x. rewrite lookup_empty.
    pose proof (sn_cnt _ _ Hs x) as Hc. rewrite E in Hc. unfold count_start in Hc.
    rewrite map_filter_empty, map_size_empty in Hc.
    destruct (live (s_o s) !! x) eqn:El; [|done]. simpl in Hc.
    apply (ok_live _ Ho) in El. lia.
  - intros t d Ht. apply (ok_min_le _ Ho). by eapply snap_live.
  - intros Hne. apply map_choose in Hne as (t & d & Ht).
    destruct (snap_live _ _ _ _ Hs Ht) as [n Hn].
    destruct (ok_min_mem _ Ho) as [m Hm].
    { intros E. by rewrite E, lookup_empty in Hn. }
    pose proof (sn_cnt _ _ Hs (minLive (s_o s))) as Hc. rewrite Hm in Hc. simpl in Hc.
    pose proof (ok_live _ Ho _ _ Hm) as [_ ?].
    assert (filter (fun p => d_start p.2 = minLive (s_o s)) (s_txns s) <> ∅) as Hf.
    { intros E. unfold count_start in Hc. rewrite E, map_size_empty in Hc. lia. }
    apply map_choose in Hf as (t' & d' & [Ht' Hd']%map_lookup_filter_Some). eauto.
Qed.

Lemma abort_minLive s t o :
  minLive (abortSSILocked s t o) = minLive (releaseLocked s o) /\
  commitVer (abortSSILocked s t o) = commitVer o.
Proof.
  unfold abortSSILocked. simpl. rewrite (proj1 (releaseLocked_fields _ _)). split; [|done].
  unfold releaseLocked. simpl. repeat case_match; done.
Qed.

(** Retiring a live snapshot after the state went from [o] to [o1]. *)
Lemma retire_monotone o o1 s t o' :
  oracle_ok o1 -> is_Some (live o1 !! s) ->
  minLive o1 = minLive o -> commitVer o <= commitVer o1 ->
  o' = Release s o1 \/ o' = abortSSILocked s t o1 ->
  minLive o <= minLive o' /\ commitVer o <= commitVer o'.
Proof.
  intros Ho Hs Em Ec [-> | ->].
  - simpl. rewrite (proj1 (releaseLocked_fields s o1)). rewrite <- Em.
    split; [by apply releaseLocked_minLive_le|done].
  - destruct (abort_minLive s t o1) as [-> ->]. rewrite <- Em.
    split; [by apply releaseLocked_minLive_le|done].
Qed.

(** The watermark only ever rises and the commit version never falls:
    every step of the system keeps or raises both. *)
Theorem watermark_monotone v s s' :
  reachable v s -> step s s' ->
  Watermark (s_o s) <= Watermark (s_o s') /\ CommitVersion (s_o s) <= CommitVersion (s_o s').
Proof.
  intros Hr Hstep. destruct (inv_reachable _ _ Hr) as [Hs _]. unfold Watermark, CommitVersion.
  destruct Hstep as [o txns log ser s t o' Hn HA|o txns log t d Ht|o txns log t d k Ht Hser Hph
    |o txns log t d ws du r o' u Ht Hser Hph Hw Hmax HC
    |o txns log t d ws du r o' u Ht Hser Hph Hw Hmax HC|o txns log t d Ht|o txns log t d Ht Hph];
    simpl in *; pose proof (sn_o _ _ Hs) as Ho; try pose proof (snap_live _ _ _ _ Hs Ht) as Hlive.
  - apply Acquire_state in HA as (_ & _ & -> & _ & _ & -> & _).
    pose proof (ok_minLive_range _ Ho). case_decide; lia.
  - lia.
  - destruct (sn_reg _ _ Hs t d) as (st & Hst & _); [done..|].
    destruct (RecordRead_spec t (d_start d) k o st Hst) as (_ & -> & _ & _ & -> & _). lia.
  - pose proof (ok_cv _ Ho) as Hcv.
    apply Commit_spec in HC as [(e & _ & ->)|(_ & _ & ->)].
    + apply (retire_monotone o o (d_start d) 0); [done|done|done|lia|by left].
    + eapply (retire_monotone o _ (d_start d) 0); [by eapply oracle_ok_bump|done|done| |by left].
      simpl. rewrite wrap_small; [lia|]. unfold in_u, max_u64 in *. lia.
  - pose proof (ok_cv _ Ho) as Hcv. apply CommitSerializable_spec in HC as
      [(e & v' & _ & _ & ->)|[(e & f & sr & o1 & _ & D & ->)|
       (f & sr & o1 & cv & _ & D & _ & _ & Ecv & _ & ->)]].
    + eapply (retire_monotone o o); [done|done|done|lia|by right].
    + apply ssi_detect_fields in D as (E1 & _ & E3 & E4 & _).
      apply (retire_monotone o o1 (d_start d) t).
      * eapply oracle_ok_ext; [..|exact Ho]; done.
      * by rewrite E3.
      * done.
      * lia.
      * by right.
    + apply ssi_detect_fields in D as (E1 & _ & E3 & E4 & _).
      match goal with |- context [abortSSILocked _ _ ?x] =>
        apply (retire_monotone o x (d_start d) t) end.
      * eapply oracle_ok_ext; [..|apply (oracle_ok_bump (d_start d) [] o)]; try done.
        subst cv. simpl. by rewrite E1.
      * simpl. by rewrite E3.
      * simpl. done.
      * simpl. subst cv. rewrite E1, wrap_small; [lia|]. unfold in_u, max_u64 in *. lia.
      * by right.
  - lia.
  - apply (retire_monotone o o (d_start d) 0 (Release (d_start d) o));
      [done|done|done|lia|by left].
Qed.

(** A commit attempt under either isolation level is atomic: it either
    succeeds with the next version, published at that version, or fails with
    the version unchanged and nothing published. *)
Theorem commit_all_or_nothing {St} (ser : bool) startVer txnID ws durable publish o (st st' : St) r o' :
  (if ser then CommitSerializable startVer txnID ws durable publish o st
   else Commit startVer ws durable publish o st) = (r, o', st') ->
  (r = inr (u64 (commitVer o + 1)) /\ commitVer o' = u64 (commitVer o + 1) /\
     st' = run_publish publish (u64 (commitVer o + 1)) st /\
     find_conflict o startVer ws = None /\ run_durable durable (u64 (commitVer o + 1)) = None) \/
  (exists e, r = inl e /\ commitVer o' = commitVer o /\ st' = st).
Proof.
  assert (HR : forall s o, commitVer (releaseLocked s o) = commitVer o).
  { intros. by rewrite (proj1 (releaseLocked_fields _ _)). }
  destruct ser; unfold CommitSerializable, Commit.
  - destruct (find_conflict o startVer ws).
    { intros [= <- <- <-]. right. eexists. by rewrite (proj2 (abort_minLive _ _ _)). }
    destruct (ssi_detect startVer txnID ws o) as [[f sr] o1] eqn:D.
    apply ssi_detect_fields in D as (E1 & _).
    destruct (f_doomed f || _).
    { intros [= <- <- <-]. right. eexists. by rewrite (proj2 (abort_minLive _ _ _)), E1. }
    rewrite E1. destruct (run_durable _ _) eqn:Ed; intros [= <- <- <-].
    + right. eexists. by rewrite (proj2 (abort_minLive _ _ _)), E1.
    + left. simpl. by rewrite HR.
  - destruct (find_conflict o startVer ws).
    { intros [= <- <- <-]. right. eexists. simpl. by rewrite HR. }
    destruct (run_durable _ _) eqn:Ed; intros [= <- <- <-]; simpl; rewrite HR; simpl; eauto.
    by left.
Qed.

(** *** Concrete schedules *)

(** Two serializable transactions that overlap: the first reads and writes
    record 10, the second reads record 10 and writes record 20. *)
Definition demo_ops : list op :=
  [OpBegin true; OpBegin true; OpRegister 1; OpRegister 2;
   OpRead 1 10; OpRead 2 10; OpCommit 1 [10]; OpCommit 2 [20];
   OpBegin true; OpRegister 3; OpRead 3 20; OpBegin false].

Definition demo_h1 : hist := Hist 0 1 true {[10]} [10].
Definition demo_h2 : hist := Hist 0 2 true {[10]} [20].

Definition demo : sys := default (sys_init 0) (exec_all (sys_init 0) demo_ops).

Lemma demo_reachable : reachable 0 demo.
Proof. apply (exec_all_reachable 0 demo_ops); [unfold in_u; lia|vm_compute; reflexivity]. Qed.

Lemma demo_log : s_log demo = [demo_h1; demo_h2].
Proof. vm_compute; reflexivity. Qed.

(** The second transaction overwrote nothing the first read, but it read what
    the first overwrote: one concurrent antidependency. *)
Lemma demo_rwc : rwc demo_h2 demo_h1.
Proof.
  split; [done|]. split; [done|]. split; [|done]. split; [|done].
  exists 10. split; [set_solver|left].
Qed.

(** Write skew: the second committer is the pivot and is refused. *)
Example write_skew_refused :
  s_log <$> exec_all (sys_init 0)
    [OpBegin true; OpBegin true; OpRegister 1; OpRegister 2;
     OpRead 1 10; OpRead 1 20; OpRead 2 10; OpRead 2 20;
     OpCommit 1 [10]; OpCommit 2 [20]]
  = Some [Hist 0 1 true {[10; 20]} [10]].
Proof. vm_compute; reflexivity. Qed.

(** The same schedule under snapshot isolation commits both. *)
Example write_skew_under_si :
  length <$> (s_log <$> exec_all (sys_init 0)
    [OpBegin false; OpBegin false; OpCommit 1 [10]; OpCommit 2 [20]]) = Some 2%nat.
Proof. vm_compute; reflexivity. Qed.

Lemma serializable_acyclic_witness :
  reachable 0 demo /\ demo_h2 ∈ s_log demo /\ ~ dep_path (s_log demo) demo_h2 demo_h2.
Proof.
  split; [exact demo_reachable|]. split; [rewrite demo_log; right; left|].
  apply (serializable_acyclic 0). exact demo_reachable.
Defined.

Lemma no_committed_pivot_witness :
  rwc demo_h2 demo_h1 /\ ~ (rwc demo_h2 demo_h1 /\ rwc demo_h1 demo_h2).
Proof.
  split; [exact demo_rwc|].
  apply (no_committed_pivot 0 demo); [exact demo_reachable|..]; rewrite demo_log;
    repeat first [left | right].
Defined.

Lemma first_committer_wins_witness :
  h_start demo_h2 < h_commit demo_h1 < h_commit demo_h2 /\ 10 ∈ h_writes demo_h1 /\
  10 ∉ h_writes demo_h2.
Proof.
  split; [simpl; lia|]. split; [left|].
  apply (first_committer_wins 0 demo demo_h1 demo_h2); [exact demo_reachable|..|simpl; lia|left];
    rewrite demo_log; [left|right; left].
Defined.

Lemma conflict_check_complete_witness :
  find_conflict (s_o demo) 2 [10] = None /\
  (forall h, h ∈ s_log demo -> 2 < h_commit h -> ~ exists k, k ∈ h_writes h /\ k ∈ [10]).
Proof.
  split; [vm_compute; reflexivity|].
  apply (conflict_check_complete 0 demo 4 (Desc 2 false PActive ∅) [10]);
    [exact demo_reachable|vm_compute; reflexivity|repeat constructor|vm_compute; reflexivity].
Defined.

Lemma watermark_oldest_live_witness :
  Watermark (s_o demo) = 2 /\ exists t d, s_txns demo !! t = Some d /\ d_start d = Watermark (s_o demo).
Proof.
  split; [vm_compute; reflexivity|].
  apply (watermark_oldest_live 0 demo demo_reachable). intros E.
  assert (H : s_txns demo !! 3 = None) by by rewrite E.
  vm_compute in H. discriminate.
Defined.

(** [demo] after its third transaction commits a write of record 20. *)
Definition demo_next : sys := default demo (exec demo (OpCommit 3 [20])).

Lemma watermark_monotone_witness :
  step demo demo_next /\ CommitVersion (s_o demo_next) = 3 /\
  Watermark (s_o demo) <= Watermark (s_o demo_next) /\
  CommitVersion (s_o demo) <= CommitVersion (s_o demo_next).
Proof.
  assert (H : step demo demo_next) by (apply (exec_step demo (OpCommit 3 [20])); vm_compute; reflexivity).
  split; [exact H|]. split; [vm_compute; reflexivity|].
  apply (watermark_monotone 0); [exact demo_reachable|exact H].
Defined.

Lemma commit_all_or_nothing_witness :
  exists r o' st', CommitSerializable 2 3 [20] None (Some (fun cv l => cv :: l)) (s_o demo) []
    = (r, o', st') /\
  ((r = inr 3 /\ commitVer o' = 3 /\ st' = [3] /\
    find_conflict (s_o demo) 2 [20] = None /\ run_durable None 3 = None) \/
   (exists e, r = inl e /\ commitVer o' = commitVer (s_o demo) /\ st' = [])).
Proof.
  do 3 eexists. split; [vm_compute; reflexivity|].
  apply (commit_all_or_nothing true 2 3 [20] None (Some (fun cv l => cv :: l)) (s_o demo) []).
  vm_compute; reflexivity.
Defined.

(** *** The read-only anomaly

    A serializable transaction that writes nothing ends through ReleaseSSI, which
    forgets its reads. Transaction 1 reads records 1 and 2; transaction 2 reads
    and overwrites record 2 and commits; transaction 3 starts after it, reads
    records 1 and 2 and ends read-only; transaction 1 then overwrites record 1
    and commits. Transaction 3 saw transaction 2's write but not transaction
    1's, and transaction 1 did not see transaction 2's: no serial order exists. *)

Definition anomaly_ops : list op :=
  [OpBegin true; OpRegister 1; OpRead 1 1; OpRead 1 2;
   OpBegin true; OpRegister 2; OpRead 2 2; OpCommit 2 [2];
   OpBegin true; OpRegister 3; OpRead 3 1; OpRead 3 2].

Definition anomaly_mid : sys := default (sys_init 0) (exec_all (sys_init 0) anomaly_ops).
Definition anomaly_end : sys :=
  default anomaly_mid (exec_all anomaly_mid [OpReleaseSSI 3; OpRelease 3; OpCommit 1 [1]]).

Lemma anomaly_mid_reachable : reachable 0 anomaly_mid.
Proof. apply (exec_all_reachable 0 anomaly_ops); [unfold in_u; lia|vm_compute; reflexivity]. Qed.

Lemma anomaly_end_steps : rtc step anomaly_mid anomaly_end.
Proof. apply (exec_all_rtc [OpReleaseSSI 3; OpRelease 3; OpCommit 1 [1]]). vm_compute; reflexivity. Qed.

(** The detector misses the read-only anomaly: there is a reachable state
    with a live serializable reader [d], and a continuation in which that
    reader ends without writing and a serializable writer commits, after which
    the reader and two committed serializable writers form a dependency cycle. *)
Theorem read_only_anomaly_admitted :
  exists s s' d h1 h2,
    reachable 0 s /\ s_txns s !! 3 = Some d /\ d_ser d = true /\ rtc step s s' /\
    h1 ∈ s_log s' /\ h2 ∈ s_log s' /\ h_ser h1 = true /\ h_ser h2 = true /\
    let reader := Hist (d_start d) (d_start d) true (d_reads d) [] in
    rw h1 h2 /\ wr h2 reader /\ rw reader h1.
Proof.
  exists anomaly_mid, anomaly_end, (Desc 1 true PActive {[1; 2]}),
    (Hist 0 2 true {[1; 2]} [1]), (Hist 0 1 true {[2]} [2]).
  assert (El : s_log anomaly_end = [Hist 0 1 true {[2]} [2]; Hist 0 2 true {[1; 2]} [1]])
    by (vm_compute; reflexivity).
  rewrite El. split; [exact anomaly_mid_reachable|].
  split; [vm_compute; reflexivity|]. split; [reflexivity|].
  split; [exact anomaly_end_steps|].
  split; [right; left|]. split; [left|]. split; [reflexivity|]. split; [reflexivity|].
  clear El. split; [|split].
  - split; [exists 2; split; [set_solver|left]|simpl; lia].
  - split; [exists 2; split; [set_solver|left]|simpl; lia].
  - split; [exists 1; split; [set_solver|left]|simpl; lia].
Qed.
