(* ===== verification/Rid.v ===== *)
(** * storage/spi.go: record identifiers

    The (page, slot) address of a record and its packed 64-bit form. *)

From S2P Require Import Prelude.

Record RID := MkRID { PageNo : Z; Slot : Z }.

#[global] Instance RID_eq_dec : EqDecision RID.
Proof. solve_decision. Defined.

Definition nullPageNo : Z := 0xFFFFFFFF.
Definition NullRID : RID := MkRID nullPageNo 0xFFFF.

Definition IsNull (r : RID) : bool := bool_decide (r = NullRID).
Definition IsValid (r : RID) : bool := negb (IsNull r) && negb (PageNo r =? 0).

(** uint64(r.PageNo)<<32 | uint64(r.Slot) *)
Definition Encode (r : RID) : Z := Z.lor (u64 (Z.shiftl (PageNo r) 32)) (Slot r).

Definition DecodeRID (v : Z) : RID := MkRID (u32 (Z.shiftr v 32)) (u16 v).

(** The fields hold what their Go types can hold. *)
Definition rid_ok (r : RID) : Prop := in_u 32 (PageNo r) /\ in_u 16 (Slot r).

Lemma NullRID_ok : rid_ok NullRID.
Proof. unfold rid_ok, in_u, NullRID, nullPageNo. simpl. lia. Qed.

(** The packed form is page * 2^32 + slot: the two fields do not overlap. *)
Lemma Encode_sum r : rid_ok r -> Encode r = PageNo r * 2 ^ 32 + Slot r.
Proof.
  intros [Hp Hs]. unfold Encode, in_u in *. rewrite Z.shiftl_mul_pow2 by lia.
  rewrite wrap_small by (unfold in_u; lia).
  apply Z.bits_inj'. intros n Hn. rewrite Z.lor_spec.
  destruct (Z.ltb_spec n 32).
  - rewrite Z.mul_pow2_bits_low by lia. simpl.
    rewrite <- (Z.mod_pow2_bits_low (PageNo r * 2 ^ 32 + Slot r) 32 n) by lia.
    rewrite Z.add_comm, Z.mod_add, Z.mod_small by lia. done.
  - rewrite (Z.bits_above_log2 (Slot r)).
    + rewrite orb_false_r, Z.mul_pow2_bits by lia.
      replace n with ((n - 32) + 32) at 2 by lia.
      rewrite <- Z.div_pow2_bits by lia.
      rewrite Z.add_comm, Z.div_add, Z.div_small by lia. done.
    + lia.
    + destruct (decide (Slot r = 0)) as [->|]; [simpl; lia|].
      apply Z.log2_lt_pow2; [lia|].
      apply Z.lt_le_trans with (2 ^ 16); [lia|]. apply Z.pow_le_mono_r; lia.
Qed.

Lemma Encode_range r : rid_ok r -> in_u 64 (Encode r).
Proof.
  intros Hr. rewrite Encode_sum by done. destruct Hr. unfold in_u in *. lia.
Qed.

Lemma Decode_Encode r : rid_ok r -> DecodeRID (Encode r) = r.
Proof.
  intros Hr. rewrite Encode_sum by done. destruct r as [p s], Hr as [Hp Hs].
  unfold DecodeRID, in_u in *. simpl in *. unfold wrap. f_equal.
  - rewrite Z.shiftr_div_pow2, Z.div_add_l, (Z.div_small s) by lia.
    rewrite Z.add_0_r. apply Z.mod_small. lia.
  - rewrite Z.add_comm. change (2 ^ 32) with (2 ^ 16 * 2 ^ 16).
    rewrite Z.mul_assoc, Z.mod_add by lia. apply Z.mod_small. lia.
Qed.

Lemma Encode_inj r r' : rid_ok r -> rid_ok r' -> Encode r = Encode r' -> r = r'.
Proof.
  intros H H' E. rewrite <- (Decode_Encode r H), <- (Decode_Encode r' H'). by rewrite E.
Qed.

(** The packed record identifier is lossless and ordered: decoding gives the
    identifier back, and packed identifiers compare as (page, slot) pairs. *)
Theorem rid_roundtrip_ordered r r' :
  rid_ok r -> rid_ok r' ->
  DecodeRID (Encode r) = r /\
  (Encode r < Encode r' <->
   PageNo r < PageNo r' \/ (PageNo r = PageNo r' /\ Slot r < Slot r')).
Proof.
  intros H H'. split; [by apply Decode_Encode|].
  rewrite !Encode_sum by done. destruct H, H'. unfold in_u in *. lia.
Qed.

Lemma rid_roundtrip_ordered_witness :
  DecodeRID (Encode (MkRID 7 65535)) = MkRID 7 65535 /\
  (Encode (MkRID 7 65535) < Encode (MkRID 8 0) <->
   7 < 8 \/ (7 = 8 /\ 65535 < 0)).
Proof. apply rid_roundtrip_ordered; split; unfold in_u; simpl; lia. Defined.
