(* ===== verification/Store.v ===== *)
(** * mvcc/version.go, mvcc/txn.go, mvcc/store.go: the MVCC record store

    Version chains, the transaction handle and the in-memory store over the
    oracle, then the transition system of a store shared by many transactions:
    snapshot reads are stable, a commit becomes visible at one version, and
    garbage collection removes only what no live snapshot can read. *)

From S2P Require Import Prelude Rid Oracle Ssi.

(** ** Version chains *)

Inductive VersionKind := KindInsert | KindUpdate | KindDelete.

(** A bson.Raw document is a byte string; a tombstone carries none. *)
Record version := Version {
  v_commitVer : Z;
  v_txnID : Z;
  v_kind : VersionKind;
  v_data : bytes
}.

Definition is_delete (v : version) : bool :=
  match v_kind v with KindDelete => true | _ => false end.

Definition visibleTo (startVer : Z) (v : version) : bool :=
  (v_txnID v =? 0) && (v_commitVer v <=? startVer).

(** A chain is its versions from the head, newest first. *)
Abbreviation VersionChain := (list version).

Fixpoint visibleAt (startVer : Z) (c : VersionChain) : option bytes :=
  match c with
  | [] => None
  | v :: c' =>
      if negb (visibleTo startVer v) then visibleAt startVer c'
      else if is_delete v then None
      else Some (v_data v)
  end.

Definition Len (c : VersionChain) : Z := Z.of_nat (length c).

(** The search for [keepTail], with the chain cut right after it. *)
Fixpoint keep_tail (watermark : Z) (c : VersionChain) : option VersionChain :=
  match c with
  | [] => None
  | v :: c' =>
      if v_commitVer v <=? watermark then Some [v]
      else option_map (cons v) (keep_tail watermark c')
  end.

(** [keepTail == c.head] is a chain cut down to its head. *)
Definition chain_gc (watermark : Z) (c : VersionChain) : VersionChain * bool :=
  match keep_tail watermark c with
  | None => (c, false)
  | Some c' =>
      (c', match c' with
           | [v] => is_delete v && (v_commitVer v <? watermark)
           | _ => false
           end)
  end.

(** ** Transactions *)

(** [pending] is None for the nil map; a nil write set is the empty set. *)
Record Txn := MkTxn {
  t_startVer : Z;
  t_commitVer : Z;
  t_txnID : Z;
  t_writable : bool;
  t_done : bool;
  t_durable : option (Z -> option txnErr);
  t_pending : option (gmap Z version);
  t_writeSet : gset Z
}.

Definition Snapshot (t : Txn) : Z := t_startVer t.
Definition WriteVersion (t : Txn) : Z := t_txnID t.
Definition IsReadOnly (t : Txn) : bool := negb (t_writable t).

Definition note (key : Z) (v : version) (t : Txn) : Txn :=
  let '(p, w) := match t_pending t with
                 | None => (∅, ∅)
                 | Some p => (p, t_writeSet t)
                 end in
  MkTxn (t_startVer t) (t_commitVer t) (t_txnID t) (t_writable t) (t_done t) (t_durable t)
    (Some (<[key := v]> p)) ({[key]} ∪ w).

Definition sortedWriteSet (t : Txn) : list Z := sortedKeys (t_writeSet t).

(** ** The store *)

Record store := Store {
  s_oracle : oracle;
  s_chains : gmap Z VersionChain;
  s_nextRID : Z
}.

Definition NewStore : store := Store (NewOracle 0) ∅ 0.

Definition set_oracle (o : oracle) (s : store) : store := Store o (s_chains s) (s_nextRID s).

Definition Begin (writable : bool) (s : store) : Txn * store :=
  let '(startVer, tid, o) := Acquire (s_oracle s) in
  (MkTxn startVer 0 tid writable false None None ∅, set_oracle o s).

Definition allocRID (s : store) : RID * store :=
  let n := u64 (s_nextRID s + 1) in
  (MkRID (u32 (u32 (Z.shiftr n 16) + 1)) (u16 n), Store (s_oracle s) (s_chains s) n).

(** Read-your-writes first, then the chain at the snapshot. *)
Definition read (s : store) (t : Txn) (rid : RID) : option bytes :=
  let key := Encode rid in
  let committed :=
    match s_chains s !! key with
    | None => None
    | Some ch => visibleAt (t_startVer t) ch
    end in
  match t_pending t with
  | Some p =>
      match p !! key with
      | Some v => if is_delete v then None else Some (v_data v)
      | None => committed
      end
  | None => committed
  end.

Definition Insert (t : Txn) (doc : bytes) (s : store) : (txnErr + RID) * Txn * store :=
  if negb (t_writable t) then (inl ErrReadOnly, t, s)
  else
    let '(rid, s') := allocRID s in
    (inr rid, note (Encode rid) (Version 0 (t_txnID t) KindInsert doc) t, s').

Definition Update (t : Txn) (rid : RID) (newDoc : bytes) (s : store) : option txnErr * Txn :=
  if negb (t_writable t) then (Some ErrReadOnly, t)
  else match read s t rid with
       | None => (Some ErrNotFound, t)
       | Some _ => (None, note (Encode rid) (Version 0 (t_txnID t) KindUpdate newDoc) t)
       end.

Definition Delete (t : Txn) (rid : RID) (s : store) : option txnErr * Txn :=
  if negb (t_writable t) then (Some ErrReadOnly, t)
  else match read s t rid with
       | None => (Some ErrNotFound, t)
       | Some _ => (None, note (Encode rid) (Version 0 (t_txnID t) KindDelete []) t)
       end.

Definition Get (t : Txn) (rid : RID) (s : store) : txnErr + bytes :=
  match read s t rid with
  | Some doc => inr doc
  | None => inl ErrNotFound
  end.

(** publish: every pending version, stamped, becomes the head of its chain. *)
Definition stamp (cv : Z) (v : version) : version := Version cv 0 (v_kind v) (v_data v).

Definition publish (cv : Z) (pending : option (gmap Z version))
    (chains : gmap Z VersionChain) : gmap Z VersionChain :=
  map_fold (fun key v acc => <[key := stamp cv v :: default [] (acc !! key)]> acc)
    chains (default ∅ pending).

Definition discard (t : Txn) : Txn :=
  MkTxn (t_startVer t) (t_commitVer t) (t_txnID t) (t_writable t) (t_done t) (t_durable t)
    None (t_writeSet t).

Definition set_done (t : Txn) : Txn :=
  MkTxn (t_startVer t) (t_commitVer t) (t_txnID t) (t_writable t) true (t_durable t)
    (t_pending t) (t_writeSet t).

Definition set_txn_commitVer (cv : Z) (t : Txn) : Txn :=
  MkTxn (t_startVer t) cv (t_txnID t) (t_writable t) (t_done t) (t_durable t)
    (t_pending t) (t_writeSet t).

Definition Txn_Commit (t : Txn) (s : store) : option txnErr * Txn * store :=
  if t_done t then (Some ErrTxnDone, t, s)
  else if negb (t_writable t) || (size (t_writeSet t) =? 0)%nat then
    (None, set_done t, set_oracle (Release (t_startVer t) (s_oracle s)) s)
  else
    let '(r, o, chains) :=
      Commit (t_startVer t) (sortedWriteSet t) (t_durable t)
        (Some (fun cv => publish cv (t_pending t))) (s_oracle s) (s_chains s) in
    match r with
    | inl err => (Some err, set_done (discard t), Store o chains (s_nextRID s))
    | inr cv => (None, set_done (set_txn_commitVer cv t), Store o chains (s_nextRID s))
    end.

Definition Rollback (t : Txn) (s : store) : option txnErr * Txn * store :=
  if t_done t then (Some ErrTxnDone, t, s)
  else (None, set_done (discard t), set_oracle (Release (t_startVer t) (s_oracle s)) s).

(** GC: each chain is cut and its dropped versions counted; a dead chain is
    removed and what it still held is counted too. *)
Definition chain_reclaimed (wm : Z) (ch : VersionChain) : Z :=
  let '(ch', dead) := chain_gc wm ch in
  (Len ch - Len ch') + (if dead : bool then Len ch' else 0).

Definition chain_survivor (wm : Z) (ch : VersionChain) : option VersionChain :=
  let '(ch', dead) := chain_gc wm ch in
  if dead : bool then None else Some ch'.

Definition GC (s : store) : Z * store :=
  let wm := Watermark (s_oracle s) in
  let reclaimed := map_fold (fun _ ch n => n + chain_reclaimed wm ch) 0 (s_chains s) in
  let chains := omap (chain_survivor wm) (s_chains s) in
  (reclaimed, Store (s_oracle s) chains (s_nextRID s)).

Definition Versions (s : store) : Z := map_fold (fun _ ch n => n + Len ch) 0 (s_chains s).

Definition MaxRetries : nat := 3.

(** The body [fn] runs against the store and the transaction; it may leave the
    store in any state, as other transactions run during it. *)
Fixpoint retry_loop (n : nat) (fn : Txn -> store -> option txnErr * Txn * store) (s : store)
  : option txnErr * store :=
  match n with
  | O => (Some ErrMaxRetries, s)
  | S n' =>
      let '(t, s1) := Begin true s in
      let '(err, t1, s2) := fn t s1 in
      match err with
      | Some e =>
          let '(_, _, s3) := Rollback t1 s2 in
          if is_ErrConflict e then retry_loop n' fn s3 else (Some e, s3)
      | None =>
          let '(cerr, _, s3) := Txn_Commit t1 s2 in
          match cerr with
          | None => (None, s3)
          | Some e => if is_ErrConflict e then retry_loop n' fn s3 else (Some e, s3)
          end
      end
  end.

Definition WithTransaction (fn : Txn -> store -> option txnErr * Txn * store) (s : store)
  : option txnErr * store := retry_loop MaxRetries fn s.

(** ** The transition system of one store and its transactions

    A handle is the transaction id; a finished transaction keeps its entry,
    since the code lets its reads and buffered writes go on. *)

Record msys := MSys { m_store : store; m_txns : gmap Z Txn }.

(** What a step did, as a client of the store sees it. A commit that returned an
    error is [EvConflict], a rollback [EvAbort]; a call that returned an error and
    changed nothing, a call on a finished transaction and a collection are
    [EvNone]. *)
Inductive event :=
| EvBegin (h : Z)
| EvWrite (h k : Z) (w : option bytes)
| EvCommit (h : Z)
| EvConflict (h : Z)
| EvAbort (h : Z)
| EvNone.

Definition ev_if (live : bool) (e : event) : event := if live then e else EvNone.

Inductive mstep : event -> msys -> msys -> Prop :=
| m_begin s txns w t s' :
    nextTxn (s_oracle s) < max_u64 ->
    Begin w s = (t, s') ->
    mstep (EvBegin (t_txnID t)) (MSys s txns) (MSys s' (<[t_txnID t := t]> txns))
| m_insert s txns h t doc r t' s' :
    txns !! h = Some t -> Insert t doc s = (r, t', s') ->
    mstep (ev_if (negb (t_done t))
             (match r with inr rid => EvWrite h (Encode rid) (Some doc) | inl _ => EvNone end))
          (MSys s txns) (MSys s' (<[h := t']> txns))
| m_update s txns h t rid doc e t' :
    txns !! h = Some t -> Update t rid doc s = (e, t') ->
    mstep (ev_if (negb (t_done t))
             (match e with None => EvWrite h (Encode rid) (Some doc) | Some _ => EvNone end))
          (MSys s txns) (MSys s (<[h := t']> txns))
| m_delete s txns h t rid e t' :
    txns !! h = Some t -> Delete t rid s = (e, t') ->
    mstep (ev_if (negb (t_done t))
             (match e with None => EvWrite h (Encode rid) None | Some _ => EvNone end))
          (MSys s txns) (MSys s (<[h := t']> txns))
| m_commit s txns h t e t' s' :
    txns !! h = Some t -> commitVer (s_oracle s) < max_u64 ->
    Txn_Commit t s = (e, t', s') ->
    mstep (ev_if (negb (t_done t)) (match e with None => EvCommit h | Some _ => EvConflict h end))
          (MSys s txns) (MSys s' (<[h := t']> txns))
| m_rollback s txns h t e t' s' :
    txns !! h = Some t -> Rollback t s = (e, t', s') ->
    mstep (ev_if (negb (t_done t)) (EvAbort h)) (MSys s txns) (MSys s' (<[h := t']> txns))
| m_gc s txns n s' :
    GC s = (n, s') -> mstep EvNone (MSys s txns) (MSys s' txns).

Inductive mreachable : msys -> Prop :=
| mreach_init : mreachable (MSys NewStore ∅)
| mreach_step e m m' : mreachable m -> mstep e m m' -> mreachable m'.

(** ** The abstract specification: snapshot isolation

    A database is a finite map. A transaction works on a private copy of the
    database taken when it began, with its own writes on top. The first committer
    wins: a transaction may commit when nobody has since committed a write to a
    record it wrote too, and then its writes are applied to the current database in
    one step; it is refused just when somebody has. An abort drops the writes. *)

(** [a_taken] holds the records others have committed writes to since it began. *)
Record atxn := ATxn { a_snap : gmap Z bytes; a_over : gmap Z (option bytes); a_taken : gset Z }.
Record adb := ADb { a_cur : gmap Z bytes; a_txns : gmap Z atxn }.

Definition a_read (t : atxn) (k : Z) : option bytes :=
  match a_over t !! k with Some w => w | None => a_snap t !! k end.

Definition a_apply (over : gmap Z (option bytes)) (db : gmap Z bytes) : gmap Z bytes :=
  merge (fun w d => match w with Some w => w | None => d end) over db.

Definition a_take (ks : gset Z) (t : atxn) : atxn := ATxn (a_snap t) (a_over t) (ks ∪ a_taken t).

Inductive astep : event -> adb -> adb -> Prop :=
| a_begin cur txns h :
    astep (EvBegin h) (ADb cur txns) (ADb cur (<[h := ATxn cur ∅ ∅]> txns))
| a_write cur txns h t k w :
    txns !! h = Some t ->
    astep (EvWrite h k w) (ADb cur txns)
      (ADb cur (<[h := ATxn (a_snap t) (<[k := w]> (a_over t)) (a_taken t)]> txns))
| a_commit cur txns h t :
    txns !! h = Some t -> a_taken t ## dom (a_over t) ->
    astep (EvCommit h) (ADb cur txns)
      (ADb (a_apply (a_over t) cur) (a_take (dom (a_over t)) <$> delete h txns))
| a_conflict cur txns h t :
    txns !! h = Some t -> ~ a_taken t ## dom (a_over t) ->
    astep (EvConflict h) (ADb cur txns) (ADb cur (delete h txns))
| a_abort cur txns h t :
    txns !! h = Some t ->
    astep (EvAbort h) (ADb cur txns) (ADb cur (delete h txns))
| a_none a : astep EvNone a a.

(** The state of a key as of a version. *)
Definition state_at (s : store) (v k : Z) : option bytes :=
  visibleAt v (default [] (s_chains s !! k)).

Definition ver_write (v : version) : option bytes :=
  if is_delete v then None else Some (v_data v).

(** A commit that the oracle remembers wrote k after version sv. *)
Definition overwritten (o : oracle) (sv k : Z) : Prop :=
  exists c, c ∈ recent o /\ sv < ct_commitVer c /\ k ∈ ct_writeSet c.

Record refines (m : msys) (a : adb) : Prop := {
  rf_cur : forall k, state_at (m_store m) (commitVer (s_oracle (m_store m))) k = a_cur a !! k;
  rf_txn : forall h t, m_txns m !! h = Some t -> t_done t = false ->
    exists at', a_txns a !! h = Some at' /\
      a_over at' = ver_write <$> default ∅ (t_pending t) /\
      (forall k, k ∈ a_taken at' <-> overwritten (s_oracle (m_store m)) (t_startVer t) k) /\
      (forall k, state_at (m_store m) (t_startVer t) k = a_snap at' !! k)
}.

(** ** Lemmas: chains *)

Lemma visibleAt_newer sv v c : sv < v_commitVer v -> visibleAt sv (v :: c) = visibleAt sv c.
Proof.
  intros. simpl. unfold visibleTo.
  destruct (Z.leb_spec (v_commitVer v) sv); [lia|]. by rewrite andb_false_r.
Qed.

Definition committed_chain (cv : Z) (c : VersionChain) : Prop :=
  Forall (fun v => v_txnID v = 0 /\ 0 <= v_commitVer v <= cv) c.

Lemma committed_chain_mono cv cv' c : committed_chain cv c -> cv <= cv' -> committed_chain cv' c.
Proof. intros H Hle. eapply Forall_impl; [exact H|]. simpl. intros v ?. lia. Qed.

Lemma visibleAt_head sv v c :
  v_txnID v = 0 -> v_commitVer v <= sv -> visibleAt sv (v :: c) = ver_write v.
Proof.
  intros E Hle. simpl. unfold visibleTo, ver_write. rewrite E.
  by rewrite (proj2 (Z.leb_le _ _) Hle).
Qed.

Lemma visibleAt_all_seen cv sv c :
  committed_chain cv c -> cv <= sv -> visibleAt sv c = visibleAt cv c.
Proof.
  intros Hc Hle. destruct Hc as [|v c [E ?] Hc]; [done|]. by rewrite !visibleAt_head by lia.
Qed.

(** Cutting a chain at a watermark keeps every snapshot at or above it. *)
Lemma keep_tail_visible cv wm sv c c' :
  committed_chain cv c -> keep_tail wm c = Some c' -> wm <= sv ->
  visibleAt sv c' = visibleAt sv c.
Proof.
  intros Hc. revert c'. induction Hc as [|v c [E ?] Hc IH]; intros c' Hk Hle; simpl in Hk; [done|].
  destruct (Z.leb_spec (v_commitVer v) wm).
  - simplify_eq. by rewrite !visibleAt_head by lia.
  - destruct (keep_tail wm c) as [r|]; [|done]. simpl in Hk. simplify_eq. simpl.
    by rewrite (IH r).
Qed.

Lemma keep_tail_Forall P wm c c' : Forall P c -> keep_tail wm c = Some c' -> Forall P c'.
Proof.
  intros Hc. revert c'. induction Hc as [|v c ? Hc IH]; intros c' Hk; simpl in Hk; [done|].
  destruct (_ <=? _); simplify_eq; [by constructor|].
  destruct (keep_tail wm c) as [r|]; [|done]. simpl in Hk. simplify_eq. constructor; auto.
Qed.

Lemma keep_tail_length wm c c' : keep_tail wm c = Some c' -> Len c' <= Len c.
Proof.
  unfold Len. revert c'. induction c as [|v c IH]; intros c' Hk; simpl in Hk; [done|].
  destruct (_ <=? _); simplify_eq; [simpl; lia|].
  destruct (keep_tail wm c) as [r|]; [|done]. simpl in Hk. simplify_eq.
  specialize (IH r eq_refl). simpl. lia.
Qed.

Lemma chain_gc_visible cv wm sv c :
  committed_chain cv c -> wm <= sv ->
  visibleAt sv c = (let '(c', dead) := chain_gc wm c in if dead : bool then None else visibleAt sv c').
Proof.
  intros Hc Hle. unfold chain_gc. destruct (keep_tail wm c) as [c'|] eqn:E; [|done].
  pose proof (keep_tail_visible cv wm sv c c' Hc E Hle) as <-.
  pose proof (keep_tail_Forall _ _ _ _ Hc E) as Hc'.
  destruct c' as [|v [|]]; try done.
  destruct (is_delete v && _) eqn:Ed; [|done].
  apply andb_true_iff in Ed as [Hd Hlt%Z.ltb_lt]. apply Forall_inv in Hc' as [Ht ?].
  rewrite visibleAt_head by lia. unfold ver_write. by rewrite Hd.
Qed.

Lemma chain_gc_committed cv wm c : committed_chain cv c -> committed_chain cv (chain_gc wm c).1.
Proof.
  intros Hc. unfold chain_gc. destruct (keep_tail wm c) eqn:E; [|done]. simpl.
  by eapply keep_tail_Forall.
Qed.

(** ** Lemmas: the oracle's index of commits *)

Record recent_ok (o : oracle) : Prop := {
  rc_sorted : StronglySorted (fun a b => ct_commitVer a < ct_commitVer b) (recent o);
  rc_entry : Forall (fun c => ct_commitVer c <= commitVer o /\ StronglySorted Z.le (ct_writeSet c)) (recent o)
}.

Lemma find_conflict_overwritten o sv ws :
  recent_ok o -> StronglySorted Z.le ws ->
  find_conflict o sv ws = None <-> forall k, k ∈ ws -> ~ overwritten o sv k.
Proof.
  intros [Hs He] Hw. unfold find_conflict. rewrite scan_conflict_None by by apply StronglySorted_rev.
  rewrite Forall_forall in He. split.
  - intros H k Hk (c & Hc & Hv & Hkc). specialize (H c). rewrite <- not_true_iff_false in H. apply H.
    + by rewrite list_elem_of_In, <- in_rev, <- list_elem_of_In.
    + done.
    + apply intersects_true; [by apply He|done|eauto].
  - intros H c Hc Hv. rewrite list_elem_of_In, <- in_rev, <- list_elem_of_In in Hc.
    apply not_true_iff_false. rewrite intersects_true by (done || by apply He).
    intros (k & Hk & Hkw). apply (H k Hkw). by exists c.
Qed.

Lemma prune_cut_suffix wm r : exists d, r = d ++ prune_cut wm r /\ Forall (fun c => ct_commitVer c <= wm) d.
Proof.
  induction r as [|c r (d & E & Hd)]; [by exists []|]. cbn [prune_cut]. destruct (Z.leb_spec (ct_commitVer c) wm).
  - exists (c :: d). split; [cbn; by f_equal|by constructor].
  - by exists [].
Qed.

Lemma recent_ok_ext o o' : recent o' = recent o -> commitVer o' = commitVer o -> recent_ok o -> recent_ok o'.
Proof. intros E1 E2 []. split; by rewrite ?E1, ?E2. Qed.

Lemma overwritten_ext o o' v k : recent o' = recent o -> overwritten o' v k <-> overwritten o v k.
Proof. intros E. unfold overwritten. by rewrite E. Qed.

(** A commit newer than all before it. *)
Lemma recent_ok_snoc o cv ws :
  recent_ok o -> commitVer o < cv -> StronglySorted Z.le ws ->
  recent_ok (set_recent (recent o ++ [CommittedTxn cv ws]) (set_commitVer cv o)).
Proof.
  intros [Hs He] Hcv Hw. rewrite Forall_forall in He. split; cbn [recent commitVer set_recent set_commitVer].
  - apply StronglySorted_app_2; [|done|by repeat constructor].
    intros x y Hx ->%list_elem_of_singleton. apply He in Hx. simpl. lia.
  - apply Forall_app. split; [|by apply Forall_singleton].
    apply Forall_forall. intros c Hc. apply He in Hc as [??]. split; [lia|done].
Qed.

Lemma Release_recent_ok o sv : recent_ok o -> recent_ok (Release sv o).
Proof.
  intros [Hs He]. destruct (releaseLocked_fields sv o) as (Ec & _ & Er & _).
  destruct (prune_cut_suffix (minLive (releaseLocked sv o)) (recent o)) as (d & E & _).
  unfold Release, pruneLocked. split; cbn [recent set_recent commitVer]; rewrite Er, ?Ec.
  - rewrite E in Hs. by eapply StronglySorted_app_1_r.
  - rewrite E in He. by apply Forall_app in He as [_ He].
Qed.

(** Pruning forgets nothing that a live snapshot may ask for. *)
Lemma Release_overwritten o sv v k :
  minLive (Release sv o) <= v -> overwritten (Release sv o) v k <-> overwritten o v k.
Proof.
  intros Hm. destruct (releaseLocked_fields sv o) as (_ & _ & Er & _).
  destruct (prune_cut_suffix (minLive (releaseLocked sv o)) (recent o)) as (d & E & Hd).
  change (minLive (releaseLocked sv o) <= v) in Hm. rewrite Forall_forall in Hd.
  unfold overwritten, Release, pruneLocked. cbn [recent set_recent]. rewrite Er. split.
  - intros (c & Hc & ?). exists c. split; [|done]. rewrite E. apply elem_of_app. by right.
  - intros (c & Hc & Hv & ?). exists c. split; [|done]. rewrite E in Hc. apply elem_of_app in Hc as [Hc|]; [|done].
    specialize (Hd c Hc). simpl in Hd. lia.
Qed.

Lemma overwritten_snoc o c v k :
  overwritten (set_recent (recent o ++ [c]) o) v k <-> overwritten o v k \/ v < ct_commitVer c /\ k ∈ ct_writeSet c.
Proof.
  unfold overwritten. cbn [recent set_recent]. split.
  - intros (x & [Hx|Hx%list_elem_of_singleton]%elem_of_app & ?); [left; by exists x|subst x; by right].
  - intros [(x & Hx & ?)|[? ?]]; [exists x|exists c]; (split; [apply elem_of_app|done]); [by left|right; by apply list_elem_of_singleton].
Qed.

(** ** Lemmas: publish *)

Lemma publish_lookup cv pending chains k :
  publish cv pending chains !! k =
  match default ∅ pending !! k with
  | Some v => Some (stamp cv v :: default [] (chains !! k))
  | None => chains !! k
  end.
Proof.
  unfold publish. revert k. apply (map_fold_weak_ind (fun acc p => forall k,
    acc !! k = match p !! k with
               | Some v => Some (stamp cv v :: default [] (chains !! k))
               | None => chains !! k end)).
  - intros k. by rewrite lookup_empty.
  - intros i v p acc Hi IH k. destruct (decide (i = k)) as [->|Hne].
    + rewrite !lookup_insert_eq, IH, Hi. done.
    + rewrite !lookup_insert_ne by done. apply IH.
Qed.

(** ** The invariant of the system *)

(** The live transactions, as the oracle's transition system describes them. *)
Definition descs (txns : gmap Z Txn) : gmap Z desc :=
  omap (fun t => if t_done t then None else Some (Desc (t_startVer t) false PActive ∅)) txns.

Record minv (m : msys) : Prop := {
  mi_snap : snap_ok (s_oracle (m_store m)) (descs (m_txns m));
  mi_chain : forall k c, s_chains (m_store m) !! k = Some c ->
    committed_chain (commitVer (s_oracle (m_store m))) c;
  mi_ws : forall h t, m_txns m !! h = Some t -> t_done t = false ->
    t_writeSet t = dom (default ∅ (t_pending t));
  mi_ro : forall h t, m_txns m !! h = Some t -> t_done t = false ->
    t_writable t = false -> t_pending t = None;
  mi_dur : forall h t, m_txns m !! h = Some t -> t_done t = false -> t_durable t = None;
  mi_recent : recent_ok (s_oracle (m_store m))
}.

Lemma descs_lookup txns h :
  descs txns !! h =
  match txns !! h with
  | Some t => if t_done t then None else Some (Desc (t_startVer t) false PActive ∅)
  | None => None
  end.
Proof. unfold descs. rewrite lookup_omap. by destruct (txns !! h). Qed.

Lemma descs_insert_live txns h t t' :
  txns !! h = Some t -> t_done t' = t_done t -> t_startVer t' = t_startVer t ->
  descs (<[h := t']> txns) = descs txns.
Proof.
  intros Ht Ed Es. apply map_eq. intros i. rewrite !descs_lookup.
  destruct (decide (h = i)) as [<-|].
  - by rewrite lookup_insert_eq, Ht, Ed, Es.
  - by rewrite lookup_insert_ne.
Qed.

Lemma descs_insert_done txns h t' :
  t_done t' = true -> descs (<[h := t']> txns) = delete h (descs txns).
Proof.
  intros Ed. apply map_eq. intros i. rewrite descs_lookup.
  destruct (decide (h = i)) as [<-|].
  - by rewrite lookup_insert_eq, lookup_delete_eq, Ed.
  - by rewrite lookup_insert_ne, lookup_delete_ne, descs_lookup.
Qed.

Lemma state_at_publish s o cv p n v k :
  v < cv -> state_at (Store o (publish cv p (s_chains s)) n) v k = state_at s v k.
Proof.
  intros. unfold state_at. simpl. rewrite publish_lookup.
  destruct (_ !! k); [|done]. by apply visibleAt_newer.
Qed.

(** The live start versions are at or above the watermark. *)
Lemma minv_start m h t :
  minv m -> m_txns m !! h = Some t -> t_done t = false ->
  minLive (s_oracle (m_store m)) <= t_startVer t <= commitVer (s_oracle (m_store m)).
Proof.
  intros Hi Ht Hd.
  assert (descs (m_txns m) !! h = Some (Desc (t_startVer t) false PActive ∅)) as Hs
    by by rewrite descs_lookup, Ht, Hd.
  pose proof (sn_o _ _ (mi_snap _ Hi)) as Ho.
  destruct (snap_live _ _ _ _ (mi_snap _ Hi) Hs) as [n Hn]. simpl in Hn.
  pose proof (ok_min_le _ Ho _ (mk_is_Some _ _ Hn)). apply (ok_live _ Ho) in Hn. lia.
Qed.

(** How a call to Commit ends. *)
Inductive commit_outcome (t : Txn) (s : store) : option txnErr -> Txn -> store -> Prop :=
| co_done : t_done t = true -> commit_outcome t s (Some ErrTxnDone) t s
| co_noop t' : t_done t = false ->
    t_writable t = false \/ t_writeSet t = ∅ -> t_done t' = true ->
    commit_outcome t s None t' (set_oracle (Release (t_startVer t) (s_oracle s)) s)
| co_fail e t' : t_done t = false -> t_done t' = true ->
    t_durable t <> None \/ find_conflict (s_oracle s) (t_startVer t) (sortedWriteSet t) <> None ->
    commit_outcome t s (Some e) t' (set_oracle (Release (t_startVer t) (s_oracle s)) s)
| co_ok cv t' o : t_done t = false -> t_done t' = true -> t_commitVer t' = cv ->
    t_writable t = true ->
    cv = u64 (commitVer (s_oracle s) + 1) ->
    find_conflict (s_oracle s) (t_startVer t) (sortedWriteSet t) = None ->
    o = Release (t_startVer t)
          (set_recent (recent (s_oracle s) ++ [CommittedTxn cv (sortedWriteSet t)])
             (set_commitVer cv (s_oracle s))) ->
    commit_outcome t s None t' (Store o (publish cv (t_pending t) (s_chains s)) (s_nextRID s)).

Lemma Txn_Commit_outcome t s e t' s' :
  Txn_Commit t s = (e, t', s') -> commit_outcome t s e t' s'.
Proof.
  unfold Txn_Commit. destruct (t_done t) eqn:Ed; [intros [= <- <- <-]; by constructor|].
  destruct (negb (t_writable t) || _) eqn:Ew.
  { intros [= <- <- <-]. constructor; [done| |done].
    apply orb_true_iff in Ew as [?%negb_true_iff|?%Nat.eqb_eq]; [by left|right].
    by apply leibniz_equiv, size_empty_iff. }
  apply orb_false_iff in Ew as [?%negb_false_iff _].
  unfold Commit. destruct (find_conflict _ _ _) eqn:Ef.
  { intros [= <- <- <-]. destruct s. apply co_fail; [done|done|right; by rewrite Ef]. }
  destruct (run_durable _ _) eqn:Edu.
  - intros [= <- <- <-]. destruct s. apply co_fail; [done|done|left]. intros E. by rewrite E in Edu.
  - intros [= <- <- <-]. by eapply co_ok.
Qed.

(** *** The invariant is preserved *)

Lemma Begin_spec w s t s' :
  Begin w s = (t, s') ->
  exists o', Acquire (s_oracle s) = (t_startVer t, t_txnID t, o') /\ s' = set_oracle o' s /\
    t_done t = false /\ t_pending t = None /\ t_writeSet t = ∅.
Proof.
  unfold Begin. destruct (Acquire (s_oracle s)) as [[sv tid] o']. intros [= <- <-].
  by exists o'.
Qed.

Lemma note_fields key v t :
  t_startVer (note key v t) = t_startVer t /\ t_done (note key v t) = t_done t /\
  t_writable (note key v t) = t_writable t /\
  default ∅ (t_pending (note key v t)) = <[key := v]> (default ∅ (t_pending t)) /\
  (t_writeSet t = dom (default ∅ (t_pending t)) ->
   t_writeSet (note key v t) = dom (default ∅ (t_pending (note key v t)))).
Proof.
  unfold note. destruct (t_pending t) as [p|]; simpl; split_and!; try done.
  - intros ->. by rewrite dom_insert_L.
  - intros _. by rewrite dom_insert_L, dom_empty_L.
Qed.

Lemma minv_update m h t t' :
  minv m -> m_txns m !! h = Some t ->
  t_done t' = t_done t -> t_startVer t' = t_startVer t ->
  (t_done t = false -> t_writeSet t' = dom (default ∅ (t_pending t'))) ->
  (t_done t = false -> t_writable t' = false -> t_pending t' = None) ->
  t_durable t' = t_durable t ->
  minv (MSys (m_store m) (<[h := t']> (m_txns m))).
Proof.
  intros Hi Ht Ed Es Hw Hr Edu. split; simpl.
  - erewrite descs_insert_live; [apply Hi|done..].
  - apply (mi_chain _ Hi).
  - intros h' t'' [[<- <-]|[? ?]]%lookup_insert_Some Hd; [apply Hw; congruence|].
    by eapply (mi_ws _ Hi).
  - intros h' t'' [[<- <-]|[? ?]]%lookup_insert_Some Hd; [apply Hr; congruence|].
    by eapply (mi_ro _ Hi).
  - intros h' t'' [[<- <-]|[? ?]]%lookup_insert_Some Hd; [rewrite Edu; eapply (mi_dur _ Hi); [exact Ht|congruence]|].
    by eapply (mi_dur _ Hi).
  - apply (mi_recent _ Hi).
Qed.

Lemma minv_note m h t key v :
  minv m -> m_txns m !! h = Some t -> t_writable t = true ->
  minv (MSys (m_store m) (<[h := note key v t]> (m_txns m))).
Proof.
  intros Hi Ht Hw. destruct (note_fields key v t) as (? & ? & ? & ? & Hws).
  eapply minv_update; [done|done|done|done| |congruence|].
  - intros Hd. apply Hws. by eapply (mi_ws _ Hi).
  - unfold note. by destruct (t_pending t).
Qed.

Lemma minv_store_ext s s' txns :
  s_oracle s' = s_oracle s -> s_chains s' = s_chains s -> minv (MSys s txns) -> minv (MSys s' txns).
Proof. intros E1 E2 []. split; simpl in *; rewrite ?E1, ?E2; done. Qed.

Lemma Insert_cases t doc s r t' s' :
  Insert t doc s = (r, t', s') ->
  (r = inl ErrReadOnly /\ t_writable t = false /\ t' = t /\ s' = s) \/
  (exists rid, r = inr rid /\ t_writable t = true /\
     t' = note (Encode rid) (Version 0 (t_txnID t) KindInsert doc) t /\
     s_oracle s' = s_oracle s /\ s_chains s' = s_chains s).
Proof.
  unfold Insert. destruct (t_writable t); simpl; intros [= <- <- <-]; [right|left; done].
  by eexists.
Qed.

Lemma Update_cases t rid doc s e t' :
  Update t rid doc s = (e, t') ->
  (exists err, e = Some err /\ t' = t) \/
  (e = None /\ t_writable t = true /\ is_Some (read s t rid) /\
   t' = note (Encode rid) (Version 0 (t_txnID t) KindUpdate doc) t).
Proof.
  unfold Update. destruct (t_writable t); simpl; [|intros [= <- <-]; eauto].
  destruct (read s t rid) eqn:E; intros [= <- <-]; eauto 6.
Qed.

Lemma Delete_cases t rid s e t' :
  Delete t rid s = (e, t') ->
  (exists err, e = Some err /\ t' = t) \/
  (e = None /\ t_writable t = true /\ is_Some (read s t rid) /\
   t' = note (Encode rid) (Version 0 (t_txnID t) KindDelete []) t).
Proof.
  unfold Delete. destruct (t_writable t); simpl; [|intros [= <- <-]; eauto].
  destruct (read s t rid) eqn:E; intros [= <- <-]; eauto 6.
Qed.

(** Retiring a live transaction: it is finished, and its snapshot released after
    the oracle moved from [o] to [o1]. *)
Lemma minv_retire s txns h t t' o1 chains n :
  minv (MSys s txns) -> txns !! h = Some t -> t_done t = false -> t_done t' = true ->
  oracle_ok o1 -> live o1 = live (s_oracle s) -> nextTxn o1 = nextTxn (s_oracle s) ->
  ssiLive o1 = ssiLive (s_oracle s) ->
  (forall k c, chains !! k = Some c -> committed_chain (commitVer o1) c) ->
  recent_ok o1 ->
  minv (MSys (Store (Release (t_startVer t) o1) chains n) (<[h := t']> txns)).
Proof.
  intros Hi Ht Hd Hd' Ho1 El En Esl' Hc Hrc.
  assert (Hs : descs txns !! h = Some (Desc (t_startVer t) false PActive ∅))
    by by rewrite descs_lookup, Ht, Hd.
  pose proof (snap_live _ _ _ _ (mi_snap _ Hi) Hs) as Hlive. simpl in Hlive.
  destruct (releaseLocked_fields (t_startVer t) o1) as (Ecv & En1 & _ & Esl & _).
  split; simpl.
  - rewrite descs_insert_done by done.
    eapply (snap_ok_retire (s_oracle s) o1); [apply Hi|done|done|done| |done| |].
    + apply Release_ok; [done|]. by rewrite El.
    + simpl. by rewrite En1.
    + intros id st Hid Hst. exists st. simpl. by rewrite Esl, Esl'.
  - rewrite Ecv. done.
  - intros h' t'' [[<- <-]|[? ?]]%lookup_insert_Some ?; [congruence|]. by eapply (mi_ws _ Hi).
  - intros h' t'' [[<- <-]|[? ?]]%lookup_insert_Some ?; [congruence|]. by eapply (mi_ro _ Hi).
  - intros h' t'' [[<- <-]|[? ?]]%lookup_insert_Some ?; [congruence|]. by eapply (mi_dur _ Hi).
  - by apply Release_recent_ok.
Qed.

Lemma publish_committed o chains cv p :
  (forall k c, chains !! k = Some c -> committed_chain (commitVer o) c) ->
  0 <= cv -> commitVer o <= cv ->
  forall k c, publish cv p chains !! k = Some c -> committed_chain cv c.
Proof.
  intros Hc H0 Hle k c. rewrite publish_lookup.
  assert (Hd : committed_chain cv (default [] (chains !! k))).
  { destruct (chains !! k) eqn:E; [|constructor]. eapply committed_chain_mono; [by eapply Hc|done]. }
  destruct (default ∅ p !! k) as [v|] eqn:E.
  - intros [= <-]. constructor; [simpl; lia|done].
  - intros E'. by rewrite E' in Hd.
Qed.

Lemma minv_step e m m' : minv m -> mstep e m m' -> minv m'.
Proof.
  intros Hi Hstep. destruct Hstep as [s txns w t s' Hn HB|s txns h t doc r t' s' Ht HI
    |s txns h t rid doc e t' Ht HU|s txns h t rid e t' Ht HD|s txns h t e t' s' Ht Hmax HC
    |s txns h t e t' s' Ht HR|s txns n s' HG].
  - pose proof Hi as [Hs Hc Hw Hr Hdu Hrc]; simpl in *.
    unfold Begin in HB. destruct (Acquire (s_oracle s)) as [[sv tid] o'] eqn:HA.
    injection HB as <- <-. simpl.
    pose proof (snap_ok_acquire _ _ _ _ _ false Hs Hn HA) as [_ Hs'].
    split; simpl.
    + replace (descs _) with (<[tid := Desc sv false PActive ∅]> (descs txns)); [done|].
      apply map_eq. intros i. destruct (decide (tid = i)) as [<-|].
      * by rewrite descs_lookup, !lookup_insert_eq.
      * by rewrite descs_lookup, !lookup_insert_ne, descs_lookup.
    + apply Acquire_state in HA as (_ & _ & -> & _). done.
    + intros h' t'' [[<- <-]|[? ?]]%lookup_insert_Some ?; [done|by eapply Hw].
    + intros h' t'' [[<- <-]|[? ?]]%lookup_insert_Some ?; [done|by eapply Hr].
    + intros h' t'' [[<- <-]|[? ?]]%lookup_insert_Some ?; [done|by eapply Hdu].
    + apply Acquire_state in HA as (_ & _ & Ecv & _ & _ & _ & Erc & _). by eapply recent_ok_ext.
  - apply Insert_cases in HI as [(_ & _ & -> & ->)|(rid & _ & Hw & -> & Eo & Ec)].
    + by rewrite insert_id.
    + apply (minv_store_ext s); [done|done|]. by apply (minv_note (MSys s txns)).
  - apply Update_cases in HU as [(err & _ & ->)|(_ & Hw & _ & ->)].
    + by rewrite insert_id.
    + by apply (minv_note (MSys s txns)).
  - apply Delete_cases in HD as [(err & _ & ->)|(_ & Hw & _ & ->)].
    + by rewrite insert_id.
    + by apply (minv_note (MSys s txns)).
  - pose proof (sn_o _ _ (mi_snap _ Hi)) as Ho. simpl in Ho.
    apply Txn_Commit_outcome in HC. destruct HC as [Hd|t' Hd _ Hd'|e t' Hd Hd' _|cv t' o Hd Hd' _ _ Ecv Hf ->].
    + by rewrite insert_id.
    + eapply minv_retire; try done; [apply (mi_chain _ Hi)|apply (mi_recent _ Hi)].
    + eapply minv_retire; try done; [apply (mi_chain _ Hi)|apply (mi_recent _ Hi)].
    + pose proof (minv_start _ h t Hi Ht Hd) as Hst. simpl in Hst.
      assert (Hs : descs txns !! h = Some (Desc (t_startVer t) false PActive ∅))
        by by rewrite descs_lookup, Ht, Hd.
      pose proof (snap_live _ _ _ _ (mi_snap _ Hi) Hs) as Hlive. simpl in Hlive.
      pose proof (ok_cv _ Ho) as Hcv.
      assert (E64 : cv = commitVer (s_oracle s) + 1).
      { rewrite Ecv. apply wrap_small. unfold in_u, max_u64 in *. lia. }
      eapply minv_retire; try done.
      * rewrite Ecv. by eapply oracle_ok_bump.
      * simpl. eapply publish_committed; [apply (mi_chain _ Hi)| |]; simpl;
          unfold in_u in *; lia.
      * apply recent_ok_snoc; [apply (mi_recent _ Hi)|simpl; lia|apply sortedKeys_sorted].
  - unfold Rollback in HR. destruct (t_done t) eqn:Hd; injection HR as <- <- <-.
    + by rewrite insert_id.
    + eapply minv_retire; try done; [apply (mi_snap _ Hi)|apply (mi_chain _ Hi)|apply (mi_recent _ Hi)].
  - injection HG as <- <-. destruct Hi as [Hs Hc Hw Hr Hdu Hrc]; simpl in *. split; simpl; try done.
    intros k c. rewrite lookup_omap. destruct (s_chains s !! k) as [c0|] eqn:E; [|done]. simpl.
    pose proof (chain_gc_committed (commitVer (s_oracle s)) (Watermark (s_oracle s)) c0 (Hc _ _ E)) as H.
    unfold chain_survivor. destruct (chain_gc _ _) as [c' [|]]; [done|]. by intros [= <-].
Qed.

Lemma minv_reachable m : mreachable m -> minv m.
Proof.
  induction 1 as [|e m m' _ IH Hstep]; [|by eapply minv_step].
  assert (Ed : descs ∅ = ∅) by apply omap_empty.
  split; simpl.
  - rewrite Ed. split; try done. by apply NewOracle_ok; unfold in_u.
  - intros k c Hk. by rewrite lookup_empty in Hk.
  - intros h t Ht. by rewrite lookup_empty in Ht.
  - intros h t Ht. by rewrite lookup_empty in Ht.
  - intros h t Ht. by rewrite lookup_empty in Ht.
  - split; constructor.
Qed.

(** *** The refinement *)

Lemma a_apply_lookup over db k :
  a_apply over db !! k = match over !! k with Some w => w | None => db !! k end.
Proof.
  unfold a_apply. rewrite lookup_merge. by destruct (over !! k) as [[|]|], (db !! k).
Qed.

Lemma state_at_gc m s' n v k :
  minv m -> GC (m_store m) = (n, s') -> minLive (s_oracle (m_store m)) <= v ->
  state_at s' v k = state_at (m_store m) v k.
Proof.
  intros Hi [= <- <-] Hv. unfold state_at. simpl. rewrite lookup_omap.
  destruct (s_chains (m_store m) !! k) as [c|] eqn:E; [|done]. simpl.
  rewrite (chain_gc_visible _ (Watermark (s_oracle (m_store m))) v c (mi_chain _ Hi _ _ E) Hv).
  unfold chain_survivor. by destruct (chain_gc _ _) as [c' [|]].
Qed.

(** The committed state seen at the commit version after a publish. *)
Lemma state_at_publish_now s o cv p n k :
  (forall c, s_chains s !! k = Some c -> committed_chain (commitVer (s_oracle s)) c) ->
  commitVer (s_oracle s) < cv ->
  state_at (Store o (publish cv p (s_chains s)) n) cv k =
  match (ver_write <$> default ∅ p) !! k with
  | Some w => w
  | None => state_at s (commitVer (s_oracle s)) k
  end.
Proof.
  intros Hc Hlt. unfold state_at. simpl. rewrite publish_lookup, lookup_fmap.
  destruct (default ∅ p !! k) as [v|].
  - etransitivity; [apply (visibleAt_head cv (stamp cv v)); simpl; lia|done].
  - simpl. destruct (s_chains s !! k) as [c|]; [|done]. simpl. apply visibleAt_all_seen; [by apply Hc|lia].
Qed.

Lemma refines_note m a h t key v :
  minv m -> refines m a -> m_txns m !! h = Some t -> t_done t = false ->
  exists a', astep (EvWrite h key (ver_write v)) a a' /\
    refines (MSys (m_store m) (<[h := note key v t]> (m_txns m))) a'.
Proof.
  intros Hi [Hcur Htx] Ht Hd. destruct a as [cur atx]. simpl in *.
  destruct (Htx h t Ht Hd) as (at' & Ha & Eo & Ek & Es).
  eexists. split; [by apply a_write|]. split; [done|]. simpl.
  destruct (note_fields key v t) as (Est & _ & _ & Ep & _).
  intros h' t' [[<- <-]|[? Ht']]%lookup_insert_Some Hd'.
  - eexists. rewrite lookup_insert_eq. split; [done|]. simpl. split.
    + rewrite Ep, fmap_insert. by rewrite Eo.
    + by rewrite Est.
  - rewrite lookup_insert_ne by done. by apply Htx.
Qed.

(** A transaction that ends, and its abstract end: the others keep their
    snapshots, and ks are taken from them. *)
Lemma refines_retire m a h t t' s' cur' ks :
  refines m a -> t_done t' = true -> m_txns m !! h = Some t ->
  (forall k, state_at s' (commitVer (s_oracle s')) k = cur' !! k) ->
  (forall h' t1 k, h' <> h -> m_txns m !! h' = Some t1 -> t_done t1 = false ->
     state_at s' (t_startVer t1) k = state_at (m_store m) (t_startVer t1) k /\
     (overwritten (s_oracle s') (t_startVer t1) k <->
        k ∈ ks \/ overwritten (s_oracle (m_store m)) (t_startVer t1) k)) ->
  refines (MSys s' (<[h := t']> (m_txns m))) (ADb cur' (a_take ks <$> delete h (a_txns a))).
Proof.
  intros [_ Htx] Hd' Ht Hcur Hst. split; simpl; [done|].
  intros h' t1 [[<- <-]|[? Ht']]%lookup_insert_Some Hd1; [congruence|].
  destruct (Htx h' t1 Ht' Hd1) as (at' & Ha & Eo & Ek & Es). exists (a_take ks at').
  rewrite lookup_fmap, lookup_delete_ne, Ha by done. split_and!; try done; intros k;
    destruct (Hst h' t1 k) as [H1 H2]; try done.
  - rewrite H2, <- Ek. cbn [a_take a_taken]. set_solver.
  - rewrite H1. apply Es.
Qed.

Lemma a_take_empty (txns : gmap Z atxn) : a_take ∅ <$> txns = txns.
Proof.
  apply map_eq. intros h. rewrite lookup_fmap. destruct (txns !! h) as [[x y z]|]; [|done].
  unfold a_take. cbn. by rewrite (left_id_L ∅ (∪)).
Qed.

(** What it gives up is asked for by nobody. *)
Lemma retire_overwritten m h t t' h' t1 chains n k :
  minv m -> minv (MSys (Store (Release (t_startVer t) (s_oracle (m_store m))) chains n) (<[h := t']> (m_txns m))) ->
  h' <> h -> m_txns m !! h' = Some t1 -> t_done t1 = false ->
  overwritten (Release (t_startVer t) (s_oracle (m_store m))) (t_startVer t1) k <->
    k ∈ (∅ : gset Z) \/ overwritten (s_oracle (m_store m)) (t_startVer t1) k.
Proof.
  intros Hi Hi' Hne Ht1 Hd1.
  pose proof (minv_start _ h' t1 Hi' ltac:(simpl; by rewrite lookup_insert_ne) Hd1) as H. simpl in H.
  rewrite Release_overwritten by (simpl; lia). set_solver.
Qed.

Lemma a_apply_empty db : a_apply ∅ db = db.
Proof. apply map_eq. intros k. by rewrite a_apply_lookup, lookup_empty. Qed.

Lemma refines_step e m m' a :
  minv m -> refines m a -> mstep e m m' -> exists a', astep e a a' /\ refines m' a'.
Proof.
  intros Hi Hr Hstep. pose proof (minv_step _ _ _ Hi Hstep) as Hi'. destruct Hstep as [s txns w t s' Hn HB|s txns h t doc r t' s' Ht HI
    |s txns h t rid doc e t' Ht HU|s txns h t rid e t' Ht HD|s txns h t e t' s' Ht Hmax HC
    |s txns h t e t' s' Ht HR|s txns n s' HG].
  - destruct a as [cur atx], Hr as [Hcur Htx]; simpl in *.
    apply Begin_spec in HB as (o' & HA & -> & Hd & Hp & _).
    apply Acquire_state in HA as (Es & _ & Ecv & _ & _ & _ & Erc & _).
    eexists. split; [apply a_begin|]. split; simpl; [by rewrite Ecv|].
    intros h' t' [[<- <-]|[? Ht']]%lookup_insert_Some Hd'.
    + eexists. rewrite lookup_insert_eq. split; [done|]. simpl. rewrite Hp. simpl.
      rewrite fmap_empty. split; [done|]. split; [|rewrite Es; apply Hcur].
      intros k. rewrite (overwritten_ext _ _ _ _ Erc), Es. split; [by intros ?%elem_of_empty|].
      intros (c & Hc & Hlt & _). destruct (mi_recent _ Hi) as [_ He]. rewrite Forall_forall in He.
      apply He in Hc as [Hle _]. simpl in Hle. lia.
    + rewrite lookup_insert_ne by done. destruct (Htx h' t' Ht' Hd') as (at' & ? & ? & Ek & ?). exists at'.
      split_and!; try done. intros k. by rewrite (overwritten_ext _ _ _ _ Erc).
  - apply Insert_cases in HI as [(-> & _ & -> & ->)|(rid & -> & Hw & -> & Eo & Ec)]; simpl.
    + exists a. rewrite insert_id by done. split; [|done].
      destruct (negb _); apply a_none.
    + destruct (t_done t) eqn:Hd; simpl.
      * exists a. split; [apply a_none|]. destruct Hr as [Hcur Htx].
        destruct (note_fields (Encode rid) (Version 0 (t_txnID t) KindInsert doc) t) as (_ & Ed & _).
        split; simpl in *; rewrite ?Eo; unfold state_at in *; rewrite ?Ec; [done|].
        intros h' t1 [[<- <-]|[? Ht1]]%lookup_insert_Some Hd1; [congruence|by apply Htx].
      * destruct (refines_note (MSys s txns) a h t (Encode rid)
          (Version 0 (t_txnID t) KindInsert doc)) as (a' & ? & Hr'); [done..|].
        exists a'. split; [done|]. destruct Hr' as [Hcur Htx].
        split; simpl in *; rewrite ?Eo; unfold state_at in *; rewrite ?Ec; done.
  - apply Update_cases in HU as [(err & -> & ->)|(-> & Hw & _ & ->)]; simpl.
    + exists a. rewrite insert_id by done. split; [|done]. destruct (negb _); apply a_none.
    + destruct (t_done t) eqn:Hd; simpl.
      * exists a. split; [apply a_none|]. destruct Hr as [Hcur Htx].
        destruct (note_fields (Encode rid) (Version 0 (t_txnID t) KindUpdate doc) t) as (_ & Ed & _).
        split; [done|]. simpl in *.
        intros h' t1 [[<- <-]|[? Ht1]]%lookup_insert_Some Hd1; [congruence|by apply Htx].
      * by apply (refines_note (MSys s txns) a h t (Encode rid)
          (Version 0 (t_txnID t) KindUpdate doc)).
  - apply Delete_cases in HD as [(err & -> & ->)|(-> & Hw & _ & ->)]; simpl.
    + exists a. rewrite insert_id by done. split; [|done]. destruct (negb _); apply a_none.
    + destruct (t_done t) eqn:Hd; simpl.
      * exists a. split; [apply a_none|]. destruct Hr as [Hcur Htx].
        destruct (note_fields (Encode rid) (Version 0 (t_txnID t) KindDelete []) t) as (_ & Ed & _).
        split; [done|]. simpl in *.
        intros h' t1 [[<- <-]|[? Ht1]]%lookup_insert_Some Hd1; [congruence|by apply Htx].
      * by apply (refines_note (MSys s txns) a h t (Encode rid)
          (Version 0 (t_txnID t) KindDelete [])).
  - pose proof (releaseLocked_fields (t_startVer t)) as HR.
    apply Txn_Commit_outcome in HC.
    destruct HC as [Hd|t' Hd Hnw Hd'|e t' Hd Hd' Hno|cv t' o Hd Hd' _ Hwr Ecv Hf ->]; rewrite Hd; simpl.
    + exists a. split; [apply a_none|]. by rewrite insert_id.
    + destruct (rf_txn _ _ Hr h t Ht Hd) as (at' & Ha & Eo & _).
      assert (Hover : a_over at' = ∅).
      { rewrite Eo. destruct Hnw as [Hnw|Hnw].
        - rewrite (mi_ro _ Hi h t Ht Hd Hnw). apply fmap_empty.
        - rewrite (mi_ws _ Hi h t Ht Hd) in Hnw. apply dom_empty_inv_L in Hnw.
          by rewrite Hnw, fmap_empty. }
      exists (ADb (a_cur a) (a_take ∅ <$> delete h (a_txns a))). split.
      * destruct a as [cur atx]. simpl in *. pose proof (a_commit cur atx h at' Ha) as Hc.
        rewrite Hover, dom_empty_L, a_apply_empty in Hc. apply Hc. set_solver.
      * eapply (refines_retire (MSys s txns) a h t t'); try done.
        -- simpl. rewrite (proj1 (HR _)). apply (rf_cur _ _ Hr).
        -- intros h' t1 k Hne Ht1 Hd1. split; [done|]. by eapply (retire_overwritten (MSys s txns) h).
    + destruct (rf_txn _ _ Hr h t Ht Hd) as (at' & Ha & Eo & Ek & _). simpl in *.
      exists (ADb (a_cur a) (delete h (a_txns a))). split.
      * destruct a. eapply a_conflict; [done|]. intros Hdis.
        destruct Hno as [Hno|Hno]; [by rewrite (mi_dur _ Hi h t Ht Hd) in Hno|]. apply Hno.
        rewrite find_conflict_overwritten by (apply (mi_recent _ Hi) || apply sortedKeys_sorted).
        intros k Hk. unfold sortedWriteSet in Hk. rewrite elem_of_sortedKeys, (mi_ws _ Hi h t Ht Hd) in Hk.
        rewrite <- Ek. intros Hk'. apply (Hdis k Hk'). by rewrite Eo, dom_fmap_L.
      * rewrite <- (a_take_empty (delete _ _)). eapply (refines_retire (MSys s txns) a h t t'); try done.
        -- simpl. rewrite (proj1 (HR _)). apply (rf_cur _ _ Hr).
        -- intros h' t1 k Hne Ht1 Hd1. split; [done|]. by eapply (retire_overwritten (MSys s txns) h).
    + destruct (rf_txn _ _ Hr h t Ht Hd) as (at' & Ha & Eo & Ek & _). simpl in *.
      pose proof (ok_cv _ (sn_o _ _ (mi_snap _ Hi))) as Hcv. simpl in Hcv.
      assert (E64 : cv = commitVer (s_oracle s) + 1).
      { rewrite Ecv. apply wrap_small. unfold in_u, max_u64 in *. lia. }
      assert (Hdom : dom (a_over at') = t_writeSet t) by by rewrite Eo, dom_fmap_L, (mi_ws _ Hi h t Ht Hd).
      exists (ADb (a_apply (a_over at') (a_cur a)) (a_take (dom (a_over at')) <$> delete h (a_txns a))). split.
      * destruct a. apply a_commit; [done|]. intros k Hk Hk'. rewrite Ek in Hk.
        rewrite find_conflict_overwritten in Hf by (apply (mi_recent _ Hi) || apply sortedKeys_sorted).
        apply (Hf k); [|done]. unfold sortedWriteSet. by rewrite elem_of_sortedKeys, <- Hdom.
      * eapply (refines_retire (MSys s txns) a h t t'); try done; simpl.
        -- intros k. rewrite (proj1 (HR _)). simpl.
           rewrite state_at_publish_now; [|intros c Hc; by apply (mi_chain _ Hi k)|lia].
           rewrite a_apply_lookup, Eo. destruct (_ !! k); [done|]. apply (rf_cur _ _ Hr).
        -- intros h' t1 k Hne Ht1 Hd1. pose proof (minv_start _ h' t1 Hi Ht1 Hd1) as Hst. simpl in Hst.
           split; [apply state_at_publish; lia|].
           pose proof (minv_start _ h' t1 Hi' ltac:(simpl; by rewrite lookup_insert_ne) Hd1) as Hst'. simpl in Hst'.
           rewrite Release_overwritten by (simpl; lia).
           change (set_recent _ (set_commitVer cv (s_oracle s))) with
             (set_recent (recent (set_commitVer cv (s_oracle s)) ++ [CommittedTxn cv (sortedWriteSet t)]) (set_commitVer cv (s_oracle s))).
           rewrite overwritten_snoc, (overwritten_ext (s_oracle s)) by done. cbn [ct_commitVer ct_writeSet].
           unfold sortedWriteSet. rewrite elem_of_sortedKeys, Hdom. split; [intros [?|[_ ?]]; tauto|].
           intros [?|?]; [right; split; [lia|done]|by left].
  - pose proof (releaseLocked_fields (t_startVer t)) as HRl.
    unfold Rollback in HR. destruct (t_done t) eqn:Hd; injection HR as <- <- <-; simpl.
    + exists a. split; [apply a_none|]. by rewrite insert_id.
    + destruct (rf_txn _ _ Hr h t Ht Hd) as (at' & Ha & _).
      exists (ADb (a_cur a) (delete h (a_txns a))). split.
      * destruct a. by eapply a_abort.
      * rewrite <- (a_take_empty (delete _ _)). eapply (refines_retire (MSys s txns) a h t (set_done (discard t))); try done.
        -- simpl. rewrite (proj1 (HRl _)). apply (rf_cur _ _ Hr).
        -- intros h' t1 k Hne Ht1 Hd1. split; [done|]. by eapply (retire_overwritten (MSys s txns) h).
  - exists a. split; [apply a_none|]. destruct Hr as [Hcur Htx].
    pose proof (fun v k => state_at_gc _ s' n v k Hi HG) as Hg.
    assert (Eo : s_oracle s' = s_oracle s) by by injection HG as <- <-.
    pose proof (ok_minLive_range _ (sn_o _ _ (mi_snap _ Hi))). split; simpl in *.
    + intros k. rewrite Eo, Hg by lia. apply Hcur.
    + intros h t Ht Hd. destruct (Htx h t Ht Hd) as (at' & ? & ? & Ek & Es). exists at'.
      split_and!; try done; intros k; [by rewrite Eo|]. rewrite Hg; [apply Es|].
      pose proof (minv_start _ h t Hi Ht Hd). simpl in *. lia.
Qed.

(** *** Committed versions are immutable *)

Lemma read_state_at s t rid :
  read s t rid =
  match t_pending t with
  | Some p => match p !! Encode rid with
              | Some v => ver_write v
              | None => state_at s (t_startVer t) (Encode rid)
              end
  | None => state_at s (t_startVer t) (Encode rid)
  end.
Proof.
  unfold read, state_at, ver_write. destruct (t_pending t) as [p|]; [destruct (p !! _); [done|]|].
  all: by destruct (s_chains s !! _).
Qed.

Lemma mstep_state_at e m m' v k :
  minv m -> mstep e m m' ->
  minLive (s_oracle (m_store m)) <= v <= commitVer (s_oracle (m_store m)) ->
  state_at (m_store m') v k = state_at (m_store m) v k.
Proof.
  intros Hi Hstep Hv. destruct Hstep as [s txns w t s' Hn HB|s txns h t doc r t' s' Ht HI
    |s txns h t rid doc e t' Ht HU|s txns h t rid e t' Ht HD|s txns h t e t' s' Ht Hmax HC
    |s txns h t e t' s' Ht HR|s txns n s' HG]; simpl in *.
  - by apply Begin_spec in HB as (o' & _ & -> & _).
  - apply Insert_cases in HI as [(_ & _ & _ & ->)|(rid & _ & _ & _ & _ & Ec)]; [done|].
    unfold state_at. by rewrite Ec.
  - done.
  - done.
  - apply Txn_Commit_outcome in HC. destruct HC as [| | |cv t' o _ _ _ _ Ecv _ _]; try done.
    apply state_at_publish. pose proof (ok_cv _ (sn_o _ _ (mi_snap _ Hi))) as Hcv. simpl in Hcv.
    rewrite Ecv, wrap_small; [lia|]. unfold in_u, max_u64 in *. lia.
  - unfold Rollback in HR. by destruct (t_done t); injection HR as _ _ <-.
  - apply (state_at_gc (MSys s txns) s' n); [done|done|simpl; lia].
Qed.

(** ** Theorems *)

(** Runs of the store and of the specification, with their events. *)
Inductive mruns : list event -> msys -> Prop :=
| mr_nil : mruns [] (MSys NewStore ∅)
| mr_snoc es e m m' : mruns es m -> mstep e m m' -> mruns (es ++ [e]) m'.

Inductive aruns : list event -> adb -> Prop :=
| ar_nil : aruns [] (ADb ∅ ∅)
| ar_snoc es e a a' : aruns es a -> astep e a a' -> aruns (es ++ [e]) a'.

Lemma mruns_reachable es m : mruns es m -> mreachable m.
Proof. induction 1; eauto using mreachable. Qed.

Lemma mruns_refines es m : mruns es m -> exists a, aruns es a /\ refines m a.
Proof.
  induction 1 as [|es e m m' Hm (a & Ha & Hr) Hstep].
  - exists (ADb ∅ ∅). split; [constructor|]. split; simpl.
    + intros k. unfold state_at. simpl. by rewrite !lookup_empty.
    + intros h t Ht. by rewrite lookup_empty in Ht.
  - destruct (refines_step e m m' a) as (a' & ? & ?); [|done|done|].
    + by eapply minv_reachable, mruns_reachable.
    + exists a'. split; [by eapply ar_snoc|done].
Qed.

(** C10. The store implements snapshot isolation: every run of the store, with
    any interleaving of its transactions and collections, has the events of a
    run of the abstract database, in which a commit succeeds when no other
    transaction has committed a write to a record it wrote since it began, and is
    refused exactly when one has; and every live transaction reads exactly what
    its abstract counterpart reads: its own writes over the database as it was
    when it began. *)
Theorem store_refines_snapshot_isolation es m :
  mruns es m ->
  exists a, aruns es a /\
    forall h t rid, m_txns m !! h = Some t -> t_done t = false ->
      exists at', a_txns a !! h = Some at' /\ read (m_store m) t rid = a_read at' (Encode rid).
Proof.
  intros (a & Ha & Hr)%mruns_refines. exists a. split; [done|]. intros h t rid Ht Hd.
  destruct (rf_txn _ _ Hr h t Ht Hd) as (at' & ? & Eo & _ & Es). exists at'. split; [done|].
  rewrite read_state_at. unfold a_read. rewrite Eo, lookup_fmap.
  destruct (t_pending t) as [p|]; simpl; [destruct (p !! _); simpl|rewrite lookup_empty; simpl];
    try done; by apply Es.
Qed.

(** C11. Repeatable reads: whatever one step of the system does (another
    transaction's write, commit or rollback, or a garbage collection), a live
    transaction that it does not touch reads every record as before. *)
Theorem snapshot_read_stable e m m' h t rid :
  mreachable m -> mstep e m m' ->
  m_txns m !! h = Some t -> t_done t = false -> m_txns m' !! h = Some t ->
  read (m_store m') t rid = read (m_store m) t rid.
Proof.
  intros Hm Hstep Ht Hd _. pose proof (minv_reachable _ Hm) as Hi.
  rewrite !read_state_at, (mstep_state_at e m m'); [done|done|done|].
  by eapply minv_start.
Qed.

(** A successful commit of a writer is one atomic step of the database: at
    its version every record it wrote has the written value, every other record
    has its previous committed value, and no earlier version changes. *)
Theorem commit_visible_atomically m h t t' s' k :
  mreachable m -> m_txns m !! h = Some t -> t_done t = false ->
  t_writeSet t <> ∅ -> commitVer (s_oracle (m_store m)) < max_u64 ->
  Txn_Commit t (m_store m) = (None, t', s') ->
  let cv := commitVer (s_oracle (m_store m)) + 1 in
  t_commitVer t' = cv /\ commitVer (s_oracle s') = cv /\
  state_at s' cv k =
    (match default ∅ (t_pending t) !! k with
     | Some v => ver_write v
     | None => state_at (m_store m) (commitVer (s_oracle (m_store m))) k
     end) /\
  (forall v, v < cv -> state_at s' v k = state_at (m_store m) v k).
Proof.
  intros Hm Ht Hd Hw Hmax HC cv. pose proof (minv_reachable _ Hm) as Hi.
  apply Txn_Commit_outcome in HC. inversion HC as [|? _ [Hnw|Hnw]| |cv' t1 o _ Hd' Ecm _ Ecv Hf Eo]; subst.
  - exfalso. apply Hw. rewrite (mi_ws _ Hi h t Ht Hd), (mi_ro _ Hi h t Ht Hd Hnw).
    simpl. apply dom_empty_L.
  - done.
  - pose proof (ok_cv _ (sn_o _ _ (mi_snap _ Hi))) as Hcv.
    assert (E64 : u64 (commitVer (s_oracle (m_store m)) + 1) = cv).
    { apply wrap_small. unfold in_u, max_u64 in *. lia. }
    rewrite E64 in Ecv. rewrite Ecv. split_and!.
    + done.
    + simpl. rewrite (proj1 (releaseLocked_fields _ _)). done.
    + rewrite state_at_publish_now; [|intros c; apply (mi_chain _ Hi)|lia].
      rewrite lookup_fmap. by destruct (default ∅ (t_pending t) !! k).
    + intros v Hv. by apply state_at_publish.
Qed.

Lemma fold_sum_insert {A} (f : Z -> A -> Z) i x (m : gmap Z A) :
  m !! i = None ->
  map_fold (fun k a n => n + f k a) 0 (<[i := x]> m) =
  map_fold (fun k a n => n + f k a) 0 m + f i x.
Proof. intros Hi. rewrite map_fold_insert_L; [done| |done]. intros. lia. Qed.

Lemma chain_account wm c :
  Len c = match chain_survivor wm c with Some c' => Len c' | None => 0 end + chain_reclaimed wm c.
Proof.
  unfold chain_survivor, chain_reclaimed. destruct (chain_gc wm c) as [c' [|]]; lia.
Qed.

Lemma GC_count wm (cs : gmap Z VersionChain) :
  map_fold (fun _ ch n => n + Len ch) 0 cs =
  map_fold (fun _ ch n => n + Len ch) 0 (omap (chain_survivor wm) cs) +
  map_fold (fun _ ch n => n + chain_reclaimed wm ch) 0 cs.
Proof.
  induction cs as [|i c cs Hi IH] using map_ind; [done|].
  rewrite (fold_sum_insert (fun _ ch => Len ch)) by done.
  rewrite (fold_sum_insert (fun _ ch => chain_reclaimed wm ch)) by done.
  rewrite (chain_account wm c). destruct (chain_survivor wm c) as [c'|] eqn:E.
  - rewrite (omap_insert_Some _ _ _ _ c') by done.
    rewrite (fold_sum_insert (fun _ ch => Len ch)); [lia|]. by rewrite lookup_omap, Hi.
  - rewrite omap_insert_None by done. rewrite delete_id; [lia|]. by rewrite lookup_omap, Hi.
Qed.

(** C12. Garbage collection is safe and its count exact: every snapshot at or
    above the watermark reads every record as before, and the number it returns
    is the number of versions that left the store. *)
Theorem gc_safe_and_counted m n s' :
  mreachable m -> GC (m_store m) = (n, s') ->
  (forall v k, Watermark (s_oracle (m_store m)) <= v ->
     state_at s' v k = state_at (m_store m) v k) /\
  Versions (m_store m) = Versions s' + n /\ 0 <= n.
Proof.
  intros Hm HG. pose proof (minv_reachable _ Hm) as Hi. split_and!.
  - intros v k Hv. by apply (state_at_gc m s' n).
  - injection HG as <- <-. apply GC_count.
  - injection HG as <- _. apply (map_fold_weak_ind (fun n _ => 0 <= n)); [lia|].
    intros _ c _ r _ Hr. unfold chain_reclaimed, chain_gc. destruct (keep_tail _ c) as [c'|] eqn:E.
    + apply keep_tail_length in E. unfold Len in *. case_match; lia.
    + unfold Len. lia.
Qed.

Definition is_inr {A B} (x : A + B) : bool := match x with inr _ => true | inl _ => false end.

(** Each operation reads its own writes and refuses what it must: on a
    read-only transaction every write returns ErrReadOnly and changes nothing;
    an update or delete of an invisible record returns ErrNotFound and changes
    nothing; after a successful insert or update the record reads as the new
    document, after a successful delete it reads as absent, and every other
    record reads as before. *)
Theorem writes_are_read_back t rid doc s :
  (t_writable t = false ->
     Insert t doc s = (inl ErrReadOnly, t, s) /\
     Update t rid doc s = (Some ErrReadOnly, t) /\ Delete t rid s = (Some ErrReadOnly, t)) /\
  (t_writable t = true ->
     (forall rid', exists t' s', Insert t doc s = (inr (allocRID s).1, t', s') /\
        read s' t' rid' = if decide (Encode (allocRID s).1 = Encode rid') then Some doc
                          else read s t rid') /\
     (read s t rid = None ->
        Update t rid doc s = (Some ErrNotFound, t) /\ Delete t rid s = (Some ErrNotFound, t)) /\
     (read s t rid <> None -> forall rid',
        exists tu td, Update t rid doc s = (None, tu) /\ Delete t rid s = (None, td) /\
        read s tu rid' = (if decide (Encode rid = Encode rid') then Some doc else read s t rid') /\
        read s td rid' = (if decide (Encode rid = Encode rid') then None else read s t rid'))).
Proof.
  assert (Hn : forall key v rid' s',
    s_chains s' = s_chains s ->
    read s' (note key v t) rid' =
    if decide (key = Encode rid') then ver_write v else read s t rid').
  { intros key v rid' s' Ec. rewrite !read_state_at. unfold state_at. rewrite Ec. unfold note.
    destruct (t_pending t) as [p|]; simpl; case_decide as E.
    - by rewrite E, lookup_insert_eq.
    - by rewrite lookup_insert_ne.
    - by rewrite E, lookup_insert_eq.
    - by rewrite lookup_insert_ne, lookup_empty. }
  unfold Insert, Update, Delete. split; intros Hw; rewrite Hw; cbn [negb].
  - split; [reflexivity|]. split; reflexivity.
  - destruct (allocRID s) as [rid0 s0] eqn:Ea. cbn [fst]. split_and!.
    + intros rid'. do 2 eexists. split; [reflexivity|]. rewrite Hn; [reflexivity|].
      unfold allocRID in Ea. by injection Ea as _ <-.
    + intros Hr. rewrite Hr. split; reflexivity.
    + destruct (read s t rid); [|by intros []]. intros _ rid'. do 2 eexists.
      split; [reflexivity|]. split; [reflexivity|]. rewrite !Hn by reflexivity.
      split; reflexivity.
Qed.

(** A transaction ends once: after Commit or Rollback, whatever it
    returned, the transaction is finished, and a further Commit or Rollback
    returns ErrTxnDone and changes neither the transaction nor the store. *)
Theorem txn_ends_once t s e t' s' s'' :
  Txn_Commit t s = (e, t', s') \/ Rollback t s = (e, t', s') ->
  t_done t' = true /\
  Txn_Commit t' s'' = (Some ErrTxnDone, t', s'') /\ Rollback t' s'' = (Some ErrTxnDone, t', s'').
Proof.
  intros H. assert (Hd : t_done t' = true).
  { destruct H as [H|H].
    - apply Txn_Commit_outcome in H. by destruct H.
    - unfold Rollback in H. destruct (t_done t) eqn:E; by injection H as _ <- _. }
  unfold Txn_Commit, Rollback. by rewrite Hd.
Qed.

(** The attempts of a retry loop whose body fails with a conflict each time. *)
Lemma retry_loop_no_conflict n fn s e s' :
  retry_loop n fn s = (Some e, s') -> is_ErrConflict e = false.
Proof.
  revert s. induction n as [|n IH]; intros s; cbn [retry_loop]; [by intros [= <- _]|].
  destruct (Begin true s) as [t s1]. destruct (fn t s1) as [[[err|] t1] s2].
  - destruct (Rollback t1 s2) as [[? ?] s3]. destruct (is_ErrConflict err) eqn:E; [apply IH|].
    by intros [= <- _].
  - destruct (Txn_Commit t1 s2) as [[[cerr|] ?] s3]; [|done].
    destruct (is_ErrConflict cerr) eqn:E; [apply IH|]. by intros [= <- _].
Qed.

(** WithTransaction absorbs conflicts: it never returns a conflict error,
    an error of the body that is not a conflict is returned at once after a
    rollback, and a body that always fails with a conflict exhausts the three
    attempts. *)
Theorem with_transaction_retries fn s :
  (forall e s', WithTransaction fn s = (Some e, s') -> is_ErrConflict e = false) /\
  (forall e t s1 t1 s2, Begin true s = (t, s1) -> fn t s1 = (Some e, t1, s2) ->
     is_ErrConflict e = false -> WithTransaction fn s = (Some e, (Rollback t1 s2).2)) /\
  ((forall t s1, exists e, (fn t s1).1.1 = Some e /\ is_ErrConflict e = true) ->
     (WithTransaction fn s).1 = Some ErrMaxRetries).
Proof.
  unfold WithTransaction. split_and!.
  - intros e s'. apply retry_loop_no_conflict.
  - intros e t s1 t1 s2 HB Hf He. unfold MaxRetries. cbn [retry_loop].
    rewrite HB, Hf. destruct (Rollback t1 s2) as [[? ?] s3]. by rewrite He.
  - intros H. generalize MaxRetries as n. intros n. revert s.
    induction n as [|n IH]; intros s; cbn [retry_loop]; [done|].
    destruct (Begin true s) as [t s1]. destruct (H t s1) as (e & He & Hc).
    destruct (fn t s1) as [[err t1] s2]. simpl in He. subst err.
    destruct (Rollback t1 s2) as [[? ?] s3]. by rewrite Hc.
Qed.

(** ** A concrete run *)

(** One transaction inserts a document and commits; a reader begins; a second
    writer updates the document and commits. *)
Definition run_t1 : Txn := (Begin true NewStore).1.
Definition run_s1 : store := (Begin true NewStore).2.
Definition run_t1w : Txn := (Insert run_t1 [1; 2] run_s1).1.2.
Definition run_s2 : store := (Insert run_t1 [1; 2] run_s1).2.
Definition run_t1d : Txn := (Txn_Commit run_t1w run_s2).1.2.
Definition run_s3 : store := (Txn_Commit run_t1w run_s2).2.
Definition run_t2 : Txn := (Begin false run_s3).1.
Definition run_s4 : store := (Begin false run_s3).2.
Definition run_t3 : Txn := (Begin true run_s4).1.
Definition run_s5 : store := (Begin true run_s4).2.
Definition run_rid : RID := MkRID 1 1.
Definition run_t3w : Txn := (Update run_t3 run_rid [7] run_s5).2.
Definition run_t3d : Txn := (Txn_Commit run_t3w run_s5).1.2.
Definition run_s6 : store := (Txn_Commit run_t3w run_s5).2.

Definition run_m3 : msys := MSys run_s5 (<[3 := run_t3w]> (<[3 := run_t3]> (<[2 := run_t2]>
  (<[1 := run_t1d]> (<[1 := run_t1w]> (<[1 := run_t1]> ∅)))))).
Definition run_m4 : msys := MSys run_s6 (<[3 := run_t3d]> (m_txns run_m3)).

Lemma run_m3_mruns :
  mruns [EvBegin 1; EvWrite 1 (Encode run_rid) (Some [1; 2]); EvCommit 1; EvBegin 2; EvBegin 3;
         EvWrite 3 (Encode run_rid) (Some [7])] run_m3.
Proof.
  apply (mr_snoc [EvBegin 1; EvWrite 1 (Encode run_rid) (Some [1; 2]); EvCommit 1; EvBegin 2; EvBegin 3]
    _ (MSys run_s5 (<[3 := run_t3]> (<[2 := run_t2]> (<[1 := run_t1d]> (<[1 := run_t1w]>
       (<[1 := run_t1]> ∅))))))).
  2:{ apply (m_update run_s5 _ 3 run_t3 run_rid [7] None run_t3w); vm_compute; reflexivity. }
  apply (mr_snoc [EvBegin 1; EvWrite 1 (Encode run_rid) (Some [1; 2]); EvCommit 1; EvBegin 2]
    _ (MSys run_s4 (<[2 := run_t2]> (<[1 := run_t1d]> (<[1 := run_t1w]> (<[1 := run_t1]> ∅)))))).
  2:{ apply (m_begin run_s4 _ true run_t3 run_s5); vm_compute; reflexivity. }
  apply (mr_snoc [EvBegin 1; EvWrite 1 (Encode run_rid) (Some [1; 2]); EvCommit 1]
    _ (MSys run_s3 (<[1 := run_t1d]> (<[1 := run_t1w]> (<[1 := run_t1]> ∅))))).
  2:{ apply (m_begin run_s3 _ false run_t2 run_s4); vm_compute; reflexivity. }
  apply (mr_snoc [EvBegin 1; EvWrite 1 (Encode run_rid) (Some [1; 2])]
    _ (MSys run_s2 (<[1 := run_t1w]> (<[1 := run_t1]> ∅)))).
  2:{ apply (m_commit run_s2 _ 1 run_t1w None run_t1d run_s3); vm_compute; reflexivity. }
  apply (mr_snoc [EvBegin 1] _ (MSys run_s1 (<[1 := run_t1]> ∅))).
  2:{ apply (m_insert run_s1 _ 1 run_t1 [1; 2] (inr run_rid) run_t1w run_s2);
      vm_compute; reflexivity. }
  apply (mr_snoc [] _ (MSys NewStore ∅)); [constructor|].
  apply (m_begin NewStore ∅ true run_t1 run_s1); vm_compute; reflexivity.
Qed.

Lemma run_m3_reachable : mreachable run_m3.
Proof. eapply mruns_reachable, run_m3_mruns. Qed.

Lemma run_m4_step : mstep (EvCommit 3) run_m3 run_m4.
Proof. apply (m_commit run_s5 _ 3 run_t3w None run_t3d run_s6); vm_compute; reflexivity. Qed.

Lemma store_refines_snapshot_isolation_witness :
  mruns [EvBegin 1; EvWrite 1 (Encode run_rid) (Some [1; 2]); EvCommit 1; EvBegin 2; EvBegin 3;
         EvWrite 3 (Encode run_rid) (Some [7])] run_m3 /\
  exists a at', a_txns a !! 3 = Some at' /\ read run_s5 run_t3w run_rid = a_read at' (Encode run_rid).
Proof.
  split; [exact run_m3_mruns|].
  destruct (store_refines_snapshot_isolation _ _ run_m3_mruns) as (a & _ & H).
  destruct (H 3 run_t3w run_rid) as (at' & Ha & Hr); [vm_compute; reflexivity..|].
  exists a, at'. split; [exact Ha|exact Hr].
Defined.

Lemma snapshot_read_stable_witness :
  read run_s5 run_t2 run_rid = Some [1; 2] /\
  read run_s6 run_t2 run_rid = read run_s5 run_t2 run_rid.
Proof.
  split; [vm_compute; reflexivity|].
  apply (snapshot_read_stable _ run_m3 run_m4 2 run_t2 run_rid run_m3_reachable run_m4_step);
    vm_compute; reflexivity.
Defined.

Lemma commit_visible_atomically_witness :
  t_commitVer run_t3d = 2 /\ state_at run_s6 2 (Encode run_rid) = Some [7] /\
  state_at run_s6 1 (Encode run_rid) = state_at run_s5 1 (Encode run_rid).
Proof.
  destruct (commit_visible_atomically run_m3 3 run_t3w run_t3d run_s6 (Encode run_rid))
    as (H1 & _ & H2 & H3); [exact run_m3_reachable|vm_compute; reflexivity..|
      vm_compute; discriminate|vm_compute; reflexivity|vm_compute; reflexivity|].
  split; [exact H1|]. split; [refine (eq_trans H2 _); vm_compute; reflexivity|].
  apply H3. vm_compute. reflexivity.
Defined.

Lemma gc_safe_and_counted_witness :
  exists n s', GC (m_store run_m3) = (n, s') /\ Versions (m_store run_m3) = Versions s' + n /\ 0 <= n.
Proof.
  eexists _, _. split; [reflexivity|].
  apply (gc_safe_and_counted run_m3 _ _ run_m3_reachable). reflexivity.
Defined.

Lemma txn_ends_once_witness :
  Rollback run_t2 run_s4 = ((Rollback run_t2 run_s4).1.1, (Rollback run_t2 run_s4).1.2, (Rollback run_t2 run_s4).2) /\
  Txn_Commit (Rollback run_t2 run_s4).1.2 run_s6 = (Some ErrTxnDone, (Rollback run_t2 run_s4).1.2, run_s6).
Proof.
  split; [reflexivity|].
  apply (txn_ends_once run_t2 run_s4 (Rollback run_t2 run_s4).1.1 _ (Rollback run_t2 run_s4).2).
  right. reflexivity.
Defined.
