(* ===== verification/Checksum.v ===== *)
(** * format/checksum.go: page and header checksums

    CRC-32C as hash/crc32 computes it (table-driven, reflected Castagnoli
    polynomial), xxHash32 as the source computes it, and what the two promise:
    equal data of equal length that differ in one byte (for CRC-32C: in any
    window of four bytes) never have the same checksum. *)

From S2P Require Import Prelude.

(** ** Algorithms *)

(** A ChecksumAlgo is the byte of the header; the three constants name values. *)
Definition ChecksumNone : Z := 0.
Definition ChecksumCRC32C : Z := 1.
Definition ChecksumXXHash32 : Z := 2.

Definition Supported (a : Z) : bool :=
  (a =? ChecksumNone) || (a =? ChecksumCRC32C) || (a =? ChecksumXXHash32).

(** *** CRC-32C: hash/crc32 with the Castagnoli table *)

Definition castagnoli : Z := 0x82f63b78.

Definition crc_bit (c : Z) : Z :=
  if Z.testbit c 0 then Z.lxor (Z.shiftr c 1) castagnoli else Z.shiftr c 1.

Definition crc32cTable (i : Z) : Z := Nat.iter 8 crc_bit i.

Definition crc_byte (crc v : Z) : Z :=
  Z.lxor (crc32cTable (Z.lxor (crc mod 256) v)) (Z.shiftr crc 8).

Definition not32 (x : Z) : Z := Z.lxor x (2 ^ 32 - 1).

Definition crc32_Update (crc : Z) (p : bytes) : Z :=
  not32 (fold_left crc_byte p (not32 crc)).

(** *** xxHash32 *)

Definition xxPrime1 : Z := 2654435761.
Definition xxPrime2 : Z := 2246822519.
Definition xxPrime3 : Z := 3266489917.
Definition xxPrime4 : Z := 668265263.
Definition xxPrime5 : Z := 374761393.

Definition rotl32 (x r : Z) : Z := Z.lor (u32 (Z.shiftl x r)) (Z.shiftr x (32 - r)).

Definition xxRound (acc input : Z) : Z :=
  u32 (rotl32 (u32 (acc + u32 (input * xxPrime2))) 13 * xxPrime1).

Definition le32 (b : bytes) : Z :=
  Z.lor (Z.lor (Z.lor (nth 0 b 0) (Z.shiftl (nth 1 b 0) 8)) (Z.shiftl (nth 2 b 0) 16))
    (Z.shiftl (nth 3 b 0) 24).

Record lanes := Lanes { v1 : Z; v2 : Z; v3 : Z; v4 : Z }.

(** The loop over 16-byte stripes; the remaining data is data[i:]. *)
Fixpoint xx_stripes (fuel : nat) (d : bytes) (v : lanes) : lanes * bytes :=
  match fuel with
  | O => (v, d)
  | S fuel' =>
      if 16 <=? blen d then
        xx_stripes fuel' (drop 16 d)
          (Lanes (xxRound (v1 v) (le32 (drop 0 d))) (xxRound (v2 v) (le32 (drop 4 d)))
             (xxRound (v3 v) (le32 (drop 8 d))) (xxRound (v4 v) (le32 (drop 12 d))))
      else (v, d)
  end.

Fixpoint xx_words (fuel : nat) (d : bytes) (h : Z) : Z * bytes :=
  match fuel with
  | O => (h, d)
  | S fuel' =>
      if 4 <=? blen d then
        xx_words fuel' (drop 4 d) (u32 (rotl32 (u32 (h + u32 (le32 d * xxPrime3))) 17 * xxPrime4))
      else (h, d)
  end.

Definition xx_byte (h b : Z) : Z := u32 (rotl32 (u32 (h + u32 (b * xxPrime5))) 11 * xxPrime1).

Definition xx_final (h0 : Z) : Z :=
  let h1 := Z.lxor h0 (Z.shiftr h0 15) in
  let h2 := u32 (h1 * xxPrime2) in
  let h3 := Z.lxor h2 (Z.shiftr h2 13) in
  let h4 := u32 (h3 * xxPrime3) in
  Z.lxor h4 (Z.shiftr h4 16).

Definition xx_init (seed : Z) : lanes :=
  Lanes (u32 (u32 (seed + xxPrime1) + xxPrime2)) (u32 (seed + xxPrime2)) seed
    (u32 (seed - xxPrime1)).

Definition xx_merge (v : lanes) : Z :=
  u32 (u32 (u32 (rotl32 (v1 v) 1 + rotl32 (v2 v) 7) + rotl32 (v3 v) 12) + rotl32 (v4 v) 18).

Definition xxhash32 (data : bytes) (seed : Z) : Z :=
  let n := blen data in
  let '(h, d) :=
    if 16 <=? n then
      let '(v, d) := xx_stripes (length data) data (xx_init seed) in (xx_merge v, d)
    else (u32 (seed + xxPrime5), data) in
  let h := u32 (h + u32 n) in
  let '(h, d) := xx_words (length d) d h in
  xx_final (fold_left xx_byte d h).

(** *** The two methods *)

Definition Checksum {E} (a : Z) (data : bytes) : res E Z :=
  if a =? ChecksumNone then Ok 0
  else if a =? ChecksumCRC32C then Ok (crc32_Update 0 data)
  else if a =? ChecksumXXHash32 then Ok (xxhash32 data 0)
  else Panic.

Definition Verify {E} (a : Z) (data : bytes) (want : Z) : res E bool :=
  if a =? ChecksumNone then Ok true
  else let* sum := Checksum a data in Ok (sum =? want).

(** Known answers: the CRC-32C check value, and xxHash32 of short and long data. *)
Example crc_check : crc32_Update 0 [49;50;51;52;53;54;55;56;57] = 0xE3069283.
Proof. vm_compute. reflexivity. Qed.

Example xx_empty : xxhash32 [] 0 = 0x02CC5D05.
Proof. vm_compute. reflexivity. Qed.

Example xx_a : xxhash32 [97] 0 = 0x550d7456.
Proof. vm_compute. reflexivity. Qed.

Example xx_alphabet : xxhash32 (map Z.of_nat (seq 97 26)) 0 = 0x63a14d5f.
Proof. vm_compute. reflexivity. Qed.

(** ** CRC-32C *)

Lemma crc_bit_lxor a b : crc_bit (Z.lxor a b) = Z.lxor (crc_bit a) (crc_bit b).
Proof.
  unfold crc_bit. rewrite Z.lxor_spec, Z.shiftr_lxor.
  destruct (Z.testbit a 0), (Z.testbit b 0); cbn [xorb]; apply Z.bits_inj'; intros n _;
    rewrite ?Z.lxor_spec; by destruct (Z.testbit (Z.shiftr a 1) n), (Z.testbit (Z.shiftr b 1) n),
      (Z.testbit castagnoli n).
Qed.

Lemma crc_bit_double y : crc_bit (Z.shiftl y 1) = y.
Proof.
  unfold crc_bit. rewrite Z.shiftl_spec, Z.testbit_neg_r by lia.
  rewrite Z.shiftr_shiftl_l by lia. apply Z.shiftl_0_r.
Qed.

Lemma lxor_in_u w a b : 0 <= w -> in_u w a -> in_u w b -> in_u w (Z.lxor a b).
Proof.
  unfold in_u. intros Hw Ha Hb. split; [apply Z.lxor_nonneg; lia|].
  destruct (decide (Z.lxor a b = 0)) as [->|Hne]; [lia|].
  assert (0 < Z.lxor a b) by (assert (0 <= Z.lxor a b) by (apply Z.lxor_nonneg; lia); lia).
  apply Z.log2_lt_pow2; [done|].
  pose proof (Z.log2_lxor a b). apply Z.le_lt_trans with (Z.max (Z.log2 a) (Z.log2 b)); [lia|].
  apply Z.max_lub_lt.
  - destruct (decide (a = 0)) as [->|]; [simpl; destruct (decide (w = 0)) as [->|]; [|lia]|].
    + exfalso. assert (b = 0) by (simpl in Hb; lia). by subst.
    + apply Z.log2_lt_pow2; lia.
  - destruct (decide (b = 0)) as [->|]; [simpl; destruct (decide (w = 0)) as [->|]; [|lia]|].
    + exfalso. assert (a = 0) by (simpl in Ha; lia). by subst.
    + apply Z.log2_lt_pow2; lia.
Qed.

Lemma shiftr_in_u w x k : 0 <= k -> in_u w x -> in_u w (Z.shiftr x k).
Proof.
  unfold in_u. intros Hk Hx. rewrite Z.shiftr_div_pow2 by done.
  assert (0 < 2 ^ k) by lia. split; [apply Z.div_pos; lia|].
  apply Z.le_lt_trans with x; [|lia]. apply Z.div_le_upper_bound; nia.
Qed.

Lemma crc_bit_in_u c : in_u 32 c -> in_u 32 (crc_bit c).
Proof.
  intros H. unfold crc_bit. case_match; [apply lxor_in_u|]; try lia;
    try (apply shiftr_in_u; [lia|done]). unfold in_u, castagnoli; lia.
Qed.

Lemma crc_bit_zero c : in_u 32 c -> crc_bit c = 0 -> c = 0.
Proof.
  unfold crc_bit. intros H. destruct (Z.testbit c 0) eqn:E.
  - intros Hx%Z.lxor_eq. rewrite Z.shiftr_div_pow2 in Hx by lia.
    change (2 ^ 1) with 2 in Hx. unfold in_u, castagnoli in *.
    change (2 ^ 32) with 4294967296 in H. exfalso. zlia.
  - rewrite Z.shiftr_div_pow2 by lia. intros Hx. rewrite Z.bit0_odd in E.
    rewrite Zodd_mod in E. change (2 ^ 1) with 2 in Hx.
    assert (c mod 2 = 0 \/ c mod 2 = 1) as [H0|H1]
      by (pose proof (Z.mod_pos_bound c 2); lia); [|by rewrite H1 in E].
    rewrite (Z.div_mod c 2) by lia. lia.
Qed.

Lemma crc_bit_inj a b : in_u 32 a -> in_u 32 b -> crc_bit a = crc_bit b -> a = b.
Proof.
  intros Ha Hb E. apply Z.lxor_eq. apply crc_bit_zero; [by apply lxor_in_u|].
  by rewrite crc_bit_lxor, E, Z.lxor_nilpotent.
Qed.

Lemma crc_iter_in_u n c : in_u 32 c -> in_u 32 (Nat.iter n crc_bit c).
Proof. intros. induction n; simpl; [done|by apply crc_bit_in_u]. Qed.

Lemma crc_iter_inj n a b :
  in_u 32 a -> in_u 32 b -> Nat.iter n crc_bit a = Nat.iter n crc_bit b -> a = b.
Proof.
  intros Ha Hb. induction n as [|n IH]; simpl; [done|]. intros E.
  apply IH. apply crc_bit_inj; auto using crc_iter_in_u.
Qed.

Lemma crc_iter_lxor n a b :
  Nat.iter n crc_bit (Z.lxor a b) = Z.lxor (Nat.iter n crc_bit a) (Nat.iter n crc_bit b).
Proof. induction n as [|n IH]; simpl; [done|]. by rewrite IH, crc_bit_lxor. Qed.

Lemma crc_iter_shiftl n y : Nat.iter n crc_bit (Z.shiftl y (Z.of_nat n)) = y.
Proof.
  revert y. induction n as [|n IH]; intros y; [by rewrite Z.shiftl_0_r|].
  simpl Nat.iter. replace (Z.of_nat (S n)) with (1 + Z.of_nat n) by lia.
  rewrite <- Z.shiftl_shiftl by lia. by rewrite IH, crc_bit_double.
Qed.

Lemma crc_iter8_shiftl y : Nat.iter 8 crc_bit (Z.shiftl y 8) = y.
Proof. exact (crc_iter_shiftl 8 y). Qed.

(** Low byte and the rest, as exclusive or. *)
Lemma lxor_byte b y : byte_ok b -> Z.lxor b (Z.shiftl y 8) = b + 256 * y.
Proof.
  intros Hb. rewrite Z.add_comm, Z.lxor_comm. replace (256 * y) with (Z.shiftl y 8)
    by (rewrite Z.shiftl_mul_pow2 by lia; lia).
  symmetry. apply Z.add_nocarry_lxor. apply Z.bits_inj'. intros n Hn.
  rewrite Z.land_spec, Z.bits_0, Z.shiftl_spec by done.
  destruct (decide (n < 8)); [by rewrite Z.testbit_neg_r by lia|].
  rewrite (Z.bits_above_log2 b n), andb_false_r; [done|unfold byte_ok in Hb; lia|].
  destruct (decide (b = 0)) as [->|]; [simpl; lia|].
  apply Z.log2_lt_pow2; [unfold byte_ok in Hb; lia|].
  apply Z.lt_le_trans with (2 ^ 8); [unfold byte_ok in Hb; lia|].
  apply Z.pow_le_mono_r; lia.
Qed.

Lemma crc_byte_iter c v : 0 <= c -> crc_byte c v = Nat.iter 8 crc_bit (Z.lxor c v).
Proof.
  intros Hc. unfold crc_byte, crc32cTable.
  assert (E : c = Z.lxor (c mod 256) (Z.shiftl (Z.shiftr c 8) 8)).
  { rewrite lxor_byte by apply byte_ok_mod. rewrite Z.shiftr_div_pow2 by lia.
    change (2 ^ 8) with 256. zlia. }
  rewrite E at 3. rewrite (Z.lxor_comm (c mod 256) (Z.shiftl _ 8)), Z.lxor_assoc,
    (crc_iter_lxor 8 (Z.shiftl _ 8)).
  by rewrite crc_iter8_shiftl, Z.lxor_comm.
Qed.

Lemma crc_byte_in_u c v : in_u 32 c -> byte_ok v -> in_u 32 (crc_byte c v).
Proof.
  intros Hc Hv. rewrite crc_byte_iter by (unfold in_u in Hc; lia).
  apply crc_iter_in_u, lxor_in_u; [lia|done|]. unfold in_u, byte_ok in *; lia.
Qed.

Lemma crc_fold_in_u p c : in_u 32 c -> bytes_ok p -> in_u 32 (fold_left crc_byte p c).
Proof.
  intros Hc Hp. revert c Hc. induction Hp; intros c Hc; simpl; auto using crc_byte_in_u.
Qed.

Lemma le_val_nonneg p : bytes_ok p -> 0 <= le_val p.
Proof. intros H. apply le_val_bound in H. unfold in_u in H. lia. Qed.

(** A run of bytes folded into the state, as one exclusive or. *)
Lemma crc_fold_iter p c :
  in_u 32 c -> bytes_ok p ->
  fold_left crc_byte p c = Nat.iter (8 * length p) crc_bit (Z.lxor c (le_val p)).
Proof.
  intros Hc Hp. revert c Hc. induction Hp as [|b p Hb Hp IH]; intros c Hc;
    cbn [fold_left le_val length].
  - by rewrite Z.lxor_0_r.
  - rewrite IH by auto using crc_byte_in_u. rewrite crc_byte_iter by (unfold in_u in Hc; lia).
    replace (8 * S (length p))%nat with (8 * length p + 8)%nat by lia.
    rewrite Nat.iter_add. f_equal.
    rewrite <- (lxor_byte b) by done. rewrite <- Z.lxor_assoc, (crc_iter_lxor 8 (Z.lxor c b)).
    by rewrite crc_iter8_shiftl.
Qed.

Lemma crc_fold_inj p a b :
  in_u 32 a -> in_u 32 b -> bytes_ok p -> fold_left crc_byte p a = fold_left crc_byte p b -> a = b.
Proof.
  intros Ha Hb Hp. rewrite !crc_fold_iter by done.
  revert a b Ha Hb. induction Hp as [|v p Hv Hp IH]; intros a b Ha Hb; cbn [length le_val].
  - by rewrite !Z.lxor_0_r.
  - rewrite <- (crc_fold_iter (v :: p)), <- (crc_fold_iter (v :: p)) by (try done; by constructor).
    cbn [fold_left]. rewrite !crc_fold_iter by auto using crc_byte_in_u. intros E.
    apply IH in E; [|auto using crc_byte_in_u..].
    rewrite !crc_byte_iter in E by (unfold in_u in *; lia).
    apply crc_iter_inj in E; [|apply lxor_in_u; [lia|done|unfold in_u, byte_ok in *; lia]..].
    apply (f_equal (fun x => Z.lxor x v)) in E.
    by rewrite !Z.lxor_assoc, Z.lxor_nilpotent, !Z.lxor_0_r in E.
Qed.

Lemma not32_inj a b : not32 a = not32 b -> a = b.
Proof.
  unfold not32. intros E. apply (f_equal (fun x => Z.lxor x (2 ^ 32 - 1))) in E.
  by rewrite !Z.lxor_assoc, Z.lxor_nilpotent, !Z.lxor_0_r in E.
Qed.

Lemma crc_burst crc p m m' s :
  in_u 32 crc -> bytes_ok p -> bytes_ok m -> bytes_ok m' -> bytes_ok s ->
  length m = length m' -> (length m <= 4)%nat -> m <> m' ->
  crc32_Update crc (p ++ m ++ s) <> crc32_Update crc (p ++ m' ++ s).
Proof.
  intros Hc Hp Hm Hm' Hs Hl H4 Hne E. apply Hne. unfold crc32_Update in E.
  apply not32_inj in E. rewrite !fold_left_app in E.
  assert (Hc' : in_u 32 (not32 crc)) by (apply lxor_in_u; [lia|done|unfold in_u; lia]).
  set (c := fold_left crc_byte p (not32 crc)) in *.
  assert (Hcc : in_u 32 c) by by apply crc_fold_in_u.
  apply crc_fold_inj in E; [|by apply crc_fold_in_u..|done].
  rewrite !crc_fold_iter, Hl in E by done.
  assert (Hu : forall q, bytes_ok q -> (length q <= 4)%nat -> in_u 32 (le_val q)).
  { intros q Hq Hlq. pose proof (le_val_bound q Hq) as Hb. unfold in_u, blen in *.
    split; [lia|]. apply Z.lt_le_trans with (2 ^ (8 * Z.of_nat (length q))); [lia|].
    apply Z.pow_le_mono_r; lia. }
  apply crc_iter_inj in E; [|apply lxor_in_u; [lia|done|apply Hu; [done|lia]]..].
  apply le_val_inj; [done..|].
  apply (f_equal (Z.lxor c)) in E. by rewrite <- !Z.lxor_assoc, Z.lxor_nilpotent, !Z.lxor_0_l in E.
Qed.

(** ** xxHash32 *)

Lemma u32_mul_inj p inv x y :
  u32 (p * inv) = 1 -> in_u 32 x -> in_u 32 y -> u32 (x * p) = u32 (y * p) -> x = y.
Proof.
  intros Hinv Hx Hy E. apply (f_equal (fun z => u32 (z * inv))) in E. unfold wrap in *.
  rewrite !Z.mul_mod_idemp_l, <- !Z.mul_assoc in E by lia.
  rewrite <- (Z.mul_mod_idemp_r x), <- (Z.mul_mod_idemp_r y), Hinv, !Z.mul_1_r in E by lia.
  unfold in_u in *. by rewrite !Z.mod_small in E by lia.
Qed.

Lemma u32_add_inj a x y :
  in_u 32 x -> in_u 32 y -> u32 (a + x) = u32 (a + y) -> x = y.
Proof.
  unfold in_u, wrap. change (2 ^ 32) with 4294967296. intros. zlia.
Qed.

Lemma shiftr_le_half x k : 0 < k -> 0 < x -> Z.shiftr x k < x.
Proof.
  intros Hk Hx. rewrite Z.shiftr_div_pow2 by lia. apply Z.div_lt; [done|].
  apply Z.pow_gt_1; lia.
Qed.

Lemma xorshift_inj k x y :
  0 < k -> 0 <= x -> 0 <= y ->
  Z.lxor x (Z.shiftr x k) = Z.lxor y (Z.shiftr y k) -> x = y.
Proof.
  intros Hk Hx Hy E. apply Z.lxor_eq.
  assert (Hd : Z.lxor x y = Z.shiftr (Z.lxor x y) k).
  { rewrite Z.shiftr_lxor. apply Z.lxor_eq.
    transitivity (Z.lxor (Z.lxor x (Z.shiftr x k)) (Z.lxor y (Z.shiftr y k))).
    - apply Z.bits_inj'. intros n _. rewrite !Z.lxor_spec.
      by destruct (Z.testbit x n), (Z.testbit y n), (Z.testbit (Z.shiftr x k) n),
        (Z.testbit (Z.shiftr y k) n).
    - rewrite E. apply Z.lxor_nilpotent. }
  assert (0 <= Z.lxor x y) by (apply Z.lxor_nonneg; lia).
  destruct (decide (Z.lxor x y = 0)); [done|].
  pose proof (shiftr_le_half (Z.lxor x y) k Hk ltac:(lia)). lia.
Qed.

Lemma in_u_testbit_ge w x n : in_u w x -> 0 <= w <= n -> Z.testbit x n = false.
Proof.
  unfold in_u. intros Hx Hn. destruct (decide (x = 0)) as [->|]; [apply Z.bits_0|].
  apply Z.bits_above_log2; [lia|].
  apply Z.lt_le_trans with w; [apply Z.log2_lt_pow2; lia|lia].
Qed.

Lemma rotl32_testbit_lo x r j :
  0 <= r -> in_u 32 x -> 0 <= j < 32 - r -> Z.testbit (rotl32 x r) (j + r) = Z.testbit x j.
Proof.
  intros Hr Hx Hj. unfold rotl32, wrap. rewrite Z.lor_spec, Z.mod_pow2_bits_low by lia.
  rewrite Z.shiftl_spec, Z.shiftr_spec by lia.
  rewrite (in_u_testbit_ge 32 x (j + r + (32 - r))) by (done || lia).
  rewrite orb_false_r. f_equal. lia.
Qed.

Lemma rotl32_testbit_hi x r j :
  0 <= r <= 32 -> 32 - r <= j < 32 -> Z.testbit (rotl32 x r) (j - (32 - r)) = Z.testbit x j.
Proof.
  intros Hr Hj. unfold rotl32, wrap. rewrite Z.lor_spec, Z.mod_pow2_bits_low by lia.
  rewrite Z.shiftl_spec, Z.shiftr_spec, Z.testbit_neg_r by lia. simpl. f_equal. lia.
Qed.

Lemma rotl32_inj r x y :
  0 <= r <= 32 -> in_u 32 x -> in_u 32 y -> rotl32 x r = rotl32 y r -> x = y.
Proof.
  intros Hr Hx Hy E. apply Z.bits_inj'. intros n Hn.
  destruct (decide (n < 32 - r)).
  - rewrite <- (rotl32_testbit_lo x r n), <- (rotl32_testbit_lo y r n) by (done || lia).
    by rewrite E.
  - destruct (decide (n < 32)).
    + rewrite <- (rotl32_testbit_hi x r n), <- (rotl32_testbit_hi y r n) by lia. by rewrite E.
    + rewrite !(in_u_testbit_ge 32) by (done || lia). done.
Qed.

Lemma lor_in_u w a b : 0 <= w -> in_u w a -> in_u w b -> in_u w (Z.lor a b).
Proof.
  intros Hw Ha Hb. pose proof Ha as [Ha0 _]. pose proof Hb as [Hb0 _].
  assert (0 <= Z.lor a b) by (by apply Z.lor_nonneg). split; [done|].
  destruct (decide (Z.lor a b = 0)) as [E|]; [lia|].
  destruct (Z_lt_ge_dec (Z.log2 (Z.lor a b)) w) as [Hl|Hl]; [apply Z.log2_lt_pow2; lia|].
  pose proof (Z.bit_log2 (Z.lor a b)) as Hbit. rewrite Z.lor_spec in Hbit.
  rewrite !(in_u_testbit_ge w) in Hbit by (done || lia). exfalso.
  assert (false || false = true) by (apply Hbit; lia). done.
Qed.

Lemma rotl32_in_u x r : 0 <= r <= 32 -> in_u 32 x -> in_u 32 (rotl32 x r).
Proof.
  intros Hr Hx. apply lor_in_u; [lia|apply wrap_in_u; lia|]. apply shiftr_in_u; [lia|done].
Qed.

(** Modular inverses of the odd primes. *)
Lemma xxPrime1_inv : u32 (xxPrime1 * 244002641) = 1.
Proof. vm_compute. reflexivity. Qed.

Lemma xxPrime2_inv : u32 (xxPrime2 * 3066638151) = 1.
Proof. vm_compute. reflexivity. Qed.

Lemma xxPrime3_inv : u32 (xxPrime3 * 2828982549) = 1.
Proof. vm_compute. reflexivity. Qed.

Lemma xxPrime4_inv : u32 (xxPrime4 * 2701016015) = 1.
Proof. vm_compute. reflexivity. Qed.

Lemma xxPrime5_inv : u32 (xxPrime5 * 2923004241) = 1.
Proof. vm_compute. reflexivity. Qed.

Lemma u32_in_u x : in_u 32 (u32 x).
Proof. apply wrap_in_u. lia. Qed.

#[local] Hint Resolve u32_in_u rotl32_in_u xxPrime1_inv xxPrime2_inv xxPrime3_inv xxPrime4_inv
  xxPrime5_inv : doc.

(** Every mixing step [rotl32 (h + x*p) r * q] is injective in h and in x. *)
Lemma mix_inj_acc p r q inv h h' x :
  0 <= r <= 32 -> u32 (q * inv) = 1 -> in_u 32 h -> in_u 32 h' ->
  u32 (rotl32 (u32 (h + u32 (x * p))) r * q) = u32 (rotl32 (u32 (h' + u32 (x * p))) r * q) -> h = h'.
Proof.
  intros Hr Hq Hh Hh' E. eapply u32_mul_inj in E; [|done|apply rotl32_in_u; auto with doc..].
  apply rotl32_inj in E; [|done|auto with doc..].
  rewrite !(Z.add_comm _ (u32 (x * p))) in E. by apply u32_add_inj in E.
Qed.

Lemma mix_inj_input p invp r q inv h x y :
  0 <= r <= 32 -> u32 (p * invp) = 1 -> u32 (q * inv) = 1 -> in_u 32 x -> in_u 32 y ->
  u32 (rotl32 (u32 (h + u32 (x * p))) r * q) = u32 (rotl32 (u32 (h + u32 (y * p))) r * q) -> x = y.
Proof.
  intros Hr Hp Hq Hx Hy E. eapply u32_mul_inj in E; [|done|apply rotl32_in_u; auto with doc..].
  apply rotl32_inj in E; [|done|auto with doc..].
  apply u32_add_inj in E; [|auto with doc..]. by eapply u32_mul_inj in E.
Qed.

Lemma xxRound_inj_acc a b x : in_u 32 a -> in_u 32 b -> xxRound a x = xxRound b x -> a = b.
Proof. intros ? ? E. eapply mix_inj_acc in E; eauto with doc. lia. Qed.

Lemma xxRound_inj_input a x y : in_u 32 x -> in_u 32 y -> xxRound a x = xxRound a y -> x = y.
Proof. intros ? ? E. eapply mix_inj_input in E; eauto with doc. lia. Qed.

Lemma xxRound_in_u a x : in_u 32 (xxRound a x).
Proof. apply u32_in_u. Qed.

Lemma xx_final_inj x y : in_u 32 x -> in_u 32 y -> xx_final x = xx_final y -> x = y.
Proof.
  intros Hx Hy E. unfold xx_final in E.
  apply xorshift_inj in E; [|lia|apply u32_in_u..].
  eapply u32_mul_inj in E; [|exact xxPrime3_inv|..].
  2,3: apply lxor_in_u; [lia|auto with doc|apply shiftr_in_u; [lia|auto with doc]].
  apply xorshift_inj in E; [|lia|apply u32_in_u..].
  eapply u32_mul_inj in E; [|exact xxPrime2_inv|..].
  2,3: apply lxor_in_u; [lia|done|apply shiftr_in_u; [lia|done]].
  unfold in_u in *. apply xorshift_inj in E; lia.
Qed.

Lemma lor_shiftl_add a c n :
  0 <= n -> in_u n a -> Z.lor a (Z.shiftl c n) = a + c * 2 ^ n.
Proof.
  intros Hn Ha. rewrite <- Z.shiftl_mul_pow2, <- Z.add_lor_land by done.
  replace (Z.land a (Z.shiftl c n)) with 0; [lia|].
  symmetry. apply Z.bits_inj'. intros m Hm. rewrite Z.land_spec, Z.bits_0, Z.shiftl_spec by done.
  destruct (decide (m < n)); [by rewrite (Z.testbit_neg_r c), andb_false_r by lia|].
  by rewrite (in_u_testbit_ge n a m) by (done || lia).
Qed.

(** Four bytes as one little-endian word. *)
Lemma le32_le_val b :
  bytes_ok b -> (4 <= length b)%nat -> le32 b = le_val (take 4 b).
Proof.
  intros Hb Hl. destruct b as [|b0 [|b1 [|b2 [|b3 b]]]]; simpl in Hl; try lia.
  unfold bytes_ok in Hb. rewrite !Forall_cons in Hb. destruct Hb as (H0 & H1 & H2 & H3 & _).
  unfold le32, byte_ok in *. cbn [nth take le_val].
  rewrite (lor_shiftl_add b0) by (unfold in_u; lia).
  rewrite (lor_shiftl_add _ b2) by (unfold in_u; lia).
  rewrite (lor_shiftl_add _ b3) by (unfold in_u; lia).
  rewrite take_0. cbn [le_val]. lia.
Qed.

Lemma le32_in_u b : bytes_ok b -> (4 <= length b)%nat -> in_u 32 (le32 b).
Proof.
  intros Hb Hl. rewrite le32_le_val by done.
  pose proof (le_val_bound (take 4 b) (Forall_take _ _ _ Hb)) as H.
  unfold blen in H. by rewrite length_take_le in H by done.
Qed.

(** A changed byte, seen from an offset: before, inside or after the word. *)
Lemma le32_insert_ne b o i y :
  (i < o \/ o + 4 <= i)%nat -> le32 (drop o (<[i := y]> b)) = le32 (drop o b).
Proof.
  intros H. unfold le32. rewrite !nth_lookup, !lookup_drop.
  by rewrite !list_lookup_insert_ne by lia.
Qed.

Lemma le32_insert_neq b o i x y :
  bytes_ok b -> byte_ok y -> b !! i = Some x -> x <> y -> (o <= i < o + 4)%nat ->
  (o + 4 <= length b)%nat -> le32 (drop o (<[i := y]> b)) <> le32 (drop o b).
Proof.
  intros Hb Hy Hx Hne Hi Hl E.
  assert (Hb' : bytes_ok (<[i := y]> b)) by (by apply Forall_insert).
  rewrite !le32_le_val in E; [|try apply Forall_drop; try done; rewrite ?length_drop, ?length_insert; lia..].
  apply le_val_inj in E.
  - apply (f_equal (fun l => l !! (i - o)%nat)) in E.
    rewrite !lookup_take_lt, !lookup_drop in E by lia.
    replace (o + (i - o))%nat with i in E by lia.
    rewrite list_lookup_insert_eq in E by (apply lookup_lt_Some in Hx; lia). congruence.
  - by apply Forall_take, Forall_drop.
  - by apply Forall_take, Forall_drop.
  - rewrite !length_take, !length_drop, length_insert. done.
Qed.

(** Two lane states that differ in exactly one lane. *)
Definition one_lane (v w : lanes) : Prop :=
  (v1 v <> v1 w /\ v2 v = v2 w /\ v3 v = v3 w /\ v4 v = v4 w) \/
  (v1 v = v1 w /\ v2 v <> v2 w /\ v3 v = v3 w /\ v4 v = v4 w) \/
  (v1 v = v1 w /\ v2 v = v2 w /\ v3 v <> v3 w /\ v4 v = v4 w) \/
  (v1 v = v1 w /\ v2 v = v2 w /\ v3 v = v3 w /\ v4 v <> v4 w).

Definition lanes_ok (v : lanes) : Prop :=
  in_u 32 (v1 v) /\ in_u 32 (v2 v) /\ in_u 32 (v3 v) /\ in_u 32 (v4 v).

Definition xx_stripe (d : bytes) (v : lanes) : lanes :=
  Lanes (xxRound (v1 v) (le32 (drop 0 d))) (xxRound (v2 v) (le32 (drop 4 d)))
    (xxRound (v3 v) (le32 (drop 8 d))) (xxRound (v4 v) (le32 (drop 12 d))).

Lemma xx_stripe_ok d v : lanes_ok (xx_stripe d v).
Proof. unfold lanes_ok; simpl; auto using xxRound_in_u. Qed.

Lemma one_lane_stripe d v w :
  lanes_ok v -> lanes_ok w -> one_lane v w -> one_lane (xx_stripe d v) (xx_stripe d w).
Proof.
  intros (A1 & A2 & A3 & A4) (B1 & B2 & B3 & B4) H. unfold one_lane, xx_stripe in *. cbn [v1 v2 v3 v4].
  destruct H as [(H & E1 & E2 & E3)|[(E1 & H & E2 & E3)|[(E1 & E2 & H & E3)|(E1 & E2 & E3 & H)]]];
    rewrite E1, E2, E3; [left|right; left|right; right; left|right; right; right];
    split_and!; try done; intros E; by apply xxRound_inj_acc in E.
Qed.

Lemma one_lane_changed d v i x y :
  bytes_ok d -> byte_ok y -> d !! i = Some x -> x <> y -> (i < 16 <= length d)%nat ->
  one_lane (xx_stripe (<[i := y]> d) v) (xx_stripe d v).
Proof.
  intros Hd Hy Hx Hne Hi.
  assert (Hd' : bytes_ok (<[i := y]> d)) by (by apply Forall_insert).
  assert (Hneq : forall o a, (o <= i < o + 4)%nat -> (o + 4 <= length d)%nat ->
    xxRound a (le32 (drop o (<[i := y]> d))) <> xxRound a (le32 (drop o d))).
  { intros o a Ho Hl E. apply xxRound_inj_input in E.
    - by apply (le32_insert_neq d o i x y) in E.
    - apply le32_in_u; [by apply Forall_drop|]. rewrite length_drop, length_insert. lia.
    - apply le32_in_u; [by apply Forall_drop|]. rewrite length_drop. lia. }
  unfold one_lane, xx_stripe. cbn [v1 v2 v3 v4].
  destruct (decide (i < 4)%nat); [left|destruct (decide (i < 8)%nat);
    [right; left|destruct (decide (i < 12)%nat); right; right; [left|right]]];
    split_and!; try (apply Hneq; lia); rewrite le32_insert_ne by lia; done.
Qed.

(** The stripes loop never merges two lane states that differ in one lane. *)
Lemma xx_stripes_same fuel d v w :
  lanes_ok v -> lanes_ok w -> one_lane v w ->
  one_lane (xx_stripes fuel d v).1 (xx_stripes fuel d w).1 /\
  (xx_stripes fuel d v).2 = (xx_stripes fuel d w).2 /\
  lanes_ok (xx_stripes fuel d v).1 /\ lanes_ok (xx_stripes fuel d w).1.
Proof.
  revert d v w. induction fuel as [|fuel IH]; intros d v w Hv Hw H; cbn [xx_stripes]; [done|].
  destruct (16 <=? blen d); [|done].
  apply (IH (drop 16 d) (xx_stripe d v) (xx_stripe d w)); auto using xx_stripe_ok, one_lane_stripe.
Qed.

(** Either the changed byte is in a stripe and leaves the lanes different, or
    it is still in the unread tail. *)
Lemma xx_stripes_changed fuel d v i x y :
  bytes_ok d -> byte_ok y -> d !! i = Some x -> x <> y -> lanes_ok v ->
  let r := xx_stripes fuel d v in
  let r' := xx_stripes fuel (<[i := y]> d) v in
  lanes_ok r.1 /\ lanes_ok r'.1 /\ bytes_ok r.2 /\
  ((one_lane r'.1 r.1 /\ r'.2 = r.2) \/
   (r'.1 = r.1 /\ exists j, r.2 !! j = Some x /\ r'.2 = <[j := y]> r.2)).
Proof.
  revert d v i. induction fuel as [|fuel IH]; intros d v i Hd Hy Hx Hne Hv; cbn [xx_stripes].
  { split_and!; eauto. }
  cbv zeta in *. unfold blen. rewrite length_insert. fold (blen d).
  destruct (Z.leb_spec 16 (blen d)) as [Hl|Hl]; [|split_and!; eauto].
  unfold blen in Hl. destruct (decide (i < 16)%nat) as [Hi|Hi].
  - assert (H1 : one_lane (xx_stripe (<[i := y]> d) v) (xx_stripe d v))
      by (eapply one_lane_changed; eauto; lia).
    rewrite drop_insert_lt by lia.
    destruct (xx_stripes_same fuel (drop 16 d) _ _ (xx_stripe_ok _ _) (xx_stripe_ok _ _) H1)
      as (H2 & H3 & H4 & H5).
    split_and!; [exact H5|exact H4| |left; split; [exact H2|exact H3]].
    clear - Hd. assert (Hb : bytes_ok (drop 16 d)) by (by apply Forall_drop).
    match goal with |- bytes_ok (xx_stripes _ _ ?v).2 => generalize v end.
    revert Hb. generalize (drop 16 d). induction fuel as [|fuel IH]; intros b Hb w; [done|].
    cbn [xx_stripes]. destruct (16 <=? blen b); [|done]. apply IH. by apply Forall_drop.
  - rewrite !(le32_insert_ne d) by lia.
    rewrite drop_insert_ge by lia.
    apply (IH (drop 16 d)); [by apply Forall_drop|done| |done|apply (xx_stripe_ok d)].
    rewrite lookup_drop, <- Hx. f_equal. lia.
Qed.

Lemma lane_merge_inj r a x y s s' :
  0 <= r <= 32 -> in_u 32 x -> in_u 32 y -> s = a + rotl32 x r -> s' = a + rotl32 y r ->
  u32 s = u32 s' -> x = y.
Proof.
  intros Hr Hx Hy -> -> E. apply u32_add_inj in E; auto with doc. by apply rotl32_inj in E.
Qed.

Lemma xx_merge_inj v w : lanes_ok v -> lanes_ok w -> one_lane v w -> xx_merge v <> xx_merge w.
Proof.
  intros (A1 & A2 & A3 & A4) (B1 & B2 & B3 & B4) H E.
  assert (Hs : forall a b c d, u32 (u32 (u32 (a + b) + c) + d) = u32 (a + b + c + d)).
  { intros. unfold wrap. change (2 ^ 32) with 4294967296. zlia. }
  unfold xx_merge in E. rewrite !Hs in E. clear Hs.
  destruct H as [(H & E1 & E2 & E3)|[(E1 & H & E2 & E3)|[(E1 & E2 & H & E3)|(E1 & E2 & E3 & H)]]];
    rewrite E1, E2, E3 in E.
  - apply H. eapply (lane_merge_inj 1 (rotl32 (v2 w) 7 + rotl32 (v3 w) 12 + rotl32 (v4 w) 18)) in E;
      done || lia.
  - apply H. eapply (lane_merge_inj 7 (rotl32 (v1 w) 1 + rotl32 (v3 w) 12 + rotl32 (v4 w) 18)) in E;
      done || lia.
  - apply H. eapply (lane_merge_inj 12 (rotl32 (v1 w) 1 + rotl32 (v2 w) 7 + rotl32 (v4 w) 18)) in E;
      done || lia.
  - apply H. eapply (lane_merge_inj 18 (rotl32 (v1 w) 1 + rotl32 (v2 w) 7 + rotl32 (v3 w) 12)) in E;
      done || lia.
Qed.

(** The tail words and bytes. *)
Lemma xx_words_same fuel d h g :
  in_u 32 h -> in_u 32 g -> h <> g ->
  (xx_words fuel d h).1 <> (xx_words fuel d g).1 /\
  (xx_words fuel d h).2 = (xx_words fuel d g).2 /\
  in_u 32 (xx_words fuel d h).1 /\ in_u 32 (xx_words fuel d g).1.
Proof.
  revert d h g. induction fuel as [|fuel IH]; intros d h g Hh Hg Hne; cbn [xx_words]; [done|].
  destruct (4 <=? blen d); [|done]. apply IH; [apply u32_in_u..|].
  intros E. eapply mix_inj_acc in E; eauto with doc. lia.
Qed.

Lemma xx_words_bytes_ok fuel d h : bytes_ok d -> bytes_ok (xx_words fuel d h).2.
Proof.
  revert d h. induction fuel as [|fuel IH]; intros d h Hd; cbn [xx_words]; [done|].
  destruct (4 <=? blen d); [|done]. apply IH. by apply Forall_drop.
Qed.

Lemma xx_words_changed fuel d h i x y :
  bytes_ok d -> byte_ok y -> d !! i = Some x -> x <> y -> in_u 32 h ->
  let r := xx_words fuel d h in
  let r' := xx_words fuel (<[i := y]> d) h in
  in_u 32 r.1 /\ in_u 32 r'.1 /\ bytes_ok r.2 /\
  ((r'.1 <> r.1 /\ r'.2 = r.2) \/
   (r'.1 = r.1 /\ exists j, r.2 !! j = Some x /\ r'.2 = <[j := y]> r.2)).
Proof.
  revert d h i. induction fuel as [|fuel IH]; intros d h i Hd Hy Hx Hne Hh; cbn [xx_words].
  { split_and!; eauto. }
  cbv zeta in *. unfold blen. rewrite length_insert. fold (blen d).
  destruct (Z.leb_spec 4 (blen d)) as [Hl|Hl]; [|split_and!; eauto].
  unfold blen in Hl. destruct (decide (i < 4)%nat) as [Hi|Hi].
  - rewrite drop_insert_lt by lia.
    set (g := fun z => u32 (rotl32 (u32 (h + u32 (z * xxPrime3))) 17 * xxPrime4)).
    assert (Hm : g (le32 (<[i := y]> d)) <> g (le32 d)).
    { intros E. eapply mix_inj_input in E; [|lia|exact xxPrime3_inv|exact xxPrime4_inv|..].
      - apply (le32_insert_neq d 0 i x y) in E; done || lia.
      - apply le32_in_u; [by apply Forall_insert|]. rewrite length_insert. lia.
      - apply le32_in_u; [done|lia]. }
    destruct (xx_words_same fuel (drop 4 d) _ _ (u32_in_u _) (u32_in_u _) Hm) as (H1 & H2 & H3 & H4).
    split_and!; [exact H4|exact H3|by apply xx_words_bytes_ok, Forall_drop|].
    left. split; [exact H1|exact H2].
  - assert (Ew : le32 (<[i := y]> d) = le32 d) by (apply (le32_insert_ne d 0); lia). rewrite Ew.
    rewrite drop_insert_ge by lia.
    apply (IH (drop 4 d)); [by apply Forall_drop|done| |done|apply u32_in_u].
    rewrite lookup_drop, <- Hx. f_equal. lia.
Qed.

Lemma xx_bytes_in_u d h : in_u 32 h -> in_u 32 (fold_left xx_byte d h).
Proof. revert h. induction d; intros h Hh; simpl; [done|]. apply IHd, u32_in_u. Qed.

Lemma xx_bytes_same d h g :
  in_u 32 h -> in_u 32 g -> h <> g -> fold_left xx_byte d h <> fold_left xx_byte d g.
Proof.
  revert h g. induction d as [|b d IH]; intros h g Hh Hg Hne; simpl; [done|].
  apply IH; [apply u32_in_u..|]. intros E. eapply mix_inj_acc in E; eauto with doc. lia.
Qed.

Lemma xx_bytes_changed d h i x y :
  byte_ok x -> byte_ok y -> d !! i = Some x -> x <> y ->
  fold_left xx_byte (<[i := y]> d) h <> fold_left xx_byte d h.
Proof.
  intros Hxb Hy. revert h i. induction d as [|b d IH]; intros h [|i] Hx Hne; try done.
  - injection Hx as ->. simpl. apply xx_bytes_same; [apply u32_in_u..|].
    intros E. eapply mix_inj_input in E; [|lia|exact xxPrime5_inv|exact xxPrime1_inv|..].
    + congruence.
    + unfold in_u, byte_ok in *. lia.
    + unfold in_u, byte_ok in *. lia.
  - simpl. by apply IH.
Qed.

Lemma xx_changed data seed i x y :
  bytes_ok data -> byte_ok y -> in_u 32 seed -> data !! i = Some x -> x <> y ->
  xxhash32 (<[i := y]> data) seed <> xxhash32 data seed.
Proof.
  intros Hd Hy Hs Hx Hne. assert (Hxb : byte_ok x) by (eapply Forall_lookup_1; eauto).
  unfold xxhash32, blen. rewrite length_insert.
  assert (Htail : forall h d d', bytes_ok d ->
    (exists j, d !! j = Some x /\ d' = <[j := y]> d) -> in_u 32 h ->
    let a := xx_words (length d') d' h in let b := xx_words (length d) d h in
    xx_final (fold_left xx_byte a.2 a.1) <> xx_final (fold_left xx_byte b.2 b.1)).
  { intros h d d' Hdd (j & Hj & ->) Hh. cbv zeta. rewrite length_insert.
    destruct (xx_words_changed (length d) d h j x y) as (H1 & H2 & H3 & H4); try done.
    intros E. apply xx_final_inj in E; [|by apply xx_bytes_in_u..].
    destruct H4 as [[Hc Er]|[Ec (k & Hk & Er)]]; rewrite Er in E.
    - by apply xx_bytes_same in E.
    - rewrite Ec in E. by apply xx_bytes_changed with (x := x) in E. }
  assert (Hp : forall n d h, (let '(h, d) := xx_words n d h in xx_final (fold_left xx_byte d h)) =
    xx_final (fold_left xx_byte (xx_words n d h).2 (xx_words n d h).1)).
  { intros n d h. by destruct (xx_words n d h). }
  destruct (16 <=? Z.of_nat (length data)).
  - destruct (xx_stripes_changed (length data) data (xx_init seed) i x y) as (H1 & H2 & H3 & H4);
      try done; [unfold lanes_ok, xx_init; cbn [v1 v2 v3 v4]; auto using u32_in_u|].
    destruct (xx_stripes _ (<[i:=y]> data) _) as [v' d'].
    destruct (xx_stripes _ data _) as [v d]. cbn [fst snd] in *.
    destruct H4 as [[Hc ->]|[-> Hj]].
    + assert (Hm : u32 (xx_merge v' + u32 (Z.of_nat (length data))) <>
                   u32 (xx_merge v + u32 (Z.of_nat (length data)))).
      { intros E. rewrite !(Z.add_comm (xx_merge _)) in E.
        apply u32_add_inj in E; [|apply u32_in_u..]. by apply xx_merge_inj in E. }
      destruct (xx_words_same (length d) d _ _ (u32_in_u _) (u32_in_u _) Hm) as (W1 & W2 & W3 & W4).
      rewrite !Hp, W2. intros E. apply xx_final_inj in E; [|by apply xx_bytes_in_u..]. by apply xx_bytes_same in E.
    + specialize (Htail _ d d' H3 Hj (u32_in_u (xx_merge v + u32 (Z.of_nat (length data))))).
      rewrite !Hp. exact Htail.
  - specialize (Htail _ data (<[i := y]> data) Hd (ex_intro _ i (conj Hx eq_refl))
      (u32_in_u (u32 (seed + xxPrime5) + u32 (Z.of_nat (length data))))).
    cbv zeta in Htail. rewrite length_insert in Htail. rewrite !Hp, length_insert. exact Htail.
Qed.

(** ** What the two methods promise *)

Lemma Checksum_supported {E} a data : Supported a = true -> exists s, Checksum (E:=E) a data = Ok s.
Proof.
  unfold Supported, Checksum. intros H.
  destruct (a =? ChecksumNone); [eauto|]. destruct (a =? ChecksumCRC32C); [eauto|].
  destruct (a =? ChecksumXXHash32); [eauto|done].
Qed.

Lemma Verify_Checksum {E} a data s : Checksum (E:=E) a data = Ok s -> Verify (E:=E) a data s = Ok true.
Proof.
  intros H. unfold Verify. destruct (a =? ChecksumNone); [done|]. rewrite H. simpl.
  by rewrite Z.eqb_refl.
Qed.

Lemma Checksum_range {E} a data s : bytes_ok data -> Checksum (E:=E) a data = Ok s -> in_u 32 s.
Proof.
  intros Hd. unfold Checksum. repeat case_match; try done; intros [= <-].
  - unfold in_u. lia.
  - unfold crc32_Update, not32. apply lxor_in_u; [lia| |unfold in_u; lia].
    apply crc_fold_in_u; [|done]. apply lxor_in_u; unfold in_u; lia.
  - unfold xxhash32. destruct (if 16 <=? blen data then _ else _) as [h d].
    destruct (xx_words _ _ _) as [h' d'] eqn:E'. unfold xx_final.
    apply lxor_in_u; [lia|apply u32_in_u|apply shiftr_in_u; [lia|apply u32_in_u]].
Qed.

Lemma single_byte_changes_checksum {E} a data i x y s s' :
  Supported a = true -> a <> ChecksumNone -> bytes_ok data -> byte_ok y ->
  data !! i = Some x -> x <> y ->
  Checksum (E:=E) a data = Ok s -> Checksum (E:=E) a (<[i := y]> data) = Ok s' -> s <> s'.
Proof.
  intros Hs Ha Hd Hy Hx Hne. assert (Hxb : byte_ok x) by (eapply Forall_lookup_1; eauto).
  unfold Checksum. destruct (Z.eqb_spec a ChecksumNone); [done|].
  destruct (a =? ChecksumCRC32C); [|destruct (a =? ChecksumXXHash32); [|done]];
    intros [= <-] [= <-] E'.
  - pose proof (lookup_lt_Some _ _ _ Hx). rewrite insert_take_drop in E' by done.
    rewrite <- (take_drop_middle data i x Hx) in E' at 1.
    apply (crc_burst 0 (take i data) [x] [y] (drop (S i) data)) in E'; try done.
    + by apply Forall_take.
    + by constructor.
    + by constructor.
    + by apply Forall_drop.
    + simpl; lia.
    + congruence.
  - symmetry in E'. by apply (xx_changed data 0 i x y) in E'.
Qed.

Lemma Verify_body_changed {E} a data i x y s :
  Supported a = true -> a <> ChecksumNone -> bytes_ok data -> byte_ok y ->
  data !! i = Some x -> x <> y -> Checksum (E:=E) a data = Ok s ->
  Verify (E:=E) a (<[i := y]> data) s = Ok false.
Proof.
  intros Hs Ha Hd Hy Hx Hne Hc. unfold Verify. destruct (Z.eqb_spec a ChecksumNone); [done|].
  destruct (Checksum_supported (E:=E) a (<[i := y]> data) Hs) as [s' Hs'].
  rewrite Hs'. simpl. f_equal. apply Z.eqb_neq. intros ->.
  by eapply single_byte_changes_checksum.
Qed.

Lemma Verify_trailer_changed {E} a data j x y s :
  a <> ChecksumNone -> bytes_ok data -> byte_ok y -> Checksum (E:=E) a data = Ok s ->
  le_bytes 4 s !! j = Some x -> x <> y ->
  Verify (E:=E) a data (le_val (<[j := y]> (le_bytes 4 s))) = Ok false.
Proof.
  intros Ha Hd Hy Hc Hx Hne. unfold Verify. destruct (Z.eqb_spec a ChecksumNone); [done|].
  rewrite Hc. cbn [res_bind]. f_equal. apply Z.eqb_neq. intros E'.
  pose proof (Checksum_range a data s Hd Hc) as Hr. pose proof (lookup_lt_Some _ _ _ Hx) as Hlt.
  assert (El : <[j := y]> (le_bytes 4 s) = le_bytes 4 s).
  { apply le_val_inj; [by apply Forall_insert; [apply bytes_ok_le|]|apply bytes_ok_le| |].
    - apply length_insert.
    - by rewrite <- E', le_val_le_bytes. }
  rewrite <- El, list_lookup_insert_eq in Hx by done. congruence.
Qed.

(** The checksums detect corruption: under CRC-32C and under xxHash32 data
    in which one byte was changed fails verification against the original
    checksum, and under CRC-32C so does data changed anywhere inside a window
    of four bytes. The unchanged data always verifies. *)
Theorem checksum_detects_corruption a data s :
  Supported a = true -> a <> ChecksumNone -> bytes_ok data ->
  Checksum (E:=unit) a data = Ok s ->
  Verify (E:=unit) a data s = Ok true /\
  (forall i x y, data !! i = Some x -> byte_ok y -> x <> y ->
     Verify (E:=unit) a (<[i := y]> data) s = Ok false) /\
  (forall p m m' t, a = ChecksumCRC32C -> data = p ++ m ++ t -> bytes_ok m' ->
     length m = length m' -> (length m <= 4)%nat -> m <> m' ->
     Verify (E:=unit) a (p ++ m' ++ t) s = Ok false).
Proof.
  intros Hs Ha Hd Hc. split; [by apply Verify_Checksum|]. split.
  - intros i x y Hx Hy Hne. by apply (Verify_body_changed a data i x).
  - intros p m m' t -> -> Hm' Hl H4 Hne. injection Hc as <-. unfold Verify, Checksum. simpl.
    f_equal. apply Z.eqb_neq. unfold bytes_ok in Hd. rewrite !Forall_app in Hd.
    destruct Hd as (? & ? & ?). intros E. symmetry in E.
    apply crc_burst in E; done.
Qed.

Lemma checksum_detects_corruption_witness :
  Checksum (E:=unit) ChecksumXXHash32 [1; 2; 3; 4; 5] = Ok 3743160008 /\
  Verify (E:=unit) ChecksumXXHash32 (<[2%nat := 7]> [1; 2; 3; 4; 5]) 3743160008 = Ok false.
Proof.
  split; [vm_compute; reflexivity|].
  apply (checksum_detects_corruption ChecksumXXHash32 [1; 2; 3; 4; 5] 3743160008) with (x := 3);
    [vm_compute; reflexivity|vm_compute; discriminate| |vm_compute; reflexivity|reflexivity| |lia].
  - repeat constructor; lia.
  - split; lia.
Defined.
