(* ===== verification/Page.v ===== *)
(** * format/errors.go and format/page.go: the common page layout

    The error values of the format package, the 32-byte common page header and
    the trailing page checksum. *)

From S2P Require Import Prelude Checksum.

(** The sentinel errors, in the order of errors.go. *)
Inductive fmtErr : Type :=
| ErrTooSmall | ErrNotDocDB | ErrUnsupportedChecksum | ErrHeaderCorrupt | ErrUnsupportedMajor
| ErrInvalidPageSize | ErrUnsupportedFeature | ErrPageChecksum | ErrUnknownPageType
| ErrPageTooSmall | ErrNoSpace | ErrBadSlot | ErrSlotDead | ErrChainCorrupt.

#[global] Instance fmtErr_eq_dec : EqDecision fmtErr.
Proof. solve_decision. Defined.

(** ** Page types *)

Definition PageFree : Z := 0.
Definition PageHeap : Z := 1.
Definition PageBTreeInterior : Z := 2.
Definition PageBTreeLeaf : Z := 3.
Definition PageOverflowHead : Z := 4.
Definition PageOverflowCont : Z := 5.
Definition PageCatalog : Z := 6.
Definition PageFreelistTrunk : Z := 7.
Definition PageFreelistLeaf : Z := 8.
Definition PageColumnarDir : Z := 9.
Definition PageColumnarSeg : Z := 10.
Definition PageHeapFSMap : Z := 11.

Definition Known (t : Z) : bool := t <=? PageHeapFSMap.

(** ** The common page header *)

Definition PageHeaderSize : Z := 32.
Definition ChecksumSize : Z := 4.
Definition BodyOffset : Z := PageHeaderSize.
Definition NullPage : Z := 0xFFFFFFFF.

Record PageHeader := MkPageHeader {
  ph_Type : Z;
  ph_Flags : Z;
  ph_Codec : Z;
  ph_EntryCount : Z;
  ph_PageLSN : Z;
  ph_CollIDEntry : Z;
  ph_FreeStart : Z;
  ph_FreeEnd : Z;
  ph_RightSib : Z
}.

(** The 32 bytes EncodeInto writes, field by field. *)
Definition page_header_fields (h : PageHeader) : list bytes :=
  [ [ph_Type h]; [ph_Flags h]; [ph_Codec h]; [0];
    le_bytes 4 (ph_EntryCount h); le_bytes 8 (ph_PageLSN h); le_bytes 4 (ph_CollIDEntry h);
    le_bytes 2 (ph_FreeStart h); le_bytes 2 (ph_FreeEnd h); le_bytes 4 (ph_RightSib h);
    le_bytes 4 0 ].

Definition EncodeInto {E} (h : PageHeader) (p : bytes) : res E bytes :=
  wr 0 (concat (page_header_fields h)) p.

Definition DecodePageHeader {E} (p : bytes) : res E PageHeader :=
  let* b := rd 0 PageHeaderSize p in
  Ok (MkPageHeader (le_val (sub 0 1 b)) (le_val (sub 1 1 b)) (le_val (sub 2 1 b))
        (le_val (sub 4 4 b)) (le_val (sub 8 8 b)) (le_val (sub 16 4 b))
        (le_val (sub 20 2 b)) (le_val (sub 22 2 b)) (le_val (sub 24 4 b))).

Definition BodySize (pageSize : Z) : Z := pageSize - PageHeaderSize - ChecksumSize.

(** ** The trailing checksum *)

Definition ComputePageChecksum {E} (p : bytes) (algo : Z) : res E Z :=
  let* b := rd 0 (blen p - ChecksumSize) p in Checksum algo b.

Definition WritePageChecksum {E} (p : bytes) (algo : Z) : res E (Z * bytes) :=
  let* sum := ComputePageChecksum p algo in
  let* p' := wr (blen p - ChecksumSize) (le_bytes 4 sum) p in
  Ok (sum, p').

Definition VerifyPageChecksum (p : bytes) (algo : Z) : res fmtErr unit :=
  let* t := rd (blen p - ChecksumSize) 4 p in
  let* b := rd 0 (blen p - ChecksumSize) p in
  let* ok := Verify algo b (le_val t) in
  if ok : bool then Ok tt else Err ErrPageChecksum.

Definition InitPage {E} (p : bytes) (t collID : Z) : res E bytes :=
  EncodeInto (MkPageHeader t 0 0 0 0 collID 0 (u16 (blen p - PageHeaderSize - ChecksumSize)) NullPage)
    (replicate (length p) 0).

(** ** Lemmas *)

Definition page_header_ok (h : PageHeader) : Prop :=
  in_u 8 (ph_Type h) /\ in_u 8 (ph_Flags h) /\ in_u 8 (ph_Codec h) /\
  in_u 32 (ph_EntryCount h) /\ in_u 64 (ph_PageLSN h) /\ in_u 32 (ph_CollIDEntry h) /\
  in_u 16 (ph_FreeStart h) /\ in_u 16 (ph_FreeEnd h) /\ in_u 32 (ph_RightSib h).

Lemma length_page_header h : length (concat (page_header_fields h)) = 32%nat.
Proof. done. Qed.

Lemma page_header_bytes_ok h : page_header_ok h -> bytes_ok (concat (page_header_fields h)).
Proof.
  intros (? & ? & ? & _). unfold bytes_ok. apply Forall_concat. unfold page_header_fields.
  repeat (apply Forall_cons; split); try apply byte_ok_mod; try done;
    unfold byte_ok, in_u in *; lia.
Qed.

(** Decoding reads the fields of the first 32 bytes. *)
Lemma DecodePageHeader_prefix {E} h b :
  page_header_ok h -> DecodePageHeader (E:=E) (concat (page_header_fields h) ++ b) = Ok h.
Proof.
  intros (? & ? & ? & ? & ? & ? & ? & ? & ?). unfold DecodePageHeader.
  rewrite rd_Ok by (try done; unfold blen; rewrite length_app, length_page_header;
    unfold PageHeaderSize; lia). cbn [res_bind].
  rewrite sub_app_l by done. change (Z.to_nat 0) with 0%nat.
  rewrite <- (length_page_header h) at 1. unfold PageHeaderSize.
  change (Z.to_nat 32) with (length (concat (page_header_fields h))). rewrite !sub_full.
  rewrite (sub_concat 0 (page_header_fields h) [ph_Type h]) by reflexivity.
  rewrite (sub_concat 1 (page_header_fields h) [ph_Flags h]) by reflexivity.
  rewrite (sub_concat 2 (page_header_fields h) [ph_Codec h]) by reflexivity.
  rewrite (sub_concat 4 (page_header_fields h) (le_bytes 4 (ph_EntryCount h))) by reflexivity.
  rewrite (sub_concat 5 (page_header_fields h) (le_bytes 8 (ph_PageLSN h))) by reflexivity.
  rewrite (sub_concat 6 (page_header_fields h) (le_bytes 4 (ph_CollIDEntry h))) by reflexivity.
  rewrite (sub_concat 7 (page_header_fields h) (le_bytes 2 (ph_FreeStart h))) by reflexivity.
  rewrite (sub_concat 8 (page_header_fields h) (le_bytes 2 (ph_FreeEnd h))) by reflexivity.
  rewrite (sub_concat 9 (page_header_fields h) (le_bytes 4 (ph_RightSib h))) by reflexivity.
  rewrite !le_val_le_bytes by done. simpl le_val. rewrite !Z.add_0_r. by destruct h.
Qed.

Lemma EncodeInto_Ok {E} h p :
  32 <= blen p -> EncodeInto (E:=E) h p = Ok (concat (page_header_fields h) ++ drop 32 p).
Proof.
  intros Hp. unfold EncodeInto. rewrite wr_Ok; [|lia|].
  - unfold put. change (Z.to_nat 0) with 0%nat. by rewrite take_0, length_page_header.
  - unfold blen at 1. rewrite length_page_header. lia.
Qed.

Lemma EncodeInto_Panic {E} h p : blen p < 32 -> EncodeInto (E:=E) h p = Panic.
Proof.
  intros Hp. unfold EncodeInto, wr. unfold blen at 1. rewrite length_page_header.
  case_match eqn:E'; [|done]. exfalso. rewrite andb_true_iff, !Z.leb_le in E'. lia.
Qed.

(** The trailer of a page: its last four bytes. *)
Lemma trailer_split {E} (p : bytes) :
  4 <= blen p ->
  rd (E:=E) 0 (blen p - ChecksumSize) p = Ok (take (length p - 4) p) /\
  rd (E:=E) (blen p - ChecksumSize) 4 p = Ok (drop (length p - 4) p).
Proof.
  unfold blen, ChecksumSize. intros Hp. rewrite !rd_Ok by (unfold blen; lia). unfold sub.
  rewrite drop_0. replace (Z.to_nat (Z.of_nat (length p) - 4)) with (length p - 4)%nat by lia.
  split; [done|]. f_equal. apply take_ge. rewrite length_drop. lia.
Qed.

Lemma VerifyPageChecksum_split body t algo :
  length t = 4%nat ->
  VerifyPageChecksum (body ++ t) algo =
  res_bind (Verify algo body (le_val t)) (fun ok => if ok : bool then Ok tt else Err ErrPageChecksum).
Proof.
  intros Ht. unfold VerifyPageChecksum.
  destruct (trailer_split (E:=fmtErr) (body ++ t)) as [H1 H2].
  { unfold blen. rewrite length_app. lia. }
  rewrite H1, H2. cbn [res_bind]. rewrite length_app, Ht.
  replace (length body + 4 - 4)%nat with (length body) by lia.
  by rewrite take_app_length, drop_app_length.
Qed.

Lemma WritePageChecksum_split {E} body t algo s :
  length t = 4%nat -> Checksum (E:=E) algo body = Ok s ->
  WritePageChecksum (E:=E) (body ++ t) algo = Ok (s, body ++ le_bytes 4 s).
Proof.
  intros Ht Hs. unfold WritePageChecksum, ComputePageChecksum.
  destruct (trailer_split (E:=E) (body ++ t)) as [H1 H2].
  { unfold blen. rewrite length_app. lia. }
  rewrite H1. cbn [res_bind]. rewrite length_app, Ht.
  replace (length body + 4 - 4)%nat with (length body) by lia. rewrite take_app_length, Hs.
  cbn [res_bind]. unfold ChecksumSize. rewrite wr_Ok;
    [|unfold blen; rewrite ?length_app, ?length_le_bytes; lia..].
  cbn [res_bind]. do 2 f_equal. unfold put, blen. rewrite length_app, length_le_bytes, Ht.
  replace (Z.to_nat _) with (length body) by lia. rewrite take_app_length. f_equal.
  rewrite drop_ge by (rewrite length_app; lia). apply app_nil_r.
Qed.

(** The page header round-trips: writing a header of field-width values into
    a page of at least 32 bytes changes those 32 bytes only, and decoding the
    page gives the header back; a shorter page panics. *)
Theorem page_header_roundtrip h p :
  page_header_ok h ->
  (32 <= blen p -> exists p', EncodeInto (E:=fmtErr) h p = Ok p' /\ length p' = length p /\
     drop 32 p' = drop 32 p /\ DecodePageHeader (E:=fmtErr) p' = Ok h) /\
  (blen p < 32 -> EncodeInto (E:=fmtErr) h p = Panic /\ DecodePageHeader (E:=fmtErr) p = Panic).
Proof.
  intros Hh. split; intros Hp.
  - eexists. split; [by apply EncodeInto_Ok|]. split_and!.
    + rewrite length_app, length_page_header, length_drop. unfold blen in Hp. lia.
    + rewrite drop_app_ge by (rewrite length_page_header; lia). by rewrite length_page_header.
    + by apply DecodePageHeader_prefix.
  - split; [by apply EncodeInto_Panic|]. unfold DecodePageHeader. by rewrite rd_Panic.
Qed.

Lemma page_header_roundtrip_witness :
  page_header_ok (MkPageHeader 1 0 0 7 2 3 28 100 NullPage) /\
  exists p', EncodeInto (E:=fmtErr) (MkPageHeader 1 0 0 7 2 3 28 100 NullPage) (replicate 40 0) = Ok p' /\
    DecodePageHeader (E:=fmtErr) p' = Ok (MkPageHeader 1 0 0 7 2 3 28 100 NullPage).
Proof.
  assert (H : page_header_ok (MkPageHeader 1 0 0 7 2 3 28 100 NullPage)).
  { unfold page_header_ok, in_u; simpl; unfold NullPage; lia. }
  split; [exact H|].
  destruct (page_header_roundtrip _ (replicate 40 0) H) as [H1 _].
  destruct H1 as (p' & E1 & _ & _ & E2); [vm_compute; discriminate|]. exists p'. split; assumption.
Defined.

(** C32. A page checksum protects every byte of the page: a page of at least four bytes
    whose checksum was written, by a supported algorithm, verifies and keeps its
    content but for the trailer, and under CRC-32C or xxHash32 changing any one byte
    of it afterwards, in the header, the body or the trailer, makes verification
    return ErrPageChecksum. *)
Theorem page_checksum_protects p algo :
  Supported algo = true -> bytes_ok p -> 4 <= blen p ->
  exists s p', WritePageChecksum (E:=fmtErr) p algo = Ok (s, p') /\
    length p' = length p /\ take (length p - 4) p' = take (length p - 4) p /\
    VerifyPageChecksum p' algo = Ok tt /\
    (forall i x y, algo <> ChecksumNone -> p' !! i = Some x -> byte_ok y -> x <> y ->
       VerifyPageChecksum (<[i := y]> p') algo = Err ErrPageChecksum).
Proof.
  intros Ha Hp Hl. set (body := take (length p - 4) p). set (t := drop (length p - 4) p).
  assert (Ht : length t = 4%nat) by (unfold t; rewrite length_drop; unfold blen in Hl; lia).
  assert (Hb : bytes_ok body) by by apply Forall_take.
  assert (Hlb : length body = (length p - 4)%nat) by (unfold body; rewrite length_take; lia).
  destruct (Checksum_supported (E:=fmtErr) algo body Ha) as [s Hs].
  pose proof (Checksum_range algo body s Hb Hs) as Hr.
  exists s, (body ++ le_bytes 4 s).
  assert (Ep : p = body ++ t) by (symmetry; apply take_drop). rewrite Ep at 1. split_and!.
  - by apply WritePageChecksum_split.
  - rewrite Ep, !length_app, Ht. done.
  - rewrite <- Hlb. apply take_app_length.
  - rewrite VerifyPageChecksum_split by done. rewrite le_val_le_bytes by done.
    by rewrite Verify_Checksum.
  - intros i x y Hne Hi Hy Hxy. destruct (decide (i < length body)%nat) as [Hin|Hin].
    + rewrite insert_app_l, VerifyPageChecksum_split, le_val_le_bytes by done.
      rewrite lookup_app_l in Hi by done.
      by rewrite (Verify_body_changed algo body i x y s).
    + rewrite lookup_app_r in Hi by lia. rewrite insert_app_r_alt by lia.
      rewrite VerifyPageChecksum_split by by rewrite length_insert.
      by rewrite (Verify_trailer_changed algo body _ x y s).
Qed.

Lemma page_checksum_protects_witness :
  exists s p', WritePageChecksum (E:=fmtErr) (replicate 40 9) ChecksumCRC32C = Ok (s, p') /\
    VerifyPageChecksum (<[3%nat := 8]> p') ChecksumCRC32C = Err ErrPageChecksum.
Proof.
  destruct (page_checksum_protects (replicate 40 9) ChecksumCRC32C) as (s & p' & H1 & _ & H2 & _ & H3).
  - reflexivity.
  - apply Forall_replicate. unfold byte_ok; lia.
  - vm_compute; discriminate.
  - exists s, p'. split; [exact H1|]. apply (H3 3%nat 9); [discriminate| |unfold byte_ok; lia|lia].
    apply (f_equal (fun l => l !! 3%nat)) in H2. rewrite !lookup_take_lt in H2 by (simpl; lia).
    rewrite H2. reflexivity.
Defined.

(** A fresh page decodes to an empty page of its type. *)
Lemma InitPage_Ok {E} p t collID :
  in_u 8 t -> in_u 32 collID -> 36 <= blen p <= 65536 ->
  exists p', InitPage (E:=E) p t collID = Ok p' /\ length p' = length p /\
    DecodePageHeader (E:=E) p' = Ok (MkPageHeader t 0 0 0 0 collID 0 (BodySize (blen p)) NullPage) /\
    drop 32 p' = replicate (length p - 32) 0.
Proof.
  intros Ht Hc Hl. unfold InitPage. unfold blen in Hl.
  assert (El : u16 (blen p - PageHeaderSize - ChecksumSize) = BodySize (blen p)).
  { apply wrap_small. unfold in_u, BodySize, blen, PageHeaderSize, ChecksumSize. lia. }
  rewrite El, EncodeInto_Ok by (unfold blen; rewrite length_replicate; lia).
  eexists. split; [done|]. split_and!.
  - rewrite length_app, length_page_header, length_drop, length_replicate. lia.
  - apply DecodePageHeader_prefix.
    unfold page_header_ok, in_u, BodySize, NullPage, blen, PageHeaderSize, ChecksumSize in *; simpl.
    lia.
  - rewrite drop_app_ge by (rewrite length_page_header; lia). rewrite length_page_header.
    replace (32 - 32)%nat with 0%nat by lia. by rewrite drop_0, drop_replicate.
Qed.

(** ** The body of a page

    [csub off n b] are the bytes [off, off+n) of the body of page b, [cput]
    overwrites them, [hdr] is the decoded header and [bl] the body length. *)

Definition csub (off n : Z) (b : bytes) : bytes := sub (Z.to_nat (32 + off)) (Z.to_nat n) b.
Definition cput (off : Z) (s b : bytes) : bytes := put (Z.to_nat (32 + off)) s b.
Definition bl (b : bytes) : Z := blen b - 36.

Definition hdr (b : bytes) : PageHeader :=
  match DecodePageHeader (E:=fmtErr) b with
  | Ok h => h
  | _ => MkPageHeader 0 0 0 0 0 0 0 0 0
  end.

Arguments hdr : simpl never.

(** s.body()[off : off+n]: the body is Buf[32 : len-4], and a slice of it is
    bounded by its capacity, which reaches the end of the buffer. *)
Definition body_ok (off n : Z) (b : bytes) : bool :=
  (BodyOffset <=? blen b - ChecksumSize) && (0 <=? off) && (0 <=? n) &&
  (BodyOffset + off + n <=? blen b).

Definition body_get {E} (off n : Z) (b : bytes) : res E bytes :=
  if body_ok off n b then Ok (csub off n b) else Panic.

Definition body_set {E} (off : Z) (s b : bytes) : res E bytes :=
  if body_ok off (blen s) b then Ok (cput off s b) else Panic.

Section buffer.
Implicit Types b s : bytes.

Lemma body_ok_true off n b :
  36 <= blen b -> 0 <= off -> 0 <= n -> off + n <= bl b -> body_ok off n b = true.
Proof.
  unfold body_ok, bl, BodyOffset, PageHeaderSize, ChecksumSize. intros.
  rewrite !andb_true_iff, !Z.leb_le. lia.
Qed.

Lemma body_get_Ok {E} off n b :
  36 <= blen b -> 0 <= off -> 0 <= n -> off + n <= bl b -> body_get (E:=E) off n b = Ok (csub off n b).
Proof. intros. unfold body_get. by rewrite body_ok_true. Qed.

Lemma body_set_Ok {E} off s b :
  36 <= blen b -> 0 <= off -> off + blen s <= bl b -> body_set (E:=E) off s b = Ok (cput off s b).
Proof. intros. unfold body_set. rewrite body_ok_true; [done|done|done| |done]. unfold blen; lia. Qed.

Lemma blen_cput off s b : 0 <= off -> off + blen s <= bl b -> blen (cput off s b) = blen b.
Proof. unfold bl, blen, cput. intros. by rewrite length_put by lia. Qed.

Lemma bl_cput off s b : 0 <= off -> off + blen s <= bl b -> bl (cput off s b) = bl b.
Proof. intros. unfold bl. by rewrite blen_cput. Qed.

Lemma bytes_ok_cput off s b : bytes_ok s -> bytes_ok b -> bytes_ok (cput off s b).
Proof. apply put_Forall. Qed.

Lemma bytes_ok_csub off n b : bytes_ok b -> bytes_ok (csub off n b).
Proof. apply sub_Forall. Qed.

Lemma blen_csub off n b : 0 <= off -> 0 <= n -> off + n <= bl b -> blen (csub off n b) = n.
Proof. unfold bl, blen, csub. intros. rewrite length_sub by lia. lia. Qed.

Lemma csub_cput_same off s b : 0 <= off -> off + blen s <= bl b -> csub off (blen s) (cput off s b) = s.
Proof.
  unfold bl, blen, csub, cput. intros. apply sub_put_eq'; lia.
Qed.

Lemma csub_cput_same' off n s b :
  blen s = n -> 0 <= off -> off + n <= bl b -> csub off n (cput off s b) = s.
Proof. intros <-. apply csub_cput_same. Qed.

Lemma csub_cput_ne off s b x m :
  0 <= off -> off + blen s <= bl b -> 0 <= x -> 0 <= m -> x + m <= off \/ off + blen s <= x ->
  csub x m (cput off s b) = csub x m b.
Proof. unfold bl, blen, csub, cput. intros. apply sub_put_ne; lia. Qed.

Lemma csub_cput_inside off s b x m :
  0 <= off -> off + blen s <= bl b -> off <= x -> 0 <= m -> x + m <= off + blen s ->
  csub x m (cput off s b) = sub (Z.to_nat (x - off)) (Z.to_nat m) s.
Proof.
  unfold bl, blen, csub, cput. intros. rewrite sub_put_inside by lia. f_equal. lia.
Qed.

Lemma hdr_cput off s b : 36 <= blen b -> 0 <= off -> off + blen s <= bl b -> hdr (cput off s b) = hdr b.
Proof.
  unfold bl. intros Hb Ho Hs. unfold hdr, DecodePageHeader.
  rewrite !rd_Ok by (try done; try (rewrite blen_cput by (unfold bl; done || lia)); unfold PageHeaderSize; lia).
  cbn [res_bind]. unfold cput, blen in *. rewrite sub_put_ne by (unfold PageHeaderSize; lia). done.
Qed.

Lemma hdr_ok b : bytes_ok b -> page_header_ok (hdr b).
Proof.
  intros Hb. unfold hdr, DecodePageHeader. unfold rd.
  destruct (_ && _) eqn:E; cbn [res_bind].
  2:{ unfold page_header_ok, in_u; simpl; lia. }
  unfold page_header_ok. cbn [ph_Type ph_Flags ph_Codec ph_EntryCount ph_PageLSN ph_CollIDEntry
    ph_FreeStart ph_FreeEnd ph_RightSib].
  assert (H : forall o n w, (o + n <= 32)%nat -> w = 8 * Z.of_nat n ->
    in_u w (le_val (sub o n (sub (Z.to_nat 0) (Z.to_nat PageHeaderSize) b)))).
  { intros o n w Ho ->. pose proof (le_val_bound (sub o n (sub (Z.to_nat 0) (Z.to_nat PageHeaderSize) b))) as Hv.
    unfold blen in Hv. rewrite length_sub in Hv; [apply Hv; by apply sub_Forall, sub_Forall|].
    unfold rd in E. rewrite !andb_true_iff, !Z.leb_le in E. unfold blen, PageHeaderSize in E.
    rewrite length_sub by (unfold PageHeaderSize; lia). unfold PageHeaderSize. lia. }
  split_and!; apply H; lia.
Qed.

Lemma EncodeInto_spec {E} h b :
  36 <= blen b -> page_header_ok h -> bytes_ok b ->
  exists b', EncodeInto (E:=E) h b = Ok b' /\ blen b' = blen b /\ bytes_ok b' /\ hdr b' = h /\
    (forall x m, 0 <= x -> csub x m b' = csub x m b).
Proof.
  intros Hb Hh Hby. rewrite EncodeInto_Ok by lia. eexists. split; [done|].
  assert (Hl : length (concat (page_header_fields h)) = 32%nat) by apply length_page_header.
  unfold blen in *. split_and!.
  - rewrite length_app, Hl, length_drop. lia.
  - apply Forall_app. split; [by apply page_header_bytes_ok|by apply Forall_drop].
  - unfold hdr. by rewrite DecodePageHeader_prefix.
  - intros x m Hx. unfold csub. rewrite sub_app_r by lia. rewrite Hl. unfold sub.
    rewrite drop_drop. do 2 f_equal. lia.
Qed.

Lemma Decode_hdr {E} b : 32 <= blen b -> DecodePageHeader (E:=E) b = Ok (hdr b).
Proof.
  intros H. unfold hdr, DecodePageHeader. by rewrite !rd_Ok by (try lia; done).
Qed.
End buffer.

(** A fresh page: its header, and a body of zeros. *)
Lemma InitPage_spec {E} p t collID :
  in_u 8 t -> in_u 32 collID -> 36 <= blen p <= 65536 ->
  exists p', InitPage (E:=E) p t collID = Ok p' /\ blen p' = blen p /\ bytes_ok p' /\
    hdr p' = MkPageHeader t 0 0 0 0 collID 0 (bl p) NullPage.
Proof.
  intros Ht Hc Hl. destruct (InitPage_Ok (E:=E) p t collID Ht Hc Hl) as (p' & R & L & D & Z).
  exists p'. split_and!; [done|unfold blen; by rewrite L| |].
  - unfold InitPage in R. rewrite EncodeInto_Ok in R
      by (unfold blen in *; rewrite length_replicate; lia).
    assert (p' = concat (page_header_fields (MkPageHeader t 0 0 0 0 collID 0
      (u16 (blen p - PageHeaderSize - ChecksumSize)) NullPage)) ++ drop 32 (replicate (length p) 0))
      as -> by congruence.
    apply Forall_app. split.
    + apply page_header_bytes_ok. unfold page_header_ok; simpl.
      split_and!; try done; try (apply wrap_in_u; lia); unfold in_u, NullPage; lia.
    + apply Forall_drop, Forall_replicate. unfold byte_ok; lia.
  - rewrite Decode_hdr in D by (unfold blen in *; lia).
    assert (Hi : forall (x y : PageHeader), Ok (E:=E) x = Ok y -> x = y) by (intros x y; congruence).
    apply Hi in D. rewrite D. f_equal. unfold BodySize, bl, PageHeaderSize, ChecksumSize. lia.
Qed.

(** Writing the page checksum keeps the header and the body. *)
Lemma WritePageChecksum_spec {E} p algo :
  Supported algo = true -> bytes_ok p -> 36 <= blen p ->
  exists s p', WritePageChecksum (E:=E) p algo = Ok (s, p') /\ blen p' = blen p /\ bytes_ok p' /\
    hdr p' = hdr p /\ VerifyPageChecksum p' algo = Ok tt /\
    (forall x m, 0 <= x -> 0 <= m -> x + m <= bl p -> csub x m p' = csub x m p).
Proof.
  intros Ha Hp Hl. set (body := take (length p - 4) p). set (t := drop (length p - 4) p).
  assert (Ht : length t = 4%nat) by (unfold t; rewrite length_drop; unfold blen in Hl; lia).
  assert (Hb : bytes_ok body) by by apply Forall_take.
  assert (Hlb : length body = (length p - 4)%nat) by (unfold body; rewrite length_take; lia).
  destruct (Checksum_supported (E:=fmtErr) algo body Ha) as [s Hs].
  assert (Hs' : Checksum (E:=E) algo body = Ok s).
  { unfold Checksum in *. repeat case_match; congruence. }
  pose proof (Checksum_range algo body s Hb Hs) as Hr.
  assert (Ep : p = body ++ t) by (symmetry; apply take_drop).
  assert (Elen : blen (body ++ le_bytes 4 s) = blen p).
  { unfold blen. by rewrite Ep, !length_app, Ht, length_le_bytes. }
  exists s, (body ++ le_bytes 4 s). split_and!.
  - rewrite Ep at 1. by apply WritePageChecksum_split.
  - done.
  - apply Forall_app. split; [done|apply bytes_ok_le].
  - rewrite Ep. unfold hdr, DecodePageHeader. unfold blen in *.
    rewrite !rd_Ok by (unfold blen, PageHeaderSize; rewrite ?length_app, ?length_le_bytes; lia).
    cbn [res_bind]. unfold PageHeaderSize. by rewrite !sub_app_l by lia.
  - rewrite VerifyPageChecksum_split, le_val_le_bytes by done. by rewrite Verify_Checksum.
  - intros x m Hx Hm Hxm. rewrite Ep. unfold csub, bl, blen in *. by rewrite !sub_app_l by lia.
Qed.
