(* ===== verification/DbHeader.v ===== *)
(** * format/header.go: the database header

    The 128-byte header prefix of page 0, its encoder, and the decoder that
    validates it in the order of the open sequence. *)

From S2P Require Import Prelude Checksum Page.

Definition HeaderSize : Z := 128.

Definition Magic : bytes :=
  [0x64; 0x6F; 0x63; 0x00; 0x66; 0x6D; 0x74; 0x20;
   0x31; 0x0A; 0x00; 0xFF; 0x0D; 0x0A; 0x1A; 0x0A].

Definition FormatMajorCurrent : Z := 1.
Definition FormatMinorCurrent : Z := 0.

Definition ValidPageSize (ps : Z) : bool :=
  (ps =? 4096) || (ps =? 8192) || (ps =? 16384) || (ps =? 32768) || (ps =? 65536).

(** Encryption, compression, columnar and 64-bit page numbers: bits 0 to 3. *)
Definition knownFeatureMask : Z :=
  Z.lor (Z.lor (Z.lor (Z.shiftl 1 0) (Z.shiftl 1 1)) (Z.shiftl 1 2)) (Z.shiftl 1 3).

Record Header := MkHeader {
  FormatMajor : Z;
  FormatMinor : Z;
  PageSize : Z;
  PageCount : Z;
  FileChangeCounter : Z;
  VersionValidFor : Z;
  FreelistRoot : Z;
  FreelistPageCount : Z;
  CatalogRoot : Z;
  SchemaCookie : Z;
  ColumnarRoot : Z;
  TxnHighWater : Z;
  FeatureFlags : Z;
  DefaultCodec : Z;
  Header_ChecksumAlgo : Z;
  TextEncoding : Z;
  EncryptionFlags : Z;
  ApplicationID : Z;
  UserVersion : Z;
  WALSalt : Z;
  DatabaseUUID : bytes;
  HeaderChecksum : Z
}.

Definition NewHeader (pageSize algo walSalt : Z) (uuid : bytes) : Header :=
  MkHeader FormatMajorCurrent FormatMinorCurrent pageSize 1 0 0 NullPage 0 NullPage 0 NullPage
    0 0 0 algo 1 0 0 0 walSalt uuid 0.

(** The fields of bytes 0..123 in file order, the reserved bytes included. *)
Definition header_fields (h : Header) : list bytes :=
  [ Magic; le_bytes 2 (FormatMajor h); le_bytes 2 (FormatMinor h); le_bytes 4 (PageSize h);
    le_bytes 4 (PageCount h); le_bytes 4 (FileChangeCounter h); le_bytes 4 (VersionValidFor h);
    le_bytes 4 (FreelistRoot h); le_bytes 4 (FreelistPageCount h); le_bytes 4 (CatalogRoot h);
    le_bytes 4 (SchemaCookie h); le_bytes 4 (ColumnarRoot h); le_bytes 8 (TxnHighWater h);
    le_bytes 8 (FeatureFlags h); [DefaultCodec h]; [Header_ChecksumAlgo h]; [TextEncoding h];
    [EncryptionFlags h]; le_bytes 4 (ApplicationID h); le_bytes 4 (UserVersion h);
    le_bytes 8 (WALSalt h); DatabaseUUID h; replicate 16 0 ].

Definition Encode {E} (h : Header) : res E bytes :=
  if negb (Supported (Header_ChecksumAlgo h)) then Panic
  else
    let b := concat (header_fields h) in
    let* sum := Checksum (Header_ChecksumAlgo h) b in
    Ok (b ++ le_bytes 4 sum).

Definition DecodeHeader (b : bytes) : res fmtErr Header :=
  if blen b <? HeaderSize then Err ErrTooSmall
  else if negb (bool_decide (sub 0 16 b = Magic)) then Err ErrNotDocDB
  else
    let algo := nth 73 b 0 in
    if negb (Supported algo) then Err ErrUnsupportedChecksum
    else
      let stored := le_val (sub 124 4 b) in
      let* ok := Verify algo (sub 0 124 b) stored in
      if negb ok then Err ErrHeaderCorrupt
      else
        let major := le_val (sub 16 2 b) in
        if major >? FormatMajorCurrent then Err ErrUnsupportedMajor
        else
          let ps := le_val (sub 20 4 b) in
          if negb (ValidPageSize ps) then Err ErrInvalidPageSize
          else
            let ff := le_val (sub 64 8 b) in
            if negb (Z.ldiff ff knownFeatureMask =? 0) then Err ErrUnsupportedFeature
            else
              Ok (MkHeader major (le_val (sub 18 2 b)) ps (le_val (sub 24 4 b))
                    (le_val (sub 28 4 b)) (le_val (sub 32 4 b)) (le_val (sub 36 4 b))
                    (le_val (sub 40 4 b)) (le_val (sub 44 4 b)) (le_val (sub 48 4 b))
                    (le_val (sub 52 4 b)) (le_val (sub 56 8 b)) ff (nth 72 b 0) algo
                    (nth 74 b 0) (nth 75 b 0) (le_val (sub 76 4 b)) (le_val (sub 80 4 b))
                    (le_val (sub 84 8 b)) (sub 92 16 b) stored).

(** fileLen is an int64; the division truncates and the result is cut to u32. *)
Definition PageCountForFileLen {E} (h : Header) (fileLen : Z) : res E Z :=
  if FileChangeCounter h =? VersionValidFor h then Ok (PageCount h)
  else if PageSize h =? 0 then Panic
  else Ok (u32 (Z.quot fileLen (PageSize h))).

(** ** Lemmas *)

(** Every field fits its width and the identifier is a 16-byte array. *)
Definition header_ok (h : Header) : Prop :=
  in_u 16 (FormatMajor h) /\ in_u 16 (FormatMinor h) /\ in_u 32 (PageSize h) /\
  in_u 32 (PageCount h) /\ in_u 32 (FileChangeCounter h) /\ in_u 32 (VersionValidFor h) /\
  in_u 32 (FreelistRoot h) /\ in_u 32 (FreelistPageCount h) /\ in_u 32 (CatalogRoot h) /\
  in_u 32 (SchemaCookie h) /\ in_u 32 (ColumnarRoot h) /\ in_u 64 (TxnHighWater h) /\
  in_u 64 (FeatureFlags h) /\ in_u 8 (DefaultCodec h) /\ in_u 8 (Header_ChecksumAlgo h) /\
  in_u 8 (TextEncoding h) /\ in_u 8 (EncryptionFlags h) /\ in_u 32 (ApplicationID h) /\
  in_u 32 (UserVersion h) /\ in_u 64 (WALSalt h) /\ bytes_ok (DatabaseUUID h) /\
  length (DatabaseUUID h) = 16%nat.

Lemma length_header_fields h : length (DatabaseUUID h) = 16%nat -> length (concat (header_fields h)) = 124%nat.
Proof.
  intros Hu. unfold header_fields. cbn [concat]. rewrite !length_app, !length_le_bytes, Hu.
  reflexivity.
Qed.

Lemma header_bytes_ok h : header_ok h -> bytes_ok (concat (header_fields h)).
Proof.
  unfold header_ok, in_u. intros H. unfold bytes_ok. apply Forall_concat. unfold header_fields.
  repeat (apply Forall_cons_2); try apply bytes_ok_le; try apply Forall_replicate;
    try apply Forall_nil_2; try apply byte_ok_mod; try (unfold byte_ok; lia).
  tauto.
Qed.

(** The fields read back, one lemma for all of them. *)
Lemma header_field h k f off n rest :
  length (DatabaseUUID h) = 16%nat ->
  header_fields h !! k = Some f -> length (concat (take k (header_fields h))) = off ->
  length f = n -> sub off n (concat (header_fields h) ++ rest) = f.
Proof.
  intros Hu Hk Ho Hn. rewrite sub_app_l; [by apply (sub_concat k)|].
  rewrite <- (take_drop_middle _ _ _ Hk), concat_app, length_app. simpl. rewrite length_app. lia.
Qed.

(** What the decoder makes of an encoded header: the checks of the open
    sequence that do not depend on the checksum, in their order. *)
Definition decode_checked (h : Header) (stored : Z) : res fmtErr Header :=
  if FormatMajor h >? FormatMajorCurrent then Err ErrUnsupportedMajor
  else if negb (ValidPageSize (PageSize h)) then Err ErrInvalidPageSize
  else if negb (Z.ldiff (FeatureFlags h) knownFeatureMask =? 0) then Err ErrUnsupportedFeature
  else Ok (MkHeader (FormatMajor h) (FormatMinor h) (PageSize h) (PageCount h)
             (FileChangeCounter h) (VersionValidFor h) (FreelistRoot h) (FreelistPageCount h)
             (CatalogRoot h) (SchemaCookie h) (ColumnarRoot h) (TxnHighWater h) (FeatureFlags h)
             (DefaultCodec h) (Header_ChecksumAlgo h) (TextEncoding h) (EncryptionFlags h)
             (ApplicationID h) (UserVersion h) (WALSalt h) (DatabaseUUID h) stored).

Lemma header_byte h k x off rest :
  length (DatabaseUUID h) = 16%nat ->
  header_fields h !! k = Some [x] -> length (concat (take k (header_fields h))) = off ->
  nth off (concat (header_fields h) ++ rest) 0 = x.
Proof.
  intros Hu Hk Ho. pose proof (header_field h k [x] off 1 rest Hu Hk Ho eq_refl) as H.
  apply (f_equal (fun l => l !! 0%nat)) in H. unfold sub in H.
  rewrite lookup_take_lt, lookup_drop, Nat.add_0_r in H by lia.
  by rewrite nth_lookup, H.
Qed.

(** Decoding a header block whose trailing field is any stored checksum. *)
Lemma DecodeHeader_block h t rest :
  header_ok h -> length t = 4%nat -> Supported (Header_ChecksumAlgo h) = true ->
  DecodeHeader (concat (header_fields h) ++ t ++ rest) =
  res_bind (Verify (Header_ChecksumAlgo h) (concat (header_fields h)) (le_val t))
    (fun ok => if negb ok then Err ErrHeaderCorrupt else decode_checked h (le_val t)).
Proof.
  intros Hok Ht Hs. pose proof Hok as Hok'. unfold header_ok in Hok'. destruct_and! Hok'.
  match goal with H : length (DatabaseUUID h) = _ |- _ => rename H into Hu end.
  pose proof (length_header_fields h Hu) as Hl.
  unfold DecodeHeader, HeaderSize. rewrite (proj2 (Z.ltb_ge _ _)).
  2:{ unfold blen. rewrite !length_app. lia. }
  rewrite (header_field h 0 Magic) by done. rewrite bool_decide_eq_true_2 by done. cbn [negb].
  rewrite (header_byte h 15 (Header_ChecksumAlgo h)) by done.
  rewrite Hs. cbn [negb].
  assert (E1 : sub 0 124 (concat (header_fields h) ++ t ++ rest) = concat (header_fields h)).
  { rewrite <- Hl. rewrite sub_app_l by done. apply sub_full. }
  assert (E2 : sub 124 4 (concat (header_fields h) ++ t ++ rest) = t).
  { rewrite sub_app_r, Hl by lia. rewrite Nat.sub_diag. rewrite <- Ht.
    rewrite sub_app_l by done. apply sub_full. }
  rewrite E1, E2. destruct (Verify _ _ _) as [[]| |]; cbn [res_bind negb]; try done.
  unfold decode_checked.
  rewrite (header_field h 1 (le_bytes 2 (FormatMajor h))) by done.
  rewrite (header_field h 3 (le_bytes 4 (PageSize h))) by done.
  rewrite (header_field h 13 (le_bytes 8 (FeatureFlags h))) by done.
  rewrite !le_val_le_bytes by done.
  do 3 (case_match; [done|]).
  rewrite (header_field h 2 (le_bytes 2 (FormatMinor h))) by done.
  rewrite (header_field h 4 (le_bytes 4 (PageCount h))) by done.
  rewrite (header_field h 5 (le_bytes 4 (FileChangeCounter h))) by done.
  rewrite (header_field h 6 (le_bytes 4 (VersionValidFor h))) by done.
  rewrite (header_field h 7 (le_bytes 4 (FreelistRoot h))) by done.
  rewrite (header_field h 8 (le_bytes 4 (FreelistPageCount h))) by done.
  rewrite (header_field h 9 (le_bytes 4 (CatalogRoot h))) by done.
  rewrite (header_field h 10 (le_bytes 4 (SchemaCookie h))) by done.
  rewrite (header_field h 11 (le_bytes 4 (ColumnarRoot h))) by done.
  rewrite (header_field h 12 (le_bytes 8 (TxnHighWater h))) by done.
  rewrite (header_byte h 14 (DefaultCodec h)) by done.
  rewrite (header_byte h 16 (TextEncoding h)) by done.
  rewrite (header_byte h 17 (EncryptionFlags h)) by done.
  rewrite (header_field h 18 (le_bytes 4 (ApplicationID h))) by done.
  rewrite (header_field h 19 (le_bytes 4 (UserVersion h))) by done.
  rewrite (header_field h 20 (le_bytes 8 (WALSalt h))) by done.
  rewrite (header_field h 21 (DatabaseUUID h)) by done.
  by rewrite !le_val_le_bytes by done.
Qed.

Lemma Encode_Ok {E} h :
  Supported (Header_ChecksumAlgo h) = true ->
  exists s, Checksum (E:=E) (Header_ChecksumAlgo h) (concat (header_fields h)) = Ok s /\
    Encode (E:=E) h = Ok (concat (header_fields h) ++ le_bytes 4 s).
Proof.
  intros Hs. destruct (Checksum_supported (E:=E) _ (concat (header_fields h)) Hs) as [s Hc].
  exists s. split; [done|]. unfold Encode. rewrite Hs. cbn [negb]. by rewrite Hc.
Qed.

(** The database header round-trips: a header of field-width values encodes
    to 128 bytes, and decoding those bytes, with anything after them, gives the
    same header with the checksum filled in; a header naming a newer major
    version, an impermissible page size or an unknown feature is refused with
    its own error, checked in that order; an unsupported algorithm panics. *)
Theorem header_roundtrip h rest :
  header_ok h ->
  (Supported (Header_ChecksumAlgo h) = false -> Encode (E:=fmtErr) h = Panic) /\
  (Supported (Header_ChecksumAlgo h) = true ->
     exists b s, Encode (E:=fmtErr) h = Ok b /\ length b = 128%nat /\
       DecodeHeader (b ++ rest) = decode_checked h s).
Proof.
  intros Hok. split; intros Hs.
  - unfold Encode. by rewrite Hs.
  - destruct (Encode_Ok (E:=fmtErr) h Hs) as (s & Hc & He). exists (concat (header_fields h) ++ le_bytes 4 s), s.
    assert (Hu : length (DatabaseUUID h) = 16%nat) by (unfold header_ok in Hok; tauto).
    split_and!; [done| |].
    + rewrite length_app, length_header_fields, length_le_bytes by done. done.
    + rewrite <- app_assoc, DecodeHeader_block by done.
      pose proof (Checksum_range _ _ _ (header_bytes_ok h Hok) Hc) as Hr.
      by rewrite le_val_le_bytes, Verify_Checksum by done.
Qed.

Definition demo_header : Header := NewHeader 8192 ChecksumCRC32C 77 (replicate 16 5).

Lemma demo_header_ok : header_ok demo_header.
Proof.
  unfold header_ok, in_u, demo_header, NewHeader, FormatMajorCurrent, FormatMinorCurrent,
    ChecksumCRC32C, NullPage. simpl. split_and!; try lia; try done.
  apply (Forall_replicate byte_ok 16 5). unfold byte_ok; lia.
Qed.

Lemma header_roundtrip_witness :
  header_ok demo_header /\
  exists b s, Encode (E:=fmtErr) demo_header = Ok b /\
    DecodeHeader (b ++ replicate 8 0) = decode_checked demo_header s.
Proof.
  split; [exact demo_header_ok|].
  destruct (header_roundtrip demo_header (replicate 8 0) demo_header_ok) as [_ H].
  destruct (H eq_refl) as (b & s & H1 & _ & H2). exists b, s. split; assumption.
Defined.

Definition with_algo (a : Z) (h : Header) : Header :=
  MkHeader (FormatMajor h) (FormatMinor h) (PageSize h) (PageCount h)
    (FileChangeCounter h) (VersionValidFor h) (FreelistRoot h) (FreelistPageCount h)
    (CatalogRoot h) (SchemaCookie h) (ColumnarRoot h) (TxnHighWater h) (FeatureFlags h)
    (DefaultCodec h) a (TextEncoding h) (EncryptionFlags h)
    (ApplicationID h) (UserVersion h) (WALSalt h) (DatabaseUUID h) (HeaderChecksum h).

Lemma header_fields_insert_73 h y :
  length (DatabaseUUID h) = 16%nat ->
  <[73%nat := y]> (concat (header_fields h)) = concat (header_fields (with_algo y h)).
Proof.
  intros Hu. unfold header_fields. cbn [concat FormatMajor FormatMinor PageSize PageCount
    FileChangeCounter VersionValidFor FreelistRoot FreelistPageCount CatalogRoot SchemaCookie
    ColumnarRoot TxnHighWater FeatureFlags DefaultCodec Header_ChecksumAlgo TextEncoding
    EncryptionFlags ApplicationID UserVersion WALSalt DatabaseUUID with_algo].
  reflexivity.
Qed.

Lemma with_algo_ok h y : header_ok h -> byte_ok y -> header_ok (with_algo y h).
Proof. unfold header_ok, byte_ok, in_u, with_algo. simpl. intros. destruct_and!. split_and!; done || lia. Qed.

(** What the header checksum protects: after any single byte of an encoded
    header is changed, a change in the signature is reported as not a database
    and any other change as a corrupt header, except at byte 73. That byte
    names the checksum algorithm itself: a value that names none is refused,
    but the value 0 turns verification off, and the damaged header is then
    accepted as one without a checksum. *)
Theorem header_corruption_detected h b i x y :
  header_ok h -> Supported (Header_ChecksumAlgo h) = true ->
  Header_ChecksumAlgo h <> ChecksumNone ->
  Encode (E:=fmtErr) h = Ok b -> b !! i = Some x -> byte_ok y -> x <> y ->
  ((i < 16)%nat -> DecodeHeader (<[i := y]> b) = Err ErrNotDocDB) /\
  ((16 <= i)%nat -> i <> 73%nat -> DecodeHeader (<[i := y]> b) = Err ErrHeaderCorrupt) /\
  (i = 73%nat -> Supported y = false -> DecodeHeader (<[i := y]> b) = Err ErrUnsupportedChecksum) /\
  (i = 73%nat -> y = ChecksumNone ->
     DecodeHeader (<[i := y]> b) = decode_checked (with_algo ChecksumNone h) (le_val (sub 124 4 b))).
Proof.
  intros Hok Hs Hne He Hi Hy Hxy.
  destruct (Encode_Ok (E:=fmtErr) h Hs) as (s & Hc & He'). 
  assert (b = concat (header_fields h) ++ le_bytes 4 s) as -> by congruence. clear He'.
  assert (Hu : length (DatabaseUUID h) = 16%nat) by (unfold header_ok in Hok; tauto).
  pose proof (length_header_fields h Hu) as Hl. pose proof (header_bytes_ok h Hok) as Hb.
  assert (Hlen : length (concat (header_fields h) ++ le_bytes 4 s) = 128%nat)
    by (rewrite length_app, Hl; done).
  assert (Hlt : blen (<[i := y]> (concat (header_fields h) ++ le_bytes 4 s)) <? HeaderSize = false).
  { unfold blen. by rewrite length_insert, Hlen. }
  split_and!.
  - intros Hi16. unfold DecodeHeader. rewrite Hlt, bool_decide_eq_false_2; [done|].
    intros E. apply (f_equal (fun l => l !! i)) in E.
    rewrite sub_lookup in E by done. simpl plus in E.
    rewrite list_lookup_insert_eq in E by (rewrite Hlen; lia).
    pose proof (header_field h 0 Magic 0 16 (le_bytes 4 s) Hu eq_refl eq_refl eq_refl) as Hm.
    rewrite <- Hm in E. rewrite sub_lookup in E by done. simpl plus in E. congruence.
  - intros H16 H73.
    assert (Hmagic : sub 0 16 (<[i := y]> (concat (header_fields h) ++ le_bytes 4 s)) = Magic).
    { rewrite <- (header_field h 0 Magic 0 16 (le_bytes 4 s)) by done.
      apply sub_ext. intros j Hj. by rewrite list_lookup_insert_ne by lia. }
    assert (Halgo : nth 73 (<[i := y]> (concat (header_fields h) ++ le_bytes 4 s)) 0 =
                    Header_ChecksumAlgo h).
    { rewrite nth_lookup, list_lookup_insert_ne, <- nth_lookup by done.
      by apply (header_byte h 15). }
    unfold DecodeHeader. rewrite Hlt, Hmagic, Halgo, Hs, bool_decide_eq_true_2 by done.
    cbn [negb]. destruct (decide (i < 124)%nat) as [Hin|Hin].
    + rewrite insert_app_l by lia. rewrite lookup_app_l in Hi by lia.
      assert (E1 : sub 0 124 (<[i := y]> (concat (header_fields h)) ++ le_bytes 4 s) =
        <[i := y]> (concat (header_fields h))).
      { rewrite sub_app_l by (rewrite length_insert; lia).
        rewrite <- Hl, <- (length_insert (concat (header_fields h)) i y). apply sub_full. }
      assert (E2 : sub 124 4 (<[i := y]> (concat (header_fields h)) ++ le_bytes 4 s) = le_bytes 4 s).
      { rewrite sub_app_r by (rewrite length_insert; lia). rewrite length_insert, Hl. done. }
      rewrite E1, E2, le_val_le_bytes by (by eapply Checksum_range).
      by rewrite (Verify_body_changed _ _ i x y s).
    + rewrite insert_app_r_alt by lia. rewrite lookup_app_r in Hi by lia.
      assert (E1 : forall t, sub 0 124 (concat (header_fields h) ++ t) = concat (header_fields h)).
      { intros t. rewrite sub_app_l by lia. rewrite <- Hl. apply sub_full. }
      assert (E2 : forall t, length t = 4%nat -> sub 124 4 (concat (header_fields h) ++ t) = t).
      { intros t Ht. rewrite sub_app_r, Hl by lia. rewrite Nat.sub_diag, <- Ht. apply sub_full. }
      rewrite E1, E2 by by rewrite length_insert.
      by rewrite (Verify_trailer_changed _ _ _ x y s).
  - intros -> Hsy. unfold DecodeHeader. rewrite Hlt.
    rewrite insert_app_l, header_fields_insert_73 by (done || lia).
    rewrite (header_field (with_algo y h) 0 Magic) by done.
    rewrite (header_byte (with_algo y h) 15 y) by done.
    rewrite bool_decide_eq_true_2 by done. cbn [negb]. by rewrite Hsy.
  - intros -> ->. rewrite insert_app_l, header_fields_insert_73 by (done || lia).
    rewrite <- (app_nil_r (le_bytes 4 s)) at 1.
    rewrite DecodeHeader_block by (try done; by apply with_algo_ok).
    cbn [Header_ChecksumAlgo with_algo]. unfold Verify. simpl (ChecksumNone =? ChecksumNone).
    cbn [res_bind negb]. f_equal.
    assert (E2 : sub 124 4 (concat (header_fields h) ++ le_bytes 4 s) = le_bytes 4 s).
    { rewrite sub_app_r, Hl by lia. done. }
    by rewrite E2.
Qed.

Definition demo_header_bytes : bytes :=
  match Encode (E:=fmtErr) demo_header with Ok b => b | _ => [] end.

Lemma header_corruption_detected_witness :
  DecodeHeader (<[20%nat := 1]> demo_header_bytes) = Err ErrHeaderCorrupt.
Proof.
  apply (header_corruption_detected demo_header demo_header_bytes 20 0 1 demo_header_ok);
    [reflexivity|discriminate|vm_compute; reflexivity|vm_compute; reflexivity|
     unfold byte_ok; lia|discriminate|lia|discriminate].
Defined.

(** The accepted damaged header of the demonstration database. *)
Example header_algo_zeroed :
  exists h', DecodeHeader (<[73%nat := 0]> demo_header_bytes) = Ok h' /\
    Header_ChecksumAlgo h' = ChecksumNone.
Proof. eexists. split; vm_compute; reflexivity. Qed.

(** The page count of a database whose last writer recorded it is the header's;
    otherwise it is the file length in whole pages. *)
Lemma PageCountForFileLen_cases {E} h n :
  ValidPageSize (PageSize h) = true -> 0 <= n < PageSize h * 2 ^ 32 ->
  PageCountForFileLen (E:=E) h n =
    Ok (if FileChangeCounter h =? VersionValidFor h then PageCount h else n / PageSize h).
Proof.
  intros Hv Hn. unfold PageCountForFileLen.
  destruct (FileChangeCounter h =? VersionValidFor h); [done|].
  assert (Hp : 0 < PageSize h).
  { unfold ValidPageSize in Hv. rewrite !orb_true_iff, !Z.eqb_eq in Hv. lia. }
  rewrite (proj2 (Z.eqb_neq _ _)) by lia. f_equal. rewrite Z.quot_div_nonneg by lia.
  apply wrap_small. split; [apply Z.div_pos; lia|]. apply Z.div_lt_upper_bound; lia.
Qed.
