(* ===== verification/Slotted.v ===== *)
(** * format/slotted.go: slotted pages

    The operations on a page buffer, in a state monad whose state is the buffer
    (errors and panics keep what was already written), the abstract page they
    implement (a list of live, dead and forwarding slots and a capacity), and
    the refinement between the two. *)

From S2P Require Import Prelude Checksum Page.

(** ** The monad of page operations *)

Definition M (A : Type) : Type := bytes -> res fmtErr A * bytes.

Definition pret {A} (a : A) : M A := fun b => (Ok a, b).
Definition pfail {A} (e : fmtErr) : M A := fun b => (Err e, b).
Definition pbind {A B} (m : M A) (k : A -> M B) : M B := fun b =>
  match m b with
  | (Ok a, b') => k a b'
  | (Err e, b') => (Err e, b')
  | (Panic, b') => (Panic, b')
  end.

Notation "'let!' x := m 'in' k" := (pbind m (fun x => k))
  (at level 200, x name, m at level 100, k at level 200, right associativity) : res_scope.
Notation "'let!' ' p := m 'in' k" := (pbind m (fun x => match x with p => k end))
  (at level 200, p pattern, m at level 100, k at level 200, right associativity) : res_scope.

(** ** Constants *)

Definition slotEntrySize : Z := 4.
Definition cellOffsetDead : Z := 0xFFFF.
Definition cellOffsetForward : Z := 0xFFFE.
Definition maxCellLen : Z := 0xFFFD.
Definition forwardCellLen : Z := 8.

(** ** Access to the buffer *)

Definition body_rd (off n : Z) : M bytes := fun b =>
  if body_ok off n b then (Ok (sub (Z.to_nat (BodyOffset + off)) (Z.to_nat n) b), b) else (Panic, b).

Definition body_wr (off : Z) (s : bytes) : M unit := fun b =>
  if body_ok off (blen s) b then (Ok tt, put (Z.to_nat (BodyOffset + off)) s b) else (Panic, b).

Definition header : M PageHeader := fun b => (DecodePageHeader b, b).

Definition setHeader (h : PageHeader) : M unit := fun b =>
  match EncodeInto h b with
  | Ok b' => (Ok tt, b')
  | Err e => (Err e, b)
  | Panic => (Panic, b)
  end.

Definition bodyLen : M Z := fun b => (Ok (blen b - PageHeaderSize - ChecksumSize), b).

Definition SlotCount : M Z := let! h := header in pret (ph_EntryCount h).

Definition FreeBytes : M Z := let! h := header in pret (ph_FreeEnd h - ph_FreeStart h).

Definition slotAt (i : Z) : M (Z * Z) :=
  let p := i * slotEntrySize in
  let! a := body_rd p 2 in
  let! l := body_rd (p + 2) 2 in
  pret (le_val a, le_val l).

Definition setSlot (i off length : Z) : M unit :=
  let p := i * slotEntrySize in
  let! _ := body_wr p (le_bytes 2 off) in
  body_wr (p + 2) (le_bytes 2 length).

(** The guard of every operation on a slot. *)
Definition bad_slot (i n : Z) : bool := (i <? 0) || (i >=? n).

Definition IsLive (i : Z) : M bool :=
  let! n := SlotCount in
  if bad_slot i n then pret false
  else
    let! '(off, _) := slotAt i in
    pret (negb (off =? cellOffsetDead) && negb (off =? cellOffsetForward)).

Definition IsForward (i : Z) : M bool :=
  let! n := SlotCount in
  if bad_slot i n then pret false
  else let! '(off, _) := slotAt i in pret (off =? cellOffsetForward).

(** ** Space accounting *)

(** The loop of liveTotal: k slots from slot i on. *)
Fixpoint liveTotal_loop (k : nat) (i total : Z) : M Z :=
  match k with
  | O => pret total
  | S k' =>
      let! '(off, length) := slotAt i in
      if off =? cellOffsetDead then liveTotal_loop k' (i + 1) total
      else if off =? cellOffsetForward then liveTotal_loop k' (i + 1) (total + forwardCellLen)
      else liveTotal_loop k' (i + 1) (total + length)
  end.

Definition liveTotal : M Z :=
  let! n := SlotCount in liveTotal_loop (Z.to_nat n) 0 (n * slotEntrySize).

Definition AvailBytes : M Z := let! bl := bodyLen in let! lt := liveTotal in pret (bl - lt).

Definition CanAdd (payloadLen : Z) : M bool :=
  let! a := AvailBytes in pret (a >=? payloadLen + slotEntrySize).

(** ** Compaction *)

Record cell := Cell_ { c_slot : Z; c_forward : bool; c_data : bytes }.

Fixpoint collect (k : nat) (i : Z) : M (list cell) :=
  match k with
  | O => pret []
  | S k' =>
      let! '(off, length) := slotAt i in
      if off =? cellOffsetDead then collect k' (i + 1)
      else if off =? cellOffsetForward then
        let! d := body_rd length forwardCellLen in
        let! cs := collect k' (i + 1) in pret (Cell_ i true d :: cs)
      else
        let! d := body_rd off length in
        let! cs := collect k' (i + 1) in pret (Cell_ i false d :: cs)
  end.

Fixpoint rewrite_cells (cs : list cell) (fin : Z) : M Z :=
  match cs with
  | [] => pret fin
  | c :: cs' =>
      let start := fin - blen (c_data c) in
      let! _ := body_wr start (c_data c) in
      let! _ := if c_forward c then setSlot (c_slot c) cellOffsetForward (u16 start)
                else setSlot (c_slot c) (u16 start) (u16 (blen (c_data c))) in
      rewrite_cells cs' start
  end.

Definition with_FreeEnd (fe : Z) (h : PageHeader) : PageHeader :=
  MkPageHeader (ph_Type h) (ph_Flags h) (ph_Codec h) (ph_EntryCount h) (ph_PageLSN h)
    (ph_CollIDEntry h) (ph_FreeStart h) fe (ph_RightSib h).

Definition Compact : M unit :=
  let! n := SlotCount in
  let! cs := collect (Z.to_nat n) 0 in
  let! bl := bodyLen in
  let! fin := rewrite_cells cs bl in
  let! h := header in
  setHeader (with_FreeEnd (u16 fin) h).

(** ** Cell operations *)

Definition AddCell (payload : bytes) : M Z :=
  if blen payload >? maxCellLen then pfail ErrNoSpace
  else
    let need := blen payload + slotEntrySize in
    let! fb := FreeBytes in
    let! _ :=
      if fb <? need then
        let! bl := bodyLen in
        let! lt := liveTotal in
        if bl - lt <? need then pfail ErrNoSpace else Compact
      else pret tt in
    let! h := header in
    let cellOff := ph_FreeEnd h - blen payload in
    let! _ := body_wr cellOff payload in
    let slot := ph_EntryCount h in
    let! _ := setSlot slot (u16 cellOff) (u16 (blen payload)) in
    let! _ := setHeader (MkPageHeader (ph_Type h) (ph_Flags h) (ph_Codec h)
                           (u32 (ph_EntryCount h + 1)) (ph_PageLSN h) (ph_CollIDEntry h)
                           (u16 (ph_FreeStart h + slotEntrySize)) (u16 cellOff) (ph_RightSib h)) in
    pret slot.

Definition Cell (i : Z) : M bytes :=
  let! n := SlotCount in
  if bad_slot i n then pfail ErrBadSlot
  else
    let! '(off, length) := slotAt i in
    if (off =? cellOffsetDead) || (off =? cellOffsetForward) then pfail ErrSlotDead
    else body_rd off length.

Definition UpdateInPlace (i : Z) (payload : bytes) : M unit :=
  let! n := SlotCount in
  if bad_slot i n then pfail ErrBadSlot
  else
    let! '(off, length) := slotAt i in
    if (off =? cellOffsetDead) || (off =? cellOffsetForward) then pfail ErrSlotDead
    else if negb (length =? blen payload) then pfail ErrNoSpace
    else body_wr off payload.

Definition ReplaceCell (i : Z) (payload : bytes) : M unit :=
  let! n := SlotCount in
  if bad_slot i n then pfail ErrBadSlot
  else
    let! '(off, oldLen) := slotAt i in
    if (off =? cellOffsetDead) || (off =? cellOffsetForward) then pfail ErrSlotDead
    else if blen payload >? maxCellLen then pfail ErrNoSpace
    else if oldLen =? blen payload then body_wr off payload
    else
      let! bl := bodyLen in
      let! lt := liveTotal in
      if bl - lt + oldLen <? blen payload then pfail ErrNoSpace
      else
        let! _ := setSlot i cellOffsetDead 0 in
        let! fb := FreeBytes in
        let! _ := if fb <? blen payload then Compact else pret tt in
        let! h := header in
        let cellOff := ph_FreeEnd h - blen payload in
        let! _ := body_wr cellOff payload in
        let! _ := setSlot i (u16 cellOff) (u16 (blen payload)) in
        setHeader (with_FreeEnd (u16 cellOff) h).

Definition DeleteCell (i : Z) : M unit :=
  let! n := SlotCount in
  if bad_slot i n then pfail ErrBadSlot else setSlot i cellOffsetDead 0.

(** The 8-byte target record of a forwarding tombstone. *)
Definition SetForward (i targetPage targetSlot : Z) : M unit :=
  let! n := SlotCount in
  if bad_slot i n then pfail ErrBadSlot
  else
    let! '(off, length) := slotAt i in
    let reuse := negb (off =? cellOffsetDead) && negb (off =? cellOffsetForward) &&
                 (length >=? forwardCellLen) in
    let cellOff0 := if reuse then off else 0 in
    let! cellOff :=
      if cellOff0 =? 0 then
        let! h := header in
        let! h' :=
          if ph_FreeEnd h - ph_FreeStart h <? forwardCellLen then
            let! bl := bodyLen in
            let! lt := liveTotal in
            if bl - lt <? forwardCellLen then pfail ErrNoSpace
            else let! _ := Compact in header
          else pret h in
        let cellOff := ph_FreeEnd h' - forwardCellLen in
        let! _ := setHeader (with_FreeEnd (u16 cellOff) h') in
        pret cellOff
      else pret cellOff0 in
    let! _ := body_wr cellOff (le_bytes 4 targetPage) in
    let! _ := body_wr (cellOff + 4) (le_bytes 2 targetSlot) in
    let! _ := body_wr (cellOff + 6) (le_bytes 2 0) in
    setSlot i cellOffsetForward (u16 cellOff).

Definition Forward (i : Z) : M (Z * Z * bool) :=
  let! n := SlotCount in
  if bad_slot i n then pret (0, 0, false)
  else
    let! '(off, co) := slotAt i in
    if negb (off =? cellOffsetForward) then pret (0, 0, false)
    else
      let! p := body_rd co 4 in
      let! s := body_rd (co + 4) 2 in
      pret (le_val p, le_val s, true).

(** ** The abstract page

    A page is its slots and a capacity (the body length). *)

Inductive aslot : Type :=
| ALive (payload : bytes)
| ADead
| AFwd (page slot : Z).

Definition a_size (s : aslot) : Z :=
  match s with ALive p => blen p | ADead => 0 | AFwd _ _ => forwardCellLen end.

Fixpoint a_sum (l : list aslot) : Z :=
  match l with [] => 0 | s :: l' => a_size s + a_sum l' end.

Definition a_used (l : list aslot) : Z := blen l * slotEntrySize + a_sum l.
Definition a_avail (cap : Z) (l : list aslot) : Z := cap - a_used l.

Inductive op : Type :=
| OAdd (payload : bytes)
| OCell (i : Z)
| OUpdate (i : Z) (payload : bytes)
| OReplace (i : Z) (payload : bytes)
| ODelete (i : Z)
| OSetForward (i page slot : Z)
| OForward (i : Z)
| OIsLive (i : Z)
| OIsForward (i : Z)
| OAvail
| OCanAdd (n : Z)
| OCompact.

Inductive out : Type :=
| RUnit | RSlot (i : Z) | RBytes (p : bytes) | RTarget (p s : Z) (ok : bool) | RBool (v : bool)
| RInt (n : Z).

(** The slot an index names, when it is in range. *)
Definition a_get (i : Z) (l : list aslot) : option aslot :=
  if bad_slot i (blen l) then None else l !! Z.to_nat i.

Definition a_live (i : Z) (l : list aslot) : fmtErr + bytes :=
  match a_get i l with
  | None => inl ErrBadSlot
  | Some (ALive p) => inr p
  | Some _ => inl ErrSlotDead
  end.

Definition a_set (i : Z) (s : aslot) (l : list aslot) : list aslot := <[Z.to_nat i := s]> l.

(** What each operation returns and makes of the slots. *)
Definition a_run (cap : Z) (o : op) (l : list aslot) : res fmtErr out * list aslot :=
  match o with
  | OAdd p =>
      if (blen p >? maxCellLen) || (a_avail cap l <? blen p + slotEntrySize)
      then (Err ErrNoSpace, l) else (Ok (RSlot (blen l)), l ++ [ALive p])
  | OCell i =>
      match a_live i l with inl e => (Err e, l) | inr p => (Ok (RBytes p), l) end
  | OUpdate i p =>
      match a_live i l with
      | inl e => (Err e, l)
      | inr q => if blen q =? blen p then (Ok RUnit, a_set i (ALive p) l) else (Err ErrNoSpace, l)
      end
  | OReplace i p =>
      match a_live i l with
      | inl e => (Err e, l)
      | inr q => if a_avail cap l + blen q <? blen p then (Err ErrNoSpace, l)
                 else (Ok RUnit, a_set i (ALive p) l)
      end
  | ODelete i =>
      match a_get i l with
      | None => (Err ErrBadSlot, l)
      | Some _ => (Ok RUnit, a_set i ADead l)
      end
  | OSetForward i pg sl =>
      match a_get i l with
      | None => (Err ErrBadSlot, l)
      | Some s =>
          if match s with ALive q => forwardCellLen <=? blen q | _ => false end ||
             (forwardCellLen <=? a_avail cap l)
          then (Ok RUnit, a_set i (AFwd pg sl) l) else (Err ErrNoSpace, l)
      end
  | OForward i =>
      match a_get i l with
      | Some (AFwd pg sl) => (Ok (RTarget pg sl true), l)
      | _ => (Ok (RTarget 0 0 false), l)
      end
  | OIsLive i =>
      (Ok (RBool match a_get i l with Some (ALive _) => true | _ => false end), l)
  | OIsForward i =>
      (Ok (RBool match a_get i l with Some (AFwd _ _) => true | _ => false end), l)
  | OAvail => (Ok (RInt (a_avail cap l)), l)
  | OCanAdd n => (Ok (RBool (n + slotEntrySize <=? a_avail cap l)), l)
  | OCompact => (Ok RUnit, l)
  end.

Definition run (o : op) : M out :=
  match o with
  | OAdd p => let! i := AddCell p in pret (RSlot i)
  | OCell i => let! p := Cell i in pret (RBytes p)
  | OUpdate i p => let! _ := UpdateInPlace i p in pret RUnit
  | OReplace i p => let! _ := ReplaceCell i p in pret RUnit
  | ODelete i => let! _ := DeleteCell i in pret RUnit
  | OSetForward i pg sl => let! _ := SetForward i pg sl in pret RUnit
  | OForward i => let! '(p, s, ok) := Forward i in pret (RTarget p s ok)
  | OIsLive i => let! v := IsLive i in pret (RBool v)
  | OIsForward i => let! v := IsForward i in pret (RBool v)
  | OAvail => let! n := AvailBytes in pret (RInt n)
  | OCanAdd n => let! v := CanAdd n in pret (RBool v)
  | OCompact => let! _ := Compact in pret RUnit
  end.

(** The arguments a caller can pass: byte payloads, a u32 page, a u16 slot. *)
Definition op_ok (o : op) : Prop :=
  match o with
  | OAdd p | OUpdate _ p | OReplace _ p => bytes_ok p
  | OSetForward _ pg sl => in_u 32 pg /\ in_u 16 sl
  | _ => True
  end.

(** A page holds a list of abstract slots. *)

Definition slot (b : bytes) (i : Z) : Z * Z :=
  (le_val (csub (4 * i) 2 b), le_val (csub (4 * i + 2) 2 b)).

Definition ext_of (p : Z * Z) : option (Z * Z) :=
  if p.1 =? cellOffsetDead then None
  else if p.1 =? cellOffsetForward then Some (p.2, forwardCellLen)
  else Some p.

Definition view_of (p : Z * Z) (b : bytes) : aslot :=
  if p.1 =? cellOffsetDead then ADead
  else if p.1 =? cellOffsetForward then
    AFwd (le_val (csub p.2 4 b)) (le_val (csub (p.2 + 4) 2 b))
  else ALive (csub p.1 p.2 b).

Definition view (b : bytes) (i : Z) : aslot := view_of (slot b i) b.
Definition count (b : bytes) : Z := ph_EntryCount (hdr b).
Definition fend (b : bytes) : Z := ph_FreeEnd (hdr b).

Definition abs (b : bytes) : list aslot :=
  map (fun i => view b (Z.of_nat i)) (seq 0 (Z.to_nat (count b))).

Definition disjoint_ext (e e' : Z * Z) : Prop := e.1 + e.2 <= e'.1 \/ e'.1 + e'.2 <= e.1.

(** The well-formed pages: the slot directory ends at FreeStart, cells lie
    between FreeEnd and the end of the body, do not overlap, and fit. *)
Record swf (b : bytes) : Prop := {
  w_len : 36 <= blen b <= 65536;
  w_bytes : bytes_ok b;
  w_start : ph_FreeStart (hdr b) = 4 * count b;
  w_end : 4 * count b <= fend b <= bl b;
  w_range : forall i e, 0 <= i < count b -> ext_of (slot b i) = Some e ->
    fend b <= e.1 /\ 0 <= e.2 /\ e.1 + e.2 <= bl b;
  w_disj : forall i j e e', 0 <= i < count b -> 0 <= j < count b -> i <> j ->
    ext_of (slot b i) = Some e -> ext_of (slot b j) = Some e' -> disjoint_ext e e';
  w_used : a_sum (abs b) <= bl b - fend b
}.

Arguments slot : simpl never.
Arguments view : simpl never.
Arguments abs : simpl never.

(** ** Lemmas: the monad *)

Lemma pbind_Ok {A B} (m : M A) (k : A -> M B) b b' a :
  m b = (Ok a, b') -> pbind m k b = k a b'.
Proof. unfold pbind. by intros ->. Qed.

Lemma pbind_Err {A B} (m : M A) (k : A -> M B) b b' e :
  m b = (Err e, b') -> pbind m k b = (Err e, b').
Proof. unfold pbind. by intros ->. Qed.

Lemma pbind_pret {A B} (a : A) (k : A -> M B) b : pbind (pret a) k b = k a b.
Proof. done. Qed.

(** ** Lemmas: reads and writes of the buffer *)

Section buffer.
Implicit Types b s : bytes.

Lemma body_rd_Ok off n b :
  36 <= blen b -> 0 <= off -> 0 <= n -> off + n <= bl b -> body_rd off n b = (Ok (csub off n b), b).
Proof. intros. unfold body_rd. by rewrite body_ok_true. Qed.

Lemma body_wr_Ok off s b :
  36 <= blen b -> 0 <= off -> off + blen s <= bl b -> body_wr off s b = (Ok tt, cput off s b).
Proof.
  intros. unfold body_wr. rewrite body_ok_true; [done|done|done| |done]. unfold blen; lia.
Qed.

Lemma header_hdr b : 32 <= blen b -> header b = (Ok (hdr b), b).
Proof.
  intros H. unfold header, hdr, DecodePageHeader. rewrite rd_Ok by (try lia; done). done.
Qed.

Lemma setHeader_spec h b :
  36 <= blen b -> page_header_ok h -> bytes_ok b ->
  exists b', setHeader h b = (Ok tt, b') /\ blen b' = blen b /\ bytes_ok b' /\ hdr b' = h /\
    (forall x m, 0 <= x -> csub x m b' = csub x m b).
Proof.
  intros Hb Hh Hby. destruct (EncodeInto_spec (E:=fmtErr) h b Hb Hh Hby) as (b' & R & H).
  exists b'. unfold setHeader. by rewrite R.
Qed.
End buffer.

(** ** Lemmas: slots *)

Lemma slotAt_spec i b :
  36 <= blen b -> 0 <= i -> 4 * i + 4 <= bl b -> slotAt i b = (Ok (slot b i), b).
Proof.
  intros Hb Hi Hl. unfold slotAt, slotEntrySize.
  erewrite pbind_Ok by (apply body_rd_Ok; lia). erewrite pbind_Ok by (apply body_rd_Ok; lia).
  unfold slot, pret. by replace (i * 4) with (4 * i) by lia.
Qed.

(** What setSlot changes: the two fields of its slot and nothing else. *)
Lemma setSlot_spec i off len b :
  36 <= blen b -> bytes_ok b -> 0 <= i -> 4 * i + 4 <= bl b -> in_u 16 off -> in_u 16 len ->
  exists b', setSlot i off len b = (Ok tt, b') /\ blen b' = blen b /\ bytes_ok b' /\
    hdr b' = hdr b /\ slot b' i = (off, len) /\
    (forall j, 0 <= j -> j <> i -> slot b' j = slot b j) /\
    (forall x m, 4 * i + 4 <= x -> 0 <= m -> csub x m b' = csub x m b).
Proof.
  intros Hb Hby Hi Hl Ho Hln. unfold setSlot, slotEntrySize.
  assert (L2 : forall v, blen (le_bytes 2 v) = 2) by (intros; unfold blen; by rewrite length_le_bytes).
  erewrite pbind_Ok by (apply body_wr_Ok; rewrite ?L2; lia).
  set (b1 := cput (i * 4) (le_bytes 2 off) b).
  assert (E1 : blen b1 = blen b) by (apply blen_cput; rewrite ?L2; lia).
  assert (Ebl : bl b1 = bl b) by (unfold bl; lia).
  rewrite body_wr_Ok by (rewrite ?L2; lia). eexists. split; [done|].
  assert (Hs : forall x m, 0 <= x -> 0 <= m -> x + m <= 4 * i \/ 4 * i + 4 <= x ->
    csub x m (cput (i * 4 + 2) (le_bytes 2 len) b1) = csub x m b).
  { intros x m Hx Hm Hd. rewrite csub_cput_ne by (rewrite ?L2; lia).
    apply csub_cput_ne; rewrite ?L2; lia. }
  split_and!.
  - rewrite blen_cput by (rewrite ?L2; lia). done.
  - unfold b1. auto using bytes_ok_cput, bytes_ok_le.
  - rewrite hdr_cput by (rewrite ?L2; lia). apply hdr_cput; rewrite ?L2; lia.
  - unfold slot. f_equal.
    + rewrite csub_cput_ne by (rewrite ?L2; lia). unfold b1.
      replace (4 * i) with (i * 4) by lia.
      rewrite (csub_cput_same' (i * 4) 2 (le_bytes 2 off)) by (rewrite ?L2; lia).
      by apply le_val_le_bytes.
    + replace (4 * i + 2) with (i * 4 + 2) by lia.
      rewrite (csub_cput_same' (i * 4 + 2) 2 (le_bytes 2 len)) by (rewrite ?L2; lia).
      by apply le_val_le_bytes.
  - intros j Hj Hne. unfold slot. by rewrite !Hs by lia.
  - intros x m Hx Hm. apply Hs; lia.
Qed.

Lemma slot_range b i : bytes_ok b -> 0 <= i -> 4 * i + 4 <= bl b -> in_u 16 (slot b i).1 /\ in_u 16 (slot b i).2.
Proof.
  intros Hb Hi Hl. unfold slot; simpl.
  assert (H : forall x, 0 <= x -> x + 2 <= bl b -> in_u 16 (le_val (csub x 2 b))).
  { intros x Hx Hl'. pose proof (le_val_bound (csub x 2 b) (bytes_ok_csub _ _ _ Hb)) as Hv.
    by rewrite blen_csub in Hv by lia. }
  split; apply H; lia.
Qed.

(** The view of a slot depends on its entry and on the bytes of its extent. *)
Lemma view_of_frame p b b' :
  (forall e, ext_of p = Some e -> 0 <= e.1 /\ 0 <= e.2 /\
     forall x m, e.1 <= x -> 0 <= m -> x + m <= e.1 + e.2 -> csub x m b' = csub x m b) ->
  view_of p b' = view_of p b.
Proof.
  intros H. unfold view_of, ext_of in *. destruct (p.1 =? cellOffsetDead); [done|].
  destruct (p.1 =? cellOffsetForward).
  - destruct (H (p.2, forwardCellLen) eq_refl) as (H1 & H2 & H3). simpl in *.
    unfold forwardCellLen in *. by rewrite !H3 by lia.
  - destruct (H p eq_refl) as (H1 & H2 & H3). f_equal. apply H3; lia.
Qed.

Lemma size_ext p b :
  0 <= p.2 -> (forall e, ext_of p = Some e -> 0 <= e.1 /\ e.1 + e.2 <= bl b) ->
  a_size (view_of p b) = match ext_of p with Some e => e.2 | None => 0 end.
Proof.
  intros Hp H. unfold view_of, ext_of in *. destruct (p.1 =? cellOffsetDead); [done|].
  destruct (p.1 =? cellOffsetForward); [done|]. simpl. specialize (H p eq_refl).
  apply blen_csub; lia.
Qed.

Lemma length_abs b : 0 <= count b -> blen (abs b) = count b.
Proof. intros. unfold blen, abs. rewrite length_map, length_seq. lia. Qed.

Lemma abs_lookup b i : 0 <= i < count b -> abs b !! Z.to_nat i = Some (view b i).
Proof.
  intros Hi. unfold abs. rewrite list_lookup_fmap, lookup_seq_lt by lia. simpl.
  f_equal. f_equal. lia.
Qed.

Lemma abs_ext b l :
  0 <= count b -> blen l = count b ->
  (forall i, 0 <= i < count b -> l !! Z.to_nat i = Some (view b i)) -> abs b = l.
Proof.
  intros Hc Hl H. apply list_eq. intros k. destruct (decide (k < Z.to_nat (count b))%nat).
  - replace k with (Z.to_nat (Z.of_nat k)) by lia. rewrite abs_lookup, H by lia. done.
  - rewrite !lookup_ge_None_2; [done| |].
    + unfold blen in Hl. lia.
    + pose proof (length_abs b Hc) as Hb. unfold blen in Hb. lia.
Qed.

Lemma a_sum_app l l' : a_sum (l ++ l') = a_sum l + a_sum l'.
Proof. induction l; simpl; lia. Qed.

Lemma a_sum_insert l k s s' :
  l !! k = Some s -> a_sum (<[k := s']> l) = a_sum l - a_size s + a_size s'.
Proof.
  revert k. induction l as [|x l IH]; intros [|k] H; try done.
  - injection H as ->. simpl. lia.
  - simpl in *. rewrite IH by done. lia.
Qed.

Lemma a_size_nonneg s : 0 <= a_size s.
Proof. destruct s; simpl; unfold forwardCellLen, blen; lia. Qed.

Lemma a_sum_nonneg l : 0 <= a_sum l.
Proof. induction l as [|s l IH]; simpl; [lia|]. pose proof (a_size_nonneg s). lia. Qed.

(** ** Lemmas: well-formed pages *)

Section wf.
Context (b : bytes) (Hw : swf b).

Lemma wf_count : 0 <= count b.
Proof. destruct (hdr_ok b (w_bytes b Hw)) as (_ & _ & _ & H & _). unfold in_u in H. apply H. Qed.

Lemma wf_slot_fits i : 0 <= i < count b -> 4 * i + 4 <= bl b.
Proof. pose proof (w_end b Hw). lia. Qed.

Lemma wf_bl : 0 <= bl b <= 65500.
Proof. pose proof (w_len b Hw). unfold bl. lia. Qed.

Lemma SlotCount_spec : SlotCount b = (Ok (count b), b).
Proof.
  unfold SlotCount. erewrite pbind_Ok; [|apply header_hdr; pose proof (w_len b Hw); lia]. done.
Qed.

Lemma FreeBytes_spec : FreeBytes b = (Ok (fend b - 4 * count b), b).
Proof.
  unfold FreeBytes. erewrite pbind_Ok; [|apply header_hdr; pose proof (w_len b Hw); lia].
  unfold pret. rewrite (w_start b Hw). done.
Qed.

Lemma slotAt_wf i : 0 <= i < count b -> slotAt i b = (Ok (slot b i), b).
Proof.
  intros Hi. pose proof (w_len b Hw). pose proof (wf_slot_fits i Hi). apply slotAt_spec; lia.
Qed.

Lemma slot_range_wf i : 0 <= i < count b -> in_u 16 (slot b i).1 /\ in_u 16 (slot b i).2.
Proof. intros Hi. pose proof (wf_slot_fits i Hi). apply slot_range; [apply Hw|lia|lia]. Qed.

Lemma a_size_view i :
  0 <= i < count b ->
  a_size (view b i) = match ext_of (slot b i) with Some e => e.2 | None => 0 end.
Proof.
  intros Hi. apply size_ext.
  - destruct (slot_range_wf i Hi) as [_ H]. unfold in_u in H. lia.
  - intros e He. destruct (w_range b Hw i e Hi He) as (? & ? & ?). pose proof (w_end b Hw).
    pose proof wf_count. lia.
Qed.

Lemma a_get_wf i :
  a_get i (abs b) = if bad_slot i (count b) then None else Some (view b i).
Proof.
  unfold a_get. rewrite length_abs by apply wf_count. destruct (bad_slot i (count b)) eqn:E; [done|].
  apply abs_lookup. unfold bad_slot in E. rewrite orb_false_iff, Z.ltb_ge, Z.geb_leb, Z.leb_gt in E. lia.
Qed.

Lemma bad_slot_false i n : bad_slot i n = false <-> 0 <= i < n.
Proof. unfold bad_slot. rewrite orb_false_iff, Z.ltb_ge, Z.geb_leb, Z.leb_gt. lia. Qed.

Lemma liveTotal_loop_spec k i total :
  0 <= i -> i + Z.of_nat k <= count b ->
  liveTotal_loop k i total b =
    (Ok (total + a_sum (map (fun j => view b (Z.of_nat j)) (seq (Z.to_nat i) k))), b).
Proof.
  revert i total. induction k as [|k IH]; intros i total Hi Hk; cbn [liveTotal_loop].
  { unfold pret. simpl. do 2 f_equal. lia. }
  erewrite pbind_Ok by (apply slotAt_wf; lia).
  destruct (slot b i) as [off len] eqn:Es. cbn [seq map a_sum].
  replace (Z.of_nat (Z.to_nat i)) with i by lia.
  rewrite a_size_view by lia. rewrite Es. unfold ext_of; cbn [fst snd].
  replace (S (Z.to_nat i)) with (Z.to_nat (i + 1)) by lia.
  destruct (off =? cellOffsetDead); [rewrite IH by lia; do 2 f_equal; lia|].
  destruct (off =? cellOffsetForward); rewrite IH by lia; do 2 f_equal; simpl; lia.
Qed.

Lemma liveTotal_spec : liveTotal b = (Ok (a_used (abs b)), b).
Proof.
  unfold liveTotal. erewrite pbind_Ok by apply SlotCount_spec.
  pose proof wf_count. rewrite liveTotal_loop_spec by lia. unfold a_used, abs.
  rewrite <- (length_abs b) at 1 by lia. do 2 f_equal.
Qed.

Lemma bodyLen_spec : bodyLen b = (Ok (bl b), b).
Proof. unfold bodyLen, bl, PageHeaderSize, ChecksumSize. do 2 f_equal. lia. Qed.

Lemma AvailBytes_spec : AvailBytes b = (Ok (a_avail (bl b) (abs b)), b).
Proof.
  unfold AvailBytes. erewrite pbind_Ok by apply bodyLen_spec.
  erewrite pbind_Ok by apply liveTotal_spec. done.
Qed.

(** The contiguous gap is at most what a compaction would free. *)
Lemma gap_le_avail : fend b - 4 * count b <= a_avail (bl b) (abs b).
Proof.
  unfold a_avail, a_used. rewrite length_abs by apply wf_count. unfold slotEntrySize.
  pose proof (w_used b Hw). lia.
Qed.
End wf.

(** ** Lemmas: compaction *)

Definition cell_of (b : bytes) (i : Z) : option cell :=
  let '(off, len) := slot b i in
  if off =? cellOffsetDead then None
  else if off =? cellOffsetForward then Some (Cell_ i true (csub len forwardCellLen b))
  else Some (Cell_ i false (csub off len b)).

Definition cview (c : cell) : aslot :=
  if c_forward c then AFwd (le_val (sub 0 4 (c_data c))) (le_val (sub 4 2 (c_data c)))
  else ALive (c_data c).

Definition csize (cs : list cell) : Z := foldr (fun c n => blen (c_data c) + n) 0 cs.

Definition placed (b : bytes) (c : cell) (start : Z) : Prop :=
  slot b (c_slot c) = (if c_forward c then (cellOffsetForward, start)
                       else (start, blen (c_data c))) /\
  csub start (blen (c_data c)) b = c_data c.

Definition cell_ok (n : Z) (c : cell) : Prop :=
  0 <= c_slot c < n /\ bytes_ok (c_data c) /\ (c_forward c = true -> blen (c_data c) = forwardCellLen).

Lemma csub_part b x n o m :
  0 <= x -> 0 <= o -> 0 <= m -> o + m <= n ->
  csub (x + o) m b = sub (Z.to_nat o) (Z.to_nat m) (csub x n b).
Proof. intros. unfold csub. rewrite sub_sub by lia. f_equal. lia. Qed.

Lemma placed_ext b c start :
  placed b c start -> start <= 65500 -> (c_forward c = true -> blen (c_data c) = forwardCellLen) ->
  ext_of (slot b (c_slot c)) = Some (start, blen (c_data c)).
Proof.
  intros [-> _] Hs Hf. unfold ext_of. destruct (c_forward c); cbn [fst snd].
  - rewrite Hf by done. done.
  - unfold cellOffsetDead, cellOffsetForward. rewrite !(proj2 (Z.eqb_neq _ _)) by lia. done.
Qed.

Lemma placed_view b c start :
  placed b c start -> 0 <= start <= 65500 ->
  (c_forward c = true -> blen (c_data c) = forwardCellLen) ->
  view b (c_slot c) = cview c.
Proof.
  intros [Es Ed] Hs Hf. unfold view, cview. rewrite Es. unfold view_of.
  destruct (c_forward c) eqn:E; cbn [fst snd].
  - rewrite Hf in Ed by done. unfold forwardCellLen in Ed. simpl. rewrite <- Ed.
    rewrite (csub_part b start 8 4 2) by lia.
    pose proof (csub_part b start 8 0 4 ltac:(lia) ltac:(lia) ltac:(lia) ltac:(lia)) as H0.
    rewrite Z.add_0_r in H0. by rewrite H0.
  - unfold cellOffsetDead, cellOffsetForward. rewrite !(proj2 (Z.eqb_neq _ _)) by lia. by rewrite Ed.
Qed.

Lemma placed_frame b b' c start :
  placed b c start -> slot b' (c_slot c) = slot b (c_slot c) ->
  csub start (blen (c_data c)) b' = csub start (blen (c_data c)) b -> placed b' c start.
Proof. intros [E1 E2] E3 E4. split; congruence. Qed.

Lemma csize_nonneg cs : 0 <= csize cs.
Proof. induction cs; simpl; [lia|]. unfold blen. lia. Qed.

(** One step of the rewrite loop places its cell. *)
Lemma place_cell c start b n :
  36 <= blen b <= 65536 -> bytes_ok b -> cell_ok n c -> 4 * n <= start ->
  start + blen (c_data c) <= bl b ->
  exists b',
    (let! _ := body_wr start (c_data c) in
     if c_forward c then setSlot (c_slot c) cellOffsetForward (u16 start)
     else setSlot (c_slot c) (u16 start) (u16 (blen (c_data c)))) b = (Ok tt, b') /\
    blen b' = blen b /\ bytes_ok b' /\ hdr b' = hdr b /\ placed b' c start /\
    (forall j, 0 <= j < n -> j <> c_slot c -> slot b' j = slot b j) /\
    (forall x m, 4 * n <= x -> 0 <= m -> x + m <= start \/ start + blen (c_data c) <= x ->
       csub x m b' = csub x m b).
Proof.
  intros Hl Hb (Hn & Hd & Hf) Hs He.
  assert (Hz : 0 <= blen (c_data c)) by (unfold blen; lia).
  assert (Hbl : bl b <= 65500) by (unfold bl; lia).
  erewrite pbind_Ok by (apply body_wr_Ok; lia).
  set (b1 := cput start (c_data c) b).
  assert (E1 : blen b1 = blen b) by (apply blen_cput; lia).
  assert (H1 : bytes_ok b1) by (by apply bytes_ok_cput).
  assert (Hw : forall v, 0 <= v <= 65500 -> u16 v = v) by (intros; apply wrap_small; unfold in_u; lia).
  assert (Hslot : forall j, 0 <= j < n -> slot b1 j = slot b j).
  { intros j Hj. unfold slot, b1. by rewrite !csub_cput_ne by lia. }
  destruct (setSlot_spec (c_slot c) (if c_forward c then cellOffsetForward else start)
    (if c_forward c then start else blen (c_data c)) b1)
    as (b' & R & L & B & H & S1 & S2 & C); try done; try (unfold bl in *; lia).
  { unfold in_u, cellOffsetForward. destruct (c_forward c); lia. }
  { unfold in_u. destruct (c_forward c); lia. }
  exists b'. split_and!.
  - rewrite !Hw by lia. destruct (c_forward c); exact R.
  - lia.
  - done.
  - rewrite H. apply hdr_cput; lia.
  - split; [rewrite S1; by destruct (c_forward c)|]. rewrite C by lia. apply csub_cput_same; lia.
  - intros j Hj Hne. rewrite S2 by lia. by apply Hslot.
  - intros x m Hx Hm Hxm. rewrite C by lia. apply csub_cput_ne; lia.
Qed.

Lemma rewrite_cells_spec cs n : forall fin b,
  36 <= blen b <= 65536 -> bytes_ok b -> 0 <= n -> 4 * n <= fin - csize cs -> fin <= bl b ->
  NoDup (map c_slot cs) -> Forall (cell_ok n) cs ->
  exists b', rewrite_cells cs fin b = (Ok (fin - csize cs), b') /\
    blen b' = blen b /\ bytes_ok b' /\ hdr b' = hdr b /\
    (forall j, 0 <= j < n -> j ∉ map c_slot cs -> slot b' j = slot b j) /\
    (forall x m, fin <= x -> 0 <= m -> csub x m b' = csub x m b) /\
    (forall c, c ∈ cs -> exists start, fin - csize cs <= start /\
       start + blen (c_data c) <= fin /\ placed b' c start) /\
    (forall c c' e e', c ∈ cs -> c' ∈ cs -> c_slot c <> c_slot c' ->
       ext_of (slot b' (c_slot c)) = Some e -> ext_of (slot b' (c_slot c')) = Some e' ->
       disjoint_ext e e').
Proof.
  induction cs as [|c cs IH]; intros fin b Hl Hb Hn Hs Hf Hnd Hok.
  { exists b. cbn [rewrite_cells csize foldr]. unfold pret. rewrite Z.sub_0_r.
    split_and!; try done; intros; exfalso; eapply not_elem_of_nil; eauto. }
  cbn [map] in Hnd. apply NoDup_cons in Hnd as [Hni Hnd]. apply Forall_cons in Hok as [Hc Hok].
  cbn [csize foldr] in *. change (foldr _ 0 cs) with (csize cs) in *.
  pose proof (csize_nonneg cs). assert (0 <= blen (c_data c)) by (unfold blen; lia).
  destruct (place_cell c (fin - blen (c_data c)) b n) as (b1 & R & L1 & B1 & H1 & P1 & S1 & C1);
    try done; try lia.
  destruct (IH (fin - blen (c_data c)) b1) as (b' & R' & L' & B' & H' & S' & C' & P' & D');
    try done; try (unfold bl in *; lia).
  assert (Hbl : bl b <= 65500) by (unfold bl; lia).
  assert (Hcc : 0 <= c_slot c < n) by apply Hc.
  assert (Pc : placed b' c (fin - blen (c_data c))).
  { apply (placed_frame b1); [done|by apply S'|apply C'; lia]. }
  exists b'. split_and!.
  - cbn [rewrite_cells]. unfold pbind in R |- *.
    destruct (body_wr _ _ b) as [[?| |] ?]; try done. rewrite R. rewrite R'. do 2 f_equal. lia.
  - lia.
  - done.
  - congruence.
  - intros j Hj Hnj. cbn [map] in Hnj. apply not_elem_of_cons in Hnj as [? ?].
    rewrite S' by done. apply S1; done.
  - intros x m Hx Hm. rewrite C' by lia. apply C1; lia.
  - intros c0 Hc0. apply elem_of_cons in Hc0 as [->|Hc0].
    + exists (fin - blen (c_data c)). split_and!; [lia|lia|done].
    + destruct (P' c0 Hc0) as (st & ? & ? & ?). exists st. split_and!; [lia|lia|done].
  - assert (Hd : forall c0 e, c0 ∈ cs -> ext_of (slot b' (c_slot c0)) = Some e ->
      e.1 + e.2 <= fin - blen (c_data c)).
    { intros c0 e Hc0 He. destruct (P' c0 Hc0) as (st & ? & ? & Hp).
      rewrite Forall_forall in Hok. destruct (Hok c0 Hc0) as (? & ? & Hfw).
      assert (0 <= blen (c_data c0)) by (unfold blen; lia).
      rewrite (placed_ext b' c0 st) in He by (done || lia). injection He as <-. simpl. lia. }
    pose proof (placed_ext b' c _ Pc ltac:(lia) (proj2 (proj2 Hc))) as Ec.
    intros c0 c1 e e' I0 I1 Hne E0 E1. unfold disjoint_ext.
    apply elem_of_cons in I0 as [->|I0]; apply elem_of_cons in I1 as [->|I1].
    + done.
    + rewrite Ec in E0. injection E0 as <-. pose proof (Hd c1 e' I1 E1). simpl. lia.
    + rewrite Ec in E1. injection E1 as <-. pose proof (Hd c0 e I0 E0). simpl. lia.
    + by eapply (D' c0 c1).
Qed.

Definition cells (b : bytes) (i : Z) (k : nat) : list cell :=
  omap (fun j => cell_of b (Z.of_nat j)) (seq (Z.to_nat i) k).

Lemma cells_S b i k :
  0 <= i -> cells b i (S k) = match cell_of b i with
                              | Some c => c :: cells b (i + 1) k
                              | None => cells b (i + 1) k
                              end.
Proof.
  intros Hi. unfold cells. cbn [seq]. simpl omap.
  replace (S (Z.to_nat i)) with (Z.to_nat (i + 1)) by lia.
  by replace (Z.of_nat (Z.to_nat i)) with i by lia.
Qed.

Lemma cell_of_slot b i c : cell_of b i = Some c -> c_slot c = i.
Proof. unfold cell_of. destruct (slot b i). repeat case_match; intros [= <-]; done. Qed.

Lemma elem_of_cells b i k c :
  0 <= i -> c ∈ cells b i k <-> exists j, i <= j < i + Z.of_nat k /\ cell_of b j = Some c.
Proof.
  intros Hi. unfold cells. rewrite list_elem_of_omap. split.
  - intros (j & Hj & E). apply elem_of_seq in Hj. exists (Z.of_nat j). split; [lia|done].
  - intros (j & Hj & E). exists (Z.to_nat j). split; [apply elem_of_seq; lia|].
    by rewrite Z2Nat.id by lia.
Qed.

Lemma NoDup_cells b i k : 0 <= i -> NoDup (map c_slot (cells b i k)).
Proof.
  revert i. induction k as [|k IH]; intros i Hi; [constructor|]. rewrite cells_S by done.
  destruct (cell_of b i) as [c|] eqn:E; [|apply IH; lia]. cbn [map]. constructor; [|apply IH; lia].
  rewrite (cell_of_slot b i c E). intros Hin.
  apply list_elem_of_fmap in Hin as (c' & E' & Hc'). apply elem_of_cells in Hc' as (j & Hj & Ej); [|lia].
  apply cell_of_slot in Ej. lia.
Qed.

Section compact.
Context (b : bytes) (Hw : swf b).

Lemma cell_of_wf i c :
  0 <= i < count b -> cell_of b i = Some c ->
  cell_ok (count b) c /\ cview c = view b i /\ blen (c_data c) = a_size (view b i).
Proof.
  intros Hi Hc. rewrite (a_size_view b Hw i Hi).
  pose proof (w_end b Hw). pose proof (wf_count b Hw).
  assert (Hslot : c_slot c = i) by by eapply cell_of_slot.
  pose proof (w_range b Hw i) as Hr. unfold cell_of, view, view_of, ext_of in *.
  destruct (slot b i) as [off len]. cbn [fst snd] in *.
  destruct (off =? cellOffsetDead); [done|].
  destruct (off =? cellOffsetForward); injection Hc as <-; cbn [c_slot] in Hslot.
  - destruct (Hr _ Hi eq_refl) as (H1 & H2 & H3). cbn [fst snd] in *. unfold forwardCellLen in *.
    assert (L : blen (csub len 8 b) = 8) by (apply blen_csub; lia).
    split_and!.
    + split; [done|]. split; [apply bytes_ok_csub, Hw|]. intros _. exact L.
    + unfold cview. cbn [c_forward c_data].
      rewrite (csub_part b len 8 4 2) by lia.
      pose proof (csub_part b len 8 0 4 ltac:(lia) ltac:(lia) ltac:(lia) ltac:(lia)) as H4.
      rewrite Z.add_0_r in H4. by rewrite H4.
    + exact L.
  - destruct (Hr _ Hi eq_refl) as (H1 & H2 & H3). cbn [fst snd] in *. split_and!.
    + split; [done|]. split; [apply bytes_ok_csub, Hw|]. done.
    + done.
    + apply blen_csub; lia.
Qed.

Lemma cell_of_None i : cell_of b i = None -> ext_of (slot b i) = None /\ view b i = ADead.
Proof.
  unfold cell_of, view, view_of, ext_of. destruct (slot b i) as [off len]. simpl.
  repeat case_match; done.
Qed.

Lemma csize_cells i k :
  0 <= i -> i + Z.of_nat k <= count b ->
  csize (cells b i k) = a_sum (map (fun j => view b (Z.of_nat j)) (seq (Z.to_nat i) k)).
Proof.
  revert i. induction k as [|k IH]; intros i Hi Hk; [done|]. rewrite cells_S by done.
  cbn [seq map a_sum]. replace (S (Z.to_nat i)) with (Z.to_nat (i + 1)) by lia.
  replace (Z.of_nat (Z.to_nat i)) with i by lia. rewrite <- IH by lia.
  destruct (cell_of b i) as [c|] eqn:E.
  - destruct (cell_of_wf i c) as (_ & _ & E'); [lia|done|]. cbn [csize foldr]. by rewrite E'.
  - destruct (cell_of_None i E) as [_ ->]. simpl. lia.
Qed.

Lemma collect_spec k i :
  0 <= i -> i + Z.of_nat k <= count b -> collect k i b = (Ok (cells b i k), b).
Proof.
  revert i. induction k as [|k IH]; intros i Hi Hk; [done|]. cbn [collect].
  rewrite cells_S by done. erewrite pbind_Ok by (apply slotAt_wf; [done|lia]).
  pose proof (w_len b Hw). pose proof (w_end b Hw). pose proof (wf_count b Hw).
  pose proof (w_range b Hw i) as Hr. unfold cell_of, ext_of in *.
  destruct (slot b i) as [off len]. cbn [fst snd] in *.
  destruct (off =? cellOffsetDead); [apply IH; lia|].
  destruct (off =? cellOffsetForward); destruct (Hr _ ltac:(lia) eq_refl) as (H2 & H3 & H4);
    cbn [fst snd] in *; unfold forwardCellLen in *;
    erewrite pbind_Ok by (apply body_rd_Ok; lia); erewrite pbind_Ok by (apply IH; lia); done.
Qed.

Lemma Compact_spec :
  exists b', Compact b = (Ok tt, b') /\ swf b' /\ abs b' = abs b /\ blen b' = blen b /\
    count b' = count b /\ fend b' = bl b - a_sum (abs b).
Proof.
  pose proof (w_len b Hw) as Hl. pose proof (w_end b Hw) as He. pose proof (wf_count b Hw) as Hc.
  pose proof (wf_bl b Hw) as Hbl. pose proof (w_used b Hw) as Hu.
  unfold Compact. erewrite pbind_Ok by (by apply SlotCount_spec).
  erewrite pbind_Ok by (apply collect_spec; lia). erewrite pbind_Ok by (by apply bodyLen_spec).
  set (cs := cells b 0 (Z.to_nat (count b))).
  assert (Es : csize cs = a_sum (abs b)) by (apply csize_cells; lia).
  assert (Hin : forall c, c ∈ cs <-> exists j, 0 <= j < count b /\ cell_of b j = Some c).
  { intros c. unfold cs. rewrite elem_of_cells by lia. by replace (0 + Z.of_nat _) with (count b) by lia. }
  pose proof (a_sum_nonneg (abs b)) as Hs0.
  destruct (rewrite_cells_spec cs (count b) (bl b) b) as (b1 & R & L1 & B1 & H1 & S1 & _ & P1 & D1);
    try done; try lia; try apply Hw; try (apply NoDup_cells; lia).
  { apply Forall_forall. intros c (j & Hj & Ec)%Hin. by apply (cell_of_wf j c). }
  erewrite pbind_Ok by exact R. erewrite pbind_Ok by (apply header_hdr; lia).
  destruct (setHeader_spec (with_FreeEnd (u16 (bl b - csize cs)) (hdr b1)) b1)
    as (b' & R' & L' & B' & H' & C'); [lia| |done|].
  { destruct (hdr_ok b1 B1) as (? & ? & ? & ? & ? & ? & ? & ? & ?).
    unfold page_header_ok, with_FreeEnd; simpl. split_and!; try done. apply wrap_in_u; lia. }
  exists b'. rewrite R'. 
  assert (Hfe : u16 (bl b - csize cs) = bl b - a_sum (abs b)).
  { rewrite Es. apply wrap_small. unfold in_u. lia. }
  assert (Hcount : count b' = count b) by (unfold count; by rewrite H', H1).
  assert (Hfend : fend b' = bl b - a_sum (abs b)) by (unfold fend; by rewrite H').
  assert (Hsl : forall j, 0 <= j -> slot b' j = slot b1 j).
  { intros j Hj. unfold slot. by rewrite !C' by lia. }
  assert (Hcell : forall j c, 0 <= j < count b -> cell_of b j = Some c ->
    exists start, fend b' <= start /\ start + blen (c_data c) <= bl b /\ placed b' c start).
  { intros j c Hj Ec. destruct (P1 c) as (st & ? & ? & Hp); [apply Hin; eauto|].
    exists st. split_and!; [lia|lia|]. pose proof (cell_of_slot _ _ _ Ec).
    apply (placed_frame b1); [done|apply Hsl; lia|apply C'; lia]. }
  assert (Hdead : forall j, 0 <= j < count b -> cell_of b j = None -> slot b' j = slot b j).
  { intros j Hj Ec. rewrite Hsl by lia. apply S1; [done|]. intros Hx.
    apply list_elem_of_fmap in Hx as (c & -> & (j & Hj' & Ej)%Hin).
    rewrite (cell_of_slot _ _ _ Ej) in Ec. congruence. }
  assert (Hview : forall j, 0 <= j < count b -> view b' j = view b j).
  { intros j Hj. destruct (cell_of b j) as [c|] eqn:Ec.
    - destruct (Hcell j c Hj Ec) as (st & Hs1 & Hs2 & Hp).
      destruct (cell_of_wf j c Hj Ec) as ((_ & _ & Hf) & Hv & _).
      rewrite <- Hv, <- (cell_of_slot _ _ _ Ec). apply (placed_view b' c st); [done| |done].
      assert (0 <= blen (c_data c)) by (unfold blen; lia). lia.
    - destruct (cell_of_None j Ec) as [E1 E2]. rewrite E2. unfold view, view_of.
      rewrite Hdead by done. unfold ext_of in E1. repeat case_match; done. }
  assert (Habs : abs b' = abs b).
  { apply abs_ext; [lia|rewrite Hcount; by apply length_abs|]. rewrite Hcount.
    intros i Hi. rewrite abs_lookup by done. by rewrite Hview. }
  assert (Hext : forall j e, 0 <= j < count b -> ext_of (slot b' j) = Some e ->
    exists c, cell_of b j = Some c /\ fend b' <= e.1 /\ e.2 = blen (c_data c) /\ e.1 + e.2 <= bl b).
  { intros j e Hj Ee. destruct (cell_of b j) as [c|] eqn:Ec.
    - exists c. split; [done|]. destruct (Hcell j c Hj Ec) as (st & Hs1 & Hs2 & Hp).
      destruct (cell_of_wf j c Hj Ec) as ((_ & _ & Hf) & _).
      assert (0 <= blen (c_data c)) by (unfold blen; lia).
      rewrite <- (cell_of_slot _ _ _ Ec) in Ee.
      rewrite (placed_ext b' c st Hp ltac:(lia) Hf) in Ee. injection Ee as <-. simpl. lia.
    - exfalso. rewrite Hdead in Ee by done. destruct (cell_of_None j Ec). congruence. }
  assert (Hbl' : bl b' = bl b) by (unfold bl; lia).
  split_and!; try done; try lia. constructor.
  - lia.
  - done.
  - rewrite H', Hcount. cbn [with_FreeEnd ph_FreeStart]. rewrite H1. apply Hw.
  - rewrite Hcount, Hfend, Hbl'. lia.
  - rewrite Hcount, Hbl'. intros i e Hi Ee. destruct (Hext i e Hi Ee) as (c & _ & ? & E2 & ?).
    rewrite E2. unfold blen at 1. lia.
  - rewrite Hcount. intros i j e e' Hi Hj Hne Ei Ej.
    destruct (Hext i e Hi Ei) as (c & Ec & _). destruct (Hext j e' Hj Ej) as (c' & Ec' & _).
    pose proof (cell_of_slot _ _ _ Ec) as Es1. pose proof (cell_of_slot _ _ _ Ec') as Es2.
    apply (D1 c c'); [apply Hin; eauto..|congruence| |].
    + by rewrite Es1, <- Hsl by lia.
    + by rewrite Es2, <- Hsl by lia.
  - rewrite Habs, Hfend, Hbl'. lia.
Qed.
End compact.

(** ** Lemmas: changing one slot *)

Definition abs_upd (i n : Z) (v : aslot) (l : list aslot) : list aslot :=
  if i <? n then a_set i v l else l ++ [v].

(** A page that differs from a well-formed one in slot i only (an existing slot
    or the next new one), with its cell clear of all others, is well formed and
    holds the same slots but the i-th. *)
Lemma update_page b b' i n' :
  swf b -> blen b' = blen b -> bytes_ok b' -> count b' = n' ->
  (0 <= i < count b /\ n' = count b) \/ (i = count b /\ n' = count b + 1) ->
  ph_FreeStart (hdr b') = 4 * n' -> 4 * n' <= fend b' <= fend b ->
  (forall j, 0 <= j < count b -> j <> i -> slot b' j = slot b j) ->
  (forall j e, 0 <= j < count b -> j <> i -> ext_of (slot b j) = Some e ->
     forall x m, e.1 <= x -> 0 <= m -> x + m <= e.1 + e.2 -> csub x m b' = csub x m b) ->
  (forall e, ext_of (slot b' i) = Some e -> fend b' <= e.1 /\ 0 <= e.2 /\ e.1 + e.2 <= bl b /\
     forall j e', 0 <= j < count b -> j <> i -> ext_of (slot b j) = Some e' -> disjoint_ext e e') ->
  a_sum (abs_upd i (count b) (view b' i) (abs b)) <= bl b - fend b' ->
  swf b' /\ abs b' = abs_upd i (count b) (view b' i) (abs b).
Proof.
  intros Hw Hl Hb Hn Hi Hfs Hfe Hslot Hcont Hext Hsum.
  pose proof (wf_count b Hw) as Hc. pose proof (w_end b Hw) as He.
  assert (Hbl : bl b' = bl b) by (unfold bl; lia).
  assert (Hview : forall j, 0 <= j < count b -> j <> i -> view b' j = view b j).
  { intros j Hj Hne. unfold view. rewrite Hslot by done. apply view_of_frame.
    intros e Ee. destruct (w_range b Hw j e Hj Ee) as (? & ? & ?).
    split_and!; [lia|lia|]. intros x m Hx Hm Hxm. by apply (Hcont j e). }
  assert (Habs : abs b' = abs_upd i (count b) (view b' i) (abs b)).
  { unfold abs_upd. apply abs_ext; [lia| |].
    - destruct (Z.ltb_spec i (count b)).
      + unfold blen, a_set. rewrite length_insert. fold (blen (abs b)). rewrite length_abs by done. lia.
      + unfold blen. rewrite length_app. simpl. pose proof (length_abs b Hc) as H'.
        unfold blen in H'. lia.
    - rewrite Hn. intros j Hj. pose proof (length_abs b Hc) as Hla. unfold blen in Hla.
      destruct (Z.ltb_spec i (count b)).
      + unfold a_set. destruct (decide (j = i)) as [->|Hne].
        * apply list_lookup_insert_eq. lia.
        * rewrite list_lookup_insert_ne by lia. rewrite abs_lookup by lia.
          by rewrite Hview by lia.
      + destruct (decide (j = i)) as [->|Hne].
        * rewrite lookup_app_r by lia. by replace (Z.to_nat i - length (abs b))%nat with 0%nat by lia.
        * rewrite lookup_app_l by lia. rewrite abs_lookup by lia. by rewrite Hview by lia. }
  split; [|done]. pose proof (w_len b Hw). constructor.
  - lia.
  - done.
  - lia.
  - lia.
  - rewrite Hn, Hbl. intros j e Hj Ee. destruct (decide (j = i)) as [->|Hne].
    + destruct (Hext e Ee) as (? & ? & ? & _). lia.
    + rewrite Hslot in Ee by lia. destruct (w_range b Hw j e) as (? & ? & ?); [lia|done|]. lia.
  - rewrite Hn. intros j k e e' Hj Hk Hne Ej Ek.
    destruct (decide (j = i)) as [->|Hji]; [|destruct (decide (k = i)) as [->|Hki]].
    + rewrite Hslot in Ek by lia. apply (Hext e Ej) with (j := k); [lia|done|done].
    + rewrite Hslot in Ej by lia.
      assert (disjoint_ext e' e) by (apply (Hext e' Ek) with (j := j); [lia|done|done]).
      unfold disjoint_ext in *. lia.
    + rewrite Hslot in Ej, Ek by lia. apply (w_disj b Hw j k); [lia|lia|done..].
  - rewrite Habs, Hbl. exact Hsum.
Qed.

Lemma a_sum_upd b i v :
  swf b -> 0 <= i <= count b ->
  a_sum (abs_upd i (count b) v (abs b)) =
  a_sum (abs b) + a_size v - (if i <? count b then a_size (view b i) else 0).
Proof.
  intros Hw Hi. unfold abs_upd. destruct (Z.ltb_spec i (count b)).
  - unfold a_set. rewrite (a_sum_insert _ _ (view b i)); [lia|]. apply abs_lookup. lia.
  - rewrite a_sum_app. simpl. lia.
Qed.

(** Marking a slot dead. *)
Lemma kill_slot b i :
  swf b -> 0 <= i < count b ->
  exists b', setSlot i cellOffsetDead 0 b = (Ok tt, b') /\ swf b' /\ blen b' = blen b /\
    abs b' = a_set i ADead (abs b) /\ count b' = count b /\ fend b' = fend b.
Proof.
  intros Hw Hi. pose proof (w_len b Hw). pose proof (wf_slot_fits b Hw i Hi).
  pose proof (w_end b Hw) as He. pose proof (wf_count b Hw).
  destruct (setSlot_spec i cellOffsetDead 0 b) as (b' & R & L & B & Hh & S1 & S2 & C);
    [lia|apply Hw|lia|lia|unfold in_u, cellOffsetDead; lia|unfold in_u; lia|].
  assert (Ev : view b' i = ADead) by (unfold view; by rewrite S1).
  destruct (update_page b b' i (count b)) as [Hw' Habs]; try done.
  - unfold count; by rewrite Hh.
  - left; done.
  - rewrite Hh. apply Hw.
  - unfold fend; rewrite Hh. fold (fend b). lia.
  - intros j Hj Hne. apply S2; [lia|done].
  - intros j e Hj Hne Ee x m Hx Hm Hxm. destruct (w_range b Hw j e Hj Ee) as (? & ? & ?).
    apply C; lia.
  - rewrite S1. done.
  - rewrite Ev, a_sum_upd by (done || lia). rewrite (proj2 (Z.ltb_lt _ _)) by lia.
    pose proof (w_used b Hw). pose proof (a_size_nonneg (view b i)). unfold fend; rewrite Hh.
    fold (fend b). simpl. lia.
  - exists b'. split_and!; try done.
    + rewrite Habs, Ev. unfold abs_upd. by rewrite (proj2 (Z.ltb_lt _ _)) by lia.
    + unfold count; by rewrite Hh.
    + unfold fend; by rewrite Hh.
Qed.

(** Overwriting a live cell with a payload of the same length. *)
Lemma overwrite_cell b i payload :
  swf b -> 0 <= i < count b -> bytes_ok payload ->
  (slot b i).1 <> cellOffsetDead -> (slot b i).1 <> cellOffsetForward ->
  (slot b i).2 = blen payload ->
  exists b', body_wr (slot b i).1 payload b = (Ok tt, b') /\ swf b' /\ blen b' = blen b /\
    abs b' = a_set i (ALive payload) (abs b).
Proof.
  intros Hw Hi Hp Hd Hf Hlen. pose proof (w_len b Hw). pose proof (wf_slot_fits b Hw i Hi).
  pose proof (w_end b Hw) as He. pose proof (wf_count b Hw).
  assert (Ee : ext_of (slot b i) = Some (slot b i)).
  { unfold ext_of. by rewrite !(proj2 (Z.eqb_neq _ _)) by done. }
  destruct (w_range b Hw i _ Hi Ee) as (R1 & R2 & R3). rewrite Hlen in R2, R3.
  eexists. split; [apply body_wr_Ok; lia|]. set (b' := cput _ payload b).
  assert (Hh : hdr b' = hdr b) by (apply hdr_cput; lia).
  assert (Hs : forall j, 0 <= j < count b -> slot b' j = slot b j).
  { intros j Hj. unfold slot, b'. by rewrite !csub_cput_ne by lia. }
  assert (Ev : view b' i = ALive payload).
  { unfold view, view_of. rewrite Hs by done. rewrite !(proj2 (Z.eqb_neq _ _)) by done.
    rewrite Hlen. f_equal. unfold b'. apply csub_cput_same; lia. }
  destruct (update_page b b' i (count b)) as [Hw' Habs]; try done.
  - apply blen_cput; lia.
  - apply bytes_ok_cput; [done|apply Hw].
  - unfold count; by rewrite Hh.
  - left; done.
  - rewrite Hh. apply Hw.
  - unfold fend; rewrite Hh. fold (fend b). lia.
  - intros j Hj Hne. by apply Hs.
  - intros j e Hj Hne Ej x m Hx Hm Hxm. destruct (w_range b Hw j e Hj Ej) as (? & ? & ?).
    pose proof (w_disj b Hw i j _ _ Hi Hj ltac:(done) Ee Ej) as Hdj. unfold disjoint_ext in Hdj.
    apply csub_cput_ne; lia.
  - rewrite Hs by done. rewrite Ee. intros e [= <-]. unfold fend; rewrite Hh. fold (fend b).
    rewrite Hlen. split_and!; [lia|lia|lia|]. intros j e' Hj Hne Ej. by apply (w_disj b Hw i j).
  - rewrite Ev, a_sum_upd by (done || lia). rewrite (proj2 (Z.ltb_lt _ _)) by lia.
    pose proof (w_used b Hw). rewrite (a_size_view b Hw i Hi), Ee, Hlen.
    unfold fend; rewrite Hh. fold (fend b). cbn [a_size]. lia.
  - split_and!; [done|apply blen_cput; lia|].
    rewrite Habs, Ev. unfold abs_upd. by rewrite (proj2 (Z.ltb_lt _ _)) by lia.
Qed.

(** A new cell of z bytes right below the content area. *)
Lemma install_cell b b' i n' z v :
  swf b -> blen b' = blen b -> bytes_ok b' -> count b' = n' ->
  (0 <= i < count b /\ n' = count b) \/ (i = count b /\ n' = count b + 1) ->
  ph_FreeStart (hdr b') = 4 * n' -> fend b' = fend b - z -> 0 <= z -> 4 * n' <= fend b - z ->
  (forall j, 0 <= j < count b -> j <> i -> slot b' j = slot b j) ->
  (forall x m, fend b <= x -> 0 <= m -> csub x m b' = csub x m b) ->
  ext_of (slot b' i) = Some (fend b - z, z) -> view b' i = v -> a_size v = z ->
  swf b' /\ abs b' = abs_upd i (count b) v (abs b).
Proof.
  intros Hw Hl Hb Hn Hi Hfs Hfe Hz Hroom Hslot Hcont Hext Hv Hsz.
  pose proof (wf_count b Hw). pose proof (w_end b Hw). pose proof (w_used b Hw).
  rewrite <- Hv. apply (update_page b b' i n'); try done.
  - lia.
  - intros j e Hj Hne Ee x m Hx Hm Hxm. destruct (w_range b Hw j e Hj Ee) as (? & ? & ?).
    apply Hcont; lia.
  - rewrite Hext. intros e [= <-]. cbn [fst snd]. split_and!; [lia|lia|lia|].
    intros j e' Hj Hne Ee. destruct (w_range b Hw j e' Hj Ee) as (? & ? & ?).
    unfold disjoint_ext. cbn [fst snd]. lia.
  - rewrite Hv, a_sum_upd by (done || lia). destruct (i <? count b); [|lia].
    pose proof (a_size_nonneg (view b i)). lia.
Qed.

Lemma fend_small b : swf b -> 0 <= fend b <= 65500.
Proof.
  intros Hw. pose proof (w_end b Hw). pose proof (wf_count b Hw). pose proof (wf_bl b Hw). lia.
Qed.

Lemma u16_small v : 0 <= v <= 65535 -> u16 v = v.
Proof. intros. apply wrap_small. unfold in_u. lia. Qed.

Lemma live_ext off len : 0 <= off <= 65500 -> ext_of (off, len) = Some (off, len).
Proof.
  intros. unfold ext_of, cellOffsetDead, cellOffsetForward. cbn [fst snd].
  by rewrite !(proj2 (Z.eqb_neq _ _)) by lia.
Qed.

Lemma forward_ext off : ext_of (cellOffsetForward, off) = Some (off, 8).
Proof. done. Qed.

Lemma live_view b off len : 0 <= off <= 65500 -> view_of (off, len) b = ALive (csub off len b).
Proof.
  intros. unfold view_of, cellOffsetDead, cellOffsetForward. cbn [fst snd].
  by rewrite !(proj2 (Z.eqb_neq _ _)) by lia.
Qed.

Lemma page_header_ok_upd h n fs fe :
  page_header_ok h -> in_u 32 n -> in_u 16 fs -> in_u 16 fe ->
  page_header_ok (MkPageHeader (ph_Type h) (ph_Flags h) (ph_Codec h) n (ph_PageLSN h)
    (ph_CollIDEntry h) fs fe (ph_RightSib h)).
Proof. intros (? & ? & ? & ? & ? & ? & ? & ? & ?) ? ? ?. unfold page_header_ok; simpl. tauto. Qed.

(** Writing a live cell below the content area and pointing slot i at it. *)
Lemma write_cell b i payload :
  swf b -> bytes_ok payload -> 0 <= i <= count b -> 4 * i + 4 <= fend b - blen payload ->
  4 * count b <= fend b - blen payload ->
  let off := fend b - blen payload in
  exists b1 b2, body_wr off payload b = (Ok tt, b1) /\
    setSlot i (u16 off) (u16 (blen payload)) b1 = (Ok tt, b2) /\
    blen b2 = blen b /\ bytes_ok b2 /\ hdr b1 = hdr b /\ hdr b2 = hdr b /\
    slot b2 i = (off, blen payload) /\ csub off (blen payload) b2 = payload /\
    (forall j, 0 <= j < count b -> j <> i -> slot b2 j = slot b j) /\
    (forall x m, fend b <= x -> 0 <= m -> csub x m b2 = csub x m b).
Proof.
  intros Hw Hp Hi Hroom Hroom2 off. pose proof (w_len b Hw). pose proof (w_end b Hw).
  pose proof (fend_small b Hw). pose proof (wf_count b Hw). pose proof (wf_bl b Hw).
  assert (Hz : 0 <= blen payload) by (unfold blen; lia).
  assert (E1 : blen (cput off payload b) = blen b) by (apply blen_cput; unfold off; lia).
  exists (cput off payload b).
  destruct (setSlot_spec i off (blen payload) (cput off payload b))
    as (b2 & R & L & B & Hh & S1 & S2 & C); try (unfold bl, in_u, off in *; lia).
  { apply bytes_ok_cput; [done|apply Hw]. }
  exists b2. rewrite !u16_small by (unfold off; lia).
  assert (Hhc : hdr (cput off payload b) = hdr b) by (apply hdr_cput; unfold off; lia).
  split_and!; try done.
  - apply body_wr_Ok; unfold off; lia.
  - lia.
  - by rewrite Hh.
  - rewrite C by (unfold off; lia). apply csub_cput_same; unfold off; lia.
  - intros j Hj Hne. rewrite S2 by lia. unfold slot. by rewrite !csub_cput_ne by (unfold off; lia).
  - intros x m Hx Hm. rewrite C by lia. apply csub_cput_ne; unfold off; lia.
Qed.

(** What the operations on cells leave alone in the header. *)
Definition meta (b : bytes) : Z * Z * Z := (ph_Type (hdr b), ph_CollIDEntry (hdr b), ph_RightSib (hdr b)).

(** The part of AddCell after the space check. *)
Lemma add_spec b payload :
  swf b -> bytes_ok payload -> blen payload + 4 <= fend b - 4 * count b ->
  exists b', (let! h := header in
    let cellOff := ph_FreeEnd h - blen payload in
    let! _ := body_wr cellOff payload in
    let slot := ph_EntryCount h in
    let! _ := setSlot slot (u16 cellOff) (u16 (blen payload)) in
    let! _ := setHeader (MkPageHeader (ph_Type h) (ph_Flags h) (ph_Codec h)
                           (u32 (ph_EntryCount h + 1)) (ph_PageLSN h) (ph_CollIDEntry h)
                           (u16 (ph_FreeStart h + slotEntrySize)) (u16 cellOff) (ph_RightSib h)) in
    pret slot) b = (Ok (count b), b') /\
    swf b' /\ blen b' = blen b /\ abs b' = abs b ++ [ALive payload] /\
    fend b' = fend b - blen payload /\ meta b' = meta b.
Proof.
  intros Hw Hp Hroom. pose proof (w_len b Hw). pose proof (w_end b Hw).
  pose proof (fend_small b Hw). pose proof (wf_count b Hw). pose proof (wf_bl b Hw).
  assert (Hz : 0 <= blen payload) by (unfold blen; lia).
  destruct (write_cell b (count b) payload) as (b1 & b2 & R1 & R2 & L2 & B2 & Hh1 & Hh2 & S1 & C1 & S2 & C2);
    [done|done|lia|lia|lia|].
  erewrite pbind_Ok by (apply header_hdr; lia). erewrite pbind_Ok by exact R1.
  erewrite pbind_Ok by exact R2. rewrite (w_start b Hw). fold (count b) (fend b).
  unfold slotEntrySize. rewrite (u16_small (4 * count b + 4)), (u16_small (fend b - _)) by lia.
  rewrite (wrap_small 32) by (unfold in_u; lia).
  match goal with |- context [setHeader ?h] => set (h' := h) end.
  destruct (setHeader_spec h' b2) as (b3 & R3 & L3 & B3 & Hh3 & C3); [lia| |done|].
  { apply page_header_ok_upd; [apply hdr_ok, Hw|unfold in_u; lia..]. }
  erewrite pbind_Ok by exact R3. exists b3. unfold pret.
  assert (Hs3 : forall j, 0 <= j -> slot b3 j = slot b2 j).
  { intros j Hj. unfold slot. by rewrite !C3 by lia. }
  destruct (install_cell b b3 (count b) (count b + 1) (blen payload) (ALive payload)) as [Hw' Ha];
    try done; try lia.
  - unfold count at 1. by rewrite Hh3.
  - rewrite Hh3. cbn [h' ph_FreeStart]. lia.
  - unfold fend at 1. by rewrite Hh3.
  - intros j Hj Hne. rewrite Hs3 by lia. by apply S2.
  - intros x m Hx Hm. rewrite C3 by lia. by apply C2.
  - rewrite Hs3 by lia. rewrite S1. apply live_ext. lia.
  - unfold view. rewrite Hs3 by lia. rewrite S1, live_view by lia. f_equal.
    rewrite C3 by lia. done.
  - split_and!; [done|done|lia| | |].
    + rewrite Ha. unfold abs_upd. by rewrite (proj2 (Z.ltb_ge _ _)) by lia.
    + unfold fend at 1. by rewrite Hh3.
    + unfold meta. by rewrite Hh3.
Qed.

Lemma AddCell_spec b payload :
  swf b -> bytes_ok payload ->
  (if (blen payload >? maxCellLen) || (a_avail (bl b) (abs b) <? blen payload + slotEntrySize)
   then AddCell payload b = (Err ErrNoSpace, b)
   else exists b', AddCell payload b = (Ok (count b), b') /\ swf b' /\ blen b' = blen b /\
          abs b' = abs b ++ [ALive payload]).
Proof.
  intros Hw Hp. unfold AddCell. destruct (blen payload >? maxCellLen) eqn:Emax; [done|].
  cbn [orb]. erewrite pbind_Ok by by apply FreeBytes_spec.
  pose proof (gap_le_avail b Hw) as Hgap. unfold slotEntrySize in *.
  destruct (Z.ltb_spec (fend b - 4 * count b) (blen payload + 4)) as [Hlt|Hge].
  - assert (Hsp : (let! bl := bodyLen in let! lt := liveTotal in
        if bl - lt <? blen payload + 4 then pfail ErrNoSpace else Compact) b =
      (if bl b - a_used (abs b) <? blen payload + 4 then pfail ErrNoSpace else Compact) b).
    { erewrite pbind_Ok by apply bodyLen_spec. by erewrite pbind_Ok by by apply liveTotal_spec. }
    unfold a_avail in *. destruct (bl b - a_used (abs b) <? blen payload + 4) eqn:Ea.
    { erewrite pbind_Err by exact Hsp. done. }
    apply Z.ltb_ge in Ea.
    destruct (Compact_spec b Hw) as (b1 & Rc & Hw1 & Ha1 & L1 & Hc1 & Hf1).
    rewrite Rc in Hsp. erewrite pbind_Ok by exact Hsp.
    rewrite <- Hc1, <- Ha1. assert (Hbl : bl b1 = bl b) by (unfold bl; lia).
    destruct (add_spec b1 payload) as (b' & R & Hw' & L' & A' & _); [done|done| |].
    + rewrite Hc1, Hf1. unfold a_used in Ea. rewrite length_abs in Ea by by apply wf_count.
      unfold slotEntrySize in Ea. lia.
    + exists b'. split_and!; [exact R|done|lia|done].
  - unfold a_avail in *. rewrite (proj2 (Z.ltb_ge _ _)) by lia.
    destruct (add_spec b payload) as (b' & R & Hw' & L' & A' & _); [done|done|lia|]. by exists b'.
Qed.

(** A page that has only been added to: all its free space is the gap. *)
Definition packed (b : bytes) : Prop := fend b - 4 * count b = a_avail (bl b) (abs b).

Lemma AddCell_packed b payload :
  swf b -> packed b -> bytes_ok payload -> blen payload <= maxCellLen ->
  blen payload + slotEntrySize <= a_avail (bl b) (abs b) ->
  exists b', AddCell payload b = (Ok (count b), b') /\ swf b' /\ packed b' /\ blen b' = blen b /\
    abs b' = abs b ++ [ALive payload] /\ meta b' = meta b.
Proof.
  intros Hw Hk Hp Hmax Hroom. unfold packed in *. unfold slotEntrySize in *.
  destruct (add_spec b payload) as (b' & R & Hw' & L' & A' & F' & M'); [done|done|lia|].
  exists b'. assert (Hc : count b' = count b + 1).
  { rewrite <- (length_abs b' (wf_count b' Hw')), A', <- (length_abs b (wf_count b Hw)). unfold blen.
    rewrite length_app. cbn [length]. lia. }
  split_and!; try done.
  - unfold AddCell. rewrite Z.gtb_ltb, (proj2 (Z.ltb_ge _ _)) by lia. erewrite pbind_Ok by by apply FreeBytes_spec.
    unfold slotEntrySize in *. rewrite (proj2 (Z.ltb_ge _ _)) by lia. exact R.
  - rewrite F', Hc, A'. unfold a_avail, a_used in *. rewrite a_sum_app. cbn [a_sum a_size].
    unfold blen, bl in *. rewrite length_app. cbn [length]. unfold slotEntrySize in *. unfold blen in *. lia.
Qed.

(** ** Lemmas: the operations on one slot *)

Lemma view_dead b i : view b i = ADead <-> (slot b i).1 = cellOffsetDead.
Proof.
  unfold view, view_of. destruct (Z.eqb_spec (slot b i).1 cellOffsetDead); [tauto|].
  destruct (_ =? cellOffsetForward); split; done.
Qed.

Lemma view_cases b i :
  ((slot b i).1 = cellOffsetDead /\ view b i = ADead) \/
  ((slot b i).1 = cellOffsetForward /\
     view b i = AFwd (le_val (csub (slot b i).2 4 b)) (le_val (csub ((slot b i).2 + 4) 2 b))) \/
  ((slot b i).1 <> cellOffsetDead /\ (slot b i).1 <> cellOffsetForward /\
     view b i = ALive (csub (slot b i).1 (slot b i).2 b)).
Proof.
  unfold view, view_of. destruct (Z.eqb_spec (slot b i).1 cellOffsetDead); [tauto|].
  destruct (Z.eqb_spec (slot b i).1 cellOffsetForward); tauto.
Qed.

Lemma live_slot_ext b i :
  (slot b i).1 <> cellOffsetDead -> (slot b i).1 <> cellOffsetForward ->
  ext_of (slot b i) = Some (slot b i).
Proof. intros. unfold ext_of. by rewrite !(proj2 (Z.eqb_neq _ _)) by done. Qed.

(** The common shape of the operations on slot i: the range check, then the
    slot entry. *)
Lemma slot_op_spec {A} (bad : M A) (k : Z * Z -> M A) b i :
  swf b ->
  (let! n := SlotCount in if bad_slot i n then bad else let! p := slotAt i in k p) b =
  if bad_slot i (count b) then bad b else k (slot b i) b.
Proof.
  intros Hw. erewrite pbind_Ok by by apply SlotCount_spec.
  destruct (bad_slot i (count b)) eqn:E; [done|]. apply bad_slot_false in E.
  by erewrite pbind_Ok by by apply slotAt_wf.
Qed.

Lemma a_set_in_range b i v : 0 <= i < count b -> abs_upd i (count b) v (abs b) = a_set i v (abs b).
Proof. intros. unfold abs_upd. by rewrite (proj2 (Z.ltb_lt _ _)) by lia. Qed.

Lemma Cell_spec b i :
  swf b ->
  Cell i b = (match a_live i (abs b) with inl e => Err e | inr p => Ok p end, b).
Proof.
  intros Hw. unfold Cell.
  rewrite (slot_op_spec _ (fun p => let '(off, length) := p in
    if (off =? cellOffsetDead) || (off =? cellOffsetForward) then pfail ErrSlotDead
    else body_rd off length)) by done.
  unfold a_live. rewrite a_get_wf by done. destruct (bad_slot i (count b)) eqn:E; [done|].
  apply bad_slot_false in E. pose proof (w_len b Hw). pose proof (w_end b Hw). pose proof (wf_count b Hw).
  destruct (view_cases b i) as [[E1 ->]|[[E1 ->]|(E1 & E2 & ->)]].
  - destruct (slot b i); simpl in *. by subst.
  - destruct (slot b i); simpl in *. by subst.
  - destruct (w_range b Hw i _ E (live_slot_ext b i E1 E2)) as (? & ? & ?).
    destruct (slot b i) as [off len]; cbn [fst snd] in *.
    rewrite (proj2 (Z.eqb_neq off _) E1), (proj2 (Z.eqb_neq off _) E2). cbn [orb]. by apply body_rd_Ok; lia.
Qed.

Lemma UpdateInPlace_spec b i payload :
  swf b -> bytes_ok payload ->
  match a_live i (abs b) with
  | inl e => UpdateInPlace i payload b = (Err e, b)
  | inr q =>
      if blen q =? blen payload then
        exists b', UpdateInPlace i payload b = (Ok tt, b') /\ swf b' /\ blen b' = blen b /\
          abs b' = a_set i (ALive payload) (abs b)
      else UpdateInPlace i payload b = (Err ErrNoSpace, b)
  end.
Proof.
  intros Hw Hp. unfold UpdateInPlace.
  rewrite (slot_op_spec _ (fun p => let '(off, length) := p in
    if (off =? cellOffsetDead) || (off =? cellOffsetForward) then pfail ErrSlotDead
    else if negb (length =? blen payload) then pfail ErrNoSpace
    else body_wr off payload)) by done.
  unfold a_live. rewrite a_get_wf by done. destruct (bad_slot i (count b)) eqn:E; [done|].
  apply bad_slot_false in E. pose proof (w_len b Hw). pose proof (w_end b Hw). pose proof (wf_count b Hw).
  destruct (view_cases b i) as [[E1 ->]|[[E1 ->]|(E1 & E2 & ->)]].
  - destruct (slot b i); simpl in *. by subst.
  - destruct (slot b i); simpl in *. by subst.
  - destruct (w_range b Hw i _ E (live_slot_ext b i E1 E2)) as (? & ? & ?).
    rewrite blen_csub by lia. pose proof (overwrite_cell b i payload Hw E Hp E1 E2) as Ho.
    destruct (slot b i) as [off len]; cbn [fst snd] in *.
    rewrite (proj2 (Z.eqb_neq off _) E1), (proj2 (Z.eqb_neq off _) E2). cbn [orb].
    destruct (Z.eqb_spec len (blen payload)); [by apply Ho|done].
Qed.

Lemma DeleteCell_spec b i :
  swf b ->
  match a_get i (abs b) with
  | None => DeleteCell i b = (Err ErrBadSlot, b)
  | Some _ => exists b', DeleteCell i b = (Ok tt, b') /\ swf b' /\ blen b' = blen b /\
                abs b' = a_set i ADead (abs b)
  end.
Proof.
  intros Hw. unfold DeleteCell. rewrite a_get_wf by done.
  erewrite pbind_Ok by by apply SlotCount_spec. destruct (bad_slot i (count b)) eqn:E; [done|].
  apply bad_slot_false in E. destruct (kill_slot b i Hw E) as (b' & R & W & L & A & _). eauto 6.
Qed.

(** The part of ReplaceCell that writes the new cell below the content area. *)
Lemma replace_spec b i payload :
  swf b -> bytes_ok payload -> 0 <= i < count b -> blen payload <= fend b - 4 * count b ->
  exists b', (let! h := header in
    let cellOff := ph_FreeEnd h - blen payload in
    let! _ := body_wr cellOff payload in
    let! _ := setSlot i (u16 cellOff) (u16 (blen payload)) in
    setHeader (with_FreeEnd (u16 cellOff) h)) b = (Ok tt, b') /\
    swf b' /\ blen b' = blen b /\ abs b' = a_set i (ALive payload) (abs b).
Proof.
  intros Hw Hp Hi Hroom. pose proof (w_len b Hw). pose proof (w_end b Hw).
  pose proof (fend_small b Hw). pose proof (wf_count b Hw). pose proof (wf_bl b Hw).
  assert (Hz : 0 <= blen payload) by (unfold blen; lia).
  destruct (write_cell b i payload) as (b1 & b2 & R1 & R2 & L2 & B2 & Hh1 & Hh2 & S1 & C1 & S2 & C2);
    [done|done|lia|lia|lia|].
  erewrite pbind_Ok by (apply header_hdr; lia). erewrite pbind_Ok by exact R1.
  erewrite pbind_Ok by exact R2. fold (fend b). rewrite (u16_small (fend b - _)) by lia.
  destruct (setHeader_spec (with_FreeEnd (fend b - blen payload) (hdr b)) b2)
    as (b3 & R3 & L3 & B3 & Hh3 & C3); [lia| |done|].
  { apply page_header_ok_upd; [apply hdr_ok, Hw|apply hdr_ok, Hw|apply hdr_ok, Hw|unfold in_u; lia]. }
  exists b3. rewrite R3.
  assert (Hs3 : forall j, 0 <= j -> slot b3 j = slot b2 j).
  { intros j Hj. unfold slot. by rewrite !C3 by lia. }
  destruct (install_cell b b3 i (count b) (blen payload) (ALive payload)) as [Hw' Ha];
    try done; try lia.
  - unfold count at 1. by rewrite Hh3.
  - rewrite Hh3. apply Hw.
  - unfold fend at 1. by rewrite Hh3.
  - intros j Hj Hne. rewrite Hs3 by lia. by apply S2.
  - intros x m Hx Hm. rewrite C3 by lia. by apply C2.
  - rewrite Hs3 by lia. rewrite S1. apply live_ext. lia.
  - unfold view. rewrite Hs3 by lia. rewrite S1, live_view by lia. f_equal.
    rewrite C3 by lia. done.
  - split_and!; [done|done|lia|]. by rewrite Ha, a_set_in_range.
Qed.

Lemma list_insert_twice {A} (k : nat) (x y : A) (l : list A) : <[k := x]> (<[k := y]> l) = <[k := x]> l.
Proof. apply list_insert_insert_eq. Qed.

(** Killing the slot, compacting when needed, writing the new cell. *)
Lemma replace_alloc_spec b i payload :
  swf b -> bytes_ok payload -> 0 <= i < count b ->
  blen payload <= a_avail (bl b) (abs b) + a_size (view b i) ->
  exists b', (let! _ := setSlot i cellOffsetDead 0 in
    let! fb := FreeBytes in
    let! _ := if fb <? blen payload then Compact else pret tt in
    let! h := header in
    let cellOff := ph_FreeEnd h - blen payload in
    let! _ := body_wr cellOff payload in
    let! _ := setSlot i (u16 cellOff) (u16 (blen payload)) in
    setHeader (with_FreeEnd (u16 cellOff) h)) b = (Ok tt, b') /\
    swf b' /\ blen b' = blen b /\ abs b' = a_set i (ALive payload) (abs b).
Proof.
  intros Hw Hp Hi Hroom. destruct (kill_slot b i Hw Hi) as (b1 & R1 & W1 & L1 & A1 & C1 & F1).
  erewrite pbind_Ok by exact R1. erewrite pbind_Ok by by apply FreeBytes_spec.
  destruct (Z.ltb_spec (fend b1 - 4 * count b1) (blen payload)) as [Hlt|Hge].
  - destruct (Compact_spec b1 W1) as (b2 & R2 & W2 & A2 & L2 & C2 & F2).
    erewrite pbind_Ok by exact R2. destruct (replace_spec b2 i payload) as (b' & R & W & L & A);
      [done|done|lia| |].
    + rewrite C2, F2, A1. unfold a_set. rewrite (a_sum_insert _ _ (view b i)) by by apply abs_lookup.
      unfold a_avail, a_used in Hroom. rewrite length_abs in Hroom by by apply wf_count.
      unfold slotEntrySize in Hroom. unfold bl in *. simpl. lia.
    + exists b'. split_and!; [exact R|done|lia|]. rewrite A, A2, A1. apply list_insert_twice.
  - erewrite pbind_Ok by done. destruct (replace_spec b1 i payload) as (b' & R & W & L & A);
      [done|done|lia|lia|].
    exists b'. split_and!; [exact R|done|lia|]. rewrite A, A1. apply list_insert_twice.
Qed.


Lemma live_fits b i :
  swf b -> 0 <= i < count b -> a_avail (bl b) (abs b) + a_size (view b i) <= maxCellLen.
Proof.
  intros Hw Hi. unfold a_avail, a_used, maxCellLen. rewrite length_abs by by apply wf_count.
  unfold slotEntrySize.
  pose proof (a_sum_upd b i ADead Hw ltac:(lia)) as E. rewrite (proj2 (Z.ltb_lt _ _)) in E by lia.
  pose proof (a_sum_nonneg (abs_upd i (count b) ADead (abs b))). change (a_size ADead) with 0 in E.
  pose proof (wf_bl b Hw). pose proof (wf_count b Hw). lia.
Qed.

Lemma ReplaceCell_spec b i payload :
  swf b -> bytes_ok payload ->
  match a_live i (abs b) with
  | inl e => ReplaceCell i payload b = (Err e, b)
  | inr q =>
      if a_avail (bl b) (abs b) + blen q <? blen payload
      then ReplaceCell i payload b = (Err ErrNoSpace, b)
      else exists b', ReplaceCell i payload b = (Ok tt, b') /\ swf b' /\ blen b' = blen b /\
             abs b' = a_set i (ALive payload) (abs b)
  end.
Proof.
  intros Hw Hp. unfold ReplaceCell.
  rewrite (slot_op_spec _ (fun p => let '(off, oldLen) := p in _)) by done.
  unfold a_live. rewrite a_get_wf by done. destruct (bad_slot i (count b)) eqn:E; [done|].
  apply bad_slot_false in E. pose proof (w_len b Hw). pose proof (w_end b Hw). pose proof (wf_count b Hw).
  destruct (view_cases b i) as [[E1 ->]|[[E1 ->]|(E1 & E2 & Ev)]].
  - destruct (slot b i); simpl in *. by subst.
  - destruct (slot b i); simpl in *. by subst.
  - destruct (w_range b Hw i _ E (live_slot_ext b i E1 E2)) as (? & ? & ?).
    pose proof (live_fits b i Hw E) as Hfit. pose proof (replace_alloc_spec b i payload Hw Hp E) as Hrep.
    pose proof (gap_le_avail b Hw).
    assert (Esz : a_size (view b i) = (slot b i).2) by (rewrite Ev; cbn [a_size]; apply blen_csub; lia).
    rewrite Esz in *. rewrite Ev, blen_csub by lia.
    pose proof (overwrite_cell b i payload Hw E Hp E1 E2) as Ho.
    destruct (slot b i) as [off len]; cbn [fst snd] in *.
    rewrite (proj2 (Z.eqb_neq off _) E1), (proj2 (Z.eqb_neq off _) E2). cbn [orb].
    destruct (Z.gtb_spec (blen payload) maxCellLen) as [Hmax|Hmax].
    { rewrite (proj2 (Z.ltb_lt _ _)) by lia. done. }
    destruct (Z.eqb_spec len (blen payload)) as [El|El].
    { rewrite (proj2 (Z.ltb_ge _ _)) by lia. by apply Ho. }
    erewrite pbind_Ok by apply bodyLen_spec. erewrite pbind_Ok by by apply liveTotal_spec.
    fold (a_avail (bl b) (abs b)).
    destruct (Z.ltb_spec (a_avail (bl b) (abs b) + len) (blen payload)); [done|].
    apply Hrep. lia.
Qed.

(** Writing the forwarding record at off and turning slot i into a tombstone. *)
Lemma write_target b i off pg sl :
  36 <= blen b <= 65536 -> bytes_ok b -> 0 <= i -> 4 * i + 4 <= off -> off + 8 <= bl b ->
  in_u 32 pg -> in_u 16 sl ->
  exists b', (let! _ := body_wr off (le_bytes 4 pg) in
    let! _ := body_wr (off + 4) (le_bytes 2 sl) in
    let! _ := body_wr (off + 6) (le_bytes 2 0) in
    setSlot i cellOffsetForward (u16 off)) b = (Ok tt, b') /\
    blen b' = blen b /\ bytes_ok b' /\ hdr b' = hdr b /\
    slot b' i = (cellOffsetForward, off) /\ view b' i = AFwd pg sl /\
    (forall j, 0 <= j -> j <> i -> 4 * j + 4 <= off -> slot b' j = slot b j) /\
    (forall x m, 4 * i + 4 <= x -> 0 <= m -> x + m <= off \/ off + 8 <= x ->
       csub x m b' = csub x m b).
Proof.
  intros Hl Hb Hi Hio Ho Hpg Hsl.
  assert (L4 : blen (le_bytes 4 pg) = 4) by (unfold blen; by rewrite length_le_bytes).
  assert (L2 : forall v, blen (le_bytes 2 v) = 2) by (intros; unfold blen; by rewrite length_le_bytes).
  set (b1 := cput off (le_bytes 4 pg) b). set (b2 := cput (off + 4) (le_bytes 2 sl) b1).
  set (b3 := cput (off + 6) (le_bytes 2 0) b2).
  assert (E1 : blen b1 = blen b) by (apply blen_cput; lia).
  assert (E2 : blen b2 = blen b) by (unfold b2; rewrite blen_cput; unfold bl in *; rewrite ?L2; lia).
  assert (E3 : blen b3 = blen b) by (unfold b3; rewrite blen_cput; unfold bl in *; rewrite ?L2; lia).
  assert (B1 : bl b1 = bl b) by (unfold bl; lia). assert (B2 : bl b2 = bl b) by (unfold bl; lia).
  erewrite pbind_Ok by (apply body_wr_Ok; lia). fold b1.
  erewrite pbind_Ok by (apply body_wr_Ok; rewrite ?L2; lia). fold b2.
  erewrite pbind_Ok by (apply body_wr_Ok; rewrite ?L2; lia). fold b3.
  assert (Hbl : bl b <= 65500) by (unfold bl; lia).
  rewrite u16_small by lia.
  destruct (setSlot_spec i cellOffsetForward off b3) as (b' & R & L & B & Hh & S1 & S2 & C);
    try (unfold bl, in_u, cellOffsetForward in *; lia).
  { unfold b3, b2, b1. auto using bytes_ok_cput, bytes_ok_le. }
  assert (Hfr : forall x m, 0 <= x -> 0 <= m -> x + m <= off \/ off + 8 <= x ->
    csub x m b3 = csub x m b).
  { intros x m Hx Hm Hd. unfold b3. rewrite csub_cput_ne by (rewrite ?L2; lia).
    unfold b2. rewrite csub_cput_ne by (rewrite ?L2; lia). apply csub_cput_ne; lia. }
  exists b'. split_and!; try done.
  - lia.
  - rewrite Hh. unfold b3. rewrite hdr_cput by (rewrite ?L2; lia).
    unfold b2. rewrite hdr_cput by (rewrite ?L2; lia). apply hdr_cput; lia.
  - unfold view. rewrite S1. unfold view_of. simpl. f_equal.
    + rewrite C by lia. unfold b3. rewrite csub_cput_ne by (rewrite ?L2; lia).
      unfold b2. rewrite csub_cput_ne by (rewrite ?L2; lia). unfold b1. rewrite (csub_cput_same' off 4) by lia. by apply le_val_le_bytes.
    + rewrite C by lia. unfold b3. rewrite csub_cput_ne by (rewrite ?L2; lia).
      unfold b2. rewrite (csub_cput_same' (off + 4) 2) by (rewrite ?L2; lia). by apply le_val_le_bytes.
  - intros j Hj Hne Hjo. rewrite S2 by lia. unfold slot. by rewrite !Hfr by lia.
  - intros x m Hx Hm Hd. rewrite C by lia. apply Hfr; lia.
Qed.

(** A tombstone in the space of a live cell of at least eight bytes. *)
Lemma forward_reuse b i pg sl :
  swf b -> 0 <= i < count b -> in_u 32 pg -> in_u 16 sl ->
  (slot b i).1 <> cellOffsetDead -> (slot b i).1 <> cellOffsetForward ->
  forwardCellLen <= (slot b i).2 ->
  exists b', (let! _ := body_wr (slot b i).1 (le_bytes 4 pg) in
    let! _ := body_wr ((slot b i).1 + 4) (le_bytes 2 sl) in
    let! _ := body_wr ((slot b i).1 + 6) (le_bytes 2 0) in
    setSlot i cellOffsetForward (u16 (slot b i).1)) b = (Ok tt, b') /\
    swf b' /\ blen b' = blen b /\ abs b' = a_set i (AFwd pg sl) (abs b).
Proof.
  intros Hw Hi Hpg Hsl Hd Hf Hlen. unfold forwardCellLen in Hlen.
  pose proof (live_slot_ext b i Hd Hf) as Ee. destruct (w_range b Hw i _ Hi Ee) as (R1 & R2 & R3).
  pose proof (w_len b Hw). pose proof (w_end b Hw). pose proof (wf_count b Hw).
  destruct (write_target b i (slot b i).1 pg sl) as (b' & R & L & B & Hh & S1 & V & S2 & C);
    try done; try lia; [apply Hw|].
  exists b'. assert (Hfe : fend b' = fend b) by (unfold fend; by rewrite Hh).
  assert (Eold : a_size (view b i) = (slot b i).2) by (rewrite a_size_view, Ee by done; done).
  destruct (update_page b b' i (count b)) as [Hw' Habs]; try done.
  - unfold count; by rewrite Hh.
  - left; done.
  - rewrite Hh. apply Hw.
  - lia.
  - intros j Hj Hne. apply S2; lia.
  - intros j e Hj Hne Ej x m Hx Hm Hxm. destruct (w_range b Hw j e Hj Ej) as (? & ? & ?).
    pose proof (w_disj b Hw i j _ _ Hi Hj ltac:(done) Ee Ej) as Hdj. unfold disjoint_ext in Hdj.
    apply C; lia.
  - rewrite S1, forward_ext. intros e Ee'.
    assert (e = ((slot b i).1, 8)) as -> by congruence. cbn [fst snd].
    split_and!; [lia|lia|lia|]. intros j e' Hj Hne Ej.
    pose proof (w_disj b Hw i j _ _ Hi Hj ltac:(done) Ee Ej) as Hdj. unfold disjoint_ext in *.
    cbn [fst snd]. lia.
  - rewrite V, a_sum_upd by (done || lia). rewrite (proj2 (Z.ltb_lt _ _)), Eold, Hfe by lia.
    pose proof (w_used b Hw). cbn [a_size]. unfold forwardCellLen. lia.
  - split_and!; [done|done|done|]. by rewrite Habs, V, a_set_in_range.
Qed.

(** A tombstone in fresh space. *)
Lemma forward_fresh b i pg sl :
  swf b -> 0 <= i < count b -> in_u 32 pg -> in_u 16 sl -> forwardCellLen <= fend b - 4 * count b ->
  let off := fend b - forwardCellLen in
  exists b1 b', setHeader (with_FreeEnd (u16 off) (hdr b)) b = (Ok tt, b1) /\
    (let! _ := body_wr off (le_bytes 4 pg) in
    let! _ := body_wr (off + 4) (le_bytes 2 sl) in
    let! _ := body_wr (off + 6) (le_bytes 2 0) in
    setSlot i cellOffsetForward (u16 off)) b1 = (Ok tt, b') /\
    swf b' /\ blen b' = blen b /\ abs b' = a_set i (AFwd pg sl) (abs b).
Proof.
  intros Hw Hi Hpg Hsl Hroom off. unfold off, forwardCellLen in *. clear off.
  pose proof (w_len b Hw). pose proof (w_end b Hw). pose proof (wf_count b Hw).
  pose proof (fend_small b Hw).
  rewrite (u16_small (fend b - 8)) by lia.
  destruct (setHeader_spec (with_FreeEnd (fend b - 8) (hdr b)) b)
    as (b1 & R1 & L1 & B1 & Hh1 & C1); [lia| |apply Hw|].
  { apply page_header_ok_upd; [apply hdr_ok, Hw|apply hdr_ok, Hw|apply hdr_ok, Hw|unfold in_u; lia]. }
  assert (Hs1 : forall j, 0 <= j -> slot b1 j = slot b j).
  { intros j Hj. unfold slot. by rewrite !C1 by lia. }
  destruct (write_target b1 i (fend b - 8) pg sl) as (b' & R & L & B & Hh & S1 & V & S2 & C);
    try done; try (unfold bl in *; lia).
  rewrite u16_small in R by lia.
  exists b1, b'. split; [done|]. split; [exact R|].
  destruct (install_cell b b' i (count b) 8 (AFwd pg sl)) as [Hw' Ha]; try done; try lia.
  - unfold count at 1. by rewrite Hh, Hh1.
  - rewrite Hh, Hh1. apply Hw.
  - unfold fend at 1. by rewrite Hh, Hh1.
  - intros j Hj Hne. rewrite S2 by lia. apply Hs1. lia.
  - intros x m Hx Hm. rewrite C by lia. apply C1. lia.
  - by rewrite S1.
  - split_and!; [done|lia|]. by rewrite Ha, a_set_in_range.
Qed.

(** The allocation of SetForward: a compaction first when the gap is too small. *)
Lemma SetForward_spec b i pg sl :
  swf b -> in_u 32 pg -> in_u 16 sl ->
  match a_get i (abs b) with
  | None => SetForward i pg sl b = (Err ErrBadSlot, b)
  | Some s =>
      if match s with ALive q => forwardCellLen <=? blen q | _ => false end ||
         (forwardCellLen <=? a_avail (bl b) (abs b))
      then exists b', SetForward i pg sl b = (Ok tt, b') /\ swf b' /\ blen b' = blen b /\
             abs b' = a_set i (AFwd pg sl) (abs b)
      else SetForward i pg sl b = (Err ErrNoSpace, b)
  end.
Proof.
  intros Hw Hpg Hsl. unfold SetForward.
  rewrite (slot_op_spec _ (fun p => let '(off, length) := p in _)) by done.
  rewrite a_get_wf by done. destruct (bad_slot i (count b)) eqn:E; [done|].
  apply bad_slot_false in E. pose proof (w_len b Hw). pose proof (w_end b Hw). pose proof (wf_count b Hw).
  pose proof (wf_bl b Hw).
  assert (Hreuse : match view b i with ALive q => forwardCellLen <=? blen q | _ => false end =
    (negb ((slot b i).1 =? cellOffsetDead) && negb ((slot b i).1 =? cellOffsetForward) &&
     ((slot b i).2 >=? forwardCellLen)) /\
    (match view b i with ALive q => forwardCellLen <=? blen q | _ => false end = true ->
     (slot b i).1 <> 0)).
  { destruct (view_cases b i) as [[E1 ->]|[[E1 ->]|(E1 & E2 & ->)]].
    - rewrite E1. done.
    - rewrite E1. done.
    - destruct (w_range b Hw i _ E (live_slot_ext b i E1 E2)) as (? & ? & ?).
      rewrite blen_csub by lia. rewrite !(proj2 (Z.eqb_neq (slot b i).1 _)) by done.
      cbn [negb andb]. rewrite Z.geb_leb. split; [done|lia]. }
  destruct Hreuse as [Hreuse Hnz].
  pose proof (forward_reuse b i pg sl Hw E Hpg Hsl) as Hfr.
  set (live := match view b i with ALive q => forwardCellLen <=? blen q | _ => false end) in *.
  destruct (slot b i) as [off len]; cbn [fst snd] in *. rewrite <- Hreuse.
  destruct live.
  - cbn [orb]. rewrite (proj2 (Z.eqb_neq off 0)) by (by apply Hnz).
    symmetry in Hreuse. rewrite !andb_true_iff, !negb_true_iff, !Z.eqb_neq, Z.geb_leb, Z.leb_le in Hreuse.
    erewrite pbind_Ok by done. apply Hfr; tauto.
  - cbn [orb]. rewrite Z.eqb_refl. clear Hfr.
    assert (Hstep : forall c, swf c -> count c = count b -> blen c = blen b -> abs c = abs b ->
      forwardCellLen <= fend c - 4 * count c ->
      exists b', (let! cellOff := (let! _ := setHeader (with_FreeEnd (u16 (fend c - forwardCellLen)) (hdr c)) in
           pret (fend c - forwardCellLen)) in
         let! _ := body_wr cellOff (le_bytes 4 pg) in
         let! _ := body_wr (cellOff + 4) (le_bytes 2 sl) in
         let! _ := body_wr (cellOff + 6) (le_bytes 2 0) in
         setSlot i cellOffsetForward (u16 cellOff)) c = (Ok tt, b') /\ swf b' /\ blen b' = blen b /\
         abs b' = a_set i (AFwd pg sl) (abs b)).
    { intros c Hwc Ecount El Ea Hroom.
      destruct (forward_fresh c i pg sl) as (c1 & c2 & R1 & R2 & W2 & L2 & A2); [done|lia|done..|].
      exists c2. split_and!; [|done|lia|by rewrite A2, Ea].
      erewrite pbind_Ok; [exact R2|]. by erewrite pbind_Ok by exact R1. }
    pose proof (gap_le_avail b Hw) as Hgap.
    assert (Hh : forall c, swf c -> header c = (Ok (hdr c), c)).
    { intros c Hc. apply header_hdr. pose proof (w_len c Hc). lia. }
    assert (Hassoc : forall (m : M PageHeader) (f : PageHeader -> M Z) (g : Z -> M unit) c c' h,
      m c = (Ok h, c') -> pbind (pbind m f) g c = pbind (f h) g c').
    { intros m f g c c' h Hm. unfold pbind. by rewrite Hm. }
    erewrite Hassoc by by apply Hh. fold (fend b). rewrite (w_start b Hw).
    destruct (Z.ltb_spec (fend b - 4 * count b) forwardCellLen) as [Hlt|Hge].
    + destruct (Z.leb_spec forwardCellLen (a_avail (bl b) (abs b))) as [Hav|Hav].
      * destruct (Compact_spec b Hw) as (c & Rc & Wc & Ac & Lc & Cc & Fc).
        erewrite Hassoc.
        2:{ erewrite pbind_Ok by apply bodyLen_spec. erewrite pbind_Ok by by apply liveTotal_spec.
            unfold a_avail in Hav. rewrite (proj2 (Z.ltb_ge _ _)) by lia.
            erewrite pbind_Ok by exact Rc. by apply Hh. }
        apply Hstep; try done. rewrite Cc, Fc. unfold a_avail, a_used in Hav.
        rewrite length_abs in Hav by done. unfold slotEntrySize in Hav. lia.
      * erewrite pbind_Err; [done|]. erewrite pbind_Err; [done|].
        erewrite pbind_Ok by apply bodyLen_spec. erewrite pbind_Ok by by apply liveTotal_spec.
        unfold a_avail in Hav. rewrite (proj2 (Z.ltb_lt _ _)) by lia. done.
    + rewrite (proj2 (Z.leb_le _ _)) by lia. erewrite Hassoc by done. by apply Hstep.
Qed.

Lemma Forward_spec b i :
  swf b -> Forward i b =
    (Ok match a_get i (abs b) with Some (AFwd pg sl) => (pg, sl, true) | _ => (0, 0, false) end, b).
Proof.
  intros Hw. unfold Forward.
  rewrite (slot_op_spec _ (fun p => let '(off, co) := p in
    if negb (off =? cellOffsetForward) then pret (0, 0, false)
    else let! q := body_rd co 4 in let! s := body_rd (co + 4) 2 in pret (le_val q, le_val s, true))) by done.
  rewrite a_get_wf by done. destruct (bad_slot i (count b)) eqn:E; [done|].
  apply bad_slot_false in E. pose proof (w_len b Hw). pose proof (w_end b Hw). pose proof (wf_count b Hw).
  destruct (view_cases b i) as [[E1 ->]|[[E1 ->]|(E1 & E2 & ->)]].
  - destruct (slot b i); simpl in *. by subst.
  - assert (Ee : ext_of (slot b i) = Some ((slot b i).2, forwardCellLen)).
    { unfold ext_of. by rewrite E1. }
    destruct (w_range b Hw i _ E Ee) as (? & ? & ?). unfold forwardCellLen in *.
    destruct (slot b i) as [off co]; cbn [fst snd] in *. subst off. cbn [negb].
    rewrite Z.eqb_refl. cbn [negb]. erewrite pbind_Ok by (apply body_rd_Ok; lia).
    by erewrite pbind_Ok by (apply body_rd_Ok; lia).
  - destruct (slot b i); simpl in *. by rewrite (proj2 (Z.eqb_neq _ _)) by done.
Qed.

Lemma IsLive_spec b i :
  swf b -> IsLive i b = (Ok match a_get i (abs b) with Some (ALive _) => true | _ => false end, b).
Proof.
  intros Hw. unfold IsLive.
  rewrite (slot_op_spec _ (fun p => let '(off, _) := p in
    pret (negb (off =? cellOffsetDead) && negb (off =? cellOffsetForward)))) by done.
  rewrite a_get_wf by done. destruct (bad_slot i (count b)) eqn:E; [done|].
  destruct (view_cases b i) as [[E1 ->]|[[E1 ->]|(E1 & E2 & ->)]];
    destruct (slot b i) as [off len]; cbn [fst snd] in *; [by subst|by subst|].
  by rewrite !(proj2 (Z.eqb_neq off _)).
Qed.

Lemma IsForward_spec b i :
  swf b -> IsForward i b = (Ok match a_get i (abs b) with Some (AFwd _ _) => true | _ => false end, b).
Proof.
  intros Hw. unfold IsForward.
  rewrite (slot_op_spec _ (fun p => let '(off, _) := p in pret (off =? cellOffsetForward))) by done.
  rewrite a_get_wf by done. destruct (bad_slot i (count b)) eqn:E; [done|].
  destruct (view_cases b i) as [[E1 ->]|[[E1 ->]|(E1 & E2 & ->)]];
    destruct (slot b i) as [off len]; cbn [fst snd] in *; [by subst|by subst|].
  by rewrite (proj2 (Z.eqb_neq off _)).
Qed.

(** What a page holds does not depend on the rest of its header, nor on its
    trailing checksum. *)
Lemma swf_same_body b b' :
  swf b -> blen b' = blen b -> bytes_ok b' -> count b' = count b -> ph_FreeStart (hdr b') = ph_FreeStart (hdr b) ->
  fend b' = fend b -> (forall x m, 0 <= x -> 0 <= m -> x + m <= bl b -> csub x m b' = csub x m b) ->
  swf b' /\ abs b' = abs b.
Proof.
  intros Hw Hl Hb Hc Hs Hf Hbody. assert (Hbl : bl b' = bl b) by (unfold bl; lia).
  pose proof (wf_count b Hw) as Hn. pose proof (w_end b Hw) as He.
  assert (Hslot : forall i, 0 <= i < count b -> slot b' i = slot b i).
  { intros i Hi. unfold slot. by rewrite !Hbody by lia. }
  assert (Hview : forall i, 0 <= i < count b -> view b' i = view b i).
  { intros i Hi. unfold view. rewrite Hslot by done. apply view_of_frame. intros e Ee.
    destruct (w_range b Hw i e Hi Ee) as (R1 & R2 & R3). split_and!; try lia. intros x m Hx Hm Hxm. apply Hbody; lia. }
  assert (Habs : abs b' = abs b).
  { apply abs_ext; [rewrite Hc; lia|rewrite Hc; by apply length_abs|]. rewrite Hc. intros i Hi.
    rewrite Hview by done. by apply abs_lookup. }
  split; [|done]. constructor; rewrite ?Hl, ?Hbl, ?Hc, ?Hs, ?Hf, ?Habs; try apply Hw; try done.
  - intros i e Hi. rewrite Hslot by done. by apply Hw.
  - intros i j e e' Hi Hj Hne. rewrite !Hslot by done. by apply (w_disj b Hw i j).
Qed.

(** ** Refinement *)

Ltac slotted_ok :=
  match goal with
  | R : _ = (Ok _, ?b') |- _ =>
      exists b'; split; [unfold run; by erewrite pbind_Ok by exact R|]; destruct_and?; split_and!; done
  end.

Ltac slotted_same b :=
  exists b; split; [|done]; unfold run.

(** Every operation on the buffer is the abstract one. *)
Lemma run_refines o b :
  swf b -> op_ok o ->
  exists b', run o b = ((a_run (bl b) o (abs b)).1, b') /\
    swf b' /\ blen b' = blen b /\ abs b' = (a_run (bl b) o (abs b)).2.
Proof.
  intros Hw Ho. destruct o as [p|i|i p|i p|i|i pg sl|i|i|i| |n|]; cbn [a_run op_ok] in *.
  - pose proof (AddCell_spec b p Hw Ho) as H. destruct (_ || _).
    + slotted_same b. by erewrite pbind_Err by exact H.
    + destruct H as (b' & R & ?). rewrite <- (length_abs b (wf_count b Hw)) in R. slotted_ok.
  - pose proof (Cell_spec b i Hw) as H. destruct (a_live i (abs b)); slotted_same b.
    + by erewrite pbind_Err by exact H.
    + by erewrite pbind_Ok by exact H.
  - pose proof (UpdateInPlace_spec b i p Hw Ho) as H. destruct (a_live i (abs b)) as [e|q].
    + slotted_same b. by erewrite pbind_Err by exact H.
    + destruct (blen q =? blen p).
      * destruct H as (b' & R & ?). slotted_ok.
      * slotted_same b. by erewrite pbind_Err by exact H.
  - pose proof (ReplaceCell_spec b i p Hw Ho) as H. destruct (a_live i (abs b)) as [e|q].
    + slotted_same b. by erewrite pbind_Err by exact H.
    + destruct (_ <? _).
      * slotted_same b. by erewrite pbind_Err by exact H.
      * destruct H as (b' & R & ?). slotted_ok.
  - pose proof (DeleteCell_spec b i Hw) as H. destruct (a_get i (abs b)).
    + destruct H as (b' & R & ?). slotted_ok.
    + slotted_same b. by erewrite pbind_Err by exact H.
  - destruct Ho as [Hpg Hsl]. pose proof (SetForward_spec b i pg sl Hw Hpg Hsl) as H.
    destruct (a_get i (abs b)) as [s|].
    + destruct (_ || _).
      * destruct H as (b' & R & ?). slotted_ok.
      * slotted_same b. by erewrite pbind_Err by exact H.
    + slotted_same b. by erewrite pbind_Err by exact H.
  - pose proof (Forward_spec b i Hw) as H.
    destruct (a_get i (abs b)) as [[]|]; slotted_same b; by erewrite pbind_Ok by exact H.
  - slotted_same b. by erewrite pbind_Ok by by apply IsLive_spec.
  - slotted_same b. by erewrite pbind_Ok by by apply IsForward_spec.
  - slotted_same b. by erewrite pbind_Ok by by apply AvailBytes_spec.
  - slotted_same b. unfold CanAdd, pbind. rewrite AvailBytes_spec by done. unfold pret.
    by rewrite Z.geb_leb.
  - destruct (Compact_spec b Hw) as (b' & R & ? & ? & ? & _). slotted_ok.
Qed.

(** C33. Slotted pages implement the abstract page: on every well-formed page
    and for every operation, errors included, the operation does not panic,
    returns what the abstract operation returns on the page's slots, and leaves
    a well-formed page of the same size holding the abstract operation's
    slots. *)
Theorem slotted_refines o b :
  swf b -> op_ok o ->
  exists b', run o b = ((a_run (bl b) o (abs b)).1, b') /\
    swf b' /\ blen b' = blen b /\ abs b' = (a_run (bl b) o (abs b)).2.
Proof. apply run_refines. Qed.

Fixpoint run_all (os : list op) (b : bytes) : list (res fmtErr out) * bytes :=
  match os with
  | [] => ([], b)
  | o :: os' =>
      let '(r, b1) := run o b in
      let '(rs, b2) := run_all os' b1 in (r :: rs, b2)
  end.

Fixpoint a_run_all (cap : Z) (os : list op) (l : list aslot) : list (res fmtErr out) * list aslot :=
  match os with
  | [] => ([], l)
  | o :: os' =>
      let '(r, l1) := a_run cap o l in
      let '(rs, l2) := a_run_all cap os' l1 in (r :: rs, l2)
  end.

Lemma run_all_refines os b :
  swf b -> Forall op_ok os ->
  exists b', run_all os b = ((a_run_all (bl b) os (abs b)).1, b') /\
    swf b' /\ blen b' = blen b /\ abs b' = (a_run_all (bl b) os (abs b)).2.
Proof.
  intros Hw Hos. revert b Hw. induction Hos as [|o os Ho Hos IH]; intros b Hw; [by exists b|].
  pose proof (run_refines o b Hw Ho) as (b1 & R1 & W1 & L1 & A1).
  destruct (IH b1 W1) as (b2 & R2 & W2 & L2 & A2).
  assert (Hbl : bl b1 = bl b) by (unfold bl; lia). rewrite Hbl, A1 in *.
  exists b2. cbn [run_all a_run_all]. rewrite R1, R2.
  destruct (a_run (bl b) o (abs b)) as [r l1]. cbn [fst snd] in *.
  destruct (a_run_all (bl b) os l1) as [rs l2]. cbn [fst snd] in *.
  split_and!; [done|done|lia|done].
Qed.

(** A page fresh from InitPage is well formed and empty. *)
Lemma InitPage_swf p t collID b :
  in_u 8 t -> in_u 32 collID -> 36 <= blen p <= 65536 ->
  InitPage (E:=fmtErr) p t collID = Ok b -> swf b /\ abs b = [] /\ blen b = blen p.
Proof.
  intros Ht Hc Hl HI. destruct (InitPage_Ok (E:=fmtErr) p t collID Ht Hc Hl) as (b' & E' & L & D & Z).
  assert (b' = b) as -> by congruence. clear E'.
  assert (Hh : hdr b = MkPageHeader t 0 0 0 0 collID 0 (BodySize (blen p)) NullPage)
    by (unfold hdr; by rewrite D).
  assert (Hcnt : count b = 0) by (unfold count; by rewrite Hh).
  assert (Habs : abs b = []) by (unfold abs; by rewrite Hcnt).
  assert (Hlb : blen b = blen p) by (unfold blen; by rewrite L).
  split; [|done]. constructor.
  - lia.
  - unfold InitPage in HI. unfold EncodeInto, wr in HI. case_match; [|done].
    assert (b = put (Z.to_nat 0) (concat (page_header_fields (MkPageHeader t 0 0 0 0 collID 0
      (u16 (blen p - PageHeaderSize - ChecksumSize)) NullPage))) (replicate (length p) 0)) as ->
      by congruence.
    apply put_Forall; [|apply Forall_replicate; unfold byte_ok; lia].
    apply page_header_bytes_ok. unfold page_header_ok; simpl.
    split_and!; try done; try (apply wrap_in_u; lia); unfold in_u, NullPage; lia.
  - by rewrite Hh, Hcnt.
  - rewrite Hcnt. unfold fend, bl. rewrite Hh. simpl. unfold BodySize, PageHeaderSize, ChecksumSize.
    lia.
  - rewrite Hcnt. lia.
  - rewrite Hcnt. lia.
  - rewrite Habs. unfold fend, bl. rewrite Hh. simpl. unfold BodySize, PageHeaderSize, ChecksumSize.
    lia.
Qed.

(** The slot an operation writes. *)
Definition op_target (o : op) : option Z :=
  match o with
  | OUpdate i _ | OReplace i _ | ODelete i | OSetForward i _ _ => Some i
  | _ => None
  end.

Lemma a_run_keeps cap o l k s :
  l !! k = Some s -> op_target o <> Some (Z.of_nat k) -> (a_run cap o l).2 !! k = Some s.
Proof.
  intros Hk Ht. assert (Hset : forall i v, a_get i l <> None -> i <> Z.of_nat k -> a_set i v l !! k = Some s).
  { intros i v Hg Hne. unfold a_set. rewrite list_lookup_insert_ne; [done|].
    unfold a_get in Hg. destruct (bad_slot i (blen l)) eqn:E; [done|]. apply bad_slot_false in E. lia. }
  destruct o as [p|i|i p|i p|i|i pg sl|i|i|i| |n|]; cbn [a_run op_target] in *; try done.
  - destruct (_ || _); [done|]. by apply lookup_app_l_Some.
  - by destruct (a_live i l).
  - unfold a_live in *. destruct (a_get i l) as [[]|] eqn:E; try done.
    destruct (_ =? _); [|done]. apply Hset; congruence.
  - unfold a_live in *. destruct (a_get i l) as [[]|] eqn:E; try done.
    destruct (_ <? _); [done|]. apply Hset; congruence.
  - destruct (a_get i l) eqn:E; [|done]. apply Hset; congruence.
  - destruct (a_get i l) eqn:E; [|done]. destruct (_ || _); [|done]. apply Hset; congruence.
  - by destruct (a_get i l) as [[]|].
Qed.

Lemma a_run_all_keeps cap os l k s :
  l !! k = Some s -> Forall (fun o => op_target o <> Some (Z.of_nat k)) os ->
  (a_run_all cap os l).2 !! k = Some s.
Proof.
  intros Hk Hos. revert l Hk. induction Hos as [|o os Ho Hos IH]; intros l Hk; [done|].
  cbn [a_run_all]. pose proof (a_run_keeps cap o l k s Hk Ho) as H1.
  destruct (a_run cap o l) as [r l1]. cbn [snd] in H1. specialize (IH l1 H1).
  by destruct (a_run_all cap os l1).
Qed.

(** Outstanding record identifiers stay valid: once AddCell has returned a
    slot, any sequence of operations that does not update, replace, delete or
    forward that slot, whatever it does to the other slots and however often it
    compacts the page, leaves the slot reading as the same payload. *)
Theorem slot_stable p i b b' os :
  swf b -> bytes_ok p -> AddCell p b = (Ok i, b') ->
  Forall op_ok os -> Forall (fun o => op_target o <> Some i) os ->
  exists b'', (run_all os b').2 = b'' /\ swf b'' /\ Cell i b'' = (Ok p, b'').
Proof.
  intros Hw Hp Ha Hos Hos'. pose proof (AddCell_spec b p Hw Hp) as H. destruct (_ || _); [congruence|].
  destruct H as (b0 & R & W & L & A). assert (i = count b /\ b0 = b') as [-> ->].
  { rewrite R in Ha. split; congruence. }
  pose proof (wf_count b Hw) as Hc. pose proof (length_abs b Hc) as Hla.
  destruct (run_all_refines os b' W Hos) as (b'' & R' & W' & L' & A').
  exists b''. rewrite R'. split_and!; [done|done|]. rewrite Cell_spec by done.
  assert (Hk : abs b'' !! Z.to_nat (count b) = Some (ALive p)).
  { rewrite A', A. apply a_run_all_keeps; [|by rewrite Z2Nat.id by lia].
    rewrite lookup_app_r by (unfold blen in Hla; lia).
    by replace (_ - _)%nat with 0%nat by (unfold blen in Hla; lia). }
  unfold a_live, a_get. rewrite (proj2 (bad_slot_false _ _)); [by rewrite Hk|].
  apply lookup_lt_Some in Hk. unfold blen. lia.
Qed.

(** ** A concrete page *)

Definition demo_page : bytes :=
  match InitPage (E:=fmtErr) (replicate 96 0) PageHeap 7 with Ok b => b | _ => [] end.

Lemma demo_page_swf : swf demo_page.
Proof.
  apply (InitPage_swf (replicate 96 0) PageHeap 7).
  - unfold in_u, PageHeap; lia.
  - unfold in_u; lia.
  - vm_compute; split; discriminate.
  - vm_compute; reflexivity.
Qed.

Lemma demo_bytes_ok : bytes_ok [1; 2; 3].
Proof. repeat constructor; unfold byte_ok; lia. Qed.

(** The page runs: adds, an in-place update, a growing replacement that
    compacts, a forwarding tombstone, and the errors. *)
Example demo_run :
  (run_all [OAdd [1; 2; 3]; OAdd (replicate 20 4); OAdd (replicate 9 5); OUpdate 0 [9; 9; 9];
            ODelete 1; OReplace 0 (replicate 24 6); OSetForward 2 77 3; OForward 2; OCell 0;
            OCell 1; OCell 3; OAdd (replicate 60 1); OAvail] demo_page).1 =
  [Ok (RSlot 0); Ok (RSlot 1); Ok (RSlot 2); Ok RUnit; Ok RUnit; Ok RUnit; Ok RUnit;
   Ok (RTarget 77 3 true); Ok (RBytes (replicate 24 6)); Err ErrSlotDead; Err ErrBadSlot;
   Err ErrNoSpace; Ok (RInt 16)].
Proof. vm_compute. reflexivity. Qed.

Lemma slotted_refines_witness :
  swf demo_page /\ exists b', run (OAdd [1; 2; 3]) demo_page = (Ok (RSlot 0), b') /\ swf b'.
Proof.
  split; [exact demo_page_swf|].
  destruct (slotted_refines (OAdd [1; 2; 3]) demo_page demo_page_swf demo_bytes_ok)
    as (b' & R & W & _). exists b'. split; [|exact W].
  refine (eq_trans R _). vm_compute. reflexivity.
Defined.

Lemma slot_stable_witness :
  exists b'', (run_all [OAdd [7]; ODelete 1; OCompact] (AddCell [1; 2; 3] demo_page).2).2 = b'' /\
    Cell 0 b'' = (Ok [1; 2; 3], b'').
Proof.
  destruct (slot_stable [1; 2; 3] 0 demo_page (AddCell [1; 2; 3] demo_page).2
    [OAdd [7]; ODelete 1; OCompact] demo_page_swf demo_bytes_ok) as (b'' & R & _ & C).
  - vm_compute. reflexivity.
  - constructor; [|repeat constructor]. repeat constructor; unfold byte_ok; lia.
  - repeat constructor; discriminate.
  - exists b''. split; [exact R|exact C].
Defined.
