(* ===== verification/Overflow.v ===== *)
(** * format/overflow.go: overflow chains

    Payloads spread over a head page and continuation pages linked by their
    right siblings, and the reader that reassembles them. *)

From S2P Require Import Prelude Checksum Page.

Definition overflowHeadHdr : Z := 16.

Definition OverflowHeadCapacity (pageSize : Z) : Z := BodySize pageSize - overflowHeadHdr.
Definition OverflowContCapacity (pageSize : Z) : Z := BodySize pageSize.

(** Go's integer division truncates; a zero capacity panics. *)
Definition OverflowPageCount {E} (n pageSize : Z) : res E Z :=
  let head := OverflowHeadCapacity pageSize in
  if n <=? head then Ok 1
  else
    let rem := n - head in
    let cont := OverflowContCapacity pageSize in
    if cont =? 0 then Panic else Ok (1 + Z.quot (rem + cont - 1) cont).

Definition crc32cOf (b : bytes) : Z := crc32_Update 0 b.

(** len(bodyOf(p)): the slice expression panics on a page shorter than 36. *)
Definition body_len {E} (p : bytes) : res E Z :=
  if BodyOffset <=? blen p - ChecksumSize then Ok (bl p) else Panic.

Definition with_RightSib (next : Z) (h : PageHeader) : PageHeader :=
  MkPageHeader (ph_Type h) (ph_Flags h) (ph_Codec h) (ph_EntryCount h) (ph_PageLSN h)
    (ph_CollIDEntry h) (ph_FreeStart h) (ph_FreeEnd h) next.

Definition with_EntryCount (n : Z) (h : PageHeader) : PageHeader :=
  MkPageHeader (ph_Type h) (ph_Flags h) (ph_Codec h) n (ph_PageLSN h)
    (ph_CollIDEntry h) (ph_FreeStart h) (ph_FreeEnd h) (ph_RightSib h).

Section write.
Context {E : Type} (payload : bytes) (collID algo : Z).

(** The slice payload[off : off+n]. *)
Definition chunk (off n : Z) : res E bytes :=
  if n <? 0 then Panic else rd off n payload.

(** The number of the page after this one: pageNos[i+1] when there is one. *)
Definition next_no (ps : list bytes) (nos : list Z) : res E Z :=
  match ps with [] => Ok NullPage | _ :: _ => or_panic (nos !! 1%nat) end.

(** The continuation pages; nos is pageNos[i:], off the payload offset. *)
Fixpoint write_conts (off : Z) (ps : list bytes) (nos : list Z) : res E (list bytes) :=
  match ps with
  | [] => Ok []
  | p :: ps' =>
      let* p1 := InitPage p PageOverflowCont collID in
      let* n := body_len p1 in
      let take := if off + n >? blen payload then blen payload - off else n in
      let* c := chunk off take in
      let* p2 := body_set 0 c p1 in
      let* h := DecodePageHeader p2 in
      let* next := next_no ps' nos in
      let* p3 := EncodeInto (with_RightSib next h) p2 in
      let* rest := write_conts (off + take) ps' (tail nos) in
      Ok (p3 :: rest)
  end.

Fixpoint write_sums (ps : list bytes) : res E (list bytes) :=
  match ps with
  | [] => Ok []
  | p :: ps' =>
      let* '(_, p') := WritePageChecksum p algo in
      let* rest := write_sums ps' in Ok (p' :: rest)
  end.

(** The payload header and the inline bytes of the head page. *)
Definition head_body (chainSum inline : Z) (p1 : bytes) : res E bytes :=
  let* p2 := body_set 0 (le_bytes 4 (blen payload)) p1 in
  let* p3 := body_set 4 (le_bytes 4 inline) p2 in
  let* p4 := body_set 8 (le_bytes 4 chainSum) p3 in
  let* c := chunk 0 inline in
  body_set overflowHeadHdr c p4.

Definition WriteOverflowChain (pages : list bytes) (pageNos : list Z) : res E (Z * list bytes) :=
  match pages with
  | [] => Panic
  | p :: ps =>
      let n := blen pages in
      let chainSum := crc32cOf payload in
      let* p1 := InitPage p PageOverflowHead collID in
      let* bn := body_len p1 in
      let headCap := bn - overflowHeadHdr in
      let inline := if blen payload >? headCap then headCap else blen payload in
      let* p5 := head_body chainSum inline p1 in
      let* h := DecodePageHeader p5 in
      let* next := next_no ps pageNos in
      let* p6 := EncodeInto (with_RightSib next (with_EntryCount (u32 (n - 1)) h)) p5 in
      let* rest := write_conts inline ps (tail pageNos) in
      let* done := write_sums (p6 :: rest) in
      let* no := or_panic (head pageNos) in
      Ok (no, done)
  end.
End write.

Section read.
(** fetch is the pager's: an error of its own, or the buffer of a page; W is what
    it acts on. *)
Context {FE W : Type} (fetch : Z -> W -> res FE bytes * W) (algo : Z).

Definition lift_fetch (r : res FE bytes) : res (FE + fmtErr) bytes :=
  match r with Ok b => Ok b | Err e => Err (inl e) | Panic => Panic end.

Definition lift_fmt {A} (r : res fmtErr A) : res (FE + fmtErr) A :=
  match r with Ok a => Ok a | Err e => Err (inr e) | Panic => Panic end.

(** The loop over the continuation pages: None when the fuel ran out. *)
Fixpoint read_conts (fuel : nat) (next total : Z) (out : bytes) (w : W) : option (res (FE + fmtErr) bytes) * W :=
  if next =? NullPage then (Some (Ok out), w)
  else
    match fuel with
    | O => (None, w)
    | S fuel' =>
        let '(r, w') := fetch next w in
        match
          (let* cp := lift_fetch r in
           let* _ := lift_fmt (VerifyPageChecksum cp algo) in
           let* ch := DecodePageHeader cp in
           if negb (ph_Type ch =? PageOverflowCont) then Err (inr ErrChainCorrupt)
           else
             let* n := body_len cp in
             let take := if blen out + n >? total then total - blen out else n in
             let* c := if take <? 0 then Panic else body_get 0 take cp in
             Ok (out ++ c, ph_RightSib ch))
        with
        | Ok (out', next') => read_conts fuel' next' total out' w'
        | Err e => (Some (Err e), w')
        | Panic => (Some Panic, w')
        end
    end.

Definition ReadOverflowChain (fuel : nat) (headPage : Z) (w : W) : option (res (FE + fmtErr) bytes) * W :=
  let '(r, w1) := fetch headPage w in
  match
    (let* hp := lift_fetch r in
     let* _ := lift_fmt (VerifyPageChecksum hp algo) in
     let* hh := DecodePageHeader hp in
     if negb (ph_Type hh =? PageOverflowHead) then Err (inr ErrChainCorrupt)
     else
       let* n := body_len hp in
       let* t := body_get 0 4 hp in
       let* i := body_get 4 4 hp in
       let* s := body_get 8 4 hp in
       let total := le_val t in
       let inline := le_val i in
       if (inline >? n - overflowHeadHdr) || (inline >? total) then Err (inr ErrChainCorrupt)
       else
         let* c := body_get overflowHeadHdr inline hp in
         Ok (total, le_val s, c, ph_RightSib hh))
  with
  | Err e => (Some (Err e), w1)
  | Panic => (Some Panic, w1)
  | Ok (total, wantSum, out, next) =>
      let '(r2, w2) := read_conts fuel next total out w1 in
      (match r2 with
       | None => None
       | Some (Err e) => Some (Err e)
       | Some Panic => Some Panic
       | Some (Ok out') =>
           if negb (blen out' =? total) then Some (Err (inr ErrChainCorrupt))
           else if negb (crc32cOf out' =? wantSum) then Some (Err (inr ErrChainCorrupt))
           else Some (Ok out')
       end, w2)
  end.
End read.

(** ** Lemmas: the writer *)

(** What a written page holds: its type, its link and its run of payload. *)
Record page_holds (ty next : Z) (off : Z) (c : bytes) (q : bytes) : Prop := {
  ph_len : 52 <= blen q <= 65536;
  ph_bytes : bytes_ok q;
  ph_ty : ph_Type (hdr q) = ty;
  ph_next : ph_RightSib (hdr q) = next;
  ph_fits : 0 <= off /\ off + blen c <= bl q;
  ph_data : csub off (blen c) q = c
}.

Lemma with_RightSib_ok next h : in_u 32 next -> page_header_ok h -> page_header_ok (with_RightSib next h).
Proof. unfold page_header_ok, with_RightSib; simpl. tauto. Qed.

Lemma with_EntryCount_ok n h : in_u 32 n -> page_header_ok h -> page_header_ok (with_EntryCount n h).
Proof. unfold page_header_ok, with_EntryCount; simpl. tauto. Qed.

Lemma body_len_Ok {E} p : 36 <= blen p -> body_len (E:=E) p = Ok (bl p).
Proof.
  intros H. unfold body_len, BodyOffset, PageHeaderSize, ChecksumSize.
  by rewrite (proj2 (Z.leb_le _ _)) by lia.
Qed.

Section spec.
Context {E : Type} (payload : bytes) (collID algo : Z).
Context (Hpay : bytes_ok payload) (Hcoll : in_u 32 collID) (Halgo : Supported algo = true).

Lemma chunk_Ok off n :
  0 <= off -> 0 <= n -> off + n <= blen payload ->
  chunk (E:=E) payload off n = Ok (sub (Z.to_nat off) (Z.to_nat n) payload).
Proof.
  intros. unfold chunk. rewrite (proj2 (Z.ltb_ge _ _)) by lia. by apply rd_Ok.
Qed.

Lemma blen_sub off n : 0 <= off -> 0 <= n -> off + n <= blen payload ->
  blen (sub (Z.to_nat off) (Z.to_nat n) payload) = n.
Proof. intros. unfold blen in *. rewrite length_sub by lia. lia. Qed.

(** Setting the link (and, on the head, the count) after the body was filled. *)
Lemma link_page {A} (k : bytes -> res E A) h' ty c off q :
  page_header_ok h' -> ph_Type h' = ty -> page_holds (ph_Type (hdr q)) (ph_RightSib (hdr q)) off c q ->
  exists q', (let* p3 := EncodeInto (E:=E) h' q in k p3) = k q' /\
    page_holds ty (ph_RightSib h') off c q' /\ blen q' = blen q /\
    (forall x m, 0 <= x -> csub x m q' = csub x m q).
Proof.
  intros Hh Hty [Hl Hb _ _ Hf Hd].
  destruct (EncodeInto_spec (E:=E) h' q) as (q' & R & L & B & Hh' & C); [lia|done|done|].
  exists q'. rewrite R. cbn [res_bind]. split_and!; try done. constructor; try done; try lia.
  - by rewrite Hh'.
  - by rewrite Hh'.
  - unfold bl in *. lia.
  - by rewrite C by lia.
Qed.

(** The pages of the chain after the head: page i holds the payload from the
    offset the pages before it left, and links to the next. *)
Fixpoint conts_hold (off : Z) (qs : list bytes) (nos : list Z) : Prop :=
  match qs, nos with
  | [], [] => True
  | q :: qs', _ :: nos' =>
      let take := Z.min (bl q) (blen payload - off) in
      page_holds PageOverflowCont (default NullPage (head nos')) 0
        (sub (Z.to_nat off) (Z.to_nat take) payload) q /\
      conts_hold (off + take) qs' nos'
  | _, _ => False
  end.

Lemma next_no_Ok ps no nos :
  length nos = length ps -> next_no (E:=E) ps (no :: nos) = Ok (default NullPage (head nos)).
Proof. by destruct ps, nos. Qed.

Lemma head_u32 nos : Forall (in_u 32) nos -> in_u 32 (default NullPage (head nos)).
Proof. intros [|]; simpl; [unfold in_u, NullPage; lia|done]. Qed.

Lemma write_conts_spec ps : forall off nos,
  Forall (fun p => 52 <= blen p <= 65536) ps -> length nos = length ps ->
  Forall (in_u 32) nos -> 0 <= off <= blen payload ->
  exists qs, write_conts (E:=E) payload collID off ps nos = Ok qs /\ conts_hold off qs nos /\
    map blen qs = map blen ps.
Proof.
  induction ps as [|p ps IH]; intros off nos Hps Hnos Hu Hoff.
  { destruct nos; [|done]. by exists []. }
  destruct nos as [|no nos]; [done|]. injection Hnos as Hnos.
  apply Forall_cons in Hps as [Hp Hps]. apply Forall_cons in Hu as [Hno Hu].
  cbn [write_conts tail].
  destruct (InitPage_spec (E:=E) p PageOverflowCont collID) as (p1 & R1 & L1 & B1 & H1);
    [unfold in_u, PageOverflowCont; lia|done|lia|].
  rewrite R1. cbn [res_bind]. rewrite body_len_Ok by lia. cbn [res_bind].
  assert (Etake : (if off + bl p1 >? blen payload then blen payload - off else bl p1) =
                  Z.min (bl p1) (blen payload - off)).
  { rewrite Z.gtb_ltb. destruct (Z.ltb_spec (blen payload) (off + bl p1)); lia. }
  rewrite Etake. set (tk := Z.min (bl p1) (blen payload - off)).
  assert (Htk : 0 <= tk /\ tk <= bl p1 /\ off + tk <= blen payload).
  { unfold tk. unfold bl in *. lia. }
  rewrite chunk_Ok by lia. cbn [res_bind].
  set (c := sub (Z.to_nat off) (Z.to_nat tk) payload).
  assert (Hc : blen c = tk) by (apply blen_sub; lia).
  rewrite body_set_Ok by lia. cbn [res_bind].
  assert (E2 : blen (cput 0 c p1) = blen p1) by (apply blen_cput; lia).
  rewrite Decode_hdr by lia. cbn [res_bind]. rewrite next_no_Ok by done. cbn [res_bind].
  assert (Hh2 : hdr (cput 0 c p1) = hdr p1) by (apply hdr_cput; lia).
  assert (B2 : bytes_ok (cput 0 c p1)) by (apply bytes_ok_cput; [by apply sub_Forall|done]).
  assert (Hq0 : page_holds (ph_Type (hdr (cput 0 c p1))) (ph_RightSib (hdr (cput 0 c p1))) 0 c (cput 0 c p1)).
  { constructor; try done; [lia| |].
    - unfold bl in *. lia.
    - apply csub_cput_same; lia. }
  destruct (link_page (fun p3 => let* rest := write_conts payload collID (off + tk) ps nos in Ok (p3 :: rest))
    (with_RightSib (default NullPage (head nos)) (hdr (cput 0 c p1))) PageOverflowCont c 0 (cput 0 c p1))
    as (q & Rq & Hq & Lq & _); [|by rewrite Hh2, H1|done|].
  { apply with_RightSib_ok; [by apply head_u32|by apply hdr_ok]. }
  rewrite Rq.
  destruct (IH (off + tk) nos) as (qs & -> & Hqs & Lqs); [done|done|done|lia|].
  exists (q :: qs). cbn [res_bind conts_hold map]. rewrite Lqs.
  assert (Hbl : bl q = bl p1) by (unfold bl; lia). rewrite Hbl. fold tk.
  split_and!; [done|exact Hq|done|by rewrite Lq, E2, L1].
Qed.

Lemma page_holds_sum ty next off c q :
  page_holds ty next off c q ->
  exists s q', WritePageChecksum (E:=E) q algo = Ok (s, q') /\ page_holds ty next off c q' /\
    VerifyPageChecksum q' algo = Ok tt /\ blen q' = blen q /\
    (forall x m, 0 <= x -> 0 <= m -> x + m <= bl q -> csub x m q' = csub x m q).
Proof.
  intros [Hl Hb Ht Hn Hf Hd].
  destruct (WritePageChecksum_spec (E:=E) q algo Halgo Hb) as (s & q' & R & L & B & Hh & V & C); [lia|].
  exists s, q'. split_and!; try done. constructor; try done; try lia.
  - by rewrite Hh.
  - by rewrite Hh.
  - unfold bl in *. lia.
  - destruct Hf. assert (0 <= blen c) by (unfold blen; lia). by rewrite C by lia.
Qed.

Lemma write_sums_spec qs : forall off nos,
  conts_hold off qs nos ->
  exists qs', write_sums (E:=E) algo qs = Ok qs' /\ conts_hold off qs' nos /\
    Forall (fun q => VerifyPageChecksum q algo = Ok tt) qs' /\ map blen qs' = map blen qs.
Proof.
  induction qs as [|q qs IH]; intros off nos H.
  { exists []. split_and!; done. }
  destruct nos as [|no nos]; [done|]. destruct H as [Hq Hqs].
  destruct (page_holds_sum _ _ _ _ _ Hq) as (s & q' & R & Hq' & V & L & _).
  destruct (IH _ nos Hqs) as (qs' & R' & Hqs' & Vs & Ls).
  exists (q' :: qs'). cbn [write_sums]. rewrite R. cbn [res_bind]. rewrite R'. cbn [res_bind].
  assert (Hbl : bl q' = bl q) by (unfold bl; lia).
  cbn [conts_hold]. rewrite Hbl. split_and!; [done|done|done|by constructor|cbn [map]; by rewrite L, Ls].
Qed.
End spec.

(** The head page: total length, inline length, chain checksum, first run. *)
Definition head_holds (payload : bytes) (next : Z) (q : bytes) : Prop :=
  let inline := Z.min (bl q - overflowHeadHdr) (blen payload) in
  52 <= blen q <= 65536 /\ bytes_ok q /\
  ph_Type (hdr q) = PageOverflowHead /\ ph_RightSib (hdr q) = next /\
  csub 0 4 q = le_bytes 4 (blen payload) /\ csub 4 4 q = le_bytes 4 inline /\
  csub 8 4 q = le_bytes 4 (crc32cOf payload) /\
  csub overflowHeadHdr inline q = sub 0 (Z.to_nat inline) payload.

Section spec2.
Context {E : Type} (payload : bytes) (collID algo : Z).
Context (Hpay : bytes_ok payload) (Hcoll : in_u 32 collID) (Halgo : Supported algo = true).

Lemma head_holds_frame next next' q q' :
  head_holds payload next q -> blen q' = blen q -> bytes_ok q' ->
  ph_Type (hdr q') = PageOverflowHead -> ph_RightSib (hdr q') = next' ->
  (forall x m, 0 <= x -> 0 <= m -> x + m <= bl q -> csub x m q' = csub x m q) ->
  head_holds payload next' q'.
Proof.
  intros (Hl & Hb & Ht & Hn & C0 & C4 & C8 & C16) L B T N C. unfold head_holds, overflowHeadHdr in *.
  assert (Hbl : bl q' = bl q) by (unfold bl; lia). rewrite Hbl in *.
  assert (0 <= blen payload) by (unfold blen; lia).
  split_and!; try done; try lia; rewrite C; unfold bl in *; done || lia.
Qed.

(** Filling the head page's body. *)
Lemma fill_head p1 :
  52 <= blen p1 <= 65536 -> bytes_ok p1 -> ph_Type (hdr p1) = PageOverflowHead ->
  let inline := Z.min (bl p1 - overflowHeadHdr) (blen payload) in
  exists p5, head_body (E:=E) payload (crc32cOf payload) inline p1 = Ok p5 /\
    head_holds payload (ph_RightSib (hdr p1)) p5 /\ hdr p5 = hdr p1 /\ blen p5 = blen p1.
Proof.
  intros Hl Hb Ht inline. unfold overflowHeadHdr in *.
  assert (L4 : forall v, blen (le_bytes 4 v) = 4) by (intros; unfold blen; by rewrite length_le_bytes).
  assert (0 <= blen payload) by (unfold blen; lia).
  assert (Hin : 0 <= inline <= blen payload /\ inline <= bl p1 - 16) by (unfold inline, bl; lia).
  set (p2 := cput 0 (le_bytes 4 (blen payload)) p1).
  assert (E2 : blen p2 = blen p1) by (apply blen_cput; unfold bl; rewrite ?L4; lia).
  set (p3 := cput 4 (le_bytes 4 inline) p2).
  assert (E3 : blen p3 = blen p1) by (unfold p3; rewrite blen_cput; unfold bl; rewrite ?L4; lia).
  set (p4 := cput 8 (le_bytes 4 (crc32cOf payload)) p3).
  assert (E4 : blen p4 = blen p1) by (unfold p4; rewrite blen_cput; unfold bl; rewrite ?L4; lia).
  set (c := sub 0 (Z.to_nat inline) payload).
  assert (Hc : blen c = inline) by (apply (blen_sub payload 0 inline); lia).
  set (p5 := cput 16 c p4).
  assert (B1 : forall p, blen p = blen p1 -> bl p = bl p1) by (intros; unfold bl; lia).
  assert (Hbl : 16 <= bl p1) by (unfold bl; lia).
  assert (E5 : blen p5 = blen p1) by (unfold p5; rewrite blen_cput; unfold bl in *; lia).
  exists p5. unfold head_body, overflowHeadHdr. rewrite body_set_Ok by (rewrite ?L4; lia). cbn [res_bind]. fold p2.
  rewrite body_set_Ok by (rewrite ?L4, ?(B1 p2 E2); lia). cbn [res_bind]. fold p3.
  rewrite body_set_Ok by (rewrite ?L4, ?(B1 p3 E3); lia). cbn [res_bind]. fold p4.
  rewrite chunk_Ok by lia. cbn [res_bind]. change (Z.to_nat 0) with 0%nat. fold c.
  rewrite body_set_Ok by (rewrite ?(B1 p4 E4); lia). fold p5.
  assert (H5 : hdr p5 = hdr p1).
  { unfold p5. rewrite hdr_cput by (rewrite ?(B1 p4 E4); lia). unfold p4.
    rewrite hdr_cput by (rewrite ?L4, ?(B1 p3 E3); lia). unfold p3.
    rewrite hdr_cput by (rewrite ?L4, ?(B1 p2 E2); lia). apply hdr_cput; rewrite ?L4; lia. }
  assert (C5 : forall x m, 0 <= x -> 0 <= m -> x + m <= 16 -> csub x m p5 = csub x m p4).
  { intros. unfold p5. apply csub_cput_ne; rewrite ?(B1 p4 E4); lia. }
  assert (C4 : forall x m, 0 <= x -> 0 <= m -> x + m <= 8 -> csub x m p4 = csub x m p3).
  { intros. unfold p4. apply csub_cput_ne; rewrite ?L4, ?(B1 p3 E3); lia. }
  split_and!; try done. unfold head_holds, overflowHeadHdr. rewrite (B1 p5 E5). fold inline.
  rewrite H5. split_and!; try done; try lia.
  - unfold p5, p4, p3, p2. repeat (apply bytes_ok_cput; [by (apply bytes_ok_le || by apply sub_Forall)|]).
    done.
  - rewrite C5, C4 by lia. unfold p3. rewrite csub_cput_ne by (rewrite ?L4, ?(B1 p2 E2); lia).
    apply csub_cput_same'; rewrite ?L4; lia.
  - rewrite C5, C4 by lia. apply csub_cput_same'; rewrite ?L4, ?(B1 p2 E2); lia.
  - rewrite C5 by lia. apply csub_cput_same'; rewrite ?L4, ?(B1 p3 E3); lia.
  - apply (csub_cput_same' 16 inline c p4); [exact Hc|lia|rewrite (B1 p4 E4); lia].
Qed.

(** The whole writer. *)
Lemma WriteOverflowChain_spec p ps no nos :
  52 <= blen p <= 65536 -> Forall (fun p => 52 <= blen p <= 65536) ps ->
  length nos = length ps -> in_u 32 no -> Forall (in_u 32) nos ->
  exists q qs, WriteOverflowChain (E:=E) payload collID algo (p :: ps) (no :: nos) = Ok (no, q :: qs) /\
    blen q = blen p /\ map blen qs = map blen ps /\
    head_holds payload (default NullPage (head nos)) q /\
    conts_hold payload (Z.min (bl p - overflowHeadHdr) (blen payload)) qs nos /\
    Forall (fun q => VerifyPageChecksum q algo = Ok tt) (q :: qs).
Proof.
  intros Hp Hps Hl Hno Hnos. cbn [WriteOverflowChain].
  destruct (InitPage_spec (E:=E) p PageOverflowHead collID) as (p1 & R1 & L1 & B1 & H1);
    [unfold in_u, PageOverflowHead; lia|done|lia|].
  rewrite R1. cbn [res_bind]. rewrite body_len_Ok by lia. cbn [res_bind].
  assert (Hbl : bl p1 = bl p) by (unfold bl; lia).
  assert (Einl : (if blen payload >? bl p1 - overflowHeadHdr then bl p1 - overflowHeadHdr else blen payload)
    = Z.min (bl p1 - overflowHeadHdr) (blen payload)).
  { rewrite Z.gtb_ltb. destruct (Z.ltb_spec (bl p1 - overflowHeadHdr) (blen payload)); lia. }
  rewrite Einl.
  destruct (fill_head p1) as (p5 & R5 & H5 & Hh5 & L5); [lia|done|by rewrite H1|].
  cbv zeta in R5. rewrite R5. cbn [res_bind]. rewrite Decode_hdr by lia. cbn [res_bind].
  rewrite next_no_Ok by done. cbn [res_bind tail].
  assert (B5 : bytes_ok p5) by apply H5.
  set (h6 := with_RightSib (default NullPage (head nos)) (with_EntryCount (u32 (blen (p :: ps) - 1)) (hdr p5))).
  destruct (EncodeInto_spec (E:=E) h6 p5) as (p6 & R6 & L6 & B6 & Hh6 & C6); [lia| |done|].
  { apply with_RightSib_ok; [by apply head_u32|]. apply with_EntryCount_ok; [apply wrap_in_u; lia|].
    by apply hdr_ok. }
  rewrite R6. cbn [res_bind]. rewrite Hbl in *.
  set (inline := Z.min (bl p - overflowHeadHdr) (blen payload)) in *.
  assert (Hi : 0 <= inline <= blen payload).
  { unfold inline, overflowHeadHdr, bl, blen in *. lia. }
  destruct (write_conts_spec (E:=E) payload collID Hpay Hcoll ps inline nos) as (qs & Rq & Hqs & Lq);
    try done.
  rewrite Rq. cbn [res_bind write_sums].
  assert (H6 : head_holds payload (default NullPage (head nos)) p6).
  { eapply head_holds_frame; [exact H5|lia|done|by rewrite Hh6; simpl; rewrite Hh5, H1|by rewrite Hh6|].
    intros. by apply C6. }
  destruct (WritePageChecksum_spec (E:=E) p6 algo Halgo B6) as (s & q & R7 & L7 & B7 & Hh7 & V7 & C7);
    [lia|].
  rewrite R7. cbn [res_bind].
  destruct (write_sums_spec (E:=E) payload algo Halgo qs inline nos Hqs) as (qs' & R8 & Hqs' & V8 & L8).
  rewrite R8. cbn [res_bind head or_panic].
  exists q, qs'. split_and!; [done|lia|by rewrite L8, Lq| |done|by constructor].
  eapply head_holds_frame; [exact H6|lia|done|by rewrite Hh7, Hh6; simpl; rewrite Hh5, H1|
    by rewrite Hh7, Hh6|done].
Qed.
End spec2.

(** ** Lemmas: the reader *)

(** How far the payload reaches after the pages of a chain. *)
Fixpoint reach (total off : Z) (qs : list bytes) : Z :=
  match qs with
  | [] => off
  | q :: qs' => reach total (off + Z.min (bl q) (total - off)) qs'
  end.

Lemma reach_uniform total B qs : forall off,
  0 <= B -> 0 <= off <= total -> Forall (fun q => bl q = B) qs ->
  reach total off qs = Z.min total (off + Z.of_nat (length qs) * B).
Proof.
  induction qs as [|q qs IH]; intros off HB Hoff Hq; cbn [reach length].
  - lia.
  - apply Forall_cons in Hq as [-> Hq]. rewrite IH by (done || lia). nia.
Qed.

Lemma sub_take_snoc (l : bytes) off n :
  0 <= off -> 0 <= n ->
  take (Z.to_nat off) l ++ sub (Z.to_nat off) (Z.to_nat n) l = take (Z.to_nat (off + n)) l.
Proof.
  intros. rewrite Z2Nat.inj_add by lia. unfold sub. apply take_take_drop.
Qed.

Section reader.
Context {FE W : Type} (fetch : Z -> W -> res FE bytes * W) (I : W -> Prop) (F : FE -> Prop) (payload : bytes) (algo : Z).

(** In a state of I, fetch returns the pages of the chain, or fails with an error
    of F, and stays in I. *)
Definition serves (qs : list bytes) (nos : list Z) : Prop :=
  forall i q no w, qs !! i = Some q -> nos !! i = Some no -> I w ->
    no <> NullPage /\ exists r w', fetch no w = (r, w') /\ I w' /\ (r = Ok q \/ exists e, r = Err e /\ F e).

Lemma serves_tail q no qs nos : serves (q :: qs) (no :: nos) -> serves qs nos.
Proof. intros H i q' no' w Hq Hn. by apply (H (S i)). Qed.

Lemma read_conts_spec qs : forall off nos fuel w,
  conts_hold payload off qs nos -> Forall (fun q => VerifyPageChecksum q algo = Ok tt) qs ->
  serves qs nos -> 0 <= off <= blen payload -> (length qs <= fuel)%nat -> I w ->
  exists r w', I w' /\ read_conts fetch algo fuel (default NullPage (head nos)) (blen payload) (take (Z.to_nat off) payload) w = (Some r, w') /\
    (r = Ok (take (Z.to_nat (reach (blen payload) off qs)) payload) \/ exists e, r = Err (inl e) /\ F e).
Proof.
  induction qs as [|q qs IH]; intros off nos fuel w Hc Hv Hs Hoff Hf Hw.
  { destruct nos; [|done]. exists (Ok (take (Z.to_nat off) payload)), w. split; [done|]. cbn [head default reach]. split; [|by left]. by destruct fuel. }
  destruct nos as [|no nos]; [done|]. destruct Hc as [[Hl Hb Ht Hn Hfit Hd] Hc].
  apply Forall_cons in Hv as [Hv Hvs]. destruct (Hs 0%nat q no w eq_refl eq_refl Hw) as (Hno & r1 & w1 & Hfetch & Hw1 & Hr1).
  destruct fuel as [|fuel]; [simpl in Hf; lia|]. 
  change (default NullPage (head (no :: nos))) with no.
  cbn [read_conts]. rewrite (proj2 (Z.eqb_neq no NullPage)) by done.
  rewrite Hfetch. destruct Hr1 as [->|(e & -> & He)].
  2:{ cbn [lift_fetch res_bind]. exists (Err (inl e)), w1. split; [done|]. split; [done|]. right. by exists e. }
  cbn [lift_fetch res_bind]. rewrite Hv. cbn [lift_fmt res_bind].
  rewrite Decode_hdr by lia. cbn [res_bind]. rewrite Ht, Z.eqb_refl. cbn [negb].
  rewrite body_len_Ok by lia. cbn [res_bind].
  assert (Eout : blen (take (Z.to_nat off) payload) = off).
  { unfold blen in *. rewrite length_take. lia. }
  rewrite Eout.
  assert (Etake : (if off + bl q >? blen payload then blen payload - off else bl q) =
                  Z.min (bl q) (blen payload - off)).
  { rewrite Z.gtb_ltb. destruct (Z.ltb_spec (blen payload) (off + bl q)); lia. }
  rewrite Etake. set (tk := Z.min (bl q) (blen payload - off)) in *.
  assert (Htk : 0 <= tk /\ off + tk <= blen payload /\ tk <= bl q) by (unfold tk, bl in *; lia).
  rewrite (proj2 (Z.ltb_ge tk 0)) by lia. rewrite body_get_Ok by lia. cbn [res_bind].
  rewrite (blen_sub payload) in Hd by lia. rewrite Hd, Hn, sub_take_snoc by lia.
  cbn [reach]. fold tk. apply (IH (off + tk)); try done; try lia.
  - by eapply serves_tail.
  - simpl in Hf. lia.
Qed.

Lemma ReadOverflowChain_spec B q qs no nos fuel w :
  0 <= B -> Forall (fun q' => bl q' = B) qs ->
  bytes_ok payload -> blen payload < 2 ^ 32 ->
  head_holds payload (default NullPage (head nos)) q ->
  conts_hold payload (Z.min (bl q - overflowHeadHdr) (blen payload)) qs nos ->
  Forall (fun q => VerifyPageChecksum q algo = Ok tt) (q :: qs) ->
  serves (q :: qs) (no :: nos) -> (length qs <= fuel)%nat -> I w ->
  exists r w', I w' /\ ReadOverflowChain fetch algo fuel no w = (Some r, w') /\
  (r = (if blen payload <=? bl q - overflowHeadHdr + Z.of_nat (length qs) * B
        then Ok payload else Err (inr ErrChainCorrupt)) \/ exists e, r = Err (inl e) /\ F e).
Proof.
  intros HB HqB Hpay Hlen Hh Hc Hv Hs Hf Hw. apply Forall_cons in Hv as [Hv Hvs].
  destruct (Hs 0%nat q no w eq_refl eq_refl Hw) as (_ & r1 & w1 & Hfetch & Hw1 & Hr1). pose proof (serves_tail _ _ _ _ Hs) as Hs'.
  destruct Hh as (Hl & Hb & Ht & Hn & C0 & C4 & C8 & C16).
  set (inline := Z.min (bl q - overflowHeadHdr) (blen payload)) in *.
  assert (Hi : 0 <= inline <= blen payload /\ inline <= bl q - overflowHeadHdr).
  { unfold inline, overflowHeadHdr, bl, blen in *. lia. }
  unfold ReadOverflowChain. rewrite Hfetch. destruct Hr1 as [->|(e & -> & He)].
  2:{ cbn [lift_fetch res_bind]. exists (Err (inl e)), w1. split; [done|]. split; [done|]. right. by exists e. }
  cbn [lift_fetch res_bind]. rewrite Hv.
  cbn [lift_fmt res_bind]. rewrite Decode_hdr by lia. cbn [res_bind].
  rewrite Ht, Z.eqb_refl. cbn [negb]. rewrite body_len_Ok by lia. cbn [res_bind].
  unfold overflowHeadHdr in *. assert (16 <= bl q) by (unfold bl; lia).
  rewrite !body_get_Ok by lia. cbn [res_bind]. rewrite C0, C4, C8.
  rewrite !le_val_le_bytes by (unfold in_u; change (8 * Z.of_nat 4) with 32; lia ||
    (apply (Checksum_range (E:=fmtErr) ChecksumCRC32C payload); done)).
  rewrite !Z.gtb_ltb, !(proj2 (Z.ltb_ge _ _)) by lia. cbn [orb].
  rewrite body_get_Ok by lia. cbn [res_bind]. rewrite C16, Hn.
  assert (E0 : sub 0 (Z.to_nat inline) payload = take (Z.to_nat inline) payload)
    by (unfold sub; by rewrite drop_0).
  destruct (read_conts_spec qs inline nos fuel w1) as (r2 & w2 & Hw2 & E2 & Hr2); [done|done|done|lia|done|done|].
  rewrite E0, E2. destruct Hr2 as [->|(e & -> & He)].
  2:{ exists (Err (inl e)), w2. split; [done|]. split; [done|]. right. by exists e. }
  eexists _, w2. split; [done|]. split; [|by left]. f_equal.
  rewrite (reach_uniform _ B) by (done || lia).
  set (r := Z.min (blen payload) (inline + Z.of_nat (length qs) * B)).
  assert (Hr : 0 <= r <= blen payload) by (unfold r; lia).
  assert (Elen : blen (take (Z.to_nat r) payload) = r).
  { unfold blen in *. rewrite length_take. lia. }
  rewrite Elen. destruct (Z.leb_spec (blen payload) (bl q - 16 + Z.of_nat (length qs) * B)) as [Hle|Hgt].
  - assert (Er : r = blen payload) by (unfold r, inline; lia). rewrite Er, Z.eqb_refl. cbn [negb].
    rewrite take_ge by (unfold blen; lia). by rewrite Z.eqb_refl.
  - rewrite (proj2 (Z.eqb_neq _ _)); [done|]. unfold r, inline. nia.
Qed.
End reader.

Lemma OverflowPageCount_le {E} n ps k :
  52 <= ps -> 0 <= n -> 1 <= k ->
  exists c, OverflowPageCount (E:=E) n ps = Ok c /\
    (n <=? OverflowHeadCapacity ps + (k - 1) * OverflowContCapacity ps) = (c <=? k).
Proof.
  intros Hps Hn Hk. unfold OverflowPageCount, OverflowHeadCapacity, OverflowContCapacity, BodySize,
    PageHeaderSize, ChecksumSize, overflowHeadHdr.
  set (B := ps - 32 - 4). assert (HB : 16 <= B) by (unfold B; lia).
  destruct (Z.leb_spec n (B - 16)) as [Hle|Hgt].
  - exists 1. split; [done|]. rewrite !(proj2 (Z.leb_le _ _)) by nia. done.
  - rewrite (proj2 (Z.eqb_neq _ _)) by lia. eexists. split; [done|].
    rewrite Z.quot_div_nonneg by lia. set (rem := n - (B - 16)).
    pose proof (Z.div_mod (rem + B - 1) B ltac:(lia)) as Hdm.
    pose proof (Z.mod_pos_bound (rem + B - 1) B ltac:(lia)) as Hmb.
    set (c := (rem + B - 1) / B) in *.
    destruct (Z.leb_spec n (B - 16 + (k - 1) * B)) as [H1|H1];
      destruct (Z.leb_spec (1 + c) k) as [H2|H2]; try done; unfold rem in *; nia.
Qed.

(** C34. Overflow chains round-trip: a payload under 4 GiB written over pages of
    one size, of 52 to 65536 bytes, and read back through a pager that serves
    the written pages is returned unchanged when the chain has at least the pages OverflowPageCount asks for,
    and is reported as a corrupt chain when it has fewer; the reader follows
    each link once. *)
Theorem overflow_roundtrip {FE W} (fetch : Z -> W -> res FE bytes * W) (I : W -> Prop) payload collID algo ps pages no nos k :
  bytes_ok payload -> blen payload < 2 ^ 32 -> in_u 32 collID -> Supported algo = true ->
  52 <= ps <= 65536 -> Forall (fun p => blen p = ps) pages -> blen pages = k ->
  length pages = length (no :: nos) -> Forall (in_u 32) (no :: nos) ->
  exists written c, WriteOverflowChain (E:=fmtErr) payload collID algo pages (no :: nos) = Ok (no, written) /\
    OverflowPageCount (E:=fmtErr) (blen payload) ps = Ok c /\
    (serves fetch I (fun _ => False) written (no :: nos) -> forall w, I w -> exists w', I w' /\
     ReadOverflowChain fetch algo (length nos) no w =
     (Some (if c <=? k then Ok payload else Err (inr ErrChainCorrupt)), w')).
Proof.
  intros Hpay Hlen Hcoll Halgo Hps Hpages Hk Hl Hnos. destruct pages as [|p pages]; [done|].
  apply Forall_cons in Hpages as [Hp Hpages]. injection Hl as Hl.
  apply Forall_cons in Hnos as [Hno Hnos].
  destruct (WriteOverflowChain_spec (E:=fmtErr) payload collID algo Hpay Hcoll Halgo p pages no nos)
    as (q & qs & R & Lq & Lqs & Hh & Hc & Hv); [lia| |done|done|done|].
  { eapply Forall_impl; [exact Hpages|]. simpl. intros; lia. }
  destruct (OverflowPageCount_le (E:=fmtErr) (blen payload) ps k) as (c & Rc & Ec);
    [lia|unfold blen; lia|rewrite <- Hk; unfold blen; simpl; lia|].
  exists (q :: qs), c. split_and!; [done|done|]. intros Hserve w Hw.
  assert (Hqs : Forall (fun q' => bl q' = ps - 36) qs).
  { apply Forall_lookup. intros i q' Hq'.
    assert (E' : map blen qs !! i = Some (blen q')) by (by rewrite list_lookup_fmap, Hq').
    rewrite Lqs, list_lookup_fmap in E'. destruct (pages !! i) as [p'|] eqn:Ep; [|done].
    injection E' as E'. rewrite Forall_lookup in Hpages. specialize (Hpages i p' Ep). unfold bl. lia. }
  assert (Hlq : length qs = length pages).
  { rewrite <- (length_map blen qs), Lqs. apply length_map. }
  assert (Hbl : bl q = bl p) by (unfold bl; lia). rewrite <- Hbl in Hc.
  destruct (ReadOverflowChain_spec fetch I (fun _ => False) payload algo (ps - 36) q qs no nos (length nos) w) as (r & w' & Hw' & E & Hr); try done; try lia.
  exists w'. split; [done|]. rewrite E. destruct Hr as [->|(e & _ & [])]. f_equal. f_equal. rewrite <- Ec. unfold OverflowHeadCapacity, OverflowContCapacity, BodySize,
    PageHeaderSize, ChecksumSize.
  assert (Hkk : k - 1 = Z.of_nat (length qs)).
  { rewrite <- Hk, Hlq. unfold blen. simpl. lia. }
  rewrite Hkk. unfold bl. replace (blen q) with ps by lia.
  replace (ps - 36 - overflowHeadHdr) with (ps - 32 - 4 - overflowHeadHdr) by lia.
  by replace (ps - 36) with (ps - 32 - 4) by lia.
Qed.

(** ** A concrete chain *)

Definition demo_payload : bytes := map Z.of_nat (seq 0 40).

Definition demo_chain : list bytes :=
  match WriteOverflowChain (E:=fmtErr) demo_payload 7 ChecksumCRC32C
    (replicate 4 (replicate 52 0)) [10; 11; 12; 13] with Ok (_, l) => l | _ => [] end.

Definition demo_fetch (no : Z) (w : unit) : res unit bytes * unit :=
  (match demo_chain !! Z.to_nat (no - 10) with Some p => Ok p | None => Err tt end, w).

Lemma overflow_roundtrip_witness :
  ReadOverflowChain demo_fetch ChecksumCRC32C 3 10 tt = (Some (Ok demo_payload), tt).
Proof.
  destruct (overflow_roundtrip demo_fetch (fun _ => True) demo_payload 7 ChecksumCRC32C 52
    (replicate 4 (replicate 52 0)) 10 [11; 12; 13] 4) as (w & c & Hw & Hc & Hr).
  - repeat constructor; unfold byte_ok; lia.
  - vm_compute; reflexivity.
  - unfold in_u; lia.
  - reflexivity.
  - lia.
  - repeat constructor.
  - reflexivity.
  - reflexivity.
  - repeat constructor; unfold in_u; lia.
  - assert (Ew : w = demo_chain).
    { unfold demo_chain. rewrite Hw. reflexivity. }
    assert (Ec : Ok (E:=fmtErr) c = Ok 4) by (rewrite <- Hc; vm_compute; reflexivity).
    assert (c = 4) by congruence. subst w c. assert (Hs : serves demo_fetch (fun _ => True) (fun _ => False) demo_chain [10; 11; 12; 13]).
    { intros i q no [] Hq Hno _.
    assert (Hi : (i < 4)%nat) by (apply lookup_lt_Some in Hno; exact Hno).
    destruct i as [|[|[|[|i]]]]; [| | | |lia];
      injection Hno as <-; (split; [discriminate|]); eexists _, tt; (split; [reflexivity|]); (split; [done|]); left;
      match goal with |- context [Z.to_nat ?x] =>
        let v := eval vm_compute in (Z.to_nat x) in change (Z.to_nat x) with v end;
      rewrite Hq; reflexivity. }
    destruct (Hr Hs tt I) as ([] & _ & E). refine (eq_trans E _). vm_compute. reflexivity.
Defined.

(** A chain whose second page links to itself: every page of it verifies, and
    the reader asks for that page for ever. *)
Definition loop_chain : list bytes :=
  match WriteOverflowChain (E:=fmtErr) [] 7 ChecksumCRC32C
    (replicate 3 (replicate 52 0)) [1; 2; 2] with Ok (_, l) => l | _ => [] end.

Definition loop_fetch (no : Z) (w : unit) : res unit bytes * unit :=
  (match loop_chain !! Z.to_nat (no - 1) with Some p => Ok p | None => Err tt end, w).

Lemma loop_conts fuel : read_conts loop_fetch ChecksumCRC32C fuel 2 0 [] tt = (None, tt).
Proof. induction fuel as [|fuel IH]; [reflexivity|]. exact IH. Qed.

(** The reader does not terminate on a cyclic chain: there is a store of two
    pages, each with a valid checksum, the right type and links inside the
    store, on which no number of steps is enough for ReadOverflowChain to
    return the error a corrupt chain is documented to give. *)
Theorem overflow_cycle_diverges :
  Forall (fun no => exists p, loop_fetch no tt = (Ok p, tt) /\ VerifyPageChecksum p ChecksumCRC32C = Ok tt /\
            (ph_RightSib (hdr p) = 1 \/ ph_RightSib (hdr p) = 2)) [1; 2] /\
  forall fuel, ReadOverflowChain loop_fetch ChecksumCRC32C fuel 1 tt = (None, tt).
Proof.
  split.
  - constructor; [|constructor; [|constructor]]; eexists; (split; [vm_compute; reflexivity|]);
      (split; [vm_compute; reflexivity|right; vm_compute; reflexivity]).
  - intros fuel. pose proof (loop_conts fuel) as H. unfold ReadOverflowChain.
    assert (E1 : loop_fetch 1 tt = (Ok (hd [] loop_chain), tt)) by (vm_compute; reflexivity). rewrite E1.
    match goal with |- match ?x with _ => _ end = _ =>
      let v := eval vm_compute in x in replace x with v by (vm_compute; reflexivity) end.
    by rewrite H.
Qed.
