(* ===== verification/Vfs.v ===== *)
(** * vfs: the file interface, the in-memory file system, fault injection

    The File interface as a class of operations on a state with the laws a
    durable log relies on; MemFS with its shared backing stores (open handles
    alias them), which satisfies the laws; FaultFS, which decorates any file. *)

From S2P Require Import Prelude.
From stdpp Require Import strings.

#[local] Open Scope Z_scope.

(** ** Errors and the File interface *)

Inductive ioErr : Type :=
| EOF | ErrExist | ErrNotExist | ErrPermission | ErrNotImplemented | ErrInjected | ErrPlan (code : Z).

#[global] Instance ioErr_eq_dec : EqDecision ioErr.
Proof. solve_decision. Defined.

(** A file's operations on the state F they read and change. A read returns the
    bytes it put in the buffer; a write the count it reports. *)
Class FileOps (F : Type) := {
  ReadAt : Z -> Z -> F -> bytes * option ioErr;
  WriteAt : bytes -> Z -> F -> Z * option ioErr * F;
  Truncate : Z -> F -> option ioErr * F;
  Size : F -> Z * option ioErr;
  Sync : F -> option ioErr * F
}.

(** The contents after writing p at off, zeros filling a gap. *)
Definition write_data (p : bytes) (off : Z) (d : bytes) : bytes :=
  let fin := off + blen p in
  let grown := if fin >? blen d then d ++ replicate (Z.to_nat (fin - blen d)) 0 else d in
  put (Z.to_nat off) p grown.

Definition truncate_data (size : Z) (d : bytes) : bytes :=
  if size <=? blen d then take (Z.to_nat size) d
  else d ++ replicate (Z.to_nat (size - blen d)) 0.

Definition read_data (n off : Z) (d : bytes) : bytes := sub (Z.to_nat off) (Z.to_nat n) d.

(** What a healthy writable file promises of its contents. *)
Class FileLaws (F : Type) {ops : FileOps F} (contents : F -> bytes) : Prop := {
  law_read : forall n off f, 0 <= n -> 0 <= off ->
    ReadAt n off f = (read_data n off (contents f),
                      if blen (read_data n off (contents f)) <? n then Some EOF
                      else if blen (contents f) <=? off then Some EOF else None);
  law_write : forall p off f, 0 <= off ->
    exists f', WriteAt p off f = (blen p, None, f') /\ contents f' = write_data p off (contents f);
  law_truncate : forall n f, 0 <= n ->
    exists f', Truncate n f = (None, f') /\ contents f' = truncate_data n (contents f);
  law_size : forall f, Size f = (blen (contents f), None);
  law_sync : forall f, exists f', Sync f = (None, f') /\ contents f' = contents f
}.

(** ** MemFS *)

Definition OpenRead : Z := 0.
Definition OpenCreate : Z := Z.shiftl 1 1.
Definition OpenReadOnly : Z := Z.shiftl 1 2.
Definition OpenExclusive : Z := Z.shiftl 1 3.

Definition has_flag (flags f : Z) : bool := negb (Z.land flags f =? 0).

(** files maps a path to its backing store, mem_heap holds the stores; a store
    stays as long as a handle names it. *)
Record MemFS := MkMemFS {
  files : gmap string nat;
  mem_heap : gmap nat bytes;
  mem_next : nat
}.

Definition NewMemFS : MemFS := MkMemFS ∅ ∅ 0.

Record memFile := MkMemFile { mf_d : nat; mf_readOnly : bool }.

Definition Mem_Open (path : string) (flags : Z) (m : MemFS) : (ioErr + memFile) * MemFS :=
  match files m !! path with
  | Some d =>
      if has_flag flags OpenExclusive && has_flag flags OpenCreate then (inl ErrExist, m)
      else (inr (MkMemFile d (has_flag flags OpenReadOnly)), m)
  | None =>
      if negb (has_flag flags OpenCreate) then (inl ErrNotExist, m)
      else
        let d := mem_next m in
        (inr (MkMemFile d (has_flag flags OpenReadOnly)),
         MkMemFS (<[path := d]> (files m)) (<[d := []]> (mem_heap m)) (S d))
  end.

Definition Mem_Delete (path : string) (syncDir : bool) (m : MemFS) : option ioErr * MemFS :=
  match files m !! path with
  | None => (Some ErrNotExist, m)
  | Some _ => (None, MkMemFS (delete path (files m)) (mem_heap m) (mem_next m))
  end.

Definition Mem_Exists (path : string) (m : MemFS) : bool :=
  match files m !! path with Some _ => true | None => false end.

Definition mem_data (f : memFile) (m : MemFS) : bytes := default [] (mem_heap m !! mf_d f).

Definition set_data (f : memFile) (d : bytes) (m : MemFS) : MemFS :=
  MkMemFS (files m) (<[mf_d f := d]> (mem_heap m)) (mem_next m).

Definition memFile_ReadAt (f : memFile) (n off : Z) (m : MemFS) : bytes * option ioErr :=
  let d := mem_data f m in
  if off >=? blen d then ([], Some EOF)
  else
    let p := read_data n off d in
    if blen p <? n then (p, Some EOF) else (p, None).

Definition memFile_WriteAt (f : memFile) (p : bytes) (off : Z) (m : MemFS)
  : Z * option ioErr * MemFS :=
  if mf_readOnly f then (0, Some ErrPermission, m)
  else (blen p, None, set_data f (write_data p off (mem_data f m)) m).

Definition memFile_Truncate (f : memFile) (size : Z) (m : MemFS) : option ioErr * MemFS :=
  (None, set_data f (truncate_data size (mem_data f m)) m).

Definition memFile_Size (f : memFile) (m : MemFS) : Z * option ioErr := (blen (mem_data f m), None).

Definition memFile_Sync (f : memFile) (m : MemFS) : option ioErr * MemFS := (None, m).

Definition Snapshot (path : string) (m : MemFS) : option bytes :=
  match files m !! path with
  | None => None
  | Some d => mem_heap m !! d
  end.

#[global] Instance mem_ops (f : memFile) : FileOps MemFS := {
  ReadAt := memFile_ReadAt f;
  WriteAt := memFile_WriteAt f;
  Truncate := memFile_Truncate f;
  Size := memFile_Size f;
  Sync := memFile_Sync f
}.

(** ** FaultFS *)

Inductive FaultMode := FaultNone | FaultWrite | FaultSync | FaultTear | FaultDrop.

Record FaultPlan := MkFaultPlan {
  fp_Mode : FaultMode;
  fp_Err : option ioErr;
  fp_AfterWrites : Z;
  fp_AfterSyncs : Z;
  fp_TearAt : Z;
  fp_Once : bool
}.

Definition plan_err (p : FaultPlan) : ioErr := default ErrInjected (fp_Err p).

Record FaultFS := MkFaultFS {
  ff_plan : FaultPlan;
  ff_armed : bool;
  ff_writeCount : Z;
  ff_syncCount : Z;
  ff_injected : Z
}.

Definition zero_plan : FaultPlan := MkFaultPlan FaultNone None 0 0 0 false.

Definition NewFaultFS : FaultFS := MkFaultFS zero_plan false 0 0 0.

Definition Arm (p : FaultPlan) (f : FaultFS) : FaultFS :=
  MkFaultFS p (match fp_Mode p with FaultNone => false | _ => true end) 0 0 (ff_injected f).

Definition Disarm (f : FaultFS) : FaultFS :=
  MkFaultFS zero_plan false (ff_writeCount f) (ff_syncCount f) (ff_injected f).

Definition Injected (f : FaultFS) : Z := ff_injected f.

Definition is_write_fault (m : FaultMode) : bool :=
  match m with FaultWrite | FaultTear | FaultDrop => true | _ => false end.

Definition nextWriteFault (f : FaultFS) : FaultMode * Z * option ioErr * FaultFS :=
  let wc := ff_writeCount f + 1 in
  let f1 := MkFaultFS (ff_plan f) (ff_armed f) wc (ff_syncCount f) (ff_injected f) in
  if negb (ff_armed f) then (FaultNone, 0, None, f1)
  else if is_write_fault (fp_Mode (ff_plan f)) && (wc >? fp_AfterWrites (ff_plan f)) then
    (fp_Mode (ff_plan f), fp_TearAt (ff_plan f), Some (plan_err (ff_plan f)),
     MkFaultFS (ff_plan f) (if fp_Once (ff_plan f) then false else ff_armed f) wc (ff_syncCount f)
       (ff_injected f + 1))
  else (FaultNone, 0, None, f1).

Definition nextSyncFault (f : FaultFS) : option ioErr * FaultFS :=
  let sc := ff_syncCount f + 1 in
  let f1 := MkFaultFS (ff_plan f) (ff_armed f) (ff_writeCount f) sc (ff_injected f) in
  if negb (ff_armed f) || negb (match fp_Mode (ff_plan f) with FaultSync => true | _ => false end)
  then (None, f1)
  else if sc >? fp_AfterSyncs (ff_plan f) then
    (Some (plan_err (ff_plan f)),
     MkFaultFS (ff_plan f) (if fp_Once (ff_plan f) then false else ff_armed f) (ff_writeCount f) sc
       (ff_injected f + 1))
  else (None, f1).

Section fault_file.
Context {F : Type} `{!FileOps F}.

Definition faultFile_WriteAt (p : bytes) (off : Z) (s : FaultFS * F)
  : Z * option ioErr * (FaultFS * F) :=
  let '(ff, inner) := s in
  let '(mode, tearAt, ferr, ff') := nextWriteFault ff in
  match mode with
  | FaultWrite => (0, ferr, (ff', inner))
  | FaultDrop => (blen p, None, (ff', inner))
  | FaultTear =>
      let n0 := if tearAt >? blen p then blen p else tearAt in
      let n := if n0 <? 0 then 0 else n0 in
      if n >? 0 then
        let '(_, _, inner') := WriteAt (take (Z.to_nat n) p) off inner in (n, ferr, (ff', inner'))
      else (n, ferr, (ff', inner))
  | _ => let '(n, e, inner') := WriteAt p off inner in (n, e, (ff', inner'))
  end.

Definition faultFile_Sync (s : FaultFS * F) : option ioErr * (FaultFS * F) :=
  let '(ff, inner) := s in
  let '(ferr, ff') := nextSyncFault ff in
  match ferr with
  | Some e => (Some e, (ff', inner))
  | None => let '(e, inner') := Sync inner in (e, (ff', inner'))
  end.

#[global] Instance fault_ops : FileOps (FaultFS * F) := {
  ReadAt n off s := ReadAt n off s.2;
  WriteAt := faultFile_WriteAt;
  Truncate n s := let '(e, inner) := Truncate n s.2 in (e, (s.1, inner));
  Size s := Size s.2;
  Sync := faultFile_Sync
}.
End fault_file.

(** ** Lemmas: contents *)

Lemma blen_write_data p off d : 0 <= off -> blen (write_data p off d) = Z.max (blen d) (off + blen p).
Proof.
  intros Ho. unfold write_data. rewrite Z.gtb_ltb.
  destruct (Z.ltb_spec (blen d) (off + blen p)); unfold blen in *;
    rewrite length_put; rewrite ?length_app, ?length_replicate; lia.
Qed.

(** Reading what was written, and everything outside it. *)
Lemma read_write_same p off d : 0 <= off -> read_data (blen p) off (write_data p off d) = p.
Proof.
  intros Ho. unfold read_data, write_data. rewrite Z.gtb_ltb. apply sub_put_eq'.
  - unfold blen. lia.
  - destruct (Z.ltb_spec (blen d) (off + blen p)); unfold blen in *;
      rewrite ?length_app, ?length_replicate; lia.
Qed.

Lemma read_write_before p off d n x :
  0 <= x -> 0 <= n -> x + n <= off -> off <= blen d ->
  read_data n x (write_data p off d) = read_data n x d.
Proof.
  intros Hx Hn Ho Hd. unfold read_data, write_data. rewrite Z.gtb_ltb.
  destruct (Z.ltb_spec (blen d) (off + blen p)); unfold blen in *.
  - rewrite sub_put_ne by (rewrite ?length_app, ?length_replicate; lia). apply sub_app_l. lia.
  - apply sub_put_ne; lia.
Qed.

(** Appending at the end of the file. *)
Lemma write_data_append p d : write_data p (blen d) d = d ++ p.
Proof.
  unfold write_data. rewrite Z.gtb_ltb. destruct (Z.ltb_spec (blen d) (blen d + blen p)).
  - unfold put, blen in *. replace (Z.to_nat _) with (length d) by lia.
    rewrite take_app_length. f_equal. rewrite drop_ge, app_nil_r; [done|].
    rewrite length_app, length_replicate. lia.
  - assert (p = []) as -> by (destruct p; [done|unfold blen in *; simpl in *; lia]).
    unfold put, blen. rewrite Nat2Z.id. cbn [length app]. rewrite Nat.add_0_r, take_drop.
    by rewrite app_nil_r.
Qed.

Lemma truncate_data_take n d : n <= blen d -> truncate_data n d = take (Z.to_nat n) d.
Proof. intros. unfold truncate_data. by rewrite (proj2 (Z.leb_le _ _)). Qed.

(** ** MemFS: laws and aliasing *)

Lemma mem_data_set f d m g :
  mem_data g (set_data f d m) = if decide (mf_d g = mf_d f) then d else mem_data g m.
Proof.
  unfold mem_data, set_data; simpl. case_decide as E.
  - by rewrite E, lookup_insert_eq.
  - by rewrite lookup_insert_ne.
Qed.

Lemma mem_data_set_same f d m : mem_data f (set_data f d m) = d.
Proof. rewrite mem_data_set. by rewrite decide_True. Qed.

Lemma blen_read_data n off d : 0 <= n -> 0 <= off -> blen (read_data n off d) = Z.max 0 (Z.min n (blen d - off)).
Proof. intros. unfold read_data, sub, blen. rewrite length_take, length_drop. lia. Qed.

(** A writable handle of MemFS is a healthy file. *)
#[global] Instance mem_laws f : mf_readOnly f = false -> FileLaws MemFS (ops:=mem_ops f) (mem_data f).
Proof.
  intros Hro. constructor.
  - intros n off m Hn Ho. simpl. unfold memFile_ReadAt. rewrite Z.geb_leb.
    pose proof (blen_read_data n off (mem_data f m) Hn Ho) as Hl.
    destruct (Z.leb_spec (blen (mem_data f m)) off).
    + assert (read_data n off (mem_data f m) = []) as ->.
      { destruct (read_data n off (mem_data f m)); [done|]. unfold blen in *. simpl in *. lia. }
      by destruct (_ <? n).
    + by destruct (_ <? n).
  - intros p off m Ho. simpl. unfold memFile_WriteAt. rewrite Hro. eexists. split; [done|].
    apply mem_data_set_same.
  - intros n m Hn. eexists. split; [done|]. apply mem_data_set_same.
  - done.
  - intros m. by eexists.
Qed.

(** The states MemFS reaches: every path and every open handle names an
    allocated store. *)
Definition mem_ok (m : MemFS) : Prop :=
  (forall path d, files m !! path = Some d -> is_Some (mem_heap m !! d)) /\
  (forall d, is_Some (mem_heap m !! d) -> (d < mem_next m)%nat).

Definition handle_ok (f : memFile) (m : MemFS) : Prop := is_Some (mem_heap m !! mf_d f).

Lemma Mem_Open_ok path flags m r m' :
  mem_ok m -> Mem_Open path flags m = (r, m') ->
  mem_ok m' /\ match r with inr f => handle_ok f m' | inl _ => m' = m end.
Proof.
  intros [H1 H2]. unfold Mem_Open. destruct (files m !! path) as [d|] eqn:E.
  - destruct (_ && _); intros [= <- <-]; split; try done. apply (H1 path d E).
  - destruct (has_flag flags OpenCreate); intros [= <- <-]; (split; [|try done]).
    + split; simpl.
      * intros p d Hp. apply lookup_insert_is_Some'.
        destruct (decide (p = path)) as [->|]; [rewrite lookup_insert_eq in Hp|rewrite lookup_insert_ne in Hp by done].
        -- injection Hp as <-. by left.
        -- right. eauto.
      * intros d Hd. apply lookup_insert_is_Some' in Hd as [<-|Hd]; [lia|]. apply H2 in Hd. lia.
    + unfold handle_ok. simpl. rewrite lookup_insert_eq. eauto.
    + done.
Qed.

(** In-memory files behave as files: a handle opened on an existing path
    shares the store of that path, so what one handle writes every other reads,
    while files opened under other paths, and files created after a path was
    deleted, are never affected; a new file is empty; a read-only handle
    cannot write. *)
Theorem memfs_handles path flags m f m' :
  mem_ok m -> Mem_Open path flags m = (inr f, m') ->
  (mf_readOnly f = has_flag flags OpenReadOnly) /\
  (forall d, files m !! path = Some d -> mf_d f = d /\ m' = m) /\
  (files m !! path = None -> mem_data f m' = [] /\ Snapshot path m' = Some [] /\
     forall g, handle_ok g m -> mf_d g <> mf_d f /\ mem_data g m' = mem_data g m) /\
  (forall g p off, 0 <= off ->
     let r := memFile_WriteAt f p off m' in
     (mf_readOnly f = true -> r = (0, Some ErrPermission, m')) /\
     (mf_readOnly f = false -> r.1 = (blen p, None) /\
        (mf_d g = mf_d f -> (memFile_ReadAt g (blen p) off r.2).1 = p) /\
        (mf_d g <> mf_d f -> mem_data g r.2 = mem_data g m'))) /\
  (forall m'' , Mem_Delete path false m' = (None, m'') ->
     mem_data f m'' = mem_data f m' /\ Mem_Exists path m'' = false).
Proof.
  intros Hok HO. pose proof (Mem_Open_ok _ _ _ _ _ Hok HO) as [Hok' Hf].
  assert (Hcases : (exists d, files m !! path = Some d /\ f = MkMemFile d (has_flag flags OpenReadOnly) /\ m' = m) \/
    (files m !! path = None /\ f = MkMemFile (mem_next m) (has_flag flags OpenReadOnly) /\
     m' = MkMemFS (<[path := mem_next m]> (files m)) (<[mem_next m := []]> (mem_heap m)) (S (mem_next m)))).
  { unfold Mem_Open in HO. destruct (files m !! path) as [d|] eqn:E.
    - destruct (_ && _); [done|]. injection HO as <- <-. left. eauto.
    - destruct (has_flag flags OpenCreate); [|done]. injection HO as <- <-. right. eauto. }
  split_and!.
  - by destruct Hcases as [(d & _ & -> & _)|(_ & -> & _)].
  - intros d Hd. destruct Hcases as [(d' & Hd' & -> & ->)|(Hd' & _)]; [|congruence].
    split; [simpl; congruence|done].
  - intros Hn. destruct Hcases as [(d' & Hd' & _)|(_ & -> & ->)]; [congruence|].
    unfold mem_data, Snapshot. simpl. rewrite !lookup_insert_eq. split_and!; [done|done|].
    intros g Hg. assert (Hlt : (mf_d g < mem_next m)%nat) by by apply Hok.
    split; [lia|]. by rewrite lookup_insert_ne by lia.
  - intros g p off Ho. unfold memFile_WriteAt. split.
    + by intros ->.
    + intros ->. split_and!; [done| |].
      * intros E. unfold memFile_ReadAt. simpl.
        rewrite mem_data_set, decide_True by done. rewrite Z.geb_leb, read_write_same by done.
        rewrite blen_write_data by done.
        destruct (Z.leb_spec (Z.max (blen (mem_data f m')) (off + blen p)) off).
        -- destruct p; [done|unfold blen in *; simpl in *; lia].
        -- by destruct (blen p <? blen p).
      * intros E. simpl. by rewrite mem_data_set, decide_False.
  - intros m''. unfold Mem_Delete, Mem_Exists. destruct (files m' !! path); [|done].
    intros [= <-]. simpl. by rewrite lookup_delete_eq.
Qed.

Lemma NewMemFS_ok : mem_ok NewMemFS.
Proof.
  split; simpl.
  - intros path d H. by rewrite lookup_empty in H.
  - intros d [x H]. by rewrite lookup_empty in H.
Qed.

Definition demo_fs : MemFS := (Mem_Open "a" OpenCreate NewMemFS).2.

Lemma memfs_handles_witness :
  exists f m', Mem_Open "b" OpenCreate demo_fs = (inr f, m') /\ mem_data f m' = [].
Proof.
  exists (MkMemFile 1 false), (Mem_Open "b" OpenCreate demo_fs).2. split; [vm_compute; reflexivity|].
  apply (memfs_handles "b" OpenCreate demo_fs).
  - apply (Mem_Open_ok "a" OpenCreate NewMemFS _ _ NewMemFS_ok eq_refl).
  - vm_compute. reflexivity.
  - vm_compute. reflexivity.
Defined.

(** ** FaultFS *)

Section fault_laws.
Context {F : Type} `{!FileOps F} (contents : F -> bytes) `{!FileLaws F contents}.

(** Fault injection does what its plan says and nothing else: before the
    threshold, when disarmed, or for a sync-only plan, a write reaches the
    inner file; after it a failing write changes nothing, a torn write leaves
    exactly its first TearAt bytes, a dropped write reports success and leaves
    nothing; a plan armed once disarms itself, and the counter of injected
    faults rises by one exactly when a fault fires. *)
Theorem faultfs_write ff (inner : F) p off :
  0 <= off ->
  let fires := ff_armed ff && is_write_fault (fp_Mode (ff_plan ff)) &&
               (ff_writeCount ff + 1 >? fp_AfterWrites (ff_plan ff)) in
  exists n e ff' inner', faultFile_WriteAt p off (ff, inner) = (n, e, (ff', inner')) /\
    ff_writeCount ff' = ff_writeCount ff + 1 /\ ff_plan ff' = ff_plan ff /\
    Injected ff' = Injected ff + (if fires then 1 else 0) /\
    ff_armed ff' = (if fires && fp_Once (ff_plan ff) then false else ff_armed ff) /\
    (fires = false -> n = blen p /\ e = None /\ contents inner' = write_data p off (contents inner)) /\
    (fires = true -> match fp_Mode (ff_plan ff) with
       | FaultWrite => n = 0 /\ e = Some (plan_err (ff_plan ff)) /\ inner' = inner
       | FaultDrop => n = blen p /\ e = None /\ inner' = inner
       | FaultTear => n = Z.max 0 (Z.min (fp_TearAt (ff_plan ff)) (blen p)) /\
           e = Some (plan_err (ff_plan ff)) /\
           contents inner' = if n =? 0 then contents inner
                             else write_data (take (Z.to_nat n) p) off (contents inner)
       | _ => False
       end).
Proof.
  intros Ho fires. unfold faultFile_WriteAt, nextWriteFault, Injected.
  assert (Hlp : 0 <= blen p) by (unfold blen; lia).
  destruct (law_write p off inner Ho) as (inner1 & Hw & Hc).
  destruct fires eqn:Ef; unfold fires in Ef.
  - rewrite !andb_true_iff in Ef. destruct Ef as [[Ha Hm] Hg]. rewrite Ha, Hm, Hg. cbn [negb andb].
    destruct (fp_Mode (ff_plan ff)) eqn:Em; try done.
    + do 4 eexists. split; [reflexivity|]. split_and!; try done; by destruct (fp_Once _).
    + set (tear := fp_TearAt (ff_plan ff)).
      assert (En : (if (if tear >? blen p then blen p else tear) <? 0 then 0
                    else if tear >? blen p then blen p else tear) = Z.max 0 (Z.min tear (blen p))).
      { rewrite Z.gtb_ltb. destruct (Z.ltb_spec (blen p) tear);
          [destruct (Z.ltb_spec (blen p) 0)|destruct (Z.ltb_spec tear 0)]; lia. }
      rewrite En. set (n := Z.max 0 (Z.min tear (blen p))). rewrite Z.gtb_ltb.
      destruct (law_write (take (Z.to_nat n) p) off inner Ho) as (inner2 & Hw2 & Hc2).
      destruct (Z.ltb_spec 0 n) as [Hpos|Hzero].
      * rewrite Hw2. do 4 eexists. split; [reflexivity|].
        split_and!; try done; try by destruct (fp_Once _).
        intros _. split_and!; try done. rewrite (proj2 (Z.eqb_neq n 0)) by lia. done.
      * do 4 eexists. split; [reflexivity|]. split_and!; try done; try by destruct (fp_Once _).
        intros _. split_and!; try done. assert (n = 0) as -> by (unfold n in *; lia). done.
    + do 4 eexists. split; [reflexivity|]. split_and!; try done; by destruct (fp_Once _).
  - destruct (ff_armed ff); cbn [negb andb] in *.
    + rewrite Ef. rewrite Hw. do 4 eexists. split; [reflexivity|]. simpl.
      split_and!; try done. lia.
    + rewrite Hw. do 4 eexists. split; [reflexivity|]. simpl. split_and!; try done. lia.
Qed.
End fault_laws.

Lemma faultfs_write_witness :
  exists n e ff' m', @faultFile_WriteAt MemFS (mem_ops (MkMemFile 0 false)) [1; 2; 3] 0
    (Arm (MkFaultPlan FaultTear None 0 0 2 true) NewFaultFS, demo_fs) = (n, e, (ff', m')) /\
    Injected ff' = 1.
Proof.
  destruct (@faultfs_write MemFS (mem_ops (MkMemFile 0 false)) (mem_data (MkMemFile 0 false))
    (mem_laws (MkMemFile 0 false) eq_refl) (Arm (MkFaultPlan FaultTear None 0 0 2 true) NewFaultFS)
    demo_fs [1; 2; 3] 0 ltac:(lia)) as (n & e & ff' & m' & H1 & _ & _ & H2 & _).
  exists n, e, ff', m'. split; [exact H1|]. rewrite H2. reflexivity.
Defined.

(** The counter of injected faults survives arming a new plan. *)
Lemma Injected_not_reset p f : Injected (Arm p f) = Injected f.
Proof. done. Qed.
