(* ===== verification/Disk.v ===== *)
(** * vfs/vfs.go: file systems, and a disk that can lose power

    The FS interface of vfs/vfs.go as a class of operations; MemFS and FaultFS as
    instances; and a disk whose unsynced writes a crash may take back, which
    records every state it goes through, so that a theorem can speak of a crash in
    the middle of an operation. *)

From S2P Require Import Prelude Vfs.
From stdpp Require Import strings.

#[local] Open Scope Z_scope.

(** ** File systems *)

(** Open returns a handle, and a handle is a file. *)
Class FsOps (D : Type) := {
  Handle : Type;
  FsExists : string -> D -> ioErr + bool;
  FsOpen : string -> Z -> D -> (ioErr + Handle) * D;
  FsClose : Handle -> D -> option ioErr * D;
  FsFile : Handle -> FileOps D
}.

#[global] Instance MemFS_fs : FsOps MemFS := {
  Handle := memFile;
  FsExists path m := inr (Mem_Exists path m);
  FsOpen := Mem_Open;
  FsClose _ m := (None, m);
  FsFile := mem_ops
}.

(** FaultFS wraps every handle it opens; the handles share its counters. *)
#[global] Instance FaultFS_fs {D} `{!FsOps D} : FsOps (FaultFS * D) := {
  Handle := Handle;
  FsExists path s := FsExists path s.2;
  FsOpen path flags s := let '(r, inner) := FsOpen path flags s.2 in (r, (s.1, inner));
  FsClose h s := let '(e, inner) := FsClose h s.2 in (e, (s.1, inner));
  FsFile h := @fault_ops D (FsFile h)
}.

(** ** A disk *)

(** A file: its contents, the earlier contents a crash may bring back, and whether
    its name is durable: a file that was made is there after a crash for sure only
    once it was synced. *)
Record dfile := MkFile { df_now : bytes; df_older : list bytes; df_linked : bool }.

Notation DFile now older := (MkFile now older true).

Definition no_file : dfile := MkFile [] [] false.

(** A disk: its files, and the states it went through, the latest first. *)
Record Disk := MkDisk { dk_files : gmap string dfile; dk_past : list (gmap string dfile) }.

Record dhandle := DHandle { dh_path : string; dh_readOnly : bool }.

(** A sector is written whole or not at all. *)
Definition SectorSize : Z := 512.

(** What a write of p at off leaves behind when the power fails during it. *)
Definition tears (p : bytes) (off : Z) (b : bytes) : list bytes :=
  map (fun k => write_data (take k p) off b)
    (filter (fun k : nat => (off + Z.of_nat k) mod SectorSize = 0) (seq 1 (length p - 1))).

Definition disk_file (path : string) (d : Disk) : dfile := default no_file (dk_files d !! path).
Definition disk_data (path : string) (d : Disk) : bytes := df_now (disk_file path d).

Definition disk_step (path : string) (f : dfile) (d : Disk) : Disk :=
  MkDisk (<[path := f]> (dk_files d)) (dk_files d :: dk_past d).

Definition Disk_WriteAt (h : dhandle) (p : bytes) (off : Z) (d : Disk) : Z * option ioErr * Disk :=
  if dh_readOnly h then (0, Some ErrPermission, d)
  else
    let f := disk_file (dh_path h) d in
    (blen p, None,
     disk_step (dh_path h) (MkFile (write_data p off (df_now f)) (tears p off (df_now f) ++ df_now f :: df_older f) (df_linked f)) d).

Definition Disk_Truncate (h : dhandle) (n : Z) (d : Disk) : option ioErr * Disk :=
  let f := disk_file (dh_path h) d in
  (None, disk_step (dh_path h) (MkFile (truncate_data n (df_now f)) (df_now f :: df_older f) (df_linked f)) d).

Definition Disk_Sync (h : dhandle) (d : Disk) : option ioErr * Disk :=
  (None, disk_step (dh_path h) (DFile (disk_data (dh_path h) d) []) d).

Definition Disk_ReadAt (h : dhandle) (n off : Z) (d : Disk) : bytes * option ioErr :=
  let b := disk_data (dh_path h) d in
  let p := read_data n off b in
  (p, if blen p <? n then Some EOF else if blen b <=? off then Some EOF else None).

Definition Disk_Open (path : string) (flags : Z) (d : Disk) : (ioErr + dhandle) * Disk :=
  let h := DHandle path (has_flag flags OpenReadOnly) in
  match dk_files d !! path with
  | Some _ => if has_flag flags OpenExclusive && has_flag flags OpenCreate then (inl ErrExist, d) else (inr h, d)
  | None =>
      if negb (has_flag flags OpenCreate) then (inl ErrNotExist, d)
      else (inr h, disk_step path no_file d)
  end.

#[global] Instance disk_ops (h : dhandle) : FileOps Disk := {
  ReadAt := Disk_ReadAt h;
  WriteAt := Disk_WriteAt h;
  Truncate := Disk_Truncate h;
  Size d := (blen (disk_data (dh_path h) d), None);
  Sync := Disk_Sync h
}.

#[global] Instance Disk_fs : FsOps Disk := {
  Handle := dhandle;
  FsExists path d := inr (match dk_files d !! path with Some _ => true | None => false end);
  FsOpen := Disk_Open;
  FsClose _ d := (None, d);
  FsFile := disk_ops
}.

Definition new_disk : Disk := MkDisk ∅ [].

(** ** Crashes *)

(** The contents a file had at some moment since its last Sync, a write that was
    under way counted up to a sector. *)
Definition once (f : dfile) (b : bytes) : Prop := b = df_now f \/ b ∈ df_older f.

(** b is put together from the sectors of l: each sector is that of some element,
    zeros where it is past its end, and sectors do not agree on the element. *)
Definition mixes (l : list bytes) (b : bytes) : Prop :=
  (exists c, c ∈ l /\ length b = length c) /\
  forall k : nat, exists c, c ∈ l /\
    forall i : nat, (i < length b)%nat -> Z.of_nat i / SectorSize = Z.of_nat k -> b !! i = Some (default 0 (c !! i)).

(** What a crash makes of a file. The disk writes the sectors of a file in any order
    it likes, so that each falls back to a moment of its own; the log alone, which
    is only ever appended to, keeps its writes in order. *)
Definition may_hold (log path : string) (f : dfile) (b : bytes) : Prop :=
  if decide (path = log) then once f b else mixes (df_now f :: df_older f) b.

(** Each file falls back on its own; one that was never synced may be gone. *)
Definition crashed (log : string) (a b : gmap string dfile) : Prop :=
  forall path, match a !! path, b !! path with
  | Some f, Some g => may_hold log path f (df_now g) /\ df_older g = [] /\ df_linked g = true
  | Some f, None => df_linked f = false
  | None, None => True
  | None, Some _ => False
  end.

(** The states d2 went through since d1, d2 included and d1 not. *)
Definition went (d1 d2 : Disk) (l : list (gmap string dfile)) : Prop :=
  dk_files d2 :: dk_past d2 = l ++ dk_files d1 :: dk_past d1.

Lemma went_refl d : went d d [].
Proof. done. Qed.

Lemma went_step path f d : went d (disk_step path f d) [<[path := f]> (dk_files d)].
Proof. done. Qed.

Lemma went_trans d1 d2 d3 l1 l2 : went d1 d2 l1 -> went d2 d3 l2 -> went d1 d3 (l2 ++ l1).
Proof. unfold went. intros H1 H2. by rewrite H2, H1, app_assoc. Qed.

(** ** Lemmas *)

Lemma disk_file_step path f d : disk_file path (disk_step path f d) = f.
Proof. unfold disk_file, disk_step. cbn [dk_files]. by rewrite lookup_insert_eq. Qed.

Lemma disk_file_step_ne path path' f d : path <> path' -> disk_file path' (disk_step path f d) = disk_file path' d.
Proof. intros. unfold disk_file, disk_step. cbn [dk_files]. by rewrite lookup_insert_ne. Qed.

(** A writable handle is a healthy file. *)
#[global] Instance disk_laws h : dh_readOnly h = false -> FileLaws Disk (ops:=disk_ops h) (disk_data (dh_path h)).
Proof.
  intros Hro. constructor.
  - intros n off d Hn Ho. reflexivity.
  - intros p off d Ho. cbn. unfold Disk_WriteAt. rewrite Hro. eexists. split; [done|].
    unfold disk_data at 1. by rewrite disk_file_step.
  - intros n d Hn. eexists. split; [done|]. unfold disk_data at 1. by rewrite disk_file_step.
  - done.
  - intros d. eexists. split; [done|]. unfold disk_data at 1. by rewrite disk_file_step.
Qed.

(** After Sync a crash keeps the contents. *)
Lemma once_synced b k c : once (MkFile b [] k) c -> c = b.
Proof. intros [->|H]; [done|]. by apply elem_of_nil in H. Qed.

Lemma once_truncated b b' l k c : once (MkFile b' (b :: l) k) c -> c = b' \/ once (MkFile b l k) c.
Proof.
  intros [->|H]; [by left|]. right. cbn [df_older] in H. apply elem_of_cons in H as [->|H]; [by left|by right].
Qed.

(** A crash during or after a write keeps a part of it that ends on a sector, or
    what was there before. *)
Lemma once_written p off b l u c :
  once (MkFile (write_data p off b) (tears p off b ++ b :: l) u) c ->
  once (MkFile b l u) c \/
  exists k, (k <= length p)%nat /\ c = write_data (take k p) off b /\
    (k = length p \/ (off + Z.of_nat k) mod SectorSize = 0).
Proof.
  intros [->|H]; cbn [df_older df_now] in *.
  - right. exists (length p). rewrite take_ge by done. split_and!; [lia|done|by left].
  - apply elem_of_app in H as [H|H]; [|left; apply elem_of_cons in H as [->|H]; [by left|by right]].
    right. unfold tears in H. apply list_elem_of_In, in_map_iff in H as (k & <- & Hk).
    apply list_elem_of_In, list_elem_of_filter in Hk as [Hm Hk]. apply elem_of_seq in Hk.
    exists k. split; [lia|]. split; [done|by right].
Qed.

Lemma once_elem f c : once f c <-> c ∈ df_now f :: df_older f.
Proof. unfold once. by rewrite elem_of_cons. Qed.

(** What a file held once is one of its mixtures. *)
Lemma mixes_once l b : b ∈ l -> mixes l b.
Proof.
  intros Hb. split; [by exists b|]. intros k. exists b. split; [done|]. intros i Hi _.
  destruct (lookup_lt_is_Some_2 b i Hi) as [x ->]. done.
Qed.

Lemma may_hold_once log path f b : once f b -> may_hold log path f b.
Proof. intros H. unfold may_hold. case_decide; [done|]. by apply mixes_once, once_elem. Qed.

(** A synced file has nothing to mix. *)
Lemma mixes_one c b : mixes [c] b -> b = c.
Proof.
  intros [(c0 & ->%list_elem_of_singleton & Hl) Hs]. apply list_eq. intros i. destruct (decide (i < length b)%nat) as [Hi|Hi].
  - destruct (Hs (Z.to_nat (Z.of_nat i / SectorSize))) as (c1 & ->%list_elem_of_singleton & H).
    rewrite (H i Hi) by (rewrite Z2Nat.id; [done|apply Z.div_pos; unfold SectorSize; lia]).
    destruct (lookup_lt_is_Some_2 c i ltac:(lia)) as [x ->]. done.
  - by rewrite !lookup_ge_None_2 by lia.
Qed.

Lemma may_hold_synced log path c k b : may_hold log path (MkFile c [] k) b -> b = c.
Proof. unfold may_hold. case_decide; [apply once_synced|apply mixes_one]. Qed.
