(* ===== verification/Wal.v ===== *)
(** * wal/wal.go, wal/writer.go, wal/reader.go: the write-ahead log

    The WAL header, the checksum-chained frames, the writer and the recovery
    scan over any file that satisfies the laws of vfs.File; what a scan returns
    for an intact, a truncated and a damaged log. *)

From S2P Require Import Prelude Checksum Vfs.

(** ** Constants, errors, checksums *)

Definition WALHeaderSize : Z := 32.
Definition FrameHeaderSize : Z := 24.
Definition WALMagic : Z := 0x44574C0A.
Definition WALFormatVersion : Z := 1.
Definition LSNEpoch : Z := Z.shiftl 1 40.

Inductive walErr : Type :=
| ErrBadWALMagic | ErrWALVersion | ErrWALHeaderCorrupt | ErrWALShort | ErrPageSizeMismatch
| ErrEmptyCommit | WIo (e : ioErr).

(** hash/fnv: FNV-1a over a byte string, 32 and 64 bits. *)
Definition fnv32 (h : Z) (b : bytes) : Z := fold_left (fun h v => u32 (Z.lxor h v * 16777619)) b h.
Definition fnv64 (h : Z) (b : bytes) : Z := fold_left (fun h v => u64 (Z.lxor h v * 1099511628211)) b h.
Definition fnv32_offset : Z := 2166136261.
Definition fnv64_offset : Z := 14695981039346656037.

Definition headerChecksum (b : bytes) : Z * Z :=
  let sum := fnv64 fnv64_offset b in (u32 sum, u32 (Z.shiftr sum 32)).

Definition frameChecksum (salt1 salt2 prevCksum : Z) (headerPrefix payload : bytes) : Z :=
  let seed := le_bytes 4 salt1 ++ le_bytes 4 salt2 ++ le_bytes 4 prevCksum in
  fnv32 (fnv32 (fnv32 fnv32_offset seed) headerPrefix) payload.

(** ** The WAL header *)

Record Header := MkHeader {
  FormatVersion : Z;
  Flags : Z;
  PageSize : Z;
  CheckpointSeq : Z;
  Salt1 : Z;
  Salt2 : Z
}.

Definition NewHeader (pageSize checkpointSeq salt1 salt2 : Z) : Header :=
  MkHeader WALFormatVersion 0 pageSize checkpointSeq salt1 salt2.

Definition header_fields (h : Header) : list bytes :=
  [ le_bytes 4 WALMagic; le_bytes 2 (FormatVersion h); le_bytes 2 (Flags h);
    le_bytes 4 (PageSize h); le_bytes 4 (CheckpointSeq h); le_bytes 4 (Salt1 h);
    le_bytes 4 (Salt2 h) ].

Definition Encode (h : Header) : bytes :=
  let b := concat (header_fields h) in
  let '(c1, c2) := headerChecksum b in b ++ le_bytes 4 c1 ++ le_bytes 4 c2.

Definition DecodeWALHeader (b : bytes) : walErr + Header :=
  if blen b <? WALHeaderSize then inl ErrWALShort
  else if negb (le_val (sub 0 4 b) =? WALMagic) then inl ErrBadWALMagic
  else
    let v := le_val (sub 4 2 b) in
    if negb (v =? WALFormatVersion) then inl ErrWALVersion
    else
      let c1 := le_val (sub 24 4 b) in
      let c2 := le_val (sub 28 4 b) in
      let '(g1, g2) := headerChecksum (sub 0 24 b) in
      if negb (c1 =? g1) || negb (c2 =? g2) then inl ErrWALHeaderCorrupt
      else inr (MkHeader v (le_val (sub 6 2 b)) (le_val (sub 8 4 b)) (le_val (sub 12 4 b))
                  (le_val (sub 16 4 b)) (le_val (sub 20 4 b))).

Definition BaseLSN (h : Header) : Z := u64 (u64 (CheckpointSeq h * LSNEpoch) + 1).

Definition initialPrevChecksum (h : Header) : Z := (headerChecksum (sub 0 24 (Encode h))).1.

(** ** Frames *)

Record FrameHeader := MkFrameHeader {
  PageID : Z;
  FrameLSN : Z;
  CommitMarker : Z;
  fh_Checksum : Z
}.

Definition IsCommit (fh : FrameHeader) : bool := negb (CommitMarker fh =? 0).

Definition encodeFrameHeaderPrefix (pageID lsn commitMarker : Z) : bytes :=
  le_bytes 8 pageID ++ le_bytes 8 lsn ++ le_bytes 4 commitMarker.

Definition FrameSize (pageSize : Z) : Z := FrameHeaderSize + pageSize.
Definition FrameOffset (frameNo pageSize : Z) : Z :=
  WALHeaderSize + u32 (frameNo - 1) * FrameSize pageSize.

(** ** The writer *)

Record PageImage := MkPageImage { pi_PageID : Z; pi_Payload : bytes }.

Record Writer := MkWriter {
  w_header : Header;
  w_pageSize : Z;
  w_writeOffset : Z;
  w_nextFrame : Z;
  w_nextLSN : Z;
  w_prevCksum : Z
}.

Section writer.
Context {F : Type} {ops : FileOps F}.

Definition CreateWriter (h : Header) (f : F) : (walErr + Writer) * F :=
  let hb := Encode h in
  let '(e, f1) := Truncate 0 f in
  match e with
  | Some err => (inl (WIo err), f1)
  | None =>
      let '(_, e2, f2) := WriteAt hb 0 f1 in
      match e2 with
      | Some err => (inl (WIo err), f2)
      | None => (inr (MkWriter h (PageSize h) WALHeaderSize 1 (BaseLSN h) (initialPrevChecksum h)), f2)
      end
  end.

Definition ResumeWriter (h : Header) (afterFrame nextLSN prevCksum : Z) : Writer :=
  MkWriter h (PageSize h) (WALHeaderSize + afterFrame * FrameSize (PageSize h))
    (u32 (afterFrame + 1)) nextLSN prevCksum.

(** One frame: its lsn and ordinal, the writer and the file after it. *)
Definition appendFrame (pageID commitMarker : Z) (payload : bytes) (w : Writer) (f : F)
  : (walErr + (Z * Z)) * Writer * F :=
  let lsn := w_nextLSN w in
  let prefix := encodeFrameHeaderPrefix pageID lsn commitMarker in
  let cksum := frameChecksum (Salt1 (w_header w)) (Salt2 (w_header w)) (w_prevCksum w) prefix payload in
  let hdr := prefix ++ le_bytes 4 cksum in
  let '(_, e, f1) := WriteAt hdr (w_writeOffset w) f in
  match e with
  | Some err => (inl (WIo err), w, f1)
  | None =>
      let '(_, e2, f2) := WriteAt payload (w_writeOffset w + FrameHeaderSize) f1 in
      match e2 with
      | Some err => (inl (WIo err), w, f2)
      | None =>
          (inr (lsn, w_nextFrame w),
           MkWriter (w_header w) (w_pageSize w) (w_writeOffset w + FrameSize (w_pageSize w))
             (u32 (w_nextFrame w + 1)) (u64 (w_nextLSN w + 1)) cksum, f2)
      end
  end.

(** The loop of AppendCommit: the last frame carries the marker and its lsn and
    ordinal are returned. *)
Fixpoint append_frames (frames : list PageImage) (dbSizePages : Z) (w : Writer) (f : F)
  : (walErr + (Z * Z)) * Writer * F :=
  match frames with
  | [] => (inr (0, 0), w, f)
  | fr :: rest =>
      let is_last := match rest with [] => true | _ => false end in
      let marker := if is_last : bool then dbSizePages else 0 in
      let '(r, w1, f1) := appendFrame (pi_PageID fr) marker (pi_Payload fr) w f in
      match r with
      | inl e => (inl e, w1, f1)
      | inr res => if is_last then (inr res, w1, f1) else append_frames rest dbSizePages w1 f1
      end
  end.

Definition AppendCommit (frames : list PageImage) (dbSizePages : Z) (w : Writer) (f : F)
  : (walErr + (Z * Z)) * Writer * F :=
  if (length frames =? 0)%nat then (inl ErrEmptyCommit, w, f)
  else append_frames frames (if dbSizePages =? 0 then 1 else dbSizePages) w f.

Definition Writer_Sync (f : F) : option ioErr * F := Sync f.
Definition NextLSN (w : Writer) : Z := w_nextLSN w.
Definition FrameCount (w : Writer) : Z := u32 (w_nextFrame w - 1).
Definition Offset (w : Writer) : Z := w_writeOffset w.
End writer.

(** ** The recovery scan *)

Record Frame := MkFrame { fr_Header : FrameHeader; fr_FrameNo : Z; fr_Payload : bytes }.

Record ScanResult := MkScanResult {
  Committed : list Frame;
  DurableLSN : Z;
  DBSizePages : Z;
  LastFrameNo : Z;
  LastChecksum : Z;
  TornTail : bool;
  ScannedFrames : Z
}.

Definition emptyScan : ScanResult := MkScanResult [] 0 0 0 0 false 0.

(** The frame in the buffer, unless its checksum breaks the chain. *)
Definition check_frame (hdr : Header) (prev frameNo : Z) (buf : bytes) : option Frame :=
  let fh := MkFrameHeader (le_val (sub 0 8 buf)) (le_val (sub 8 8 buf)) (le_val (sub 16 4 buf))
              (le_val (sub 20 4 buf)) in
  let payload := drop 24 buf in
  if negb (frameChecksum (Salt1 hdr) (Salt2 hdr) prev (sub 0 20 buf) payload =? fh_Checksum fh)
  then None else Some (MkFrame fh frameNo payload).

(** What the loop hands to the code after it. *)
Record scanned := Scanned { sc_frames : list Frame; sc_lastCommitIdx : Z; sc_torn : bool; sc_count : Z }.

Definition last_frame (fs : list Frame) : option Frame := last fs.

Definition finish_scan (s : scanned) : ScanResult :=
  if sc_lastCommitIdx s >=? 0 then
    let committed := take (Z.to_nat (sc_lastCommitIdx s + 1)) (sc_frames s) in
    match last_frame committed with
    | Some l =>
        MkScanResult committed (FrameLSN (fr_Header l)) (CommitMarker (fr_Header l)) (fr_FrameNo l)
          (fh_Checksum (fr_Header l)) (sc_torn s) (sc_count s)
    | None => MkScanResult committed 0 0 0 0 (sc_torn s) (sc_count s)
    end
  else MkScanResult [] 0 0 0 0 (sc_torn s) (sc_count s).

Section scan.
Context {F : Type} {ops : FileOps F} (file : F).

Fixpoint scan_loop (fuel : nat) (hdr : Header) (frameSize prev offset frameNo0 : Z) (s : scanned)
  : option (walErr + scanned) :=
  match fuel with
  | O => None
  | S fuel' =>
      let frameNo := u32 (frameNo0 + 1) in
      let '(buf, rerr) := ReadAt frameSize offset file in
      if blen buf <? frameSize then
        Some (inr (Scanned (sc_frames s) (sc_lastCommitIdx s)
                     (if blen buf >? 0 then true else sc_torn s) (sc_count s)))
      else
        match (match rerr with Some EOF => None | r => r end) with
        | Some e => Some (inl (WIo e))
        | None =>
            match check_frame hdr prev frameNo buf with
            | None => Some (inr (Scanned (sc_frames s) (sc_lastCommitIdx s) true (sc_count s)))
            | Some fr =>
                let frames := sc_frames s ++ [fr] in
                let idx := if IsCommit (fr_Header fr) then blen frames - 1 else sc_lastCommitIdx s in
                scan_loop fuel' hdr frameSize (fh_Checksum (fr_Header fr)) (offset + frameSize) frameNo
                  (Scanned frames idx (sc_torn s) frameNo)
            end
        end
  end.

Definition Scan (fuel : nat) (expectedPageSize : Z) : option (walErr + ScanResult) :=
  let '(hb, err) := ReadAt WALHeaderSize 0 file in
  match (match err with Some EOF => None | r => r end) with
  | Some e => Some (inl (WIo e))
  | None =>
      if blen hb <? WALHeaderSize then Some (inr emptyScan)
      else
        match DecodeWALHeader hb with
        | inl _ => Some (inr emptyScan)
        | inr hdr =>
            if negb (PageSize hdr =? expectedPageSize) then Some (inl ErrPageSizeMismatch)
            else
              match scan_loop fuel hdr (FrameSize (PageSize hdr)) (initialPrevChecksum hdr)
                      WALHeaderSize 0 (Scanned [] (-1) false 0) with
              | None => None
              | Some (inl e) => Some (inl e)
              | Some (inr s) => Some (inr (finish_scan s))
              end
        end
  end.
End scan.

(** ** Lemmas: FNV-1a *)

Lemma fnv32_inv : u32 (16777619 * 899433627) = 1.
Proof. vm_compute. reflexivity. Qed.

Lemma fnv32_step_in_u h v : in_u 32 (u32 (Z.lxor h v * 16777619)).
Proof. apply u32_in_u. Qed.

Lemma fnv32_in_u b h : in_u 32 h -> in_u 32 (fnv32 h b).
Proof. unfold fnv32. revert h. induction b; intros h Hh; simpl; [done|]. apply IHb, u32_in_u. Qed.

Lemma byte_in_u32 v : byte_ok v -> in_u 32 v.
Proof. unfold byte_ok, in_u. lia. Qed.

Lemma lxor_inj_l h a b : Z.lxor h a = Z.lxor h b -> a = b.
Proof.
  intros E. apply (f_equal (Z.lxor h)) in E.
  by rewrite <- !Z.lxor_assoc, Z.lxor_nilpotent, !Z.lxor_0_l in E.
Qed.

Lemma fnv32_inj b h g :
  in_u 32 h -> in_u 32 g -> bytes_ok b -> fnv32 h b = fnv32 g b -> h = g.
Proof.
  intros Hh Hg Hb. revert h g Hh Hg. induction Hb as [|v b Hv Hb IH]; intros h g Hh Hg; [done|].
  unfold fnv32. simpl. intros E. apply IH in E; [|apply u32_in_u..].
  eapply u32_mul_inj in E; [|exact fnv32_inv|apply lxor_in_u; [lia|done|by apply byte_in_u32]..].
  rewrite !(Z.lxor_comm _ v) in E. by apply lxor_inj_l in E.
Qed.

Lemma fnv32_changed b h i x y :
  in_u 32 h -> bytes_ok b -> byte_ok y -> b !! i = Some x -> x <> y ->
  fnv32 h (<[i := y]> b) <> fnv32 h b.
Proof.
  intros Hh Hb Hy Hi Hne E. revert h i Hh Hi E. induction Hb as [|v b Hv Hb IH]; intros h [|i] Hh Hi E;
    try done.
  - injection Hi as ->. unfold fnv32 in E. simpl in E. apply fnv32_inj in E; [|apply u32_in_u..|done].
    eapply u32_mul_inj in E; [|exact fnv32_inv|apply lxor_in_u; [lia|done|by apply byte_in_u32]..].
    apply lxor_inj_l in E. congruence.
  - unfold fnv32 in E. simpl in E. by apply (IH (u32 (Z.lxor h v * 16777619)) i) in E; [|apply u32_in_u|].
Qed.

Lemma frameChecksum_in_u s1 s2 p hp pl : in_u 32 (frameChecksum s1 s2 p hp pl).
Proof.
  unfold frameChecksum. do 3 apply fnv32_in_u. unfold in_u, fnv32_offset. lia.
Qed.

Lemma frameChecksum_prefix_changed s1 s2 p hp pl i x y :
  bytes_ok hp -> bytes_ok pl -> byte_ok y -> hp !! i = Some x -> x <> y ->
  frameChecksum s1 s2 p (<[i := y]> hp) pl <> frameChecksum s1 s2 p hp pl.
Proof.
  intros Hhp Hpl Hy Hi Hne E. unfold frameChecksum in E.
  assert (H0 : in_u 32 (fnv32 fnv32_offset (le_bytes 4 s1 ++ le_bytes 4 s2 ++ le_bytes 4 p))).
  { apply fnv32_in_u. unfold in_u, fnv32_offset. lia. }
  apply fnv32_inj in E; [|by apply fnv32_in_u..|done].
  by apply (fnv32_changed hp _ i x y) in E.
Qed.

Lemma frameChecksum_payload_changed s1 s2 p hp pl i x y :
  bytes_ok pl -> byte_ok y -> pl !! i = Some x -> x <> y ->
  frameChecksum s1 s2 p hp (<[i := y]> pl) <> frameChecksum s1 s2 p hp pl.
Proof.
  intros Hpl Hy Hi Hne E. unfold frameChecksum in E.
  apply (fnv32_changed pl _ i x y) in E; try done.
  do 2 apply fnv32_in_u. unfold in_u, fnv32_offset. lia.
Qed.

(** ** Logs *)

(** A log is a list of frames to write: page, commit marker, image. *)
Record entry := Entry { e_id : Z; e_marker : Z; e_payload : bytes }.

Section log.
Context (h : Header).

Definition entry_ok (e : entry) : Prop :=
  in_u 64 (e_id e) /\ in_u 32 (e_marker e) /\ bytes_ok (e_payload e) /\
  blen (e_payload e) = PageSize h.

Definition entry_cksum (prev lsn : Z) (e : entry) : Z :=
  frameChecksum (Salt1 h) (Salt2 h) prev (encodeFrameHeaderPrefix (e_id e) lsn (e_marker e)) (e_payload e).

Definition frame_bytes (prev lsn : Z) (e : entry) : bytes :=
  encodeFrameHeaderPrefix (e_id e) lsn (e_marker e) ++ le_bytes 4 (entry_cksum prev lsn e) ++ e_payload e.

Definition entry_frame (prev lsn no : Z) (e : entry) : Frame :=
  MkFrame (MkFrameHeader (e_id e) lsn (e_marker e) (entry_cksum prev lsn e)) no (e_payload e).

Fixpoint log_bytes (prev lsn : Z) (l : list entry) : bytes :=
  match l with
  | [] => []
  | e :: l' => frame_bytes prev lsn e ++ log_bytes (entry_cksum prev lsn e) (u64 (lsn + 1)) l'
  end.

Fixpoint log_frames (prev lsn no : Z) (l : list entry) : list Frame :=
  match l with
  | [] => []
  | e :: l' => entry_frame prev lsn (u32 (no + 1)) e ::
               log_frames (entry_cksum prev lsn e) (u64 (lsn + 1)) (u32 (no + 1)) l'
  end.

(** The chain state after a log: the last checksum, the next lsn, the ordinal. *)
Fixpoint log_end (prev lsn no : Z) (l : list entry) : Z * Z * Z :=
  match l with
  | [] => (prev, lsn, no)
  | e :: l' => log_end (entry_cksum prev lsn e) (u64 (lsn + 1)) (u32 (no + 1)) l'
  end.

(** The scan as a function of the bytes after the header. *)
Fixpoint scan_frames (fuel : nat) (prev no : Z) (d : bytes) : list Frame * bool :=
  match fuel with
  | O => ([], false)
  | S fuel' =>
      if blen d <? FrameSize (PageSize h) then ([], blen d >? 0)
      else
        let buf := take (Z.to_nat (FrameSize (PageSize h))) d in
        match check_frame h prev (u32 (no + 1)) buf with
        | None => ([], true)
        | Some fr =>
            let '(fs, torn) := scan_frames fuel' (fh_Checksum (fr_Header fr)) (u32 (no + 1))
                                 (drop (Z.to_nat (FrameSize (PageSize h))) d) in
            (fr :: fs, torn)
        end
  end.

Lemma blen_frame prev lsn e : entry_ok e -> blen (frame_bytes prev lsn e) = FrameSize (PageSize h).
Proof.
  intros (_ & _ & _ & Hl). unfold frame_bytes, encodeFrameHeaderPrefix, FrameSize, FrameHeaderSize, blen in *.
  rewrite !length_app, !length_le_bytes. lia.
Qed.

Lemma frame_bytes_concat prev lsn e :
  frame_bytes prev lsn e =
  concat [le_bytes 8 (e_id e); le_bytes 8 lsn; le_bytes 4 (e_marker e);
          le_bytes 4 (entry_cksum prev lsn e); e_payload e].
Proof. unfold frame_bytes, encodeFrameHeaderPrefix. cbn [concat]. by rewrite app_nil_r, <- !app_assoc. Qed.

Lemma frame_bytes_prefix prev lsn e :
  sub 0 20 (frame_bytes prev lsn e) = encodeFrameHeaderPrefix (e_id e) lsn (e_marker e).
Proof.
  unfold frame_bytes.
  rewrite sub_app_l by done.
  change 20%nat with (length (encodeFrameHeaderPrefix (e_id e) lsn (e_marker e))). apply sub_full.
Qed.

Lemma frame_bytes_payload prev lsn e : drop 24 (frame_bytes prev lsn e) = e_payload e.
Proof. unfold frame_bytes. rewrite app_assoc. by rewrite drop_app_ge by done. Qed.

Lemma check_frame_ok prev lsn no e :
  entry_ok e -> in_u 64 lsn ->
  check_frame h prev no (frame_bytes prev lsn e) = Some (entry_frame prev lsn no e).
Proof.
  intros (Hid & Hm & Hb & Hl) Hlsn. unfold check_frame.
  rewrite frame_bytes_prefix, frame_bytes_payload, frame_bytes_concat.
  set (fs := [le_bytes 8 (e_id e); le_bytes 8 lsn; le_bytes 4 (e_marker e);
          le_bytes 4 (entry_cksum prev lsn e); e_payload e]).
  rewrite (sub_concat 0 fs (le_bytes 8 (e_id e))) by reflexivity.
  rewrite (sub_concat 1 fs (le_bytes 8 lsn)) by reflexivity.
  rewrite (sub_concat 2 fs (le_bytes 4 (e_marker e))) by reflexivity.
  rewrite (sub_concat 3 fs (le_bytes 4 (entry_cksum prev lsn e))) by reflexivity.
  rewrite !le_val_le_bytes by (done || apply frameChecksum_in_u). cbn [fh_Checksum].
  unfold entry_cksum at 1. fold (entry_cksum prev lsn e). by rewrite Z.eqb_refl.
Qed.

Lemma scan_frames_log l : forall prev lsn no tail fuel,
  Forall entry_ok l -> in_u 64 lsn ->
  scan_frames (length l + fuel) prev no (log_bytes prev lsn l ++ tail) =
  let '(prev', lsn', no') := log_end prev lsn no l in
  let '(fs, torn) := scan_frames fuel prev' no' tail in
  (log_frames prev lsn no l ++ fs, torn).
Proof.
  induction l as [|e l IH]; intros prev lsn no tail fuel Hl Hlsn.
  { simpl. by destruct (scan_frames fuel prev no tail). }
  apply Forall_cons in Hl as [He Hl]. cbn [log_bytes length Nat.add log_frames log_end scan_frames].
  pose proof (blen_frame prev lsn e He) as Hb.
  assert (Hbl : blen ((frame_bytes prev lsn e ++ log_bytes (entry_cksum prev lsn e) (u64 (lsn + 1)) l) ++ tail)
    <? FrameSize (PageSize h) = false).
  { apply Z.ltb_ge. rewrite <- Hb. unfold blen. rewrite !length_app. lia. }
  rewrite Hbl, <- app_assoc, <- Hb. unfold blen. rewrite Nat2Z.id.
  rewrite take_app_length, drop_app_length, check_frame_ok by done.
  cbn [entry_frame fr_Header fh_Checksum]. rewrite IH by (done || (apply wrap_in_u; lia)).
  destruct (log_end _ _ _ l) as [[prev' lsn'] no']. by destruct (scan_frames fuel prev' no' tail).
Qed.
End log.

(** ** The committed prefix of a list of frames *)

Fixpoint committed (fs : list Frame) : list Frame :=
  match fs with
  | [] => []
  | f :: fs' =>
      match committed fs' with
      | [] => if IsCommit (fr_Header f) then [f] else []
      | c => f :: c
      end
  end.

(** What finish_scan makes of a committed prefix. *)
Definition result_of (fs : list Frame) (torn : bool) (count : Z) : ScanResult :=
  match last (committed fs) with
  | Some l =>
      MkScanResult (committed fs) (FrameLSN (fr_Header l)) (CommitMarker (fr_Header l)) (fr_FrameNo l)
        (fh_Checksum (fr_Header l)) torn count
  | None => MkScanResult [] 0 0 0 0 torn count
  end.

Lemma committed_snoc fs f :
  committed (fs ++ [f]) = if IsCommit (fr_Header f) then fs ++ [f] else committed fs.
Proof.
  induction fs as [|g fs IH]; [done|]. cbn [app committed]. rewrite IH.
  destruct (IsCommit (fr_Header f)); [|done]. by destruct (fs ++ [f]) eqn:E; [destruct fs|].
Qed.

Lemma committed_no_commit fs gs :
  Forall (fun f => IsCommit (fr_Header f) = false) gs -> committed (fs ++ gs) = committed fs.
Proof.
  revert fs. induction gs as [|g gs IH]; intros fs Hg; [by rewrite app_nil_r|].
  apply Forall_cons in Hg as [Hg Hgs].
  change (g :: gs) with ([g] ++ gs). rewrite app_assoc, (IH (fs ++ [g])), committed_snoc by done. by rewrite Hg.
Qed.

Lemma committed_prefix fs : committed fs = take (length (committed fs)) fs.
Proof.
  induction fs as [|f fs IH]; [done|]. cbn [committed].
  destruct (committed fs) as [|c cs] eqn:E.
  - by destruct (IsCommit (fr_Header f)).
  - cbn [length take]. f_equal. done.
Qed.

Lemma finish_scan_committed fs torn c :
  finish_scan (Scanned fs (blen (committed fs) - 1) torn c) = result_of fs torn c.
Proof.
  unfold finish_scan, result_of. cbn [sc_lastCommitIdx sc_frames sc_torn sc_count].
  rewrite Z.geb_leb. unfold last_frame. destruct (committed fs) as [|x l] eqn:E.
  - done.
  - rewrite (proj2 (Z.leb_le _ _)) by (unfold blen; simpl; lia).
    replace (Z.to_nat (blen (x :: l) - 1 + 1)) with (length (committed fs)) by (rewrite E; unfold blen; lia).
    rewrite <- committed_prefix, E. destruct (last (x :: l)) eqn:El; [done|].
    by apply last_None in El.
Qed.

(** ** The loop on a lawful file *)

Section lawful.
Context {F : Type} {ops : FileOps F} (contents : F -> bytes) {laws : FileLaws F contents}.

Lemma scan_loop_frames (file : F) h fuel : forall prev off no fs torn,
  0 <= off <= blen (contents file) -> 0 <= PageSize h -> in_u 32 no ->
  (length (drop (Z.to_nat off) (contents file)) < fuel)%nat ->
  exists gs torn',
    scan_frames h fuel prev no (drop (Z.to_nat off) (contents file)) = (gs, torn') /\
    scan_loop file fuel h (FrameSize (PageSize h)) prev off no
      (Scanned fs (blen (committed fs) - 1) torn no) =
    Some (inr (Scanned (fs ++ gs) (blen (committed (fs ++ gs)) - 1) (torn || torn') (u32 (no + blen gs)))).
Proof.
  induction fuel as [|fuel IH]; intros prev off no fs torn Hoff Hps Hno Hfuel; [lia|].
  set (fsz := FrameSize (PageSize h)).
  assert (Hfsz : 24 <= fsz) by (unfold fsz, FrameSize, FrameHeaderSize; lia).
  assert (Hn0 : u32 (no + blen (@nil Frame)) = no)
    by (change (blen (@nil Frame)) with 0; rewrite Z.add_0_r; by apply wrap_small).
  cbn [scan_frames scan_loop]. fold fsz. rewrite law_read by lia.
  set (d := drop (Z.to_nat off) (contents file)) in *.
  assert (Hd : blen d = blen (contents file) - off) by (unfold d, blen in *; rewrite length_drop; lia).
  assert (Hbuf : read_data fsz off (contents file) = take (Z.to_nat fsz) d) by done.
  assert (Hlb : blen (take (Z.to_nat fsz) d) = Z.min fsz (blen d)) by (unfold blen; rewrite length_take; lia).
  rewrite Hbuf, Hlb. destruct (Z.ltb_spec (blen d) fsz) as [Hs|Hs].
  - rewrite (proj2 (Z.ltb_lt (Z.min fsz (blen d)) fsz)) by lia.
    exists [], (blen d >? 0). split; [done|]. rewrite app_nil_r.
    replace (Z.min fsz (blen d) >? 0) with (blen d >? 0)
      by (rewrite !Z.gtb_ltb; destruct (Z.ltb_spec 0 (blen d)), (Z.ltb_spec 0 (Z.min fsz (blen d))); lia).
    cbn [sc_frames sc_lastCommitIdx sc_torn sc_count].
    rewrite Hn0.
    by destruct (blen d >? 0), torn.
  - rewrite (proj2 (Z.ltb_ge (Z.min fsz (blen d)) fsz)) by lia.
    rewrite (proj2 (Z.leb_gt (blen (contents file)) off)) by lia.
    destruct (check_frame h prev (u32 (no + 1)) (take (Z.to_nat fsz) d)) as [fr|] eqn:Ec.
    + cbn [sc_frames sc_lastCommitIdx sc_torn].
      destruct (IH (fh_Checksum (fr_Header fr)) (off + fsz) (u32 (no + 1)) (fs ++ [fr]) torn) as (gs & t' & Hsf & Hsl).
      { lia. } { done. } { apply wrap_in_u. lia. }
      { rewrite length_drop. unfold blen in *. lia. }
      replace (drop (Z.to_nat (off + fsz)) (contents file)) with (drop (Z.to_nat fsz) d) in Hsf
        by (unfold d; rewrite drop_drop; f_equal; lia).
      rewrite Hsf. exists (fr :: gs), t'. split; [done|]. rewrite committed_snoc in Hsl.
      replace (if IsCommit (fr_Header fr) then blen (fs ++ [fr]) - 1 else blen (committed fs) - 1)
        with (blen (if IsCommit (fr_Header fr) then fs ++ [fr] else committed fs) - 1)
        by (by destruct (IsCommit (fr_Header fr))).
      fold fsz in Hsl. cbn [sc_frames]. rewrite Hsl, <- app_assoc. cbn [app].
      replace (u32 (u32 (no + 1) + blen gs)) with (u32 (no + blen (fr :: gs))); [done|].
      unfold wrap, blen. cbn [length]. rewrite Zplus_mod_idemp_l. f_equal. lia.
    + exists [], true. split; [done|]. rewrite app_nil_r.
      rewrite Hn0.
      by rewrite orb_true_r.
Qed.
End lawful.

(** ** The header's bytes *)

Definition header_ok (h : Header) : Prop :=
  FormatVersion h = WALFormatVersion /\ in_u 16 (Flags h) /\ in_u 32 (PageSize h) /\
  in_u 32 (CheckpointSeq h) /\ in_u 32 (Salt1 h) /\ in_u 32 (Salt2 h).

Lemma fnv64_step_inj a b :
  in_u 64 a -> in_u 64 b -> u64 (a * 1099511628211) = u64 (b * 1099511628211) -> a = b.
Proof.
  intros Ha Hb E. unfold wrap in E.
  assert (Hi : forall x, in_u 64 x -> (x * 1099511628211 mod 2 ^ 64 * 14886173955864302971) mod 2 ^ 64 = x).
  { intros x Hx. rewrite Zmult_mod_idemp_l, <- Z.mul_assoc, <- Zmult_mod_idemp_r.
    change ((1099511628211 * 14886173955864302971) mod 2 ^ 64) with 1.
    rewrite Z.mul_1_r. apply Z.mod_small, Hx. }
  by rewrite <- (Hi a), <- (Hi b), E.
Qed.

Lemma fnv64_in_u b g : in_u 64 g -> in_u 64 (fnv64 g b).
Proof. unfold fnv64. revert g. induction b; intros g Hg; simpl; [done|]. apply IHb, wrap_in_u. lia. Qed.

Lemma fnv64_inj b h g :
  in_u 64 h -> in_u 64 g -> bytes_ok b -> fnv64 h b = fnv64 g b -> h = g.
Proof.
  intros Hh Hg Hb. revert h g Hh Hg. induction Hb as [|v b Hv Hb IH]; intros h g Hh Hg; [done|].
  unfold fnv64. simpl. assert (Hv' : in_u 64 v) by (unfold byte_ok, in_u in *; lia).
  intros E. apply IH in E; [|apply wrap_in_u; lia..].
  apply fnv64_step_inj in E; [|by apply lxor_in_u..].
  rewrite !(Z.lxor_comm _ v) in E. by apply lxor_inj_l in E.
Qed.

Lemma fnv64_changed b h i x y :
  in_u 64 h -> bytes_ok b -> byte_ok y -> b !! i = Some x -> x <> y ->
  fnv64 h (<[i := y]> b) <> fnv64 h b.
Proof.
  intros Hh Hb Hy Hi Hne E. revert h i Hh Hi E.
  assert (Hw : forall v, byte_ok v -> in_u 64 v) by (unfold byte_ok, in_u; lia).
  induction Hb as [|v b Hv Hb IH]; intros h [|i] Hh Hi E; try done.
  - injection Hi as ->. unfold fnv64 in E. simpl in E. apply fnv64_inj in E; [|apply wrap_in_u; lia..|done].
    apply fnv64_step_inj in E; [|apply lxor_in_u; auto with lia..].
    apply lxor_inj_l in E. congruence.
  - unfold fnv64 in E. simpl in E.
    by apply (IH (u64 (Z.lxor h v * 1099511628211)) i) in E; [|apply wrap_in_u; lia|].
Qed.

(** The two halves of the header checksum determine it. *)
Lemma headerChecksum_inj a b :
  in_u 64 (fnv64 fnv64_offset a) -> in_u 64 (fnv64 fnv64_offset b) ->
  headerChecksum a = headerChecksum b -> fnv64 fnv64_offset a = fnv64 fnv64_offset b.
Proof.
  unfold headerChecksum. generalize (fnv64 fnv64_offset a) (fnv64 fnv64_offset b). intros u v Hu Hv E.
  assert (E1 : u32 u = u32 v) by congruence.
  assert (E2 : u32 (Z.shiftr u 32) = u32 (Z.shiftr v 32)) by congruence.
  rewrite !Z.shiftr_div_pow2 in E2 by lia. unfold wrap, in_u in *.
  change (2 ^ 64) with 18446744073709551616 in *. change (2 ^ 32) with 4294967296 in *.
  rewrite !(Z.mod_small (_ / _)) in E2 by zlia. zlia.
Qed.

Lemma fnv64_offset_in_u : in_u 64 fnv64_offset.
Proof. unfold in_u, fnv64_offset. lia. Qed.

Lemma headerChecksum_changed b i x y :
  bytes_ok b -> byte_ok y -> b !! i = Some x -> x <> y ->
  headerChecksum (<[i := y]> b) <> headerChecksum b.
Proof.
  intros Hb Hy Hi Hne E. pose proof fnv64_offset_in_u.
  apply headerChecksum_inj in E; [|by apply fnv64_in_u..]. by apply (fnv64_changed b _ i x y) in E.
Qed.

Lemma headerChecksum_in_u b : in_u 32 (headerChecksum b).1 /\ in_u 32 (headerChecksum b).2.
Proof. split; apply wrap_in_u; lia. Qed.

Definition cksum_bytes (b : bytes) : bytes := le_bytes 4 (headerChecksum b).1 ++ le_bytes 4 (headerChecksum b).2.

Lemma Encode_eq h : Encode h = concat (header_fields h) ++ cksum_bytes (concat (header_fields h)).
Proof. unfold Encode, cksum_bytes. by destruct (headerChecksum _). Qed.

Lemma header_fields_len h : length (concat (header_fields h)) = 24%nat.
Proof. reflexivity. Qed.

Lemma header_fields_ok h : bytes_ok (concat (header_fields h)).
Proof. unfold bytes_ok, header_fields. cbn [concat]. repeat (apply Forall_app_2; [apply bytes_ok_le|]). by constructor. Qed.

Lemma length_Encode h : length (Encode h) = 32%nat.
Proof.
  rewrite Encode_eq. unfold cksum_bytes. by rewrite !length_app, !length_le_bytes, header_fields_len.
Qed.

Lemma Encode_ok h : bytes_ok (Encode h).
Proof. rewrite Encode_eq. apply Forall_app_2; [apply header_fields_ok|apply Forall_app_2; apply bytes_ok_le]. Qed.

Lemma Encode_prefix h t : sub 0 24 (Encode h ++ t) = concat (header_fields h).
Proof. rewrite Encode_eq, <- app_assoc. unfold sub. rewrite drop_0. by apply take_app_length'. Qed.

Lemma initialPrev_eq h : initialPrevChecksum h = (headerChecksum (concat (header_fields h))).1.
Proof. unfold initialPrevChecksum. by rewrite <- (app_nil_r (Encode h)), Encode_prefix. Qed.

Lemma DecodeWALHeader_Encode h t : header_ok h -> DecodeWALHeader (Encode h ++ t) = inr h.
Proof.
  intros (Hv & Hf & Hp & Hc & H1 & H2). unfold DecodeWALHeader. rewrite Encode_prefix.
  assert (Hl : blen (Encode h ++ t) <? WALHeaderSize = false).
  { apply Z.ltb_ge. unfold blen, WALHeaderSize. rewrite length_app, length_Encode. lia. }
  rewrite Hl. set (b := concat (header_fields h)).
  assert (Hfld : forall k w v, header_fields h !! k = Some (le_bytes w v) -> in_u (8 * Z.of_nat w) v ->
    le_val (sub (length (concat (take k (header_fields h)))) w (Encode h ++ t)) = v).
  { intros k w v Hk Hin. rewrite Encode_eq, <- app_assoc, sub_app_l.
    - rewrite (sub_concat k (header_fields h) (le_bytes w v)) by (done || apply length_le_bytes).
      by apply le_val_le_bytes.
    - rewrite <- (take_drop_middle _ _ _ Hk) at 2.
      rewrite concat_app, length_app. cbn [concat]. rewrite length_app, length_le_bytes. lia. }
  assert (Hck : forall o c, (o = 24%nat /\ c = (headerChecksum b).1) \/ (o = 28%nat /\ c = (headerChecksum b).2) ->
    le_val (sub o 4 (Encode h ++ t)) = c).
  { intros o c Ho. rewrite Encode_eq, <- app_assoc, sub_app_r by (rewrite header_fields_len; lia).
    rewrite header_fields_len. unfold cksum_bytes. fold b. pose proof (headerChecksum_in_u b) as [Hu1 Hu2].
    destruct Ho as [[-> ->]|[-> ->]].
    - change (24 - 24)%nat with 0%nat. rewrite <- app_assoc, sub_app_l by done. by rewrite <- (le_val_le_bytes 4).
    - change (28 - 24)%nat with 4%nat. rewrite <- app_assoc, sub_app_r by done.
      rewrite sub_app_l by done. by rewrite <- (le_val_le_bytes 4). }
  assert (F : forall k w v o, header_fields h !! k = Some (le_bytes w v) -> in_u (8 * Z.of_nat w) v ->
    length (concat (take k (header_fields h))) = o -> le_val (sub o w (Encode h ++ t)) = v).
  { intros k w v o ? ? <-. by apply Hfld. }
  rewrite (F 0 4 WALMagic 0)%nat, (F 1 2 (FormatVersion h) 4)%nat, (F 2 2 (Flags h) 6)%nat,
    (F 3 4 (PageSize h) 8)%nat, (F 4 4 (CheckpointSeq h) 12)%nat, (F 5 4 (Salt1 h) 16)%nat,
    (F 6 4 (Salt2 h) 20)%nat by (done || (rewrite Hv; done)).
  rewrite (Hck 24%nat (headerChecksum b).1), (Hck 28%nat (headerChecksum b).2) by tauto.
  rewrite Hv, !Z.eqb_refl. cbn [negb].
  destruct (headerChecksum b) as [g1 g2]. cbn [fst snd]. rewrite !Z.eqb_refl. cbn [negb orb].
  by destruct h; cbn in Hv |- *; subst.
Qed.

(** One damaged byte of a header that decodes. *)
Lemma decode_changed b h i x y :
  DecodeWALHeader b = inr h -> bytes_ok (sub 0 32 b) -> (i < 32)%nat ->
  b !! i = Some x -> byte_ok y -> x <> y ->
  DecodeWALHeader (<[i := y]> b) =
  inl (if (i <? 4)%nat then ErrBadWALMagic else if (i <? 6)%nat then ErrWALVersion else ErrWALHeaderCorrupt).
Proof.
  intros Hok Hb Hlt Hi Hy Hne.
  assert (Hbs : forall o n, (o + n <= 32)%nat -> bytes_ok (sub o n b)).
  { intros o n Hn. change o with (0 + o)%nat. rewrite <- (sub_sub 0 32) by done. by apply sub_Forall. }
  assert (Hix : forall o n, (o <= i < o + n)%nat -> sub o n b !! (i - o)%nat = Some x).
  { intros o n Ho. rewrite sub_lookup by lia. rewrite <- Hi. f_equal. lia. }
  assert (Hc : forall o n v, (o <= i < o + n)%nat -> (o + n <= 32)%nat ->
    le_val (sub o n b) = v -> le_val (sub o n (<[i:=y]> b)) =? v = false).
  { intros o n v Ho Hn <-. apply Z.eqb_neq. rewrite sub_insert_in by lia.
    apply (le_val_insert_ne _ _ x); auto. }
  assert (Hd : (i < 24)%nat -> headerChecksum (sub 0 24 (<[i:=y]> b)) <> headerChecksum (sub 0 24 b)).
  { intros Hi24. rewrite sub_insert_in by lia. apply (headerChecksum_changed _ _ x); [apply Hbs; lia|done| |done].
    apply Hix. lia. }
  unfold DecodeWALHeader in *. rewrite (eq_refl : blen b = Z.of_nat (length b)) in Hok.
  unfold blen. rewrite length_insert.
  destruct (Z.of_nat (length b) <? WALHeaderSize); [done|].
  destruct (Z.eqb_spec (le_val (sub 0 4 b)) WALMagic) as [E0|]; [|done]. cbn [negb] in Hok.
  destruct (Z.eqb_spec (le_val (sub 4 2 b)) WALFormatVersion) as [E1|]; [|done]. cbn [negb] in Hok.
  destruct (Nat.ltb_spec i 4); [by rewrite Hc by (done || lia)|].
  rewrite (sub_insert_out 0 4), E0, Z.eqb_refl by lia. cbn [negb].
  destruct (Nat.ltb_spec i 6); [by rewrite Hc by (done || lia)|].
  rewrite (sub_insert_out 4 2), E1, Z.eqb_refl by lia. cbn [negb].
  destruct (headerChecksum (sub 0 24 b)) as [g1 g2] eqn:Eg.
  destruct (negb _ || negb _) eqn:E2 in Hok; [done|].
  apply orb_false_iff in E2 as [E2 E3]. apply negb_false_iff, Z.eqb_eq in E2, E3.
  destruct (decide (i < 24)%nat) as [Hi24|].
  - specialize (Hd Hi24). rewrite !(sub_insert_out _ 4) by lia. rewrite E2, E3.
    destruct (headerChecksum (sub 0 24 (<[i:=y]> b))) as [k1 k2].
    by destruct (Z.eqb_spec g1 k1), (Z.eqb_spec g2 k2); subst.
  - rewrite (sub_insert_out 0 24), Eg by lia. destruct (decide (i < 28)%nat).
    + by rewrite (Hc 24%nat 4%nat g1) by (done || lia).
    + rewrite (Hc 28%nat 4%nat g2) by (done || lia). by rewrite orb_true_r.
Qed.

(** ** What a scan returns *)

Section logs.
Context (h : Header).

Definition scan_result (fs : list Frame) (torn : bool) : ScanResult :=
  result_of fs torn (u32 (blen fs)).

Lemma scan_frames_short prev no d fuel :
  blen d < FrameSize (PageSize h) -> scan_frames h (S fuel) prev no d = ([], blen d >? 0).
Proof. intros H. cbn [scan_frames]. by rewrite (proj2 (Z.ltb_lt _ _)). Qed.

Lemma length_log_bytes l : forall prev lsn,
  Forall (entry_ok h) l ->
  length (log_bytes h prev lsn l) = (length l * Z.to_nat (FrameSize (PageSize h)))%nat.
Proof.
  induction l as [|e l IH]; intros prev lsn Hl; [done|]. apply Forall_cons in Hl as [He Hl].
  cbn [log_bytes length]. rewrite length_app, IH by done.
  pose proof (blen_frame h prev lsn e He) as Hb. unfold blen in Hb. lia.
Qed.

Lemma log_end_app l1 l2 : forall prev lsn no,
  log_end h prev lsn no (l1 ++ l2) =
  let '(p, n, o) := log_end h prev lsn no l1 in log_end h p n o l2.
Proof. induction l1; intros; cbn [app log_end]; auto. Qed.

Lemma log_frames_app l1 l2 : forall prev lsn no,
  log_frames h prev lsn no (l1 ++ l2) =
  log_frames h prev lsn no l1 ++ let '(p, n, o) := log_end h prev lsn no l1 in log_frames h p n o l2.
Proof. induction l1; intros; cbn [app log_end log_frames]; [done|]. f_equal. auto. Qed.

Lemma log_bytes_app l1 l2 : forall prev lsn no,
  log_bytes h prev lsn (l1 ++ l2) =
  log_bytes h prev lsn l1 ++ let '(p, n, _) := log_end h prev lsn no l1 in log_bytes h p n l2.
Proof.
  induction l1 as [|e l1 IH]; intros prev lsn no; cbn [app log_end log_bytes]; [done|].
  rewrite <- app_assoc. f_equal. auto.
Qed.

Lemma log_frames_take k l : forall prev lsn no,
  log_frames h prev lsn no (take k l) = take k (log_frames h prev lsn no l).
Proof. revert k. induction l; intros [|k] *; cbn [take log_frames]; [done..|]. f_equal. auto. Qed.

Lemma length_log_frames l : forall prev lsn no, length (log_frames h prev lsn no l) = length l.
Proof. induction l; intros; cbn [log_frames length]; auto. Qed.

Lemma log_end_lsn l : forall prev lsn no, in_u 64 lsn -> in_u 64 (log_end h prev lsn no l).1.2.
Proof. induction l; intros; cbn [log_end]; [done|]. apply IHl, wrap_in_u. lia. Qed.

Lemma log_end_nums l : forall prev lsn no, in_u 64 lsn -> in_u 32 no ->
  let '(_, lsn', no') := log_end h prev lsn no l in
  lsn' = u64 (lsn + blen l) /\ no' = u32 (no + blen l).
Proof.
  induction l as [|e l IH]; intros prev lsn no Hl Hn; cbn [log_end].
  - change (blen (@nil entry)) with 0. by rewrite !Z.add_0_r, !wrap_small.
  - specialize (IH (entry_cksum h prev lsn e) (u64 (lsn + 1)) (u32 (no + 1))).
    destruct (log_end _ _ _ _ l) as [[p n] o].
    destruct IH as [-> ->]; [apply wrap_in_u; lia..|]. unfold wrap, blen. cbn [length].
    rewrite !Zplus_mod_idemp_l. split; f_equal; lia.
Qed.

(** A log cut after n bytes: the whole frames, then less than a frame. *)
Lemma take_log_bytes l n : forall prev lsn,
  Forall (entry_ok h) l -> 0 <= PageSize h ->
  let k := (n / Z.to_nat (FrameSize (PageSize h)))%nat in
  exists tail,
    take n (log_bytes h prev lsn l) = log_bytes h prev lsn (take k l) ++ tail /\
    blen tail < FrameSize (PageSize h).
Proof.
  intros prev lsn Hl Hps k. revert n prev lsn k. set (z := Z.to_nat (FrameSize (PageSize h))).
  assert (Hz : (24 <= z)%nat) by (unfold z, FrameSize, FrameHeaderSize; lia).
  assert (Hfz : FrameSize (PageSize h) = Z.of_nat z) by (unfold z, FrameSize, FrameHeaderSize; lia).
  induction Hl as [|e l He Hl IH]; intros n prev lsn k.
  { exists []. cbn [log_bytes]. rewrite !take_nil. cbn [log_bytes]. split; [done|]. rewrite Hfz. unfold blen. simpl. lia. }
  pose proof (blen_frame h prev lsn e He) as Hb. rewrite Hfz in Hb. unfold blen in Hb. apply Nat2Z.inj in Hb.
  destruct (decide (n < z)%nat) as [Hn|Hn].
  - exists (take n (log_bytes h prev lsn (e :: l))). unfold k. rewrite Nat.div_small by done.
    split; [done|]. unfold blen. rewrite length_take. lia.
  - assert (Hk : k = S ((n - z) / z)%nat).
    { unfold k. replace n with (1 * z + (n - z))%nat at 1 by lia. rewrite Nat.div_add_l by lia. done. }
    destruct (IH (n - z)%nat (entry_cksum h prev lsn e) (u64 (lsn + 1))) as (tail & Ht & Htl).
    exists tail. rewrite Hk. cbn [take log_bytes]. split; [|done].
    rewrite take_app_ge by lia. rewrite Hb, Ht. by rewrite app_assoc.
Qed.
End logs.

Section scan_log.
Context {F : Type} {ops : FileOps F} (contents : F -> bytes) {laws : FileLaws F contents}.

(** A whole header, then any bytes: the scan ends and returns the committed
    prefix of the frames that verify. *)
Lemma Scan_frames (file : F) h d fuel :
  header_ok h -> contents file = Encode h ++ d -> (length d < fuel)%nat ->
  Scan file fuel (PageSize h) =
  let '(fs, torn) := scan_frames h fuel (initialPrevChecksum h) 0 d in Some (inr (scan_result fs torn)).
Proof.
  intros Hh Hc Hfuel. unfold Scan. rewrite law_read by done. rewrite Hc.
  assert (Hr : read_data WALHeaderSize 0 (Encode h ++ d) = Encode h).
  { unfold read_data, sub. rewrite drop_0. apply take_app_length'. by rewrite length_Encode. }
  rewrite Hr. assert (Hl : blen (Encode h) = 32) by (unfold blen; by rewrite length_Encode).
  assert (Hl2 : 32 <= blen (Encode h ++ d)) by (unfold blen in *; rewrite length_app; lia).
  rewrite Hl. change (32 <? WALHeaderSize) with false. cbn [negb].
  rewrite (proj2 (Z.leb_gt (blen (Encode h ++ d)) 0)) by lia.
  rewrite <- (app_nil_r (Encode h)), DecodeWALHeader_Encode, Z.eqb_refl by done. cbn [negb].
  destruct (scan_loop_frames contents file h fuel (initialPrevChecksum h) 32 0 [] false)
    as (gs & t & Hsf & Hsl).
  - rewrite Hc. lia.
  - apply Hh.
  - unfold in_u. lia.
  - rewrite Hc, drop_app_length' by (by rewrite length_Encode). done.
  - rewrite Hc, drop_app_length' in Hsf by (by rewrite length_Encode). rewrite Hsf.
    cbn [committed] in Hsl. change (blen (@nil Frame) - 1) with (-1) in Hsl.
    change WALHeaderSize with 32. rewrite Hsl. cbn [app]. by rewrite finish_scan_committed.
Qed.

(** The log of l, cut anywhere or followed by bytes that start no frame. *)
Lemma Scan_log (file : F) h l tail fuel gs torn :
  header_ok h -> Forall (entry_ok h) l ->
  contents file = Encode h ++ log_bytes h (initialPrevChecksum h) (BaseLSN h) l ++ tail ->
  (length (log_bytes h (initialPrevChecksum h) (BaseLSN h) l ++ tail) < fuel)%nat ->
  (forall fuel', (0 < fuel')%nat -> let '(p, _, no) := log_end h (initialPrevChecksum h) (BaseLSN h) 0 l in
     scan_frames h fuel' p no tail = (gs, torn)) ->
  Scan file fuel (PageSize h) =
  Some (inr (scan_result (log_frames h (initialPrevChecksum h) (BaseLSN h) 0 l ++ gs) torn)).
Proof.
  intros Hh Hl Hc Hfuel Htail. rewrite (Scan_frames file h _ fuel Hh Hc Hfuel).
  assert (Hps : 0 <= PageSize h) by apply Hh.
  rewrite length_app, length_log_bytes in Hfuel by done.
  assert (1 <= Z.to_nat (FrameSize (PageSize h)))%nat by (unfold FrameSize, FrameHeaderSize; lia).
  replace fuel with (length l + (fuel - length l))%nat by nia.
  rewrite scan_frames_log by (done || (unfold BaseLSN; apply wrap_in_u; lia)).
  specialize (Htail (fuel - length l)%nat ltac:(nia)).
  destruct (log_end _ _ _ _ l) as [[p ls] no]. by rewrite Htail.
Qed.
End scan_log.

(** ** Transactions *)

(** The images one AppendCommit writes and the size it records. *)
Record txn := Tx { tx_frames : list PageImage; tx_size : Z }.

Definition marker (size : Z) : Z := if size =? 0 then 1 else size.

Fixpoint entries (frames : list PageImage) (m : Z) : list entry :=
  match frames with
  | [] => []
  | fr :: rest =>
      Entry (pi_PageID fr) (match rest with [] => m | _ => 0 end) (pi_Payload fr) :: entries rest m
  end.

Definition txn_log (ts : list txn) : list entry :=
  concat (map (fun t => entries (tx_frames t) (marker (tx_size t))) ts).

(** The transactions whose frames are all among the first n. *)
Fixpoint complete (n : nat) (ts : list txn) : list txn :=
  match ts with
  | [] => []
  | t :: ts' =>
      let k := length (tx_frames t) in
      if (k <=? n)%nat then t :: complete (n - k) ts' else []
  end.

Section txns.
Context (h : Header).

Definition image_ok (fr : PageImage) : Prop :=
  in_u 64 (pi_PageID fr) /\ bytes_ok (pi_Payload fr) /\ blen (pi_Payload fr) = PageSize h.

Definition txn_ok (t : txn) : Prop :=
  tx_frames t <> [] /\ Forall image_ok (tx_frames t) /\ in_u 32 (tx_size t).

Definition wal_frames (ts : list txn) : list Frame :=
  log_frames h (initialPrevChecksum h) (BaseLSN h) 0 (txn_log ts).

(** The bytes of a WAL file that holds ts. *)
Definition wal_file (ts : list txn) : bytes :=
  Encode h ++ log_bytes h (initialPrevChecksum h) (BaseLSN h) (txn_log ts).

Lemma marker_ok s : in_u 32 s -> in_u 32 (marker s) /\ marker s <> 0.
Proof. unfold marker, in_u. destruct (Z.eqb_spec s 0); lia. Qed.

Lemma length_entries fs m : length (entries fs m) = length fs.
Proof. induction fs; cbn [entries length]; auto. Qed.

Lemma entries_ok fs m : Forall image_ok fs -> in_u 32 m -> Forall (entry_ok h) (entries fs m).
Proof.
  intros Hf Hm. induction Hf as [|fr fs (Hi & Hb & Hl) Hf IH]; cbn [entries]; constructor; [|done].
  split_and!; try done. cbn [e_marker]. destruct fs; [done|]. unfold in_u. lia.
Qed.

Lemma txn_log_ok ts : Forall txn_ok ts -> Forall (entry_ok h) (txn_log ts).
Proof.
  induction 1 as [|t ts (_ & Hf & Hs) Ht IH]; [constructor|]. unfold txn_log. cbn [map concat].
  apply Forall_app_2; [apply entries_ok; [done|by apply marker_ok]|done].
Qed.

(** Every commit frame of a transaction is its last. *)
Lemma take_entries_no_commit fs m k :
  (k < length fs)%nat -> Forall (fun e => e_marker e = 0) (take k (entries fs m)).
Proof.
  revert k. induction fs as [|fr fs IH]; intros [|k] Hk; cbn [entries take length] in *; try constructor; try lia.
  - cbn [e_marker]. destruct fs; [simpl in Hk; lia|done].
  - apply IH. lia.
Qed.

Lemma entries_last fs m : fs <> [] -> exists l e, entries fs m = l ++ [e] /\ e_marker e = m.
Proof.
  induction fs as [|fr fs IH]; [done|]. intros _. cbn [entries]. destruct fs as [|g fs].
  - eexists [], _. split; reflexivity.
  - destruct IH as (l & e & E & Hm); [done|]. rewrite E. eexists (_ :: l), e. done.
Qed.

Lemma take_txn_log ts : forall k, Forall txn_ok ts ->
  exists rest, take k (txn_log ts) = txn_log (complete k ts) ++ rest /\ Forall (fun e => e_marker e = 0) rest.
Proof.
  induction ts as [|t ts IH]; intros k Ht; [exists []; cbn [complete]; unfold txn_log; cbn [map concat]; by rewrite take_nil|].
  apply Forall_cons in Ht as [Ht Hts]. cbn [complete]. destruct (Nat.leb_spec (length (tx_frames t)) k).
  - destruct (IH (k - length (tx_frames t))%nat Hts) as (rest & E & Hr). exists rest. split; [|done].
    unfold txn_log in *. cbn [map concat]. rewrite take_app_ge by (rewrite length_entries; lia).
    by rewrite length_entries, E, app_assoc.
  - exists (take k (entries (tx_frames t) (marker (tx_size t)))). unfold txn_log. cbn [map concat].
    rewrite take_app_le by (rewrite length_entries; lia). split; [done|]. by apply take_entries_no_commit.
Qed.

Lemma log_frames_markers l : forall prev lsn no,
  Forall (fun e => e_marker e = 0) l ->
  Forall (fun f => IsCommit (fr_Header f) = false) (log_frames h prev lsn no l).
Proof.
  induction l as [|e l IH]; intros prev lsn no Hl; cbn [log_frames]; constructor;
    apply Forall_cons in Hl as [He Hl]; [|auto].
  unfold IsCommit, entry_frame. cbn [fr_Header CommitMarker]. by rewrite He.
Qed.

Definition last_cksum (ts : list txn) : Z :=
  (log_end h (initialPrevChecksum h) (BaseLSN h) 0 (txn_log ts)).1.1.

(** A log of whole transactions ends in a commit frame, whose fields these are. *)
Lemma log_frames_txns_last ts t :
  Forall txn_ok (ts ++ [t]) ->
  exists fs f, wal_frames (ts ++ [t]) = fs ++ [f] /\ IsCommit (fr_Header f) = true /\
    CommitMarker (fr_Header f) = marker (tx_size t) /\
    fh_Checksum (fr_Header f) = last_cksum (ts ++ [t]) /\
    FrameLSN (fr_Header f) = u64 (BaseLSN h + blen (txn_log (ts ++ [t])) - 1) /\
    fr_FrameNo f = u32 (blen (txn_log (ts ++ [t]))).
Proof.
  intros Ht. apply Forall_app in Ht as [_ Ht]. apply Forall_singleton in Ht as (Hne & _ & Hs).
  destruct (entries_last (tx_frames t) (marker (tx_size t)) Hne) as (l & e & E & Hm).
  unfold wal_frames.
  assert (Etl : txn_log (ts ++ [t]) = (txn_log ts ++ l) ++ [e]).
  { unfold txn_log. rewrite map_app, concat_app. cbn [map concat]. by rewrite E, app_nil_r, app_assoc. }
  unfold last_cksum. rewrite Etl, log_frames_app, (log_end_app h (txn_log ts ++ l) [e]).
  pose proof (log_end_nums h (txn_log ts ++ l) (initialPrevChecksum h) (BaseLSN h) 0) as Hn.
  destruct (log_end h (initialPrevChecksum h) (BaseLSN h) 0 (txn_log ts ++ l)) as [[p n] o].
  destruct Hn as [-> ->]; [unfold BaseLSN; apply wrap_in_u; lia|unfold in_u; lia|].
  cbn [log_frames log_end fst]. eexists _, _. split; [done|]. unfold IsCommit, entry_frame.
  cbn [fr_Header CommitMarker fh_Checksum FrameLSN fr_FrameNo]. rewrite Hm.
  assert (Hb : blen ((txn_log ts ++ l) ++ [e]) = blen (txn_log ts ++ l) + 1)
    by (unfold blen; rewrite (length_app _ [e]); simpl; lia).
  rewrite Hb. split_and!; try done.
  - apply marker_ok in Hs as [_ Hs]. by destruct (Z.eqb_spec (marker (tx_size t)) 0).
  - f_equal. lia.
  - unfold wrap. by rewrite Zplus_mod_idemp_l.
Qed.

Lemma wal_frames_committed ts : Forall txn_ok ts -> committed (wal_frames ts) = wal_frames ts.
Proof.
  destruct ts as [|t ts _] using rev_ind; [done|]. intros Ht.
  destruct (log_frames_txns_last ts t Ht) as (fs & f & E & Hc & _). rewrite E, committed_snoc. by rewrite Hc.
Qed.

Lemma complete_ok k ts : Forall txn_ok ts -> Forall txn_ok (complete k ts).
Proof.
  intros Ht. revert k. induction Ht; intros k; cbn [complete]; [constructor|].
  destruct (_ <=? _)%nat; constructor; auto.
Qed.

(** The committed prefix of the first k frames: the complete transactions. *)
Lemma committed_take k ts :
  Forall txn_ok ts -> committed (log_frames h (initialPrevChecksum h) (BaseLSN h) 0 (take k (txn_log ts))) =
  wal_frames (complete k ts).
Proof.
  intros Ht. destruct (take_txn_log ts k Ht) as (rest & E & Hr). rewrite E, log_frames_app.
  destruct (log_end h (initialPrevChecksum h) (BaseLSN h) 0 (txn_log (complete k ts))) as [[p n] o].
  rewrite committed_no_commit by (by apply log_frames_markers).
  apply wal_frames_committed, complete_ok, Ht.
Qed.
End txns.

(** ** Recovery *)

(** The result of a scan whose durable prefix is exactly the transactions ts. *)
Definition recovered (h : Header) (ts : list txn) (r : ScanResult) : Prop :=
  Committed r = wal_frames h ts /\
  match last ts with
  | None => DurableLSN r = 0 /\ DBSizePages r = 0 /\ LastFrameNo r = 0 /\ LastChecksum r = 0
  | Some t =>
      DurableLSN r = u64 (BaseLSN h + blen (txn_log ts) - 1) /\ DBSizePages r = marker (tx_size t) /\
      LastFrameNo r = u32 (blen (txn_log ts)) /\ LastChecksum r = last_cksum h ts
  end.

Lemma result_recovered h ts fs torn :
  Forall (txn_ok h) ts -> committed fs = wal_frames h ts -> recovered h ts (scan_result fs torn).
Proof.
  intros Ht E. unfold recovered, scan_result, result_of. rewrite E.
  destruct ts as [|t ts _] using rev_ind; [done|].
  destruct (log_frames_txns_last h ts t Ht) as (gs & f & Ef & _ & Hm & Hc & Hl & Hn).
  rewrite Ef, !last_snoc. cbn [Committed DurableLSN DBSizePages LastFrameNo LastChecksum]. done.
Qed.

Lemma recovered_torn fs torn : TornTail (scan_result fs torn) = torn.
Proof. unfold scan_result, result_of. by destruct (last _). Qed.

Lemma frame_size_nat h : 0 <= PageSize h ->
  (24 <= Z.to_nat (FrameSize (PageSize h)))%nat /\
  FrameSize (PageSize h) = Z.of_nat (Z.to_nat (FrameSize (PageSize h))).
Proof. unfold FrameSize, FrameHeaderSize. lia. Qed.

Section recovery.
Context {F : Type} {ops : FileOps F} (contents : F -> bytes) {laws : FileLaws F contents}.

(** A log of whole transactions, cut at any byte. *)
Lemma Scan_truncated file h ts n fuel :
  header_ok h -> Forall (txn_ok h) ts ->
  contents file = take n (wal_file h ts) -> (length (contents file) < fuel)%nat ->
  exists r, Scan file fuel (PageSize h) = Some (inr r) /\
    ((n < 32)%nat -> r = emptyScan) /\
    ((32 <= n)%nat ->
      let z := Z.to_nat (FrameSize (PageSize h)) in
      recovered h (complete ((n - 32) / z) ts) r /\
      ((n <= length (wal_file h ts))%nat ->
       TornTail r = negb (((n - 32) mod z =? 0)%nat))).
Proof.
  intros Hh Ht Hc Hfuel. destruct (decide (n < 32)%nat) as [Hn|Hn].
  { exists emptyScan. split_and!; [|done|lia]. unfold Scan. rewrite law_read by done.
    set (rdb := read_data WALHeaderSize 0 (contents file)).
    assert (Hlt : blen rdb <? WALHeaderSize = true).
    { apply Z.ltb_lt. unfold rdb. rewrite blen_read_data by (unfold WALHeaderSize; lia). rewrite Hc.
      unfold blen, WALHeaderSize. rewrite length_take. lia. }
    by rewrite Hlt. }
  pose proof (frame_size_nat h) as Hz. specialize (Hz ltac:(apply Hh)).
  assert (Hps : 0 <= PageSize h) by apply Hh.
  set (z := Z.to_nat (FrameSize (PageSize h))) in *. destruct Hz as [Hz Hfz].
  unfold wal_file in Hc. rewrite take_app_ge in Hc by (rewrite length_Encode; lia).
  rewrite length_Encode in Hc.
  assert (Hok : Forall (entry_ok h) (txn_log ts)) by by apply txn_log_ok.
  set (k := ((n - 32) / z)%nat).
  destruct (take_log_bytes h (txn_log ts) (n - 32) (initialPrevChecksum h) (BaseLSN h) Hok Hps)
    as (tail & Et & Htl). fold z in Et. fold k in Et. rewrite Et in Hc.
  rewrite (Scan_log contents file h (take k (txn_log ts)) tail fuel [] (blen tail >? 0)); try done;
    [|by apply Forall_take|rewrite Hc, length_app in Hfuel; lia|].
  - eexists. split; [done|]. split; [lia|]. intros _. rewrite app_nil_r. split.
    + apply result_recovered; [by apply complete_ok|]. by apply committed_take.
    + intros Hle. rewrite recovered_torn. unfold wal_file in Hle. rewrite length_app, length_Encode in Hle.
      apply (f_equal length) in Et. rewrite length_take, length_app, !length_log_bytes in Et
        by (done || by apply Forall_take).
      rewrite length_log_bytes in Hle by done. fold z in Et, Hle. rewrite Hfz in Htl. unfold blen in *.
      rewrite length_take in Et.
      assert (Hk : (k <= length (txn_log ts))%nat) by (unfold k; apply Nat.Div0.div_le_upper_bound; lia).
      assert (Hm : (n - 32 = z * k + (n - 32) mod z)%nat) by (unfold k; apply Nat.div_mod; lia).
      rewrite Z.gtb_ltb. destruct (Nat.eqb_spec ((n - 32) mod z) 0), (Z.ltb_spec 0 (Z.of_nat (length tail))); simpl; nia.
  - intros [|fuel'] Hf; [lia|]. destruct (log_end _ _ _ _ _) as [[p ls] no].
    by rewrite scan_frames_short.
Qed.

(** C13. Recovery after a crash that cut the log file at any byte. The file
    holds the first n bytes of a log of whole transactions. If the header is
    not whole the scan reports an empty log; otherwise it returns exactly the
    frames of the transactions that are whole, with the version, the database
    size, the ordinal and the checksum of the last of them, and it reports a
    torn tail exactly when the cut is inside a frame. The scan ends within as
    many steps as the file has bytes. *)
Theorem wal_recovers_complete_transactions file h ts n fuel :
  header_ok h -> Forall (txn_ok h) ts ->
  contents file = take n (wal_file h ts) -> (length (contents file) < fuel)%nat ->
  exists r, Scan file fuel (PageSize h) = Some (inr r) /\
    ((n < 32)%nat -> r = emptyScan) /\
    ((32 <= n)%nat ->
      let z := Z.to_nat (FrameSize (PageSize h)) in
      recovered h (complete ((n - 32) / z) ts) r /\
      ((n <= length (wal_file h ts))%nat ->
       TornTail r = negb (((n - 32) mod z =? 0)%nat))).
Proof. apply Scan_truncated. Qed.
End recovery.

(** ** Damage *)

Lemma check_frame_changed h prev no b fr i x y :
  check_frame h prev no b = Some fr -> bytes_ok b -> b !! i = Some x -> byte_ok y -> x <> y ->
  check_frame h prev no (<[i := y]> b) = None.
Proof.
  unfold check_frame. cbn [fh_Checksum]. intros Hok Hb Hi Hy Hne.
  destruct (Z.eqb_spec (frameChecksum (Salt1 h) (Salt2 h) prev (sub 0 20 b) (drop 24 b)) (le_val (sub 20 4 b)))
    as [E|]; [|done]. clear Hok.
  rewrite (proj2 (Z.eqb_neq _ _)); [done|]. destruct (decide (i < 20)%nat).
  - rewrite (sub_insert_out 20 4), <- E, (sub_insert_in 0 20), drop_insert_lt by lia.
    apply (frameChecksum_prefix_changed _ _ _ _ _ _ x); try done.
    + by apply sub_Forall. + by apply Forall_drop.
    + rewrite sub_lookup by lia. rewrite <- Hi. f_equal. lia.
  - rewrite (sub_insert_out 0 20) by lia. destruct (decide (i < 24)%nat).
    + rewrite drop_insert_lt, (sub_insert_in 20 4), E by lia.
      intros E'. symmetry in E'. revert E'. apply (le_val_insert_ne _ _ x); [by apply sub_Forall|done| |done].
      rewrite sub_lookup by lia. rewrite <- Hi. f_equal. lia.
    + rewrite (sub_insert_out 20 4), <- E, drop_insert_ge by lia.
      apply (frameChecksum_payload_changed _ _ _ _ _ _ x); try done.
      * by apply Forall_drop.
      * rewrite lookup_drop. rewrite <- Hi. f_equal. lia.
Qed.

Lemma frame_bytes_ok h prev lsn e : entry_ok h e -> bytes_ok (frame_bytes h prev lsn e).
Proof.
  intros (_ & _ & Hb & _). unfold frame_bytes, encodeFrameHeaderPrefix, bytes_ok.
  repeat apply Forall_app_2; done || apply bytes_ok_le.
Qed.

(** A log with one changed byte: the frames before it are intact, and the frame
    that holds it fails the chain. *)
Lemma log_bytes_changed h l i x y :
  Forall (entry_ok h) l -> 0 <= PageSize h -> byte_ok y -> x <> y ->
  forall prev lsn no, in_u 64 lsn -> log_bytes h prev lsn l !! i = Some x ->
  let k := (i / Z.to_nat (FrameSize (PageSize h)))%nat in
  exists tail,
    <[i := y]> (log_bytes h prev lsn l) = log_bytes h prev lsn (take k l) ++ tail /\
    forall fuel, (0 < fuel)%nat -> let '(p, _, o) := log_end h prev lsn no (take k l) in
      scan_frames h fuel p o tail = ([], true).
Proof.
  intros Hl Hps Hy Hne. destruct (frame_size_nat h Hps) as [Hz Hfz].
  set (z := Z.to_nat (FrameSize (PageSize h))) in *. revert i.
  induction Hl as [|e l He Hl IH]; intros i prev lsn no Hlsn Hi k; [done|].
  pose proof (blen_frame h prev lsn e He) as Hb. rewrite Hfz in Hb. unfold blen in Hb. apply Nat2Z.inj in Hb.
  cbn [log_bytes] in *. destruct (decide (i < z)%nat) as [Hiz|Hiz].
  - assert (k = 0%nat) as -> by (by apply Nat.div_small). cbn [take log_bytes log_end].
    rewrite lookup_app_l in Hi by lia. rewrite insert_app_l by lia.
    set (d := <[i:=y]> (frame_bytes h prev lsn e) ++
      log_bytes h (entry_cksum h prev lsn e) (u64 (lsn + 1)) l).
    exists d. split; [done|]. intros [|fuel] Hf; [lia|]. cbn [scan_frames].
    assert (Hd : blen d <? FrameSize (PageSize h) = false).
    { apply Z.ltb_ge. unfold d, blen. rewrite length_app, length_insert. lia. }
    rewrite Hd. unfold d. rewrite take_app_length' by (by rewrite length_insert).
    erewrite check_frame_changed; try done; [by apply check_frame_ok|by apply frame_bytes_ok].
  - assert (Hk : k = S ((i - z) / z)%nat).
    { unfold k. replace i with (1 * z + (i - z))%nat at 1 by lia. rewrite Nat.div_add_l by lia. done. }
    rewrite lookup_app_r in Hi by lia. rewrite Hb in Hi. rewrite insert_app_r_alt, Hb by lia.
    destruct (IH (i - z)%nat (entry_cksum h prev lsn e) (u64 (lsn + 1)) (u32 (no + 1)))
      as (tail & Et & Hs); [apply wrap_in_u; lia|done|].
    exists tail. rewrite Hk. cbn [take log_bytes log_end]. rewrite Et, app_assoc. done.
Qed.

Section damage.
Context {F : Type} {ops : FileOps F} (contents : F -> bytes) {laws : FileLaws F contents}.

(** C14. Recovery from a log in which one byte was changed, wherever it is and
    whatever it became. In the header the damage is detected and the log is
    treated as empty. In frame k the frame is rejected, the scan reports a torn
    tail and returns exactly the transactions that are whole in the k frames
    before it: damage never changes an image that recovery hands back. *)
Theorem wal_damage_detected file h ts i x y fuel :
  header_ok h -> Forall (txn_ok h) ts -> byte_ok y -> x <> y ->
  wal_file h ts !! i = Some x -> contents file = <[i := y]> (wal_file h ts) ->
  (length (contents file) < fuel)%nat ->
  exists r, Scan file fuel (PageSize h) = Some (inr r) /\
    ((i < 32)%nat -> r = emptyScan) /\
    ((32 <= i)%nat ->
      recovered h (complete ((i - 32) / Z.to_nat (FrameSize (PageSize h))) ts) r /\ TornTail r = true).
Proof.
  intros Hh Ht Hy Hne Hi Hc Hfuel. unfold wal_file in *. destruct (decide (i < 32)%nat) as [Hn|Hn].
  - exists emptyScan. split_and!; [|done|lia]. unfold Scan. rewrite law_read by done.
    rewrite insert_app_l in Hc by (by rewrite length_Encode). rewrite Hc.
    assert (Hr : read_data WALHeaderSize 0 (<[i:=y]> (Encode h) ++
        log_bytes h (initialPrevChecksum h) (BaseLSN h) (txn_log ts)) = <[i:=y]> (Encode h)).
    { unfold read_data, sub. rewrite drop_0. apply take_app_length'. by rewrite length_insert, length_Encode. }
    rewrite Hr. assert (Hl : blen (<[i:=y]> (Encode h)) = 32) by (unfold blen; by rewrite length_insert, length_Encode).
    assert (Hl2 : 32 <= blen (<[i:=y]> (Encode h) ++ log_bytes h (initialPrevChecksum h) (BaseLSN h) (txn_log ts)))
      by (unfold blen in *; rewrite length_app; lia).
    rewrite Hl. change (32 <? WALHeaderSize) with false. cbn [negb].
    set (B := blen (<[i:=y]> (Encode h) ++ _)) in *. rewrite (proj2 (Z.leb_gt B 0)) by lia.
    rewrite lookup_app_l in Hi by (by rewrite length_Encode).
    pose proof (DecodeWALHeader_Encode h [] Hh) as Hd. rewrite app_nil_r in Hd.
    erewrite decode_changed; try done. apply sub_Forall, Encode_ok.
  - assert (Hps : 0 <= PageSize h) by apply Hh.
    assert (Hok : Forall (entry_ok h) (txn_log ts)) by by apply txn_log_ok.
    rewrite lookup_app_r in Hi by (rewrite length_Encode; lia).
    rewrite insert_app_r_alt in Hc by (rewrite length_Encode; lia). rewrite length_Encode in *.
    destruct (log_bytes_changed h (txn_log ts) (i - 32) x y Hok Hps Hy Hne (initialPrevChecksum h) (BaseLSN h) 0)
      as (tail & Et & Hs); [apply wrap_in_u; lia|done|].
    set (k := ((i - 32) / _)%nat) in *. rewrite Et in Hc.
    rewrite (Scan_log contents file h (take k (txn_log ts)) tail fuel [] true); try done;
      [|by apply Forall_take|rewrite Hc, length_app in Hfuel; lia].
    eexists. split; [done|]. split; [lia|]. intros _. rewrite app_nil_r, recovered_torn. split; [|done].
    apply result_recovered; [by apply complete_ok|]. by apply committed_take.
Qed.
End damage.

(** ** Writing *)

Section writing.
Context {F : Type} {ops : FileOps F} (contents : F -> bytes) {laws : FileLaws F contents} (h : Header).

Definition log_state (l : list entry) : Z * Z * Z := log_end h (initialPrevChecksum h) (BaseLSN h) 0 l.

(** The writer stands at the end of a file that holds the log l. *)
Definition synced (l : list entry) (w : Writer) (f : F) : Prop :=
  contents f = Encode h ++ log_bytes h (initialPrevChecksum h) (BaseLSN h) l /\
  w = MkWriter h (PageSize h) (WALHeaderSize + blen l * FrameSize (PageSize h))
        (u32 ((log_state l).2 + 1)) (log_state l).1.2 (log_state l).1.1.

(** Every transaction of ts, in order: the version and ordinal of each. *)
Fixpoint append_all (ts : list txn) (w : Writer) (f : F) : list (walErr + (Z * Z)) * Writer * F :=
  match ts with
  | [] => ([], w, f)
  | t :: ts' =>
      let '(r, w1, f1) := AppendCommit (tx_frames t) (tx_size t) w f in
      let '(rs, w2, f2) := append_all ts' w1 f1 in (r :: rs, w2, f2)
  end.

Lemma log_state_nums l : exists c, log_state l = (c, u64 (BaseLSN h + blen l), u32 (blen l)).
Proof.
  pose proof (log_end_nums h l (initialPrevChecksum h) (BaseLSN h) 0) as H. unfold log_state.
  destruct (log_end h _ _ 0 l) as [[c n] o]. exists c.
  destruct H as [-> ->]; [unfold BaseLSN; apply wrap_in_u; lia|unfold in_u; lia|done].
Qed.

Lemma CreateWriter_synced f :
  exists w f', CreateWriter h f = (inr w, f') /\ synced [] w f'.
Proof.
  unfold CreateWriter. destruct (law_truncate 0 f) as (f1 & E1 & C1); [lia|]. rewrite E1.
  destruct (law_write (Encode h) 0 f1) as (f2 & E2 & C2); [lia|]. rewrite E2.
  eexists _, f2. split; [done|]. split.
  - rewrite C2, C1, truncate_data_take by (unfold blen; lia). cbn [log_bytes].
    change (take (Z.to_nat 0) (contents f)) with (@nil Z).
    pose proof (write_data_append (Encode h) []) as Hw. change (blen []) with 0 in Hw. by rewrite Hw, app_nil_r.
  - unfold log_state. cbn [log_end fst snd]. change (u32 (0 + 1)) with 1. f_equal.
Qed.

Lemma appendFrame_synced l id m pl w f :
  synced l w f -> Forall (entry_ok h) l -> entry_ok h (Entry id m pl) ->
  exists w' f', appendFrame id m pl w f =
    (inr (u64 (BaseLSN h + blen l), u32 (blen l + 1)), w', f') /\ synced (l ++ [Entry id m pl]) w' f'.
Proof.
  intros [Hc ->] Hl He. unfold appendFrame.
  cbn [w_nextLSN w_header w_prevCksum w_writeOffset w_nextFrame w_pageSize].
  destruct (log_state_nums l) as [c Hn]. rewrite Hn. cbn [fst snd].
  assert (Hz : 0 <= FrameSize (PageSize h)).
  { rewrite <- (blen_frame h 0 0 _ He). unfold blen. lia. }
  assert (Hoff : WALHeaderSize + blen l * FrameSize (PageSize h) = blen (contents f)).
  { rewrite Hc. unfold blen. rewrite length_app, length_Encode, length_log_bytes by done.
    unfold WALHeaderSize. lia. }
  rewrite Hoff. set (hb := encodeFrameHeaderPrefix id _ m ++ _).
  destruct (law_write hb (blen (contents f)) f) as (f1 & E1 & C1); [unfold blen; lia|]. rewrite E1.
  rewrite write_data_append in C1.
  assert (Hl1 : blen (contents f) + FrameHeaderSize = blen (contents f1)).
  { rewrite C1. unfold blen, FrameHeaderSize. rewrite length_app. unfold hb, encodeFrameHeaderPrefix.
    rewrite !length_app, !length_le_bytes. lia. }
  rewrite Hl1.
  destruct (law_write pl (blen (contents f1)) f1) as (f2 & E2 & C2); [unfold blen; lia|]. rewrite E2.
  rewrite write_data_append in C2. eexists _, f2. split.
  - f_equal. f_equal. f_equal. f_equal. unfold wrap. by rewrite Zplus_mod_idemp_l.
  - assert (Hst : log_state (l ++ [Entry id m pl]) =
      (entry_cksum h c (u64 (BaseLSN h + blen l)) (Entry id m pl), u64 (u64 (BaseLSN h + blen l) + 1),
       u32 (u32 (blen l) + 1))).
    { unfold log_state in *. rewrite log_end_app, Hn. done. }
    split.
    + rewrite C2, C1, Hc. rewrite (log_bytes_app h l _ _ _ 0). fold (log_state l). rewrite Hn.
      cbn [log_bytes]. rewrite app_nil_r, <- !app_assoc. unfold frame_bytes, hb.
      by rewrite <- !app_assoc.
    + rewrite Hst. cbn [fst snd]. f_equal.
      rewrite <- Hoff. unfold blen. rewrite length_app. simpl. lia.
Qed.

Lemma append_frames_synced frames : forall size l w f,
  synced l w f -> Forall (entry_ok h) l -> Forall (image_ok h) frames -> in_u 32 size -> frames <> [] ->
  exists w' f', append_frames frames size w f =
    (inr (u64 (BaseLSN h + blen (l ++ entries frames size) - 1), u32 (blen (l ++ entries frames size))), w', f') /\
    synced (l ++ entries frames size) w' f'.
Proof.
  induction frames as [|fr frames IH]; [done|]. intros size l w f Hs Hl Hf Hsz _.
  apply Forall_cons in Hf as [(Hi & Hb & Hp) Hf]. cbn [append_frames entries].
  destruct frames as [|g frames].
  - destruct (appendFrame_synced l (pi_PageID fr) size (pi_Payload fr) w f Hs Hl) as (w' & f' & E & Hs'); [by split_and!|].
    rewrite E. exists w', f'. split; [|done]. f_equal. f_equal. f_equal.
    assert (Hlen : forall e : entry, blen (l ++ [e]) = blen l + 1)
      by (intros; unfold blen; rewrite length_app; simpl; lia).
    rewrite Hlen. f_equal; f_equal; lia.
  - destruct (appendFrame_synced l (pi_PageID fr) 0 (pi_Payload fr) w f Hs Hl) as (w1 & f1 & E & Hs1).
    { split_and!; try done. }
    rewrite E. destruct (IH size _ w1 f1 Hs1) as (w' & f' & E' & Hs'); try done.
    { apply Forall_app_2; [done|]. constructor; [|done]. by split_and!. }
    rewrite E'. exists w', f'. rewrite <- app_assoc in *. done.
Qed.

Lemma AppendCommit_synced t l w f :
  synced l w f -> Forall (entry_ok h) l -> txn_ok h t ->
  let l' := l ++ entries (tx_frames t) (marker (tx_size t)) in
  exists w' f', AppendCommit (tx_frames t) (tx_size t) w f =
    (inr (u64 (BaseLSN h + blen l' - 1), u32 (blen l')), w', f') /\ synced l' w' f'.
Proof.
  intros Hs Hl (Hne & Hf & Hsz) l'. unfold AppendCommit.
  assert (Hlen : (length (tx_frames t) =? 0)%nat = false) by (by destruct (tx_frames t)).
  rewrite Hlen. fold (marker (tx_size t)).
  apply (append_frames_synced (tx_frames t) (marker (tx_size t)) l w f); try done. by apply marker_ok.
Qed.

(** What AppendCommit returns for each transaction after the log l. *)
Fixpoint commits (l : list entry) (ts : list txn) : list (walErr + (Z * Z)) :=
  match ts with
  | [] => []
  | t :: ts' =>
      let l' := l ++ entries (tx_frames t) (marker (tx_size t)) in
      inr (u64 (BaseLSN h + blen l' - 1), u32 (blen l')) :: commits l' ts'
  end.

Lemma append_all_synced ts : forall l w f,
  synced l w f -> Forall (entry_ok h) l -> Forall (txn_ok h) ts ->
  exists w' f', append_all ts w f = (commits l ts, w', f') /\ synced (l ++ txn_log ts) w' f'.
Proof.
  induction ts as [|t ts IH]; intros l w f Hs Hl Ht.
  - exists w, f. unfold txn_log. cbn [map concat]. by rewrite app_nil_r.
  - apply Forall_cons in Ht as [Ht Hts]. cbn [append_all commits].
    destruct (AppendCommit_synced t l w f Hs Hl Ht) as (w1 & f1 & E & Hs1). rewrite E.
    destruct (IH _ w1 f1 Hs1) as (w2 & f2 & E2 & Hs2); [|done|].
    { apply Forall_app_2; [done|]. apply entries_ok; [apply Ht|]. apply marker_ok, Ht. }
    rewrite E2. exists w2, f2. split; [done|]. unfold txn_log in *. cbn [map concat].
    by rewrite app_assoc.
Qed.

(** The writer produces exactly the log recovery reads: on any healthy file,
    whatever it held before, creating the log and committing the transactions
    succeeds, the file then holds the header and every frame and nothing else,
    and each commit returns the version and the ordinal of its last frame, so
    versions grow by one with every frame written. *)
Theorem wal_writer_writes_log f ts :
  Forall (txn_ok h) ts ->
  exists w f1 w' f', CreateWriter h f = (inr w, f1) /\
    append_all ts w f1 = (commits [] ts, w', f') /\
    contents f' = wal_file h ts /\ FrameCount w' = u32 (blen (txn_log ts)) /\
    Offset w' = blen (contents f') /\ NextLSN w' = u64 (BaseLSN h + blen (txn_log ts)).
Proof.
  intros Ht. destruct (CreateWriter_synced f) as (w & f1 & E1 & Hs1).
  destruct (append_all_synced ts [] w f1 Hs1) as (w' & f' & E & Hc & ->); [done|done|].
  destruct (log_state_nums ([] ++ txn_log ts)) as [c Hn]. cbn [app] in *.
  assert (Hz : Forall (entry_ok h) (txn_log ts)) by by apply txn_log_ok.
  exists w, f1. eexists _, f'. split; [done|]. split; [exact E|]. split; [done|].
  unfold FrameCount, Offset, NextLSN. cbn [w_nextFrame w_writeOffset w_nextLSN]. rewrite Hn. cbn [fst snd].
  split_and!; [| |done].
  - unfold wrap. rewrite Zplus_mod_idemp_l, Zminus_mod_idemp_l.
    f_equal. lia.
  - destruct ts as [|t ts].
    + rewrite Hc. unfold blen. rewrite length_app, length_Encode. done.
    + assert (0 <= FrameSize (PageSize h)).
      { apply Forall_cons in Ht as [(Hne & Hf & _) _]. destruct (tx_frames t) as [|fr frs]; [done|].
        apply Forall_cons in Hf as [(_ & _ & Hp) _]. unfold FrameSize, FrameHeaderSize, blen in *. lia. }
      rewrite Hc. unfold blen. rewrite length_app, length_Encode, length_log_bytes by done.
      unfold WALHeaderSize. lia.
Qed.

(** Resuming after recovery: a writer built from the scan of a log whose
    durable prefix is ts, on the file cut back to that writer's offset, appends
    more transactions so that the file holds exactly the log of both. *)
Theorem wal_resume_continues_log f r ts t tail more :
  header_ok h -> Forall (txn_ok h) (ts ++ [t]) -> Forall (txn_ok h) more ->
  in_u 32 (blen (txn_log (ts ++ [t]))) ->
  contents f = wal_file h (ts ++ [t]) ++ tail -> recovered h (ts ++ [t]) r ->
  let w := ResumeWriter h (LastFrameNo r) (u64 (DurableLSN r + 1)) (LastChecksum r) in
  exists f1 w' f', Truncate (Offset w) f = (None, f1) /\
    append_all more w f1 = (commits (txn_log (ts ++ [t])) more, w', f') /\
    contents f' = wal_file h ((ts ++ [t]) ++ more).
Proof.
  intros Hh Ht Hm Hu Hc [_ Hr] w. rewrite last_snoc in Hr. destruct Hr as (Hd & _ & Hn & Hk).
  assert (Hl : Forall (entry_ok h) (txn_log (ts ++ [t]))) by by apply txn_log_ok.
  set (l := txn_log (ts ++ [t])) in *. rewrite wrap_small in Hn by done.
  assert (Hz : 0 <= FrameSize (PageSize h)) by (pose proof (frame_size_nat h ltac:(apply Hh)); lia).
  assert (Hoff : Offset w = blen (wal_file h (ts ++ [t]))).
  { unfold w, Offset, ResumeWriter, wal_file. cbn [w_writeOffset]. fold l. rewrite Hn. unfold blen.
    rewrite length_app, length_Encode, length_log_bytes by done. unfold WALHeaderSize. lia. }
  destruct (law_truncate (Offset w) f) as (f1 & E1 & C1); [rewrite Hoff; unfold blen; lia|].
  assert (Hs : synced l w f1).
  { split.
    - rewrite C1, Hoff, Hc, truncate_data_take by (unfold blen; rewrite length_app; lia).
      rewrite take_app_length' by (unfold blen; lia). done.
    - unfold w, ResumeWriter. destruct (log_state_nums l) as [c Hst]. rewrite Hst. cbn [fst snd].
      rewrite Hn, Hd, Hk. unfold last_cksum. fold l. unfold log_state in Hst. rewrite Hst. cbn [fst].
      f_equal; [by rewrite (wrap_small 32 (blen l))|]. unfold wrap. rewrite Zplus_mod_idemp_l. f_equal. lia. }
  destruct (append_all_synced more l w f1 Hs Hl Hm) as (w' & f' & E & Hc' & _).
  exists f1, w', f'. split; [done|]. split; [done|]. rewrite Hc'. unfold wal_file.
  unfold l, txn_log. by rewrite (map_app _ (ts ++ [t]) more), concat_app.
Qed.
End writing.

(** ** The header, as one statement *)

(** The WAL header decodes to what was encoded, whatever follows it in the
    file, and a header with any one byte changed is refused: with a bad-magic
    error, a version error or a checksum error according to where the byte
    is. *)
Theorem wal_header_roundtrip h t :
  header_ok h ->
  DecodeWALHeader (Encode h ++ t) = inr h /\
  forall i x y, (i < 32)%nat -> Encode h !! i = Some x -> byte_ok y -> x <> y ->
    DecodeWALHeader (<[i := y]> (Encode h ++ t)) =
    inl (if (i <? 4)%nat then ErrBadWALMagic else if (i <? 6)%nat then ErrWALVersion else ErrWALHeaderCorrupt).
Proof.
  intros Hh. split; [by apply DecodeWALHeader_Encode|]. intros i x y Hi Hx Hy Hne.
  apply (decode_changed _ h _ x); try done.
  - by apply DecodeWALHeader_Encode.
  - rewrite sub_app_l by (by rewrite length_Encode). apply sub_Forall, Encode_ok.
  - by apply lookup_app_l_Some.
Qed.

(** ** Read errors *)

(** A file whose reads at or past an offset fail with err and no bytes. *)
Record flaky (F : Type) := Flaky { fl_file : F; fl_bad : Z; fl_err : ioErr }.
Arguments Flaky {F}. Arguments fl_file {F}. Arguments fl_bad {F}. Arguments fl_err {F}.

Section flaky.
Context {F : Type} {ops : FileOps F}.

#[global] Instance flaky_ops : FileOps (flaky F) := {
  ReadAt n off f := if off >=? fl_bad f then ([], Some (fl_err f)) else ReadAt n off (fl_file f);
  WriteAt p off f := let '(n, e, g) := WriteAt p off (fl_file f) in (n, e, Flaky g (fl_bad f) (fl_err f));
  Truncate n f := let '(e, g) := Truncate n (fl_file f) in (e, Flaky g (fl_bad f) (fl_err f));
  Size f := Size (fl_file f);
  Sync f := let '(e, g) := Sync (fl_file f) in (e, Flaky g (fl_bad f) (fl_err f))
}.

Context (contents : F -> bytes) {laws : FileLaws F contents}.

(** The loop cannot tell a failing read from the end of the file. *)
Lemma scan_loop_flaky file cut h bad err fuel : forall prev off no s,
  0 <= PageSize h -> 0 <= off ->
  contents cut = take (Z.to_nat bad) (contents file) ->
  (exists j, bad = off + Z.of_nat j * FrameSize (PageSize h)) ->
  bad <= blen (contents file) ->
  scan_loop (Flaky file bad err) fuel h (FrameSize (PageSize h)) prev off no s =
  scan_loop cut fuel h (FrameSize (PageSize h)) prev off no s.
Proof.
  induction fuel as [|fuel IH]; intros prev off no s Hps Hoff Hcut [j Hj] Hbad; [done|].
  cbn [scan_loop]. destruct (frame_size_nat h Hps) as [Hz Hfz].
  set (fsz := FrameSize (PageSize h)) in *. set (z := Z.to_nat fsz) in *.
  cbn [ReadAt flaky_ops fl_bad fl_err fl_file]. rewrite Z.geb_leb, (law_read _ _ cut) by lia.
  assert (Hlc : blen (contents cut) = bad) by (rewrite Hcut; unfold blen in *; rewrite length_take; lia).
  destruct (Z.leb_spec bad off) as [Hb|Hb].
  - assert (Hnil : read_data fsz off (contents cut) = []).
    { apply nil_length_inv. pose proof (blen_read_data fsz off (contents cut)) as Hr. unfold blen in *. lia. }
    rewrite Hnil. change (blen (@nil Z)) with 0. by rewrite (proj2 (Z.ltb_lt 0 fsz)) by lia.
  - rewrite law_read by lia.
    assert (Hge : off + fsz <= bad) by (destruct j; nia).
    assert (Hsame : read_data fsz off (contents cut) = read_data fsz off (contents file)).
    { rewrite Hcut. unfold read_data. apply sub_ext. intros i Hi. rewrite lookup_take_lt by lia. done. }
    rewrite Hsame. pose proof (blen_read_data fsz off (contents file)) as Hr.
    set (buf := read_data fsz off (contents file)) in *.
    rewrite (proj2 (Z.ltb_ge (blen buf) fsz)) by lia.
    rewrite (proj2 (Z.leb_gt (blen (contents file)) off)), (proj2 (Z.leb_gt (blen (contents cut)) off)) by lia.
    destruct (check_frame h prev (u32 (no + 1)) buf) as [fr|]; [|done].
    apply IH; try done; [lia|]. exists (j - 1)%nat. destruct j; nia.
Qed.

(** The scan turns an I/O error into the end of the log. Over a file that
    holds the whole log of ts but whose reads fail from frame k on, Scan reports
    success, no torn tail, and only the transactions whole in the first k
    frames: committed transactions after the failure are dropped without an
    error, as if they had never been written. *)
Theorem wal_scan_swallows_read_error file cut h ts k err fuel :
  header_ok h -> Forall (txn_ok h) ts -> contents file = wal_file h ts ->
  contents cut = take (32 + k * Z.to_nat (FrameSize (PageSize h)))%nat (wal_file h ts) ->
  (k <= length (txn_log ts))%nat -> (length (wal_file h ts) < fuel)%nat ->
  exists r,
    Scan (Flaky file (32 + Z.of_nat k * FrameSize (PageSize h)) err) fuel (PageSize h) = Some (inr r) /\
    recovered h (complete k ts) r /\ TornTail r = false.
Proof.
  intros Hh Ht Hc Hcut Hk Hfuel.
  assert (Hps : 0 <= PageSize h) by apply Hh. destruct (frame_size_nat h Hps) as [Hz Hfz].
  set (z := Z.to_nat (FrameSize (PageSize h))) in *.
  assert (Hlen : length (wal_file h ts) = (32 + length (txn_log ts) * z)%nat).
  { unfold wal_file. rewrite length_app, length_Encode, length_log_bytes by (by apply txn_log_ok). done. }
  destruct (Scan_truncated contents cut h ts (32 + k * z) fuel Hh Ht Hcut)
    as (r & Hr & _ & H2); [rewrite Hcut, length_take; lia|].
  destruct H2 as [Hrec Htorn]; [lia|]. fold z in Hrec, Htorn.
  replace (32 + k * z - 32)%nat with (k * z)%nat in Hrec, Htorn by lia.
  rewrite Nat.div_mul in Hrec by lia. rewrite Nat.Div0.mod_mul in Htorn.
  exists r. split_and!; [|done|apply Htorn; nia]. rewrite <- Hr. unfold Scan.
  set (bad := 32 + Z.of_nat k * FrameSize (PageSize h)) in *.
  cbn [ReadAt flaky_ops fl_bad fl_file fl_err].
  assert (Hb0 : (0 >=? bad) = false) by (rewrite Z.geb_leb; apply Z.leb_gt; nia).
  rewrite Hb0, !law_read by done. rewrite Hc, Hcut.
  assert (Hr1 : read_data WALHeaderSize 0 (take (32 + k * z) (wal_file h ts)) = read_data WALHeaderSize 0 (wal_file h ts)).
  { unfold read_data. apply sub_ext. intros i Hi. rewrite lookup_take_lt; [done|].
    unfold WALHeaderSize in Hi. lia. }
  assert (Hhb : read_data WALHeaderSize 0 (wal_file h ts) = Encode h).
  { unfold read_data, sub, wal_file. rewrite drop_0. apply take_app_length'. by rewrite length_Encode. }
  rewrite Hr1, Hhb. assert (Hlb : blen (Encode h) <? WALHeaderSize = false)
    by (unfold blen; by rewrite length_Encode).
  rewrite (proj2 (Z.leb_gt (blen (wal_file h ts)) 0)) by (unfold blen; lia).
  rewrite (proj2 (Z.leb_gt (blen (take (32 + k * z) (wal_file h ts))) 0)) by (unfold blen; rewrite length_take; lia).
  rewrite Hlb. pose proof (DecodeWALHeader_Encode h [] Hh) as Hd. rewrite app_nil_r in Hd. rewrite Hd.
  rewrite Z.eqb_refl. cbn [negb].
  assert (E : scan_loop (Flaky file bad err) fuel h (FrameSize (PageSize h)) (initialPrevChecksum h) 32 0
      (Scanned [] (-1) false 0) =
    scan_loop cut fuel h (FrameSize (PageSize h)) (initialPrevChecksum h) 32 0 (Scanned [] (-1) false 0)).
  { apply scan_loop_flaky; [exact Hps|lia| |by exists k|].
    - rewrite Hcut, Hc. f_equal. unfold bad. lia.
    - rewrite Hc. unfold blen, bad. rewrite Hlen. nia. }
  change WALHeaderSize with 32. by rewrite E.
Qed.
End flaky.

(** ** A concrete log *)

Definition demo_header : Header := NewHeader 4 0 11 22.

Definition demo_txns : list txn :=
  [Tx [MkPageImage 1 [1; 2; 3; 4]; MkPageImage 2 [5; 6; 7; 8]] 3; Tx [MkPageImage 1 [9; 9; 9; 9]] 0].

Definition demo_wal (d : bytes) : MemFS := MkMemFS ∅ {[0%nat := d]} 1.
Definition demo_handle : memFile := MkMemFile 0 false.

Lemma wal_demo_header_ok : header_ok demo_header.
Proof. unfold header_ok, in_u. vm_compute. intuition discriminate. Qed.

Lemma demo_txns_ok : Forall (txn_ok demo_header) demo_txns.
Proof.
  repeat constructor; try discriminate; unfold byte_ok; cbn; lia.
Qed.

(** Cut inside the second transaction: the first is recovered. *)
Lemma wal_recovers_complete_transactions_witness :
  exists r, Scan (ops := mem_ops demo_handle) (demo_wal (take 97 (wal_file demo_header demo_txns))) 200 4
      = Some (inr r) /\
    recovered demo_header (complete 2 demo_txns) r /\ TornTail r = true.
Proof.
  destruct (wal_recovers_complete_transactions (ops := mem_ops demo_handle) (mem_data demo_handle)
    (laws := mem_laws demo_handle eq_refl) (demo_wal (take 97 (wal_file demo_header demo_txns)))
    demo_header demo_txns 97 200 wal_demo_header_ok demo_txns_ok eq_refl) as (r & E & _ & H).
  - vm_compute. lia.
  - exists r. destruct H as [H1 H2]; [lia|]. split; [exact E|]. split; [exact H1|].
    rewrite H2; [reflexivity|]. vm_compute. lia.
Defined.

(** A payload byte of the third frame changed. *)
Lemma wal_damage_detected_witness :
  exists r, Scan (ops := mem_ops demo_handle) (demo_wal (<[112%nat := 77]> (wal_file demo_header demo_txns))) 200 4
      = Some (inr r) /\
    recovered demo_header (complete 2 demo_txns) r /\ TornTail r = true.
Proof.
  destruct (wal_damage_detected (ops := mem_ops demo_handle) (mem_data demo_handle)
    (laws := mem_laws demo_handle eq_refl) (demo_wal (<[112%nat := 77]> (wal_file demo_header demo_txns)))
    demo_header demo_txns 112 9 77 200 wal_demo_header_ok demo_txns_ok) as (r & E & _ & H).
  - unfold byte_ok. lia.
  - lia.
  - vm_compute. reflexivity.
  - reflexivity.
  - vm_compute. lia.
  - exists r. split; [exact E|]. apply H. lia.
Defined.

Lemma wal_writer_writes_log_witness :
  exists w f1 w' f',
    CreateWriter (ops := mem_ops demo_handle) demo_header (demo_wal [7; 7; 7]) = (inr w, f1) /\
    append_all (ops := mem_ops demo_handle) demo_txns w f1 = ([inr (2, 2); inr (3, 3)], w', f') /\
    mem_data demo_handle f' = wal_file demo_header demo_txns.
Proof.
  destruct (wal_writer_writes_log (ops := mem_ops demo_handle) (mem_data demo_handle)
    (laws := mem_laws demo_handle eq_refl) demo_header (demo_wal [7; 7; 7]) demo_txns demo_txns_ok)
    as (w & f1 & w' & f' & E1 & E2 & E3 & _).
  exists w, f1, w', f'. split; [exact E1|]. split; [|exact E3]. exact E2.
Defined.

Lemma wal_resume_continues_log_witness :
  exists f1 w' f', Truncate (FileOps := mem_ops demo_handle) 116
      (demo_wal (wal_file demo_header demo_txns ++ [1; 2; 3])) = (None, f1) /\
    append_all (ops := mem_ops demo_handle) [Tx [MkPageImage 3 [0; 0; 0; 1]] 5]
      (ResumeWriter demo_header 3 4 (last_cksum demo_header demo_txns)) f1 =
      ([inr (4, 4)], w', f') /\
    mem_data demo_handle f' = wal_file demo_header (demo_txns ++ [Tx [MkPageImage 3 [0; 0; 0; 1]] 5]).
Proof.
  assert (Hm : Forall (txn_ok demo_header) [Tx [MkPageImage 3 [0; 0; 0; 1]] 5]).
  { repeat constructor; try discriminate; unfold byte_ok; cbn; lia. }
  set (r := scan_result (wal_frames demo_header demo_txns) false).
  destruct (wal_resume_continues_log (ops := mem_ops demo_handle) (mem_data demo_handle)
    (laws := mem_laws demo_handle eq_refl) demo_header (demo_wal (wal_file demo_header demo_txns ++ [1; 2; 3])) r
    [Tx [MkPageImage 1 [1; 2; 3; 4]; MkPageImage 2 [5; 6; 7; 8]] 3] (Tx [MkPageImage 1 [9; 9; 9; 9]] 0) [1; 2; 3]
    [Tx [MkPageImage 3 [0; 0; 0; 1]] 5] wal_demo_header_ok demo_txns_ok Hm)
    as (f1 & w' & f' & E1 & E2 & E3).
  - vm_compute. intuition discriminate.
  - reflexivity.
  - apply result_recovered; [exact demo_txns_ok|]. apply wal_frames_committed. exact demo_txns_ok.
  - exists f1, w', f'. split; [exact E1|]. split; [exact E2|exact E3].
Defined.

Lemma wal_header_roundtrip_witness :
  DecodeWALHeader (Encode demo_header ++ [1; 2]) = inr demo_header.
Proof. exact (proj1 (wal_header_roundtrip demo_header [1; 2] wal_demo_header_ok)). Defined.

(** A read error at the second transaction makes it vanish. *)
Lemma wal_scan_swallows_read_error_witness :
  exists r, Scan (ops := flaky_ops (ops := mem_ops demo_handle))
      (Flaky (demo_wal (wal_file demo_header demo_txns)) 88 (ErrPlan 5)) 200 4 = Some (inr r) /\
    recovered demo_header (complete 2 demo_txns) r /\ TornTail r = false.
Proof.
  destruct (wal_scan_swallows_read_error (ops := mem_ops demo_handle) (mem_data demo_handle)
    (laws := mem_laws demo_handle eq_refl) (demo_wal (wal_file demo_header demo_txns))
    (demo_wal (take 88 (wal_file demo_header demo_txns)))
    demo_header demo_txns 2 (ErrPlan 5) 200 wal_demo_header_ok demo_txns_ok eq_refl eq_refl) as (r & E & H).
  - vm_compute. lia.
  - vm_compute. lia.
  - exists r. split; [exact E|exact H].
Defined.
