(* ===== verification/WalSegment.v ===== *)
(** * wal/segment.go: archive segments

    The encoder and the decoder of a segment of committed transactions, byte
    for byte; that they are inverse, that a segment cut short, extended or
    damaged is refused, and what the decoder does not look at. *)

From S2P Require Import Prelude Checksum Vfs Wal.

(** ** Data *)

Definition SegmentMagic : Z := 0x44534547.
Definition SegmentFormatVersion : Z := 1.
Definition segHeaderSize : Z := 4 + 2 + 2 + 4 + 4 + 8 + 8 + 8 + 8 + 4.

(** The refusals, all wrapping ErrBadSegment; the number is the commit's. *)
Inductive segErr : Type :=
| SegShortHeader | SegBadMagic | SegVersion (v : Z) | SegHeaderChecksum | SegZeroPageSize
| SegTruncatedCommit (i : Z) | SegTruncatedFrame (i : Z) | SegMissingChecksum (i : Z)
| SegCommitChecksum (i : Z) | SegTrailing (n : Z).

(** Times are signed 64-bit seconds. *)
Record Commit := MkCommit {
  Version : Z;
  TimeUnix : Z;
  DBSizePages : Z;
  Frames : list PageImage
}.

Record Segment := MkSegment {
  seg_PageSize : Z;
  BaseVersion : Z;
  EndVersion : Z;
  BaseTimeUnix : Z;
  EndTimeUnix : Z;
  Commits : list Commit
}.

(** ** Encode *)

Definition seg_crc (b : bytes) : Z := crc32_Update 0 b.

Definition encode_frame (f : PageImage) : bytes := le_bytes 8 (pi_PageID f) ++ pi_Payload f.

Definition commit_head (c : Commit) : bytes :=
  le_bytes 8 (Version c) ++ le_bytes 8 (u64 (TimeUnix c)) ++ le_bytes 4 (DBSizePages c) ++
  le_bytes 4 (u32 (blen (Frames c))).

Definition commit_rec (c : Commit) : bytes := commit_head c ++ concat (map encode_frame (Frames c)).

Definition encode_commit (c : Commit) : bytes :=
  let rec := commit_rec c in rec ++ le_bytes 4 (seg_crc rec).

(** The header's fields; the writer's flags are always 0. *)
Definition seg_fields (flags : Z) (s : Segment) : list bytes :=
  [ le_bytes 4 SegmentMagic; le_bytes 2 SegmentFormatVersion; le_bytes 2 flags;
    le_bytes 4 (seg_PageSize s); le_bytes 4 (u32 (blen (Commits s)));
    le_bytes 8 (BaseVersion s); le_bytes 8 (EndVersion s); le_bytes 8 (u64 (BaseTimeUnix s));
    le_bytes 8 (u64 (EndTimeUnix s)) ].

Definition Encode (s : Segment) : bytes :=
  let hdr := concat (seg_fields 0 s) in
  (hdr ++ le_bytes 4 (seg_crc hdr)) ++ concat (map encode_commit (Commits s)).

(** ** Decode *)

(** The capacity a count from the input may preallocate. *)
Definition clampCount (count remaining minPer : Z) : Z :=
  if remaining <? 0 then 0
  else
    let max := if minPer >? 0 then remaining / minPer else remaining in
    if count >? max then max else count.

(** n frames of commit i from off on, and the offset after them. *)
Fixpoint decode_frames (n : nat) (i ps : Z) (b : bytes) (off : Z) : segErr + list PageImage * Z :=
  match n with
  | O => inr ([], off)
  | S n' =>
      if off + 8 + ps >? blen b then inl (SegTruncatedFrame i)
      else
        let pid := le_val (sub (Z.to_nat off) 8 b) in
        let payload := sub (Z.to_nat (off + 8)) (Z.to_nat ps) b in
        match decode_frames n' i ps b (off + 8 + ps) with
        | inl e => inl e
        | inr (fs, off') => inr (MkPageImage pid payload :: fs, off')
        end
  end.

Definition decode_commit (i ps : Z) (b : bytes) (off : Z) : segErr + Commit * Z :=
  if off + 24 >? blen b then inl (SegTruncatedCommit i)
  else
    let o := Z.to_nat off in
    let frameCount := le_val (sub (o + 20) 4 b) in
    match decode_frames (Z.to_nat frameCount) i ps b (off + 24) with
    | inl e => inl e
    | inr (fs, off1) =>
        if off1 + 4 >? blen b then inl (SegMissingChecksum i)
        else
          let want := le_val (sub (Z.to_nat off1) 4 b) in
          if negb (seg_crc (sub o (Z.to_nat (off1 - off)) b) =? want) then inl (SegCommitChecksum i)
          else inr (MkCommit (le_val (sub o 8 b)) (to_i64 (le_val (sub (o + 8) 8 b)))
                      (le_val (sub (o + 16) 4 b)) fs, off1 + 4)
    end.

Fixpoint decode_commits (n : nat) (i ps : Z) (b : bytes) (off : Z) : segErr + list Commit * Z :=
  match n with
  | O => inr ([], off)
  | S n' =>
      match decode_commit i ps b off with
      | inl e => inl e
      | inr (c, off1) =>
          match decode_commits n' (i + 1) ps b off1 with
          | inl e => inl e
          | inr (cs, off') => inr (c :: cs, off')
          end
      end
  end.

Definition DecodeSegment (b : bytes) : segErr + Segment :=
  if blen b <? segHeaderSize then inl SegShortHeader
  else if negb (le_val (sub 0 4 b) =? SegmentMagic) then inl SegBadMagic
  else
    let v := le_val (sub 4 2 b) in
    if negb (v =? SegmentFormatVersion) then inl (SegVersion v)
    else if negb (seg_crc (sub 0 48 b) =? le_val (sub 48 4 b)) then inl SegHeaderChecksum
    else
      let ps := le_val (sub 8 4 b) in
      let commitCount := le_val (sub 12 4 b) in
      if ps =? 0 then inl SegZeroPageSize
      else
        match decode_commits (Z.to_nat commitCount) 0 ps b segHeaderSize with
        | inl e => inl e
        | inr (cs, off) =>
            if negb (off =? blen b) then inl (SegTrailing (blen b - off))
            else inr (MkSegment ps (le_val (sub 16 8 b)) (le_val (sub 24 8 b))
                        (to_i64 (le_val (sub 32 8 b))) (to_i64 (le_val (sub 40 8 b))) cs)
        end.

(** ** Well-formed segments *)

Definition i64_ok (t : Z) : Prop := - 2 ^ 63 <= t < 2 ^ 63.

Definition frame_ok (ps : Z) (f : PageImage) : Prop :=
  in_u 64 (pi_PageID f) /\ bytes_ok (pi_Payload f) /\ blen (pi_Payload f) = ps.

Definition commit_ok (ps : Z) (c : Commit) : Prop :=
  in_u 64 (Version c) /\ i64_ok (TimeUnix c) /\ in_u 32 (DBSizePages c) /\
  in_u 32 (blen (Frames c)) /\ Forall (frame_ok ps) (Frames c).

Definition seg_ok (s : Segment) : Prop :=
  in_u 32 (seg_PageSize s) /\ seg_PageSize s <> 0 /\ in_u 64 (BaseVersion s) /\ in_u 64 (EndVersion s) /\
  i64_ok (BaseTimeUnix s) /\ i64_ok (EndTimeUnix s) /\ in_u 32 (blen (Commits s)) /\
  Forall (commit_ok (seg_PageSize s)) (Commits s).

(** ** Decoding from inside a longer input *)

Lemma clampCount_bound count remaining minPer :
  0 <= count -> 0 < minPer ->
  0 <= clampCount count remaining minPer <= count /\
  clampCount count remaining minPer * minPer <= Z.max 0 remaining.
Proof.
  intros Hc Hm. unfold clampCount. destruct (Z.ltb_spec remaining 0); [lia|].
  rewrite !Z.gtb_ltb, (proj2 (Z.ltb_lt 0 minPer)) by done.
  pose proof (Z.div_pos remaining minPer). pose proof (Z.mul_div_le remaining minPer Hm).
  destruct (Z.ltb_spec (remaining / minPer) count); nia.
Qed.

(** The bytes at an offset. *)
Definition at_off (b : bytes) (off : Z) (p : bytes) : Prop :=
  0 <= off /\ exists pre post, b = pre ++ p ++ post /\ blen pre = off.

Lemma at_off_app b off p q :
  at_off b off (p ++ q) <-> at_off b off p /\ at_off b (off + blen p) q.
Proof.
  unfold at_off. split.
  - intros (Ho & pre & post & -> & Hl). split; (split; [unfold blen in *; lia|]).
    + exists pre, (q ++ post). by rewrite <- app_assoc.
    + exists (pre ++ p), post. rewrite <- !app_assoc. split; [done|]. unfold blen in *. rewrite length_app. lia.
  - intros [(Ho & pre & post & -> & Hl) (_ & pre' & post' & E & Hl')]. split; [done|].
    exists pre, post'. split; [|done]. rewrite <- !app_assoc.
    assert (pre' = pre ++ p /\ post = q ++ post') as [-> ->].
    { rewrite app_assoc in E. apply app_inj_1 in E as [<- <-]; [done|].
      unfold blen in *. rewrite length_app. lia. }
    done.
Qed.

Lemma at_off_sub b off p : at_off b off p -> sub (Z.to_nat off) (length p) b = p.
Proof.
  intros (Ho & pre & post & -> & Hl). unfold blen in Hl. replace (Z.to_nat off) with (length pre) by lia.
  unfold sub. rewrite drop_app_length. apply take_app_length.
Qed.

Lemma at_off_len b off p : at_off b off p -> off + blen p <= blen b.
Proof. intros (Ho & pre & post & -> & Hl). unfold blen in *. rewrite !length_app. lia. Qed.

Lemma at_off_sub' b off p n o : at_off b off p -> length p = n -> o = Z.to_nat off -> sub o n b = p.
Proof. intros H <- ->. by apply at_off_sub. Qed.

Lemma at_off_intro b off n :
  0 <= off -> off + Z.of_nat n <= blen b -> at_off b off (sub (Z.to_nat off) n b).
Proof.
  intros Ho Hl. split; [done|]. exists (take (Z.to_nat off) b), (drop n (drop (Z.to_nat off) b)).
  unfold blen in *. unfold sub. rewrite take_drop, take_drop, length_take. split; [done|lia].
Qed.

Lemma le_val_at b off n v :
  at_off b off (le_bytes n v) -> in_u (8 * Z.of_nat n) v -> le_val (sub (Z.to_nat off) n b) = v.
Proof.
  intros H Hv. rewrite (at_off_sub' b off (le_bytes n v)) by (done || apply length_le_bytes).
  by apply le_val_le_bytes.
Qed.

(** The converse: a field read is the field stored. *)
Lemma at_le_val b off n :
  bytes_ok b -> 0 <= off -> off + Z.of_nat n <= blen b ->
  at_off b off (le_bytes n (le_val (sub (Z.to_nat off) n b))) /\
  in_u (8 * Z.of_nat n) (le_val (sub (Z.to_nat off) n b)).
Proof.
  intros Hb Ho Hl.
  assert (Hs : bytes_ok (sub (Z.to_nat off) n b)) by by apply sub_Forall.
  assert (Hn : length (sub (Z.to_nat off) n b) = n) by (apply length_sub; unfold blen in *; lia).
  split.
  - rewrite <- Hn at 1. rewrite le_bytes_le_val by done. by apply at_off_intro.
  - apply le_val_bound in Hs. unfold blen in Hs. by rewrite Hn in Hs.
Qed.

Lemma blen_le_bytes n v : blen (le_bytes n v) = Z.of_nat n.
Proof. unfold blen. by rewrite length_le_bytes. Qed.

Lemma blen_encode_frame ps f : blen (pi_Payload f) = ps -> blen (encode_frame f) = 8 + ps.
Proof. intros H. unfold encode_frame. rewrite blen_app, blen_le_bytes. lia. Qed.

Lemma decode_frames_ok i ps b fs : forall off,
  Forall (frame_ok ps) fs -> at_off b off (concat (map encode_frame fs)) ->
  decode_frames (length fs) i ps b off = inr (fs, off + blen (concat (map encode_frame fs))).
Proof.
  induction fs as [|f fs IH]; intros off Hf Hat; cbn [length map concat decode_frames] in *.
  { change (blen (@nil Z)) with 0. by rewrite Z.add_0_r. }
  apply Forall_cons in Hf as [(Hi & Hb & Hl) Hf]. apply at_off_app in Hat as [Hat Hat'].
  pose proof (at_off_len _ _ _ Hat) as Hle. pose proof (blen_encode_frame ps f Hl) as Hlf.
  rewrite Hlf in Hat', Hle. pose proof Hat as [Ho _].
  rewrite Z.gtb_ltb, (proj2 (Z.ltb_ge (blen b) (off + 8 + ps))) by lia.
  unfold encode_frame in Hat. apply at_off_app in Hat as [Hid Hpl]. rewrite blen_le_bytes in Hpl.
  rewrite (le_val_at b off 8 _ Hid) by done.
  rewrite (at_off_sub' b (off + 8) (pi_Payload f)) by (done || (unfold blen in Hl; lia)).
  replace (off + 8 + ps) with (off + (8 + ps)) by lia. rewrite IH by done.
  rewrite blen_app, Hlf. destruct f. do 2 f_equal. lia.
Qed.

Lemma decode_frames_inv i ps b n : forall off fs off',
  bytes_ok b -> 0 <= off -> 0 <= ps -> decode_frames n i ps b off = inr (fs, off') ->
  length fs = n /\ Forall (frame_ok ps) fs /\ off' = off + blen (concat (map encode_frame fs)) /\
  (off <= blen b -> at_off b off (concat (map encode_frame fs))).
Proof.
  induction n as [|n IH]; intros off fs off' Hb Ho Hps; cbn [decode_frames].
  { intros [= <- <-]. split_and!; [done|constructor|change (blen _) with 0; lia|].
    intros Hl. change (concat (map encode_frame [])) with (sub (Z.to_nat off) 0 b). apply at_off_intro; lia. }
  rewrite Z.gtb_ltb. destruct (Z.ltb_spec (blen b) (off + 8 + ps)); [done|].
  destruct (decode_frames n i ps b (off + 8 + ps)) as [|[fs1 o1]] eqn:E; [done|]. intros E'.
  destruct (IH (off + 8 + ps) fs1 o1 Hb ltac:(lia) Hps E) as (Hn & Hf & -> & Hat).
  set (f := MkPageImage (le_val (sub (Z.to_nat off) 8 b)) (sub (Z.to_nat (off + 8)) (Z.to_nat ps) b)) in *.
  assert (fs = f :: fs1) as -> by congruence.
  assert (off' = off + 8 + ps + blen (concat (map encode_frame fs1))) as -> by congruence.
  destruct (at_le_val b off 8 Hb) as [Ha Hu]; [lia..|].
  assert (Hp : at_off b (off + 8) (pi_Payload f)) by (apply at_off_intro; lia).
  assert (Hlp : blen (pi_Payload f) = ps).
  { cbn [f pi_Payload]. unfold blen in *. rewrite length_sub by lia. lia. }
  assert (Hok : frame_ok ps f) by (split_and!; [exact Hu|by apply sub_Forall|done]).
  cbn [map concat length]. rewrite blen_app, (blen_encode_frame ps) by done.
  split_and!; [by f_equal|by constructor|lia|]. intros _.
  apply at_off_app. rewrite (blen_encode_frame ps) by done. split.
  - unfold encode_frame. apply at_off_app. rewrite blen_le_bytes. split; [exact Ha|exact Hp].
  - replace (off + (8 + ps)) with (off + 8 + ps) by lia. apply Hat. lia.
Qed.

Lemma blen_commit_head c : blen (commit_head c) = 24.
Proof. unfold commit_head. by rewrite !blen_app, !blen_le_bytes. Qed.

Lemma blen_encode_commit c : blen (encode_commit c) = 28 + blen (concat (map encode_frame (Frames c))).
Proof. unfold encode_commit, commit_rec. rewrite !blen_app, blen_le_bytes, blen_commit_head. lia. Qed.

Lemma crc_in_u p : bytes_ok p -> in_u 32 (seg_crc p).
Proof.
  intros Hp. apply (lxor_in_u 32); [lia| |unfold in_u; lia]. apply crc_fold_in_u; [|done].
  unfold not32. apply lxor_in_u; unfold in_u; lia.
Qed.

Lemma commit_rec_ok ps c : commit_ok ps c -> bytes_ok (commit_rec c).
Proof.
  intros (_ & _ & _ & _ & Hf). unfold commit_rec, commit_head, bytes_ok.
  repeat apply Forall_app_2; try apply bytes_ok_le. apply Forall_concat, Forall_map.
  eapply Forall_impl; [exact Hf|]. intros f (_ & Hb & _). unfold encode_frame.
  apply Forall_app_2; [apply bytes_ok_le|done].
Qed.

Lemma u64_in_u x : in_u 64 (u64 x).
Proof. apply wrap_in_u. lia. Qed.

(** The three parts of a commit's head, at their offsets. *)
Lemma commit_head_at b off c p :
  at_off b off (commit_head c ++ p) <->
  at_off b off (le_bytes 8 (Version c)) /\ at_off b (off + 8) (le_bytes 8 (u64 (TimeUnix c))) /\
  at_off b (off + 16) (le_bytes 4 (DBSizePages c)) /\
  at_off b (off + 20) (le_bytes 4 (u32 (blen (Frames c)))) /\ at_off b (off + 24) p.
Proof.
  unfold commit_head. rewrite <- !app_assoc, !at_off_app, !blen_le_bytes.
  replace (off + Z.of_nat 8) with (off + 8) by lia.
  replace (off + 8 + Z.of_nat 8) with (off + 16) by lia.
  replace (off + 16 + Z.of_nat 4) with (off + 20) by lia.
  by replace (off + 20 + Z.of_nat 4) with (off + 24) by lia.
Qed.

Lemma decode_commit_ok i ps b off c :
  0 <= ps -> commit_ok ps c -> at_off b off (encode_commit c) ->
  decode_commit i ps b off = inr (c, off + blen (encode_commit c)).
Proof.
  intros Hps Hc Hat. pose proof Hc as (Hv & Ht & Hd & Hn & Hf). pose proof Hat as [Ho _].
  pose proof (at_off_len _ _ _ Hat) as Hle. pose proof (blen_encode_commit c) as Hlc.
  pose proof (blen_nonneg (concat (map encode_frame (Frames c)))) as Hnn.
  unfold encode_commit in Hat. apply at_off_app in Hat as [Hrec Hck].
  unfold decode_commit. rewrite Z.gtb_ltb, (proj2 (Z.ltb_ge (blen b) (off + 24))) by lia.
  pose proof Hrec as Hrec'. unfold commit_rec in Hrec'. apply commit_head_at in Hrec' as (H1 & H2 & H3 & H4 & H5).
  replace (Z.to_nat off + 20)%nat with (Z.to_nat (off + 20)) by lia.
  replace (Z.to_nat off + 8)%nat with (Z.to_nat (off + 8)) by lia.
  replace (Z.to_nat off + 16)%nat with (Z.to_nat (off + 16)) by lia.
  rewrite (le_val_at b (off + 20) 4 _ H4) by (apply u32_in_u). rewrite wrap_small by done.
  unfold blen at 1. rewrite Nat2Z.id, (decode_frames_ok i ps b (Frames c)) by done.
  assert (Hlr : blen (commit_rec c) = 24 + blen (concat (map encode_frame (Frames c))))
    by (unfold commit_rec; by rewrite blen_app, blen_commit_head).
  rewrite Z.gtb_ltb, (proj2 (Z.ltb_ge (blen b) _)) by lia.
  rewrite (le_val_at b off 8 _ H1), (le_val_at b (off + 8) 8 _ H2), (le_val_at b (off + 16) 4 _ H3)
    by (done || apply u64_in_u).
  rewrite Hlr in Hck.
  replace (off + 24 + blen (concat (map encode_frame (Frames c)))) with
    (off + (24 + blen (concat (map encode_frame (Frames c))))) by lia.
  rewrite (le_val_at b _ 4 _ Hck) by (eapply crc_in_u, commit_rec_ok, Hc).
  rewrite (at_off_sub' b off (commit_rec c)) by (done || (unfold blen in *; cbn [length] in *; lia)).
  rewrite Z.eqb_refl. cbn [negb]. rewrite to_i64_u64 by done. rewrite Hlc.
  replace (off + (24 + blen (concat (map encode_frame (Frames c)))) + 4) with
    (off + (28 + blen (concat (map encode_frame (Frames c))))) by lia.
  by destruct c.
Qed.

Lemma decode_commits_ok ps b cs : forall i off,
  0 <= ps -> Forall (commit_ok ps) cs -> at_off b off (concat (map encode_commit cs)) ->
  decode_commits (length cs) i ps b off = inr (cs, off + blen (concat (map encode_commit cs))).
Proof.
  induction cs as [|c cs IH]; intros i off Hps Hc Hat; cbn [length map concat decode_commits] in *.
  { change (blen (@nil Z)) with 0. by rewrite Z.add_0_r. }
  apply Forall_cons in Hc as [Hc Hcs]. apply at_off_app in Hat as [Hat Hat'].
  rewrite (decode_commit_ok i ps b off c) by done. rewrite IH by done.
  rewrite blen_app. do 2 f_equal. lia.
Qed.

Lemma decode_commit_inv i ps b off c off' :
  bytes_ok b -> 0 <= off -> 0 <= ps -> decode_commit i ps b off = inr (c, off') ->
  commit_ok ps c /\ off' = off + blen (encode_commit c) /\ at_off b off (encode_commit c).
Proof.
  intros Hb Ho Hps. unfold decode_commit. rewrite Z.gtb_ltb.
  destruct (Z.ltb_spec (blen b) (off + 24)); [done|].
  replace (Z.to_nat off + 20)%nat with (Z.to_nat (off + 20)) by lia.
  replace (Z.to_nat off + 8)%nat with (Z.to_nat (off + 8)) by lia.
  replace (Z.to_nat off + 16)%nat with (Z.to_nat (off + 16)) by lia.
  destruct (at_le_val b off 8 Hb) as [A1 U1]; [lia..|].
  destruct (at_le_val b (off + 8) 8 Hb) as [A2 U2]; [lia..|].
  destruct (at_le_val b (off + 16) 4 Hb) as [A3 U3]; [lia..|].
  destruct (at_le_val b (off + 20) 4 Hb) as [A4 U4]; [lia..|].
  set (n := le_val (sub (Z.to_nat (off + 20)) 4 b)) in *.
  destruct (decode_frames (Z.to_nat n) i ps b (off + 24)) as [|[fs off1]] eqn:E; [done|].
  apply decode_frames_inv in E as (Hn & Hf & -> & A5); [|done|lia|done]. specialize (A5 ltac:(lia)).
  rewrite Z.gtb_ltb. destruct (Z.ltb_spec (blen b) (off + 24 + blen (concat (map encode_frame fs)) + 4)); [done|].
  destruct (Z.eqb_spec (seg_crc (sub (Z.to_nat off)
    (Z.to_nat (off + 24 + blen (concat (map encode_frame fs)) - off)) b))
    (le_val (sub (Z.to_nat (off + 24 + blen (concat (map encode_frame fs)))) 4 b))) as [Ec|]; [|done].
  cbn [negb]. intros E.
  set (t := to_i64 (le_val (sub (Z.to_nat (off + 8)) 8 b))) in *.
  set (c0 := MkCommit (le_val (sub (Z.to_nat off) 8 b)) t (le_val (sub (Z.to_nat (off + 16)) 4 b)) fs) in *.
  assert (c = c0) as -> by congruence.
  assert (Hnn : blen fs = n) by (unfold blen; rewrite Hn; unfold in_u in U4; lia).
  assert (Hcok : commit_ok ps c0).
  { split_and!; [exact U1| |exact U3| |exact Hf]; [|change (in_u 32 (blen fs)); by rewrite Hnn].
    unfold i64_ok, c0, t. cbn [TimeUnix]. by apply to_i64_range. }
  split; [done|]. rewrite blen_encode_commit. split; [cbn [c0 Frames]; assert (off' = off + 24 + blen (concat (map encode_frame fs)) + 4) by congruence; lia|].
  unfold encode_commit. apply at_off_app.
  assert (Hrec : at_off b off (commit_rec c0)).
  { unfold commit_rec. apply commit_head_at. unfold c0. cbn [Version TimeUnix DBSizePages Frames].
    split_and!; [exact A1| |exact A3| |exact A5].
    - unfold t. by rewrite u64_to_i64.
    - rewrite Hnn, wrap_small by done. exact A4. }
  assert (Hlr : blen (commit_rec c0) = 24 + blen (concat (map encode_frame fs)))
    by (unfold commit_rec; by rewrite blen_app, blen_commit_head).
  split; [done|]. rewrite Hlr.
  destruct (at_le_val b (off + (24 + blen (concat (map encode_frame fs)))) 4 Hb) as [A6 _];
    [pose proof (blen_nonneg (concat (map encode_frame fs))); lia|lia|].
  replace (off + 24 + blen (concat (map encode_frame fs))) with
    (off + (24 + blen (concat (map encode_frame fs)))) in Ec by lia.
  rewrite <- Ec in A6.
  rewrite (at_off_sub' b off (commit_rec c0)) in A6 by (done || (unfold blen in *; lia)). exact A6.
Qed.

Lemma decode_commits_inv ps b n : forall i off cs off',
  bytes_ok b -> 0 <= off <= blen b -> 0 <= ps -> decode_commits n i ps b off = inr (cs, off') ->
  length cs = n /\ Forall (commit_ok ps) cs /\ off' = off + blen (concat (map encode_commit cs)) /\
  at_off b off (concat (map encode_commit cs)).
Proof.
  induction n as [|n IH]; intros i off cs off' Hb Ho Hps; cbn [decode_commits].
  { intros [= <- <-]. split_and!; [done|constructor|change (blen _) with 0; lia|].
    change (concat (map encode_commit [])) with (sub (Z.to_nat off) 0 b). apply at_off_intro; lia. }
  destruct (decode_commit i ps b off) as [|[c o1]] eqn:Ec; [done|].
  destruct (decode_commits n (i + 1) ps b o1) as [|[cs1 o2]] eqn:E; [done|]. intros E'.
  assert (cs = c :: cs1) as -> by congruence. assert (off' = o2) as -> by congruence.
  apply decode_commit_inv in Ec as (Hc & -> & Hat); [|done|lia|done].
  pose proof (at_off_len _ _ _ Hat). pose proof (blen_nonneg (encode_commit c)).
  apply IH in E as (Hn & Hcs & -> & Hat'); [|done|lia|done].
  cbn [map concat length]. rewrite blen_app. split_and!; [by f_equal|by constructor|lia|].
  by apply at_off_app.
Qed.

(** ** The header *)

Definition seg_header (fl : Z) (s : Segment) : bytes :=
  let hdr := concat (seg_fields fl s) in hdr ++ le_bytes 4 (seg_crc hdr).

(** A segment whose header carries the flags fl. *)
Definition encode_with (fl : Z) (s : Segment) : bytes :=
  seg_header fl s ++ concat (map encode_commit (Commits s)).

Lemma seg_Encode_eq s : Encode s = encode_with 0 s.
Proof. reflexivity. Qed.

Lemma seg_fields_ok fl s : bytes_ok (concat (seg_fields fl s)).
Proof.
  unfold bytes_ok. apply Forall_concat. unfold seg_fields. repeat (apply Forall_cons_2; [apply bytes_ok_le|]). apply Forall_nil_2.
Qed.

Lemma length_seg_fields fl s : length (concat (seg_fields fl s)) = 48%nat.
Proof. reflexivity. Qed.

Lemma length_seg_header fl s : length (seg_header fl s) = 52%nat.
Proof. unfold seg_header. by rewrite length_app, length_seg_fields, length_le_bytes. Qed.

Lemma seg_header_sub fl s t o n : (o + n <= 48)%nat -> sub o n (seg_header fl s ++ t) = sub o n (concat (seg_fields fl s)).
Proof.
  intros H. unfold seg_header. rewrite <- app_assoc. apply sub_app_l. by rewrite length_seg_fields.
Qed.

Lemma seg_field fl s t k o n v :
  seg_fields fl s !! k = Some (le_bytes n v) -> length (concat (take k (seg_fields fl s))) = o ->
  (o + n <= 48)%nat -> in_u (8 * Z.of_nat n) v -> le_val (sub o n (seg_header fl s ++ t)) = v.
Proof.
  intros Hk Ho Hn Hv. rewrite seg_header_sub by done.
  rewrite (sub_concat k (seg_fields fl s) (le_bytes n v)) by (done || apply length_le_bytes).
  by apply le_val_le_bytes.
Qed.

Lemma seg_header_crc fl s t : le_val (sub 48 4 (seg_header fl s ++ t)) = seg_crc (sub 0 48 (seg_header fl s ++ t)).
Proof.
  rewrite (seg_header_sub fl s t 0 48) by lia. assert (sub 0 48 (concat (seg_fields fl s)) = concat (seg_fields fl s)) as ->.
  { rewrite <- (length_seg_fields fl s). apply sub_full. }
  unfold seg_header. rewrite <- app_assoc, sub_app_r, length_seg_fields by (by rewrite length_seg_fields).
  rewrite sub_app_l by done. change (48 - 48)%nat with 0%nat.
  rewrite <- (length_le_bytes 4 (seg_crc (concat (seg_fields fl s)))) at 1. rewrite sub_full.
  apply le_val_le_bytes, crc_in_u, seg_fields_ok.
Qed.

(** A whole segment followed by t. *)
Lemma DecodeSegment_encode_with fl s t :
  seg_ok s -> DecodeSegment (encode_with fl s ++ t) = if blen t =? 0 then inr s else inl (SegTrailing (blen t)).
Proof.
  intros (Hps & Hps0 & Hbv & Hev & Hbt & Het & Hn & Hc). unfold DecodeSegment.
  assert (Hl : blen (encode_with fl s ++ t) = 52 + blen (concat (map encode_commit (Commits s))) + blen t).
  { unfold encode_with. rewrite !blen_app. assert (blen (seg_header fl s) = 52) as -> by (unfold blen; by rewrite length_seg_header). lia. }
  pose proof (blen_nonneg (concat (map encode_commit (Commits s)))). pose proof (blen_nonneg t).
  assert (Hlt : blen (encode_with fl s ++ t) <? segHeaderSize = false)
    by (apply Z.ltb_ge; change segHeaderSize with 52; lia).
  rewrite Hlt. unfold encode_with in *. rewrite <- app_assoc in *. set (x := _ ++ t) in *.
  rewrite seg_header_crc.
  rewrite (seg_field fl s x 0 0 4 SegmentMagic), (seg_field fl s x 1 4 2 SegmentFormatVersion),
    (seg_field fl s x 3 8 4 (seg_PageSize s)), (seg_field fl s x 4 12 4 (u32 (blen (Commits s)))),
    (seg_field fl s x 5 16 8 (BaseVersion s)), (seg_field fl s x 6 24 8 (EndVersion s)),
    (seg_field fl s x 7 32 8 (u64 (BaseTimeUnix s))), (seg_field fl s x 8 40 8 (u64 (EndTimeUnix s)))
    by (done || apply u32_in_u || apply u64_in_u || (simpl; lia)).
  rewrite !Z.eqb_refl. cbn [negb]. rewrite (proj2 (Z.eqb_neq _ _) Hps0).
  rewrite wrap_small by done. unfold blen at 1. rewrite Nat2Z.id.
  rewrite (decode_commits_ok (seg_PageSize s)); [|unfold in_u in Hps; lia|done|].
  - change segHeaderSize with 52. rewrite Hl.
    destruct (Z.eqb_spec (blen t) 0) as [->|Hne].
    + rewrite Z.add_0_r, Z.eqb_refl. cbn [negb]. rewrite !to_i64_u64 by done. by destruct s.
    + rewrite (proj2 (Z.eqb_neq _ _)) by lia. cbn [negb]. do 2 f_equal. lia.
  - change segHeaderSize with 52. split; [lia|]. exists (seg_header fl s), t. split; [done|].
    unfold blen. by rewrite length_seg_header.
Qed.

(** An input that decodes is the encoding of the result, but for the flags. *)
Lemma DecodeSegment_inv b s :
  bytes_ok b -> DecodeSegment b = inr s ->
  seg_ok s /\ b = encode_with (le_val (sub 6 2 b)) s.
Proof.
  intros Hb. unfold DecodeSegment. change segHeaderSize with 52.
  destruct (Z.ltb_spec (blen b) 52); [done|].
  assert (HA : forall o n, (o + n <= 52)%nat -> le_bytes n (le_val (sub o n b)) = sub o n b /\
    in_u (8 * Z.of_nat n) (le_val (sub o n b))).
  { intros o n Hon. assert (Hs : bytes_ok (sub o n b)) by by apply sub_Forall.
    assert (Hl : length (sub o n b) = n) by (apply length_sub; unfold blen in *; lia). split.
    - rewrite <- Hl at 1. by apply le_bytes_le_val.
    - apply le_val_bound in Hs. unfold blen in Hs. by rewrite Hl in Hs. }
  destruct (Z.eqb_spec (le_val (sub 0 4 b)) SegmentMagic) as [E0|]; [|done].
  destruct (Z.eqb_spec (le_val (sub 4 2 b)) SegmentFormatVersion) as [E1|]; [|done].
  destruct (Z.eqb_spec (seg_crc (sub 0 48 b)) (le_val (sub 48 4 b))) as [E2|]; [|done].
  destruct (Z.eqb_spec (le_val (sub 8 4 b)) 0) as [|E3]; [done|]. cbn [negb].
  destruct (HA 0 4)%nat as [A0 _]; [lia|]. destruct (HA 4 2)%nat as [A1 _]; [lia|].
  destruct (HA 8 4)%nat as [A2 U2]; [lia|]. destruct (HA 12 4)%nat as [A3 U3]; [lia|].
  destruct (HA 16 8)%nat as [A4 U4]; [lia|]. destruct (HA 24 8)%nat as [A5 U5]; [lia|].
  destruct (HA 32 8)%nat as [A6 U6]; [lia|]. destruct (HA 40 8)%nat as [A7 U7]; [lia|].
  destruct (HA 48 4)%nat as [A8 _]; [lia|].
  destruct (decode_commits _ 0 (le_val (sub 8 4 b)) b 52) as [|[cs off]] eqn:E; [done|].
  destruct (Z.eqb_spec off (blen b)) as [Eo|]; [|done]. cbn [negb]. intros Es.
  apply decode_commits_inv in E as (Hn & Hc & -> & Hat); [|done|lia|unfold in_u in U2; lia].
  set (s0 := MkSegment (le_val (sub 8 4 b)) (le_val (sub 16 8 b)) (le_val (sub 24 8 b))
    (to_i64 (le_val (sub 32 8 b))) (to_i64 (le_val (sub 40 8 b))) cs) in *.
  assert (s = s0) as -> by congruence.
  assert (Hnn : blen cs = le_val (sub 12 4 b)) by (unfold blen; rewrite Hn; unfold in_u in U3; lia).
  assert (Hok : seg_ok s0).
  { unfold seg_ok, s0, i64_ok. cbn [seg_PageSize BaseVersion EndVersion BaseTimeUnix EndTimeUnix Commits].
    rewrite Hnn. split_and!; auto; by apply to_i64_range. }
  split; [done|]. cbn [s0 Commits].
  assert (Hsplit : b = sub 0 52 b ++ concat (map encode_commit cs)).
  { destruct Hat as (_ & pre & post & -> & Hpre). rewrite !blen_app in Eo.
    pose proof (blen_nonneg post). assert (post = []) as -> by (apply nil_length_inv; unfold blen in *; lia).
    rewrite app_nil_r. f_equal. unfold sub. rewrite drop_0.
    symmetry. apply take_app_length'. unfold blen in Hpre. lia. }
  assert (Hcat : forall o n m o' k, o' = (o + n)%nat -> k = (n + m)%nat -> sub o k b = sub o n b ++ sub o' m b).
  { intros o n m o' k -> ->. unfold sub. rewrite <- drop_drop. symmetry. apply take_take_drop. }
  etransitivity; [exact Hsplit|]. unfold encode_with. cbn [s0 Commits]. f_equal.
  set (fl := le_val (sub 6 2 b)) in *. unfold seg_header.
  assert (Hf : concat (seg_fields fl s0) = sub 0 48 b).
  { rewrite (Hcat 0 4 44 4 48)%nat, (Hcat 4 2 42 6 44)%nat, (Hcat 6 2 40 8 42)%nat,
      (Hcat 8 4 36 12 40)%nat, (Hcat 12 4 32 16 36)%nat, (Hcat 16 8 24 24 32)%nat,
      (Hcat 24 8 16 32 24)%nat, (Hcat 32 8 8 40 16)%nat by done.
    destruct (HA 6 2)%nat as [A9 _]; [lia|]. fold fl in A9.
    rewrite <- A0, <- A1, <- A2, <- A3, <- A4, <- A5, <- A6, <- A7, <- A9, E0, E1.
    unfold s0, seg_fields. cbn [seg_PageSize BaseVersion EndVersion BaseTimeUnix EndTimeUnix Commits concat].
    by rewrite Hnn, wrap_small, !u64_to_i64, app_nil_r by done. }
  by rewrite Hf, (Hcat 0 48 4 48 52)%nat, E2, A8 by done.
Qed.

(** ** Damage *)

Lemma seg_crc_changed p i x y :
  bytes_ok p -> byte_ok y -> p !! i = Some x -> x <> y -> seg_crc (<[i := y]> p) <> seg_crc p.
Proof.
  intros Hp Hy Hi Hne. assert (Hl := lookup_lt_Some _ _ _ Hi).
  assert (Hx : byte_ok x) by (by eapply Forall_lookup_1).
  rewrite insert_take_drop by done. rewrite <- (take_drop_middle p i x Hi) at 3.
  apply (crc_burst 0 (take i p) [y] [x] (drop (S i) p));
    [unfold in_u; lia|by apply Forall_take|by apply Forall_singleton|by apply Forall_singleton|by apply Forall_drop
    |done|simpl; lia|congruence].
Qed.

(** Frames are read whatever their bytes, as long as they are there. *)
Lemma decode_frames_total i ps b n : forall off,
  0 <= off -> 0 <= ps -> off + Z.of_nat n * (8 + ps) <= blen b ->
  exists fs, decode_frames n i ps b off = inr (fs, off + Z.of_nat n * (8 + ps)).
Proof.
  induction n as [|n IH]; intros off Ho Hps Hl; cbn [decode_frames].
  { exists []. by replace (off + Z.of_nat 0 * (8 + ps)) with off by lia. }
  rewrite Z.gtb_ltb, (proj2 (Z.ltb_ge (blen b) (off + 8 + ps))) by nia.
  destruct (IH (off + 8 + ps)) as [fs E]; [lia..|]. rewrite E. eexists.
  by replace (off + Z.of_nat (S n) * (8 + ps)) with (off + 8 + ps + Z.of_nat n * (8 + ps)) by lia.
Qed.

Lemma blen_frames ps fs : Forall (frame_ok ps) fs -> blen (concat (map encode_frame fs)) = blen fs * (8 + ps).
Proof.
  induction 1 as [|f fs (_ & _ & Hl) Hf IH]; [done|]. cbn [map concat]. rewrite blen_app, IH.
  rewrite (blen_encode_frame ps) by done. unfold blen. cbn [length]. lia.
Qed.

(** A commit with a byte changed outside its frame count. *)
Lemma decode_commit_changed i ps b off c r x y :
  0 <= ps -> commit_ok ps c -> encode_commit c !! r = Some x -> byte_ok y -> x <> y ->
  (r < 20 \/ 24 <= r)%nat -> at_off b off (<[r := y]> (encode_commit c)) ->
  decode_commit i ps b off = inl (SegCommitChecksum i).
Proof.
  intros Hps Hc Hr Hy Hne Hout Hat. pose proof Hc as (_ & _ & _ & Hn & Hf). pose proof Hat as [Ho _].
  pose proof (at_off_len _ _ _ Hat) as Hle. pose proof (blen_encode_commit c) as Hlc.
  rewrite (blen_frames ps) in Hlc by done. set (m := blen (Frames c)) in *.
  assert (Hm : 0 <= m * (8 + ps)) by (apply Z.mul_nonneg_nonneg; [apply blen_nonneg|lia]).
  assert (Hli : blen (<[r:=y]> (encode_commit c)) = blen (encode_commit c)) by (unfold blen; by rewrite length_insert).
  rewrite Hli, Hlc in Hle.
  assert (HlcN : length (encode_commit c) = Z.to_nat (28 + m * (8 + ps))) by (unfold blen in *; lia).
  set (B := <[r:=y]> (encode_commit c)) in *.
  assert (Hsub : forall o n, (o + n <= length B)%nat -> sub (Z.to_nat off + o) n b = sub o n B).
  { intros o n Hon. rewrite <- (sub_sub (Z.to_nat off) (length B)) by lia. by rewrite (at_off_sub b off B). }
  assert (HlB : length B = Z.to_nat (28 + m * (8 + ps))) by (unfold B; by rewrite length_insert).
  unfold decode_commit. rewrite Z.gtb_ltb, (proj2 (Z.ltb_ge (blen b) (off + 24))) by lia.
  assert (Hcnt : le_val (sub (Z.to_nat off + 20) 4 b) = m).
  { rewrite Hsub by lia. unfold B. rewrite sub_insert_out by lia.
    assert (Hat0 : at_off (encode_commit c) 0 (commit_head c ++ concat (map encode_frame (Frames c)))).
    { split; [lia|]. exists [], (le_bytes 4 (seg_crc (commit_rec c))). done. }
    apply commit_head_at in Hat0 as (_ & _ & _ & H4 & _).
    change 20%nat with (Z.to_nat (0 + 20)). rewrite (le_val_at (encode_commit c) (0 + 20) 4 _ H4) by apply u32_in_u.
    by apply wrap_small. }
  rewrite Hcnt.
  destruct (decode_frames_total i ps b (Z.to_nat m) (off + 24)) as [fs E]; [lia|done| |].
  { unfold m, blen in *. lia. }
  rewrite E. assert (Hm2 : Z.of_nat (Z.to_nat m) = m) by (unfold m, blen; lia). rewrite Hm2.
  rewrite Z.gtb_ltb, (proj2 (Z.ltb_ge (blen b) _)) by lia.
  set (R := Z.to_nat (24 + m * (8 + ps))).
  replace (Z.to_nat (off + 24 + m * (8 + ps) - off)) with R by (unfold R; lia).
  replace (Z.to_nat (off + 24 + m * (8 + ps))) with (Z.to_nat off + R)%nat by (unfold R; lia).
  assert (Hb0 : sub (Z.to_nat off) R b = sub 0 R B) by (rewrite <- Hsub by lia; by rewrite Nat.add_0_r).
  rewrite Hb0, Hsub by lia.
  assert (Hrec : length (commit_rec c) = R).
  { unfold encode_commit in HlcN. rewrite length_app, length_le_bytes in HlcN. lia. }
  assert (Hrok : bytes_ok (commit_rec c)) by by eapply commit_rec_ok.
  assert (E1 : sub 0 R (encode_commit c) = commit_rec c).
  { unfold encode_commit. rewrite sub_app_l by lia. rewrite <- Hrec. apply sub_full. }
  assert (E2 : sub R 4 (encode_commit c) = le_bytes 4 (seg_crc (commit_rec c))).
  { unfold encode_commit. rewrite sub_app_r by lia. rewrite Hrec, Nat.sub_diag.
    rewrite <- (length_le_bytes 4 (seg_crc (commit_rec c))) at 1. apply sub_full. }
  assert (Hv : le_val (le_bytes 4 (seg_crc (commit_rec c))) = seg_crc (commit_rec c))
    by (by apply le_val_le_bytes, crc_in_u).
  unfold B. destruct (decide (r < R)%nat).
  - rewrite sub_insert_in, (sub_insert_out R 4), E1, E2, Hv, Nat.sub_0_r by lia.
    rewrite (proj2 (Z.eqb_neq _ _)); [done|]. apply (seg_crc_changed _ _ x); try done.
    rewrite <- E1, sub_lookup by done. done.
  - assert (r < length B)%nat by (unfold B; rewrite length_insert; by eapply lookup_lt_Some).
    rewrite sub_insert_out, (sub_insert_in R 4), E1, E2 by lia.
    rewrite (proj2 (Z.eqb_neq _ _)); [done|]. intros Heq.
    apply (le_val_insert_ne (le_bytes 4 (seg_crc (commit_rec c))) (r - R) x y); auto using bytes_ok_le.
    + rewrite <- E2, sub_lookup by lia. rewrite <- Hr. f_equal. lia.
    + by rewrite <- Heq, Hv.
Qed.

Lemma decode_commits_app ps b cs1 n : forall i off,
  0 <= ps -> Forall (commit_ok ps) cs1 -> at_off b off (concat (map encode_commit cs1)) ->
  decode_commits (length cs1 + n) i ps b off =
  match decode_commits n (i + blen cs1) ps b (off + blen (concat (map encode_commit cs1))) with
  | inl e => inl e
  | inr (cs, o) => inr (cs1 ++ cs, o)
  end.
Proof.
  induction cs1 as [|c cs1 IH]; intros i off Hps Hc Hat; cbn [length Nat.add map concat decode_commits app] in *.
  { change (blen (@nil Z)) with 0. change (blen (@nil Commit)) with 0. rewrite !Z.add_0_r.
    by destruct (decode_commits n i ps b off) as [|[]]. }
  apply Forall_cons in Hc as [Hc Hcs]. apply at_off_app in Hat as [Hat Hat'].
  rewrite (decode_commit_ok i ps b off c), IH by done. rewrite blen_app.
  replace (i + blen (c :: cs1)) with (i + 1 + blen cs1) by (unfold blen; cbn [length]; lia).
  rewrite Z.add_assoc. by destruct (decode_commits n _ ps b _) as [|[]].
Qed.

(** The header of a changed segment. *)
Lemma DecodeSegment_header_changed b s i x y :
  DecodeSegment b = inr s -> bytes_ok b -> (i < 52)%nat -> b !! i = Some x -> byte_ok y -> x <> y ->
  DecodeSegment (<[i := y]> b) =
  inl (if (i <? 4)%nat then SegBadMagic
       else if (i <? 6)%nat then SegVersion (le_val (sub 4 2 (<[i := y]> b))) else SegHeaderChecksum).
Proof.
  intros Hok Hb Hlt Hi Hy Hne.
  assert (Hc : forall o n v, (o <= i < o + n)%nat -> le_val (sub o n b) = v ->
    le_val (sub o n (<[i:=y]> b)) =? v = false).
  { intros o n v Ho <-. apply Z.eqb_neq. rewrite sub_insert_in by lia.
    apply (le_val_insert_ne _ _ x); [by apply sub_Forall|done| |done].
    rewrite sub_lookup by lia. rewrite <- Hi. f_equal. lia. }
  unfold DecodeSegment in *. rewrite (eq_refl : blen b = Z.of_nat (length b)) in Hok.
  unfold blen. rewrite length_insert. destruct (Z.of_nat (length b) <? segHeaderSize); [done|].
  destruct (Z.eqb_spec (le_val (sub 0 4 b)) SegmentMagic) as [E0|]; [|done]. cbn [negb] in Hok.
  destruct (Z.eqb_spec (le_val (sub 4 2 b)) SegmentFormatVersion) as [E1|]; [|done]. cbn [negb] in Hok.
  destruct (Z.eqb_spec (seg_crc (sub 0 48 b)) (le_val (sub 48 4 b))) as [E2|]; [|done]. clear Hok.
  destruct (Nat.ltb_spec i 4); [by rewrite Hc by (done || lia)|].
  rewrite (sub_insert_out 0 4), E0, Z.eqb_refl by lia. cbn [negb].
  destruct (Nat.ltb_spec i 6); [by rewrite Hc by (done || lia)|].
  rewrite (sub_insert_out 4 2), E1, Z.eqb_refl by lia. cbn [negb].
  destruct (decide (i < 48)%nat).
  - rewrite (sub_insert_out 48 4), sub_insert_in, <- E2 by lia.
    rewrite (proj2 (Z.eqb_neq _ _)); [done|]. apply (seg_crc_changed _ _ x); [by apply sub_Forall|done| |done].
    rewrite sub_lookup by lia. rewrite <- Hi. f_equal. lia.
  - rewrite (sub_insert_out 0 48), E2 by lia. rewrite Z.eqb_sym. by rewrite (Hc 48%nat 4%nat) by (done || lia).
Qed.

Lemma encode_with_ok fl s : seg_ok s -> bytes_ok (encode_with fl s).
Proof.
  intros (_ & _ & _ & _ & _ & _ & _ & Hc). unfold encode_with, seg_header, bytes_ok.
  apply Forall_app_2; [apply Forall_app_2; [apply seg_fields_ok|apply bytes_ok_le]|].
  apply Forall_concat, Forall_map. eapply Forall_impl; [exact Hc|]. intros c Hcc.
  unfold encode_commit. apply Forall_app_2; [by eapply commit_rec_ok|apply bytes_ok_le].
Qed.

(** ** Properties *)

(** A segment decodes to what was encoded, and only whole: the encoding of a
    well-formed segment decodes to that segment; followed by anything it is
    refused for its trailing bytes; and cut anywhere, in the header, in a commit
    or between two commits, it is refused. *)
Theorem segment_roundtrip s :
  seg_ok s ->
  DecodeSegment (Encode s) = inr s /\
  (forall t, t <> [] -> DecodeSegment (Encode s ++ t) = inl (SegTrailing (blen t))) /\
  (forall n, (n < length (Encode s))%nat -> exists e, DecodeSegment (take n (Encode s)) = inl e).
Proof.
  intros Hs. rewrite seg_Encode_eq. split_and!.
  - rewrite <- (app_nil_r (encode_with 0 s)). by rewrite DecodeSegment_encode_with.
  - intros t Ht. rewrite DecodeSegment_encode_with by done. rewrite (proj2 (Z.eqb_neq _ _)); [done|].
    destruct t; [done|]. unfold blen. cbn [length]. lia.
  - intros n Hn. destruct (DecodeSegment (take n (encode_with 0 s))) as [e|s'] eqn:E; [by exists e|].
    apply DecodeSegment_inv in E as [Hs' E]; [|by apply Forall_take, encode_with_ok]. exfalso.
    set (fl := le_val _) in E. pose proof (take_drop n (encode_with 0 s)) as Htd. rewrite E in Htd.
    pose proof (DecodeSegment_encode_with fl s' (drop n (encode_with 0 s)) Hs') as H1. rewrite Htd in H1.
    pose proof (DecodeSegment_encode_with 0 s [] Hs) as H2. rewrite app_nil_r in H2. rewrite H2 in H1.
    change (blen (@nil Z) =? 0) with true in H1. rewrite (proj2 (Z.eqb_neq _ _)) in H1; [done|].
    unfold blen. rewrite length_drop. lia.
Qed.

(** What the decoder accepts, exactly: an input decodes to s when and only
    when s is well formed and the input is its encoding with some two bytes in
    the place of the flags, under the header checksum of those bytes. The flags
    are neither refused nor kept, so every segment has 65536 accepted encodings
    of which only one is the encoder's. *)
Theorem segment_decodes_exactly b s :
  bytes_ok b ->
  DecodeSegment b = inr s <-> seg_ok s /\ exists flags, in_u 16 flags /\ b = encode_with flags s.
Proof.
  intros Hb. split.
  - intros E. apply DecodeSegment_inv in E as [Hs E]; [|done]. split; [done|]. eexists. split; [|exact E].
    assert (H := le_val_bound (sub 6 2 b) (sub_Forall _ 6 2 b Hb)).
    assert (Hl : length (sub 6 2 b) = 2%nat).
    { apply length_sub. rewrite E. unfold encode_with. rewrite length_app, length_seg_header. lia. }
    unfold blen in H. by rewrite Hl in H.
  - intros (Hs & fl & _ & ->). rewrite <- (app_nil_r (encode_with fl s)). by rewrite DecodeSegment_encode_with.
Qed.

(** Damage to a segment. A changed byte of the header is refused, as a bad
    magic, a bad version or a bad header checksum; a changed byte of a commit,
    anywhere but in its frame count, is refused as that commit's checksum. *)
Theorem segment_damage_detected s x y :
  seg_ok s -> byte_ok y -> x <> y ->
  (forall i, (i < 52)%nat -> Encode s !! i = Some x ->
    DecodeSegment (<[i := y]> (Encode s)) =
    inl (if (i <? 4)%nat then SegBadMagic
         else if (i <? 6)%nat then SegVersion (le_val (sub 4 2 (<[i := y]> (Encode s)))) else SegHeaderChecksum)) /\
  (forall pre c post r, Commits s = pre ++ c :: post -> encode_commit c !! r = Some x -> (r < 20 \/ 24 <= r)%nat ->
    DecodeSegment (<[(52 + length (concat (map encode_commit pre)) + r)%nat := y]> (Encode s)) =
    inl (SegCommitChecksum (blen pre))).
Proof.
  intros Hs Hy Hne. rewrite seg_Encode_eq. split.
  { intros i Hi Hx. apply (DecodeSegment_header_changed _ s _ x); try done; [|by apply encode_with_ok].
    rewrite <- (app_nil_r (encode_with 0 s)). by rewrite DecodeSegment_encode_with. }
  intros pre c post r Hcs Hr Hout. pose proof Hs as (Hps & Hps0 & _ & _ & _ & _ & Hn & Hc).
  assert (Hr' : (r < length (encode_commit c))%nat) by by eapply lookup_lt_Some.
  set (P := concat (map encode_commit pre)). set (B := <[r:=y]> (encode_commit c)).
  set (Q := concat (map encode_commit post)).
  assert (E : <[(52 + length P + r)%nat:=y]> (encode_with 0 s) = seg_header 0 s ++ P ++ B ++ Q).
  { unfold encode_with. rewrite Hcs, map_app, concat_app. cbn [map concat]. fold P Q.
    rewrite insert_app_r_alt by (rewrite length_seg_header; lia). rewrite length_seg_header. f_equal.
    rewrite insert_app_r_alt by lia. f_equal. rewrite insert_app_l by lia.
    unfold B. do 2 f_equal. lia. }
  rewrite E. clear E. set (x' := P ++ B ++ Q).
  unfold DecodeSegment.
  assert (Hl : blen (seg_header 0 s ++ x') <? segHeaderSize = false).
  { apply Z.ltb_ge. change segHeaderSize with 52. rewrite blen_app. unfold blen at 1. rewrite length_seg_header.
    pose proof (blen_nonneg x'). lia. }
  rewrite Hl, seg_header_crc.
  rewrite (seg_field 0 s x' 0 0 4 SegmentMagic), (seg_field 0 s x' 1 4 2 SegmentFormatVersion),
    (seg_field 0 s x' 3 8 4 (seg_PageSize s)), (seg_field 0 s x' 4 12 4 (u32 (blen (Commits s))))
    by (done || apply u32_in_u || (simpl; lia)).
  rewrite !Z.eqb_refl. cbn [negb]. rewrite (proj2 (Z.eqb_neq _ _) Hps0).
  rewrite wrap_small by done. unfold blen at 1. rewrite Nat2Z.id. change segHeaderSize with 52.
  rewrite Hcs in Hc |- *. apply Forall_app in Hc as [Hpre Hc]. apply Forall_cons in Hc as [Hcc _].
  rewrite length_app. cbn [length].
  assert (H52 : blen (seg_header 0 s) = 52) by (unfold blen; by rewrite length_seg_header).
  rewrite decode_commits_app; [|unfold in_u in Hps; lia|done|].
  - cbn [decode_commits]. rewrite (decode_commit_changed _ (seg_PageSize s) _ _ c r x y); try done;
      [unfold in_u in Hps; lia|].
    fold P B. pose proof (blen_nonneg P). split; [lia|]. exists (seg_header 0 s ++ P), Q.
    split; [unfold x'; by rewrite <- !app_assoc|]. rewrite blen_app. lia.
  - fold P. split; [lia|]. by exists (seg_header 0 s), (B ++ Q).
Qed.

(** ** A concrete segment *)

Definition demo_segment : Segment :=
  MkSegment 2 3 9 (-5) 100
    [MkCommit 4 (-5) 2 [MkPageImage 0 [1; 2]; MkPageImage 1 [3; 4]]; MkCommit 9 100 2 []].

Lemma demo_segment_ok : seg_ok demo_segment.
Proof.
  unfold seg_ok, demo_segment, i64_ok. cbn. split_and!; try done; try (unfold in_u, blen; cbn; lia).
  repeat constructor; unfold i64_ok, byte_ok; cbn; try lia; done.
Qed.

Lemma segment_roundtrip_witness :
  DecodeSegment (Encode demo_segment) = inr demo_segment /\
  exists e, DecodeSegment (take 100 (Encode demo_segment)) = inl e.
Proof.
  destruct (segment_roundtrip demo_segment demo_segment_ok) as (H1 & _ & H3).
  split; [exact H1|]. apply H3. vm_compute. lia.
Defined.

(** A reserved flag set: accepted, and not what Encode writes. *)
Lemma segment_decodes_exactly_witness :
  DecodeSegment (encode_with 1 demo_segment) = inr demo_segment /\
  encode_with 1 demo_segment <> Encode demo_segment.
Proof.
  split; [|vm_compute; discriminate].
  apply (segment_decodes_exactly (encode_with 1 demo_segment) demo_segment).
  - apply encode_with_ok, demo_segment_ok.
  - split; [apply demo_segment_ok|]. exists 1. split; [split; lia|reflexivity].
Defined.

Lemma segment_damage_detected_witness :
  DecodeSegment (<[20%nat := 77]> (Encode demo_segment)) = inl SegHeaderChecksum.
Proof.
  assert (H77 : byte_ok 77) by (split; lia).
  assert (Hx : Encode demo_segment !! 20%nat = Some 0) by (vm_compute; reflexivity).
  destruct (segment_damage_detected demo_segment 0 77 demo_segment_ok H77 ltac:(lia)) as [H _].
  exact (H 20%nat ltac:(lia) Hx).
Defined.
