(* ===== verification/Float64.v ===== *)
(** * IEEE 754 binary64 as 64-bit words

    The parts of Go's float64 the source relies on: the exact value of a word,
    comparison, and the conversion of a signed integer with round to nearest
    even. Values are scaled by 2^1074, so every finite double is an integer. *)

From S2P Require Import Prelude.

(** ** Words *)

Definition f64_neg (b : Z) : bool := Z.testbit b 63.
Definition f64_abs (b : Z) : Z := b mod 2 ^ 63.
Definition f64_exp (b : Z) : Z := f64_abs b / 2 ^ 52.
Definition f64_man (b : Z) : Z := b mod 2 ^ 52.

Definition f64_isNaN (b : Z) : bool := (f64_exp b =? 2047) && negb (f64_man b =? 0).
Definition f64_isInf (b : Z) : bool := (f64_exp b =? 2047) && (f64_man b =? 0).

(** The magnitude of a word without its sign, times 2^1074; the infinities come
    out as the next power of two above every finite double. *)
Definition f64_mag (a : Z) : Z :=
  let e := a / 2 ^ 52 in
  let m := a mod 2 ^ 52 in
  if e =? 0 then m else (2 ^ 52 + m) * 2 ^ (e - 1).

Definition f64_val (b : Z) : Z := if f64_neg b then - f64_mag (f64_abs b) else f64_mag (f64_abs b).

(** a < b on float64. *)
Definition f64_lt (a b : Z) : bool :=
  negb (f64_isNaN a) && negb (f64_isNaN b) && (f64_val a <? f64_val b).

(** ** float64(i) for a 64-bit integer *)

(** The word of a positive magnitude below 2^64. *)
Definition f64_of_pos (n : Z) : Z :=
  let e := Z.log2 n in
  if e <=? 52 then (e + 1023) * 2 ^ 52 + (n * 2 ^ (52 - e) - 2 ^ 52)
  else
    let s := e - 52 in
    let q := n / 2 ^ s in
    let r := n mod 2 ^ s in
    let half := 2 ^ (s - 1) in
    let up := (half <? r) || ((r =? half) && Z.odd q) in
    (e + 1023) * 2 ^ 52 + (q - 2 ^ 52) + (if up then 1 else 0).

Definition f64_of_int (i : Z) : Z :=
  if i =? 0 then 0
  else if i <? 0 then 2 ^ 63 + f64_of_pos (- i) else f64_of_pos i.

Example f64_one : f64_of_int 1 = 0x3FF0000000000000.
Proof. reflexivity. Qed.

Example f64_minus_three : f64_of_int (-3) = 0xC008000000000000.
Proof. reflexivity. Qed.

Example f64_round_even : f64_of_int (2 ^ 53 + 1) = f64_of_int (2 ^ 53).
Proof. reflexivity. Qed.

Example f64_round_up : f64_of_int (2 ^ 63 - 1) = 0x43E0000000000000.
Proof. reflexivity. Qed.

(** ** Order of magnitudes *)

Lemma f64_mag_step a : 0 <= a -> f64_mag a < f64_mag (a + 1).
Proof.
  intros Ha. unfold f64_mag. change (2 ^ 52) with 4503599627370496.
  set (e := a / 4503599627370496). set (m := a mod 4503599627370496).
  assert (Hem : a = 4503599627370496 * e + m) by (unfold e, m; zlia).
  assert (Hm : 0 <= m < 4503599627370496) by (unfold m; zlia).
  assert (He : 0 <= e) by (unfold e; zlia).
  destruct (Z.eq_dec m 4503599627370495) as [Em|Em].
  - assert ((a + 1) / 4503599627370496 = e + 1) as -> by zlia.
    assert ((a + 1) mod 4503599627370496 = 0) as -> by zlia.
    rewrite (proj2 (Z.eqb_neq (e + 1) 0)) by lia. replace (e + 1 - 1) with e by lia.
    destruct (Z.eqb_spec e 0) as [->|Hne]; [rewrite Em; simpl; lia|].
    replace e with (e - 1 + 1) at 2 by lia. rewrite Z.pow_add_r by lia.
    assert (0 < 2 ^ (e - 1)) by (apply Z.pow_pos_nonneg; lia). nia.
  - assert ((a + 1) / 4503599627370496 = e) as -> by zlia.
    assert ((a + 1) mod 4503599627370496 = m + 1) as -> by zlia.
    destruct (Z.eqb_spec e 0); [lia|].
    assert (0 < 2 ^ (e - 1)) by (apply Z.pow_pos_nonneg; lia). nia.
Qed.

Lemma f64_mag_lt a b : 0 <= a < b -> f64_mag a < f64_mag b.
Proof.
  intros [Ha Hab]. replace b with (a + 1 + Z.of_nat (Z.to_nat (b - a - 1))) by lia.
  induction (Z.to_nat (b - a - 1)) as [|n IH].
  - rewrite Z.add_0_r. by apply f64_mag_step.
  - replace (a + 1 + Z.of_nat (S n)) with (a + 1 + Z.of_nat n + 1) by lia.
    etransitivity; [exact IH|]. apply f64_mag_step. lia.
Qed.

Lemma f64_mag_compare a b : 0 <= a -> 0 <= b -> (f64_mag a ?= f64_mag b) = (a ?= b).
Proof.
  intros Ha Hb. destruct (Z.compare_spec a b) as [->|H|H].
  - apply Z.compare_refl.
  - apply Z.compare_lt_iff. apply f64_mag_lt. lia.
  - apply Z.compare_gt_iff. apply f64_mag_lt. lia.
Qed.

Lemma f64_mag_lt_iff a b : 0 <= a -> 0 <= b -> f64_mag a < f64_mag b <-> a < b.
Proof. intros Ha Hb. unfold Z.lt. by rewrite f64_mag_compare. Qed.

Lemma f64_mag_0 : f64_mag 0 = 0.
Proof. reflexivity. Qed.

Lemma f64_mag_nonneg a : 0 <= a -> 0 <= f64_mag a.
Proof.
  intros Ha. destruct (Z.eq_dec a 0) as [->|]; [done|].
  pose proof (f64_mag_lt 0 a ltac:(lia)) as H. rewrite f64_mag_0 in H. lia.
Qed.

Lemma f64_abs_nonneg b : 0 <= f64_abs b.
Proof. unfold f64_abs. apply Z.mod_pos_bound. lia. Qed.

Lemma f64_neg_ltb b : in_u 64 b -> f64_neg b = (2 ^ 63 <=? b).
Proof.
  intros H. unfold f64_neg, in_u in *. change (2 ^ 64) with 18446744073709551616 in H.
  rewrite Z.testbit_eqb by lia. change (2 ^ 63) with 9223372036854775808.
  destruct (Z.leb_spec 9223372036854775808 b).
  - apply Z.eqb_eq. zlia.
  - apply Z.eqb_neq. zlia.
Qed.

(** ** The order of the words themselves *)

(** The total order of doubles that puts -0 just below 0: the position of a word
    among all words, from the most negative up. *)
Definition f64_rank (b : Z) : Z := if f64_neg b then - 1 - f64_abs b else f64_abs b.

Lemma f64_val_rank a b : f64_val a < f64_val b -> f64_rank a < f64_rank b.
Proof.
  unfold f64_val, f64_rank. pose proof (f64_abs_nonneg a). pose proof (f64_abs_nonneg b).
  pose proof (f64_mag_nonneg _ (f64_abs_nonneg a)). pose proof (f64_mag_nonneg _ (f64_abs_nonneg b)).
  destruct (f64_neg a), (f64_neg b); try lia; intros Hlt.
  - assert (H4 : f64_mag (f64_abs b) < f64_mag (f64_abs a)) by lia.
    rewrite f64_mag_lt_iff in H4 by done. lia.
  - by rewrite f64_mag_lt_iff in Hlt by done.
Qed.

(** Equal values have equal words, but for the two zeros. *)
Lemma f64_val_eq a b :
  in_u 64 a -> in_u 64 b -> f64_val a = f64_val b -> a = b \/ (f64_abs a = 0 /\ f64_abs b = 0).
Proof.
  intros Ha Hb. unfold f64_val.
  pose proof (f64_abs_nonneg a) as Ha0. pose proof (f64_abs_nonneg b) as Hb0.
  pose proof (f64_mag_nonneg _ Ha0). pose proof (f64_mag_nonneg _ Hb0).
  assert (Hz : forall x, 0 <= x -> f64_mag x = 0 -> x = 0).
  { intros x Hx Hm. destruct (Z.eq_dec x 0); [done|]. pose proof (f64_mag_lt 0 x ltac:(lia)) as Hl.
    rewrite f64_mag_0 in Hl. lia. }
  assert (Hinj : f64_mag (f64_abs a) = f64_mag (f64_abs b) -> f64_abs a = f64_abs b).
  { intros E. apply Z.compare_eq_iff in E. rewrite f64_mag_compare in E by done. by apply Z.compare_eq_iff. }
  assert (Hback : f64_neg a = f64_neg b -> f64_abs a = f64_abs b -> a = b).
  { rewrite !f64_neg_ltb by done. unfold f64_abs, in_u in *. change (2 ^ 64) with 18446744073709551616 in *.
    change (2 ^ 63) with 9223372036854775808 in *.
    destruct (Z.leb_spec 9223372036854775808 a), (Z.leb_spec 9223372036854775808 b); try done; intros _ E; zlia. }
  destruct (f64_neg a), (f64_neg b); intros E.
  - left. apply Hback; [done|]. apply Hinj. lia.
  - right. split; [apply Hz|apply Hz]; lia.
  - right. split; [apply Hz|apply Hz]; lia.
  - left. apply Hback; [done|]. by apply Hinj.
Qed.

(** ** Conversion of integers *)

Lemma log2_bounds n : 0 < n -> 2 ^ Z.log2 n <= n < 2 * 2 ^ Z.log2 n.
Proof.
  intros Hn. pose proof (Z.log2_spec n Hn) as H. pose proof (Z.log2_nonneg n).
  rewrite Z.pow_succ_r in H by lia. lia.
Qed.

(** A word below the infinities, from its exponent and its mantissa. *)
Lemma f64_mag_word e m :
  1 <= e -> 0 <= m < 2 ^ 52 -> f64_mag (e * 2 ^ 52 + m) = (2 ^ 52 + m) * 2 ^ (e - 1).
Proof.
  intros He Hm. unfold f64_mag. change (2 ^ 52) with 4503599627370496 in *.
  assert ((e * 4503599627370496 + m) / 4503599627370496 = e) as -> by zlia.
  assert ((e * 4503599627370496 + m) mod 4503599627370496 = m) as -> by zlia.
  by rewrite (proj2 (Z.eqb_neq e 0)) by lia.
Qed.

(** The scaled mantissa of a magnitude of at most 53 bits. *)
Lemma small_scaled n :
  0 < n -> Z.log2 n <= 52 -> 2 ^ 52 <= n * 2 ^ (52 - Z.log2 n) < 2 ^ 53.
Proof.
  intros Hn He. pose proof (log2_bounds n Hn) as [H1 H2]. pose proof (Z.log2_nonneg n).
  assert (E : 2 ^ Z.log2 n * 2 ^ (52 - Z.log2 n) = 2 ^ 52) by (rewrite <- Z.pow_add_r by lia; f_equal; lia).
  assert (0 < 2 ^ (52 - Z.log2 n)) by (apply Z.pow_pos_nonneg; lia).
  change (2 ^ 53) with (2 * 2 ^ 52). nia.
Qed.

(** Conversion is exact as long as the magnitude fits 53 bits. *)
Lemma f64_of_pos_exact n : 0 < n -> Z.log2 n <= 52 -> f64_mag (f64_of_pos n) = n * 2 ^ 1074.
Proof.
  intros Hn He. unfold f64_of_pos. rewrite (proj2 (Z.leb_le _ _)) by done.
  pose proof (small_scaled n Hn He) as Hs. pose proof (Z.log2_nonneg n).
  change (2 ^ 53) with (2 ^ 52 + 2 ^ 52) in Hs.
  rewrite f64_mag_word by lia.
  replace (2 ^ 52 + (n * 2 ^ (52 - Z.log2 n) - 2 ^ 52)) with (n * 2 ^ (52 - Z.log2 n)) by lia.
  rewrite <- Z.mul_assoc, <- Z.pow_add_r by lia. f_equal. f_equal. lia.
Qed.

(** The rounded quotient of a magnitude of more than 53 bits. *)
Lemma big_quot n :
  0 < n -> 52 < Z.log2 n -> 2 ^ 52 <= n / 2 ^ (Z.log2 n - 52) < 2 ^ 53.
Proof.
  intros Hn He. pose proof (log2_bounds n Hn) as [H1 H2].
  set (s := Z.log2 n - 52) in *. assert (Hs : 0 < 2 ^ s) by (apply Z.pow_pos_nonneg; lia).
  assert (E : 2 ^ Z.log2 n = 2 ^ 52 * 2 ^ s) by (rewrite <- Z.pow_add_r by lia; f_equal; lia).
  split.
  - apply Z.div_le_lower_bound; [done|]. lia.
  - apply Z.div_lt_upper_bound; [done|]. change (2 ^ 53) with (2 * 2 ^ 52). lia.
Qed.

(** Where the word of n lies: at its exponent, at most at the next one. *)
Lemma f64_of_pos_range n :
  0 < n -> (Z.log2 n + 1023) * 2 ^ 52 <= f64_of_pos n <= (Z.log2 n + 1024) * 2 ^ 52.
Proof.
  intros Hn. unfold f64_of_pos. destruct (Z.leb_spec (Z.log2 n) 52) as [He|He].
  - pose proof (small_scaled n Hn He). change (2 ^ 53) with (2 * 2 ^ 52) in *. lia.
  - pose proof (big_quot n Hn He). change (2 ^ 53) with (2 * 2 ^ 52) in *. cbv zeta.
    destruct (_ || _); lia.
Qed.

Lemma f64_of_pos_mono a b : 0 < a <= b -> f64_of_pos a <= f64_of_pos b.
Proof.
  intros [Ha Hab]. pose proof (Z.log2_le_mono a b Hab) as Hl.
  destruct (Z.eq_dec (Z.log2 a) (Z.log2 b)) as [E|Hne].
  2: { pose proof (f64_of_pos_range a Ha). pose proof (f64_of_pos_range b ltac:(lia)). nia. }
  unfold f64_of_pos. rewrite <- E. destruct (Z.leb_spec (Z.log2 a) 52) as [He|He].
  { assert (0 < 2 ^ (52 - Z.log2 a)) by (apply Z.pow_pos_nonneg; lia). nia. }
  cbv zeta. set (s := Z.log2 a - 52). assert (Hs : 0 < 2 ^ s) by (apply Z.pow_pos_nonneg; lia).
  pose proof (Z.div_le_mono a b (2 ^ s) Hs Hab) as Hq.
  destruct (Z.eq_dec (a / 2 ^ s) (b / 2 ^ s)) as [Eq|Hqne]; [|destruct (_ || _), (_ || _); lia].
  assert (Hr : a mod 2 ^ s <= b mod 2 ^ s) by (rewrite !Z.mod_eq, Eq by lia; lia).
  rewrite Eq. destruct (Z.ltb_spec (2 ^ (s - 1)) (a mod 2 ^ s)), (Z.ltb_spec (2 ^ (s - 1)) (b mod 2 ^ s)),
    (Z.eqb_spec (a mod 2 ^ s) (2 ^ (s - 1))), (Z.eqb_spec (b mod 2 ^ s) (2 ^ (s - 1)));
    cbn [orb andb]; try lia; destruct (Z.odd (b / 2 ^ s)); lia.
Qed.

Definition int64 (i : Z) : Prop := - 2 ^ 63 <= i < 2 ^ 63.

Lemma f64_of_pos_bound n : 0 < n -> n <= 2 ^ 63 -> 0 < f64_of_pos n < 2 ^ 63.
Proof.
  intros Hn Hb. pose proof (f64_of_pos_range n Hn) as [H1 H2]. pose proof (Z.log2_nonneg n).
  pose proof (Z.log2_le_mono n (2 ^ 63) Hb) as Hl. rewrite Z.log2_pow2 in Hl by lia.
  change (2 ^ 63) with (2048 * 2 ^ 52). assert (0 < 2 ^ 52) by lia. nia.
Qed.

Lemma f64_of_int_u64 i : int64 i -> in_u 64 (f64_of_int i).
Proof.
  unfold int64, in_u, f64_of_int. intros H. destruct (Z.eqb_spec i 0); [lia|].
  destruct (Z.ltb_spec i 0).
  - pose proof (f64_of_pos_bound (- i)). lia.
  - pose proof (f64_of_pos_bound i). lia.
Qed.

Lemma f64_of_int_rank i : int64 i ->
  f64_rank (f64_of_int i) = if i =? 0 then 0 else if i <? 0 then - 1 - f64_of_pos (- i) else f64_of_pos i.
Proof.
  intros H. pose proof (f64_of_int_u64 i H) as Hu. unfold f64_rank. rewrite f64_neg_ltb by done.
  unfold f64_of_int, f64_abs, int64 in *. destruct (Z.eqb_spec i 0); [done|].
  destruct (Z.ltb_spec i 0).
  - pose proof (f64_of_pos_bound (- i) ltac:(lia) ltac:(lia)). rewrite (proj2 (Z.leb_le _ _)) by lia.
    rewrite <- Zplus_mod_idemp_l, Z_mod_same_full. rewrite Z.mod_small by lia. done.
  - pose proof (f64_of_pos_bound i ltac:(lia) ltac:(lia)). rewrite (proj2 (Z.leb_gt _ _)) by lia.
    by rewrite Z.mod_small by lia.
Qed.

(** Conversion never reverses two integers. *)
Lemma f64_of_int_mono i j : int64 i -> int64 j -> i <= j -> f64_rank (f64_of_int i) <= f64_rank (f64_of_int j).
Proof.
  intros Hi Hj Hij. rewrite !f64_of_int_rank by done. unfold int64 in *.
  destruct (Z.eqb_spec i 0), (Z.eqb_spec j 0), (Z.ltb_spec i 0), (Z.ltb_spec j 0); try lia;
    try (pose proof (f64_of_pos_bound (- i)); lia); try (pose proof (f64_of_pos_bound j); lia).
  - pose proof (f64_of_pos_mono (- j) (- i)). lia.
  - pose proof (f64_of_pos_bound (- i)). pose proof (f64_of_pos_bound j). lia.
  - pose proof (f64_of_pos_mono i j). lia.
Qed.

(** Integers of at most 53 bits keep their value. *)
Lemma f64_of_int_exact i : - 2 ^ 53 < i < 2 ^ 53 -> f64_val (f64_of_int i) = i * 2 ^ 1074.
Proof.
  intros H. assert (Hi : int64 i) by (unfold int64; lia).
  pose proof (f64_of_int_u64 i Hi) as Hu. unfold f64_val. rewrite f64_neg_ltb by done.
  assert (Hlog : forall n, 0 < n < 2 ^ 53 -> Z.log2 n <= 52).
  { intros n Hn. assert (Z.log2 n < 53); [|lia]. apply Z.log2_lt_pow2; lia. }
  unfold f64_of_int, f64_abs in *. destruct (Z.eqb_spec i 0) as [->|]; [done|].
  destruct (Z.ltb_spec i 0).
  - pose proof (f64_of_pos_bound (- i) ltac:(lia) ltac:(lia)). rewrite (proj2 (Z.leb_le _ _)) by lia.
    rewrite <- Zplus_mod_idemp_l, Z_mod_same_full, Z.add_0_l. rewrite Z.mod_small by lia.
    rewrite f64_of_pos_exact by (try apply Hlog; lia). lia.
  - pose proof (f64_of_pos_bound i ltac:(lia) ltac:(lia)). rewrite (proj2 (Z.leb_gt _ _)) by lia.
    rewrite Z.mod_small by lia. apply f64_of_pos_exact; [lia|]. apply Hlog. lia.
Qed.
