(* ===== verification/Bson.v ===== *)
(** * bson: types, values, reader, builder, identities

    bson/types.go, bson.go, value.go, reader.go, builder.go and id.go over byte
    strings: a document is its bytes, a value is a type byte and its payload, a
    double is its 64 bits. What the reader and the builder promise each other,
    what validation accepts, and what identity normalisation does. *)

From S2P Require Import Prelude.

(** ** Types *)

Definition TypeDouble : Z := 0x01.
Definition TypeString : Z := 0x02.
Definition TypeDocument : Z := 0x03.
Definition TypeArray : Z := 0x04.
Definition TypeBinary : Z := 0x05.
Definition TypeUndefined : Z := 0x06.
Definition TypeObjectID : Z := 0x07.
Definition TypeBoolean : Z := 0x08.
Definition TypeDateTime : Z := 0x09.
Definition TypeNull : Z := 0x0A.
Definition TypeRegex : Z := 0x0B.
Definition TypeDBPointer : Z := 0x0C.
Definition TypeJavaScript : Z := 0x0D.
Definition TypeSymbol : Z := 0x0E.
Definition TypeCodeWithScope : Z := 0x0F.
Definition TypeInt32 : Z := 0x10.
Definition TypeTimestamp : Z := 0x11.
Definition TypeInt64 : Z := 0x12.
Definition TypeDecimal128 : Z := 0x13.
Definition TypeMinKey : Z := 0xFF.
Definition TypeMaxKey : Z := 0x7F.

(** A switch case that lists several values. *)
Definition one_of (t : Z) (ts : list Z) : bool := existsb (Z.eqb t) ts.

Definition IsNumeric (t : Z) : bool := one_of t [TypeDouble; TypeInt32; TypeInt64; TypeDecimal128].

(** ** Errors and documents *)

Inductive bsonErr : Type :=
| ErrTooShort | ErrLengthMismatch | ErrMalformed | ErrInvalidUTF8 | ErrEmbeddedNUL | ErrTooDeep
| ErrTooLarge | ErrInvalidIDType.

Definition MinDocLen : Z := 5.
Definition MaxDepth : Z := 100.
Definition MaxDocSize : Z := 16 * 1024 * 1024.

(** Raw.Len reads the prefix; it panics on fewer than four bytes. *)
Definition Raw_Len {E} (r : bytes) : res E Z := let* b := rd 0 4 r in Ok (le_val b).

Definition Empty : bytes := [5; 0; 0; 0; 0].

(** ** Values *)

Record RawValue := MkRawValue { rv_Type : Z; rv_Data : bytes }.

#[global] Instance RawValue_eq_dec : EqDecision RawValue.
Proof. solve_decision. Defined.

Definition to_i32 (x : Z) : Z := if x <? 2 ^ 31 then x else x - 2 ^ 32.

(** The little-endian integer at the front of the payload. *)
Definition pay (n : nat) (v : RawValue) : Z := le_val (sub 0 n (rv_Data v)).

(** math.Float64frombits(...): a double is its 64 bits. *)
Definition DoubleOK (v : RawValue) : Z * bool :=
  if negb (rv_Type v =? TypeDouble) || (blen (rv_Data v) <? 8) then (0, false) else (pay 8 v, true).

Definition Int32OK (v : RawValue) : Z * bool :=
  if negb (rv_Type v =? TypeInt32) || (blen (rv_Data v) <? 4) then (0, false) else (to_i32 (pay 4 v), true).

Definition Int64OK (v : RawValue) : Z * bool :=
  if negb (rv_Type v =? TypeInt64) || (blen (rv_Data v) <? 8) then (0, false) else (to_i64 (pay 8 v), true).

Definition Double (v : RawValue) : Z := (DoubleOK v).1.
Definition Int32 (v : RawValue) : Z := (Int32OK v).1.
Definition Int64 (v : RawValue) : Z := (Int64OK v).1.

Definition DateTime (v : RawValue) : Z :=
  if negb (rv_Type v =? TypeDateTime) || (blen (rv_Data v) <? 8) then 0 else to_i64 (pay 8 v).

Definition Timestamp (v : RawValue) : Z :=
  if negb (rv_Type v =? TypeTimestamp) || (blen (rv_Data v) <? 8) then 0 else pay 8 v.

Definition Boolean (v : RawValue) : bool :=
  (rv_Type v =? TypeBoolean) && (blen (rv_Data v) >=? 1) && negb (nth 0 (rv_Data v) 0 =? 0).

Definition StringValueOK (v : RawValue) : bytes * bool :=
  if negb (one_of (rv_Type v) [TypeString; TypeSymbol; TypeJavaScript]) then ([], false)
  else if blen (rv_Data v) <? 4 then ([], false)
  else
    let n := pay 4 v in
    if (n <? 1) || (4 + n >? blen (rv_Data v)) then ([], false)
    else (sub 4 (Z.to_nat (n - 1)) (rv_Data v), true).

Definition StringValue (v : RawValue) : bytes := (StringValueOK v).1.

Definition ObjectID (v : RawValue) : bytes :=
  if (rv_Type v =? TypeObjectID) && (blen (rv_Data v) >=? 12) then sub 0 12 (rv_Data v) else replicate 12 0.

Definition Binary (v : RawValue) : option (Z * bytes) :=
  if negb (rv_Type v =? TypeBinary) || (blen (rv_Data v) <? 5) then None
  else
    let n := pay 4 v in
    if (n <? 0) || (5 + n >? blen (rv_Data v)) then None
    else Some (nth 4 (rv_Data v) 0, sub 5 (Z.to_nat n) (rv_Data v)).

Definition Decimal128 (v : RawValue) : bytes :=
  if (rv_Type v =? TypeDecimal128) && (blen (rv_Data v) >=? 16) then sub 0 16 (rv_Data v) else replicate 16 0.

(** nil and the empty slice are both the empty list: the callers only look at
    the length. *)
Definition Document (v : RawValue) : bytes :=
  if one_of (rv_Type v) [TypeDocument; TypeArray] && (blen (rv_Data v) >=? MinDocLen) then rv_Data v else [].

(** The index of the first NUL at or after off. *)
Fixpoint find_nul (b : bytes) : option nat :=
  match b with
  | [] => None
  | c :: b' => if c =? 0 then Some 0%nat else S <$> find_nul b'
  end.

Definition cstrEnd (b : bytes) (off : nat) : option nat := Nat.add off <$> find_nul (drop off b).

Definition Regex (v : RawValue) : option (bytes * bytes) :=
  if negb (rv_Type v =? TypeRegex) then None
  else
    match cstrEnd (rv_Data v) 0 with
    | None => None
    | Some i =>
        match cstrEnd (rv_Data v) (i + 1) with
        | None => None
        | Some j => Some (take i (rv_Data v), sub (i + 1) (j - (i + 1)) (rv_Data v))
        end
    end.

(** ** The reader *)

Record Element := MkElement { Key : bytes; Value : RawValue }.

Definition need (b : bytes) (n : Z) : bsonErr + Z := if blen b <? n then inl ErrMalformed else inr n.

Definition scanValue (b : bytes) (t : Z) : bsonErr + Z :=
  let n := le_val (sub 0 4 b) in
  if one_of t [TypeDouble; TypeDateTime; TypeTimestamp; TypeInt64] then need b 8
  else if t =? TypeInt32 then need b 4
  else if t =? TypeObjectID then need b 12
  else if t =? TypeBoolean then need b 1
  else if t =? TypeDecimal128 then need b 16
  else if one_of t [TypeNull; TypeUndefined; TypeMinKey; TypeMaxKey] then inr 0
  else if one_of t [TypeString; TypeJavaScript; TypeSymbol] then
    if blen b <? 4 then inl ErrMalformed
    else if (n <? 1) || (4 + n >? blen b) || negb (nth (Z.to_nat (4 + n - 1)) b 0 =? 0) then inl ErrMalformed
    else inr (4 + n)
  else if one_of t [TypeDocument; TypeArray] then
    if blen b <? 4 then inl ErrMalformed
    else if (n <? MinDocLen) || (n >? blen b) || negb (nth (Z.to_nat (n - 1)) b 0 =? 0) then inl ErrMalformed
    else inr n
  else if t =? TypeBinary then
    if blen b <? 5 then inl ErrMalformed
    else if (n <? 0) || (5 + n >? blen b) then inl ErrMalformed
    else inr (5 + n)
  else if t =? TypeRegex then
    match cstrEnd b 0 with
    | None => inl ErrMalformed
    | Some i => match cstrEnd b (i + 1) with
                | None => inl ErrMalformed
                | Some j => inr (Z.of_nat j + 1)
                end
    end
  else if t =? TypeDBPointer then
    if blen b <? 4 then inl ErrMalformed
    else if (n <? 1) || (4 + n + 12 >? blen b) then inl ErrMalformed
    else inr (4 + n + 12)
  else if t =? TypeCodeWithScope then
    if blen b <? 4 then inl ErrMalformed
    else if (n <? 4) || (n >? blen b) then inl ErrMalformed
    else inr n
  else inl ErrMalformed.

(** The element at the front of the rest of the document b = r[off:]: its key,
    its value and what follows. *)
Definition next_element (b : bytes) (t : Z) : bsonErr + (Element * bytes) :=
  match cstrEnd b 1 with
  | None => inl ErrMalformed
  | Some ke =>
      let rest := drop (ke + 1) b in
      match scanValue rest t with
      | inl e => inl e
      | inr n => inr (MkElement (sub 1 (ke - 1) b) (MkRawValue t (take (Z.to_nat n) rest)),
                      drop (Z.to_nat n) rest)
      end
  end.

(** The loop of Elements from the rest b of the document on. Every element takes
    a byte at least, so the length of b is fuel enough. *)
Fixpoint elements_loop (fuel : nat) (b : bytes) : bsonErr + list Element :=
  match fuel with
  | O => inl ErrMalformed
  | S fuel' =>
      match b with
      | [] => inl ErrMalformed
      | t :: _ =>
          if t =? 0 then if blen b =? 1 then inr [] else inl ErrMalformed
          else
            match next_element b t with
            | inl e => inl e
            | inr (e, b') =>
                match elements_loop fuel' b' with
                | inl err => inl err
                | inr es => inr (e :: es)
                end
            end
      end
  end.

Definition Elements (r : bytes) : bsonErr + list Element :=
  if blen r <? MinDocLen then inl ErrTooShort
  else if negb (le_val (sub 0 4 r) =? blen r) then inl ErrLengthMismatch
  else elements_loop (S (length r)) (drop 4 r).

Fixpoint lookup_loop (fuel : nat) (key b : bytes) : option RawValue :=
  match fuel with
  | O => None
  | S fuel' =>
      match b with
      | [] => None
      | t :: _ =>
          if t =? 0 then None
          else
            match next_element b t with
            | inl _ => None
            | inr (e, b') =>
                if bool_decide (Key e = key) then Some (Value e) else lookup_loop fuel' key b'
            end
      end
  end.

Definition Lookup (r key : bytes) : option RawValue :=
  if (blen r <? MinDocLen) || negb (le_val (sub 0 4 r) =? blen r) then None
  else lookup_loop (S (length r)) key (drop 4 r).

Definition WellFormed (r : bytes) : option bsonErr :=
  if blen r <? MinDocLen then Some ErrTooShort
  else if negb (le_val (sub 0 4 r) =? blen r) then Some ErrLengthMismatch
  else if negb (nth (length r - 1) r 0 =? 0) then Some ErrLengthMismatch
  else None.

(** unicode/utf8.Valid: the well-formed UTF-8 byte sequences, no surrogates, no
    overlong forms, nothing above U+10FFFF. *)
Definition cont (b : Z) : bool := (0x80 <=? b) && (b <=? 0xBF).
Definition between (lo b hi : Z) : bool := (lo <=? b) && (b <=? hi).

Fixpoint utf8_valid (fuel : nat) (b : bytes) : bool :=
  match fuel with
  | O => true
  | S fuel' =>
      match b with
      | [] => true
      | c0 :: r0 =>
          if c0 <? 0x80 then utf8_valid fuel' r0
          else
            match r0 with
            | [] => false
            | c1 :: r1 =>
                if between 0xC2 c0 0xDF then cont c1 && utf8_valid fuel' r1
                else
                  match r1 with
                  | [] => false
                  | c2 :: r2 =>
                      if between 0xE0 c0 0xEF then
                        between (if c0 =? 0xE0 then 0xA0 else 0x80) c1 (if c0 =? 0xED then 0x9F else 0xBF) &&
                        cont c2 && utf8_valid fuel' r2
                      else
                        match r2 with
                        | [] => false
                        | c3 :: r3 =>
                            between 0xF0 c0 0xF4 &&
                            between (if c0 =? 0xF0 then 0x90 else 0x80) c1 (if c0 =? 0xF4 then 0x8F else 0xBF) &&
                            cont c2 && cont c3 && utf8_valid fuel' r3
                        end
                  end
            end
      end
  end.

Definition utf8_Valid (b : bytes) : bool := utf8_valid (length b) b.

(** What validateDoc checks of one element: its name, then its value. *)
Definition check_string (s : bytes) : option bsonErr :=
  if negb (utf8_Valid s) then Some ErrInvalidUTF8
  else if existsb (Z.eqb 0) s then Some ErrEmbeddedNUL else None.

Section validate.
Context (nested : bytes -> option bsonErr).

Definition validate_value (v : RawValue) : option bsonErr :=
  if one_of (rv_Type v) [TypeString; TypeJavaScript; TypeSymbol] then
    check_string (sub 4 (Z.to_nat (pay 4 v - 1)) (rv_Data v))
  else if one_of (rv_Type v) [TypeDocument; TypeArray] then nested (rv_Data v)
  else None.

Fixpoint validate_loop (fuel : nat) (b : bytes) : option bsonErr :=
  match fuel with
  | O => Some ErrMalformed
  | S fuel' =>
      match b with
      | [] => Some ErrMalformed
      | t :: _ =>
          if t =? 0 then if blen b =? 1 then None else Some ErrMalformed
          else
            match cstrEnd b 1 with
            | None => Some ErrMalformed
            | Some ke =>
                if negb (utf8_Valid (sub 1 (ke - 1) b)) then Some ErrInvalidUTF8
                else
                  match next_element b t with
                  | inl e => Some e
                  | inr (e, b') =>
                      match validate_value (Value e) with
                      | Some err => Some err
                      | None => validate_loop fuel' b'
                      end
                  end
            end
      end
  end.
End validate.

(** validateDoc(b, depth) with levels = MaxDepth + 1 - depth. *)
Fixpoint validateDoc (levels : nat) (b : bytes) : option bsonErr :=
  match levels with
  | O => Some ErrTooDeep
  | S levels' =>
      if (blen b <? MinDocLen) || negb (le_val (sub 0 4 b) =? blen b) || negb (nth (length b - 1) b 0 =? 0)
      then Some ErrMalformed
      else validate_loop (validateDoc levels') (S (length b)) (drop 4 b)
  end.

Definition Validate (r : bytes) : option bsonErr :=
  match WellFormed r with
  | Some e => Some e
  | None => if blen r >? MaxDocSize then Some ErrTooLarge else validateDoc (Z.to_nat MaxDepth) r
  end.

(** ** The builder *)

(** A Builder is its body; every method returns the extended body. *)
Definition elem (t : Z) (key : bytes) (body : bytes) : bytes := body ++ [t] ++ key ++ [0].

Definition AppendValue (key : bytes) (v : RawValue) (body : bytes) : bytes :=
  elem (rv_Type v) key body ++ rv_Data v.

Definition AppendDouble (key : bytes) (bits : Z) (body : bytes) : bytes := elem TypeDouble key body ++ le_bytes 8 bits.
Definition AppendString (key v : bytes) (body : bytes) : bytes :=
  elem TypeString key body ++ le_bytes 4 (u32 (blen v + 1)) ++ v ++ [0].
Definition AppendInt32 (key : bytes) (v : Z) (body : bytes) : bytes := elem TypeInt32 key body ++ le_bytes 4 (u32 v).
Definition AppendInt64 (key : bytes) (v : Z) (body : bytes) : bytes := elem TypeInt64 key body ++ le_bytes 8 (u64 v).
Definition AppendObjectID (key v : bytes) (body : bytes) : bytes := elem TypeObjectID key body ++ v.
Definition AppendBoolean (key : bytes) (v : bool) (body : bytes) : bytes :=
  elem TypeBoolean key body ++ [if v then 1 else 0].
Definition AppendDateTime (key : bytes) (v : Z) (body : bytes) : bytes := elem TypeDateTime key body ++ le_bytes 8 (u64 v).
Definition AppendTimestamp (key : bytes) (v : Z) (body : bytes) : bytes := elem TypeTimestamp key body ++ le_bytes 8 v.
Definition AppendNull (key : bytes) (body : bytes) : bytes := elem TypeNull key body.
Definition AppendBinary (key : bytes) (subtype : Z) (data : bytes) (body : bytes) : bytes :=
  elem TypeBinary key body ++ le_bytes 4 (u32 (blen data)) ++ [subtype] ++ data.
Definition AppendDocument (key doc : bytes) (body : bytes) : bytes := elem TypeDocument key body ++ doc.
Definition AppendArray (key arr : bytes) (body : bytes) : bytes := elem TypeArray key body ++ arr.

Definition Build (body : bytes) : bytes :=
  let total := 4 + blen body + 1 in le_bytes 4 (u32 total) ++ body ++ [0].

(** Decimal digits, most significant first; a byte per digit. *)
Fixpoint digits (fuel : nat) (n : Z) (acc : bytes) : bytes :=
  match fuel with
  | O => acc
  | S fuel' => if n >? 0 then digits fuel' (n / 10) ((48 + n mod 10) :: acc) else acc
  end.

Definition itoa (n : Z) : bytes := if n =? 0 then [48] else digits 20 n [].

Fixpoint build_array (i : Z) (vals : list RawValue) (body : bytes) : bytes :=
  match vals with
  | [] => body
  | v :: vs => build_array (i + 1) vs (AppendValue (itoa i) v body)
  end.

Definition BuildArray (vals : list RawValue) : bytes := Build (build_array 0 vals []).

(** ** Identities *)

Definition idField : bytes := [95; 105; 100].

Definition ValidIDType (t : Z) : bool :=
  one_of t [TypeDouble; TypeString; TypeBinary; TypeObjectID; TypeBoolean; TypeDateTime; TypeInt32;
            TypeTimestamp; TypeInt64; TypeDecimal128; TypeDocument].

(** Re-emitting elements as they are. *)
Definition append_all (es : list Element) (body : bytes) : bytes :=
  fold_left (fun b e => AppendValue (Key e) (Value e) b) es body.

Fixpoint find_id (es : list Element) : option nat :=
  match es with
  | [] => None
  | e :: es' => if bool_decide (Key e = idField) then Some 0%nat else S <$> find_id es'
  end.

(** newID is the identifier the generator hands out when it is asked. *)
Definition EnsureID (d : bytes) (newID : bytes) : bsonErr + (bytes * RawValue) :=
  match Validate d with
  | Some e => inl e
  | None =>
      match Elements d with
      | inl e => inl e
      | inr elems =>
          match find_id elems with
          | None =>
              let out := Build (append_all elems (AppendObjectID idField newID [])) in
              inr (out, default (MkRawValue 0 []) (Lookup out idField))
          | Some i =>
              let v := Value (nth i elems (MkElement [] (MkRawValue 0 []))) in
              if negb (ValidIDType (rv_Type v)) then inl ErrInvalidIDType
              else if (i =? 0)%nat then inr (d, default (MkRawValue 0 []) (Lookup d idField))
              else
                let out := Build (append_all (take i elems ++ drop (S i) elems) (AppendValue idField v [])) in
                inr (out, default (MkRawValue 0 []) (Lookup out idField))
          end
      end
  end.

Definition IDOf (d : bytes) : option RawValue := Lookup d idField.

(** ** Lemmas: cstrings *)

Lemma find_nul_app_nul k r : ~ 0 ∈ k -> find_nul (k ++ 0 :: r) = Some (length k).
Proof.
  induction k as [|c k IH]; intros Hk; [done|]. cbn [app find_nul length].
  rewrite not_elem_of_cons in Hk. destruct Hk as [Hc Hk].
  rewrite (proj2 (Z.eqb_neq _ _)) by congruence. by rewrite IH.
Qed.

Lemma find_nul_Some b i : find_nul b = Some i -> b = take i b ++ 0 :: drop (S i) b /\ ~ 0 ∈ take i b /\ (i < length b)%nat.
Proof.
  revert i. induction b as [|c b IH]; intros i; [done|]. cbn [find_nul].
  destruct (Z.eqb_spec c 0) as [->|Hc].
  - intros [= <-]. cbn. split_and!; [done|apply not_elem_of_nil|lia].
  - intros H. apply fmap_Some in H as (j & Hj & ->). apply IH in Hj as (E & Hn & Hl).
    cbn [take drop app length]. split_and!; [by rewrite <- E| |lia].
    rewrite not_elem_of_cons. split; [congruence|done].
Qed.

Lemma find_nul_prefix b i r : find_nul b = Some i -> forall n, (i < n)%nat -> find_nul (take n b ++ r) = Some i.
Proof.
  intros H n Hn. apply find_nul_Some in H as (E & Hz & Hl).
  rewrite E, take_app_ge, length_take_le by (rewrite ?length_take_le; lia).
  replace (n - i)%nat with (S (n - i - 1)) by lia. cbn [take]. rewrite <- app_assoc. cbn [app].
  rewrite find_nul_app_nul by done. by rewrite length_take_le by lia.
Qed.

Lemma find_nul_drop b m n r i :
  find_nul (drop m b) = Some i -> (m + i < n)%nat -> find_nul (drop m (take n b ++ r)) = Some i.
Proof.
  intros H Hn. pose proof (find_nul_Some _ _ H) as (_ & _ & Hl). rewrite length_drop in Hl.
  rewrite drop_app_le by (rewrite length_take; lia).
  rewrite skipn_firstn_comm. apply find_nul_prefix; [done|lia].
Qed.

Lemma cstrEnd_prefix b m n r i :
  cstrEnd b m = Some i -> (i < n)%nat -> cstrEnd (take n b ++ r) m = Some i.
Proof.
  unfold cstrEnd. intros H Hn. apply fmap_Some in H as (j & Hj & ->).
  by rewrite (find_nul_drop b m n r j Hj Hn).
Qed.

Lemma cstrEnd_bound b m i : cstrEnd b m = Some i -> (m <= i < length b)%nat.
Proof.
  unfold cstrEnd. intros H. apply fmap_Some in H as (j & Hj & ->).
  apply find_nul_Some in Hj as (_ & _ & Hl). rewrite length_drop in Hl. lia.
Qed.

(** ** Lemmas: value sizes *)

Lemma orb_false_split a b : a || b = false <-> a = false /\ b = false.
Proof. apply orb_false_iff. Qed.

(** A size read from the front of b only depends on that many bytes. *)
Lemma scanValue_prefix b t n r :
  bytes_ok b -> scanValue b t = inr n ->
  0 <= n <= blen b /\ scanValue (take (Z.to_nat n) b ++ r) t = inr n.
Proof.
  intros Hb. unfold scanValue.
  set (b' := take (Z.to_nat n) b ++ r).
  assert (Hlen : 0 <= n <= blen b -> n <= blen b') by (intros; unfold b', blen in *; rewrite length_app, length_take; lia).
  assert (Hsub : 4 <= n <= blen b -> sub 0 4 b' = sub 0 4 b).
  { intros Hn. unfold b'. rewrite sub_app_l by (rewrite length_take; unfold blen in *; lia).
    apply sub_ext. intros i Hi. rewrite lookup_take_lt by lia. done. }
  assert (Hnth : forall k, 0 <= k < n -> n <= blen b -> nth (Z.to_nat k) b' 0 = nth (Z.to_nat k) b 0).
  { intros k Hk Hn. rewrite !nth_lookup. unfold b'. rewrite lookup_app_l by (rewrite length_take; unfold blen in *; lia).
    by rewrite lookup_take_lt by lia. }
  assert (Hneed : forall m, need b m = inr n -> 0 <= m -> 0 <= n <= blen b /\ need b' m = inr n).
  { intros m. unfold need. destruct (Z.ltb_spec (blen b) m); [done|]. intros [= <-] Hm.
    rewrite (proj2 (Z.ltb_ge _ _)) by (apply Hlen; lia). done. }
  assert (Hv : 0 <= le_val (sub 0 4 b)).
  { pose proof (le_val_bound _ (sub_Forall _ 0 4 b Hb)) as H. unfold in_u in H. lia. }
  set (v := le_val (sub 0 4 b)) in *.
  assert (Hv' : 4 <= n <= blen b -> le_val (sub 0 4 b') = v) by (intros; by rewrite Hsub).
  assert (Hlt : forall m, m <= n -> n <= blen b -> 0 <= m -> blen b' <? m = false)
    by (intros; apply Z.ltb_ge; transitivity n; [done|apply Hlen; lia]).
  repeat match goal with |- context [if ?c then _ else _] =>
    lazymatch c with context [t] => destruct c eqn:?; [try (intros Hx; apply Hneed in Hx; [exact Hx|lia])|] end end; try done.
  - intros [= <-]. split; [unfold blen; lia|done].
  - destruct (Z.ltb_spec (blen b) 4); [done|]. destruct (_ || _ || _) eqn:E; [done|]. intros [= En].
    rewrite !orb_false_iff in E. destruct E as [[E1 E2] E3].
    apply Z.ltb_ge in E1. rewrite Z.gtb_ltb in E2. apply Z.ltb_ge in E2. subst n. split; [lia|].
    rewrite Hv', Hlt, Hnth, E3, Z.gtb_ltb by lia.
    rewrite (proj2 (Z.ltb_ge v 1)), (proj2 (Z.ltb_ge (blen b') (4 + v))) by (done || apply Hlen; lia). done.
  - destruct (Z.ltb_spec (blen b) 4); [done|]. destruct (_ || _ || _) eqn:E; [done|]. intros [= En].
    rewrite !orb_false_iff in E. destruct E as [[E1 E2] E3].
    apply Z.ltb_ge in E1. rewrite Z.gtb_ltb in E2. apply Z.ltb_ge in E2. subst n. unfold MinDocLen in *. split; [lia|].
    rewrite Hv', Hlt, Hnth, E3, Z.gtb_ltb by lia.
    rewrite (proj2 (Z.ltb_ge v 5)), (proj2 (Z.ltb_ge (blen b') v)) by (done || apply Hlen; lia). done.
  - destruct (Z.ltb_spec (blen b) 5); [done|]. destruct (_ || _) eqn:E; [done|]. intros [= En].
    rewrite !orb_false_iff in E. destruct E as [E1 E2].
    apply Z.ltb_ge in E1. rewrite Z.gtb_ltb in E2. apply Z.ltb_ge in E2. subst n. split; [lia|].
    rewrite Hv', Hlt, Z.gtb_ltb by lia.
    rewrite (proj2 (Z.ltb_ge v 0)), (proj2 (Z.ltb_ge (blen b') (5 + v))) by (done || apply Hlen; lia). done.
  - destruct (cstrEnd b 0) as [i|] eqn:Ei; [|done]. destruct (cstrEnd b (i + 1)) as [j|] eqn:Ej; [|done].
    intros [= <-]. pose proof (cstrEnd_bound _ _ _ Ej). split; [unfold blen; lia|].
    unfold b'. rewrite (cstrEnd_prefix b 0 _ r i Ei) by lia. by rewrite (cstrEnd_prefix b (i + 1) _ r j Ej) by lia.
  - destruct (Z.ltb_spec (blen b) 4); [done|]. destruct (_ || _) eqn:E; [done|]. intros [= En].
    rewrite !orb_false_iff in E. destruct E as [E1 E2].
    apply Z.ltb_ge in E1. rewrite Z.gtb_ltb in E2. apply Z.ltb_ge in E2. subst n. split; [lia|].
    rewrite Hv', Hlt, Z.gtb_ltb by lia.
    rewrite (proj2 (Z.ltb_ge v 1)), (proj2 (Z.ltb_ge (blen b') (4 + v + 12))) by (done || apply Hlen; lia). done.
  - destruct (Z.ltb_spec (blen b) 4); [done|]. destruct (_ || _) eqn:E; [done|]. intros [= En].
    rewrite !orb_false_iff in E. destruct E as [E1 E2].
    apply Z.ltb_ge in E1. rewrite Z.gtb_ltb in E2. apply Z.ltb_ge in E2. subst n. split; [lia|].
    rewrite Hv', Hlt, Z.gtb_ltb by lia.
    rewrite (proj2 (Z.ltb_ge v 4)), (proj2 (Z.ltb_ge (blen b') v)) by (done || apply Hlen; lia). done.
Qed.

(** ** Documents as lists of elements *)

(** A value whose payload is exactly as long as its type says. *)
Definition value_ok (v : RawValue) : Prop :=
  rv_Type v <> 0 /\ byte_ok (rv_Type v) /\ bytes_ok (rv_Data v) /\
  scanValue (rv_Data v) (rv_Type v) = inr (blen (rv_Data v)).

Definition elem_ok (e : Element) : Prop := bytes_ok (Key e) /\ ~ 0 ∈ Key e /\ value_ok (Value e).

Definition enc_elem (e : Element) : bytes := rv_Type (Value e) :: Key e ++ 0 :: rv_Data (Value e).

(** The body of a document: its elements one after the other. *)
Definition enc_elems (es : list Element) : bytes := concat (map enc_elem es).

Lemma scanValue_ok v r : value_ok v -> scanValue (rv_Data v ++ r) (rv_Type v) = inr (blen (rv_Data v)).
Proof.
  intros (_ & _ & Hb & Hs). pose proof (scanValue_prefix _ _ _ r Hb Hs) as [_ H].
  unfold blen in H. by rewrite Nat2Z.id, take_ge in H by lia.
Qed.

Lemma next_element_enc e b :
  elem_ok e -> next_element (enc_elem e ++ b) (rv_Type (Value e)) = inr (e, b).
Proof.
  intros (Hk & Hz & Hv).
  assert (E : enc_elem e ++ b = rv_Type (Value e) :: Key e ++ 0 :: rv_Data (Value e) ++ b)
    by (unfold enc_elem; cbn [app]; by rewrite <- app_assoc).
  rewrite E. unfold next_element, cstrEnd. cbn [drop]. rewrite drop_0,
    find_nul_app_nul by done. cbn [fmap option_fmap option_map Nat.add].
  cbn [Nat.add drop]. rewrite (Nat.add_1_r (length (Key e))).
  assert (Hd : drop (S (length (Key e))) (Key e ++ 0 :: rv_Data (Value e) ++ b) = rv_Data (Value e) ++ b).
  { rewrite drop_app_ge by lia. by replace (S (length (Key e)) - length (Key e))%nat with 1%nat by lia. }
  rewrite Hd, scanValue_ok by done. unfold blen. rewrite Nat2Z.id, take_app_length, drop_app_length.
  unfold sub. cbn [drop]. rewrite drop_0, Nat.sub_succ, Nat.sub_0_r, take_app_length. by destruct e as [? []].
Qed.

Lemma next_element_inv b t e b' :
  bytes_ok b -> head b = Some t -> t <> 0 -> next_element b t = inr (e, b') ->
  elem_ok e /\ rv_Type (Value e) = t /\ b = enc_elem e ++ b' /\ (length b' < length b)%nat.
Proof.
  intros Hb Ht Ht0. destruct b as [|t' b]; [done|]. injection Ht as ->. apply Forall_cons in Hb as [Htb Hb].
  unfold next_element, cstrEnd. cbn [drop]. rewrite drop_0. destruct (find_nul b) as [i|] eqn:Ei; [|done].
  cbn [fmap option_fmap option_map Nat.add]. cbn [Nat.add drop]. rewrite (Nat.add_1_r i).
  apply find_nul_Some in Ei as (E & Hz & Hi).
  destruct (scanValue (drop (S i) b) t) as [|n] eqn:Es; [done|]. intros [= <- <-].
  assert (Hbd : bytes_ok (drop (S i) b)) by by apply Forall_drop.
  pose proof (scanValue_prefix _ _ _ [] Hbd Es) as [Hn Hs]. rewrite app_nil_r in Hs.
  assert (Hl : blen (take (Z.to_nat n) (drop (S i) b)) = n) by (unfold blen in *; rewrite length_take; lia).
  split_and!.
  - unfold elem_ok, value_ok. cbn [Key Value rv_Type rv_Data]. unfold sub. cbn [drop].
    rewrite drop_0, Nat.sub_0_r, Hl. split_and!; try done; by apply Forall_take.
  - done.
  - unfold enc_elem. cbn [Key Value rv_Type rv_Data]. unfold sub. cbn [drop app].
    rewrite drop_0, Nat.sub_0_r, <- app_assoc. cbn [app]. rewrite take_drop. by rewrite <- E.
  - cbn [length]. rewrite !length_drop. lia.
Qed.

Lemma elements_loop_enc es : forall fuel,
  Forall elem_ok es -> (length es < fuel)%nat -> elements_loop fuel (enc_elems es ++ [0]) = inr es.
Proof.
  induction es as [|e es IH]; intros [|fuel] He Hf; try (simpl in Hf; lia); [done|].
  apply Forall_cons in He as [He Hes]. unfold enc_elems. cbn [map concat elements_loop].
  assert (Hh : enc_elem e ++ enc_elems es ++ [0] = rv_Type (Value e) :: (Key e ++ 0 :: rv_Data (Value e)) ++ enc_elems es ++ [0])
    by done.
  rewrite <- app_assoc. fold (enc_elems es). rewrite Hh, <- Hh.
  rewrite (proj2 (Z.eqb_neq _ _)) by apply He. rewrite next_element_enc by done.
  rewrite IH by (done || (simpl in Hf; lia)). done.
Qed.

Lemma elements_loop_inv fuel : forall b es,
  bytes_ok b -> elements_loop fuel b = inr es -> Forall elem_ok es /\ b = enc_elems es ++ [0].
Proof.
  induction fuel as [|fuel IH]; intros b es Hb; cbn [elements_loop]; [done|].
  destruct b as [|t b]; [done|]. destruct (Z.eqb_spec t 0) as [->|Ht].
  { destruct (Z.eqb_spec (blen (0 :: b)) 1) as [Hl|]; [|done]. intros [= <-].
    assert (b = []) as -> by (destruct b; [done|unfold blen in Hl; cbn [length] in Hl; lia]). done. }
  destruct (next_element (t :: b) t) as [|[e b']] eqn:En; [done|].
  destruct (elements_loop fuel b') as [|es'] eqn:El; [done|]. intros [= <-].
  apply next_element_inv in En as (He & _ & E & _); [|done..].
  assert (Hb' : bytes_ok b') by (rewrite E in Hb; by apply Forall_app in Hb as [_ Hb]).
  apply IH in El as [Hes ->]; [|done]. split; [by constructor|].
  rewrite E. unfold enc_elems. cbn [map concat]. by rewrite <- app_assoc.
Qed.

Lemma length_enc_elems es : (length es <= length (enc_elems es))%nat.
Proof.
  unfold enc_elems. induction es as [|e es IH]; cbn [map concat length]; [lia|].
  rewrite length_app. unfold enc_elem at 1. cbn [length]. lia.
Qed.

Lemma blen_Build body : blen (Build body) = 5 + blen body.
Proof. unfold Build, blen. rewrite !length_app, length_le_bytes. simpl. lia. Qed.

Lemma Build_prefix body : in_u 32 (5 + blen body) -> le_val (sub 0 4 (Build body)) = blen (Build body).
Proof.
  intros H. rewrite blen_Build. unfold Build. cbn zeta. replace (4 + blen body + 1) with (5 + blen body) by lia.
  rewrite wrap_small, sub_app_l by (done || by rewrite length_le_bytes).
  rewrite <- (length_le_bytes 4 (5 + blen body)) at 1. rewrite sub_full. by apply le_val_le_bytes.
Qed.

Lemma Build_rest body : drop 4 (Build body) = body ++ [0].
Proof. unfold Build. by rewrite drop_app_length' by by rewrite length_le_bytes. Qed.

Lemma Build_framed body :
  in_u 32 (5 + blen body) ->
  (blen (Build body) <? MinDocLen) = false /\ (le_val (sub 0 4 (Build body)) =? blen (Build body)) = true.
Proof.
  intros H. rewrite Build_prefix by done. rewrite Z.eqb_refl, blen_Build. split; [|done].
  apply Z.ltb_ge. unfold MinDocLen, blen. lia.
Qed.

(** The document of a list of elements. *)
Definition doc_of (es : list Element) : bytes := Build (enc_elems es).

Definition doc_fits (es : list Element) : Prop := in_u 32 (5 + blen (enc_elems es)).

Lemma Elements_doc_of es : Forall elem_ok es -> doc_fits es -> Elements (doc_of es) = inr es.
Proof.
  intros He Hf. unfold Elements, doc_of. destruct (Build_framed _ Hf) as [-> ->]. cbn [negb].
  rewrite Build_rest. apply elements_loop_enc; [done|].
  pose proof (length_enc_elems es). pose proof (blen_Build (enc_elems es)). unfold blen in *. lia.
Qed.

Lemma Elements_inv r es :
  bytes_ok r -> Elements r = inr es -> Forall elem_ok es /\ doc_fits es /\ r = doc_of es.
Proof.
  intros Hb. unfold Elements. destruct (Z.ltb_spec (blen r) MinDocLen); [done|].
  destruct (Z.eqb_spec (le_val (sub 0 4 r)) (blen r)) as [El|]; [|done]. cbn [negb].
  intros H1. apply elements_loop_inv in H1 as [He Ed]; [|by apply Forall_drop].
  assert (Hl : blen r = 5 + blen (enc_elems es)).
  { apply (f_equal length) in Ed. rewrite length_drop, length_app in Ed. unfold MinDocLen, blen in *. simpl in Ed. lia. }
  pose proof (le_val_bound _ (sub_Forall _ 0 4 r Hb)) as Hu.
  assert (Hl4 : length (sub 0 4 r) = 4%nat) by (apply length_sub; unfold MinDocLen, blen in *; lia).
  unfold blen in Hu at 1. rewrite Hl4, El, Hl in Hu. split_and!; [done|exact Hu|].
  unfold doc_of, Build. rewrite <- Ed. cbn zeta.
  replace (4 + blen (enc_elems es) + 1) with (5 + blen (enc_elems es)) by lia.
  rewrite wrap_small by exact Hu. rewrite <- Hl, <- El.
  assert (Hs : bytes_ok (sub 0 4 r)) by by apply sub_Forall.
  rewrite <- Hl4 at 1. rewrite le_bytes_le_val by done. unfold sub. rewrite drop_0. by rewrite take_drop.
Qed.

Lemma lookup_loop_enc key es : forall fuel,
  Forall elem_ok es -> (length es < fuel)%nat ->
  lookup_loop fuel key (enc_elems es ++ [0]) = Value <$> List.find (fun e => bool_decide (Key e = key)) es.
Proof.
  induction es as [|e es IH]; intros [|fuel] He Hf; try (simpl in Hf; lia); [done|].
  apply Forall_cons in He as [He Hes]. unfold enc_elems. cbn [map concat lookup_loop].
  assert (Hh : enc_elem e ++ enc_elems es ++ [0] = rv_Type (Value e) :: (Key e ++ 0 :: rv_Data (Value e)) ++ enc_elems es ++ [0])
    by done.
  rewrite <- app_assoc. fold (enc_elems es). rewrite Hh, <- Hh.
  rewrite (proj2 (Z.eqb_neq _ _)) by apply He. rewrite next_element_enc by done. cbn [List.find].
  destruct (bool_decide (Key e = key)); [done|]. apply IH; [done|simpl in Hf; lia].
Qed.

Lemma Lookup_doc_of key es :
  Forall elem_ok es -> doc_fits es ->
  Lookup (doc_of es) key = Value <$> List.find (fun e => bool_decide (Key e = key)) es.
Proof.
  intros He Hf. unfold Lookup, doc_of. destruct (Build_framed _ Hf) as [-> ->]. cbn [negb orb].
  rewrite Build_rest. apply lookup_loop_enc; [done|].
  pose proof (length_enc_elems es). pose proof (blen_Build (enc_elems es)). unfold blen in *. lia.
Qed.

(** ** Lemmas: the builder *)

Lemma AppendValue_enc e body : AppendValue (Key e) (Value e) body = body ++ enc_elem e.
Proof. unfold AppendValue, elem, enc_elem. by rewrite <- !app_assoc. Qed.

Lemma append_all_enc es body : append_all es body = body ++ enc_elems es.
Proof.
  unfold append_all, enc_elems. revert body. induction es as [|e es IH]; intros body; cbn [fold_left map concat].
  - by rewrite app_nil_r.
  - by rewrite IH, AppendValue_enc, <- app_assoc.
Qed.

Lemma append_all_nil es : Build (append_all es []) = doc_of es.
Proof. by rewrite append_all_enc. Qed.

Lemma enc_elems_app es es' : enc_elems (es ++ es') = enc_elems es ++ enc_elems es'.
Proof. unfold enc_elems. by rewrite map_app, concat_app. Qed.

Lemma enc_elems_perm es es' : es ≡ₚ es' -> blen (enc_elems es) = blen (enc_elems es').
Proof.
  unfold blen. intros H. f_equal. induction H; unfold enc_elems in *; cbn [map concat]; rewrite ?length_app in *; lia.
Qed.

Lemma doc_fits_perm es es' : es ≡ₚ es' -> doc_fits es -> doc_fits es'.
Proof. unfold doc_fits. intros H. by rewrite (enc_elems_perm _ _ H). Qed.

Lemma doc_of_ok es : Forall elem_ok es -> bytes_ok (doc_of es).
Proof.
  intros He. unfold doc_of, Build, bytes_ok. apply Forall_app_2; [apply bytes_ok_le|].
  apply Forall_app_2; [|repeat constructor; lia]. apply Forall_concat, Forall_map.
  eapply Forall_impl; [exact He|]. intros e (Hk & _ & _ & Ht & Hd & _). unfold enc_elem.
  constructor; [done|]. apply Forall_app_2; [done|]. constructor; [unfold byte_ok; lia|done].
Qed.

Lemma doc_of_last es : (nth (length (doc_of es) - 1) (doc_of es) 0 =? 0) = true.
Proof.
  apply Z.eqb_eq. unfold doc_of, Build. rewrite app_assoc, length_app. cbn [length].
  rewrite nth_lookup, lookup_app_r by lia. by replace (_ - _)%nat with 0%nat by lia.
Qed.

(** ** Validation against its specification *)

(** A document of at most n levels: framed, every element whole, names and
    strings valid UTF-8, no NUL in a string, nested documents of fewer levels. *)
Inductive valid_doc : nat -> bytes -> Prop :=
| VDoc n es :
    Forall elem_ok es -> doc_fits es ->
    (forall e, e ∈ es -> utf8_Valid (Key e) = true) ->
    (forall e, e ∈ es -> one_of (rv_Type (Value e)) [TypeString; TypeJavaScript; TypeSymbol] = true ->
       check_string (sub 4 (Z.to_nat (pay 4 (Value e) - 1)) (rv_Data (Value e))) = None) ->
    (forall e, e ∈ es -> one_of (rv_Type (Value e)) [TypeDocument; TypeArray] = true ->
       valid_doc n (rv_Data (Value e))) ->
    valid_doc (S n) (doc_of es).

Lemma cstrEnd_enc e b : elem_ok e -> cstrEnd (enc_elem e ++ b) 1 = Some (S (length (Key e))).
Proof.
  intros (_ & Hz & _).
  assert (E : enc_elem e ++ b = rv_Type (Value e) :: Key e ++ 0 :: rv_Data (Value e) ++ b)
    by (unfold enc_elem; cbn [app]; by rewrite <- app_assoc).
  rewrite E. unfold cstrEnd. cbn [drop]. by rewrite drop_0, find_nul_app_nul.
Qed.

Lemma key_enc e b : sub 1 (S (length (Key e)) - 1) (enc_elem e ++ b) = Key e.
Proof.
  unfold sub, enc_elem. cbn [app drop]. rewrite drop_0, Nat.sub_succ, Nat.sub_0_r, <- app_assoc.
  apply take_app_length.
Qed.

(** The loop over the encoding of es accepts exactly when every element is
    accepted. *)
Lemma validate_loop_enc nested es : forall fuel,
  Forall elem_ok es -> (length es < fuel)%nat ->
  validate_loop nested fuel (enc_elems es ++ [0]) = None <->
  forall e, e ∈ es -> utf8_Valid (Key e) = true /\ validate_value nested (Value e) = None.
Proof.
  induction es as [|e es IH]; intros [|fuel] He Hf; try (simpl in Hf; lia).
  { split; [|done]. intros _ e He'. by apply elem_of_nil in He'. }
  apply Forall_cons in He as [He Hes]. unfold enc_elems. cbn [map concat validate_loop].
  assert (Hh : enc_elem e ++ enc_elems es ++ [0] = rv_Type (Value e) :: (Key e ++ 0 :: rv_Data (Value e)) ++ enc_elems es ++ [0])
    by done.
  rewrite <- app_assoc. fold (enc_elems es). rewrite Hh, <- Hh.
  rewrite (proj2 (Z.eqb_neq _ _)) by apply He.
  rewrite cstrEnd_enc, key_enc, next_element_enc by done.
  assert (Hiff : (forall e', e' ∈ e :: es -> utf8_Valid (Key e') = true /\ validate_value nested (Value e') = None) <->
    (utf8_Valid (Key e) = true /\ validate_value nested (Value e) = None) /\
    validate_loop nested fuel (enc_elems es ++ [0]) = None).
  { rewrite IH by (done || (simpl in Hf; lia)). setoid_rewrite elem_of_cons. naive_solver. }
  rewrite Hiff. destruct (utf8_Valid (Key e)); cbn [negb]; [|naive_solver].
  destruct (validate_value nested (Value e)); naive_solver.
Qed.

(** What the loop accepts is the encoding of a list of elements. *)
Lemma validate_loop_inv nested fuel : forall b,
  bytes_ok b -> validate_loop nested fuel b = None -> exists es, Forall elem_ok es /\ b = enc_elems es ++ [0].
Proof.
  induction fuel as [|fuel IH]; intros b Hb; cbn [validate_loop]; [done|].
  destruct b as [|t b]; [done|]. destruct (Z.eqb_spec t 0) as [->|Ht].
  { destruct (Z.eqb_spec (blen (0 :: b)) 1) as [Hl|]; [|done]. intros _. exists [].
    assert (b = []) as -> by (destruct b; [done|unfold blen in Hl; cbn [length] in Hl; lia]). done. }
  destruct (cstrEnd (t :: b) 1); [|done]. destruct (negb _); [done|].
  destruct (next_element (t :: b) t) as [|[e b']] eqn:En; [done|].
  destruct (validate_value nested (Value e)); [done|]. intros Hv.
  apply next_element_inv in En as (He & _ & E & _); [|done..].
  assert (Hb' : bytes_ok b') by (rewrite E in Hb; by apply Forall_app in Hb as [_ Hb]).
  apply IH in Hv as (es & Hes & ->); [|done]. exists (e :: es). split; [by constructor|].
  rewrite E. unfold enc_elems. cbn [map concat]. by rewrite <- app_assoc.
Qed.

Lemma one_of_true t ts : one_of t ts = true <-> t ∈ ts.
Proof.
  unfold one_of. rewrite existsb_exists. setoid_rewrite Z.eqb_eq. rewrite list_elem_of_In. naive_solver.
Qed.

Lemma string_not_doc t :
  one_of t [TypeString; TypeJavaScript; TypeSymbol] = true -> one_of t [TypeDocument; TypeArray] = false.
Proof.
  rewrite one_of_true, !elem_of_cons, elem_of_nil. intros H. by destruct H as [->|[->|[->|[]]]].
Qed.

Lemma valid_doc_inv n b :
  valid_doc n b -> exists n' es, n = S n' /\ b = doc_of es /\ Forall elem_ok es /\ doc_fits es /\
    (forall e, e ∈ es -> utf8_Valid (Key e) = true) /\
    (forall e, e ∈ es -> one_of (rv_Type (Value e)) [TypeString; TypeJavaScript; TypeSymbol] = true ->
       check_string (sub 4 (Z.to_nat (pay 4 (Value e) - 1)) (rv_Data (Value e))) = None) /\
    (forall e, e ∈ es -> one_of (rv_Type (Value e)) [TypeDocument; TypeArray] = true ->
       valid_doc n' (rv_Data (Value e))).
Proof. intros H. destruct H as [n' es]. by exists n', es. Qed.

Lemma validateDoc_spec n : forall b, bytes_ok b -> validateDoc n b = None <-> valid_doc n b.
Proof.
  induction n as [|n IH]; intros b Hb; [split; [done|intros H; by apply valid_doc_inv in H as (? & ? & ? & _)]|].
  assert (Hloop : forall es, Forall elem_ok es -> doc_fits es ->
    validateDoc (S n) (doc_of es) = None <->
    forall e, e ∈ es -> utf8_Valid (Key e) = true /\ validate_value (validateDoc n) (Value e) = None).
  { intros es He Hf. cbn [validateDoc]. unfold doc_of at 1 2 3. destruct (Build_framed _ Hf) as [-> ->].
    rewrite doc_of_last. cbn [negb orb]. unfold doc_of at 2. rewrite Build_rest. apply validate_loop_enc; [done|].
    pose proof (length_enc_elems es). pose proof (blen_Build (enc_elems es)). unfold doc_of, blen in *. lia. }
  assert (Hval : forall es, Forall elem_ok es -> forall e, e ∈ es -> validate_value (validateDoc n) (Value e) = None <->
    (one_of (rv_Type (Value e)) [TypeString; TypeJavaScript; TypeSymbol] = true ->
       check_string (sub 4 (Z.to_nat (pay 4 (Value e) - 1)) (rv_Data (Value e))) = None) /\
    (one_of (rv_Type (Value e)) [TypeDocument; TypeArray] = true -> valid_doc n (rv_Data (Value e)))).
  { intros es He e Hin. rewrite Forall_forall in He. pose proof (He e Hin) as (_ & _ & _ & _ & Hd & _).
    unfold validate_value. rewrite <- IH by done. destruct (one_of _ [TypeString; _; _]) eqn:Es.
    - rewrite (string_not_doc _ Es). naive_solver.
    - destruct (one_of _ [TypeDocument; _]); naive_solver. }
  split.
  - cbn [validateDoc]. destruct (_ || _ || _) eqn:E; [done|]. rewrite !orb_false_iff in E.
    destruct E as [[E1 E2] _]. intros Hv. pose proof Hv as Hv'.
    apply validate_loop_inv in Hv' as (es & He & Ed); [|by apply Forall_drop].
    assert (HE : Elements b = inr es).
    { unfold Elements. rewrite E1, E2. cbn [negb]. rewrite Ed. apply elements_loop_enc; [done|].
      pose proof (length_enc_elems es). apply (f_equal length) in Ed. rewrite length_drop, length_app in Ed.
      simpl in Ed. lia. }
    apply Elements_inv in HE as (_ & Hf & ->); [|done]. rewrite Ed in Hv.
    assert (Hlen : (length es < S (length (doc_of es)))%nat).
    { pose proof (length_enc_elems es). pose proof (blen_Build (enc_elems es)). unfold doc_of, blen in *. lia. }
    pose proof (proj1 (validate_loop_enc _ es _ He Hlen) Hv) as Hv'. clear Hv. rename Hv' into Hv.
    constructor; try done; [naive_solver| |]; intros e He'; apply (Hval es He e He'); naive_solver.
  - intros Hv. apply valid_doc_inv in Hv as (n' & es & [= <-] & -> & He & Hf & Hk & Hs & Hd). apply Hloop; try done.
    intros e Hin. split; [auto|]. apply (Hval es He e Hin). auto.
Qed.

Definition valid_elem (n : nat) (e : Element) : Prop :=
  utf8_Valid (Key e) = true /\
  (one_of (rv_Type (Value e)) [TypeString; TypeJavaScript; TypeSymbol] = true ->
     check_string (sub 4 (Z.to_nat (pay 4 (Value e) - 1)) (rv_Data (Value e))) = None) /\
  (one_of (rv_Type (Value e)) [TypeDocument; TypeArray] = true -> valid_doc n (rv_Data (Value e))).

Lemma doc_of_inj es es' :
  Forall elem_ok es -> Forall elem_ok es' -> doc_fits es -> doc_fits es' -> doc_of es = doc_of es' -> es = es'.
Proof.
  intros H1 H2 H3 H4 E. pose proof (Elements_doc_of es H1 H3) as E1. rewrite E, Elements_doc_of in E1 by done.
  congruence.
Qed.

Lemma valid_doc_of n es :
  Forall elem_ok es -> doc_fits es -> valid_doc (S n) (doc_of es) <-> Forall (valid_elem n) es.
Proof.
  intros He Hf. rewrite Forall_forall. split.
  - intros H. apply valid_doc_inv in H as (n' & es' & [= <-] & E & He' & Hf' & Hk & Hs & Hd).
    apply doc_of_inj in E as ->; try done. intros e Hin. split_and!; auto.
  - intros H. constructor; try done; intros e Hin; by apply H.
Qed.

Lemma WellFormed_doc_of es : doc_fits es -> WellFormed (doc_of es) = None.
Proof.
  intros Hf. unfold WellFormed. unfold doc_of at 1 2 3. destruct (Build_framed _ Hf) as [-> ->]. cbn [negb].
  by rewrite doc_of_last.
Qed.

(** Validation accepts a document exactly when it is small enough and valid to
    the depth limit. *)
Lemma Validate_doc_of es :
  Forall elem_ok es -> doc_fits es ->
  Validate (doc_of es) = None <-> blen (doc_of es) <= MaxDocSize /\ Forall (valid_elem 99) es.
Proof.
  intros He Hf. unfold Validate. rewrite WellFormed_doc_of, Z.gtb_ltb by done.
  destruct (Z.ltb_spec MaxDocSize (blen (doc_of es))); [split; [done|intros [? _]; lia]|].
  change (Z.to_nat MaxDepth) with 100%nat.
  rewrite validateDoc_spec, valid_doc_of by (done || by apply doc_of_ok). split; [done|by intros [_ ?]].
Qed.

Lemma Validate_inv r :
  bytes_ok r -> Validate r = None ->
  exists es, Elements r = inr es /\ Forall elem_ok es /\ doc_fits es /\ r = doc_of es /\
    blen r <= MaxDocSize /\ Forall (valid_elem 99) es.
Proof.
  intros Hb HV. assert (Hv : valid_doc 100 r /\ blen r <= MaxDocSize).
  { unfold Validate in HV. destruct (WellFormed r); [done|]. rewrite Z.gtb_ltb in HV.
    destruct (Z.ltb_spec MaxDocSize (blen r)); [done|]. split; [|lia].
    apply validateDoc_spec; [done|exact HV]. }
  destruct Hv as [Hv Hl]. pose proof Hv as Hv'.
  apply valid_doc_inv in Hv' as (n & es & [= <-] & -> & He & Hf & _). exists es.
  split_and!; try done; [by apply Elements_doc_of|]. by apply valid_doc_of.
Qed.

Lemma find_id_spec es :
  match find_id es with
  | None => Forall (fun e => Key e <> idField) es
  | Some i => exists e, es !! i = Some e /\ Key e = idField /\ Forall (fun e => Key e <> idField) (take i es)
  end.
Proof.
  induction es as [|e es IH]; cbn [find_id]; [constructor|].
  destruct (bool_decide_reflect (Key e = idField)) as [Hk|Hk]; [exists e; by repeat constructor|].
  destruct (find_id es) as [i|]; cbn [fmap option_fmap option_map].
  - destruct IH as (e' & H1 & H2 & H3). exists e'. split_and!; [done|done|]. cbn [take]. by constructor.
  - by constructor.
Qed.

(** The elements a stored document has: the identity first. *)
Definition with_id (v : RawValue) (rest : list Element) : list Element := MkElement idField v :: rest.

Lemma IDOf_with_id v rest :
  Forall elem_ok (with_id v rest) -> doc_fits (with_id v rest) -> Lookup (doc_of (with_id v rest)) idField = Some v.
Proof. intros He Hf. rewrite Lookup_doc_of by done. cbn [List.find with_id Key]. by rewrite bool_decide_eq_true_2. Qed.

Lemma idField_ok : bytes_ok idField /\ ~ 0 ∈ idField /\ utf8_Valid idField = true.
Proof.
  split_and!; [repeat constructor; lia| |reflexivity].
  unfold idField. rewrite !elem_of_cons, elem_of_nil. lia.
Qed.

Lemma new_id_ok newID : bytes_ok newID -> length newID = 12%nat -> value_ok (MkRawValue TypeObjectID newID).
Proof.
  intros Hb Hl. unfold value_ok, byte_ok. cbn [rv_Type rv_Data]. split_and!; try done.
  unfold scanValue, need, blen. rewrite Hl. reflexivity.
Qed.

Lemma doc_fits_new_id newID es :
  length newID = 12%nat -> blen (doc_of es) <= MaxDocSize ->
  doc_fits (with_id (MkRawValue TypeObjectID newID) es).
Proof.
  intros Hl HV. unfold doc_fits. unfold doc_of in HV. rewrite blen_Build in HV.
  unfold with_id, enc_elems. cbn [map concat]. fold (enc_elems es). rewrite (eq_refl : blen (_ ++ _) = Z.of_nat _).
  rewrite length_app. unfold enc_elem. cbn [Key Value rv_Data length]. rewrite length_app. cbn [length].
  rewrite Hl. unfold MaxDocSize, blen in HV. unfold in_u. simpl (length idField). lia.
Qed.

(** The result of EnsureID on a document, by cases on where its identity is. *)
Lemma EnsureID_cases es newID :
  Forall elem_ok es -> doc_fits es -> Validate (doc_of es) = None -> bytes_ok newID -> length newID = 12%nat ->
  EnsureID (doc_of es) newID =
  match find_id es with
  | None => let v := MkRawValue TypeObjectID newID in inr (doc_of (with_id v es), v)
  | Some i =>
      let v := Value (nth i es (MkElement [] (MkRawValue 0 []))) in
      if ValidIDType (rv_Type v) then inr (doc_of (with_id v (take i es ++ drop (S i) es)), v)
      else inl ErrInvalidIDType
  end.
Proof.
  intros He Hf HV Hb Hl. unfold EnsureID. rewrite HV, Elements_doc_of by done.
  pose proof (find_id_spec es) as Hid. destruct idField_ok as (Hi1 & Hi2 & _).
  destruct (find_id es) as [i|].
  - destruct Hid as (e & Hi & Hk & _). rewrite (nth_lookup_Some es i _ e) by done.
    assert (Hoe : elem_ok e) by (by eapply Forall_lookup_1).
    destruct (ValidIDType (rv_Type (Value e))); [|done]. cbn [negb].
    assert (Hperm : es ≡ₚ with_id (Value e) (take i es ++ drop (S i) es)).
    { unfold with_id. rewrite <- Hk. assert (MkElement (Key e) (Value e) = e) as -> by by destruct e.
      rewrite <- (take_drop_middle es i e Hi) at 1. by rewrite <- Permutation_middle. }
    assert (He' : Forall elem_ok (with_id (Value e) (take i es ++ drop (S i) es))) by by rewrite <- Hperm.
    assert (Hf' := doc_fits_perm _ _ Hperm Hf).
    destruct (Nat.eqb_spec i 0) as [->|Hne].
    + destruct es as [|e0 es]; [done|]. injection Hi as ->. cbn [take drop app] in *. rewrite drop_0 in *.
      assert (E : with_id (Value e) es = e :: es) by (unfold with_id; rewrite <- Hk; by destruct e).
      rewrite E in *. rewrite <- E, IDOf_with_id by (by rewrite E). done.
    + cbn zeta. assert (E : Build (append_all (take i es ++ drop (S i) es) (AppendValue idField (Value e) [])) =
        doc_of (with_id (Value e) (take i es ++ drop (S i) es))).
      { rewrite append_all_enc. pose proof (AppendValue_enc (MkElement idField (Value e)) []) as EA.
        cbn [Key Value] in EA. by rewrite EA. }
      rewrite E, IDOf_with_id by done. done.
  - cbn zeta. set (v := MkRawValue TypeObjectID newID).
    assert (E : Build (append_all es (AppendObjectID idField newID [])) = doc_of (with_id v es)).
    { rewrite append_all_enc. change (AppendObjectID idField newID []) with (AppendValue idField v []).
      pose proof (AppendValue_enc (MkElement idField v) []) as EA. cbn [Key Value] in EA. by rewrite EA. }
    rewrite E, IDOf_with_id; [done| |].
    + constructor; [|done]. unfold elem_ok. split_and!; [done..|]. by apply new_id_ok.
    + apply Validate_doc_of in HV as [HV _]; [|done..]. by apply doc_fits_new_id.
Qed.

(** ** Properties *)

(** C36. Documents and lists of elements determine each other. Reading a byte
    string gives the elements es exactly when es is well formed, fits a 32-bit
    length, and the byte string is what the builder builds from es, so building
    and reading are inverse both ways and there is one encoding per document;
    and looking a key up returns the first element of that key. *)
Theorem bson_document_roundtrip r es :
  bytes_ok r ->
  (Elements r = inr es <-> Forall elem_ok es /\ doc_fits es /\ r = Build (append_all es [])) /\
  (Elements r = inr es -> forall key,
     Lookup r key = Value <$> List.find (fun e => bool_decide (Key e = key)) es).
Proof.
  intros Hb. rewrite append_all_nil. split.
  - split; [by apply Elements_inv|]. intros (He & Hf & ->). by apply Elements_doc_of.
  - intros E key. apply Elements_inv in E as (He & Hf & ->); [|done]. by apply Lookup_doc_of.
Qed.

(** C37. Validation accepts exactly the valid documents: at most 16 MiB, elements
    whose lengths fill the document to its terminator, names and strings in
    UTF-8, no NUL inside a string, and nested documents and arrays valid down to
    a hundred levels. *)
Theorem bson_validate_exact r :
  bytes_ok r -> Validate r = None <-> blen r <= MaxDocSize /\ valid_doc 100 r.
Proof.
  intros Hb. split.
  - intros HV. pose proof (Validate_inv r Hb HV) as (es & _ & He & Hf & -> & Hl & Hv). split; [done|].
    by apply valid_doc_of.
  - intros [Hl Hv]. pose proof Hv as Hv'. apply valid_doc_inv in Hv' as (n & es & [= <-] & -> & He & Hf & _).
    apply Validate_doc_of; [done..|]. split; [done|]. by apply valid_doc_of.
Qed.

(** Identity normalisation. A valid document comes back with its identity
    first and every other element as it was and in order: the first _id it has,
    if its type may be an identity, and a fresh one otherwise; an _id of another
    type is refused. The identity returned is the one the document holds, the
    result is again valid unless the fresh identity pushed it over the size
    limit, and normalising it again changes nothing. *)
Theorem ensure_id_normalises d newID :
  bytes_ok d -> Validate d = None -> bytes_ok newID -> length newID = 12%nat ->
  exists es, Elements d = inr es /\
    match EnsureID d newID with
    | inl e =>
        e = ErrInvalidIDType /\
        exists i el, es !! i = Some el /\ Key el = idField /\ ValidIDType (rv_Type (Value el)) = false
    | inr (out, v) =>
        exists rest, Elements out = inr (with_id v rest) /\ IDOf out = Some v /\
          ((Forall (fun e => Key e <> idField) es /\ v = MkRawValue TypeObjectID newID /\ rest = es) \/
           (exists pre post, es = pre ++ MkElement idField v :: post /\ rest = pre ++ post /\
              Forall (fun e => Key e <> idField) pre /\ ValidIDType (rv_Type v) = true)) /\
          (blen out <= MaxDocSize -> Validate out = None /\ forall id', bytes_ok id' -> length id' = 12%nat ->
             EnsureID out id' = inr (out, v))
    end.
Proof.
  intros Hb HV Hn Hl. pose proof (Validate_inv d Hb HV) as (es & Ee & He & Hf & -> & Hsz & Hval).
  exists es. split; [done|]. rewrite EnsureID_cases by done. pose proof (find_id_spec es) as Hid.
  assert (Hstep : forall v rest, Forall elem_ok (with_id v rest) -> doc_fits (with_id v rest) ->
    Forall (valid_elem 99) (with_id v rest) -> ValidIDType (rv_Type v) = true ->
    Elements (doc_of (with_id v rest)) = inr (with_id v rest) /\ IDOf (doc_of (with_id v rest)) = Some v /\
    (blen (doc_of (with_id v rest)) <= MaxDocSize -> Validate (doc_of (with_id v rest)) = None /\
       forall id', bytes_ok id' -> length id' = 12%nat ->
       EnsureID (doc_of (with_id v rest)) id' = inr (doc_of (with_id v rest), v))).
  { intros v rest H1 H2 H3 H4. split_and!; [by apply Elements_doc_of|by apply IDOf_with_id|].
    intros H5. assert (H6 : Validate (doc_of (with_id v rest)) = None) by (by apply Validate_doc_of).
    split; [done|]. intros id' H7 H8. rewrite EnsureID_cases by done. cbn [find_id with_id Key].
    rewrite bool_decide_eq_true_2 by done. cbn [nth with_id Value]. by rewrite H4. }
  destruct (find_id es) as [i|]; cbn zeta.
  - destruct Hid as (e & Hi & Hk & Hpre). rewrite (nth_lookup_Some es i _ e) by done.
    destruct (ValidIDType (rv_Type (Value e))) eqn:Et; [|split; [done|by exists i, e]].
    assert (Hee : MkElement idField (Value e) = e) by (rewrite <- Hk; by destruct e).
    assert (Hperm : es ≡ₚ with_id (Value e) (take i es ++ drop (S i) es)).
    { unfold with_id. rewrite Hee. rewrite <- (take_drop_middle es i e Hi) at 1. by rewrite <- Permutation_middle. }
    destruct (Hstep (Value e) (take i es ++ drop (S i) es)) as (S1 & S2 & S3);
      [by rewrite <- Hperm|by eapply doc_fits_perm|by rewrite <- Hperm|done|].
    exists (take i es ++ drop (S i) es). split_and!; [done..| |done].
    right. exists (take i es), (drop (S i) es). rewrite Hee. split_and!; try done. by rewrite take_drop_middle.
  - set (v := MkRawValue TypeObjectID newID). destruct idField_ok as (Hi1 & Hi2 & Hi3).
    assert (He' : Forall elem_ok (with_id v es)).
    { constructor; [|done]. unfold elem_ok. split_and!; [done..|]. by apply new_id_ok. }
    assert (Hf' : doc_fits (with_id v es)).
    { by apply doc_fits_new_id. }
    destruct (Hstep v es) as (S1 & S2 & S3); try done.
    { constructor; [|done]. unfold valid_elem. cbn [Key Value v rv_Type]. split_and!; [done|discriminate..]. }
    exists es. split_and!; [done..| |done]. by left.
Qed.

(** ** Typed appends *)

(** The append writes one well-sized value, which satisfies P. *)
Definition stores (key : bytes) (app : bytes -> bytes) (P : RawValue -> Prop) : Prop :=
  exists v, (forall body, app body = AppendValue key v body) /\ value_ok v /\ P v.

Lemma fixed_value_ok t d n :
  scanValue d t = need d n -> blen d = n -> t <> 0 -> byte_ok t -> bytes_ok d -> value_ok (MkRawValue t d).
Proof.
  intros Hs Hl Ht Htb Hd. unfold value_ok. cbn [rv_Type rv_Data]. split_and!; try done.
  rewrite Hs. unfold need. rewrite Hl, Z.ltb_irrefl. done.
Qed.

Lemma pay_le n t w r : in_u (8 * Z.of_nat n) w -> pay n (MkRawValue t (le_bytes n w ++ r)) = w.
Proof.
  intros Hw. unfold pay. cbn [rv_Data]. rewrite sub_app_l by (by rewrite length_le_bytes).
  rewrite <- (length_le_bytes n w) at 1. rewrite sub_full. by apply le_val_le_bytes.
Qed.

Lemma pay_le' n t w : in_u (8 * Z.of_nat n) w -> pay n (MkRawValue t (le_bytes n w)) = w.
Proof. intros Hw. rewrite <- (app_nil_r (le_bytes n w)). by apply pay_le. Qed.

Lemma to_i32_u32 x : - 2 ^ 31 <= x < 2 ^ 31 -> to_i32 (u32 x) = x.
Proof.
  intros H. unfold to_i32, wrap. change (2 ^ 32) with 4294967296. change (2 ^ 31) with 2147483648 in *.
  destruct (Z.ltb_spec (x mod 4294967296) 2147483648); zlia.
Qed.

Lemma blen_le n w : blen (le_bytes n w) = Z.of_nat n.
Proof. unfold blen. by rewrite length_le_bytes. Qed.

Lemma scanValue_string b :
  scanValue b TypeString =
  let n := le_val (sub 0 4 b) in
  if blen b <? 4 then inl ErrMalformed
  else if (n <? 1) || (4 + n >? blen b) || negb (nth (Z.to_nat (4 + n - 1)) b 0 =? 0) then inl ErrMalformed
  else inr (4 + n).
Proof. reflexivity. Qed.

Lemma scanValue_binary b :
  scanValue b TypeBinary =
  let n := le_val (sub 0 4 b) in
  if blen b <? 5 then inl ErrMalformed
  else if (n <? 0) || (5 + n >? blen b) then inl ErrMalformed else inr (5 + n).
Proof. reflexivity. Qed.

(** The values the typed methods append. *)
Definition double_val (x : Z) : RawValue := MkRawValue TypeDouble (le_bytes 8 x).
Definition int32_val (x : Z) : RawValue := MkRawValue TypeInt32 (le_bytes 4 (u32 x)).
Definition int64_val (x : Z) : RawValue := MkRawValue TypeInt64 (le_bytes 8 (u64 x)).
Definition date_val (x : Z) : RawValue := MkRawValue TypeDateTime (le_bytes 8 (u64 x)).
Definition timestamp_val (x : Z) : RawValue := MkRawValue TypeTimestamp (le_bytes 8 x).
Definition bool_val (x : bool) : RawValue := MkRawValue TypeBoolean [if x then 1 else 0].
Definition null_val : RawValue := MkRawValue TypeNull [].
Definition string_val (s : bytes) : RawValue := MkRawValue TypeString (le_bytes 4 (u32 (blen s + 1)) ++ s ++ [0]).
Definition oid_val (x : bytes) : RawValue := MkRawValue TypeObjectID x.
Definition binary_val (t : Z) (d : bytes) : RawValue :=
  MkRawValue TypeBinary (le_bytes 4 (u32 (blen d)) ++ [t] ++ d).

Lemma word_value_ok t w :
  scanValue (le_bytes 8 w) t = need (le_bytes 8 w) 8 -> t <> 0 -> byte_ok t -> value_ok (MkRawValue t (le_bytes 8 w)).
Proof.
  intros Hs Ht Htb. apply (fixed_value_ok _ _ 8); [exact Hs|apply blen_le|exact Ht|exact Htb|apply bytes_ok_le].
Qed.

Lemma Double_double_val x : in_u 64 x -> DoubleOK (double_val x) = (x, true).
Proof. intros Hx. unfold DoubleOK, double_val. cbn [rv_Type rv_Data]. by rewrite blen_le, pay_le' by done. Qed.

Lemma Int32_int32_val x : - 2 ^ 31 <= x < 2 ^ 31 -> Int32OK (int32_val x) = (x, true).
Proof.
  intros Hx. unfold Int32OK, int32_val. cbn [rv_Type rv_Data].
  by rewrite blen_le, pay_le', to_i32_u32 by (done || (apply wrap_in_u; lia)).
Qed.

Lemma Int64_int64_val x : - 2 ^ 63 <= x < 2 ^ 63 -> Int64OK (int64_val x) = (x, true).
Proof.
  intros Hx. unfold Int64OK, int64_val. cbn [rv_Type rv_Data].
  by rewrite blen_le, pay_le', to_i64_u64 by (done || (apply wrap_in_u; lia)).
Qed.

Lemma DateTime_date_val x : - 2 ^ 63 <= x < 2 ^ 63 -> DateTime (date_val x) = x.
Proof.
  intros Hx. unfold DateTime, date_val. cbn [rv_Type rv_Data].
  by rewrite blen_le, pay_le', to_i64_u64 by (done || (apply wrap_in_u; lia)).
Qed.

Lemma Timestamp_timestamp_val x : in_u 64 x -> Timestamp (timestamp_val x) = x.
Proof. intros Hx. unfold Timestamp, timestamp_val. cbn [rv_Type rv_Data]. by rewrite blen_le, pay_le' by done. Qed.

Lemma Boolean_bool_val x : Boolean (bool_val x) = x.
Proof. by destruct x. Qed.

Lemma ObjectID_oid_val x : length x = 12%nat -> ObjectID (oid_val x) = x.
Proof.
  intros Hl. unfold ObjectID, oid_val, blen. cbn [rv_Type rv_Data]. rewrite Hl. cbn. unfold sub. rewrite drop_0.
  by rewrite take_ge by lia.
Qed.

(** The payload of a string or a binary value: its length and its length field. *)
Lemma string_val_data s :
  in_u 32 (blen s + 1) ->
  blen (rv_Data (string_val s)) = 5 + blen s /\ le_val (sub 0 4 (rv_Data (string_val s))) = blen s + 1.
Proof.
  intros Hl. split.
  - unfold string_val, blen. cbn [rv_Data]. rewrite !length_app, length_le_bytes. simpl. lia.
  - unfold string_val. rewrite wrap_small by done. by apply (pay_le 4 TypeString).
Qed.

Lemma binary_val_data t d :
  in_u 32 (blen d) ->
  blen (rv_Data (binary_val t d)) = 5 + blen d /\ le_val (sub 0 4 (rv_Data (binary_val t d))) = blen d.
Proof.
  intros Hl. split.
  - unfold binary_val, blen. cbn [rv_Data]. rewrite !length_app, length_le_bytes. simpl. lia.
  - unfold binary_val. rewrite wrap_small by done. by apply (pay_le 4 TypeBinary).
Qed.

Lemma StringValue_string_val s : in_u 32 (blen s + 1) -> StringValueOK (string_val s) = (s, true).
Proof.
  intros Hl. destruct (string_val_data s Hl) as [Hd Hp]. assert (0 <= blen s) by (unfold blen; lia).
  unfold StringValueOK, pay. rewrite Hp, Hd. change (rv_Type (string_val s)) with TypeString.
  change (one_of TypeString [TypeString; TypeSymbol; TypeJavaScript]) with true. cbn [negb].
  rewrite (proj2 (Z.ltb_ge _ 4)), (proj2 (Z.ltb_ge _ 1)), Z.gtb_ltb, (proj2 (Z.ltb_ge _ (4 + (blen s + 1)))) by lia.
  cbn [orb]. f_equal. replace (Z.to_nat (blen s + 1 - 1)) with (length s) by (unfold blen; lia).
  unfold sub, string_val. cbn [rv_Data]. rewrite drop_app_length' by (by rewrite length_le_bytes). apply take_app_length.
Qed.

Lemma Binary_binary_val t d : in_u 32 (blen d) -> Binary (binary_val t d) = Some (t, d).
Proof.
  intros Hl. destruct (binary_val_data t d Hl) as [Hd Hp]. assert (0 <= blen d) by (unfold blen; lia).
  unfold Binary, pay. rewrite Hp, Hd. change (rv_Type (binary_val t d)) with TypeBinary. rewrite Z.eqb_refl. cbn [negb orb].
  rewrite (proj2 (Z.ltb_ge _ 5)), (proj2 (Z.ltb_ge _ 0)), Z.gtb_ltb, (proj2 (Z.ltb_ge _ (5 + blen d))) by lia.
  cbn [orb]. unfold blen. rewrite Nat2Z.id. do 2 f_equal.
  unfold sub, binary_val. cbn [rv_Data]. rewrite app_assoc, drop_app_length' by (by rewrite length_app, length_le_bytes).
  by rewrite take_ge by lia.
Qed.

Lemma string_val_ok s : bytes_ok s -> in_u 32 (blen s + 1) -> value_ok (string_val s).
Proof.
  intros Hs Hl. destruct (string_val_data s Hl) as [Hd Hp]. assert (0 <= blen s) by (unfold blen; lia).
  unfold value_ok. change (rv_Type (string_val s)) with TypeString. split_and!; [done|done| |].
  { unfold string_val. cbn [rv_Data]. repeat apply Forall_app_2; [apply bytes_ok_le|done|repeat constructor; lia]. }
  rewrite scanValue_string. cbv zeta. rewrite Hp, Hd.
  rewrite (proj2 (Z.ltb_ge _ 4)), (proj2 (Z.ltb_ge _ 1)), Z.gtb_ltb, (proj2 (Z.ltb_ge _ (4 + (blen s + 1)))) by lia.
  cbn [orb]. replace (4 + (blen s + 1) - 1) with (4 + blen s) by lia.
  assert (Hz : nth (Z.to_nat (4 + blen s)) (rv_Data (string_val s)) 0 = 0).
  { rewrite nth_lookup. unfold string_val. cbn [rv_Data].
    rewrite !lookup_app_r by (rewrite ?length_le_bytes; unfold blen; lia).
    rewrite length_le_bytes. by replace (_ - _ - _)%nat with 0%nat by (unfold blen; lia). }
  rewrite Hz, Z.eqb_refl. cbn [negb]. f_equal. lia.
Qed.

Lemma binary_val_ok t d : byte_ok t -> bytes_ok d -> in_u 32 (blen d) -> value_ok (binary_val t d).
Proof.
  intros Ht Hdt Hl. destruct (binary_val_data t d Hl) as [Hd Hp]. assert (0 <= blen d) by (unfold blen; lia).
  unfold value_ok. change (rv_Type (binary_val t d)) with TypeBinary. split_and!; [done|done| |].
  { unfold binary_val. cbn [rv_Data]. repeat apply Forall_app_2; [apply bytes_ok_le|by apply Forall_singleton|done]. }
  rewrite scanValue_binary. cbv zeta. rewrite Hp, Hd.
  by rewrite (proj2 (Z.ltb_ge _ 5)), (proj2 (Z.ltb_ge _ 0)), Z.gtb_ltb, (proj2 (Z.ltb_ge _ (5 + blen d))) by lia.
Qed.

Lemma bool_val_ok x : value_ok (bool_val x).
Proof.
  apply (fixed_value_ok _ _ 1); try done. apply Forall_singleton. destruct x; unfold byte_ok; lia.
Qed.

Lemma AppendNull_value key body : AppendNull key body = AppendValue key null_val body.
Proof. unfold AppendNull, AppendValue. cbn [rv_Data null_val]. by rewrite app_nil_r. Qed.

(** What the builder's typed methods write, the typed accessors read: for
    every type the element appended has a payload of exactly the size the reader
    computes for it, and the accessor of that type returns the value appended. *)
Theorem builder_accessors_roundtrip key :
  (forall x, in_u 64 x -> stores key (AppendDouble key x) (fun v => DoubleOK v = (x, true))) /\
  (forall x, - 2 ^ 31 <= x < 2 ^ 31 -> stores key (AppendInt32 key x) (fun v => Int32OK v = (x, true))) /\
  (forall x, - 2 ^ 63 <= x < 2 ^ 63 -> stores key (AppendInt64 key x) (fun v => Int64OK v = (x, true))) /\
  (forall x, - 2 ^ 63 <= x < 2 ^ 63 -> stores key (AppendDateTime key x) (fun v => DateTime v = x)) /\
  (forall x, in_u 64 x -> stores key (AppendTimestamp key x) (fun v => Timestamp v = x)) /\
  (forall x, stores key (AppendBoolean key x) (fun v => Boolean v = x)) /\
  stores key (AppendNull key) (fun v => rv_Type v = TypeNull) /\
  (forall s, bytes_ok s -> in_u 32 (blen s + 1) ->
     stores key (AppendString key s) (fun v => StringValueOK v = (s, true))) /\
  (forall x, bytes_ok x -> length x = 12%nat -> stores key (AppendObjectID key x) (fun v => ObjectID v = x)) /\
  (forall t d, byte_ok t -> bytes_ok d -> in_u 32 (blen d) ->
     stores key (AppendBinary key t d) (fun v => Binary v = Some (t, d))).
Proof.
  split_and!.
  - intros x Hx. exists (double_val x). split_and!; [done|by apply word_value_ok|by apply Double_double_val].
  - intros x Hx. exists (int32_val x). split_and!; [done| |by apply Int32_int32_val].
    apply (fixed_value_ok _ _ 4); [done|apply blen_le|done|done|apply bytes_ok_le].
  - intros x Hx. exists (int64_val x). split_and!; [done|by apply word_value_ok|by apply Int64_int64_val].
  - intros x Hx. exists (date_val x). split_and!; [done|by apply word_value_ok|by apply DateTime_date_val].
  - intros x Hx. exists (timestamp_val x). split_and!; [done|by apply word_value_ok|by apply Timestamp_timestamp_val].
  - intros x. exists (bool_val x). split_and!; [done|apply bool_val_ok|apply Boolean_bool_val].
  - exists null_val. split_and!; [apply AppendNull_value| |done]. unfold value_ok. split_and!; try done. apply Forall_nil_2.
  - intros s Hs Hl. exists (string_val s). split_and!; [done|by apply string_val_ok|by apply StringValue_string_val].
  - intros x Hx Hl. exists (oid_val x). split_and!; [done|by apply new_id_ok|by apply ObjectID_oid_val].
  - intros t d Ht Hd Hl. exists (binary_val t d). split_and!; [done|by apply binary_val_ok|by apply Binary_binary_val].
Qed.

(** ** Concrete documents *)

Definition demo_elems : list Element :=
  [MkElement [97] (MkRawValue TypeInt32 [7; 0; 0; 0]);
   MkElement idField (MkRawValue TypeString [2; 0; 0; 0; 120; 0]);
   MkElement [98] (MkRawValue TypeDocument (Build [TypeNull; 99; 0]))].

Definition demo_doc : bytes := Build (append_all demo_elems []).

Lemma demo_doc_ok : bytes_ok demo_doc.
Proof. apply bytes_okb_ok. vm_compute. reflexivity. Qed.

Lemma bson_document_roundtrip_witness : Elements demo_doc = inr demo_elems /\ Lookup demo_doc [97] = Some (MkRawValue TypeInt32 [7; 0; 0; 0]).
Proof.
  assert (E : Elements demo_doc = inr demo_elems) by (vm_compute; reflexivity). split; [exact E|].
  rewrite (proj2 (bson_document_roundtrip demo_doc demo_elems demo_doc_ok) E [97]). reflexivity.
Defined.

Lemma bson_validate_exact_witness : valid_doc 100 demo_doc.
Proof.
  apply (bson_validate_exact demo_doc demo_doc_ok). vm_compute. reflexivity.
Defined.

Lemma ensure_id_normalises_witness :
  exists rest, Elements (Build (append_all (with_id (MkRawValue TypeString [2; 0; 0; 0; 120; 0]) rest) [])) =
    inr (with_id (MkRawValue TypeString [2; 0; 0; 0; 120; 0]) rest) /\ length rest = 2%nat.
Proof.
  destruct (ensure_id_normalises demo_doc (replicate 12 1) demo_doc_ok) as (es & E & H);
    [vm_compute; reflexivity|by apply bytes_okb_ok|reflexivity|].
  assert (es = demo_elems) as -> by (vm_compute in E; injection E as <-; reflexivity).
  vm_compute in H. destruct H as (rest & Hr & _).
  exists [MkElement [97] (MkRawValue TypeInt32 [7; 0; 0; 0]); MkElement [98] (MkRawValue TypeDocument (Build [TypeNull; 99; 0]))].
  split; vm_compute; reflexivity.
Defined.
