(* ===== verification/BsonCompare.v ===== *)
(** * bson/compare.go: the order of values

    Compare, Equal and the helpers, and what they are: a total preorder on every
    value, that on numbers of different types is the order of their exact
    values. *)

From S2P Require Import Prelude Float64 Bson.

(** ** Ranks *)

Definition rankMinKey : Z := 0.
Definition rankNull : Z := 1.
Definition rankNumber : Z := 2.
Definition rankString : Z := 3.
Definition rankObject : Z := 4.
Definition rankArray : Z := 5.
Definition rankBinary : Z := 6.
Definition rankObjectID : Z := 7.
Definition rankBool : Z := 8.
Definition rankDate : Z := 9.
Definition rankTimestamp : Z := 10.
Definition rankRegex : Z := 11.
Definition rankMaxKey : Z := 12.

Definition CanonicalType (t : Z) : Z :=
  if t =? TypeMinKey then rankMinKey
  else if one_of t [TypeNull; TypeUndefined] then rankNull
  else if one_of t [TypeDouble; TypeInt32; TypeInt64; TypeDecimal128] then rankNumber
  else if one_of t [TypeString; TypeSymbol; TypeJavaScript] then rankString
  else if t =? TypeDocument then rankObject
  else if t =? TypeArray then rankArray
  else if t =? TypeBinary then rankBinary
  else if t =? TypeObjectID then rankObjectID
  else if t =? TypeBoolean then rankBool
  else if t =? TypeDateTime then rankDate
  else if t =? TypeTimestamp then rankTimestamp
  else if t =? TypeRegex then rankRegex
  else if t =? TypeMaxKey then rankMaxKey
  else rankMaxKey.

(** ** Numbers *)

Definition AsFloat64 (v : RawValue) : Z * bool :=
  if rv_Type v =? TypeDouble then DoubleOK v
  else if rv_Type v =? TypeInt32 then let '(i, ok) := Int32OK v in (f64_of_int i, ok)
  else if rv_Type v =? TypeInt64 then let '(i, ok) := Int64OK v in (f64_of_int i, ok)
  else (0, false).

Definition isNaN (v : RawValue) : bool := let '(f, ok) := DoubleOK v in ok && f64_isNaN f.

Definition asInt64 (v : RawValue) : option Z :=
  if rv_Type v =? TypeInt32 then Some (Int32 v)
  else if rv_Type v =? TypeInt64 then Some (Int64 v)
  else None.

Definition cmpFloat64 (a b : Z) : comparison :=
  if f64_lt a b then Lt else if f64_lt b a then Gt else Eq.

(** Past 2^53 the source compares two big.Floats, which is the comparison of the
    exact values. *)
Definition compareFloatInt64 (f i : Z) : comparison :=
  if f64_isInf f && negb (f64_neg f) then Gt
  else if f64_isInf f && f64_neg f then Lt
  else if (i >? - 2 ^ 53) && (i <? 2 ^ 53) then cmpFloat64 f (f64_of_int i)
  else f64_val f ?= i * 2 ^ 1074.

Definition compareNumbers (a b : RawValue) : comparison :=
  let aNaN := isNaN a in
  let bNaN := isNaN b in
  if aNaN || bNaN then if aNaN && bNaN then Eq else if aNaN then Gt else Lt
  else
    match asInt64 a, asInt64 b with
    | Some ai, Some bi => ai ?= bi
    | Some ai, None => CompOpp (compareFloatInt64 (AsFloat64 b).1 ai)
    | None, Some bi => compareFloatInt64 (AsFloat64 a).1 bi
    | None, None => cmpFloat64 (AsFloat64 a).1 (AsFloat64 b).1
    end.

(** ** The other types *)

(** A comparison, then another where it finds no difference. *)
Definition then_cmp (c d : comparison) : comparison := match c with Eq => d | _ => c end.

Definition cmpBool (a b : bool) : comparison := if eqb a b then Eq else if negb a then Lt else Gt.

Definition compareBinary (a b : RawValue) : comparison :=
  let '(sa, da) := default (0, []) (Binary a) in
  let '(sb, db) := default (0, []) (Binary b) in
  then_cmp (blen da ?= blen db) (then_cmp (sa ?= sb) (bcmp da db)).

Definition compareRegex (a b : RawValue) : comparison :=
  let '(pa, oa) := default ([], []) (Regex a) in
  let '(pb, ob) := default ([], []) (Regex b) in
  then_cmp (bcmp pa pb) (bcmp oa ob).

(** The elements of a document, none if it is malformed. *)
Definition elems (r : bytes) : list Element := match Elements r with inl _ => [] | inr es => es end.

(** Elementwise, then by length. *)
Fixpoint cmp_lists {A} (c : A -> A -> comparison) (l k : list A) : comparison :=
  match l, k with
  | x :: l', y :: k' => then_cmp (c x y) (cmp_lists c l' k')
  | _, _ => blen l ?= blen k
  end.

Section nested.
Context (cmp : RawValue -> RawValue -> comparison).

Definition compareDocuments (a b : bytes) : comparison :=
  cmp_lists (fun e f => then_cmp (bcmp (Key e) (Key f)) (cmp (Value e) (Value f))) (elems a) (elems b).

Definition compareArrays (a b : bytes) : comparison :=
  cmp_lists (fun e f => cmp (Value e) (Value f)) (elems a) (elems b).

(** The switch of Compare, for two values of the same rank. *)
Definition compare_rank (r : Z) (a b : RawValue) : comparison :=
  if one_of r [rankNull; rankMinKey; rankMaxKey] then Eq
  else if r =? rankNumber then compareNumbers a b
  else if r =? rankString then bcmp (StringValue a) (StringValue b)
  else if r =? rankObject then compareDocuments (Document a) (Document b)
  else if r =? rankArray then compareArrays (Document a) (Document b)
  else if r =? rankBinary then compareBinary a b
  else if r =? rankObjectID then bcmp (ObjectID a) (ObjectID b)
  else if r =? rankBool then cmpBool (Boolean a) (Boolean b)
  else if r =? rankDate then DateTime a ?= DateTime b
  else if r =? rankTimestamp then Timestamp a ?= Timestamp b
  else if r =? rankRegex then compareRegex a b
  else Eq.
End nested.

(** The recursion of Compare into documents and arrays. *)
Fixpoint compare_fuel (fuel : nat) (a b : RawValue) : comparison :=
  match fuel with
  | O => Eq
  | S fuel' =>
      let ra := CanonicalType (rv_Type a) in
      let rb := CanonicalType (rv_Type b) in
      if negb (ra =? rb) then if ra <? rb then Lt else Gt
      else compare_rank (compare_fuel fuel') ra a b
  end.

(** A nested value is shorter than the document that holds it, so the length of
    the payload is fuel enough. *)
Definition Compare (a b : RawValue) : comparison := compare_fuel (S (length (rv_Data a))) a b.

Definition Equal (a b : RawValue) : bool := match Compare a b with Eq => true | _ => false end.

(** ** Total preorders *)

(** A comparison that is a total preorder on the values that satisfy P. *)
Class TotalOn {A} (P : A -> Prop) (c : A -> A -> comparison) : Prop := {
  to_refl : forall x, P x -> c x x = Eq;
  to_anti : forall x y, P x -> P y -> c y x = CompOpp (c x y);
  to_trans : forall x y z, P x -> P y -> P z -> c x y <> Gt -> c y z <> Gt -> c x z <> Gt
}.

Section total.
Context {A : Type} {P : A -> Prop}.

Lemma to_lt_trans {c : A -> A -> comparison} `{!TotalOn P c} x y z :
  P x -> P y -> P z -> c x y = Lt -> c y z <> Gt -> c x z = Lt.
Proof.
  intros Px Py Pz Hxy Hyz. destruct (c x z) eqn:E; [|done|].
  - exfalso. assert (Hzy : c z y <> Gt).
    { apply (to_trans (c:=c) z x y); try done; [|congruence].
      rewrite (to_anti x z), E by done. done. }
    assert (Hyx : c y x <> Gt).
    { apply (to_trans (c:=c) y z x); try done. rewrite (to_anti x z), E by done. done. }
    rewrite (to_anti x y), Hxy in Hyx by done. done.
  - exfalso. apply (to_trans (c:=c) x y z); try done. congruence.
Qed.

Lemma to_eq_l {c : A -> A -> comparison} `{!TotalOn P c} x y z :
  P x -> P y -> P z -> c x y = Eq -> c x z = c y z.
Proof.
  intros Px Py Pz E. assert (E' : c y x = Eq) by (by rewrite (to_anti x y), E).
  destruct (c y z) eqn:Eyz.
  - assert (Ezy : c z y = Eq) by (by rewrite (to_anti y z), Eyz).
    assert (H1 : c x z <> Gt) by (apply (to_trans (c:=c) x y z); congruence || done).
    assert (H2 : c z x <> Gt) by (apply (to_trans (c:=c) z y x); congruence || done).
    rewrite (to_anti x z) in H2 by done. by destruct (c x z).
  - assert (H1 : c x z <> Gt) by (apply (to_trans (c:=c) x y z); congruence || done).
    destruct (c x z) eqn:Exz; [|done|done]. exfalso.
    assert (Ezx : c z x = Eq) by (by rewrite (to_anti x z), Exz).
    assert (H2 : c z y <> Gt) by (apply (to_trans (c:=c) z x y); congruence || done).
    rewrite (to_anti y z), Eyz in H2 by done. done.
  - assert (Ezy : c z y = Lt) by (by rewrite (to_anti y z), Eyz).
    assert (H1 : c z x = Lt) by (apply (to_lt_trans z y x); congruence || done).
    by rewrite (to_anti z x), H1.
Qed.

Lemma to_eq_r {c : A -> A -> comparison} `{!TotalOn P c} x y z :
  P x -> P y -> P z -> c y z = Eq -> c x z = c x y.
Proof.
  intros Px Py Pz E. rewrite (to_anti z x), (to_anti y x) by done. f_equal.
  apply to_eq_l; try done. by rewrite (to_anti y z), E.
Qed.
End total.

#[global] Instance total_Z : TotalOn (fun _ => True) Z.compare.
Proof.
  constructor; intros; [apply Z.compare_refl|apply Z.compare_antisym|].
  rewrite !Z.compare_gt_iff in *. lia.
Qed.

#[global] Instance total_bcmp : TotalOn (fun _ => True) bcmp.
Proof.
  constructor; intros; [apply bcmp_refl|apply bcmp_antisym|]. by eapply ble_trans.
Qed.

#[global] Instance total_const {A} (P : A -> Prop) : TotalOn P (fun _ _ => Eq).
Proof. by constructor. Qed.

Lemma total_proj {A B} (P : A -> Prop) (Q : B -> Prop) (f : A -> B) c :
  (forall x, P x -> Q (f x)) -> TotalOn Q c -> TotalOn P (fun x y => c (f x) (f y)).
Proof.
  intros Hf Hc. constructor; intros.
  - by apply to_refl, Hf.
  - apply to_anti; by apply Hf.
  - eapply to_trans; [..|eassumption|eassumption]; by apply Hf.
Qed.

Lemma total_ext {A} (P : A -> Prop) (c d : A -> A -> comparison) :
  (forall x y, P x -> P y -> c x y = d x y) -> TotalOn P d -> TotalOn P c.
Proof.
  intros E Hd. constructor; intros; rewrite !E in * by done.
  - by apply to_refl.
  - by apply to_anti.
  - by apply (to_trans (c:=d) x y z).
Qed.

#[global] Instance total_then {A} (P : A -> Prop) c d :
  TotalOn P c -> TotalOn P d -> TotalOn P (fun x y => then_cmp (c x y) (d x y)).
Proof.
  intros Hc Hd. constructor; unfold then_cmp.
  - intros x Px. by rewrite !to_refl.
  - intros x y Px Py. rewrite (to_anti x y) by done. destruct (c x y); try done. by apply to_anti.
  - intros x y z Px Py Pz. destruct (c x y) eqn:Exy; [| |done].
    + rewrite (to_eq_l (c:=c) x y z) by done. destruct (c y z); try done. by apply (to_trans (c:=d) x y z).
    + intros _ Hyz. assert (Hyz' : c y z <> Gt) by (intros E; by rewrite E in Hyz).
      by rewrite (to_lt_trans (c:=c) x y z).
Qed.

#[global] Instance total_lists {A} (P : A -> Prop) c : TotalOn P c -> TotalOn (Forall P) (cmp_lists c).
Proof.
  intros Hc. constructor.
  - intros l Hl. induction Hl as [|x l Hx Hl IH]; [done|]. cbn [cmp_lists]. by rewrite to_refl, IH.
  - intros l k Hl. revert k. induction Hl as [|x l Hx Hl IH]; intros [|y k] Hk; try done.
    apply Forall_cons in Hk as [Hy Hk]. cbn [cmp_lists]. rewrite (to_anti x y), IH by done.
    by destruct (c x y).
  - intros l k m Hl. revert k m. induction Hl as [|x l Hx Hl IH]; intros [|y k] [|z m] Hk Hm; try done.
    apply Forall_cons in Hk as [Hy Hk]. apply Forall_cons in Hm as [Hz Hm]. cbn [cmp_lists].
    unfold then_cmp. destruct (c x y) eqn:Exy; [| |done].
    + rewrite (to_eq_l (c:=c) x y z) by done. destruct (c y z); try done. by apply IH.
    + intros _ Hyz. assert (Hyz' : c y z <> Gt) by (intros E; by rewrite E in Hyz).
      by rewrite (to_lt_trans (c:=c) x y z).
Qed.

(** ** Numbers by their exact value *)

Lemma f64_of_pos_finite n : 0 < n -> Z.log2 n < 1000 -> f64_exp (f64_of_pos n) < 2047.
Proof.
  intros Hn Hl. pose proof (f64_of_pos_range n Hn) as [H1 H2]. pose proof (Z.log2_nonneg n).
  unfold f64_exp, f64_abs. change (2 ^ 63) with 9223372036854775808.
  change (2 ^ 52) with 4503599627370496 in *. zlia.
Qed.

Lemma f64_of_int_finite i : int64 i -> f64_exp (f64_of_int i) < 2047.
Proof.
  intros Hi. unfold f64_of_int, int64 in *. destruct (Z.eqb_spec i 0) as [->|]; [done|].
  assert (Hl : forall m, 0 < m <= 2 ^ 63 -> Z.log2 m < 1000).
  { intros m Hm. pose proof (Z.log2_le_mono m (2 ^ 63) ltac:(lia)) as H. rewrite Z.log2_pow2 in H; lia. }
  destruct (Z.ltb_spec i 0).
  - pose proof (f64_of_pos_finite (- i) ltac:(lia) (Hl (- i) ltac:(lia))) as H1.
    unfold f64_exp, f64_abs in *. by rewrite <- Zplus_mod_idemp_l, Z_mod_same_full, Z.add_0_l.
  - apply f64_of_pos_finite; [lia|]. apply Hl. lia.
Qed.

Lemma f64_finite_not_nan b : f64_exp b < 2047 -> f64_isNaN b = false.
Proof. intros H. unfold f64_isNaN. by rewrite (proj2 (Z.eqb_neq _ _)) by lia. Qed.

Lemma f64_inf_val b : f64_isInf b = true -> f64_val b = if f64_neg b then - 2 ^ 2098 else 2 ^ 2098.
Proof.
  unfold f64_isInf. rewrite andb_true_iff, !Z.eqb_eq. intros [He Hm].
  assert (Habs : f64_abs b = 2047 * 2 ^ 52).
  { unfold f64_exp, f64_man, f64_abs in *. change (2 ^ 63) with 9223372036854775808 in *.
    change (2 ^ 52) with 4503599627370496 in *. zlia. }
  unfold f64_val. rewrite Habs. change (f64_mag (2047 * 2 ^ 52)) with (2 ^ 2098). done.
Qed.

Lemma cmpFloat64_val a b :
  f64_isNaN a = false -> f64_isNaN b = false -> cmpFloat64 a b = (f64_val a ?= f64_val b).
Proof.
  intros Ha Hb. unfold cmpFloat64, f64_lt. rewrite Ha, Hb. cbn [negb andb].
  destruct (Z.ltb_spec (f64_val a) (f64_val b)); [symmetry; by apply Z.compare_lt_iff|].
  destruct (Z.ltb_spec (f64_val b) (f64_val a)); symmetry; [by apply Z.compare_gt_iff|].
  apply Z.compare_eq_iff. lia.
Qed.

Lemma scaled_int_lt i : int64 i -> - 2 ^ 2098 < i * 2 ^ 1074 < 2 ^ 2098.
Proof.
  unfold int64. intros H. change (2 ^ 2098) with (2 ^ 1024 * 2 ^ 1074).
  assert (0 < 2 ^ 1074) by (apply Z.pow_pos_nonneg; lia).
  assert (2 ^ 63 <= 2 ^ 1024) by (apply Z.pow_le_mono_r; lia). nia.
Qed.

Lemma compareFloatInt64_val f i :
  f64_isNaN f = false -> int64 i -> compareFloatInt64 f i = (f64_val f ?= i * 2 ^ 1074).
Proof.
  intros Hf Hi. unfold compareFloatInt64. pose proof (scaled_int_lt i Hi) as Hs.
  destruct (f64_isInf f) eqn:Einf; cbn [andb].
  - rewrite (f64_inf_val f Einf). destruct (f64_neg f); cbn [negb]; symmetry;
      [apply Z.compare_lt_iff|apply Z.compare_gt_iff]; lia.
  - rewrite Z.gtb_ltb. destruct (Z.ltb_spec (- 2 ^ 53) i), (Z.ltb_spec i (2 ^ 53)); cbn [andb]; try done.
    rewrite cmpFloat64_val by (try apply f64_finite_not_nan, f64_of_int_finite; done).
    by rewrite f64_of_int_exact.
Qed.

(** The exact value of a number, times 2^1074. The decimal type is not promoted:
    it counts as zero. *)
Definition num_val (v : RawValue) : Z :=
  if rv_Type v =? TypeDouble then f64_val (Double v)
  else match asInt64 v with Some i => i * 2 ^ 1074 | None => 0 end.

(** NaN above every other number and equal to itself. *)
Definition num_cmp (a b : RawValue) : comparison :=
  then_cmp (Z.b2z (isNaN a) ?= Z.b2z (isNaN b)) (if isNaN a then Eq else num_val a ?= num_val b).

Lemma pay_in_u n v : bytes_ok (rv_Data v) -> in_u (8 * Z.of_nat n) (pay n v).
Proof.
  intros Hb. unfold pay. pose proof (le_val_bound _ (sub_Forall _ 0 n _ Hb)) as [H1 H2]. split; [done|].
  eapply Z.lt_le_trans; [exact H2|]. apply Z.pow_le_mono_r; [lia|].
  unfold blen, sub. rewrite length_take. lia.
Qed.

Lemma asInt64_int64 v i : bytes_ok (rv_Data v) -> asInt64 v = Some i -> int64 i.
Proof.
  intros Hb. unfold asInt64, Int32, Int64, Int32OK, Int64OK, int64.
  pose proof (pay_in_u 4 v Hb) as H4. pose proof (pay_in_u 8 v Hb) as H8.
  destruct (rv_Type v =? TypeInt32).
  - destruct (_ || _); intros [= <-]; cbn [fst]; [lia|]. unfold to_i32, in_u in *.
    change (8 * Z.of_nat 4) with 32 in H4. destruct (Z.ltb_spec (pay 4 v) (2 ^ 31)); lia.
  - destruct (rv_Type v =? TypeInt64); [|done]. destruct (_ || _); intros [= <-]; cbn [fst]; [lia|].
    by apply to_i64_range.
Qed.

Definition is_number (v : RawValue) : Prop := CanonicalType (rv_Type v) = rankNumber.

(** A number is a double, an integer or a decimal. *)
Lemma number_cases v :
  is_number v ->
  (rv_Type v = TypeDouble /\ asInt64 v = None /\ num_val v = f64_val (Double v) /\ (AsFloat64 v).1 = Double v /\
     isNaN v = f64_isNaN (Double v)) \/
  (exists i, asInt64 v = Some i /\ num_val v = i * 2 ^ 1074 /\ isNaN v = false) \/
  (asInt64 v = None /\ num_val v = 0 /\ (AsFloat64 v).1 = 0 /\ isNaN v = false).
Proof.
  unfold is_number, num_val, isNaN, Double, AsFloat64. intros H. destruct (Z.eqb_spec (rv_Type v) TypeDouble) as [E|Hne].
  - left. unfold asInt64. rewrite E. cbn -[DoubleOK]. split_and!; try done.
    unfold DoubleOK. rewrite E. destruct (negb _ || _); done.
  - assert (Hd : DoubleOK v = (0, false)) by (unfold DoubleOK; by rewrite (proj2 (Z.eqb_neq _ _) Hne)).
    rewrite Hd. cbn [andb]. unfold asInt64.
    destruct (Z.eqb_spec (rv_Type v) TypeInt32); [right; left; by eexists|].
    destruct (Z.eqb_spec (rv_Type v) TypeInt64); [right; left; by eexists|]. right. right. done.
Qed.

Lemma compareNumbers_num_cmp a b :
  is_number a -> is_number b -> bytes_ok (rv_Data a) -> bytes_ok (rv_Data b) ->
  compareNumbers a b = num_cmp a b.
Proof.
  intros Ha Hb Hda Hdb. unfold compareNumbers, num_cmp.
  destruct (isNaN a) eqn:Na, (isNaN b) eqn:Nb; try done. cbn [orb Z.b2z then_cmp Z.compare].
  assert (H0 : f64_isNaN 0 = false) by done.
  destruct (number_cases a Ha) as [(_ & Ia & Va & Fa & Nfa)|[(i & Ia & Va & _)|(Ia & Va & Fa & _)]];
    destruct (number_cases b Hb) as [(_ & Ib & Vb & Fb & Nfb)|[(j & Ib & Vb & _)|(Ib & Vb & Fb & _)]];
    rewrite Ia, Ib, Va, Vb, ?Fa, ?Fb; rewrite ?Nfa, ?Nfb in *;
    try (pose proof (asInt64_int64 _ _ Hda Ia)); try (pose proof (asInt64_int64 _ _ Hdb Ib));
    rewrite ?cmpFloat64_val, ?compareFloatInt64_val by done; try done.
  - symmetry. apply Z.compare_antisym.
  - assert (0 < 2 ^ 1074) by (apply Z.pow_pos_nonneg; lia).
    symmetry. destruct (Z.compare_spec i j); [subst; apply Z.compare_refl|apply Z.compare_lt_iff|apply Z.compare_gt_iff]; nia.
  - change (f64_val 0) with 0. symmetry. apply Z.compare_antisym.
Qed.

(** ** Compare is a total preorder *)

Definition v_ok (v : RawValue) : Prop := bytes_ok (rv_Data v).
Definition e_ok (e : Element) : Prop := v_ok (Value e).

Lemma next_element_data b t e b' :
  next_element b t = inr (e, b') ->
  (length (rv_Data (Value e)) < length b)%nat /\ (length b' < length b)%nat /\
  (bytes_ok b -> bytes_ok (rv_Data (Value e)) /\ bytes_ok b').
Proof.
  unfold next_element. destruct (cstrEnd b 1) as [ke|] eqn:Ek; [|done]. apply cstrEnd_bound in Ek.
  destruct (scanValue _ t) as [|n]; [done|]. intros [= <- <-]. cbn [Value rv_Data].
  rewrite length_take, !length_drop. split_and!; [lia..|].
  intros Hb. split; [apply Forall_take|]; by apply Forall_drop, Forall_drop || apply Forall_drop.
Qed.

Lemma elements_loop_data fuel : forall b es,
  elements_loop fuel b = inr es ->
  Forall (fun e => (length (rv_Data (Value e)) < length b)%nat /\ (bytes_ok b -> e_ok e)) es.
Proof.
  induction fuel as [|fuel IH]; intros b es; cbn [elements_loop]; [done|].
  destruct b as [|t b]; [done|]. destruct (t =? 0).
  { destruct (_ =? 1); [|done]. intros [= <-]. constructor. }
  destruct (next_element (t :: b) t) as [|[e b']] eqn:En; [done|].
  destruct (elements_loop fuel b') as [|es'] eqn:El; [done|]. intros [= <-].
  apply next_element_data in En as (H1 & H2 & H3). constructor; [split; [done|]; intros Hb; by apply H3|].
  eapply Forall_impl; [apply (IH b' es' El)|]. cbn beta. intros e' [H4 H5]. split; [lia|].
  intros Hb. apply H5. by apply H3.
Qed.

Lemma elems_data r :
  Forall (fun e => (length (rv_Data (Value e)) < length r)%nat /\ (bytes_ok r -> e_ok e)) (elems r).
Proof.
  unfold elems, Elements. destruct (blen r <? MinDocLen); [constructor|]. destruct (negb _); [constructor|].
  destruct (elements_loop _ _) as [|es] eqn:E; [constructor|]. apply elements_loop_data in E.
  eapply Forall_impl; [exact E|]. cbn beta. intros e [H1 H2]. rewrite length_drop in H1. split; [lia|].
  intros Hb. apply H2. by apply Forall_drop.
Qed.

Lemma Document_data v :
  (length (Document v) <= length (rv_Data v))%nat /\ (v_ok v -> bytes_ok (Document v)).
Proof. unfold Document. destruct (_ && _); [done|]. split; [simpl; lia|]. intros _. constructor. Qed.

Lemma elems_Document_ok v : v_ok v -> Forall e_ok (elems (Document v)).
Proof.
  intros Hv. eapply Forall_impl; [apply elems_data|]. cbn beta. intros e [_ H]. by apply H, Document_data.
Qed.

Lemma total_num_cmp : TotalOn (fun _ => True) num_cmp.
Proof.
  unfold num_cmp. constructor.
  - intros x _. rewrite Z.compare_refl. cbn [then_cmp]. destruct (isNaN x); [done|apply Z.compare_refl].
  - intros x y _ _. destruct (isNaN x), (isNaN y); try done. cbn [Z.b2z then_cmp Z.compare]. apply Z.compare_antisym.
  - intros x y z _ _ _. destruct (isNaN x), (isNaN y), (isNaN z); try done. cbn [Z.b2z then_cmp Z.compare].
    rewrite !Z.compare_gt_iff. lia.
Qed.

Lemma total_cmpBool : TotalOn (fun _ => True) cmpBool.
Proof. constructor; [by intros []|by intros [] []|by intros [] [] []]. Qed.

Lemma total_rank cmp r :
  TotalOn v_ok cmp -> TotalOn (fun v => v_ok v /\ CanonicalType (rv_Type v) = r) (compare_rank cmp r).
Proof.
  intros Hc. unfold compare_rank. destruct (one_of r _); [apply total_const|].
  destruct (Z.eqb_spec r rankNumber) as [->|].
  { apply (total_ext _ _ num_cmp).
    - intros x y [Hx Rx] [Hy Ry]. by apply compareNumbers_num_cmp.
    - apply (total_proj _ (fun _ => True) (fun v => v)); [done|apply total_num_cmp]. }
  destruct (r =? rankString); [by apply (total_proj _ (fun _ => True) StringValue); [|apply total_bcmp]|].
  destruct (r =? rankObject).
  { apply (total_proj _ (Forall e_ok) (fun v => elems (Document v))); [intros v [Hv _]; by apply elems_Document_ok|].
    apply total_lists, (total_then e_ok (fun e f => bcmp (Key e) (Key f)) (fun e f => cmp (Value e) (Value f))).
    - by apply (total_proj _ (fun _ => True) Key); [|apply total_bcmp].
    - by apply (total_proj _ v_ok Value). }
  destruct (r =? rankArray).
  { apply (total_proj _ (Forall e_ok) (fun v => elems (Document v))); [intros v [Hv _]; by apply elems_Document_ok|].
    apply total_lists. by apply (total_proj _ v_ok Value). }
  destruct (r =? rankBinary).
  { set (key := fun v => default (0, []) (Binary v)).
    apply (total_ext _ _ (fun a b => then_cmp (blen (key a).2 ?= blen (key b).2)
      (then_cmp ((key a).1 ?= (key b).1) (bcmp (key a).2 (key b).2)))).
    - intros x y _ _. unfold compareBinary, key. by destruct (default _ (Binary x)), (default _ (Binary y)).
    - apply total_then; [apply (total_proj _ (fun _ => True) (fun v => blen (key v).2)); [done|apply total_Z]|].
      apply total_then; [apply (total_proj _ (fun _ => True) (fun v => (key v).1)); [done|apply total_Z]|].
      apply (total_proj _ (fun _ => True) (fun v => (key v).2)); [done|apply total_bcmp]. }
  destruct (r =? rankObjectID); [by apply (total_proj _ (fun _ => True) ObjectID); [|apply total_bcmp]|].
  destruct (r =? rankBool); [by apply (total_proj _ (fun _ => True) Boolean); [|apply total_cmpBool]|].
  destruct (r =? rankDate); [by apply (total_proj _ (fun _ => True) DateTime); [|apply total_Z]|].
  destruct (r =? rankTimestamp); [by apply (total_proj _ (fun _ => True) Timestamp); [|apply total_Z]|].
  destruct (r =? rankRegex); [|apply total_const].
  set (key := fun v => default ([], []) (Regex v)).
  apply (total_ext _ _ (fun a b => then_cmp (bcmp (key a).1 (key b).1) (bcmp (key a).2 (key b).2))).
  - intros x y _ _. unfold compareRegex, key. by destruct (default _ (Regex x)), (default _ (Regex y)).
  - apply total_then; [apply (total_proj _ (fun _ => True) (fun v => (key v).1))|apply (total_proj _ (fun _ => True) (fun v => (key v).2))];
      done || apply total_bcmp.
Qed.

(** A rank first, then an order within each rank. *)
Lemma total_switch {A} (P : A -> Prop) (rk : A -> Z) (c : Z -> A -> A -> comparison) :
  (forall r, TotalOn (fun v => P v /\ rk v = r) (c r)) ->
  TotalOn P (fun x y => if negb (rk x =? rk y) then if rk x <? rk y then Lt else Gt else c (rk x) x y).
Proof.
  intros Hc. constructor.
  - intros x Px. rewrite Z.eqb_refl. cbn [negb]. by apply (to_refl (TotalOn := Hc (rk x))).
  - intros x y Px Py. rewrite (Z.eqb_sym (rk y)). destruct (Z.eqb_spec (rk x) (rk y)) as [E|]; cbn [negb].
    + rewrite E. by apply (to_anti (TotalOn := Hc (rk y))).
    + destruct (Z.ltb_spec (rk x) (rk y)), (Z.ltb_spec (rk y) (rk x)); try done; lia.
  - intros x y z Px Py Pz. destruct (Z.eqb_spec (rk x) (rk y)) as [Exy|]; cbn [negb].
    + rewrite Exy. destruct (Z.eqb_spec (rk y) (rk z)) as [Eyz|]; cbn [negb]; [|done].
      by apply (to_trans (TotalOn := Hc (rk y))).
    + destruct (Z.ltb_spec (rk x) (rk y)); [|done]. intros _.
      destruct (Z.eqb_spec (rk y) (rk z)) as [Eyz|]; cbn [negb].
      * intros _. rewrite <- Eyz. rewrite (proj2 (Z.eqb_neq _ _)) by done. cbn [negb].
        by rewrite (proj2 (Z.ltb_lt _ _)).
      * destruct (Z.ltb_spec (rk y) (rk z)); [|done]. intros _.
        rewrite (proj2 (Z.eqb_neq (rk x) (rk z))) by lia. cbn [negb]. by rewrite (proj2 (Z.ltb_lt _ _)) by lia.
Qed.

Lemma total_compare_fuel n : TotalOn v_ok (compare_fuel n).
Proof.
  induction n as [|n IH]; [apply total_const|]. cbn [compare_fuel].
  apply (total_switch v_ok (fun v => CanonicalType (rv_Type v)) (compare_rank (compare_fuel n))).
  intros r. by apply total_rank.
Qed.

(** ** Fuel *)

Lemma cmp_lists_ext {A} (c d : A -> A -> comparison) l k :
  (forall x y, x ∈ l -> y ∈ k -> c x y = d x y) -> cmp_lists c l k = cmp_lists d l k.
Proof.
  revert k. induction l as [|x l IH]; intros [|y k] H; try done. cbn [cmp_lists].
  rewrite H by apply list_elem_of_here. f_equal. apply IH. intros x' y' Hx Hy. apply H; by apply list_elem_of_further.
Qed.

Lemma compare_fuel_stable n : forall m a b,
  (length (rv_Data a) < n \/ length (rv_Data b) < n)%nat ->
  (length (rv_Data a) < m \/ length (rv_Data b) < m)%nat ->
  compare_fuel n a b = compare_fuel m a b.
Proof.
  induction n as [|n IH]; intros [|m] a b Hn Hm; try lia. cbn [compare_fuel].
  destruct (negb _); [done|].
  assert (Hnest : forall e f, e ∈ elems (Document a) -> f ∈ elems (Document b) ->
    compare_fuel n (Value e) (Value f) = compare_fuel m (Value e) (Value f)).
  { intros e f He Hf. pose proof (elems_data (Document a)) as Ha. pose proof (elems_data (Document b)) as Hb.
    rewrite Forall_forall in Ha, Hb. destruct (Ha e He) as [Ha' _]. destruct (Hb f Hf) as [Hb' _].
    pose proof (proj1 (Document_data a)). pose proof (proj1 (Document_data b)). apply IH; lia. }
  unfold compare_rank, compareDocuments, compareArrays.
  rewrite (cmp_lists_ext (fun e f => then_cmp (bcmp (Key e) (Key f)) (compare_fuel n (Value e) (Value f)))
    (fun e f => then_cmp (bcmp (Key e) (Key f)) (compare_fuel m (Value e) (Value f))))
    by (intros e f He Hf; by rewrite Hnest).
  by rewrite (cmp_lists_ext (fun e f => compare_fuel n (Value e) (Value f)) (fun e f => compare_fuel m (Value e) (Value f)) _ _ Hnest).
Qed.

Lemma Compare_fuel n a b :
  (length (rv_Data a) < n \/ length (rv_Data b) < n)%nat -> Compare a b = compare_fuel n a b.
Proof. intros H. apply compare_fuel_stable; [left; lia|done]. Qed.

#[global] Instance total_Compare : TotalOn v_ok Compare.
Proof.
  constructor.
  - intros x Hx. by apply (to_refl (TotalOn := total_compare_fuel _)).
  - intros x y Hx Hy. rewrite (Compare_fuel (S (length (rv_Data x))) y x) by lia.
    by apply (to_anti (TotalOn := total_compare_fuel _)).
  - intros x y z Hx Hy Hz.
    set (n := S (length (rv_Data x) + length (rv_Data y) + length (rv_Data z))).
    rewrite !(Compare_fuel n) by lia. by apply (to_trans (TotalOn := total_compare_fuel n)).
Qed.

(** ** Properties *)

(** C38. Compare is a total preorder on all values, of any types and any nesting,
    malformed documents included: it is reflexive, comparing the other way round
    gives the opposite answer, it is transitive, equal values are
    interchangeable in any comparison, and the recursion into documents always
    ends within the length of either payload. *)
Theorem compare_total_preorder a b c :
  v_ok a -> v_ok b -> v_ok c ->
  Compare a a = Eq /\ Compare b a = CompOpp (Compare a b) /\
  (Compare a b <> Gt -> Compare b c <> Gt -> Compare a c <> Gt) /\
  (Compare a b = Lt -> Compare b c <> Gt -> Compare a c = Lt) /\
  (Equal a b = true -> Compare a c = Compare b c) /\
  (forall n, (length (rv_Data a) < n \/ length (rv_Data b) < n)%nat -> compare_fuel n a b = Compare a b).
Proof.
  intros Ha Hb Hc. split_and!.
  - by apply to_refl.
  - by apply to_anti.
  - by apply (to_trans a b c).
  - by apply (to_lt_trans a b c).
  - unfold Equal. destruct (Compare a b) eqn:E; try done. intros _. by apply to_eq_l.
  - intros n Hn. symmetry. by apply Compare_fuel.
Qed.

(** C39. int32, int64 and double values compare by the exact numbers they denote,
    whatever their types, without rounding: as rationals, infinities beyond every
    integer, NaN above all and equal to itself. *)
Theorem compare_numbers_exact a b :
  is_number a -> is_number b -> rv_Type a <> TypeDecimal128 -> rv_Type b <> TypeDecimal128 -> v_ok a -> v_ok b ->
  Compare a b = then_cmp (Z.b2z (isNaN a) ?= Z.b2z (isNaN b)) (if isNaN a then Eq else num_val a ?= num_val b) /\
  (forall i, asInt64 a = Some i -> num_val a = i * 2 ^ 1074) /\
  (rv_Type a = TypeDouble -> num_val a = f64_val (Double a)).
Proof.
  intros Ha Hb _ _ Hda Hdb. split_and!.
  - unfold Compare. cbn [compare_fuel]. rewrite Ha, Hb, Z.eqb_refl. cbn [negb].
    unfold compare_rank. change (one_of rankNumber [rankNull; rankMinKey; rankMaxKey]) with false.
    rewrite Z.eqb_refl. by apply compareNumbers_num_cmp.
  - intros i Hi. unfold num_val. rewrite Hi. destruct (Z.eqb_spec (rv_Type a) TypeDouble) as [E|]; [|done].
    unfold asInt64 in Hi. by rewrite E in Hi.
  - intros E. unfold num_val. by rewrite E, Z.eqb_refl.
Qed.

(** ** Witnesses *)

Lemma compare_total_preorder_witness :
  let a := MkRawValue TypeDocument (Build [TypeNull; 97; 0]) in
  let b := MkRawValue TypeDocument (Build [TypeNull; 98; 0]) in
  Compare a b = Lt /\ Compare b a = CompOpp (Compare a b).
Proof.
  intros a b. split; [vm_compute; reflexivity|].
  refine (proj1 (proj2 (compare_total_preorder a b (int64_val 1) _ _ _))); apply bytes_okb_ok; vm_compute; reflexivity.
Defined.

(** 2^53 as a double is below 2^53 + 1 as an integer. *)
Lemma compare_numbers_exact_witness :
  let a := double_val 0x4340000000000000 in
  let b := int64_val (2 ^ 53 + 1) in
  Compare a b = Lt /\
  Compare a b = then_cmp (Z.b2z (isNaN a) ?= Z.b2z (isNaN b)) (if isNaN a then Eq else num_val a ?= num_val b).
Proof.
  intros a b. split; [vm_compute; reflexivity|].
  assert (Ha : rv_Type a <> TypeDecimal128) by (vm_compute; discriminate). assert (Hb : rv_Type b <> TypeDecimal128) by (vm_compute; discriminate).
  refine (proj1 (compare_numbers_exact a b _ _ Ha Hb _ _)); try apply bytes_okb_ok; vm_compute; reflexivity.
Defined.
