(* ===== verification/KeyEnc.v ===== *)
(** * index/key.go, encode.go, field.go, decode.go: index keys

    The order-preserving encoding of values as bytes, ascending and descending,
    the compound keys and tree keys built from it, and its partial inverse for
    covered scans. *)

From S2P Require Import Prelude Rid Float64 Bson BsonCompare.

(** ** Tags *)

Definition tagMinKey : Z := 0x01.
Definition tagNull : Z := 0x05.
Definition tagNumber : Z := 0x10.
Definition tagString : Z := 0x20.
Definition tagDocument : Z := 0x30.
Definition tagArray : Z := 0x38.
Definition tagBinary : Z := 0x40.
Definition tagObjectID : Z := 0x48.
Definition tagBool : Z := 0x50.
Definition tagDate : Z := 0x58.
Definition tagTimestamp : Z := 0x60.
Definition tagRegex : Z := 0x68.
Definition tagMaxKey : Z := 0xFF.

Definition ridSuffixLen : nat := 6.

(** ErrDoc e: an error of the document reader, passed on. *)
Inductive keyErr : Type :=
  ErrUnindexableType | ErrCorruptKey | ErrNotCovered | ErrDoc (e : bsonErr).

(** ** Encoding *)

(** Go's ^x on a 64-bit word. *)
Definition not64 (x : Z) : Z := Z.lxor x max_u64.

Definition appendOrderedInt64 (dst : bytes) (v : Z) : bytes := dst ++ be_bytes 8 (Z.lxor (u64 v) (2 ^ 63)).

Definition flipSign (bits : Z) : Z :=
  if Z.land bits (2 ^ 63) =? 0 then Z.lor bits (2 ^ 63) else not64 bits.

Definition appendSignFlipped64 (dst : bytes) (bits : Z) : bytes := dst ++ be_bytes 8 (flipSign bits).

Definition appendNumber (dst : bytes) (f : Z) : bytes := appendSignFlipped64 (dst ++ [tagNumber]) f.

Definition appendDecimal128 (dst : bytes) (v : bytes) : bytes :=
  let be := rev v in
  let be' := if Z.land (nth 0 be 0) 0x80 =? 0 then <[0%nat := Z.lor (nth 0 be 0) 0x80]> be
             else map (fun c => Z.lxor c 0xFF) be in
  dst ++ [tagNumber] ++ be'.

Fixpoint escape (s : bytes) : bytes :=
  match s with
  | [] => []
  | c :: s' => (if c =? 0 then [0; 0xFF] else [c]) ++ escape s'
  end.

Definition appendOrderedBytes (dst s : bytes) : bytes := dst ++ escape s ++ [0; 1].

Definition appendString (dst s : bytes) : bytes := appendOrderedBytes (dst ++ [tagString]) s.

(** The field names of a nested document escape NUL as 0x00 0x01. *)
Fixpoint escape_name (s : bytes) : bytes :=
  match s with
  | [] => []
  | c :: s' => (if c =? 0 then [0; 1] else [c]) ++ escape_name s'
  end.

(** sort.SliceStable by name: the one stable sorted arrangement. *)
Fixpoint insert_elem (e : Element) (es : list Element) : list Element :=
  match es with
  | [] => [e]
  | f :: es' => if bltb (Key f) (Key e) then f :: insert_elem e es' else e :: es
  end.

Definition sort_elems (es : list Element) : list Element := fold_right insert_elem [] es.

Section nested.
Context (valueKey : bytes -> RawValue -> keyErr + bytes).

Fixpoint docKey_loop (dst : bytes) (es : list Element) : keyErr + bytes :=
  match es with
  | [] => inr (dst ++ [0; 0])
  | e :: es' =>
      match valueKey (dst ++ escape_name (Key e) ++ [0]) (Value e) with
      | inl err => inl err
      | inr dst' => docKey_loop dst' es'
      end
  end.

Definition appendDocKey (dst : bytes) (tag : Z) (doc : bytes) (sortFields : bool) : keyErr + bytes :=
  match Elements doc with
  | inl e => inl (ErrDoc e)
  | inr es => docKey_loop (dst ++ [tag]) (if sortFields then sort_elems es else es)
  end.
End nested.

(** appendValueKey, with fuel for the values nested in documents and arrays. *)
Fixpoint valueKey_fuel (fuel : nat) (dst : bytes) (v : RawValue) : keyErr + bytes :=
  match fuel with
  | O => inl ErrUnindexableType
  | S fuel' =>
      let t := rv_Type v in
      if t =? TypeMinKey then inr (dst ++ [tagMinKey])
      else if t =? TypeMaxKey then inr (dst ++ [tagMaxKey])
      else if one_of t [TypeNull; TypeUndefined] then inr (dst ++ [tagNull])
      else if t =? TypeDouble then inr (appendNumber dst (Double v))
      else if t =? TypeInt32 then inr (appendNumber dst (f64_of_int (Int32 v)))
      else if t =? TypeInt64 then inr (appendNumber dst (f64_of_int (Int64 v)))
      else if t =? TypeDecimal128 then inr (appendDecimal128 dst (Decimal128 v))
      else if one_of t [TypeString; TypeSymbol; TypeJavaScript] then
        let '(s, ok) := StringValueOK v in
        if negb ok then inl ErrCorruptKey else inr (appendString dst s)
      else if t =? TypeObjectID then inr (dst ++ [tagObjectID] ++ ObjectID v)
      else if t =? TypeBoolean then inr (dst ++ [tagBool; if Boolean v then 1 else 0])
      else if t =? TypeDateTime then inr (appendOrderedInt64 (dst ++ [tagDate]) (DateTime v))
      else if t =? TypeTimestamp then
        let ts := Timestamp v in
        inr (dst ++ [tagTimestamp] ++ be_bytes 4 (u32 (Z.shiftr ts 32)) ++ be_bytes 4 (u32 ts))
      else if t =? TypeBinary then
        match Binary v with
        | None => inl ErrCorruptKey
        | Some (sub, data) => inr (dst ++ [tagBinary] ++ be_bytes 4 (u32 (blen data)) ++ data ++ [sub])
        end
      else if t =? TypeRegex then
        match Regex v with
        | None => inl ErrCorruptKey
        | Some (pat, opt) => inr (dst ++ [tagRegex] ++ pat ++ [0] ++ opt ++ [0])
        end
      else if t =? TypeDocument then appendDocKey (valueKey_fuel fuel') dst tagDocument (Document v) true
      else if t =? TypeArray then appendDocKey (valueKey_fuel fuel') dst tagArray (Document v) false
      else inl ErrUnindexableType
  end.

(** A nested value is shorter than the document that holds it. *)
Definition appendValueKey (dst : bytes) (v : RawValue) : keyErr + bytes :=
  valueKey_fuel (S (length (rv_Data v))) dst v.

Definition EncodeValue (v : RawValue) : keyErr + bytes := appendValueKey [] v.

(** *** The typed encoders of key.go *)

Definition EncodeObjectID (oid : bytes) : bytes := tagObjectID :: oid.

Definition encodeNumber (f : Z) : bytes :=
  let bits := if Z.land f (2 ^ 63) =? 0 then Z.lor f (2 ^ 63) else not64 f in
  tagNumber :: be_bytes 8 bits.

Definition EncodeInt64 (v : Z) : bytes := encodeNumber (f64_of_int v).
Definition EncodeFloat64 (f : Z) : bytes := encodeNumber f.
Definition EncodeBool (b : bool) : bytes := [tagBool; if b then 1 else 0].
Definition EncodeNull : bytes := [tagNull].
Definition EncodeString (s : bytes) : bytes := appendOrderedBytes [tagString] s.
Definition EncodeMinKey : bytes := [tagMinKey].
Definition EncodeMaxKey : bytes := [tagMaxKey].

(** ** Fields, bounds and tree keys *)

Definition invert (k : bytes) : bytes := map (Z.lxor 0xFF) k.

Definition EncodeField (v : RawValue) (descending : bool) : keyErr + bytes :=
  match EncodeValue v with
  | inl e => inl e
  | inr k => inr (if descending then invert k else k)
  end.

Definition AppendField (dst : bytes) (v : RawValue) (descending : bool) : keyErr + bytes :=
  match appendValueKey dst v with
  | inl e => inl e
  | inr k => inr (if descending then take (length dst) k ++ invert (drop (length dst) k) else k)
  end.

Definition EncodeBoundMin (descending : bool) : bytes :=
  if descending then [Z.lxor 0xFF tagMaxKey] else [tagMinKey].

Definition EncodeBoundMax (descending : bool) : bytes :=
  if descending then [Z.lxor 0xFF tagMinKey] else [tagMaxKey].

Definition putRIDSuffix (rid : RID) : bytes := be_bytes 4 (PageNo rid) ++ be_bytes 2 (Slot rid).
Definition treeKey (field : bytes) (rid : RID) : bytes := field ++ putRIDSuffix rid.

(** The slice expression tk[len(tk)-6:] panics on a shorter key. *)
Definition ridFromSuffix {E} (tk : bytes) : res E RID :=
  if (length tk <? ridSuffixLen)%nat then Panic
  else
    let s := drop (length tk - ridSuffixLen) tk in
    Ok (MkRID (be_val (sub 0 4 s)) (be_val (sub 4 2 s))).

Definition fieldOf {E} (tk : bytes) : res E bytes :=
  if (length tk <? ridSuffixLen)%nat then Panic else Ok (take (length tk - ridSuffixLen) tk).

(** ** Decoding *)

Definition masked (mask : Z) (b : bytes) : bytes := map (fun c => Z.lxor c mask) b.
Definition readMasked64 (b : bytes) (mask : Z) : Z := be_val (masked mask b).
Definition readMasked32 (b : bytes) (mask : Z) : Z := be_val (masked mask b).

(** Go's x &^ y is x with the bits of y cleared. *)
Definition unflipSign (bits : Z) : Z :=
  if negb (Z.land bits (2 ^ 63) =? 0) then Z.ldiff bits (2 ^ 63) else not64 bits.

(** decodeString from position i on, out being what it has read. *)
Fixpoint decodeString_loop (b : bytes) (mask : Z) (out : bytes) (i : Z) : keyErr + (bytes * Z) :=
  match b with
  | [] => inl ErrCorruptKey
  | c0 :: b' =>
      let c := Z.lxor c0 mask in
      if c =? 0 then
        match b' with
        | [] => inl ErrCorruptKey
        | d0 :: b'' =>
            let d := Z.lxor d0 mask in
            if d =? 1 then inr (out, i + 2)
            else if d =? 0xFF then decodeString_loop b'' mask (out ++ [0]) (i + 2)
            else inl ErrCorruptKey
        end
      else decodeString_loop b' mask (out ++ [c]) (i + 1)
  end.

Definition decodeString (b : bytes) (mask : Z) : keyErr + (bytes * Z) := decodeString_loop b mask [] 0.

(** The switch of AppendDecodedField on the tag of the key b. *)
Definition decode_switch (bldr key b : bytes) (mask tag : Z) : keyErr + (bytes * Z) :=
  if tag =? tagMinKey then inr (AppendValue key (MkRawValue TypeMinKey []) bldr, 1)
  else if tag =? tagMaxKey then inr (AppendValue key (MkRawValue TypeMaxKey []) bldr, 1)
  else if tag =? tagNull then inr (AppendNull key bldr, 1)
  else if tag =? tagBool then
    if blen b <? 2 then inl ErrCorruptKey
    else inr (AppendBoolean key (negb (Z.lxor (nth 1 b 0) mask =? 0)) bldr, 2)
  else if tag =? tagNumber then
    if blen b <? 9 then inl ErrCorruptKey
    else inr (AppendDouble key (unflipSign (readMasked64 (sub 1 8 b) mask)) bldr, 9)
  else if tag =? tagDate then
    if blen b <? 9 then inl ErrCorruptKey
    else inr (AppendDateTime key (to_i64 (Z.lxor (readMasked64 (sub 1 8 b) mask) (2 ^ 63))) bldr, 9)
  else if tag =? tagTimestamp then
    if blen b <? 9 then inl ErrCorruptKey
    else
      let hi := readMasked32 (sub 1 4 b) mask in
      let lo := readMasked32 (sub 5 4 b) mask in
      inr (AppendTimestamp key (Z.lor (u64 (Z.shiftl hi 32)) lo) bldr, 9)
  else if tag =? tagObjectID then
    if blen b <? 13 then inl ErrCorruptKey
    else inr (AppendObjectID key (masked mask (sub 1 12 b)) bldr, 13)
  else if tag =? tagString then
    match decodeString (drop 1 b) mask with
    | inl e => inl e
    | inr (s, n) => inr (AppendString key s bldr, n + 1)
    end
  else if tag =? tagBinary then
    if blen b <? 5 then inl ErrCorruptKey
    else
      let ln := readMasked32 (sub 1 4 b) mask in
      if blen b <? 5 + ln + 1 then inl ErrCorruptKey
      else
        let data := masked mask (sub 5 (Z.to_nat ln) b) in
        let st := Z.lxor (nth (Z.to_nat (5 + ln)) b 0) mask in
        inr (AppendBinary key st data bldr, 5 + ln + 1)
  else inl ErrNotCovered.

Definition AppendDecodedField (bldr key b : bytes) (descending : bool) : keyErr + (bytes * Z) :=
  let mask := if descending then 0xFF else 0 in
  match b with
  | [] => inl ErrCorruptKey
  | b0 :: _ => decode_switch bldr key b mask (Z.lxor b0 mask)
  end.

Definition FieldLen (b : bytes) (descending : bool) : keyErr + Z :=
  match AppendDecodedField [] [95] b descending with
  | inl e => inl e
  | inr (_, n) => inr n
  end.

(** ** Words *)

Lemma land_sign_eqb b : in_u 64 b -> (Z.land b (2 ^ 63) =? 0) = negb (f64_neg b).
Proof.
  intros Hb. unfold f64_neg. destruct (Z.testbit b 63) eqn:E; cbn [negb].
  - apply Z.eqb_neq. intros H0. assert (H : Z.testbit (Z.land b (2 ^ 63)) 63 = true).
    { by rewrite Z.land_spec, E, Z.pow2_bits_true by lia. }
    by rewrite H0, Z.bits_0 in H.
  - apply Z.eqb_eq, Z.bits_inj'. intros n Hn. rewrite Z.land_spec, Z.bits_0.
    destruct (Z.eq_dec n 63) as [->|]; [by rewrite E|]. rewrite Z.pow2_bits_false by lia. by rewrite andb_false_r.
Qed.

Lemma lxor_ones w b : 0 <= w -> in_u w b -> Z.lxor b (2 ^ w - 1) = 2 ^ w - 1 - b.
Proof.
  intros Hw Hb. rewrite Z.sub_1_r, <- Z.ones_equiv.
  assert (H0 : Z.ldiff b (Z.ones w) = 0).
  { rewrite Z.ldiff_ones_r by done. rewrite Z.shiftr_div_pow2, Z.div_small by done. by rewrite Z.shiftl_0_l. }
  rewrite Z.sub_nocarry_ldiff by done. apply Z.bits_inj'. intros n Hn.
  rewrite Z.lxor_spec, Z.ldiff_spec. apply (f_equal (fun x => Z.testbit x n)) in H0.
  rewrite Z.ldiff_spec, Z.bits_0 in H0. by destruct (Z.testbit b n), (Z.testbit (Z.ones w) n).
Qed.

Lemma not64_sub b : in_u 64 b -> not64 b = 2 ^ 64 - 1 - b.
Proof. intros Hb. apply lxor_ones; [lia|done]. Qed.

Lemma lxor_255 c : byte_ok c -> Z.lxor 0xFF c = 255 - c.
Proof. intros Hc. rewrite Z.lxor_comm. apply (lxor_ones 8); [lia|done]. Qed.

Lemma lxor_sign_low y : 0 <= y < 2 ^ 63 -> Z.lxor y (2 ^ 63) = y + 2 ^ 63.
Proof.
  intros Hy. rewrite Z.add_nocarry_lxor; [done|]. apply Z.bits_inj'. intros n Hn.
  rewrite Z.land_spec, Z.bits_0. destruct (Z.eq_dec n 63) as [->|].
  - rewrite (Z.bits_above_log2 y); [done|lia|]. destruct (Z.eq_dec y 0) as [->|]; [simpl; lia|].
    apply Z.log2_lt_pow2; lia.
  - rewrite Z.pow2_bits_false by lia. by rewrite andb_false_r.
Qed.

(** Flipping the sign bit of a two's-complement word shifts it by 2^63. *)
Lemma lxor_sign x : int64 x -> Z.lxor (u64 x) (2 ^ 63) = x + 2 ^ 63.
Proof.
  unfold int64, wrap. intros Hx. destruct (Z.ltb_spec x 0).
  - replace (x mod 2 ^ 64) with (x + 2 ^ 63 + 2 ^ 63).
    + rewrite <- lxor_sign_low by lia. rewrite Z.lxor_assoc, Z.lxor_nilpotent, Z.lxor_0_r. done.
    + change (2 ^ 63) with 9223372036854775808 in *. change (2 ^ 64) with 18446744073709551616. zlia.
  - rewrite Z.mod_small by lia. apply lxor_sign_low. lia.
Qed.

(** The sign flip turns a word into its rank, moved up to start at zero. *)
Lemma flipSign_rank b : in_u 64 b -> flipSign b = f64_rank b + 2 ^ 63.
Proof.
  intros Hb. unfold flipSign. rewrite land_sign_eqb by done. unfold f64_rank.
  pose proof (f64_neg_ltb b Hb) as Hn. destruct (f64_neg b) eqn:E; cbn [negb].
  - rewrite not64_sub by done. symmetry in Hn. apply Z.leb_le in Hn. unfold f64_abs, in_u in *.
    change (2 ^ 63) with 9223372036854775808 in *. change (2 ^ 64) with 18446744073709551616 in *. zlia.
  - symmetry in Hn. apply Z.leb_gt in Hn. unfold in_u in Hb. rewrite <- Z.lxor_lor.
    + rewrite lxor_sign_low by lia. unfold f64_abs. by rewrite Z.mod_small by lia.
    + apply Z.eqb_eq. rewrite land_sign_eqb by done. by rewrite E.
Qed.

Lemma f64_rank_bounds b : - 2 ^ 63 <= f64_rank b < 2 ^ 63.
Proof.
  unfold f64_rank, f64_abs. pose proof (Z.mod_pos_bound b (2 ^ 63) ltac:(lia)). destruct (f64_neg b); lia.
Qed.

Lemma flipSign_u64 b : in_u 64 b -> in_u 64 (flipSign b).
Proof. intros Hb. rewrite flipSign_rank by done. pose proof (f64_rank_bounds b). unfold in_u. lia. Qed.

Lemma unflip_flip b : in_u 64 b -> unflipSign (flipSign b) = b.
Proof.
  intros Hb. unfold unflipSign. rewrite land_sign_eqb by by apply flipSign_u64.
  rewrite negb_involutive. rewrite (f64_neg_ltb (flipSign b)) by by apply flipSign_u64.
  pose proof (flipSign_u64 b Hb) as Hf. rewrite flipSign_rank in * by done.
  pose proof (f64_rank_bounds b) as Hr. pose proof (f64_neg_ltb b Hb) as Hn. unfold f64_rank in *.
  assert (Ha : 0 <= f64_abs b < 2 ^ 63) by (unfold f64_abs; apply Z.mod_pos_bound; lia).
  unfold in_u in Hb. destruct (f64_neg b); symmetry in Hn.
  - rewrite (proj2 (Z.leb_gt _ _)) by lia. rewrite not64_sub by done. apply Z.leb_le in Hn. unfold f64_abs.
    change (2 ^ 63) with 9223372036854775808 in *. change (2 ^ 64) with 18446744073709551616 in *. zlia.
  - rewrite (proj2 (Z.leb_le _ _)) by lia. apply Z.leb_gt in Hn.
    rewrite <- lxor_sign_low by done. assert (Hs : Z.testbit (f64_abs b) 63 = false).
    { fold (f64_neg (f64_abs b)). rewrite f64_neg_ltb by (unfold in_u; lia). apply Z.leb_gt. lia. }
    assert (Hb' : f64_abs b = b) by (unfold f64_abs; apply Z.mod_small; lia).
    apply Z.bits_inj'. intros n Hn'. rewrite Z.ldiff_spec, Z.lxor_spec, Hb'. rewrite Hb' in Hs.
    destruct (Z.eq_dec n 63) as [->|]; [by rewrite Hs, Z.pow2_bits_true by lia|].
    rewrite Z.pow2_bits_false by lia. by destruct (Z.testbit b n).
Qed.

(** ** Decisive encodings *)

(** x and y decide a comparison c whatever follows them, and when every byte is
    inverted they decide the opposite one: with c = Eq they are as good as equal,
    otherwise neither is a prefix of the other. *)
Definition dcmp (c : comparison) (x y : bytes) : Prop := forall s t,
  bcmp (x ++ s) (y ++ t) = then_cmp c (bcmp s t) /\
  bcmp (invert x ++ s) (invert y ++ t) = then_cmp (CompOpp c) (bcmp s t).

Lemma then_cmp_assoc c d e : then_cmp (then_cmp c d) e = then_cmp c (then_cmp d e).
Proof. by destruct c. Qed.

Lemma then_cmp_opp c d : CompOpp (then_cmp c d) = then_cmp (CompOpp c) (CompOpp d).
Proof. by destruct c. Qed.

Lemma bcmp_cons x y a b : bcmp (x :: a) (y :: b) = then_cmp (x ?= y) (bcmp a b).
Proof. cbn [bcmp]. by destruct (x ?= y). Qed.

Lemma dcmp_nil : dcmp Eq [] [].
Proof. done. Qed.

Lemma dcmp_app c d x y x' y' :
  dcmp c x y -> (c = Eq -> dcmp d x' y') -> dcmp (then_cmp c d) (x ++ x') (y ++ y').
Proof.
  intros Hc Hd s t. unfold invert. rewrite !map_app, <- !(app_assoc _ _ s), <- !(app_assoc _ _ t).
  destruct (Hc (x' ++ s) (y' ++ t)) as [H1 _], (Hc (invert x' ++ s) (invert y' ++ t)) as [_ H2].
  unfold invert in H2. rewrite H1, H2. rewrite then_cmp_opp, !then_cmp_assoc.
  destruct c; cbn [then_cmp CompOpp]; try done. by apply Hd.
Qed.

Lemma dcmp_lt_app x y u w : dcmp Lt x y -> dcmp Lt (x ++ u) (y ++ w).
Proof. intros H. by apply (dcmp_app Lt Eq). Qed.

Lemma dcmp_eq_app d x x' y' : dcmp Eq x x -> dcmp d x' y' -> dcmp d (x ++ x') (x ++ y').
Proof. intros H H'. by apply (dcmp_app Eq d). Qed.

Lemma dcmp_opp c x y : dcmp c x y -> dcmp (CompOpp c) y x.
Proof.
  intros H s t. destruct (H t s) as [H1 H2].
  rewrite (bcmp_antisym (x ++ t)), (bcmp_antisym (invert x ++ t)), H1, H2, !then_cmp_opp.
  by rewrite <- (bcmp_antisym t s).
Qed.

Lemma dcmp_byte x y : byte_ok x -> byte_ok y -> dcmp (x ?= y) [x] [y].
Proof.
  intros Hx Hy s t. unfold invert. cbn [map app bcmp]. rewrite !lxor_255 by done.
  split; [by destruct (x ?= y)|].
  assert (255 - x ?= 255 - y = CompOpp (x ?= y)) as ->.
  { rewrite <- Z.compare_antisym. destruct (Z.compare_spec y x) as [->|H|H];
      [apply Z.compare_refl|apply Z.compare_lt_iff|apply Z.compare_gt_iff]; lia. }
  by destruct (x ?= y).
Qed.

Lemma dcmp_cons c x y a b :
  byte_ok x -> byte_ok y -> (x = y -> dcmp c a b) -> dcmp (then_cmp (x ?= y) c) (x :: a) (y :: b).
Proof.
  intros Hx Hy H. apply (dcmp_app (x ?= y) c [x] [y]); [by apply dcmp_byte|].
  intros E. by apply H, Z.compare_eq.
Qed.

Lemma dcmp_len x y : bytes_ok x -> bytes_ok y -> length x = length y -> dcmp (bcmp x y) x y.
Proof.
  intros Hx. revert y. induction Hx as [|a x Ha Hx IH]; intros y Hy Hl.
  - destruct y; [apply dcmp_nil|done].
  - destruct Hy as [|b y Hb Hy]; [done|]. rewrite bcmp_cons. apply dcmp_cons; [done|done|].
    intros _. apply IH; [done|]. by injection Hl.
Qed.

Lemma dcmp_refl x : bytes_ok x -> dcmp Eq x x.
Proof. intros Hx. rewrite <- (bcmp_refl x). by apply dcmp_len. Qed.

Lemma dcmp_be n x y :
  in_u (8 * Z.of_nat n) x -> in_u (8 * Z.of_nat n) y -> dcmp (x ?= y) (be_bytes n x) (be_bytes n y).
Proof.
  intros Hx Hy. rewrite <- (bcmp_be_bytes n) by done.
  apply dcmp_len; [apply bytes_ok_be|apply bytes_ok_be|by rewrite !length_be_bytes].
Qed.

Lemma dcmp_byte_lt x y a b : byte_ok x -> byte_ok y -> x < y -> dcmp Lt (x :: a) (y :: b).
Proof.
  intros Hx Hy H. apply (dcmp_lt_app [x] [y]). rewrite <- (proj2 (Z.compare_lt_iff x y) H). by apply dcmp_byte.
Qed.

#[local] Ltac byte := unfold byte_ok; lia.

(** The escaping of strings is order preserving and no escaped string is a
    prefix of another. *)
Lemma dcmp_escape s t : bytes_ok s -> bytes_ok t -> dcmp (bcmp s t) (escape s ++ [0; 1]) (escape t ++ [0; 1]).
Proof.
  assert (Hlt : forall y b, byte_ok y -> dcmp Lt [0; 1] (escape (y :: b) ++ [0; 1])).
  { intros y b Hy. unfold byte_ok in Hy. cbn [escape]. destruct (Z.eqb_spec y 0); cbn [app].
    - apply (dcmp_lt_app [0; 1] [0; 255] [] (escape b ++ [0; 1])).
      change (dcmp (bcmp [0; 1] [0; 255]) [0; 1] [0; 255]).
      apply dcmp_len; [repeat constructor; byte|repeat constructor; byte|done].
    - apply (dcmp_byte_lt 0 y [1]); byte. }
  intros Hs. revert t. induction Hs as [|x s Hx Hs IH]; intros t Ht.
  - destruct Ht as [|y t Hy Ht]; [apply dcmp_refl; repeat constructor; byte|by apply Hlt].
  - destruct Ht as [|y t Hy Ht].
    { apply (dcmp_opp Lt [0; 1]). by apply Hlt. }
    rewrite bcmp_cons. cbn [escape]. unfold byte_ok in *.
    destruct (Z.eqb_spec x 0) as [->|], (Z.eqb_spec y 0) as [->|]; cbn [app].
    + cbn [Z.compare then_cmp]. apply (dcmp_eq_app _ [0; 255]); [apply dcmp_refl; repeat constructor; byte|by apply IH].
    + rewrite (proj2 (Z.compare_lt_iff 0 y)) by lia. apply dcmp_byte_lt; byte.
    + rewrite (proj2 (Z.compare_gt_iff x 0)) by lia. apply (dcmp_opp Lt). apply dcmp_byte_lt; byte.
    + apply dcmp_cons; [done|done|]. intros _. by apply IH.
Qed.

(** So is a NUL terminator after NUL-free bytes. *)
Lemma dcmp_cstr s t :
  bytes_ok s -> bytes_ok t -> ~ 0 ∈ s -> ~ 0 ∈ t -> dcmp (bcmp s t) (s ++ [0]) (t ++ [0]).
Proof.
  assert (Hlt : forall y b, byte_ok y -> y <> 0 -> dcmp Lt [0] ((y :: b) ++ [0])).
  { intros y b Hy Hn. unfold byte_ok in Hy. apply (dcmp_byte_lt 0 y []); byte. }
  intros Hs. revert t. induction Hs as [|x s Hx Hs IH]; intros t Ht Ns Nt.
  - destruct Ht as [|y t Hy Ht]; [apply dcmp_refl; repeat constructor; byte|].
    rewrite not_elem_of_cons in Nt. by apply Hlt; [|intros ->; destruct Nt].
  - rewrite not_elem_of_cons in Ns. destruct Ht as [|y t Hy Ht].
    { apply (dcmp_opp Lt [0]). by apply Hlt; [|intros ->; destruct Ns]. }
    rewrite not_elem_of_cons in Nt.
    rewrite bcmp_cons. apply (dcmp_cons (bcmp s t) x y (s ++ [0]) (t ++ [0])); [done|done|]. intros _.
    destruct Ns, Nt. by apply IH.
Qed.

(** ** What a key holds *)

(** The values whose keys are ordered as the values are: no NaN and no negative
    zero, integers of at most 53 bits, binary values of one subtype, no decimals
    and nothing nested. *)
Definition key_ordered (st : Z) (v : RawValue) : bool :=
  let t := rv_Type v in
  if t =? TypeDouble then negb (f64_isNaN (Double v)) && negb (Double v =? 2 ^ 63)
  else if t =? TypeInt64 then (- 2 ^ 53 <? Int64 v) && (Int64 v <? 2 ^ 53)
  else if t =? TypeBinary then match Binary v with Some (s, _) => s =? st | None => true end
  else negb (one_of t [TypeDecimal128; TypeDocument; TypeArray]).

Definition rank_tag (r : Z) : Z :=
  nth (Z.to_nat r) [tagMinKey; tagNull; tagNumber; tagString; tagDocument; tagArray; tagBinary; tagObjectID;
                    tagBool; tagDate; tagTimestamp; tagRegex; tagMaxKey] 0.

(** The bytes after the tag of a value of rank r. *)
Definition key_body (st r : Z) (v : RawValue) (body : bytes) : Prop :=
  if one_of r [rankNull; rankMinKey; rankMaxKey] then body = []
  else if r =? rankNumber then
    exists w, in_u 64 w /\ isNaN v = false /\ f64_isNaN w = false /\ w <> 2 ^ 63 /\ num_val v = f64_val w /\
              body = be_bytes 8 (flipSign w)
  else if r =? rankString then body = escape (StringValue v) ++ [0; 1] /\ bytes_ok (StringValue v)
  else if r =? rankBinary then
    exists data, Binary v = Some (st, data) /\ in_u 32 (blen data) /\ bytes_ok data /\ byte_ok st /\
                 body = be_bytes 4 (blen data) ++ data ++ [st]
  else if r =? rankObjectID then body = ObjectID v /\ bytes_ok body /\ length body = 12%nat
  else if r =? rankBool then body = [if Boolean v then 1 else 0]
  else if r =? rankDate then int64 (DateTime v) /\ body = be_bytes 8 (DateTime v + 2 ^ 63)
  else if r =? rankTimestamp then in_u 64 (Timestamp v) /\ body = be_bytes 8 (Timestamp v)
  else if r =? rankRegex then
    exists p o, Regex v = Some (p, o) /\ (bytes_ok p /\ ~ 0 ∈ p) /\ (bytes_ok o /\ ~ 0 ∈ o) /\ body = (p ++ [0]) ++ o ++ [0]
  else False.

(** Two bodies of the same rank decide the comparison of their values. *)
Lemma key_body_dcmp cmp st r a b x y :
  CanonicalType (rv_Type a) = r -> CanonicalType (rv_Type b) = r -> v_ok a -> v_ok b ->
  key_body st r a x -> key_body st r b y -> dcmp (compare_rank cmp r a b) x y.
Proof.
  intros Ra Rb Ha Hb. unfold key_body, compare_rank. destruct (one_of r _); [intros -> ->; apply dcmp_nil|].
  destruct (Z.eqb_spec r rankNumber) as [E|].
  { intros (w & Hw & Na & Nw & Zw & Vw & ->) (w' & Hw' & Nb & Nw' & Zw' & Vw' & ->).
    rewrite compareNumbers_num_cmp by (unfold is_number; congruence || done). unfold num_cmp.
    rewrite Na, Nb, Vw, Vw'. cbn [Z.b2z Z.compare then_cmp].
    assert (f64_val w ?= f64_val w' = (flipSign w ?= flipSign w')) as ->.
    { rewrite !flipSign_rank by done. destruct (Z.compare_spec (f64_val w) (f64_val w')) as [Ev|Hlt|Hlt].
      - destruct (f64_val_eq w w' Hw Hw' Ev) as [->|[Hz Hz']]; [by rewrite Z.compare_refl|].
        assert (Hzero : forall u, in_u 64 u -> u <> 2 ^ 63 -> f64_abs u = 0 -> u = 0).
        { intros u Hu Hne Hau. unfold f64_abs, in_u in *. change (2 ^ 63) with 9223372036854775808 in *.
          change (2 ^ 64) with 18446744073709551616 in *. zlia. }
        rewrite (Hzero w), (Hzero w') by done. done.
      - apply f64_val_rank in Hlt. symmetry. apply Z.compare_lt_iff. lia.
      - apply f64_val_rank in Hlt. symmetry. apply Z.compare_gt_iff. lia. }
    apply (dcmp_be 8); by apply flipSign_u64. }
  destruct (r =? rankString); [intros [-> Hx] [-> Hy]; by apply dcmp_escape|].
  destruct (Z.eqb_spec r rankObject) as [->|]; [intros []|]. destruct (Z.eqb_spec r rankArray) as [->|]; [intros []|].
  destruct (r =? rankBinary).
  { intros (d & Ba & Hd & Okd & Hst & ->) (d' & Bb & Hd' & Okd' & _ & ->). unfold compareBinary. rewrite Ba, Bb. cbn [default from_option id].
    rewrite Z.compare_refl. cbn [then_cmp].
    apply (dcmp_app _ (bcmp d d')); [by apply (dcmp_be 4)|]. intros E. apply Z.compare_eq in E.
    replace (bcmp d d') with (then_cmp (bcmp d d') Eq) by by destruct (bcmp d d').
    apply dcmp_app; [apply dcmp_len; unfold blen in E; (done || lia)|]. intros _. apply dcmp_refl. by apply Forall_singleton. }
  destruct (r =? rankObjectID); [intros (-> & Hx & Hlx) (-> & Hy & Hly); apply dcmp_len; [done|done|congruence]|].
  destruct (r =? rankBool).
  { intros -> ->. unfold cmpBool. destruct (Boolean a), (Boolean b); apply dcmp_byte; unfold byte_ok; lia. }
  destruct (r =? rankDate).
  { intros [Hda ->] [Hdb ->]. replace (DateTime a ?= DateTime b) with (DateTime a + 2 ^ 63 ?= DateTime b + 2 ^ 63)
      by (rewrite !(Z.add_comm _ (2 ^ 63)); apply Z.add_compare_mono_l).
    apply (dcmp_be 8); unfold int64, in_u in *; lia. }
  destruct (r =? rankTimestamp); [intros [Hta ->] [Htb ->]; by apply (dcmp_be 8)|].
  destruct (r =? rankRegex); [|done].
  intros (p & o & Ea & [Hp Np] & [Ho No] & ->) (p' & o' & Eb & [Hp' Np'] & [Ho' No'] & ->).
  unfold compareRegex. rewrite Ea, Eb. cbn [default from_option id].
  apply dcmp_app; [by apply dcmp_cstr|]. intros _. by apply dcmp_cstr.
Qed.

Lemma one_of_spec t ts : one_of t ts = true <-> t ∈ ts.
Proof.
  unfold one_of. rewrite existsb_exists. split.
  - intros (x & Hx & E). apply Z.eqb_eq in E. subst. by apply list_elem_of_In.
  - intros H. exists t. split; [by apply list_elem_of_In|apply Z.eqb_refl].
Qed.

Lemma find_nul_spec b i : find_nul b = Some i -> ~ 0 ∈ take i b /\ (i < length b)%nat.
Proof.
  revert i. induction b as [|c b IH]; intros i; cbn [find_nul]; [done|].
  destruct (Z.eqb_spec c 0) as [->|Hc].
  - intros [= <-]. split; [rewrite take_0; apply not_elem_of_nil|cbn [length]; lia].
  - destruct (find_nul b) as [j|] eqn:E; [|done]. intros [= <-]. destruct (IH j eq_refl) as [H1 H2].
    cbn [take length]. split; [|lia]. by rewrite not_elem_of_cons.
Qed.

Lemma Regex_parts v p o :
  v_ok v -> Regex v = Some (p, o) -> (bytes_ok p /\ ~ 0 ∈ p) /\ (bytes_ok o /\ ~ 0 ∈ o).
Proof.
  intros Hv. unfold Regex, cstrEnd. destruct (negb _); [done|].
  destruct (find_nul (drop 0 (rv_Data v))) as [i|] eqn:Ei; [|done]. cbn [fmap option_fmap option_map Nat.add].
  destruct (find_nul (drop (i + 1) (rv_Data v))) as [j|] eqn:Ej; [|done]. cbn [fmap option_fmap option_map].
  intros [= <- <-]. rewrite drop_0 in Ei. apply find_nul_spec in Ei as [Hi _]. apply find_nul_spec in Ej as [Hj _].
  unfold sub. replace (i + 1 + j - (i + 1))%nat with j by lia.
  split; (split; [|done]); [by apply Forall_take|by apply Forall_take, Forall_drop].
Qed.

Lemma pay_of_u32 v : v_ok v -> in_u 32 (pay 4 v).
Proof. apply (pay_in_u 4). Qed.

Lemma Binary_parts v st d :
  v_ok v -> Binary v = Some (st, d) -> byte_ok st /\ bytes_ok d /\ in_u 32 (blen d).
Proof.
  intros Hv. unfold Binary. destruct (negb _ || _) eqn:E; [done|]. apply orb_false_iff in E as [_ E].
  apply Z.ltb_ge in E. pose proof (pay_of_u32 v Hv) as Hp.
  destruct ((pay 4 v <? 0) || (5 + pay 4 v >? blen (rv_Data v))) eqn:E2; [done|]. intros [= <- <-].
  apply orb_false_iff in E2 as [_ E2]. rewrite Z.gtb_ltb in E2. apply Z.ltb_ge in E2. unfold in_u, blen in *.
  split_and!.
  - apply Forall_nth; [done|lia].
  - by apply sub_Forall.
  - lia.
  - rewrite length_sub by lia. lia.
Qed.

Lemma StringValue_parts v s : v_ok v -> StringValueOK v = (s, true) -> bytes_ok s /\ in_u 32 (blen s + 1).
Proof.
  intros Hv. unfold StringValueOK. destruct (negb _); [done|]. destruct (_ <? 4); [done|].
  pose proof (pay_of_u32 v Hv) as Hp.
  destruct ((pay 4 v <? 1) || (4 + pay 4 v >? blen (rv_Data v))) eqn:E2; [done|]. intros [= <-].
  apply orb_false_iff in E2 as [E1 E2]. rewrite Z.gtb_ltb in E2. apply Z.ltb_ge in E1, E2. unfold in_u, blen in *.
  split; [by apply sub_Forall|]. rewrite length_sub by lia. lia.
Qed.

Lemma ObjectID_parts v : v_ok v -> bytes_ok (ObjectID v) /\ length (ObjectID v) = 12%nat.
Proof.
  intros Hv. unfold ObjectID. destruct ((rv_Type v =? TypeObjectID) && (blen (rv_Data v) >=? 12)) eqn:E.
  - apply andb_true_iff in E as [_ E]. rewrite Z.geb_leb in E. apply Z.leb_le in E. unfold blen in E.
    split; [by apply sub_Forall|]. apply length_sub. lia.
  - split; [|done]. apply Forall_replicate. done.
Qed.

Lemma DateTime_int64 v : v_ok v -> int64 (DateTime v).
Proof.
  intros Hv. unfold DateTime, int64. destruct (_ || _); [lia|]. apply to_i64_range. by apply (pay_in_u 8).
Qed.

Lemma Int64_int64 v : v_ok v -> int64 (Int64 v).
Proof.
  intros Hv. unfold Int64, Int64OK, int64. destruct (_ || _); [cbn [fst]; lia|]. cbn [fst]. apply to_i64_range. by apply (pay_in_u 8).
Qed.

Lemma Int32_range v : v_ok v -> - 2 ^ 31 <= Int32 v < 2 ^ 31.
Proof.
  intros Hv. unfold Int32, Int32OK, to_i32. destruct (_ || _); [cbn [fst]; lia|]. cbn [fst].
  pose proof (pay_of_u32 v Hv) as Hp. unfold in_u in Hp. destruct (Z.ltb_spec (pay 4 v) (2 ^ 31)); lia.
Qed.

Lemma Double_u64 v : v_ok v -> in_u 64 (Double v).
Proof.
  intros Hv. unfold Double, DoubleOK. destruct (_ || _); cbn [fst]; [unfold in_u; lia|]. by apply (pay_in_u 8).
Qed.

Lemma Timestamp_u64 v : v_ok v -> in_u 64 (Timestamp v).
Proof.
  intros Hv. unfold Timestamp. destruct (_ || _); [unfold in_u; lia|]. by apply (pay_in_u 8).
Qed.

Lemma f64_of_int_not_negzero i : int64 i -> f64_of_int i <> 2 ^ 63.
Proof.
  unfold int64, f64_of_int. intros Hi. destruct (Z.eqb_spec i 0); [done|]. destruct (Z.ltb_spec i 0).
  - pose proof (f64_of_pos_bound (- i)). lia.
  - pose proof (f64_of_pos_bound i). lia.
Qed.

Lemma number_body st v i :
  asInt64 v = Some i -> - 2 ^ 53 < i < 2 ^ 53 -> rv_Type v <> TypeDouble ->
  key_body st rankNumber v (be_bytes 8 (flipSign (f64_of_int i))).
Proof.
  intros Hi Hr Ht. assert (H64 : int64 i) by (unfold int64; lia).
  exists (f64_of_int i). split_and!; try done.
  - by apply f64_of_int_u64.
  - unfold isNaN, DoubleOK. by rewrite (proj2 (Z.eqb_neq _ _) Ht).
  - by apply f64_finite_not_nan, f64_of_int_finite.
  - by apply f64_of_int_not_negzero.
  - unfold num_val. rewrite (proj2 (Z.eqb_neq _ _) Ht), Hi. by rewrite f64_of_int_exact.
Qed.

Lemma be_bytes_wrap n v : be_bytes n (wrap (8 * Z.of_nat n) v) = be_bytes n v.
Proof.
  unfold be_bytes. f_equal. revert v. induction n as [|n IH]; intros v; [done|]. cbn [le_bytes].
  unfold wrap in *. rewrite pow256_S. assert (0 < 2 ^ (8 * Z.of_nat n)) by (apply Z.pow_pos_nonneg; lia).
  rewrite Z.rem_mul_r by lia. f_equal.
  - rewrite (Z.mul_comm 256), Z.mod_add by lia. by rewrite Zmod_mod.
  - rewrite <- (IH (v / 256)). f_equal. rewrite (Z.mul_comm 256), Z.div_add by lia.
    rewrite Z.div_small by (apply Z.mod_pos_bound; lia). done.
Qed.

Lemma be_bytes_app n m v : be_bytes (n + m) v = be_bytes n (v / 2 ^ (8 * Z.of_nat m)) ++ be_bytes m v.
Proof.
  revert v. induction m as [|m IH]; intros v.
  - by rewrite Nat.add_0_r, Z.div_1_r, app_nil_r.
  - rewrite Nat.add_succ_r, !be_bytes_S, IH, <- app_assoc, pow256_S, Z.div_div by lia. done.
Qed.

(** The two big-endian halves of a 64-bit word are the word. *)
Lemma be_bytes_two_words x : be_bytes 4 (u32 (Z.shiftr x 32)) ++ be_bytes 4 (u32 x) = be_bytes 8 x.
Proof.
  rewrite (be_bytes_app 4 4), (be_bytes_wrap 4), (be_bytes_wrap 4). by rewrite Z.shiftr_div_pow2 by lia.
Qed.

Lemma EncodeValue_unfold v :
  EncodeValue v = valueKey_fuel (S (length (rv_Data v))) [] v.
Proof. done. Qed.

(** An ordered value's key is its rank's tag and its body. *)
Lemma key_body_of st v k :
  v_ok v -> key_ordered st v = true -> EncodeValue v = inr k ->
  let r := CanonicalType (rv_Type v) in exists body, k = rank_tag r :: body /\ key_body st r v body.
Proof.
  intros Hv Ho Hk r. rewrite EncodeValue_unfold in Hk. cbn [valueKey_fuel app] in Hk. unfold key_ordered in Ho.
  assert (Hr : forall T, rv_Type v = T -> r = CanonicalType T) by (intros T <-; reflexivity).
  destruct (Z.eqb_spec (rv_Type v) TypeMinKey) as [E|].
  { injection Hk as <-. rewrite (Hr _ E). by exists []. }
  destruct (Z.eqb_spec (rv_Type v) TypeMaxKey) as [E|].
  { injection Hk as <-. rewrite (Hr _ E). by exists []. }
  destruct (one_of (rv_Type v) [TypeNull; TypeUndefined]) eqn:E1.
  { injection Hk as <-. apply one_of_spec in E1. rewrite !elem_of_cons, elem_of_nil in E1.
    destruct E1 as [E|[E|[]]]; rewrite (Hr _ E); by exists []. }
  destruct (Z.eqb_spec (rv_Type v) TypeDouble) as [E|Nd].
  { injection Hk as <-. rewrite (Hr _ E). apply andb_true_iff in Ho as [H1 H2].
    apply negb_true_iff in H1, H2. apply Z.eqb_neq in H2.
    exists (be_bytes 8 (flipSign (Double v))). split; [done|]. exists (Double v).
    pose proof (Double_u64 v Hv). split_and!; try done.
    - unfold isNaN. unfold Double in H1. destruct (DoubleOK v) as [w ok]. cbn [fst] in H1. rewrite H1. by destruct ok.
    - unfold num_val. by rewrite E. }
  destruct (Z.eqb_spec (rv_Type v) TypeInt32) as [E|].
  { injection Hk as <-. rewrite (Hr _ E). eexists. split; [done|]. pose proof (Int32_range v Hv).
    apply number_body; [unfold asInt64; by rewrite E|lia|done]. }
  destruct (Z.eqb_spec (rv_Type v) TypeInt64) as [E|].
  { injection Hk as <-. rewrite (Hr _ E). eexists. split; [done|].
    apply andb_true_iff in Ho as [H1 H2]. apply Z.ltb_lt in H1, H2.
    apply number_body; [unfold asInt64; by rewrite E|lia|done]. }
  destruct (Z.eqb_spec (rv_Type v) TypeDecimal128) as [E|]; [by rewrite E in Ho|].
  destruct (one_of (rv_Type v) [TypeString; TypeSymbol; TypeJavaScript]) eqn:E2.
  { assert (r = rankString) as ->.
    { apply one_of_spec in E2. rewrite !elem_of_cons, elem_of_nil in E2.
      destruct E2 as [E|[E|[E|[]]]]; exact (Hr _ E). }
    destruct (StringValueOK v) as [s ok] eqn:Es. destruct ok; [|done]. injection Hk as <-.
    apply StringValue_parts in Es as Hs; [|done]. exists (escape s ++ [0; 1]). split; [done|].
    assert (StringValue v = s) as E by (unfold StringValue; by rewrite Es).
    change (escape s ++ [0; 1] = escape (StringValue v) ++ [0; 1] /\ bytes_ok (StringValue v)). rewrite E. by destruct Hs. }
  destruct (Z.eqb_spec (rv_Type v) TypeObjectID) as [E|].
  { injection Hk as <-. rewrite (Hr _ E). exists (ObjectID v). split; [done|]. split; [done|]. by apply ObjectID_parts. }
  destruct (Z.eqb_spec (rv_Type v) TypeBoolean) as [E|].
  { injection Hk as <-. rewrite (Hr _ E). by eexists. }
  destruct (Z.eqb_spec (rv_Type v) TypeDateTime) as [E|].
  { injection Hk as <-. rewrite (Hr _ E). pose proof (DateTime_int64 v Hv). exists (be_bytes 8 (DateTime v + 2 ^ 63)).
    unfold appendOrderedInt64. rewrite lxor_sign by done. done. }
  destruct (Z.eqb_spec (rv_Type v) TypeTimestamp) as [E|].
  { injection Hk as <-. rewrite (Hr _ E). pose proof (Timestamp_u64 v Hv) as Ht. exists (be_bytes 8 (Timestamp v)).
    split; [|done].
    exact (f_equal (cons tagTimestamp) (be_bytes_two_words (Timestamp v))). }
  destruct (Z.eqb_spec (rv_Type v) TypeBinary) as [E|].
  { destruct (Binary v) as [[s d]|] eqn:Eb; [|done]. injection Hk as <-. rewrite (Hr _ E).
    apply Z.eqb_eq in Ho as ->. destruct (Binary_parts v _ _ Hv Eb) as (H1 & H2 & H3).
    rewrite (wrap_small 32) by done. eexists. split; [done|]. by exists d. }
  destruct (Z.eqb_spec (rv_Type v) TypeRegex) as [E|].
  { destruct (Regex v) as [[p o]|] eqn:Eb; [|done]. injection Hk as <-. rewrite (Hr _ E).
    destruct (Regex_parts v _ _ Hv Eb). eexists. split; [done|]. exists p, o.
    do 3 (split; [done|]). by rewrite <- app_assoc. }
  destruct (Z.eqb_spec (rv_Type v) TypeDocument) as [E|]; [by rewrite E in Ho|].
  destruct (Z.eqb_spec (rv_Type v) TypeArray) as [E|]; [by rewrite E in Ho|done].
Qed.

Lemma rank_bounds t : 0 <= CanonicalType t <= 12.
Proof.
  unfold CanonicalType, rankMinKey, rankNull, rankNumber, rankString, rankObject, rankArray, rankBinary, rankObjectID,
    rankBool, rankDate, rankTimestamp, rankRegex, rankMaxKey. repeat case_match; lia.
Qed.

(** Tags are in the order of the ranks. *)
Lemma rank_tag_compare r s :
  0 <= r <= 12 -> 0 <= s <= 12 ->
  byte_ok (rank_tag r) /\ (rank_tag r ?= rank_tag s) = (r ?= s).
Proof.
  intros Hr Hs.
  assert (Hall : forallb (fun i => forallb (fun j => (0 <=? rank_tag i) && (rank_tag i <? 256) &&
      match rank_tag i ?= rank_tag j, i ?= j with Eq, Eq | Lt, Lt | Gt, Gt => true | _, _ => false end)
      (map Z.of_nat (seq 0 13))) (map Z.of_nat (seq 0 13)) = true) by (vm_compute; reflexivity).
  assert (Hin : forall i, 0 <= i <= 12 -> In i (map Z.of_nat (seq 0 13))).
  { intros i Hi. apply in_map_iff. exists (Z.to_nat i). split; [lia|]. apply in_seq. lia. }
  rewrite forallb_forall in Hall. specialize (Hall r (Hin r Hr)). rewrite forallb_forall in Hall.
  specialize (Hall s (Hin s Hs)). rewrite !andb_true_iff in Hall. destruct Hall as [[H1 H2] H3].
  apply Z.leb_le in H1. apply Z.ltb_lt in H2. split; [done|].
  by destruct (rank_tag r ?= rank_tag s), (r ?= s).
Qed.

Lemma Compare_unfold a b :
  Compare a b = then_cmp (CanonicalType (rv_Type a) ?= CanonicalType (rv_Type b))
    (compare_rank (compare_fuel (length (rv_Data a))) (CanonicalType (rv_Type a)) a b).
Proof.
  unfold Compare. cbn [compare_fuel].
  destruct (Z.compare_spec (CanonicalType (rv_Type a)) (CanonicalType (rv_Type b))) as [E|E|E]; cbn [then_cmp].
  - by rewrite E, Z.eqb_refl.
  - rewrite (proj2 (Z.eqb_neq _ _)) by lia. cbn [negb]. by rewrite (proj2 (Z.ltb_lt _ _)).
  - rewrite (proj2 (Z.eqb_neq _ _)) by lia. cbn [negb]. by rewrite (proj2 (Z.ltb_ge _ _)) by lia.
Qed.

Lemma value_key_dcmp st a b ka kb :
  v_ok a -> v_ok b -> key_ordered st a = true -> key_ordered st b = true ->
  EncodeValue a = inr ka -> EncodeValue b = inr kb -> dcmp (Compare a b) ka kb.
Proof.
  intros Ha Hb Oa Ob Ka Kb.
  destruct (key_body_of st a ka Ha Oa Ka) as (x & -> & Hx). destruct (key_body_of st b kb Hb Ob Kb) as (y & -> & Hy).
  rewrite Compare_unfold. pose proof (rank_bounds (rv_Type a)) as Ra. pose proof (rank_bounds (rv_Type b)) as Rb.
  destruct (rank_tag_compare _ _ Ra Rb) as [H1 H2]. destruct (rank_tag_compare _ _ Rb Ra) as [H3 _].
  rewrite <- H2. apply dcmp_cons; [done|done|]. intros E.
  assert (Er : CanonicalType (rv_Type a) = CanonicalType (rv_Type b)).
  { apply Z.compare_eq. rewrite <- H2, E. apply Z.compare_refl. }
  rewrite <- Er in Hy. by eapply key_body_dcmp.
Qed.

(** ** Prefixes and compound keys *)

Definition on_res {E A B} (f : A -> B) (m : E + A) : E + B := match m with inl e => inl e | inr a => inr (f a) end.

Lemma docKey_loop_dst f :
  (forall dst v, f dst v = on_res (app dst) (f [] v)) ->
  forall es dst, docKey_loop f dst es = on_res (app dst) (docKey_loop f [] es).
Proof.
  intros Hf es. induction es as [|e es IH]; intros dst; cbn [docKey_loop]; [done|].
  rewrite (Hf (dst ++ _)), (Hf ([] ++ _)). destruct (f [] (Value e)) as [|k]; cbn [on_res]; [done|].
  rewrite IH, (IH (([] ++ escape_name (Key e) ++ [0]) ++ k)).
  destruct (docKey_loop f [] es); cbn [on_res]; [done|]. cbn [app]. by rewrite !app_assoc.
Qed.

(** Every encoder appends: what is there already is only carried along. *)
Lemma valueKey_dst n dst v : valueKey_fuel n dst v = on_res (app dst) (valueKey_fuel n [] v).
Proof.
  revert dst v. induction n as [|n IH]; intros dst v; [done|]. cbn [valueKey_fuel].
  repeat (match goal with |- context [if ?c then _ else _] => destruct c end;
    [cbn [on_res]; try (by unfold appendNumber, appendSignFlipped64, appendDecimal128, appendOrderedInt64; rewrite ?app_nil_l, <- ?app_assoc)|]); try done.
  - destruct (StringValueOK v) as [s []]; cbn [negb on_res]; [|done].
    unfold appendString, appendOrderedBytes. by rewrite <- !app_assoc.
  - by destruct (Binary v) as [[]|].
  - by destruct (Regex v) as [[]|].
  - unfold appendDocKey. destruct (Elements (Document v)) as [|es]; [done|].
    rewrite (docKey_loop_dst _ IH _ (dst ++ _)), (docKey_loop_dst _ IH _ ([] ++ _)).
    destruct (docKey_loop _ [] _); cbn [on_res app]; [done|]. by rewrite <- !app_assoc.
  - unfold appendDocKey. destruct (Elements (Document v)) as [|es]; [done|].
    rewrite (docKey_loop_dst _ IH _ (dst ++ _)), (docKey_loop_dst _ IH _ ([] ++ _)).
    destruct (docKey_loop _ [] _); cbn [on_res app]; [done|]. by rewrite <- !app_assoc.
Qed.

Lemma AppendField_dst dst v desc : AppendField dst v desc = on_res (app dst) (EncodeField v desc).
Proof.
  unfold AppendField, EncodeField, EncodeValue, appendValueKey. rewrite valueKey_dst.
  destruct (valueKey_fuel _ [] v) as [|k]; cbn [on_res]; [done|].
  rewrite take_app_length, drop_app_length. by destruct desc.
Qed.

(** The inner loop of IndexSpec.Keys: one value and direction per key part. *)
Fixpoint AppendFields (k : bytes) (fs : list (RawValue * bool)) : keyErr + bytes :=
  match fs with
  | [] => inr k
  | (v, desc) :: fs' =>
      match AppendField k v desc with
      | inl e => inl e
      | inr k' => AppendFields k' fs'
      end
  end.

Lemma AppendFields_cons k v desc fs r :
  AppendFields k ((v, desc) :: fs) = inr r ->
  exists kv kr, EncodeField v desc = inr kv /\ AppendFields [] fs = inr kr /\ r = k ++ kv ++ kr.
Proof.
  assert (Hd : forall fs k, AppendFields k fs = on_res (app k) (AppendFields [] fs)).
  { clear. induction fs as [|[v desc] fs IH]; intros k; cbn [AppendFields on_res]; [by rewrite app_nil_r|].
    rewrite !AppendField_dst. destruct (EncodeField v desc) as [|kv]; cbn [on_res]; [done|].
    rewrite (IH (k ++ kv)), (IH ([] ++ kv)). destruct (AppendFields [] fs); cbn [on_res app]; [done|]. by rewrite app_assoc. }
  cbn [AppendFields]. rewrite AppendField_dst. destruct (EncodeField v desc) as [|kv]; cbn [on_res]; [done|].
  rewrite Hd. destruct (AppendFields [] fs) as [|kr]; cbn [on_res]; [done|]. intros [= <-].
  exists kv, kr. by rewrite app_assoc.
Qed.

(** A direction turns a comparison round. *)
Definition directed (desc : bool) (c : comparison) : comparison := if desc then CompOpp c else c.

(** The order an index promises: field by field, each in its own direction. *)
Fixpoint fields_cmp (descs : list bool) (vs ws : list RawValue) : comparison :=
  match descs, vs, ws with
  | d :: descs', v :: vs', w :: ws' => then_cmp (directed d (Compare v w)) (fields_cmp descs' vs' ws')
  | _, _, _ => Eq
  end.

Definition rid_cmp (a b : RID) : comparison := then_cmp (PageNo a ?= PageNo b) (Slot a ?= Slot b).

Lemma field_key_app st desc a b ka kb s t :
  v_ok a -> v_ok b -> key_ordered st a = true -> key_ordered st b = true ->
  EncodeField a desc = inr ka -> EncodeField b desc = inr kb ->
  bcmp (ka ++ s) (kb ++ t) = then_cmp (directed desc (Compare a b)) (bcmp s t).
Proof.
  intros Ha Hb Oa Ob. unfold EncodeField.
  destruct (EncodeValue a) as [|ka'] eqn:Ka; [done|]. destruct (EncodeValue b) as [|kb'] eqn:Kb; [done|].
  intros [= <-] [= <-]. destruct (value_key_dcmp st a b ka' kb' Ha Hb Oa Ob Ka Kb s t) as [H1 H2].
  by destruct desc.
Qed.

Lemma fields_key_app st descs vs ws ka kb s t :
  Forall (fun v => v_ok v /\ key_ordered st v = true) vs -> Forall (fun v => v_ok v /\ key_ordered st v = true) ws ->
  length vs = length descs -> length ws = length descs ->
  AppendFields [] (zip vs descs) = inr ka -> AppendFields [] (zip ws descs) = inr kb ->
  bcmp (ka ++ s) (kb ++ t) = then_cmp (fields_cmp descs vs ws) (bcmp s t).
Proof.
  intros Hv. revert ws descs ka kb. induction Hv as [|v vs [Hv Ov] Hvs IH]; intros ws [|d descs] ka kb Hw; try done.
  - destruct ws; [|done]. by intros _ _ [= <-] [= <-].
  - destruct Hw as [|w ws [Hw Ow] Hws]; [done|]. intros Hl1 Hl2. cbn [zip zip_with].
    intros (kv & kr & Ev & Er & ->)%AppendFields_cons (kw & kr' & Ew & Er' & ->)%AppendFields_cons.
    cbn [app fields_cmp]. rewrite <- !(app_assoc kv), <- !(app_assoc kw).
    rewrite (field_key_app st d v w kv kw) by done. rewrite then_cmp_assoc. f_equal.
    cbn [length] in Hl1, Hl2. by apply (IH ws descs); try lia.
Qed.

Lemma putRIDSuffix_cmp a b : rid_ok a -> rid_ok b -> bcmp (putRIDSuffix a) (putRIDSuffix b) = rid_cmp a b.
Proof.
  intros [Pa Sa] [Pb Sb]. unfold putRIDSuffix, rid_cmp. rewrite bcmp_app_len by by rewrite !length_be_bytes.
  rewrite (bcmp_be_bytes 4), (bcmp_be_bytes 2) by done. by destruct (PageNo a ?= PageNo b).
Qed.

(** ** Decoding *)

Lemma masked_masked mask b : masked mask (masked mask b) = b.
Proof.
  unfold masked. rewrite map_map. induction b as [|c b IH]; [done|]. cbn [map]. f_equal; [|done].
  by rewrite Z.lxor_assoc, Z.lxor_nilpotent, Z.lxor_0_r.
Qed.

(** Inverting, and leaving alone, are both masking. *)
Definition mask_of (desc : bool) : Z := if desc then 0xFF else 0.

Lemma directed_masked (desc : bool) (k : bytes) : (if desc then invert k else k) = masked (mask_of desc) k.
Proof.
  unfold masked, invert. destruct desc; cbn [mask_of].
  - apply map_ext. intros c. apply Z.lxor_comm.
  - induction k as [|c k IH]; [done|]. cbn [map]. by rewrite Z.lxor_0_r, <- IH.
Qed.

Lemma length_masked m b : length (masked m b) = length b.
Proof. apply length_map. Qed.

Lemma masked_app m a b : masked m (a ++ b) = masked m a ++ masked m b.
Proof. apply map_app. Qed.

Lemma sub_masked m off n b : sub off n (masked m b) = masked m (sub off n b).
Proof. unfold sub, masked. by rewrite skipn_map, firstn_map. Qed.

(** Reading back a stretch of a masked key, whatever follows the key. *)
Lemma read_masked m off n k rest :
  (off + n <= length k)%nat -> masked m (sub off n (masked m k ++ rest)) = sub off n k.
Proof.
  intros H. rewrite sub_app_l by by rewrite length_masked. by rewrite sub_masked, masked_masked.
Qed.

Lemma nth_masked m i k rest :
  (i < length k)%nat -> Z.lxor (nth i (masked m k ++ rest) 0) m = nth i k 0.
Proof.
  intros H. rewrite app_nth1 by by rewrite length_masked.
  rewrite (nth_indep _ 0 (Z.lxor 0 m)) by by rewrite length_masked.
  unfold masked. rewrite (map_nth (fun c => Z.lxor c m) k 0 i). by rewrite Z.lxor_assoc, Z.lxor_nilpotent, Z.lxor_0_r.
Qed.

Lemma decodeString_escape m s rest : bytes_ok s -> forall out i,
  decodeString_loop (masked m (escape s ++ [0; 1]) ++ rest) m out i = inr (out ++ s, i + blen (escape s) + 2).
Proof.
  intros Hs. induction Hs as [|c s Hc Hs IH]; intros out i.
  - cbn -[Z.lxor Z.add]. rewrite !Z.lxor_assoc, Z.lxor_nilpotent. cbn -[Z.add]. by rewrite app_nil_r, Z.add_0_r.
  - assert (Hl : forall x y, Z.lxor (Z.lxor x y) y = x) by (intros; by rewrite Z.lxor_assoc, Z.lxor_nilpotent, Z.lxor_0_r).
    cbn [escape]. destruct (Z.eqb_spec c 0) as [->|Hne].
    + rewrite <- app_assoc, masked_app, <- app_assoc.
      change (masked m [0; 255]) with [Z.lxor 0 m; Z.lxor 255 m]. cbn [app decodeString_loop]. rewrite !Hl. cbn [Z.eqb Pos.eqb].
      rewrite IH. f_equal. f_equal; [by rewrite <- app_assoc|]. unfold blen. cbn [app length]. lia.
    + cbn [app]. change (masked m (c :: escape s ++ [0; 1])) with (Z.lxor c m :: masked m (escape s ++ [0; 1])).
      cbn [app decodeString_loop]. rewrite Hl, (proj2 (Z.eqb_neq c 0)) by done.
      rewrite IH. f_equal. f_equal; [by rewrite <- app_assoc|]. unfold blen. cbn [length]. lia.
Qed.

(** The types a covered scan can rebuild, and the values it rebuilds: numbers
    come back as doubles, symbols and code as strings, undefined as null. *)
Definition coverable (v : RawValue) : bool :=
  negb (one_of (rv_Type v) [TypeDecimal128; TypeRegex; TypeDocument; TypeArray]).

Definition decoded (v : RawValue) : RawValue :=
  let t := rv_Type v in
  if t =? TypeMinKey then MkRawValue TypeMinKey []
  else if t =? TypeMaxKey then MkRawValue TypeMaxKey []
  else if one_of t [TypeNull; TypeUndefined] then null_val
  else if t =? TypeDouble then double_val (Double v)
  else if t =? TypeInt32 then double_val (f64_of_int (Int32 v))
  else if t =? TypeInt64 then double_val (f64_of_int (Int64 v))
  else if one_of t [TypeString; TypeSymbol; TypeJavaScript] then string_val (StringValue v)
  else if t =? TypeObjectID then oid_val (ObjectID v)
  else if t =? TypeBoolean then bool_val (Boolean v)
  else if t =? TypeDateTime then date_val (DateTime v)
  else if t =? TypeTimestamp then timestamp_val (Timestamp v)
  else let '(st, d) := default (0, []) (Binary v) in binary_val st d.

(** A key that decodes to v: whatever follows it, in either direction. *)
Definition decodes (k : bytes) (v : RawValue) : Prop := forall bldr key rest desc,
  AppendDecodedField bldr key (masked (mask_of desc) k ++ rest) desc = inr (AppendValue key v bldr, blen k).

Lemma decode_tag bldr key tag body rest desc :
  let b := masked (mask_of desc) (tag :: body) ++ rest in
  AppendDecodedField bldr key b desc = decode_switch bldr key b (mask_of desc) tag.
Proof.
  intros b. unfold AppendDecodedField, b. cbn [masked map app]. fold (mask_of desc).
  by rewrite Z.lxor_assoc, Z.lxor_nilpotent, Z.lxor_0_r.
Qed.

Lemma blen_masked_ge m k rest n : n <= blen k -> (blen (masked m k ++ rest) <? n) = false.
Proof.
  intros H. apply Z.ltb_ge. unfold blen in *. rewrite length_app, length_masked. lia.
Qed.

#[local] Ltac switch :=
  intros bldr key rest desc; rewrite decode_tag;
  cbv beta iota delta [decode_switch tagMinKey tagMaxKey tagNull tagBool tagNumber tagDate tagTimestamp tagObjectID tagString
    tagBinary Z.eqb Pos.eqb].

Lemma be_key_length n x tag : blen (tag :: be_bytes n x) = 1 + Z.of_nat n.
Proof. unfold blen. cbn [length]. rewrite length_be_bytes. lia. Qed.

Lemma sub_be_key n x tag : sub 1 n (tag :: be_bytes n x) = be_bytes n x.
Proof. unfold sub. cbn [drop]. rewrite drop_0. apply take_ge. by rewrite length_be_bytes. Qed.

Lemma decodes_number w : in_u 64 w -> decodes (tagNumber :: be_bytes 8 (flipSign w)) (double_val w).
Proof.
  intros Hw. switch. rewrite blen_masked_ge by (rewrite be_key_length; lia).
  unfold readMasked64. rewrite read_masked by (cbn [length]; rewrite length_be_bytes; lia).
  rewrite sub_be_key, be_val_be_bytes by by apply flipSign_u64. by rewrite unflip_flip, be_key_length.
Qed.

Lemma decodes_date x : int64 x -> decodes (tagDate :: be_bytes 8 (x + 2 ^ 63)) (date_val x).
Proof.
  intros Hx. switch. rewrite blen_masked_ge by (rewrite be_key_length; lia).
  unfold readMasked64. rewrite read_masked by (cbn [length]; rewrite length_be_bytes; lia).
  rewrite sub_be_key, be_val_be_bytes by (unfold in_u, int64 in *; lia).
  rewrite <- lxor_sign by done. rewrite Z.lxor_assoc, Z.lxor_nilpotent, Z.lxor_0_r, to_i64_u64 by done.
  by rewrite be_key_length.
Qed.

Lemma lor_words x : in_u 64 x -> Z.lor (u64 (Z.shiftl (u32 (Z.shiftr x 32)) 32)) (u32 x) = x.
Proof.
  intros Hx. unfold in_u in Hx. unfold wrap.
  assert (Hs : 0 <= Z.shiftr x 32 < 2 ^ 32).
  { rewrite Z.shiftr_div_pow2 by lia. split; [apply Z.div_pos; lia|]. apply Z.div_lt_upper_bound; lia. }
  rewrite (Z.mod_small (Z.shiftr x 32)) by done.
  rewrite Z.mod_small by (rewrite Z.shiftl_mul_pow2 by lia; lia).
  apply Z.bits_inj'. intros n Hn. rewrite Z.lor_spec, Z.shiftl_spec by done. destruct (Z.ltb_spec n 32).
  - rewrite Z.testbit_neg_r by lia. by rewrite Z.mod_pow2_bits_low by lia.
  - rewrite Z.shiftr_spec by lia. rewrite Z.mod_pow2_bits_high, orb_false_r by lia. f_equal. lia.
Qed.

Lemma decodes_timestamp x : in_u 64 x -> decodes (tagTimestamp :: be_bytes 8 x) (timestamp_val x).
Proof.
  intros Hx. switch. rewrite blen_masked_ge by (rewrite be_key_length; lia). unfold readMasked32.
  rewrite !read_masked by (cbn [length]; rewrite length_be_bytes; lia).
  rewrite <- be_bytes_two_words. unfold sub. cbn [drop]. rewrite drop_0.
  rewrite take_app_length', drop_app_length', take_ge by (by rewrite length_be_bytes).
  rewrite !be_val_be_bytes by (apply wrap_in_u; lia). rewrite lor_words by done.
  unfold blen. cbn [length]. rewrite length_app, !length_be_bytes. done.
Qed.

Lemma decodes_oid x : length x = 12%nat -> decodes (tagObjectID :: x) (oid_val x).
Proof.
  intros Hx. assert (Hl : forall t, blen (t :: x) = 13) by (intros; unfold blen; cbn [length]; lia).
  switch. rewrite blen_masked_ge by (rewrite Hl; lia). rewrite read_masked by (cbn [length]; lia).
  rewrite Hl. unfold sub. cbn [drop]. rewrite drop_0, take_ge by lia. done.
Qed.

Lemma decodes_bool (x : bool) : decodes [tagBool; if x then 1 else 0] (bool_val x).
Proof.
  switch. rewrite blen_masked_ge by done. rewrite nth_masked by (cbn [length]; lia). by destruct x.
Qed.

Lemma decodes_string s : bytes_ok s -> decodes (tagString :: escape s ++ [0; 1]) (string_val s).
Proof.
  intros Hs. switch. change (drop 1 (masked ?m (?c :: ?k) ++ ?r)) with (masked m k ++ r).
  unfold decodeString. rewrite (decodeString_escape _ s rest Hs).
  unfold blen. cbn [length app]. rewrite length_app. cbn [length]. do 2 f_equal. lia.
Qed.

Lemma decodes_binary st d :
  in_u 32 (blen d) -> decodes (tagBinary :: be_bytes 4 (blen d) ++ d ++ [st]) (binary_val st d).
Proof.
  intros Hd. unfold tagBinary. set (k := _ :: be_bytes 4 (blen d) ++ d ++ [st]).
  assert (Hl : length k = (6 + length d)%nat).
  { unfold k. cbn [length]. rewrite !length_app, length_be_bytes. cbn [length]. lia. }
  assert (Hb : blen k = 6 + blen d) by (unfold blen; lia). assert (0 <= blen d) by (unfold blen; lia).
  assert (H1 : sub 1 4 k = be_bytes 4 (blen d)).
  { unfold sub, k. cbn [drop]. rewrite drop_0. by rewrite take_app_length' by (by rewrite length_be_bytes). }
  assert (H5 : sub 5 (length d) k = d).
  { unfold sub, k. cbn [drop]. rewrite drop_app_length' by (by rewrite length_be_bytes). apply take_app_length. }
  assert (Hn : nth (5 + length d) k 0 = st).
  { unfold k. cbn [Nat.add nth]. rewrite app_nth2; rewrite length_be_bytes; [|lia].
    rewrite app_nth2 by lia. by replace (S (S (S (S (length d)))) - 4 - length d)%nat with 0%nat by lia. }
  unfold k at 1. switch. fold k. rewrite blen_masked_ge by lia. unfold readMasked32. rewrite read_masked by lia.
  rewrite H1, be_val_be_bytes by done. rewrite blen_masked_ge by lia.
  replace (Z.to_nat (blen d)) with (length d) by (unfold blen; lia).
  replace (Z.to_nat (5 + blen d)) with (5 + length d)%nat by (unfold blen; lia).
  rewrite read_masked by lia. rewrite nth_masked by lia. rewrite H5, Hn, Hb. do 2 f_equal. lia.
Qed.

Lemma decodes_single tag v :
  In (tag, v) [(tagMinKey, MkRawValue TypeMinKey []); (tagMaxKey, MkRawValue TypeMaxKey []); (tagNull, null_val)] ->
  decodes [tag] v.
Proof.
  intros H. repeat destruct H as [[= <- <-]|H]; [..|destruct H]; switch; try done. by rewrite AppendNull_value.
Qed.

(** *** The keys of the values that can be rebuilt *)

#[local] Ltac by_type E := rewrite EncodeValue_unfold; cbn [valueKey_fuel]; rewrite E; reflexivity.

Lemma enc_Double v : rv_Type v = TypeDouble -> EncodeValue v = inr (EncodeFloat64 (Double v)).
Proof. intros E. by_type E. Qed.

Lemma enc_Int32 v : rv_Type v = TypeInt32 -> EncodeValue v = inr (EncodeInt64 (Int32 v)).
Proof. intros E. by_type E. Qed.

Lemma enc_Int64 v : rv_Type v = TypeInt64 -> EncodeValue v = inr (EncodeInt64 (Int64 v)).
Proof. intros E. by_type E. Qed.

Lemma enc_OID v : rv_Type v = TypeObjectID -> EncodeValue v = inr (EncodeObjectID (ObjectID v)).
Proof. intros E. by_type E. Qed.

Lemma enc_Bool v : rv_Type v = TypeBoolean -> EncodeValue v = inr (EncodeBool (Boolean v)).
Proof. intros E. by_type E. Qed.

Lemma enc_Date v : rv_Type v = TypeDateTime -> EncodeValue v = inr (appendOrderedInt64 [tagDate] (DateTime v)).
Proof. intros E. by_type E. Qed.

Lemma enc_Timestamp v :
  rv_Type v = TypeTimestamp -> EncodeValue v = inr (tagTimestamp :: be_bytes 8 (Timestamp v)).
Proof.
  intros E. rewrite <- be_bytes_two_words. by_type E.
Qed.

Lemma enc_String v s :
  rv_Type v ∈ [TypeString; TypeSymbol; TypeJavaScript] -> StringValueOK v = (s, true) -> EncodeValue v = inr (EncodeString s).
Proof.
  intros E Es. rewrite EncodeValue_unfold. cbn [valueKey_fuel]. rewrite !elem_of_cons, elem_of_nil in E.
  destruct E as [E|[E|[E|[]]]]; rewrite E; cbn -[EncodeString]; by rewrite Es.
Qed.

Lemma enc_Binary v st d :
  rv_Type v = TypeBinary -> Binary v = Some (st, d) ->
  EncodeValue v = inr (tagBinary :: be_bytes 4 (u32 (blen d)) ++ d ++ [st]).
Proof.
  intros E Eb. rewrite EncodeValue_unfold. cbn [valueKey_fuel]. rewrite E. cbn -[be_bytes]. by rewrite Eb.
Qed.

Lemma enc_Null v : rv_Type v ∈ [TypeNull; TypeUndefined] -> EncodeValue v = inr EncodeNull.
Proof.
  intros E. rewrite !elem_of_cons, elem_of_nil in E. destruct E as [E|[E|[]]]; by_type E.
Qed.

Lemma enc_double w : in_u 64 w -> EncodeValue (double_val w) = inr (EncodeFloat64 w).
Proof. intros Hw. rewrite enc_Double by done. unfold Double. by rewrite Double_double_val. Qed.

Lemma v_ok_word t n x : v_ok (MkRawValue t (le_bytes n x)).
Proof. apply bytes_ok_le. Qed.

(** What rebuilding promises of v, whose key is k: the key decodes to a value
    that has the same key, and is ordered if v is. *)
Definition rebuilds (v : RawValue) (k : bytes) : Prop :=
  decodes k (decoded v) /\ EncodeValue (decoded v) = inr k /\ v_ok (decoded v) /\
  (forall st, key_ordered st v = true -> key_ordered st (decoded v) = true).

Lemma rebuilds_double v w :
  decoded v = double_val w -> in_u 64 w ->
  (forall st, key_ordered st v = true -> f64_isNaN w = false /\ w <> 2 ^ 63) -> rebuilds v (encodeNumber w).
Proof.
  intros E Hw Ho. unfold rebuilds. rewrite E. split_and!.
  - by apply decodes_number.
  - by apply enc_double.
  - apply v_ok_word.
  - intros st H. destruct (Ho st H) as [H1 H2]. unfold key_ordered, Double. rewrite Double_double_val by done.
    change (rv_Type (double_val w)) with TypeDouble. cbn [fst]. rewrite Z.eqb_refl, H1. cbn [negb andb].
    by rewrite (proj2 (Z.eqb_neq _ _) H2).
Qed.

Lemma rebuilds_int v i :
  decoded v = double_val (f64_of_int i) -> int64 i -> rebuilds v (encodeNumber (f64_of_int i)).
Proof.
  intros E Hi. apply (rebuilds_double v (f64_of_int i) E); [by apply f64_of_int_u64|]. intros _ _.
  split; [by apply f64_finite_not_nan, f64_of_int_finite|by apply f64_of_int_not_negzero].
Qed.

Lemma rebuilds_as v v' k :
  decoded v = v' -> decodes k v' -> EncodeValue v' = inr k -> v_ok v' ->
  (forall st, key_ordered st v = true -> key_ordered st v' = true) -> rebuilds v k.
Proof. intros <-. by unfold rebuilds. Qed.

Lemma decoded_type v T : rv_Type v = T -> decoded v = decoded (MkRawValue T (rv_Data v)).
Proof. intros <-. by destruct v. Qed.

Lemma string_rebuilds v k :
  v_ok v -> rv_Type v ∈ [TypeString; TypeSymbol; TypeJavaScript] -> EncodeValue v = inr k -> rebuilds v k.
Proof.
  intros Hv Hin. destruct (StringValueOK v) as [s ok] eqn:Es. destruct ok.
  - rewrite (enc_String v s) by done. intros [= <-]. destruct (StringValue_parts v s Hv Es) as [Hs Hl].
    apply (rebuilds_as v (string_val s)); [|by apply decodes_string| |by apply string_val_ok|done].
    + assert (StringValue v = s) as <- by (unfold StringValue; by rewrite Es).
      rewrite !elem_of_cons, elem_of_nil in Hin. unfold decoded. destruct Hin as [E|[E|[E|[]]]]; by rewrite E.
    + apply (enc_String _ s); [by left|by apply StringValue_string_val].
  - rewrite EncodeValue_unfold. cbn [valueKey_fuel]. rewrite !elem_of_cons, elem_of_nil in Hin.
    destruct Hin as [E|[E|[E|[]]]]; rewrite E; cbn -[StringValueOK]; by rewrite Es.
Qed.

Lemma binary_rebuilds v k : v_ok v -> rv_Type v = TypeBinary -> EncodeValue v = inr k -> rebuilds v k.
Proof.
  intros Hv E. destruct (Binary v) as [[st d]|] eqn:Eb.
  - rewrite (enc_Binary v st d) by done. intros [= <-]. destruct (Binary_parts v st d Hv Eb) as (H1 & H2 & H3).
    rewrite (wrap_small 32) by done. apply (rebuilds_as v (binary_val st d)).
    + unfold decoded. by rewrite E, Eb.
    + by apply decodes_binary.
    + rewrite (enc_Binary _ st d) by (done || by apply Binary_binary_val). by rewrite (wrap_small 32).
    + by apply binary_val_ok.
    + intros st'. unfold key_ordered. rewrite E, Eb. intros H.
      change (rv_Type (binary_val st d)) with TypeBinary. cbn -[Binary binary_val]. by rewrite Binary_binary_val.
  - rewrite EncodeValue_unfold. cbn [valueKey_fuel]. rewrite E. cbn -[Binary]. by rewrite Eb.
Qed.

Lemma const_rebuilds v k :
  rv_Type v ∈ [TypeMinKey; TypeMaxKey; TypeNull; TypeUndefined] -> EncodeValue v = inr k -> rebuilds v k.
Proof.
  rewrite !elem_of_cons, elem_of_nil. intros Hin. rewrite EncodeValue_unfold. cbn [valueKey_fuel].
  destruct Hin as [E|[E|[E|[E|[]]]]]; pose proof (decoded_type v _ E) as Ed; rewrite E;
    intros [= <-]; (eapply rebuilds_as; [exact Ed| |reflexivity|apply Forall_nil_2|done]);
    apply decodes_single; cbn [In]; tauto.
Qed.

(** Every value a key can be made of, but for the types that are not covered, is
    rebuilt from its key. *)
Lemma key_rebuilds v k : v_ok v -> coverable v = true -> EncodeValue v = inr k -> rebuilds v k.
Proof.
  intros Hv Hc Hk. unfold coverable in Hc. apply negb_true_iff in Hc.
  destruct (decide (rv_Type v ∈ [TypeMinKey; TypeMaxKey; TypeNull; TypeUndefined])); [by apply const_rebuilds|].
  destruct (decide (rv_Type v ∈ [TypeString; TypeSymbol; TypeJavaScript])); [by apply string_rebuilds|].
  destruct (decide (rv_Type v = TypeBinary)); [by apply binary_rebuilds|].
  destruct (decide (rv_Type v = TypeDouble)) as [E|].
  { rewrite enc_Double in Hk by done. injection Hk as <-. apply rebuilds_double; [unfold decoded; by rewrite E|by apply Double_u64|].
    intros st. unfold key_ordered. rewrite E, Z.eqb_refl. intros [H1 H2]%andb_true_iff.
    apply negb_true_iff in H1, H2. by apply Z.eqb_neq in H2. }
  destruct (decide (rv_Type v = TypeInt32)) as [E|].
  { rewrite enc_Int32 in Hk by done. injection Hk as <-. apply rebuilds_int; [unfold decoded; by rewrite E|].
    pose proof (Int32_range v Hv). unfold int64. lia. }
  destruct (decide (rv_Type v = TypeInt64)) as [E|].
  { rewrite enc_Int64 in Hk by done. injection Hk as <-. apply rebuilds_int; [unfold decoded; by rewrite E|by apply Int64_int64]. }
  destruct (decide (rv_Type v = TypeObjectID)) as [E|].
  { rewrite enc_OID in Hk by done. injection Hk as <-. destruct (ObjectID_parts v Hv) as [H1 H2].
    apply (rebuilds_as v (oid_val (ObjectID v))); [unfold decoded; by rewrite E|by apply decodes_oid| |done|done].
    rewrite enc_OID by done. by rewrite ObjectID_oid_val. }
  destruct (decide (rv_Type v = TypeBoolean)) as [E|].
  { rewrite enc_Bool in Hk by done. injection Hk as <-.
    apply (rebuilds_as v (bool_val (Boolean v))); [unfold decoded; by rewrite E|apply decodes_bool| |apply bool_val_ok|done].
    rewrite enc_Bool by done. by rewrite Boolean_bool_val. }
  destruct (decide (rv_Type v = TypeDateTime)) as [E|].
  { rewrite enc_Date in Hk by done. injection Hk as <-. pose proof (DateTime_int64 v Hv) as Hd.
    unfold appendOrderedInt64. rewrite lxor_sign by done.
    apply (rebuilds_as v (date_val (DateTime v))); [unfold decoded; by rewrite E|by apply decodes_date| |apply v_ok_word|done].
    rewrite enc_Date by done. rewrite DateTime_date_val by done. unfold appendOrderedInt64. by rewrite lxor_sign. }
  destruct (decide (rv_Type v = TypeTimestamp)) as [E|].
  { rewrite enc_Timestamp in Hk by done. injection Hk as <-. pose proof (Timestamp_u64 v Hv) as Hd.
    apply (rebuilds_as v (timestamp_val (Timestamp v))); [unfold decoded; by rewrite E|by apply decodes_timestamp| |apply v_ok_word|done].
    rewrite enc_Timestamp by done. by rewrite Timestamp_timestamp_val. }
  exfalso. rewrite EncodeValue_unfold in Hk. cbn [valueKey_fuel] in Hk.
  repeat match type of Hk with
  | context [if rv_Type v =? ?T then _ else _] =>
      destruct (Z.eqb_spec (rv_Type v) T) as [E|_];
      [first [contradiction | rewrite E in Hc; discriminate Hc | rewrite E, !elem_of_cons in *; tauto]|]
  | context [if one_of (rv_Type v) ?Ts then _ else _] =>
      destruct (one_of (rv_Type v) Ts) eqn:E; [apply one_of_spec in E; rewrite !elem_of_cons in *; tauto|clear E]
  end. done.
Qed.

Lemma treeKey_parts {E} k rid :
  rid_ok rid -> fieldOf (E:=E) (treeKey k rid) = Ok k /\ ridFromSuffix (E:=E) (treeKey k rid) = Ok rid.
Proof.
  intros [Hp Hs]. assert (Hl : length (treeKey k rid) = (length k + 6)%nat).
  { unfold treeKey, putRIDSuffix. by rewrite !length_app, !length_be_bytes. }
  unfold fieldOf, ridFromSuffix. rewrite (proj2 (Nat.ltb_ge _ _)) by (rewrite Hl; unfold ridSuffixLen; lia).
  rewrite Hl. replace (length k + 6 - ridSuffixLen)%nat with (length k) by (unfold ridSuffixLen; lia).
  unfold treeKey, putRIDSuffix. rewrite take_app_length, drop_app_length. split; [done|].
  unfold sub. rewrite drop_0, take_app_length', drop_app_length', take_ge by (by rewrite length_be_bytes).
  rewrite !be_val_be_bytes by done. by destruct rid.
Qed.

Lemma rid_cmp_eq a b : rid_cmp a b = Eq -> a = b.
Proof.
  unfold rid_cmp. destruct (PageNo a ?= PageNo b) eqn:E1; cbn [then_cmp]; try done. intros E2.
  apply Z.compare_eq in E1, E2. destruct a, b. cbn in *. by subst.
Qed.

Lemma enc_int64 i : int64 i -> EncodeValue (int64_val i) = inr (EncodeInt64 i).
Proof. intros Hi. rewrite enc_Int64 by done. unfold Int64. by rewrite Int64_int64_val. Qed.

Lemma encodeNumber_cmp w u :
  in_u 64 w -> in_u 64 u -> bcmp (encodeNumber w) (encodeNumber u) = (f64_rank w ?= f64_rank u).
Proof.
  intros Hw Hu. unfold encodeNumber. fold (flipSign w) (flipSign u). rewrite bcmp_cons, Z.compare_refl. cbn [then_cmp].
  rewrite (bcmp_be_bytes 8) by by apply flipSign_u64. rewrite !flipSign_rank by done.
  rewrite !(Z.add_comm _ (2 ^ 63)). apply Z.add_compare_mono_l.
Qed.

(** ** Self-delimiting keys *)

(** What follows does not matter to which of two keys is read. *)
Definition delimits (x y : bytes) : Prop := forall s t, x ++ s = y ++ t -> x = y.

Lemma delimits_app x y x' y' : delimits x y -> (x = y -> delimits x' y') -> delimits (x ++ x') (y ++ y').
Proof.
  intros H H' s t. rewrite <- !app_assoc. intros E. pose proof (H _ _ E) as ->. f_equal.
  apply app_inv_head in E. by apply (H' eq_refl s t).
Qed.

Lemma delimits_len x y : length x = length y -> delimits x y.
Proof. intros Hl s t E. by apply app_inj_1 in E as [-> _]. Qed.

Lemma delimits_cons a b x y : (a = b -> delimits x y) -> delimits (a :: x) (b :: y).
Proof. intros H. apply (delimits_app [a] [b]); [by apply delimits_len|]. intros [= ->]. by apply H. Qed.

Lemma dcmp_delimits c x y : dcmp c x y -> delimits x y.
Proof.
  intros H s t E. pose proof (H s t) as [H1 _]. rewrite E, bcmp_refl in H1. pose proof (H [] []) as [H2 _].
  rewrite !app_nil_r in H2. apply bcmp_eq. rewrite H2. by destruct c.
Qed.

Definition name_ok (n : bytes) : Prop := bytes_ok n /\ ~ 0 ∈ n.

Lemma delimits_cstr s t : name_ok s -> name_ok t -> delimits (s ++ [0]) (t ++ [0]).
Proof. intros [] []. by eapply dcmp_delimits, dcmp_cstr. Qed.

(** The length of the body after a tag, where the tag fixes it. *)
Definition fixed_len (tag : Z) : option nat :=
  if one_of tag [tagMinKey; tagMaxKey; tagNull] then Some 0%nat
  else if tag =? tagBool then Some 1%nat
  else if one_of tag [tagNumber; tagDate; tagTimestamp] then Some 8%nat
  else if tag =? tagObjectID then Some 12%nat
  else None.

Definition doc_fields (fs : list (bytes * bytes)) : bytes := concat (map (fun f => (f.1 ++ [0]) ++ f.2) fs) ++ [0; 0].

Definition body_shape (nested : bytes -> Prop) (tag : Z) (body : bytes) : Prop :=
  match fixed_len tag with
  | Some l => length body = l
  | None =>
      if tag =? tagString then exists s, bytes_ok s /\ body = escape s ++ [0; 1]
      else if tag =? tagBinary then exists d st, in_u 32 (blen d) /\ body = be_bytes 4 (blen d) ++ d ++ [st]
      else if tag =? tagRegex then exists p o, name_ok p /\ name_ok o /\ body = (p ++ [0]) ++ o ++ [0]
      else if one_of tag [tagDocument; tagArray] then
        exists fs, (forall f, f ∈ fs -> name_ok f.1 /\ nested f.2) /\ body = doc_fields fs
      else False
  end.

(** The keys of decimal-free values, nested less than n deep. *)
Fixpoint key_shape (n : nat) (x : bytes) : Prop :=
  match n, x with
  | S n', tag :: body => body_shape (key_shape n') tag body
  | _, _ => False
  end.

Lemma key_shape_head n x : key_shape n x -> exists c r, x = c :: r /\ c <> 0.
Proof.
  destruct n as [|n], x as [|c r]; cbn [key_shape]; try done. intros H. exists c, r. split; [done|]. intros ->.
  exact H.
Qed.

Lemma doc_fields_delimits n fs gs :
  (forall x y, key_shape n x -> key_shape n y -> delimits x y) ->
  (forall f, f ∈ fs -> name_ok f.1 /\ key_shape n f.2) -> (forall f, f ∈ gs -> name_ok f.1 /\ key_shape n f.2) ->
  delimits (doc_fields fs) (doc_fields gs).
Proof.
  intros IH. unfold doc_fields.
  assert (Hend : forall (g : bytes * bytes) z, name_ok g.1 -> key_shape n g.2 -> delimits [0; 0] (((g.1 ++ [0]) ++ g.2) ++ z)).
  { intros [nm k] z [_ Hn] Hk s t E. cbn [fst snd] in *. exfalso. destruct nm as [|c nm]; cbn [app] in E.
    - destruct (key_shape_head n k Hk) as (c & r & -> & Hc). cbn [app] in E. injection E as [= E1 E2]. congruence.
    - injection E as [= E1 E2]. apply Hn. rewrite <- E1. by left. }
  revert gs. induction fs as [|f fs IHfs]; intros [|g gs] Hf Hg; cbn [map concat app].
  - by apply delimits_len.
  - rewrite <- app_assoc. destruct (Hg g ltac:(by left)). by apply Hend.
  - rewrite <- app_assoc. destruct (Hf f ltac:(by left)) as [H1 H2]. intros s t E. symmetry in E.
    symmetry. by eapply (Hend f).
  - rewrite <- !(app_assoc (_ ++ [0])), <- (app_assoc f.2), <- (app_assoc g.2).
    destruct (Hf f ltac:(by left)) as [H1 H2], (Hg g ltac:(by left)) as [H3 H4].
    apply (delimits_app (f.1 ++ [0]) (g.1 ++ [0])); [by apply delimits_cstr|]. intros _.
    apply delimits_app; [by apply IH|]. intros _. apply IHfs; intros h Hh; [apply Hf|apply Hg]; by right.
Qed.

Lemma key_shape_delimits n x y : key_shape n x -> key_shape n y -> delimits x y.
Proof.
  revert x y. induction n as [|n IH]; intros [|g x] [|g' y]; cbn [key_shape]; try done.
  intros Hx Hy. apply delimits_cons. intros <-. unfold body_shape in *.
  destruct (fixed_len g) as [l|]; [apply delimits_len; congruence|].
  destruct (g =? tagString).
  { destruct Hx as (s & Hs & ->), Hy as (t & Ht & ->). by eapply dcmp_delimits, dcmp_escape. }
  destruct (g =? tagBinary).
  { destruct Hx as (d & st & Hd & ->), Hy as (d' & st' & Hd' & ->).
    apply delimits_app; [apply delimits_len; by rewrite !length_be_bytes|]. intros E.
    apply delimits_len. rewrite !length_app. apply (f_equal be_val) in E. rewrite !be_val_be_bytes in E by done.
    unfold blen in E. cbn [length]. lia. }
  destruct (g =? tagRegex).
  { destruct Hx as (p & o & Hp & Ho & ->), Hy as (p' & o' & Hp' & Ho' & ->).
    apply delimits_app; [by apply delimits_cstr|]. intros _. by apply delimits_cstr. }
  destruct (one_of g _); [|done]. destruct Hx as (fs & Hf & ->), Hy as (gs & Hg & ->). by eapply doc_fields_delimits.
Qed.

Lemma key_shape_mono n m x : (n <= m)%nat -> key_shape n x -> key_shape m x.
Proof.
  revert m x. induction n as [|n IH]; intros [|m] [|g x] Hle; cbn [key_shape]; try done; [lia|].
  unfold body_shape. destruct (fixed_len g); [done|].
  destruct (g =? tagString); [done|]. destruct (g =? tagBinary); [done|]. destruct (g =? tagRegex); [done|].
  destruct (one_of g _); [|done]. intros (fs & Hf & ->). exists fs. split; [|done].
  intros f Hin. destruct (Hf f Hin). split; [done|]. by apply IH; [lia|].
Qed.

(** Field names hold no NUL. *)
Lemma elements_loop_names fuel : forall b es,
  bytes_ok b -> elements_loop fuel b = inr es -> Forall (fun e => name_ok (Key e)) es.
Proof.
  induction fuel as [|fuel IH]; intros b es Hb; cbn [elements_loop]; [done|].
  destruct b as [|t b]; [done|]. destruct (t =? 0).
  { destruct (_ =? 1); [|done]. intros [= <-]. constructor. }
  destruct (next_element (t :: b) t) as [|[e b']] eqn:En; [done|].
  destruct (elements_loop fuel b') as [|es'] eqn:El; [done|]. intros [= <-].
  assert (Hn : name_ok (Key e)).
  { unfold next_element, cstrEnd in En. destruct (find_nul (drop 1 (t :: b))) as [i|] eqn:Ei; [|done].
    cbn [fmap option_fmap option_map] in En. destruct (scanValue _ t); [done|]. injection En as <- _. cbn [Key].
    apply find_nul_spec in Ei as [Hi _]. unfold sub. cbn [Nat.add Nat.sub]. rewrite Nat.sub_0_r. split; [|done].
    by apply Forall_take, Forall_drop. }
  constructor; [done|]. eapply IH; [|exact El]. apply next_element_data in En as (_ & _ & H). exact (proj2 (H Hb)).
Qed.

Lemma Elements_names r es : bytes_ok r -> Elements r = inr es -> Forall (fun e => name_ok (Key e)) es.
Proof.
  intros Hr. unfold Elements. destruct (_ <? _); [done|]. destruct (negb _); [done|].
  apply elements_loop_names. by apply Forall_drop.
Qed.

Lemma escape_name_ok n : name_ok n -> escape_name n = n.
Proof.
  intros [_ Hn]. induction n as [|c n IH]; [done|]. rewrite not_elem_of_cons in Hn. destruct Hn as [Hc Hn].
  cbn [escape_name]. rewrite (proj2 (Z.eqb_neq c 0)) by congruence. by rewrite IH.
Qed.

Lemma docKey_loop_fields f es :
  (forall dst v, f dst v = on_res (app dst) (f [] v)) -> Forall (fun e => name_ok (Key e)) es -> forall dst r,
  docKey_loop f dst es = inr r ->
  exists fs, r = dst ++ doc_fields fs /\
    (forall p, p ∈ fs -> exists e, e ∈ es /\ p.1 = Key e /\ f [] (Value e) = inr p.2).
Proof.
  intros Hf Hes. induction Hes as [|e es He Hes IH]; intros dst r; cbn [docKey_loop].
  - intros [= <-]. exists []. split; [done|]. intros p Hp. by apply elem_of_nil in Hp.
  - rewrite (Hf (dst ++ _)). destruct (f [] (Value e)) as [|k] eqn:Ek; cbn [on_res]; [done|]. intros Hl.
    destruct (IH _ _ Hl) as (fs & -> & Hfs). exists ((Key e, k) :: fs). split.
    + unfold doc_fields. cbn [map concat fst snd]. rewrite escape_name_ok by done. by rewrite <- !app_assoc.
    + intros p Hp. apply elem_of_cons in Hp as [->|Hp]; [exists e; split; [by left|done]|].
      destruct (Hfs p Hp) as (e' & H1 & H2). exists e'. split; [by right|done].
Qed.

Lemma insert_elem_perm e es : insert_elem e es ≡ₚ e :: es.
Proof.
  induction es as [|f es IH]; cbn [insert_elem]; [done|]. destruct (bltb _ _); [|done].
  rewrite IH. apply Permutation_swap.
Qed.

Lemma sort_elems_perm es : sort_elems es ≡ₚ es.
Proof. induction es as [|e es IH]; [done|]. cbn [sort_elems fold_right]. by rewrite insert_elem_perm, IH. Qed.

(** No decimal in v, at any depth. *)
Fixpoint decimal_free_fuel (n : nat) (v : RawValue) : bool :=
  match n with
  | O => true
  | S n' => negb (rv_Type v =? TypeDecimal128) && forallb (fun e => decimal_free_fuel n' (Value e)) (elems (Document v))
  end.

Definition decimal_free (v : RawValue) : bool := decimal_free_fuel (S (length (rv_Data v))) v.

Lemma nested_shape n v tag srt k :
  (forall v k, v_ok v -> decimal_free_fuel n v = true -> valueKey_fuel n [] v = inr k -> key_shape n k) ->
  v_ok v -> decimal_free_fuel (S n) v = true -> one_of tag [tagDocument; tagArray] = true ->
  appendDocKey (valueKey_fuel n) [] tag (Document v) srt = inr k -> key_shape (S n) k.
Proof.
  intros IH Hv Hd Ht. unfold appendDocKey. destruct (Elements (Document v)) as [|es] eqn:He; [done|].
  pose proof (elems_Document_ok v Hv) as Hes. cbn [decimal_free_fuel] in Hd. apply andb_true_iff in Hd as [_ Hd].
  unfold elems in Hes, Hd. rewrite He in Hes, Hd. rewrite forallb_forall in Hd. rewrite Forall_forall in Hes.
  apply Elements_names in He as Hn; [|by apply (proj2 (Document_data v))]. set (es' := if srt then sort_elems es else es).
  assert (Hp : es' ≡ₚ es) by (unfold es'; destruct srt; [apply sort_elems_perm|done]).
  intros Hk. apply docKey_loop_fields in Hk as (fs & -> & Hfs); [|apply valueKey_dst|by rewrite Hp].
  cbn [app key_shape]. unfold body_shape.
  assert (Hfix : fixed_len tag = None /\ (tag =? tagString) = false /\ (tag =? tagBinary) = false /\ (tag =? tagRegex) = false).
  { apply one_of_spec in Ht. rewrite !elem_of_cons, elem_of_nil in Ht. by destruct Ht as [->|[->|[]]]. }
  destruct Hfix as (-> & -> & -> & ->). rewrite Ht. exists fs. split; [|done].
  intros p Hin. destruct (Hfs p Hin) as (e & Hie & Hke & Hve). rewrite Hp in Hie. split.
  - rewrite Hke. rewrite Forall_forall in Hn. by apply Hn.
  - apply (IH (Value e)); [by apply Hes|by apply Hd, list_elem_of_In|done].
Qed.

Lemma fixed_shape n g body l : fixed_len g = Some l -> length body = l -> key_shape (S n) (g :: body).
Proof. intros E H. cbn [key_shape]. unfold body_shape. by rewrite E. Qed.

Lemma valueKey_shape n : forall v k,
  v_ok v -> decimal_free_fuel n v = true -> valueKey_fuel n [] v = inr k -> key_shape n k.
Proof.
  induction n as [|n IH]; intros v k Hv Hd; [done|]. cbn [valueKey_fuel app].
  pose proof (fixed_shape n) as Hfix. pose proof (fun tag srt => nested_shape n v tag srt k IH Hv Hd) as Hnest.
  cbn [decimal_free_fuel] in Hd. apply andb_true_iff in Hd as [Hd _]. apply negb_true_iff in Hd.
  repeat match goal with
  | |- (if ?c then inr _ else _) = inr _ -> _ =>
      destruct c; [first [discriminate Hd | intros [= <-]; by eapply Hfix; [reflexivity|]]|]
  end.
  destruct (one_of (rv_Type v) _).
  { destruct (StringValueOK v) as [s []] eqn:Es; [|done]. intros [= <-].
    cbn [key_shape app appendString appendOrderedBytes]. exists s. split; [|done]. by apply StringValue_parts in Es as []. }
  destruct (_ =? TypeObjectID).
  { intros [= <-]. eapply Hfix; [reflexivity|]. by apply ObjectID_parts. }
  destruct (_ =? TypeBoolean); [intros [= <-]; by eapply Hfix; [reflexivity|]|].
  destruct (_ =? TypeDateTime); [intros [= <-]; by eapply Hfix; [reflexivity|]|].
  destruct (_ =? TypeTimestamp); [intros [= <-]; by eapply Hfix; [reflexivity|]|].
  destruct (_ =? TypeBinary).
  { destruct (Binary v) as [[st d]|] eqn:Eb; [|done]. intros [= <-]. destruct (Binary_parts v st d Hv Eb) as (H1 & H2 & H3).
    rewrite (wrap_small 32) by done. cbn [key_shape]. by exists d, st. }
  destruct (_ =? TypeRegex).
  { destruct (Regex v) as [[p o]|] eqn:Eb; [|done]. intros [= <-]. destruct (Regex_parts v p o Hv Eb) as [H1 H2].
    cbn [key_shape]. exists p, o. split; [done|]. split; [done|]. by rewrite <- app_assoc. }
  destruct (_ =? TypeDocument); [by apply Hnest|]. destruct (_ =? TypeArray); [by apply Hnest|done].
Qed.

(** Insertions of different names commute, so the sort does not see their order. *)
Lemma insert_elem_comm x y es :
  Key x <> Key y -> insert_elem x (insert_elem y es) = insert_elem y (insert_elem x es).
Proof.
  intros Hne.
  assert (Hxy : bltb (Key x) (Key y) = negb (bltb (Key y) (Key x))).
  { destruct (bltb (Key y) (Key x)) eqn:E1, (bltb (Key x) (Key y)) eqn:E2; try done.
    - apply bltb_blt in E1, E2. destruct (blt_irrefl (Key x)). by eapply blt_trans.
    - apply bltb_false in E1, E2. by destruct (Hne (ble_antisym _ _ E1 E2)). }
  induction es as [|f es IH]; cbn [insert_elem].
  - rewrite Hxy. by destruct (bltb (Key y) (Key x)).
  - destruct (bltb (Key f) (Key y)) eqn:Fy, (bltb (Key f) (Key x)) eqn:Fx; cbn [insert_elem]; rewrite ?Fx, ?Fy.
    + by rewrite IH.
    + assert (bltb (Key x) (Key y) = true) as ->; [|done].
      apply bltb_blt. apply bltb_blt in Fy. apply bltb_false in Fx. by eapply ble_blt_trans.
    + assert (bltb (Key y) (Key x) = true) as ->; [|done].
      apply bltb_blt. apply bltb_blt in Fx. apply bltb_false in Fy. by eapply ble_blt_trans.
    + rewrite Hxy. by destruct (bltb (Key y) (Key x)); cbn [negb insert_elem]; rewrite ?Fx, ?Fy.
Qed.

Lemma sort_elems_order es es' : NoDup (map Key es) -> es ≡ₚ es' -> sort_elems es = sort_elems es'.
Proof.
  intros Hn Hp. induction Hp as [|e es es' Hp IH|x y es|es es1 es2 H1 IH1 H2 IH2]; [done| | |].
  - cbn [map] in Hn. apply NoDup_cons in Hn as [_ Hn]. change (insert_elem e (sort_elems es) = insert_elem e (sort_elems es')).
    by rewrite (IH Hn).
  - cbn [map] in Hn. apply NoDup_cons in Hn as [Hx _]. 
    change (insert_elem y (insert_elem x (sort_elems es)) = insert_elem x (insert_elem y (sort_elems es))).
    apply insert_elem_comm.
    intros E. apply Hx. rewrite E. by left.
  - rewrite IH1, IH2; [done| |done]. by rewrite <- H1.
Qed.

(** ** Properties *)

(** C40. The order of the tree keys of an index is the order of the indexed values,
    field by field and each in the direction of its key part, ties broken by
    record identifier, for all values but those key_ordered excludes; no compound
    key is a proper prefix of another, so a comparison of keys never runs into
    the record identifiers by accident; and the key and the identifier can be
    read back from a tree key. *)
Theorem index_key_order st descs vs ws ka kb ra rb :
  Forall (fun v => v_ok v /\ key_ordered st v = true) vs -> Forall (fun v => v_ok v /\ key_ordered st v = true) ws ->
  length vs = length descs -> length ws = length descs ->
  AppendFields [] (zip vs descs) = inr ka -> AppendFields [] (zip ws descs) = inr kb ->
  rid_ok ra -> rid_ok rb ->
  bcmp (treeKey ka ra) (treeKey kb rb) = then_cmp (fields_cmp descs vs ws) (rid_cmp ra rb) /\
  (fields_cmp descs vs ws = Eq <-> ka = kb) /\
  (forall s, ka <> kb -> kb <> ka ++ s) /\
  fieldOf (E:=keyErr) (treeKey ka ra) = Ok ka /\ ridFromSuffix (E:=keyErr) (treeKey ka ra) = Ok ra.
Proof.
  intros Hv Hw Lv Lw Ka Kb Hra Hrb.
  pose proof (fun s t => fields_key_app st descs vs ws ka kb s t Hv Hw Lv Lw Ka Kb) as Happ.
  assert (Hcmp : bcmp ka kb = fields_cmp descs vs ws).
  { pose proof (Happ [] []) as H. rewrite !app_nil_r in H. rewrite H. by destruct (fields_cmp descs vs ws). }
  split_and!; try by apply treeKey_parts.
  - unfold treeKey. rewrite Happ. by rewrite putRIDSuffix_cmp.
  - rewrite <- Hcmp. apply bcmp_eq.
  - intros s Hne ->. pose proof (Happ s []) as H. rewrite app_nil_r, bcmp_refl in H.
    destruct (fields_cmp descs vs ws); try done. apply Hne. by apply bcmp_eq.
Qed.

(** A key field of a coverable type decodes, in either direction and whatever
    follows it in the key, to one value: it consumes exactly the field, the value
    has the same key again, and it equals the value indexed whenever keys are
    ordered as values. *)
Theorem covered_field_roundtrip v desc k :
  v_ok v -> coverable v = true -> EncodeField v desc = inr k ->
  (forall bldr key rest, AppendDecodedField bldr key (k ++ rest) desc = inr (AppendValue key (decoded v) bldr, blen k)) /\
  (forall rest, FieldLen (k ++ rest) desc = inr (blen k)) /\
  EncodeField (decoded v) desc = inr k /\
  (forall st, key_ordered st v = true -> Equal v (decoded v) = true).
Proof.
  unfold EncodeField. intros Hv Hc. destruct (EncodeValue v) as [|k'] eqn:Ek; [done|]. rewrite directed_masked. intros [= <-].
  destruct (key_rebuilds v k' Hv Hc Ek) as (Hd & Ed & Hdv & Ho).
  assert (Hl : blen (masked (mask_of desc) k') = blen k') by (unfold blen; by rewrite length_masked).
  rewrite Hl, Ed, directed_masked. split_and!; [exact (fun b key r => Hd b key r desc)| |done|].
  - intros rest. unfold FieldLen. by rewrite Hd.
  - intros st Hst. pose proof (value_key_dcmp st v (decoded v) k' k' Hv Hdv Hst (Ho st Hst) Ek Ed [] []) as [H _].
    rewrite app_nil_r, bcmp_refl in H. unfold Equal. by destruct (Compare v (decoded v)).
Qed.

(** The keys of 64-bit integers go through float64: they never reverse two
    integers, and below 2^53 they are as distinct as the integers; but beyond,
    integers that round to the same double share a key, so 2^53 and 2^53 + 1,
    which compare as different values, are one key to a unique index. *)
Theorem integer_keys_lossy :
  (forall i j, int64 i -> int64 j -> i <= j -> ble (EncodeInt64 i) (EncodeInt64 j)) /\
  (forall i j, int64 i -> int64 j -> (EncodeInt64 i = EncodeInt64 j <-> f64_rank (f64_of_int i) = f64_rank (f64_of_int j))) /\
  (forall i j, - 2 ^ 53 < i < 2 ^ 53 -> - 2 ^ 53 < j < 2 ^ 53 -> EncodeInt64 i = EncodeInt64 j -> i = j) /\
  (forall i, int64 i -> EncodeValue (int64_val i) = inr (EncodeInt64 i)) /\
  EncodeValue (int64_val (2 ^ 53)) = EncodeValue (int64_val (2 ^ 53 + 1)) /\
  Compare (int64_val (2 ^ 53)) (int64_val (2 ^ 53 + 1)) = Lt.
Proof.
  assert (Hcmp : forall i j, int64 i -> int64 j ->
    bcmp (EncodeInt64 i) (EncodeInt64 j) = (f64_rank (f64_of_int i) ?= f64_rank (f64_of_int j))).
  { intros i j Hi Hj. apply encodeNumber_cmp; by apply f64_of_int_u64. }
  assert (Heq : forall i j, int64 i -> int64 j ->
    (EncodeInt64 i = EncodeInt64 j <-> f64_rank (f64_of_int i) = f64_rank (f64_of_int j))).
  { intros i j Hi Hj. by rewrite <- bcmp_eq, Hcmp, Z.compare_eq_iff. }
  split_and!; [| done| |apply enc_int64|vm_compute; reflexivity|vm_compute; reflexivity].
  - intros i j Hi Hj Hij. unfold ble. rewrite Hcmp by done. pose proof (f64_of_int_mono i j Hi Hj Hij).
    by apply Z.compare_le_iff.
  - intros i j Hi Hj E. apply Heq in E; [|unfold int64; lia..].
    assert (Hv : f64_val (f64_of_int i) = f64_val (f64_of_int j)).
    { destruct (Z.lt_trichotomy (f64_val (f64_of_int i)) (f64_val (f64_of_int j))) as [H|[H|H]]; [|done|];
        apply f64_val_rank in H; lia. }
    rewrite !f64_of_int_exact in Hv by done. assert (0 < 2 ^ 1074) by (apply Z.pow_pos_nonneg; lia). nia.
Qed.

(** Key fields delimit themselves: of two decimal-free values, nested or not,
    whatever bytes follow their keys, equal byte strings have equal keys at the
    front and equal rests, so compound keys and nested keys parse in one way
    only. *)
Theorem keys_self_delimiting a b x y s t :
  v_ok a -> v_ok b -> decimal_free a = true -> decimal_free b = true ->
  EncodeValue a = inr x -> EncodeValue b = inr y -> x ++ s = y ++ t -> x = y /\ s = t.
Proof.
  intros Ha Hb Da Db Ex Ey E.
  pose proof (valueKey_shape _ a x Ha Da Ex) as Hx. pose proof (valueKey_shape _ b y Hb Db Ey) as Hy.
  set (n := S (length (rv_Data a) + length (rv_Data b))).
  apply (key_shape_mono _ n) in Hx; [|unfold n; lia]. apply (key_shape_mono _ n) in Hy; [|unfold n; lia].
  pose proof (key_shape_delimits n x y Hx Hy s t E) as ->. split; [done|]. by apply app_inv_head in E.
Qed.

(** {a: decimal} and {a: double, bbbbbb: null}. *)
Definition decimal_doc : RawValue :=
  MkRawValue TypeDocument (Build (AppendValue [97] (MkRawValue TypeDecimal128
    [5; 0; 98; 98; 98; 98; 98; 98; 0; 0; 0; 0; 0; 0; 0xF0; 0x3F]) [])).
Definition double_doc : RawValue :=
  MkRawValue TypeDocument (Build (AppendNull [98; 98; 98; 98; 98; 98] (AppendDouble [97] (f64_of_int 1) []))).

(** The key of a document does not depend on the order of its fields, although
    Compare does, so a unique index takes two such documents for one; and a
    decimal, whose key shares its tag with the shorter keys of doubles, makes two
    valid documents of different shape share a key: nested keys are not injective
    as the comments say. *)
Theorem nested_keys_collide :
  (forall a b es es', rv_Type a = TypeDocument -> rv_Type b = TypeDocument ->
     Elements (Document a) = inr es -> Elements (Document b) = inr es' -> NoDup (map Key es) -> es ≡ₚ es' ->
     length (rv_Data a) = length (rv_Data b) -> EncodeValue a = EncodeValue b) /\
  Validate (rv_Data decimal_doc) = None /\ Validate (rv_Data double_doc) = None /\
  EncodeValue decimal_doc = EncodeValue double_doc /\ (exists k, EncodeValue decimal_doc = inr k) /\
  Compare decimal_doc double_doc = Lt.
Proof.
  split_and!; [|vm_compute; reflexivity..| |vm_compute; reflexivity].
  - intros a b es es' Ta Tb Ea Eb Hn Hp Hl. rewrite !EncodeValue_unfold, Hl. cbn [valueKey_fuel]. rewrite Ta, Tb.
    change (appendDocKey (valueKey_fuel (length (rv_Data b))) [] tagDocument (Document a) true =
            appendDocKey (valueKey_fuel (length (rv_Data b))) [] tagDocument (Document b) true).
    unfold appendDocKey. rewrite Ea, Eb. by rewrite (sort_elems_order es es').
  - eexists. vm_compute. reflexivity.
Qed.

(** Where the order of keys is not the order of values: the zeros are equal as
    numbers but have two keys; binary values of one length are ordered by their
    bytes first and by their subtype first; decimals, which compare as equal, have
    the keys of their bits; and a decimal's key, instead of being refused,
    decodes to a double made of its first half. *)
Theorem key_order_exceptions :
  (Equal (double_val 0) (double_val (2 ^ 63)) = true /\ EncodeValue (double_val 0) <> EncodeValue (double_val (2 ^ 63))) /\
  (Compare (binary_val 1 [1]) (binary_val 2 [0]) = Lt /\
   exists k k', EncodeValue (binary_val 1 [1]) = inr k /\ EncodeValue (binary_val 2 [0]) = inr k' /\ bcmp k k' = Gt) /\
  (forall d d', length d = 16%nat -> length d' = 16%nat ->
     Compare (MkRawValue TypeDecimal128 d) (MkRawValue TypeDecimal128 d') = Eq) /\
  (forall d k, bytes_ok d -> length d = 16%nat -> EncodeValue (MkRawValue TypeDecimal128 d) = inr k ->
     exists w, AppendDecodedField [] [97] k false = inr (AppendDouble [97] w [], 9) /\ blen k = 17).
Proof.
  split; [split; [vm_compute; reflexivity|vm_compute; discriminate]|].
  split; [split; [vm_compute; reflexivity|do 2 eexists; split_and!; vm_compute; reflexivity]|]. split.
  - intros d d' _ _. unfold Compare. cbn [compare_fuel]. reflexivity.
  - intros d k Hd Hl.
    assert (EncodeValue (MkRawValue TypeDecimal128 d) = inr (appendDecimal128 [] (Decimal128 (MkRawValue TypeDecimal128 d)))) as ->.
    { rewrite EncodeValue_unfold. reflexivity. }
    unfold appendDecimal128. cbv zeta. match goal with |- context [[tagNumber] ++ ?b] => set (be' := b) end. intros [= <-].
    assert (Hb : length be' = 16%nat).
    { assert (Hd16 : length (Decimal128 (MkRawValue TypeDecimal128 d)) = 16%nat).
      { assert (Decimal128 (MkRawValue TypeDecimal128 d) = sub 0 16 d) as ->.
        { unfold Decimal128, blen. cbn [rv_Type rv_Data]. rewrite Hl. reflexivity. }
        apply length_sub. lia. }
      unfold be'. destruct (_ =? 0); [rewrite length_insert|rewrite length_map]; by rewrite length_rev. }
    assert (Hk : blen (tagNumber :: be') = 17) by (unfold blen; cbn [length]; lia).
    eexists. split; [|done]. unfold AppendDecodedField. cbn [app]. unfold decode_switch.
    change (Z.lxor tagNumber 0) with tagNumber. cbv beta iota delta [tagMinKey tagMaxKey tagNull tagBool tagNumber Z.eqb Pos.eqb].
    assert (Hlt : (blen (16 :: be') <? 9) = false) by (apply Z.ltb_ge; unfold blen; cbn [length]; lia). by rewrite Hlt.
Qed.

(** ** Witnesses *)

Lemma index_key_order_witness :
  let vs := [string_val [97; 0; 98]; double_val (f64_of_int 2)] in
  let ws := [string_val [97]; int64_val 1] in
  exists ka kb, AppendFields [] (zip vs [true; false]) = inr ka /\ AppendFields [] (zip ws [true; false]) = inr kb /\
    fields_cmp [true; false] vs ws = Lt /\
    bcmp (treeKey ka NullRID) (treeKey kb NullRID) = then_cmp (fields_cmp [true; false] vs ws) (rid_cmp NullRID NullRID).
Proof.
  intros vs ws. do 2 eexists. split; [vm_compute; reflexivity|]. split; [vm_compute; reflexivity|].
  split; [vm_compute; reflexivity|].
  refine (proj1 (index_key_order 0 [true; false] vs ws _ _ NullRID NullRID _ _ eq_refl eq_refl _ _ NullRID_ok NullRID_ok)).
  1, 2: repeat (apply Forall_cons_2; [split; [apply bytes_okb_ok|]; vm_compute; reflexivity|]); apply Forall_nil_2.
  all: vm_compute; reflexivity.
Defined.

Lemma covered_field_roundtrip_witness :
  exists k, EncodeField (int64_val 7) true = inr k /\ FieldLen (k ++ [1; 2; 3]) true = inr (blen k).
Proof.
  eexists. split; [vm_compute; reflexivity|].
  refine (proj1 (proj2 (covered_field_roundtrip (int64_val 7) true _ _ _ _)) [1; 2; 3]).
  - apply bytes_okb_ok. vm_compute. reflexivity.
  - reflexivity.
  - vm_compute. reflexivity.
Defined.

Lemma keys_self_delimiting_witness :
  exists x, EncodeValue (string_val [0]) = inr x /\ (x = x /\ [1; 2] = [1; 2]).
Proof.
  eexists. split; [vm_compute; reflexivity|].
  refine (keys_self_delimiting (string_val [0]) (string_val [0]) _ _ [1; 2] [1; 2] _ _ _ _ _ _ eq_refl);
    try (apply bytes_okb_ok); vm_compute; reflexivity.
Defined.
