(* ===== verification/PageStore.v ===== *)
(** * The pages the pager lends

    What the layers above the pager (pager/pager.go: Fetch, Unpin, MarkDirty,
    Allocate) use of it, as a class of operations with laws: frames are lent as
    buffers, a written and marked buffer is what the next Fetch returns, and
    Allocate hands out pages nobody holds. *)

From S2P Require Import Prelude Checksum Page Vfs Wal.

(** The errors a pager operation returns; PgPanic stands for a run-time panic, and
    PgFuel for a model that ran out of steps. *)
Inductive pgErr : Type :=
| PgClosed | PgCorrupt | PgPoolExhausted | PgReadOnly | PgWriteAhead | PgNotExist
| PgIo (e : ioErr) | PgFormat (e : fmtErr) | PgWal (e : walErr) | PgPanic | PgFuel.

#[global] Instance walErr_eq_dec : EqDecision walErr.
Proof. solve_decision. Defined.

#[global] Instance pgErr_eq_dec : EqDecision pgErr.
Proof. solve_decision. Defined.

(** A frame is known by its page number while it is pinned: Fetch and Allocate
    return the content of its buffer, WriteBuf is the caller's writing in place. Commit makes the marked pages durable;
    ChecksumOf is the algorithm of the pages' checksums. *)
Class PageOps (P : Type) := {
  PageSize : P -> Z;
  Fetch : Z -> P -> (pgErr + bytes) * P;
  WriteBuf : Z -> bytes -> P -> P;
  MarkDirty : Z -> P -> P;
  Unpin : Z -> P -> P;
  Allocate : P -> (pgErr + (Z * bytes)) * P;
  Commit : P -> (pgErr + unit) * P;
  ChecksumOf : P -> Z
}.

(** MarkDirty writes the page's log sequence number into its header. *)
Definition stamp_lsn (lsn : Z) (b : bytes) : bytes := put 8 (le_bytes 8 lsn) b.

Class PageLaws (P : Type) {ops : PageOps P} := {
  pg_inv : P -> Prop;
  (** the pages in use, and what Fetch returns for them *)
  pg_live : P -> gset Z;
  pg_view : P -> Z -> bytes;
  pg_pins : P -> Z -> nat;
  (** how many page numbers are left to hand out *)
  pg_room : P -> nat;
  (** the errors with which Fetch of a page in use and Allocate may fail *)
  pg_fails : pgErr -> Prop;

  pg_size p : pg_inv p -> 36 <= PageSize p <= 65536;
  pg_algo p : pg_inv p -> Supported (ChecksumOf p) = true;
  pg_page p n : pg_inv p -> n ∈ pg_live p ->
    in_u 32 n /\ n <> 0 /\ n <> NullPage /\ blen (pg_view p n) = PageSize p /\ bytes_ok (pg_view p n);

  pg_fetch p n r p' : pg_inv p -> n ∈ pg_live p -> Fetch n p = (r, p') ->
    pg_inv p' /\ PageSize p' = PageSize p /\ pg_live p' = pg_live p /\ pg_room p' = pg_room p /\
    (forall m, m ∈ pg_live p -> pg_view p' m = pg_view p m) /\
    match r with
    | inl e => pg_fails e /\ forall m, pg_pins p' m = pg_pins p m
    | inr b => b = pg_view p n /\ forall m, pg_pins p' m = ((if decide (m = n) then 1 else 0) + pg_pins p m)%nat
    end;

  pg_update p n b : pg_inv p -> n ∈ pg_live p -> (0 < pg_pins p n)%nat -> blen b = PageSize p -> bytes_ok b ->
    let p' := MarkDirty n (WriteBuf n b p) in
    exists lsn, in_u 64 lsn /\ pg_inv p' /\ PageSize p' = PageSize p /\ pg_live p' = pg_live p /\ pg_room p' = pg_room p /\
      (forall m, pg_pins p' m = pg_pins p m) /\ pg_view p' n = stamp_lsn lsn b /\
      (forall m, m ∈ pg_live p -> m <> n -> pg_view p' m = pg_view p m);

  pg_unpin p n : pg_inv p -> (0 < pg_pins p n)%nat ->
    let p' := Unpin n p in
    pg_inv p' /\ PageSize p' = PageSize p /\ pg_live p' = pg_live p /\ pg_room p' = pg_room p /\
    (forall m, m ∈ pg_live p -> pg_view p' m = pg_view p m) /\
    (forall m, pg_pins p' m = (pg_pins p m - if decide (m = n) then 1 else 0)%nat);

  pg_allocate p r p' : pg_inv p -> (0 < pg_room p)%nat -> Allocate p = (r, p') ->
    pg_inv p' /\ PageSize p' = PageSize p /\
    (forall m, m ∈ pg_live p -> pg_view p' m = pg_view p m) /\
    match r with
    | inl e => pg_fails e /\ pg_live p' = pg_live p /\ pg_room p' = pg_room p /\ forall m, pg_pins p' m = pg_pins p m
    | inr (n, b) =>
        n ∉ pg_live p /\ pg_live p' = {[n]} ∪ pg_live p /\ (pg_room p <= S (pg_room p'))%nat /\ b = pg_view p' n /\
        forall m, pg_pins p' m = ((if decide (m = n) then 1 else 0) + pg_pins p m)%nat
    end;

  (** reading leaves the checksum algorithm *)
  pg_algo_fetch p n : pg_inv p -> n ∈ pg_live p -> ChecksumOf (Fetch n p).2 = ChecksumOf p;
  pg_algo_unpin p n : pg_inv p -> (0 < pg_pins p n)%nat -> ChecksumOf (Unpin n p) = ChecksumOf p
}.

(** ** Pages in memory

    The simplest pager: every page in a map, page numbers handed out in order, no
    failure. It satisfies the laws. *)

Record MemPages := MkMemPages {
  mp_size : Z;
  mp_pages : gmap Z bytes;
  mp_next : nat;
  mp_lsn : Z;
  mp_pins : gmap Z nat
}.

Definition mp_add_pin (n : Z) (p : MemPages) : MemPages :=
  MkMemPages (mp_size p) (mp_pages p) (mp_next p) (mp_lsn p) (<[n := S (default 0%nat (mp_pins p !! n))]> (mp_pins p)).

#[global] Instance MemPages_ops : PageOps MemPages := {
  PageSize := mp_size;
  Fetch n p :=
    match mp_pages p !! n with
    | Some b => (inr b, mp_add_pin n p)
    | None => (inl PgCorrupt, p)
    end;
  WriteBuf n b p := MkMemPages (mp_size p) (<[n := b]> (mp_pages p)) (mp_next p) (mp_lsn p) (mp_pins p);
  MarkDirty n p :=
    let lsn := u64 (mp_lsn p + 1) in
    MkMemPages (mp_size p) (alter (stamp_lsn lsn) n (mp_pages p)) (mp_next p) lsn (mp_pins p);
  Unpin n p :=
    MkMemPages (mp_size p) (mp_pages p) (mp_next p) (mp_lsn p) (<[n := pred (default 0%nat (mp_pins p !! n))]> (mp_pins p));
  Allocate p :=
    let n := Z.of_nat (mp_next p) in
    let b := replicate (Z.to_nat (mp_size p)) 0 in
    (inr (n, b), mp_add_pin n (MkMemPages (mp_size p) (<[n := b]> (mp_pages p)) (S (mp_next p)) (mp_lsn p) (mp_pins p)));
  Commit p := (inr tt, p);
  ChecksumOf p := ChecksumCRC32C
}.

Definition mem_pages (size : Z) : MemPages := MkMemPages size ∅ 1 0 ∅.

Lemma stamp_lsn_ok lsn b : 36 <= blen b -> bytes_ok b -> blen (stamp_lsn lsn b) = blen b /\ bytes_ok (stamp_lsn lsn b).
Proof.
  intros Hl Hb. unfold stamp_lsn, blen in *. split.
  - rewrite length_put; [done|]. rewrite length_le_bytes. lia.
  - apply put_Forall; [apply bytes_ok_le|done].
Qed.

Lemma stamp_body lsn b x m : 36 <= blen b -> 0 <= x -> 0 <= m -> csub x m (stamp_lsn lsn b) = csub x m b.
Proof. intros. unfold csub, stamp_lsn, blen in *. apply sub_put_ne; rewrite ?length_le_bytes; lia. Qed.

Lemma stamp_hdr lsn b : 36 <= blen b -> in_u 64 lsn ->
  hdr (stamp_lsn lsn b) = MkPageHeader (ph_Type (hdr b)) (ph_Flags (hdr b)) (ph_Codec (hdr b)) (ph_EntryCount (hdr b)) lsn
    (ph_CollIDEntry (hdr b)) (ph_FreeStart (hdr b)) (ph_FreeEnd (hdr b)) (ph_RightSib (hdr b)).
Proof.
  intros Hl Hlsn. assert (L : blen (stamp_lsn lsn b) = blen b).
  { unfold stamp_lsn, blen in *. rewrite length_put; [done|]. rewrite length_le_bytes. lia. }
  unfold hdr, DecodePageHeader. rewrite !rd_Ok by (unfold PageHeaderSize; lia). cbn [res_bind].
  cbn [ph_Type ph_Flags ph_Codec ph_EntryCount ph_PageLSN ph_CollIDEntry ph_FreeStart ph_FreeEnd ph_RightSib].
  unfold stamp_lsn, blen in *. change (Z.to_nat 0) with 0%nat. change (Z.to_nat PageHeaderSize) with 32%nat.
  rewrite !sub_sub by lia. cbn [Nat.add].
  rewrite (sub_put_eq' 8 8) by (rewrite ?length_le_bytes; lia). rewrite le_val_le_bytes by done.
  by rewrite !sub_put_ne by (rewrite ?length_le_bytes; lia).
Qed.

Definition mp_inv (p : MemPages) : Prop :=
  36 <= mp_size p <= 65536 /\ (0 < mp_next p)%nat /\ Z.of_nat (mp_next p) <= NullPage /\
  forall n b, mp_pages p !! n = Some b -> 0 < n < Z.of_nat (mp_next p) /\ blen b = mp_size p /\ bytes_ok b.

Definition mp_room (p : MemPages) : nat := Z.to_nat (NullPage - Z.of_nat (mp_next p)).

#[global] Program Instance MemPages_laws : PageLaws MemPages := {
  pg_inv := mp_inv;
  pg_live p := dom (mp_pages p);
  pg_view p n := default [] (mp_pages p !! n);
  pg_pins p n := default 0%nat (mp_pins p !! n);
  pg_room := mp_room;
  pg_fails _ := False
}.
Next Obligation. intros p (H & _). exact H. Qed.
Next Obligation. done. Qed.
Next Obligation.
  intros p n (H1 & H2 & H3 & H4) Hn. apply elem_of_dom in Hn as [b Hb]. rewrite Hb. cbn [default from_option id].
  destruct (H4 n b Hb) as (H5 & H6 & H7). unfold in_u, NullPage in *. cbn. split_and!; (done || lia).
Qed.
Next Obligation.
  intros p n r p' Hp Hn. cbn. apply elem_of_dom in Hn as [b Hb]. rewrite Hb. intros [= <- <-].
  split_and!; try done. intros m. cbn. destruct (decide (m = n)) as [->|Hne].
  - by rewrite lookup_insert_eq.
  - by rewrite lookup_insert_ne.
Qed.
Next Obligation.
  intros p n b (H1 & H2 & H3 & H4) Hn Hp Hb Hok p'. destruct (stamp_lsn_ok (u64 (mp_lsn p + 1)) b) as [S1 S2]; [cbn in *; lia|done|].
  apply elem_of_dom in Hn as [b0 Hb0].
  assert (Hpg : mp_pages p' = <[n := stamp_lsn (u64 (mp_lsn p + 1)) b]> (mp_pages p)).
  { cbn. by rewrite alter_insert_eq. }
  exists (u64 (mp_lsn p + 1)). split_and!; try done.
  - apply wrap_in_u. lia.
  - split; [done|]. split; [done|]. split; [done|]. intros m c. rewrite Hpg. intros Hm. destruct (decide (m = n)) as [->|Hne].
    + rewrite lookup_insert_eq in Hm. injection Hm as <-. cbn in Hb |- *. destruct (H4 n b0 Hb0). split_and!; try done; lia.
    + rewrite lookup_insert_ne in Hm by done. by apply H4.
  - rewrite Hpg. apply dom_insert_lookup_L. by eexists.
  - rewrite Hpg. by rewrite lookup_insert_eq.
  - intros m Hm Hne. rewrite Hpg. by rewrite lookup_insert_ne.
Qed.
Next Obligation.
  intros p n Hp Hpin p'. split_and!; try done. intros m. cbn. destruct (decide (m = n)) as [->|Hne].
  - rewrite lookup_insert_eq. cbn. lia.
  - rewrite lookup_insert_ne by done. lia.
Qed.
Next Obligation.
  intros p r p' (H1 & H2 & H3 & H4) Hroom HA.
  set (n := Z.of_nat (mp_next p)). set (b := replicate (Z.to_nat (mp_size p)) 0).
  assert (Er : r = inr (n, b) /\ p' = mp_add_pin n (MkMemPages (mp_size p) (<[n := b]> (mp_pages p)) (S (mp_next p)) (mp_lsn p) (mp_pins p))).
  { by injection HA as <- <-. }
  destruct Er as [-> ->]. clear HA. unfold mp_room in Hroom.
  assert (Hnot : mp_pages p !! n = None).
  { destruct (mp_pages p !! n) eqn:E; [|done]. apply H4 in E. unfold n in E. lia. }
  unfold mp_add_pin, mp_inv. cbn [mp_size mp_pages mp_next mp_lsn mp_pins PageSize MemPages_ops].
  split; [|split; [done|split]].
  - split_and!; try lia. intros m c Hm. destruct (decide (m = n)) as [->|Hne].
    + rewrite lookup_insert_eq in Hm. injection Hm as <-. unfold b, n, blen. rewrite length_replicate. split_and!; try lia.
      apply Forall_replicate. unfold byte_ok. lia.
    + rewrite lookup_insert_ne in Hm by done. destruct (H4 m c Hm). split; [lia|done].
  - intros m Hm. rewrite lookup_insert_ne; [done|]. intros <-. by apply elem_of_dom in Hm as [? Hm]; rewrite Hm in Hnot.
  - split_and!.
    + by apply not_elem_of_dom.
    + apply dom_insert_L.
    + unfold mp_room. cbn [mp_next]. lia.
    + by rewrite lookup_insert_eq.
    + intros m. destruct (decide (m = n)) as [->|Hne].
      * by rewrite lookup_insert_eq.
      * by rewrite lookup_insert_ne.
Qed.
Next Obligation. done. Qed.
Next Obligation. done. Qed.
