(* ===== verification/Heap.v ===== *)
(** * heap/: the record store

    Documents as records with a stable identifier: cells on slotted pages, chains
    of overflow pages for the large ones, forwarding slots for those that moved. *)

From S2P Require Import Prelude Rid Checksum Page Slotted Overflow Bson PageStore.

#[local] Open Scope Z_scope.

(** ** cell.go: the header of a cell *)

Definition cellHeaderSize : Z := 24.
Definition cellMagic : Z := 0xDC.
Definition cellTombstone : Z := 0x01.
Definition cellOverflow : Z := 0x02.
Definition cellHasVer : Z := 0x04.

Record cellHeader := MkCellHeader { ch_flags : Z; ch_bsonLen : Z; ch_version : Z; ch_prevPtr : Z }.

Definition cellHeader_encode (h : cellHeader) : bytes :=
  [cellMagic; ch_flags h; 0; 0] ++ le_bytes 4 (ch_bsonLen h) ++ le_bytes 8 (ch_version h) ++ le_bytes 8 (ch_prevPtr h).

Definition decodeCellHeader (cell : bytes) : option cellHeader :=
  if (blen cell <? cellHeaderSize) || negb (nth 0 cell 0 =? cellMagic) then None
  else Some (MkCellHeader (nth 1 cell 0) (le_val (sub 4 4 cell)) (le_val (sub 8 8 cell)) (le_val (sub 16 8 cell))).

Definition overflowPtrSize : Z := 16.

Definition encodeOverflowPtr (firstPage totalLen : Z) : bytes :=
  le_bytes 4 firstPage ++ le_bytes 4 totalLen ++ replicate 8 0.

(** Is the flag set. *)
Definition has_flag (flags f : Z) : bool := negb (Z.land flags f =? 0).

(** ** The heap and what it runs on *)

Definition SpillThreshold : Z := 6144.
Definition MaxDocSize : Z := 16 * 2 ^ 20.

Inductive hErr : Type :=
| HReadOnly | HNotFound | ErrDocumentTooLarge | ErrRollbackUnsupported
| HPage (e : pgErr) | HFormat (e : fmtErr) | HBson (e : bsonErr) | HFuel.

#[global] Instance bsonErr_eq_dec : EqDecision bsonErr.
Proof. solve_decision. Defined.

#[global] Instance hErr_eq_dec : EqDecision hErr.
Proof. solve_decision. Defined.

Record Heap := MkHeap {
  h_collID : Z;
  h_order : list Z;
  h_avail : gmap Z Z;
  h_cursor : Z;
  h_liveCount : Z;
  h_deadCount : Z;
  h_txCounter : Z
}.

Definition set_order (l : list Z) (h : Heap) : Heap := MkHeap (h_collID h) l (h_avail h) (h_cursor h) (h_liveCount h) (h_deadCount h) (h_txCounter h).
Definition set_avail (a : gmap Z Z) (h : Heap) : Heap := MkHeap (h_collID h) (h_order h) a (h_cursor h) (h_liveCount h) (h_deadCount h) (h_txCounter h).
Definition set_cursor (c : Z) (h : Heap) : Heap := MkHeap (h_collID h) (h_order h) (h_avail h) c (h_liveCount h) (h_deadCount h) (h_txCounter h).
Definition set_liveCount (n : Z) (h : Heap) : Heap := MkHeap (h_collID h) (h_order h) (h_avail h) (h_cursor h) n (h_deadCount h) (h_txCounter h).
Definition set_deadCount (n : Z) (h : Heap) : Heap := MkHeap (h_collID h) (h_order h) (h_avail h) (h_cursor h) (h_liveCount h) n (h_txCounter h).
Definition set_txCounter (n : Z) (h : Heap) : Heap := MkHeap (h_collID h) (h_order h) (h_avail h) (h_cursor h) (h_liveCount h) (h_deadCount h) n.

(** The counters are uint64. *)
Definition add_live (n : Z) (h : Heap) : Heap := set_liveCount (u64 (h_liveCount h + n)) h.
Definition add_dead (n : Z) (h : Heap) : Heap := set_deadCount (u64 (h_deadCount h + n)) h.
(** A missing key of the map reads as 0. *)
Definition avail_of (pno : Z) (h : Heap) : Z := default 0 (h_avail h !! pno).

(** What the heap uses of the pager beyond [PageOps]: the buffer of a page it has
    pinned, Free and PageCount. *)
Class HeapPages (P : Type) := {
  BufOf : Z -> P -> bytes;
  FreePage : Z -> P -> (pgErr + unit) * P;
  PagesInFile : P -> Z
}.

(** tx.go *)
Record HTx := MkHTx { tx_version : Z; tx_readOnly : bool }.

(** ** The monad of the methods *)

Record hs (P : Type) := MkHs { hs_h : Heap; hs_p : P }.
Arguments MkHs {P}.
Arguments hs_h {P}.
Arguments hs_p {P}.

Section monad.
Context {P : Type}.

Definition HP (A : Type) : Type := hs P -> res hErr A * hs P.

Definition hret {A} (a : A) : HP A := fun s => (Ok a, s).
Definition hfail {A} (e : hErr) : HP A := fun s => (Err e, s).
Definition hlift {A} (r : res hErr A) : HP A := fun s => (r, s).
Definition hbind {A B} (m : HP A) (k : A -> HP B) : HP B := fun s =>
  match m s with
  | (Ok a, s') => k a s'
  | (Err e, s') => (Err e, s')
  | (Panic, s') => (Panic, s')
  end.
Definition htry {A} (m : HP A) : HP (hErr + A) := fun s =>
  match m s with
  | (Ok a, s') => (Ok (inr a), s')
  | (Err e, s') => (Ok (inl e), s')
  | (Panic, s') => (Panic, s')
  end.
Definition hget : HP Heap := fun s => (Ok (hs_h s), s).
Definition hput (f : Heap -> Heap) : HP unit := fun s => (Ok tt, MkHs (f (hs_h s)) (hs_p s)).
Definition on_pages (f : P -> P) : HP unit := fun s => (Ok tt, MkHs (hs_h s) (f (hs_p s))).
Definition hpages {A} (f : P -> (pgErr + A) * P) : HP A := fun s =>
  let '(r, p) := f (hs_p s) in (match r with inl e => Err (HPage e) | inr a => Ok a end, MkHs (hs_h s) p).
Definition hask {A} (f : P -> A) : HP A := fun s => (Ok (f (hs_p s)), s).

Fixpoint hiter {A} (f : A -> HP unit) (l : list A) : HP unit :=
  match l with
  | [] => hret tt
  | x :: l' => hbind (f x) (fun _ => hiter f l')
  end.
End monad.
Arguments HP : clear implicits.

Declare Scope heap_scope.
Delimit Scope heap_scope with heap.
Notation "'do^' x := m 'in' k" := (hbind m (fun x => k))
  (at level 200, x name, m at level 100, k at level 200) : heap_scope.
Notation "'do^' ' p := m 'in' k" := (hbind m (fun x => match x with p => k end))
  (at level 200, p strict pattern, m at level 100, k at level 200) : heap_scope.
Notation "m ';;^' k" := (hbind m (fun _ => k)) (at level 199, right associativity) : heap_scope.
#[local] Open Scope heap_scope.

Definition h_fmt {A} (r : res fmtErr A) : res hErr A :=
  match r with Ok a => Ok a | Err e => Err (HFormat e) | Panic => Panic end.

(** ** Cells on a page *)

(** Bytes from offset off of the cell in slot i on. A slice of a cell may reach past
    its end, up to that of the page's buffer; beyond it panics. *)
Definition cell_rd (b : bytes) (i off n : Z) : res hErr bytes :=
  let* o := h_fmt (slotAt i b).1 in rd (BodyOffset + o.1 + off) n b.

(** The two fields of an overflow pointer. *)
Definition decodeOverflowPtr (b : bytes) (i : Z) : res hErr (Z * Z) :=
  let* p := cell_rd b i cellHeaderSize 4 in
  let* t := cell_rd b i (cellHeaderSize + 4) 4 in
  Ok (le_val p, le_val t).

(** What s.Cell and decodeCellHeader make of slot i: the header, if any. *)
Definition cell_header (b : bytes) (i : Z) : res hErr (option cellHeader) :=
  match (Cell i b).1 with
  | Ok c => Ok (decodeCellHeader c)
  | Err _ => Ok None
  | Panic => Panic
  end.

(** A record that is there: its header, unless the slot is dead, forwards, or
    holds a tombstone. *)
Definition live_header (b : bytes) (i : Z) : res hErr (option cellHeader) :=
  let* l := h_fmt (IsLive i b).1 in
  if negb l then Ok None
  else
    let* o := cell_header b i in
    Ok (match o with Some h => if has_flag (ch_flags h) cellTombstone then None else Some h | None => None end).

(** ** The methods *)

Section heap.
Context {P : Type} {ops : PageOps P} {hops : HeapPages P}.
(** How many pages of an overflow chain are followed. *)
Context (fuel : nat).

Definition fetch (n : Z) : HP P bytes := hpages (Fetch n).
Definition unpin (n : Z) : HP P unit := on_pages (Unpin n).

(** A slotted-page operation on the pinned page n, whose buffer is b. *)
Definition on_slotted {A} (n : Z) (b : bytes) (m : M A) : HP P (fmtErr + A) :=
  let '(r, b') := m b in
  on_pages (WriteBuf n b') ;;^
  match r with Ok a => hret (inr a) | Err e => hret (inl e) | Panic => hlift Panic end.

(** MarkDirty, and the page's entry of the free-space directory. *)
Definition dirtied (n : Z) : HP P unit :=
  on_pages (MarkDirty n) ;;^
  do^ b := hask (BufOf n) in
  do^ a := hlift (h_fmt (AvailBytes b).1) in
  hput (fun h => set_avail (<[n := a]> (h_avail h)) h).

(** *** overflow.go *)

(** n pages, with their buffers; on an error those acquired are unpinned. *)
Fixpoint allocate_pages (n : nat) (acquired : list Z) : HP P (list (Z * bytes)) :=
  match n with
  | O => hret []
  | S n' =>
      do^ r := htry (hpages Allocate) in
      match r with
      | inl e => hiter unpin (rev acquired) ;;^ hfail e
      | inr (id, b) => do^ l := allocate_pages n' (id :: acquired) in hret ((id, b) :: l)
      end
  end.

(** The checksum is refreshed after MarkDirty, which stamps the header. *)
Definition seal_page (algo : Z) (pb : Z * bytes) : HP P unit :=
  let '(n, b) := pb in
  on_pages (WriteBuf n b) ;;^
  on_pages (MarkDirty n) ;;^
  do^ b1 := hask (BufOf n) in
  do^ r := hlift (h_fmt (WritePageChecksum b1 algo)) in
  on_pages (WriteBuf n r.2) ;;^
  unpin n.

Definition writeOverflow (payload : bytes) : HP P Z :=
  do^ size := hask PageSize in
  do^ n := hlift (OverflowPageCount (blen payload) (u32 size)) in
  do^ pages := allocate_pages (Z.to_nat n) [] in
  do^ algo := hask ChecksumOf in
  do^ h := hget in
  do^ '(_, bufs) := hlift (h_fmt (WriteOverflowChain payload (h_collID h) algo (map snd pages) (map (fun x => u32 x.1) pages))) in
  hiter (seal_page algo) (zip (map fst pages) bufs) ;;^
  match pages with [] => hlift Panic | (no, _) :: _ => hret (u32 no) end.

(** The reader's fetch: a copy of the page, which is let go at once. *)
Definition fetch_copy (n : Z) (s : hs P) : res hErr bytes * hs P :=
  match fetch n s with
  | (Ok b, s') => (Ok b, (unpin n s').2)
  | (r, s') => (r, s')
  end.

Definition readOverflow (headPage : Z) : HP P bytes :=
  do^ algo := hask ChecksumOf in
  fun s =>
    let '(r, s') := ReadOverflowChain fetch_copy algo fuel headPage s in
    (match r with
     | None => Err HFuel
     | Some (Ok b) => Ok b
     | Some (Err (inl e)) => Err e
     | Some (Err (inr e)) => Err (HFormat e)
     | Some Panic => Panic
     end, s').

(** The page is let go before it is freed. *)
Fixpoint free_chain (k : nat) (pno : Z) : HP P unit :=
  if (pno =? NullPage) || (pno =? 0) then hret tt
  else
    match k with
    | O => hfail HFuel
    | S k' =>
        do^ b := fetch pno in
        do^ h := hlift (DecodePageHeader b) in
        unpin pno ;;^
        hpages (FreePage pno) ;;^
        free_chain k' (ph_RightSib h)
    end.

Definition freeOverflow (headPage : Z) : HP P unit := free_chain fuel headPage.

(** *** heap.go: opening *)

(** The live and dead records of one page, from slot i on. *)
Fixpoint countLive_loop (k : nat) (i : Z) (b : bytes) (h : Heap) : res hErr Heap :=
  match k with
  | O => Ok h
  | S k' =>
      let* f := h_fmt (IsForward i b).1 in
      if f : bool then countLive_loop k' (i + 1) b h
      else
        let* l := h_fmt (IsLive i b).1 in
        if negb l then countLive_loop k' (i + 1) b (add_dead 1 h)
        else
          match (Cell i b).1 with
          | Err _ => countLive_loop k' (i + 1) b h
          | Panic => Panic
          | Ok c =>
              let counted := match decodeCellHeader c with
                             | Some ch => if negb (has_flag (ch_flags ch) cellTombstone) then add_live 1 h else add_dead 1 h
                             | None => add_dead 1 h
                             end in
              countLive_loop k' (i + 1) b counted
          end
  end.

Definition countLive (b : bytes) : HP P unit :=
  do^ n := hlift (h_fmt (SlotCount b).1) in
  do^ h := hget in
  do^ h' := hlift (countLive_loop (Z.to_nat n) 0 b h) in
  hput (fun _ => h').

Definition rebuild_page (pno : Z) : HP P unit :=
  do^ b := fetch pno in
  do^ ph := hlift (DecodePageHeader b) in
  do^ h := hget in
  (if (ph_Type ph =? PageHeap) && (ph_CollIDEntry ph =? h_collID h) then
     hput (fun h => set_order (h_order h ++ [pno]) h) ;;^
     do^ a := hlift (h_fmt (AvailBytes b).1) in
     hput (fun h => set_avail (<[pno := a]> (h_avail h)) h) ;;^
     countLive b
   else hret tt) ;;^
  unpin pno.

Definition rebuild : HP P unit :=
  do^ pages := hask PagesInFile in
  hiter rebuild_page (seqZ 1 (pages - 1)).

Definition new_heap (collID : Z) : Heap := MkHeap collID [] ∅ 0 0 0 0.

Definition Open (collID : Z) (p : P) : res hErr unit * hs P := rebuild (MkHs (new_heap collID) p).

Definition Begin : HP P HTx :=
  hput (fun h => set_txCounter (u64 (h_txCounter h + 1)) h) ;;^
  do^ h := hget in
  hret (MkHTx (h_txCounter h) false).

Definition BeginReadOnly : HP P HTx := do^ h := hget in hret (MkHTx (h_txCounter h) true).

(** *** heap.go: placing a cell *)

Definition buildCell (doc : bytes) (version : Z) : HP P bytes :=
  if blen doc <=? SpillThreshold then
    hret (cellHeader_encode (MkCellHeader cellHasVer (u32 (blen doc)) version 0) ++ doc)
  else
    do^ head := writeOverflow doc in
    hret (cellHeader_encode (MkCellHeader (Z.lor cellHasVer cellOverflow) 0 version 0) ++ encodeOverflowPtr head (u32 (blen doc))).

(** Next fit: from the cursor on, once around. *)
Fixpoint findPage_loop (k : nat) (i n cellLen : Z) (h : Heap) : option (Z * Z) :=
  match k with
  | O => None
  | S k' =>
      let idx := Z.rem (h_cursor h + i) n in
      let pno := nth (Z.to_nat idx) (h_order h) 0 in
      if avail_of pno h >=? cellLen + 4 then Some (pno, idx)
      else findPage_loop k' (i + 1) n cellLen h
  end.

Definition findPage (cellLen : Z) : HP P (option Z) :=
  do^ h := hget in
  match findPage_loop (length (h_order h)) 0 (blen (h_order h)) cellLen h with
  | Some (pno, idx) => hput (set_cursor idx) ;;^ hret (Some pno)
  | None => hret None
  end.

Definition addCellNewPage (cell : bytes) : HP P RID :=
  do^ '(id, b) := hpages Allocate in
  do^ h := hget in
  do^ b1 := hlift (h_fmt (InitPage b PageHeap (h_collID h))) in
  do^ r := on_slotted id b1 (AddCell cell) in
  match r with
  | inl e => unpin id ;;^ hfail (HFormat e)
  | inr slot =>
      on_pages (MarkDirty id) ;;^
      do^ b2 := hask (BufOf id) in
      hput (fun h => set_order (h_order h ++ [u32 id]) h) ;;^
      do^ a := hlift (h_fmt (AvailBytes b2).1) in
      hput (fun h => set_avail (<[u32 id := a]> (h_avail h)) h) ;;^
      hput (fun h => set_cursor (blen (h_order h) - 1) h) ;;^
      unpin id ;;^
      hret (MkRID (u32 id) (u16 slot))
  end.

Definition addCell (cell : bytes) : HP P RID :=
  do^ r := findPage (blen cell) in
  match r with
  | Some pno =>
      do^ b := fetch pno in
      do^ r := on_slotted pno b (AddCell cell) in
      match r with
      | inl e => unpin pno ;;^ hfail (HFormat e)
      | inr slot => dirtied pno ;;^ unpin pno ;;^ hret (MkRID pno (u16 slot))
      end
  | None => addCellNewPage cell
  end.

Definition Insert (txn : HTx) (doc : bytes) : HP P RID :=
  if tx_readOnly txn then hfail HReadOnly
  else
    match WellFormed doc with
    | Some e => hfail (HBson e)
    | None =>
        if blen doc >? MaxDocSize then hfail ErrDocumentTooLarge
        else
          do^ cell := buildCell doc (tx_version txn) in
          do^ rid := addCell cell in
          hput (add_live 1) ;;^
          hret rid
    end.

(** *** heap.go: reading and deleting *)

(** Where the record of rid is, and whether it took a forwarding hop. *)
Definition resolve (rid : RID) : HP P (Z * Z * bool) :=
  do^ b := fetch (PageNo rid) in
  do^ f := hlift (h_fmt (IsForward (Slot rid) b).1) in
  if f : bool then
    do^ '(tp, ts, _) := hlift (h_fmt (Forward (Slot rid) b).1) in
    unpin (PageNo rid) ;;^
    hret (tp, ts, true)
  else
    unpin (PageNo rid) ;;^
    hret (PageNo rid, Slot rid, false).

Definition readAt (page slot : Z) : HP P bytes :=
  do^ b := fetch page in
  do^ o := hlift (live_header b slot) in
  match o with
  | None => unpin page ;;^ hfail HNotFound
  | Some h =>
      if has_flag (ch_flags h) cellOverflow then
        do^ '(head, _) := hlift (decodeOverflowPtr b slot) in
        unpin page ;;^
        readOverflow head
      else
        do^ doc := hlift (cell_rd b slot cellHeaderSize (ch_bsonLen h)) in
        unpin page ;;^
        hret doc
  end.

Definition Lookup (txn : HTx) (rid : RID) : HP P bytes :=
  do^ '(page, slot, _) := resolve rid in
  readAt page slot.

Definition deadSlot (page slot : Z) : HP P unit :=
  do^ b := fetch page in
  do^ r := on_slotted page b (DeleteCell slot) in
  match r with
  | inl e => unpin page ;;^ hfail (HFormat e)
  | inr _ => dirtied page ;;^ unpin page
  end.

(** update.go: the head of the chain of a cell that overflows. *)
Definition cellOverflowHead (page slot : Z) : HP P (option Z) :=
  do^ b := fetch page in
  do^ o := hlift (cell_header b slot) in
  match o with
  | Some h =>
      if has_flag (ch_flags h) cellOverflow then
        do^ '(head, _) := hlift (decodeOverflowPtr b slot) in
        unpin page ;;^ hret (Some head)
      else unpin page ;;^ hret None
  | None => unpin page ;;^ hret None
  end.

Definition freeCellOverflow (page slot : Z) : HP P unit :=
  do^ o := cellOverflowHead page slot in
  match o with Some head => freeOverflow head | None => hret tt end.

Definition Delete (txn : HTx) (rid : RID) : HP P unit :=
  if tx_readOnly txn then hfail HReadOnly
  else
    do^ '(page, slot, forwarded) := resolve rid in
    freeCellOverflow page slot ;;^
    deadSlot page slot ;;^
    (if forwarded : bool then deadSlot (PageNo rid) (Slot rid) else hret tt) ;;^
    hput (fun h => add_dead 1 (add_live (-1) h)).

Record FreeSpaceStats := MkFreeSpaceStats { fs_PageCount : Z; fs_LiveRecords : Z; fs_DeadRecords : Z; fs_FreeBytes : Z }.

Definition heap_FreeSpaceStats (h : Heap) : FreeSpaceStats :=
  MkFreeSpaceStats (blen (h_order h)) (h_liveCount h) (h_deadCount h) (map_fold (fun _ a n => u64 (n + a)) 0 (h_avail h)).

(** *** update.go *)

(** False when the page has no room for the cell. *)
Definition replaceInPlace (page slot : Z) (cell : bytes) : HP P bool :=
  do^ b := fetch page in
  do^ r := on_slotted page b (ReplaceCell slot cell) in
  match r with
  | inr _ => dirtied page ;;^ unpin page ;;^ hret true
  | inl e => unpin page ;;^ if bool_decide (e = ErrNoSpace) then hret false else hfail (HFormat e)
  end.

Definition forwardTo (rid : RID) (page slot : Z) (forwarded : bool) (newRID : RID) : HP P unit :=
  do^ b := fetch (PageNo rid) in
  do^ r := on_slotted (PageNo rid) b (SetForward (Slot rid) (PageNo newRID) (Slot newRID)) in
  match r with
  | inl e => unpin (PageNo rid) ;;^ hfail (HFormat e)
  | inr _ =>
      dirtied (PageNo rid) ;;^
      unpin (PageNo rid) ;;^
      if forwarded then deadSlot page slot else hret tt
  end.

Definition free_old (o : option Z) : HP P unit := match o with Some head => freeOverflow head | None => hret tt end.

Definition Update (txn : HTx) (rid : RID) (newDoc : bytes) : HP P RID :=
  if tx_readOnly txn then hfail HReadOnly
  else
    match WellFormed newDoc with
    | Some e => hfail (HBson e)
    | None =>
        if blen newDoc >? MaxDocSize then hfail ErrDocumentTooLarge
        else
          do^ '(page, slot, forwarded) := resolve rid in
          do^ old := cellOverflowHead page slot in
          do^ cell := buildCell newDoc (tx_version txn) in
          do^ done := replaceInPlace page slot cell in
          if done : bool then free_old old ;;^ hret rid
          else
            do^ newRID := addCell cell in
            forwardTo rid page slot forwarded newRID ;;^
            free_old old ;;^
            hret rid
    end.

(** *** scan.go *)

Record cursor := MkCursor {
  cu_pages : list Z; cu_pi : Z; cu_slot : Z; cu_curRID : RID; cu_curDoc : bytes; cu_err : option hErr; cu_closed : bool
}.

Definition Scan (txn : HTx) : HP P cursor :=
  do^ h := hget in hret (MkCursor (h_order h) 0 0 (MkRID 0 0) [] None false).

Definition cu_at (pi slot : Z) (c : cursor) : cursor := MkCursor (cu_pages c) pi slot (cu_curRID c) (cu_curDoc c) (cu_err c) (cu_closed c).
Definition cu_failed (e : hErr) (c : cursor) : cursor := MkCursor (cu_pages c) (cu_pi c) (cu_slot c) (cu_curRID c) (cu_curDoc c) (Some e) (cu_closed c).
Definition cu_yield (rid : RID) (doc : bytes) (c : cursor) : cursor := MkCursor (cu_pages c) (cu_pi c) (cu_slot c) rid doc (cu_err c) (cu_closed c).

(** The first record of the page from slot i on. *)
Fixpoint next_live (k : nat) (i : Z) (b : bytes) : res hErr (option Z) :=
  match k with
  | O => Ok None
  | S k' =>
      let* o := live_header b i in
      match o with Some _ => Ok (Some i) | None => next_live k' (i + 1) b end
  end.

(** The rest of the pages, cu_pi being the first of them. *)
Fixpoint next_loop (pages : list Z) (c : cursor) : HP P (bool * cursor) :=
  match pages with
  | [] => hret (false, c)
  | pno :: pages' =>
      do^ r := htry (fetch pno) in
      match r with
      | inl e => hret (false, cu_failed e c)
      | inr b =>
          do^ n := hlift (h_fmt (SlotCount b).1) in
          do^ o := hlift (next_live (Z.to_nat (n - cu_slot c)) (cu_slot c) b) in
          match o with
          | Some i =>
              unpin pno ;;^
              do^ r := htry (readAt pno (u16 i)) in
              match r with
              | inl e => hret (false, cu_failed e (cu_at (cu_pi c) (i + 1) c))
              | inr doc => hret (true, cu_yield (MkRID pno (u16 i)) doc (cu_at (cu_pi c) (i + 1) c))
              end
          | None =>
              unpin pno ;;^
              next_loop pages' (cu_at (cu_pi c + 1) 0 c)
          end
      end
  end.

Definition cursor_Next (c : cursor) : HP P (bool * cursor) :=
  if cu_closed c || bool_decide (cu_err c <> None) then hret (false, c)
  else next_loop (drop (Z.to_nat (cu_pi c)) (cu_pages c)) c.

Definition cursor_Close (c : cursor) : cursor := MkCursor (cu_pages c) (cu_pi c) (cu_slot c) (cu_curRID c) (cu_curDoc c) (cu_err c) true.

(** *** records.go *)

Record HRecord := MkHRecord { rec_RID : RID; rec_Version : Z; rec_Doc : bytes }.

Fixpoint page_records (k : nat) (pno i : Z) (b : bytes) : HP P (list HRecord) :=
  match k with
  | O => hret []
  | S k' =>
      do^ o := hlift (live_header b i) in
      match o with
      | None => page_records k' pno (i + 1) b
      | Some h =>
          do^ r := htry (readAt pno (u16 i)) in
          match r with
          | inl e => unpin pno ;;^ hfail e
          | inr doc => do^ l := page_records k' pno (i + 1) b in hret (MkHRecord (MkRID pno (u16 i)) (ch_version h) doc :: l)
          end
      end
  end.

Fixpoint records_loop (pages : list Z) : HP P (list HRecord) :=
  match pages with
  | [] => hret []
  | pno :: pages' =>
      do^ b := fetch pno in
      do^ n := hlift (h_fmt (SlotCount b).1) in
      do^ l := page_records (Z.to_nat n) pno 0 b in
      unpin pno ;;^
      do^ l' := records_loop pages' in
      hret (l ++ l')
  end.

Definition Records : HP P (list HRecord) := do^ h := hget in records_loop (h_order h).

(** *** tx.go *)

Definition Tx_Commit (t : HTx) : HP P unit := if tx_readOnly t then hret tt else hpages Commit.
Definition Tx_Rollback (t : HTx) : HP P unit := if tx_readOnly t then hret tt else hfail ErrRollbackUnsupported.

(** *** check.go *)

(** A problem, by the page (and slot) it is about and its message. *)
Inductive problem :=
| PrLive | PrDead | PrFetch (pno : Z) | PrType (pno : Z) | PrOwner (pno : Z) | PrSum (pno : Z) | PrAvail (pno : Z)
| PrCell (pno i : Z) | PrHeader (pno i : Z) | PrChain (pno i : Z) | PrLength (pno i : Z)
| PrNoTarget (pno i : Z) | PrUnreadable (pno i : Z) | PrDepth (pno i : Z) | PrTarget (pno i : Z).

Record CheckResult := MkCheckResult { ck_HeapPages : Z; ck_Live : Z; ck_Dead : Z; ck_Problems : list problem }.

Definition ck_add (p : problem) (r : CheckResult) : CheckResult := MkCheckResult (ck_HeapPages r) (ck_Live r) (ck_Dead r) (ck_Problems r ++ [p]).
Definition ck_live (r : CheckResult) : CheckResult := MkCheckResult (ck_HeapPages r) (u64 (ck_Live r + 1)) (ck_Dead r) (ck_Problems r).
Definition ck_dead (r : CheckResult) : CheckResult := MkCheckResult (ck_HeapPages r) (ck_Live r) (u64 (ck_Dead r + 1)) (ck_Problems r).
Definition ck_when (c : bool) (p : problem) (r : CheckResult) : CheckResult := if c then ck_add p r else r.

(** The target is let go when the check of the slot returns. *)
Definition checkForward (pno : Z) (b : bytes) (i : Z) (res : CheckResult) : HP P CheckResult :=
  do^ '(tp, ts, ok) := hlift (h_fmt (Forward i b).1) in
  if negb ok then hret (ck_add (PrNoTarget pno i) res)
  else
    do^ r := htry (fetch tp) in
    match r with
    | inl _ => hret (ck_add (PrUnreadable pno i) res)
    | inr b2 =>
        do^ f := hlift (h_fmt (IsForward ts b2).1) in
        do^ l := hlift (h_fmt (IsLive ts b2).1) in
        unpin tp ;;^
        hret (if f : bool then ck_add (PrDepth pno i) res else ck_when (negb l) (PrTarget pno i) res)
    end.

Definition checkSlot (pno : Z) (b : bytes) (i : Z) (res : CheckResult) : HP P CheckResult :=
  do^ f := hlift (h_fmt (IsForward i b).1) in
  if f : bool then checkForward pno b i res
  else
    do^ l := hlift (h_fmt (IsLive i b).1) in
    if negb l then hret (ck_dead res)
    else
      match (Cell i b).1 with
      | Panic => hlift Panic
      | Err _ => hret (ck_dead (ck_add (PrCell pno i) res))
      | Ok c =>
          match decodeCellHeader c with
          | None => hret (ck_dead (ck_add (PrHeader pno i) res))
          | Some h =>
              if has_flag (ch_flags h) cellTombstone then hret (ck_dead res)
              else if has_flag (ch_flags h) cellOverflow then
                do^ '(head, total) := hlift (decodeOverflowPtr b i) in
                do^ r := htry (readOverflow head) in
                hret (ck_live match r with
                              | inl _ => ck_add (PrChain pno i) res
                              | inr doc => ck_when (negb (blen doc =? total)) (PrLength pno i) res
                              end)
              else hret (ck_live res)
          end
      end.

Fixpoint checkSlots (k : nat) (pno : Z) (b : bytes) (i : Z) (res : CheckResult) : HP P CheckResult :=
  match k with
  | O => hret res
  | S k' => do^ r := checkSlot pno b i res in checkSlots k' pno b (i + 1) r
  end.

Definition checkPage (pno : Z) (res : CheckResult) : HP P CheckResult :=
  do^ r := htry (fetch pno) in
  match r with
  | inl _ => hret (ck_add (PrFetch pno) res)
  | inr b =>
      do^ ph := hlift (DecodePageHeader b) in
      do^ res' :=
        (if negb (ph_Type ph =? PageHeap) then hret (ck_add (PrType pno) res)
         else
           do^ h := hget in
           do^ algo := hask ChecksumOf in
           do^ sum := htry (hlift (h_fmt (VerifyPageChecksum b algo))) in
           do^ got := hlift (h_fmt (AvailBytes b).1) in
           do^ n := hlift (h_fmt (SlotCount b).1) in
           let r1 := ck_when (negb (ph_CollIDEntry ph =? h_collID h)) (PrOwner pno) res in
           let r2 := match sum with inl _ => ck_add (PrSum pno) r1 | inr _ => r1 end in
           let r3 := ck_when (negb (got =? avail_of pno h)) (PrAvail pno) r2 in
           checkSlots (Z.to_nat n) pno b 0 r3) in
      unpin pno ;;^
      hret res'
  end.

Fixpoint checkPages (pages : list Z) (res : CheckResult) : HP P CheckResult :=
  match pages with
  | [] => hret res
  | pno :: pages' => do^ r := checkPage pno res in checkPages pages' r
  end.

Definition Check : HP P CheckResult :=
  do^ h := hget in
  do^ r := checkPages (h_order h) (MkCheckResult (blen (h_order h)) 0 0 []) in
  hret (ck_when (negb (ck_Dead r =? h_deadCount h)) PrDead (ck_when (negb (ck_Live r =? h_liveCount h)) PrLive r)).
End heap.

(** ** What the heap relies on *)

(** Beyond [PageLaws]: the buffer of a pinned page is the page, writing back what is
    there changes nothing, a page that has just been marked dirty may be written
    once more, and the checksum algorithm stays. *)
Class HeapLaws (P : Type) {ops : PageOps P} {laws : PageLaws P} {hops : HeapPages P} := {
  hl_buf p n : pg_inv p -> n ∈ pg_live p -> (0 < pg_pins p n)%nat -> BufOf n p = pg_view p n;
  hl_same p n : pg_inv p -> n ∈ pg_live p -> (0 < pg_pins p n)%nat -> WriteBuf n (pg_view p n) p = p;
  hl_reseal p n b b' : pg_inv p -> n ∈ pg_live p -> (0 < pg_pins p n)%nat ->
    blen b = PageSize p -> bytes_ok b -> blen b' = PageSize p -> bytes_ok b' ->
    let p1 := MarkDirty n (WriteBuf n b p) in
    let p2 := WriteBuf n b' p1 in
    pg_inv p2 /\ PageSize p2 = PageSize p /\ ChecksumOf p2 = ChecksumOf p /\ pg_live p2 = pg_live p /\ pg_room p2 = pg_room p /\
    (forall m, pg_pins p2 m = pg_pins p m) /\ pg_view p2 n = b' /\ (forall m, m ∈ pg_live p -> m <> n -> pg_view p2 m = pg_view p m);
  hl_update p n b : pg_inv p -> n ∈ pg_live p -> (0 < pg_pins p n)%nat -> blen b = PageSize p -> bytes_ok b ->
    ChecksumOf (MarkDirty n (WriteBuf n b p)) = ChecksumOf p;
  hl_allocate p : pg_inv p -> (0 < pg_room p)%nat -> ChecksumOf (Allocate p).2 = ChecksumOf p
}.

(** Pages in memory: Free forgets the page. *)
#[global] Instance MemPages_heap : HeapPages MemPages := {
  BufOf n p := default [] (mp_pages p !! n);
  FreePage n p := (inr tt, MkMemPages (mp_size p) (base.delete n (mp_pages p)) (mp_next p) (mp_lsn p)
                             (<[n := pred (default 0%nat (mp_pins p !! n))]> (mp_pins p)));
  PagesInFile p := Z.of_nat (mp_next p)
}.

#[global] Instance MemPages_heap_laws : HeapLaws MemPages.
Proof.
  constructor; try done.
  - intros p n Hp Hn _. cbn. change (n ∈ dom (mp_pages p)) in Hn; apply elem_of_dom in Hn as [b Hb]. rewrite Hb. cbn [default from_option id].
    rewrite insert_id by done. by destruct p.
  - intros p n b b' Hp Hn _ Hb Hok Hb' Hok'. cbn in Hb, Hb' |- *. destruct Hp as (H1 & H2 & H3 & H4).
    change (n ∈ dom (mp_pages p)) in Hn; apply elem_of_dom in Hn as [b0 Hb0]. rewrite alter_insert_eq, !insert_insert_eq.
    assert (Hin : base.insert n b' (mp_pages p) !! n = Some b') by apply lookup_insert_eq. split_and!; try done.
    + split; [done|]. split; [done|]. split; [done|]. cbn [mp_pages mp_next mp_size]. intros m c Hm. destruct (decide (m = n)) as [->|Hne].
      * rewrite Hin in Hm. injection Hm as <-. destruct (H4 n b0 Hb0). split_and!; (done || lia).
      * rewrite lookup_insert_ne in Hm by done. by apply H4.
    + apply dom_insert_lookup_L. by eexists.
    + by rewrite Hin.
    + intros m Hm Hne. by rewrite lookup_insert_ne.
Qed.
