(* ===== verification/Pool.v ===== *)
(** * pager/frame.go and pager/pool.go: the buffer pool

    Frames, the page table and the 2Q replacement lists. A frame is known by the
    number of the page it holds: while a caller has it pinned it is the table's
    frame of that page. *)

From S2P Require Import Prelude.

(** ** Frames *)

Inductive policyList := listNone | listA1in | listAm.

#[global] Instance policyList_eq_dec : EqDecision policyList.
Proof. solve_decision. Defined.

Record Frame := MkFrame {
  PageID : Z;
  Buf : bytes;
  pins : Z;
  dirty : bool;
  pageLSN : Z;
  loc : policyList
}.

Definition set_Buf (b : bytes) (f : Frame) : Frame := MkFrame (PageID f) b (pins f) (dirty f) (pageLSN f) (loc f).
Definition add_pins (k : Z) (f : Frame) : Frame := MkFrame (PageID f) (Buf f) (pins f + k) (dirty f) (pageLSN f) (loc f).
Definition set_dirty (d : bool) (f : Frame) : Frame := MkFrame (PageID f) (Buf f) (pins f) d (pageLSN f) (loc f).
Definition set_lsn (l : Z) (f : Frame) : Frame := MkFrame (PageID f) (Buf f) (pins f) (dirty f) l (loc f).
Definition set_loc (l : policyList) (f : Frame) : Frame := MkFrame (PageID f) (Buf f) (pins f) (dirty f) (pageLSN f) l.

(** ** The pool

    The lists hold the frames on them by page number, the head first. *)

Record pool := MkPool {
  pageSize : Z;
  capacity : Z;
  table : gmap Z Frame;
  a1in : list Z;
  am : list Z;
  a1out : gset Z;
  a1outOrder : list Z;
  kin : Z;
  ghostCap : Z;
  resident : Z;
  evictions : Z;
  committedLSN : Z;
  freezeDirty : bool
}.

Definition newPool (pageSize capacity0 : Z) : pool :=
  let capacity := if capacity0 <? 2 then 2 else capacity0 in
  let kin0 := Z.quot capacity 4 in
  let kin := if kin0 <? 1 then 1 else kin0 in
  MkPool pageSize capacity ∅ [] [] ∅ [] kin (Z.quot capacity 2) 0 0 0 false.

Definition set_table (t : gmap Z Frame) (p : pool) : pool :=
  MkPool (pageSize p) (capacity p) t (a1in p) (am p) (a1out p) (a1outOrder p) (kin p) (ghostCap p) (resident p)
    (evictions p) (committedLSN p) (freezeDirty p).
Definition set_lists (a1 am' : list Z) (p : pool) : pool :=
  MkPool (pageSize p) (capacity p) (table p) a1 am' (a1out p) (a1outOrder p) (kin p) (ghostCap p) (resident p)
    (evictions p) (committedLSN p) (freezeDirty p).
Definition set_ghosts (g : gset Z) (o : list Z) (p : pool) : pool :=
  MkPool (pageSize p) (capacity p) (table p) (a1in p) (am p) g o (kin p) (ghostCap p) (resident p)
    (evictions p) (committedLSN p) (freezeDirty p).
Definition set_resident (r : Z) (p : pool) : pool :=
  MkPool (pageSize p) (capacity p) (table p) (a1in p) (am p) (a1out p) (a1outOrder p) (kin p) (ghostCap p) r
    (evictions p) (committedLSN p) (freezeDirty p).
Definition set_evictions (e : Z) (p : pool) : pool :=
  MkPool (pageSize p) (capacity p) (table p) (a1in p) (am p) (a1out p) (a1outOrder p) (kin p) (ghostCap p) (resident p)
    e (committedLSN p) (freezeDirty p).
Definition set_committed (l : Z) (p : pool) : pool :=
  MkPool (pageSize p) (capacity p) (table p) (a1in p) (am p) (a1out p) (a1outOrder p) (kin p) (ghostCap p) (resident p)
    (evictions p) l (freezeDirty p).
Definition set_freeze (b : bool) (p : pool) : pool :=
  MkPool (pageSize p) (capacity p) (table p) (a1in p) (am p) (a1out p) (a1outOrder p) (kin p) (ghostCap p) (resident p)
    (evictions p) (committedLSN p) b.

Definition lookup_frame (n : Z) (p : pool) : option Frame := table p !! n.
Definition upd_frame (n : Z) (g : Frame -> Frame) (p : pool) : pool := set_table (alter g n (table p)) p.

(** pushFront and remove of the intrusive list; a frame is on a list once. *)
Definition pushFront (n : Z) (l : list Z) : list Z := n :: l.
Definition remove (n : Z) (l : list Z) : list Z := filter (fun m => m <> n) l.

(** recordHit, on the frame of page n. *)
Definition recordHit (n : Z) (p : pool) : pool :=
  match table p !! n with
  | Some f => match loc f with
              | listAm => set_lists (a1in p) (pushFront n (remove n (am p))) p
              | _ => p
              end
  | None => p
  end.

Definition addGhost (n : Z) (p : pool) : pool :=
  if decide (n ∈ a1out p) then p
  else
    let order := a1outOrder p ++ [n] in
    let k := (length order - Z.to_nat (ghostCap p))%nat in
    set_ghosts (({[n]} ∪ a1out p) ∖ list_to_set (take k order)) (drop k order) p.

(** removeGhost takes the first occurrence out of the order. *)
Fixpoint remove_first (n : Z) (l : list Z) : list Z :=
  match l with
  | [] => []
  | m :: l' => if decide (m = n) then l' else m :: remove_first n l'
  end.

Definition removeGhost (n : Z) (p : pool) : pool :=
  set_ghosts (a1out p ∖ {[n]}) (remove_first n (a1outOrder p)) p.

Definition admitFrame (f : Frame) (n : Z) (p : pool) : pool :=
  let f1 := MkFrame n (Buf f) (pins f) (dirty f) (pageLSN f) (loc f) in
  if decide (n ∈ a1out p) then
    let p1 := removeGhost n (set_table (<[n := set_loc listAm f1]> (table p)) p) in
    set_lists (a1in p1) (pushFront n (am p1)) p1
  else
    let p1 := set_table (<[n := set_loc listA1in f1]> (table p)) p in
    set_lists (pushFront n (a1in p1)) (am p1) p1.

(** A frame evictFrom may take. *)
Definition evictable (p : pool) (f : Frame) : bool :=
  (pins f =? 0) && negb (dirty f && (freezeDirty p || (pageLSN f >? committedLSN p))).

(** The scan from the tail of a list. *)
Fixpoint find_victim (p : pool) (l : list Z) : option Frame :=
  match l with
  | [] => None
  | n :: l' =>
      match table p !! n with
      | Some f => if evictable p f then Some f else find_victim p l'
      | None => find_victim p l'
      end
  end.

Definition evictFrom (fromA1 : bool) (p : pool) : option Frame * pool :=
  match find_victim p (rev (if fromA1 then a1in p else am p)) with
  | None => (None, p)
  | Some v =>
      let n := PageID v in
      let p1 := if fromA1 then set_lists (remove n (a1in p)) (am p) p else set_lists (a1in p) (remove n (am p)) p in
      let p2 := if fromA1 then addGhost n p1 else p1 in
      (Some v, set_evictions (evictions p2 + 1) p2)
  end.

Definition selectVictim (p : pool) : option Frame * pool :=
  let preferA1 := blen (a1in p) >? kin p in
  match evictFrom preferA1 p with
  | (Some v, p') => (Some v, p')
  | (None, p') => evictFrom (negb preferA1) p'
  end.

Definition fresh_frame (size : Z) : Frame := MkFrame 0 (replicate (Z.to_nat size) 0) 0 false 0 listNone.

(** A frame for a new page, the dirty victim to write back first, or neither. *)
Inductive obtained := Clean (f : Frame) | Dirty (v : Frame) | NoFrame.

Definition obtainFrame (p : pool) : obtained * pool :=
  if resident p <? capacity p then (Clean (fresh_frame (pageSize p)), set_resident (resident p + 1) p)
  else
    match selectVictim p with
    | (None, p') => (NoFrame, p')
    | (Some v, p') =>
        let p2 := set_table (delete (PageID v) (table p')) p' in
        if dirty v then (Dirty v, p2) else (Clean (set_loc listNone v), p2)
    end.

Definition reuseVictim (v : Frame) : Frame := set_loc listNone (set_dirty false v).

Definition forget (n : Z) (p : pool) : pool :=
  match table p !! n with
  | None => p
  | Some f =>
      let p1 := set_table (delete n (table p)) p in
      let p2 := match loc f with
                | listA1in => set_lists (remove n (a1in p1)) (am p1) p1
                | listAm => set_lists (a1in p1) (remove n (am p1)) p1
                | listNone => p1
                end in
      set_resident (resident p2 - 1) p2
  end.

(** The frames a caller of forEachResident keeps, in no order the code relies on. *)
Definition resident_frames (keep : Frame -> bool) (p : pool) : list Frame :=
  filter (fun f => keep f = true) (map snd (map_to_list (table p))).

(** ** The invariant

    The page table and the lists name the same frames, the lists hold a frame once,
    the ghosts are bounded, and at most capacity frames are resident; k counts the
    frames handed out by obtainFrame and not yet back in the table. *)

Definition frame_ok (ps : Z) (n : Z) (f : Frame) : Prop :=
  PageID f = n /\ blen (Buf f) = ps /\ bytes_ok (Buf f) /\ 0 <= pins f.

Definition on_list (l : policyList) (P : pool) (n : Z) : Prop := exists f, table P !! n = Some f /\ loc f = l.

Record pool_ok (ps : Z) (k : nat) (P : pool) : Prop := PoolOk {
  po_size : pageSize P = ps;
  po_ps : 0 <= ps;
  po_frames : forall n f, table P !! n = Some f -> frame_ok ps n f;
  po_a1in : NoDup (a1in P) /\ forall n, n ∈ a1in P <-> on_list listA1in P n;
  po_am : NoDup (am P) /\ forall n, n ∈ am P <-> on_list listAm P n;
  po_ghosts : NoDup (a1outOrder P) /\ (forall n, n ∈ a1out P <-> n ∈ a1outOrder P) /\
              (length (a1outOrder P) <= Z.to_nat (ghostCap P))%nat;
  po_resident : resident P = Z.of_nat (size (table P) + k);
  po_capacity : resident P <= capacity P
}.

Lemma elem_of_remove n m l : m ∈ remove n l <-> m ∈ l /\ m <> n.
Proof. unfold remove. rewrite list_elem_of_filter. tauto. Qed.

Lemma NoDup_remove_all n l : NoDup l -> NoDup (remove n l).
Proof. apply NoDup_filter. Qed.

Lemma elem_of_remove_first n m l : NoDup l -> m ∈ remove_first n l <-> m ∈ l /\ m <> n.
Proof.
  induction 1 as [|x l Hx Hl IH]; cbn [remove_first]; [set_solver|]. case_decide as E.
  - subst x. rewrite elem_of_cons. split; [|tauto]. intros Hm. split; [by right|]. by intros ->.
  - rewrite !elem_of_cons, IH. naive_solver.
Qed.

Lemma NoDup_remove_first n l : NoDup l -> NoDup (remove_first n l).
Proof.
  induction 1 as [|x l Hx Hl IH]; cbn [remove_first]; [constructor|]. case_decide; [done|].
  constructor; [|done]. rewrite elem_of_remove_first by done. tauto.
Qed.

Lemma length_remove_first n l : (length (remove_first n l) <= length l)%nat.
Proof. induction l as [|x l IH]; cbn [remove_first]; [done|]. case_decide; cbn [length]; lia. Qed.

(** A change of frames that keeps what the pool knows of them. *)
Lemma pool_ok_upd ps k P n g :
  pool_ok ps k P -> (forall f, table P !! n = Some f -> frame_ok ps n (g f) /\ loc (g f) = loc f) ->
  pool_ok ps k (upd_frame n g P).
Proof.
  intros [Hs Hps Hf [H1 H1'] [H2 H2'] Hg Hr Hc] Hgf.
  assert (Hl : forall l m, on_list l (upd_frame n g P) m <-> on_list l P m).
  { intros l m. unfold on_list, upd_frame, set_table. cbn [table]. destruct (decide (m = n)) as [->|Hne].
    - rewrite lookup_alter_eq. destruct (table P !! n) as [f|] eqn:E; [|naive_solver].
      destruct (Hgf f eq_refl) as [_ Hloc]. cbn. split; intros (x & [= <-] & Hx); eexists; (split; [done|]); congruence.
    - by rewrite lookup_alter_ne. }
  constructor; try done.
  - intros m f. unfold upd_frame, set_table. cbn [table]. rewrite lookup_alter_Some.
    intros [(<- & y & Hy & ->)|[Hne Hm]]; [by apply Hgf|by apply Hf].
  - split; [done|]. intros m. by rewrite Hl.
  - split; [done|]. intros m. by rewrite Hl.
  - unfold upd_frame, set_table in *. cbn [table resident] in *. rewrite Hr. f_equal. f_equal.
    rewrite <- !size_dom. by rewrite dom_alter_L.
Qed.

(** A hit changes the order of the lists, nothing else. *)
Lemma recordHit_ok ps k P n : pool_ok ps k P -> pool_ok ps k (recordHit n P) /\ table (recordHit n P) = table P.
Proof.
  intros HP. unfold recordHit. destruct (table P !! n) as [f|] eqn:E; [|done]. destruct (loc f) eqn:El; [done..|].
  split; [|done]. destruct HP as [Hs Hps Hf [H1 H1'] [H2 H2'] Hg Hr Hc]. constructor; try done.
  unfold set_lists, pushFront. cbn [am]. split.
  - constructor; [rewrite elem_of_remove; tauto|by apply NoDup_remove_all].
  - intros m. rewrite elem_of_cons, elem_of_remove, H2'. split; [|destruct (decide (m = n)); tauto].
    intros [->|[Hm _]]; [by exists f|done].
Qed.

Lemma find_victim_spec P l :
  match find_victim P l with
  | Some v => exists n, n ∈ l /\ table P !! n = Some v /\ evictable P v = true
  | None => forall n f, n ∈ l -> table P !! n = Some f -> evictable P f = false
  end.
Proof.
  induction l as [|n l IH]; cbn [find_victim]; [set_solver|].
  destruct (table P !! n) as [f|] eqn:E.
  - destruct (evictable P f) eqn:Ev.
    + exists n. split_and!; [by left|done|done].
    + destruct (find_victim P l) as [v|].
      * destruct IH as (m & Hm & ?). exists m. split; [by right|done].
      * intros m g Hm Hg. apply elem_of_cons in Hm as [->|Hm]; [congruence|by eapply IH].
  - destruct (find_victim P l) as [v|].
    + destruct IH as (m & Hm & ?). exists m. split; [by right|done].
    + intros m g Hm Hg. apply elem_of_cons in Hm as [->|Hm]; [congruence|by eapply IH].
Qed.

(** Pinned frames stay, and so do the dirty ones that are not yet committed or that
    a backup freezes. *)
Lemma evictable_spec P f :
  evictable P f = true <->
  pins f = 0 /\ (dirty f = true -> freezeDirty P = false /\ pageLSN f <= committedLSN P).
Proof.
  unfold evictable. rewrite andb_true_iff, Z.eqb_eq, negb_true_iff, andb_false_iff, orb_false_iff, Z.gtb_ltb, Z.ltb_ge.
  destruct (dirty f); intuition congruence.
Qed.

Lemma elem_of_take_in {A} (x : A) k l : x ∈ take k l -> x ∈ l.
Proof. intros H. rewrite <- (take_drop k l). apply elem_of_app. by left. Qed.

Lemma NoDup_take_drop {A} (x : A) k l : NoDup l -> x ∈ drop k l -> x ∉ take k l.
Proof. intros H. rewrite <- (take_drop k l) in H. apply NoDup_app in H as (_ & H & _). intros Hd Ht. by eapply H. Qed.

Lemma addGhost_ok P n :
  NoDup (a1outOrder P) -> (forall m, m ∈ a1out P <-> m ∈ a1outOrder P) -> (length (a1outOrder P) <= Z.to_nat (ghostCap P))%nat ->
  let P' := addGhost n P in
  NoDup (a1outOrder P') /\ (forall m, m ∈ a1out P' <-> m ∈ a1outOrder P') /\ (length (a1outOrder P') <= Z.to_nat (ghostCap P'))%nat.
Proof.
  intros Hn Hm Hl. unfold addGhost. case_decide as Hin; [done|]. cbn zeta.
  set (order := a1outOrder P ++ [n]). set (k := (length order - Z.to_nat (ghostCap P))%nat).
  assert (Ho : NoDup order).
  { unfold order. apply NoDup_app. split; [done|]. split; [|apply NoDup_singleton].
    intros x Hx Hx'. apply list_elem_of_singleton in Hx' as ->. by rewrite <- Hm in Hx. }
  unfold set_ghosts. cbn [a1outOrder a1out ghostCap]. split_and!.
  - rewrite <- (take_drop k order) in Ho. by apply NoDup_app in Ho as (_ & _ & Ho).
  - intros m. rewrite elem_of_difference, elem_of_union, elem_of_singleton, elem_of_list_to_set, Hm.
    assert (Hio : m = n \/ m ∈ a1outOrder P <-> m ∈ order).
    { unfold order. rewrite elem_of_app, list_elem_of_singleton. tauto. }
    rewrite Hio. split.
    + intros [Hmo Ht]. rewrite <- (take_drop k order), elem_of_app in Hmo. tauto.
    + intros Hd. split; [|by apply NoDup_take_drop]. rewrite <- (take_drop k order), elem_of_app. tauto.
  - rewrite length_drop. unfold k. lia.
Qed.

Lemma removeGhost_ok P n :
  NoDup (a1outOrder P) -> (forall m, m ∈ a1out P <-> m ∈ a1outOrder P) -> (length (a1outOrder P) <= Z.to_nat (ghostCap P))%nat ->
  let P' := removeGhost n P in
  NoDup (a1outOrder P') /\ (forall m, m ∈ a1out P' <-> m ∈ a1outOrder P') /\ (length (a1outOrder P') <= Z.to_nat (ghostCap P'))%nat.
Proof.
  intros Hn Hm Hl. unfold removeGhost, set_ghosts. cbn [a1outOrder a1out ghostCap]. split_and!.
  - by apply NoDup_remove_first.
  - intros m. rewrite elem_of_difference, elem_of_singleton, elem_of_remove_first by done. by rewrite Hm.
  - pose proof (length_remove_first n (a1outOrder P)). lia.
Qed.

Lemma addGhost_same P n :
  table (addGhost n P) = table P /\ a1in (addGhost n P) = a1in P /\ am (addGhost n P) = am P /\
  pageSize (addGhost n P) = pageSize P /\ resident (addGhost n P) = resident P /\ capacity (addGhost n P) = capacity P.
Proof. unfold addGhost. by case_decide. Qed.

Lemma elem_of_rev {A} (x : A) l : x ∈ rev l <-> x ∈ l.
Proof. by rewrite !list_elem_of_In, <- in_rev. Qed.

(** A frame that left both lists, to be taken out of the table. *)
Lemma evictFrom_spec ps k b P r P' :
  pool_ok ps k P -> evictFrom b P = (r, P') ->
  match r with
  | None => P' = P /\ forall n f, n ∈ (if b then a1in P else am P) -> table P !! n = Some f -> evictable P f = false
  | Some v =>
      table P !! PageID v = Some v /\ loc v <> listNone /\ evictable P v = true /\ table P' = table P /\
      pool_ok ps (S k) (set_table (delete (PageID v) (table P')) P')
  end.
Proof.
  intros HP. unfold evictFrom. pose proof (find_victim_spec P (rev (if b then a1in P else am P))) as Hv.
  destruct (find_victim P _) as [v|].
  2:{ intros [= <- <-]. split; [done|]. intros n f Hn. apply Hv, elem_of_rev. done. }
  destruct Hv as (n & Hn & Hf & He). apply (proj1 (elem_of_rev _ _)) in Hn.
  destruct HP as [Hs Hps Hfr [H1 H1'] [H2 H2'] [Hg1 [Hg2 Hg3]] Hr Hc].
  destruct (Hfr n v Hf) as (Hid & _). rewrite Hid.
  set (P1 := if b then set_lists (remove n (a1in P)) (am P) P else set_lists (a1in P) (remove n (am P)) P).
  set (P2 := if b then addGhost n P1 else P1). intros [= <- <-].
  assert (Ht2 : table P2 = table P /\ a1in P2 = a1in P1 /\ am P2 = am P1 /\ pageSize P2 = pageSize P /\ resident P2 = resident P /\ capacity P2 = capacity P).
  { unfold P2. destruct b; [|done]. by destruct (addGhost_same P1 n) as (-> & -> & -> & -> & -> & ->). }
  destruct Ht2 as (Ht & Ha & Hm & Hp & Hres & Hcap).
  assert (Hloc : loc v = if b then listA1in else listAm).
  { destruct b; [apply H1' in Hn|apply H2' in Hn]; destruct Hn as (g & Hg & Hl); congruence. }
  unfold set_evictions. cbn [table]. rewrite Hid, Ht. split_and!; [done|by rewrite Hloc; destruct b|done|done|].
  unfold set_table. cbn [pageSize capacity table a1in am a1out a1outOrder kin ghostCap resident evictions committedLSN freezeDirty].
  assert (Hon : forall l m, on_list l (set_table (delete n (table P)) P) m <-> on_list l P m /\ m <> n).
  { intros l m. unfold on_list, set_table. cbn [table]. split.
    - intros (f & Hm' & Hl). apply lookup_delete_Some in Hm' as [Hne Hm']. split; [by exists f|done].
    - intros [(f & Hm' & Hl) Hne]. exists f. by rewrite lookup_delete_ne. }
  unfold on_list, set_table in Hon. cbn [table] in Hon.
  constructor; cbn [pageSize capacity table a1in am a1out a1outOrder kin ghostCap resident evictions committedLSN freezeDirty].
  - by rewrite Hp.
  - done.
  - intros m f Hm'. apply lookup_delete_Some in Hm' as [_ Hm']. by apply Hfr.
  - rewrite Ha. unfold P1. destruct b; unfold set_lists; cbn [a1in].
    + split; [by apply NoDup_remove_all|]. intros m. unfold on_list; cbn [table]. by rewrite elem_of_remove, Hon, H1'.
    + split; [done|]. intros m. unfold on_list; cbn [table]. rewrite Hon, H1'. split; [|tauto]. intros Hm'. split; [done|].
      intros ->. destruct Hm' as (g & Hg & Hl). congruence.
  - rewrite Hm. unfold P1. destruct b; unfold set_lists; cbn [am].
    + split; [done|]. intros m. unfold on_list; cbn [table]. rewrite Hon, H2'. split; [|tauto]. intros Hm'. split; [done|].
      intros ->. destruct Hm' as (g & Hg & Hl). congruence.
    + split; [by apply NoDup_remove_all|]. intros m. unfold on_list; cbn [table]. by rewrite elem_of_remove, Hon, H2'.
  - unfold P2. destruct b; [|done]. by apply addGhost_ok.
  - rewrite Hres, Hr. f_equal. rewrite map_size_delete, Hf. cbn [is_Some].
    assert (0 < size (table P))%nat; [|lia].
    apply Nat.neq_0_lt_0. intros E. apply map_size_empty_inv in E. rewrite E in Hf. by apply lookup_empty_Some in Hf.
  - by rewrite Hres, Hcap.
Qed.

Lemma selectVictim_spec ps k P r P' :
  pool_ok ps k P -> selectVictim P = (r, P') ->
  match r with
  | None => P' = P /\ forall n f, table P !! n = Some f -> loc f <> listNone -> evictable P f = false
  | Some v =>
      table P !! PageID v = Some v /\ loc v <> listNone /\ evictable P v = true /\ table P' = table P /\
      pool_ok ps (S k) (set_table (delete (PageID v) (table P')) P')
  end.
Proof.
  intros HP. unfold selectVictim. set (b := _ >? _).
  destruct (evictFrom b P) as [[v|] P1] eqn:E1; pose proof (evictFrom_spec _ _ _ _ _ _ HP E1) as H1; [by intros [= <- <-]|].
  destruct H1 as [-> H1]. destruct (evictFrom (negb b) P) as [[v|] P2] eqn:E2;
    pose proof (evictFrom_spec _ _ _ _ _ _ HP E2) as H2; intros [= <- <-]; [done|].
  destruct H2 as [-> H2]. split; [done|]. intros n f Hf Hl. destruct HP as [_ _ _ [_ Ha] [_ Hm] _ _ _].
  destruct (loc f) eqn:El; [done| |].
  - assert (n ∈ a1in P) by (apply Ha; by exists f). destruct b; eauto.
  - assert (n ∈ am P) by (apply Hm; by exists f). destruct b; eauto.
Qed.

Lemma freeze_unchanged P :
  freezeDirty (obtainFrame P).2 = freezeDirty P.
Proof.
  assert (He : forall b Q, freezeDirty (evictFrom b Q).2 = freezeDirty Q).
  { intros b Q. unfold evictFrom. destruct (find_victim Q _); [|done]. destruct b; [|done].
    unfold addGhost. by destruct (decide _). }
  unfold obtainFrame. destruct (_ <? _); [done|].
  assert (Hs : freezeDirty (selectVictim P).2 = freezeDirty P).
  { unfold selectVictim. set (b := _ >? _). pose proof (He b P) as H1.
    destruct (evictFrom b P) as [[v|] Q]; [done|]. cbn [snd] in H1. by rewrite He, H1. }
  destruct (selectVictim P) as [[v|] Q]; [|done]. by destruct (dirty v).
Qed.

(** The frames of the table as the pool is asked for one: all of them stay, or one
    that is neither pinned nor dirty with uncommitted bytes leaves. It fails only
    when no frame of the lists can leave. *)
Lemma obtainFrame_spec ps P r P' :
  pool_ok ps 0 P -> obtainFrame P = (r, P') ->
  match r with
  | Clean f =>
      pool_ok ps 1 P' /\ blen (Buf f) = ps /\ bytes_ok (Buf f) /\ pins f = 0 /\ dirty f = false /\
      (table P' = table P \/
       exists v, table P !! PageID v = Some v /\ loc v <> listNone /\ evictable P v = true /\ dirty v = false /\
         table P' = delete (PageID v) (table P) /\ f = set_loc listNone v)
  | Dirty v =>
      pool_ok ps 1 P' /\ table P !! PageID v = Some v /\ loc v <> listNone /\ evictable P v = true /\ dirty v = true /\
      table P' = delete (PageID v) (table P)
  | NoFrame => P' = P /\ resident P = capacity P /\
      forall n f, table P !! n = Some f -> loc f <> listNone -> evictable P f = false
  end.
Proof.
  intros HP. unfold obtainFrame. destruct (Z.ltb_spec (resident P) (capacity P)) as [Hlt|Hge].
  - intros [= <- <-]. cbn [Buf fresh_frame pins dirty]. destruct HP as [Hs Hps Hfr H1 H2 Hg Hr Hc]. split_and!; try done.
    + constructor; try done; unfold set_resident; cbn [resident capacity table]; lia.
    + unfold blen. rewrite length_replicate. lia.
    + apply Forall_replicate. unfold byte_ok. lia.
    + by left.
  - destruct (selectVictim P) as [[v|] P1] eqn:E; pose proof (selectVictim_spec _ _ _ _ _ HP E) as H.
    + destruct H as (Hv & Hlv & He & Ht & HP1). destruct (po_frames _ _ _ HP _ _ Hv) as (_ & Hlen & Hok & _).
      pose proof (proj1 (evictable_spec _ _) He) as [Hp _].
      destruct (dirty v) eqn:Ed; intros [= <- <-]; (split; [done|]); cbn [table set_table]; rewrite Ht.
      * split_and!; done.
      * cbn [Buf set_loc pins dirty]. split_and!; try done. right. exists v. done.
    + intros [= <- <-]. destruct H as [-> H]. split_and!; try done. pose proof (po_capacity _ _ _ HP). lia.
Qed.

(** The frame goes in the table under its number. *)
Lemma table_admit f n P :
  exists l, table (admitFrame f n P) = <[n := MkFrame n (Buf f) (pins f) (dirty f) (pageLSN f) l]> (table P) /\ l <> listNone.
Proof.
  unfold admitFrame. case_decide; [exists listAm|exists listA1in]; done.
Qed.

Lemma admitFrame_ok ps k f n P :
  pool_ok ps (S k) P -> table P !! n = None -> blen (Buf f) = ps -> bytes_ok (Buf f) -> 0 <= pins f ->
  pool_ok ps k (admitFrame f n P).
Proof.
  intros [Hs Hps Hfr [H1 H1'] [H2 H2'] [Hg1 [Hg2 Hg3]] Hr Hc] Hn Hl Hb Hp.
  assert (Hn1 : n ∉ a1in P). { intros H. apply H1' in H as (g & Hg & _). congruence. }
  assert (Hn2 : n ∉ am P). { intros H. apply H2' in H as (g & Hg & _). congruence. }
  assert (Hon : forall l x m, on_list l (set_table (<[n := x]> (table P)) P) m <-> (m = n /\ loc x = l) \/ (m <> n /\ on_list l P m)).
  { intros l x m. unfold on_list, set_table. cbn [table]. destruct (decide (m = n)) as [->|Hne].
    - rewrite lookup_insert_eq. split; [intros (g & [= <-] & ?); by left|intros [[_ ?]|[? _]]; [by exists x|done]].
    - rewrite lookup_insert_ne by done. naive_solver. }
  unfold admitFrame. case_decide as Hgh; unfold removeGhost, set_lists, set_ghosts, set_table, pushFront in *;
    unfold on_list in Hon; cbn [pageSize capacity table a1in am a1out a1outOrder kin ghostCap resident evictions committedLSN freezeDirty] in *;
    constructor; cbn [pageSize capacity table a1in am a1out a1outOrder kin ghostCap resident evictions committedLSN freezeDirty]; try done;
    try (intros m g Hm; apply lookup_insert_Some in Hm as [[<- <-]|[_ Hm]]; [done|by apply Hfr]);
    try (by rewrite Hr, map_size_insert_None by done; f_equal; lia).
  - split; [done|]. intros m. unfold on_list. cbn [table]. rewrite Hon, H1'. cbn [loc set_loc]. split; [|by intros [[_ [=]]|[_ ?]]].
    intros Hm. right. split; [|done]. intros ->. by apply Hn1, H1'.
  - split; [by constructor|]. intros m. unfold on_list. cbn [table]. rewrite Hon, elem_of_cons, H2'. cbn [loc set_loc].
    split; [|intros [[-> _]|[_ ?]]; [by left|by right]]. intros [->|Hm]; [by left|]. right. split; [|done]. intros ->. by apply Hn2, H2'.
  - by apply removeGhost_ok.
  - split; [by constructor|]. intros m. unfold on_list. cbn [table]. rewrite Hon, elem_of_cons, H1'. cbn [loc set_loc].
    split; [|intros [[-> _]|[_ ?]]; [by left|by right]]. intros [->|Hm]; [by left|]. right. split; [|done]. intros ->. by apply Hn1, H1'.
  - split; [done|]. intros m. unfold on_list. cbn [table]. rewrite Hon, H2'. cbn [loc set_loc]. split; [|by intros [[_ [=]]|[_ ?]]].
    intros Hm. right. split; [|done]. intros ->. by apply Hn2, H2'.
Qed.

(** A frame handed out and dropped. *)
Lemma pool_ok_drop ps k P : pool_ok ps (S k) P -> pool_ok ps k (set_resident (resident P - 1) P).
Proof.
  intros [Hs Hps Hfr H1 H2 Hg Hr Hc]. constructor; try done; unfold set_resident; cbn [resident capacity table]; lia.
Qed.

Lemma forget_ok ps k P n : pool_ok ps k P -> pool_ok ps k (forget n P) /\ table (forget n P) = delete n (table P).
Proof.
  intros HP. unfold forget. destruct (table P !! n) as [f|] eqn:E.
  2:{ split; [done|]. symmetry. by apply delete_id. }
  destruct HP as [Hs Hps Hfr [H1 H1'] [H2 H2'] Hg Hr Hc].
  assert (Hon : forall l m, on_list l (set_table (delete n (table P)) P) m <-> on_list l P m /\ m <> n).
  { intros l m. unfold on_list, set_table. cbn [table]. split.
    - intros (g & Hm' & Hl). apply lookup_delete_Some in Hm' as [Hne Hm']. split; [by exists g|done].
    - intros [(g & Hm' & Hl) Hne]. exists g. by rewrite lookup_delete_ne. }
  assert (Hpos : (0 < size (table P))%nat).
  { apply Nat.neq_0_lt_0. intros E'. apply map_size_empty_inv in E'. rewrite E' in E. by apply lookup_empty_Some in E. }
  assert (Hoff : forall l m, loc f <> l -> (on_list l P m <-> on_list l P m /\ m <> n)).
  { intros l m Hl. split; [|tauto]. intros Hm. split; [done|]. intros ->. destruct Hm as (g & Hg' & Hl'). congruence. }
  unfold on_list, set_table in Hon. cbn [table] in Hon. unfold on_list in *.
  destruct (loc f) eqn:El; (split; [|done]); unfold set_resident, set_lists, set_table;
    cbn [pageSize capacity table a1in am a1out a1outOrder kin ghostCap resident evictions committedLSN freezeDirty];
    constructor; cbn [pageSize capacity table a1in am a1out a1outOrder kin ghostCap resident evictions committedLSN freezeDirty]; try done;
    try (intros m g Hm; apply lookup_delete_Some in Hm as [_ Hm]; by apply Hfr);
    try (rewrite Hr, map_size_delete, E; cbn [is_Some]; lia); try lia;
    (split; [try done; by apply NoDup_remove_all|]); intros m; unfold on_list; cbn [table]; rewrite ?elem_of_remove, Hon, ?H1', ?H2'; try done;
    by apply Hoff.
Qed.

Lemma newPool_ok ps c : 0 <= ps -> pool_ok ps 0 (newPool ps c).
Proof.
  intros Hps. unfold newPool. constructor; cbn [pageSize capacity table a1in am a1out a1outOrder kin ghostCap resident evictions committedLSN freezeDirty]; try done.
  - split; [constructor|]. intros n. split; [by intros H%elem_of_nil|]. intros (f & Hf & _). cbn [table] in Hf. by apply lookup_empty_Some in Hf.
  - split; [constructor|]. intros n. split; [by intros H%elem_of_nil|]. intros (f & Hf & _). cbn [table] in Hf. by apply lookup_empty_Some in Hf.
  - split; [constructor|]. split; [|cbn; lia]. intros n. split; [by intros H%elem_of_empty|by intros H%elem_of_nil].
  - destruct (Z.ltb_spec c 2); lia.
Qed.
