(* ===== verification/Pager.v ===== *)
(** * pager/pager.go: pages in files, made durable by a write-ahead log

    The pager over any file system: opening and recovery, fetching pages through
    the pool, allocation and the freelist, commit, checkpoint, vacuum, backup and
    checks. Every method holds the pager's mutex for its whole body (Backup aside),
    so a method is one function on the pager and the file system. *)

From S2P Require Import Prelude Checksum Page Vfs Wal DbHeader PageStore Disk Pool.
From stdpp Require Import strings.

#[local] Open Scope Z_scope.

Inductive SyncLevel := SyncOff | SyncNormal | SyncFull.

#[global] Instance SyncLevel_eq_dec : EqDecision SyncLevel.
Proof. solve_decision. Defined.

Definition freelistNextOffset : Z := PageHeaderSize.

(** ** Options, counters, the pager's state *)

Record Options := MkOptions {
  o_PageSize : Z;
  o_PoolPages : Z;
  o_Checksum : Z;
  o_Sync : SyncLevel;
  o_ReadOnly : bool;
  o_CheckpointFrames : Z
}.

Definition PageSize8K : Z := 8192.

Definition withDefaults (o : Options) : Options :=
  MkOptions (if o_PageSize o =? 0 then PageSize8K else o_PageSize o)
    (if o_PoolPages o =? 0 then 1024 else o_PoolPages o)
    (if o_Checksum o =? 0 then ChecksumCRC32C else o_Checksum o)
    (o_Sync o) (o_ReadOnly o)
    (if o_CheckpointFrames o =? 0 then 1000 else o_CheckpointFrames o).

Record counters := MkCounters {
  c_pageReads : Z;
  c_pageWrites : Z;
  c_bytesRead : Z;
  c_bytesWritten : Z;
  c_cacheHits : Z;
  c_cacheMisses : Z;
  c_walFrames : Z;
  c_checkpoints : Z;
  c_fsyncs : Z;
  c_fsyncErrors : Z
}.

Definition add_pageReads (k : Z) (c : counters) : counters :=
  MkCounters (u64 (c_pageReads c + k)) (c_pageWrites c) (c_bytesRead c) (c_bytesWritten c) (c_cacheHits c)
    (c_cacheMisses c) (c_walFrames c) (c_checkpoints c) (c_fsyncs c) (c_fsyncErrors c).
Definition add_pageWrites (k : Z) (c : counters) : counters :=
  MkCounters (c_pageReads c) (u64 (c_pageWrites c + k)) (c_bytesRead c) (c_bytesWritten c) (c_cacheHits c)
    (c_cacheMisses c) (c_walFrames c) (c_checkpoints c) (c_fsyncs c) (c_fsyncErrors c).
Definition add_bytesRead (k : Z) (c : counters) : counters :=
  MkCounters (c_pageReads c) (c_pageWrites c) (u64 (c_bytesRead c + k)) (c_bytesWritten c) (c_cacheHits c)
    (c_cacheMisses c) (c_walFrames c) (c_checkpoints c) (c_fsyncs c) (c_fsyncErrors c).
Definition add_bytesWritten (k : Z) (c : counters) : counters :=
  MkCounters (c_pageReads c) (c_pageWrites c) (c_bytesRead c) (u64 (c_bytesWritten c + k)) (c_cacheHits c)
    (c_cacheMisses c) (c_walFrames c) (c_checkpoints c) (c_fsyncs c) (c_fsyncErrors c).
Definition add_cacheHits (k : Z) (c : counters) : counters :=
  MkCounters (c_pageReads c) (c_pageWrites c) (c_bytesRead c) (c_bytesWritten c) (u64 (c_cacheHits c + k))
    (c_cacheMisses c) (c_walFrames c) (c_checkpoints c) (c_fsyncs c) (c_fsyncErrors c).
Definition add_cacheMisses (k : Z) (c : counters) : counters :=
  MkCounters (c_pageReads c) (c_pageWrites c) (c_bytesRead c) (c_bytesWritten c) (c_cacheHits c) (u64 (c_cacheMisses
    c + k)) (c_walFrames c) (c_checkpoints c) (c_fsyncs c) (c_fsyncErrors c).
Definition add_walFrames (k : Z) (c : counters) : counters :=
  MkCounters (c_pageReads c) (c_pageWrites c) (c_bytesRead c) (c_bytesWritten c) (c_cacheHits c) (c_cacheMisses c)
    (u64 (c_walFrames c + k)) (c_checkpoints c) (c_fsyncs c) (c_fsyncErrors c).
Definition add_checkpoints (k : Z) (c : counters) : counters :=
  MkCounters (c_pageReads c) (c_pageWrites c) (c_bytesRead c) (c_bytesWritten c) (c_cacheHits c) (c_cacheMisses c)
    (c_walFrames c) (u64 (c_checkpoints c + k)) (c_fsyncs c) (c_fsyncErrors c).
Definition add_fsyncs (k : Z) (c : counters) : counters :=
  MkCounters (c_pageReads c) (c_pageWrites c) (c_bytesRead c) (c_bytesWritten c) (c_cacheHits c) (c_cacheMisses c)
    (c_walFrames c) (c_checkpoints c) (u64 (c_fsyncs c + k)) (c_fsyncErrors c).
Definition add_fsyncErrors (k : Z) (c : counters) : counters :=
  MkCounters (c_pageReads c) (c_pageWrites c) (c_bytesRead c) (c_bytesWritten c) (c_cacheHits c) (c_cacheMisses c)
    (c_walFrames c) (c_checkpoints c) (c_fsyncs c) (u64 (c_fsyncErrors c + k)).

Definition zero_counters : counters := MkCounters 0 0 0 0 0 0 0 0 0 0.

(** What a commit hands to the observer. *)
Record CommitEvent := MkCommitEvent { ce_CommitLSN : Z; ce_DBSizePages : Z; ce_Frames : list PageImage }.

(** H is the file system's type of handles. p_observer holds the events delivered to
    the observer, if one is set; p_rand counts the bytes drawn from crypto/rand. The
    writer keeps the handle it was created with. *)
Record Pager (H : Type) := MkPager {
  p_path : string;
  p_main : H;
  p_walPath : string;
  p_walFile : option H;
  p_walw : option (Writer * H);
  p_pool : pool;
  p_pageSize : Z;
  p_checksum : Z;
  p_sync : SyncLevel;
  p_readOnly : bool;
  p_ckptN : Z;
  p_hdr : DbHeader.Header;
  p_nextLSN : Z;
  p_walFlushedLSN : Z;
  p_checkpointSeq : Z;
  p_walFrames : Z;
  p_backupActive : Z;
  p_observer : option (list CommitEvent);
  p_ctr : counters;
  p_closed : bool;
  p_rand : nat
}.
Arguments p_path {H}.
Arguments p_main {H}.
Arguments p_walPath {H}.
Arguments p_walFile {H}.
Arguments p_walw {H}.
Arguments p_pool {H}.
Arguments p_pageSize {H}.
Arguments p_checksum {H}.
Arguments p_sync {H}.
Arguments p_readOnly {H}.
Arguments p_ckptN {H}.
Arguments p_hdr {H}.
Arguments p_nextLSN {H}.
Arguments p_walFlushedLSN {H}.
Arguments p_checkpointSeq {H}.
Arguments p_walFrames {H}.
Arguments p_backupActive {H}.
Arguments p_observer {H}.
Arguments p_ctr {H}.
Arguments p_closed {H}.
Arguments p_rand {H}.
Arguments MkPager {H}.

Section setters.
Context {H : Type}.
Definition set_walFile (x : option H) (p : Pager H) : Pager H :=
  MkPager (p_path p) (p_main p) (p_walPath p) x (p_walw p) (p_pool p) (p_pageSize p) (p_checksum p) (p_sync p)
    (p_readOnly p) (p_ckptN p) (p_hdr p) (p_nextLSN p) (p_walFlushedLSN p) (p_checkpointSeq p) (p_walFrames p)
    (p_backupActive p) (p_observer p) (p_ctr p) (p_closed p) (p_rand p).
Definition set_walw (x : option (Writer * H)) (p : Pager H) : Pager H :=
  MkPager (p_path p) (p_main p) (p_walPath p) (p_walFile p) x (p_pool p) (p_pageSize p) (p_checksum p) (p_sync p)
    (p_readOnly p) (p_ckptN p) (p_hdr p) (p_nextLSN p) (p_walFlushedLSN p) (p_checkpointSeq p) (p_walFrames p)
    (p_backupActive p) (p_observer p) (p_ctr p) (p_closed p) (p_rand p).
Definition set_pool (x : pool) (p : Pager H) : Pager H :=
  MkPager (p_path p) (p_main p) (p_walPath p) (p_walFile p) (p_walw p) x (p_pageSize p) (p_checksum p) (p_sync p)
    (p_readOnly p) (p_ckptN p) (p_hdr p) (p_nextLSN p) (p_walFlushedLSN p) (p_checkpointSeq p) (p_walFrames p)
    (p_backupActive p) (p_observer p) (p_ctr p) (p_closed p) (p_rand p).
Definition set_sync (x : SyncLevel) (p : Pager H) : Pager H :=
  MkPager (p_path p) (p_main p) (p_walPath p) (p_walFile p) (p_walw p) (p_pool p) (p_pageSize p) (p_checksum p) x
    (p_readOnly p) (p_ckptN p) (p_hdr p) (p_nextLSN p) (p_walFlushedLSN p) (p_checkpointSeq p) (p_walFrames p)
    (p_backupActive p) (p_observer p) (p_ctr p) (p_closed p) (p_rand p).
Definition set_ckptN (x : Z) (p : Pager H) : Pager H :=
  MkPager (p_path p) (p_main p) (p_walPath p) (p_walFile p) (p_walw p) (p_pool p) (p_pageSize p) (p_checksum p)
    (p_sync p) (p_readOnly p) x (p_hdr p) (p_nextLSN p) (p_walFlushedLSN p) (p_checkpointSeq p) (p_walFrames p)
    (p_backupActive p) (p_observer p) (p_ctr p) (p_closed p) (p_rand p).
Definition set_hdr (x : DbHeader.Header) (p : Pager H) : Pager H :=
  MkPager (p_path p) (p_main p) (p_walPath p) (p_walFile p) (p_walw p) (p_pool p) (p_pageSize p) (p_checksum p)
    (p_sync p) (p_readOnly p) (p_ckptN p) x (p_nextLSN p) (p_walFlushedLSN p) (p_checkpointSeq p) (p_walFrames p)
    (p_backupActive p) (p_observer p) (p_ctr p) (p_closed p) (p_rand p).
Definition set_nextLSN (x : Z) (p : Pager H) : Pager H :=
  MkPager (p_path p) (p_main p) (p_walPath p) (p_walFile p) (p_walw p) (p_pool p) (p_pageSize p) (p_checksum p)
    (p_sync p) (p_readOnly p) (p_ckptN p) (p_hdr p) x (p_walFlushedLSN p) (p_checkpointSeq p) (p_walFrames p)
    (p_backupActive p) (p_observer p) (p_ctr p) (p_closed p) (p_rand p).
Definition set_walFlushedLSN (x : Z) (p : Pager H) : Pager H :=
  MkPager (p_path p) (p_main p) (p_walPath p) (p_walFile p) (p_walw p) (p_pool p) (p_pageSize p) (p_checksum p)
    (p_sync p) (p_readOnly p) (p_ckptN p) (p_hdr p) (p_nextLSN p) x (p_checkpointSeq p) (p_walFrames p)
    (p_backupActive p) (p_observer p) (p_ctr p) (p_closed p) (p_rand p).
Definition set_checkpointSeq (x : Z) (p : Pager H) : Pager H :=
  MkPager (p_path p) (p_main p) (p_walPath p) (p_walFile p) (p_walw p) (p_pool p) (p_pageSize p) (p_checksum p)
    (p_sync p) (p_readOnly p) (p_ckptN p) (p_hdr p) (p_nextLSN p) (p_walFlushedLSN p) x (p_walFrames p)
    (p_backupActive p) (p_observer p) (p_ctr p) (p_closed p) (p_rand p).
Definition set_walFrames (x : Z) (p : Pager H) : Pager H :=
  MkPager (p_path p) (p_main p) (p_walPath p) (p_walFile p) (p_walw p) (p_pool p) (p_pageSize p) (p_checksum p)
    (p_sync p) (p_readOnly p) (p_ckptN p) (p_hdr p) (p_nextLSN p) (p_walFlushedLSN p) (p_checkpointSeq p) x
    (p_backupActive p) (p_observer p) (p_ctr p) (p_closed p) (p_rand p).
Definition set_backupActive (x : Z) (p : Pager H) : Pager H :=
  MkPager (p_path p) (p_main p) (p_walPath p) (p_walFile p) (p_walw p) (p_pool p) (p_pageSize p) (p_checksum p)
    (p_sync p) (p_readOnly p) (p_ckptN p) (p_hdr p) (p_nextLSN p) (p_walFlushedLSN p) (p_checkpointSeq p)
    (p_walFrames p) x (p_observer p) (p_ctr p) (p_closed p) (p_rand p).
Definition set_observer (x : option (list CommitEvent)) (p : Pager H) : Pager H :=
  MkPager (p_path p) (p_main p) (p_walPath p) (p_walFile p) (p_walw p) (p_pool p) (p_pageSize p) (p_checksum p)
    (p_sync p) (p_readOnly p) (p_ckptN p) (p_hdr p) (p_nextLSN p) (p_walFlushedLSN p) (p_checkpointSeq p)
    (p_walFrames p) (p_backupActive p) x (p_ctr p) (p_closed p) (p_rand p).
Definition set_ctr (x : counters) (p : Pager H) : Pager H :=
  MkPager (p_path p) (p_main p) (p_walPath p) (p_walFile p) (p_walw p) (p_pool p) (p_pageSize p) (p_checksum p)
    (p_sync p) (p_readOnly p) (p_ckptN p) (p_hdr p) (p_nextLSN p) (p_walFlushedLSN p) (p_checkpointSeq p)
    (p_walFrames p) (p_backupActive p) (p_observer p) x (p_closed p) (p_rand p).
Definition set_closed (x : bool) (p : Pager H) : Pager H :=
  MkPager (p_path p) (p_main p) (p_walPath p) (p_walFile p) (p_walw p) (p_pool p) (p_pageSize p) (p_checksum p)
    (p_sync p) (p_readOnly p) (p_ckptN p) (p_hdr p) (p_nextLSN p) (p_walFlushedLSN p) (p_checkpointSeq p)
    (p_walFrames p) (p_backupActive p) (p_observer p) (p_ctr p) x (p_rand p).
Definition set_rand (x : nat) (p : Pager H) : Pager H :=
  MkPager (p_path p) (p_main p) (p_walPath p) (p_walFile p) (p_walw p) (p_pool p) (p_pageSize p) (p_checksum p)
    (p_sync p) (p_readOnly p) (p_ckptN p) (p_hdr p) (p_nextLSN p) (p_walFlushedLSN p) (p_checkpointSeq p)
    (p_walFrames p) (p_backupActive p) (p_observer p) (p_ctr p) (p_closed p) x.
Definition set_pageSize (x : Z) (p : Pager H) : Pager H :=
  MkPager (p_path p) (p_main p) (p_walPath p) (p_walFile p) (p_walw p) (p_pool p) x (p_checksum p) (p_sync p)
    (p_readOnly p) (p_ckptN p) (p_hdr p) (p_nextLSN p) (p_walFlushedLSN p) (p_checkpointSeq p) (p_walFrames p)
    (p_backupActive p) (p_observer p) (p_ctr p) (p_closed p) (p_rand p).
Definition set_checksum (x : Z) (p : Pager H) : Pager H :=
  MkPager (p_path p) (p_main p) (p_walPath p) (p_walFile p) (p_walw p) (p_pool p) (p_pageSize p) x (p_sync p)
    (p_readOnly p) (p_ckptN p) (p_hdr p) (p_nextLSN p) (p_walFlushedLSN p) (p_checkpointSeq p) (p_walFrames p)
    (p_backupActive p) (p_observer p) (p_ctr p) (p_closed p) (p_rand p).
End setters.

(** The fields of the database header the pager changes. *)
Definition with_counters (pages fcc vvf froot fcount cat : Z) (h : DbHeader.Header) : DbHeader.Header :=
  DbHeader.MkHeader (FormatMajor h) (FormatMinor h) (DbHeader.PageSize h) pages fcc vvf froot fcount cat
    (SchemaCookie h) (ColumnarRoot h) (TxnHighWater h) (FeatureFlags h) (DefaultCodec h) (Header_ChecksumAlgo h)
    (TextEncoding h) (EncryptionFlags h) (ApplicationID h) (UserVersion h) (WALSalt h) (DatabaseUUID h)
    (HeaderChecksum h).

Definition set_PageCount (n : Z) (h : DbHeader.Header) : DbHeader.Header :=
  with_counters n (FileChangeCounter h) (VersionValidFor h) (FreelistRoot h) (FreelistPageCount h) (DbHeader.CatalogRoot h) h.
Definition bump_changes (h : DbHeader.Header) : DbHeader.Header :=
  let c := u32 (FileChangeCounter h + 1) in
  with_counters (DbHeader.PageCount h) c c (FreelistRoot h) (FreelistPageCount h) (DbHeader.CatalogRoot h) h.
Definition set_freelist (root count : Z) (h : DbHeader.Header) : DbHeader.Header :=
  with_counters (DbHeader.PageCount h) (FileChangeCounter h) (VersionValidFor h) root count (DbHeader.CatalogRoot h) h.
Definition set_catalog (root : Z) (h : DbHeader.Header) : DbHeader.Header :=
  with_counters (DbHeader.PageCount h) (FileChangeCounter h) (VersionValidFor h) (FreelistRoot h) (FreelistPageCount h) root h.

(** ** The monad of the methods

    A method reads and changes the pager and the file system, returns an error or
    panics; what it changed before an error stays changed. *)

Section monad.
Context {S : Type}.

Definition PG (A : Type) : Type := S -> res pgErr A * S.

Definition gret {A} (a : A) : PG A := fun s => (Ok a, s).
Definition gfail {A} (e : pgErr) : PG A := fun s => (Err e, s).
Definition gpanic {A} : PG A := fun s => (Panic, s).
Definition glift {A} (r : res pgErr A) : PG A := fun s => (r, s).
Definition gbind {A B} (m : PG A) (k : A -> PG B) : PG B := fun s =>
  match m s with
  | (Ok a, s') => k a s'
  | (Err e, s') => (Err e, s')
  | (Panic, s') => (Panic, s')
  end.
(** The error of m, as a value. *)
Definition gtry {A} (m : PG A) : PG (pgErr + A) := fun s =>
  match m s with
  | (Ok a, s') => (Ok (inr a), s')
  | (Err e, s') => (Ok (inl e), s')
  | (Panic, s') => (Panic, s')
  end.
Definition gwhen (b : bool) (m : PG unit) : PG unit := if b then m else gret tt.
Fixpoint giter {A} (f : A -> PG unit) (l : list A) : PG unit :=
  match l with
  | [] => gret tt
  | x :: l' => gbind (f x) (fun _ => giter f l')
  end.
End monad.
Arguments PG : clear implicits.

Declare Scope pg_scope.
Delimit Scope pg_scope with pg.
Notation "'do*' x := m 'in' k" := (gbind m (fun x => k))
  (at level 200, x name, m at level 100, k at level 200) : pg_scope.
Notation "m ';;*' k" := (gbind m (fun _ => k)) (at level 199, right associativity) : pg_scope.
#[local] Open Scope pg_scope.

Definition pg_fmt {A} (r : res fmtErr A) : res pgErr A :=
  match r with Ok a => Ok a | Err e => Err (PgFormat e) | Panic => Panic end.

(** An error of the file system, if there is one. *)
Definition io_res (e : option ioErr) : res pgErr unit :=
  match e with None => Ok tt | Some e => Err (PgIo e) end.

Section pager.
Context {D : Type} {fs : FsOps D}.
(** The bytes crypto/rand delivers, one after the other; the order in which a range
    over a Go map yields its keys; the fuel of the loops whose end is not structural. *)
Context (csprng : nat -> Z) (range : gset Z -> list Z) (fuel : nat).

Notation st := (Pager Handle * D)%type.
Notation M := (PG st).

Definition gget : M (Pager Handle) := fun s => (Ok s.1, s).
Definition gput (f : Pager Handle -> Pager Handle) : M unit := fun s => (Ok tt, (f s.1, s.2)).
Definition gio {A} (f : D -> A * D) : M A := fun s => let '(a, d) := f s.2 in (Ok a, (s.1, d)).

Definition ctr (f : counters -> counters) : M unit := gput (fun p => set_ctr (f (p_ctr p)) p).
Definition on_pool (f : pool -> pool) : M unit := gput (fun p => set_pool (f (p_pool p)) p).

(** n bytes from crypto/rand. *)
Definition rand_bytes (n : nat) : M bytes := fun s =>
  let k := p_rand s.1 in (Ok (map csprng (seq k n)), (set_rand (k + n)%nat s.1, s.2)).
Definition genSalt : M Z := do* b := rand_bytes 4 in gret (le_val b).
Definition genU64 : M Z := do* b := rand_bytes 8 in gret (le_val b).

(** A short read with an error; a read that fills the buffer counts. *)
Definition file_read (h : Handle) (n off : Z) : M (bytes * option ioErr) :=
  fun s => (Ok (ReadAt (FileOps:=FsFile h) n off s.2), s).
Definition file_write (h : Handle) (b : bytes) (off : Z) : M unit :=
  do* r := gio (fun d => let '(n, e, d') := WriteAt (FileOps:=FsFile h) b off d in (e, d')) in glift (io_res r).
Definition file_truncate (h : Handle) (n : Z) : M unit :=
  do* r := gio (Truncate (FileOps:=FsFile h) n) in glift (io_res r).
Definition file_sync (h : Handle) : M unit := do* r := gio (Sync (FileOps:=FsFile h)) in glift (io_res r).
Definition file_close (h : Handle) : M unit := do* r := gio (FsClose h) in glift (io_res r).
Definition file_open (path : string) (flags : Z) : M Handle :=
  do* r := gio (FsOpen path flags) in
  match r with inl e => gfail (PgIo e) | inr h => gret h end.
Definition file_exists (path : string) : M bool :=
  fun s => (match FsExists path s.2 with inl e => Err (PgIo e) | inr b => Ok b end, s).

(** countSync *)
Definition countSync (h : Handle) : M unit :=
  ctr (add_fsyncs 1) ;;*
  do* r := gtry (file_sync h) in
  match r with
  | inl e => ctr (add_fsyncErrors 1) ;;* gfail e
  | inr _ => gret tt
  end.

(** ** Frames *)

(** The frame of page n a caller has, or the header's frame0. *)
Definition frame (n : Z) : M Frame := fun s =>
  match table (p_pool s.1) !! n with Some f => (Ok f, s) | None => (Panic, s) end.

Definition writeBack (v : Frame) : M unit :=
  do* p := gget in
  if p_walFlushedLSN p <? pageLSN v then gfail PgWriteAhead
  else
    file_write (p_main p) (Buf v) (PageID v * p_pageSize p) ;;*
    ctr (add_pageWrites 1) ;;*
    ctr (add_bytesWritten (p_pageSize p)).

(** A detached frame; a dirty victim is written back first. *)
Definition obtainFrameLocked : M Frame :=
  do* p := gget in
  on_pool (set_committed (p_walFlushedLSN p)) ;;*
  do* p1 := gget in
  let '(r, pool') := obtainFrame (p_pool p1) in
  gput (set_pool pool') ;;*
  match r with
  | NoFrame => gfail PgPoolExhausted
  | Clean f => gret f
  | Dirty v => writeBack v ;;* gret (reuseVictim v)
  end.

(** What the buffer holds after the read. *)
Definition readPageInto (n : Z) (buf : bytes) : M bytes :=
  do* p := gget in
  do* r := file_read (p_main p) (blen buf) (n * p_pageSize p) in
  let '(got, err) := r in
  let buf' := put 0 got buf in
  match err with
  | Some e =>
      if blen got <? blen buf then
        if n <? DbHeader.PageCount (p_hdr p) then gret (replicate (length buf) 0) else gfail (PgIo e)
      else if n =? 0 then gret buf'
      else match VerifyPageChecksum buf' (p_checksum p) with
           | Ok _ => gret buf' | Err _ => gfail PgCorrupt | Panic => gpanic end
  | None =>
      if n =? 0 then gret buf'
      else match VerifyPageChecksum buf' (p_checksum p) with
           | Ok _ => gret buf' | Err _ => gfail PgCorrupt | Panic => gpanic end
  end.

Definition readPageLSN (n : Z) (buf : bytes) : Z := if n =? 0 then 0 else le_val (sub 8 8 buf).

Definition fetchLocked (n : Z) : M unit :=
  do* p := gget in
  if p_closed p then gfail PgClosed
  else
    match lookup_frame n (p_pool p) with
    | Some _ =>
        on_pool (upd_frame n (add_pins 1)) ;;*
        on_pool (recordHit n) ;;*
        ctr (add_cacheHits 1)
    | None =>
        ctr (add_cacheMisses 1) ;;*
        do* f := obtainFrameLocked in
        do* r := gtry (readPageInto n (Buf f)) in
        match r with
        | inl e => on_pool (fun q => set_resident (resident q - 1) q) ;;* gfail e
        | inr b =>
            ctr (add_pageReads 1) ;;*
            ctr (add_bytesRead (p_pageSize p)) ;;*
            on_pool (admitFrame (set_dirty false (set_lsn (readPageLSN n b) (set_Buf b f))) n) ;;*
            on_pool (upd_frame n (add_pins 1))
        end
    end.

Definition Unpin (n : Z) : M unit := on_pool (upd_frame n (add_pins (-1))).

(** Buf[8:16] of a frame too short panics. *)
Definition markDirtyLocked (n : Z) : M unit :=
  gput (fun p => set_nextLSN (u64 (p_nextLSN p + 1)) p) ;;*
  do* p := gget in
  let lsn := p_nextLSN p in
  on_pool (upd_frame n (fun f => set_dirty true (set_lsn lsn f))) ;;*
  if n =? 0 then gret tt
  else
    do* f := frame n in
    if blen (Buf f) <? 16 then gpanic
    else on_pool (upd_frame n (fun g => set_Buf (stamp_lsn lsn (Buf g)) g)).

Definition encodeHeaderIntoFrame0 : M unit :=
  gput (fun p => set_hdr (bump_changes (p_hdr p)) p) ;;*
  do* p := gget in
  do* enc := glift (DbHeader.Encode (p_hdr p)) in
  on_pool (upd_frame 0 (fun f => set_Buf (put 0 (take (length (Buf f)) enc) (replicate (length (Buf f)) 0)) f)).

Definition touchHeaderLocked : M unit := encodeHeaderIntoFrame0 ;;* markDirtyLocked 0.

(** ** Allocation and the freelist *)

Definition freelist_next (b : bytes) : Z := le_val (sub (Z.to_nat freelistNextOffset) 4 b).

Definition zero_frame (n : Z) : M unit := on_pool (upd_frame n (fun f => set_Buf (replicate (length (Buf f)) 0) f)).

Definition allocateFromFreelist : M Z :=
  do* p := gget in
  let n := FreelistRoot (p_hdr p) in
  fetchLocked n ;;*
  do* f := frame n in
  let next := freelist_next (Buf f) in
  gput (fun p => set_hdr (set_freelist next (FreelistPageCount (p_hdr p)) (p_hdr p)) p) ;;*
  gput (fun p => let c := FreelistPageCount (p_hdr p) in
                 if c >? 0 then set_hdr (set_freelist (FreelistRoot (p_hdr p)) (c - 1) (p_hdr p)) p else p) ;;*
  zero_frame n ;;*
  markDirtyLocked n ;;*
  touchHeaderLocked ;;*
  gret n.

Definition allocateByGrowing : M Z :=
  do* p := gget in
  let n := DbHeader.PageCount (p_hdr p) in
  gput (fun p => set_hdr (set_PageCount (u32 (DbHeader.PageCount (p_hdr p) + 1)) (p_hdr p)) p) ;;*
  touchHeaderLocked ;;*
  do* r := gtry obtainFrameLocked in
  match r with
  | inl e =>
      gput (fun p => set_hdr (set_PageCount (u32 (DbHeader.PageCount (p_hdr p) - 1)) (p_hdr p)) p) ;;*
      touchHeaderLocked ;;*
      gfail e
  | inr f =>
      on_pool (admitFrame (set_Buf (replicate (length (Buf f)) 0) f) n) ;;*
      on_pool (upd_frame n (add_pins 1)) ;;*
      markDirtyLocked n ;;*
      gret n
  end.

Definition Allocate : M Z :=
  do* p := gget in
  if p_closed p then gfail PgClosed
  else if p_readOnly p then gfail PgReadOnly
  else if negb (FreelistRoot (p_hdr p) =? NullPage) then allocateFromFreelist
  else allocateByGrowing.

(** InitPage, then the link to the previous top of the freelist. *)
Definition format_free (n : Z) : M unit :=
  do* p := gget in
  do* f := frame n in
  do* b := glift (InitPage (Buf f) PageFree 0) in
  do* b' := glift (wr freelistNextOffset (le_bytes 4 (FreelistRoot (p_hdr p))) b) in
  on_pool (upd_frame n (set_Buf b')) ;;*
  gput (fun p => set_hdr (set_freelist (u32 n) (u32 (FreelistPageCount (p_hdr p) + 1)) (p_hdr p)) p) ;;*
  markDirtyLocked n.

Definition Free (n : Z) : M unit :=
  do* p := gget in
  if p_closed p then gfail PgClosed
  else if p_readOnly p then gfail PgReadOnly
  else
    (match lookup_frame n (p_pool p) with Some _ => gret tt | None => fetchLocked n end) ;;*
    format_free n ;;*
    touchHeaderLocked ;;*
    Unpin n.

(** ** Checkpoint and commit *)

(** The insertion sort of sortFramesByLSN: each frame moves left past the larger. *)
Fixpoint sift (f : Frame) (before : list Frame) : list Frame :=
  match before with
  | [] => [f]
  | g :: l => if pageLSN g >? pageLSN f then g :: sift f l else f :: g :: l
  end.

Definition sortFramesByLSN (fs : list Frame) : list Frame := rev (fold_left (fun before f => sift f before) fs []).

Definition openFreshWAL : M unit :=
  do* p := gget in
  do* h := file_open (p_walPath p) OpenCreate in
  gput (set_walFile (Some h)) ;;*
  do* s1 := genSalt in
  do* s2 := genSalt in
  do* r := gio (CreateWriter (ops:=FsFile h) (Wal.NewHeader (u32 (p_pageSize p)) (p_checkpointSeq p) s1 s2)) in
  match r with
  | inl e => gfail (PgWal e)
  | inr w =>
      file_sync h ;;*
      gput (set_walw (Some (w, h))) ;;*
      gput (set_walFrames 0)
  end.

(** writeBack also cleans the frame when it is resident. *)
Definition flush_frame (f : Frame) : M unit := writeBack f ;;* on_pool (upd_frame (PageID f) (set_dirty false)).

(** A nil walFile (a pager opened read-only) cannot be closed. *)
Definition with_walFile (k : Handle -> M unit) : M unit :=
  do* p := gget in match p_walFile p with Some h => k h | None => gpanic end.

Definition checkpointLocked : M unit :=
  do* p := gget in
  if p_closed p then gfail PgClosed
  else if p_readOnly p then gfail PgReadOnly
  else
    on_pool (set_committed (p_walFlushedLSN p)) ;;*
    giter flush_frame
      (sortFramesByLSN (resident_frames (fun f => dirty f && (pageLSN f <=? p_walFlushedLSN p)) (p_pool p))) ;;*
    countSync (p_main p) ;;*
    ctr (add_checkpoints 1) ;;*
    with_walFile file_close ;;*
    gput (fun p => set_checkpointSeq (u32 (p_checkpointSeq p + 1)) p) ;;*
    openFreshWAL.

Definition syncWAL : M unit :=
  do* p := gget in
  match p_sync p with
  | SyncOff => gret tt
  | _ => with_walFile countSync
  end.

(** The page's checksum is stamped before its image is copied. *)
Definition stamp_checksum (n : Z) : M unit :=
  do* p := gget in
  if n =? 0 then gret tt
  else
    do* f := frame n in
    do* r := glift (WritePageChecksum (Buf f) (p_checksum p)) in
    on_pool (upd_frame n (set_Buf r.2)).

(** The images, in order, and the largest LSN among them. *)
Fixpoint commit_images (fs : list Frame) : M (list PageImage * Z) :=
  match fs with
  | [] => gret ([], 0)
  | f :: fs' =>
      stamp_checksum (PageID f) ;;*
      do* g := frame (PageID f) in
      do* r := commit_images fs' in
      gret (MkPageImage (PageID g) (Buf g) :: r.1, Z.max (pageLSN g) r.2)
  end.

Definition append_commit (images : list PageImage) (size : Z) : M unit := fun s =>
  match p_walw s.1 with
  | None => (Panic, s)
  | Some (w, h) =>
      let '(r, w', d') := AppendCommit (ops:=FsFile h) images size w s.2 in
      (match r with inl e => Err (PgWal e) | inr _ => Ok tt end, (set_walw (Some (w', h)) s.1, d'))
  end.

Definition commitLocked : M unit :=
  do* p := gget in
  if p_closed p then gfail PgClosed
  else if p_readOnly p then gfail PgReadOnly
  else
    let dirties := sortFramesByLSN (resident_frames (fun f => dirty f && (pageLSN f >? p_walFlushedLSN p)) (p_pool p)) in
    if (length dirties =? 0)%nat then gret tt
    else
      do* r := commit_images dirties in
      let '(images, maxLSN) := r in
      append_commit images (DbHeader.PageCount (p_hdr p)) ;;*
      syncWAL ;;*
      gput (set_walFlushedLSN maxLSN) ;;*
      gput (fun p => set_walFrames (p_walFrames p + blen images) p) ;;*
      ctr (add_walFrames (blen images)) ;;*
      ctr (add_bytesWritten (blen images * p_pageSize p)) ;;*
      gput (fun p => match p_observer p with
                     | Some l => set_observer (Some (l ++ [MkCommitEvent maxLSN (DbHeader.PageCount (p_hdr p)) images])) p
                     | None => p
                     end) ;;*
      do* p2 := gget in
      gwhen ((p_ckptN p2 <=? p_walFrames p2) && (p_backupActive p2 =? 0)) checkpointLocked.

Definition Commit : M unit := commitLocked.
Definition Checkpoint : M unit := checkpointLocked.

(** ** Incremental vacuum *)

Fixpoint collect_loop (k : nat) (pid : Z) (free : gset Z) : M (gset Z) :=
  match k with
  | O => gfail PgFuel
  | S k' =>
      if pid =? NullPage then gret free
      else
        fetchLocked pid ;;*
        do* f := frame pid in
        let next := freelist_next (Buf f) in
        Unpin pid ;;*
        collect_loop k' next ({[pid]} ∪ free)
  end.

Definition collectFreelistLocked : M (gset Z) := do* p := gget in collect_loop fuel (FreelistRoot (p_hdr p)) ∅.

(** The trailing free pages to give back: the new count, the rest of the freelist,
    how many. *)
Fixpoint trim_loop (k : nat) (n : Z) (newCount : Z) (free : gset Z) (reclaim : Z) : Z * gset Z * Z :=
  match k with
  | O => (newCount, free, reclaim)
  | S k' =>
      if (newCount >? 1) && bool_decide (newCount - 1 ∈ free) && ((n <=? 0) || (reclaim <? n)) then
        trim_loop k' n (newCount - 1) (free ∖ {[newCount - 1]}) (reclaim + 1)
      else (newCount, free, reclaim)
  end.

Definition rebuild_free (pid : Z) : M unit := fetchLocked pid ;;* format_free pid ;;* Unpin pid.

Definition IncrementalVacuum (n : Z) : M Z :=
  do* p := gget in
  if p_closed p then gfail PgClosed
  else if p_readOnly p then gfail PgReadOnly
  else
    checkpointLocked ;;*
    do* free := collectFreelistLocked in
    do* p1 := gget in
    let pageCount := DbHeader.PageCount (p_hdr p1) in
    let '(newCount, free', reclaim) := trim_loop (Z.to_nat pageCount) n pageCount free 0 in
    if reclaim =? 0 then gret 0
    else
      gput (fun p => set_hdr (set_freelist NullPage 0 (p_hdr p)) p) ;;*
      giter rebuild_free (range free') ;;*
      gput (fun p => set_hdr (set_PageCount (u32 newCount) (p_hdr p)) p) ;;*
      touchHeaderLocked ;;*
      commitLocked ;;*
      checkpointLocked ;;*
      giter (fun pid => on_pool (forget pid)) (seqZ newCount (pageCount - newCount)) ;;*
      file_truncate (p_main p) (newCount * p_pageSize p) ;;*
      countSync (p_main p) ;;*
      gret reclaim.

(** ** Opening and closing *)

(** The generation of the log it scanned. *)
Definition scanGeneration (h : Handle) : M Z :=
  do* r := file_read h WALHeaderSize 0 in
  match r with
  | (_, Some _) => gret 0
  | (hb, None) => match DecodeWALHeader hb with inl _ => gret 0 | inr h => gret (CheckpointSeq h) end
  end.

Definition replay_frame (main : Handle) (ps : Z) (fr : Wal.Frame) : M unit :=
  file_write main (fr_Payload fr) (Wal.PageID (fr_Header fr) * ps).

(** The body of recover between opening the log and its deferred Close. *)
Definition recover_from (h : Handle) : M Z :=
  do* p := gget in
  do* r := fun s => (match Scan (ops:=FsFile h) s.2 fuel (u32 (p_pageSize p)) with
                     | None => Err PgFuel
                     | Some (inl e) => Err (PgWal e)
                     | Some (inr r) => Ok r
                     end, s) in
  if (length (Committed r) =? 0)%nat then gret 0
  else
    giter (replay_frame (p_main p) (p_pageSize p)) (Committed r) ;;*
    file_truncate (p_main p) (DBSizePages r * p_pageSize p) ;;*
    file_sync (p_main p) ;;*
    scanGeneration h.

Definition recover : M Z :=
  do* p := gget in
  do* ex := file_exists (p_walPath p) in
  if negb ex then gret 0
  else
    do* h := file_open (p_walPath p) OpenRead in
    do* r := gtry (recover_from h) in
    do* c := gtry (file_close h) in
    match r with inl e => gfail e | inr g => gret g end.

(** Page 0 in its frame, resident for good: on no list, so it is never a victim. *)
Definition install_frame0 (b : bytes) : M unit :=
  on_pool (fun q => set_resident (resident q + 1) (set_table (<[0 := MkFrame 0 b 1 false 0 listNone]> (table q)) q)).

Definition createNew (o : Options) : M unit :=
  gput (set_pageSize (o_PageSize o)) ;;*
  do* salt := genU64 in
  do* uuid := rand_bytes 16 in
  gput (set_hdr (DbHeader.NewHeader (o_PageSize o) (o_Checksum o) salt uuid)) ;;*
  gput (set_pool (newPool (o_PageSize o) (o_PoolPages o))) ;;*
  install_frame0 (replicate (Z.to_nat (o_PageSize o)) 0) ;;*
  encodeHeaderIntoFrame0 ;;*
  do* p := gget in
  do* f := frame 0 in
  file_write (p_main p) (Buf f) 0 ;;*
  file_sync (p_main p) ;;*
  on_pool (upd_frame 0 (set_dirty false)) ;;*
  gput (set_checkpointSeq 1) ;;*
  openFreshWAL.

(** Read exactly n bytes from offset 0, or fail as ReadAt does. *)
Definition read_full (h : Handle) (n : Z) : M bytes :=
  do* r := file_read h n 0 in
  match r with (b, None) => gret b | (_, Some e) => gfail (PgIo e) end.

Definition openExisting (o : Options) : M unit :=
  do* p := gget in
  do* hb := read_full (p_main p) HeaderSize in
  do* hdr := glift (pg_fmt (DecodeHeader hb)) in
  gput (set_hdr hdr) ;;*
  gput (set_pageSize (DbHeader.PageSize hdr)) ;;*
  gput (set_checksum (Header_ChecksumAlgo hdr)) ;;*
  gput (set_pool (newPool (DbHeader.PageSize hdr) (o_PoolPages o))) ;;*
  do* gen := recover in
  do* hb2 := read_full (p_main p) HeaderSize in
  do* hdr2 := glift (pg_fmt (DecodeHeader hb2)) in
  gput (set_hdr hdr2) ;;*
  do* full := read_full (p_main p) (DbHeader.PageSize hdr) in
  install_frame0 full ;;*
  gput (set_checkpointSeq (u32 (gen + 1))) ;;*
  if p_readOnly p then gret tt else openFreshWAL.

Definition zero_header : DbHeader.Header :=
  DbHeader.MkHeader 0 0 0 0 0 0 0 0 0 0 0 0 0 0 0 0 0 0 0 0 (replicate 16 0) 0.

Definition new_pager (path : string) (main : Handle) (o : Options) (rand : nat) : Pager Handle :=
  MkPager path main (path +:+ "-wal") None None (newPool 0 0) 0 (o_Checksum o) (o_Sync o) (o_ReadOnly o)
    (o_CheckpointFrames o) zero_header 0 0 0 0 0 None zero_counters false rand.

(** The pager, or the error Open returns with the main file closed. *)
Definition Open (path : string) (o0 : Options) (rand : nat) (d : D) : res pgErr (Pager Handle) * D :=
  let o := withDefaults o0 in
  match FsExists path d with
  | inl e => (Err (PgIo e), d)
  | inr ex =>
      if negb ex && o_ReadOnly o then (Err PgNotExist, d)
      else
        match FsOpen path (if o_ReadOnly o then OpenReadOnly else OpenCreate) d with
        | (inl e, d1) => (Err (PgIo e), d1)
        | (inr main, d1) =>
            match (if ex then openExisting o else createNew o) (new_pager path main o rand, d1) with
            | (Ok _, (p, d2)) => (Ok p, d2)
            | (Err e, (_, d2)) => (Err e, (FsClose main d2).2)
            | (Panic, (_, d2)) => (Panic, d2)
            end
        end
  end.

(** Close goes on after an error and returns the first. *)
Definition Close : M unit :=
  do* p := gget in
  if p_closed p then gret tt
  else
    do* e1 := (if p_readOnly p then gret (inr tt) else gtry checkpointLocked) in
    do* p1 := gget in
    do* e2 := (match p_walFile p1 with Some h => gtry (file_close h) | None => gret (inr tt) end) in
    do* e3 := gtry (file_close (p_main p)) in
    gput (set_closed true) ;;*
    match e1, e2, e3 with
    | inl e, _, _ => gfail e
    | inr _, inl e, _ => gfail e
    | inr _, inr _, inl e => gfail e
    | inr _, inr _, inr _ => gret tt
    end.

Definition Sync : M unit :=
  do* p := gget in if p_closed p then gfail PgClosed else countSync (p_main p).

(** ** Accessors *)

Definition SetSync (l : SyncLevel) : M unit := gput (fun p => if p_readOnly p then p else set_sync l p).
Definition CatalogRoot (p : Pager Handle) : Z := DbHeader.CatalogRoot (p_hdr p).
Definition SetCatalogRoot (root : Z) : M unit :=
  gput (fun p => set_hdr (set_catalog root (p_hdr p)) p) ;;* touchHeaderLocked.
Definition PageCount (p : Pager Handle) : Z := DbHeader.PageCount (p_hdr p).
Definition CheckpointThreshold (p : Pager Handle) : Z := p_ckptN p.
Definition SetCheckpointThreshold (frames : Z) : M unit := gput (set_ckptN frames).
Definition SetCommitObserver (on : bool) : M unit := gput (set_observer (if on then Some [] else None)).
Definition DurableLSN (p : Pager Handle) : Z := p_walFlushedLSN p.

Record Stats := MkStats {
  s_ctr : counters;
  CacheEvictions : Z;
  WALSizePages : Z;
  FreelistPages : Z;
  FileSizePages : Z;
  s_PageSize : Z
}.

Definition pager_Stats (p : Pager Handle) : Stats :=
  MkStats (p_ctr p) (u64 (evictions (p_pool p))) (u64 (p_walFrames p)) (FreelistPageCount (p_hdr p))
    (DbHeader.PageCount (p_hdr p)) (u64 (p_pageSize p)).

(** ** Backup

    The lock is held while the copy is set up and while it is torn down; the pages
    are read without it. A writer is a function from what it has to what it has
    next, with the count and the error it returns. *)

Definition isZeroPage (b : bytes) : bool := forallb (fun x => x =? 0) b.

Definition backup_begin : M (Z * Z) :=
  do* p := gget in
  if p_closed p then gfail PgClosed
  else
    gwhen (negb (p_readOnly p)) checkpointLocked ;;*
    do* p1 := gget in
    gput (fun p => set_backupActive (p_backupActive p + 1) p) ;;*
    on_pool (set_freeze true) ;;*
    gret (DbHeader.PageCount (p_hdr p1), p_pageSize p1).

Definition backup_end : M unit :=
  gput (fun p => set_backupActive (p_backupActive p - 1) p) ;;*
  do* p := gget in
  gwhen (p_backupActive p =? 0) (on_pool (set_freeze false)).

Section backup.
Context {W : Type} (Write : bytes -> W -> Z * option ioErr * W).

Record BackupInfo := MkBackupInfo { bi_Pages : Z; bi_Bytes : Z }.

(** One page: read, verified if asked, written; the bytes written, and the error
    that ends the copy. *)
Definition backup_page (verify : bool) (id ps : Z) (w : W) : M (Z * option pgErr * W) :=
  do* p := gget in
  do* r := file_read (p_main p) ps (id * ps) in
  match r with
  | (_, Some e) => gret (0, Some (PgIo e), w)
  | (buf, None) =>
      let '(n, e, w') := Write buf w in
      let copy := gret (n, option_map PgIo e, w') in
      if verify && negb (id =? 0) && negb (isZeroPage buf) then
        match VerifyPageChecksum buf (p_checksum p) with
        | Err e => gret (0, Some (PgFormat e), w)
        | Panic => gpanic
        | Ok _ => copy
        end
      else copy
  end.

Fixpoint backup_loop (verify : bool) (ids : list Z) (ps pageCount written : Z) (w : W)
  : M (BackupInfo * option pgErr * W) :=
  match ids with
  | [] => gret (MkBackupInfo pageCount written, None, w)
  | id :: ids' =>
      do* r := backup_page verify id ps w in
      let '(n, e, w') := r in
      match e with
      | Some e => gret (MkBackupInfo id (written + n), Some e, w')
      | None => backup_loop verify ids' ps pageCount (written + n) w'
      end
  end.

(** A backup nothing interleaves with. *)
Definition Backup (verify : bool) (w : W) : M (BackupInfo * option pgErr * W) :=
  do* r := backup_begin in
  let '(pageCount, ps) := r in
  do* res := backup_loop verify (seqZ 0 pageCount) ps pageCount 0 w in
  backup_end ;;*
  gret res.
End backup.

(** ** Checks *)

Inductive problem :=
| FreelistCycle (n : Z) | FreelistUnreadable (n : Z) (e : pgErr) | FreelistType (n t : Z)
| FreelistCount (walked recorded : Z) | PageUnreadable (n : Z) (e : pgErr) | PageBad (n : Z) (e : fmtErr).

Fixpoint check_freelist (k : nat) (pno : Z) (freed : gset Z) (steps : Z) : M (list problem * Z) :=
  match k with
  | O => gfail PgFuel
  | S k' =>
      if (pno =? NullPage) || (pno =? 0) then gret ([], steps)
      else if bool_decide (pno ∈ freed) then gret ([FreelistCycle pno], steps)
      else
        do* r := gtry (fetchLocked pno) in
        match r with
        | inl e => gret ([FreelistUnreadable pno e], steps)
        | inr _ =>
            do* f := frame pno in
            do* h := glift (DecodePageHeader (Buf f)) in
            let next := freelist_next (Buf f) in
            Unpin pno ;;*
            do* rest := check_freelist k' next ({[pno]} ∪ freed) (u32 (steps + 1)) in
            gret (if ph_Type h =? PageFree then rest else (FreelistType pno (ph_Type h) :: rest.1, rest.2))
        end
  end.

Fixpoint check_checksums (ids : list Z) : M (list problem) :=
  match ids with
  | [] => gret []
  | id :: ids' =>
      do* r := gtry (fetchLocked id) in
      match r with
      | inl e => do* rest := check_checksums ids' in gret (PageUnreadable id e :: rest)
      | inr _ =>
          do* f := frame id in
          do* p := gget in
          match (if isZeroPage (Buf f) then Ok tt else VerifyPageChecksum (Buf f) (p_checksum p)) with
          | Ok _ => Unpin id ;;* check_checksums ids'
          | Err e => Unpin id ;;* do* rest := check_checksums ids' in gret (PageBad id e :: rest)
          | Panic => gpanic
          end
      end
  end.

Definition checkAllChecksumsLocked : M (list problem) :=
  do* p := gget in check_checksums (seqZ 1 (DbHeader.PageCount (p_hdr p) - 1)).

Definition CheckPages (full : bool) : M (list problem) :=
  do* p := gget in
  do* r := check_freelist fuel (FreelistRoot (p_hdr p)) ∅ 0 in
  let '(problems, steps) := r in
  do* p1 := gget in
  let count := if steps =? FreelistPageCount (p_hdr p1) then []
               else [FreelistCount steps (FreelistPageCount (p_hdr p1))] in
  do* more := (if full then checkAllChecksumsLocked else gret []) in
  gret (problems ++ count ++ more).

(** ** What the layers above use

    A method that returns an error returns it; one that panics is told apart. *)

Definition as_sum {A} (r : res pgErr A) : pgErr + A :=
  match r with Ok a => inr a | Err e => inl e | Panic => inl PgPanic end.

Definition with_buf {A} (m : M A) (n : A -> Z) : M (A * bytes) :=
  do* a := m in do* f := frame (n a) in gret (a, Buf f).

#[global] Instance Pager_ops : PageOps (Pager Handle * D) := {
  PageSize s := p_pageSize s.1;
  Fetch n s := let '(r, s') := with_buf (fetchLocked n) (fun _ => n) s in (as_sum (res_map snd r), s');
  WriteBuf n b s := (on_pool (upd_frame n (set_Buf b)) s).2;
  MarkDirty n s := (markDirtyLocked n s).2;
  PageStore.Unpin n s := (Unpin n s).2;
  PageStore.Allocate s := let '(r, s') := with_buf Allocate id s in (as_sum r, s');
  PageStore.Commit s := let '(r, s') := Commit s in (as_sum r, s');
  ChecksumOf s := p_checksum s.1
}.
End pager.
