(* ===== verification/PagerInv.v ===== *)
(** * pager/pager.go: what the methods do

    Specifications of the pager's methods on a disk: the pages a pager lends, what
    evicting a frame keeps, and what fetching, allocating and freeing do to the
    pages a caller sees. *)

From S2P Require Import Prelude Checksum Page Vfs Disk Wal DbHeader PageStore Pool Pager.

#[local] Open Scope Z_scope.
#[local] Open Scope pg_scope.

(** ** Reasoning about methods *)

(** The method returns with Q, or with an error and E; it does not panic. *)
Definition gspec {S A} (m : PG S A) (s : S) (Q : A -> S -> Prop) (E : pgErr -> S -> Prop) : Prop :=
  match m s with (Ok a, s') => Q a s' | (Err e, s') => E e s' | (Panic, _) => False end.

Section gspec.
Context {S : Type}.
Implicit Types (s : S) (E : pgErr -> S -> Prop).

Lemma gspec_bind {A B} (m : PG S A) (k : A -> PG S B) s Q E :
  gspec m s (fun a s' => gspec (k a) s' Q E) E -> gspec (gbind m k) s Q E.
Proof. unfold gspec, gbind. by destruct (m s) as [[a|e|] s']. Qed.

Lemma gspec_ret {A} (a : A) s (Q : A -> S -> Prop) E : Q a s -> gspec (gret a) s Q E.
Proof. done. Qed.

Lemma gspec_fail {A} e s (Q : A -> S -> Prop) E : E e s -> gspec (gfail e) s Q E.
Proof. done. Qed.

Lemma gspec_try {A} (m : PG S A) s (Q : pgErr + A -> S -> Prop) E :
  gspec m s (fun a => Q (inr a)) (fun e => Q (inl e)) -> gspec (gtry m) s Q E.
Proof. unfold gspec, gtry. by destruct (m s) as [[a|e|] s']. Qed.

Lemma gspec_lift {A} (r : res pgErr A) s Q E :
  match r with Ok a => Q a s | Err e => E e s | Panic => False end -> gspec (glift r) s Q E.
Proof. unfold gspec, glift. by destruct r. Qed.

Lemma gspec_mono {A} (m : PG S A) s (Q Q' : A -> S -> Prop) (E E' : pgErr -> S -> Prop) :
  gspec m s Q E -> (forall a s', Q a s' -> Q' a s') -> (forall e s', E e s' -> E' e s') -> gspec m s Q' E'.
Proof. unfold gspec. destruct (m s) as [[a|e|] s']; intros H1 H2 H3; [by apply H2|by apply H3|done]. Qed.

Lemma gspec_Ok {A} (m : PG S A) s a s' (Q : A -> S -> Prop) E : m s = (Ok a, s') -> Q a s' -> gspec m s Q E.
Proof. unfold gspec. intros H. by rewrite H. Qed.

(** A loop, by an invariant on what is left. *)
Lemma gspec_iter {A} (f : A -> PG S unit) l (I : list A -> S -> Prop) s E :
  I l s -> (forall x l' s', I (x :: l') s' -> gspec (f x) s' (fun _ => I l') E) -> gspec (giter f l) s (fun _ => I []) E.
Proof.
  intros HI Hf. revert s HI. induction l as [|x l IH]; intros s HI; cbn [giter]; [by apply gspec_ret|].
  apply gspec_bind. eapply gspec_mono; [by apply Hf|cbn beta; intros u s'; apply IH|done].
Qed.
End gspec.

(** ** Pages of a file *)

(** The page as readPageInto delivers it: a page the file does not hold whole is
    zeros. *)
Definition disk_page (ps : Z) (b : bytes) (n : Z) : bytes :=
  if n * ps + ps <=? blen b then read_data ps (n * ps) b else replicate (Z.to_nat ps) 0.

Lemma blen_disk_page ps b n : 0 <= ps -> 0 <= n -> blen (disk_page ps b n) = ps.
Proof.
  intros Hps Hn. unfold disk_page. destruct (Z.leb_spec (n * ps + ps) (blen b)).
  - rewrite blen_read_data by nia. lia.
  - unfold blen. rewrite length_replicate. lia.
Qed.

Lemma bytes_ok_disk_page ps b n : bytes_ok b -> bytes_ok (disk_page ps b n).
Proof.
  intros Hb. unfold disk_page. destruct (_ <=? _); [by apply sub_Forall|]. apply Forall_replicate. unfold byte_ok. lia.
Qed.

Lemma bytes_ok_write_data p off b : bytes_ok p -> bytes_ok b -> bytes_ok (write_data p off b).
Proof.
  intros Hp Hb. unfold write_data. apply put_Forall; [done|]. destruct (_ >? _); [|done].
  apply Forall_app. split; [done|]. apply Forall_replicate. unfold byte_ok. lia.
Qed.

Lemma sub_zeros off n k : (off + n <= k)%nat -> sub off n (replicate k (0 : Z)) = replicate n 0.
Proof. intros H. unfold sub. rewrite drop_replicate, take_replicate. f_equal. lia. Qed.

(** Writing a page changes that page and no other, in a file of whole pages. *)
Lemma disk_page_write ps b p n m :
  0 < ps -> 0 <= n -> 0 <= m -> blen p = ps -> blen b mod ps = 0 ->
  disk_page ps (write_data p (n * ps) b) m = if decide (m = n) then p else disk_page ps b m.
Proof.
  intros Hps Hn Hm Hp Hb. unfold disk_page. rewrite blen_write_data by nia. case_decide as E.
  - subst m. rewrite (proj2 (Z.leb_le _ _)) by lia. rewrite <- Hp at 1. apply read_write_same. nia.
  - assert (Hlb : blen b = blen b / ps * ps) by (rewrite Z.mul_comm; apply Z.div_exact; lia).
    destruct (Z.leb_spec (m * ps + ps) (blen b)).
    + rewrite (proj2 (Z.leb_le _ _)) by lia. unfold read_data, write_data. rewrite Z.gtb_ltb.
      assert (m * ps + ps <= n * ps \/ n * ps + ps <= m * ps) as Hd by nia.
      rewrite sub_put_ne.
      * destruct (Z.ltb_spec (blen b) (n * ps + blen p)); [|done]. apply sub_app_l. unfold blen in *. nia.
      * destruct (Z.ltb_spec (blen b) (n * ps + blen p)); unfold blen in *; rewrite ?length_app, ?length_replicate; nia.
      * unfold blen in *. nia.
    + destruct (Z.leb_spec (m * ps + ps) (Z.max (blen b) (n * ps + blen p))) as [Hle|]; [|done].
      set (q := blen b / ps) in *. assert (q <= m) by nia. assert (m < n) by nia. assert (blen b <= m * ps) by nia.
      unfold read_data, write_data. rewrite Z.gtb_ltb, (proj2 (Z.ltb_lt _ _)) by lia.
      rewrite sub_put_ne; [|unfold blen in *; rewrite ?length_app, ?length_replicate; nia|unfold blen in *; nia].
      rewrite sub_app_r by (unfold blen in *; nia). apply sub_zeros. unfold blen in *. nia.
Qed.

Lemma blen_write_page ps b p n :
  0 < ps -> 0 <= n -> blen p = ps -> blen b mod ps = 0 -> blen (write_data p (n * ps) b) mod ps = 0.
Proof.
  intros Hps Hn Hp Hb. rewrite blen_write_data by nia. rewrite Hp.
  destruct (Z.max_spec (blen b) (n * ps + ps)) as [[_ ->]|[_ ->]]; [|done].
  replace (n * ps + ps) with ((n + 1) * ps) by lia. apply Z.mod_mul. lia.
Qed.

(** ** Evicting a frame *)

Lemma pool_ok_committed ps k l P : pool_ok ps k P -> pool_ok ps k (set_committed l P).
Proof. by intros []. Qed.

Abbreviation dpager := (Pager (@Handle Disk Disk_fs)).

(** What the disk and the page table go through as a frame is found. *)
Inductive evicts (p : dpager) (d : Disk) : gmap Z Frame -> Disk -> Prop :=
| ev_none : evicts p d (table (p_pool p)) d
| ev_clean v :
    table (p_pool p) !! PageID v = Some v -> loc v <> listNone -> pins v = 0 -> dirty v = false ->
    evicts p d (delete (PageID v) (table (p_pool p))) d
| ev_dirty v :
    table (p_pool p) !! PageID v = Some v -> loc v <> listNone -> pins v = 0 -> dirty v = true ->
    pageLSN v <= p_walFlushedLSN p -> freezeDirty (p_pool p) = false ->
    evicts p d (delete (PageID v) (table (p_pool p))) (Disk_WriteAt (p_main p) (Buf v) (PageID v * p_pageSize p) d).2.

(** A frame in nobody's hands. *)
Definition detached (ps : Z) (f : Frame) : Prop :=
  blen (Buf f) = ps /\ bytes_ok (Buf f) /\ pins f = 0 /\ dirty f = false.

(** What stays of an open pager. *)
Record pg_open (p : dpager) : Prop := PgOpen {
  pn_closed : p_closed p = false;
  pn_readOnly : p_readOnly p = false;
  pn_main : p_main p = DHandle (p_path p) false;
  pn_size : ValidPageSize (p_pageSize p) = true;
  pn_algo : Supported (p_checksum p) = true
}.

Lemma valid_size ps : ValidPageSize ps = true -> 4096 <= ps <= 65536 /\ ps mod 512 = 0.
Proof. unfold ValidPageSize. rewrite !orb_true_iff, !Z.eqb_eq. intros [[[[-> | ->] | ->] | ->] | ->]; split; done || lia. Qed.

(** Every frame of the lists is pinned, uncommitted, or frozen. *)
Definition exhausted (P : pool) : Prop :=
  resident P = capacity P /\ forall n f, table P !! n = Some f -> loc f <> listNone -> evictable P f = false.

Lemma gspec_gget p d (Q : dpager -> _ -> Prop) E : Q p (p, d) -> gspec gget (p, d) Q E.
Proof. done. Qed.

Lemma gspec_gput f p d (Q : unit -> _ -> Prop) E : Q tt (f p, d) -> gspec (gput f) (p, d) Q E.
Proof. done. Qed.

Lemma gspec_on_pool f p d (Q : unit -> _ -> Prop) E :
  Q tt (set_pool (f (p_pool p)) p, d) -> gspec (on_pool f) (p, d) Q E.
Proof. done. Qed.

Lemma gspec_ctr f p d (Q : unit -> _ -> Prop) E : Q tt (set_ctr (f (p_ctr p)) p, d) -> gspec (ctr f) (p, d) Q E.
Proof. done. Qed.

Lemma gspec_write h b off p d (Q : unit -> _ -> Prop) E :
  dh_readOnly h = false -> Q tt (p, (Disk_WriteAt h b off d).2) -> gspec (file_write h b off) (p, d) Q E.
Proof. intros Hh. unfold gspec, file_write, gbind, gio. cbn. unfold Disk_WriteAt. by rewrite Hh. Qed.

Lemma gspec_frame n f p d (Q : Frame -> _ -> Prop) E :
  table (p_pool p) !! n = Some f -> Q f (p, d) -> gspec (frame n) (p, d) Q E.
Proof. intros Hf. unfold gspec, frame. cbn [fst]. by rewrite Hf. Qed.

Ltac gstep :=
  lazymatch goal with
  | |- gspec (gbind _ _) _ _ _ => apply gspec_bind
  | |- gspec (gret _) _ _ _ => apply gspec_ret
  | |- gspec (gfail _) _ _ _ => apply gspec_fail
  | |- gspec (gtry _) _ _ _ => apply gspec_try
  | |- gspec gget _ _ _ => apply gspec_gget
  | |- gspec (gput _) _ _ _ => apply gspec_gput
  | |- gspec (on_pool _) _ _ _ => apply gspec_on_pool
  | |- gspec (ctr _) _ _ _ => apply gspec_ctr
  end; cbv beta.
Ltac gsteps := repeat gstep.

Lemma obtainFrameLocked_spec p d :
  pg_open p -> pool_ok (p_pageSize p) 0 (p_pool p) ->
  gspec obtainFrameLocked (p, d)
    (fun f s' => exists P c d', s' = (set_pool P (set_ctr c p), d') /\ pool_ok (p_pageSize p) 1 P /\
       detached (p_pageSize p) f /\ freezeDirty P = freezeDirty (p_pool p) /\ evicts p d (table P) d')
    (fun e s' => e = PgPoolExhausted /\ exists P, s' = (set_pool P p, d) /\ pool_ok (p_pageSize p) 0 P /\
       table P = table (p_pool p) /\ freezeDirty P = freezeDirty (p_pool p) /\ exhausted P).
Proof.
  intros Hp HP. unfold obtainFrameLocked. gsteps.
  set (p1 := set_pool (set_committed (p_walFlushedLSN p) (p_pool p)) p).
  assert (HP1 : pool_ok (p_pageSize p) 0 (p_pool p1)) by by apply pool_ok_committed.
  pose proof (freeze_unchanged (p_pool p1)) as Hz.
  destruct (obtainFrame (p_pool p1)) as [r P] eqn:E. pose proof (obtainFrame_spec _ _ _ _ HP1 E) as Hr. cbn [snd] in Hz.
  change (table (p_pool p1)) with (table (p_pool p)) in Hr. gsteps.
  assert (Hev : forall v, evictable (p_pool p1) v = true -> pins v = 0 /\
    (dirty v = true -> freezeDirty (p_pool p) = false /\ pageLSN v <= p_walFlushedLSN p)).
  { intros v Hv. exact (proj1 (evictable_spec _ _) Hv). }
  destruct r as [f|v|]; gsteps.
  - destruct Hr as (H1 & H2 & H3 & H4 & H5 & H6). exists P, (p_ctr p), d.
    split; [by destruct p|]. split; [done|]. split; [done|]. split; [done|].
    destruct H6 as [->|(v & Hv & Hl & He & Hdv & -> & ->)]; [apply ev_none|]. by apply ev_clean.
  - destruct Hr as (H1 & Hv & Hl & He & Hd & Ht). destruct (Hev v He) as [Hpin Hw]. destruct (Hw Hd) as [Hfz Hlsn].
    unfold writeBack. gsteps. cbn [p_walFlushedLSN set_pool p1 p_main p_pageSize]. rewrite (proj2 (Z.ltb_ge _ _)) by done.
    gsteps. apply gspec_write; [by rewrite (pn_main _ Hp)|]. gsteps.
    eexists P, _, _. split; [by destruct p|]. split; [done|].
    destruct (po_frames _ _ _ HP _ _ Hv) as (_ & Hlen & Hok & _).
    split; [done|]. split; [done|]. rewrite Ht. exact (ev_dirty p d v Hv Hl Hpin Hd Hlsn Hfz).
  - destruct Hr as (-> & H1 & H2). split; [done|]. eexists. split; [by destruct p|]. done.
Qed.

(** ** The pages a pager lends *)

(** What a caller sees of page n: its frame, or what reading it would deliver. *)
Definition page_at (ps : Z) (t : gmap Z Frame) (b : bytes) (n : Z) : bytes :=
  match t !! n with Some f => Buf f | None => disk_page ps b n end.

(** Clean frames hold what the file holds, only pages in range are resident, and
    page 0 is on no list. *)
Record lent (ps count : Z) (t : gmap Z Frame) (b : bytes) : Prop := Lent {
  ln_clean : forall n f, t !! n = Some f -> dirty f = false -> Buf f = disk_page ps b n;
  ln_range : forall n, is_Some (t !! n) -> 0 <= n < count;
  ln_zero : exists f, t !! 0 = Some f /\ loc f = listNone;
  ln_bytes : bytes_ok b;
  ln_whole : blen b mod ps = 0
}.

Definition pg_data (p : dpager) (d : Disk) : bytes := disk_data (p_path p) d.

Lemma pg_data_write p d b off :
  pg_open p -> pg_data p (Disk_WriteAt (p_main p) b off d).2 = write_data b off (pg_data p d) /\
  forall path, path <> p_path p -> disk_file path (Disk_WriteAt (p_main p) b off d).2 = disk_file path d.
Proof.
  intros Hp. rewrite (pn_main _ Hp). unfold Disk_WriteAt, pg_data, disk_data. cbn [dh_readOnly dh_path snd]. split.
  - by rewrite disk_file_step.
  - intros path Hne. by rewrite disk_file_step_ne.
Qed.

(** Eviction changes what is where, and nothing a caller sees. *)
Lemma evicts_lent p d count t' d' :
  pg_open p -> pool_ok (p_pageSize p) 0 (p_pool p) -> lent (p_pageSize p) count (table (p_pool p)) (pg_data p d) ->
  evicts p d t' d' ->
  lent (p_pageSize p) count t' (pg_data p d') /\
  (forall n, 0 <= n -> page_at (p_pageSize p) t' (pg_data p d') n = page_at (p_pageSize p) (table (p_pool p)) (pg_data p d) n) /\
  (forall n f, t' !! n = Some f -> table (p_pool p) !! n = Some f) /\
  (forall n f, table (p_pool p) !! n = Some f -> pins f <> 0 -> t' !! n = Some f) /\
  (forall path, path <> p_path p -> disk_file path d' = disk_file path d).
Proof.
  intros Hp HP [L1 L2 L3 L4 L5] He. pose proof (valid_size _ (pn_size _ Hp)) as [Hps _].
  destruct He as [|v Hv Hl Hpin Hd|v Hv Hl Hpin Hd Hlsn Hz]; [done| |].
  - assert (Hn0 : PageID v <> 0). { intros E0. rewrite E0 in Hv. destruct L3 as (f0 & Hf0 & Hl0). congruence. }
    split; [|split_and!].
    + constructor; try done.
      * intros n f Hn. apply lookup_delete_Some in Hn as [_ Hn]. by apply L1.
      * intros n [f Hn]. apply lookup_delete_Some in Hn as [_ Hn]. apply L2. by eexists.
      * destruct L3 as (f0 & Hf0 & Hl0). exists f0. by rewrite lookup_delete_ne.
    + intros n Hn. unfold page_at. destruct (decide (n = PageID v)) as [->|Hne].
      * rewrite lookup_delete_eq, Hv. symmetry. by apply L1.
      * by rewrite lookup_delete_ne.
    + intros n f Hn. by apply lookup_delete_Some in Hn as [_ Hn].
    + intros n f Hn Hf. rewrite lookup_delete_ne; [done|]. intros <-. congruence.
    + done.
  - assert (Hn0 : PageID v <> 0). { intros E0. rewrite E0 in Hv. destruct L3 as (f0 & Hf0 & Hl0). congruence. }
    destruct (po_frames _ _ _ HP _ _ Hv) as (_ & Hlen & Hok & _).
    assert (0 <= PageID v < count) as Hr by (apply L2; by eexists).
    destruct (pg_data_write p d (Buf v) (PageID v * p_pageSize p) Hp) as [-> Hoth].
    assert (Hdp : forall m, 0 <= m -> disk_page (p_pageSize p) (write_data (Buf v) (PageID v * p_pageSize p) (pg_data p d)) m =
      if decide (m = PageID v) then Buf v else disk_page (p_pageSize p) (pg_data p d) m)
      by (intros m Hm; apply disk_page_write; (done || lia)).
    split; [|split_and!; [| | |done]].
    + constructor.
      * intros n f Hn Hdf. apply lookup_delete_Some in Hn as [Hne Hn]. rewrite Hdp.
        -- rewrite decide_False by done. by apply L1.
        -- apply (L2 n). by eexists.
      * intros n [f Hn]. apply lookup_delete_Some in Hn as [_ Hn]. apply L2. by eexists.
      * destruct L3 as (f0 & Hf0 & Hl0). exists f0. by rewrite lookup_delete_ne.
      * by apply bytes_ok_write_data.
      * apply blen_write_page; (done || lia).
    + intros n Hn. unfold page_at. destruct (decide (n = PageID v)) as [->|Hne].
      * rewrite lookup_delete_eq, Hv, Hdp, decide_True; done.
      * rewrite lookup_delete_ne by done. destruct (table (p_pool p) !! n); [done|]. by rewrite Hdp, decide_False.
    + intros n f Hn. by apply lookup_delete_Some in Hn as [_ Hn].
    + intros n f Hn Hf. rewrite lookup_delete_ne; [done|]. intros <-. congruence.
Qed.

(** Reading the page finds it, or finds it damaged. *)
Definition readable (ps algo : Z) (b : bytes) (n : Z) : Prop :=
  n = 0 \/ blen b < n * ps + ps \/ VerifyPageChecksum (disk_page ps b n) algo = Ok tt.

Lemma Verify_no_panic b algo : 4 <= blen b -> Supported algo = true -> VerifyPageChecksum b algo <> Panic.
Proof.
  intros Hl Ha. unfold VerifyPageChecksum, ChecksumSize. rewrite !rd_Ok by lia. cbn [res_bind].
  set (b1 := sub _ _ _). set (b2 := sub _ _ b). unfold Verify. destruct (algo =? ChecksumNone); [done|]. destruct (Checksum_supported (E:=fmtErr) algo b1 Ha) as [s Hs].
  rewrite Hs. cbn [res_bind]. by destruct (_ =? _).
Qed.

Lemma readPageInto_spec p d n buf :
  pg_open p -> blen buf = p_pageSize p -> 0 <= n < DbHeader.PageCount (p_hdr p) ->
  gspec (readPageInto n buf) (p, d)
    (fun b s' => s' = (p, d) /\ b = disk_page (p_pageSize p) (pg_data p d) n)
    (fun e s' => s' = (p, d) /\ e = PgCorrupt /\ ~ readable (p_pageSize p) (p_checksum p) (pg_data p d) n).
Proof.
  intros Hp Hb Hn. pose proof (valid_size _ (pn_size _ Hp)) as [Hps _]. set (ps := p_pageSize p) in *.
  unfold readPageInto. gsteps. unfold file_read. unfold gspec at 1. cbn [snd ReadAt FsFile Disk_fs disk_ops].
  unfold Disk_ReadAt. rewrite (pn_main _ Hp). cbn [dh_path]. fold (pg_data p d). fold ps.
  rewrite Hb. set (got := read_data ps (n * ps) (pg_data p d)).
  assert (Hg : blen got = Z.max 0 (Z.min ps (blen (pg_data p d) - n * ps))) by (apply blen_read_data; nia).
  assert (Hlb : Z.of_nat (length buf) = ps) by done.
  destruct (Z.leb_spec (n * ps + ps) (blen (pg_data p d))) as [Hin|Hout].
  - assert (Hgl : blen got = ps) by lia. rewrite (proj2 (Z.ltb_ge (blen got) ps)) by lia.
    rewrite (proj2 (Z.leb_gt (blen (pg_data p d)) (n * ps))) by lia.
    assert (Ep : put 0 got buf = disk_page ps (pg_data p d) n).
    { unfold disk_page. rewrite (proj2 (Z.leb_le _ _)) by lia. fold got. unfold put. cbn [take app].
      rewrite drop_ge, app_nil_r by (unfold blen in *; lia). done. }
    rewrite Ep. destruct (Z.eqb_spec n 0) as [->|Hn0]; gsteps; [done|].
    pose proof (Verify_no_panic (disk_page ps (pg_data p d) n) (p_checksum p)) as Hnp.
    rewrite blen_disk_page in Hnp by lia. specialize (Hnp ltac:(lia) (pn_algo _ Hp)).
    destruct (VerifyPageChecksum _ _) as [[]|e|] eqn:Ev; gsteps; try done.
    split; [done|]. split; [done|]. intros [?|[?|Hx]]; [done|lia|]. by rewrite Ev in Hx.
  - rewrite (proj2 (Z.ltb_lt (blen got) ps)) by lia. rewrite (proj2 (Z.ltb_lt n _)) by lia. gsteps.
    split; [done|]. unfold disk_page. rewrite (proj2 (Z.leb_gt _ _)) by lia. f_equal. lia.
Qed.

(** ** Where a method leaves the pager

    Most methods change the pool, the counters, the header and the LSN clock of the
    pager, and nothing else of it. *)

Definition pgw (P : pool) (c : counters) (h : DbHeader.Header) (l : Z) (p : dpager) : dpager :=
  set_pool P (set_ctr c (set_hdr h (set_nextLSN l p))).

Definition lands (p : dpager) (t : gmap Z Frame) (h : DbHeader.Header) (l : Z) (d' : Disk) (s' : dpager * Disk) : Prop :=
  exists P c, s' = (pgw P c h l p, d') /\ pool_ok (p_pageSize p) 0 P /\ freezeDirty P = freezeDirty (p_pool p) /\ table P = t.

Lemma lands_trans p t h l d1 s1 t' h' l' d' s' :
  lands p t h l d1 s1 -> lands s1.1 t' h' l' d' s' -> lands p t' h' l' d' s'.
Proof.
  intros (P & c & -> & H1 & H2 & H3) (P' & c' & -> & H1' & H2' & H3'). exists P', c'.
  split; [done|]. split; [done|]. split; [by rewrite <- H2|done].
Qed.

Lemma pg_open_pgw P c h l p : pg_open p -> pg_open (pgw P c h l p).
Proof. by intros []. Qed.

(** The state of the goal, in the form the specifications use. *)
Ltac pg_form :=
  lazymatch goal with
  | |- lands _ _ _ _ _ (?q, _) => exists (p_pool q), (p_ctr q); split; [reflexivity|]
  end.

Definition marked (n lsn : Z) (f : Frame) : Frame :=
  MkFrame (PageID f) (if n =? 0 then Buf f else stamp_lsn lsn (Buf f)) (pins f) true lsn (loc f).

Lemma frame_ok_marked ps n lsn f : 36 <= ps -> frame_ok ps n f -> frame_ok ps n (marked n lsn f).
Proof.
  intros Hps (H1 & H2 & H3 & H4). unfold frame_ok, marked. cbn [PageID Buf pins]. destruct (n =? 0); [done|].
  destruct (stamp_lsn_ok lsn (Buf f)) as [H5 H6]; [lia|done|]. split_and!; try done. congruence.
Qed.

Lemma table_upd n g P f : table P !! n = Some f -> table (upd_frame n g P) = <[n := g f]> (table P).
Proof.
  intros Hf. unfold upd_frame, set_table. cbn [table].
  apply map_eq. intros m. destruct (decide (m = n)) as [->|Hne].
  - by rewrite lookup_alter_eq, lookup_insert_eq, Hf.
  - by rewrite lookup_alter_ne, lookup_insert_ne.
Qed.

Lemma markDirty_spec p d n f :
  pg_open p -> pool_ok (p_pageSize p) 0 (p_pool p) -> table (p_pool p) !! n = Some f ->
  let l := u64 (p_nextLSN p + 1) in
  gspec (markDirtyLocked n) (p, d) (fun _ => lands p (<[n := marked n l f]> (table (p_pool p))) (p_hdr p) l d)
    (fun _ _ => False).
Proof.
  intros Hp HP Hf l. pose proof (valid_size _ (pn_size _ Hp)) as [Hps _].
  pose proof (po_frames _ _ _ HP _ _ Hf) as Hfr. destruct Hfr as (H1 & H2 & H3 & H4).
  unfold markDirtyLocked. gsteps. cbn [p_nextLSN set_nextLSN]. fold l.
  set (P1 := upd_frame n _ _).
  assert (HP1 : pool_ok (p_pageSize p) 0 P1).
  { apply pool_ok_upd; [done|]. intros g Hg. assert (Some f = Some g) as [= <-] by (rewrite <- Hf; exact Hg). done. }
  assert (Ht1 : table P1 = <[n := set_dirty true (set_lsn l f)]> (table (p_pool p)))
    by exact (table_upd n (fun f => set_dirty true (set_lsn l f)) (p_pool p) f Hf).
  destruct (Z.eqb_spec n 0) as [->|Hn]; gsteps.
  - pg_form. split; [done|]. split; [done|]. etransitivity; [exact Ht1|]. done.
  - apply gspec_frame with (f := set_dirty true (set_lsn l f)).
    { change (table P1 !! n = Some (set_dirty true (set_lsn l f))). by rewrite Ht1, lookup_insert_eq. }
    cbn [Buf set_dirty set_lsn]. rewrite (proj2 (Z.ltb_ge _ _)) by lia. gsteps. pg_form.
    change (p_pool (set_pool P1 (set_nextLSN l p))) with P1. cbn [p_pool set_pool].
    assert (Hs : blen (stamp_lsn l (Buf f)) = blen (Buf f) /\ bytes_ok (stamp_lsn l (Buf f))) by (apply stamp_lsn_ok; [lia|done]).
    split.
    { apply pool_ok_upd; [done|]. intros g. rewrite Ht1, lookup_insert_eq. intros [= <-]. split; [|done].
      split; [done|]. cbn [Buf set_Buf set_dirty set_lsn pins]. destruct Hs as [-> Hs]. done. }
    split; [done|]. rewrite (table_upd n _ P1 (set_dirty true (set_lsn l f))) by (by rewrite Ht1, lookup_insert_eq).
    rewrite Ht1, insert_insert_eq. unfold marked. by rewrite (proj2 (Z.eqb_neq n 0)).
Qed.

(** ** The header and its page *)

Definition header_bytes (h : DbHeader.Header) : bytes := match Encode (E:=pgErr) h with Ok b => b | _ => [] end.
Definition hdr_page (ps : Z) (h : DbHeader.Header) : bytes := header_bytes h ++ replicate (Z.to_nat (ps - HeaderSize)) 0.

Definition fits (ps algo : Z) (h : DbHeader.Header) : Prop :=
  DbHeader.header_ok h /\ DbHeader.PageSize h = ps /\ Header_ChecksumAlgo h = algo /\
  FormatMajor h <= FormatMajorCurrent /\ Z.ldiff (FeatureFlags h) knownFeatureMask = 0.

Definition hdr_fits (p : dpager) (h : DbHeader.Header) : Prop := fits (p_pageSize p) (p_checksum p) h.

Lemma hdr_fits_bump p h : hdr_fits p h -> hdr_fits p (bump_changes h).
Proof.
  intros (Hh & H1 & H2 & H3). split; [|done]. unfold DbHeader.header_ok, bump_changes, with_counters in *. cbn. destruct_and! Hh.
  split_and!; try done; apply wrap_in_u; lia.
Qed.

Definition with_sum (s : Z) (h : DbHeader.Header) : DbHeader.Header :=
  DbHeader.MkHeader (FormatMajor h) (FormatMinor h) (DbHeader.PageSize h) (DbHeader.PageCount h) (FileChangeCounter h)
    (VersionValidFor h) (FreelistRoot h) (FreelistPageCount h) (DbHeader.CatalogRoot h) (SchemaCookie h)
    (ColumnarRoot h) (TxnHighWater h) (FeatureFlags h) (DefaultCodec h) (Header_ChecksumAlgo h) (TextEncoding h)
    (EncryptionFlags h) (ApplicationID h) (UserVersion h) (WALSalt h) (DatabaseUUID h) s.

(** The header's bytes, and the header they decode to. *)
Lemma header_bytes_fits ps algo h :
  ValidPageSize ps = true -> Supported algo = true -> fits ps algo h ->
  Encode (E:=pgErr) h = Ok (header_bytes h) /\ length (header_bytes h) = 128%nat /\ bytes_ok (header_bytes h) /\
  exists s, forall rest, DecodeHeader (header_bytes h ++ rest) = Ok (with_sum s h).
Proof.
  intros Hps Halgo (Hh & Hs & Ha & Hmaj & Hfeat).
  assert (Hsup : Supported (Header_ChecksumAlgo h) = true) by by rewrite Ha.
  assert (Hu : length (DatabaseUUID h) = 16%nat) by (unfold DbHeader.header_ok in Hh; tauto).
  destruct (Encode_Ok (E:=pgErr) h Hsup) as (s & Hc & He).
  unfold header_bytes. rewrite He. split; [done|]. split.
  { rewrite length_app, length_header_fields, length_le_bytes by done. done. }
  split.
  { apply Forall_app. split; [by apply header_bytes_ok|apply bytes_ok_le]. }
  assert (Hc' : Checksum (E:=fmtErr) (Header_ChecksumAlgo h) (concat (header_fields h)) = Ok s).
  { unfold Checksum in *. repeat case_match; congruence. }
  exists s. intros rest. rewrite <- app_assoc, DecodeHeader_block by done.
  pose proof (Checksum_range _ _ _ (header_bytes_ok h Hh) Hc') as Hr.
  rewrite le_val_le_bytes, Verify_Checksum by done. cbn [res_bind negb]. unfold decode_checked.
  rewrite Z.gtb_ltb, (proj2 (Z.ltb_ge _ _)) by done. 
  assert (HV : ValidPageSize (DbHeader.PageSize h) = true) by by rewrite Hs. by rewrite HV, Hfeat.
Qed.

Lemma header_bytes_eq p h :
  pg_open p -> hdr_fits p h ->
  Encode (E:=pgErr) h = Ok (header_bytes h) /\ length (header_bytes h) = 128%nat /\ bytes_ok (header_bytes h) /\
  exists s, forall rest, DecodeHeader (header_bytes h ++ rest) = Ok (with_sum s h).
Proof. intros [] H. by eapply header_bytes_fits. Qed.

Lemma hdr_page_ok p h :
  pg_open p -> hdr_fits p h -> blen (hdr_page (p_pageSize p) h) = p_pageSize p /\ bytes_ok (hdr_page (p_pageSize p) h).
Proof.
  intros Hp Hh. destruct (header_bytes_eq p h Hp Hh) as (_ & Hl & Hb & _).
  pose proof (valid_size _ (pn_size _ Hp)) as [Hps _]. unfold hdr_page, blen, HeaderSize. split.
  - rewrite length_app, length_replicate. lia.
  - apply Forall_app. split; [done|]. apply Forall_replicate. unfold byte_ok. lia.
Qed.

(** The header's page takes the header with its counters bumped. *)
Definition touched (ps l : Z) (h : DbHeader.Header) (t : gmap Z Frame) : gmap Z Frame :=
  match t !! 0 with Some f0 => <[0 := marked 0 l (set_Buf (hdr_page ps (bump_changes h)) f0)]> t | None => t end.

Lemma touchHeader_spec p d :
  pg_open p -> pool_ok (p_pageSize p) 0 (p_pool p) -> is_Some (table (p_pool p) !! 0) -> hdr_fits p (p_hdr p) ->
  let l := u64 (p_nextLSN p + 1) in
  gspec touchHeaderLocked (p, d)
    (fun _ => lands p (touched (p_pageSize p) l (p_hdr p) (table (p_pool p))) (bump_changes (p_hdr p)) l d) (fun _ _ => False).
Proof.
  intros Hp HP [f0 Hf] Hh l. unfold touchHeaderLocked, encodeHeaderIntoFrame0. gsteps.
  apply hdr_fits_bump in Hh. destruct (header_bytes_eq p _ Hp Hh) as (He & Hl & Hb & _).
  destruct (hdr_page_ok p _ Hp Hh) as [Hpl Hpb].
  apply gspec_lift. cbn [p_hdr set_hdr]. rewrite He. gsteps.
  destruct (po_frames _ _ _ HP _ _ Hf) as (H1 & H2 & H3 & H4).
  pose proof (valid_size _ (pn_size _ Hp)) as [Hps _].
  set (P1 := upd_frame 0 _ _). set (p1 := set_pool P1 _).
  assert (Hbuf : put 0 (take (length (Buf f0)) (header_bytes (bump_changes (p_hdr p)))) (replicate (length (Buf f0)) 0)
                 = hdr_page (p_pageSize p) (bump_changes (p_hdr p))).
  { unfold blen in H2. rewrite take_ge by lia. unfold put, hdr_page, HeaderSize. rewrite take_0. cbn [app]. f_equal.
    rewrite drop_replicate. f_equal. lia. }
  assert (Ht1 : table P1 = <[0 := set_Buf (hdr_page (p_pageSize p) (bump_changes (p_hdr p))) f0]> (table (p_pool p))).
  { unfold P1. rewrite (table_upd 0 _ _ f0) by done. by rewrite Hbuf. }
  assert (HP1 : pool_ok (p_pageSize p) 0 P1).
  { apply pool_ok_upd; [done|]. intros g Hg. assert (Some f0 = Some g) as [= <-] by (rewrite <- Hf; exact Hg). split; [|done].
    unfold frame_ok. cbn [PageID Buf pins set_Buf]. by rewrite Hbuf. }
  assert (Hp1 : pg_open p1) by by destruct Hp.
  assert (Hf1 : table (p_pool p1) !! 0 = Some (set_Buf (hdr_page (p_pageSize p) (bump_changes (p_hdr p))) f0)).
  { change (p_pool p1) with P1. by rewrite Ht1, lookup_insert_eq. }
  eapply gspec_mono; [apply (markDirty_spec p1 d 0 _ Hp1 HP1 Hf1)| |done].
  intros u s' (P & c & -> & HP' & Hz & Ht). exists P, c. split; [done|]. split; [done|]. split; [done|].
  rewrite Ht. unfold touched. rewrite Hf. change (p_pool p1) with P1. rewrite Ht1, insert_insert_eq. done.
Qed.

(** ** Fetching a page *)

(** The page is pinned in its frame; a page not yet resident was read, after a
    frame was found for it. *)
Definition fetched (p : dpager) (d : Disk) (n : Z) (t' : gmap Z Frame) (d' : Disk) : Prop :=
  (exists f, table (p_pool p) !! n = Some f /\ d' = d /\ t' = <[n := add_pins 1 f]> (table (p_pool p))) \/
  (table (p_pool p) !! n = None /\ exists t1 l, evicts p d t1 d' /\ l <> listNone /\
     let b := disk_page (p_pageSize p) (pg_data p d') n in
     t' = <[n := MkFrame n b 1 false (readPageLSN n b) l]> t1).

(** No frame can be had, or the page read is damaged. *)
Definition fetch_fails (p : dpager) (d : Disk) (n : Z) (e : pgErr) (s' : dpager * Disk) : Prop :=
  (e = PgPoolExhausted /\ lands p (table (p_pool p)) (p_hdr p) (p_nextLSN p) d s' /\ exhausted (p_pool s'.1)) \/
  (e = PgCorrupt /\ exists t1 d', evicts p d t1 d' /\ lands p t1 (p_hdr p) (p_nextLSN p) d' s' /\
     ~ readable (p_pageSize p) (p_checksum p) (pg_data p d') n).

Lemma evicts_ctr c p d t' d' : evicts (set_ctr c p) d t' d' -> evicts p d t' d'.
Proof.
  intros [|v H1 H2 H3 H4|v H1 H2 H3 H4 H5 H6]; [exact (ev_none p d)|exact (ev_clean p d v H1 H2 H3 H4)|].
  exact (ev_dirty p d v H1 H2 H3 H4 H5 H6).
Qed.

Lemma evicts_table p d t' d' n : evicts p d t' d' -> table (p_pool p) !! n = None -> t' !! n = None.
Proof.
  intros [|v|v] Hn; [done| |]; apply lookup_delete_None; by right.
Qed.

Lemma fetchLocked_spec p d n :
  pg_open p -> pool_ok (p_pageSize p) 0 (p_pool p) ->
  lent (p_pageSize p) (DbHeader.PageCount (p_hdr p)) (table (p_pool p)) (pg_data p d) ->
  0 <= n < DbHeader.PageCount (p_hdr p) ->
  gspec (fetchLocked n) (p, d)
    (fun _ s' => exists t' d', fetched p d n t' d' /\ lands p t' (p_hdr p) (p_nextLSN p) d' s')
    (fetch_fails p d n).
Proof.
  intros Hp HP HL Hn. pose proof (valid_size _ (pn_size _ Hp)) as [Hps _]. unfold fetchLocked. gsteps. rewrite (pn_closed _ Hp).
  unfold lookup_frame. destruct (table (p_pool p) !! n) as [f|] eqn:Hf; gsteps.
  - set (P1 := upd_frame n (add_pins 1) (p_pool p)).
    assert (HP1 : pool_ok (p_pageSize p) 0 P1).
    { apply pool_ok_upd; [done|]. intros g Hg. assert (Some f = Some g) as [= <-] by (rewrite <- Hf; exact Hg).
      destruct (po_frames _ _ _ HP _ _ Hf) as (H1 & H2 & H3 & H4). split; [|done].
      unfold frame_ok. cbn [PageID Buf pins add_pins]. split_and!; (done || lia). }
    exists (<[n := add_pins 1 f]> (table (p_pool p))), d. split; [left; by exists f|].
    pg_form. destruct (recordHit_ok _ _ _ n HP1) as [HP2 Ht2].
    split; [exact HP2|]. split.
    { change (freezeDirty (recordHit n P1) = freezeDirty (p_pool p)). unfold recordHit. destruct (table P1 !! n) as [g|]; [|done].
      by destruct (loc g). }
    etransitivity; [exact Ht2|]. exact (table_upd n (add_pins 1) (p_pool p) f Hf).
  - set (p1 := set_ctr _ p). assert (Hp1 : pg_open p1) by by destruct Hp.
    eapply gspec_mono; [apply (obtainFrameLocked_spec p1 d Hp1 HP)| |].
    2:{ intros e s' (-> & P & -> & HP' & Ht & Hz & Hex). left. split; [done|]. split; [|exact Hex].
        pg_form. split; [exact HP'|]. split; [exact Hz|exact Ht]. }
    intros f s' (P & c & d' & -> & HP' & Hdet & Hz & Hev). apply evicts_ctr in Hev. destruct Hdet as (F1 & F2 & F3 & F4).
    gsteps. set (p2 := set_pool P (set_ctr c p1)). assert (Hp2 : pg_open p2) by by destruct Hp.
    eapply gspec_mono; [apply (readPageInto_spec p2 d' n (Buf f) Hp2 F1 Hn)| |].
    2:{ intros e s' (-> & -> & Hr). gsteps. right. split; [done|]. exists (table P), d'. split; [exact Hev|]. split; [|exact Hr].
        pg_form. split; [|split; [exact Hz|done]]. exact (pool_ok_drop _ _ _ HP'). }
    intros b s' [-> Hb]. gsteps. set (f1 := set_dirty false _).
    change (p_pageSize p2) with (p_pageSize p) in Hb. change (pg_data p2 d') with (pg_data p d') in Hb.
    assert (HtN : table P !! n = None) by (eapply evicts_table; eauto).
    destruct (evicts_lent p d _ _ d' Hp HP HL Hev) as (HL' & _).
    assert (Hbl : blen b = p_pageSize p /\ bytes_ok b).
    { rewrite Hb. split; [apply blen_disk_page; lia|]. apply bytes_ok_disk_page, (ln_bytes _ _ _ _ HL'). }
    assert (HP3 : pool_ok (p_pageSize p) 0 (admitFrame f1 n P)).
    { destruct Hbl. apply admitFrame_ok; try done. cbn [pins f1 set_dirty set_lsn set_Buf]. lia. }
    destruct (table_admit f1 n P) as (l & Ht3 & Hl). set (P3 := admitFrame f1 n P) in *.
    assert (HP4 : pool_ok (p_pageSize p) 0 (upd_frame n (add_pins 1) P3)).
    { apply pool_ok_upd; [done|]. intros g. rewrite Ht3, lookup_insert_eq. intros [= <-]. split; [|done].
      unfold frame_ok. cbn [PageID Buf pins add_pins f1 set_dirty set_lsn set_Buf]. destruct Hbl. split_and!; (done || lia). }
    exists (<[n := MkFrame n b 1 false (readPageLSN n b) l]> (table P)), d'. split.
    { right. split; [exact Hf|]. exists (table P), l. split; [exact Hev|]. split; [done|]. cbn zeta. by rewrite <- Hb. }
    pg_form. split; [exact HP4|]. split.
    { change (freezeDirty P3 = freezeDirty (p_pool p)). etransitivity; [|exact Hz]. unfold P3, admitFrame. by case_decide. }
    change (table (upd_frame n (add_pins 1) P3) = <[n:=MkFrame n b 1 false (readPageLSN n b) l]> (table P)).
    rewrite (table_upd n (add_pins 1) P3 (MkFrame n b 0 false (readPageLSN n b) l)).
    + by rewrite Ht3, insert_insert_eq.
    + rewrite Ht3, lookup_insert_eq. by cbn; rewrite F3.
Qed.

(** ** What callers see *)

Definition pins_of (t : gmap Z Frame) (n : Z) : nat := match t !! n with Some f => Z.to_nat (pins f) | None => 0%nat end.

Lemma evicts_pins p d t' d' n : evicts p d t' d' -> pins_of t' n = pins_of (table (p_pool p)) n.
Proof.
  assert (Hv : forall v, table (p_pool p) !! PageID v = Some v -> pins v = 0 ->
    pins_of (delete (PageID v) (table (p_pool p))) n = pins_of (table (p_pool p)) n).
  { intros v Hv Hp. unfold pins_of. destruct (decide (n = PageID v)) as [->|Hne].
    - by rewrite lookup_delete_eq, Hv, Hp.
    - by rewrite lookup_delete_ne. }
  intros []; auto.
Qed.

(** Changes to one resident page keep the rest. *)
Lemma lent_insert ps count t b n f g :
  lent ps count t b -> t !! n = Some f -> (dirty g = false -> dirty f = false /\ Buf g = Buf f) -> loc g = loc f ->
  lent ps count (<[n := g]> t) b.
Proof.
  intros [L1 L2 L3 L4 L5] Hf Hg Hl. constructor; try done.
  - intros m x Hm Hd. apply lookup_insert_Some in Hm as [[<- <-]|[_ Hm]]; [|by apply L1].
    destruct (Hg Hd) as [H1 ->]. by apply L1.
  - intros m Hm. apply lookup_insert_is_Some' in Hm as [<-|Hm]; [|by apply L2]. apply L2. by eexists.
  - destruct L3 as (f0 & Hf0 & Hl0). destruct (decide (n = 0)) as [->|Hne].
    + exists g. rewrite lookup_insert_eq. split; [done|]. congruence.
    + exists f0. by rewrite lookup_insert_ne.
Qed.

Lemma page_at_insert ps t b n g m :
  page_at ps (<[n := g]> t) b m = if decide (m = n) then Buf g else page_at ps t b m.
Proof.
  unfold page_at. case_decide as E; [subst; by rewrite lookup_insert_eq|]. by rewrite lookup_insert_ne.
Qed.

Lemma pins_insert t n g m : pins_of (<[n := g]> t) m = if decide (m = n) then Z.to_nat (pins g) else pins_of t m.
Proof. unfold pins_of. case_decide as E; [subst; by rewrite lookup_insert_eq|]. by rewrite lookup_insert_ne. Qed.

(** A page that comes in, clean or to be written. *)
Lemma lent_admit ps count t b n g :
  lent ps count t b -> t !! n = None -> 0 <= n < count -> (dirty g = false -> Buf g = disk_page ps b n) ->
  lent ps count (<[n := g]> t) b.
Proof.
  intros [L1 L2 L3 L4 L5] Hn Hr Hg. constructor; try done.
  - intros m x Hm Hd. apply lookup_insert_Some in Hm as [[<- <-]|[_ Hm]]; [by apply Hg|by apply L1].
  - intros m Hm. apply lookup_insert_is_Some' in Hm as [<-|Hm]; [done|by apply L2].
  - destruct L3 as (f0 & Hf0 & Hl0). exists f0. rewrite lookup_insert_ne; [done|]. intros ->. congruence.
Qed.

Lemma lent_mono ps c c' t b : lent ps c t b -> c <= c' -> lent ps c' t b.
Proof. intros [L1 L2 L3 L4 L5] H. constructor; try done. intros n Hn. specialize (L2 n Hn). lia. Qed.

(** A fetched page is pinned once more; its frame holds what the caller saw, and
    nobody sees a change. *)
Lemma fetched_lent p d n t' d' count :
  pg_open p -> pool_ok (p_pageSize p) 0 (p_pool p) -> lent (p_pageSize p) count (table (p_pool p)) (pg_data p d) ->
  0 <= n < count -> fetched p d n t' d' ->
  lent (p_pageSize p) count t' (pg_data p d') /\
  (forall m, 0 <= m -> page_at (p_pageSize p) t' (pg_data p d') m = page_at (p_pageSize p) (table (p_pool p)) (pg_data p d) m) /\
  (exists f, t' !! n = Some f /\ Buf f = page_at (p_pageSize p) (table (p_pool p)) (pg_data p d) n /\ 0 < pins f) /\
  (forall m, pins_of t' m = ((if decide (m = n) then 1 else 0) + pins_of (table (p_pool p)) m)%nat) /\
  (forall path, path <> p_path p -> disk_file path d' = disk_file path d).
Proof.
  intros Hp HP HL Hn [(f & Hf & -> & ->)|(HN & t1 & l & He & Hl & ->)].
  - destruct (po_frames _ _ _ HP _ _ Hf) as (_ & _ & _ & Hpin). split; [by eapply lent_insert|]. split.
    { intros m _. rewrite page_at_insert. case_decide as E; [|done]. subst. unfold page_at. by rewrite Hf. }
    split; [|split; [|done]].
    + exists (add_pins 1 f). rewrite lookup_insert_eq. split; [done|]. split; [unfold page_at; by rewrite Hf|]. cbn. lia.
    + intros m. rewrite pins_insert. case_decide as E; [subst|done]. unfold pins_of. rewrite Hf. cbn [pins add_pins]. lia.
  - destruct (evicts_lent p d count t1 d' Hp HP HL He) as (HL1 & Hv1 & _ & _ & Ho).
    pose proof (evicts_table _ _ _ _ n He HN) as HN1. split; [by apply lent_admit|].
    assert (Hpg : disk_page (p_pageSize p) (pg_data p d') n = page_at (p_pageSize p) (table (p_pool p)) (pg_data p d) n).
    { rewrite <- Hv1 by lia. unfold page_at. by rewrite HN1. }
    split; [|split_and!; [| |done]].
    + intros m Hm. rewrite page_at_insert. case_decide as E; [by subst|]. by apply Hv1.
    + eexists. rewrite lookup_insert_eq. split; [done|]. split; [exact Hpg|]. cbn. lia.
    + intros m. rewrite pins_insert. case_decide as E; [subst|by apply (evicts_pins p d t1 d')].
      unfold pins_of. rewrite HN. done.
Qed.

(** ** The freelist *)

Inductive chain (view : Z -> bytes) : Z -> list Z -> Prop :=
| chain_nil : chain view NullPage []
| chain_cons n l : n <> NullPage -> chain view (freelist_next (view n)) l -> chain view n (n :: l).

Fixpoint free_walk (k : nat) (root : Z) (view : Z -> bytes) : list Z :=
  match k with
  | O => []
  | S k' => if root =? NullPage then [] else root :: free_walk k' (freelist_next (view root)) view
  end.

Lemma chain_root view root l :
  chain view root l -> root <> NullPage -> exists l', l = root :: l' /\ chain view (freelist_next (view root)) l'.
Proof. intros [|n l' Hn H] Hr; [done|]. by exists l'. Qed.

Lemma chain_walk view root l k : chain view root l -> (length l <= k)%nat -> free_walk k root view = l.
Proof.
  intros H. revert k. induction H as [|n l Hn H IH]; intros k Hk; [by destruct k|].
  destruct k as [|k]; cbn [length] in Hk; [lia|]. cbn [free_walk]. rewrite (proj2 (Z.eqb_neq _ _)) by done. f_equal. apply IH. lia.
Qed.

Lemma chain_ext view view' root l : chain view root l -> (forall n, n ∈ l -> view' n = view n) -> chain view' root l.
Proof.
  induction 1 as [|n l Hn H IH]; intros Hv; [constructor|]. constructor; [done|]. rewrite Hv by (by left).
  apply IH. intros m Hm. apply Hv. by right.
Qed.

Lemma NoDup_range_length (l : list Z) c : NoDup l -> Forall (fun n => 0 < n < c) l -> (length l <= Z.to_nat c)%nat.
Proof.
  intros Hn Hl. assert (Hs : l ⊆ seqZ 0 c).
  { intros x Hx. rewrite Forall_forall in Hl. apply elem_of_seqZ. specialize (Hl x Hx). lia. }
  pose proof (submseteq_length l (seqZ 0 c)) as H. rewrite length_seqZ in H. apply H. by apply NoDup_submseteq.
Qed.

(** ** The invariant *)

Definition view (s : dpager * Disk) (n : Z) : bytes :=
  page_at (p_pageSize s.1) (table (p_pool s.1)) (pg_data s.1 s.2) n.
Definition count (s : dpager * Disk) : Z := DbHeader.PageCount (p_hdr s.1).

(** What never changes while the pager is open. *)
Definition pg_conf (s : dpager * Disk) : Z * Z := (p_pageSize s.1, p_checksum s.1).

(** The freelist is a chain through distinct pages of the file. *)
Definition freelist (s : dpager * Disk) (l : list Z) : Prop :=
  chain (view s) (FreelistRoot (p_hdr s.1)) l /\ NoDup l /\ Forall (fun n => 0 < n < count s) l /\
  FreelistPageCount (p_hdr s.1) = blen l.

Record pager_inv (s : dpager * Disk) : Prop := PagerInv {
  pi_open : pg_open s.1;
  pi_pool : pool_ok (p_pageSize s.1) 0 (p_pool s.1);
  pi_hdr : hdr_fits s.1 (p_hdr s.1);
  pi_count : 1 <= count s <= NullPage;
  pi_lent : lent (p_pageSize s.1) (count s) (table (p_pool s.1)) (pg_data s.1 s.2);
  pi_free : exists l, freelist s l
}.

(** The pages in use. *)
Definition live (s : dpager * Disk) : gset Z :=
  list_to_set (seqZ 1 (count s - 1)) ∖ list_to_set (free_walk (Z.to_nat (count s)) (FreelistRoot (p_hdr s.1)) (view s)).

Lemma live_spec s l n : freelist s l -> n ∈ live s <-> 0 < n < count s /\ n ∉ l.
Proof.
  intros (Hc & Hn & Hl & _). unfold live. rewrite (chain_walk _ _ l) by (by apply NoDup_range_length || done).
  rewrite elem_of_difference, !elem_of_list_to_set, elem_of_seqZ. split; intros []; (split; [lia|done]).
Qed.

(** A state a method lands in, from its table, its header and its freelist. *)
Lemma lands_inv p t h l d' s' fl :
  pg_open p -> hdr_fits p h -> 1 <= DbHeader.PageCount h <= NullPage ->
  lent (p_pageSize p) (DbHeader.PageCount h) t (pg_data p d') ->
  chain (page_at (p_pageSize p) t (pg_data p d')) (FreelistRoot h) fl -> NoDup fl ->
  Forall (fun n => 0 < n < DbHeader.PageCount h) fl -> FreelistPageCount h = blen fl ->
  lands p t h l d' s' -> pager_inv s' /\ freelist s' fl /\ pg_conf s' = (p_pageSize p, p_checksum p) /\
    (forall n, view s' n = page_at (p_pageSize p) t (pg_data p d') n) /\
    (forall n, pins_of (table (p_pool s'.1)) n = pins_of t n) /\ count s' = DbHeader.PageCount h.
Proof.
  intros Hp Hh Hc HL H1 H2 H3 H4 (P & c & -> & HP & Hz & <-).
  assert (Hfl : freelist (pgw P c h l p, d') fl) by done.
  split; [|done]. constructor; try done; [by apply pg_open_pgw|by exists fl].
Qed.

Lemma page_at_frame ps t b n f : t !! n = Some f -> page_at ps t b n = Buf f.
Proof. unfold page_at. by intros ->. Qed.

(** Touching the header changes page 0 alone. *)
Lemma touched_lent ps c l h t b :
  lent ps c t b ->
  lent ps c (touched ps l h t) b /\
  (forall n, n <> 0 -> touched ps l h t !! n = t !! n) /\
  (forall n, pins_of (touched ps l h t) n = pins_of t n) /\ is_Some (touched ps l h t !! 0).
Proof.
  intros HL. destruct (ln_zero _ _ _ _ HL) as (f0 & Hf0 & Hl0). unfold touched. rewrite Hf0. split; [by eapply lent_insert|].
  split; [|split].
  - intros n Hn. by rewrite lookup_insert_ne.
  - intros n. rewrite pins_insert. case_decide as E; [|done]. subst. unfold pins_of. by rewrite Hf0.
  - rewrite lookup_insert_eq. by eexists.
Qed.

Lemma touched_page ps c l h t b n : lent ps c t b -> n <> 0 -> page_at ps (touched ps l h t) b n = page_at ps t b n.
Proof. intros HL Hn. unfold page_at. by rewrite (proj1 (proj2 (touched_lent ps c l h t b HL))). Qed.

(** ** Pins and writes *)

Lemma Unpin_spec p (d : Disk) n f :
  pool_ok (p_pageSize p) 0 (p_pool p) -> table (p_pool p) !! n = Some f -> 0 < pins f ->
  gspec (Unpin n) (p, d) (fun _ => lands p (<[n := add_pins (-1) f]> (table (p_pool p))) (p_hdr p) (p_nextLSN p) d) (fun _ _ => False).
Proof.
  intros HP Hf Hpin. unfold Unpin. gsteps. pg_form.
  destruct (po_frames _ _ _ HP _ _ Hf) as (H1 & H2 & H3 & H4). split; [|split; [done|]].
  - apply pool_ok_upd; [done|]. intros g Hg. assert (Some f = Some g) as [= <-] by (rewrite <- Hf; exact Hg).
    split; [|done]. split_and!; (done || (cbn; lia)).
  - exact (table_upd n (add_pins (-1)) (p_pool p) f Hf).
Qed.

(** A caller writes a pinned page and marks it. *)
Lemma update_spec p (d : Disk) n b f :
  pg_open p -> pool_ok (p_pageSize p) 0 (p_pool p) -> table (p_pool p) !! n = Some f -> blen b = p_pageSize p -> bytes_ok b ->
  let l := u64 (p_nextLSN p + 1) in
  gspec (on_pool (upd_frame n (set_Buf b)) ;;* markDirtyLocked n) (p, d)
    (fun _ => lands p (<[n := marked n l (set_Buf b f)]> (table (p_pool p))) (p_hdr p) l d) (fun _ _ => False).
Proof.
  intros Hp HP Hf Hb Hok l. gsteps. set (p1 := set_pool _ p).
  assert (Ht : table (p_pool p1) = <[n := set_Buf b f]> (table (p_pool p))) by exact (table_upd n (set_Buf b) (p_pool p) f Hf).
  destruct (po_frames _ _ _ HP _ _ Hf) as (H1 & H2 & H3 & H4).
  assert (HP1 : pool_ok (p_pageSize p1) 0 (p_pool p1)).
  { apply pool_ok_upd; [done|]. intros g Hg. assert (Some f = Some g) as [= <-] by (rewrite <- Hf; exact Hg). done. }
  assert (Hp1 : pg_open p1) by by destruct Hp.
  assert (Hf1 : table (p_pool p1) !! n = Some (set_Buf b f)) by by rewrite Ht, lookup_insert_eq.
  eapply gspec_mono; [apply (markDirty_spec p1 d n _ Hp1 HP1 Hf1)| |done].
  intros u s' (P & c & -> & HP' & Hz & Ht'). exists P, c. split; [done|]. split; [done|]. split; [done|].
  by rewrite Ht', Ht, insert_insert_eq.
Qed.

(** ** Allocating and freeing *)

Definition zeroed (f : Frame) : Frame := set_Buf (replicate (length (Buf f)) 0) f.

Lemma zeroed_ok ps n f : frame_ok ps n f -> frame_ok ps n (zeroed f).
Proof.
  intros (H1 & H2 & H3 & H4). unfold frame_ok, zeroed, blen in *. cbn [PageID Buf pins set_Buf]. rewrite length_replicate.
  split_and!; try done. apply Forall_replicate. unfold byte_ok. lia.
Qed.

Definition next_lsn (p : dpager) : Z := u64 (p_nextLSN p + 1).

Lemma hdr_fits_freelist p root c h : hdr_fits p h -> in_u 32 root -> in_u 32 c -> hdr_fits p (set_freelist root c h).
Proof.
  intros (Hh & H1 & H2 & H3) Hr Hc. split; [|done]. unfold DbHeader.header_ok, set_freelist, with_counters in *. cbn. tauto.
Qed.

Lemma hdr_fits_count p c h : hdr_fits p h -> in_u 32 c -> hdr_fits p (set_PageCount c h).
Proof.
  intros (Hh & H1 & H2 & H3) Hc. split; [|done]. unfold DbHeader.header_ok, set_PageCount, with_counters in *. cbn. tauto.
Qed.

Lemma freelist_next_u32 b : bytes_ok b -> blen b >= 36 -> in_u 32 (freelist_next b).
Proof.
  intros Hb Hl. unfold freelist_next. pose proof (le_val_bound (sub (Z.to_nat freelistNextOffset) 4 b)) as H.
  unfold blen in H at 1. rewrite length_sub in H; [by apply H, sub_Forall|].
  unfold freelistNextOffset, PageHeaderSize, blen in *. lia.
Qed.

Definition popped (ps : Z) (h : DbHeader.Header) (t : gmap Z Frame) (b : bytes) : DbHeader.Header :=
  set_freelist (freelist_next (page_at ps t b (FreelistRoot h))) (FreelistPageCount h - 1) h.

Lemma allocateFromFreelist_spec p d :
  let n := FreelistRoot (p_hdr p) in let l1 := next_lsn p in let l2 := u64 (l1 + 1) in
  let h1 := popped (p_pageSize p) (p_hdr p) (table (p_pool p)) (pg_data p d) in
  pg_open p -> pool_ok (p_pageSize p) 0 (p_pool p) -> hdr_fits p (p_hdr p) ->
  lent (p_pageSize p) (DbHeader.PageCount (p_hdr p)) (table (p_pool p)) (pg_data p d) ->
  0 <= n < DbHeader.PageCount (p_hdr p) -> 0 < FreelistPageCount (p_hdr p) ->
  gspec allocateFromFreelist (p, d)
    (fun m s' => m = n /\ exists t1 d' f, fetched p d n t1 d' /\ t1 !! n = Some f /\
       lands p (touched (p_pageSize p) l2 h1 (<[n := marked n l1 (zeroed f)]> t1)) (bump_changes h1) l2 d' s')
    (fetch_fails p d n).
Proof.
  intros n l1 l2 h1 Hp HP Hh HL Hn Hc. unfold allocateFromFreelist. gsteps. fold n.
  eapply gspec_mono; [apply (fetchLocked_spec p d n Hp HP HL Hn)| |done].
  intros u s1 (t1 & d1 & Hf & (P & c & -> & HP1 & Hz & Ht1)). gsteps.
  destruct (fetched_lent p d n t1 d1 _ Hp HP HL Hn Hf) as (HL1 & _ & (f & Hf1 & Hbuf & Hpin) & _).
  apply gspec_frame with (f := f); [change (table P !! n = Some f); by rewrite Ht1|]. gsteps.
  set (p1 := pgw P c (p_hdr p) (p_nextLSN p) p).
  cbn [p_hdr set_hdr set_freelist with_counters FreelistPageCount FreelistRoot p1 pgw set_pool set_ctr set_nextLSN].
  assert (Hgt : (FreelistPageCount (p_hdr p) >? 0) = true) by lia. rewrite Hgt.
  unfold zero_frame. gsteps. set (p2 := set_pool _ _).
  set (t2 := <[n := zeroed f]> t1).
  assert (Hff : frame_ok (p_pageSize p) n f) by (apply (po_frames _ _ _ HP1); by rewrite Ht1).
  assert (Ht2 : table (p_pool p2) = t2).
  { unfold t2. rewrite <- Ht1. exact (table_upd n zeroed P f ltac:(by rewrite Ht1)). }
  assert (HP2 : pool_ok (p_pageSize p2) 0 (p_pool p2)).
  { apply pool_ok_upd; [exact HP1|]. intros g Hg. assert (Some f = Some g) as [= <-] by (rewrite <- Hf1, <- Ht1; exact Hg).
    split; [by apply zeroed_ok|done]. }
  assert (Hp2 : pg_open p2) by by destruct Hp.
  assert (Hf2 : table (p_pool p2) !! n = Some (zeroed f)) by (rewrite Ht2; apply lookup_insert_eq).
  eapply gspec_mono; [apply (markDirty_spec p2 d1 n _ Hp2 HP2 Hf2)| |done].
  intros u2 s3 (P3 & c3 & -> & HP3 & Hz3 & Ht3). gsteps.
  set (p3 := pgw P3 c3 _ _ p2). assert (Hp3 : pg_open p3) by by destruct Hp.
  assert (Hh1 : p_hdr p3 = h1).
  { change (set_freelist (freelist_next (Buf f)) (FreelistPageCount (p_hdr p) - 1) (p_hdr p) = h1). unfold h1, popped. by rewrite Hbuf. }
  assert (Hb1 : bytes_ok (Buf f) /\ blen (Buf f) = p_pageSize p) by (by destruct Hff as (_ & ? & ? & _)).
  pose proof (valid_size _ (pn_size _ Hp)) as [Hps _].
  assert (Hc32 : in_u 32 (FreelistPageCount (p_hdr p))) by (destruct Hh as [Hh _]; unfold DbHeader.header_ok in Hh; tauto).
  assert (Hh3 : hdr_fits p3 (p_hdr p3)).
  { rewrite Hh1. apply (hdr_fits_freelist p); [done| |unfold in_u in *; lia].
    change (in_u 32 (freelist_next (page_at (p_pageSize p) (table (p_pool p)) (pg_data p d) n))). rewrite <- Hbuf. apply freelist_next_u32; [apply Hb1|lia]. }
  assert (H03 : is_Some (table (p_pool p3) !! 0)).
  { change (is_Some (table P3 !! 0)). rewrite Ht3, Ht2. destruct (ln_zero _ _ _ _ HL1) as (f0 & Hf0 & _).
    unfold t2. rewrite insert_insert_eq. apply lookup_insert_is_Some'. right. by eexists. }
  eapply gspec_mono; [apply (touchHeader_spec p3 d1 Hp3 HP3 H03 Hh3)| |done].
  intros u4 s4 (P4 & c4 & -> & HP4 & Hz4 & Ht4). gsteps. split; [done|]. exists t1, d1, f. split; [done|]. split; [done|].
  exists P4, c4. split; [by rewrite <- Hh1|]. split; [done|]. split.
  { etransitivity; [exact Hz4|]. etransitivity; [exact Hz3|]. exact Hz. }
  rewrite Ht4. change (p_pageSize p3) with (p_pageSize p). rewrite Hh1. change (table (p_pool p3)) with (table P3).
  rewrite Ht3, Ht2. unfold t2. rewrite insert_insert_eq. done.
Qed.

(** The pager after the header was bumped for one more page. *)
Definition grown (h : DbHeader.Header) : DbHeader.Header := set_PageCount (u32 (DbHeader.PageCount h + 1)) h.
Definition ungrown (h : DbHeader.Header) : DbHeader.Header := set_PageCount (u32 (DbHeader.PageCount h - 1)) h.

Lemma pool_table0 p d count :
  lent (p_pageSize p) count (table (p_pool p)) (pg_data p d) -> is_Some (table (p_pool p) !! 0).
Proof. intros HL. destruct (ln_zero _ _ _ _ HL) as (f & Hf & _). by eexists. Qed.

Lemma allocateByGrowing_spec p d :
  let n := DbHeader.PageCount (p_hdr p) in let h1 := grown (p_hdr p) in
  let l1 := next_lsn p in let l2 := u64 (l1 + 1) in
  let ps := p_pageSize p in let t0 := touched ps l1 h1 (table (p_pool p)) in
  pg_open p -> pool_ok ps 0 (p_pool p) -> hdr_fits p (p_hdr p) -> lent ps n (table (p_pool p)) (pg_data p d) ->
  1 <= n < NullPage ->
  gspec allocateByGrowing (p, d)
    (fun m s' => m = n /\ exists p1 t1 d' l, lands p t0 (bump_changes h1) l1 d (p1, d) /\ evicts p1 d t1 d' /\
       t1 !! n = None /\ l <> listNone /\
       lands p (<[n := marked n l2 (MkFrame n (replicate (Z.to_nat ps) 0) 1 false 0 l)]> t1) (bump_changes h1) l2 d' s')
    (fun e s' => e = PgPoolExhausted /\ let h2 := ungrown (bump_changes h1) in
       lands p (touched ps l2 h2 t0) (bump_changes h2) l2 d s').
Proof.
  intros n h1 l1 l2 ps t0 Hp HP Hh HL Hn. pose proof (valid_size _ (pn_size _ Hp)) as [Hps _]. unfold allocateByGrowing. gsteps.
  set (p0 := set_hdr _ p). assert (Hp0 : pg_open p0) by by destruct Hp.
  assert (Hh0 : hdr_fits p0 (p_hdr p0)) by (apply (hdr_fits_count p); [done|apply wrap_in_u; lia]).
  eapply gspec_mono; [apply (touchHeader_spec p0 d Hp0 HP (pool_table0 _ _ _ HL) Hh0)| |done].
  intros u s1 (P1 & c1 & -> & HP1 & Hz1 & Ht1). gsteps. set (p1 := pgw P1 c1 _ _ p0).
  change (p_pageSize p0) with ps in Ht1. change (table P1 = t0) in Ht1.
  assert (Hp1 : pg_open p1) by by destruct Hp.
  assert (Hl1 : lands p t0 (bump_changes h1) l1 d (p1, d)) by (exists P1, c1; done).
  destruct (touched_lent ps n l1 h1 (table (p_pool p)) (pg_data p d) HL) as (HL0 & Hne0 & _ & H00).
  assert (Hnone : table (p_pool p) !! n = None).
  { apply eq_None_not_Some. intros Hx. apply (ln_range _ _ _ _ HL) in Hx. lia. }
  eapply gspec_mono; [apply (obtainFrameLocked_spec p1 d Hp1 HP1)| |].
  - intros f s2 (P2 & c2 & d2 & -> & HP2 & (F1 & F2 & F3 & F4) & Hz2 & Hev). gsteps.
    assert (Hn2 : table P2 !! n = None).
    { eapply evicts_table; [exact Hev|]. change (table (p_pool p1)) with (table P1). rewrite Ht1. unfold t0. rewrite Hne0 by lia; exact Hnone. }
    set (f1 := set_Buf _ f).
    assert (HP3 : pool_ok ps 0 (admitFrame f1 n P2)).
    { apply admitFrame_ok; try done; cbn [Buf f1 set_Buf pins].
      - unfold blen in *. by rewrite length_replicate.
      - apply Forall_replicate. unfold byte_ok. lia.
      - lia. }
    destruct (table_admit f1 n P2) as (l & Ht3 & Hl). set (P3 := admitFrame f1 n P2) in *.
    set (g := MkFrame n (replicate (Z.to_nat ps) 0) 1 false (pageLSN f) l).
    assert (Hbuf : Buf f1 = replicate (Z.to_nat ps) 0).
    { cbn [f1 Buf set_Buf]. f_equal. unfold blen in F1. fold ps in F1. change (p_pageSize p1) with ps in F1. lia. }
    assert (Hf3 : table P3 !! n = Some (MkFrame n (Buf f1) 0 false (pageLSN f) l)).
    { rewrite Ht3, lookup_insert_eq. cbn [f1 set_Buf pins dirty pageLSN]. by rewrite F3, F4. }
    assert (Ht4 : table (upd_frame n (add_pins 1) P3) = <[n := g]> (table P2)).
    { rewrite (table_upd n (add_pins 1) P3 _ Hf3), Ht3, insert_insert_eq. unfold g, add_pins. cbn [PageID Buf pins dirty pageLSN loc]. by rewrite Hbuf. }
    assert (HP4 : pool_ok ps 0 (upd_frame n (add_pins 1) P3)).
    { apply pool_ok_upd; [done|]. intros x Hx. rewrite Hf3 in Hx. injection Hx as <-. split; [|done].
      destruct (po_frames _ _ _ HP3 _ _ Hf3) as (_ & G2 & G3 & G4). by split_and!. }
    match goal with |- gspec _ (?q, _) _ _ => set (p4 := q) end. assert (Hp4 : pg_open p4) by by destruct Hp.
    assert (Hf4 : table (p_pool p4) !! n = Some g).
    { change (table (upd_frame n (add_pins 1) P3) !! n = Some g). by rewrite Ht4, lookup_insert_eq. }
    eapply gspec_mono; [apply (markDirty_spec p4 d2 n g Hp4 HP4 Hf4)| |done].
    intros u5 s5 (P5 & c5 & -> & HP5 & Hz5 & Ht5). gsteps. split; [done|]. exists p1, (table P2), d2, l.
    split; [done|]. split; [done|]. split; [done|]. split; [done|]. exists P5, c5. split; [done|]. split; [done|]. split.
    { etransitivity; [exact Hz5|]. change (freezeDirty P3 = freezeDirty (p_pool p)).
      transitivity (freezeDirty P2); [unfold P3, admitFrame; by case_decide|]. etransitivity; [exact Hz2|]. exact Hz1. }
    rewrite Ht5. change (table (p_pool p4)) with (table (upd_frame n (add_pins 1) P3)). rewrite Ht4, insert_insert_eq. done.
  - intros e s2 (-> & P2 & -> & HP2 & Ht2 & Hz2 & Hex). gsteps. match goal with |- gspec _ (?q, _) _ _ => set (p2 := q) end.
    assert (Hp2 : pg_open p2) by by destruct Hp.
    assert (Hh2 : hdr_fits p2 (p_hdr p2)).
    { apply (hdr_fits_count p); [apply hdr_fits_bump, Hh0|apply wrap_in_u; lia]. }
    assert (H02 : is_Some (table (p_pool p2) !! 0)).
    { change (is_Some (table P2 !! 0)). rewrite Ht2. change (table (p_pool p1)) with (table P1). by rewrite Ht1. }
    eapply gspec_mono; [apply (touchHeader_spec p2 d Hp2 HP2 H02 Hh2)| |done].
    intros u3 s3 (P3 & c3 & -> & HP3 & Hz3 & Ht3). gsteps. split; [done|]. exists P3, c3. split; [done|]. split; [done|]. split.
    { etransitivity; [exact Hz3|]. etransitivity; [exact Hz2|]. exact Hz1. }
    rewrite Ht3. change (table (p_pool p2)) with (table P2). rewrite Ht2. change (table (p_pool p1)) with (table P1). rewrite Ht1. done.
Qed.
