(* ===== verification/PagerLaws.v ===== *)
(** * pager/pager.go: the pager keeps its promises

    On a disk the pager satisfies the laws the layers above it rely on: a page
    fetched is the page last written, whatever left the pool in between, and
    Allocate hands out pages that nobody uses. *)

From S2P Require Import Prelude Checksum Page Vfs Disk Wal DbHeader PageStore Pool Pager PagerInv.

#[local] Open Scope Z_scope.
#[local] Open Scope pg_scope.

Definition pg_size_of (s : dpager * Disk) : Z := p_pageSize s.1.

(** What a method does that changes no page in use but n. *)
Record keeps (n : Z) (s s' : dpager * Disk) : Prop := Keeps {
  ks_inv : pager_inv s';
  ks_size : pg_conf s' = pg_conf s;
  ks_live : live s' = live s;
  ks_count : count s' = count s;
  ks_view : forall m, 0 <= m -> m <> n -> view s' m = view s m
}.

Lemma inv_keeps n p d t l d' s' :
  pager_inv (p, d) -> lent (p_pageSize p) (count (p, d)) t (pg_data p d') ->
  (forall m, 0 <= m -> m <> n -> page_at (p_pageSize p) t (pg_data p d') m = view (p, d) m) ->
  (0 <= n -> n ∈ live (p, d) \/ page_at (p_pageSize p) t (pg_data p d') n = view (p, d) n) ->
  lands p t (p_hdr p) l d' s' ->
  keeps n (p, d) s' /\ (forall m, view s' m = page_at (p_pageSize p) t (pg_data p d') m) /\
  (forall m, pins_of (table (p_pool s'.1)) m = pins_of t m).
Proof.
  intros [Hop Hpo Hh Hc HL (fl & Hfl)] HL' Hv Hn Hlands. pose proof Hfl as (F1 & F2 & F3 & F4).
  assert (Hch : chain (page_at (p_pageSize p) t (pg_data p d')) (FreelistRoot (p_hdr p)) fl).
  { eapply chain_ext; [exact F1|]. intros m Hm. rewrite Forall_forall in F3. specialize (F3 m Hm).
    destruct (decide (m = n)) as [->|Hne]; [|apply Hv; (done || lia)].
    destruct Hn as [Hn|Hn]; [lia| |done]. by apply (live_spec _ fl) in Hn as [_ Hn]. }
  destruct (lands_inv p t (p_hdr p) l d' s' fl Hop Hh Hc HL' Hch F2 F3 F4 Hlands) as (I1 & Hfl' & I2 & I3 & I4 & I5).
  split; [|done]. constructor; try done.
  - apply set_eq. intros m. rewrite (live_spec _ fl), (live_spec _ fl) by done. by rewrite I5.
  - intros m Hm Hne. rewrite I3. by apply Hv.
Qed.

Lemma fail_keeps p d n e s' :
  pager_inv (p, d) -> fetch_fails p d n e s' ->
  (e = PgPoolExhausted \/ e = PgCorrupt) /\ (forall k, keeps k (p, d) s') /\
  (forall m, pins_of (table (p_pool s'.1)) m = pins_of (table (p_pool p)) m).
Proof.
  intros Hi. destruct (Hi) as [Hop Hpo Hh Hc HL Hfr]. intros [(-> & Hl & _)|(-> & t1 & d1 & He & Hl & _)].
  - assert (Hk : forall k, keeps k (p, d) s' /\ (forall m, view s' m = view (p, d) m) /\
        (forall m, pins_of (table (p_pool s'.1)) m = pins_of (table (p_pool p)) m))
        by (intros k; eapply inv_keeps; [done|done|done|by right|exact Hl]).
    split; [by left|]. split; [intros k; apply Hk|apply (Hk 0)].
  - destruct (evicts_lent p d _ t1 d1 Hop Hpo HL He) as (HL1 & Hv1 & _).
    assert (Hk : forall k, keeps k (p, d) s' /\ (forall m, view s' m = page_at (p_pageSize p) t1 (pg_data p d1) m) /\
        (forall m, pins_of (table (p_pool s'.1)) m = pins_of t1 m)).
    { intros k. eapply inv_keeps; [done|done| | |exact Hl]; intros; [|right]; by apply Hv1. }
    split; [by right|]. split; [intros k; apply Hk|]. intros m. rewrite (proj2 (proj2 (Hk 0)) m). by apply (evicts_pins p d t1 d1).
Qed.

Lemma fetch_keeps s n :
  pager_inv s -> 0 <= n < count s ->
  gspec (with_buf (fetchLocked n) (fun _ => n)) s
    (fun r s' => r.2 = view s n /\ (forall k, keeps k s s') /\
       (forall m, pins_of (table (p_pool s'.1)) m = ((if decide (m = n) then 1 else 0) + pins_of (table (p_pool s.1)) m)%nat))
    (fun e s' => (e = PgPoolExhausted \/ e = PgCorrupt) /\ (forall k, keeps k s s') /\
       (forall m, pins_of (table (p_pool s'.1)) m = pins_of (table (p_pool s.1)) m)).
Proof.
  destruct s as [p d]. intros Hi Hn. destruct (Hi) as [Hop Hpo Hh Hc HL Hfr]. unfold with_buf. gsteps.
  eapply gspec_mono; [apply (fetchLocked_spec p d n Hop Hpo HL Hn)| |].
  - intros u s1 (t1 & d1 & Hf & Hl). gsteps.
    destruct (fetched_lent p d n t1 d1 _ Hop Hpo HL Hn Hf) as (HL1 & Hv1 & (f & Hf1 & Hbuf & _) & Hp1 & _).
    assert (Hk : forall k, keeps k (p, d) s1 /\ (forall m, view s1 m = page_at (p_pageSize p) t1 (pg_data p d1) m) /\
      (forall m, pins_of (table (p_pool s1.1)) m = pins_of t1 m)).
    { intros k. eapply inv_keeps; [done|done| | |exact Hl]; intros; [|right]; by apply Hv1. }
    destruct Hl as (P & c & -> & HP & Hz & Ht).
    apply gspec_frame with (f := f); [change (table P !! n = Some f); by rewrite Ht|]. gsteps.
    split; [exact Hbuf|]. split; [intros k; apply Hk|]. intros m. rewrite (proj2 (proj2 (Hk 0)) m). apply Hp1.
  - intros e s1. by apply fail_keeps.
Qed.

Lemma update_keeps s n b :
  pager_inv s -> n ∈ live s -> (0 < pins_of (table (p_pool s.1)) n)%nat -> blen b = pg_size_of s -> bytes_ok b ->
  gspec (on_pool (upd_frame n (set_Buf b)) ;;* markDirtyLocked n) s
    (fun _ s' => keeps n s s' /\ view s' n = stamp_lsn (next_lsn s.1) b /\
       (forall m, pins_of (table (p_pool s'.1)) m = pins_of (table (p_pool s.1)) m)) (fun _ _ => False).
Proof.
  destruct s as [p d]. intros Hi Hn Hpin Hb Hok. destruct (Hi) as [Hop Hpo Hh Hc HL (fl & Hfr)].
  cbn [fst] in *. destruct (table (p_pool p) !! n) as [f|] eqn:Hf; [|unfold pins_of in Hpin; rewrite Hf in Hpin; lia].
  apply (live_spec _ fl) in Hn as Hn'; [|done]. destruct Hn' as [Hr _].
  eapply gspec_mono; [apply (update_spec p d n b f Hop Hpo Hf Hb Hok)| |done].
  intros u s' Hl. set (g := marked n (u64 (p_nextLSN p + 1)) (set_Buf b f)) in *.
  assert (Hloc : loc g = loc f) by done.
  edestruct (inv_keeps n p d) as (K1 & K2 & K3);
    [exact Hi|exact (lent_insert _ _ _ _ n f g HL Hf ltac:(done) Hloc)| | |exact Hl|].
  - intros m _ Hne. rewrite page_at_insert. by rewrite decide_False.
  - by left.
  - split; [done|]. split.
    + rewrite K2, page_at_insert, decide_True by done. unfold g, marked. cbn [Buf set_Buf]. by rewrite (proj2 (Z.eqb_neq n 0)) by lia.
    + intros m. rewrite K3, pins_insert. case_decide as E; [subst|done]. unfold pins_of. by rewrite Hf.
Qed.

Lemma unpin_keeps s n :
  pager_inv s -> (0 < pins_of (table (p_pool s.1)) n)%nat ->
  gspec (Unpin n) s
    (fun _ s' => (forall k, keeps k s s') /\
       (forall m, pins_of (table (p_pool s'.1)) m = (pins_of (table (p_pool s.1)) m - if decide (m = n) then 1 else 0)%nat))
    (fun _ _ => False).
Proof.
  destruct s as [p d]. intros Hi Hpin. destruct (Hi) as [Hop Hpo Hh Hc HL Hfr]. cbn [fst] in *.
  destruct (table (p_pool p) !! n) as [f|] eqn:Hf; unfold pins_of in Hpin; rewrite Hf in Hpin; [|lia].
  eapply gspec_mono; [apply (Unpin_spec p d n f Hpo Hf); lia| |done].
  intros u s' Hl. assert (HL' : lent (p_pageSize p) (count (p, d)) (<[n := add_pins (-1) f]> (table (p_pool p))) (pg_data p d)) by by eapply lent_insert.
  assert (Hv : forall m, page_at (p_pageSize p) (<[n := add_pins (-1) f]> (table (p_pool p))) (pg_data p d) m = view (p, d) m).
  { intros m. rewrite page_at_insert. case_decide as E; [|done]. subst. unfold view, page_at. cbn [fst]. by rewrite Hf. }
  assert (Hk : forall k, keeps k (p, d) s' /\ (forall m, view s' m = view (p, d) m) /\
      (forall m, pins_of (table (p_pool s'.1)) m = pins_of (<[n := add_pins (-1) f]> (table (p_pool p))) m)).
  { intros k. edestruct (inv_keeps k p d) as (K1 & K2 & K3); [exact Hi|exact HL'|intros; by apply Hv|by right|exact Hl|].
    split; [done|]. split; [|done]. intros m. by rewrite K2. }
  split; [intros k; apply Hk|]. intros m. rewrite (proj2 (proj2 (Hk 0)) m), pins_insert. case_decide as E; [|lia].
  subst. unfold pins_of. rewrite Hf. cbn [pins add_pins]. lia.
Qed.

(** ** Allocation *)

(** A page nobody used is in use, and pinned; the others are as they were. *)
Definition allocates (s : dpager * Disk) (n : Z) (s' : dpager * Disk) : Prop :=
  pager_inv s' /\ pg_conf s' = pg_conf s /\ n ∉ live s /\ live s' = {[n]} ∪ live s /\
  count s <= count s' <= count s + 1 /\
  (forall m, m ∈ live s -> view s' m = view s m) /\
  (exists l, view s' n = stamp_lsn l (replicate (Z.to_nat (pg_size_of s)) 0)) /\
  (forall m, pins_of (table (p_pool s'.1)) m = ((if decide (m = n) then 1 else 0) + pins_of (table (p_pool s.1)) m)%nat).

(** What Allocate does when it fails: nothing a caller sees. *)
Definition refuses (s s' : dpager * Disk) : Prop :=
  pager_inv s' /\ pg_conf s' = pg_conf s /\ live s' = live s /\ count s' = count s /\
  (forall m, m <> 0 -> 0 <= m -> view s' m = view s m) /\
  (forall m, pins_of (table (p_pool s'.1)) m = pins_of (table (p_pool s.1)) m).

Lemma live_range s fl n : freelist s fl -> n ∈ live s -> 0 < n < count s.
Proof. intros H Hn. by apply (live_spec _ fl) in Hn as [? _]. Qed.

Lemma pop_allocates s :
  pager_inv s -> FreelistRoot (p_hdr s.1) <> NullPage ->
  gspec allocateFromFreelist s (fun n => allocates s n) (fun e s' => (e = PgPoolExhausted \/ e = PgCorrupt) /\ refuses s s').
Proof.
  destruct s as [p d]. intros Hi Hroot. destruct (Hi) as [Hop Hpo Hh Hc HL (fl0 & Hfl)]. cbn [fst] in *.
  pose proof Hfl as (F1 & F2 & F3 & F4). cbn [fst snd] in *. destruct (chain_root _ _ _ F1 Hroot) as (fl & -> & HF).
  set (n := FreelistRoot (p_hdr p)) in *. apply NoDup_cons in F2 as [Hnin F2]. apply Forall_cons in F3 as [Hrn F3].
  change (count (p, d)) with (DbHeader.PageCount (p_hdr p)) in *.
  assert (Hpos : 0 < FreelistPageCount (p_hdr p)) by (rewrite F4; unfold blen; cbn [length]; lia).
  pose proof (valid_size _ (pn_size _ Hop)) as [Hps _].
  eapply gspec_mono; [apply (allocateFromFreelist_spec p d Hop Hpo Hh HL ltac:(fold n; lia) Hpos)| |].
  - intros m s' (-> & t1 & d1 & f & Hf & Hf1 & Hl). fold n in Hf, Hf1, Hl |- *. set (h1 := popped _ _ _ _) in *.
    set (l1 := next_lsn p) in *. set (l2 := u64 (l1 + 1)) in *. set (g := marked n l1 (zeroed f)) in *.
    destruct (fetched_lent p d n t1 d1 _ Hop Hpo HL ltac:(lia) Hf) as (HL1 & Hv1 & (f' & Hf1' & Hbuf & Hpin) & Hp1 & _).
    assert (f' = f) as -> by congruence. clear Hf1'.
    assert (HL2 : lent (p_pageSize p) (DbHeader.PageCount (p_hdr p)) (<[n := g]> t1) (pg_data p d1)) by (by eapply lent_insert).
    destruct (touched_lent _ _ l2 h1 _ _ HL2) as (HL3 & Hne & Hpt & _). set (t3 := touched _ _ _ _) in *.
    assert (Hv3 : forall m, 0 <= m -> m <> 0 -> page_at (p_pageSize p) t3 (pg_data p d1) m =
      if decide (m = n) then Buf g else view (p, d) m).
    { intros m Hm Hm0. unfold t3. rewrite (touched_page _ _ _ _ _ _ _ HL2) by done. rewrite page_at_insert. case_decide; [done|]. by apply Hv1. }
    assert (Hff : blen (Buf f) = p_pageSize p /\ bytes_ok (Buf f)).
    { rewrite Hbuf. unfold page_at. destruct (table (p_pool p) !! n) as [x|] eqn:Hx.
      - by destruct (po_frames _ _ _ Hpo _ _ Hx) as (_ & ? & ? & _).
      - split; [apply blen_disk_page; lia|]. apply bytes_ok_disk_page, (ln_bytes _ _ _ _ HL). }
    assert (Hc32 : in_u 32 (FreelistPageCount (p_hdr p))) by (destruct Hh as [Hh _]; unfold DbHeader.header_ok in Hh; tauto).
    assert (Hh1 : hdr_fits p (bump_changes h1)).
    { apply hdr_fits_bump, hdr_fits_freelist; [done| |unfold in_u in *; lia]. fold n. rewrite <- Hbuf. apply freelist_next_u32; [apply Hff|lia]. }
    destruct (lands_inv p t3 (bump_changes h1) l2 d1 s' fl Hop Hh1 Hc HL3) as (I1 & I2 & I3 & I4 & I5 & I6); try done.
    { eapply chain_ext; [exact HF|]. intros m Hm. rewrite Forall_forall in F3. specialize (F3 m Hm).
      rewrite Hv3 by lia. rewrite decide_False; [done|]. by intros ->. }
    { change (FreelistPageCount (p_hdr p) - 1 = blen fl). rewrite F4. unfold blen. cbn [length]. lia. }
    assert (Hcnt : count s' = count (p, d)) by (by rewrite I6).
    assert (Hgn : Buf g = stamp_lsn l1 (replicate (Z.to_nat (p_pageSize p)) 0)).
    { unfold g, marked, zeroed. cbn [Buf set_Buf]. rewrite (proj2 (Z.eqb_neq n 0)) by lia. do 2 f_equal. destruct Hff as [Hb _]. unfold blen in Hb. lia. }
    unfold allocates. split; [done|]. split; [done|]. split.
    { rewrite (live_spec _ _ _ Hfl). intros [_ Hx]. apply Hx. by left. }
    split.
    { apply set_eq. intros m. rewrite elem_of_union, elem_of_singleton, (live_spec _ _ _ I2), (live_spec _ _ _ Hfl), Hcnt, not_elem_of_cons.
      change (count (p, d)) with (DbHeader.PageCount (p_hdr p)).
      destruct (decide (m = n)) as [->|Hmn]; [|tauto]. split; [by left|]. intros _. done. }
    split; [rewrite Hcnt; lia|]. split.
    { intros m Hm. pose proof (live_range _ _ _ Hfl Hm) as Hr. change (count (p, d)) with (DbHeader.PageCount (p_hdr p)) in Hr.
      rewrite I4, Hv3 by lia. rewrite decide_False; [done|]. intros ->.
      apply (live_spec _ _ _ Hfl) in Hm as [_ Hm]. apply Hm. by left. }
    split.
    { exists l1. rewrite I4, Hv3 by lia. rewrite decide_True by done. exact Hgn. }
    intros m. rewrite I5. unfold t3. rewrite Hpt, pins_insert. cbn [fst]. rewrite <- Hp1. case_decide as E; [|done]. subst m.
    unfold pins_of. by rewrite Hf1.
  - intros e s' Hfail. destruct (fail_keeps _ _ _ _ _ Hi Hfail) as (He & Hk & Hpn).
    split; [done|]. destruct (Hk 0) as [K1 K2 K3 K4 K5]. unfold refuses. split_and!; try done. intros m H0 Hm. by apply K5.
Qed.

Lemma grow_allocates s :
  pager_inv s -> count s < NullPage ->
  gspec allocateByGrowing s (fun n => allocates s n) (fun e s' => (e = PgPoolExhausted \/ e = PgCorrupt) /\ refuses s s').
Proof.
  destruct s as [p d]. intros Hi Hroom. destruct (Hi) as [Hop Hpo Hh Hc HL (fl & Hfl)].
  pose proof Hfl as (F1 & F2 & F3 & F4). cbn [fst snd] in *.
  change (count (p, d)) with (DbHeader.PageCount (p_hdr p)) in *.
  pose proof (valid_size _ (pn_size _ Hop)) as [Hps _]. set (n := DbHeader.PageCount (p_hdr p)) in *. set (ps := p_pageSize p) in *.
  assert (Hg1 : u32 (n + 1) = n + 1) by (apply wrap_small; unfold in_u, NullPage in *; lia).
  assert (Hg2 : u32 (n + 1 - 1) = n) by (replace (n + 1 - 1) with n by lia; apply wrap_small; unfold in_u, NullPage in *; lia).
  set (l1 := next_lsn p). set (h1 := grown (p_hdr p)).
  destruct (touched_lent _ _ l1 h1 _ _ HL) as (HL0 & Hne0 & Hpt0 & _).
  assert (Hh1 : hdr_fits p (bump_changes h1)) by (apply hdr_fits_bump, hdr_fits_count; [done|apply wrap_in_u; lia]).
  assert (Hc1 : DbHeader.PageCount (bump_changes h1) = n + 1) by exact Hg1.
  eapply gspec_mono; [apply (allocateByGrowing_spec p d Hop Hpo Hh HL ltac:(fold n; lia))| |]; fold n; fold ps; fold h1; fold l1.
  - intros m s' (-> & p1 & t1 & d1 & lo & (P1 & c1 & Hp1 & HP1 & Hz1 & Ht1) & Hev & Hn1 & Hlo & Hl).
    apply (f_equal fst) in Hp1 as Hp1'. cbn [fst] in Hp1'. subst p1. clear Hp1. set (p1 := pgw P1 c1 _ _ p) in *.
    assert (Hop1 : pg_open p1) by by destruct Hop.
    assert (HLp : lent (p_pageSize p1) n (table (p_pool p1)) (pg_data p1 d)).
    { change (lent ps n (table P1) (pg_data p d)). by rewrite Ht1. }
    destruct (evicts_lent p1 d n t1 d1 Hop1 HP1 HLp Hev) as (HL1 & Hv1 & _).
    change (p_pageSize p1) with ps in *. change (pg_data p1 d1) with (pg_data p d1) in *. change (pg_data p1 d) with (pg_data p d) in *.
    change (table (p_pool p1)) with (table P1) in *. rewrite Ht1 in Hv1.
    set (g := marked n (u64 (l1 + 1)) _) in *.
    assert (HL2 : lent ps (n + 1) (<[n := g]> t1) (pg_data p d1)).
    { apply lent_admit; [eapply lent_mono; [done|lia]|done|lia|done]. }
    assert (Hv2 : forall m, 0 <= m -> m <> 0 -> page_at ps (<[n := g]> t1) (pg_data p d1) m = if decide (m = n) then Buf g else view (p, d) m).
    { intros m Hm Hm0. rewrite page_at_insert. case_decide; [done|]. rewrite Hv1 by done. by apply (touched_page _ n). }
    destruct (lands_inv p (<[n := g]> t1) (bump_changes h1) (u64 (l1 + 1)) d1 s' fl Hop Hh1) as (I1 & I2 & I3 & I4 & I5 & I6); try done.
    { rewrite Hc1. lia. }
    { by rewrite Hc1. }
    { eapply chain_ext; [exact F1|]. intros m Hm. rewrite Forall_forall in F3. specialize (F3 m Hm).
      rewrite Hv2 by lia. rewrite decide_False; [done|]. lia. }
    { eapply Forall_impl; [exact F3|]. intros m Hm. rewrite Hc1. cbn beta in Hm. lia. }
    rewrite Hc1 in I6. unfold allocates. split; [done|]. split; [done|]. split.
    { intros Hx. apply (live_range _ _ _ Hfl) in Hx. change (count (p, d)) with n in Hx. lia. }
    split.
    { apply set_eq. intros m. rewrite elem_of_union, elem_of_singleton, (live_spec _ _ _ I2), (live_spec _ _ _ Hfl), I6.
      change (count (p, d)) with n. destruct (decide (m = n)) as [->|Hmn].
      - split; [by left|]. intros _. split; [lia|]. intros Hx. rewrite Forall_forall in F3. specialize (F3 n Hx). lia.
      - split; [intros [? ?]; right; split; [lia|done]|intros [?|[? ?]]; [done|split; [lia|done]]]. }
    split; [change (count (p, d)) with n; lia|]. split.
    { intros m Hm. pose proof (live_range _ _ _ Hfl Hm) as Hr. change (count (p, d)) with n in Hr.
      rewrite I4, Hv2 by lia. rewrite decide_False; [done|lia]. }
    split.
    { exists (u64 (l1 + 1)). rewrite I4, Hv2 by lia. rewrite decide_True by done. unfold g, marked. cbn [Buf].
      by rewrite (proj2 (Z.eqb_neq n 0)) by lia. }
    intros m. rewrite I5, pins_insert. cbn [fst]. case_decide as E; [subst m|].
    + assert (Hnone : table (p_pool p) !! n = None).
      { apply eq_None_not_Some. intros Hx. apply (ln_range _ _ _ _ HL) in Hx. lia. }
      unfold pins_of. by rewrite Hnone.
    + rewrite (evicts_pins p1 d t1 d1 m Hev). change (table (p_pool p1)) with (table P1). by rewrite Ht1, Hpt0.
  - intros e s' (-> & Hl). split; [by left|]. cbn zeta in Hl. set (h2 := ungrown (bump_changes h1)) in *.
    set (t2 := touched ps (u64 (l1 + 1)) h2 (touched ps l1 h1 (table (p_pool p)))) in *.
    destruct (touched_lent _ _ (u64 (l1 + 1)) h2 _ _ HL0) as (HL2 & Hne2 & Hpt2 & _). fold t2 in HL2, Hne2, Hpt2.
    assert (Hc2 : DbHeader.PageCount (bump_changes h2) = n).
    { change (u32 (u32 (n + 1) - 1) = n). by rewrite Hg1. }
    assert (Hh2 : hdr_fits p (bump_changes h2)) by (apply hdr_fits_bump, hdr_fits_count; [done|apply wrap_in_u; lia]).
    assert (Hv2 : forall m, m <> 0 -> page_at ps t2 (pg_data p d) m = view (p, d) m).
    { intros m Hm. unfold t2. rewrite (touched_page _ n) by done. by apply (touched_page _ n). }
    destruct (lands_inv p t2 (bump_changes h2) (u64 (l1 + 1)) d s' fl Hop Hh2) as (I1 & I2 & I3 & I4 & I5 & I6); try done.
    { by rewrite Hc2. }
    { by rewrite Hc2. }
    { eapply chain_ext; [exact F1|]. intros m Hm. rewrite Forall_forall in F3. specialize (F3 m Hm). apply Hv2. lia. }
    { by rewrite Hc2. }
    rewrite Hc2 in I6. unfold refuses. split; [done|]. split; [done|]. split.
    { apply set_eq. intros m. by rewrite (live_spec _ _ _ I2), (live_spec _ _ _ Hfl), I6. }
    split; [done|]. split; [intros m Hm _; rewrite I4; by apply Hv2|]. intros m. by rewrite I5, Hpt2, Hpt0.
Qed.

Lemma Allocate_allocates s :
  pager_inv s -> count s < NullPage ->
  gspec Allocate s (fun n => allocates s n) (fun e s' => (e = PgPoolExhausted \/ e = PgCorrupt) /\ refuses s s').
Proof.
  intros Hi Hroom. pose proof (pi_open _ Hi) as Hop. destruct s as [p d]. cbn [fst] in *. unfold Allocate. gsteps.
  rewrite (pn_closed _ Hop), (pn_readOnly _ Hop). destruct (Z.eqb_spec (FreelistRoot (p_hdr p)) NullPage); cbn [negb].
  - by apply grow_allocates.
  - by apply pop_allocates.
Qed.

(** ** The laws *)

Section laws.
Context (csprng : nat -> Z).

#[local] Instance ops : PageOps (dpager * Disk) := Pager_ops csprng.

Lemma gspec_as_sum {A} (m : PG (dpager * Disk) A) s (Q : A -> _ -> Prop) E r s' :
  gspec m s Q E -> m s = (r, s') -> match as_sum r with inr a => Q a s' | inl e => E e s' end.
Proof. unfold gspec. intros H Hm. rewrite Hm in H. by destruct r. Qed.

Lemma gspec_unit (m : PG (dpager * Disk) unit) s (Q : unit -> _ -> Prop) :
  gspec m s Q (fun _ _ => False) -> Q tt (m s).2.
Proof. unfold gspec. destruct (m s) as [[[]|e|] s']; done. Qed.

Lemma update_as_ops s n b : MarkDirty n (WriteBuf n b s) = ((on_pool (upd_frame n (set_Buf b)) ;;* markDirtyLocked n) s).2.
Proof. destruct s as [p d]. cbn [MarkDirty WriteBuf ops Pager_ops]. reflexivity. Qed.

#[export] Program Instance Pager_laws : PageLaws (dpager * Disk) := {
  pg_inv := pager_inv;
  pg_live := live;
  pg_view := view;
  pg_pins s n := pins_of (table (p_pool s.1)) n;
  pg_room s := Z.to_nat (NullPage - count s);
  pg_fails e := e = PgPoolExhausted \/ e = PgCorrupt
}.
Next Obligation.
  intros s Hi. pose proof (valid_size _ (pn_size _ (pi_open _ Hi))) as [Hps _].
  change (36 <= p_pageSize s.1 <= 65536). lia.
Qed.
Next Obligation. intros s Hi. exact (pn_algo _ (pi_open _ Hi)). Qed.
Next Obligation.
  intros s n Hi Hn. destruct (pi_free _ Hi) as (fl & Hfl). pose proof (live_range _ _ _ Hfl Hn) as Hr.
  pose proof (pi_count _ Hi) as Hc. pose proof (valid_size _ (pn_size _ (pi_open _ Hi))) as [Hps _].
  split; [unfold in_u, NullPage in *; lia|]. split; [lia|]. split; [lia|]. unfold view, page_at.
  destruct (table (p_pool s.1) !! n) as [f|] eqn:Hf.
  - by destruct (po_frames _ _ _ (pi_pool _ Hi) _ _ Hf) as (_ & ? & ? & _).
  - split; [apply (blen_disk_page (p_pageSize s.1)); lia|]. apply bytes_ok_disk_page, (ln_bytes _ _ _ _ (pi_lent _ Hi)).
Qed.
Next Obligation.
  intros s n r s' Hi Hn HF. destruct (pi_free _ Hi) as (fl & Hfl). pose proof (live_range _ _ _ Hfl Hn) as Hr.
  assert (Hr' : 0 <= n < count s) by lia. cbn [Fetch ops Pager_ops] in HF. destruct (with_buf (fetchLocked n) (fun _ => n) s) as [r0 s0] eqn:E.
  injection HF as <- <-. pose proof (gspec_as_sum _ _ _ _ _ _ (fetch_keeps s n Hi Hr') E) as H.
  assert (Hsame : (forall k, keeps k s s0) -> pager_inv s0 /\ p_pageSize s0.1 = p_pageSize s.1 /\ live s0 = live s /\
    Z.to_nat (NullPage - count s0) = Z.to_nat (NullPage - count s) /\ (forall m, m ∈ live s -> view s0 m = view s m)).
  { intros Hk. destruct (Hk 0) as [K1 K2 K3 K4 K5]. apply (f_equal fst) in K2. split_and!; try done; [by rewrite K4|].
    intros m Hm. apply (live_range _ _ _ Hfl) in Hm. apply K5; lia. }
  destruct r0 as [[u b]|e|]; cbn [as_sum res_map] in H |- *.
  - destruct H as (Hb & Hk & Hp). destruct (Hsame Hk) as (H1 & H2 & H3 & H4 & H5). by split_and!.
  - destruct H as (He & Hk & Hp). destruct (Hsame Hk) as (H1 & H2 & H3 & H4 & H5). by split_and!.
  - destruct H as ([He|He] & _); done.
Qed.
Next Obligation.
  intros s n b Hi Hn Hp Hb Hok p'. unfold p'. rewrite update_as_ops. destruct (pi_free _ Hi) as (fl & Hfl).
  destruct (gspec_unit _ _ _ (update_keeps s n b Hi Hn Hp Hb Hok)) as ([K1 K2 K3 K4 K5] & Hv & Hpn). apply (f_equal fst) in K2.
  exists (next_lsn s.1). split; [apply wrap_in_u; lia|]. split_and!; try done; [by rewrite K4|].
  intros m Hm Hne. apply (live_range _ _ _ Hfl) in Hm. apply K5; [lia|done].
Qed.
Next Obligation.
  intros s n Hi Hp p'. unfold p'. cbn [PageStore.Unpin ops Pager_ops]. destruct (pi_free _ Hi) as (fl & Hfl).
  destruct (gspec_unit _ _ _ (unpin_keeps s n Hi Hp)) as (Hk & Hpn). destruct (Hk 0) as [K1 K2 K3 K4 K5]. apply (f_equal fst) in K2.
  split; [done|]. split; [done|]. split; [done|]. split; [by rewrite K4|]. split; [|done].
  intros m Hm. apply (live_range _ _ _ Hfl) in Hm. destruct (Hk (m + 1)) as [_ _ _ _ K6]. apply K6; lia.
Qed.
Next Obligation.
  intros s r s' Hi Hroom HA.
  assert (Hr : count s < NullPage) by (change (0 < Z.to_nat (NullPage - count s))%nat in Hroom; lia).
  cbn [PageStore.Allocate ops Pager_ops] in HA. destruct (pi_free _ Hi) as (fl & Hfl).
  destruct (with_buf Pager.Allocate id s) as [r0 s0] eqn:E. injection HA as <- <-.
  assert (HG : gspec (with_buf Pager.Allocate id) s (fun a s1 => allocates s a.1 s1 /\ a.2 = view s1 a.1)
    (fun e s1 => (e = PgPoolExhausted \/ e = PgCorrupt) /\ refuses s s1)).
  { unfold with_buf. gsteps. eapply gspec_mono; [apply (Allocate_allocates s Hi Hr)| |done].
    intros n [p1 d1] Ha. gsteps. pose proof Ha as (A1 & A2 & A3 & A4 & A5 & A6 & A7 & A8).
    specialize (A8 n). rewrite decide_True in A8 by done. unfold pins_of at 1 in A8. cbn [fst] in A8.
    destruct (table (p_pool p1) !! n) as [f|] eqn:Hf; [|lia].
    apply gspec_frame with (f := f); [done|]. gsteps. split; [done|]. unfold view, page_at. cbn [fst]. by rewrite Hf. }
  pose proof (gspec_as_sum _ _ _ _ _ _ HG E) as H. destruct r0 as [[n b]|e|]; cbn [as_sum] in H |- *.
  - destruct H as ((A1 & A2 & A3 & A4 & A5 & A6 & A7 & A8) & Hb). cbn [fst snd] in *. apply (f_equal fst) in A2. split_and!; try done. lia.
  - destruct H as (He & R1 & R2 & R3 & R4 & R5 & R6). apply (f_equal fst) in R2. split_and!; try done; [|by rewrite R4].
    intros m Hm. apply (live_range _ _ _ Hfl) in Hm. apply R5; lia.
  - destruct H as ([He|He] & _); done.
Qed.
Next Obligation.
  intros s n Hi Hn. destruct (pi_free _ Hi) as (fl & Hfl). pose proof (live_range _ _ _ Hfl Hn) as Hr.
  cbn [Fetch ops Pager_ops]. destruct (with_buf (fetchLocked n) (fun _ => n) s) as [r0 s0] eqn:E.
  pose proof (gspec_as_sum _ _ _ _ _ _ (fetch_keeps s n Hi ltac:(lia)) E) as H.
  assert (Hsame : (forall k, keeps k s s0) -> ChecksumOf s0 = ChecksumOf s).
  { intros Hk. exact (f_equal snd (ks_size _ _ _ (Hk 0))). }
  destruct r0 as [[u b]|e|]; cbn [as_sum] in H; [apply Hsame, H|apply Hsame, H|]. by destruct H as ([He|He] & _).
Qed.
Next Obligation.
  intros s n Hi Hp. cbn [PageStore.Unpin ops Pager_ops].
  destruct (gspec_unit _ _ _ (unpin_keeps s n Hi Hp)) as (Hk & _). exact (f_equal snd (ks_size _ _ _ (Hk 0))).
Qed.
End laws.
