(* ===== verification/PagerFree.v ===== *)
(** * pager/pager.go: freeing a page, and the catalog's root

    Free puts a pinned page at the head of the freelist: the page leaves the pages
    in use, and the others keep their contents. SetCatalogRoot changes the header,
    and no page in use. *)

From S2P Require Import Prelude Checksum Page Vfs Disk Wal DbHeader PageStore Pool Pager PagerInv PagerLaws.

#[local] Open Scope Z_scope.
#[local] Open Scope pg_scope.

(** A page of the freelist that links to root. *)
Definition free_page (ps root : Z) (b : bytes) : Prop := blen b = ps /\ bytes_ok b /\ freelist_next b = root.

Lemma freelist_next_stamp l b : 36 <= blen b -> freelist_next (stamp_lsn l b) = freelist_next b.
Proof.
  intros Hb. unfold freelist_next, stamp_lsn. f_equal. unfold blen in Hb.
  apply sub_put_ne; rewrite length_le_bytes; unfold freelistNextOffset, PageHeaderSize; lia.
Qed.

Lemma stamp_free_page ps root l b : 36 <= ps -> free_page ps root b -> free_page ps root (stamp_lsn l b).
Proof.
  intros Hps (H1 & H2 & H3). destruct (stamp_lsn_ok l b) as [H4 H5]; [lia|done|]. split; [congruence|]. split; [done|].
  by rewrite freelist_next_stamp by lia.
Qed.

Lemma format_page ps root b0 :
  36 <= ps <= 65536 -> blen b0 = ps -> in_u 32 root ->
  exists b b', InitPage (E:=pgErr) b0 PageFree 0 = Ok b /\ wr (E:=pgErr) freelistNextOffset (le_bytes 4 root) b = Ok b' /\ free_page ps root b'.
Proof.
  intros Hps Hb Hr. destruct (InitPage_spec (E:=pgErr) b0 PageFree 0) as (b & Hi & Hl & Hok & _); [done|done|lia|].
  exists b, (put 32 (le_bytes 4 root) b). split; [done|].
  assert (Hlen : (36 <= length b)%nat) by (unfold blen in *; lia). split.
  - apply (wr_Ok (E:=pgErr) freelistNextOffset). { unfold freelistNextOffset, PageHeaderSize. lia. }
    unfold freelistNextOffset, PageHeaderSize, blen. rewrite length_le_bytes. lia.
  - split; [|split].
    + unfold blen in *. rewrite length_put by (rewrite length_le_bytes; lia). lia.
    + apply put_Forall; [apply bytes_ok_le|done].
    + unfold freelist_next, freelistNextOffset, PageHeaderSize. change (Z.to_nat 32) with 32%nat.
      rewrite sub_put_eq' by (rewrite ?length_le_bytes; lia). by apply le_val_le_bytes.
Qed.

(** The header with page n at the head of the freelist. *)
Definition freed (h : DbHeader.Header) (n : Z) : DbHeader.Header := set_freelist (u32 n) (u32 (FreelistPageCount h + 1)) h.

Lemma Free_spec p (d : Disk) n f :
  let l1 := next_lsn p in let l2 := u64 (l1 + 1) in let ps := p_pageSize p in
  pg_open p -> pool_ok ps 0 (p_pool p) -> hdr_fits p (p_hdr p) -> is_Some (table (p_pool p) !! 0) ->
  table (p_pool p) !! n = Some f -> n <> 0 -> 0 < pins f ->
  gspec (Free n) (p, d)
    (fun _ s' => exists b, free_page ps (FreelistRoot (p_hdr p)) b /\
       lands p (touched ps l2 (freed (p_hdr p) n) (<[n := add_pins (-1) (marked n l1 (set_Buf b f))]> (table (p_pool p))))
         (bump_changes (freed (p_hdr p) n)) l2 d s') (fun _ _ => False).
Proof.
  intros l1 l2 ps Hp HP Hh H0 Hf Hn Hpin. pose proof (valid_size _ (pn_size _ Hp)) as [Hps _]. fold ps in Hps.
  unfold Free. gsteps. rewrite (pn_closed _ Hp), (pn_readOnly _ Hp). gsteps. unfold lookup_frame. rewrite Hf. gsteps.
  unfold format_free. gsteps. apply gspec_frame with (f := f); [done|]. gsteps.
  destruct (po_frames _ _ _ HP _ _ Hf) as (F1 & F2 & F3 & F4).
  assert (Hr : in_u 32 (FreelistRoot (p_hdr p))) by (destruct Hh as [Hh _]; unfold DbHeader.header_ok in Hh; tauto).
  destruct (format_page ps (FreelistRoot (p_hdr p)) (Buf f) ltac:(lia) F2 Hr) as (b & b' & E1 & E2 & Hfree).
  apply gspec_lift. rewrite E1. gsteps. apply gspec_lift. rewrite E2. gsteps.
  match goal with |- gspec _ (?q, _) _ _ => set (p1 := q) end.
  change (freed (p_hdr p) n) with (p_hdr p1). destruct Hfree as (B1 & B2 & B3).
  assert (Hp1 : pg_open p1) by by destruct Hp.
  assert (Ht1 : table (p_pool p1) = <[n := set_Buf b' f]> (table (p_pool p))) by exact (table_upd n (set_Buf b') (p_pool p) f Hf).
  assert (HP1 : pool_ok (p_pageSize p1) 0 (p_pool p1)).
  { apply pool_ok_upd; [done|]. intros g Hg. assert (Some f = Some g) as [= <-] by (rewrite <- Hf; exact Hg). done. }
  assert (Hf1 : table (p_pool p1) !! n = Some (set_Buf b' f)) by by rewrite Ht1, lookup_insert_eq.
  eapply gspec_mono; [apply (markDirty_spec p1 d n _ Hp1 HP1 Hf1)| |done].
  intros u s2 (P2 & c2 & -> & HP2 & Hz2 & Ht2). gsteps. change (u64 (p_nextLSN p1 + 1)) with l1 in *.
  rewrite Ht1, insert_insert_eq in Ht2. set (g := marked n l1 (set_Buf b' f)) in *.
  match goal with |- gspec _ (?q, _) _ _ => set (p2 := q) end.
  assert (Hp2 : pg_open p2) by by destruct Hp.
  assert (Hh2 : hdr_fits p2 (p_hdr p2)) by (apply (hdr_fits_freelist p); [done|apply wrap_in_u; lia|apply wrap_in_u; lia]).
  assert (H02 : is_Some (table (p_pool p2) !! 0)).
  { change (p_pool p2) with P2. rewrite Ht2. rewrite lookup_insert_ne by done. done. }
  eapply gspec_mono; [apply (touchHeader_spec p2 d Hp2 HP2 H02 Hh2)| |done].
  intros u3 s3 (P3 & c3 & -> & HP3 & Hz3 & Ht3). gsteps. change (p_pool p2) with P2 in Ht3. rewrite Ht2 in Ht3.
  change (p_pageSize p2) with ps in Ht3. change (p_hdr p2) with (p_hdr p1) in *. change (u64 (p_nextLSN p2 + 1)) with l2 in *.
  match goal with |- gspec _ (?q, _) _ _ => set (p3 := q) end.
  assert (Hf3 : table (p_pool p3) !! n = Some g).
  { change (p_pool p3) with P3. rewrite Ht3. unfold touched. rewrite lookup_insert_ne by done.
    destruct (table (p_pool p) !! 0); [rewrite lookup_insert_ne by done|]; apply lookup_insert_eq. }
  eapply gspec_mono; [apply (Unpin_spec p3 d n g HP3 Hf3)| |done]; [done|].
  intros u4 s4 (P4 & c4 & -> & HP4 & Hz4 & Ht4). exists b'. split; [done|]. exists P4, c4. split; [done|]. split; [done|]. split.
  { etransitivity; [exact Hz4|]. etransitivity; [exact Hz3|]. exact Hz2. }
  rewrite Ht4. change (p_pool p3) with P3. rewrite Ht3. unfold touched. rewrite !lookup_insert_ne by done.
  destruct (table (p_pool p) !! 0); [|by rewrite insert_insert_eq].
  rewrite insert_insert_ne by done. by rewrite insert_insert_eq.
Qed.

(** The page leaves the pages in use; the others are as they were. *)
Definition frees (s : dpager * Disk) (n : Z) (s' : dpager * Disk) : Prop :=
  pager_inv s' /\ pg_conf s' = pg_conf s /\ live s' = live s ∖ {[n]} /\ count s' = count s /\
  (forall m, m ∈ live s' -> view s' m = view s m) /\
  (forall m, pins_of (table (p_pool s'.1)) m = (pins_of (table (p_pool s.1)) m - if decide (m = n) then 1 else 0)%nat).

Lemma Free_frees s n :
  pager_inv s -> n ∈ live s -> (0 < pins_of (table (p_pool s.1)) n)%nat ->
  gspec (Free n) s (fun _ s' => frees s n s' /\ FreelistRoot (p_hdr s'.1) = n) (fun _ _ => False).
Proof.
  destruct s as [p d]. intros Hi Hn Hpin. destruct (Hi) as [Hop Hpo Hh Hc HL (fl & Hfl)]. cbn [fst snd] in *.
  pose proof Hfl as (F1 & F2 & F3 & F4). cbn [fst snd] in *. apply (live_spec _ _ _ Hfl) in Hn as Hn'. destruct Hn' as [Hr Hnin].
  destruct (table (p_pool p) !! n) as [f|] eqn:Hf; [|unfold pins_of in Hpin; rewrite Hf in Hpin; lia].
  pose proof (valid_size _ (pn_size _ Hop)) as [Hps _]. set (ps := p_pageSize p) in *.
  pose proof (NoDup_range_length (n :: fl) (count (p, d))) as Hlen. cbn [length] in Hlen.
  assert (Hlen' : (S (length fl) <= Z.to_nat (count (p, d)))%nat) by (apply Hlen; constructor; done). clear Hlen.
  assert (Hu1 : u32 n = n) by (apply wrap_small; unfold in_u, NullPage in *; lia).
  assert (Hu2 : u32 (FreelistPageCount (p_hdr p) + 1) = blen (n :: fl)).
  { rewrite F4. unfold blen in *. cbn [length]. rewrite wrap_small; [lia|]. unfold in_u, NullPage in *. lia. }
  eapply gspec_mono; [apply (Free_spec p d n f Hop Hpo Hh (pool_table0 _ _ _ HL) Hf)| |done]; [lia|unfold pins_of in Hpin; rewrite Hf in Hpin; lia|].
  intros u s' (b & (B1 & B2 & B3) & Hl). fold ps in B1, Hl. set (h1 := freed (p_hdr p) n) in *. set (l1 := next_lsn p) in *.
  set (l2 := u64 (l1 + 1)) in *. set (g := add_pins (-1) (marked n l1 (set_Buf b f))) in *.
  assert (Hg : free_page ps (FreelistRoot (p_hdr p)) (Buf g)).
  { unfold g, marked, add_pins. cbn [Buf set_Buf]. rewrite (proj2 (Z.eqb_neq n 0)) by lia. apply stamp_free_page; [lia|done]. }
  assert (HL2 : lent ps (DbHeader.PageCount (p_hdr p)) (<[n := g]> (table (p_pool p))) (pg_data p d)) by by eapply lent_insert.
  destruct (touched_lent _ _ l2 h1 _ _ HL2) as (HL3 & Hne & Hpt & _). set (t3 := touched _ _ _ _) in *.
  assert (Hv3 : forall m, m <> 0 -> page_at ps t3 (pg_data p d) m = if decide (m = n) then Buf g else view (p, d) m).
  { intros m Hm. unfold t3. rewrite (touched_page _ _ _ _ _ _ _ HL2) by done. by rewrite page_at_insert. }
  assert (Hh1 : hdr_fits p (bump_changes h1)) by (apply hdr_fits_bump, hdr_fits_freelist; [done|apply wrap_in_u; lia|apply wrap_in_u; lia]).
  assert (Hroot : FreelistRoot (bump_changes h1) = n) by exact Hu1.
  destruct (lands_inv p t3 (bump_changes h1) l2 d s' (n :: fl) Hop Hh1 Hc HL3) as (I1 & I2 & I3 & I4 & I5 & I6); try done.
  { rewrite Hroot. constructor; [unfold NullPage in *; lia|]. rewrite Hv3 by lia. rewrite decide_True by done.
    destruct Hg as (_ & _ & ->). eapply chain_ext; [exact F1|]. intros m Hm. rewrite Forall_forall in F3. specialize (F3 m Hm).
    rewrite Hv3 by lia. rewrite decide_False; [done|]. by intros ->. }
  { by constructor. } { by constructor. }
  assert (Hcnt : count s' = count (p, d)) by (by rewrite I6).
  split; [|by destruct Hl as (P & c & -> & _)]. split; [done|]. split; [done|]. assert (Hlive : live s' = live (p, d) ∖ {[n]}).
  { apply set_eq. intros m. rewrite elem_of_difference, elem_of_singleton, (live_spec _ _ _ I2), (live_spec _ _ _ Hfl), Hcnt, not_elem_of_cons. tauto. }
  split; [done|]. split; [done|]. split.
  - intros m Hm. rewrite Hlive in Hm. apply elem_of_difference in Hm as [Hm Hmn]. apply not_elem_of_singleton in Hmn.
    pose proof (live_range _ _ _ Hfl Hm). rewrite I4, Hv3 by lia. by rewrite decide_False.
  - intros m. rewrite I5. unfold t3. rewrite Hpt, pins_insert. cbn [fst]. case_decide as E; [|lia]. subst m.
    unfold pins_of. rewrite Hf. unfold g, marked, add_pins. cbn [pins set_Buf]. lia.
Qed.

(** ** The catalog's root *)

Lemma hdr_fits_catalog p root h : hdr_fits p h -> in_u 32 root -> hdr_fits p (set_catalog root h).
Proof.
  intros (Hh & H1 & H2 & H3) Hr. split; [|done]. unfold DbHeader.header_ok, set_catalog, with_counters in *. cbn. tauto.
Qed.

Lemma SetCatalogRoot_spec p (d : Disk) root :
  pg_open p -> pool_ok (p_pageSize p) 0 (p_pool p) -> is_Some (table (p_pool p) !! 0) -> hdr_fits p (p_hdr p) -> in_u 32 root ->
  let l := next_lsn p in let h := set_catalog root (p_hdr p) in
  gspec (SetCatalogRoot root) (p, d) (fun _ => lands p (touched (p_pageSize p) l h (table (p_pool p))) (bump_changes h) l d) (fun _ _ => False).
Proof.
  intros Hp HP H0 Hh Hr l h. unfold SetCatalogRoot. gsteps. fold h. set (p1 := set_hdr h p).
  assert (Hp1 : pg_open p1) by by destruct Hp. assert (Hh1 : hdr_fits p1 (p_hdr p1)) by by apply (hdr_fits_catalog p).
  eapply gspec_mono; [apply (touchHeader_spec p1 d Hp1 HP H0 Hh1)| |done]. intros u s' (P & c & -> & H). exists P, c. by split.
Qed.

(** The header names the new root; every other page and every pin is as it was. *)
Record rooted (s : dpager * Disk) (root : Z) (s' : dpager * Disk) : Prop := Rooted {
  rt_inv : pager_inv s';
  rt_conf : pg_conf s' = pg_conf s;
  rt_live : live s' = live s;
  rt_count : count s' = count s;
  rt_root : CatalogRoot s'.1 = root;
  rt_view : forall n, n <> 0 -> view s' n = view s n;
  rt_pins : forall n, pins_of (table (p_pool s'.1)) n = pins_of (table (p_pool s.1)) n
}.

Lemma SetCatalogRoot_rooted s root :
  pager_inv s -> in_u 32 root -> gspec (SetCatalogRoot root) s (fun _ => rooted s root) (fun _ _ => False).
Proof.
  destruct s as [p d]. intros [Hop Hpo Hh Hc HL (fl & Hfl)] Hr. pose proof Hfl as (F1 & F2 & F3 & F4). cbn [fst snd] in *.
  eapply gspec_mono; [apply (SetCatalogRoot_spec p d root Hop Hpo (pool_table0 _ _ _ HL) Hh Hr)| |done].
  intros u s' Hl. set (h := set_catalog root (p_hdr p)) in *.
  destruct (touched_lent _ _ (next_lsn p) h _ _ HL) as (HL' & Hne & Hpt & _). set (t' := touched _ _ _ _) in *.
  assert (Hv : forall m, m <> 0 -> page_at (p_pageSize p) t' (pg_data p d) m = view (p, d) m).
  { intros m Hm. exact (touched_page _ _ _ _ _ _ _ HL Hm). }
  destruct (lands_inv p t' (bump_changes h) (next_lsn p) d s' fl Hop) as (I1 & I2 & I3 & I4 & I5 & I6); try done.
  { by apply hdr_fits_bump, hdr_fits_catalog. }
  { eapply chain_ext; [exact F1|]. intros m Hm. rewrite Forall_forall in F3. specialize (F3 m Hm). apply Hv. lia. }
  assert (Hcnt : count s' = count (p, d)) by by rewrite I6.
  constructor; try done.
  - apply set_eq. intros m. by rewrite (live_spec _ _ _ I2), (live_spec _ _ _ Hfl), Hcnt.
  - by destruct Hl as (P & c & -> & _).
  - intros n Hn. rewrite I4. by apply Hv.
  - intros n. rewrite I5. apply Hpt.
Qed.
