(* ===== verification/PagerLog.v ===== *)
(** * pager/pager.go: what a crash leaves, and what recovery makes of it

    The pages a data file and a log stand for after a crash, when the log's
    committed prefix is replayed; that a torn write of a logged page, a replayed
    page and the final truncation keep them; and that Open brings them back. *)

From S2P Require Import Prelude Checksum Page Vfs Disk Wal DbHeader PageStore Pool Pager PagerInv PagerLaws.
From stdpp Require Import strings.

#[local] Open Scope Z_scope.
#[local] Open Scope pg_scope.

(** ** Images in a log *)

Definition images (ts : list txn) : list PageImage := concat (map tx_frames ts).

(** The image replay leaves on a page. *)
Fixpoint last_image (l : list PageImage) (n : Z) : option bytes :=
  match l with
  | [] => None
  | i :: l' => match last_image l' n with
               | Some b => Some b
               | None => if pi_PageID i =? n then Some (pi_Payload i) else None
               end
  end.

Lemma last_image_app l1 l2 n :
  last_image (l1 ++ l2) n = match last_image l2 n with Some b => Some b | None => last_image l1 n end.
Proof.
  induction l1 as [|i l1 IH]; cbn [app last_image]; [by destruct (last_image l2 n)|].
  rewrite IH. by destruct (last_image l2 n).
Qed.

Lemma last_image_elem l n b : last_image l n = Some b -> exists i, i ∈ l /\ pi_PageID i = n /\ pi_Payload i = b.
Proof.
  induction l as [|i l IH]; cbn [last_image]; [done|]. destruct (last_image l n) as [c|].
  - intros [= ->]. destruct (IH eq_refl) as (j & Hj & ?). exists j. split; [by right|done].
  - destruct (Z.eqb_spec (pi_PageID i) n); [|done]. intros [= <-]. exists i. split; [by left|done].
Qed.

Lemma last_image_logged l i : i ∈ l -> is_Some (last_image l (pi_PageID i)).
Proof.
  induction l as [|j l IH]; intros Hi; [by apply elem_of_nil in Hi|]. cbn [last_image].
  apply elem_of_cons in Hi as [->|Hi].
  - destruct (last_image l _); [by eexists|]. rewrite Z.eqb_refl. by eexists.
  - destruct (IH Hi) as [b ->]. by eexists.
Qed.

Lemma images_app ts1 ts2 : images (ts1 ++ ts2) = images ts1 ++ images ts2.
Proof. unfold images. by rewrite map_app, concat_app. Qed.

(** ** Pages and torn writes *)

(** No part of the page alone is in the file. *)
Definition apart (ps : Z) (b : bytes) (n : Z) : Prop := n * ps + ps <= blen b \/ blen b <= n * ps.

Lemma whole_apart ps b n : 0 < ps -> blen b mod ps = 0 -> apart ps b n.
Proof.
  intros Hps Hb. assert (Hlb : blen b = blen b / ps * ps) by (rewrite Z.mul_comm; apply Z.div_exact; lia).
  unfold apart. destruct (Z.le_gt_cases (n + 1) (blen b / ps)); [left|right]; nia.
Qed.

(** Writing part of one page leaves the others alone. *)
Lemma disk_page_torn ps b p n m :
  0 < ps -> 0 <= n -> 0 <= m -> m <> n -> blen p <= ps -> apart ps b m ->
  disk_page ps (write_data p (n * ps) b) m = disk_page ps b m /\ apart ps (write_data p (n * ps) b) m.
Proof.
  intros Hps Hn Hm Hne Hp Ha. assert (Hp0 : 0 <= blen p) by (unfold blen; lia).
  unfold apart, disk_page in *. rewrite blen_write_data by nia.
  assert (Hfar : m * ps + ps <= n * ps \/ n * ps + ps <= m * ps) by nia.
  assert (Hsub : m * ps + ps <= Z.max (blen b) (n * ps + blen p) ->
    read_data ps (m * ps) (write_data p (n * ps) b) =
    sub (Z.to_nat (m * ps)) (Z.to_nat ps) (if n * ps + blen p >? blen b then b ++ replicate (Z.to_nat (n * ps + blen p - blen b)) 0 else b)).
  { intros Hle. unfold read_data, write_data. apply sub_put_ne.
    - rewrite Z.gtb_ltb. destruct (Z.ltb_spec (blen b) (n * ps + blen p)); unfold blen in *; rewrite ?length_app, ?length_replicate; nia.
    - unfold blen in *. nia. }
  destruct Ha as [Ha|Ha].
  - rewrite (proj2 (Z.leb_le _ _)) by lia. rewrite (proj2 (Z.leb_le _ (blen b))) by lia. split; [|left; lia].
    rewrite Hsub by lia. rewrite Z.gtb_ltb. destruct (Z.ltb_spec (blen b) (n * ps + blen p)); [|done].
    unfold read_data. apply sub_app_l. unfold blen in *. nia.
  - rewrite (proj2 (Z.leb_gt _ (blen b))) by lia. split.
    + destruct (Z.leb_spec (m * ps + ps) (Z.max (blen b) (n * ps + blen p))) as [Hle|]; [|done].
      rewrite Hsub by done. rewrite Z.gtb_ltb, (proj2 (Z.ltb_lt _ _)) by lia.
      rewrite sub_app_r by (unfold blen in *; lia). apply sub_zeros. unfold blen in *. nia.
    + destruct Hfar; [left|right]; lia.
Qed.

(** A page written whole is there. *)
Lemma disk_page_whole ps b p n :
  0 < ps -> 0 <= n -> blen p = ps ->
  disk_page ps (write_data p (n * ps) b) n = p /\ n * ps + ps <= blen (write_data p (n * ps) b).
Proof.
  intros Hps Hn Hp. unfold disk_page. rewrite blen_write_data by nia. rewrite (proj2 (Z.leb_le _ _)) by lia.
  split; [|lia]. rewrite <- Hp at 1. apply read_write_same. nia.
Qed.

(** ** The header in the first sector *)

(** The header at the head of a file decodes, with this page size and algorithm. *)
Definition hdr_reads (ps algo : Z) (b : bytes) : Prop :=
  HeaderSize <= blen b /\ exists h, DecodeHeader (read_data HeaderSize 0 b) = Ok h /\ DbHeader.PageSize h = ps /\ Header_ChecksumAlgo h = algo.

Lemma hdr_page_reads ps algo h :
  ValidPageSize ps = true -> Supported algo = true -> fits ps algo h -> hdr_reads ps algo (hdr_page ps h).
Proof.
  intros Hv Ha Hf. destruct (header_bytes_fits ps algo h Hv Ha Hf) as (_ & Hl & _ & s & Hd).
  pose proof (valid_size _ Hv) as [Hps _]. split.
  - unfold hdr_page, blen, HeaderSize. rewrite length_app. lia.
  - exists (with_sum s h). destruct Hf as (_ & H1 & H2 & _). split; [|done].
    assert (E : read_data HeaderSize 0 (hdr_page ps h) = header_bytes h ++ []).
    { unfold hdr_page, read_data, HeaderSize. change (Z.to_nat 0) with 0%nat. rewrite sub_app_l by lia.
      rewrite app_nil_r. change (Z.to_nat 128) with 128%nat. rewrite <- Hl. apply sub_full. }
    rewrite E. apply Hd.
Qed.

Lemma read_head_same b p off : HeaderSize <= off -> HeaderSize <= blen b -> 
  read_data HeaderSize 0 (write_data p off b) = read_data HeaderSize 0 b.
Proof.
  intros Ho Hb. unfold read_data, write_data, HeaderSize in *. rewrite Z.gtb_ltb. rewrite sub_put_ne.
  - destruct (Z.ltb_spec (blen b) (off + blen p)); [|done]. apply sub_app_l. unfold blen in *. lia.
  - destruct (Z.ltb_spec (blen b) (off + blen p)); unfold blen in *; rewrite ?length_app, ?length_replicate; lia.
  - lia.
Qed.

(** A write that ends on a sector boundary keeps a header, the old or the new. *)
Lemma hdr_reads_write ps algo b p n k :
  4096 <= ps -> 0 <= n -> blen p = ps -> (k <= length p)%nat -> (k = length p \/ (n * ps + Z.of_nat k) mod SectorSize = 0) ->
  hdr_reads ps algo b -> (n = 0 -> hdr_reads ps algo p) ->
  hdr_reads ps algo (write_data (take k p) (n * ps) b).
Proof.
  intros Hps Hn Hp Hk Hsec [Hb Hh] Hp0. unfold hdr_reads. rewrite blen_write_data by nia.
  split; [unfold blen in *; lia|]. destruct (decide (n = 0)) as [->|Hne].
  2:{ rewrite read_head_same; [done|unfold HeaderSize; nia|done]. }
  destruct (Hp0 eq_refl) as [_ Hh']. rewrite Z.mul_0_l in *. rewrite Z.add_0_l in Hsec.
  destruct (decide (k = 0%nat)) as [->|Hk0].
  - rewrite take_0. assert (E : write_data [] 0 b = b).
    { unfold write_data. cbn [blen length]. unfold blen in *. rewrite Z.gtb_ltb, (proj2 (Z.ltb_ge _ _)) by (cbn; lia).
      unfold put. change (Z.to_nat 0) with 0%nat. rewrite take_0. done. }
    by rewrite E.
  - assert (Hk512 : (512 <= k)%nat).
    { unfold SectorSize, blen in *. destruct Hsec as [->|Hs]; [lia|]. pose proof (Z.mod_divide (Z.of_nat k) 512 ltac:(lia)) as [Hd _].
      destruct (Hd Hs) as [q Hq]. lia. }
    assert (E : read_data HeaderSize 0 (write_data (take k p) 0 b) = read_data HeaderSize 0 p).
    { unfold read_data, write_data, HeaderSize. change (Z.to_nat 128) with 128%nat. change (Z.to_nat 0) with 0%nat.
      unfold put. rewrite take_0. cbn [app]. rewrite sub_app_l by (rewrite length_take; lia).
      unfold sub. rewrite !drop_0, take_take. f_equal. lia. }
    by rewrite E.
Qed.

(** ** Databases

    A database as the list of its pages, page 0 holding the header. *)

Definition db_page (db : list bytes) (n : Z) : bytes := default [] (db !! Z.to_nat n).

Record db_ok (ps algo : Z) (db : list bytes) : Prop := DbOk {
  do_pages : Forall (fun b => blen b = ps /\ bytes_ok b) db;
  do_size : 1 <= blen db <= NullPage;
  do_head : exists h fl, fits ps algo h /\ db_page db 0 = hdr_page ps h /\ DbHeader.PageCount h = blen db /\
    chain (db_page db) (FreelistRoot h) fl /\ NoDup fl /\ Forall (fun n => 0 < n < blen db) fl /\ FreelistPageCount h = blen fl;
  do_verify : forall n, 0 < n < blen db -> VerifyPageChecksum (db_page db n) algo = Ok tt
}.

Lemma db_page_in db n : 0 <= n < blen db -> db !! Z.to_nat n = Some (db_page db n).
Proof.
  intros Hn. unfold db_page. destruct (db !! Z.to_nat n) eqn:E; [done|]. apply lookup_ge_None in E. unfold blen in Hn. lia.
Qed.

Lemma db_page_ok ps algo db n : db_ok ps algo db -> 0 <= n < blen db -> blen (db_page db n) = ps /\ bytes_ok (db_page db n).
Proof.
  intros Hd Hn. pose proof (do_pages _ _ _ Hd) as H. rewrite Forall_lookup in H. eapply H, db_page_in, Hn.
Qed.

Section images.
Context (ps algo : Z).

(** The frames of a log that can be replayed: whole pages, and headers that
    decode. *)
Definition frames_ok (ts : list txn) : Prop :=
  forall i, i ∈ images ts -> 0 <= pi_PageID i /\ blen (pi_Payload i) = ps /\ bytes_ok (pi_Payload i) /\
    (pi_PageID i = 0 -> hdr_reads ps algo (pi_Payload i)).

(** The data file b stands for db once the log ts is replayed on it. *)
Record main_ok (db : list bytes) (ts : list txn) (b : bytes) : Prop := MainOk {
  mo_bytes : bytes_ok b;
  mo_head : hdr_reads ps algo b;
  mo_frames : frames_ok ts;
  mo_base : forall n, 0 <= n < blen db -> last_image (images ts) n = None ->
    disk_page ps b n = db_page db n /\ apart ps b n;
  mo_log : forall n x, 0 <= n < blen db -> last_image (images ts) n = Some x -> x = db_page db n;
  mo_size : match last ts with Some t => tx_size t = blen db | None => blen b mod ps = 0 end
}.

(** Writing part of a logged page, up to a sector boundary, changes nothing of
    what replay makes of the file. *)
Lemma main_ok_write db ts b n p k :
  4096 <= ps -> main_ok db ts b -> 0 <= n -> is_Some (last_image (images ts) n) -> blen p = ps -> bytes_ok p ->
  (n = 0 -> hdr_reads ps algo p) -> (k <= length p)%nat -> (k = length p \/ (n * ps + Z.of_nat k) mod SectorSize = 0) ->
  main_ok db ts (write_data (take k p) (n * ps) b).
Proof.
  intros Hps [M1 M2 M3 M4 M5 M6] Hn Hlog Hp Hok Hhd Hk Hsec. constructor; try done.
  - apply bytes_ok_write_data; [by apply Forall_take|done].
  - by apply hdr_reads_write.
  - intros m Hm HN. assert (m <> n) by (intros ->; rewrite HN in Hlog; by apply is_Some_None in Hlog).
    destruct (M4 m Hm HN) as [<- Ha]. apply disk_page_torn; try done; try lia.
    unfold blen in *. rewrite length_take. lia.
  - destruct (last ts) as [t|] eqn:E; [done|]. exfalso. apply last_None in E. subst ts. cbn in Hlog. by apply is_Some_None in Hlog.
Qed.

(** Growing or cutting the file to the size the log records. *)
Lemma main_ok_truncate db ts b :
  4096 <= ps -> main_ok db ts b -> ts <> [] -> blen db >= 1 ->
  (forall n, 0 <= n < blen db -> is_Some (last_image (images ts) n) -> disk_page ps b n = db_page db n /\ n * ps + ps <= blen b) ->
  let b' := truncate_data (blen db * ps) b in
  main_ok db ts b' /\ (forall n, 0 <= n < blen db -> disk_page ps b' n = db_page db n) /\ blen b' = blen db * ps.
Proof.
  intros Hps [M1 M2 M3 M4 M5 M6] Hts Hdb Hlog b'.
  assert (Hlb : blen b' = blen db * ps).
  { unfold b', truncate_data. destruct (Z.leb_spec (blen db * ps) (blen b)); unfold blen in *; rewrite ?length_app, ?length_replicate, ?length_take; nia. }
  assert (Hb' : forall n, 0 <= n < blen db -> apart ps b n -> disk_page ps b' n = disk_page ps b n).
  { intros n Hn Ha. unfold disk_page. rewrite Hlb, (proj2 (Z.leb_le _ (blen db * ps))) by nia.
    unfold b', truncate_data. destruct (Z.leb_spec (blen db * ps) (blen b)) as [Hle|Hgt].
    - rewrite (proj2 (Z.leb_le _ _)) by nia. unfold read_data, sub. rewrite skipn_firstn_comm, take_take. f_equal. nia.
    - destruct (Z.leb_spec (n * ps + ps) (blen b)) as [Hin|Hout].
      + unfold read_data. apply sub_app_l. unfold blen in *. nia.
      + destruct Ha as [Ha|Ha]; [lia|]. unfold read_data. rewrite sub_app_r by (unfold blen in *; nia). apply sub_zeros. unfold blen in *. nia. }
  assert (Hall : forall n, 0 <= n < blen db -> disk_page ps b' n = db_page db n).
  { intros n Hn. destruct (last_image (images ts) n) as [x|] eqn:E.
    - destruct (Hlog n Hn ltac:(by eexists)) as [<- Hin]. apply Hb'; [done|by left].
    - destruct (M4 n Hn E) as [<- Ha]. by apply Hb'. }
  split; [|done]. constructor; try done.
  - unfold b', truncate_data. destruct (_ <=? _); [by apply Forall_take|]. apply Forall_app. split; [done|].
    apply Forall_replicate. unfold byte_ok. lia.
  - destruct M2 as [Hhl Hh]. split; [rewrite Hlb; unfold HeaderSize; nia|].
    assert (E : read_data HeaderSize 0 b' = read_data HeaderSize 0 b).
    { unfold b', truncate_data, read_data, HeaderSize in *. destruct (Z.leb_spec (blen db * ps) (blen b)).
      - unfold sub. change (Z.to_nat 0) with 0%nat. rewrite !drop_0, take_take. f_equal. nia.
      - apply sub_app_l. unfold blen in *. lia. }
    by rewrite E.
  - intros n Hn _. split; [by apply Hall|]. left. rewrite Hlb. nia.
  - destruct (last ts) as [t|] eqn:E; [done|]. apply last_None in E. done.
Qed.

(** A page that is not cut, byte by byte. *)
Lemma disk_page_byte b n i :
  0 < ps -> 0 <= n -> apart ps b n -> (i < Z.to_nat ps)%nat ->
  disk_page ps b n !! i = Some (default 0 (b !! (Z.to_nat (n * ps) + i)%nat)).
Proof.
  intros Hps Hn Ha Hi. unfold disk_page, apart in *. destruct (Z.leb_spec (n * ps + ps) (blen b)) as [Hin|Hout].
  - unfold read_data, sub. rewrite lookup_take_lt, lookup_drop by lia.
    destruct (lookup_lt_is_Some_2 b (Z.to_nat (n * ps) + i) ltac:(unfold blen in Hin; lia)) as [x ->]. done.
  - rewrite lookup_replicate_2 by lia. rewrite lookup_ge_None_2; [done|]. unfold blen in *. lia.
Qed.

(** A page lies in one piece in b when it does in every file b is mixed from, and
    is the page they agree on. *)
Lemma mixes_page l b n x :
  0 < ps -> 0 <= n -> mixes l b -> (forall c, c ∈ l -> disk_page ps c n = x /\ apart ps c n) -> disk_page ps b n = x /\ apart ps b n.
Proof.
  intros Hps Hn [(c0 & Hc0 & Hl0) Hs] Hall. destruct (Hall c0 Hc0) as [E0 A0].
  assert (Hb : blen b = blen c0) by (unfold blen; lia). assert (Ha : apart ps b n) by (unfold apart in *; by rewrite Hb).
  split; [|done]. assert (0 < SectorSize) as H5 by (unfold SectorSize; lia).
  destruct (Z.leb_spec (n * ps + ps) (blen b)) as [Hin|Hout].
  2:{ unfold disk_page in E0 |- *. rewrite <- Hb in E0. rewrite (proj2 (Z.leb_gt _ _)) in E0 |- * by lia. done. }
  apply list_eq. intros i. destruct (decide (i < Z.to_nat ps)%nat) as [Hi|Hi].
  - rewrite disk_page_byte by done. set (j := (Z.to_nat (n * ps) + i)%nat).
    destruct (Hs (Z.to_nat (Z.of_nat j / SectorSize))) as (c & Hc & H). destruct (Hall c Hc) as [<- Ac].
    rewrite (disk_page_byte c) by done. fold j. rewrite (H j); [done| |rewrite Z2Nat.id; [done|apply Z.div_pos; lia]].
    unfold j, blen in *. lia.
  - pose proof (blen_disk_page ps b n ltac:(lia) Hn) as H1. pose proof (blen_disk_page ps c0 n ltac:(lia) Hn) as H2.
    rewrite <- E0. unfold blen in *. by rewrite !lookup_ge_None_2 by lia.
Qed.

(** What the files of a mixture stand for, the mixture stands for: its pages are
    theirs where the log has none, and its header is in one sector. *)
Lemma main_ok_mixes db ts l b : 4096 <= ps -> mixes l b -> (forall c, c ∈ l -> main_ok db ts c) -> main_ok db ts b.
Proof.
  intros Hps Hm Hall. pose proof Hm as [(c0 & Hc0 & Hl0) Hs]. destruct (Hall c0 Hc0) as [M1 M2 M3 M4 M5 M6].
  assert (Hb : blen b = blen c0) by (unfold blen; lia). constructor; try done.
  - apply Forall_lookup. intros i x Hi. destruct (Hs (Z.to_nat (Z.of_nat i / SectorSize))) as (c & Hc & H).
    pose proof (lookup_lt_Some _ _ _ Hi) as Hlt. rewrite (H i Hlt) in Hi by (rewrite Z2Nat.id; [done|apply Z.div_pos; unfold SectorSize; lia]).
    injection Hi as <-. destruct (c !! i) as [y|] eqn:E; [|unfold byte_ok; cbn; lia]. exact (Forall_lookup_1 _ _ _ _ (mo_bytes _ _ _ (Hall c Hc)) E).
  - destruct (Hs 0%nat) as (c & Hc & H). destruct (mo_head _ _ _ (Hall c Hc)) as [Hcl Hch]. destruct M2 as [H0l _].
    split; [by rewrite Hb|]. assert (E : read_data HeaderSize 0 b = read_data HeaderSize 0 c); [|by rewrite E].
    unfold read_data. apply sub_ext. unfold HeaderSize, blen in *. intros i Hi. change (Z.to_nat 0 + i)%nat with i. rewrite (H i).
    + destruct (lookup_lt_is_Some_2 c i ltac:(lia)) as [y ->]. done.
    + lia.
    + apply Z.div_small. unfold SectorSize. lia.
  - intros n Hn HN. apply (mixes_page l); [lia|lia|done|]. intros c Hc. by apply (mo_base _ _ _ (Hall c Hc)).
  - by rewrite Hb.
Qed.

(** Without a log the file holds the pages. *)
Lemma main_ok_plain db b :
  4096 <= ps -> main_ok db [] b -> forall n, 0 <= n < blen db -> disk_page ps b n = db_page db n.
Proof. intros Hps [M1 M2 M3 M4 M5 M6] n Hn. by apply (M4 n Hn). Qed.

(** A whole file with the pages needs no log. *)
Lemma main_ok_nil db ts b :
  0 < ps -> main_ok db ts b -> blen b mod ps = 0 -> (forall n, 0 <= n < blen db -> disk_page ps b n = db_page db n) -> main_ok db [] b.
Proof.
  intros Hps [M1 M2 M3 M4 M5 M6] Hw Hall. constructor; try done.
  - intros i Hi. by apply elem_of_nil in Hi.
  - intros n Hn _. split; [by apply Hall|by apply whole_apart].
Qed.
End images.

(** ** Crash conditions

    A condition C of the files that holds at every state a method goes through. *)

Abbreviation files := (gmap string dfile).

Definition safe (C : files -> Prop) (d d' : Disk) : Prop := exists l, went d d' l /\ Forall C l.

Lemma safe_refl C d : safe C d d.
Proof. exists []. split; [apply went_refl|constructor]. Qed.

Lemma safe_trans C d1 d2 d3 : safe C d1 d2 -> safe C d2 d3 -> safe C d1 d3.
Proof. intros (l1 & W1 & H1) (l2 & W2 & H2). exists (l2 ++ l1). split; [by eapply went_trans|by apply Forall_app]. Qed.

Lemma safe_step C path f d : C (<[path := f]> (dk_files d)) -> safe C d (disk_step path f d).
Proof. intros H. exists [<[path := f]> (dk_files d)]. split; [apply went_step|by constructor]. Qed.

Lemma safe_mono (C C' : files -> Prop) d d' : safe C d d' -> (forall f, C f -> C' f) -> safe C' d d'.
Proof. intros (l & W & H) HC. exists l. split; [done|]. eapply Forall_impl; [exact H|exact HC]. Qed.

Lemma dk_files_write path p off d :
  (Disk_WriteAt (DHandle path false) p off d).2 =
  disk_step path (MkFile (write_data p off (df_now (disk_file path d)))
    (tears p off (df_now (disk_file path d)) ++ df_now (disk_file path d) :: df_older (disk_file path d)) (df_linked (disk_file path d))) d.
Proof. done. Qed.

Lemma disk_file_Some path d f : dk_files d !! path = Some f -> disk_file path d = f.
Proof. unfold disk_file. by intros ->. Qed.

(** ** What a log replays *)

Definition scans (ps : Z) (w : bytes) (ts : list txn) : Prop :=
  exists h ts0 n, Wal.header_ok h /\ Wal.PageSize h = ps /\ Forall (txn_ok h) ts0 /\ w = take n (wal_file h ts0) /\
    ts = if (n <? 32)%nat then [] else complete ((n - 32) / Z.to_nat (FrameSize ps)) ts0.

Definition frame_image (fr : Wal.Frame) : PageImage := MkPageImage (Wal.PageID (fr_Header fr)) (fr_Payload fr).

Lemma log_frames_images h l : forall prev lsn no,
  map frame_image (log_frames h prev lsn no l) = map (fun e => MkPageImage (e_id e) (e_payload e)) l.
Proof. induction l as [|e l IH]; intros; cbn [log_frames map]; [done|]. f_equal. apply IH. Qed.

Lemma entries_images fs m : map (fun e => MkPageImage (e_id e) (e_payload e)) (entries fs m) = fs.
Proof. induction fs as [|[id pl] fs IH]; cbn [entries map]; [done|]. f_equal. apply IH. Qed.

Lemma wal_frames_images h ts : map frame_image (wal_frames h ts) = images ts.
Proof.
  unfold wal_frames, images, txn_log. rewrite log_frames_images, concat_map, map_map. f_equal. apply map_ext.
  intros t. apply entries_images.
Qed.

(** Open's scan of a log cut anywhere. *)
Lemma Scan_scans path d fuel ps w ts :
  scans ps w ts -> disk_data path d = w -> (length w < fuel)%nat ->
  exists r, Scan (ops:=disk_ops (DHandle path false)) d fuel ps = Some (inr r) /\
    map frame_image (Committed r) = images ts /\ (ts = [] -> Committed r = []) /\
    (forall t, last ts = Some t -> DBSizePages r = marker (tx_size t)).
Proof.
  intros (h & ts0 & n & Hh & <- & Hts & Hw & ->) Hd Hf.
  destruct (@Scan_truncated Disk (disk_ops (DHandle path false)) (disk_data path) (disk_laws (DHandle path false) eq_refl)
    d h ts0 n fuel Hh Hts ltac:(by rewrite Hd) ltac:(by rewrite Hd)) as (r & Hr & H1 & H2).
  exists r. split; [exact Hr|]. destruct (Nat.ltb_spec n 32) as [Hlt|Hge].
  - rewrite (H1 Hlt). done.
  - destruct (H2 Hge) as [[Hc Hl] _]. set (tc := complete _ ts0) in *. rewrite Hc. split; [apply wal_frames_images|]. split.
    + intros ->. done.
    + intros t E. rewrite E in Hl. apply Hl.
Qed.

(** ** Files a crash can be recovered from *)

Section recovery.
Context (ps algo : Z) (path wal : string).

(** Whatever the log falls back to, replaying it on the data file gives one of the
    databases, at whatever moment each part of the data file is left. *)
Definition recoverable (dbs : list bytes -> Prop) (fls : files) : Prop :=
  exists mf wf, fls !! path = Some mf /\ fls !! wal = Some wf /\ df_linked mf = true /\ df_linked wf = true /\
    forall w, once wf w -> exists ts db, dbs db /\ scans ps w ts /\ forall b, once mf b -> main_ok ps algo db ts b.

(** The files of db: a log of ts, all of it durable, and a data file that may be
    torn where the log covers it. *)
Definition stored (db : list bytes) (ts : list txn) (w : bytes) (fls : files) : Prop :=
  exists mf, fls !! path = Some mf /\ fls !! wal = Some (DFile w []) /\ df_linked mf = true /\ forall b, once mf b -> main_ok ps algo db ts b.

Lemma stored_recoverable (dbs : list bytes -> Prop) db ts w fls : stored db ts w fls -> scans ps w ts -> dbs db -> recoverable dbs fls.
Proof.
  intros (mf & H1 & H2 & HL & H3) Hs Hdb. exists mf, (DFile w []). split; [done|]. split; [done|]. split; [done|]. split; [done|]. intros w' Hw.
  apply once_synced in Hw as ->. by exists ts, db.
Qed.

Lemma recoverable_sub (dbs dbs' : list bytes -> Prop) fls : recoverable dbs fls -> (forall db, dbs db -> dbs' db) -> recoverable dbs' fls.
Proof.
  intros (mf & wf & H1 & H2 & H3 & H4 & H5) Hg. exists mf, wf. split; [done|]. split; [done|]. split; [done|]. split; [done|].
  intros w Hw. destruct (H5 w Hw) as (ts & db & Hdb & H). exists ts, db. split; [by apply Hg|done].
Qed.

Hypothesis (Hne : path <> wal) (Hps : 4096 <= ps).

(** The files after a crash. *)
Lemma recoverable_crashed dbs fls fls' :
  recoverable dbs fls -> crashed wal fls fls' ->
  exists b w ts db, fls' !! path = Some (DFile b []) /\ fls' !! wal = Some (DFile w []) /\ dbs db /\ scans ps w ts /\ main_ok ps algo db ts b.
Proof using Hne Hps.
  intros (mf & wf & H1 & H2 & H3 & H4 & H5) Hc. pose proof (Hc path) as Cp. rewrite H1 in Cp. pose proof (Hc wal) as Cw. rewrite H2 in Cw.
  destruct (fls' !! path) as [[b lb kb]|]; [|congruence]. destruct (fls' !! wal) as [[w lw kw]|]; [|congruence].
  destruct Cp as (P1 & P2 & P3), Cw as (W1 & W2 & W3). cbn [df_now df_older df_linked] in *. subst lb kb lw kw.
  unfold may_hold in P1, W1. rewrite decide_False in P1 by done. rewrite decide_True in W1 by done.
  destruct (H5 w W1) as (ts & db & Hdb & Hsc & Hmo). exists b, w, ts, db. split; [done|]. split; [done|]. split; [done|]. split; [done|].
  apply (main_ok_mixes ps algo db ts _ b Hps P1). intros c Hcc. by apply Hmo, once_elem.
Qed.

(** Writing a logged page. *)
Lemma stored_write db ts w d n p :
  stored db ts w (dk_files d) -> 0 <= n -> is_Some (last_image (images ts) n) -> blen p = ps -> bytes_ok p ->
  (n = 0 -> hdr_reads ps algo p) ->
  stored db ts w (dk_files (Disk_WriteAt (DHandle path false) p (n * ps) d).2).
Proof.
  intros (mf & H1 & H2 & HL & H3) Hn Hlog Hp Hok Hhd. rewrite dk_files_write, (disk_file_Some _ _ _ H1). cbn [dk_files disk_step].
  eexists. rewrite lookup_insert_eq. split; [done|]. rewrite lookup_insert_ne by done. split; [done|]. split; [done|].
  intros b Hb. apply once_written in Hb as [Hb|(k & Hk & -> & Hs)].
  - destruct mf. by apply H3.
  - apply main_ok_write; try done. apply H3. by left.
Qed.

Lemma stored_sync db ts w d : stored db ts w (dk_files d) -> stored db ts w (dk_files (Disk_Sync (DHandle path false) d).2).
Proof.
  intros (mf & H1 & H2 & HL & H3). unfold Disk_Sync, disk_data. cbn [dh_path snd disk_step dk_files]. rewrite (disk_file_Some _ _ _ H1).
  eexists. rewrite lookup_insert_eq. split; [done|]. rewrite lookup_insert_ne by done. split; [done|]. split; [done|].
  intros b Hb. apply once_synced in Hb as ->. apply H3. by left.
Qed.

(** Replaying the log, one page at a time. *)
Definition replayed (fs : list PageImage) (b : bytes) : Prop :=
  forall n, is_Some (last_image fs n) -> last_image fs n = Some (disk_page ps b n) /\ n * ps + ps <= blen b.

Lemma replayed_write fs b i :
  replayed fs b -> 0 <= pi_PageID i -> blen (pi_Payload i) = ps -> (forall j, j ∈ fs -> 0 <= pi_PageID j) ->
  replayed (fs ++ [i]) (write_data (pi_Payload i) (pi_PageID i * ps) b).
Proof.
  intros Hr Hi Hl Hfs n Hn. rewrite last_image_app in Hn |- *. cbn [last_image] in Hn |- *.
  destruct (disk_page_whole ps b (pi_Payload i) (pi_PageID i)) as [H1 H2]; [lia|done|done|].
  destruct (Z.eqb_spec (pi_PageID i) n) as [Heq|Hne'].
  - rewrite <- Heq. by rewrite H1.
  - destruct (Hr n Hn) as [E Hin]. assert (0 <= n).
    { destruct (last_image fs n) as [x|] eqn:El; [|by apply is_Some_None in Hn].
      apply last_image_elem in El as (j & Hj & <- & _). by apply Hfs. }
    destruct (disk_page_torn ps b (pi_Payload i) (pi_PageID i) n) as [H3 _]; try done; try lia; [by left|].
    rewrite H3. split; [done|]. rewrite blen_write_data by nia. lia.
Qed.

Lemma replay_spec db ts w fs : forall done (p : dpager) (d : Disk),
  p_main p = DHandle path false -> stored db ts w (dk_files d) -> replayed done (disk_data path d) ->
  images ts = done ++ map frame_image fs -> scans ps w ts ->
  gspec (giter (replay_frame (D:=Disk) (DHandle path false) ps) fs) (p, d)
    (fun _ s' => exists d', s' = (p, d') /\ stored db ts w (dk_files d') /\ replayed (images ts) (disk_data path d') /\
       safe (recoverable (eq db)) d d') (fun _ _ => False).
Proof.
  induction fs as [|fr fs IH]; intros dn p d Hmain Hst Hr Him Hsc; cbn [giter map] in *; gsteps.
  { exists d. split; [done|]. split; [done|]. rewrite Him, app_nil_r. split; [done|apply safe_refl]. }
  unfold replay_frame. apply gspec_write; [done|].
  assert (Hf : frame_image fr ∈ images ts) by (rewrite Him; apply elem_of_app; right; by left).
  pose proof Hst as (mf & _ & _ & _ & Hmo). destruct (mo_frames _ _ _ _ _ (Hmo (df_now mf) ltac:(by left)) _ Hf) as (F1 & F2 & F3 & F4).
  cbn [frame_image pi_PageID pi_Payload] in *.
  set (d1 := (Disk_WriteAt _ _ _ d).2).
  assert (Hst1 : stored db ts w (dk_files d1)).
  { apply stored_write; try done. by apply (last_image_logged _ (frame_image fr)). }
  assert (Hd1 : disk_data path d1 = write_data (fr_Payload fr) (Wal.PageID (fr_Header fr) * ps) (disk_data path d)).
  { unfold d1. rewrite dk_files_write. unfold disk_data at 1. by rewrite disk_file_step. }
  eapply gspec_mono; [apply (IH (dn ++ [frame_image fr]) p d1 Hmain Hst1)| |done].
  - rewrite Hd1. apply (replayed_write dn _ (frame_image fr)); try done. intros j Hj.
    apply (mo_frames _ _ _ _ _ (Hmo (df_now mf) ltac:(by left)) j). rewrite Him. apply elem_of_app. by left.
  - by rewrite Him, <- app_assoc.
  - done.
  - intros u s' (d' & -> & H1 & H2 & H3). exists d'. split; [done|]. split; [done|]. split; [done|].
    eapply safe_trans; [|exact H3]. unfold d1. rewrite dk_files_write. apply safe_step.
    eapply stored_recoverable; [exact Hst1|done|done].
Qed.
End recovery.

(** ** A fresh log *)

Lemma scans_nil ps h : Wal.header_ok h -> Wal.PageSize h = ps -> scans ps [] [].
Proof. intros Hh Hp. exists h, [], 0%nat. split; [done|]. split; [done|]. split; [constructor|]. done. Qed.

Lemma scans_header ps h : Wal.header_ok h -> Wal.PageSize h = ps -> scans ps (Wal.Encode h) [].
Proof.
  intros Hh Hp. exists h, [], 32%nat. split; [done|]. split; [done|]. split; [constructor|]. split; [|done].
  unfold wal_file, txn_log. cbn [map concat log_bytes]. rewrite app_nil_r, take_ge; [done|]. by rewrite Wal.length_Encode.
Qed.

Lemma once_fresh h b l u c :
  once (MkFile (write_data (Wal.Encode h) 0 (truncate_data 0 b))
     (tears (Wal.Encode h) 0 (truncate_data 0 b) ++ truncate_data 0 b :: b :: l) u) c ->
  c = Wal.Encode h \/ c = [] \/ once (MkFile b l u) c.
Proof.
  assert (E : truncate_data 0 b = []) by (rewrite truncate_data_take by (unfold blen; lia); done). rewrite E.
  assert (Hw : forall p, write_data p 0 [] = p).
  { intros p. pose proof (write_data_append p []) as H. exact H. }
  intros H. apply once_written in H as [H|(k & Hk & -> & Hs)].
  - right. apply once_truncated in H as [->|H]; [by left|by right].
  - rewrite Hw. rewrite Wal.length_Encode in *. destruct Hs as [->|Hs]; [left; apply take_ge; by rewrite Wal.length_Encode|].
    right. left. unfold SectorSize in Hs. assert (k = 0%nat) as -> by (rewrite Z.mod_small in Hs by lia; lia). done.
Qed.

Section fresh.
Context (csprng : nat -> Z) (ps algo : Z) (path wal : string).
Hypothesis (Hrand : forall k, byte_ok (csprng k)).

Lemma rand_bytes_ok k n : bytes_ok (map csprng (seq k n)) /\ blen (map csprng (seq k n)) = Z.of_nat n.
Proof.
  split; [|unfold blen; by rewrite length_map, length_seq]. apply Forall_forall. intros x Hx.
  apply list_elem_of_In, in_map_iff in Hx as (j & <- & _). apply Hrand.
Qed.

Lemma gspec_genSalt (p : dpager) (d : Disk) (Q : Z -> _ -> Prop) E :
  (forall v r, in_u 32 v -> Q v (set_rand r p, d)) -> gspec (genSalt csprng) (p, d) Q E.
Proof.
  intros HQ. unfold genSalt, gspec, gbind, rand_bytes, gret. cbn [fst snd]. apply HQ.
  destruct (rand_bytes_ok (p_rand p) 4) as [Hb Hl]. pose proof (le_val_bound _ Hb) as H. rewrite Hl in H. exact H.
Qed.

Lemma openFreshWAL_spec (p : dpager) (d : Disk) db mf :
  p_walPath p = wal -> p_pageSize p = ps -> 4096 <= ps <= 65536 -> in_u 32 (p_checkpointSeq p) -> path <> wal ->
  dk_files d !! path = Some mf -> is_Some (dk_files d !! wal) ->
  (forall b, once mf b -> main_ok ps algo db [] b) ->
  (forall w, once (disk_file wal d) w -> exists ts, scans ps w ts /\ forall b, once mf b -> main_ok ps algo db ts b) ->
  gspec (openFreshWAL csprng) (p, d)
    (fun _ s' => exists w r h d', s' = (set_walFrames 0 (set_walw (Some (w, DHandle wal false)) (set_rand r (set_walFile (Some (DHandle wal false)) p))), d') /\
       Wal.header_ok h /\ Wal.PageSize h = ps /\ @synced Disk (disk_data wal) h [] w d' /\
       dk_files d' !! wal = Some (DFile (disk_data wal d') []) /\ dk_files d' !! path = Some mf /\
       (df_linked mf = true -> df_linked (disk_file wal d) = true -> safe (recoverable ps algo path wal (eq db)) d d'))
    (fun _ _ => False).
Proof.
  intros Hw Hpsz Hps Hseq Hne Hmf Hwf Hplain Hold. unfold openFreshWAL. gsteps. unfold file_open. gsteps.
  unfold gio at 1, gspec at 1. cbn [fst snd FsOpen Disk_fs]. unfold Disk_Open. rewrite Hw. destruct Hwf as [wf Hwf]. rewrite Hwf.
  change (has_flag OpenCreate OpenExclusive && has_flag OpenCreate OpenCreate) with false. cbv iota.
  change (has_flag OpenCreate OpenReadOnly) with false. gsteps.
  apply gspec_genSalt. intros s1 r1 Hs1. gsteps. apply gspec_genSalt. intros s2 r2 Hs2. gsteps.
  rewrite Hpsz. rewrite (wrap_small 32 ps) by (unfold in_u; lia).
  set (h := Wal.NewHeader ps (p_checkpointSeq p) s1 s2).
  assert (Hh : Wal.header_ok h) by (unfold h, Wal.header_ok; cbn; split_and!; (done || (unfold in_u; lia))).
  destruct (@CreateWriter_synced Disk (disk_ops (DHandle wal false)) (disk_data wal) (disk_laws (DHandle wal false) eq_refl) h d)
    as (w & d2 & HC & Hsy).
  unfold gio at 1, gspec at 1. cbn [fst snd FsFile Disk_fs]. rewrite HC. unfold file_sync. gsteps.
  unfold gio at 1, gspec at 1. cbn [fst snd FsFile Disk_fs Vfs.Sync disk_ops]. unfold Disk_Sync. apply gspec_lift. cbn [io_res]. gsteps.
  set (b := df_now wf) in *. set (l := df_older wf) in *. set (u := df_linked wf) in *.
  assert (Hdw : disk_file wal d = wf) by by apply disk_file_Some. rewrite Hdw in Hold.
  set (d1 := disk_step wal (MkFile (truncate_data 0 b) (b :: l) u) d).
  assert (Hd2 : d2 = disk_step wal (MkFile (write_data (Wal.Encode h) 0 (truncate_data 0 b))
     (tears (Wal.Encode h) 0 (truncate_data 0 b) ++ truncate_data 0 b :: b :: l) u) d1).
  { unfold CreateWriter in HC. cbn [Truncate disk_ops] in HC. unfold Disk_Truncate in HC. cbn [dh_path] in HC. rewrite Hdw in HC.
    fold b l u d1 in HC. cbn [WriteAt disk_ops] in HC. unfold Disk_WriteAt in HC. cbn [dh_readOnly dh_path] in HC.
    assert (Hf1 : disk_file wal d1 = MkFile (truncate_data 0 b) (b :: l) u) by apply disk_file_step. rewrite Hf1 in HC.
    cbn [df_now df_older df_linked] in HC. congruence. }
  cbn [dh_path]. set (d3 := disk_step wal (DFile (disk_data wal d2) []) d2).
  assert (Hd3 : disk_data wal d3 = disk_data wal d2) by (unfold d3, disk_data; by rewrite disk_file_step).
  exists w, r2, h, d3. split; [done|]. split; [done|]. split; [done|]. split.
  { destruct Hsy as [Hs1' Hs2']. split; [by rewrite Hd3|done]. }
  split; [unfold d3 at 1; cbn [dk_files disk_step]; by rewrite lookup_insert_eq, Hd3|].
  assert (Hp1 : dk_files d1 !! path = Some mf) by (unfold d1; cbn [dk_files disk_step]; by rewrite lookup_insert_ne).
  assert (Hp2 : dk_files d2 !! path = Some mf) by (rewrite Hd2; cbn [dk_files disk_step]; by rewrite lookup_insert_ne).
  assert (Hp3 : dk_files d3 !! path = Some mf) by (unfold d3; cbn [dk_files disk_step]; by rewrite lookup_insert_ne).
  split; [done|]. rewrite Hdw. fold u. intros HLm HLw.
  assert (Hrec : forall wf' dd, dk_files dd !! path = Some mf -> dk_files dd !! wal = Some wf' -> df_linked wf' = true ->
    (forall c, once wf' c -> c = Wal.Encode h \/ c = [] \/ once (MkFile b l u) c) -> recoverable ps algo path wal (eq db) (dk_files dd)).
  { intros wf' dd Hx Hy Hu Hz. exists mf, wf'. split; [done|]. split; [done|]. split; [done|]. split; [done|]. intros c Hc.
    destruct (Hz c Hc) as [->|[->|Hc']].
    - exists [], db. split; [done|]. split; [by apply scans_header|exact Hplain].
    - exists [], db. split; [done|]. split; [by apply (scans_nil ps h)|exact Hplain].
    - destruct wf. destruct (Hold c Hc') as (ts & Hts & Hmo). by exists ts, db. }
  eapply safe_trans; [apply (safe_step _ wal (MkFile (truncate_data 0 b) (b :: l) u) d)|].
  { apply (Hrec (MkFile (truncate_data 0 b) (b :: l) u) d1); [done|unfold d1; cbn [dk_files disk_step]; by rewrite lookup_insert_eq|done|].
    intros c Hc. apply once_truncated in Hc as [->|Hc]; [|by right; right]. right. left.
    rewrite truncate_data_take by (unfold blen; lia). done. }
  fold d1. apply (safe_trans _ _ d2); [rewrite Hd2; apply safe_step|].
  { eapply (Hrec _ (disk_step wal _ d1)); [cbn [dk_files disk_step]; by rewrite lookup_insert_ne|cbn [dk_files disk_step]; by rewrite lookup_insert_eq|done|].
    intros c Hc. exact (once_fresh h b l u c Hc). }
  apply safe_step. apply (Hrec (DFile (disk_data wal d2) []) d3); [done|unfold d3; cbn [dk_files disk_step]; by rewrite lookup_insert_eq|done|].
  intros c Hc. apply once_synced in Hc as ->. left. destruct Hsy as [Hs1' _]. rewrite Hs1'. cbn [log_bytes]. by rewrite app_nil_r.
Qed.
End fresh.

(** ** Recovery and opening *)

Section opening.
Context (csprng : nat -> Z) (range : gset Z -> list Z) (fuel : nat) (ps algo : Z) (path : string).
Notation wal := (path +:+ "-wal").

Lemma path_ne_wal : path <> wal.
Proof. induction path as [|c s IH]; [done|]. intros [= H]. by apply IH. Qed.

Lemma file_open_spec (p : dpager) (d : Disk) path' f flags (Q : dhandle -> _ -> Prop) E :
  dk_files d !! path' = Some f -> has_flag flags OpenExclusive && has_flag flags OpenCreate = false ->
  Q (DHandle path' (has_flag flags OpenReadOnly)) (p, d) -> gspec (file_open path' flags) (p, d) Q E.
Proof.
  intros Hf Hx HQ. unfold file_open, gspec, gbind, gio. cbn [fst snd FsOpen Disk_fs]. unfold Disk_Open. rewrite Hf, Hx. exact HQ.
Qed.

(** The data file after recovery holds the pages, and nothing of it can be lost. *)
Lemma recover_spec (p : dpager) (d : Disk) db ts b w :
  p_main p = DHandle path false -> p_walPath p = wal -> p_pageSize p = ps -> 4096 <= ps <= 65536 -> 1 <= blen db ->
  dk_files d !! path = Some (DFile b []) -> dk_files d !! wal = Some (DFile w []) ->
  scans ps w ts -> main_ok ps algo db ts b -> (length w < fuel)%nat ->
  gspec (recover fuel) (p, d)
    (fun _ s' => exists d' b', s' = (p, d') /\ safe (recoverable ps algo path wal (eq db)) d d' /\
       dk_files d' !! path = Some (DFile b' []) /\ dk_files d' !! wal = Some (DFile w []) /\ main_ok ps algo db [] b' /\
       main_ok ps algo db ts b')
    (fun _ _ => False).
Proof.
  intros Hmain Hwp Hpsz Hps Hdb Hpf Hwf Hsc Hmo Hfuel. pose proof path_ne_wal as Hne.
  assert (Hst : stored ps algo path wal db ts w (dk_files d)).
  { exists (DFile b []). split; [done|]. split; [done|]. split; [done|]. intros c Hc. by apply once_synced in Hc as ->. }
  unfold recover. gsteps. unfold file_exists. unfold gspec at 1. cbn [snd FsExists Disk_fs]. rewrite Hwp, Hwf. cbn [negb]. gsteps.
  eapply file_open_spec; [exact Hwf|done|]. change (has_flag OpenRead OpenReadOnly) with false. gsteps.
  assert (Hgoal : gspec (recover_from fuel (DHandle wal false)) (p, d)
    (fun _ s' => exists d' b', s' = (p, d') /\ safe (recoverable ps algo path wal (eq db)) d d' /\
       dk_files d' !! path = Some (DFile b' []) /\ dk_files d' !! wal = Some (DFile w []) /\ main_ok ps algo db [] b' /\
       main_ok ps algo db ts b') (fun _ _ => False)).
  2:{ eapply gspec_mono; [exact Hgoal| |done]. intros g s' (d' & b' & -> & H). gsteps. by exists d', b'. }
  unfold recover_from. gsteps. rewrite Hpsz, (wrap_small 32 ps) by (unfold in_u; lia).
  assert (Hdw : disk_data wal d = w) by (unfold disk_data; by rewrite (disk_file_Some _ _ _ Hwf)).
  destruct (Scan_scans wal d fuel ps w ts Hsc Hdw Hfuel) as (r & Hr & Hfi & Hnil & Hsize).
  unfold gspec at 1. cbn [snd FsFile Disk_fs]. rewrite Hr. destruct (Nat.eqb_spec (length (Committed r)) 0) as [H0|H0].
  { gsteps. apply nil_length_inv in H0. rewrite H0 in Hfi. exists d, b. split; [done|]. split; [apply safe_refl|].
    split; [done|]. split; [done|]. split; [|done].
    assert (ts = []) as ->; [|done]. destruct ts as [|t ts'] using rev_ind; [done|]. exfalso.
    destruct Hsc as (h & ts0 & n & _ & _ & Hok & _ & E). assert (Htx : Forall (txn_ok h) (ts' ++ [t])).
    { rewrite E. destruct (n <? 32)%nat; [constructor|by apply complete_ok]. }
    apply Forall_app in Htx as [_ Ht]. apply Forall_singleton in Ht as (Hfr & _). rewrite images_app in Hfi.
    cbn [map] in Hfi. symmetry in Hfi. apply app_eq_nil in Hfi as [_ Hfi]. unfold images in Hfi. cbn [map concat] in Hfi. rewrite app_nil_r in Hfi. done. }
  destruct ts as [|t0 ts0] eqn:Ets; [by rewrite (Hnil eq_refl) in H0|]. rewrite <- Ets in *. assert (Hts : ts <> []) by (by rewrite Ets). clear Ets.
  gsteps. rewrite Hmain. eapply gspec_mono.
  { apply (replay_spec ps algo path wal Hne ltac:(lia) db ts w (Committed r) [] p d Hmain Hst); [|by rewrite Hfi|done].
    intros n Hn. by apply is_Some_None in Hn. }
  2: done.
  intros u s1 (d1 & -> & (mf1 & Hp1 & Hw1 & HL1 & Hmo1) & Hrep & Hsafe1). gsteps.
  destruct (last ts) as [t|] eqn:El; [|by apply last_None in El].
  assert (Hsz : tx_size t = blen db) by (pose proof (mo_size _ _ _ _ _ Hmo) as H; by rewrite El in H).
  rewrite (Hsize t eq_refl), Hsz. assert (Hmk : marker (blen db) = blen db) by (unfold marker; by rewrite (proj2 (Z.eqb_neq _ _)) by lia). rewrite Hmk.
  assert (Hd1 : disk_file path d1 = mf1) by by apply disk_file_Some.
  assert (Hlog : forall n, 0 <= n < blen db -> is_Some (last_image (images ts) n) ->
    disk_page ps (df_now mf1) n = db_page db n /\ n * ps + ps <= blen (df_now mf1)).
  { intros n Hn Hl. destruct (Hrep n Hl) as [E Hin]. unfold disk_data in E, Hin. rewrite Hd1 in E, Hin. split; [|done].
    by apply (mo_log _ _ _ _ _ (Hmo1 (df_now mf1) ltac:(by left))). }
  destruct (main_ok_truncate ps algo db ts (df_now mf1) ltac:(lia) (Hmo1 _ ltac:(by left)) Hts ltac:(lia) Hlog) as (Hmt & Hall & Hlen).
  set (b2 := truncate_data (blen db * ps) (df_now mf1)) in *.
  unfold file_truncate. gsteps. unfold gio at 1, gspec at 1. cbn [fst snd FsFile Disk_fs Truncate disk_ops].
  unfold Disk_Truncate at 1. cbn [dh_path]. rewrite Hd1. fold b2. apply gspec_lift. cbn [io_res]. gsteps.
  set (d2 := disk_step path _ d1). unfold file_sync. gsteps. unfold gio at 1, gspec at 1. cbn [fst snd FsFile Disk_fs Vfs.Sync disk_ops].
  unfold Disk_Sync. cbn [dh_path]. apply gspec_lift. cbn [io_res]. gsteps.
  assert (Hd2 : disk_data path d2 = b2) by (unfold d2, disk_data; by rewrite disk_file_step). rewrite Hd2.
  set (d3 := disk_step path (DFile b2 []) d2).
  assert (Hst2 : stored ps algo path wal db ts w (dk_files d2)).
  { eexists. unfold d2. cbn [dk_files disk_step]. rewrite lookup_insert_eq, lookup_insert_ne by done. split; [done|]. split; [done|]. split; [done|].
    intros c Hc. apply once_truncated in Hc as [->|Hc]; [done|]. destruct mf1. by apply Hmo1. }
  assert (Hst3 : stored ps algo path wal db ts w (dk_files d3)).
  { exists (DFile b2 []). unfold d3. cbn [dk_files disk_step]. rewrite lookup_insert_eq, lookup_insert_ne by done. split; [done|].
    split; [unfold d2; cbn [dk_files disk_step]; by rewrite lookup_insert_ne|]. split; [done|]. intros c Hc. by apply once_synced in Hc as ->. }
  assert (Hend : forall g, exists d' b', (p, d3) = (p, d') /\ safe (recoverable ps algo path wal (eq db)) d d' /\
       dk_files d' !! path = Some (DFile b' []) /\ dk_files d' !! wal = Some (DFile w []) /\ main_ok ps algo db [] b' /\ main_ok ps algo db ts b' /\ g = g :> Z).
  { intros g. exists d3, b2. split; [done|]. split.
    - eapply safe_trans; [exact Hsafe1|]. eapply safe_trans; apply safe_step; eapply stored_recoverable; [exact Hst2|done|done|exact Hst3|done|done].
    - destruct Hst3 as (mf3 & H3a & H3b & _). split; [unfold d3; cbn [dk_files disk_step]; by rewrite lookup_insert_eq|]. split; [done|].
      split; [|done]. eapply main_ok_nil; [lia|exact Hmt| |exact Hall]. rewrite Hlen. apply Z.mod_mul. lia. }
  unfold scanGeneration. gsteps. unfold file_read. unfold gspec at 1. destruct (ReadAt _ _ _) as [hb [e|]]; gsteps.
  - destruct (Hend 0) as (d' & b' & ? & ? & ? & ? & ? & ? & _). by exists d', b'.
  - destruct (DecodeWALHeader hb) as [e|hh]; gsteps; destruct (Hend 0) as (d' & b' & ? & ? & ? & ? & ? & ? & _); by exists d', b'.
Qed.
End opening.
