(* ===== verification/PagerDurable.v ===== *)
(** * pager/pager.go: what is durable while the pager runs

    The state of a pager whose last commit left the database db: its log holds the
    images committed since the last checkpoint, its data file the rest, its pool
    the pages as they are now. Every method but Commit keeps db, and a crash at any
    moment leaves files from which db can be recovered. *)

From S2P Require Import Prelude Checksum Page Vfs Disk Wal DbHeader PageStore Pool Pager PagerInv PagerLaws PagerFree PagerLog.
From stdpp Require Import strings.

#[local] Open Scope Z_scope.
#[local] Open Scope pg_scope.

(** ** The pages in the pool and on the disk *)

(** A frame with bytes that no commit has logged. *)
Definition uncommitted (flushed : Z) (f : Frame) : Prop := dirty f = true /\ flushed < pageLSN f.

#[global] Instance uncommitted_dec flushed f : Decision (uncommitted flushed f).
Proof. apply _. Defined.

(** t and the data file b hold db, except for the uncommitted frames; pages past
    the end of db are uncommitted; a dirty page that is committed is in the log. *)
Record held (ps flushed : Z) (db : list bytes) (ts : list txn) (t : gmap Z Frame) (b : bytes) (cnt lsn : Z) : Prop := Held {
  hd_away : forall n, 0 <= n < blen db -> t !! n = None -> disk_page ps b n = db_page db n;
  hd_frames : forall n f, t !! n = Some f -> ~ uncommitted flushed f -> 0 <= n < blen db /\ Buf f = db_page db n;
  hd_logged : forall n f, t !! n = Some f -> dirty f = true -> pageLSN f <= flushed -> is_Some (last_image (images ts) n);
  hd_grown : forall n, blen db <= n < cnt -> exists f, t !! n = Some f /\ uncommitted flushed f;
  hd_lsn : forall n f, t !! n = Some f -> dirty f = true -> pageLSN f <= lsn;
  hd_flushed : 0 <= flushed <= lsn
}.

Section held.
Context (ps flushed : Z) (db : list bytes) (ts : list txn).

(** Marking a resident page, or a new page, as written. *)
Lemma held_write t b cnt cnt' lsn lsn' n g :
  held ps flushed db ts t b cnt lsn -> dirty g = true -> lsn < pageLSN g <= lsn' ->
  (is_Some (t !! n) /\ cnt' = cnt \/ n = cnt /\ cnt' = cnt + 1 /\ blen db <= cnt) ->
  held ps flushed db ts (<[n := g]> t) b cnt' lsn'.
Proof.
  intros [H1 H2 H3 H4 H5 H6] Hg Hl Hn. assert (Hu : uncommitted flushed g) by (split; [done|lia]). constructor.
  - intros m Hm HN. apply lookup_insert_None in HN as [HN _]. by apply H1.
  - intros m f Hm Hc. apply lookup_insert_Some in Hm as [[<- <-]|[_ Hm]]; [done|by apply H2].
  - intros m f Hm Hd Hf. apply lookup_insert_Some in Hm as [[<- <-]|[_ Hm]]; [lia|by eapply H3].
  - intros m Hm. destruct (decide (m = n)) as [->|Hne]; [exists g; by rewrite lookup_insert_eq|].
    rewrite lookup_insert_ne by done. apply H4. destruct Hn as [[_ ->]|(-> & -> & _)]; lia.
  - intros m f Hm Hd. apply lookup_insert_Some in Hm as [[<- <-]|[_ Hm]]; [lia|]. specialize (H5 m f Hm Hd). lia.
  - lia.
Qed.

(** Changing the pins of a frame, or its place on the lists. *)
Lemma held_same t b cnt lsn n f g :
  held ps flushed db ts t b cnt lsn -> t !! n = Some f -> Buf g = Buf f -> dirty g = dirty f -> pageLSN g = pageLSN f ->
  held ps flushed db ts (<[n := g]> t) b cnt lsn.
Proof.
  intros [H1 H2 H3 H4 H5 H6] Hf Hb Hd Hl. assert (Hu : uncommitted flushed g <-> uncommitted flushed f) by (unfold uncommitted; by rewrite Hd, Hl).
  constructor; try done.
  - intros m Hm HN. apply lookup_insert_None in HN as [HN _]. by apply H1.
  - intros m x Hm Hc. apply lookup_insert_Some in Hm as [[<- <-]|[_ Hm]]; [|by apply H2]. rewrite Hb. apply H2; [done|]. by rewrite <- Hu.
  - intros m x Hm Hx Hlx. apply lookup_insert_Some in Hm as [[<- <-]|[_ Hm]]; [|by eapply H3]. eapply H3; [done|congruence|congruence].
  - intros m Hm. destruct (H4 m Hm) as (x & Hx & Hxu). destruct (decide (m = n)) as [->|Hne].
    + exists g. rewrite lookup_insert_eq. split; [done|]. apply Hu. congruence.
    + exists x. by rewrite lookup_insert_ne.
  - intros m x Hm Hx. apply lookup_insert_Some in Hm as [[<- <-]|[_ Hm]]; [|by eapply H5]. rewrite Hl. eapply H5; [done|congruence].
Qed.

(** A page read in. *)
Lemma held_admit t b cnt lsn n g :
  held ps flushed db ts t b cnt lsn -> t !! n = None -> 0 <= n < cnt -> dirty g = false -> Buf g = disk_page ps b n ->
  held ps flushed db ts (<[n := g]> t) b cnt lsn.
Proof.
  intros [H1 H2 H3 H4 H5 H6] HN Hn Hd Hb.
  assert (Hin : 0 <= n < blen db).
  { destruct (Z.lt_ge_cases n (blen db)); [lia|]. destruct (H4 n ltac:(lia)) as (x & Hx & _). congruence. }
  constructor; try done.
  - intros m Hm HN'. apply lookup_insert_None in HN' as [HN' _]. by apply H1.
  - intros m x Hm Hc. apply lookup_insert_Some in Hm as [[<- <-]|[_ Hm]]; [|by apply H2]. split; [done|]. rewrite Hb. by apply H1.
  - intros m x Hm Hx Hlx. apply lookup_insert_Some in Hm as [[<- <-]|[_ Hm]]; [congruence|by eapply H3].
  - intros m Hm. destruct (H4 m Hm) as (x & Hx & Hxu). exists x. rewrite lookup_insert_ne; [done|]. intros <-. congruence.
  - intros m x Hm Hx. apply lookup_insert_Some in Hm as [[<- <-]|[_ Hm]]; [congruence|by eapply H5].
Qed.

(** A committed frame that leaves, its page being in the data file. *)
Lemma held_delete t b b' cnt lsn v :
  held ps flushed db ts t b cnt lsn -> t !! PageID v = Some v -> ~ uncommitted flushed v ->
  disk_page ps b' (PageID v) = Buf v -> (forall n, 0 <= n -> n <> PageID v -> disk_page ps b' n = disk_page ps b n) ->
  held ps flushed db ts (delete (PageID v) t) b' cnt lsn.
Proof.
  intros [H1 H2 H3 H4 H5 H6] Hv Hu Hb Hb'. constructor; try done.
  - intros n Hn HN. destruct (decide (n = PageID v)) as [->|Hne].
    + rewrite Hb. by apply H2.
    + rewrite lookup_delete_ne in HN by done. rewrite Hb' by (done || lia). by apply H1.
  - intros n f Hn Hc. apply lookup_delete_Some in Hn as [_ Hn]. by apply H2.
  - intros n f Hn Hd Hl. apply lookup_delete_Some in Hn as [_ Hn]. by eapply H3.
  - intros n Hn. destruct (H4 n Hn) as (x & Hx & Hxu). exists x. rewrite lookup_delete_ne; [done|]. intros E. rewrite <- E in Hx. congruence.
  - intros n f Hn Hd. apply lookup_delete_Some in Hn as [_ Hn]. by eapply H5.
Qed.
End held.

(** ** A pager that keeps a database *)

Section durable.
Context (ps algo : Z) (path : string).
Notation wal := (path +:+ "-wal").

(** Everything committed is db: in the data file and the log of ts, or in frames
    the log covers. *)
Record durable (s : dpager * Disk) (db : list bytes) (wh : Wal.Header) (ts : list txn) : Prop := Durable {
  du_inv : pager_inv s;
  du_size : p_pageSize s.1 = ps;
  du_algo : p_checksum s.1 = algo;
  du_path : p_path s.1 = path;
  du_walPath : p_walPath s.1 = wal;
  du_sync : p_sync s.1 <> SyncOff;
  du_seq : in_u 32 (p_checkpointSeq s.1);
  du_db : db_ok ps algo db;
  du_wal : exists w, p_walFile s.1 = Some (DHandle wal false) /\ p_walw s.1 = Some (w, DHandle wal false) /\
    @synced Disk (disk_data wal) wh (txn_log ts) w s.2;
  du_log : Wal.header_ok wh /\ Wal.PageSize wh = ps /\ Forall (txn_ok wh) ts;
  du_stored : stored ps algo path wal db ts (disk_data wal s.2) (dk_files s.2);
  du_held : held ps (p_walFlushedLSN s.1) db ts (table (p_pool s.1)) (pg_data s.1 s.2) (count s) (p_nextLSN s.1);
  du_zero : forall f, table (p_pool s.1) !! 0 = Some f -> Buf f = hdr_page ps (p_hdr s.1);
  du_count : blen db <= count s
}.

Lemma complete_all ts : forall k, (length (txn_log ts) <= k)%nat -> complete k ts = ts.
Proof.
  induction ts as [|t ts IH]; intros k Hk; cbn [complete]; [done|].
  unfold txn_log in *. cbn [map concat] in Hk. rewrite length_app, length_entries in Hk.
  rewrite (proj2 (Nat.leb_le _ _)) by lia. f_equal. apply IH. lia.
Qed.

(** The log of a durable pager, read back. *)
Lemma scans_all wh ts :
  Wal.header_ok wh -> Wal.PageSize wh = ps -> Forall (txn_ok wh) ts -> 4096 <= ps -> scans ps (wal_file wh ts) ts.
Proof.
  intros Hh Hp Ht Hps. set (len := length (wal_file wh ts)). exists wh, ts, len. split; [done|]. split; [done|]. split; [done|].
  split; [symmetry; by apply take_ge|].
  assert (Hl : len = (32 + length (txn_log ts) * Z.to_nat (FrameSize ps))%nat).
  { unfold len, wal_file. rewrite length_app, Wal.length_Encode, (length_log_bytes wh) by (by apply txn_log_ok).
    by rewrite Hp. }
  assert (Hf : (0 < Z.to_nat (FrameSize ps))%nat) by (unfold FrameSize, FrameHeaderSize; lia).
  rewrite (proj2 (Nat.ltb_ge _ _)) by lia. rewrite Hl.
  replace (32 + _ - 32)%nat with (length (txn_log ts) * Z.to_nat (FrameSize ps))%nat by lia.
  rewrite Nat.div_mul by lia. symmetry. by apply complete_all.
Qed.

Lemma durable_scans s db wh ts : durable s db wh ts -> scans ps (disk_data wal s.2) ts.
Proof.
  intros Hd. destruct (du_wal _ _ _ _ Hd) as (w & _ & _ & Hsy & _). destruct (du_log _ _ _ _ Hd) as (H1 & H2 & H3).
  rewrite Hsy. apply scans_all; try done. pose proof (pi_open _ (du_inv _ _ _ _ Hd)) as Hp.
  pose proof (valid_size _ (pn_size _ Hp)) as [H _]. rewrite (du_size _ _ _ _ Hd) in H. lia.
Qed.

(** Evicting a committed page keeps db, at every moment. *)
Lemma evicts_keeps db ts w p (d : Disk) cnt lsn t' d' :
  pg_open p -> p_pageSize p = ps -> p_path p = path -> pool_ok ps 0 (p_pool p) ->
  lent ps cnt (table (p_pool p)) (pg_data p d) ->
  held ps (p_walFlushedLSN p) db ts (table (p_pool p)) (pg_data p d) cnt lsn ->
  stored ps algo path wal db ts w (dk_files d) -> scans ps w ts -> evicts p d t' d' ->
  held ps (p_walFlushedLSN p) db ts t' (pg_data p d') cnt lsn /\ stored ps algo path wal db ts w (dk_files d') /\
  safe (recoverable ps algo path wal (eq db)) d d' /\ disk_file wal d' = disk_file wal d /\ t' !! 0 = table (p_pool p) !! 0.
Proof.
  intros Hp Hsz Hpath HP HL Hh Hst Hsc He. pose proof (valid_size _ (pn_size _ Hp)) as [Hps _]. rewrite Hsz in Hps.
  destruct (evicts_lent p d cnt t' d' Hp ltac:(by rewrite Hsz) ltac:(by rewrite Hsz) He) as (HL' & Hv & Hsub & _ & Hoth).
  rewrite Hsz in HL', Hv. destruct (ln_zero _ _ _ _ HL) as (f0 & Hf0 & Hl0).
  destruct He as [|v Hv0 Hl Hpin Hd|v Hv0 Hl Hpin Hd Hlsn Hz].
  - split; [done|]. split; [done|]. split; [apply safe_refl|]. done.
  - assert (Hu : ~ uncommitted (p_walFlushedLSN p) v) by (intros [? _]; congruence).
    split; [|split; [done|]; split; [apply safe_refl|]; split; [done|]].
    + apply held_delete with (b := pg_data p d); try done. symmetry. by apply (ln_clean _ _ _ _ HL).
    + apply lookup_delete_ne. intros E. rewrite E in Hv0. congruence.
  - assert (Hu : ~ uncommitted (p_walFlushedLSN p) v) by (intros [_ ?]; lia).
    assert (Hn0 : PageID v <> 0). { intros E. rewrite E in Hv0. congruence. }
    destruct (po_frames _ _ _ HP _ _ Hv0) as (_ & Hlen & Hok & _).
    assert (0 <= PageID v < cnt) as Hr by (apply (ln_range _ _ _ _ HL); by eexists).
    assert (Hst' : stored ps algo path wal db ts w (dk_files (Disk_WriteAt (p_main p) (Buf v) (PageID v * p_pageSize p) d).2)).
    { rewrite (pn_main _ Hp), Hpath, Hsz. apply stored_write; try done; try lia; [apply path_ne_wal|].
      by apply (hd_logged _ _ _ _ _ _ _ _ Hh _ v). }
    destruct (pg_data_write p d (Buf v) (PageID v * p_pageSize p) Hp) as [Hd' _]. rewrite Hsz in Hd'.
    assert (Hdp : forall m, 0 <= m -> disk_page ps (write_data (Buf v) (PageID v * ps) (pg_data p d)) m =
      if decide (m = PageID v) then Buf v else disk_page ps (pg_data p d) m).
    { intros m Hm. apply disk_page_write; try (done || lia). apply (ln_whole _ _ _ _ HL). }
    split; [|split; [done|]; split; [|split]].
    + rewrite Hsz, Hd'. apply held_delete with (b := pg_data p d); try done.
      * rewrite Hdp by lia. by rewrite decide_True.
      * intros n Hn Hne. rewrite Hdp by done. by rewrite decide_False.
    + rewrite (pn_main _ Hp), Hpath, Hsz in Hst' |- *. rewrite dk_files_write in Hst' |- *. apply safe_step.
      by eapply stored_recoverable; [exact Hst'|..].
    + apply Hoth. rewrite Hpath. apply not_eq_sym, path_ne_wal.
    + apply lookup_delete_ne. done.
Qed.

(** ** The methods that commit nothing *)

(** The pager keeps db, and a crash at any moment on the way does too. *)
Definition still (db : list bytes) (wh : Wal.Header) (ts : list txn) (s s' : dpager * Disk) : Prop :=
  durable s' db wh ts /\ safe (recoverable ps algo path wal (eq db)) s.2 s'.2 /\
  p_nextLSN s.1 <= p_nextLSN s'.1 <= p_nextLSN s.1 + 2.

(** A state a method lands in, from its table and its files. *)
Lemma durable_lands p (d : Disk) db wh ts t h l d' s' :
  durable (p, d) db wh ts -> lands p t h l d' s' -> pager_inv s' ->
  held ps (p_walFlushedLSN p) db ts t (pg_data p d') (DbHeader.PageCount h) l ->
  stored ps algo path wal db ts (disk_data wal d) (dk_files d') -> disk_file wal d' = disk_file wal d ->
  (forall f, t !! 0 = Some f -> Buf f = hdr_page ps h) -> blen db <= DbHeader.PageCount h ->
  safe (recoverable ps algo path wal (eq db)) d d' -> p_nextLSN p <= l <= p_nextLSN p + 2 -> still db wh ts (p, d) s'.
Proof.
  intros Hd (P & c & -> & HP & Hz & Ht) Hi Hh Hst Hw H0 Hc Hs Hl. split; [|split; [exact Hs|exact Hl]].
  destruct Hd as [D1 D2 D3 D4 D5 D6 D7 D8 D9 D10 D11 D12 D13 D14]. cbn [fst snd] in *.
  constructor; try done; cbn [fst snd pgw p_walFlushedLSN p_pool p_nextLSN p_hdr set_pool set_ctr set_hdr set_nextLSN].
  - destruct D9 as (w & W1 & W2 & W3 & W4). exists w. split; [done|]. split; [done|]. split; [|done].
    unfold disk_data in *. by rewrite Hw.
  - unfold disk_data in *. by rewrite Hw.
  - rewrite Ht. exact Hh.
  - rewrite Ht. exact H0.
Qed.

Lemma gspec_and {S A} (m : PG S A) s (Q Q' : A -> S -> Prop) (E E' : pgErr -> S -> Prop) :
  gspec m s Q E -> gspec m s Q' E' -> gspec m s (fun a s' => Q a s' /\ Q' a s') (fun e s' => E e s' /\ E' e s').
Proof. unfold gspec. destruct (m s) as [[a|e|] s']; done. Qed.

Lemma durable_size s db wh ts : durable s db wh ts -> 4096 <= ps <= 65536 /\ ValidPageSize ps = true /\ Supported algo = true.
Proof.
  intros Hd. pose proof (pi_open _ (du_inv _ _ _ _ Hd)) as Hp. pose proof (pn_size _ Hp) as H. pose proof (pn_algo _ Hp) as Ha.
  rewrite (du_size _ _ _ _ Hd) in H. rewrite (du_algo _ _ _ _ Hd) in Ha. split; [|done]. by apply valid_size in H as [? _].
Qed.

(** Finding a frame for a page. *)
Lemma durable_evicts p (d : Disk) db wh ts t' d' :
  durable (p, d) db wh ts -> evicts p d t' d' ->
  held ps (p_walFlushedLSN p) db ts t' (pg_data p d') (count (p, d)) (p_nextLSN p) /\
  stored ps algo path wal db ts (disk_data wal d) (dk_files d') /\
  safe (recoverable ps algo path wal (eq db)) d d' /\ disk_file wal d' = disk_file wal d /\ t' !! 0 = table (p_pool p) !! 0.
Proof.
  intros Hd He. pose proof (du_inv _ _ _ _ Hd) as [Hop Hpo Hh Hc HL Hfr]. cbn [fst snd] in *.
  pose proof (du_size _ _ _ _ Hd) as Hsz. cbn [fst] in Hsz. rewrite Hsz in Hpo, HL.
  eapply (evicts_keeps db ts _ p d (DbHeader.PageCount (p_hdr p))); try done; [exact (du_path _ _ _ _ Hd)|exact (du_held _ _ _ _ Hd)|exact (du_stored _ _ _ _ Hd)|exact (durable_scans _ _ _ _ Hd)].
Qed.

Lemma durable_fetched p (d : Disk) db wh ts n t' d' :
  durable (p, d) db wh ts -> 0 <= n < count (p, d) -> fetched p d n t' d' ->
  held ps (p_walFlushedLSN p) db ts t' (pg_data p d') (count (p, d)) (p_nextLSN p) /\
  stored ps algo path wal db ts (disk_data wal d) (dk_files d') /\
  safe (recoverable ps algo path wal (eq db)) d d' /\ disk_file wal d' = disk_file wal d /\
  (forall f, t' !! 0 = Some f -> Buf f = hdr_page ps (p_hdr p)).
Proof.
  intros Hd Hn [(f & Hf & -> & ->)|(HN & t1 & l & He & Hl & ->)].
  - split; [by eapply held_same; [exact (du_held _ _ _ _ Hd)|..]|]. split; [exact (du_stored _ _ _ _ Hd)|]. split; [apply safe_refl|].
    split; [done|]. intros g Hg. pose proof (du_zero _ _ _ _ Hd) as H0. cbn [fst] in H0.
    apply lookup_insert_Some in Hg as [[-> <-]|[_ Hg]]; [exact (H0 f Hf)|by apply H0].
  - destruct (durable_evicts _ _ _ _ _ _ _ Hd He) as (H1 & H2 & H3 & H4 & H5).
    pose proof (evicts_table _ _ _ _ n He HN) as HN1. pose proof (du_size _ _ _ _ Hd) as Hsz. cbn [fst] in Hsz.
    split; [apply held_admit; try done; cbn [Buf]; by rewrite Hsz|]. split; [done|]. split; [done|]. split; [done|].
    intros g Hg. pose proof (du_zero _ _ _ _ Hd) as H0. cbn [fst] in H0.
    apply lookup_insert_Some in Hg as [[-> <-]|[_ Hg]]; [|apply H0; by rewrite <- H5].
    destruct (ln_zero _ _ _ _ (pi_lent _ (du_inv _ _ _ _ Hd))) as (f0 & Hf0 & _). cbn [fst] in Hf0. congruence.
Qed.

Lemma fail_still p (d : Disk) db wh ts n e s' :
  durable (p, d) db wh ts -> fetch_fails p d n e s' -> still db wh ts (p, d) s'.
Proof.
  intros Hd Hf. destruct (fail_keeps _ _ _ _ _ (du_inv _ _ _ _ Hd) Hf) as (_ & Hk & _). pose proof (ks_inv _ _ _ (Hk 0)) as Hi.
  destruct Hf as [(-> & Hl & _)|(-> & t1 & d1 & He & Hl & _)].
  - eapply durable_lands; [exact Hd|exact Hl|exact Hi|exact (du_held _ _ _ _ Hd)|exact (du_stored _ _ _ _ Hd)|done|exact (du_zero _ _ _ _ Hd)
      |exact (du_count _ _ _ _ Hd)|apply safe_refl|lia].
  - destruct (durable_evicts _ _ _ _ _ _ _ Hd He) as (H1 & H2 & H3 & H4 & H5).
    eapply durable_lands; [exact Hd|exact Hl|exact Hi|exact H1|exact H2|done| |exact (du_count _ _ _ _ Hd)|exact H3|lia].
    intros f Hf. apply (du_zero _ _ _ _ Hd). cbn [fst]. by rewrite <- H5.
Qed.

Lemma fetch_still s db wh ts n :
  durable s db wh ts -> 0 <= n < count s ->
  gspec (fetchLocked n) s (fun _ => still db wh ts s) (fun _ => still db wh ts s).
Proof.
  destruct s as [p d]. intros Hd Hn. pose proof (du_inv _ _ _ _ Hd) as Hi. pose proof Hi as [Hop Hpo Hh Hc HL (fl & Hfr)]. cbn [fst snd] in *.
  eapply gspec_mono; [apply (fetchLocked_spec p d n Hop Hpo HL Hn)| |].
  2:{ intros e s' Hf. by eapply fail_still. }
  intros u s' (t' & d' & Hf & Hl). destruct (durable_fetched _ _ _ _ _ _ _ _ Hd Hn Hf) as (H1 & H2 & H3 & H4 & H5).
  destruct (fetched_lent p d n t' d' _ Hop Hpo HL Hn Hf) as (HL1 & Hv1 & _).
  edestruct (inv_keeps 0 p d) as (K1 & _); [exact Hi|exact HL1|intros; by apply Hv1|intros; right; by apply Hv1|exact Hl|].
  eapply durable_lands; [exact Hd|exact Hl|apply K1|exact H1|exact H2|done|exact H5|exact (du_count _ _ _ _ Hd)|exact H3|lia].
Qed.

Lemma unpin_still s db wh ts n :
  durable s db wh ts -> (0 < pins_of (table (p_pool s.1)) n)%nat ->
  gspec (Unpin n) s (fun _ => still db wh ts s) (fun _ _ => False).
Proof.
  destruct s as [p d]. intros Hd Hpin. pose proof (du_inv _ _ _ _ Hd) as Hi. pose proof Hi as [Hop Hpo Hh Hc HL (fl & Hfr)]. cbn [fst snd] in *.
  destruct (table (p_pool p) !! n) as [f|] eqn:Hf; unfold pins_of in Hpin; rewrite Hf in Hpin; [|lia].
  assert (Hk : gspec (Unpin n) (p, d) (fun _ s' => forall k, keeps k (p, d) s') (fun _ _ => False)).
  { eapply gspec_mono; [apply (unpin_keeps (p, d) n Hi)| |done]; [unfold pins_of; cbn [fst]; rewrite Hf; lia|]. by intros u s' [? _]. }
  eapply gspec_mono; [apply (gspec_and _ _ _ _ _ _ Hk (Unpin_spec p d n f Hpo Hf ltac:(lia)))| |by intros e s' []].
  intros u s' [K Hl].
  eapply durable_lands; [exact Hd|exact Hl|apply (K 0)| |exact (du_stored _ _ _ _ Hd)|done| |exact (du_count _ _ _ _ Hd)|apply safe_refl|lia].
  - by eapply held_same; [exact (du_held _ _ _ _ Hd)|..].
  - intros g Hg. pose proof (du_zero _ _ _ _ Hd) as H0. cbn [fst] in H0.
    apply lookup_insert_Some in Hg as [[-> <-]|[_ Hg]]; [exact (H0 f Hf)|by apply H0].
Qed.

(** Writes need log sequence numbers. *)
Definition lsn_room (s : dpager * Disk) : Prop := p_nextLSN s.1 + 2 < 2 ^ 64.

Lemma lsn_next s db wh ts :
  durable s db wh ts -> lsn_room s ->
  next_lsn s.1 = p_nextLSN s.1 + 1 /\ u64 (next_lsn s.1 + 1) = p_nextLSN s.1 + 2 /\ 0 <= p_nextLSN s.1.
Proof.
  intros Hd Hr. pose proof (hd_flushed _ _ _ _ _ _ _ _ (du_held _ _ _ _ Hd)) as H. unfold lsn_room in Hr.
  assert (E : next_lsn s.1 = p_nextLSN s.1 + 1) by (apply wrap_small; unfold in_u; lia).
  split; [done|]. split; [|lia]. rewrite E, wrap_small; [lia|unfold in_u; lia].
Qed.

Lemma touched_held flushed db ts t b cnt lsn h l lsn' :
  held ps flushed db ts t b cnt lsn -> is_Some (t !! 0) -> lsn < l <= lsn' -> held ps flushed db ts (touched ps l h t) b cnt lsn'.
Proof.
  intros Hh [f0 Hf] Hl. unfold touched. rewrite Hf. eapply held_write; [exact Hh|done|exact Hl|]. left. split; [by eexists|done].
Qed.

Lemma touched_zero l h t f : touched ps l h t !! 0 = Some f -> Buf f = hdr_page ps (bump_changes h).
Proof.
  unfold touched. destruct (t !! 0) as [f0|] eqn:E; [|congruence]. rewrite lookup_insert_eq. by intros [= <-].
Qed.

Lemma update_still s db wh ts n b :
  durable s db wh ts -> lsn_room s -> n ∈ live s -> (0 < pins_of (table (p_pool s.1)) n)%nat -> blen b = ps -> bytes_ok b ->
  gspec (on_pool (upd_frame n (set_Buf b)) ;;* markDirtyLocked n) s (fun _ => still db wh ts s) (fun _ _ => False).
Proof.
  destruct s as [p d]. intros Hd Hr Hn Hpin Hb Hok. pose proof (du_inv _ _ _ _ Hd) as Hi. pose proof Hi as [Hop Hpo Hh Hc HL (fl & Hfr)]. cbn [fst snd] in *.
  destruct (lsn_next _ _ _ _ Hd Hr) as (E1 & _ & E0). cbn [fst] in *. unfold next_lsn in E1.
  assert (Hn0 : n <> 0) by (apply (live_range _ _ _ Hfr) in Hn; lia).
  destruct (table (p_pool p) !! n) as [f|] eqn:Hf; [|unfold pins_of in Hpin; rewrite Hf in Hpin; lia].
  pose proof (du_size _ _ _ _ Hd) as Hsz. cbn [fst] in Hsz.
  assert (Hk : gspec (on_pool (upd_frame n (set_Buf b)) ;;* markDirtyLocked n) (p, d) (fun _ s' => keeps n (p, d) s') (fun _ _ => False)).
  { eapply gspec_mono; [apply (update_keeps (p, d) n b Hi Hn Hpin)| |done]; [unfold pg_size_of; cbn [fst]; by rewrite Hsz|done|].
    by intros u s' [? _]. }
  eapply gspec_mono; [apply (gspec_and _ _ _ _ _ _ Hk (update_spec p d n b f Hop Hpo Hf ltac:(by rewrite Hsz) Hok))| |by intros e s' []].
  intros u s' [K Hl]. rewrite E1 in Hl.
  eapply durable_lands; [exact Hd|exact Hl|apply K| |exact (du_stored _ _ _ _ Hd)|done| |exact (du_count _ _ _ _ Hd)|apply safe_refl|lia].
  - eapply held_write; [exact (du_held _ _ _ _ Hd)|done|cbn; lia|]. left. split; [by eexists|done].
  - intros g Hg. rewrite lookup_insert_ne in Hg by done. by apply (du_zero _ _ _ _ Hd).
Qed.

Lemma pop_still s db wh ts :
  durable s db wh ts -> lsn_room s -> FreelistRoot (p_hdr s.1) <> NullPage ->
  gspec allocateFromFreelist s (fun _ => still db wh ts s) (fun _ => still db wh ts s).
Proof.
  destruct s as [p d]. intros Hd Hr Hroot. pose proof (du_inv _ _ _ _ Hd) as Hi. pose proof Hi as [Hop Hpo Hh Hc HL (fl0 & Hfl)]. cbn [fst snd] in *.
  destruct (lsn_next _ _ _ _ Hd Hr) as (E1 & E2 & E0). cbn [fst] in *.
  pose proof Hfl as (F1 & F2 & F3 & F4). cbn [fst snd] in *. destruct (chain_root _ _ _ F1 Hroot) as (fl & -> & HF).
  set (n := FreelistRoot (p_hdr p)) in *. apply Forall_cons in F3 as [Hrn F3].
  assert (Hpos : 0 < FreelistPageCount (p_hdr p)) by (rewrite F4; unfold blen; cbn [length]; lia).
  eapply gspec_mono; [apply (gspec_and _ _ _ _ _ _ (pop_allocates (p, d) Hi Hroot)
    (allocateFromFreelist_spec p d Hop Hpo Hh HL ltac:(fold n; unfold count in Hrn; cbn [fst] in Hrn; lia) Hpos))| |].
  2:{ intros e s' [_ Hf]. by eapply fail_still. }
  intros m s' [A (_ & t1 & d1 & f & Hf & Hf1 & Hl)]. fold n in Hf, Hf1, Hl. rewrite E2 in Hl.
  destruct (durable_fetched _ _ _ _ _ n _ _ Hd ltac:(lia) Hf) as (H1 & H2 & H3 & H4 & _).
  destruct (fetched_lent p d n t1 d1 _ Hop Hpo HL ltac:(clear - Hrn; unfold count in *; cbn [fst] in *; lia) Hf) as (HL1 & _).
  pose proof (du_size _ _ _ _ Hd) as Hsz. cbn [fst] in Hsz. rewrite Hsz in Hl.
  eapply durable_lands; [exact Hd|exact Hl|apply A| |exact H2|done| |exact (du_count _ _ _ _ Hd)|exact H3|lia].
  - apply touched_held with (lsn := p_nextLSN p + 1); [|apply lookup_insert_is_Some'; right|lia].
    + eapply held_write; [exact H1|done|cbn [marked pageLSN]; lia|]. left. split; [by eexists|done].
    + destruct (ln_zero _ _ _ _ HL1) as (f0 & Hf0 & _). by eexists.
  - apply touched_zero.
Qed.

Lemma grow_still s db wh ts :
  durable s db wh ts -> lsn_room s -> count s < NullPage ->
  gspec allocateByGrowing s (fun _ => still db wh ts s) (fun _ => still db wh ts s).
Proof.
  destruct s as [p d]. intros Hd Hr Hroom. pose proof (du_inv _ _ _ _ Hd) as Hi. pose proof Hi as [Hop Hpo Hh Hc HL (fl & Hfl)]. cbn [fst snd] in *.
  destruct (lsn_next _ _ _ _ Hd Hr) as (E1 & E2 & E0). cbn [fst] in *.
  pose proof (du_size _ _ _ _ Hd) as Hsz. cbn [fst] in Hsz. pose proof (du_held _ _ _ _ Hd) as Hheld. cbn [fst snd] in Hheld.
  change (count (p, d)) with (DbHeader.PageCount (p_hdr p)) in *. set (n := DbHeader.PageCount (p_hdr p)) in *.
  assert (Hg1 : DbHeader.PageCount (bump_changes (grown (p_hdr p))) = n + 1) by (apply wrap_small; fold n; unfold in_u, NullPage in *; lia).
  pose proof (du_count _ _ _ _ Hd) as Hcnt. change (count (p, d)) with n in Hcnt.
  destruct (ln_zero _ _ _ _ HL) as (f0 & Hf0 & _). assert (H00 : is_Some (table (p_pool p) !! 0)) by by eexists.
  eapply gspec_mono; [apply (gspec_and _ _ _ _ _ _ (grow_allocates (p, d) Hi Hroom)
    (allocateByGrowing_spec p d Hop Hpo Hh HL ltac:(fold n; lia)))| |]; rewrite E2, E1, Hsz.
  - intros m s' [A (_ & p1 & t1 & d1 & lo & (P1 & c1 & Hp1 & HP1 & _ & Ht1) & Hev & Hn1 & Hlo & Hl)].
    apply (f_equal fst) in Hp1. cbn [fst] in Hp1. subst p1. set (p1 := pgw P1 c1 _ _ p) in *.
    set (t0 := touched ps _ _ (table (p_pool p))) in *.
    assert (Hh0 : held ps (p_walFlushedLSN p) db ts t0 (pg_data p d) n (p_nextLSN p + 1)) by (eapply touched_held; [exact Hheld|done|lia]).
    destruct (touched_lent ps n (p_nextLSN p + 1) (grown (p_hdr p)) (table (p_pool p)) (pg_data p d)) as (HL0 & _); [by rewrite <- Hsz|].
    destruct (evicts_keeps db ts (disk_data wal d) p1 d n (p_nextLSN p + 1) t1 d1) as (K1 & K2 & K3 & K4 & K5); try done.
    { by destruct Hop. } { exact (du_path _ _ _ _ Hd). } { by rewrite <- Hsz. } { change (p_pool p1) with P1. by rewrite Ht1. }
    { change (p_pool p1) with P1. by rewrite Ht1. } { exact (du_stored _ _ _ _ Hd). } { exact (durable_scans _ _ _ _ Hd). }
    eapply durable_lands; [exact Hd|exact Hl|apply A| |exact K2|done| |rewrite Hg1; lia|exact K3|lia].
    + rewrite Hg1. eapply held_write; [exact K1|done|cbn [marked pageLSN]; lia|]. right. by split_and!.
    + intros f Hf. rewrite lookup_insert_ne in Hf by lia. rewrite K5 in Hf. change (p_pool p1) with P1 in Hf. rewrite Ht1 in Hf. by apply touched_zero in Hf.
  - intros e s' [A (_ & Hl)].
    assert (Hg2 : DbHeader.PageCount (bump_changes (ungrown (bump_changes (grown (p_hdr p))))) = n).
    { change (u32 (DbHeader.PageCount (bump_changes (grown (p_hdr p))) - 1) = n). rewrite Hg1. replace (n + 1 - 1) with n by lia.
      apply wrap_small. unfold in_u, NullPage in *. lia. }
    set (t0 := touched ps _ _ (table (p_pool p))) in *.
    assert (Hh0 : held ps (p_walFlushedLSN p) db ts t0 (pg_data p d) n (p_nextLSN p + 1)) by (eapply touched_held; [exact Hheld|done|lia]).
    assert (Hs0 : is_Some (t0 !! 0)) by (unfold t0, touched; rewrite Hf0, lookup_insert_eq; by eexists).
    eapply durable_lands; [exact Hd|exact Hl|apply A| |exact (du_stored _ _ _ _ Hd)|done| |rewrite Hg2; lia|apply safe_refl|lia].
    + rewrite Hg2. eapply touched_held; [exact Hh0|done|lia].
    + apply touched_zero.
Qed.

Lemma Allocate_still s db wh ts :
  durable s db wh ts -> lsn_room s -> count s < NullPage ->
  gspec Pager.Allocate s (fun _ => still db wh ts s) (fun _ => still db wh ts s).
Proof.
  intros Hd Hr Hroom. destruct s as [p d]. pose proof (pi_open _ (du_inv _ _ _ _ Hd)) as Hop. cbn [fst] in Hop. unfold Pager.Allocate. gsteps.
  rewrite (pn_closed _ Hop), (pn_readOnly _ Hop). destruct (Z.eqb_spec (FreelistRoot (p_hdr p)) NullPage); cbn [negb].
  - by apply grow_still.
  - by apply pop_still.
Qed.

Lemma Free_still s db wh ts n :
  durable s db wh ts -> lsn_room s -> n ∈ live s -> (0 < pins_of (table (p_pool s.1)) n)%nat ->
  gspec (Free n) s (fun _ => still db wh ts s) (fun _ _ => False).
Proof.
  destruct s as [p d]. intros Hd Hr Hn Hpin. pose proof (du_inv _ _ _ _ Hd) as Hi. pose proof Hi as [Hop Hpo Hh Hc HL (fl & Hfl)]. cbn [fst snd] in *.
  destruct (lsn_next _ _ _ _ Hd Hr) as (E1 & E2 & E0). cbn [fst] in *. pose proof (live_range _ _ _ Hfl Hn) as Hrn.
  destruct (table (p_pool p) !! n) as [f|] eqn:Hf; [|unfold pins_of in Hpin; rewrite Hf in Hpin; lia].
  pose proof (du_size _ _ _ _ Hd) as Hsz. cbn [fst] in Hsz.
  assert (Hp0 : 0 < pins f) by (unfold pins_of in Hpin; rewrite Hf in Hpin; lia). assert (Hn0 : n <> 0) by lia.
  eapply gspec_mono; [apply (gspec_and _ _ _ _ _ _ (Free_frees (p, d) n Hi Hn Hpin)
    (Free_spec p d n f Hop Hpo Hh (pool_table0 _ _ _ HL) Hf Hn0 Hp0))| |by intros e s' []].
  intros u s' [[A _] (b & _ & Hl)]. rewrite E2, Hsz in Hl.
  eapply durable_lands; [exact Hd|exact Hl|apply A| |exact (du_stored _ _ _ _ Hd)|done| |exact (du_count _ _ _ _ Hd)|apply safe_refl|lia].
  - apply touched_held with (lsn := p_nextLSN p + 1); [| |lia].
    + eapply held_write; [exact (du_held _ _ _ _ Hd)|done|cbn [fst pageLSN add_pins marked]; lia|]. left. split; [by eexists|done].
    + rewrite lookup_insert_ne by lia. exact (pool_table0 _ _ _ HL).
  - apply touched_zero.
Qed.

Lemma SetCatalogRoot_still s db wh ts root :
  durable s db wh ts -> lsn_room s -> in_u 32 root ->
  gspec (SetCatalogRoot root) s (fun _ => still db wh ts s) (fun _ _ => False).
Proof.
  destruct s as [p d]. intros Hd Hr Hroot. pose proof (du_inv _ _ _ _ Hd) as Hi. pose proof Hi as [Hop Hpo Hh Hc HL _]. cbn [fst snd] in *.
  destruct (lsn_next _ _ _ _ Hd Hr) as (E1 & _ & E0). cbn [fst] in *. pose proof (du_size _ _ _ _ Hd) as Hsz. cbn [fst] in Hsz.
  eapply gspec_mono; [apply (gspec_and _ _ _ _ _ _ (SetCatalogRoot_rooted (p, d) root Hi Hroot)
    (SetCatalogRoot_spec p d root Hop Hpo (pool_table0 _ _ _ HL) Hh Hroot))| |by intros e s' []].
  intros u s' [A Hl]. rewrite E1, Hsz in Hl.
  eapply durable_lands; [exact Hd|exact Hl|apply A| |exact (du_stored _ _ _ _ Hd)|done| |exact (du_count _ _ _ _ Hd)|apply safe_refl|lia].
  - apply touched_held with (lsn := p_nextLSN p); [exact (du_held _ _ _ _ Hd)|exact (pool_table0 _ _ _ HL)|lia].
  - apply touched_zero.
Qed.

Lemma gspec_countSync h (p : dpager) (d : Disk) (Q : unit -> _ -> Prop) E :
  Q tt (set_ctr (add_fsyncs 1 (p_ctr p)) p, (Disk_Sync h d).2) -> gspec (countSync (D:=Disk) h) (p, d) Q E.
Proof. intros H. exact H. Qed.

Lemma Sync_still s db wh ts :
  durable s db wh ts -> gspec Pager.Sync s (fun _ => still db wh ts s) (fun _ _ => False).
Proof.
  destruct s as [p d]. intros Hd. pose proof (du_inv _ _ _ _ Hd) as Hi. pose proof Hi as [Hop Hpo Hh Hc HL _]. cbn [fst snd] in *.
  pose proof (du_path _ _ _ _ Hd) as Hpath. cbn [fst] in Hpath. unfold Pager.Sync. gsteps. rewrite (pn_closed _ Hop). apply gspec_countSync.
  rewrite (pn_main _ Hop), Hpath. set (d' := (Disk_Sync _ d).2).
  assert (Hd' : d' = disk_step path (DFile (pg_data p d) []) d) by (unfold d', pg_data; by rewrite Hpath).
  assert (Hst : stored ps algo path wal db ts (disk_data wal d) (dk_files d')).
  { exact (stored_sync ps algo path wal (path_ne_wal path) db ts (disk_data wal d) d (du_stored _ _ _ _ Hd)). }
  assert (Hdat : pg_data p d' = pg_data p d) by (unfold pg_data at 1, disk_data; by rewrite Hpath, Hd', disk_file_step).
  assert (Hw : disk_file wal d' = disk_file wal d) by (rewrite Hd'; apply disk_file_step_ne, path_ne_wal).
  assert (Hl : lands p (table (p_pool p)) (p_hdr p) (p_nextLSN p) d' (set_ctr (add_fsyncs 1 (p_ctr p)) p, d')) by by pg_form.
  edestruct (inv_keeps 0 p d) as (K1 & _); [exact Hi|by rewrite Hdat|by rewrite Hdat|rewrite Hdat; by right|exact Hl|].
  eapply durable_lands; [exact Hd|exact Hl|apply K1| |exact Hst|exact Hw|exact (du_zero _ _ _ _ Hd)|exact (du_count _ _ _ _ Hd)| |lia].
  - rewrite Hdat. exact (du_held _ _ _ _ Hd).
  - rewrite Hd' in Hst |- *. apply safe_step. eapply stored_recoverable; [exact Hst|exact (durable_scans _ _ _ _ Hd)|done].
Qed.
End durable.
