(* ===== verification/PagerCommit.v ===== *)
(** * pager/pager.go: checkpoint and commit

    Checkpoint moves the committed pages to the data file and starts a fresh log;
    Commit appends the transaction's pages to the log and makes them durable. Both
    are atomic: a crash at any moment leaves the database as it was, or, for
    Commit, as the transaction left it. *)

From S2P Require Import Prelude Checksum Page Vfs Disk Wal DbHeader PageStore Pool Pager PagerInv PagerLaws PagerFree PagerLog PagerDurable.
From stdpp Require Import strings.

#[local] Open Scope Z_scope.
#[local] Open Scope pg_scope.

(** ** The frames a method works on *)

Lemma sift_perm f l : sift f l ≡ₚ f :: l.
Proof.
  induction l as [|g l IH]; cbn [sift]; [done|]. destruct (_ >? _); [|done]. rewrite IH. apply perm_swap.
Qed.

Lemma sort_perm fs : sortFramesByLSN fs ≡ₚ fs.
Proof.
  unfold sortFramesByLSN. rewrite <- Permutation_rev.
  assert (H : forall l acc, fold_left (fun before f => sift f before) l acc ≡ₚ l ++ acc).
  { induction l as [|f l IH]; intros acc; cbn [fold_left app]; [done|]. rewrite IH, sift_perm. by rewrite Permutation_middle. }
  rewrite H. by rewrite app_nil_r.
Qed.

Lemma elem_of_resident keep P f :
  (forall n g, table P !! n = Some g -> PageID g = n) ->
  f ∈ resident_frames keep P <-> table P !! PageID f = Some f /\ keep f = true.
Proof.
  intros Hid. unfold resident_frames. rewrite list_elem_of_filter, list_elem_of_fmap. split.
  - intros [Hk ([n g] & -> & Hg)]. apply elem_of_map_to_list in Hg. cbn [snd] in *. by rewrite (Hid n g Hg).
  - intros [Hf Hk]. split; [done|]. exists (PageID f, f). split; [done|]. by apply elem_of_map_to_list.
Qed.

Lemma NoDup_ids keep P :
  (forall n g, table P !! n = Some g -> PageID g = n) -> NoDup (map PageID (resident_frames keep P)).
Proof.
  intros Hid. unfold resident_frames. pose proof (NoDup_fst_map_to_list (table P)) as H.
  assert (E : forall l : list (Z * Frame), (forall n g, (n, g) ∈ l -> PageID g = n) -> NoDup l.*1 -> NoDup (map PageID (filter (fun f => keep f = true) (map snd l)))).
  { induction l as [|[n g] l IH]; intros Hl Hn; cbn [map fmap list_fmap fst snd] in *; [constructor|]. apply NoDup_cons in Hn as [Hn1 Hn2].
    rewrite filter_cons. assert (IH' := IH (fun n g H => Hl n g ltac:(by right)) Hn2). case_decide; [|done].
    cbn [map]. constructor; [|done]. rewrite (Hl n g) by (by left). intros Hx. apply Hn1.
    apply list_elem_of_fmap in Hx as (g' & E1 & Hg'). apply list_elem_of_filter in Hg' as [_ Hg'].
    apply list_elem_of_fmap in Hg' as ([m g''] & E2 & Hm). cbn [snd] in E2. subst g''. apply list_elem_of_fmap. exists (m, g').
    split; [cbn [fst]; rewrite E1; apply Hl; by right|done]. }
  apply E; [|done]. intros n g Hg. apply elem_of_map_to_list in Hg. by apply Hid.
Qed.

(** The frames a commit or a checkpoint collects, in the order of their LSNs. *)
Lemma sorted_resident keep P :
  (forall n g, table P !! n = Some g -> PageID g = n) ->
  let l := sortFramesByLSN (resident_frames keep P) in
  NoDup (map PageID l) /\ forall f, f ∈ l <-> table P !! PageID f = Some f /\ keep f = true.
Proof.
  intros Hid l. pose proof (sort_perm (resident_frames keep P)) as Hp. fold l in Hp. split.
  - rewrite Hp. by apply NoDup_ids.
  - intros f. rewrite Hp. by apply elem_of_resident.
Qed.

(** ** What stays the same *)

(** No caller sees a difference. *)
Record same (s s' : dpager * Disk) : Prop := Same {
  sm_hdr : p_hdr s'.1 = p_hdr s.1;
  sm_view : forall n, 0 <= n -> view s' n = view s n;
  sm_pins : forall n, pins_of (table (p_pool s'.1)) n = pins_of (table (p_pool s.1)) n;
  sm_lsn : p_nextLSN s'.1 = p_nextLSN s.1;
  sm_flushed : p_walFlushedLSN s'.1 = p_walFlushedLSN s.1;
  sm_dirty : forall n f, table (p_pool s'.1) !! n = Some f -> dirty f = true -> table (p_pool s.1) !! n = Some f
}.

Lemma same_refl s : same s s.
Proof. done. Qed.

Lemma same_trans s1 s2 s3 : same s1 s2 -> same s2 s3 -> same s1 s3.
Proof. intros [A1 A2 A3 A4 A5 A6] [B1 B2 B3 B4 B5 B6]. constructor; try congruence.
  - intros n Hn. rewrite B2 by done. by apply A2.
  - intros n f Hf Hd. apply A6; [by apply B6|done].
Qed.

Lemma same_live s s' : pager_inv s -> pager_inv s' -> same s s' -> live s' = live s /\ count s' = count s.
Proof.
  intros Hi Hi' [S1 S2 S3 S4 S5 _]. assert (Hc : count s' = count s) by (unfold count; by rewrite S1). split; [|done].
  destruct (pi_free _ Hi) as (fl & Hfl). pose proof Hfl as (F1 & F2 & F3 & F4).
  assert (Hfl' : freelist s' fl).
  { unfold freelist. rewrite Hc, S1. split; [|done]. eapply chain_ext; [exact F1|]. intros n Hn. rewrite Forall_forall in F3.
    specialize (F3 n Hn). apply S2. lia. }
  apply set_eq. intros m. by rewrite (live_spec _ _ _ Hfl), (live_spec _ _ _ Hfl'), Hc.
Qed.

Section checkpoint.
Context (csprng : nat -> Z) (ps algo : Z) (path : string).
Hypothesis (Hrand : forall k, byte_ok (csprng k)).
Notation wal := (path +:+ "-wal").
Notation durable := (durable ps algo path).
Notation crash_safe db := (safe (recoverable ps algo path wal (eq db))).

(** The data file holds the committed image of every page a transaction is
    changing: a checkpoint may drop the log. *)
Definition settled (s : dpager * Disk) (db : list bytes) : Prop :=
  forall n f, table (p_pool s.1) !! n = Some f -> uncommitted (p_walFlushedLSN s.1) f -> n < blen db ->
    disk_page ps (pg_data s.1 s.2) n = db_page db n.

(** A frame whose page is now in the data file. *)
Lemma held_clean flushed db ts t b b' cnt lsn n f :
  held ps flushed db ts t b cnt lsn -> t !! n = Some f -> ~ uncommitted flushed f -> dirty f = true ->
  (forall m, 0 <= m -> m <> n -> disk_page ps b' m = disk_page ps b m) ->
  held ps flushed db ts (<[n := set_dirty false f]> t) b' cnt lsn.
Proof.
  intros [H1 H2 H3 H4 H5 H6] Hf Hu Hd Hb. constructor; try done.
  - intros m Hm HN. apply lookup_insert_None in HN as [HN Hne]. rewrite Hb by (done || lia). by apply H1.
  - intros m x Hm Hx. apply lookup_insert_Some in Hm as [[<- <-]|[_ Hm]]; [exact (H2 n f Hf Hu)|by apply H2].
  - intros m x Hm Hx Hl. apply lookup_insert_Some in Hm as [[<- <-]|[_ Hm]]; [done|by eapply H3].
  - intros m Hm. destruct (H4 m Hm) as (x & Hx & Hxu). exists x. rewrite lookup_insert_ne; [done|]. intros <-.
    assert (x = f) as -> by congruence. done.
  - intros m x Hm Hx. apply lookup_insert_Some in Hm as [[<- <-]|[_ Hm]]; [done|by eapply H5].
Qed.

(** The loop of a checkpoint: l is left to write. *)
Record flushing (s0 : dpager * Disk) (db : list bytes) (wh : Wal.Header) (ts : list txn) (l : list Frame) (s : dpager * Disk) : Prop := Flushing {
  fl_durable : durable s db wh ts;
  fl_settled : settled s db;
  fl_safe : crash_safe db s0.2 s.2;
  fl_same : same s0 s;
  fl_pgw : exists P c, s.1 = pgw P c (p_hdr s0.1) (p_nextLSN s0.1) s0.1;
  fl_nodup : NoDup (map PageID l);
  fl_left : forall f, f ∈ l <-> table (p_pool s.1) !! PageID f = Some f /\ dirty f = true /\ pageLSN f <= p_walFlushedLSN s.1
}.

Lemma flush_step s0 db wh ts f l s :
  flushing s0 db wh ts (f :: l) s -> gspec (flush_frame f) s (fun _ => flushing s0 db wh ts l) (fun _ _ => False).
Proof.
  intros [Hd Hset Hsafe Hsame (Pw & cw & Hpgw) Hnd Hleft]. destruct s as [p d]. cbn [fst snd] in *.
  pose proof (du_inv _ _ _ _ _ _ _ Hd) as Hi. pose proof Hi as [Hop Hpo Hh Hc HL (fl & Hfl)]. cbn [fst snd] in *.
  destruct (durable_size _ _ _ _ _ _ _ Hd) as (Hps & Hvs & Hsa). pose proof (du_size _ _ _ _ _ _ _ Hd) as Hsz.
  pose proof (du_path _ _ _ _ _ _ _ Hd) as Hpath. pose proof (du_held _ _ _ _ _ _ _ Hd) as Hheld. pose proof (du_algo _ _ _ _ _ _ _ Hd) as Halg.
  cbn [fst snd] in *. rewrite Hsz in Hpo, HL.
  destruct (proj1 (Hleft f) ltac:(by left)) as (Hf & Hdf & Hlsn). destruct (po_frames _ _ _ Hpo _ _ Hf) as (_ & Hlen & Hok & _).
  assert (Hr : 0 <= PageID f < count (p, d)) by (apply (ln_range _ _ _ _ HL); by eexists).
  assert (Hu : ~ uncommitted (p_walFlushedLSN p) f) by (intros [_ ?]; lia).
  unfold flush_frame, writeBack. gsteps. rewrite (proj2 (Z.ltb_ge _ _)) by done. gsteps. apply gspec_write; [by rewrite (pn_main _ Hop)|]. gsteps.
  set (d1 := (Disk_WriteAt _ _ _ d).2). set (t1 := <[PageID f := set_dirty false f]> (table (p_pool p))).
  assert (Hst : stored ps algo path wal db ts (disk_data wal d) (dk_files d1)).
  { unfold d1. rewrite (pn_main _ Hop), Hpath, Hsz. apply stored_write; try done; try lia; [apply path_ne_wal|exact (du_stored _ _ _ _ _ _ _ Hd)| |].
    - by apply (hd_logged _ _ _ _ _ _ _ _ Hheld _ f).
    - intros E. rewrite E in Hf. pose proof (du_zero _ _ _ _ _ _ _ Hd) as H0. cbn [fst] in H0. rewrite (H0 f Hf).
      apply hdr_page_reads; try done. unfold hdr_fits in Hh. by rewrite Hsz, Halg in Hh. }
  destruct (pg_data_write p d (Buf f) (PageID f * p_pageSize p) Hop) as [Hd1 Hoth]. fold d1 in Hd1, Hoth. rewrite Hsz in Hd1.
  assert (Hdp : forall m, 0 <= m -> disk_page ps (pg_data p d1) m = if decide (m = PageID f) then Buf f else disk_page ps (pg_data p d) m).
  { intros m Hm. rewrite Hd1. apply disk_page_write; try (done || lia). apply (ln_whole _ _ _ _ HL). }
  assert (Hw : disk_file wal d1 = disk_file wal d) by (apply Hoth; rewrite Hpath; apply not_eq_sym, path_ne_wal).
  assert (Hs1 : crash_safe db d d1).
  { unfold d1 in Hst |- *. rewrite (pn_main _ Hop), Hpath in Hst |- *. rewrite dk_files_write in Hst |- *. apply safe_step.
    eapply stored_recoverable; [exact Hst|exact (durable_scans _ _ _ _ _ _ _ Hd)|done]. }
  assert (HL1 : lent ps (count (p, d)) t1 (pg_data p d1)).
  { destruct HL as [L1 L2 L3 L4 L5]. constructor.
    - intros m x Hm Hx. unfold t1 in Hm. apply lookup_insert_Some in Hm as [[<- <-]|[Hne Hm]].
      + rewrite Hdp by lia. by rewrite decide_True.
      + rewrite Hdp by (apply (L2 m); by eexists). rewrite decide_False by done. by apply L1.
    - intros m Hm. apply lookup_insert_is_Some' in Hm as [<-|Hm]; [done|by apply L2].
    - destruct L3 as (f0 & Hf0 & Hl0). unfold t1. destruct (decide (PageID f = 0)) as [E|E].
      + exists (set_dirty false f). rewrite E, lookup_insert_eq. split; [done|]. cbn [loc set_dirty]. rewrite E in Hf. congruence.
      + exists f0. by rewrite lookup_insert_ne.
    - rewrite Hd1. by apply bytes_ok_write_data.
    - rewrite Hd1. apply blen_write_page; (done || lia). }
  assert (Hv1 : forall m, 0 <= m -> page_at ps t1 (pg_data p d1) m = view (p, d) m).
  { intros m Hm. unfold t1. rewrite page_at_insert. unfold view, page_at. cbn [fst snd]. case_decide as E.
    - subst m. by rewrite Hf.
    - destruct (table (p_pool p) !! m) eqn:Em; [done|]. rewrite Hdp by done. rewrite decide_False by done. by rewrite Hsz. }
  assert (Hl : lands p t1 (p_hdr p) (p_nextLSN p) d1 (set_pool (upd_frame (PageID f) (set_dirty false) (p_pool p))
    (set_ctr (add_bytesWritten (p_pageSize p) (add_pageWrites 1 (p_ctr p))) p), d1)).
  { pg_form. cbn [p_pool set_pool]. split; [|split; [done|exact (table_upd _ (set_dirty false) (p_pool p) f Hf)]].
    rewrite Hsz. apply pool_ok_upd; [done|]. intros g Hg. assert (Some f = Some g) as [= <-] by (rewrite <- Hf; exact Hg).
    split; [exact (po_frames _ _ _ Hpo _ _ Hf)|done]. }
  change (set_pool _ _) with (set_pool (upd_frame (PageID f) (set_dirty false) (p_pool p))
    (set_ctr (add_bytesWritten (p_pageSize p) (add_pageWrites 1 (p_ctr p))) p)). set (s1 := (_, d1)) in *.
  edestruct (inv_keeps 0 p d t1 (p_nextLSN p) d1 s1) as (K1 & K2 & K3); [exact Hi|by rewrite Hsz|intros m Hm _; rewrite Hsz; by apply Hv1|
    intros _; right; rewrite Hsz; by apply Hv1|exact Hl|].
  assert (Hstill : still ps algo path db wh ts (p, d) s1).
  { eapply durable_lands; [exact Hd|exact Hl|apply K1| |exact Hst|exact Hw| |exact (du_count _ _ _ _ _ _ _ Hd)|exact Hs1|lia].
    - eapply held_clean; [exact Hheld|done|done|done|]. intros m Hm Hne. rewrite Hdp by done. by rewrite decide_False.
    - intros g Hg. pose proof (du_zero _ _ _ _ _ _ _ Hd) as H0. cbn [fst] in H0.
      apply lookup_insert_Some in Hg as [[E <-]|[_ Hg]]; [|by apply H0]. rewrite E in Hf. exact (H0 f Hf). }
  assert (Ht1 : table (p_pool s1.1) = t1) by exact (table_upd _ (set_dirty false) (p_pool p) f Hf).
  cbn [map] in Hnd. apply NoDup_cons in Hnd as [Hnd1 Hnd2]. constructor; try done.
  - apply Hstill.
  - intros n g Hg Hgu Hn. rewrite Ht1 in Hg. unfold t1 in Hg. apply lookup_insert_Some in Hg as [[<- <-]|[Hne Hg]].
    { destruct Hgu as [? _]. done. }
    change (disk_page ps (pg_data p d1) n = db_page db n). rewrite Hdp by (apply (ln_range _ _ _ _ HL n); by eexists).
    rewrite decide_False by done. by eapply Hset.
  - eapply safe_trans; [exact Hsafe|exact Hs1].
  - eapply same_trans; [exact Hsame|]. constructor; try done.
    + intros n Hn. rewrite K2, Hsz. by apply Hv1.
    + intros n. rewrite K3. unfold t1. rewrite pins_insert. cbn [fst]. case_decide as E; [|done]. subst n. unfold pins_of. by rewrite Hf.
    + intros n g Hg Hdg. rewrite Ht1 in Hg. unfold t1 in Hg. by apply lookup_insert_Some in Hg as [[_ <-]|[_ Hg]].
  - subst p. by eexists _, _.
  - intros g. split.
    + intros Hg. assert (PageID g <> PageID f) by (intros E; apply Hnd1; rewrite <- E; apply list_elem_of_fmap; by exists g).
      rewrite Ht1. unfold t1. rewrite lookup_insert_ne by done. apply Hleft. by right.
    + rewrite Ht1. unfold t1. intros (Hg & Hdg & Hlg). apply lookup_insert_Some in Hg as [[_ <-]|[Hne Hg]]; [done|].
      assert (Hg' : g ∈ f :: l) by by apply Hleft. apply elem_of_cons in Hg' as [->|Hg']; [done|done].
Qed.

(** The data file holds db once every committed page is written. *)
Lemma settled_main s db wh ts :
  durable s db wh ts -> settled s db ->
  (forall n f, table (p_pool s.1) !! n = Some f -> dirty f = true -> p_walFlushedLSN s.1 < pageLSN f) ->
  main_ok ps algo db [] (pg_data s.1 s.2).
Proof.
  intros Hd Hset Hall. destruct s as [p d]. cbn [fst snd] in *. pose proof (du_inv _ _ _ _ _ _ _ Hd) as [Hop Hpo Hh Hc HL _]. cbn [fst snd] in *.
  destruct (durable_size _ _ _ _ _ _ _ Hd) as (Hps & _ & _). pose proof (du_size _ _ _ _ _ _ _ Hd) as Hsz.
  pose proof (du_path _ _ _ _ _ _ _ Hd) as Hpath. pose proof (du_held _ _ _ _ _ _ _ Hd) as Hheld. cbn [fst snd] in *. rewrite Hsz in HL.
  destruct (du_stored _ _ _ _ _ _ _ Hd) as (mf & Hmf & _ & _ & Hmo). cbn [snd] in *.
  assert (Hb : pg_data p d = df_now mf) by (unfold pg_data, disk_data; by rewrite Hpath, (disk_file_Some _ _ _ Hmf)).
  eapply main_ok_nil; [lia|rewrite Hb; apply Hmo; by left|apply (ln_whole _ _ _ _ HL)|].
  intros n Hn. destruct (table (p_pool p) !! n) as [f|] eqn:Hf; [|by apply (hd_away _ _ _ _ _ _ _ _ Hheld)].
  destruct (decide (uncommitted (p_walFlushedLSN p) f)) as [Hu|Hu]; [apply (Hset n f Hf Hu); lia|].
  rewrite <- (proj2 (hd_frames _ _ _ _ _ _ _ _ Hheld n f Hf Hu)). symmetry. apply (ln_clean _ _ _ _ HL); [done|].
  destruct (dirty f) eqn:Hdf; [|done]. exfalso. apply Hu. split; [done|by apply (Hall n f)].
Qed.

Lemma gspec_close h (p : dpager) (d : Disk) (Q : unit -> _ -> Prop) E : Q tt (p, d) -> gspec (file_close (D:=Disk) h) (p, d) Q E.
Proof. intros H. exact H. Qed.

Lemma held_nolog flushed db ts t b cnt lsn :
  held ps flushed db ts t b cnt lsn -> (forall n f, t !! n = Some f -> dirty f = true -> flushed < pageLSN f) ->
  held ps flushed db [] t b cnt lsn.
Proof. intros [H1 H2 H3 H4 H5 H6] Hall. constructor; try done. intros n f Hf Hd Hl. specialize (Hall n f Hf Hd). lia. Qed.

Lemma checkpoint_spec s db wh ts :
  durable s db wh ts -> settled s db ->
  gspec (checkpointLocked csprng) s
    (fun _ s' => exists wh', durable s' db wh' [] /\ settled s' db /\ crash_safe db s.2 s'.2 /\ same s s') (fun _ _ => False).
Proof.
  destruct s as [p d]. intros Hd Hset. pose proof (du_inv _ _ _ _ _ _ _ Hd) as Hi. pose proof Hi as [Hop Hpo Hh Hc HL _]. cbn [fst snd] in *.
  unfold checkpointLocked. gsteps. rewrite (pn_closed _ Hop), (pn_readOnly _ Hop). gsteps.
  set (s0 := (set_pool (set_committed (p_walFlushedLSN p) (p_pool p)) p, d)).
  assert (Hsame0 : same (p, d) s0) by done.
  assert (Hd0 : durable s0 db wh ts).
  { destruct Hd as [D1 D2 D3 D4 D5 D6 D7 D8 D9 D10 D11 D12 D13 D14]. constructor; try done.
    destruct D1 as [I1 I2 I3 I4 I5 I6]. constructor; try done; [by destruct I1|by destruct I2]. }
  set (keep := fun f => dirty f && (pageLSN f <=? p_walFlushedLSN p)).
  destruct (sorted_resident keep (p_pool p)) as [Hnd Hel]; [intros n g Hg; by apply (po_frames _ _ _ Hpo)|].
  set (l := sortFramesByLSN _) in *.
  assert (HF : flushing s0 db wh ts l s0).
  { constructor; try done; [apply safe_refl|by exists (p_pool s0.1), (p_ctr p)|]. intros f. rewrite Hel. unfold keep. cbn [fst s0 p_pool set_pool table].
    rewrite andb_true_iff, Z.leb_le. done. }
  eapply gspec_mono; [apply (gspec_iter flush_frame l (fun l s => flushing s0 db wh ts l s) s0 (fun _ _ => False) HF)| |done].
  { intros f l' s' H. by apply flush_step. }
  intros u [p1 d1] [Hd1 Hset1 Hsafe1 Hsame1 (P & c & Hpgw) _ Hleft]. cbn [fst snd] in *. gsteps. apply gspec_countSync. gsteps.
  assert (Hall : forall n f, table (p_pool p1) !! n = Some f -> dirty f = true -> p_walFlushedLSN p1 < pageLSN f).
  { intros n f Hf Hdf. apply Z.nle_gt. intros Hle. assert (f ∈ []) as H0; [|by apply elem_of_nil in H0].
    apply Hleft. pose proof (po_frames _ _ _ (pi_pool _ (du_inv _ _ _ _ _ _ _ Hd1)) n f Hf) as (E & _). by rewrite E. }
  pose proof (settled_main (p1, d1) db wh ts Hd1 Hset1 Hall) as Hmain. cbn [fst snd] in Hmain.
  pose proof (durable_scans _ _ _ _ _ _ _ Hd1) as Hsc1. pose proof (durable_size _ _ _ _ _ _ _ Hd) as (Hps & Hvs & Hsa).
  destruct Hd1 as [D1 D2 D3 D4 D5 D6 D7 D8 D9 D10 D11 D12 D13 D14]. cbn [fst snd] in *.
  pose proof D9 as (w & W1 & W2 & W3).
  assert (Epm : p_main p = DHandle path false) by (rewrite (pn_main _ Hop); f_equal; exact (du_path _ _ _ _ _ _ _ Hd)).
  rewrite Epm. pose proof (stored_sync ps algo path wal (path_ne_wal path) db ts (disk_data wal d1) d1 D11) as Hst2.
  set (d2 := (Disk_Sync _ d1).2) in *.
  assert (Hd2 : d2 = disk_step path (DFile (pg_data p1 d1) []) d1) by (unfold d2, Disk_Sync; cbn [dh_path snd]; unfold pg_data; by rewrite D4).
  assert (Hw2 : disk_file wal d2 = disk_file wal d1) by (rewrite Hd2; apply disk_file_step_ne, path_ne_wal).
  assert (Hsafe2 : crash_safe db d d2).
  { eapply safe_trans; [exact Hsafe1|]. rewrite Hd2 in Hst2 |- *. apply safe_step. eapply stored_recoverable; [exact Hst2|exact Hsc1|done]. }
  unfold with_walFile. gsteps. cbn [p_walFile set_ctr]. rewrite W1. apply gspec_close. gsteps.
  match goal with |- gspec _ (?q, _) _ _ => set (p3 := q) end.
  destruct Hst2 as (mf & Hmf & Hwf & HLm & Hmo).
  assert (Emf : mf = DFile (pg_data p1 d1) []) by (rewrite Hd2 in Hmf; cbn [dk_files disk_step] in Hmf; rewrite lookup_insert_eq in Hmf; congruence).
  eapply gspec_mono; [apply (openFreshWAL_spec csprng ps algo path wal Hrand p3 d2 db mf); try done| |done].
  - apply wrap_in_u. lia.
  - apply path_ne_wal.
  - intros b Hb. rewrite Emf in Hb. by apply once_synced in Hb as ->.
  - intros w' Hw'. rewrite (disk_file_Some _ _ _ Hwf) in Hw'. apply once_synced in Hw' as ->. by exists ts.
  - intros u3 s' (w' & r & wh' & d3 & -> & Hwh & Hwps & Hsy & Hwf3 & Hmf3 & Hsafe3). exists wh'.
    match goal with |- durable (?q, _) _ _ _ /\ _ => set (p4 := q) end. rewrite Emf in Hmf3.
    assert (Hdata : pg_data p4 d3 = pg_data p1 d1).
    { change (disk_data (p_path p1) d3 = pg_data p1 d1). unfold disk_data. by rewrite D4, (disk_file_Some _ _ _ Hmf3). }
    assert (Hview : forall n, view (p4, d3) n = view (p1, d1) n).
    { intros n. unfold view. cbn [fst snd]. by rewrite Hdata. }
    assert (Hsame3 : same (p1, d1) (p4, d3)) by (constructor; done).
    destruct D1 as [I1 I2 I3 I4 I5 (fl & Hfl)]. cbn [fst snd] in *. split; [|split; [|split]].
    + constructor; cbn [fst snd]; try done.
      * constructor; try done; cbn [fst snd]; [by destruct I1|by rewrite Hdata|]. exists fl.
        destruct Hfl as (F1 & F2 & F3 & F4). split; [|done]. eapply chain_ext; [exact F1|]. intros n _. apply Hview.
      * apply wrap_in_u. lia.
      * exists w'. done.
      * exists (DFile (pg_data p1 d1) []). split; [done|]. split; [done|]. split; [done|]. intros b Hb. by apply once_synced in Hb as ->.
      * rewrite Hdata. eapply held_nolog; [exact D12|exact Hall].
    + intros n f Hf Hu Hn. cbn [fst snd] in *. rewrite Hdata. by apply (Hset1 n f).
    + eapply safe_trans; [exact Hsafe2|]. apply Hsafe3; [done|]. by rewrite (disk_file_Some _ _ _ Hwf).
    + eapply same_trans; [exact Hsame0|]. eapply same_trans; [exact Hsame1|exact Hsame3].
Qed.
End checkpoint.

(** ** The pages a commit logs *)

(** The page with its checksum written; page 0 carries its own. *)
Definition sealed (algo n : Z) (b : bytes) : bytes :=
  if n =? 0 then b else match WritePageChecksum (E:=pgErr) b algo with Ok r => r.2 | _ => b end.

Definition seal_frame (algo : Z) (f : Frame) : Frame := set_Buf (sealed algo (PageID f) (Buf f)) f.

Lemma sealed_spec algo n b :
  Supported algo = true -> bytes_ok b -> 36 <= blen b ->
  blen (sealed algo n b) = blen b /\ bytes_ok (sealed algo n b) /\
  take (length b - 4) (sealed algo n b) = take (length b - 4) b /\
  (n <> 0 -> WritePageChecksum (E:=pgErr) b algo = Ok (le_val (drop (length b - 4) (sealed algo n b)), sealed algo n b) /\
     VerifyPageChecksum (sealed algo n b) algo = Ok tt).
Proof.
  intros Ha Hb Hl. unfold sealed. destruct (Z.eqb_spec n 0) as [->|Hn]; [done|].
  destruct (WritePageChecksum_spec (E:=pgErr) b algo Ha Hb ltac:(lia)) as (s & b' & HW & L & B & _ & V & _). rewrite HW. cbn [snd].
  split; [done|]. split; [done|]. set (body := take (length b - 4) b). set (t := drop (length b - 4) b).
  assert (Ht : length t = 4%nat) by (unfold t; rewrite length_drop; unfold blen in Hl; lia).
  destruct (Checksum_supported (E:=pgErr) algo body Ha) as [s0 Hs].
  pose proof (WritePageChecksum_split (E:=pgErr) body t algo s0 Ht Hs) as HW'. unfold body, t in HW'. rewrite take_drop in HW'.
  assert (s = s0 /\ b' = body ++ le_bytes 4 s0) as [-> ->] by (split; unfold body; congruence). clear HW'.
  assert (Hlb : length body = (length b - 4)%nat) by (unfold body; rewrite length_take; lia).
  split; [rewrite take_app_le by lia; by rewrite <- Hlb, take_ge|]. intros _. split; [|done].
  rewrite drop_app_ge by lia. rewrite Hlb, Nat.sub_diag, drop_0. do 2 f_equal. symmetry. apply le_val_le_bytes. assert (Hs' : Checksum (E:=fmtErr) algo body = Ok s0).
  { unfold Checksum in *. repeat case_match; congruence. }
  apply (Checksum_range (E:=fmtErr) algo body s0); [by apply Forall_take|done].
Qed.

Lemma freelist_next_sealed algo n b :
  Supported algo = true -> bytes_ok b -> 40 <= blen b -> freelist_next (sealed algo n b) = freelist_next b.
Proof.
  intros Ha Hb Hl. destruct (sealed_spec algo n b Ha Hb ltac:(lia)) as (H1 & _ & H3 & _). unfold freelist_next. f_equal.
  assert (Hs : forall c : bytes, length c = length b -> sub (Z.to_nat freelistNextOffset) 4 c = sub (Z.to_nat freelistNextOffset) 4 (take (length b - 4) c)).
  { intros c Hc. unfold sub, freelistNextOffset, PageHeaderSize, blen in *. rewrite skipn_firstn_comm, take_take. f_equal. lia. }
  unfold blen in H1. rewrite (Hs (sealed _ _ _)) by lia. rewrite H3. by rewrite <- Hs.
Qed.

(** The database a commit would leave: every page as it is, those the transaction
    changed with their checksums written. *)
Definition snap_page (algo : Z) (s : dpager * Disk) (n : Z) : bytes :=
  match table (p_pool s.1) !! n with
  | Some f => if decide (uncommitted (p_walFlushedLSN s.1) f) then sealed algo n (Buf f) else Buf f
  | None => disk_page (p_pageSize s.1) (pg_data s.1 s.2) n
  end.

Definition snapshot (algo : Z) (s : dpager * Disk) : list bytes := map (snap_page algo s) (seqZ 0 (count s)).

Lemma blen_snapshot algo s : 0 <= count s -> blen (snapshot algo s) = count s.
Proof. intros. unfold snapshot, blen. rewrite length_map, length_seqZ. lia. Qed.

Lemma db_page_snapshot algo s n : 0 <= n < count s -> db_page (snapshot algo s) n = snap_page algo s n.
Proof.
  intros Hn. unfold db_page, snapshot. rewrite list_lookup_fmap, (lookup_seqZ_lt 0) by lia. cbn. by rewrite Z2Nat.id by lia.
Qed.

Section images.
Context (algo : Z).

Definition commit_image (f : Frame) : PageImage := MkPageImage (PageID f) (sealed algo (PageID f) (Buf f)).
Definition sealed_table (fs : list Frame) (t : gmap Z Frame) : gmap Z Frame :=
  fold_left (fun t f => <[PageID f := seal_frame algo f]> t) fs t.
Definition max_lsn (fs : list Frame) : Z := fold_right (fun f m => Z.max (pageLSN f) m) 0 fs.

Lemma sealed_table_out fs : forall t n, n ∉ map PageID fs -> sealed_table fs t !! n = t !! n.
Proof.
  induction fs as [|f fs IH]; intros t n Hn; cbn [sealed_table fold_left map] in *; [done|].
  apply not_elem_of_cons in Hn as [Hn1 Hn2]. unfold sealed_table in IH. rewrite IH by done. by rewrite lookup_insert_ne.
Qed.

Lemma sealed_table_in fs : forall t f, NoDup (map PageID fs) -> f ∈ fs -> sealed_table fs t !! PageID f = Some (seal_frame algo f).
Proof.
  induction fs as [|g fs IH]; intros t f Hn Hf; [by apply elem_of_nil in Hf|]. cbn [map] in Hn. apply NoDup_cons in Hn as [Hn1 Hn2].
  cbn [sealed_table fold_left]. apply elem_of_cons in Hf as [->|Hf].
  - pose proof (sealed_table_out fs (<[PageID g := seal_frame algo g]> t) (PageID g) Hn1) as H. unfold sealed_table in H.
    by rewrite H, lookup_insert_eq.
  - by apply IH.
Qed.

Lemma commit_images_spec fs : forall p (d : Disk),
  p_checksum p = algo -> pg_open p -> pool_ok (p_pageSize p) 0 (p_pool p) ->
  NoDup (map PageID fs) -> (forall f, f ∈ fs -> table (p_pool p) !! PageID f = Some f) ->
  gspec (commit_images (D:=Disk) fs) (p, d)
    (fun r s' => r = (map commit_image fs, max_lsn fs) /\
       lands p (sealed_table fs (table (p_pool p))) (p_hdr p) (p_nextLSN p) d s') (fun _ _ => False).
Proof.
  induction fs as [|f fs IH]; intros p d Halg Hp HP Hnd Hfs; cbn [commit_images map]; gsteps.
  { split; [done|]. exists (p_pool p), (p_ctr p). split; [by destruct p|]. done. }
  cbn [map] in Hnd. apply NoDup_cons in Hnd as [Hnd1 Hnd2]. pose proof (Hfs f ltac:(by left)) as Hf.
  pose proof (valid_size _ (pn_size _ Hp)) as [Hps _]. destruct (po_frames _ _ _ HP _ _ Hf) as (_ & F2 & F3 & F4).
  pose proof (pn_algo _ Hp) as Ha. rewrite Halg in Ha.
  destruct (sealed_spec algo (PageID f) (Buf f) Ha F3 ltac:(lia)) as (S1 & S2 & _ & S4).
  assert (Hseal : gspec (stamp_checksum (D:=Disk) (PageID f)) (p, d)
    (fun _ => lands p (<[PageID f := seal_frame algo f]> (table (p_pool p))) (p_hdr p) (p_nextLSN p) d) (fun _ _ => False)).
  { unfold stamp_checksum. gsteps. destruct (Z.eqb_spec (PageID f) 0) as [E|E]; gsteps.
    - exists (p_pool p), (p_ctr p). split; [by destruct p|]. split; [done|]. split; [done|]. symmetry. apply insert_id.
      unfold seal_frame, sealed. rewrite (proj2 (Z.eqb_eq _ _) E). by destruct f.
    - apply gspec_frame with (f := f); [done|]. gsteps. apply gspec_lift. rewrite Halg. rewrite (proj1 (S4 E)). gsteps.
      pg_form. cbn [p_pool set_pool snd]. split; [|split; [done|]].
      + apply pool_ok_upd; [done|]. intros g Hg. assert (Some f = Some g) as [= <-] by (rewrite <- Hf; exact Hg).
        split; [|done]. unfold frame_ok. cbn [PageID Buf set_Buf pins]. rewrite S1. done.
      + exact (table_upd _ (set_Buf _) (p_pool p) f Hf). }
  eapply gspec_mono; [exact Hseal| |done]. intros u s1 (P & c & -> & HP1 & Hz1 & Ht1). gsteps.
  apply gspec_frame with (f := seal_frame algo f); [change (table P !! PageID f = Some (seal_frame algo f)); by rewrite Ht1, lookup_insert_eq|].
  gsteps. set (p1 := pgw P c (p_hdr p) (p_nextLSN p) p). assert (Hp1 : pg_open p1) by by destruct Hp.
  eapply gspec_mono; [apply (IH p1 d Halg Hp1 HP1 Hnd2)| |done].
  { intros g Hg. change (table P !! PageID g = Some g). rewrite Ht1, lookup_insert_ne; [by apply Hfs; right|].
    intros E. apply Hnd1. rewrite E. apply list_elem_of_fmap. by exists g. }
  intros r s' [-> Hl]. gsteps. split; [done|]. eapply lands_trans with (t := table P) (h := p_hdr p) (l := p_nextLSN p) (d1 := d) (s1 := (p1, d)).
  - by exists P, c.
  - change (table (p_pool p1)) with (table P) in Hl. rewrite Ht1 in Hl. exact Hl.
Qed.

Lemma max_lsn_bounds fs l : (forall f, f ∈ fs -> 0 <= pageLSN f <= l) -> 0 <= l -> 0 <= max_lsn fs <= l.
Proof.
  induction fs as [|f fs IH]; intros Hf Hl; cbn [max_lsn fold_right]; [lia|]. fold (max_lsn fs).
  pose proof (Hf f ltac:(by left)). assert (0 <= max_lsn fs <= l) by (apply IH; [intros g Hg; apply Hf; by right|done]). lia.
Qed.

Lemma max_lsn_ge fs f : f ∈ fs -> pageLSN f <= max_lsn fs.
Proof.
  induction fs as [|g fs IH]; intros Hf; [by apply elem_of_nil in Hf|]. cbn [max_lsn fold_right]. fold (max_lsn fs).
  apply elem_of_cons in Hf as [->|Hf]; [lia|]. specialize (IH Hf). lia.
Qed.

Lemma last_image_commit fs n x :
  NoDup (map PageID fs) -> last_image (map commit_image fs) n = Some x -> exists f, f ∈ fs /\ PageID f = n /\ x = sealed algo n (Buf f).
Proof.
  intros Hnd H. apply last_image_elem in H as (i & Hi & <- & <-). apply list_elem_of_fmap in Hi as (f & -> & Hf). by exists f.
Qed.

Lemma last_image_not fs n : last_image (map commit_image fs) n = None -> n ∉ map PageID fs.
Proof.
  intros H Hn. apply list_elem_of_fmap in Hn as (f & -> & Hf).
  destruct (last_image_logged (map commit_image fs) (commit_image f)) as [x Hx]; [apply list_elem_of_fmap; by exists f|].
  cbn [commit_image pi_PageID] in Hx. congruence.
Qed.
End images.

(** ** The log while it grows *)

(** Whatever the file falls back to is a prefix of full, at least lo bytes of it. *)
Definition prefixes (lo : nat) (full : bytes) (f : dfile) : Prop :=
  forall c, once f c -> exists n, (lo <= n)%nat /\ c = take n full.

Lemma prefixes_write lo full b l u p rest :
  prefixes lo full (MkFile b l u) -> (lo <= length b)%nat -> full = b ++ p ++ rest ->
  prefixes lo full (MkFile (write_data p (blen b) b) (tears p (blen b) b ++ b :: l) u).
Proof.
  intros Hp Hlo Hfull c Hc. apply once_written in Hc as [Hc|(k & Hk & -> & _)]; [by apply Hp|].
  exists (length b + k)%nat. split; [lia|]. rewrite write_data_append, Hfull, take_app_ge by lia. f_equal.
  replace (length b + k - length b)%nat with k by lia. symmetry. apply take_app_le. lia.
Qed.

Section append.
Context (wal : string) (wh : Wal.Header) (C : gmap string dfile -> Prop) (full : bytes) (lo : nat).
Notation h := (DHandle wal false).

(** The state between two writes to the log. *)
Definition growing (other : gmap string dfile) (d : Disk) : Prop :=
  exists wf, dk_files d = <[wal := wf]> other /\ df_linked wf = true /\ prefixes lo full wf /\ (lo <= length (df_now wf))%nat.

Lemma growing_write other d p rest :
  growing other d -> full = disk_data wal d ++ p ++ rest -> (forall d', growing other d' -> C (dk_files d')) ->
  let d' := (Disk_WriteAt h p (blen (disk_data wal d)) d).2 in
  growing other d' /\ safe C d d' /\ disk_data wal d' = disk_data wal d ++ p.
Proof.
  intros (wf & Hf & HL & Hpre & Hlo) Hfull HC d'. assert (Hw : dk_files d !! wal = Some wf) by (by rewrite Hf, lookup_insert_eq).
  assert (E : disk_file wal d = wf) by by apply disk_file_Some. unfold disk_data in *. rewrite E in *.
  assert (Hg : growing other d').
  { unfold d'. rewrite dk_files_write, E. unfold growing. cbn [dk_files disk_step]. eexists. split; [by rewrite Hf, insert_insert_eq|]. split; [exact HL|]. split.
    - eapply prefixes_write; [by destruct wf|done|exact Hfull].
    - cbn [df_now]. rewrite write_data_append, length_app. lia. }
  split; [done|]. split.
  - unfold d' in Hg |- *. rewrite dk_files_write in Hg |- *. apply safe_step. by apply HC in Hg.
  - unfold d'. rewrite dk_files_write, disk_file_step. cbn [df_now]. rewrite E. apply write_data_append.
Qed.

Lemma append_frames_growing frames : forall size l w other d,
  @synced Disk (disk_data wal) wh l w d -> Forall (entry_ok wh) l -> Forall (image_ok wh) frames -> in_u 32 size -> frames <> [] ->
  full = Wal.Encode wh ++ log_bytes wh (initialPrevChecksum wh) (BaseLSN wh) (l ++ entries frames size) ->
  growing other d -> (forall d', growing other d' -> C (dk_files d')) ->
  let d' := (append_frames (ops:=disk_ops h) frames size w d).2 in growing other d' /\ safe C d d'.
Proof.
  induction frames as [|fr frames IH]; [done|]. intros size l w other d Hs Hl Hf Hsz _ Hfull Hg HC.
  apply Forall_cons in Hf as [(Hi & Hb & Hp) Hf]. cbn [append_frames entries] in *.
  assert (Hone : forall m rest, entry_ok wh (Entry (pi_PageID fr) m (pi_Payload fr)) ->
    full = Wal.Encode wh ++ log_bytes wh (initialPrevChecksum wh) (BaseLSN wh) ((l ++ [Entry (pi_PageID fr) m (pi_Payload fr)]) ++ rest) ->
    exists res w' d', appendFrame (ops:=disk_ops h) (pi_PageID fr) m (pi_Payload fr) w d = (inr res, w', d') /\
      @synced Disk (disk_data wal) wh (l ++ [Entry (pi_PageID fr) m (pi_Payload fr)]) w' d' /\ growing other d' /\ safe C d d').
  { intros m rest He Hfl.
    destruct (@appendFrame_synced Disk (disk_ops h) (disk_data wal) (disk_laws h eq_refl) wh l (pi_PageID fr) m (pi_Payload fr) w d Hs Hl He)
      as (w' & d' & E & Hs'). exists (u64 (BaseLSN wh + blen l), u32 (blen l + 1)), w', d'. split; [exact E|]. split; [done|].
    unfold appendFrame in E. cbn [WriteAt disk_ops] in E.
    set (hb := encodeFrameHeaderPrefix _ _ _ ++ _) in E.
    pose proof Hs as [Hc Hw].
    assert (Hoff : w_writeOffset w = blen (disk_data wal d)).
    { rewrite Hw, Hc. cbn [w_writeOffset]. unfold blen. rewrite length_app, Wal.length_Encode, (length_log_bytes wh) by done.
      assert (0 <= FrameSize (Wal.PageSize wh)) by (rewrite <- Hp; unfold FrameSize, FrameHeaderSize, blen; lia).
      unfold WALHeaderSize. lia. }
    rewrite Hoff in E. destruct (Disk_WriteAt h hb (blen (disk_data wal d)) d) as [[n1 e1] d1] eqn:E1.
    assert (e1 = None) as -> by (unfold Disk_WriteAt in E1; cbn [dh_readOnly] in E1; congruence).
    assert (Ed1 : d1 = (Disk_WriteAt h hb (blen (disk_data wal d)) d).2) by (by rewrite E1).
    assert (Hlh : blen (disk_data wal d) + FrameHeaderSize = blen (disk_data wal d ++ hb)).
    { unfold blen. rewrite length_app. unfold hb, encodeFrameHeaderPrefix, FrameHeaderSize. rewrite !length_app, !length_le_bytes. lia. }
    rewrite Hlh in E.
    destruct (Disk_WriteAt h (pi_Payload fr) (blen (disk_data wal d ++ hb)) d1) as [[n2 e2] d2] eqn:E2.
    assert (e2 = None) as -> by (unfold Disk_WriteAt in E2; cbn [dh_readOnly] in E2; congruence).
    assert (Ed2 : d2 = (Disk_WriteAt h (pi_Payload fr) (blen (disk_data wal d ++ hb)) d1).2) by (by rewrite E2).
    assert (d' = d2) as -> by congruence. pose proof Hs' as [Hc' _].
    assert (Hdat1 : disk_data wal d1 = disk_data wal d ++ hb).
    { rewrite Ed1, dk_files_write. unfold disk_data at 1. rewrite disk_file_step. cbn [df_now]. apply write_data_append. }
    assert (Hdat2 : disk_data wal d2 = disk_data wal d ++ hb ++ pi_Payload fr).
    { rewrite Ed2, dk_files_write. unfold disk_data at 1. rewrite disk_file_step. cbn [df_now]. fold (disk_data wal d1).
      rewrite <- Hdat1, write_data_append, Hdat1. by rewrite app_assoc. }
    rewrite (log_bytes_app wh _ rest _ _ 0) in Hfl. rewrite app_assoc, <- Hc', Hdat2 in Hfl.
    destruct (log_end wh _ _ 0 _) as [[pr ls] no].
    destruct (growing_write other d hb (pi_Payload fr ++ log_bytes wh pr ls rest) Hg) as (Hg1 & Hsf1 & _); [by rewrite Hfl, <- !app_assoc|done|].
    rewrite <- Ed1 in Hg1, Hsf1.
    edestruct (growing_write other d1 (pi_Payload fr)) as (Hg2 & Hsf2 & _); [exact Hg1|by rewrite Hdat1, Hfl, <- !app_assoc|done|].
    rewrite Hdat1, <- Ed2 in Hg2, Hsf2. split; [done|]. by eapply safe_trans. }
  destruct frames as [|g frames].
  - destruct (Hone size []) as (res & w' & d' & E & _ & Hg' & Hsf); [by split_and!|by rewrite app_nil_r|]. rewrite E. done.
  - destruct (Hone 0 (entries (g :: frames) size)) as (res & w' & d' & E & Hs' & Hg' & Hsf); [by split_and!|by rewrite <- app_assoc|].
    rewrite E. destruct (IH size _ w' other d' Hs') as (Hg2 & Hsf2); try done.
    { apply Forall_app_2; [done|]. constructor; [|done]. by split_and!. }
    { by rewrite <- app_assoc. }
    split; [done|]. by eapply safe_trans.
Qed.
End append.

(** ** The transaction a commit appends *)

Section commit.
Context (csprng : nat -> Z) (ps algo : Z) (path : string).
Hypothesis (Hrand : forall k, byte_ok (csprng k)).
Notation wal := (path +:+ "-wal").
Notation durable := (durable ps algo path).
Notation crash_safe db := (safe (recoverable ps algo path wal (eq db))).

(** What a page of the snapshot is: the committed one, unless a transaction changed it. *)
Lemma snap_page_spec s db wh ts n :
  durable s db wh ts -> 0 <= n < count s ->
  (exists f, table (p_pool s.1) !! n = Some f /\ uncommitted (p_walFlushedLSN s.1) f /\ snap_page algo s n = sealed algo n (Buf f)) \/
  (n < blen db /\ snap_page algo s n = db_page db n /\
   forall f, table (p_pool s.1) !! n = Some f -> ~ uncommitted (p_walFlushedLSN s.1) f).
Proof.
  intros Hd Hn. pose proof (du_held _ _ _ _ _ _ _ Hd) as Hh. pose proof (du_size _ _ _ _ _ _ _ Hd) as Hsz. unfold snap_page.
  destruct (table (p_pool s.1) !! n) as [f|] eqn:Hf.
  - case_decide as Hu; [left; by exists f|]. right. destruct (hd_frames _ _ _ _ _ _ _ _ Hh n f Hf Hu) as [Hr ->].
    split; [lia|]. split; [done|]. by intros g [= <-].
  - right. assert (Hr : n < blen db).
    { apply Z.nle_gt. intros Hle. destruct (hd_grown _ _ _ _ _ _ _ _ Hh n ltac:(lia)) as (x & Hx & _). congruence. }
    split; [done|]. rewrite Hsz. split; [|done]. apply (hd_away _ _ _ _ _ _ _ _ Hh); [lia|done].
Qed.

Lemma frame_page s db wh ts n f : durable s db wh ts -> table (p_pool s.1) !! n = Some f -> blen (Buf f) = ps /\ bytes_ok (Buf f) /\ PageID f = n.
Proof.
  intros Hd Hf. destruct (po_frames _ _ _ (pi_pool _ (du_inv _ _ _ _ _ _ _ Hd)) n f Hf) as (F1 & F2 & F3 & _).
  by rewrite (du_size _ _ _ _ _ _ _ Hd) in F2.
Qed.

Lemma snap_page_bytes s db wh ts n :
  durable s db wh ts -> 0 <= n < count s -> blen (snap_page algo s n) = ps /\ bytes_ok (snap_page algo s n).
Proof.
  intros Hd Hn. destruct (durable_size _ _ _ _ _ _ _ Hd) as (Hps & _ & Ha).
  destruct (snap_page_spec s db wh ts n Hd Hn) as [(f & Hf & _ & ->)|(Hr & -> & _)].
  - destruct (frame_page _ _ _ _ _ _ Hd Hf) as (F1 & F2 & _). destruct (sealed_spec algo n (Buf f) Ha F2 ltac:(lia)) as (S1 & S2 & _).
    by rewrite S1.
  - apply (db_page_ok ps algo db); [exact (du_db _ _ _ _ _ _ _ Hd)|lia].
Qed.

(** The snapshot and what callers see differ in checksums only. *)
Lemma snap_page_view s db wh ts n :
  durable s db wh ts -> 0 <= n < count s ->
  take (Z.to_nat (ps - 4)) (snap_page algo s n) = take (Z.to_nat (ps - 4)) (view s n) /\ (n = 0 -> snap_page algo s n = view s n) /\
  freelist_next (snap_page algo s n) = freelist_next (view s n).
Proof.
  intros Hd Hn. destruct (durable_size _ _ _ _ _ _ _ Hd) as (Hps & _ & Ha). unfold snap_page, view, page_at.
  destruct (table (p_pool s.1) !! n) as [f|] eqn:Hf; [|done]. case_decide as Hu; [|done].
  destruct (frame_page _ _ _ _ _ _ Hd Hf) as (F1 & F2 & _). destruct (sealed_spec algo n (Buf f) Ha F2 ltac:(lia)) as (S1 & S2 & S3 & _).
  split; [|split].
  - unfold blen in F1. replace (Z.to_nat (ps - 4)) with (length (Buf f) - 4)%nat by lia. done.
  - intros ->. done.
  - apply freelist_next_sealed; [done|done|lia].
Qed.

Lemma snapshot_ok s db wh ts : durable s db wh ts -> db_ok ps algo (snapshot algo s).
Proof.
  intros Hd. pose proof (du_inv _ _ _ _ _ _ _ Hd) as [Hop Hpo Hh Hc HL (fl & F1 & F2 & F3 & F4)]. pose proof (durable_size _ _ _ _ _ _ _ Hd) as (Hps & _ & Ha).
  assert (Hlen : blen (snapshot algo s) = count s) by (apply blen_snapshot; lia). constructor.
  - apply Forall_forall. intros b Hb. unfold snapshot in Hb. apply list_elem_of_fmap in Hb as (n & -> & Hn). apply elem_of_seqZ in Hn.
    apply (snap_page_bytes s db wh ts n Hd). lia.
  - by rewrite Hlen.
  - exists (p_hdr s.1), fl. rewrite Hlen. split; [|split; [|split; [done|split; [|done]]]].
    + unfold hdr_fits in Hh. by rewrite (du_size _ _ _ _ _ _ _ Hd), (du_algo _ _ _ _ _ _ _ Hd) in Hh.
    + rewrite db_page_snapshot by lia. destruct (snap_page_view s db wh ts 0 Hd ltac:(lia)) as (_ & -> & _); [|done].
      destruct (ln_zero _ _ _ _ HL) as (f0 & Hf0 & _). unfold view, page_at. rewrite Hf0. by apply (du_zero _ _ _ _ _ _ _ Hd).
    + assert (Hx : forall l root, chain (view s) root l -> Forall (fun n => 0 < n < count s) l -> chain (db_page (snapshot algo s)) root l).
      { induction 1 as [|n l Hn H IH]; intros Hl; [constructor|]. apply Forall_cons in Hl as [Hn0 Hl]. constructor; [done|].
        rewrite db_page_snapshot by lia. destruct (snap_page_view s db wh ts n Hd ltac:(lia)) as (_ & _ & ->). by apply IH. }
      by apply Hx.
  - intros n Hn. rewrite Hlen in Hn. rewrite db_page_snapshot by lia.
    destruct (snap_page_spec s db wh ts n Hd ltac:(lia)) as [(f & Hf & _ & ->)|(Hr & -> & _)].
    + destruct (frame_page _ _ _ _ _ _ Hd Hf) as (G1 & G2 & _). apply (sealed_spec algo n (Buf f) Ha G2 ltac:(lia)). lia.
    + apply (do_verify _ _ _ (du_db _ _ _ _ _ _ _ Hd)). lia.
Qed.

(** The frames of the transaction. *)
Definition touched_frames (s : dpager * Disk) (fs : list Frame) : Prop :=
  NoDup (map PageID fs) /\ forall f, f ∈ fs <-> table (p_pool s.1) !! PageID f = Some f /\ uncommitted (p_walFlushedLSN s.1) f.

Definition commit_txn (s : dpager * Disk) (fs : list Frame) : txn := Tx (map (commit_image algo) fs) (count s).

Lemma commit_txn_ok s db wh ts fs : durable s db wh ts -> touched_frames s fs -> fs <> [] -> txn_ok wh (commit_txn s fs).
Proof.
  intros Hd [_ Hfs] Hne. pose proof (du_inv _ _ _ _ _ _ _ Hd) as [Hop Hpo Hh Hc HL _]. pose proof (durable_size _ _ _ _ _ _ _ Hd) as (Hps & _ & Ha).
  split; [by destruct fs|]. split; [|unfold commit_txn, in_u, NullPage in *; cbn [tx_size]; lia].
  apply Forall_forall. intros i Hi. cbn [commit_txn tx_frames] in Hi. apply list_elem_of_fmap in Hi as (f & -> & Hf). apply Hfs in Hf as [Hf _].
  destruct (frame_page _ _ _ _ _ _ Hd Hf) as (G1 & G2 & _). destruct (sealed_spec algo (PageID f) (Buf f) Ha G2 ltac:(lia)) as (S1 & S2 & _).
  assert (0 <= PageID f < count s) by (apply (ln_range _ _ _ _ HL); by eexists).
  split; [cbn; unfold in_u, NullPage in *; lia|]. split; [done|]. cbn [commit_image pi_Payload]. rewrite S1, G1.
  symmetry. by destruct (du_log _ _ _ _ _ _ _ Hd) as (_ & ? & _).
Qed.

(** The data file with the longer log stands for the snapshot. *)
Lemma commit_main_ok s db wh ts fs b :
  durable s db wh ts -> touched_frames s fs -> main_ok ps algo db ts b ->
  main_ok ps algo (snapshot algo s) (ts ++ [commit_txn s fs]) b.
Proof.
  intros Hd [Hnd Hfs] [M1 M2 M3 M4 M5 M6]. pose proof (du_inv _ _ _ _ _ _ _ Hd) as [Hop Hpo Hh Hc HL _].
  pose proof (durable_size _ _ _ _ _ _ _ Hd) as (Hps & Hvs & Ha).
  assert (Hlen : blen (snapshot algo s) = count s) by (apply blen_snapshot; lia).
  assert (Him : images (ts ++ [commit_txn s fs]) = images ts ++ map (commit_image algo) fs).
  { rewrite images_app. f_equal. unfold images. cbn [map concat commit_txn tx_frames]. apply app_nil_r. }
  assert (Hin : forall f, f ∈ fs -> 0 <= PageID f < count s /\ blen (Buf f) = ps /\ bytes_ok (Buf f)).
  { intros f Hf. apply Hfs in Hf as [Hf _]. destruct (frame_page _ _ _ _ _ _ Hd Hf) as (G1 & G2 & _). split; [|done].
    apply (ln_range _ _ _ _ HL). by eexists. }
  constructor; try done.
  - intros i Hi. rewrite Him in Hi. apply elem_of_app in Hi as [Hi|Hi]; [by apply M3|].
    apply list_elem_of_fmap in Hi as (f & -> & Hf). cbn [commit_image pi_PageID pi_Payload]. destruct (Hin f Hf) as (G0 & G1 & G2).
    destruct (sealed_spec algo (PageID f) (Buf f) Ha G2 ltac:(lia)) as (S1 & S2 & _). split; [lia|]. split; [by rewrite S1|]. split; [done|].
    intros E. rewrite E. change (sealed algo 0 (Buf f)) with (Buf f). apply Hfs in Hf as [Hf _]. rewrite E in Hf.
    rewrite (du_zero _ _ _ _ _ _ _ Hd f Hf). apply hdr_page_reads; try done.
    unfold hdr_fits in Hh. by rewrite (du_size _ _ _ _ _ _ _ Hd), (du_algo _ _ _ _ _ _ _ Hd) in Hh.
  - intros n Hn HN. rewrite Hlen in Hn. rewrite Him, last_image_app in HN.
    destruct (last_image (map (commit_image algo) fs) n) as [x|] eqn:E; [done|]. rewrite db_page_snapshot by lia.
    destruct (snap_page_spec s db wh ts n Hd ltac:(lia)) as [(f & Hf & Hu & _)|(Hr & -> & _)]; [|by apply M4; [lia|]].
    exfalso. apply (last_image_not algo fs n E). destruct (frame_page _ _ _ _ _ _ Hd Hf) as (_ & _ & G3).
    apply list_elem_of_fmap. exists f. split; [done|]. apply Hfs. by rewrite G3.
  - intros n x Hn Hx. rewrite Hlen in Hn. rewrite db_page_snapshot by lia. rewrite Him, last_image_app in Hx.
    destruct (last_image (map (commit_image algo) fs) n) as [y|] eqn:E.
    + injection Hx as <-. apply last_image_commit in E as (f & Hf & <- & ->); [|done]. apply Hfs in Hf as [Hf Hu].
      unfold snap_page. rewrite Hf. by rewrite decide_True.
    + destruct (snap_page_spec s db wh ts n Hd ltac:(lia)) as [(f & Hf & Hu & _)|(Hr & -> & _)]; [|by apply M5; [lia|]].
      exfalso. apply (last_image_not algo fs n E). destruct (frame_page _ _ _ _ _ _ Hd Hf) as (_ & _ & G3).
      apply list_elem_of_fmap. exists f. split; [done|]. apply Hfs. by rewrite G3.
  - rewrite last_snoc. cbn [commit_txn tx_size]. by rewrite Hlen.
Qed.

Lemma complete_snoc ts t : forall k, (length (txn_log ts) <= k)%nat -> complete k (ts ++ [t]) = ts \/ complete k (ts ++ [t]) = ts ++ [t].
Proof.
  induction ts as [|u ts IH]; intros k Hk; cbn [complete app].
  - destruct (_ <=? _)%nat; [by right|by left].
  - unfold txn_log in *. cbn [map concat] in Hk. rewrite length_app, length_entries in Hk.
    rewrite (proj2 (Nat.leb_le _ _)) by lia. destruct (IH (k - length (tx_frames u))%nat ltac:(lia)) as [-> | ->]; [by left|by right].
Qed.

(** A cut of the longer log that spares the shorter one holds one of the two. *)
Lemma scans_cut wh ts t n :
  Wal.header_ok wh -> Wal.PageSize wh = ps -> Forall (txn_ok wh) (ts ++ [t]) -> 4096 <= ps -> (length (wal_file wh ts) <= n)%nat ->
  scans ps (take n (wal_file wh (ts ++ [t]))) ts \/ scans ps (take n (wal_file wh (ts ++ [t]))) (ts ++ [t]).
Proof.
  intros Hh Hp Ht Hps Hn. pose proof Ht as Ht'. apply Forall_app in Ht' as [Hts _].
  assert (Hl : length (wal_file wh ts) = (32 + length (txn_log ts) * Z.to_nat (FrameSize ps))%nat).
  { unfold wal_file. rewrite length_app, Wal.length_Encode, (length_log_bytes wh) by (by apply txn_log_ok). by rewrite Hp. }
  assert (Hf : (0 < Z.to_nat (FrameSize ps))%nat) by (unfold FrameSize, FrameHeaderSize; lia).
  assert (Hk : (length (txn_log ts) <= (n - 32) / Z.to_nat (FrameSize ps))%nat).
  { apply Nat.div_le_lower_bound; lia. }
  destruct (complete_snoc ts t _ Hk) as [E|E]; [left|right]; exists wh, (ts ++ [t]), n; (split; [done|]); (split; [done|]);
    (split; [done|]); (split; [done|]); by rewrite (proj2 (Nat.ltb_ge n 32)) by lia.
Qed.

(** ** Commit *)

(** What a commit leaves: the snapshot's pages, nothing uncommitted. *)
Record sealed_as (s s' : dpager * Disk) : Prop := SealedAs {
  sa_hdr : p_hdr s'.1 = p_hdr s.1;
  sa_view : forall n, 0 <= n < count s -> view s' n = snap_page algo s n;
  sa_pins : forall n, pins_of (table (p_pool s'.1)) n = pins_of (table (p_pool s.1)) n;
  sa_lsn : p_nextLSN s'.1 = p_nextLSN s.1;
  sa_done : forall n f, table (p_pool s'.1) !! n = Some f -> ~ uncommitted (p_walFlushedLSN s'.1) f
}.

Lemma sealed_lookup s db wh ts fs n :
  durable s db wh ts -> touched_frames s fs ->
  sealed_table algo fs (table (p_pool s.1)) !! n =
    match table (p_pool s.1) !! n with
    | Some f => Some (if decide (uncommitted (p_walFlushedLSN s.1) f) then seal_frame algo f else f)
    | None => None
    end.
Proof.
  intros Hd [Hnd Hfs]. destruct (table (p_pool s.1) !! n) as [f|] eqn:Hf.
  - destruct (frame_page _ _ _ _ _ _ Hd Hf) as (_ & _ & E). case_decide as Hu.
    + rewrite <- E. apply sealed_table_in; [done|]. apply Hfs. by rewrite E.
    + rewrite sealed_table_out; [done|]. intros Hn. apply list_elem_of_fmap in Hn as (g & -> & Hg). apply Hfs in Hg as [Hg Hgu]. congruence.
  - rewrite sealed_table_out; [done|]. intros Hn. apply list_elem_of_fmap in Hn as (g & -> & Hg). apply Hfs in Hg as [Hg _]. congruence.
Qed.

Lemma sealed_pages s db wh ts fs n :
  durable s db wh ts -> touched_frames s fs -> 
  page_at ps (sealed_table algo fs (table (p_pool s.1))) (pg_data s.1 s.2) n = snap_page algo s n /\
  pins_of (sealed_table algo fs (table (p_pool s.1))) n = pins_of (table (p_pool s.1)) n.
Proof.
  intros Hd Hfs. unfold page_at, pins_of, snap_page. rewrite (sealed_lookup s db wh ts fs n Hd Hfs), (du_size _ _ _ _ _ _ _ Hd).
  destruct (table (p_pool s.1) !! n) as [f|] eqn:Hf; [|done].
  destruct (frame_page _ _ _ _ _ _ Hd Hf) as (_ & _ & E). case_decide; [|done]. split; [by rewrite <- E|done].
Qed.

(** The invariant, and what is held, after the commit's pages are sealed. *)
Lemma sealed_inv s db wh ts fs P :
  durable s db wh ts -> touched_frames s fs -> fs <> [] -> table P = sealed_table algo fs (table (p_pool s.1)) ->
  lent ps (count s) (table P) (pg_data s.1 s.2) /\ (exists fl, chain (page_at ps (table P) (pg_data s.1 s.2)) (FreelistRoot (p_hdr s.1)) fl /\ NoDup fl /\
    Forall (fun n => 0 < n < count s) fl /\ FreelistPageCount (p_hdr s.1) = blen fl) /\
  held ps (max_lsn fs) (snapshot algo s) (ts ++ [commit_txn s fs]) (table P) (pg_data s.1 s.2) (count s) (p_nextLSN s.1) /\
  (forall f, table P !! 0 = Some f -> Buf f = hdr_page ps (p_hdr s.1)) /\
  (forall n f, table P !! n = Some f -> ~ uncommitted (max_lsn fs) f).
Proof.
  intros Hd Hfs Hne Ht. pose proof (du_inv _ _ _ _ _ _ _ Hd) as [Hop Hpo Hh Hc HL (fl & F1 & F2 & F3 & F4)].
  rewrite (du_size _ _ _ _ _ _ _ Hd) in HL. pose proof (du_held _ _ _ _ _ _ _ Hd) as Hheld. destruct Hfs as [Hnd Hfs].
  assert (Hlk : forall n f, table P !! n = Some f -> exists g, table (p_pool s.1) !! n = Some g /\
    f = (if decide (uncommitted (p_walFlushedLSN s.1) g) then seal_frame algo g else g) /\ dirty f = dirty g /\ pageLSN f = pageLSN g /\ loc f = loc g).
  { intros n f. rewrite Ht, (sealed_lookup s db wh ts fs n Hd ltac:(done)). destruct (table (p_pool s.1) !! n) as [g|]; [|done].
    intros E. exists g. split; [done|]. assert (f = (if decide (uncommitted (p_walFlushedLSN s.1) g) then seal_frame algo g else g)) as -> by congruence.
    split; [done|]. by case_decide. }
  assert (Hnone : forall n, table P !! n = None -> table (p_pool s.1) !! n = None).
  { intros n. rewrite Ht, (sealed_lookup s db wh ts fs n Hd ltac:(done)). by destruct (table (p_pool s.1) !! n). }
  assert (Hpg : forall n, page_at ps (table P) (pg_data s.1 s.2) n = snap_page algo s n).
  { intros n. rewrite Ht. by apply (sealed_pages s db wh ts fs n). }
  assert (Hmem : forall n g, table (p_pool s.1) !! n = Some g -> uncommitted (p_walFlushedLSN s.1) g -> g ∈ fs).
  { intros n g Hg Hu. apply Hfs. by rewrite (proj2 (proj2 (frame_page _ _ _ _ _ _ Hd Hg))). }
  assert (Hdone : forall n f, table P !! n = Some f -> ~ uncommitted (max_lsn fs) f).
  { intros n f Hf [Hdf Hlt]. destruct (Hlk n f Hf) as (g & Hg & _ & Ed & El & _). rewrite Ed in Hdf. rewrite El in Hlt.
    destruct (decide (uncommitted (p_walFlushedLSN s.1) g)) as [Hu|Hu].
    - pose proof (max_lsn_ge fs g (Hmem n g Hg Hu)). lia.
    - assert (p_walFlushedLSN s.1 < max_lsn fs).
      { destruct fs as [|f0 fs0]; [done|]. pose proof (max_lsn_ge (f0 :: fs0) f0 ltac:(by left)).
        destruct (proj1 (Hfs f0) ltac:(by left)) as [_ [_ ?]]. lia. }
      apply Hu. split; [done|lia]. }
  assert (Hlen : blen (snapshot algo s) = count s) by (apply blen_snapshot; lia).
  split; [|split; [|split; [|split; [|done]]]].
  - destruct HL as [L1 L2 L3 L4 L5]. constructor; try done.
    + intros n f Hf Hdf. destruct (Hlk n f Hf) as (g & Hg & E & Ed & _). rewrite decide_False in E by (intros [? _]; congruence). subst f. by apply L1.
    + intros n [f Hf]. destruct (Hlk n f Hf) as (g & Hg & _). apply L2. by eexists.
    + destruct L3 as (f0 & Hf0 & Hl0). destruct (table P !! 0) as [f|] eqn:Hf; [|apply Hnone in Hf; congruence].
      exists f. split; [done|]. destruct (Hlk 0 f Hf) as (g & Hg & _ & _ & _ & El). congruence.
  - exists fl. split; [|done].
    assert (Hx : forall l root, chain (view s) root l -> Forall (fun n => 0 < n < count s) l -> chain (page_at ps (table P) (pg_data s.1 s.2)) root l).
    { induction 1 as [|n l Hn H IH]; intros Hl; [constructor|]. apply Forall_cons in Hl as [Hn0 Hl]. constructor; [done|].
      rewrite Hpg. destruct (snap_page_view s db wh ts n Hd ltac:(lia)) as (_ & _ & ->). by apply IH. }
    by apply Hx.
  - pose proof (max_lsn_bounds fs (p_nextLSN s.1)) as Hmax. destruct Hheld as [H1 H2 H3 H4 H5 H6]. rewrite <- Hlen.
    assert (Hb : 0 <= max_lsn fs <= p_nextLSN s.1).
    { apply Hmax; [|lia]. intros f Hf. apply Hfs in Hf as [Hf [Hdf Hlt]]. specialize (H5 _ f Hf Hdf). lia. }
    constructor; rewrite ?Hlen; [| | |lia| |done].
    + intros n Hn HN. rewrite db_page_snapshot by lia. unfold snap_page. rewrite (Hnone n HN). by rewrite (du_size _ _ _ _ _ _ _ Hd).
    + intros n f Hf _. destruct (Hlk n f Hf) as (g & Hg & _). assert (Hr : 0 <= n < count s) by (apply (ln_range _ _ _ _ HL); by eexists).
      split; [done|]. rewrite db_page_snapshot by lia. rewrite <- Hpg. by rewrite (page_at_frame _ _ _ _ f).
    + intros n f Hf Hdf _. destruct (Hlk n f Hf) as (g & Hg & _ & Ed & El & _). rewrite images_app, last_image_app.
      destruct (last_image (images [commit_txn s fs]) n) as [x|] eqn:E; [by eexists|].
      destruct (decide (uncommitted (p_walFlushedLSN s.1) g)) as [Hu|Hu].
      * exfalso. unfold images in E. cbn [map concat commit_txn tx_frames] in E. rewrite app_nil_r in E.
        apply (last_image_not algo fs n E). apply list_elem_of_fmap. exists g.
        split; [|by apply (Hmem n)]. by rewrite (proj2 (proj2 (frame_page _ _ _ _ _ _ Hd Hg))).
      * apply (H3 n g Hg); [congruence|]. apply Z.nlt_ge. intros Hlt. apply Hu. split; [congruence|done].
    + intros n f Hf Hdf. destruct (Hlk n f Hf) as (g & Hg & _ & Ed & El & _). rewrite El. apply (H5 n g Hg). congruence.
  - intros f Hf. assert (Hr : 0 <= 0 < count s) by lia. destruct (snap_page_view s db wh ts 0 Hd Hr) as (_ & Hv & _).
    rewrite <- (page_at_frame ps (table P) (pg_data s.1 s.2) 0 f Hf), Hpg, Hv by done.
    destruct (ln_zero _ _ _ _ HL) as (f0 & Hf0 & _). unfold view, page_at. rewrite Hf0. by apply (du_zero _ _ _ _ _ _ _ Hd).
Qed.

(** Fields no crash depends on. *)
Definition core (p : dpager) :=
  (p_path p, p_main p, p_walPath p, p_walFile p, p_walw p, p_pool p, p_pageSize p, p_checksum p, p_sync p, p_readOnly p,
   p_hdr p, p_nextLSN p, p_walFlushedLSN p, p_checkpointSeq p, p_closed p).

Lemma durable_core p p' (d : Disk) db wh ts : core p' = core p -> durable (p, d) db wh ts -> durable (p', d) db wh ts.
Proof.
  destruct p, p'. cbv [core Pager.p_path Pager.p_main Pager.p_walPath Pager.p_walFile Pager.p_walw Pager.p_pool Pager.p_pageSize Pager.p_checksum
    Pager.p_sync Pager.p_readOnly Pager.p_hdr Pager.p_nextLSN Pager.p_walFlushedLSN Pager.p_checkpointSeq Pager.p_closed].
  intros [= -> -> -> -> -> -> -> -> -> -> -> -> -> -> ->]. intros [[I1 I2 I3 I4 I5 I6] D2 D3 D4 D5 D6 D7 D8 D9 D10 D11 D12 D13 D14].
  constructor; try done. constructor; try done. by destruct I1.
Qed.

Lemma durable_set_sync p l (d : Disk) db wh ts : l <> SyncOff -> durable (p, d) db wh ts -> durable (set_sync l p, d) db wh ts.
Proof.
  intros Hl [[I1 I2 I3 I4 I5 I6] D2 D3 D4 D5 D6 D7 D8 D9 D10 D11 D12 D13 D14]. constructor; try done. constructor; try done. by destruct I1.
Qed.

Lemma wal_log s db wh ts : durable s db wh ts -> disk_data wal s.2 = wal_file wh ts.
Proof. intros Hd. by destruct (du_wal _ _ _ _ _ _ _ Hd) as (w & _ & _ & H & _). Qed.

Lemma append_commit_frames (frames : list PageImage) size w (d : Disk) :
  frames <> [] -> AppendCommit (ops:=disk_ops (DHandle wal false)) frames size w d =
    append_frames (ops:=disk_ops (DHandle wal false)) frames (marker size) w d.
Proof. intros Hne. unfold AppendCommit. by destruct frames. Qed.

(** Appending the transaction to the log. *)
Lemma append_spec s db wh ts fs p1 :
  durable s db wh ts -> touched_frames s fs -> fs <> [] -> p_walw p1 = p_walw s.1 ->
  gspec (append_commit (map (commit_image algo) fs) (count s)) (p1, s.2)
    (fun _ s' => exists w d', s' = (set_walw (Some (w, DHandle wal false)) p1, d') /\
       @synced Disk (disk_data wal) wh (txn_log (ts ++ [commit_txn s fs])) w d' /\
       dk_files d' !! path = dk_files s.2 !! path /\
       safe (recoverable ps algo path wal (fun x => x = db \/ x = snapshot algo s)) s.2 d') (fun _ _ => False).
Proof.
  intros Hd Hfs Hne Hw. destruct (durable_size _ _ _ _ _ _ _ Hd) as (Hps & _ & _).
  pose proof (commit_txn_ok s db wh ts fs Hd Hfs Hne) as Ht. set (t := commit_txn s fs) in *.
  destruct (du_wal _ _ _ _ _ _ _ Hd) as (w & _ & W2 & Hsy). destruct (du_log _ _ _ _ _ _ _ Hd) as (L1 & L2 & L3).
  assert (Hl : Forall (entry_ok wh) (txn_log ts)) by by apply txn_log_ok.
  destruct (@AppendCommit_synced Disk (disk_ops (DHandle wal false)) (disk_data wal) (disk_laws (DHandle wal false) eq_refl) wh t (txn_log ts) w s.2 Hsy Hl Ht)
    as (w' & d' & E & Hsy').
  assert (Elog : txn_log ts ++ entries (tx_frames t) (marker (tx_size t)) = txn_log (ts ++ [t])).
  { unfold txn_log. rewrite map_app, concat_app. cbn [map concat]. by rewrite app_nil_r. }
  unfold append_commit, gspec. cbn [fst snd]. rewrite Hw, W2. cbn [FsFile Disk_fs].
  unfold t in E. cbn [commit_txn tx_frames tx_size] in E. rewrite E. exists w', d'. split; [done|]. rewrite Elog in Hsy'. split; [done|].
  set (full := wal_file wh (ts ++ [t])). set (lo := length (wal_file wh ts)).
  destruct (du_stored _ _ _ _ _ _ _ Hd) as (mf & Hmf & Hwf & HLm & Hmo). pose proof (wal_log _ _ _ _ Hd) as Hwl.
  assert (Hpre : wal_file wh ts = take lo full).
  { unfold full, lo, wal_file. rewrite <- Elog, (log_bytes_app wh _ _ _ _ 0), app_assoc. symmetry. by apply take_app_length. }
  set (C := recoverable ps algo path wal (fun x => x = db \/ x = snapshot algo s)).
  assert (HC : forall d0, growing wal full lo (dk_files s.2) d0 -> C (dk_files d0)).
  { intros d0 (wf & Hf & HLw & Hp & _). rewrite Hf. exists mf, wf. rewrite lookup_insert_eq, lookup_insert_ne by (apply not_eq_sym, path_ne_wal).
    split; [done|]. split; [done|]. split; [done|]. split; [done|]. intros c Hc. destruct (Hp c Hc) as (n & Hn & ->).
    destruct (scans_cut wh ts t n L1 L2) as [Hs|Hs]; [by apply Forall_app; split; [|constructor]|lia|done| |].
    - exists ts, db. split; [by left|]. by split.
    - exists (ts ++ [t]), (snapshot algo s). split; [by right|]. split; [done|]. intros b Hb. by eapply commit_main_ok; [..|apply Hmo]. }
  assert (Hg0 : growing wal full lo (dk_files s.2) s.2).
  { exists (DFile (disk_data wal s.2) []). split; [by rewrite insert_id|]. split; [done|]. split; [|cbn [df_now]; unfold lo; by rewrite Hwl].
    intros c Hc. apply once_synced in Hc as ->. exists lo. split; [done|]. by rewrite Hwl. }
  destruct Ht as (Hne' & Hti & Hts).
  assert (Hm : in_u 32 (marker (tx_size t))) by by apply marker_ok.
  assert (Hfull : full = Wal.Encode wh ++ log_bytes wh (initialPrevChecksum wh) (BaseLSN wh) (txn_log ts ++ entries (tx_frames t) (marker (tx_size t))))
    by (rewrite Elog; reflexivity).
  destruct (append_frames_growing wal wh C full lo (tx_frames t) (marker (tx_size t)) (txn_log ts) w (dk_files s.2) s.2
    Hsy Hl Hti Hm Hne' Hfull Hg0 HC) as [(wf & Hf & _) Hsafe].
  assert (Ed : d' = (append_frames (ops:=disk_ops (DHandle wal false)) (tx_frames t) (marker (tx_size t)) w s.2).2).
  { rewrite <- (append_commit_frames (tx_frames t) (tx_size t) w s.2 Hne'). unfold t. cbn [commit_txn tx_frames tx_size]. by rewrite E. }
  rewrite <- Ed in Hf, Hsafe. split; [|done]. rewrite Hf. apply lookup_insert_ne. apply not_eq_sym, path_ne_wal.
Qed.

(** A state that differs in the counters and the observer only. *)
Lemma core_observed (p : dpager) l :
  core (match p_observer p with Some l0 => set_observer (Some (l l0)) p | None => p end) = core p.
Proof. by destruct (p_observer p). Qed.

Lemma sealed_core s (p p' : dpager) (d : Disk) : core p' = core p -> sealed_as s (p, d) -> sealed_as s (p', d).
Proof.
  destruct p, p'. cbv [core Pager.p_path Pager.p_main Pager.p_walPath Pager.p_walFile Pager.p_walw Pager.p_pool Pager.p_pageSize Pager.p_checksum
    Pager.p_sync Pager.p_readOnly Pager.p_hdr Pager.p_nextLSN Pager.p_walFlushedLSN Pager.p_checkpointSeq Pager.p_closed].
  intros [= -> -> -> -> -> -> -> -> -> -> -> -> -> -> ->]. by intros [].
Qed.

(** The state after the log is synced. *)
Lemma synced_durable p (d : Disk) db wh ts fs P c w d1 d2 :
  durable (p, d) db wh ts -> touched_frames (p, d) fs -> fs <> [] ->
  pool_ok ps 0 P -> freezeDirty P = freezeDirty (p_pool p) -> table P = sealed_table algo fs (table (p_pool p)) ->
  @synced Disk (disk_data wal) wh (txn_log (ts ++ [commit_txn (p, d) fs])) w d1 -> dk_files d1 !! path = dk_files d !! path ->
  d2 = (Disk_Sync (DHandle wal false) d1).2 ->
  let p' : dpager := set_walFlushedLSN (max_lsn fs) (set_walw (Some (w, DHandle wal false)) (pgw P c (p_hdr p) (p_nextLSN p) p)) in
  durable (p', d2) (snapshot algo (p, d)) wh (ts ++ [commit_txn (p, d) fs]) /\ sealed_as (p, d) (p', d2) /\
  recoverable ps algo path wal (eq (snapshot algo (p, d))) (dk_files d2).
Proof.
  intros Hd Hfs Hne HP Hz Ht Hsy Hmf Hd2 p'. pose proof (snapshot_ok _ _ _ _ Hd) as Hsnap. pose proof (commit_txn_ok _ _ _ _ _ Hd Hfs Hne) as Htx.
  destruct (sealed_inv _ _ _ _ _ P Hd Hfs Hne Ht) as (HL & Hfl & Hheld & Hz0 & Hdone).
  pose proof (sealed_pages _ _ _ _ _ 0 Hd Hfs) as Hsp. destruct (durable_size _ _ _ _ _ _ _ Hd) as (Hps & Hvs & Hsa).
  assert (Hpg : forall n, page_at ps (table P) (pg_data p d) n = snap_page algo (p, d) n /\ pins_of (table P) n = pins_of (table (p_pool p)) n).
  { intros n. rewrite Ht. exact (sealed_pages _ _ _ _ _ n Hd Hfs). }
  destruct (du_stored _ _ _ _ _ _ _ Hd) as (mf & Hmf0 & _ & HLm & Hmo). cbn [fst snd] in *.
  pose proof (du_path _ _ _ _ _ _ _ Hd) as Hpath. pose proof (du_size _ _ _ _ _ _ _ Hd) as Hsz. cbn [fst] in *.
  assert (Hmf2 : dk_files d2 !! path = Some mf).
  { rewrite Hd2. unfold Disk_Sync. cbn [dh_path snd dk_files disk_step]. rewrite lookup_insert_ne by (apply not_eq_sym, path_ne_wal). congruence. }
  assert (Hwf2 : dk_files d2 !! wal = Some (DFile (disk_data wal d1) [])) by (rewrite Hd2; cbn; apply lookup_insert_eq).
  assert (Hwd2 : disk_data wal d2 = disk_data wal d1) by (unfold disk_data at 1; by rewrite (disk_file_Some _ _ _ Hwf2)).
  assert (Hdata : pg_data p d2 = pg_data p d).
  { unfold pg_data, disk_data. rewrite Hpath, (disk_file_Some _ _ _ Hmf2). by rewrite (disk_file_Some path d mf). }
  assert (Hcnt : blen (snapshot algo (p, d)) = count (p, d)).
  { apply blen_snapshot. pose proof (pi_count _ (du_inv _ _ _ _ _ _ _ Hd)). lia. }
  assert (Hmo' : forall b, once mf b -> main_ok ps algo (snapshot algo (p, d)) (ts ++ [commit_txn (p, d) fs]) b).
  { intros b Hb. eapply commit_main_ok; [exact Hd|exact Hfs|by apply Hmo]. }
  destruct Hd as [[I1 I2 I3 I4 I5 I6] D2 D3 D4 D5 D6 D7 D8 D9 (L1 & L2 & L3) D11 D12 D13 D14]. cbn [fst snd] in *.
  assert (HL' : Forall (txn_ok wh) (ts ++ [commit_txn (p, d) fs])) by (apply Forall_app; split; [done|by constructor]).
  assert (Hsc : scans ps (disk_data wal d1) (ts ++ [commit_txn (p, d) fs])).
  { destruct Hsy as [-> _]. apply scans_all; (done || lia). }
  assert (E : p_path p' = p_path p /\ p_main p' = p_main p /\ p_walPath p' = p_walPath p /\ p_walFile p' = p_walFile p /\
    p_walw p' = Some (w, DHandle wal false) /\ p_pool p' = P /\ p_pageSize p' = p_pageSize p /\ p_checksum p' = p_checksum p /\
    p_sync p' = p_sync p /\ p_readOnly p' = p_readOnly p /\ p_hdr p' = p_hdr p /\ p_nextLSN p' = p_nextLSN p /\
    p_walFlushedLSN p' = max_lsn fs /\ p_checkpointSeq p' = p_checkpointSeq p /\ p_closed p' = p_closed p) by (split_and!; reflexivity).
  clearbody p'. destruct E as (E1 & E2 & E3 & E4 & E5 & E6 & E7 & E8 & E9 & E10 & E11 & E12 & E13 & E14 & E15).
  assert (Edata : pg_data p' d2 = pg_data p d) by (transitivity (pg_data p d2); [unfold pg_data; rewrite E1; reflexivity|exact Hdata]).
  assert (Ecnt : count (p', d2) = count (p, d)) by (unfold count; cbn [fst]; by rewrite E11).
  assert (Eview : forall n, view (p', d2) n = page_at ps (table P) (pg_data p d) n) by (intros n; unfold view; cbn [fst snd]; by rewrite E6, E7, Edata, Hsz).
  split; [|split].
  - constructor; cbn [fst snd]; rewrite ?E1, ?E3, ?E4, ?E5, ?E6, ?E7, ?E8, ?E9, ?E11, ?E12, ?E13, ?E14, ?Edata, ?Ecnt, ?Hwd2; try assumption.
    + constructor; cbn [fst snd]; rewrite ?E6, ?E7, ?E11, ?Edata, ?Ecnt, ?Hsz; try assumption.
      * destruct I1. constructor; congruence.
      * unfold hdr_fits in *. rewrite E7, E8. assumption.
      * destruct Hfl as (fl & F1 & F2). exists fl. unfold freelist. cbn [fst]. rewrite E11, Ecnt. split; [|exact F2].
        eapply chain_ext; [exact F1|]. intros n _. apply Eview.
    + destruct D9 as (w0 & W1 & _ & _). exists w. split; [exact W1|]. split; [reflexivity|]. destruct Hsy as [Hsy Hw]. split; [|exact Hw]. by rewrite Hwd2.
    + split; [exact L1|]. split; [exact L2|exact HL'].
    + exists mf. split; [exact Hmf2|]. split; [exact Hwf2|]. split; [exact HLm|exact Hmo'].
    + rewrite Hcnt. lia.
  - constructor; cbn [fst snd]; rewrite ?E6, ?E11, ?E12, ?E13; try reflexivity; try assumption.
    + intros n Hn. rewrite Eview. apply Hpg.
    + intros n. apply Hpg.
  - exists mf, (DFile (disk_data wal d1) []). split; [done|]. split; [done|]. split; [done|]. split; [done|]. intros c0 Hc. apply once_synced in Hc as ->.
    eexists _, _. split; [reflexivity|]. split; [exact Hsc|exact Hmo'].
Qed.

(** With nothing uncommitted the snapshot is the database. *)
Lemma snapshot_clean s db wh ts :
  durable s db wh ts -> (forall n f, table (p_pool s.1) !! n = Some f -> ~ uncommitted (p_walFlushedLSN s.1) f) ->
  snapshot algo s = db /\ sealed_as s s.
Proof.
  intros Hd Hall. pose proof (pi_count _ (du_inv _ _ _ _ _ _ _ Hd)) as Hc. pose proof (du_count _ _ _ _ _ _ _ Hd) as Hle.
  assert (Hlen : blen db = count s).
  { apply Z.le_antisymm; [done|]. apply Z.nlt_ge. intros Hlt.
    destruct (hd_grown _ _ _ _ _ _ _ _ (du_held _ _ _ _ _ _ _ Hd) (blen db) ltac:(unfold blen in *; lia)) as (x & Hx & Hu). by apply (Hall _ x Hx). }
  split.
  - apply list_eq. intros i. destruct (decide (Z.of_nat i < count s)) as [Hi|Hi].
    + assert (Hr : 0 <= Z.of_nat i < count s) by lia. destruct (snap_page_spec s db wh ts _ Hd Hr) as [(f & Hf & Hu & _)|(_ & Hp & _)]; [by apply Hall in Hf|].
      rewrite <- (db_page_snapshot algo s) in Hp by done. pose proof (db_page_in db (Z.of_nat i) ltac:(lia)) as H1.
      pose proof (db_page_in (snapshot algo s) (Z.of_nat i) ltac:(rewrite blen_snapshot; lia)) as H2. rewrite Nat2Z.id in H1, H2. congruence.
    + assert (Hs : blen (snapshot algo s) = count s) by (apply blen_snapshot; lia). unfold blen in *. rewrite !lookup_ge_None_2 by lia. done.
  - constructor; try done. intros n Hn. unfold snap_page, view, page_at. destruct (table (p_pool s.1) !! n) as [f|] eqn:Hf; [|done].
    rewrite decide_False by by apply (Hall n). done.
Qed.

Lemma sealed_same s s' s'' : count s' = count s -> sealed_as s s' -> same s' s'' -> sealed_as s s''.
Proof.
  intros Hc [A1 A2 A3 A4 A5] [B1 B2 B3 B4 B5 B6]. constructor; try congruence.
  - intros n Hn. rewrite B2 by lia. by apply A2.
  - intros n f Hf Hu. rewrite B5 in Hu. apply (A5 n f); [apply B6; [done|apply Hu]|done].
Qed.

Lemma commit_spec s db wh ts :
  durable s db wh ts ->
  gspec (Pager.Commit csprng) s
    (fun _ s' => exists wh' ts', durable s' (snapshot algo s) wh' ts' /\ sealed_as s s' /\
       safe (recoverable ps algo path wal (fun x => x = db \/ x = snapshot algo s)) s.2 s'.2) (fun _ _ => False).
Proof.
  destruct s as [p d]. intros Hd. pose proof (du_inv _ _ _ _ _ _ _ Hd) as Hi. pose proof Hi as [Hop Hpo Hh Hc HL _]. cbn [fst snd] in *.
  unfold Pager.Commit, commitLocked. gsteps. rewrite (pn_closed _ Hop), (pn_readOnly _ Hop).
  set (keep := fun f => dirty f && (pageLSN f >? p_walFlushedLSN p)).
  destruct (sorted_resident keep (p_pool p)) as [Hnd Hel]; [intros n g Hg; by apply (po_frames _ _ _ Hpo)|].
  set (fs := sortFramesByLSN _) in *.
  assert (Hfs : touched_frames (p, d) fs).
  { split; [done|]. intros f. rewrite Hel. unfold keep, uncommitted. rewrite andb_true_iff, Z.gtb_ltb, Z.ltb_lt. done. }
  destruct (Nat.eqb_spec (length fs) 0) as [E0|Hne]; gsteps.
  { apply nil_length_inv in E0. rewrite E0 in Hfs. destruct Hfs as [_ Hfs]. exists wh, ts.
    destruct (snapshot_clean _ _ _ _ Hd) as [-> Hsa]; [|split; [done|]; split; [done|apply safe_refl]].
    intros n f Hf Hu. assert (H : f ∈ []); [|by apply elem_of_nil in H]. apply Hfs.
    by rewrite (proj2 (proj2 (frame_page _ _ _ _ _ _ Hd Hf))). }
  assert (Hfne : fs <> []) by (intros E; by rewrite E in Hne).
  pose proof (du_algo _ _ _ _ _ _ _ Hd) as Halg. pose proof (du_size _ _ _ _ _ _ _ Hd) as Hsz. cbn [fst] in Halg, Hsz.
  eapply gspec_mono; [apply (commit_images_spec algo fs p d Halg Hop Hpo Hnd)| |done].
  { intros f Hf. by apply Hfs in Hf as [Hf _]. }
  intros r s1 [-> (P & c & -> & HP & Hz & Ht)]. rewrite Hsz in HP. gsteps.
  eapply gspec_mono; [apply (append_spec (p, d) db wh ts fs (pgw P c (p_hdr p) (p_nextLSN p) p) Hd Hfs Hfne eq_refl)| |done].
  intros u s2 (w & d1 & -> & Hsy & Hmf & Hsafe1). cbn [snd] in Hsafe1. gsteps. unfold syncWAL. gsteps.
  cbn [p_sync set_walw pgw set_pool set_ctr set_hdr set_nextLSN].
  destruct (du_wal _ _ _ _ _ _ _ Hd) as (w0 & W1 & _). cbn [fst] in W1.
  set (p2 := set_walw (Some (w, DHandle wal false)) (pgw P c (p_hdr p) (p_nextLSN p) p)).
  assert (Hsync : gspec (with_walFile (D:=Disk) countSync) (p2, d1)
    (fun _ s' => s' = (set_ctr (add_fsyncs 1 c) p2, (Disk_Sync (DHandle wal false) d1).2)) (fun _ _ => False)).
  { unfold with_walFile. gsteps. change (p_walFile p2) with (p_walFile p). rewrite W1. by apply gspec_countSync. }
  assert (Hrest : forall s3, s3 = (set_ctr (add_fsyncs 1 c) p2, (Disk_Sync (DHandle wal false) d1).2) ->
    gspec (gput (set_walFlushedLSN (max_lsn fs)) ;;*
      gput (fun p => set_walFrames (p_walFrames p + blen (map (commit_image algo) fs)) p) ;;*
      ctr (add_walFrames (blen (map (commit_image algo) fs))) ;;*
      ctr (add_bytesWritten (blen (map (commit_image algo) fs) * p_pageSize p)) ;;*
      gput (fun p0 => match p_observer p0 with
                     | Some l => set_observer (Some (l ++ [MkCommitEvent (max_lsn fs) (DbHeader.PageCount (p_hdr p0)) (map (commit_image algo) fs)])) p0
                     | None => p0 end) ;;*
      do* p2 := gget in gwhen ((p_ckptN p2 <=? p_walFrames p2) && (p_backupActive p2 =? 0)) (checkpointLocked csprng)) s3
    (fun _ s' => exists wh' ts', durable s' (snapshot algo (p, d)) wh' ts' /\ sealed_as (p, d) s' /\
       safe (recoverable ps algo path wal (fun x => x = db \/ x = snapshot algo (p, d))) d s'.2) (fun _ _ => False)).
  { intros s3 ->. gsteps. set (d2 := (Disk_Sync _ d1).2).
    match goal with |- gspec _ (?q, _) _ _ => set (p3 := q) end.
    destruct (synced_durable p d db wh ts fs P c w d1 d2 Hd Hfs Hfne HP Hz Ht Hsy Hmf eq_refl) as (Hd2 & Hsa & Hrec).
    set (p4 := set_walFlushedLSN _ _) in Hd2, Hsa.
    assert (Hcore : core p3 = core p4) by (unfold p3; rewrite core_observed; reflexivity). clearbody p3.
    apply (durable_core p4 p3) in Hd2; [|done]. apply (sealed_core _ p4 p3) in Hsa; [|done].
    assert (Hsafe2 : safe (recoverable ps algo path wal (fun x => x = db \/ x = snapshot algo (p, d))) d d2).
    { eapply safe_trans; [exact Hsafe1|]. apply safe_step.
      eapply recoverable_sub; [exact Hrec|]. intros x <-. by right. }
    unfold gwhen. destruct (_ && _); gsteps; [|by exists wh, (ts ++ [commit_txn (p, d) fs])].
    assert (Hset : settled ps (p3, d2) (snapshot algo (p, d))).
    { intros n f Hf Hu _. exfalso. exact (sa_done _ _ Hsa n f Hf Hu). }
    eapply gspec_mono; [apply (checkpoint_spec csprng ps algo path Hrand (p3, d2) _ _ _ Hd2 Hset)| |done].
    intros u4 s4 (wh' & Hd4 & _ & Hsafe4 & Hsame). exists wh', []. split; [exact Hd4|]. split.
    - eapply sealed_same; [|exact Hsa|exact Hsame]. unfold count. by rewrite (sa_hdr _ _ Hsa).
    - eapply safe_trans; [exact Hsafe2|]. eapply safe_mono; [exact Hsafe4|]. intros f Hf.
      eapply recoverable_sub; [exact Hf|]. intros x <-. by right. }
  destruct (p_sync p) eqn:Esync; [exfalso; by apply (du_sync _ _ _ _ _ _ _ Hd)| |];
    (eapply gspec_mono; [exact Hsync| |done]); intros u3 s3 Hs3; apply (Hrest s3 Hs3).
Qed.
End commit.
