(* ===== verification/PagerOpen.v ===== *)
(** * pager/pager.go: opening a database

    Open on files a crash left: recovery, the header, the first page, a fresh log.
    Open on no files: a database of one page. *)

From S2P Require Import Prelude Checksum Page Vfs Disk Wal DbHeader PageStore Pool Pager PagerInv PagerLaws PagerLog PagerDurable PagerCommit.
From stdpp Require Import strings.

#[local] Open Scope Z_scope.
#[local] Open Scope pg_scope.

(** Open, once the file is there or made. *)
Section dispatch.
Context {D : Type} {fs : FsOps D} (csprng : nat -> Z) (fuel : nat).

Definition opened (main : Handle) (r : res pgErr unit * (Pager Handle * D)) : res pgErr (Pager Handle) * D :=
  match r with
  | (Ok _, (p, d2)) => (Ok p, d2)
  | (Err e, (_, d2)) => (Err e, (FsClose main d2).2)
  | (Panic, (_, d2)) => (Panic, d2)
  end.

Lemma Open_new path o rand (d : D) main d1 :
  FsExists path d = inr false -> o_ReadOnly o = false -> FsOpen path OpenCreate d = (inr main, d1) ->
  Open csprng fuel path o rand d = opened main (createNew csprng (withDefaults o) (new_pager path main (withDefaults o) rand, d1)).
Proof. intros H1 H2 H3. unfold Open, opened. rewrite H1. cbn [o_ReadOnly withDefaults]. rewrite H2. cbn [negb andb]. by rewrite H3. Qed.

Lemma Open_old path o rand (d : D) main d1 :
  FsExists path d = inr true -> o_ReadOnly o = false -> FsOpen path OpenCreate d = (inr main, d1) ->
  Open csprng fuel path o rand d = opened main (openExisting csprng fuel (withDefaults o) (new_pager path main (withDefaults o) rand, d1)).
Proof. intros H1 H2 H3. unfold Open, opened. rewrite H1. cbn [o_ReadOnly withDefaults]. rewrite H2. cbn [negb andb]. by rewrite H3. Qed.

Lemma opened_spec main (m : PG (Pager Handle * D) unit) s (Q : unit -> _ -> Prop) :
  gspec m s Q (fun _ _ => False) -> exists p d', opened main (m s) = (Ok p, d') /\ Q tt (p, d').
Proof. unfold gspec, opened. destruct (m s) as [[[]|e|] [p d']]; [|done..]. intros H. by exists p, d'. Qed.
End dispatch.

Section opening.
Context (csprng : nat -> Z) (ps algo : Z) (path : string).
Hypothesis (Hrand : forall k, byte_ok (csprng k)) (Hsize : ValidPageSize ps = true) (Halgo : Supported algo = true).
Notation wal := (path +:+ "-wal").
Notation durable := (durable ps algo path).

Lemma size_bounds : 4096 <= ps <= 65536.
Proof using Hsize. by apply valid_size in Hsize as [? _]. Qed.

Definition first_frame (b : bytes) : Frame := MkFrame 0 b 1 false 0 listNone.

(** The pool with the first page alone. *)
Lemma first_pool c b :
  blen b = ps -> bytes_ok b ->
  let q := newPool ps c in
  let P := set_resident (resident q + 1) (set_table (<[0 := first_frame b]> (table q)) q) in
  pool_ok ps 0 P /\ table P = {[0 := first_frame b]}.
Proof using Hsize.
  intros Hb Hok q P. pose proof size_bounds. destruct (newPool_ok ps c ltac:(lia)) as [H1 H2 H3 H4 H5 H6 H7 H8]. fold q in H1, H2, H3, H4, H5, H6, H7, H8.
  assert (Ht : table P = {[0 := first_frame b]}) by done. split; [|done]. constructor; try done.
  - intros n f. rewrite Ht. intros [<- <-]%lookup_singleton_Some. by split_and!.
  - split; [by apply H4|]. intros n. split; [by intros Hn%elem_of_nil|]. intros (f & Hf & Hl). rewrite Ht in Hf.
    by apply lookup_singleton_Some in Hf as [<- <-].
  - split; [by apply H5|]. intros n. split; [by intros Hn%elem_of_nil|]. intros (f & Hf & Hl). rewrite Ht in Hf.
    by apply lookup_singleton_Some in Hf as [<- <-].
  - change (0 + 1 <= (if c <? 2 then 2 else c)). destruct (Z.ltb_spec c 2); lia.
Qed.

(** A pager with one page in its pool, over a file that holds db and a fresh log. *)
Lemma opened_durable (p : dpager) (d : Disk) db b wh w :
  pg_open p -> p_pageSize p = ps -> p_checksum p = algo -> p_path p = path -> p_walPath p = wal -> p_sync p <> SyncOff ->
  in_u 32 (p_checkpointSeq p) -> db_ok ps algo db ->
  fits ps algo (p_hdr p) -> db_page db 0 = hdr_page ps (p_hdr p) -> DbHeader.PageCount (p_hdr p) = blen db ->
  (exists fl, chain (db_page db) (FreelistRoot (p_hdr p)) fl /\ NoDup fl /\ Forall (fun n => 0 < n < blen db) fl /\ FreelistPageCount (p_hdr p) = blen fl) ->
  pool_ok ps 0 (p_pool p) -> table (p_pool p) = {[0 := first_frame (db_page db 0)]} -> p_nextLSN p = 0 -> p_walFlushedLSN p = 0 ->
  dk_files d !! path = Some (DFile b []) -> main_ok ps algo db [] b ->
  p_walFile p = Some (DHandle wal false) -> p_walw p = Some (w, DHandle wal false) -> @synced Disk (disk_data wal) wh [] w d ->
  Wal.header_ok wh -> Wal.PageSize wh = ps -> dk_files d !! wal = Some (DFile (disk_data wal d) []) ->
  durable (p, d) db wh [] /\ (forall n, 0 <= n < blen db -> view (p, d) n = db_page db n).
Proof using Hsize.
  intros Hop E1 E2 E3 E4 E5 E6 Hdb Hf H0 Hcnt (fl & F1 & F2 & F3 & F4) HP Ht El Ew Hmf Hmo W1 W2 W3 W4 W5 W6.
  pose proof size_bounds as Hps. pose proof (do_size _ _ _ Hdb) as Hsz.
  assert (Hdata : pg_data p d = b) by (unfold pg_data, disk_data; by rewrite E3, (disk_file_Some _ _ _ Hmf)).
  assert (Hc : count (p, d) = blen db) by done.
  assert (Hview : forall n, 0 <= n < blen db -> view (p, d) n = db_page db n).
  { intros n Hn. unfold view, page_at. cbn [fst snd]. rewrite Ht, Hdata, E1. destruct (decide (n = 0)) as [->|Hne].
    - by rewrite lookup_singleton_eq.
    - rewrite lookup_singleton_ne by done. by apply (main_ok_plain ps algo db b ltac:(lia) Hmo). }
  assert (H0b : disk_page ps b 0 = db_page db 0) by (apply (main_ok_plain ps algo db b ltac:(lia) Hmo); lia).
  split; [|done]. constructor; cbn [fst snd]; try done.
  - constructor; cbn [fst snd]; try done.
    + by rewrite E1.
    + unfold hdr_fits. by rewrite E1, E2.
    + by rewrite Hc.
    + rewrite Hc, Hdata, E1, Ht. constructor.
      * intros n f Hn _. apply lookup_singleton_Some in Hn as [<- <-]. by rewrite H0b.
      * intros n [f Hn]. apply lookup_singleton_Some in Hn as [<- _]. lia.
      * exists (first_frame (db_page db 0)). by rewrite lookup_singleton_eq.
      * exact (mo_bytes _ _ _ _ _ Hmo).
      * exact (mo_size _ _ _ _ _ Hmo).
    + exists fl. unfold freelist. cbn [fst]. rewrite Hc. split; [|done]. eapply chain_ext; [exact F1|]. intros n Hn.
      rewrite Forall_forall in F3. specialize (F3 n Hn). apply Hview. lia.
  - by exists w.
  - exists (DFile b []). split; [done|]. split; [done|]. split; [done|]. intros c Hc'. by apply once_synced in Hc' as ->.
  - rewrite Hc, Hdata, Ht, El, Ew. constructor; try lia.
    + intros n Hn _. by apply (main_ok_plain ps algo db b ltac:(lia) Hmo).
    + intros n f Hn _. apply lookup_singleton_Some in Hn as [<- <-]. split; [lia|done].
    + intros n f Hn Hd. by apply lookup_singleton_Some in Hn as [<- <-].
    + intros n f Hn Hd. by apply lookup_singleton_Some in Hn as [<- <-].
  - intros f. rewrite Ht, lookup_singleton_eq. by intros [= <-].
  - by rewrite Hc.
Qed.

(** ** Reading what is there *)

Lemma read_full_spec h n (p : dpager) (d : Disk) (Q : bytes -> _ -> Prop) E :
  0 < n <= blen (disk_data (dh_path h) d) -> Q (read_data n 0 (disk_data (dh_path h) d)) (p, d) -> gspec (read_full (D:=Disk) h n) (p, d) Q E.
Proof.
  intros Hn HQ. unfold read_full, gspec, gbind, file_read. cbn [snd FsFile Disk_fs ReadAt disk_ops]. unfold Disk_ReadAt.
  rewrite (proj2 (Z.ltb_ge _ _)) by (rewrite blen_read_data by lia; lia). rewrite (proj2 (Z.leb_gt _ _)) by lia. exact HQ.
Qed.

Lemma fits_with_sum s h : fits ps algo h -> fits ps algo (with_sum s h).
Proof. by intros (H1 & H2 & H3 & H4). Qed.

(** The header and the first page of a recovered file. *)
Lemma main_header db b :
  db_ok ps algo db -> main_ok ps algo db [] b ->
  exists h, DecodeHeader (read_data HeaderSize 0 b) = Ok h /\ fits ps algo h /\ db_page db 0 = hdr_page ps h /\ DbHeader.PageCount h = blen db /\
    (exists fl, chain (db_page db) (FreelistRoot h) fl /\ NoDup fl /\ Forall (fun n => 0 < n < blen db) fl /\ FreelistPageCount h = blen fl) /\
    read_data ps 0 b = db_page db 0 /\ ps <= blen b.
Proof using Hsize Halgo.
  intros Hdb Hmo. pose proof size_bounds as Hps. destruct (do_head _ _ _ Hdb) as (h & fl & Hf & H0 & Hcnt & Hfl). pose proof (do_size _ _ _ Hdb) as Hsz.
  destruct (header_bytes_fits ps algo h Hsize Halgo Hf) as (He & Hl & Hok & s & Hdec).
  assert (Hblen : ps <= blen b).
  { destruct (mo_head _ _ _ _ _ Hmo) as [Hb _]. pose proof (mo_size _ _ _ _ _ Hmo) as Hm. cbn [last] in Hm. unfold HeaderSize in Hb.
    pose proof (Z.div_mod (blen b) ps ltac:(lia)) as Hd. assert (0 < blen b / ps) by nia. nia. }
  assert (Hpg : read_data ps 0 b = db_page db 0).
  { pose proof (main_ok_plain ps algo db b ltac:(lia) Hmo 0 ltac:(lia)) as H. unfold disk_page in H.
    rewrite Z.mul_0_l, (proj2 (Z.leb_le _ _)) in H by lia. exact H. }
  assert (Hrd : read_data HeaderSize 0 b = header_bytes h ++ []).
  { assert (E : read_data HeaderSize 0 b = take 128 (read_data ps 0 b)).
    { unfold read_data, HeaderSize, sub. change (Z.to_nat 0) with 0%nat. rewrite drop_0, take_take. f_equal. lia. }
    rewrite E, Hpg, H0. unfold hdr_page. rewrite take_app_le by lia. rewrite app_nil_r. apply take_ge. lia. }
  exists (with_sum s h). rewrite Hrd, Hdec. split; [done|].
  split; [by apply fits_with_sum|]. split; [exact H0|]. split; [done|]. split; [by exists fl|done].
Qed.

(** ** Opening files *)

Lemma openExisting_spec fuel o (p : dpager) (d : Disk) db ts b w :
  p_main p = DHandle path false -> p_path p = path -> p_walPath p = wal -> p_closed p = false -> p_readOnly p = false ->
  p_sync p <> SyncOff -> p_nextLSN p = 0 -> p_walFlushedLSN p = 0 ->
  dk_files d !! path = Some (DFile b []) -> dk_files d !! wal = Some (DFile w []) ->
  scans ps w ts -> main_ok ps algo db ts b -> db_ok ps algo db -> (length w < fuel)%nat ->
  gspec (openExisting csprng fuel o) (p, d)
    (fun _ s' => exists wh, durable s' db wh [] /\ (forall n, 0 <= n < blen db -> view s' n = db_page db n) /\
       safe (recoverable ps algo path wal (eq db)) d s'.2 /\ count s' = blen db /\
       (forall n, 0 < n -> pins_of (table (p_pool s'.1)) n = 0%nat) /\ p_nextLSN s'.1 = 0) (fun _ _ => False).
Proof using Hrand Hsize Halgo.
  intros E1 E2 E3 E4 E5 E6 E7 E8 Hmf Hwf Hsc Hmo Hdb Hfuel. pose proof size_bounds as Hps. pose proof (do_size _ _ _ Hdb) as Hsz.
  assert (Hdata : disk_data path d = b) by (unfold disk_data; by rewrite (disk_file_Some _ _ _ Hmf)).
  unfold openExisting. gsteps. rewrite E1. destruct (mo_head _ _ _ _ _ Hmo) as [Hb (h0 & Hdec & Hh0 & Ha0)].
  apply read_full_spec; [cbn [dh_path]; rewrite Hdata; unfold HeaderSize in *; lia|]. cbn [dh_path]. rewrite Hdata. gsteps.
  apply gspec_lift. rewrite Hdec. cbn [pg_fmt]. gsteps. rewrite Hh0, Ha0.
  match goal with |- gspec _ (?q, _) _ _ => set (p1 := q) end.
  eapply gspec_mono; [apply (recover_spec fuel ps algo path p1 d db ts b w); (done || lia)| |done].
  intros gen s1 (d1 & b1 & -> & Hsafe1 & Hmf1 & Hwf1 & Hmo1 & Hmo1'). gsteps.
  destruct (main_header db b1 Hdb Hmo1) as (h & Hdec1 & Hfits & H0 & Hcnt & Hfl & Hpg & Hlen).
  assert (Hdata1 : disk_data path d1 = b1) by (unfold disk_data; by rewrite (disk_file_Some _ _ _ Hmf1)).

  apply read_full_spec; [cbn [dh_path]; rewrite Hdata1; unfold HeaderSize; lia|]. cbn [dh_path]. rewrite Hdata1. gsteps.
  apply gspec_lift. rewrite Hdec1. cbn [pg_fmt]. gsteps.
  apply read_full_spec; [cbn [dh_path]; rewrite Hdata1; lia|]. cbn [dh_path]. rewrite Hdata1, Hpg. unfold install_frame0. gsteps.
  match goal with |- gspec _ (?q, _) _ _ => set (p2 := q) end.
  eapply gspec_mono.
  { rewrite E5.
    apply (openFreshWAL_spec csprng ps algo path wal Hrand p2 d1 db (DFile b1 [])); try done.
    - apply wrap_in_u. lia.
    - apply path_ne_wal.
    - intros c Hc. by apply once_synced in Hc as ->.
    - intros w' Hw'. rewrite (disk_file_Some _ _ _ Hwf1) in Hw'. apply once_synced in Hw' as ->.
      exists ts. split; [done|]. intros c Hc. by apply once_synced in Hc as ->. }
  2: done.
  intros u s2 (wr & r & wh & d2 & -> & Hwh & Hwps & Hsy & Hwf2 & Hmf2 & Hsafe2). exists wh.
  match goal with |- durable (?q, _) _ _ _ /\ _ => set (p3 := q) end.
  destruct (first_pool (o_PoolPages o) (db_page db 0)) as [HP Ht]; [apply (db_page_ok ps algo db); (done || lia)|apply (db_page_ok ps algo db); (done || lia)|].
  destruct (opened_durable p3 d2 db b1 wh wr) as [Hd Hv]; try done.
  - constructor; try done. change (p_main p = DHandle (p_path p) false). by rewrite E1, E2.
  - apply wrap_in_u. lia.
  - split; [done|]. split; [done|]. split.
    { eapply safe_trans; [exact Hsafe1|]. apply Hsafe2; [done|]. by rewrite (disk_file_Some _ _ _ Hwf1). }
    split; [exact Hcnt|]. split; [|exact E7].
    intros n Hn. unfold pins_of. change (table (p_pool (p3, d2).1)) with (<[0 := first_frame (db_page db 0)]> (∅ : gmap Z Frame)).
    rewrite lookup_insert_ne by lia. done.
Qed.

(** Open, on the files any crash left. *)
Lemma Open_recovers fuel o rand (d : Disk) dbs fls :
  recoverable ps algo path wal dbs fls -> crashed wal fls (dk_files d) -> (forall db, dbs db -> db_ok ps algo db) ->
  o_ReadOnly o = false -> o_Sync o <> SyncOff -> (length (disk_data wal d) < fuel)%nat ->
  exists p d' db wh, Open csprng fuel path o rand d = (Ok p, d') /\ dbs db /\ durable (p, d') db wh [] /\
    (forall n, 0 <= n < blen db -> view (p, d') n = db_page db n) /\ count (p, d') = blen db /\
    (forall n, 0 < n -> pins_of (table (p_pool p)) n = 0%nat) /\ p_nextLSN p = 0 /\
    safe (recoverable ps algo path wal (eq db)) d d'.
Proof using Hrand Hsize Halgo.
  intros Hrec Hcr Hok Hro Hsy Hfuel. pose proof size_bounds as Hps.
  destruct (recoverable_crashed ps algo path wal (path_ne_wal path) ltac:(lia) dbs fls (dk_files d) Hrec Hcr)
    as (b & w & ts & db & Emf & Ewf & Hdb & Hsc & Hmo).
  assert (Edw : disk_data wal d = w) by (unfold disk_data; by rewrite (disk_file_Some _ _ _ Ewf)). rewrite Edw in Hfuel.
  destruct (opened_spec (DHandle path false : @Handle Disk Disk_fs) _ _ _ (openExisting_spec fuel (withDefaults o)
    (new_pager path (DHandle path false : @Handle Disk Disk_fs) (withDefaults o) rand) d db ts b w
    eq_refl eq_refl eq_refl eq_refl Hro Hsy eq_refl eq_refl Emf Ewf Hsc Hmo (Hok db Hdb) Hfuel)) as (p & d' & E & wh & Hd & Hv & Hsafe & Hc & Hpin & Hl).
  exists p, d', db, wh. split; [|by split_and!].
  rewrite (Open_old csprng fuel path o rand d (DHandle path false : @Handle Disk Disk_fs) d); [exact E|cbn; by rewrite Emf|done|].
  cbn [FsOpen Disk_fs]. unfold Disk_Open. by rewrite Emf.
Qed.

(** ** A new database *)

Lemma openFreshWAL_create (p : dpager) (d : Disk) :
  dk_files d !! p_walPath p = None -> openFreshWAL csprng (p, d) = openFreshWAL csprng (p, disk_step (p_walPath p) no_file d).
Proof.
  intros Hn. unfold openFreshWAL, file_open, gbind, gget, gio. cbn [fst snd FsOpen Disk_fs]. unfold Disk_Open. rewrite Hn.
  cbn [dk_files disk_step]. rewrite lookup_insert_eq. reflexivity.
Qed.

Lemma gspec_genU64 (p : dpager) (d : Disk) (Q : Z -> _ -> Prop) E :
  (forall v r, in_u 64 v -> Q v (set_rand r p, d)) -> gspec (genU64 csprng) (p, d) Q E.
Proof using Hrand.
  intros HQ. unfold genU64, gspec, gbind, rand_bytes, gret. cbn [fst snd]. apply HQ.
  destruct (rand_bytes_ok csprng Hrand (p_rand p) 8) as [Hb Hl]. pose proof (le_val_bound _ Hb) as H. rewrite Hl in H. exact H.
Qed.

Lemma gspec_rand_bytes n (p : dpager) (d : Disk) (Q : bytes -> _ -> Prop) E :
  (forall b r, bytes_ok b -> length b = n -> Q b (set_rand r p, d)) -> gspec (rand_bytes csprng n) (p, d) Q E.
Proof using Hrand.
  intros HQ. unfold gspec, rand_bytes. cbn [fst snd]. apply HQ; [apply (rand_bytes_ok csprng Hrand)|]. by rewrite length_map, length_seq.
Qed.

(** A file of one page. *)
Definition one_page (h : DbHeader.Header) : list bytes := [hdr_page ps h].

Definition fresh_header (h : DbHeader.Header) : Prop :=
  fits ps algo h /\ DbHeader.PageCount h = 1 /\ FreelistRoot h = NullPage /\ FreelistPageCount h = 0 /\ DbHeader.CatalogRoot h = NullPage.

Lemma one_page_ok h : fresh_header h -> db_ok ps algo (one_page h) /\ main_ok ps algo (one_page h) [] (hdr_page ps h).
Proof using Hsize Halgo.
  intros (Hf & Hc & Hr & Hn & _). pose proof size_bounds as Hps. destruct (header_bytes_fits ps algo h Hsize Halgo Hf) as (_ & Hl & Hb & _).
  assert (Hpl : blen (hdr_page ps h) = ps) by (unfold hdr_page, blen, HeaderSize; rewrite length_app, length_replicate; lia).
  assert (Hpb : bytes_ok (hdr_page ps h)).
  { apply Forall_app. split; [done|]. apply Forall_replicate. unfold byte_ok. lia. }
  assert (Hdp : disk_page ps (hdr_page ps h) 0 = hdr_page ps h).
  { unfold disk_page. rewrite Z.mul_0_l, (proj2 (Z.leb_le _ _)) by lia. unfold read_data.
    assert (E : Z.to_nat ps = length (hdr_page ps h)) by (unfold blen in Hpl; lia). rewrite E. apply sub_full. }
  split; constructor.
  - by constructor.
  - unfold one_page, blen, NullPage. cbn. lia.
  - exists h, []. split; [done|]. split; [done|]. split; [done|]. rewrite Hr. split; [constructor|]. split; [constructor|]. by split; [constructor|].
  - intros n. unfold one_page, blen. cbn [length]. lia.
  - done.
  - by apply hdr_page_reads.
  - intros i Hi. by apply elem_of_nil in Hi.
  - intros n Hn0 _. unfold one_page, blen in Hn0. cbn [length] in Hn0. assert (n = 0) as -> by lia. split; [exact Hdp|]. left. lia.
  - done.
  - cbn [last]. rewrite Hpl. apply Z.mod_same. lia.
Qed.

Lemma gspec_start {S A} (m : PG S A) s s' (Q : A -> S -> Prop) (E : pgErr -> S -> Prop) : m s = m s' -> gspec m s' Q E -> gspec m s Q E.
Proof. unfold gspec. by intros ->. Qed.

Lemma new_header_fits salt uuid :
  in_u 64 salt -> bytes_ok uuid -> length uuid = 16%nat -> fresh_header (bump_changes (DbHeader.NewHeader ps algo salt uuid)).
Proof using Hsize Halgo.
  intros Hs Hb Hl. pose proof size_bounds as Hps. split; [|done]. split; [|by split_and!].
  assert (Ha : in_u 8 algo).
  { unfold Supported in Halgo. unfold in_u. rewrite !orb_true_iff, !Z.eqb_eq in Halgo. 
    unfold ChecksumNone, ChecksumXXHash32, ChecksumCRC32C in Halgo. lia. }
  unfold DbHeader.header_ok, bump_changes, with_counters, DbHeader.NewHeader. cbn [FormatMajor FormatMinor DbHeader.PageSize DbHeader.PageCount FileChangeCounter VersionValidFor
    FreelistRoot FreelistPageCount DbHeader.CatalogRoot SchemaCookie ColumnarRoot TxnHighWater FeatureFlags DefaultCodec Header_ChecksumAlgo
    TextEncoding EncryptionFlags ApplicationID UserVersion WALSalt DatabaseUUID].
  split_and!; try done; try (apply wrap_in_u; lia); unfold in_u; lia.
Qed.

Lemma new_wal_ok : scans ps [] [].
Proof using Hsize.
  pose proof size_bounds. apply (scans_nil ps (Wal.NewHeader ps 1 0 0)); [|done]. unfold Wal.header_ok, Wal.NewHeader, in_u. cbn. lia.
Qed.

Lemma encoded_page f h :
  length (header_bytes h) = 128%nat -> blen (Buf f) = ps ->
  put 0 (take (length (Buf f)) (header_bytes h)) (replicate (length (Buf f)) 0) = hdr_page ps h.
Proof using Hsize.
  intros Hl Hf. pose proof size_bounds. unfold blen in Hf. rewrite take_ge by lia. unfold put, hdr_page, HeaderSize. rewrite take_0. cbn [app]. f_equal.
  rewrite drop_replicate. f_equal. lia.
Qed.

#[local] Opaque hdr_page.

(** The last steps of createNew. *)
Definition write_first_page (main : @Handle Disk Disk_fs) (b : bytes) : PG (dpager * Disk) unit :=
  file_write main b 0 ;;*
  file_sync main ;;*
  on_pool (upd_frame 0 (set_dirty false)) ;;*
  gput (set_checkpointSeq 1) ;;*
  openFreshWAL csprng.

Lemma write_first_page_spec (p1 : dpager) (d : Disk) h :
  fresh_header h -> dk_files d !! path = Some no_file -> dk_files d !! wal = None ->
  pool_ok ps 0 (p_pool p1) -> table (p_pool p1) = {[0 := first_frame (hdr_page ps h)]} ->
  p_path p1 = path -> p_main p1 = DHandle path false -> p_walPath p1 = wal -> p_pageSize p1 = ps -> p_checksum p1 = algo ->
  p_sync p1 <> SyncOff -> p_readOnly p1 = false -> p_hdr p1 = h -> p_nextLSN p1 = 0 -> p_walFlushedLSN p1 = 0 -> p_closed p1 = false ->
  gspec (write_first_page (p_main p1) (hdr_page ps h)) (p1, d)
    (fun _ s' => exists wh, durable s' (one_page h) wh [] /\ count s' = 1 /\ p_nextLSN s'.1 = 0) (fun _ _ => False).
Proof using Hrand Hsize Halgo.
  intros Hfh Hnp Hnw HP1 Ht1 E1 E2 E3 E4 E5 E6 E7 E8 E9 E10 E11. pose proof size_bounds as Hps.
  assert (Hp1 : table (p_pool p1) !! 0 = Some (first_frame (hdr_page ps h))) by (rewrite Ht1; apply lookup_singleton_eq).
  destruct (one_page_ok h Hfh) as [Hdb Hmo]. pose proof Hfh as (Hfit & Hcnt & Hroot & Hfc & _).
  assert (Hpl : blen (hdr_page ps h) = ps /\ bytes_ok (hdr_page ps h)) by (pose proof (do_pages _ _ _ Hdb) as H; exact (proj1 (Forall_singleton _ _) H)).
  unfold write_first_page. rewrite E2. gsteps.
  apply gspec_write; [done|]. gsteps. unfold file_sync. gsteps.
  unfold gio at 1, gspec at 1. cbn [fst snd FsFile Disk_fs Vfs.Sync disk_ops]. unfold Disk_Sync. apply gspec_lift. cbn [io_res dh_path]. gsteps.
  set (d2 := (Disk_WriteAt _ _ 0 d).2).
  assert (Hd1 : disk_file path d = no_file) by by apply disk_file_Some.
  assert (Hd2 : disk_data path d2 = hdr_page ps h).
  { unfold d2. rewrite dk_files_write. unfold disk_data. rewrite disk_file_step, Hd1. cbn [df_now].
    exact (write_data_append (hdr_page ps h) []). }
  rewrite Hd2. set (d3 := disk_step path (DFile (hdr_page ps h) []) d2).
  assert (Hwn : dk_files d3 !! wal = None).
  { unfold d3. cbn [dk_files disk_step]. rewrite lookup_insert_ne by apply path_ne_wal. unfold d2. rewrite dk_files_write. cbn [dk_files disk_step].
    rewrite lookup_insert_ne by apply path_ne_wal. done. }
  match goal with |- gspec _ (?q, _) _ _ => set (p2 := q) end.
  assert (Ew : p_walPath p2 = wal) by exact E3.
  eapply gspec_start; [apply (openFreshWAL_create p2 d3); by rewrite Ew|]. rewrite Ew. set (d4 := disk_step wal no_file d3).
  assert (Hmf : dk_files d4 !! path = Some (DFile (hdr_page ps h) [])).
  { unfold d4, d3. cbn [dk_files disk_step]. rewrite lookup_insert_ne by (apply not_eq_sym, path_ne_wal). apply lookup_insert_eq. }
  assert (Hw4 : dk_files d4 !! wal = Some no_file) by (unfold d4; cbn [dk_files disk_step]; apply lookup_insert_eq).
  clearbody d4.
  eapply gspec_mono; [apply (openFreshWAL_spec csprng ps algo path wal Hrand p2 d4 (one_page h) (DFile (hdr_page ps h) [])); try done| |done].
  - apply path_ne_wal.
  - intros c Hc. by apply once_synced in Hc as ->.
  - intros w' Hw'. rewrite (disk_file_Some _ _ _ Hw4) in Hw'. apply once_synced in Hw' as ->.
    exists []. split; [exact new_wal_ok|]. intros c Hc. by apply once_synced in Hc as ->.
  - intros u s2 (wr & r & wh & d5 & -> & Hwh & Hwps & Hsy' & Hwf5 & Hmf5 & _). exists wh.
    match goal with |- durable (?q, _) _ _ _ /\ _ => set (p3 := q) end.
    assert (Hp3 : p_pool p3 = upd_frame 0 (set_dirty false) (p_pool p1)) by reflexivity.
    assert (Ht3 : table (p_pool p3) = {[0 := first_frame (hdr_page ps h)]}).
    { rewrite Hp3, (table_upd 0 (set_dirty false) _ _ Hp1), Ht1. by rewrite insert_singleton_eq. }
    assert (HP3 : pool_ok ps 0 (p_pool p3)).
    { rewrite Hp3. apply pool_ok_upd; [exact HP1|]. intros f Hf. assert (f = first_frame (hdr_page ps h)) as -> by congruence.
      split; [|done]. destruct Hpl. unfold frame_ok. cbn [PageID Buf pins set_dirty first_frame]. by split_and!. }
    destruct (opened_durable p3 d5 (one_page h) (hdr_page ps h) wh wr) as [Hd Hv]; try (exact E1 || exact E3 || exact E4 || exact E5 || exact E9 || exact E10 || assumption || reflexivity).
    + constructor; try (exact E11 || exact E7).
      * change (p_main p1 = DHandle (p_path p1) false). by rewrite E1, E2.
      * change (ValidPageSize (p_pageSize p1) = true). by rewrite E4.
      * change (Supported (p_checksum p1) = true). by rewrite E5.
    + by unfold in_u.
    + change (fits ps algo (p_hdr p1)). by rewrite E8.
    + change (db_page (one_page h) 0 = hdr_page ps (p_hdr p1)). by rewrite E8.
    + change (DbHeader.PageCount (p_hdr p1) = blen (one_page h)). by rewrite E8.
    + exists []. change (p_hdr p3) with (p_hdr p1). rewrite E8, Hroot. split; [constructor|]. split; [constructor|]. by split; [constructor|].
    + split; [exact Hd|]. split; [|exact E9]. change (DbHeader.PageCount (p_hdr p1) = 1). by rewrite E8.
Qed.

Lemma install_spec b (p : dpager) (d : Disk) c :
  p_pool p = newPool ps c -> blen b = ps -> bytes_ok b ->
  gspec (install_frame0 b) (p, d) (fun _ s' => exists P, s' = (set_pool P p, d) /\ pool_ok ps 0 P /\ table P = {[0 := first_frame b]}) (fun _ _ => False).
Proof using Hsize.
  intros Hp Hb Hok. unfold install_frame0. gsteps. rewrite Hp. destruct (first_pool c b Hb Hok) as [H1 H2]. eexists. split; [reflexivity|]. done.
Qed.

Lemma encode_spec (p : dpager) (d : Disk) b :
  pool_ok ps 0 (p_pool p) -> table (p_pool p) = {[0 := first_frame b]} -> blen b = ps -> fresh_header (bump_changes (p_hdr p)) ->
  let h := bump_changes (p_hdr p) in
  gspec encodeHeaderIntoFrame0 (p, d)
    (fun _ s' => exists P, s' = (set_pool P (set_hdr h p), d) /\ pool_ok ps 0 P /\ table P = {[0 := first_frame (hdr_page ps h)]}) (fun _ _ => False).
Proof using Hsize Halgo.
  intros HP Ht Hb Hfh h. unfold encodeHeaderIntoFrame0. gsteps. destruct (one_page_ok h Hfh) as [Hdb _].
  pose proof Hfh as (Hfit & _). destruct (header_bytes_fits ps algo h Hsize Halgo Hfit) as (He & Hl & _ & _).
  assert (Hpl : blen (hdr_page ps h) = ps /\ bytes_ok (hdr_page ps h)) by (pose proof (do_pages _ _ _ Hdb) as H; exact (proj1 (Forall_singleton _ _) H)).
  apply gspec_lift. cbn [p_hdr set_hdr]. fold h. rewrite He. gsteps. cbn [p_pool set_hdr].
  pose proof (encoded_page (first_frame b) h Hl Hb) as Hbuf.
  set (g := fun f => set_Buf (put 0 (take (length (Buf f)) (header_bytes h)) (replicate (length (Buf f)) 0)) f).
  assert (Hf0 : table (p_pool p) !! 0 = Some (first_frame b)) by (rewrite Ht; apply lookup_singleton_eq).
  exists (upd_frame 0 g (p_pool p)). split; [done|]. split.
  - apply pool_ok_upd; [exact HP|]. intros f Hf. assert (f = first_frame b) as -> by congruence. split; [|done].
    unfold frame_ok, g. cbn [PageID Buf pins set_Buf first_frame] in *. rewrite Hbuf. destruct Hpl. by split_and!.
  - rewrite (table_upd 0 g _ _ Hf0), Ht. unfold g. rewrite Hbuf. by rewrite insert_singleton_eq.
Qed.

Lemma createNew_spec o rand (d : Disk) :
  dk_files d !! path = Some no_file -> dk_files d !! wal = None -> o_ReadOnly o = false -> o_Sync o <> SyncOff ->
  o_PageSize o = ps -> o_Checksum o = algo ->
  gspec (createNew csprng o) (new_pager path (DHandle path false : @Handle Disk Disk_fs) o rand, d)
    (fun _ s' => exists h wh, fresh_header h /\ durable s' (one_page h) wh [] /\ count s' = 1 /\ p_nextLSN s'.1 = 0) (fun _ _ => False).
Proof using Hrand Hsize Halgo.
  intros Hnp Hnw Hro Hsy Hps' Halg'. pose proof size_bounds as Hps. set (p0 := new_pager _ _ _ _).
  unfold createNew. rewrite Hps', Halg'. gsteps. apply gspec_genU64. intros salt r1 Hs1. gsteps. apply gspec_rand_bytes. intros uuid r2 Hu1 Hu2. gsteps.
  pose proof (new_header_fits salt uuid Hs1 Hu1 Hu2) as Hfh.
  eapply gspec_mono; [apply (install_spec _ _ _ (o_PoolPages o)); [reflexivity|unfold blen; rewrite length_replicate; lia|]| |done].
  { apply Forall_replicate. unfold byte_ok. lia. }
  intros u s1 (P & -> & HP & Ht). gsteps.
  eapply gspec_mono; [eapply encode_spec; [exact HP|exact Ht|unfold blen; rewrite length_replicate; lia|exact Hfh]| |done].
  intros u2 s2 (P2 & -> & HP2 & Ht2). gsteps. set (h := bump_changes _) in *. change h with (bump_changes (DbHeader.NewHeader ps algo salt uuid)) in *. clear h.
  set (h := bump_changes (DbHeader.NewHeader ps algo salt uuid)) in *. cbn [p_pool set_pool] in *.
  apply gspec_frame with (f := first_frame (hdr_page ps h)); [cbn [p_pool set_pool]; rewrite Ht2; apply lookup_singleton_eq|].
  match goal with |- gspec _ (?q, _) ?Q ?E => set (p1 := q); change (gspec (write_first_page (p_main p1) (hdr_page ps h)) (p1, d) Q E) end.
  eapply gspec_mono; [apply (write_first_page_spec p1 d h); try assumption; try reflexivity| |done].
  intros u3 s' (wh & H). by exists h, wh.
Qed.

(** Open where there is no file: a database of one page. *)
Lemma Open_creates fuel o rand (d : Disk) :
  dk_files d !! path = None -> dk_files d !! wal = None -> o_ReadOnly o = false -> o_Sync o <> SyncOff ->
  o_PageSize (withDefaults o) = ps -> o_Checksum (withDefaults o) = algo ->
  exists p d' h wh, Open csprng fuel path o rand d = (Ok p, d') /\ fresh_header h /\ durable (p, d') (one_page h) wh [] /\
    count (p, d') = 1 /\ p_nextLSN p = 0.
Proof using Hrand Hsize Halgo.
  intros Hnp Hnw Hro Hsy Hps' Halg'.
  assert (H1 : dk_files (disk_step path no_file d) !! path = Some no_file) by (cbn [dk_files disk_step]; apply lookup_insert_eq).
  assert (H2 : dk_files (disk_step path no_file d) !! wal = None) by (cbn [dk_files disk_step]; by rewrite lookup_insert_ne by apply path_ne_wal).
  destruct (opened_spec (DHandle path false : @Handle Disk Disk_fs) _ _ _ (createNew_spec (withDefaults o) rand _ H1 H2 Hro Hsy Hps' Halg'))
    as (p & d' & E & h & wh & G1 & G2 & G3 & G4).
  exists p, d', h, wh. split; [|by split_and!].
  rewrite (Open_new csprng fuel path o rand d (DHandle path false : @Handle Disk Disk_fs) (disk_step path no_file d)); [exact E|cbn; by rewrite Hnp|done|].
  cbn [FsOpen Disk_fs]. unfold Disk_Open. by rewrite Hnp.
Qed.
End opening.
