(* ===== verification/PagerProps.v ===== *)
(** * pager/pager.go: crash safety

    A run of the pager under a single writer, cut by a power failure at any moment,
    and what Open finds afterwards. *)

From S2P Require Import Prelude Checksum Page Vfs Disk Wal DbHeader PageStore Pool Pager PagerInv PagerLaws PagerFree PagerLog PagerDurable PagerCommit PagerOpen.
From stdpp Require Import strings.

#[local] Open Scope Z_scope.
#[local] Open Scope pg_scope.

(** ** What the layers above do *)

Inductive action :=
| AFetch (n : Z) | AUpdate (n : Z) (b : bytes) | AUnpin (n : Z) | AAllocate | AFree (n : Z) | ASetRoot (root : Z)
| ASync | ASetSync (l : SyncLevel) | ASetThreshold (frames : Z) | ASetObserver (on : bool) | ACommit | ACheckpoint | AClose.

#[global] Instance action_eq_dec : EqDecision action.
Proof. solve_decision. Defined.

Section runs.
Context (csprng : nat -> Z) (ps algo : Z) (path : string).
Hypothesis (Hrand : forall k, byte_ok (csprng k)).
Notation wal := (path +:+ "-wal").
Notation durable := (durable ps algo path).
Notation recoverable := (recoverable ps algo path wal).

(** One call; the caller's writing in place comes with its MarkDirty. *)
Definition act (a : action) (s : dpager * Disk) : dpager * Disk :=
  match a with
  | AFetch n => (fetchLocked n s).2
  | AUpdate n b => ((on_pool (upd_frame n (set_Buf b)) ;;* markDirtyLocked n) s).2
  | AUnpin n => (Unpin n s).2
  | AAllocate => (Pager.Allocate s).2
  | AFree n => (Free n s).2
  | ASetRoot root => (SetCatalogRoot root s).2
  | ASync => (Pager.Sync s).2
  | ASetSync l => (SetSync l s).2
  | ASetThreshold frames => (SetCheckpointThreshold frames s).2
  | ASetObserver on => (SetCommitObserver on s).2
  | ACommit => (Pager.Commit csprng s).2
  | ACheckpoint => (Checkpoint csprng s).2
  | AClose => (Pager.Close csprng s).2
  end.

(** Every change is committed. *)
Definition nothing_open (s : dpager * Disk) : Prop :=
  forall n f, table (p_pool s.1) !! n = Some f -> ~ uncommitted (p_walFlushedLSN s.1) f.

(** What callers owe the pager: pages in use, pinned while they are written or
    freed, whole pages of bytes; syncing left on; no checkpoint while a transaction
    is open; log sequence numbers and page numbers that have not run out; and
    nothing after Close. *)
Definition allowed (a : action) (s : dpager * Disk) : Prop :=
  match a with
  | AFetch n => 0 <= n < count s
  | AUpdate n b => n ∈ live s /\ (0 < pins_of (table (p_pool s.1)) n)%nat /\ blen b = ps /\ bytes_ok b /\ lsn_room s
  | AUnpin n => (0 < pins_of (table (p_pool s.1)) n)%nat
  | AAllocate => lsn_room s /\ count s < NullPage
  | AFree n => n ∈ live s /\ (0 < pins_of (table (p_pool s.1)) n)%nat /\ lsn_room s
  | ASetRoot root => in_u 32 root /\ lsn_room s
  | ASetSync l => l <> SyncOff
  | ASync | ASetThreshold _ | ASetObserver _ | ACommit => True
  | ACheckpoint => nothing_open s
  | AClose => False
  end.

(** The same for the last call, which may be Close. *)
Definition allowed_last (a : action) (s : dpager * Disk) : Prop :=
  match a with AClose => nothing_open s | _ => allowed a s end.

Fixpoint acts (l : list action) (s : dpager * Disk) : dpager * Disk :=
  match l with
  | [] => s
  | a :: l' => acts l' (act a s)
  end.

Fixpoint all_allowed (l : list action) (s : dpager * Disk) : Prop :=
  match l with
  | [] => True
  | a :: l' => allowed a s /\ all_allowed l' (act a s)
  end.

(** The database after an action: Commit moves it to what callers see. *)
Definition next_db (a : action) (db : list bytes) (s : dpager * Disk) : list bytes :=
  match a with ACommit => snapshot algo s | _ => db end.

Fixpoint last_db (l : list action) (db : list bytes) (s : dpager * Disk) : list bytes :=
  match l with
  | [] => db
  | a :: l' => last_db l' (next_db a db s) (act a s)
  end.

Lemma gspec_state {A} (m : PG (dpager * Disk) A) s (I : dpager * Disk -> Prop) (E : pgErr -> _ -> Prop) :
  gspec m s (fun _ => I) E -> (forall e s', E e s' -> I s') -> I (m s).2.
Proof. unfold gspec. intros H HE. destruct (m s) as [[a|e|] s']; [done|by eapply HE|done]. Qed.

(** A call that commits nothing. *)
Lemma act_still a s db wh ts :
  durable s db wh ts -> allowed a s -> a <> ACommit -> a <> ACheckpoint -> still ps algo path db wh ts s (act a s).
Proof using Hrand.
  intros Hd Ha N1 N2. destruct a as [n|n b|n| |n|root| |l|k|on| | |]; cbn [act allowed] in *; try done.
  - eapply (gspec_state _ _ _ (fun _ => still ps algo path db wh ts s)); [by eapply fetch_still|done].
  - destruct Ha as (H1 & H2 & H3 & H4 & H5). eapply gspec_state; [by eapply update_still|by intros ? ? []].
  - eapply gspec_state; [by eapply unpin_still|by intros ? ? []].
  - destruct Ha as [H1 H2]. eapply (gspec_state _ _ _ (fun _ => still ps algo path db wh ts s)); [by eapply Allocate_still|done].
  - destruct Ha as (H1 & H2 & H3). eapply gspec_state; [by eapply Free_still|by intros ? ? []].
  - destruct Ha as [H1 H2]. eapply gspec_state; [by eapply SetCatalogRoot_still|by intros ? ? []].
  - eapply gspec_state; [by eapply Sync_still|by intros ? ? []].
  - destruct s as [p d]. pose proof (pn_readOnly _ (pi_open _ (du_inv _ _ _ _ _ _ _ Hd))) as Hro. cbn [fst] in Hro.
    unfold SetSync, gput. cbn [fst snd]. rewrite Hro.
    split; [by apply durable_set_sync|]. split; [apply safe_refl|cbn; lia].
  - destruct s as [p d]. split; [by eapply (durable_core _ _ _ p)|]. split; [apply safe_refl|cbn; lia].
  - destruct s as [p d]. split; [by eapply (durable_core _ _ _ p)|]. split; [apply safe_refl|cbn; lia].
Qed.

(** One action: the pager stays durable, and at every moment the files hold the
    database before it or the one after it. *)
Lemma act_durable a s db wh ts :
  durable s db wh ts -> allowed a s ->
  exists wh' ts', durable (act a s) (next_db a db s) wh' ts' /\
    safe (recoverable (fun x => x = db \/ x = next_db a db s)) s.2 (act a s).2.
Proof using Hrand.
  intros Hd Ha. assert (HS : forall dbs d', safe (recoverable (eq db)) s.2 d' -> safe (recoverable (fun x => x = db \/ dbs x)) s.2 d').
  { intros dbs d' H. eapply safe_mono; [exact H|]. intros f Hf. eapply recoverable_sub; [exact Hf|]. intros x <-. by left. }
  destruct (decide (a = ACommit)) as [->|Hc]; [|destruct (decide (a = ACheckpoint)) as [->|Hk]].
  - cbn [act next_db]. pose proof (gspec_state _ _ (fun s' => exists wh' ts', durable s' (snapshot algo s) wh' ts' /\ sealed_as algo s s' /\
       safe (recoverable (fun x => x = db \/ x = snapshot algo s)) s.2 s'.2) (fun _ _ => False)
       (commit_spec csprng ps algo path Hrand s db wh ts Hd)) as (wh' & ts' & H1 & _ & H2); [by intros ? ? []|]. by exists wh', ts'.
  - cbn [act next_db allowed] in *. assert (Hset : settled ps s db) by (intros n f Hf Hu; exfalso; by eapply Ha).
    pose proof (gspec_state _ _ (fun s' => exists wh', durable s' db wh' [] /\ settled ps s' db /\ safe (recoverable (eq db)) s.2 s'.2 /\ same s s')
       (fun _ _ => False) (checkpoint_spec csprng ps algo path Hrand s db wh ts Hd Hset)) as (wh' & H1 & _ & H2 & _); [by intros ? ? []|].
    exists wh', []. split; [done|]. by apply HS.
  - destruct (act_still a s db wh ts Hd Ha Hc Hk) as (H1 & H2 & _).
    assert (E : next_db a db s = db) by (by destruct a). rewrite E. exists wh, ts. split; [done|]. by apply HS.
Qed.

(** Close is a checkpoint. *)
Lemma close_safe s db wh ts :
  durable s db wh ts -> nothing_open s ->
  safe (recoverable (eq db)) s.2 (act AClose s).2 /\ recoverable (eq db) (dk_files (act AClose s).2).
Proof using Hrand.
  intros Hd Hno. pose proof (pi_open _ (du_inv _ _ _ _ _ _ _ Hd)) as Hop. cbn [act].
  assert (Hset : settled ps s db) by (intros n f Hf Hu; exfalso; by eapply Hno).
  pose proof (checkpoint_spec csprng ps algo path Hrand s db wh ts Hd Hset) as H. unfold Checkpoint in H. unfold gspec in H.
  assert (E : (Pager.Close csprng s).2.2 = (checkpointLocked csprng s).2.2).
  { unfold Pager.Close, gbind at 1, gget at 1. rewrite (pn_closed _ Hop), (pn_readOnly _ Hop). unfold gbind at 1, gtry at 1.
    destruct (checkpointLocked csprng s) as [[[]|e|] [p1 d1]]; [|done|done]. unfold gbind at 1, gget at 1. cbn [fst snd]. by destruct (p_walFile p1). }
  rewrite E. destruct (checkpointLocked csprng s) as [[[]|e|] s']; [|done|done]. cbn [snd]. destruct H as (wh' & H1 & _ & H2 & _).
  split; [exact H2|]. eapply stored_recoverable; [exact (du_stored _ _ _ _ _ _ _ H1)|by eapply durable_scans|done].
Qed.

Lemma acts_durable l : forall s db wh ts,
  durable s db wh ts -> all_allowed l s -> exists wh' ts', durable (acts l s) (last_db l db s) wh' ts'.
Proof using Hrand.
  induction l as [|a l IH]; intros s db wh ts Hd Hl; cbn [acts last_db all_allowed] in *; [by exists wh, ts|].
  destruct Hl as [Ha Hl]. destruct (act_durable a s db wh ts Hd Ha) as (wh1 & ts1 & Hd1 & _). by eapply IH.
Qed.

(** ** What a crash leaves *)

(** Whatever the files fall back to, Open succeeds, and finds one of the databases
    of good, with every page as it was committed, in a pager that keeps it. *)
Definition reopens (good : list bytes -> Prop) (fls : files) : Prop :=
  forall fuel o rand (d : Disk),
    crashed wal fls (dk_files d) -> o_ReadOnly o = false -> o_Sync o <> SyncOff -> (length (disk_data wal d) < fuel)%nat ->
    exists p d' db wh, Open csprng fuel path o rand d = (Ok p, d') /\ good db /\ durable (p, d') db wh [] /\
      count (p, d') = blen db /\ forall n, 0 <= n < blen db -> view (p, d') n = db_page db n.

(** Any number of crashes, each in the middle of the Open that follows the last. *)
Inductive reboots : files -> files -> Prop :=
| reboots_done fls : reboots fls fls
| reboots_again fuel o rand (d : Disk) passed fls f fls' :
    crashed wal fls (dk_files d) -> o_ReadOnly o = false -> o_Sync o <> SyncOff -> (length (disk_data wal d) < fuel)%nat ->
    went d (Open csprng fuel path o rand d).2 passed -> f ∈ passed ++ [dk_files d] ->
    reboots f fls' -> reboots fls fls'.

Lemma went_inj d1 d2 l l' : went d1 d2 l -> went d1 d2 l' -> l = l'.
Proof. unfold went. intros H1 H2. rewrite H1 in H2. by apply app_inv_tail in H2. Qed.

Lemma crashed_recoverable good fls (d : Disk) :
  ValidPageSize ps = true -> recoverable good fls -> crashed wal fls (dk_files d) -> recoverable good (dk_files d).
Proof.
  intros Hps Hr Hc. apply valid_size in Hps as [Hps _].
  destruct (recoverable_crashed ps algo path wal (path_ne_wal path) ltac:(lia) good fls (dk_files d) Hr Hc) as (b & w & ts & db & H1 & H2 & H3 & H4 & H5).
  apply (stored_recoverable ps algo path wal good db ts w); [|done|done]. exists (DFile b []). split; [done|]. split; [done|]. split; [done|].
  intros c Hcc. by apply once_synced in Hcc as ->.
Qed.

Lemma recoverable_reopens good fls :
  ValidPageSize ps = true -> Supported algo = true -> (forall db, good db -> db_ok ps algo db) -> recoverable good fls -> reopens good fls.
Proof using Hrand.
  intros Hps Ha Hok Hr fuel o rand d Hc Hro Hsy Hf.
  destruct (Open_recovers csprng ps algo path Hrand Hps Ha fuel o rand d good fls Hr Hc Hok Hro Hsy Hf) as (p & d' & db & wh & H1 & H2 & H3 & H4 & H5 & _).
  exists p, d', db, wh. by split_and!.
Qed.

Lemma reboots_recoverable good fls fls' :
  ValidPageSize ps = true -> Supported algo = true -> (forall db, good db -> db_ok ps algo db) ->
  reboots fls fls' -> recoverable good fls -> recoverable good fls'.
Proof using Hrand.
  intros Hps Ha Hok. induction 1 as [|fuel o rand d passed fls f fls' Hc Hro Hsy Hf Hw Hin _ IH]; intros Hr; [done|]. apply IH.
  apply elem_of_app in Hin as [Hin| ->%list_elem_of_singleton]; [|by eapply crashed_recoverable].
  destruct (Open_recovers csprng ps algo path Hrand Hps Ha fuel o rand d good fls Hr Hc Hok Hro Hsy Hf)
    as (p & d' & db & wh & H1 & H2 & _ & _ & _ & _ & _ & (l & W & Hl)).
  rewrite H1 in Hw. cbn [snd] in Hw. rewrite (went_inj _ _ _ _ Hw W) in Hin. rewrite Forall_forall in Hl. specialize (Hl f Hin).
  eapply recoverable_sub; [exact Hl|]. by intros x <-.
Qed.

Lemma durable_recoverable s db wh ts : durable s db wh ts -> recoverable (eq db) (dk_files s.2).
Proof.
  intros Hd. eapply stored_recoverable; [exact (du_stored _ _ _ _ _ _ _ Hd)|by eapply durable_scans|done].
Qed.

Lemma Open_passes fuel o rand s (d : Disk) db wh ts :
  durable s db wh ts -> crashed wal (dk_files s.2) (dk_files d) -> o_ReadOnly o = false -> o_Sync o <> SyncOff -> (length (disk_data wal d) < fuel)%nat ->
  exists passed, went d (Open csprng fuel path o rand d).2 passed.
Proof using Hrand.
  intros Hd Hc Hro Hsy Hf. destruct (durable_size _ _ _ _ _ _ _ Hd) as (_ & Hps & Ha). pose proof (du_db _ _ _ _ _ _ _ Hd) as O.
  destruct (Open_recovers csprng ps algo path Hrand Hps Ha fuel o rand d (eq db) (dk_files s.2) (durable_recoverable _ _ _ _ Hd) Hc)
    as (p & d' & db' & wh' & -> & _ & _ & _ & _ & _ & _ & (l & W & _)); [by intros x <-|done..|]. by exists l.
Qed.

(** ** The promises *)

Lemma last_db_ok l s db wh ts : durable s db wh ts -> all_allowed l s -> db_ok ps algo (last_db l db s).
Proof using Hrand. intros Hd Hl. destruct (acts_durable l s db wh ts Hd Hl) as (wh' & ts' & H). exact (du_db _ _ _ _ _ _ _ H). Qed.

(** What a call does to the files, the last one too. *)
Lemma act_last a s db wh ts :
  durable s db wh ts -> allowed_last a s ->
  safe (recoverable (fun x => x = db \/ x = next_db a db s)) s.2 (act a s).2 /\ recoverable (eq (next_db a db s)) (dk_files (act a s).2) /\
  db_ok ps algo (next_db a db s).
Proof using Hrand.
  intros Hd Ha. pose proof (du_db _ _ _ _ _ _ _ Hd) as O. destruct (decide (a = AClose)) as [->|Hne].
  - destruct (close_safe s db wh ts Hd Ha) as [H1 H2]. cbn [next_db]. split; [|done]. eapply safe_mono; [exact H1|]. intros f Hf.
    eapply recoverable_sub; [exact Hf|]. intros x <-. by left.
  - assert (Ha' : allowed a s) by by destruct a. destruct (act_durable a s db wh ts Hd Ha') as (wh2 & ts2 & Hd2 & H).
    split; [exact H|]. split; [by eapply durable_recoverable|exact (du_db _ _ _ _ _ _ _ Hd2)].
Qed.

(** C1. Power may fail at any moment of a call, a write counted up to any sector.
    Each sector of the data file is then, independently of the others, as it was at
    some moment since the file's last Sync, so that writes are kept, lost, torn and
    reordered; the log, which is only appended to, keeps its writes in order, the
    last one up to a sector. Take a pager open for writing on a durable database,
    syncing left on, over a disk that reports no error, and any calls of Fetch,
    MarkDirty after a write in place, Unpin, Allocate, Free, SetCatalogRoot, Sync,
    SetSync, SetCheckpointThreshold, SetCommitObserver, Commit and Checkpoint that
    keep to what callers owe: pages in use and pinned, whole pages, no Checkpoint or
    Close with changes uncommitted, log sequence numbers below 2^64. If power fails
    in the next such call, or in Close, Open succeeds and finds the database of the
    last commit, or, if the call is a Commit, possibly the one it was about to
    leave; never anything else. Once the call has returned, Open finds exactly the
    last committed one. (IncrementalVacuum and Backup are not among the calls.) *)
Theorem crash_during_call s db wh ts l a :
  durable s db wh ts -> all_allowed l s -> allowed_last a (acts l s) ->
  let s1 := acts l s in let db1 := last_db l db s in
  exists passed, went s1.2 (act a s1).2 passed /\
    Forall (reopens (fun x => x = db1 \/ x = next_db a db1 s1)) (passed ++ [dk_files s1.2]) /\
    reopens (eq (next_db a db1 s1)) (dk_files (act a s1).2).
Proof using Hrand.
  intros Hd Hl Ha s1 db1. destruct (acts_durable l s db wh ts Hd Hl) as (wh1 & ts1 & Hd1).
  destruct (act_last a s1 db1 wh1 ts1 Hd1 Ha) as ((passed & W & HP) & Hend & O2).
  destruct (durable_size _ _ _ _ _ _ _ Hd1) as (_ & Hps & Halg). pose proof (du_db _ _ _ _ _ _ _ Hd1) as O1.
  exists passed. split; [done|]. split.
  - apply Forall_app. split; [|apply Forall_singleton].
    + eapply Forall_impl; [exact HP|]. intros f Hf. apply recoverable_reopens; [done|done| |done]. by intros x [->| ->].
    + apply recoverable_reopens; [done|done|by intros x [->| ->]|]. eapply stored_recoverable; [exact (du_stored _ _ _ _ _ _ _ Hd1)|by eapply durable_scans|by left].
  - apply recoverable_reopens; [done|done|by intros x <-|done].
Qed.

(** C2. However many times power fails while Open is replaying the log, at any
    moment, the next Open succeeds and finds the same database. *)
Theorem crash_during_recovery s db wh ts fls :
  durable s db wh ts -> reboots (dk_files s.2) fls -> reopens (eq db) fls.
Proof using Hrand.
  intros Hd Hb. destruct (durable_size _ _ _ _ _ _ _ Hd) as (_ & Hps & Halg). pose proof (du_db _ _ _ _ _ _ _ Hd) as O.
  assert (HO : forall x, db = x -> db_ok ps algo x) by (by intros x <-).
  apply recoverable_reopens; [done|done|done|]. apply (reboots_recoverable (eq db) (dk_files s.2)); [done|done|done|done|]. by eapply durable_recoverable.
Qed.

(** C3. Commit, on a pager open for writing in a durable state, syncing on, over a
    disk that reports no error, succeeds: callers then see every page as before but
    for its checksum, which is now written and right on every page but the header's
    (that has its own), pinned as before; and from then on a crash keeps exactly
    these pages. On a closed pager Commit returns ErrClosed, on a read-only one
    ErrReadOnly, and nothing changes. *)
Theorem commit_publishes s :
  (p_closed s.1 = true -> Pager.Commit csprng s = (Err PgClosed, s)) /\
  (p_closed s.1 = false -> p_readOnly s.1 = true -> Pager.Commit csprng s = (Err PgReadOnly, s)) /\
  forall db wh ts, durable s db wh ts ->
  exists s', Pager.Commit csprng s = (Ok tt, s') /\ count s' = count s /\
    (forall n, pins_of (table (p_pool s'.1)) n = pins_of (table (p_pool s.1)) n) /\
    (forall n, 0 <= n < count s ->
       take (Z.to_nat (ps - 4)) (view s' n) = take (Z.to_nat (ps - 4)) (view s n) /\ (0 < n -> VerifyPageChecksum (view s' n) algo = Ok tt)) /\
    exists db', blen db' = count s' /\ (forall n, 0 <= n < count s' -> db_page db' n = view s' n) /\ reopens (eq db') (dk_files s'.2).
Proof using Hrand.
  split; [|split].
  { intros Hc. unfold Pager.Commit, commitLocked, gbind at 1, gget at 1. by rewrite Hc. }
  { intros Hc Hr. unfold Pager.Commit, commitLocked, gbind at 1, gget at 1. by rewrite Hc, Hr. }
  intros db wh ts Hd. pose proof (commit_spec csprng ps algo path Hrand s db wh ts Hd) as H. unfold gspec in H.
  destruct (Pager.Commit csprng s) as [[[]|e|] s']; [|done|done]. destruct H as (wh' & ts' & Hd' & [S1 S2 S3 S4 S5] & _).
  destruct (durable_size _ _ _ _ _ _ _ Hd) as (Hs & Hps & Halg). pose proof (du_db _ _ _ _ _ _ _ Hd') as O.
  pose proof (pi_count _ (du_inv _ _ _ _ _ _ _ Hd)) as Hc.
  assert (Hcnt : count s' = count s) by (unfold count; by rewrite S1). pose proof (blen_snapshot algo s ltac:(lia)) as Hb.
  exists s'. split; [done|]. split; [done|]. split; [done|]. split.
  - intros n Hn. rewrite S2 by done. destruct (snap_page_view ps algo path s db wh ts n Hd Hn) as (V1 & _). split; [exact V1|].
    intros Hn0. rewrite <- db_page_snapshot by done. apply (do_verify _ _ _ O). lia.
  - exists (snapshot algo s). split; [by rewrite Hcnt|]. split.
    + intros n Hn. rewrite db_page_snapshot by lia. symmetry. apply S2. lia.
    + apply recoverable_reopens; [done|done|by intros x <-|]. by eapply durable_recoverable.
Qed.

(** Where there is no file, Open makes a database of one page, its header, which
    a crash keeps; its pager serves that page and has nothing to recycle. *)
Theorem open_new_database fuel o rand (d : Disk) :
  dk_files d !! path = None -> dk_files d !! wal = None -> o_ReadOnly o = false -> o_Sync o <> SyncOff ->
  o_PageSize (withDefaults o) = ps -> o_Checksum (withDefaults o) = algo -> ValidPageSize ps = true -> Supported algo = true ->
  exists p d' h wh, Open csprng fuel path o rand d = (Ok p, d') /\ fresh_header ps algo h /\
    count (p, d') = 1 /\ freelist (p, d') [] /\ view (p, d') 0 = hdr_page ps (p_hdr p) /\
    durable (p, d') (one_page ps h) wh [] /\ reopens (eq (one_page ps h)) (dk_files d').
Proof using Hrand.
  intros H1 H2 H3 H4 H5 H6 H7 H8.
  destruct (Open_creates csprng ps algo path Hrand H7 H8 fuel o rand d H1 H2 H3 H4 H5 H6) as (p & d' & h & wh & E & Hf & Hd & Hc & _).
  pose proof (du_db _ _ _ _ _ _ _ Hd) as O. pose proof (du_inv _ _ _ _ _ _ _ Hd) as Hi.
  exists p, d', h, wh. split; [done|]. split; [done|]. split; [done|]. split; [|split; [|split; [done|]]].
  - destruct (pi_free _ Hi) as (fl & Hfl). destruct fl as [|n fl]; [done|]. destruct Hfl as (_ & _ & Hr & _).
    apply Forall_cons in Hr as [Hr _]. lia.
  - destruct (ln_zero _ _ _ _ (pi_lent _ Hi)) as (f & Hf0 & _). unfold view, page_at. rewrite Hf0. by apply (du_zero _ _ _ _ _ _ _ Hd).
  - apply recoverable_reopens; [done|done|by intros x <-|]. change d' with (p, d').2. by eapply durable_recoverable.
Qed.
End runs.

(** ** A database to try them on *)

Definition demo_csprng (k : nat) : Z := 7.
Definition demo_options : Options := MkOptions 4096 0 ChecksumCRC32C SyncNormal false 0.
Definition demo_open (d : Disk) : res pgErr dpager * Disk := Open demo_csprng 20000 "db" demo_options 0 d.
Definition filled (c : Z) : bytes := replicate 4096 c.

(** Byte 100 of page 1, as Open finds it in the files that the calls l leave on a
    new database. *)
Definition after_crash (l : list action) : option Z :=
  match demo_open new_disk with
  | (Ok p, d) =>
      match demo_open (acts demo_csprng l (p, d)).2 with
      | (Ok p', d') => view (p', d') 1 !! 100%nat
      | _ => None
      end
  | _ => None
  end.

(** Power off and on, with nothing lost. *)
Definition power_cycled (d : Disk) : Disk := MkDisk ((fun f => DFile (df_now f) []) <$> dk_files d) [].

Lemma crashed_power_cycled log d : crashed log (dk_files d) (dk_files (power_cycled d)).
Proof.
  intros path. unfold power_cycled. cbn [dk_files]. rewrite lookup_fmap. destruct (dk_files d !! path) as [f|]; [|done].
  cbn. split; [apply may_hold_once; by left|done].
Qed.

Lemma demo_csprng_ok k : byte_ok (demo_csprng k).
Proof. by unfold byte_ok, demo_csprng. Qed.

Lemma demo_database :
  exists p d h wh, demo_open new_disk = (Ok p, d) /\ durable 4096 ChecksumCRC32C "db" (p, d) (one_page 4096 h) wh [] /\
    count (p, d) = 1 /\ p_nextLSN p = 0.
Proof.
  destruct (Open_creates demo_csprng 4096 ChecksumCRC32C "db" demo_csprng_ok eq_refl eq_refl 20000 demo_options 0 new_disk)
    as (p & d & h & wh & H1 & _ & H2 & H3 & H4); [reflexivity..|discriminate|reflexivity|reflexivity|].
  exists p, d, h, wh. unfold demo_open. split; [exact H1|]. split; [exact H2|]. split; [exact H3|exact H4].
Qed.

(** A page allocated, then committed. *)
Lemma demo_allowed s : count s = 1 -> p_nextLSN s.1 = 0 -> all_allowed demo_csprng 4096 [AAllocate] s.
Proof. intros H1 H2. cbn [all_allowed allowed]. unfold lsn_room, NullPage. rewrite H1, H2. split; [split; lia|done]. Qed.

(** A checkpoint while a page that was committed has been written again loses
    what was committed: the page is neither flushed, since its newest change is not
    in the log, nor left in the log, which is replaced. *)
Theorem checkpoint_loses_commit :
  let l := [AAllocate; AUpdate 1 (filled 2); ACommit; AUpdate 1 (filled 3)] in
  after_crash l = Some 2 /\ after_crash (l ++ [ACheckpoint]) = Some 0.
Proof. split; vm_compute; reflexivity. Qed.

Lemma crash_during_call_witness :
  exists p d db wh, durable 4096 ChecksumCRC32C "db" (p, d) db wh [] /\
    let s1 := acts demo_csprng [AAllocate] (p, d) in
    let s2 := act demo_csprng ACommit s1 in
    exists passed, went s1.2 s2.2 passed /\
      Forall (reopens demo_csprng 4096 ChecksumCRC32C "db" (fun x => x = db \/ x = snapshot ChecksumCRC32C s1)) (passed ++ [dk_files s1.2]) /\
      reopens demo_csprng 4096 ChecksumCRC32C "db" (eq (snapshot ChecksumCRC32C s1)) (dk_files s2.2).
Proof.
  destruct demo_database as (p & d & h & wh & _ & Hd & Hc & Hl). exists p, d, (one_page 4096 h), wh. split; [exact Hd|].
  exact (crash_during_call demo_csprng 4096 ChecksumCRC32C "db" demo_csprng_ok (p, d) (one_page 4096 h) wh [] [AAllocate] ACommit Hd
    (demo_allowed (p, d) Hc Hl) I).
Defined.

(** The second crash comes as Open begins. *)
Lemma crash_during_recovery_witness :
  exists p d db wh, durable 4096 ChecksumCRC32C "db" (p, d) db wh [] /\
    reboots demo_csprng "db" (dk_files d) (dk_files (power_cycled d)) /\
    reopens demo_csprng 4096 ChecksumCRC32C "db" (eq db) (dk_files (power_cycled d)).
Proof.
  destruct demo_database as (p & d & h & wh & _ & Hd & Hc & Hl). exists p, d, (one_page 4096 h), wh. split; [exact Hd|].
  assert (Hr : reboots demo_csprng "db" (dk_files d) (dk_files (power_cycled d))).
  { destruct (Open_passes demo_csprng 4096 ChecksumCRC32C "db" demo_csprng_ok (S (length (disk_data ("db" +:+ "-wal") (power_cycled d)))) demo_options 0
      (p, d) (power_cycled d) (one_page 4096 h) wh [] Hd) as (passed & W); [apply crashed_power_cycled|reflexivity|discriminate|lia|].
    eapply (reboots_again demo_csprng "db" _ demo_options 0 (power_cycled d) passed);
      [apply crashed_power_cycled|reflexivity|discriminate| |exact W|apply elem_of_app; right; by apply list_elem_of_singleton|apply reboots_done]. lia. }
  split; [exact Hr|].
  exact (crash_during_recovery demo_csprng 4096 ChecksumCRC32C "db" demo_csprng_ok (p, d) (one_page 4096 h) wh [] _ Hd Hr).
Defined.

Lemma commit_publishes_witness :
  exists p d s', Pager.Commit demo_csprng (p, d) = (Ok tt, s') /\ count s' = 1.
Proof.
  destruct demo_database as (p & d & h & wh & _ & Hd & Hc & Hl).
  destruct (commit_publishes demo_csprng 4096 ChecksumCRC32C "db" demo_csprng_ok (p, d)) as (_ & _ & H). destruct (H _ wh [] Hd) as (s' & H1 & H2 & _).
  exists p, d, s'. split; [exact H1|]. by rewrite H2.
Defined.

Lemma open_new_database_witness :
  exists p d, demo_open new_disk = (Ok p, d) /\ count (p, d) = 1 /\ freelist (p, d) [].
Proof.
  destruct (open_new_database demo_csprng 4096 ChecksumCRC32C "db" demo_csprng_ok 20000 demo_options 0 new_disk)
    as (p & d & h & wh & H1 & _ & H2 & H3 & _); [reflexivity..|discriminate|reflexivity|reflexivity|reflexivity|reflexivity|].
  exists p, d. unfold demo_open. split; [exact H1|]. split; [exact H2|exact H3].
Defined.
