(* ===== verification/HeapPager.v ===== *)
(** * The heap on the pager

    What the heap uses of the pager, by the pager's own operations, and runs of the
    heap on a new database and on pages in memory. *)

From stdpp Require Import strings.
From S2P Require Import Prelude Rid Checksum Page Vfs Disk Slotted Overflow Bson PageStore Pool Pager PagerInv PagerLaws PagerProps Heap.

#[local] Open Scope Z_scope.
#[local] Open Scope heap_scope.

#[local] Instance demo_pages : PageOps (dpager * Disk) := Pager_ops demo_csprng.

#[global] Instance Pager_heap : HeapPages (dpager * Disk) := {
  BufOf n s := match table (p_pool s.1) !! n with Some f => Buf f | None => [] end;
  FreePage n s := let '(r, s') := Pager.Free n s in (as_sum r, s');
  PagesInFile s := DbHeader.PageCount (p_hdr s.1)
}.

(** ** Runs *)

(** A document of n bytes that is well formed: one binary field. *)
Definition sized_doc (n : Z) : bytes :=
  le_bytes 4 n ++ [5; 98; 0] ++ le_bytes 4 (n - 13) ++ [0] ++ replicate (Z.to_nat (n - 13)) 1 ++ [0].

Definition demo_tx : HTx := MkHTx 1 false.

Definition on_new_database {A} (m : HP (dpager * Disk) A) : option (res hErr A * hs (dpager * Disk)) :=
  match demo_open new_disk with
  | (Ok p, d) => match Heap.Open 7 (p, d) with (Ok _, s) => Some (m s) | _ => None end
  | _ => None
  end.

Definition in_memory {A} (m : HP MemPages A) : res hErr A * hs MemPages :=
  m (MkHs (new_heap 7) (MkMemPages 4096 ∅ 1 0 ∅)).

Definition insert_delete (n : Z) {P} {ops : PageOps P} {hops : HeapPages P} : HP P unit :=
  do^ r := Insert demo_tx (sized_doc n) in
  Delete 100 demo_tx r.

Definition pins_after {A} (o : option (res hErr A * hs (dpager * Disk))) : option (res hErr A * list (Z * Z)) :=
  match o with
  | Some (r, s) => Some (r, map (fun x => (x.1, pins x.2)) (map_to_list (table (p_pool (hs_p s).1))))
  | None => None
  end.


(** What Check makes of the heap after a document has grown, moved to another page
    and been deleted, all of it committed. *)
Definition moved_and_deleted : HP (dpager * Disk) CheckResult :=
  do^ r := Insert demo_tx (sized_doc 100) in
  do^ r' := Insert demo_tx (sized_doc 3800) in
  Update 100 demo_tx r (sized_doc 1000) ;;^
  Tx_Commit demo_tx ;;^
  Delete 100 demo_tx r ;;^
  Tx_Commit demo_tx ;;^
  Check 100.

Definition deleted_twice : HP MemPages (Z * Z) :=
  do^ r := Insert demo_tx (sized_doc 100) in
  Delete 100 demo_tx r ;;^
  Delete 100 demo_tx r ;;^
  do^ h := hget in
  hret (h_liveCount h, h_deadCount h).

(** Deleting a document that was spilled to overflow pages leaves the frames of
    its chain with a pin count of -1: freeOverflow lets a page go before it calls
    Free, which lets it go again. No such frame is ever evicted, as evictFrom wants
    a count of 0. *)
Theorem freed_overflow_leaks_frames :
  pins_after (on_new_database (insert_delete 6145)) = Some (Ok tt, [(3, 0); (2, -1); (1, -1); (0, 1)]) /\
  forall p f, pins f = -1 -> evictable p f = false.
Proof. split; [vm_compute; reflexivity|]. intros p f Hf. unfold evictable. by rewrite Hf. Qed.

(** With pages of 4096 bytes a document of 5000 bytes, far below the limit of
    SpillThreshold, is refused for lack of space, and the page allocated for it
    stays allocated. *)
Theorem medium_document_refused :
  5000 <= SpillThreshold /\
  pins_after (on_new_database (Insert demo_tx (sized_doc 5000))) = Some (Err (HFormat ErrNoSpace), [(1, 0); (0, 1)]).
Proof. split; [done|]. vm_compute. reflexivity. Qed.

(** A second Delete of the same record succeeds, and takes the count of live
    records below 0, to 2^64 - 1. *)
Theorem second_delete_wraps_count : (in_memory deleted_twice).1 = Ok (2 ^ 64 - 1, 2).
Proof. vm_compute. reflexivity. Qed.

(** After the delete of a document that had moved, two slots are dead but the
    counter has grown by one: Check reports a heap that is intact. *)
Theorem check_reports_intact_heap :
  match on_new_database moved_and_deleted with
  | Some (Ok r, s) => r = MkCheckResult 2 1 2 [PrDead] /\ h_deadCount (hs_h s) = 1
  | _ => False
  end.
Proof. vm_compute. split; reflexivity. Qed.
