(* ===== verification/BNode.v ===== *)
(** * index/btree.go: the nodes of the B-tree on their pages

    The state of a BTree and its pager, the monad its methods run in, the node
    codecs, loading and storing of nodes, and what a page holds: a leaf's keys and
    right sibling, or an interior node's separators and children. *)

From S2P Require Import Prelude Rid Checksum Page Slotted PageStore KeyEnc.

(** ** State, errors, effects *)

(** OutOfFuel is no error of the code: a loop has not ended within its fuel. *)
Inductive ixErr : Type :=
| IxPage (e : pgErr) | IxFmt (e : fmtErr)
| ErrReadOnly | ErrDuplicateKey | ErrNotFound | ErrKeyTooLarge | ErrReverseUnsupported | ErrRollbackUnsupported
| OutOfFuel.

#[global] Instance ixErr_eq_dec : EqDecision ixErr.
Proof. solve_decision. Defined.

Record BTree := MkBTree {
  t_collID : Z;
  t_unique : bool;
  t_bodyLen : Z;
  t_maxKey : Z;
  t_root : Z;
  t_txCounter : Z
}.

Definition set_root (r : Z) (t : BTree) : BTree :=
  MkBTree (t_collID t) (t_unique t) (t_bodyLen t) (t_maxKey t) r (t_txCounter t).

(** A tree and the pager it is stored in. *)
Record ix (P : Type) := MkIx { ix_t : BTree; ix_p : P }.
Arguments MkIx {P}.
Arguments ix_t {P}.
Arguments ix_p {P}.

Definition slotDirEntry : Z := 4.

Section monad.
Context {P : Type}.

Definition IX (A : Type) : Type := ix P -> res ixErr A * ix P.

Definition iret {A} (a : A) : IX A := fun s => (Ok a, s).
Definition ifail {A} (e : ixErr) : IX A := fun s => (Err e, s).
Definition ilift {A} (r : res ixErr A) : IX A := fun s => (r, s).
Definition ibind {A B} (m : IX A) (k : A -> IX B) : IX B := fun s =>
  match m s with
  | (Ok a, s') => k a s'
  | (Err e, s') => (Err e, s')
  | (Panic, s') => (Panic, s')
  end.
Definition iget : IX BTree := fun s => (Ok (ix_t s), s).

Lemma ibind_Ok {A B} (m : IX A) (k : A -> IX B) s a s' : m s = (Ok a, s') -> ibind m k s = k a s'.
Proof. unfold ibind. by intros ->. Qed.

Lemma ibind_Err {A B} (m : IX A) (k : A -> IX B) s e s' : m s = (Err e, s') -> ibind m k s = (Err e, s').
Proof. unfold ibind. by intros ->. Qed.
End monad.
Arguments IX : clear implicits.

Declare Scope ix_scope.
Delimit Scope ix_scope with ix.
Notation "'do!' x := m 'in' k" := (ibind m (fun x => k))
  (at level 200, x name, m at level 100, k at level 200) : ix_scope.
Notation "'do!' ' p := m 'in' k" := (ibind m (fun x => match x with p => k end))
  (at level 200, p strict pattern, m at level 100, k at level 200) : ix_scope.
#[local] Open Scope ix_scope.

(** Errors of the format package, passed on. *)
Definition ix_fmt {A} (r : res fmtErr A) : res ixErr A :=
  match r with Ok a => Ok a | Err e => Err (IxFmt e) | Panic => Panic end.

(** ** Node payloads *)

(** An interior entry: its separator, empty for the leftmost child, and child. *)
Abbreviation intEntry := (bytes * Z)%type.

Definition encodeInterior (e : intEntry) : bytes := e.1 ++ be_bytes 4 e.2.

(** The slice payload[:len-4] panics on a shorter payload. *)
Definition decodeInterior (payload : bytes) : res ixErr intEntry :=
  if (length payload <? 4)%nat then Panic
  else let n := (length payload - 4)%nat in Ok (take n payload, be_val (drop n payload)).

(** ** Filling and reading a page *)

(** Each cell in turn, the first error stops. *)
Fixpoint add_cells (cs : list bytes) : M unit :=
  match cs with
  | [] => pret tt
  | c :: cs' => pbind (AddCell c) (fun _ => add_cells cs')
  end.

Definition init_page (t collID : Z) : M unit := fun b =>
  match InitPage b t collID with Ok b' => (Ok tt, b') | Err e => (Err e, b) | Panic => (Panic, b) end.

Definition set_right_sib (rs : Z) : M unit :=
  pbind header (fun h =>
    setHeader (MkPageHeader (ph_Type h) (ph_Flags h) (ph_Codec h) (ph_EntryCount h) (ph_PageLSN h)
                 (ph_CollIDEntry h) (ph_FreeStart h) (ph_FreeEnd h) rs)).

Definition fillLeaf (collID : Z) (keys : list bytes) (rightSib : Z) : M unit :=
  pbind (init_page PageBTreeLeaf collID) (fun _ => pbind (add_cells keys) (fun _ => set_right_sib rightSib)).

Definition fillInterior (collID : Z) (ents : list intEntry) : M unit :=
  pbind (init_page PageBTreeInterior collID) (fun _ => add_cells (map encodeInterior ents)).

(** The live cells from slot i on; a cell that cannot be read is skipped. *)
Fixpoint live_cells (k : nat) (i : Z) (b : bytes) : res ixErr (list bytes) :=
  match k with
  | O => Ok []
  | S k' =>
      match (IsLive i b).1 with
      | Ok true =>
          match (Cell i b).1 with
          | Ok c => let* cs := live_cells k' (i + 1) b in Ok (c :: cs)
          | Err _ => live_cells k' (i + 1) b
          | Panic => Panic
          end
      | Ok false => live_cells k' (i + 1) b
      | _ => Panic
      end
  end.

Definition page_cells (b : bytes) : res ixErr (list bytes) :=
  let* n := ix_fmt (SlotCount b).1 in live_cells (Z.to_nat n) 0 b.

Fixpoint decode_all (cs : list bytes) : res ixErr (list intEntry) :=
  match cs with
  | [] => Ok []
  | c :: cs' => let* e := decodeInterior c in let* es := decode_all cs' in Ok (e :: es)
  end.

(** ** Nodes through the pager *)

Section nodes.
Context {P : Type} {ops : PageOps P}.

Definition fetch (n : Z) : IX P bytes := fun s =>
  let '(r, p') := Fetch n (ix_p s) in
  (match r with inl e => Err (IxPage e) | inr b => Ok b end, MkIx (ix_t s) p').

Definition allocate : IX P (Z * bytes) := fun s =>
  let '(r, p') := Allocate (ix_p s) in
  (match r with inl e => Err (IxPage e) | inr nb => Ok nb end, MkIx (ix_t s) p').

Definition on_pages (f : P -> P) : IX P unit := fun s => (Ok tt, MkIx (ix_t s) (f (ix_p s))).

Definition loadLeaf (pno : Z) : IX P (list bytes * Z) :=
  do! b := fetch pno in
  do! keys := ilift (page_cells b) in
  do! h := ilift (DecodePageHeader b) in
  do! _ := on_pages (Unpin pno) in
  iret (keys, ph_RightSib h).

Definition loadInterior (pno : Z) : IX P (list intEntry) :=
  do! b := fetch pno in
  do! cells := ilift (page_cells b) in
  do! ents := ilift (decode_all cells) in
  do! _ := on_pages (Unpin pno) in
  iret ents.

Definition pageType (pno : Z) : IX P Z :=
  do! b := fetch pno in
  do! h := ilift (DecodePageHeader b) in
  do! _ := on_pages (Unpin pno) in
  iret (ph_Type h).

(** Fills the pinned buffer b of page pno, marks it dirty and lets it go; after
    an error the buffer stays as far as it was filled, and is not marked. *)
Definition fill_pinned (pno : Z) (fill : M unit) (b : bytes) : IX P unit :=
  let '(r, b') := fill b in
  do! _ := on_pages (WriteBuf pno b') in
  match r with
  | Ok _ =>
      do! _ := on_pages (MarkDirty pno) in
      on_pages (Unpin pno)
  | Err e => do! _ := on_pages (Unpin pno) in ifail (IxFmt e)
  | Panic => ilift Panic
  end.

Definition writeLeaf (pno : Z) (keys : list bytes) (rightSib : Z) : IX P unit :=
  do! t := iget in
  do! b := fetch pno in
  fill_pinned pno (fillLeaf (t_collID t) keys rightSib) b.

Definition writeInterior (pno : Z) (ents : list intEntry) : IX P unit :=
  do! t := iget in
  do! b := fetch pno in
  fill_pinned pno (fillInterior (t_collID t) ents) b.

Definition newLeaf (keys : list bytes) (rightSib : Z) : IX P Z :=
  do! t := iget in
  do! '(id, b) := allocate in
  do! _ := fill_pinned id (fillLeaf (t_collID t) keys rightSib) b in
  iret (u32 id).

Definition newInterior (ents : list intEntry) : IX P Z :=
  do! t := iget in
  do! '(id, b) := allocate in
  do! _ := fill_pinned id (fillInterior (t_collID t) ents) b in
  iret (u32 id).
End nodes.

(** ** Fit checks *)

Fixpoint leaf_total (keys : list bytes) : Z :=
  match keys with [] => 0 | k :: ks => blen k + slotDirEntry + leaf_total ks end.

Definition leafFits (t : BTree) (keys : list bytes) : bool := leaf_total keys <=? t_bodyLen t.

Fixpoint interior_total (ents : list intEntry) : Z :=
  match ents with [] => 0 | e :: es => blen e.1 + 4 + slotDirEntry + interior_total es end.

Definition interiorFits (t : BTree) (ents : list intEntry) : bool := interior_total ents <=? t_bodyLen t.

(** ** Lemmas: pages *)

Lemma set_right_sib_spec rs b :
  swf b -> in_u 32 rs ->
  exists b', set_right_sib rs b = (Ok tt, b') /\ swf b' /\ blen b' = blen b /\ abs b' = abs b /\
    ph_Type (hdr b') = ph_Type (hdr b) /\ ph_RightSib (hdr b') = rs.
Proof.
  intros Hw Hrs. pose proof (w_len b Hw) as Hl. unfold set_right_sib.
  erewrite pbind_Ok by (apply header_hdr; lia).
  match goal with |- context [setHeader ?h] => set (h' := h) end.
  destruct (setHeader_spec h' b) as (b' & R & L & B & Hh & C); [lia| |apply Hw|].
  { destruct (hdr_ok b (w_bytes b Hw)) as (? & ? & ? & ? & ? & ? & ? & ? & ?). unfold page_header_ok. cbn. tauto. }
  exists b'. destruct (swf_same_body b b' Hw L B) as [Hw' Ha].
  - unfold count. by rewrite Hh.
  - by rewrite Hh.
  - unfold fend. by rewrite Hh.
  - intros x m Hx _ _. by apply C.
  - split_and!; try done; by rewrite Hh.
Qed.

Abbreviation cells_total := leaf_total.

Lemma cells_total_nonneg cs : 0 <= cells_total cs.
Proof. induction cs as [|c cs IH]; cbn [leaf_total]; unfold slotDirEntry, blen in *; lia. Qed.

Lemma a_used_live cs : a_used (map ALive cs) = cells_total cs.
Proof.
  unfold a_used, slotEntrySize, blen. induction cs as [|c cs IH]; [done|].
  cbn [map a_sum a_size length leaf_total]. unfold slotDirEntry, blen in *. lia.
Qed.

Lemma cells_total_app a b : cells_total (a ++ b) = cells_total a + cells_total b.
Proof.
  induction a as [|c a IH]; [done|]. cbn [app leaf_total]. rewrite IH. lia.
Qed.

(** Cells that fit are all added, in order. *)
Lemma add_cells_spec cs : forall b done_,
  swf b -> packed b -> abs b = map ALive done_ -> Forall bytes_ok cs ->
  cells_total (done_ ++ cs) <= bl b ->
  exists b', add_cells cs b = (Ok tt, b') /\ swf b' /\ blen b' = blen b /\ abs b' = map ALive (done_ ++ cs) /\ meta b' = meta b.
Proof.
  induction cs as [|c cs IH]; intros b done_ Hw Hk Ha Hcs Hfit.
  - exists b. rewrite app_nil_r. done.
  - inversion Hcs as [|? ? Hc Hcs']; subst.
    assert (Hbl : 0 <= bl b <= 65500) by by apply wf_bl.
    assert (Havail : a_avail (bl b) (abs b) = bl b - cells_total done_) by (unfold a_avail; by rewrite Ha, a_used_live).
    rewrite cells_total_app in Hfit. pose proof (cells_total_nonneg cs) as H0. pose proof (cells_total_nonneg done_) as H1.
    cbn [leaf_total] in Hfit. unfold slotDirEntry in Hfit.
    destruct (AddCell_packed b c Hw Hk Hc) as (b1 & R & Hw1 & Hk1 & L1 & A1 & M1).
    { unfold maxCellLen. lia. }
    { unfold slotEntrySize. lia. }
    assert (Hbl1 : bl b1 = bl b) by (unfold bl; lia).
    destruct (IH b1 (done_ ++ [c]) Hw1 Hk1) as (b2 & R2 & Hw2 & L2 & A2 & M2).
    + by rewrite A1, Ha, map_app.
    + done.
    + rewrite <- app_assoc, Hbl1, cells_total_app. cbn [app leaf_total]. unfold slotDirEntry. lia.
    + exists b2. cbn [add_cells]. erewrite pbind_Ok by exact R. rewrite R2. rewrite <- app_assoc in A2.
      split_and!; [done|done|lia|exact A2|congruence].
Qed.

Lemma init_page_spec t collID b :
  in_u 8 t -> in_u 32 collID -> 36 <= blen b <= 65536 ->
  exists b', init_page t collID b = (Ok tt, b') /\ swf b' /\ packed b' /\ blen b' = blen b /\ abs b' = [] /\
    ph_Type (hdr b') = t /\ ph_RightSib (hdr b') = NullPage.
Proof.
  intros Ht Hc Hl. destruct (InitPage_spec (E:=fmtErr) b t collID Ht Hc Hl) as (b' & R & L & B & Hh).
  destruct (InitPage_swf b t collID b' Ht Hc Hl R) as (Hw & Ha & _).
  exists b'. unfold init_page. rewrite R. split_and!; try done; try (by rewrite Hh).
  assert (Hc0 : count b' = 0) by (unfold count; by rewrite Hh).
  unfold packed, a_avail, a_used, fend. rewrite Ha, Hh, Hc0. cbn [ph_FreeEnd a_sum]. unfold bl, slotEntrySize. rewrite L.
  change (blen (@nil aslot)) with 0. lia.
Qed.

(** ** What a page holds *)

Inductive node : Type :=
| NLeaf (keys : list bytes) (rs : Z)
| NInt (ents : list intEntry).

Definition ent_ok (e : intEntry) : Prop := bytes_ok e.1 /\ in_u 32 e.2.

Definition node_ok (nd : node) : Prop :=
  match nd with NLeaf keys rs => Forall bytes_ok keys /\ in_u 32 rs | NInt ents => Forall ent_ok ents end.

Definition node_cells (nd : node) : list bytes :=
  match nd with NLeaf keys _ => keys | NInt ents => map encodeInterior ents end.

Definition node_type (nd : node) : Z := match nd with NLeaf _ _ => PageBTreeLeaf | NInt _ => PageBTreeInterior end.

Definition holds (b : bytes) (nd : node) : Prop :=
  swf b /\ abs b = map ALive (node_cells nd) /\ ph_Type (hdr b) = node_type nd /\ node_ok nd /\
  match nd with NLeaf _ rs => ph_RightSib (hdr b) = rs | NInt _ => True end.

Lemma encodeInterior_ok e : ent_ok e -> bytes_ok (encodeInterior e).
Proof. intros [H1 H2]. apply Forall_app. split; [done|apply bytes_ok_be]. Qed.

Lemma decode_encodeInterior e : ent_ok e -> decodeInterior (encodeInterior e) = Ok e.
Proof.
  intros [H1 H2]. unfold decodeInterior, encodeInterior. rewrite length_app, length_be_bytes.
  rewrite (proj2 (Nat.ltb_ge _ _)) by lia. replace (length e.1 + 4 - 4)%nat with (length e.1) by lia.
  rewrite take_app_length, drop_app_length, be_val_be_bytes by done. by destruct e.
Qed.

Lemma decode_all_encode es : Forall ent_ok es -> decode_all (map encodeInterior es) = Ok es.
Proof.
  induction 1 as [|e es He Hes IH]; [done|]. cbn [map decode_all]. by rewrite decode_encodeInterior, IH by done.
Qed.

Lemma live_cells_spec b cs : swf b -> abs b = map ALive cs -> forall k i,
  (k + i = length cs)%nat -> live_cells k (Z.of_nat i) b = Ok (drop i cs).
Proof.
  intros Hw Ha. pose proof (length_abs b (wf_count b Hw)) as Hn. rewrite Ha in Hn. unfold blen in Hn. rewrite length_map in Hn.
  induction k as [|k IH]; intros i Hk; cbn [live_cells].
  - by rewrite drop_ge by lia.
  - assert (Hi : 0 <= Z.of_nat i < count b) by lia.
    destruct (lookup_lt_is_Some_2 cs i) as [c Hc]; [lia|].
    assert (Hget : a_get (Z.of_nat i) (abs b) = Some (ALive c)).
    { rewrite a_get_wf by done. rewrite (proj2 (bad_slot_false _ _)) by done.
      rewrite <- (abs_lookup b (Z.of_nat i)) by done. rewrite Ha, Nat2Z.id, list_lookup_fmap. by rewrite Hc. }
    rewrite IsLive_spec by done. rewrite Hget. cbn [fst]. rewrite Cell_spec by done. unfold a_live. rewrite Hget. cbn [fst].
    replace (Z.of_nat i + 1) with (Z.of_nat (S i)) by lia. rewrite IH by lia. cbn [res_bind].
    by rewrite (drop_S cs c i).
Qed.

Lemma page_cells_spec b cs : swf b -> abs b = map ALive cs -> page_cells b = Ok cs.
Proof.
  intros Hw Ha. unfold page_cells. rewrite SlotCount_spec by done. cbn [fst ix_fmt res_bind].
  pose proof (length_abs b (wf_count b Hw)) as Hn. rewrite Ha in Hn. unfold blen in Hn. rewrite length_map in Hn.
  change 0 with (Z.of_nat 0) at 1. rewrite (live_cells_spec b cs Hw Ha) by lia. by rewrite drop_0.
Qed.

Lemma header_ix b : swf b -> DecodePageHeader (E:=ixErr) b = Ok (hdr b).
Proof. intros Hw. apply Decode_hdr. pose proof (w_len b Hw). lia. Qed.

(** The size of a node's cells on the page. *)
Definition node_total (nd : node) : Z := leaf_total (node_cells nd).

Lemma interior_total_cells ents : interior_total ents = leaf_total (map encodeInterior ents).
Proof.
  induction ents as [|e es IH]; [done|]. cbn [interior_total map leaf_total]. rewrite IH. unfold encodeInterior, blen.
  rewrite length_app, length_be_bytes. lia.
Qed.

Lemma node_cells_ok nd : node_ok nd -> Forall bytes_ok (node_cells nd).
Proof.
  destruct nd as [keys rs|ents]; cbn; [by intros []|]. intros H. apply Forall_fmap.
  eapply Forall_impl; [exact H|]. apply encodeInterior_ok.
Qed.

Definition fill_node (collID : Z) (nd : node) : M unit :=
  match nd with NLeaf keys rs => fillLeaf collID keys rs | NInt ents => fillInterior collID ents end.

(** A node that fits a page can be written to it, whatever the page held. *)
Lemma fill_node_spec collID nd b :
  in_u 32 collID -> node_ok nd -> 36 <= blen b <= 65536 -> node_total nd <= BodySize (blen b) ->
  exists b', fill_node collID nd b = (Ok tt, b') /\ holds b' nd /\ blen b' = blen b.
Proof.
  intros Hc Hok Hl Hfit.
  destruct (init_page_spec (node_type nd) collID b) as (b1 & R1 & Hw1 & Hk1 & L1 & A1 & T1 & S1);
    [by destruct nd|done|done|].
  destruct (add_cells_spec (node_cells nd) b1 []) as (b2 & R2 & Hw2 & L2 & A2 & M2);
    [done|done|done|by apply node_cells_ok| |].
  { unfold bl. rewrite L1. unfold node_total, BodySize, PageHeaderSize, ChecksumSize in Hfit. cbn [app]. lia. }
  unfold meta in M2. injection M2 as M2a M2b M2c. cbn [app] in A2. destruct nd as [keys rs|ents]; cbn [fill_node].
  - destruct Hok as [Hok Hrs]. destruct (set_right_sib_spec rs b2 Hw2 Hrs) as (b3 & R3 & Hw3 & L3 & A3 & T3 & S3).
    exists b3. split; [|split; [split_and!; try done; congruence|lia]].
    unfold fillLeaf. erewrite pbind_Ok by exact R1. erewrite pbind_Ok by exact R2. exact R3.
  - exists b2. split; [|split; [split_and!; try done; congruence|lia]].
    unfold fillInterior. erewrite pbind_Ok by exact R1. exact R2.
Qed.

(** Stamping a page leaves the node it holds. *)
Lemma stamp_holds lsn b nd : in_u 64 lsn -> holds b nd -> holds (stamp_lsn lsn b) nd.
Proof.
  intros Hlsn (Hw & Ha & Ht & Hok & Hrs). pose proof (w_len b Hw) as Hl. pose proof (w_bytes b Hw) as Hb.
  destruct (stamp_lsn_ok lsn b) as [L B]; [lia|done|]. pose proof (stamp_hdr lsn b ltac:(lia) Hlsn) as Hh.
  destruct (swf_same_body b (stamp_lsn lsn b) Hw L B) as [Hw' Ha'].
  - unfold count. by rewrite Hh.
  - by rewrite Hh.
  - unfold fend. by rewrite Hh.
  - intros x m Hx Hm _. apply stamp_body; lia.
  - unfold holds. rewrite Hh, Ha'. done.
Qed.

(** ** Running methods

    [wp m s Q E]: run in state s, m does not panic, and what it returns and leaves
    satisfies Q, or E if it returns an error. *)

Section wp.
Context {P : Type}.

Definition wp {A} (m : IX P A) (s : ix P) (Q : A -> ix P -> Prop) (E : ixErr -> ix P -> Prop) : Prop :=
  match m s with (Ok a, s') => Q a s' | (Err e, s') => E e s' | (Panic, _) => False end.

Lemma wp_bind {A B} (m : IX P A) (k : A -> IX P B) s Q E :
  wp m s (fun a s' => wp (k a) s' Q E) E -> wp (ibind m k) s Q E.
Proof. unfold wp, ibind. by destruct (m s) as [[a|e|] s']. Qed.

Lemma wp_mono {A} (m : IX P A) s Q Q' E E' :
  wp m s Q E -> (forall a s', Q a s' -> Q' a s') -> (forall e s', E e s' -> E' e s') -> wp m s Q' E'.
Proof. unfold wp. destruct (m s) as [[a|e|] s']; auto. Qed.

Lemma wp_ret {A} (a : A) s (Q : A -> ix P -> Prop) E : Q a s -> wp (iret a) s Q E.
Proof. done. Qed.

Lemma wp_fail {A} e s (Q : A -> ix P -> Prop) (E : ixErr -> ix P -> Prop) : E e s -> wp (ifail e) s Q E.
Proof. done. Qed.

Lemma wp_get s (Q : BTree -> ix P -> Prop) E : Q (ix_t s) s -> wp iget s Q E.
Proof. done. Qed.

Lemma wp_lift {A} (r : res ixErr A) a s (Q : A -> ix P -> Prop) E : r = Ok a -> Q a s -> wp (ilift r) s Q E.
Proof. by intros ->. Qed.
End wp.

Section stored.
Context {P : Type} {ops : PageOps P} {laws : PageLaws P}.

(** The pager keeps the nodes of N on pages of size sz and has room for k more. *)
Record stored (N : gmap Z node) (sz : Z) (k : nat) (p : P) : Prop := {
  st_inv : pg_inv p;
  st_size : PageSize p = sz;
  st_room : (k <= pg_room p)%nat;
  st_node : forall n nd, N !! n = Some nd -> n ∈ pg_live p /\ holds (pg_view p n) nd
}.

Lemma stored_sub N N' sz k k' p : stored N sz k p -> N' ⊆ N -> (k' <= k)%nat -> stored N' sz k' p.
Proof.
  intros [H1 H2 H3 H4] Hsub Hle. constructor; [done|done|lia|]. intros n nd Hn. apply H4. by eapply lookup_weaken.
Qed.

(** What reading the nodes of N needs of a predicate of the pager: the fetch of a
    node's page and its release keep it. *)
Record readable (N : gmap Z node) (R : P -> Prop) : Prop := Readable {
  rd_fetch p n nd r p' : R p -> N !! n = Some nd -> Fetch n p = (r, p') ->
    R p' /\ match r with inl e => pg_fails e | inr b => (0 < pg_pins p' n)%nat /\ b = pg_view p' n /\ holds b nd end;
  rd_unpin p n : R p -> (0 < pg_pins p n)%nat -> R (Unpin n p)
}.

Lemma stored_readable N sz k : readable N (stored N sz k).
Proof.
  constructor.
  - intros p n nd r p' [H1 H2 H3 H4] Hn EF.
    destruct (H4 n nd Hn) as [Hlive Hh]. destruct (pg_fetch p n r p' H1 Hlive EF) as (I1 & I2 & I3 & I4 & I5 & I6).
    split. { constructor; [done|congruence|by rewrite I4|]. intros m md Hm. destruct (H4 m md Hm). rewrite I3, I5 by done. done. }
    destruct r as [e|b]; [by destruct I6|]. destruct I6 as [-> Hp]. rewrite Hp, decide_True, I5 by done. split; [lia|done].
  - intros p n [H1 H2 H3 H4] Hpin. destruct (pg_unpin p n H1 Hpin) as (I1 & I2 & I3 & I4 & I5 & _).
    constructor; [done|congruence|by rewrite I4|]. intros m md Hm. destruct (H4 m md Hm). rewrite I3, I5 by done. done.
Qed.

Section reading.
Context (N : gmap Z node) (R : P -> Prop) (HR : readable N R).

Lemma read_fetch s n nd (Q : bytes -> ix P -> Prop) (E : ixErr -> ix P -> Prop) :
  R (ix_p s) -> N !! n = Some nd ->
  (forall b p', R p' -> (0 < pg_pins p' n)%nat -> b = pg_view p' n -> holds b nd -> Q b (MkIx (ix_t s) p')) ->
  (forall e p', pg_fails e -> R p' -> E (IxPage e) (MkIx (ix_t s) p')) -> wp (fetch n) s Q E.
Proof using HR.
  intros H Hn HQ HE. unfold wp, fetch. destruct (Fetch n (ix_p s)) as [r p'] eqn:EF.
  destruct (rd_fetch _ _ HR _ _ _ _ _ H Hn EF) as [H' Hr]. destruct r as [e|b]; [by apply HE|].
  destruct Hr as (? & ? & ?). by apply HQ.
Qed.

Lemma read_unpin s n (Q : unit -> ix P -> Prop) E :
  R (ix_p s) -> (0 < pg_pins (ix_p s) n)%nat ->
  (forall p', R p' -> Q tt (MkIx (ix_t s) p')) -> wp (on_pages (Unpin n)) s Q E.
Proof using HR. intros H Hpin HQ. unfold wp, on_pages. by apply HQ, (rd_unpin _ _ HR). Qed.

(** Reading a page that holds a node: fetch, decode, unpin. *)
Lemma read_load {A} (dec : bytes -> res ixErr A) s n nd a (Q : A -> ix P -> Prop) (E : ixErr -> ix P -> Prop) :
  R (ix_p s) -> N !! n = Some nd -> (forall b, holds b nd -> dec b = Ok a) ->
  (forall p', R p' -> Q a (MkIx (ix_t s) p')) ->
  (forall e p', pg_fails e -> R p' -> E (IxPage e) (MkIx (ix_t s) p')) ->
  wp (ibind (fetch n) (fun b => ibind (ilift (dec b)) (fun x => ibind (on_pages (Unpin n)) (fun _ => iret x)))) s Q E.
Proof using HR.
  intros Hst Hn Hdec HQ HE. apply wp_bind. eapply read_fetch; [exact Hst|exact Hn| |exact HE].
  intros b p' Hst' Hpin -> Hh. apply wp_bind. eapply wp_lift; [by apply Hdec|].
  apply wp_bind. eapply read_unpin; [exact Hst'|exact Hpin|]. intros p'' Hst''. apply wp_ret. by apply HQ.
Qed.

Lemma read_leaf s n keys rs (Q : list bytes * Z -> ix P -> Prop) (E : ixErr -> ix P -> Prop) :
  R (ix_p s) -> N !! n = Some (NLeaf keys rs) ->
  (forall p', R p' -> Q (keys, rs) (MkIx (ix_t s) p')) ->
  (forall e p', pg_fails e -> R p' -> E (IxPage e) (MkIx (ix_t s) p')) -> wp (loadLeaf n) s Q E.
Proof using HR.
  intros Hst Hn HQ HE. unfold loadLeaf. apply wp_bind. eapply read_fetch; [exact Hst|exact Hn| |exact HE].
  intros b p' Hst' Hpin -> (Hw & Ha & Ht & Hok & Hrs). apply wp_bind. eapply wp_lift; [by apply page_cells_spec|].
  apply wp_bind. eapply wp_lift; [by apply header_ix|]. apply wp_bind. eapply read_unpin; [exact Hst'|exact Hpin|].
  intros p'' Hst''. apply wp_ret. rewrite Hrs. by apply HQ.
Qed.

Lemma read_interior s n ents (Q : list intEntry -> ix P -> Prop) (E : ixErr -> ix P -> Prop) :
  R (ix_p s) -> N !! n = Some (NInt ents) ->
  (forall p', R p' -> Q ents (MkIx (ix_t s) p')) ->
  (forall e p', pg_fails e -> R p' -> E (IxPage e) (MkIx (ix_t s) p')) -> wp (loadInterior n) s Q E.
Proof using HR.
  intros Hst Hn HQ HE. unfold loadInterior. apply wp_bind. eapply read_fetch; [exact Hst|exact Hn| |exact HE].
  intros b p' Hst' Hpin -> (Hw & Ha & Ht & Hok & _). apply wp_bind. eapply wp_lift; [by apply page_cells_spec|].
  apply wp_bind. eapply wp_lift; [by apply decode_all_encode|]. apply wp_bind. eapply read_unpin; [exact Hst'|exact Hpin|].
  intros p'' Hst''. apply wp_ret. by apply HQ.
Qed.

Lemma read_type s n nd (Q : Z -> ix P -> Prop) (E : ixErr -> ix P -> Prop) :
  R (ix_p s) -> N !! n = Some nd ->
  (forall p', R p' -> Q (node_type nd) (MkIx (ix_t s) p')) ->
  (forall e p', pg_fails e -> R p' -> E (IxPage e) (MkIx (ix_t s) p')) -> wp (pageType n) s Q E.
Proof using HR.
  intros Hst Hn HQ HE. unfold pageType. apply wp_bind. eapply read_fetch; [exact Hst|exact Hn| |exact HE].
  intros b p' Hst' Hpin -> (Hw & Ha & Ht & Hok & _). apply wp_bind. eapply wp_lift; [by apply header_ix|].
  apply wp_bind. eapply read_unpin; [exact Hst'|exact Hpin|]. intros p'' Hst''. apply wp_ret. rewrite Ht. by apply HQ.
Qed.
End reading.

Lemma wp_fetch N sz k s n nd (Q : bytes -> ix P -> Prop) (E : ixErr -> ix P -> Prop) :
  stored N sz k (ix_p s) -> N !! n = Some nd ->
  (forall b p', stored N sz k p' -> (0 < pg_pins p' n)%nat -> b = pg_view p' n -> holds b nd -> Q b (MkIx (ix_t s) p')) ->
  (forall e p', pg_fails e -> stored N sz k p' -> E (IxPage e) (MkIx (ix_t s) p')) -> wp (fetch n) s Q E.
Proof. apply read_fetch, stored_readable. Qed.

Lemma wp_unpin N sz k s n (Q : unit -> ix P -> Prop) E :
  stored N sz k (ix_p s) -> (0 < pg_pins (ix_p s) n)%nat ->
  (forall p', stored N sz k p' -> Q tt (MkIx (ix_t s) p')) -> wp (on_pages (Unpin n)) s Q E.
Proof. apply (read_unpin N), stored_readable. Qed.

Lemma wp_load {A} (dec : bytes -> res ixErr A) N sz k s n nd a (Q : A -> ix P -> Prop) (E : ixErr -> ix P -> Prop) :
  stored N sz k (ix_p s) -> N !! n = Some nd -> (forall b, holds b nd -> dec b = Ok a) ->
  (forall p', stored N sz k p' -> Q a (MkIx (ix_t s) p')) ->
  (forall e p', pg_fails e -> stored N sz k p' -> E (IxPage e) (MkIx (ix_t s) p')) ->
  wp (ibind (fetch n) (fun b => ibind (ilift (dec b)) (fun x => ibind (on_pages (Unpin n)) (fun _ => iret x)))) s Q E.
Proof. apply read_load, stored_readable. Qed.

Lemma wp_loadLeaf N sz k s n keys rs (Q : list bytes * Z -> ix P -> Prop) (E : ixErr -> ix P -> Prop) :
  stored N sz k (ix_p s) -> N !! n = Some (NLeaf keys rs) ->
  (forall p', stored N sz k p' -> Q (keys, rs) (MkIx (ix_t s) p')) ->
  (forall e p', pg_fails e -> stored N sz k p' -> E (IxPage e) (MkIx (ix_t s) p')) -> wp (loadLeaf n) s Q E.
Proof. apply read_leaf, stored_readable. Qed.

Lemma wp_loadInterior N sz k s n ents (Q : list intEntry -> ix P -> Prop) (E : ixErr -> ix P -> Prop) :
  stored N sz k (ix_p s) -> N !! n = Some (NInt ents) ->
  (forall p', stored N sz k p' -> Q ents (MkIx (ix_t s) p')) ->
  (forall e p', pg_fails e -> stored N sz k p' -> E (IxPage e) (MkIx (ix_t s) p')) -> wp (loadInterior n) s Q E.
Proof. apply read_interior, stored_readable. Qed.

Lemma wp_pageType N sz k s n nd (Q : Z -> ix P -> Prop) (E : ixErr -> ix P -> Prop) :
  stored N sz k (ix_p s) -> N !! n = Some nd ->
  (forall p', stored N sz k p' -> Q (node_type nd) (MkIx (ix_t s) p')) ->
  (forall e p', pg_fails e -> stored N sz k p' -> E (IxPage e) (MkIx (ix_t s) p')) -> wp (pageType n) s Q E.
Proof. apply read_type, stored_readable. Qed.

(** Filling a pinned page with a node that fits. *)
Lemma wp_fill N sz k s n nd b (Q : unit -> ix P -> Prop) E :
  stored (delete n N) sz k (ix_p s) -> n ∈ pg_live (ix_p s) -> (0 < pg_pins (ix_p s) n)%nat -> blen b = sz ->
  in_u 32 (t_collID (ix_t s)) -> node_ok nd -> node_total nd <= BodySize sz ->
  (forall p', stored (<[n := nd]> N) sz k p' -> Q tt (MkIx (ix_t s) p')) ->
  wp (fill_pinned n (fill_node (t_collID (ix_t s)) nd) b) s Q E.
Proof.
  intros [H1 H2 H3 H4] Hlive Hpin Hb Hc Hok Hfit HQ. pose proof (pg_size _ H1) as Hsz. rewrite H2 in Hsz.
  destruct (fill_node_spec (t_collID (ix_t s)) nd b) as (b' & R & Hh & L); [done|done|lia|by rewrite Hb|].
  unfold fill_pinned. rewrite R.
  destruct (pg_update (ix_p s) n b' H1 Hlive Hpin) as (lsn & Hlsn & I1 & I2 & I3 & I4 & I5 & I6 & I7).
  { congruence. }
  { apply Hh. }
  apply wp_bind. unfold wp, on_pages. cbn [ix_t ix_p]. unfold ibind.
  set (p1 := MarkDirty n (WriteBuf n b' (ix_p s))) in *.
  destruct (pg_unpin p1 n I1) as (J1 & J2 & J3 & J4 & J5 & _); [by rewrite I5|]. apply HQ.
  change (stored (<[n := nd]> N) sz k (Unpin n p1)).
  constructor; [done|congruence|rewrite J4, I4; done|]. intros m md Hm. destruct (decide (m = n)) as [->|Hne].
  - rewrite lookup_insert_eq in Hm. injection Hm as <-. rewrite J3, I3. split; [done|].
    rewrite J5 by by rewrite I3. rewrite I6. by apply stamp_holds.
  - rewrite lookup_insert_ne in Hm by done. destruct (H4 m md) as [Hl Hm']; [by rewrite lookup_delete_ne|].
    rewrite J3, I3. split; [done|]. rewrite J5 by by rewrite I3. by rewrite I7.
Qed.

Lemma wp_write N sz k s n nd (old : node) (Q : unit -> ix P -> Prop) (E : ixErr -> ix P -> Prop) :
  stored N sz k (ix_p s) -> N !! n = Some old ->
  in_u 32 (t_collID (ix_t s)) -> node_ok nd -> node_total nd <= BodySize sz ->
  (forall p', stored (<[n := nd]> N) sz k p' -> Q tt (MkIx (ix_t s) p')) ->
  (forall e p', pg_fails e -> stored N sz k p' -> E (IxPage e) (MkIx (ix_t s) p')) ->
  wp (match nd with NLeaf keys rs => writeLeaf n keys rs | NInt ents => writeInterior n ents end) s Q E.
Proof.
  intros Hst Hn Hc Hok Hfit HQ HE.
  assert (Hw : wp (ibind iget (fun t => ibind (fetch n) (fun b => fill_pinned n (fill_node (t_collID t) nd) b))) s Q E).
  { apply wp_bind, wp_get, wp_bind. eapply wp_fetch; [exact Hst|exact Hn| |exact HE].
    intros b p' Hst' Hpin -> Hh. destruct (st_node _ _ _ _ Hst' n old Hn) as [Hlive _].
    apply (wp_fill N sz k (MkIx (ix_t s) p')); try done.
    - eapply stored_sub; [exact Hst'|apply delete_subseteq|done].
    - destruct (pg_page p' n (st_inv _ _ _ _ Hst') Hlive) as (_ & _ & _ & Hl & _). rewrite Hl. apply Hst'. }
  by destruct nd.
Qed.

Lemma wp_new N sz k s nd (Q : Z -> ix P -> Prop) (E : ixErr -> ix P -> Prop) :
  stored N sz (S k) (ix_p s) ->
  in_u 32 (t_collID (ix_t s)) -> node_ok nd -> node_total nd <= BodySize sz ->
  (forall n p', N !! n = None -> in_u 32 n -> n <> 0 -> n <> NullPage -> stored (<[n := nd]> N) sz k p' -> Q n (MkIx (ix_t s) p')) ->
  (forall e p', pg_fails e -> stored N sz k p' -> E (IxPage e) (MkIx (ix_t s) p')) ->
  wp (match nd with NLeaf keys rs => newLeaf keys rs | NInt ents => newInterior ents end) s Q E.
Proof.
  intros Hst Hc Hok Hfit HQ HE. pose proof Hst as [H1 H2 H3 H4].
  assert (Hw : wp (ibind iget (fun t => ibind allocate (fun nb => let '(id, b) := nb in
      ibind (fill_pinned id (fill_node (t_collID t) nd) b) (fun _ => iret (u32 id))))) s Q E).
  { apply wp_bind, wp_get, wp_bind. unfold wp at 1, allocate. destruct (Allocate (ix_p s)) as [r p'] eqn:EA.
    destruct (pg_allocate (ix_p s) r p' H1 ltac:(lia) EA) as (I1 & I2 & I3 & I4). destruct r as [e|[n b]].
    - destruct I4 as (Hf & J1 & J2 & _). apply HE; [done|]. constructor; [done|congruence|lia|].
      intros m md Hm. destruct (H4 m md Hm). rewrite J1, I3 by done. done.
    - destruct I4 as (J1 & J2 & J3 & J4 & J5). apply wp_bind.
      assert (Hlive : n ∈ pg_live p') by (rewrite J2; set_solver).
      destruct (pg_page p' n I1 Hlive) as (K1 & K2 & K3 & K4 & K5).
      assert (Hnone : N !! n = None).
      { destruct (N !! n) eqn:En; [|done]. by destruct (H4 n _ En). }
      apply (wp_fill N sz k (MkIx (ix_t s) p')); try done.
      + constructor; [done|cbn; congruence|cbn; lia|]. cbn [ix_p]. intros m md Hm. apply lookup_delete_Some in Hm as [_ Hm].
        destruct (H4 m md Hm). rewrite I3 by done. split; [rewrite J2; set_solver|done].
      + cbn [ix_p]. rewrite J5, decide_True by done. lia.
      + rewrite J4, K4. congruence.
      + intros p'' Hst''. apply wp_ret. cbn [ix_t]. rewrite wrap_small by done. by apply HQ. }
  by destruct nd.
Qed.
End stored.
