(* ===== verification/BTree.v ===== *)
(** * index/btree.go, cursor.go, tx.go: the B-tree

    Descent, insertion with splits, deletion, lookup and forward scans over the
    nodes of [BNode], and what they make of the keys the tree holds. *)

From S2P Require Import Prelude Rid Checksum Page Slotted PageStore KeyEnc BNode.
#[local] Open Scope ix_scope.

(** ** Transaction handles *)

Record Tx := MkTx { x_version : Z; x_readOnly : bool }.

Section btree.
Context {P : Type} {ops : PageOps P}.
(** The callback that persists a new root, and the fuel of the loops that walk
    pages. *)
Context (onRoot : Z -> P -> P) (fuel : nat).

Definition OpenWithRoot (collID : Z) (unique : bool) (root : Z) (p : P) : ix P :=
  let body := BodySize (PageSize p) in
  MkIx (MkBTree collID unique body (body / 4) root 0) p.

Definition Begin : IX P Tx := fun s =>
  let t := ix_t s in
  let v := u64 (t_txCounter t + 1) in
  (Ok (MkTx v false), MkIx (MkBTree (t_collID t) (t_unique t) (t_bodyLen t) (t_maxKey t) (t_root t) v) (ix_p s)).

Definition BeginReadOnly : IX P Tx := fun s => (Ok (MkTx (t_txCounter (ix_t s)) true), s).

Definition Tx_IsReadOnly (x : Tx) : bool := x_readOnly x.

Definition Tx_Commit (x : Tx) : IX P unit := fun s =>
  if x_readOnly x then (Ok tt, s)
  else let '(r, p') := Commit (ix_p s) in (match r with inl e => Err (IxPage e) | inr _ => Ok tt end, MkIx (ix_t s) p').

Definition Tx_Rollback (x : Tx) : res ixErr unit := if x_readOnly x then Ok tt else Err ErrRollbackUnsupported.

(** t.root = root; t.onRoot(root) *)
Definition newRoot (r : Z) : IX P unit := fun s =>
  (Ok tt, MkIx (set_root r (ix_t s)) (onRoot r (ix_p s))).

(** ** Descent *)

(** The child to follow: the last entry whose separator is not above the key,
    scanning from the second entry until one is. *)
Fixpoint child_from (i : nat) (idx : nat) (rest : list intEntry) (key : bytes) : nat :=
  match rest with
  | [] => idx
  | e :: rest' => if bleb e.1 key then child_from (S i) i rest' key else idx
  end.

Definition child_index (ents : list intEntry) (key : bytes) : nat := child_from 1 0 (drop 1 ents) key.

Fixpoint descend_loop (n : nat) (pno : Z) (path : list Z) (key : bytes) : IX P (Z * list Z) :=
  match n with
  | O => ifail OutOfFuel
  | S n' =>
      do! ty := pageType pno in
      if ty =? PageBTreeLeaf then iret (pno, path)
      else
        do! ents := loadInterior pno in
        do! e := ilift (or_panic (ents !! child_index ents key)) in
        descend_loop n' e.2 (path ++ [pno]) key
  end.

Definition descend (key : bytes) : IX P (Z * list Z) :=
  do! t := iget in descend_loop fuel (t_root t) [] key.

(** ** Insertion *)

(** Insertion of x before position pos. *)
Definition insert_at {A} (pos : nat) (x : A) (l : list A) : list A := take pos l ++ x :: drop pos l.

(** path, with the deepest page first. *)
Fixpoint insertIntoParent (rpath : list Z) (leftChild : Z) (sep : bytes) (rightChild : Z) : IX P unit :=
  match rpath with
  | [] =>
      do! root := newInterior [([], leftChild); (sep, rightChild)] in
      newRoot root
  | parent :: rpath' =>
      do! ents := loadInterior parent in
      let pos := sort_Search (length ents) (fun i => negb (bleb (nth i ents ([], 0)).1 sep)) in
      let ents' := insert_at pos (sep, rightChild) ents in
      do! t := iget in
      if interiorFits t ents' then writeInterior parent ents'
      else
        let mid := (length ents' / 2)%nat in
        let promote := (nth mid ents' ([], 0)).1 in
        let left := take mid ents' in
        let right := match drop mid ents' with [] => [] | e :: es => ([], e.2) :: es end in
        do! rPno := newInterior right in
        do! _ := writeInterior parent left in
        insertIntoParent rpath' parent promote rPno
  end.

Definition splitLeaf (leafPno : Z) (keys : list bytes) (oldRightSib : Z) (path : list Z) : IX P unit :=
  let mid := (length keys / 2)%nat in
  let left := take mid keys in
  let right := drop mid keys in
  do! sep := ilift (or_panic (right !! 0%nat)) in
  do! rPno := newLeaf right oldRightSib in
  do! _ := writeLeaf leafPno left rPno in
  insertIntoParent (rev path) leafPno sep rPno.

(** ** Positions in the leaf chain *)

Record pos := MkPos { p_leaf : Z; p_keys : list bytes; p_idx : nat; p_rightSib : Z; p_done : bool }.

(** The first index whose key is not below search. *)
Fixpoint first_ge (keys : list bytes) (search : bytes) : nat :=
  match keys with
  | [] => 0%nat
  | k :: ks => if bltb k search then S (first_ge ks search) else 0%nat
  end.

Fixpoint seek_loop (n : nat) (leaf : Z) (search : bytes) : IX P pos :=
  match n with
  | O => ifail OutOfFuel
  | S n' =>
      do! '(keys, rightSib) := loadLeaf leaf in
      let idx := first_ge keys search in
      if (idx <? length keys)%nat then iret (MkPos leaf keys idx rightSib false)
      else if rightSib =? NullPage then iret (MkPos 0 [] 0 0 true)
      else seek_loop n' rightSib search
  end.

Definition seek (search : bytes) : IX P pos :=
  do! '(leaf, _) := descend search in seek_loop fuel leaf search.

Definition zeroRID : RID := MkRID 0 0.

(** IxRes: the RID, or storage.ErrNotFound as an error. *)
Definition getLocked (key : bytes) : IX P RID :=
  do! t := iget in
  if t_root t =? NullPage then ifail ErrNotFound
  else
    do! p := seek (treeKey key zeroRID) in
    if p_done p then ifail ErrNotFound
    else
      do! k := ilift (or_panic (p_keys p !! p_idx p)) in
      do! f := ilift (fieldOf k) in
      if bool_decide (f = key) then ilift (ridFromSuffix k) else ifail ErrNotFound.

Definition Get (key : bytes) : IX P RID := getLocked key.

(** The outcome of getLocked as the pair Put looks at. *)
Definition lookup_opt (key : bytes) : IX P (option RID) := fun s =>
  match getLocked key s with
  | (Ok r, s') => (Ok (Some r), s')
  | (Err _, s') => (Ok None, s')
  | (Panic, s') => (Panic, s')
  end.

Definition key_pos (keys : list bytes) (full : bytes) : nat :=
  sort_Search (length keys) (fun i => negb (bltb (nth i keys []) full)).

Definition Put_insert (full : bytes) : IX P unit :=
  do! '(leafPno, path) := descend full in
  do! '(keys, rightSib) := loadLeaf leafPno in
  let pos := key_pos keys full in
  if bool_decide (keys !! pos = Some full) then iret tt
  else
    let keys' := insert_at pos full keys in
    do! t := iget in
    if leafFits t keys' then writeLeaf leafPno keys' rightSib
    else splitLeaf leafPno keys' rightSib path.

Definition Put (txn : Tx) (key : bytes) (rid : RID) : IX P unit :=
  if x_readOnly txn then ifail ErrReadOnly
  else
    let full := treeKey key rid in
    do! t := iget in
    if blen full + slotDirEntry >? t_maxKey t then ifail ErrKeyTooLarge
    else if t_root t =? NullPage then
      do! root := newLeaf [full] NullPage in
      newRoot root
    else if t_unique t then
      do! existing := lookup_opt key in
      match existing with
      | Some r => if bool_decide (r = rid) then iret tt else ifail ErrDuplicateKey
      | None => Put_insert full
      end
    else Put_insert full.

Definition Delete (txn : Tx) (key : bytes) (rid : RID) : IX P unit :=
  if x_readOnly txn then ifail ErrReadOnly
  else
    do! t := iget in
    if t_root t =? NullPage then ifail ErrNotFound
    else
      let full := treeKey key rid in
      do! '(leafPno, _) := descend full in
      do! '(keys, rightSib) := loadLeaf leafPno in
      let pos := key_pos keys full in
      if bool_decide (keys !! pos = Some full) then writeLeaf leafPno (take pos keys ++ drop (S pos) keys) rightSib
      else ifail ErrNotFound.

(** ** Cursors *)

Record cursor := MkCursor {
  c_hi : option bytes;
  c_includeHi : bool;
  c_leaf : Z;
  c_keys : list bytes;
  c_idx : nat;
  c_rightSib : Z;
  c_primed : bool;
  c_done : bool;
  c_err : option ixErr;
  c_curKey : bytes
}.

Record ScanOpts := MkScanOpts { o_Reverse : bool; o_IncludeLo : bool; o_IncludeHi : bool }.

Definition at_leaf (leaf : Z) (keys : list bytes) (idx : nat) (rs : Z) (c : cursor) : cursor :=
  MkCursor (c_hi c) (c_includeHi c) leaf keys idx rs (c_primed c) (c_done c) (c_err c) (c_curKey c).
Definition with_idx (idx : nat) (c : cursor) : cursor := at_leaf (c_leaf c) (c_keys c) idx (c_rightSib c) c.
Definition with_done (c : cursor) : cursor :=
  MkCursor (c_hi c) (c_includeHi c) (c_leaf c) (c_keys c) (c_idx c) (c_rightSib c) (c_primed c) true (c_err c) (c_curKey c).
Definition with_primed (b : bool) (c : cursor) : cursor :=
  MkCursor (c_hi c) (c_includeHi c) (c_leaf c) (c_keys c) (c_idx c) (c_rightSib c) b (c_done c) (c_err c) (c_curKey c).
Definition with_err (e : ixErr) (c : cursor) : cursor :=
  MkCursor (c_hi c) (c_includeHi c) (c_leaf c) (c_keys c) (c_idx c) (c_rightSib c) (c_primed c) (c_done c) (Some e) (c_curKey c).
Definition with_cur (k : bytes) (c : cursor) : cursor :=
  MkCursor (c_hi c) (c_includeHi c) (c_leaf c) (c_keys c) (c_idx c) (c_rightSib c) (c_primed c) (c_done c) (c_err c) k.

(** The loop of step, after idx++. An error of loadLeaf ends up in the cursor. *)
Fixpoint step_loop (n : nat) (c : cursor) : IX P (bool * cursor) :=
  match n with
  | O => ifail OutOfFuel
  | S n' =>
      if (c_idx c <? length (c_keys c))%nat then iret (true, c)
      else if c_rightSib c =? NullPage then iret (false, c)
      else fun s =>
        match loadLeaf (c_rightSib c) s with
        | (Ok (keys, rs), s') => step_loop n' (at_leaf (c_rightSib c) keys 0 rs c) s'
        | (Err e, s') => (Ok (false, with_err e c), s')
        | (Panic, s') => (Panic, s')
        end
  end.

Definition step (c : cursor) : IX P (bool * cursor) := step_loop fuel (with_idx (S (c_idx c)) c).

(** The loop of Scan that skips the entries equal to an exclusive lower bound. *)
Fixpoint skip_lo (n : nat) (lo : bytes) (c : cursor) : IX P cursor :=
  match n with
  | O => ifail OutOfFuel
  | S n' =>
      if c_done c then iret c
      else
        do! k := ilift (or_panic (c_keys c !! c_idx c)) in
        do! f := ilift (fieldOf k) in
        if bool_decide (f = lo) then
          do! '(ok, c') := step c in
          skip_lo n' lo (if ok : bool then c' else with_done c')
        else iret c
  end.

Definition Scan (lo hi : option bytes) (opts : ScanOpts) : IX P cursor :=
  if o_Reverse opts then ifail ErrReverseUnsupported
  else
    do! t := iget in
    let c := MkCursor hi (o_IncludeHi opts) 0 [] 0 0 false false None [] in
    if t_root t =? NullPage then iret (with_done c)
    else
      let search := match lo with None => [] | Some l => treeKey l zeroRID end in
      do! p := seek search in
      if p_done p then iret (with_done c)
      else
        let c1 := at_leaf (p_leaf p) (p_keys p) (p_idx p) (p_rightSib p) c in
        do! c2 := (match lo with
                   | Some l => if negb (o_IncludeLo opts) then skip_lo fuel l c1 else iret c1
                   | None => iret c1
                   end) in
        iret (with_primed (negb (c_done c2)) c2).

(** Next: whether there is an entry, and the cursor on it. *)
Definition Next (c : cursor) : IX P (bool * cursor) :=
  if bool_decide (c_err c <> None) || c_done c then iret (false, c)
  else
    do! '(ok, c1) := (if c_primed c then iret (true, with_primed false c) else step c) in
    if negb ok then iret (false, with_done c1)
    else if (length (c_keys c1) <=? c_idx c1)%nat then iret (false, with_done c1)
    else
      do! k := ilift (or_panic (c_keys c1 !! c_idx c1)) in
      match c_hi c1 with
      | None => iret (true, with_cur k c1)
      | Some hi =>
          do! f := ilift (fieldOf k) in
          let cmp := bcmp f hi in
          let past := if c_includeHi c1 then match cmp with Gt => true | _ => false end
                      else match cmp with Lt => false | _ => true end in
          if past then iret (false, with_done c1) else iret (true, with_cur k c1)
      end.

(** for c.Next() { … c.curKey … }: the keys a cursor still yields. *)
Fixpoint drain (n : nat) (c : cursor) : IX P (list bytes * cursor) :=
  match n with
  | O => ifail OutOfFuel
  | S n' =>
      do! '(ok, c1) := Next c in
      if ok : bool then
        do! '(ks, c2) := drain n' c1 in
        iret (c_curKey c1 :: ks, c2)
      else iret ([], c1)
  end.

Definition cursor_Key (c : cursor) : res ixErr bytes := fieldOf (c_curKey c).
Definition cursor_Err (c : cursor) : option ixErr := c_err c.
Definition cursor_Close (c : cursor) : cursor := with_done c.
Definition cursor_RID (c : cursor) : res ixErr RID := ridFromSuffix (c_curKey c).
End btree.
