(* ===== verification/BTreeInv.v ===== *)
(** * The shape of a stored B-tree

    What the pages of a tree look like: levels of nodes, each with the lowest key
    it covers, every level's entries making up the level below, and the leaves in
    a chain. With the specifications of the two methods that walk and change the
    levels, descend and insertIntoParent. *)

From S2P Require Import Prelude Rid Checksum Page Slotted PageStore KeyEnc BNode BTree.
#[local] Open Scope ix_scope.

(** ** Levels *)

(** The nodes of a level, left to right: the low key of each and its page. *)
Abbreviation level := (list (bytes * Z)).

Definition next_low (l : level) (hi : option bytes) : option bytes :=
  match l with [] => hi | e :: _ => Some e.1 end.

Definition below (k : bytes) (hi : option bytes) : Prop :=
  match hi with None => True | Some h => blt k h end.

Definition low_lt (a b : bytes * Z) : Prop := blt a.1 b.1.

(** Page p is the one of level l that covers k. *)
Definition at_key (l : level) (k : bytes) (p : Z) : Prop :=
  exists l1 low l2, l = l1 ++ (low, p) :: l2 /\ ble low k /\ below k (next_low l2 None).

(** The entries of the interior nodes of u, with each node's low key for its
    empty first separator, are the nodes of l. *)
Inductive covers (N : gmap Z node) : level -> level -> Prop :=
| covers_nil : covers N [] []
| covers_cons low p c es u l :
    N !! p = Some (NInt (([], c) :: es)) -> covers N u l -> covers N ((low, p) :: u) ((low, c) :: es ++ l).

(** The leaves of l, chained from page a to page b, hold K and stay below hi. *)
Inductive leaves (N : gmap Z node) : level -> Z -> Z -> option bytes -> list bytes -> Prop :=
| leaves_nil b hi : leaves N [] b b hi []
| leaves_cons low p ks rs l b hi K :
    N !! p = Some (NLeaf ks rs) -> Forall (fun k => ble low k /\ below k (next_low l hi)) ks ->
    leaves N l rs b hi K -> leaves N ((low, p) :: l) p b hi (ks ++ K).

(** The levels above l, up to the root. *)
Fixpoint tower (N : gmap Z node) (l : level) (ups : list level) (root : Z) : Prop :=
  match ups with
  | [] => l = [([], root)]
  | u :: ups' => covers N u l /\ tower N u ups' root
  end.

Abbreviation pages := (map (@snd bytes Z)).

Fixpoint upages (ups : list level) : list Z :=
  match ups with [] => [] | u :: ups' => pages u ++ upages ups' end.

(** ** Lists *)

Lemma sorted_app_inv {A} (R : A -> A -> Prop) a x b :
  StronglySorted R (a ++ x :: b) -> Forall (fun y => R y x) a /\ Forall (R x) b /\ StronglySorted R a /\ StronglySorted R b.
Proof.
  induction a as [|y a IH]; cbn [app]; intros H.
  - inversion H; subst. split_and!; try done; constructor.
  - inversion H as [|? ? Hs Hf]; subst. apply Forall_app in Hf as [Hf1 Hf2]. inversion Hf2 as [|? ? Hx1 Hx2]; subst.
    destruct (IH Hs) as (H1 & H2 & H3 & H4). split_and!; try done; by constructor.
Qed.

Lemma sorted_app_intro {A} (R : A -> A -> Prop) a b :
  StronglySorted R a -> StronglySorted R b -> Forall (fun x => Forall (R x) b) a -> StronglySorted R (a ++ b).
Proof.
  induction 1 as [|x a Hs IH Hf]; intros Hb Hab; cbn [app]; [done|]. inversion Hab; subst.
  constructor; [by apply IH|]. by apply Forall_app.
Qed.

Lemma sorted_app_l {A} (R : A -> A -> Prop) a b : StronglySorted R (a ++ b) -> StronglySorted R a.
Proof.
  induction a as [|x a IH]; cbn [app]; [constructor|]. intros H. inversion H as [|? ? Hs Hf]; subst.
  apply Forall_app in Hf as [Hf _]. constructor; auto.
Qed.

Lemma sorted_app_r {A} (R : A -> A -> Prop) a b : StronglySorted R (a ++ b) -> StronglySorted R b.
Proof. induction a as [|x a IH]; cbn [app]; [done|]. intros H. inversion H; auto. Qed.

Lemma sorted_app_cross {A} (R : A -> A -> Prop) a b :
  StronglySorted R (a ++ b) -> Forall (fun x => Forall (R x) b) a.
Proof.
  induction a as [|x a IH]; cbn [app]; intros H; [constructor|]. inversion H as [|? ? Hs Hf]; subst.
  apply Forall_app in Hf as [_ Hf]. constructor; auto.
Qed.

(** A list splits in one way where a predicate stops holding. *)
Lemma split_unique {A} (Q : A -> Prop) a : forall b a' b',
  a ++ b = a' ++ b' -> Forall Q a -> Forall Q a' ->
  (forall x, head b = Some x -> ~ Q x) -> (forall x, head b' = Some x -> ~ Q x) -> a = a' /\ b = b'.
Proof.
  induction a as [|x a IH]; intros b a' b' E Ha Ha' Hb Hb'; destruct a' as [|x' a']; cbn [app] in E.
  - by subst.
  - subst b. inversion Ha'; subst. by destruct (Hb x').
  - subst b'. inversion Ha; subst. by destruct (Hb' x).
  - injection E as -> E. inversion Ha; inversion Ha'; subst. by destruct (IH b a' b' E) as [-> ->].
Qed.

Lemma split_at {A} (Q : A -> Prop) {dec : forall x, Decision (Q x)} (l : list A) :
  exists a b, l = a ++ b /\ Forall Q a /\ (forall x, head b = Some x -> ~ Q x).
Proof.
  induction l as [|x l (a & b & -> & H1 & H2)]; [by exists [], []|]. destruct (decide (Q x)) as [Hx|Hx].
  - exists (x :: a), b. split_and!; [done|by constructor|done].
  - exists [], (x :: a ++ b). split_and!; [done|constructor|]. intros y [= <-]. done.
Qed.

Lemma snoc_cons {A} (x : A) l : exists l' y, x :: l = l' ++ [y].
Proof. destruct (exists_last (l := x :: l)) as (l' & y & E); [done|]. eauto. Qed.

(** ** Order *)

Lemma below_next l k hi : below k (next_low l hi) -> StronglySorted low_lt l ->
  Forall (fun e => blt k e.1) l.
Proof.
  destruct l as [|e l]; [constructor|]. cbn. intros H Hs. inversion Hs as [|? ? _ Hf]; subst. constructor; [done|].
  eapply Forall_impl; [exact Hf|]. intros x Hx. by eapply blt_trans.
Qed.

Lemma not_ble a b : ~ ble a b <-> blt b a.
Proof. rewrite ble_not_lt. split; [|auto]. intros H. destruct (decide (blt b a)); [done|by destruct H]. Qed.

Lemma below_mono a b hi : ble a b -> below b hi -> below a hi.
Proof. destruct hi; cbn; [apply ble_blt_trans|done]. Qed.

(** ** covers and leaves: splitting, joining, frames *)

Lemma covers_app N u1 l1 u2 l2 : covers N u1 l1 -> covers N u2 l2 -> covers N (u1 ++ u2) (l1 ++ l2).
Proof.
  induction 1 as [|low p c es u l Hp Hc IH]; intros H2; cbn [app]; [done|]. rewrite <- app_assoc. constructor; auto.
Qed.

Lemma covers_app_inv N u1 : forall u2 l, covers N (u1 ++ u2) l -> exists l1 l2, l = l1 ++ l2 /\ covers N u1 l1 /\ covers N u2 l2.
Proof.
  induction u1 as [|e u1 IH]; intros u2 l H; cbn [app] in H.
  - exists [], l. split_and!; [done|constructor|done].
  - inversion H as [|low p c es u l' Hp Hc]; subst. destruct (IH _ _ Hc) as (l1 & l2 & -> & H1 & H2).
    exists ((low, c) :: es ++ l1), l2. split_and!; [by cbn [app]; rewrite app_assoc|by constructor|done].
Qed.

Lemma covers_split N u1 low p u2 l :
  covers N (u1 ++ (low, p) :: u2) l ->
  exists L1 c es L2, N !! p = Some (NInt (([], c) :: es)) /\ l = L1 ++ (low, c) :: es ++ L2 /\
    covers N u1 L1 /\ covers N u2 L2.
Proof.
  intros H. apply covers_app_inv in H as (L1 & R & -> & H1 & H2). inversion H2; subst. eauto 10.
Qed.

Lemma covers_next N u l hi : covers N u l -> next_low l hi = next_low u hi.
Proof. by destruct 1. Qed.

Lemma covers_Forall (Q : bytes -> Prop) N u l : covers N u l -> Forall (fun e => Q e.1) l -> Forall (fun e => Q e.1) u.
Proof.
  induction 1 as [|low p c es u l Hp Hc IH]; intros H; constructor.
  - by inversion H.
  - apply IH. inversion H as [|? ? _ H']; subst. by apply Forall_app in H' as [_ H'].
Qed.

Lemma covers_sorted N u l : covers N u l -> StronglySorted low_lt l -> StronglySorted low_lt u.
Proof.
  induction 1 as [|low p c es u l Hp Hc IH]; intros H; constructor.
  - apply IH. inversion H; subst. by eapply sorted_app_r.
  - inversion H as [|? ? _ Hf]; subst. apply Forall_app in Hf as [_ Hf].
    exact (covers_Forall (blt low) _ _ _ Hc Hf).
Qed.

Lemma covers_frame N N' u l : covers N u l -> (forall p, p ∈ pages u -> N' !! p = N !! p) -> covers N' u l.
Proof.
  induction 1 as [|low p c es u l Hp Hc IH]; intros Hf; constructor.
  - rewrite Hf; [done|]. apply list_elem_of_In. by left.
  - apply IH. intros q Hq. apply Hf. by right.
Qed.

Lemma covers_dom N u l : covers N u l -> forall p, p ∈ pages u -> exists ents, N !! p = Some (NInt ents).
Proof.
  induction 1 as [|low p c es u l Hp Hc IH]; intros q Hq; [by apply elem_of_nil in Hq|].
  apply elem_of_cons in Hq as [->|Hq]; [by eauto|auto].
Qed.

Lemma tower_frame N N' ups : forall l root, tower N l ups root -> (forall p, p ∈ upages ups -> N' !! p = N !! p) -> tower N' l ups root.
Proof.
  induction ups as [|u ups IH]; intros l root; cbn [tower upages]; [done|]. intros [Hc Ht] Hf. split.
  - eapply covers_frame; [exact Hc|]. intros p Hp. apply Hf, elem_of_app. by left.
  - apply IH; [done|]. intros p Hp. apply Hf, elem_of_app. by right.
Qed.

Lemma tower_dom N ups : forall l root, tower N l ups root -> forall p, p ∈ upages ups -> exists ents, N !! p = Some (NInt ents).
Proof.
  induction ups as [|u ups IH]; intros l root; cbn [tower upages].
  - intros _ p Hp. by apply elem_of_nil in Hp.
  - intros [Hc Ht] p Hp. apply elem_of_app in Hp as [Hp|Hp]; [by eapply covers_dom|by eapply IH].
Qed.

Lemma leaves_app N l1 a b l2 c hi K1 K2 :
  leaves N l1 a b (next_low l2 hi) K1 -> leaves N l2 b c hi K2 -> leaves N (l1 ++ l2) a c hi (K1 ++ K2).
Proof.
  intros H1. remember (next_low l2 hi) as h eqn:Eh. revert Eh. induction H1 as [b' h|low p ks rs l b' h K Hp Hk Hl IH]; intros -> H2; [done|].
  cbn [app]. rewrite <- app_assoc. econstructor; [exact Hp| |by apply IH]. by destruct l.
Qed.

Lemma leaves_app_inv N l1 : forall a l2 c hi K, leaves N (l1 ++ l2) a c hi K ->
  exists b K1 K2, K = K1 ++ K2 /\ leaves N l1 a b (next_low l2 hi) K1 /\ leaves N l2 b c hi K2.
Proof.
  induction l1 as [|e l1 IH]; intros a l2 c hi K H; cbn [app] in H.
  - exists a, [], K. split_and!; [done|constructor|done].
  - inversion H as [|low p ks rs l b' h K' Hp Hk Hl]; subst. destruct (IH _ _ _ _ _ Hl) as (b & K1 & K2 & -> & H1 & H2).
    exists b, (ks ++ K1), K2. split_and!; [by rewrite app_assoc| |done]. econstructor; [exact Hp| |exact H1]. by destruct l1.
Qed.

Lemma leaves_frame N N' l a b hi K : leaves N l a b hi K -> (forall p, p ∈ pages l -> N' !! p = N !! p) -> leaves N' l a b hi K.
Proof.
  induction 1 as [b h|low p ks rs l b h K Hp Hk Hl IH]; intros Hf; [constructor|]. econstructor; [|exact Hk|].
  - rewrite Hf; [exact Hp|]. by left.
  - apply IH. intros q Hq. apply Hf. by right.
Qed.

Lemma leaves_dom N l a b hi K : leaves N l a b hi K -> forall p, p ∈ pages l -> exists ks rs, N !! p = Some (NLeaf ks rs).
Proof.
  induction 1 as [b h|low p ks rs l b h K Hp Hk Hl IH]; intros q Hq; [by apply elem_of_nil in Hq|].
  apply elem_of_cons in Hq as [->|Hq]; [by eauto|auto].
Qed.

Lemma leaves_below N l a b hi K : leaves N l a b hi K -> StronglySorted low_lt l -> Forall (fun e => below e.1 hi) l ->
  Forall (fun k => below k hi) K.
Proof.
  induction 1 as [b h|low p ks rs l b h K Hp Hk Hl IH]; intros Hs Hb; [constructor|].
  inversion Hs as [|? ? Hs' Hf]; subst. inversion Hb as [|? ? Hlow Hb']; subst. apply Forall_app. split; [|auto].
  eapply Forall_impl; [exact Hk|]. intros k [_ Hk']. destruct l as [|e l]; [done|]. cbn in Hk'.
  inversion Hb' as [|? ? He _]; subst. eapply below_mono; [by apply blt_ble|exact He].
Qed.

Lemma leaves_above N l a b hi K lo : leaves N l a b hi K -> Forall (fun e => ble lo e.1) l -> Forall (ble lo) K.
Proof.
  induction 1 as [b h|low p ks rs l b h K Hp Hk Hl IH]; intros Hb; [constructor|].
  inversion Hb as [|? ? Hlow Hb']; subst. apply Forall_app. split; [|auto].
  eapply Forall_impl; [exact Hk|]. intros k [Hk' _]. by eapply ble_trans.
Qed.

(** ** Sizes *)

(** A node within a page of body length B, its keys of 6 to m bytes (a tree key
    ends in the six bytes of a RID), its separators of at most m. *)
Definition node_fit (m B : Z) (nd : node) : Prop :=
  node_total nd <= B /\
  match nd with
  | NLeaf ks _ => Forall (fun k => 6 <= blen k <= m) ks
  | NInt ents => Forall (fun e : intEntry => blen e.1 <= m) ents
  end.

Definition nodes_fit (m B : Z) (N : gmap Z node) : Prop := forall n nd, N !! n = Some nd -> node_fit m B nd.

Lemma nodes_fit_insert m B N n nd : nodes_fit m B N -> node_fit m B nd -> nodes_fit m B (<[n := nd]> N).
Proof.
  intros HN Hn n' nd'. destruct (decide (n' = n)) as [->|Hne].
  - rewrite lookup_insert_eq. by intros [= <-].
  - rewrite lookup_insert_ne by done. apply HN.
Qed.

(** Keys this small can always be split by count. *)
Definition small (m B : Z) : Prop := 0 <= m /\ (m + 8) * (m + 16) <= 8 * B.

Lemma leaf_total_bounds a S cs : Forall (fun c => a <= blen c + slotDirEntry <= S) cs ->
  a * Z.of_nat (length cs) <= leaf_total cs <= S * Z.of_nat (length cs).
Proof.
  induction 1 as [|c cs Hc Hcs IH]; [cbn; lia|]. cbn [leaf_total length]. rewrite Nat2Z.inj_succ. lia.
Qed.

(** Halving by count a node that has outgrown its page by one cell. *)
Lemma half_fits a S B cs :
  0 < a <= S -> Forall (fun c => a <= blen c + slotDirEntry <= S) cs -> leaf_total cs <= B + S -> S * (S + a) <= a * B ->
  let h := (length cs / 2)%nat in leaf_total (take h cs) <= B /\ leaf_total (drop h cs) <= B.
Proof.
  intros Ha Hcs HB HS h. pose proof (take_drop h cs) as E.
  assert (Hh : (h <= length cs /\ length cs - h <= h + 1 /\ 2 * h <= length cs)%nat).
  { unfold h. pose proof (Nat.div_mod_eq (length cs) 2). pose proof (Nat.mod_upper_bound (length cs) 2). lia. }
  assert (H1 : Forall (fun c => a <= blen c + slotDirEntry <= S) (take h cs)) by by apply Forall_take.
  assert (H2 : Forall (fun c => a <= blen c + slotDirEntry <= S) (drop h cs)) by by apply Forall_drop.
  apply leaf_total_bounds in H1, H2. rewrite length_take in H1. rewrite length_drop in H2.
  assert (Ht : leaf_total (take h cs) + leaf_total (drop h cs) = leaf_total cs) by by rewrite <- cells_total_app, E.
  assert (Hk : Z.of_nat (h `min` length cs) = Z.of_nat h) by lia. rewrite Hk in H1.
  assert (Hk' : Z.of_nat h <= Z.of_nat (length cs - h) <= Z.of_nat h + 1) by lia.
  set (x := Z.of_nat h) in *. set (y := Z.of_nat (length cs - h)) in *.
  assert (Hx : 0 <= x) by lia. clearbody x y.
  set (tx := leaf_total (take h cs)) in *. set (ty := leaf_total (drop h cs)) in *. clearbody tx ty. clear Hk Hh E h Hcs.
  split.
  - destruct (Z.le_gt_cases (S * x) B); [lia|]. assert (a * B < a * (S * x)) by nia.
    assert (S * (S + a) < S * (a * x)) by lia.
    assert (S + a < a * x) by (apply (Z.mul_lt_mono_pos_l S); lia). nia.
  - destruct (Z.le_gt_cases (S * y) B); [lia|]. assert (a * B < a * (S * y)) by nia.
    assert (S * (S + a) < S * (a * y)) by lia.
    assert (S + a < a * y) by (apply (Z.mul_lt_mono_pos_l S); lia). nia.
Qed.

Lemma outgrown_length a S B cs :
  0 < a <= S -> Forall (fun c => a <= blen c + slotDirEntry <= S) cs -> B < leaf_total cs -> S * (S + a) <= a * B -> 0 <= B ->
  (2 <= length cs)%nat.
Proof.
  intros Ha Hcs HB HS HB0. apply leaf_total_bounds in Hcs.
  destruct (Nat.le_gt_cases 2 (length cs)) as [H|H]; [done|]. exfalso.
  assert (Hl : 0 <= Z.of_nat (length cs) <= 1) by lia. set (n := Z.of_nat (length cs)) in *. clearbody n.
  assert (S <= B \/ B < S) as [|] by lia; nia.
Qed.

(** ** Descent *)

Lemma child_from_split key ea : forall eb i idx,
  Forall (fun e : intEntry => ble e.1 key) ea -> (forall e, head eb = Some e -> ~ ble e.1 key) ->
  child_from i idx (ea ++ eb) key = match length ea with O => idx | S n => (i + n)%nat end.
Proof.
  induction ea as [|e ea IH]; intros eb i idx Ha Hb; cbn [app child_from length].
  - destruct eb as [|e eb]; [done|]. cbn [child_from]. specialize (Hb e eq_refl).
    destruct (bleb e.1 key) eqn:E; [|done]. by apply bleb_ble in E.
  - inversion Ha as [|? ? H1 H2]; subst. rewrite (proj2 (bleb_ble _ _)) by done. rewrite IH by done.
    destruct (length ea); lia.
Qed.

Lemma child_index_split c ea eb key :
  Forall (fun e : intEntry => ble e.1 key) ea -> (forall e, head eb = Some e -> ~ ble e.1 key) ->
  child_index (([], c) :: ea ++ eb) key = length ea.
Proof.
  intros Ha Hb. unfold child_index. cbn [drop]. rewrite drop_0, child_from_split by done. by destruct (length ea).
Qed.

(** The entries of a node around key k: which child covers k, and how the level
    below splits there. *)
Lemma covers_at N u1 low p u2 l k :
  covers N (u1 ++ (low, p) :: u2) l -> StronglySorted low_lt l -> ble low k -> below k (next_low u2 None) ->
  exists L1 c ea eb L2, N !! p = Some (NInt (([], c) :: ea ++ eb)) /\ l = (L1 ++ (low, c) :: ea) ++ (eb ++ L2) /\
    covers N u1 L1 /\ covers N u2 L2 /\ Forall (fun e => ble e.1 k) ea /\ (forall e, head eb = Some e -> ~ ble e.1 k) /\
    Forall (fun e => ble e.1 k) (L1 ++ (low, c) :: ea) /\ below k (next_low (eb ++ L2) None).
Proof.
  intros Hc Hs Hlow Hk. destruct (covers_split _ _ _ _ _ _ Hc) as (L1 & c & es & L2 & Hp & -> & H1 & H2).
  destruct (split_at (fun e : bytes * Z => ble e.1 k) es) as (ea & eb & -> & Hea & Heb).
  exists L1, c, ea, eb, L2. split_and!; try done.
  - by rewrite <- !app_assoc.
  - apply Forall_app. split; [|by constructor]. apply sorted_app_inv in Hs as (Hf & _).
    eapply Forall_impl; [exact Hf|]. intros e He. exact (ble_trans _ _ _ (blt_ble _ _ He) Hlow).
  - destruct eb as [|e eb]; cbn.
    + by rewrite (covers_next _ _ _ _ H2).
    + by apply not_ble, Heb.
Qed.

(** ** One level of an insertion *)

Lemma sorted_insert l1 low q l2 sep r :
  StronglySorted low_lt (l1 ++ (low, q) :: l2) -> blt low sep -> below sep (next_low l2 None) ->
  StronglySorted low_lt (l1 ++ (low, q) :: (sep, r) :: l2).
Proof.
  intros Hs Hlow Hsep. pose proof (sorted_app_inv _ _ _ _ Hs) as (H1 & H2 & H3 & H4).
  assert (Hl2 : Forall (low_lt (sep, r)) l2).
  { by apply (below_next l2 sep None). }
  apply sorted_app_intro; [done| |].
  - constructor; [by constructor|]. constructor; [done|]. done.
  - eapply Forall_impl; [exact H1|]. intros x Hx. constructor; [done|]. constructor; [exact (blt_trans _ _ _ Hx Hlow)|].
    eapply Forall_impl; [exact H2|]. intros y Hy. exact (blt_trans _ _ _ Hx Hy).
Qed.

(** Where a key falls in a level and in the one above are the same place. *)
Lemma covers_insert N u1 lowp p u2 l1 low left l2 k sep :
  let l := l1 ++ (low, left) :: l2 in
  covers N (u1 ++ (lowp, p) :: u2) l -> StronglySorted low_lt l ->
  ble lowp k -> below k (next_low u2 None) -> ble low k -> below k (next_low l2 None) ->
  blt low sep -> below sep (next_low l2 None) ->
  exists L1 c ea eb L2, N !! p = Some (NInt (([], c) :: ea ++ eb)) /\
    l1 ++ [(low, left)] = L1 ++ (lowp, c) :: ea /\ l2 = eb ++ L2 /\ covers N u1 L1 /\ covers N u2 L2 /\
    Forall (fun e => ble e.1 sep) ((lowp, c) :: ea) /\ Forall (fun e => blt sep e.1) (eb ++ L2).
Proof.
  intros l Hc Hs Hlp Hkp Hlow Hk Hsep Hsep'.
  destruct (covers_at _ _ _ _ _ _ _ Hc Hs Hlp Hkp) as (L1 & c & ea & eb & L2 & Hp & El & H1 & H2 & Ha & Hb & HL & HR).
  pose proof (sorted_app_inv _ _ _ _ Hs) as (S1 & S2 & S3 & S4).
  assert (E : l1 ++ [(low, left)] = L1 ++ (lowp, c) :: ea /\ l2 = eb ++ L2).
  { apply (split_unique (fun e => ble e.1 k)).
    - rewrite <- app_assoc. exact El.
    - apply Forall_app. split; [|by apply Forall_singleton].
      eapply Forall_impl; [exact S1|]. intros e He. exact (ble_trans _ _ _ (blt_ble _ _ He) Hlow).
    - done.
    - intros e He. apply not_ble. destruct l2; [done|]. by injection He as <-.
    - intros e He. apply not_ble. destruct (eb ++ L2); [done|]. by injection He as <-. }
  destruct E as [E ->]. exists L1, c, ea, eb, L2. split_and!; try done.
  - assert (Hf : Forall (fun e => ble e.1 sep) (l1 ++ [(low, left)])).
    { apply Forall_app. split; [|apply Forall_singleton; by apply blt_ble].
      eapply Forall_impl; [exact S1|]. intros e He. exact (blt_ble _ _ (blt_trans _ _ _ He Hsep)). }
    rewrite E in Hf. by apply Forall_app in Hf as [_ Hf].
  - by apply (below_next _ sep None).
Qed.

Lemma insert_at_app {A} (x : A) a b : insert_at (length a) x (a ++ b) = a ++ x :: b.
Proof. unfold insert_at. by rewrite take_app_length, drop_app_length. Qed.

Lemma interior_pos (c : Z) ea eb sep lowp :
  Forall (fun e : intEntry => ble e.1 sep) ((lowp, c) :: ea) -> Forall (fun e : intEntry => blt sep e.1) eb ->
  let ents : list intEntry := ([], c) :: ea ++ eb in
  sort_Search (length ents) (fun i => negb (bleb (nth i ents ([], 0)).1 sep)) = S (length ea).
Proof.
  intros Ha Hb ents. inversion Ha as [|? ? _ Ha']; subst.
  refine (sort_Search_app ((([], c) : intEntry) :: ea) eb ([], 0) (fun e => negb (bleb e.1 sep)) _ _).
  - constructor; cbn [fst].
    + rewrite (proj2 (bleb_ble _ _)) by apply ble_nil. done.
    + eapply Forall_impl; [exact Ha'|]. intros e He. cbn beta. by rewrite (proj2 (bleb_ble _ _)) by done.
  - eapply Forall_impl; [exact Hb|]. intros e He. cbn beta. by rewrite (proj2 (bleb_false _ _)) by done.
Qed.

Lemma interior_total_app a b : interior_total (a ++ b) = interior_total a + interior_total b.
Proof. induction a as [|e a IH]; [done|]. cbn [app interior_total]. lia. Qed.

Lemma node_total_NInt ents : node_total (NInt ents) = interior_total ents.
Proof. unfold node_total. cbn [node_cells]. by rewrite interior_total_cells. Qed.

(** The halves of an interior node that has outgrown its page fit pages again. *)
Lemma interior_split m B ents :
  small m B -> 0 <= B -> Forall ent_ok ents -> Forall (fun e : intEntry => blen e.1 <= m) ents -> B < interior_total ents <= B + (m + 8) ->
  let mid := (length ents / 2)%nat in
  exists promote d es, drop mid ents = (promote, d) :: es /\ (0 < mid)%nat /\
    node_ok (NInt (take mid ents)) /\ node_fit m B (NInt (take mid ents)) /\
    node_ok (NInt (([], d) :: es)) /\ node_fit m B (NInt (([], d) :: es)) /\ bytes_ok promote /\ blen promote <= m.
Proof.
  intros [Hm Hsm] HB Hok Hlen Htot mid.
  assert (Hcells : Forall (fun c => 8 <= blen c + slotDirEntry <= m + 8) (map encodeInterior ents)).
  { apply Forall_fmap. eapply Forall_impl; [exact Hlen|]. intros e He. cbn. unfold encodeInterior, blen, slotDirEntry in *.
    rewrite length_app, length_be_bytes. lia. }
  rewrite interior_total_cells in Htot.
  pose proof (outgrown_length 8 (m + 8) B _ ltac:(lia) Hcells ltac:(lia) ltac:(lia) HB) as Hl. rewrite length_map in Hl.
  destruct (half_fits 8 (m + 8) B _ ltac:(lia) Hcells ltac:(lia) ltac:(lia)) as [F1 F2]. rewrite length_map in F1, F2.
  fold mid in F1, F2. rewrite firstn_map, <- interior_total_cells in F1. rewrite skipn_map, <- interior_total_cells in F2.
  assert (Hmid : (0 < mid < length ents)%nat).
  { unfold mid. split; [apply Nat.div_str_pos; lia|apply Nat.div_lt; lia]. }
  pose proof (Forall_drop _ mid _ Hok) as D1. pose proof (Forall_drop _ mid _ Hlen) as D2.
  destruct (drop mid ents) as [|[promote d] es] eqn:Ed.
  { apply (f_equal length) in Ed. rewrite length_drop in Ed. cbn [length] in Ed. lia. }
  exists promote, d, es. inversion D1 as [|? ? [E1 E2] E3]; subst. inversion D2 as [|? ? G1 G2]; subst. cbn [fst snd] in *.
  split_and!; try done; try lia.
  - by apply Forall_take.
  - split; [by rewrite node_total_NInt|by apply Forall_take].
  - constructor; [|done]. split; [constructor|done].
  - split; [|constructor; [change (0 <= m); lia|done]]. rewrite node_total_NInt. cbn [interior_total fst] in F2 |- *.
    unfold blen in *. cbn [length]. lia.
Qed.

Section walk.
Context {P : Type} {ops : PageOps P} {laws : PageLaws P}.

Lemma read_descend_loop N R key ups : readable N R -> forall l root n' s Q E,
  R (ix_p s) -> tower N l ups root -> StronglySorted low_lt l ->
  (forall p path p', R p' -> at_key l key p -> Forall2 (fun u q => at_key u key q) ups (rev path) ->
    wp (descend_loop n' p path key) (MkIx (ix_t s) p') Q E) ->
  (forall e p', pg_fails e -> R p' -> E (IxPage e) (MkIx (ix_t s) p')) ->
  wp (descend_loop (length ups + n') root [] key) s Q E.
Proof.
  intros HR. induction ups as [|u ups IH]; intros l root n' s Q E Hst Ht Hs HQ HE; cbn [tower] in Ht.
  - subst l. destruct s as [t p]. apply HQ; [done| |constructor].
    exists [], [], []. split_and!; [done|apply ble_nil|done].
  - destruct Ht as [Hc Ht]. cbn [length]. rewrite Nat.add_succ_comm.
    eapply IH; [exact Hst|exact Ht|by eapply covers_sorted| |exact HE].
    intros p path p' Hst' (u1 & low & u2 & -> & Hlow & Hk) Hpath.
    destruct (covers_at _ _ _ _ _ _ _ Hc Hs Hlow Hk) as (L1 & c & ea & eb & L2 & Hp & -> & _ & _ & Ha & Hb & Hl & Hn).
    cbn [descend_loop]. apply wp_bind. eapply (read_type N R HR); [exact Hst'|exact Hp| |exact HE].
    intros p'' Hst''. cbn [node_type]. change (PageBTreeInterior =? PageBTreeLeaf) with false. cbv iota.
    apply wp_bind. eapply (read_interior N R HR); [exact Hst''|exact Hp| |exact HE].
    intros p3 Hst3. apply wp_bind. rewrite child_index_split by done.
    destruct (snoc_cons (low, c) ea) as (l' & e' & El).
    assert (He : exists e, ((([], c) :: ea ++ eb) : list intEntry) !! length ea = Some e /\ e.2 = e'.2).
    { assert (Hn' : length l' = length ea).
      { pose proof (f_equal length El) as HL. cbn [length] in HL. rewrite length_app in HL. cbn [length] in HL. lia. }
      destruct l' as [|x l']; cbn [app] in El.
      - injection El as <- ->. exists ([], c). done.
      - injection El as <- ->. exists e'. split; [|done]. rewrite length_app. cbn [length]. rewrite Nat.add_1_r. change (((l' ++ [e']) ++ eb) !! length l' = Some e').
        rewrite lookup_app_l by (rewrite length_app; cbn; lia). by rewrite list_lookup_middle. }
    destruct He as (e & He & He2). eapply (wp_lift _ e); [exact (f_equal or_panic He)|]. rewrite He2.
    eapply HQ; [done| |].
    + destruct e' as [low' q]. cbn [snd] in He2. subst q. exists (L1 ++ l'), low', (eb ++ L2).
      split_and!.
      * rewrite El. by rewrite <- !app_assoc.
      * rewrite El, !Forall_app, Forall_singleton in Hl. apply Hl.
      * done.
    + rewrite rev_app_distr. cbn [rev app]. constructor; [|done]. by exists u1, low, u2.
Qed.

Lemma read_descend fuel N R key l ups a b K s Q E :
  readable N R -> R (ix_p s) -> tower N l ups (t_root (ix_t s)) -> StronglySorted low_lt l -> leaves N l a b None K ->
  (length ups < fuel)%nat ->
  (forall p path p', R p' -> at_key l key p -> Forall2 (fun u q => at_key u key q) ups (rev path) ->
    Q (p, path) (MkIx (ix_t s) p')) ->
  (forall e p', pg_fails e -> R p' -> E (IxPage e) (MkIx (ix_t s) p')) ->
  wp (descend fuel key) s Q E.
Proof.
  intros HR Hst Ht Hs Hl Hf HQ HE. unfold descend. apply wp_bind, wp_get.
  replace fuel with (length ups + S (fuel - length ups - 1))%nat by lia.
  eapply (read_descend_loop N R); [exact HR|exact Hst|exact Ht|done| |exact HE].
  intros p path p' Hst' Hat Hpath. cbn [descend_loop]. apply wp_bind.
  destruct (leaves_dom _ _ _ _ _ _ Hl p) as (ks & rs & Hp).
  { destruct Hat as (l1 & low & l2 & -> & _). rewrite map_app. cbn [map snd]. apply elem_of_app. right. by left. }
  eapply (read_type N R HR); [exact Hst'|exact Hp| |exact HE]. intros p'' Hst''. cbn [node_type].
  change (PageBTreeLeaf =? PageBTreeLeaf) with true. cbv iota. apply wp_ret. by apply HQ.
Qed.

Lemma wp_descend fuel N sz k key l ups a b K s Q E :
  stored N sz k (ix_p s) -> tower N l ups (t_root (ix_t s)) -> StronglySorted low_lt l -> leaves N l a b None K ->
  (length ups < fuel)%nat ->
  (forall p path p', stored N sz k p' -> at_key l key p -> Forall2 (fun u q => at_key u key q) ups (rev path) ->
    Q (p, path) (MkIx (ix_t s) p')) ->
  (forall e p', pg_fails e -> stored N sz k p' -> E (IxPage e) (MkIx (ix_t s) p')) ->
  wp (descend fuel key) s Q E.
Proof. apply read_descend, stored_readable. Qed.

(** ** Insertion into the levels above *)

(** Telling the catalog of a new root leaves the pages in use. *)
Definition root_quiet (onRoot : Z -> P -> P) : Prop :=
  forall r p, pg_inv p -> in_u 32 r ->
    pg_inv (onRoot r p) /\ PageSize (onRoot r p) = PageSize p /\ pg_live (onRoot r p) = pg_live p /\
    pg_room (onRoot r p) = pg_room p /\ forall n, n ∈ pg_live p -> pg_view (onRoot r p) n = pg_view p n.

Lemma stored_root onRoot N sz k r p : root_quiet onRoot -> in_u 32 r -> stored N sz k p -> stored N sz k (onRoot r p).
Proof.
  intros Hq Hr [H1 H2 H3 H4]. destruct (Hq r p H1 Hr) as (Q1 & Q2 & Q3 & Q4 & Q5).
  constructor; [done|congruence|by rewrite Q4|]. intros n nd Hn. destruct (H4 n nd Hn). rewrite Q3, Q5 by done. done.
Qed.

Lemma stored_ok N sz k p n nd : stored N sz k p -> N !! n = Some nd -> node_ok nd.
Proof. intros Hst Hn. destruct (st_node _ _ _ _ Hst n nd Hn) as [_ Hh]. apply Hh. Qed.

Lemma stored_page N sz k p n nd : stored N sz k p -> N !! n = Some nd -> in_u 32 n /\ n <> NullPage.
Proof.
  intros Hst Hn. destruct (st_node _ _ _ _ Hst n nd Hn) as [Hl _].
  destruct (pg_page p n (st_inv _ _ _ _ Hst) Hl) as (? & ? & ? & ?). done.
Qed.

(** What the methods that grow a tree rely on. *)
Record sized (sz : Z) (t : BTree) : Prop := {
  sz_body : t_bodyLen t = BodySize sz;
  sz_coll : in_u 32 (t_collID t);
  sz_pos : 0 <= BodySize sz
}.

(** N' is N with the upper levels ups replaced by ups', the rest as it was. *)
Record regrown (N : gmap Z node) (ups : list level) (N' : gmap Z node) (ups' : list level) : Prop := {
  rg_same : forall n nd, N !! n = Some nd -> n ∉ upages ups -> N' !! n = Some nd;
  rg_new : forall n, n ∈ upages ups' -> n ∈ upages ups \/ N !! n = None;
  rg_nodup : NoDup (upages ups');
  rg_height : (length ups' <= S (length ups))%nat
}.

Lemma wp_grow_root onRoot N sz k left sep r m s Q E :
  root_quiet onRoot -> sized sz (ix_t s) -> small m (BodySize sz) -> stored N sz (S k) (ix_p s) ->
  ent_ok ([], left) -> ent_ok (sep, r) -> blen sep <= m ->
  (forall n p', N !! n = None -> stored (<[n := NInt [([], left); (sep, r)]]> N) sz k p' ->
    node_fit m (BodySize sz) (NInt [([], left); (sep, r)]) -> Q tt (MkIx (set_root n (ix_t s)) p')) ->
  (forall e p', pg_fails e -> stored N sz k p' -> E (IxPage e) (MkIx (ix_t s) p')) ->
  wp (insertIntoParent onRoot [] left sep r) s Q E.
Proof.
  intros Hq [Z1 Z2 Z3] [Hm Hsm] Hst Hl Hr Hsep HQ HE. cbn [insertIntoParent]. apply wp_bind.
  assert (Hfit : node_fit m (BodySize sz) (NInt [([], left); (sep, r)])).
  { split.
    - rewrite node_total_NInt. cbn [interior_total fst]. change (blen (@nil Z)) with 0. unfold slotDirEntry. nia.
    - constructor; [change (0 <= m); lia|]. by apply Forall_singleton. }
  apply (wp_new N sz k s (NInt [([], left); (sep, r)])); [done|done| |apply Hfit| |done].
  - constructor; [done|]. by apply Forall_singleton.
  - intros n p' Hn Hu _ _ Hst'. apply HQ; [done|by apply stored_root|done].
Qed.

Lemma covers_replace N N' u1 low p c ents u2 L1 L2 :
  covers N u1 L1 -> covers N u2 L2 -> N' !! p = Some (NInt (([], c) :: ents)) ->
  (forall q, q ∈ pages u1 \/ q ∈ pages u2 -> N' !! q = N !! q) ->
  covers N' (u1 ++ (low, p) :: u2) (L1 ++ (low, c) :: ents ++ L2).
Proof.
  intros H1 H2 Hp Hf. apply covers_app; [|constructor; [done|]]; (eapply covers_frame; [eassumption|]); auto.
Qed.

Lemma covers_split_node N N' u1 low p c a sep r d es u2 L1 L2 :
  covers N u1 L1 -> covers N u2 L2 -> N' !! p = Some (NInt (([], c) :: a)) -> N' !! r = Some (NInt (([], d) :: es)) ->
  (forall q, q ∈ pages u1 \/ q ∈ pages u2 -> N' !! q = N !! q) ->
  covers N' (u1 ++ (low, p) :: (sep, r) :: u2) (L1 ++ (low, c) :: (a ++ (sep, d) :: es) ++ L2).
Proof.
  intros H1 H2 Hp Hr Hf. rewrite <- app_assoc. apply covers_app; [|constructor; [done|cbn [app]; constructor; [done|]]];
    (eapply covers_frame; [eassumption|]); auto.
Qed.

Lemma pages_mid u1 low p u2 q : q ∈ pages (u1 ++ (low, p) :: u2) <-> q ∈ pages u1 \/ q = p \/ q ∈ pages u2.
Proof. rewrite map_app, elem_of_app. cbn [map snd]. by rewrite elem_of_cons. Qed.

(** The pages of a level and of the levels above it are different pages. *)
Record apart (u1 : level) (p : Z) (u2 : level) (ups : list level) : Prop := {
  ap_left : p ∉ pages u1;
  ap_right : p ∉ pages u2;
  ap_up : forall q, q ∈ upages ups -> q <> p /\ q ∉ pages u1 /\ q ∉ pages u2;
  ap_level : NoDup (pages u1 ++ pages u2);
  ap_ups : NoDup (upages ups)
}.

Lemma apart_intro u1 low p u2 ups : NoDup (upages ((u1 ++ (low, p) :: u2) :: ups)) -> apart u1 p u2 ups.
Proof.
  cbn [upages]. rewrite map_app. cbn [map snd]. intros H. apply NoDup_app in H as (H1 & H2 & H3).
  apply NoDup_app in H1 as (G1 & G2 & G3). apply NoDup_cons in G3 as [G3 G4].
  constructor; try done.
  - intros Hp. apply (G2 p Hp). by left.
  - intros q Hq. split_and!.
    + intros ->. apply (H2 p); [|done]. apply elem_of_app. right. by left.
    + intros Hin. apply (H2 q); [|done]. apply elem_of_app. by left.
    + intros Hin. apply (H2 q); [|done]. apply elem_of_app. right. by right.
  - apply NoDup_app. split_and!; try done. intros q Hq Hq'. apply (G2 q Hq). by right.
Qed.

Lemma regrown_fit N u1 low p u2 ups nd :
  apart u1 p u2 ups -> regrown N ((u1 ++ (low, p) :: u2) :: ups) (<[p := nd]> N) ((u1 ++ (low, p) :: u2) :: ups).
Proof.
  intros [A1 A2 A3 A4 A5]. constructor.
  - intros n nd' Hn Hn'. rewrite lookup_insert_ne; [done|]. intros <-. apply Hn'. cbn [upages].
    rewrite elem_of_app, pages_mid. auto.
  - auto.
  - cbn [upages]. rewrite map_app. cbn [map snd]. apply NoDup_app in A4 as (B1 & B2 & B3). apply NoDup_app. split_and!.
    + apply NoDup_app. split_and!; [done| |by constructor]. intros q Hq. rewrite elem_of_cons.
      intros [->|Hq']; [done|by apply (B2 q)].
    + intros q Hq Hq'. destruct (A3 q Hq') as (C1 & C2 & C3). rewrite elem_of_app, elem_of_cons in Hq. tauto.
    + done.
  - lia.
Qed.

Lemma regrown_split N u1 low p u2 ups rp (a b : node) sep N3 ups3 :
  let N2 := <[p := a]> (<[rp := b]> N) in
  apart u1 p u2 ups -> (forall q, q ∈ upages ((u1 ++ (low, p) :: u2) :: ups) -> is_Some (N !! q)) -> N !! rp = None ->
  regrown N2 ups N3 ups3 ->
  regrown N ((u1 ++ (low, p) :: u2) :: ups) N3 ((u1 ++ (low, p) :: (sep, rp) :: u2) :: ups3).
Proof.
  intros N2 [A1 A2 A3 A4 A5] Hdom Hrp [R1 R2 R3 R4].
  assert (Hr : forall q, q ∈ pages u1 \/ q = p \/ q ∈ pages u2 -> q <> rp).
  { intros q Hq ->. destruct (Hdom rp) as [? Hx]; [by apply elem_of_app; left; apply pages_mid|congruence]. }
  assert (Hd2 : forall q, q ∈ pages u1 \/ q = p \/ q ∈ pages u2 -> is_Some (N2 !! q)).
  { intros q Hq. unfold N2. rewrite lookup_insert_is_Some. destruct (decide (p = q)); [by left|right]. split; [done|].
    rewrite lookup_insert_is_Some. right. split; [by apply not_eq_sym, Hr|]. by apply Hdom, elem_of_app; left; apply pages_mid. }
  constructor.
  - intros n nd Hn Hn'. cbn [upages] in Hn'. rewrite elem_of_app, pages_mid in Hn'. apply R1; [|tauto].
    unfold N2. rewrite !lookup_insert_ne; [done|congruence|intros <-; tauto].
  - intros n. cbn [upages]. rewrite !elem_of_app, !pages_mid. cbn [map snd]. rewrite elem_of_cons.
    intros [[Hn|[Hn|[->|Hn]]]|Hn]; try tauto. destruct (R2 n Hn) as [Hn'|Hn']; [tauto|].
    unfold N2 in Hn'. apply lookup_insert_None in Hn' as [Hn' _]. apply lookup_insert_None in Hn'. tauto.
  - cbn [upages]. rewrite map_app. cbn [map snd]. apply NoDup_app in A4 as (B1 & B2 & B3). apply NoDup_app. split_and!; [| |done].
    + apply NoDup_app. split_and!; [done| |].
      * intros q Hq. rewrite !elem_of_cons. intros [->|[->|Hq']]; [done|by apply (Hr rp); auto|by apply (B2 q)].
      * apply NoDup_cons. split; [|apply NoDup_cons; split; [|done]].
        -- rewrite elem_of_cons. intros [->|Hx]; [by apply (Hr rp); auto|done].
        -- intros Hx. apply (Hr rp); auto.
    + intros q Hq Hq'. destruct (R2 q Hq') as [Hu|Hu].
      * destruct (A3 q Hu) as (C1 & C2 & C3). rewrite elem_of_app, !elem_of_cons in Hq.
        destruct Hq as [Hq|[Hq|[->|Hq]]]; try tauto.
        destruct (Hdom rp) as [? Hx]; [by apply elem_of_app; right|congruence].
      * rewrite elem_of_app, !elem_of_cons in Hq. destruct Hq as [Hq|[->|[->|Hq]]].
        all: try (destruct (Hd2 q) as [? Hx]; [tauto|congruence]).
        -- destruct (Hd2 p) as [? Hx]; [tauto|congruence].
        -- unfold N2 in Hu. apply lookup_insert_None in Hu as [Hu _]. by rewrite lookup_insert_eq in Hu.
  - cbn [length]. lia.
Qed.

Lemma stored_insert_ents N sz k p n c ea eb sep r :
  stored N sz k p -> N !! n = Some (NInt (([], c) :: ea ++ eb)) -> bytes_ok sep -> in_u 32 r ->
  Forall ent_ok (([], c) :: ea ++ (sep, r) :: eb).
Proof.
  intros Hst Hn Hs Hr. pose proof (stored_ok _ _ _ _ _ _ Hst Hn) as Ho. cbn in Ho. inversion Ho as [|? ? H1 H2]; subst.
  apply Forall_app in H2 as [H2 H3]. constructor; [done|]. apply Forall_app. split; [done|]. by constructor.
Qed.

Lemma fit_insert_ents m B c ea eb sep (r : Z) :
  node_fit m B (NInt (([], c) :: ea ++ eb)) -> blen sep <= m ->
  Forall (fun e : intEntry => blen e.1 <= m) (([], c) :: ea ++ (sep, r) :: eb) /\
  interior_total (([], c) :: ea ++ (sep, r) :: eb) <= B + (m + 8).
Proof.
  intros [H1 H2] Hs. inversion H2 as [|? ? H3 H4]; subst. apply Forall_app in H4 as [H4 H5]. split.
  - constructor; [done|]. apply Forall_app. split; [done|]. by constructor.
  - rewrite node_total_NInt in H1. cbn [interior_total fst] in *. rewrite interior_total_app in *. cbn [interior_total fst] in *.
    unfold slotDirEntry in *. lia.
Qed.

Lemma split_first mid (c : Z) rest promote d es :
  (0 < mid)%nat -> drop mid (([], c) :: rest) = (promote, d) :: es ->
  exists a : level, take mid (([], c) :: rest) = ([], c) :: a /\ rest = a ++ (promote, d) :: es.
Proof.
  intros Hm Hd. destruct mid as [|n]; [lia|]. cbn [take drop] in *. exists (take n rest). split; [done|].
  by rewrite <- Hd, take_drop.
Qed.

Lemma sorted_promote L1 lowp c a promote d es L2 hi :
  StronglySorted low_lt (L1 ++ (lowp, c) :: (a ++ (promote, d) :: es) ++ L2) ->
  blt lowp promote /\ (below promote hi -> below promote (next_low L2 hi)).
Proof.
  intros Hs. apply sorted_app_inv in Hs as (_ & H & _ & H').
  rewrite <- app_assoc in H, H'. apply Forall_app in H as [_ H]. inversion H as [|? ? H1 _]; subst. split; [exact H1|].
  apply sorted_app_inv in H' as (_ & H' & _). apply Forall_app in H' as [_ H']. destruct L2 as [|e L2]; [done|].
  inversion H' as [|? ? H2 _]; subst. intros _. exact H2.
Qed.

Lemma wp_insertIntoParent onRoot m sz key :
  root_quiet onRoot -> small m (BodySize sz) ->
  forall ups N k l1 low left l2 rpath sep r s Q E,
  let l := l1 ++ (low, left) :: l2 in
  sized sz (ix_t s) -> nodes_fit m (BodySize sz) N -> stored N sz (S (length ups) + k) (ix_p s) ->
  tower N l ups (t_root (ix_t s)) -> StronglySorted low_lt l -> NoDup (upages ups) ->
  Forall2 (fun u q => at_key u key q) ups rpath ->
  ble low key -> below key (next_low l2 None) -> blt low sep -> below sep (next_low l2 None) ->
  bytes_ok sep -> blen sep <= m -> in_u 32 left -> in_u 32 r ->
  (forall N' ups' root' p', stored N' sz k p' -> nodes_fit m (BodySize sz) N' ->
    tower N' (l1 ++ (low, left) :: (sep, r) :: l2) ups' root' -> regrown N ups N' ups' ->
    Q tt (MkIx (set_root root' (ix_t s)) p')) ->
  (forall e s', pg_fails e -> E (IxPage e) s') ->
  wp (insertIntoParent onRoot rpath left sep r) s Q E.
Proof.
  intros Hq Hsm ups. induction ups as [|u ups IH]; intros N kr l1 low left l2 rpath sep r s Q E l Hz Hfit Hst Ht Hs Hnd
    Hpath Hlow Hk Hsep Hsep' Hok Hlen Hleft Hr HQ HE.
  - cbn [tower] in Ht. inversion Hpath; subst. unfold l in Ht.
    destruct l1 as [|? [|? ?]]; cbn [app] in Ht; [|discriminate Ht|discriminate Ht]. injection Ht as -> Hroot ->.
    eapply (wp_grow_root onRoot N sz kr); try done; [by split; [constructor|]| |].
    + intros n p' Hn Hst' Hfit'. apply (HQ (<[n := NInt [([], left); (sep, r)]]> N) [[([], n)]] n); [done|by apply nodes_fit_insert| |].
      * cbn [tower app]. split; [|done]. change (covers (<[n := NInt [([], left); (sep, r)]]> N) [([], n)] (([], left) :: [(sep, r)] ++ [])). constructor; [by rewrite lookup_insert_eq|constructor].
      * constructor.
        -- intros x nd Hx _. rewrite lookup_insert_ne; [done|]. by intros <-; rewrite Hn in Hx.
        -- intros x. cbn [upages map snd app]. rewrite list_elem_of_singleton. intros ->. by right.
        -- apply NoDup_singleton.
        -- done.
    + intros e p' He _. by apply HE.
  - inversion Hpath as [|? p ? rpath' Hat Hpath']; subst. clear Hpath.
    destruct Hat as (u1 & lowp & u2 & -> & Hlp & Hkp). destruct Ht as [Hc Ht].
    pose proof (apart_intro _ _ _ _ _ Hnd) as Hap.
    pose proof (covers_sorted _ _ _ Hc Hs) as Hsu.
    destruct (covers_insert _ _ _ _ _ _ _ _ _ _ sep Hc Hs Hlp Hkp Hlow Hk Hsep Hsep')
      as (L1 & c & ea & eb & L2 & Hp & El & -> & H1 & H2 & Hea & Heb).
    cbn [insertIntoParent]. apply wp_bind.
    eapply wp_loadInterior; [exact Hst|exact Hp| |by intros; apply HE]. intros p1 Hst1.
    apply Forall_app in Heb as [Heb HebL2]. rewrite (interior_pos c ea eb sep lowp) by done.
    rewrite (insert_at_app ((sep, r) : intEntry) ((([], c) : intEntry) :: ea) eb :
      insert_at (S (length ea)) ((sep, r) : intEntry) (([], c) :: ea ++ eb) = _).
    apply wp_bind, wp_get. cbn [ix_t app]. set (ents' := ([], c) :: ea ++ (sep, r) :: eb).
    assert (Hents : Forall ent_ok ents') by by eapply stored_insert_ents.
    destruct (fit_insert_ents _ _ _ _ _ sep r (Hfit _ _ Hp) Hlen) as [Hle Htot]. fold ents' in Hle, Htot.
    assert (Hl' : l1 ++ (low, left) :: (sep, r) :: eb ++ L2 = L1 ++ (lowp, c) :: (ea ++ (sep, r) :: eb) ++ L2).
    { change (l1 ++ (low, left) :: (sep, r) :: eb ++ L2) with (l1 ++ [(low, left)] ++ (sep, r) :: eb ++ L2).
      rewrite app_assoc, El, <- !app_assoc. done. }
    unfold interiorFits. rewrite (sz_body _ _ Hz). destruct (Z.leb_spec (interior_total ents') (BodySize sz)) as [Hf|Hf].
    + eapply (wp_write N sz _ _ p (NInt ents')); [exact Hst1|exact Hp|apply Hz|done|by rewrite node_total_NInt| |by intros; apply HE].
      intros p2 Hst2. destruct (ix_t s) as [x1 x2 x3 x4 root x6] eqn:Es.
      apply (HQ (<[p := NInt ents']> N) ((u1 ++ (lowp, p) :: u2) :: ups) root).
      * by eapply stored_sub; [exact Hst2| |lia].
      * apply nodes_fit_insert; [done|]. split; [by rewrite node_total_NInt|done].
      * cbn [tower]. rewrite Hl'. split.
        -- eapply covers_replace; [exact H1|exact H2|by rewrite lookup_insert_eq|].
           intros q Hpq. rewrite lookup_insert_ne; [done|]. intros <-. destruct Hap. tauto.
        -- eapply tower_frame; [exact Ht|]. intros q Hq'. rewrite lookup_insert_ne; [done|]. intros <-. by destruct (ap_up _ _ _ _ Hap p Hq').
      * by apply regrown_fit.
    + destruct (interior_split m (BodySize sz) ents' Hsm (sz_pos _ _ Hz) Hents Hle ltac:(lia))
        as (promote & d & es & Ed & Hmid & Fok1 & Ffit1 & Fok2 & Ffit2 & Hpok & Hplen).
      set (mid := (length ents' / 2)%nat) in *. rewrite Ed. cbv iota beta. cbn [snd].
      assert (Hprom : nth mid ents' ([], 0) = (promote, d)).
      { rewrite <- (take_drop mid ents'), Ed, app_nth2; rewrite length_take; [|lia].
        replace (mid - _)%nat with 0%nat; [done|]. pose proof (f_equal length Ed) as Hd. rewrite length_drop in Hd. cbn [length] in Hd. lia. }
      rewrite Hprom. cbn [fst].
      apply wp_bind. eapply (wp_new N sz _ _ (NInt (([], d) :: es))); [exact Hst1|apply Hz|done|apply Ffit2| |by intros; apply HE].
      intros rp p2 Hrp Hrp32 _ _ Hst2. cbn [ix_t]. apply wp_bind.
      eapply (wp_write _ sz _ _ p (NInt (take mid ents'))); [exact Hst2| |apply Hz|done|apply Ffit1| |by intros; apply HE].
      { rewrite lookup_insert_ne; [exact Hp|]. intros ->. congruence. }
      intros p3 Hst3. cbn [ix_t] in *.
      destruct (split_first _ _ _ _ _ _ Hmid Ed) as (a & Ea & Eb). fold ents' in Ea. rewrite Ea in Hst3, Ffit1, Fok1. rewrite Eb in Hl'.
      assert (Hsl : StronglySorted low_lt (L1 ++ (lowp, c) :: (a ++ (promote, d) :: es) ++ L2)).
      { rewrite <- Hl'. by apply sorted_insert. }
      destruct (sorted_promote _ _ _ _ _ _ _ _ None Hsl) as [Hp1 Hp2].
      set (N2 := <[p := NInt (([], c) :: a)]> (<[rp := NInt (([], d) :: es)]> N)) in *.
      assert (Hdom : forall q, q ∈ upages ((u1 ++ (lowp, p) :: u2) :: ups) -> exists ents, N !! q = Some (NInt ents)).
      { apply (tower_dom N _ (l1 ++ (low, left) :: eb ++ L2) (t_root (ix_t s))). by split. }
      assert (HN2 : forall q, q <> p -> q <> rp -> N2 !! q = N !! q).
      { intros q ? ?. unfold N2. by rewrite !lookup_insert_ne by done. }
      assert (Hrpd : forall q, q ∈ upages ((u1 ++ (lowp, p) :: u2) :: ups) -> q <> rp).
      { intros q Hin ->. destruct (Hdom rp Hin) as [? Hx]. congruence. }
      eapply (IH N2 kr u1 lowp p u2 rpath' promote rp).
      * done.
      * apply nodes_fit_insert; [apply nodes_fit_insert; done|done].
      * exact Hst3.
      * eapply tower_frame; [exact Ht|]. intros q Hin. apply HN2.
        -- intros ->. by destruct (ap_up _ _ _ _ Hap p Hin).
        -- apply Hrpd. cbn [upages]. apply elem_of_app. by right.
      * exact Hsu.
      * apply Hap.
      * exact Hpath'.
      * exact Hlp.
      * exact Hkp.
      * exact Hp1.
      * rewrite <- (covers_next _ _ _ None H2). by apply Hp2.
      * exact Hpok.
      * exact Hplen.
      * apply (stored_page _ _ _ _ _ _ Hst1 Hp).
      * exact Hrp32.
      * intros N3 ups3 root' p4 Hst4 Hfit4 Ht4 Hrg.
        assert (HC : covers N2 (u1 ++ (lowp, p) :: (promote, rp) :: u2) (L1 ++ (lowp, c) :: (a ++ (promote, d) :: es) ++ L2)).
        { apply (covers_split_node N); try done.
          - unfold N2. by rewrite lookup_insert_eq.
          - unfold N2. rewrite lookup_insert_ne by by intros ->; congruence. by rewrite lookup_insert_eq.
          - intros q Hin. apply HN2.
            + intros ->. destruct Hap. tauto.
            + apply Hrpd. cbn [upages]. rewrite elem_of_app, pages_mid. tauto. }
        apply (HQ N3 ((u1 ++ (lowp, p) :: (promote, rp) :: u2) :: ups3) root'); [done|done| |].
        -- cbn [tower]. rewrite Hl'. split; [|done]. eapply covers_frame; [exact HC|]. intros q Hin.
           destruct (covers_dom _ _ _ HC q Hin) as [x Hx]. rewrite Hx. apply (rg_same _ _ _ _ Hrg); [done|]. intros Hup.
           apply pages_mid in Hin. cbn [map snd] in Hin. rewrite elem_of_cons in Hin. destruct (ap_up _ _ _ _ Hap q Hup) as (B1 & B2 & B3).
           destruct Hin as [?|[?|[->|?]]]; [done|done| |done]. apply (Hrpd rp); [|done]. cbn [upages]. apply elem_of_app. by right.
        -- eapply regrown_split; [exact Hap| |exact Hrp|exact Hrg]. intros q Hin. destruct (Hdom q Hin) as [x Hx]. by exists (NInt x).
      * exact HE.
Qed.
End walk.
