(* ===== verification/BTreeSpec.v ===== *)
(** * What the B-tree promises

    An index state holds a sorted list of tree keys. Put inserts in it, Delete
    removes from it, Get finds the first RID of a field, and a scan returns the
    entries of a range in order, whatever the shape of the tree. *)

From S2P Require Import Prelude Rid Checksum Page Slotted Bson BsonCompare KeyEnc PageStore BNode BTree BTreeInv.
#[local] Open Scope ix_scope.

(** ** Sorted lists of keys *)

Fixpoint key_insert (k : bytes) (K : list bytes) : list bytes :=
  match K with
  | [] => [k]
  | x :: K' => match bcmp k x with Lt => k :: K | Eq => K | Gt => x :: key_insert k K' end
  end.

Fixpoint key_delete (k : bytes) (K : list bytes) : list bytes :=
  match K with
  | [] => []
  | x :: K' => if bool_decide (x = k) then K' else x :: key_delete k K'
  end.

Lemma key_insert_app k a b : Forall (fun x => blt x k) a -> key_insert k (a ++ b) = a ++ key_insert k b.
Proof.
  induction 1 as [|x a Hx Ha IH]; [done|]. cbn [app key_insert]. rewrite bcmp_antisym, Hx. cbn [CompOpp]. by rewrite IH.
Qed.

Lemma key_insert_below k a b : Forall (blt k) b -> key_insert k (a ++ b) = key_insert k a ++ b.
Proof.
  intros Hb. induction a as [|x a IH]; cbn [app key_insert].
  - destruct b as [|y b]; [done|]. inversion Hb as [|? ? Hy _]; subst. cbn [key_insert]. by rewrite Hy.
  - destruct (bcmp k x); [done|done|]. by rewrite IH.
Qed.

Lemma key_delete_app k a b : Forall (fun x => blt x k) a -> key_delete k (a ++ b) = a ++ key_delete k b.
Proof.
  induction 1 as [|x a Hx Ha IH]; [done|]. cbn [app key_delete]. rewrite bool_decide_false; [by rewrite IH|].
  intros ->. by apply (blt_irrefl k).
Qed.

Lemma key_insert_In k K x : x ∈ key_insert k K <-> x = k \/ x ∈ K.
Proof.
  induction K as [|y K IH]; cbn [key_insert].
  - rewrite list_elem_of_singleton. split; [by left|]. intros [|H]; [done|by apply elem_of_nil in H].
  - destruct (bcmp k y) eqn:E.
    + apply bcmp_eq in E as ->. rewrite elem_of_cons. tauto.
    + by rewrite !elem_of_cons.
    + rewrite !elem_of_cons, IH. tauto.
Qed.

Lemma key_insert_sorted k K : StronglySorted blt K -> StronglySorted blt (key_insert k K).
Proof.
  induction 1 as [|y K Hs IH Hf]; cbn [key_insert]; [by repeat constructor|]. destruct (bcmp k y) eqn:E.
  - by constructor.
  - constructor; [by constructor|]. constructor; [done|]. eapply Forall_impl; [exact Hf|]. intros z. by apply blt_trans.
  - constructor; [done|]. apply List.Forall_forall. intros z Hz. apply list_elem_of_In, key_insert_In in Hz as [->|Hz].
    + unfold blt. by rewrite bcmp_antisym, E.
    + rewrite List.Forall_forall in Hf. by apply Hf, list_elem_of_In.
Qed.

Lemma key_delete_sub k K x : x ∈ key_delete k K -> x ∈ K.
Proof.
  induction K as [|y K IH]; cbn [key_delete]; [done|]. case_bool_decide.
  - intros. by right.
  - rewrite !elem_of_cons. tauto.
Qed.

Lemma key_delete_sorted k K : StronglySorted blt K -> StronglySorted blt (key_delete k K).
Proof.
  induction 1 as [|y K Hs IH Hf]; cbn [key_delete]; [constructor|]. case_bool_decide; [done|]. constructor; [done|].
  apply List.Forall_forall. intros z Hz. apply list_elem_of_In, key_delete_sub in Hz.
  rewrite List.Forall_forall in Hf. by apply Hf, list_elem_of_In.
Qed.

Lemma key_delete_In k K x : StronglySorted blt K -> x ∈ key_delete k K <-> x ∈ K /\ x <> k.
Proof.
  induction 1 as [|y K Hs IH Hf]; cbn [key_delete].
  - split; [intros H; by apply elem_of_nil in H|]. by intros [H _].
  - rewrite List.Forall_forall in Hf. case_bool_decide as Hy.
    + subst y. rewrite elem_of_cons. split; [|tauto]. intros Hx. split; [by right|]. intros ->.
      apply (blt_irrefl k), Hf. by apply list_elem_of_In.
    + rewrite !elem_of_cons, IH. split; [|tauto]. intros [->|[]]; tauto.
Qed.

(** ** Tree keys and their fields *)

Lemma treeKey_inv k : bytes_ok k -> 6 <= blen k -> exists f rid, k = treeKey f rid /\ rid_ok rid /\ bytes_ok f.
Proof.
  intros Hk Hl. unfold blen in Hl. set (f := take (length k - 6) k). set (s := drop (length k - 6) k).
  assert (Hs : length s = 6%nat) by (unfold s; rewrite length_drop; lia).
  assert (Hb : bytes_ok s) by by apply Forall_drop.
  exists f, (MkRID (be_val (take 4 s)) (be_val (drop 4 s))).
  assert (H4 : length (take 4 s) = 4%nat) by (rewrite length_take; lia).
  assert (H2 : length (drop 4 s) = 2%nat) by (rewrite length_drop; lia).
  pose proof (Forall_take _ 4 _ Hb) as B4. pose proof (Forall_drop _ 4 _ Hb) as B2.
  split_and!.
  - pose proof (be_bytes_be_val _ B4) as E4. rewrite H4 in E4. pose proof (be_bytes_be_val _ B2) as E2. rewrite H2 in E2.
    unfold treeKey, putRIDSuffix. cbn [PageNo Slot]. rewrite E4, E2, take_drop. unfold f, s. by rewrite take_drop.
  - split; cbn [PageNo Slot].
    + pose proof (be_val_bound _ B4) as H. unfold blen in H. by rewrite H4 in H.
    + pose proof (be_val_bound _ B2) as H. unfold blen in H. by rewrite H2 in H.
  - by apply Forall_take.
Qed.

Lemma treeKey_length f rid : length (treeKey f rid) = (length f + 6)%nat.
Proof. unfold treeKey, putRIDSuffix. by rewrite !length_app, !length_be_bytes. Qed.

Lemma treeKey_cmp f r r' : rid_ok r -> rid_ok r' -> bcmp (treeKey f r) (treeKey f r') = rid_cmp r r'.
Proof. intros H H'. unfold treeKey. rewrite bcmp_app_same. by apply putRIDSuffix_cmp. Qed.

Lemma zeroRID_ok : rid_ok zeroRID.
Proof. split; cbn; unfold in_u; lia. Qed.

Lemma zeroRID_least r : rid_ok r -> rid_cmp zeroRID r <> Gt.
Proof.
  intros [[H1 _] [H2 _]]. unfold rid_cmp, zeroRID. cbn [PageNo Slot].
  destruct (0 ?= PageNo r) eqn:E; cbn [then_cmp]; [|done|apply Z.compare_gt_iff in E; lia].
  intros E'. apply Z.compare_gt_iff in E'. lia.
Qed.

(** Between two strings with a common prefix every string has that prefix. *)
Lemma prefix_between f u v : forall x, ble (f ++ u) x -> ble x (f ++ v) -> f `prefix_of` x.
Proof.
  unfold ble. induction f as [|a f IH]; intros x H1 H2; [apply prefix_nil|]. destruct x as [|b x]; cbn [app] in *; [done|].
  rewrite bcmp_cons in H1, H2. destruct (Z.compare_spec a b) as [->|Hab|Hab]; cbn [then_cmp] in H1.
  - rewrite Z.compare_refl in H2. cbn [then_cmp] in H2. by apply prefix_cons, IH.
  - rewrite (proj2 (Z.compare_gt_iff _ _)) in H2 by done. done.
  - done.
Qed.

(** No field of K other than key is a prefix of it or extends it. *)
Definition prefix_free (key : bytes) (K : list bytes) : Prop :=
  forall f rid, rid_ok rid -> treeKey f rid ∈ K -> f <> key -> ~ key `prefix_of` f /\ ~ f `prefix_of` key.

(** The field key has at most one RID in K. *)
Definition one_entry (key : bytes) (K : list bytes) : Prop :=
  forall r r', rid_ok r -> rid_ok r' -> treeKey key r ∈ K -> treeKey key r' ∈ K -> r = r'.

Lemma field_between key K f rid rid' :
  prefix_free key K -> rid_ok rid -> treeKey f rid ∈ K ->
  ble (treeKey key zeroRID) (treeKey f rid) -> ble (treeKey f rid) (treeKey key rid') -> f = key.
Proof.
  intros Hpf Hr Hin H1 H2. destruct (prefix_between _ _ _ _ H1 H2) as [w Hw].
  destruct (decide (f = key)) as [|Hne]; [done|exfalso]. destruct (Hpf f rid Hr Hin Hne) as [N1 N2].
  unfold treeKey in Hw. apply app_eq_inv in Hw as [(z & -> & _)|(z & -> & _)].
  - apply N1. by eexists.
  - apply N2. by eexists.
Qed.

(** ** The contents of an index *)

(** Root page, keys and height: an empty tree, or levels above a chain of leaves. *)
Inductive shape (N : gmap Z node) : Z -> list bytes -> nat -> Prop :=
| shape_empty : shape N NullPage [] 0
| shape_tree root l ups a K :
    root <> NullPage -> tower N l ups root -> leaves N l a NullPage None K -> l <> [] ->
    StronglySorted low_lt l -> NoDup (pages l) -> NoDup (upages ups) -> shape N root K (S (length ups)).

Section spec.
Context {P : Type} {ops : PageOps P} {laws : PageLaws P}.

(** The state s holds the keys K in a tree of h levels on pages of size sz, with
    room for r more pages; no key is longer than m. *)
Record indexed (m sz : Z) (K : list bytes) (h r : nat) (s : ix P) : Prop := mk_indexed {
  in_nodes : exists N, stored N sz r (ix_p s) /\ nodes_fit m (BodySize sz) N /\ shape N (t_root (ix_t s)) K h;
  in_sized : sized sz (ix_t s);
  in_sorted : StronglySorted blt K;
  in_keys : Forall (fun k => bytes_ok k /\ 6 <= blen k <= m) K
}.

(** More steps than there are page numbers. *)
Definition fuel_ok (fuel : nat) : Prop := 2 ^ 32 <= Z.of_nat fuel.

Lemma distinct_length (xs : list Z) n : 0 <= n -> NoDup xs -> (forall x, x ∈ xs -> 0 <= x < n) -> Z.of_nat (length xs) <= n.
Proof.
  intros Hn Hd Hx. assert (H : xs ⊆+ seqZ 0 n).
  { apply NoDup_submseteq; [done|]. intros x H. apply elem_of_seqZ. specialize (Hx x H). lia. }
  apply submseteq_length in H. rewrite length_seqZ in H. lia.
Qed.

Lemma stored_length N sz r p xs : stored N sz r p -> NoDup xs -> (forall x, x ∈ xs -> is_Some (N !! x)) ->
  Z.of_nat (length xs) < 2 ^ 32.
Proof.
  intros Hst Hd Hx. assert (H : Z.of_nat (length xs) <= NullPage).
  { apply distinct_length; [done|done|]. intros x H. destruct (Hx x H) as [nd Hn].
    destruct (stored_page _ _ _ _ _ _ Hst Hn) as [[H1 H2] H3]. unfold NullPage in *. lia. }
  unfold NullPage in H. lia.
Qed.

Lemma upages_length N ups : forall l root, l <> [] -> tower N l ups root -> (length ups <= length (upages ups))%nat.
Proof.
  induction ups as [|u ups IH]; intros l root Hl; cbn [tower upages length]; [lia|]. intros [Hc Ht].
  assert (Hu : u <> []) by (intros ->; by inversion Hc; subst). specialize (IH u root Hu Ht).
  rewrite length_app, length_map. destruct u; [done|]. cbn [length] in *. lia.
Qed.

Lemma leaves_at N l1 low p l2 a b K k :
  leaves N (l1 ++ (low, p) :: l2) a b None K -> StronglySorted low_lt (l1 ++ (low, p) :: l2) ->
  ble low k -> below k (next_low l2 None) ->
  exists K1 ks rs K2, K = K1 ++ ks ++ K2 /\ N !! p = Some (NLeaf ks rs) /\
    leaves N l1 a p (Some low) K1 /\ leaves N l2 rs b None K2 /\
    Forall (fun x => ble low x /\ below x (next_low l2 None)) ks /\ Forall (fun x => blt x k) K1 /\ Forall (blt k) K2.
Proof.
  intros Hl Hs Hlow Hk. apply leaves_app_inv in Hl as (x & K1 & K' & -> & H1 & H2).
  inversion H2 as [|? ? ks rs ? ? ? K2 Hp Hks H3]; subst. cbn [next_low] in H1.
  apply sorted_app_inv in Hs as (S1 & S2 & S3 & S4).
  exists K1, ks, rs, K2. split_and!; try done.
  - pose proof (leaves_below _ _ _ _ _ _ H1 S3 S1) as Hb. eapply Forall_impl; [exact Hb|].
    intros y Hy. exact (blt_ble_trans _ _ _ Hy Hlow).
  - pose proof (below_next _ _ _ Hk S4) as Hf. destruct l2 as [|[nl np] l2]; [by inversion H3|].
    pose proof (leaves_above _ _ _ _ _ _ nl H3) as Ha. cbn in Hk. eapply Forall_impl; [apply Ha|].
    + constructor; [apply ble_refl|]. inversion S4 as [|? ? _ Hf']; subst. eapply Forall_impl; [exact Hf'|].
      intros e He. exact (blt_ble _ _ He).
    + intros y Hy. exact (blt_ble_trans _ _ _ Hk Hy).
Qed.

(** ** Inserting in a leaf *)

Lemma keys_split ks full : StronglySorted blt ks ->
  exists ka kb, ks = ka ++ kb /\ Forall (fun x => blt x full) ka /\ Forall (ble full) kb /\
    key_pos ks full = length ka /\ first_ge ks full = length ka.
Proof.
  intros Hs. destruct (split_at (fun x => blt x full) ks) as (ka & kb & -> & Ha & Hb). exists ka, kb.
  assert (Hkb : Forall (ble full) kb).
  { destruct kb as [|y kb]; [constructor|]. specialize (Hb y eq_refl). rewrite <- ble_not_lt in Hb. constructor; [done|].
    apply sorted_app_r in Hs. inversion Hs as [|? ? _ Hf]; subst. eapply Forall_impl; [exact Hf|].
    intros z Hz. exact (ble_trans _ _ _ Hb (blt_ble _ _ Hz)). }
  split_and!; try done.
  - apply (sort_Search_app ka kb [] (fun x => negb (bltb x full))).
    + eapply Forall_impl; [exact Ha|]. intros x Hx. cbn beta. by rewrite (proj2 (bltb_blt _ _)).
    + eapply Forall_impl; [exact Hkb|]. intros x Hx. cbn beta. by rewrite (proj2 (bltb_false _ _)).
  - clear Hs. induction Ha as [|x ka Hx Ha IH]; cbn [app first_ge length].
    + destruct kb as [|y kb]; [done|]. inversion Hkb; subst. cbn [first_ge]. by rewrite (proj2 (bltb_false _ _)).
    + by rewrite (proj2 (bltb_blt _ _)), IH by done.
Qed.

(** A key that is not at its position is in neither part, and goes between. *)
Lemma key_at_head ka kb full :
  Forall (fun x => blt x full) ka -> Forall (ble full) kb ->
  (exists kb', kb = full :: kb' /\ (ka ++ kb) !! length ka = Some full) \/
  ((ka ++ kb) !! length ka <> Some full /\ (StronglySorted blt (ka ++ kb) -> Forall (blt full) kb)).
Proof.
  intros Ha Hb. rewrite lookup_app_r, Nat.sub_diag by lia. destruct kb as [|y kb]; [by right|].
  destruct (decide (y = full)) as [->|Hne]; [left; by eexists|right]. split; [by intros [= ->]|]. intros Hs.
  inversion Hb as [|? ? Hy _]; subst. apply ble_lt_or_eq in Hy as [Hy| ->]; [|done]. constructor; [done|].
  apply sorted_app_r in Hs. inversion Hs as [|? ? _ Hf]; subst. eapply Forall_impl; [exact Hf|]. intros z. by apply blt_trans.
Qed.

Lemma key_insert_between K1 ka kb K2 full :
  Forall (fun x => blt x full) K1 -> Forall (fun x => blt x full) ka -> Forall (blt full) kb ->
  key_insert full (K1 ++ (ka ++ kb) ++ K2) = K1 ++ (ka ++ full :: kb) ++ K2 \/ ~ Forall (blt full) K2.
Proof.
  intros H1 Ha Hb. destruct (decide (Forall (blt full) K2)) as [H2|H2]; [left|by right].
  rewrite key_insert_app, key_insert_below, key_insert_app by done. do 3 f_equal.
  rewrite <- (app_nil_l kb) at 1. by rewrite key_insert_below.
Qed.

Lemma leaf_split m B keys r1 r2 :
  small m B -> 0 <= B -> Forall (fun k => 6 <= blen k <= m) keys -> B < leaf_total keys <= B + (m + 4) ->
  let mid := (length keys / 2)%nat in
  exists k0 l0 sep es, take mid keys = k0 :: l0 /\ drop mid keys = sep :: es /\
    node_fit m B (NLeaf (take mid keys) r1) /\ node_fit m B (NLeaf (drop mid keys) r2).
Proof.
  intros [Hm Hsm] HB Hk Htot mid.
  assert (Hcells : Forall (fun c => 10 <= blen c + slotDirEntry <= m + 4) keys).
  { eapply Forall_impl; [exact Hk|]. intros c Hc. cbn beta in *. unfold slotDirEntry. lia. }
  assert (Hm6 : 6 <= m).
  { destruct Hk as [|k ks Hk _]; [cbn in Htot; lia|cbn beta in Hk; lia]. }
  assert (Hq : (m + 4) * (m + 4 + 10) <= 10 * B) by nia.
  pose proof (outgrown_length 10 (m + 4) B _ ltac:(lia) Hcells ltac:(lia) Hq HB) as Hl.
  destruct (half_fits 10 (m + 4) B _ ltac:(lia) Hcells ltac:(lia) Hq) as [F1 F2]. fold mid in F1, F2.
  assert (Hmid : (0 < mid < length keys)%nat).
  { unfold mid. split; [apply Nat.div_str_pos; lia|apply Nat.div_lt; lia]. }
  destruct (take mid keys) as [|k0 l0] eqn:E1.
  { apply (f_equal length) in E1. rewrite length_take in E1. cbn [length] in E1. lia. }
  destruct (drop mid keys) as [|sep es] eqn:E2.
  { apply (f_equal length) in E2. rewrite length_drop in E2. cbn [length] in E2. lia. }
  exists k0, l0, sep, es. split_and!; try done; (split; [done|]).
  - rewrite <- E1. by apply Forall_take.
  - rewrite <- E2. by apply Forall_drop.
Qed.

(** Writing a leaf in the chain. *)
Lemma leaves_replace N N' l1 low p l2 a b K1 ks rs K2 :
  leaves N l1 a p (Some low) K1 -> leaves N l2 rs b None K2 -> N' !! p = Some (NLeaf ks rs) ->
  Forall (fun x => ble low x /\ below x (next_low l2 None)) ks ->
  (forall q, q ∈ pages l1 \/ q ∈ pages l2 -> N' !! q = N !! q) ->
  leaves N' (l1 ++ (low, p) :: l2) a b None (K1 ++ ks ++ K2).
Proof.
  intros H1 H2 Hp Hks Hf. apply (leaves_app _ _ _ p).
  - eapply leaves_frame; [exact H1|]. auto.
  - econstructor; [exact Hp|exact Hks|]. eapply leaves_frame; [exact H2|]. auto.
Qed.

Lemma nodup_mid_insert l1 low p l2 sep r :
  NoDup (pages (l1 ++ (low, p) :: l2)) -> r <> p -> r ∉ pages l1 -> r ∉ pages l2 -> NoDup (pages (l1 ++ (low, p) :: (sep, r) :: l2)).
Proof.
  rewrite !map_app. cbn [map snd]. intros H Hp H1 H2. apply NoDup_app in H as (D1 & D2 & D3). apply NoDup_cons in D3 as [D3 D4].
  apply NoDup_app. split_and!; [done| |].
  - intros q Hq. rewrite !elem_of_cons. intros [->|[->|Hq']]; [apply (D2 p Hq); by left|done|apply (D2 q Hq); by right].
  - apply NoDup_cons. rewrite elem_of_cons. split; [by intros [?|?]|]. by apply NoDup_cons.
Qed.

Lemma nodup_mid l1 low p l2 : NoDup (pages (l1 ++ (low, p) :: l2)) -> forall q, q ∈ pages l1 \/ q ∈ pages l2 -> q <> p.
Proof.
  rewrite map_app. cbn [map snd]. intros H. apply NoDup_app in H as (_ & H1 & H2). apply NoDup_cons in H2 as [H2 _].
  intros q [Hq|Hq] ->; [apply (H1 p Hq); by left|done].
Qed.

Lemma tower_root N ups : forall l root, tower N l ups root -> root ∈ pages l \/ root ∈ upages ups.
Proof.
  induction ups as [|u ups IH]; intros l root; cbn [tower upages].
  - intros ->. left. by apply list_elem_of_singleton.
  - intros [Hc Ht]. rewrite elem_of_app. destruct (IH _ _ Ht); auto.
Qed.

(** A tree seen from the leaf p that covers a key. *)
Record around (N : gmap Z node) (key : bytes) (ups : list level) (root a : Z)
    (l1 : level) (low : bytes) (p : Z) (l2 : level) (K1 ks : list bytes) (rs : Z) (K2 : list bytes) : Prop := {
  ar_root : root <> NullPage;
  ar_tower : tower N (l1 ++ (low, p) :: l2) ups root;
  ar_lows : StronglySorted low_lt (l1 ++ (low, p) :: l2);
  ar_pages : NoDup (pages (l1 ++ (low, p) :: l2));
  ar_ups : NoDup (upages ups);
  ar_leaf : N !! p = Some (NLeaf ks rs);
  ar_left : leaves N l1 a p (Some low) K1;
  ar_right : leaves N l2 rs NullPage None K2;
  ar_low : ble low key;
  ar_next : below key (next_low l2 None);
  ar_bounds : Forall (fun x => ble low x /\ below x (next_low l2 None)) ks;
  ar_lo : Forall (fun x => blt x key) K1;
  ar_hi : Forall (blt key) K2
}.

Lemma wp_find_leaf fuel m sz K h r s key Q E :
  fuel_ok fuel -> indexed m sz K h r s -> t_root (ix_t s) <> NullPage ->
  (forall N ups a l1 low p l2 K1 ks rs K2 path p',
    stored N sz r p' -> nodes_fit m (BodySize sz) N -> around N key ups (t_root (ix_t s)) a l1 low p l2 K1 ks rs K2 ->
    K = K1 ++ ks ++ K2 -> h = S (length ups) -> Forall2 (fun u q => at_key u key q) ups (rev path) ->
    Q (p, path) (MkIx (ix_t s) p')) ->
  (forall e p', pg_fails e -> indexed m sz K h r (MkIx (ix_t s) p') -> E (IxPage e) (MkIx (ix_t s) p')) ->
  wp (descend fuel key) s Q E.
Proof.
  intros Hf [(N & Hst & Hfit & Hsh) Hz Hso Hk] Hroot HQ HE.
  inversion Hsh as [Hr|root l ups a K' _ Ht Hl Hne Hs Hnd Hndu]; subst; [by rewrite <- Hr in Hroot|].
  eapply wp_descend; [exact Hst|exact Ht|exact Hs|exact Hl| | |].
  - pose proof (upages_length _ _ _ _ Hne Ht). unfold fuel_ok in Hf.
    pose proof (stored_length _ _ _ _ (upages ups) Hst Hndu) as Hlen.
    specialize (Hlen ltac:(intros x Hx; destruct (tower_dom _ _ _ _ Ht x Hx) as [e He]; by exists (NInt e))). lia.
  - intros p path p' Hst' (l1 & low & l2 & -> & Hlow & Hk') Hpath.
    destruct (leaves_at _ _ _ _ _ _ _ _ _ Hl Hs Hlow Hk') as (K1 & ks & rs & K2 & -> & Hp & H1 & H2 & Hb & Hlo & Hhi).
    eapply HQ; [exact Hst'|exact Hfit| |done|done|exact Hpath]. by constructor.
  - intros e p' He Hst'. apply HE; [done|]. constructor; [|done..]. exists N. by split_and!.
Qed.

(** The same tree with other keys in that leaf. *)
Lemma around_write N key ups root a l1 low p l2 K1 ks rs K2 ks' :
  around N key ups root a l1 low p l2 K1 ks rs K2 -> Forall (fun x => ble low x /\ below x (next_low l2 None)) ks' ->
  shape (<[p := NLeaf ks' rs]> N) root (K1 ++ ks' ++ K2) (S (length ups)).
Proof.
  intros [Hroot Ht Hs Hnd Hndu Hp H1 H2 _ _ _ _ _] Hks. pose proof (nodup_mid _ _ _ _ Hnd) as Hne.
  apply (shape_tree _ root (l1 ++ (low, p) :: l2) ups a); try done.
  - eapply tower_frame; [exact Ht|]. intros q Hq. rewrite lookup_insert_ne; [done|]. intros <-.
    destruct (tower_dom _ _ _ _ Ht p Hq) as [e He]. congruence.
  - eapply leaves_replace; [exact H1|exact H2|by rewrite lookup_insert_eq|exact Hks|].
    intros q Hq. rewrite lookup_insert_ne; [done|]. by apply not_eq_sym, Hne.
  - by destruct l1.
Qed.

(** The chain after a split: the right half on a new page. *)
Lemma leaves_split N N' l1 low p l2 a K1 k0 l0 r sep es rs K2 :
  leaves N l1 a p (Some low) K1 -> leaves N l2 rs NullPage None K2 ->
  N' !! p = Some (NLeaf (k0 :: l0) r) -> N' !! r = Some (NLeaf (sep :: es) rs) ->
  StronglySorted blt ((k0 :: l0) ++ sep :: es) ->
  Forall (fun x => ble low x /\ below x (next_low l2 None)) ((k0 :: l0) ++ sep :: es) ->
  (forall q, q ∈ pages l1 \/ q ∈ pages l2 -> N' !! q = N !! q) ->
  leaves N' (l1 ++ (low, p) :: (sep, r) :: l2) a NullPage None (K1 ++ ((k0 :: l0) ++ sep :: es) ++ K2) /\
  blt low sep /\ below sep (next_low l2 None).
Proof.
  intros H1 H2 Hp Hr Hs Hb Hf. apply Forall_app in Hb as [Hb1 Hb2].
  pose proof (sorted_app_cross _ _ _ Hs) as Hc. apply sorted_app_r in Hs.
  assert (Hsep : below sep (next_low l2 None)) by by inversion Hb2 as [|? ? [_ ?] _].
  split_and!; [|inversion Hb1 as [|? ? [Hk0 _] _]; inversion Hc as [|? ? Hx _]; subst; inversion Hx; subst; by eapply ble_blt_trans|done].
  apply (leaves_app _ _ _ p); [eapply leaves_frame; [exact H1|]; auto|]. rewrite <- app_assoc.
  econstructor; [exact Hp| |econstructor; [exact Hr| |eapply leaves_frame; [exact H2|]; auto]].
  - apply List.Forall_forall. intros x Hx. rewrite List.Forall_forall in Hb1, Hc. destruct (Hb1 x Hx) as [Hlow _].
    split; [done|]. specialize (Hc x Hx). inversion Hc as [|? ? Hx' _]; subst. exact Hx'.
  - inversion Hb2 as [|? ? Hb3 Hb4]; subst. constructor; [split; [apply ble_refl|done]|].
    apply List.Forall_forall. intros x Hx. inversion Hs as [|? ? _ Hf']; subst. rewrite List.Forall_forall in Hb4, Hf'.
    split; [by apply blt_ble, Hf'|by apply Hb4].
Qed.

Lemma shape_regrown N2 ups N' ups' root' l a K sz r p :
  leaves N2 l a NullPage None K -> regrown N2 ups N' ups' -> tower N' l ups' root' -> StronglySorted low_lt l ->
  NoDup (pages l) -> l <> [] -> (forall q, q ∈ upages ups -> exists ents, N2 !! q = Some (NInt ents)) -> stored N' sz r p ->
  shape N' root' K (S (length ups')).
Proof.
  intros Hl Hrg Ht Hs Hnd Hne Hup Hst.
  assert (Hl' : leaves N' l a NullPage None K).
  { eapply leaves_frame; [exact Hl|]. intros q Hq. destruct (leaves_dom _ _ _ _ _ _ Hl q Hq) as (ks & rs & E). rewrite E.
    apply (rg_same _ _ _ _ Hrg); [done|]. intros Hx. destruct (Hup q Hx) as [? ?]. congruence. }
  apply (shape_tree _ root' l ups' a); try done; [|apply Hrg].
  assert (Hr : exists nd, N' !! root' = Some nd).
  { destruct (tower_root _ _ _ _ Ht) as [Hr|Hr].
    - destruct (leaves_dom _ _ _ _ _ _ Hl' _ Hr) as (ks & rs & E). by eexists.
    - destruct (tower_dom _ _ _ _ Ht _ Hr) as [e E]. by eexists. }
  destruct Hr as [nd Hr]. apply (stored_page _ _ _ _ _ _ Hst Hr).
Qed.

Lemma wp_splitLeaf onRoot m sz key N ups a l1 low p l2 K1 ks rs K2 keys' path r s Q E :
  root_quiet onRoot -> small m (BodySize sz) -> sized sz (ix_t s) -> nodes_fit m (BodySize sz) N ->
  stored N sz (S (S (length ups)) + r) (ix_p s) ->
  around N key ups (t_root (ix_t s)) a l1 low p l2 K1 ks rs K2 -> Forall2 (fun u q => at_key u key q) ups (rev path) ->
  StronglySorted blt keys' -> Forall (fun x => ble low x /\ below x (next_low l2 None)) keys' ->
  Forall (fun k => bytes_ok k /\ 6 <= blen k <= m) keys' -> BodySize sz < leaf_total keys' <= BodySize sz + (m + 4) ->
  (forall N' h' root' p', stored N' sz r p' -> nodes_fit m (BodySize sz) N' -> shape N' root' (K1 ++ keys' ++ K2) h' ->
    (h' <= S (S (length ups)))%nat -> Q tt (MkIx (set_root root' (ix_t s)) p')) ->
  (forall e s', pg_fails e -> E (IxPage e) s') ->
  wp (splitLeaf onRoot p keys' rs path) s Q E.
Proof.
  intros Hq Hsm Hz Hfit Hst [Hroot Ht Hs Hnd Hndu Hp H1 H2 Hlow Hnext _ _ _] Hpath Hks Hb Hok Htot HQ HE.
  assert (Hlen : Forall (fun k => 6 <= blen k <= m) keys') by (eapply Forall_impl; [exact Hok|]; by intros ? []).
  assert (Hbytes : Forall bytes_ok keys') by (eapply Forall_impl; [exact Hok|]; by intros ? []).
  assert (Hrs : in_u 32 rs) by (by destruct (stored_ok _ _ _ _ _ _ Hst Hp)).
  pose proof (nodup_mid _ _ _ _ Hnd) as Hne.
  destruct (leaf_split m (BodySize sz) keys' NullPage NullPage Hsm (sz_pos _ _ Hz) Hlen Htot)
    as (k0 & l0 & sep & es & E1 & E2 & F1 & F2).
  unfold splitLeaf. set (mid := (length keys' / 2)%nat) in *. rewrite E1, E2 in *.
  assert (Ek : keys' = (k0 :: l0) ++ sep :: es) by by rewrite <- E1, <- E2, take_drop.
  rewrite Ek in Hbytes. apply Forall_app in Hbytes as [B1 B2].
  apply wp_bind. eapply (wp_lift _ sep); [done|].
  apply wp_bind. eapply (wp_new N sz _ s (NLeaf (sep :: es) rs)); [exact Hst|apply Hz|done|apply F2| |by intros; apply HE].
  intros rp p2 Hrp Hrp32 _ Hrp0 Hst2. apply wp_bind.
  assert (Hprp : p <> rp) by congruence.
  eapply (wp_write _ sz _ _ p (NLeaf (k0 :: l0) rp)); [exact Hst2|by rewrite lookup_insert_ne|apply Hz|done|apply F1| |by intros; apply HE].
  intros p3 Hst3. cbn [ix_t]. set (N2 := <[p := NLeaf (k0 :: l0) rp]> (<[rp := NLeaf (sep :: es) rs]> N)) in *.
  assert (HN2 : forall q, q <> p -> q <> rp -> N2 !! q = N !! q).
  { intros q ? ?. unfold N2. by rewrite !lookup_insert_ne by done. }
  assert (Hrpl : forall q, q ∈ pages l1 \/ q ∈ pages l2 -> q <> rp).
  { intros q [Hq'|Hq'] ->.
    - destruct (leaves_dom _ _ _ _ _ _ H1 rp Hq') as (? & ? & ?). congruence.
    - destruct (leaves_dom _ _ _ _ _ _ H2 rp Hq') as (? & ? & ?). congruence. }
  assert (Hin : forall q, q ∈ pages l1 \/ q ∈ pages l2 -> N2 !! q = N !! q).
  { intros q Hq'. apply HN2; [by apply Hne|by apply Hrpl]. }
  assert (Hup : forall q, q ∈ upages ups -> N2 !! q = N !! q).
  { intros q Hq'. destruct (tower_dom _ _ _ _ Ht q Hq') as [? ?]. apply HN2; congruence. }
  rewrite Ek in Hks, Hb.
  destruct (leaves_split N N2 l1 low p l2 a K1 k0 l0 rp sep es rs K2) as (HL & Hsep & Hsep'); try done.
  { unfold N2. by rewrite lookup_insert_eq. }
  { unfold N2. rewrite lookup_insert_ne by done. by rewrite lookup_insert_eq. }
  eapply (wp_insertIntoParent onRoot m sz key Hq Hsm ups N2 r l1 low p l2 (rev path) sep rp); try done.
  - by apply nodes_fit_insert; [apply nodes_fit_insert|].
  - eapply tower_frame; [exact Ht|exact Hup].
  - by inversion B2.
  - destruct F2 as [_ F2]. inversion F2 as [|? ? F3 _]; subst. apply F3.
  - apply (stored_page _ _ _ _ _ _ Hst Hp).
  - intros N' ups' root' p' Hst' Hfit' Ht' Hrg. apply (HQ N' (S (length ups')) root' p'); [done|done| |].
    + rewrite Ek. eapply (shape_regrown N2 ups); [exact HL|exact Hrg|exact Ht'|by apply sorted_insert| |by destruct l1| |exact Hst'].
      * apply nodup_mid_insert; [done|by apply not_eq_sym| |]; intros Hx; apply (Hrpl rp); auto.
      * intros q Hq'. rewrite Hup by done. by eapply tower_dom.
    + pose proof (rg_height _ _ _ _ Hrg). lia.
Qed.

(** ** Seeking *)

(** The position pos stands before the entries R of the chain. *)
Definition at_pos (N : gmap Z node) (q : pos) (R : list bytes) : Prop :=
  (p_done q = true /\ R = []) \/
  (p_done q = false /\ exists l K2, leaves N l (p_rightSib q) NullPage None K2 /\ NoDup (pages l) /\
    R = drop (p_idx q) (p_keys q) ++ K2 /\ (p_idx q < length (p_keys q))%nat).

Lemma leaves_end N sz r p l b K : stored N sz r p -> leaves N l b NullPage None K -> b = NullPage -> l = [] /\ K = [].
Proof.
  intros Hst Hl ->. inversion Hl as [|? ? ? ? ? ? ? ? Hp]; subst; [done|].
  by destruct (stored_page _ _ _ _ _ _ Hst Hp) as [_ []].
Qed.

Lemma wp_seek_loop N sz r search l : forall n leaf K s Q E,
  stored N sz r (ix_p s) -> leaves N l leaf NullPage None K -> l <> [] -> NoDup (pages l) -> (length l <= n)%nat ->
  StronglySorted blt K ->
  (forall q A R p', stored N sz r p' -> K = A ++ R -> Forall (fun x => blt x search) A -> Forall (ble search) R ->
    at_pos N q R -> Q q (MkIx (ix_t s) p')) ->
  (forall e p', pg_fails e -> stored N sz r p' -> E (IxPage e) (MkIx (ix_t s) p')) ->
  wp (seek_loop n leaf search) s Q E.
Proof.
  induction l as [|[low p] l IH]; intros n leaf K s Q E Hst Hl Hne Hnd Hn Hs HQ HE; [done|].
  cbn [map snd] in Hnd. apply NoDup_cons in Hnd as [_ Hnd].
  destruct n as [|n]; [cbn in Hn; lia|]. inversion Hl as [|? ? ks rs ? ? ? K2 Hp Hb Hl2]; subst.
  cbn [seek_loop]. apply wp_bind. eapply wp_loadLeaf; [exact Hst|exact Hp| |exact HE]. intros p' Hst'.
  destruct (keys_split ks search) as (ka & kb & -> & Ha & Hkb & _ & Efg); [by eapply sorted_app_l|]. rewrite Efg.
  rewrite length_app. destruct (Nat.ltb_spec (length ka) (length ka + length kb)) as [Hlt|Hge].
  - apply wp_ret. apply (HQ _ ka (kb ++ K2)); [done|by rewrite app_assoc|done| |].
    + destruct kb as [|y kb]; [cbn in Hlt; lia|]. rewrite <- app_assoc in Hs. apply sorted_app_r in Hs.
      inversion Hkb as [|? ? Hy _]; subst. constructor; [done|]. inversion Hs as [|? ? _ Hf]; subst.
      eapply Forall_impl; [exact Hf|]. intros z Hz. exact (ble_trans _ _ _ Hy (blt_ble _ _ Hz)).
    + right. split; [done|]. exists l, K2. cbn [p_rightSib p_idx p_keys]. split_and!; [done|done|by rewrite drop_app_length|rewrite length_app; lia].
  - destruct kb; [|cbn in Hge; lia]. rewrite app_nil_r in *. destruct (Z.eqb_spec rs NullPage) as [Hrs|Hrs].
    + destruct (leaves_end _ _ _ _ _ _ _ Hst Hl2 Hrs) as [-> ->]. apply wp_ret. apply (HQ _ ka []); [done|by rewrite app_nil_r|done|constructor|].
      by left.
    + destruct l as [|e l]; [by inversion Hl2|].
      eapply (IH n rs K2 (MkIx (ix_t s) p')); [exact Hst'|exact Hl2|done|exact Hnd|cbn in Hn |- *; lia|by eapply sorted_app_r| |exact HE].
      intros q A R p2 Hst2 -> HA HR Hpos. apply (HQ q (ka ++ A) R); [done|by rewrite app_assoc| |done|done].
      by apply Forall_app.
Qed.

Lemma wp_seek fuel m sz K h r s search Q E :
  fuel_ok fuel -> indexed m sz K h r s -> t_root (ix_t s) <> NullPage ->
  (forall N q A R p', stored N sz r p' -> (forall p2, stored N sz r p2 -> indexed m sz K h r (MkIx (ix_t s) p2)) -> K = A ++ R ->
    Forall (fun x => blt x search) A -> Forall (ble search) R -> at_pos N q R -> Q q (MkIx (ix_t s) p')) ->
  (forall e p', pg_fails e -> indexed m sz K h r (MkIx (ix_t s) p') -> E (IxPage e) (MkIx (ix_t s) p')) ->
  wp (seek fuel search) s Q E.
Proof.
  intros Hf Hi Hroot HQ HE. unfold seek. apply wp_bind. eapply wp_find_leaf; [exact Hf|exact Hi|exact Hroot| |exact HE].
  intros N ups a l1 low p l2 K1 ks rs K2 path p' Hst Hfit Har -> -> Hpath.
  pose proof Har as [_ Ht Hs Hnd Hndu Hp H1 H2 _ _ Hb Hlo Hhi].
  assert (Hl : leaves N ((low, p) :: l2) p NullPage None (ks ++ K2)) by by econstructor.
  assert (Hlall : leaves N (l1 ++ (low, p) :: l2) a NullPage None (K1 ++ ks ++ K2)) by by eapply leaves_app.
  assert (Hi' : forall p2, stored N sz r p2 -> indexed m sz (K1 ++ ks ++ K2) (S (length ups)) r (MkIx (ix_t s) p2)).
  { intros p2 Hst2. destruct Hi as [_ I2 I3 I4]. constructor; try done. exists N. split_and!; try done.
    apply (shape_tree _ _ (l1 ++ (low, p) :: l2) ups a); try done. by destruct l1. }
  assert (Hnd2 : NoDup (pages ((low, p) :: l2))) by (rewrite map_app in Hnd; apply NoDup_app in Hnd as (_ & _ & Hnd); exact Hnd).
  eapply (wp_seek_loop N sz r search ((low, p) :: l2)); [exact Hst|exact Hl|done|exact Hnd2| |by destruct Hi as [_ _ I3 _]; eapply sorted_app_r| |].
  - unfold fuel_ok in Hf. pose proof (stored_length _ _ _ _ (pages ((low, p) :: l2)) Hst) as Hlen.
    rewrite length_map in Hlen. specialize (Hlen Hnd2).
    specialize (Hlen ltac:(intros x Hx; destruct (leaves_dom _ _ _ _ _ _ Hl x Hx) as (? & ? & ->); by eexists)). lia.
  - intros q A R p2 Hst2 E1 HA HR Hpos. apply (HQ N q (K1 ++ A) R); [done|exact Hi'|by rewrite E1, app_assoc| |done|done].
    apply Forall_app. split; [|done]. exact Hlo.
  - intros e p2 He Hst2. apply HE; [done|by apply Hi'].
Qed.

Lemma seek_field key K A R : StronglySorted blt K -> K = A ++ R -> Forall (fun x => blt x (treeKey key zeroRID)) A ->
  forall rid, rid_ok rid -> treeKey key rid ∈ K -> treeKey key rid ∈ R.
Proof.
  intros Hs -> HA rid Hr Hin. apply elem_of_app in Hin as [Hin|Hin]; [|done]. exfalso.
  rewrite List.Forall_forall in HA. apply list_elem_of_In, HA in Hin. unfold blt in Hin.
  rewrite bcmp_antisym, treeKey_cmp in Hin by (done || apply zeroRID_ok).
  pose proof (zeroRID_least rid Hr). by destruct (rid_cmp zeroRID rid).
Qed.

Lemma wp_getLocked fuel m sz K h r s key Q E :
  fuel_ok fuel -> indexed m sz K h r s ->
  (forall rid p', indexed m sz K h r (MkIx (ix_t s) p') -> rid_ok rid -> treeKey key rid ∈ K ->
    (forall rid', rid_ok rid' -> treeKey key rid' ∈ K -> rid_cmp rid rid' <> Gt) -> Q rid (MkIx (ix_t s) p')) ->
  (forall p', indexed m sz K h r (MkIx (ix_t s) p') -> (prefix_free key K -> forall rid', rid_ok rid' -> treeKey key rid' ∉ K) ->
    E ErrNotFound (MkIx (ix_t s) p')) ->
  (forall e p', pg_fails e -> indexed m sz K h r (MkIx (ix_t s) p') -> E (IxPage e) (MkIx (ix_t s) p')) ->
  wp (getLocked fuel key) s Q E.
Proof.
  intros Hf Hi HQ HN HE. unfold getLocked. apply wp_bind, wp_get.
  destruct (Z.eqb_spec (t_root (ix_t s)) NullPage) as [Hroot|Hroot].
  { apply wp_fail. destruct s as [t p]. apply HN; [done|]. intros _ rid' _.
    destruct Hi as [(N & _ & _ & Hsh) _ _ _]. cbn [ix_t] in Hroot, Hsh. rewrite Hroot in Hsh. inversion Hsh; subst; [|done].
    by intros Hx%elem_of_nil. }
  apply wp_bind. eapply wp_seek; [exact Hf|exact Hi|exact Hroot| |exact HE].
  intros N q A R p' Hst Hi2 HK HA HR Hpos. pose proof (Hi2 p' Hst) as Hi'. pose proof Hi' as [_ _ Hs Hk].
  destruct Hpos as [[Hd ->]|(Hd & l & K2 & Hl & _ & -> & Hidx)]; rewrite Hd; cbv iota.
  { apply wp_fail, HN; [done|]. intros _ rid' Hr' Hin. rewrite app_nil_r in HK. subst A.
    by apply (seek_field key K K [] Hs ltac:(by rewrite app_nil_r) HA rid' Hr'), elem_of_nil in Hin. }
  destruct (lookup_lt_is_Some_2 _ _ Hidx) as [k Hkq]. rewrite (drop_S _ _ _ Hkq) in *. cbn [app] in *.
  assert (Hkin : k ∈ K) by (rewrite HK; apply elem_of_app; right; by left).
  pose proof Hk as Hk'. rewrite List.Forall_forall in Hk'. destruct (Hk' k) as [Hkb Hkl]; [by apply list_elem_of_In|].
  destruct (treeKey_inv k Hkb ltac:(lia)) as (f & rid & -> & Hrid & _).
  apply wp_bind. eapply wp_lift; [by rewrite Hkq|]. apply wp_bind.
  destruct (treeKey_parts (E:=ixErr) f rid Hrid) as [Ef Er]. eapply wp_lift; [exact Ef|].
  pose proof (seek_field key K A _ Hs HK HA) as Hsf.
  assert (Hfirst : forall rid', rid_ok rid' -> treeKey key rid' ∈ K -> ble (treeKey f rid) (treeKey key rid')).
  { intros rid' Hr' Hin. apply (Hsf rid' Hr'), elem_of_cons in Hin as [<-|Hin]; [apply ble_refl|].
    rewrite HK in Hs. apply sorted_app_r in Hs. inversion Hs as [|? ? _ Hff]; subst. rewrite List.Forall_forall in Hff.
    by apply blt_ble, Hff, list_elem_of_In. }
  case_bool_decide as Hfk.
  - subst f. eapply wp_lift; [exact Er|]. apply HQ; try done. intros rid' Hr' Hin. specialize (Hfirst rid' Hr' Hin).
    unfold ble in Hfirst. by rewrite treeKey_cmp in Hfirst.
  - apply wp_fail, HN; [done|]. intros Hpf rid' Hr' Hin. apply Hfk. inversion HR; subst.
    by apply (field_between key (A ++ treeKey f rid :: drop (S (p_idx q)) (p_keys q) ++ K2) f rid rid'); try apply Hfirst.
Qed.

(** ** Put *)

Lemma sized_set_root sz t root : sized sz t -> sized sz (set_root root t).
Proof. by intros [? ? ?]. Qed.

Lemma key_insert_Forall (Q : bytes -> Prop) k K : Q k -> Forall Q K -> Forall Q (key_insert k K).
Proof.
  rewrite !List.Forall_forall. intros Hk HK x Hx. apply list_elem_of_In, key_insert_In in Hx as [->|Hx]; [done|].
  by apply HK, list_elem_of_In.
Qed.

Lemma indexed_room m sz K h r r' s : indexed m sz K h r s -> (r' <= r)%nat -> indexed m sz K h r' s.
Proof.
  intros [(N & H1 & H2 & H3) I2 I3 I4] Hle. constructor; try done. exists N. split_and!; [|done|done].
  by eapply stored_sub.
Qed.

Lemma leaf_total_insert ka full kb : leaf_total (ka ++ full :: kb) = leaf_total (ka ++ kb) + (blen full + slotDirEntry).
Proof. rewrite !cells_total_app. cbn [leaf_total]. lia. Qed.

Lemma wp_Put_insert onRoot fuel m sz K h r s full Q E :
  fuel_ok fuel -> root_quiet onRoot -> small m (BodySize sz) -> indexed m sz K h (S h + r) s -> t_root (ix_t s) <> NullPage ->
  bytes_ok full -> 6 <= blen full <= m ->
  (forall h' root p', indexed m sz (key_insert full K) h' r (MkIx (set_root root (ix_t s)) p') -> (h' <= S h)%nat ->
    Q tt (MkIx (set_root root (ix_t s)) p')) ->
  (forall e s', pg_fails e -> E (IxPage e) s') ->
  wp (Put_insert onRoot fuel full) s Q E.
Proof.
  intros Hf Hq Hsm Hi Hroot Hfb Hfl HQ HE. unfold Put_insert. apply wp_bind.
  eapply wp_find_leaf; [exact Hf|exact Hi|exact Hroot| |by intros; apply HE].
  intros N ups a l1 low p l2 K1 ks rs K2 path p1 Hst Hfit Har -> -> Hpath.
  pose proof Hi as [_ Hz Hs Hk]. pose proof (ar_leaf _ _ _ _ _ _ _ _ _ _ _ _ _ Har) as Hp.
  apply wp_bind. eapply wp_loadLeaf; [exact Hst|exact Hp| |by intros; apply HE]. intros p2 Hst2.
  assert (Hss : StronglySorted blt ks) by by apply sorted_app_r, sorted_app_l in Hs.
  destruct (keys_split ks full Hss) as (ka & kb & -> & Ha & Hb & Ekp & _). rewrite Ekp. cbn [ix_t].
  set (t := ix_t s) in *. assert (Et : set_root (t_root t) t = t) by by destruct t.
  destruct (key_at_head ka kb full Ha Hb) as [(kb' & -> & Eh)|[Eh Hb']].
  - rewrite Eh, bool_decide_true by done. apply wp_ret. rewrite <- Et. apply (HQ (S (length ups))); [|lia]. rewrite Et.
    assert (Ek : key_insert full (K1 ++ (ka ++ full :: kb') ++ K2) = K1 ++ (ka ++ full :: kb') ++ K2).
    { rewrite key_insert_app by apply Har. rewrite <- app_assoc, key_insert_app by done. cbn [app key_insert]. by rewrite bcmp_refl. }
    rewrite Ek. constructor; try done. exists N. split_and!; [by eapply stored_sub; [exact Hst2| |lia]|done|].
    destruct Har. apply (shape_tree _ _ (l1 ++ (low, p) :: l2) ups a); try done; [by eapply leaves_app; [|econstructor]|by destruct l1].
  - rewrite bool_decide_false by done. rewrite insert_at_app. apply wp_bind, wp_get. cbn [ix_t].
    specialize (Hb' Hss).
    assert (Ek : key_insert full (K1 ++ (ka ++ kb) ++ K2) = K1 ++ (ka ++ full :: kb) ++ K2).
    { destruct (key_insert_between K1 ka kb K2 full) as [E0|[]]; try apply Har; done. }
    set (keys' := ka ++ full :: kb) in *.
    assert (Hk' : Forall (fun k => bytes_ok k /\ 6 <= blen k <= m) (key_insert full (K1 ++ (ka ++ kb) ++ K2))) by by apply key_insert_Forall.
    assert (Hs' : StronglySorted blt (key_insert full (K1 ++ (ka ++ kb) ++ K2))) by by apply key_insert_sorted.
    assert (Hb2 : Forall (fun x => ble low x /\ below x (next_low l2 None)) keys').
    { pose proof (ar_bounds _ _ _ _ _ _ _ _ _ _ _ _ _ Har) as Hbd. apply Forall_app in Hbd as [Hbd1 Hbd2].
      apply Forall_app. split; [done|]. constructor; [split; apply Har|done]. }
    assert (Hkeys : Forall (fun k => bytes_ok k /\ 6 <= blen k <= m) keys').
    { rewrite Ek in Hk'. by apply Forall_app in Hk' as [_ Hk']; apply Forall_app in Hk' as [Hk' _]. }
    unfold leafFits. rewrite (sz_body _ _ Hz). destruct (Z.leb_spec (leaf_total keys') (BodySize sz)) as [Hle|Hgt].
    + assert (Hfit' : node_fit m (BodySize sz) (NLeaf keys' rs)).
      { split; [done|]. eapply Forall_impl; [exact Hkeys|]. by intros ? []. }
      eapply (wp_write N sz _ _ p (NLeaf keys' rs)); [exact Hst2|exact Hp|apply Hz| |done| |by intros; apply HE].
      { destruct (stored_ok _ _ _ _ _ _ Hst2 Hp) as [_ Hrs]. split; [|done]. eapply Forall_impl; [exact Hkeys|]. by intros ? []. }
      intros p3 Hst3. cbn [ix_t]. rewrite <- Et. apply (HQ (S (length ups))); [|lia]. rewrite Et.
      constructor; try done. exists (<[p := NLeaf keys' rs]> N).
      split_and!; [by eapply stored_sub; [exact Hst3| |lia]|by apply nodes_fit_insert|]. rewrite Ek. by eapply around_write.
    + eapply (wp_splitLeaf onRoot m sz full N ups a l1 low p l2 K1 (ka ++ kb) rs K2 keys'); try done.
      * rewrite Ek in Hs'. by apply sorted_app_r, sorted_app_l in Hs'.
      * split; [done|]. unfold keys'. rewrite leaf_total_insert. destruct (Hfit _ _ Hp) as [Htot _].
        unfold node_total in Htot. cbn [node_cells] in Htot. unfold slotDirEntry. lia.
      * intros N' h' root' p' Hst' Hfit' Hsh' Hh'. apply (HQ h'); [|done]. rewrite <- Ek in Hsh'.
        constructor; [|by apply sized_set_root|done|done]. exists N'. by split_and!.
Qed.

Lemma root_empty m sz K h r s : indexed m sz K h r s -> t_root (ix_t s) = NullPage -> K = [] /\ h = 0%nat.
Proof.
  intros [(N & _ & _ & Hsh) _ _ _] Hroot. rewrite Hroot in Hsh. by inversion Hsh.
Qed.

Lemma small_leaf m B k rs : small m B -> 6 <= blen k <= m -> node_fit m B (NLeaf [k] rs).
Proof.
  intros [Hm Hsm] Hk. split; [|by apply Forall_singleton]. unfold node_total. cbn [node_cells leaf_total]. unfold slotDirEntry. nia.
Qed.

Lemma wp_Put_first onRoot m sz r s full Q E :
  root_quiet onRoot -> small m (BodySize sz) -> indexed m sz [] 0 (S r) s -> bytes_ok full -> 6 <= blen full <= m ->
  (forall root p', indexed m sz [full] 1 r (MkIx (set_root root (ix_t s)) p') -> Q tt (MkIx (set_root root (ix_t s)) p')) ->
  (forall e s', pg_fails e -> E (IxPage e) s') ->
  wp (ibind (newLeaf [full] NullPage) (newRoot onRoot)) s Q E.
Proof.
  intros Hq Hsm [(N & Hst & Hfit & _) Hz _ _] Hb Hl HQ HE. apply wp_bind.
  pose proof (small_leaf m (BodySize sz) full NullPage Hsm Hl) as Hfit'.
  eapply (wp_new N sz r s (NLeaf [full] NullPage)); [exact Hst|apply Hz| |apply Hfit'| |by intros; apply HE].
  { split; [by apply Forall_singleton|]. unfold in_u, NullPage. lia. }
  intros n p' Hn Hu _ Hn0 Hst'. apply HQ. constructor; [|by apply sized_set_root|by repeat constructor|by apply Forall_singleton].
  exists (<[n := NLeaf [full] NullPage]> N). split_and!; [cbn [ix_p]; by apply stored_root|by apply nodes_fit_insert|].
  cbn [ix_t t_root set_root]. apply (shape_tree _ n [([], n)] [] n); try done.
  - apply (leaves_cons _ [] n [full] NullPage [] NullPage None []); [by rewrite lookup_insert_eq| |constructor].
    apply Forall_singleton. split; [apply ble_nil|done].
  - by repeat constructor.
  - apply NoDup_singleton.
  - constructor.
Qed.

Lemma treeKey_bytes key rid : bytes_ok key -> bytes_ok (treeKey key rid).
Proof. intros H. unfold treeKey, putRIDSuffix. apply Forall_app_2; [done|]. apply Forall_app_2; apply bytes_ok_be. Qed.

Lemma key_insert_present k K : StronglySorted blt K -> k ∈ K -> key_insert k K = K.
Proof.
  induction 1 as [|x K Hs IH Hf]; intros Hin; [by apply elem_of_nil in Hin|]. cbn [key_insert].
  apply elem_of_cons in Hin as [->|Hin]; [by rewrite bcmp_refl|]. rewrite List.Forall_forall in Hf.
  pose proof (Hf k ltac:(by apply list_elem_of_In)) as Hlt. rewrite bcmp_antisym, Hlt. cbn [CompOpp]. by rewrite IH.
Qed.

Lemma wp_lookup_opt fuel key s (Q : option RID -> ix P -> Prop) E :
  wp (getLocked fuel key) s (fun r => Q (Some r)) (fun _ => Q None) -> wp (lookup_opt fuel key) s Q E.
Proof. unfold wp, lookup_opt. by destruct (getLocked fuel key s) as [[r|e|] s']. Qed.

Section put.
Context (onRoot : Z -> P -> P) (fuel : nat) (m sz : Z) (key : bytes) (rid : RID) (txn : Tx).
Context (Hf : fuel_ok fuel) (Hq : root_quiet onRoot) (Hsm : small m (BodySize sz)).
Context (Hkey : bytes_ok key) (Hrid : rid_ok rid) (Hlen : blen key + 6 <= m).

Lemma full_ok : bytes_ok (treeKey key rid) /\ 6 <= blen (treeKey key rid) <= m.
Proof. split; [by apply treeKey_bytes|]. unfold blen in *. rewrite treeKey_length. lia. Qed.

(** What an insertion promises: the key is in; in a unique index on pages that
    are always there, it was already the first of its field if there was one. *)
Definition put_done (K : list bytes) (h r : nat) (t : BTree) (s' : ix P) : Prop :=
  (exists h' root, indexed m sz (key_insert (treeKey key rid) K) h' r s' /\ (h' <= S h)%nat /\ ix_t s' = set_root root t) /\
  (t_unique t = true -> (forall e, ~ pg_fails e) -> prefix_free key K ->
    forall rid', rid_ok rid' -> treeKey key rid' ∈ K -> treeKey key rid ∈ K /\ rid_cmp rid rid' <> Gt).

(** How it fails: before it changes anything, or in the pager. *)
Definition put_fails (K : list bytes) (h r : nat) (s : ix P) (e : ixErr) (s' : ix P) : Prop :=
  (e = ErrReadOnly /\ x_readOnly txn = true /\ s' = s) \/
  (e = ErrKeyTooLarge /\ blen key + 10 > t_maxKey (ix_t s) /\ s' = s) \/
  (e = ErrDuplicateKey /\ t_unique (ix_t s) = true /\ 
    (exists rid', rid_ok rid' /\ rid' <> rid /\ treeKey key rid' ∈ K /\
      forall rid2, rid_ok rid2 -> treeKey key rid2 ∈ K -> rid_cmp rid' rid2 <> Gt) /\
    indexed m sz K h r s' /\ ix_t s' = ix_t s) \/
  (exists pe, e = IxPage pe /\ pg_fails pe).

Lemma wp_Put K h r s :
  indexed m sz K h (S h + r) s ->
  wp (Put onRoot fuel txn key rid) s (fun _ => put_done K h r (ix_t s)) (put_fails K h (S h + r) s).
Proof.
  intros Hi. destruct full_ok as [Hfb Hfl]. unfold Put.
  assert (Hpe : forall e s', pg_fails e -> put_fails K h (S h + r) s (IxPage e) s') by (intros; right; right; right; eauto).
  destruct (x_readOnly txn) eqn:Ero; [apply wp_fail; left; done|]. apply wp_bind, wp_get.
  destruct (Z.gtb_spec (blen (treeKey key rid) + slotDirEntry) (t_maxKey (ix_t s))) as [Hbig|_].
  { apply wp_fail. right; left. unfold blen, slotDirEntry in *. rewrite treeKey_length in Hbig. split_and!; [done|lia|done]. }
  destruct (Z.eqb_spec (t_root (ix_t s)) NullPage) as [Hroot|Hroot].
  { destruct (root_empty _ _ _ _ _ _ Hi Hroot) as [-> ->]. eapply wp_Put_first; [done|done|exact Hi|done|done| |exact Hpe].
    intros root p' Hi'. split; [exists 1%nat, root; by split_and!|]. intros _ _ _ rid' _ Hin. by apply elem_of_nil in Hin. }
  assert (Hins : forall p1, indexed m sz K h (S h + r) (MkIx (ix_t s) p1) ->
    (t_unique (ix_t s) = true -> (forall e, ~ pg_fails e) -> prefix_free key K ->
      forall rid', rid_ok rid' -> treeKey key rid' ∈ K -> treeKey key rid ∈ K /\ rid_cmp rid rid' <> Gt) ->
    wp (Put_insert onRoot fuel (treeKey key rid)) (MkIx (ix_t s) p1) (fun _ => put_done K h r (ix_t s)) (put_fails K h (S h + r) s)).
  { intros p1 Hi1 Hu. eapply wp_Put_insert; [done|done|done|exact Hi1|done|done|done| |exact Hpe].
    intros h' root p' Hi' Hh'. split; [|done]. exists h', root. by split_and!. }
  destruct (t_unique (ix_t s)) eqn:Eu; [|destruct s as [t p]; by apply (Hins p)].
  apply wp_bind, wp_lookup_opt. eapply wp_getLocked; [done|exact Hi| | |].
  - intros rid0 p1 Hi1 Hr0 Hin Hleast. case_bool_decide as Heq.
    + subst rid0. apply wp_ret. split; [|intros _ _ _ rid' Hr' Hin'; split; [done|by apply Hleast]].
      exists h, (t_root (ix_t s)). split_and!; [|lia|by destruct (ix_t s)].
      rewrite key_insert_present; [by eapply indexed_room; [exact Hi1|lia]|apply Hi|done].
    + apply wp_fail. right; right; left. split_and!; try done. by exists rid0.
  - intros p1 Hi1 Hno. apply (Hins p1); [done|]. intros _ _ Hpf rid' Hr' Hin. by destruct (Hno Hpf rid' Hr').
  - intros e p1 He Hi1. apply (Hins p1); [done|]. intros _ Hnf. by destruct (Hnf e He).
Qed.
End put.

(** ** Delete *)

Lemma key_delete_found K1 ka kb K2 full :
  Forall (fun x => blt x full) K1 -> Forall (fun x => blt x full) ka ->
  key_delete full (K1 ++ (ka ++ full :: kb) ++ K2) = K1 ++ (ka ++ kb) ++ K2.
Proof.
  intros H1 H2. rewrite key_delete_app by done. rewrite <- !app_assoc, key_delete_app by done. cbn [app key_delete].
  by rewrite bool_decide_true.
Qed.

Lemma Forall_remove {A} (Q : A -> Prop) ka x kb : Forall Q (ka ++ x :: kb) -> Forall Q (ka ++ kb).
Proof. rewrite !Forall_app, Forall_cons. tauto. Qed.

Lemma between_not_in K1 ka kb K2 full :
  Forall (fun x => blt x full) K1 -> Forall (fun x => blt x full) ka -> Forall (blt full) kb -> Forall (blt full) K2 ->
  full ∉ K1 ++ (ka ++ kb) ++ K2.
Proof.
  rewrite !List.Forall_forall. intros H1 H2 H3 H4 Hin. rewrite !elem_of_app, !list_elem_of_In in Hin.
  destruct Hin as [Hx|[[Hx|Hx]|Hx]]; apply (blt_irrefl full); auto.
Qed.

Lemma indexed_delete m sz K h r s full N : sized sz (ix_t s) -> StronglySorted blt K ->
  Forall (fun k => bytes_ok k /\ 6 <= blen k <= m) K -> stored N sz r (ix_p s) -> nodes_fit m (BodySize sz) N ->
  shape N (t_root (ix_t s)) (key_delete full K) h -> indexed m sz (key_delete full K) h r s.
Proof.
  intros Hz Hs Hk Hst Hfit Hsh. constructor; [by exists N|done|by apply key_delete_sorted|].
  rewrite List.Forall_forall in *. intros x Hx. apply Hk, list_elem_of_In, (key_delete_sub full). by apply list_elem_of_In.
Qed.

Section delete.
Context (fuel : nat) (m sz : Z) (key : bytes) (rid : RID) (txn : Tx) (Hf : fuel_ok fuel).

(** A deletion that fails leaves the entries. *)
Definition delete_fails (K : list bytes) (h r : nat) (s : ix P) (e : ixErr) (s' : ix P) : Prop :=
  indexed m sz K h r s' /\ ix_t s' = ix_t s /\
  ((e = ErrReadOnly /\ x_readOnly txn = true) \/ (e = ErrNotFound /\ treeKey key rid ∉ K) \/ (exists pe, e = IxPage pe /\ pg_fails pe)).

Lemma wp_Delete K h r s :
  indexed m sz K h r s ->
  wp (Delete fuel txn key rid) s
    (fun _ s' => treeKey key rid ∈ K /\ indexed m sz (key_delete (treeKey key rid) K) h r s' /\ ix_t s' = ix_t s)
    (delete_fails K h r s).
Proof.
  intros Hi. unfold Delete. destruct (x_readOnly txn) eqn:Ero; [apply wp_fail; split_and!; by try left|]. apply wp_bind, wp_get.
  destruct (Z.eqb_spec (t_root (ix_t s)) NullPage) as [Hroot|Hroot].
  { apply wp_fail. split_and!; [done|done|right; left; split; [done|]]. destruct (root_empty _ _ _ _ _ _ Hi Hroot) as [-> _].
    by intros Hx%elem_of_nil. }
  set (full := treeKey key rid). apply wp_bind. eapply wp_find_leaf; [exact Hf|exact Hi|exact Hroot| |].
  2: { intros e p' He Hi'. split_and!; [done|done|right; right; eauto]. }
  intros N ups a l1 low p l2 K1 ks rs K2 path p1 Hst Hfit Har -> -> _. pose proof Hi as [_ Hz Hs Hk].
  pose proof Har as [Hr Ht Hlo Hnd Hndu Hp H1 H2 Hlow Hnext Hb Hka Hkc].
  assert (Hi' : forall p2, stored N sz r p2 -> indexed m sz (K1 ++ ks ++ K2) (S (length ups)) r (MkIx (ix_t s) p2)).
  { intros p2 Hst2. constructor; try done. exists N. split_and!; try done.
    apply (shape_tree _ _ (l1 ++ (low, p) :: l2) ups a); try done; [by eapply leaves_app; [|econstructor]|by destruct l1]. }
  assert (HE : forall e p2, pg_fails e -> stored N sz r p2 ->
    delete_fails (K1 ++ ks ++ K2) (S (length ups)) r s (IxPage e) (MkIx (ix_t s) p2)).
  { intros e p2 He Hst2. split_and!; [by apply Hi'|done|right; right; eauto]. }
  apply wp_bind. eapply wp_loadLeaf; [exact Hst|exact Hp| |exact (fun e p2 => HE e p2)]. intros p2 Hst2.
  assert (Hss : StronglySorted blt ks) by by apply sorted_app_r, sorted_app_l in Hs.
  destruct (keys_split ks full Hss) as (ka & kb & -> & Ha & Hkb & Ekp & _). rewrite Ekp.
  destruct (key_at_head ka kb full Ha Hkb) as [(kb' & -> & Eh)|[Eh Hb']].
  - rewrite Eh, bool_decide_true by done.
    assert (Ed : take (length ka) (ka ++ full :: kb') ++ drop (S (length ka)) (ka ++ full :: kb') = ka ++ kb').
    { rewrite take_app_length. f_equal. rewrite <- Nat.add_1_r, <- drop_drop, drop_app_length. done. }
    rewrite Ed. destruct (Hfit _ _ Hp) as [F1 F2]. destruct (stored_ok _ _ _ _ _ _ Hst2 Hp) as [O1 O2].
    assert (Hfit' : node_fit m (BodySize sz) (NLeaf (ka ++ kb') rs)).
    { split; [|by eapply Forall_remove]. unfold node_total in *. cbn [node_cells] in *. rewrite leaf_total_insert in F1.
      unfold blen, slotDirEntry in F1. lia. }
    eapply (wp_write N sz _ _ p (NLeaf (ka ++ kb') rs)); [exact Hst2|exact Hp|apply Hz| |apply Hfit'| |exact (fun e p2 => HE e p2)].
    { split; [by eapply Forall_remove|done]. }
    intros p3 Hst3. cbn [ix_t] in *. split_and!; [rewrite !elem_of_app; right; left; right; by left| |done].
    eapply indexed_delete; [done|done|done|exact Hst3|by apply nodes_fit_insert|].
    rewrite key_delete_found by done. eapply around_write; [exact Har|by eapply Forall_remove].
  - rewrite bool_decide_false by done. apply wp_fail. split_and!; [by apply Hi'|done|right; left; split; [done|]].
    by apply between_not_in; auto.
Qed.
End delete.
End spec.
