(* ===== verification/BTreeScan.v ===== *)
(** * index/cursor.go: what a scan yields

    A cursor opened by Scan and read to its end yields the entries whose fields
    lie in the range, in key order, or stops early with the pager's error. *)

From S2P Require Import Prelude Rid Checksum Page Slotted Bson BsonCompare KeyEnc PageStore BNode BTree BTreeInv BTreeSpec.
#[local] Open Scope ix_scope.

(** ** Ranges of fields *)

Definition hi_ok (hi : option bytes) (incl : bool) (f : bytes) : bool :=
  match hi with None => true | Some h => if incl then bleb f h else bltb f h end.

Definition lo_ok (lo : option bytes) (incl : bool) (f : bytes) : bool :=
  match lo with None => true | Some l => if incl then bleb l f else bltb l f end.

(** The field of a tree key of at least six bytes. *)
Definition field (k : bytes) : bytes := take (length k - ridSuffixLen) k.

Lemma field_treeKey f rid : field (treeKey f rid) = f.
Proof.
  unfold field, ridSuffixLen. rewrite treeKey_length. unfold treeKey. replace (length f + 6 - 6)%nat with (length f) by lia.
  by rewrite take_app_length.
Qed.

(** Strings neither of which is a prefix of the other differ before they end. *)
Lemma bcmp_no_prefix f g u v : ~ f `prefix_of` g -> ~ g `prefix_of` f -> bcmp (f ++ u) (g ++ v) = bcmp f g.
Proof.
  revert g. induction f as [|a f IH]; intros g Hf Hg; [by destruct Hf; apply prefix_nil|].
  destruct g as [|b g]; [by destruct Hg; apply prefix_nil|]. cbn [app]. rewrite !bcmp_cons.
  destruct (a ?= b) eqn:E; cbn [then_cmp]; [|done|done]. apply Z.compare_eq in E as ->.
  apply IH; intros H; [apply Hf|apply Hg]; by apply prefix_cons.
Qed.

(** Fields of the index, none a prefix of another. *)
Definition all_prefix_free (K : list bytes) : Prop :=
  forall f rid, rid_ok rid -> treeKey f rid ∈ K -> prefix_free f K.

Definition entries_ok (K : list bytes) : Prop := Forall (fun k => exists f rid, k = treeKey f rid /\ rid_ok rid /\ bytes_ok f) K.

Lemma entries_of K m : Forall (fun k => bytes_ok k /\ 6 <= blen k <= m) K -> entries_ok K.
Proof. intros H. eapply Forall_impl; [exact H|]. intros k [H1 H2]. apply treeKey_inv; [done|lia]. Qed.

(** Fields follow the order of the keys. *)
Lemma field_mono K x y : entries_ok K -> all_prefix_free K -> x ∈ K -> y ∈ K -> blt x y -> ble (field x) (field y).
Proof.
  intros He Hp Hx Hy Hlt. unfold entries_ok in He. rewrite List.Forall_forall in He.
  destruct (He x ltac:(by apply list_elem_of_In)) as (f & r & -> & Hr & _).
  destruct (He y ltac:(by apply list_elem_of_In)) as (g & r' & -> & Hr' & _). rewrite !field_treeKey.
  destruct (decide (g = f)) as [->|Hne]; [apply ble_refl|]. destruct (Hp f r Hr Hx g r' Hr' Hy Hne) as [N1 N2].
  unfold blt, treeKey in Hlt. rewrite bcmp_no_prefix in Hlt by done. unfold ble. by rewrite Hlt.
Qed.

(** Zeros are not above any longer string. *)
Lemma zeros_least n : forall x, bytes_ok x -> (n <= length x)%nat -> ble (replicate n 0) x.
Proof.
  unfold ble. induction n as [|n IH]; intros x Hx Hl; cbn [replicate]; [apply ble_nil|].
  destruct x as [|b x]; [cbn in Hl; lia|]. inversion Hx as [|? ? Hb Hx']; subst. rewrite bcmp_cons.
  destruct (Z.compare_spec 0 b) as [|Hb'|Hb']; cbn [then_cmp]; [|done|unfold byte_ok in Hb; lia].
  apply IH; [done|cbn in Hl; lia].
Qed.

(** Seeking a field's first key finds the first field not below it. *)
Lemma lo_search lo f rid :
  bytes_ok f -> rid_ok rid -> (f `prefix_of` lo -> f = lo) -> ble (treeKey lo zeroRID) (treeKey f rid) <-> ble lo f.
Proof.
  intros Hf Hr Hpre. destruct (decide (lo `prefix_of` f)) as [[t ->]|N1].
  - split; intros _.
    + rewrite <- (app_nil_r lo) at 1. unfold ble. rewrite bcmp_app_same. apply ble_nil.
    + unfold treeKey, ble. rewrite <- app_assoc, bcmp_app_same.
      assert (Hb : bytes_ok (t ++ putRIDSuffix rid)).
      { pose proof (treeKey_bytes (lo ++ t) rid Hf) as H. unfold treeKey in H. rewrite <- app_assoc in H.
        by apply Forall_app in H as [_ H]. }
      apply (zeros_least 6); [done|]. rewrite length_app. unfold putRIDSuffix. rewrite length_app, !length_be_bytes. lia.
  - destruct (decide (f `prefix_of` lo)) as [Hp|N2]; [by rewrite (Hpre Hp) in N1; destruct N1|].
    unfold treeKey, ble. by rewrite bcmp_no_prefix.
Qed.

(** ** Ranges of sorted entries *)

Fixpoint hi_prefix (hi : option bytes) (incl : bool) (R : list bytes) : list bytes :=
  match R with
  | [] => []
  | k :: R' => if hi_ok hi incl (field k) then k :: hi_prefix hi incl R' else []
  end.

Fixpoint skip_field (lo : bytes) (R : list bytes) : list bytes :=
  match R with
  | [] => []
  | k :: R' => if bool_decide (field k = lo) then skip_field lo R' else R
  end.

(** The fields of a list of keys do not go down. *)
Definition fields_up (R : list bytes) : Prop := StronglySorted (fun x y => ble (field x) (field y)) R.

Lemma fields_up_of K : StronglySorted blt K -> entries_ok K -> all_prefix_free K -> fields_up K.
Proof.
  intros Hs He Hp. assert (H : forall R, (forall x, x ∈ R -> x ∈ K) -> StronglySorted blt R -> fields_up R).
  { intros R Hin. induction 1 as [|x R Hs' IH Hf]; constructor.
    - apply IH. intros y Hy. apply Hin. by right.
    - rewrite List.Forall_forall in *. intros y Hy. pose proof Hy as Hy'. apply list_elem_of_In in Hy'.
      apply (field_mono K); try done; [apply Hin; by left|apply Hin; by right|by apply Hf]. }
  by apply H.
Qed.

Lemma hi_down hi incl f g : ble f g -> hi_ok hi incl g = true -> hi_ok hi incl f = true.
Proof.
  destruct hi as [h|]; [|done]. cbn. destruct incl.
  - rewrite !bleb_ble. by apply ble_trans.
  - rewrite !bltb_blt. by apply ble_blt_trans.
Qed.

Lemma hi_prefix_filter hi incl R : fields_up R -> hi_prefix hi incl R = List.filter (fun k => hi_ok hi incl (field k)) R.
Proof.
  induction 1 as [|k R Hs IH Hf]; [done|]. cbn [hi_prefix List.filter]. rewrite IH.
  destruct (hi_ok hi incl (field k)) eqn:E; [done|]. clear IH Hs. induction Hf as [|y R Hy Hf IH]; [done|]. cbn [List.filter].
  destruct (hi_ok hi incl (field y)) eqn:E'; [|done]. by rewrite (hi_down _ _ _ _ Hy E') in E.
Qed.

Lemma skip_field_filter lo R : fields_up R -> Forall (fun k => ble lo (field k)) R ->
  skip_field lo R = List.filter (fun k => bltb lo (field k)) R.
Proof.
  induction 1 as [|k R Hs IH Hf]; intros Hlo; [done|]. inversion Hlo as [|? ? Hk Hlo']; subst. cbn [skip_field List.filter].
  case_bool_decide as Hfk.
  - rewrite IH by done. rewrite (proj2 (bltb_false _ _)) by (rewrite Hfk; apply ble_refl). done.
  - assert (Hlt : blt lo (field k)) by (apply ble_lt_or_eq in Hk as [|]; congruence).
    rewrite (proj2 (bltb_blt _ _)) by done. f_equal. clear IH Hs Hlo. induction Hf as [|y R Hy Hf IH]; [done|]. cbn [List.filter].
    rewrite (proj2 (bltb_blt _ _)) by exact (blt_ble_trans _ _ _ Hlt Hy). inversion Hlo'; subst. by rewrite <- IH.
Qed.

Lemma filter_none {A} (g : A -> bool) l : Forall (fun x => g x = false) l -> List.filter g l = [].
Proof. induction 1 as [|x l Hx Hl IH]; [done|]. cbn [List.filter]. by rewrite Hx. Qed.

Lemma filter_all {A} (g : A -> bool) l : Forall (fun x => g x = true) l -> List.filter g l = l.
Proof. induction 1 as [|x l Hx Hl IH]; [done|]. cbn [List.filter]. by rewrite Hx, IH. Qed.

Lemma filter_and {A} (g h : A -> bool) l : List.filter (fun x => g x && h x) l = List.filter h (List.filter g l).
Proof. induction l as [|x l IH]; [done|]. cbn [List.filter]. destruct (g x); cbn [andb List.filter]; by rewrite IH. Qed.

Lemma skip_field_sub lo R x : x ∈ skip_field lo R -> x ∈ R.
Proof.
  induction R as [|k R IH]; cbn [skip_field]; [done|]. case_bool_decide; [|done]. intros Hx. right. auto.
Qed.

Lemma skip_field_up lo R : fields_up R -> fields_up (skip_field lo R).
Proof. induction 1 as [|k R Hs IH Hf]; cbn [skip_field]; [constructor|]. case_bool_decide; [done|]. by constructor. Qed.

(** No field of K is a proper prefix of the bound. *)
Definition bound_ok (lo : option bytes) (K : list bytes) : Prop :=
  match lo with None => True | Some l => forall f rid, rid_ok rid -> treeKey f rid ∈ K -> f `prefix_of` l -> f = l end.

(** What Scan has before it, of the entries found by its search. *)
Definition scan_start (lo : option bytes) (incl : bool) (R : list bytes) : list bytes :=
  match lo with Some l => if incl then R else skip_field l R | None => R end.

Definition scan_search (lo : option bytes) : bytes := match lo with None => [] | Some l => treeKey l zeroRID end.

Lemma scan_range K A R lo incLo hi incHi :
  StronglySorted blt K -> entries_ok K -> all_prefix_free K -> bound_ok lo K -> K = A ++ R ->
  Forall (fun x => blt x (scan_search lo)) A -> Forall (ble (scan_search lo)) R ->
  hi_prefix hi incHi (scan_start lo incLo R) = List.filter (fun k => lo_ok lo incLo (field k) && hi_ok hi incHi (field k)) K.
Proof.
  intros Hs He Hp Hb -> HA HR. pose proof (fields_up_of _ Hs He Hp) as Hup. pose proof (sorted_app_r _ _ _ Hup) as HupR.
  assert (HupS : fields_up (scan_start lo incLo R)).
  { destruct lo as [l|]; [|done]. cbn. destruct incLo; [done|by apply skip_field_up]. }
  rewrite hi_prefix_filter by done. rewrite filter_and. f_equal. rewrite List.filter_app.
  destruct lo as [l|]; cbn [scan_search scan_start lo_ok bound_ok] in *.
  - assert (Hk : forall k, k ∈ A ++ R -> ble (treeKey l zeroRID) k <-> ble l (field k)).
    { intros k Hk. unfold entries_ok in He. rewrite List.Forall_forall in He.
      destruct (He k ltac:(by apply list_elem_of_In)) as (f & rid & -> & Hr & Hf). rewrite field_treeKey.
      apply lo_search; [done|done|]. by apply (Hb f rid). }
    rewrite (filter_none _ A), app_nil_l.
    + destruct incLo; symmetry.
      * apply filter_all. rewrite List.Forall_forall in *. intros x Hx. apply bleb_ble, Hk; [|by apply HR].
        apply elem_of_app. right. by apply list_elem_of_In.
      * symmetry. apply skip_field_filter; [done|]. rewrite List.Forall_forall in *. intros x Hx. apply Hk; [|by apply HR].
        apply elem_of_app. right. by apply list_elem_of_In.
    + rewrite List.Forall_forall in *. intros x Hx. specialize (HA x Hx).
      assert (Hn : ~ ble l (field x)).
      { rewrite <- Hk by (apply elem_of_app; left; by apply list_elem_of_In). rewrite ble_not_lt. by intros H; apply H. }
      apply not_ble in Hn. destruct incLo; [by apply bleb_false|apply bltb_false; by apply blt_ble].
  - rewrite (filter_all _ R) by (apply List.Forall_forall; done). destruct A as [|x A]; [done|].
    inversion HA as [|? ? Hx _]; subst. destruct (ble_nil x). unfold blt in Hx. by rewrite bcmp_antisym, Hx.
Qed.

Section scan.
Context {P : Type} {ops : PageOps P} {laws : PageLaws P}.

(** The cursor stands on the first of the entries R. *)
Definition at_cur (N : gmap Z node) (c : cursor) (R : list bytes) : Prop :=
  exists l K2, leaves N l (c_rightSib c) NullPage None K2 /\ NoDup (pages l) /\ R = drop (c_idx c) (c_keys c) ++ K2 /\
    (c_idx c < length (c_keys c))%nat.

(** What the loop of step keeps of a cursor. *)
Definition same_bounds (c c' : cursor) : Prop := c_hi c' = c_hi c /\ c_includeHi c' = c_includeHi c.

Definition cursor_failed (c : cursor) : Prop := exists e, c_err c = Some (IxPage e) /\ pg_fails e.

Lemma wp_step_loop N sz r l : forall n c K2 s (Q : bool * cursor -> ix P -> Prop) E,
  stored N sz r (ix_p s) -> leaves N l (c_rightSib c) NullPage None K2 -> NoDup (pages l) -> (length l < n)%nat ->
  c_err c = None ->
  (forall c' p', stored N sz r p' -> same_bounds c c' -> c_err c' = None -> c_primed c' = c_primed c -> c_done c' = c_done c ->
    at_cur N c' (drop (c_idx c) (c_keys c) ++ K2) -> Q (true, c') (MkIx (ix_t s) p')) ->
  (forall c' p', stored N sz r p' -> same_bounds c c' -> c_err c' = None -> drop (c_idx c) (c_keys c) ++ K2 = [] ->
    Q (false, c') (MkIx (ix_t s) p')) ->
  (forall c' p', stored N sz r p' -> cursor_failed c' -> Q (false, c') (MkIx (ix_t s) p')) ->
  wp (step_loop n c) s Q E.
Proof.
  induction l as [|[low p] l IH]; intros n c K2 s Q E Hst Hl Hnd Hn Herr HQ1 HQ2 HQ3; (destruct n as [|n]; [cbn in Hn; lia|]); cbn [step_loop];
    (destruct (Nat.ltb_spec (c_idx c) (length (c_keys c))) as [Hlt|Hge];
    [destruct s as [t ps]; apply wp_ret; apply HQ1; try done; by eexists _, K2|]).
  - inversion Hl as [b hi|]; subst. rewrite Z.eqb_refl. destruct s as [t ps]. apply wp_ret. apply HQ2; try done.
    by rewrite drop_ge by lia.
  - inversion Hl as [|? ? ks rs ? ? ? K' Hp Hb Hl2]; subst.
    assert (Hne : c_rightSib c <> NullPage) by apply (stored_page _ _ _ _ _ _ Hst Hp).
    rewrite (proj2 (Z.eqb_neq _ _)) by done. rewrite drop_ge in HQ1, HQ2 by lia. cbn [app] in HQ1, HQ2.
    assert (Hw : wp (loadLeaf (c_rightSib c)) s (fun kr s' => wp (step_loop n (at_leaf (c_rightSib c) kr.1 0 kr.2 c)) s' Q E)
      (fun e s' => Q (false, with_err e c) s')).
    { eapply wp_loadLeaf; [exact Hst|exact Hp| |].
      - intros p' Hst'. cbn [fst snd]. cbn [map snd] in Hnd. apply NoDup_cons in Hnd as [_ Hnd].
        apply (IH n (at_leaf (c_rightSib c) ks 0 rs c) K' (MkIx (ix_t s) p')); [exact Hst'|exact Hl2|exact Hnd|cbn in Hn; lia|exact Herr| | |exact HQ3].
        + exact HQ1.
        + exact HQ2.
      - intros e p' He Hst'. apply HQ3; [done|]. by exists e. }
    unfold wp in Hw |- *. by destruct (loadLeaf (c_rightSib c) s) as [[[ks' rs']|e|] s'].
Qed.

(** What Next has still to look at. *)
Definition ready (N : gmap Z node) (c : cursor) (R : list bytes) : Prop :=
  c_err c = None /\
  ((c_done c = true /\ R = []) \/ (c_done c = false /\ c_primed c = true /\ at_cur N c R) \/
   (c_done c = false /\ c_primed c = false /\ exists x, at_cur N c (x :: R))).

Context (fuel : nat) (Hf : fuel_ok fuel).

Lemma wp_step N sz r c x R s (Q : bool * cursor -> ix P -> Prop) E :
  stored N sz r (ix_p s) -> at_cur N c (x :: R) -> c_err c = None ->
  (forall c' p', stored N sz r p' -> same_bounds c c' -> c_err c' = None -> c_primed c' = c_primed c -> c_done c' = c_done c ->
    at_cur N c' R -> Q (true, c') (MkIx (ix_t s) p')) ->
  (forall c' p', stored N sz r p' -> same_bounds c c' -> c_err c' = None -> R = [] -> Q (false, c') (MkIx (ix_t s) p')) ->
  (forall c' p', stored N sz r p' -> cursor_failed c' -> Q (false, c') (MkIx (ix_t s) p')) ->
  wp (step fuel c) s Q E.
Proof.
  intros Hst (l & K2 & Hl & Hnd & HR & Hidx) Herr HQ1 HQ2 HQ3. unfold step.
  destruct (lookup_lt_is_Some_2 _ _ Hidx) as [k Hk]. rewrite (drop_S _ _ _ Hk) in HR. cbn [app] in HR. injection HR as -> HR.
  eapply (wp_step_loop N sz r l); [exact Hst|exact Hl|exact Hnd| |done| | |exact HQ3].
  - pose proof (stored_length _ _ _ _ (pages l) Hst Hnd) as Hlen. rewrite length_map in Hlen. unfold fuel_ok in Hf.
    specialize (Hlen ltac:(intros y Hy; destruct (leaves_dom _ _ _ _ _ _ Hl y Hy) as (? & ? & ->); by eexists)). lia.
  - cbn [with_idx at_leaf c_idx c_keys]. rewrite <- HR. exact HQ1.
  - cbn [with_idx at_leaf c_idx c_keys]. rewrite <- HR. exact HQ2.
Qed.

Lemma at_cur_head N c R : at_cur N c R -> exists k R', R = k :: R' /\ c_keys c !! c_idx c = Some k.
Proof.
  intros (l & K2 & _ & _ & -> & Hidx). destruct (lookup_lt_is_Some_2 _ _ Hidx) as [k Hk].
  rewrite (drop_S _ _ _ Hk). cbn [app]. eauto.
Qed.

(** The outcome of Next on the entries R. *)
Definition next_spec (N : gmap Z node) (c : cursor) (R : list bytes) (ok : bool) (c' : cursor) : Prop :=
  same_bounds c c' /\
  if ok then exists k R', R = k :: R' /\ hi_ok (c_hi c) (c_includeHi c) (field k) = true /\ c_curKey c' = k /\ ready N c' R'
  else c_err c' = None /\ (forall k, head R = Some k -> hi_ok (c_hi c) (c_includeHi c) (field k) = false).

Lemma wp_Next N sz r c R s (Q : bool * cursor -> ix P -> Prop) E :
  stored N sz r (ix_p s) -> ready N c R -> entries_ok R ->
  (forall ok c' p', stored N sz r p' -> next_spec N c R ok c' -> Q (ok, c') (MkIx (ix_t s) p')) ->
  (forall c' p', stored N sz r p' -> cursor_failed c' -> Q (false, c') (MkIx (ix_t s) p')) ->
  wp (Next fuel c) s Q E.
Proof.
  intros Hst [Herr Hr] He HQ HF. unfold Next. rewrite Herr. cbn [orb]. rewrite bool_decide_false by (intros []; done). cbn [orb].
  destruct (c_done c) eqn:Ed.
  { destruct Hr as [(_ & ->)|[(? & _)|(? & _)]]; [|done|done]. destruct s as [t p]. apply wp_ret, HQ; [done|]. split; [done|].
    split; [done|]. intros k [=]. }
  assert (Htail : forall c1 p1, stored N sz r p1 -> same_bounds c c1 -> c_err c1 = None -> c_primed c1 = false -> c_done c1 = false ->
    at_cur N c1 R -> wp (if negb true then iret (false, with_done c1) else
      if (length (c_keys c1) <=? c_idx c1)%nat then iret (false, with_done c1) else
      ibind (ilift (or_panic (c_keys c1 !! c_idx c1))) (fun k =>
        match c_hi c1 with
        | None => iret (true, with_cur k c1)
        | Some hi => ibind (ilift (fieldOf k)) (fun f =>
            let cmp := bcmp f hi in
            let past := if c_includeHi c1 then match cmp with Gt => true | _ => false end
                        else match cmp with Lt => false | _ => true end in
            if past then iret (false, with_done c1) else iret (true, with_cur k c1))
        end)) (MkIx (ix_t s) p1) Q E).
  { intros c1 p1 Hst1 Hbd Herr1 Hp1 Hd1 Hat. pose proof Hbd as [B1 B2]. destruct (at_cur_head _ _ _ Hat) as (k & R' & -> & Hk). cbn [negb].
    rewrite (proj2 (Nat.leb_gt _ _)) by by apply lookup_lt_Some in Hk. apply wp_bind. eapply wp_lift; [by rewrite Hk|].
    assert (Hok : hi_ok (c_hi c1) (c_includeHi c1) (field k) = true -> next_spec N c (k :: R') true (with_cur k c1)).
    { intros Hhi. rewrite B1, B2 in Hhi. split; [exact Hbd|]. exists k, R'. split_and!; try done. split; [done|]. right; right. split_and!; try done.
      by exists k. }
    destruct (c_hi c1) as [hi|] eqn:Ehi; [|by apply wp_ret, HQ; [|apply Hok]].
    inversion He as [|? ? (f & rid & -> & Hrid & _) _]; subst. apply wp_bind.
    eapply wp_lift; [apply (treeKey_parts (E:=ixErr) f rid Hrid)|]. rewrite field_treeKey in Hok.
    assert (Hp : (if c_includeHi c1 then match bcmp f hi with Gt => true | _ => false end
      else match bcmp f hi with Lt => false | _ => true end) = negb (hi_ok (Some hi) (c_includeHi c1) f)).
    { unfold hi_ok, bleb, bltb. by destruct (c_includeHi c1), (bcmp f hi). }
    cbv zeta. rewrite Hp. destruct (hi_ok (Some hi) (c_includeHi c1) f) eqn:Eh; cbn [negb].
    - by apply wp_ret, HQ; [|apply Hok].
    - apply wp_ret, HQ; [done|]. split; [exact Hbd|]. split; [done|]. intros k [= <-]. by rewrite field_treeKey, <- B1, <- B2. }
  apply wp_bind. destruct (c_primed c) eqn:Ep.
  - destruct Hr as [(? & _)|[(_ & _ & Hat)|(_ & ? & _)]]; [done| |done]. destruct s as [t p]. apply wp_ret. by apply Htail.
  - destruct Hr as [(? & _)|[(_ & ? & _)|(_ & _ & x & Hat)]]; [done|done|].
    eapply wp_step; [exact Hst|exact Hat|done| | |].
    + intros c' p' Hst' Hb He' Hp' Hd' Hat'. apply (Htail c' p'); try done; congruence.
    + intros c' p' Hst' Hb He' ->. cbn [negb]. apply wp_ret, HQ; [done|]. split; [done|]. split; [done|]. intros k [=].
    + intros c' p' Hst' Hfl. cbn [negb]. by apply wp_ret, HF.
Qed.

(** The keys a cursor yielded before it ended: all of W, or a prefix of it when
    the pager failed. *)
Definition drained (W ks : list bytes) (c : cursor) : Prop :=
  (c_err c = None /\ ks = W) \/ (cursor_failed c /\ ks `prefix_of` W).

Lemma wp_drain N sz r hi incl R : forall n c s (Q : list bytes * cursor -> ix P -> Prop) E,
  stored N sz r (ix_p s) -> ready N c R -> entries_ok R -> c_hi c = hi -> c_includeHi c = incl -> (length R < n)%nat ->
  (forall ks c' p', stored N sz r p' -> drained (hi_prefix hi incl R) ks c' -> Q (ks, c') (MkIx (ix_t s) p')) ->
  wp (drain fuel n c) s Q E.
Proof.
  induction R as [|x R IH]; intros n c s Q E Hst Hr He Hh Hi Hn HQ; (destruct n as [|n]; [lia|]); cbn [drain]; apply wp_bind;
    (eapply wp_Next; [exact Hst|exact Hr|exact He| |intros c' p' Hst' Hfl; apply wp_ret, HQ; [done|right; split; [done|apply prefix_nil]]]).
  - intros ok c' p' Hst' [Hb Hok]. destruct ok; [by destruct Hok as (k & R' & [=] & _)|]. destruct Hok as [Herr _].
    apply wp_ret, HQ; [done|]. by left.
  - intros ok c' p' Hst' [[Hb1 Hb2] Hok]. destruct ok.
    + destruct Hok as (k & R' & [= <- <-] & Hhi & Hk & Hr'). apply wp_bind. inversion He as [|? ? _ He']; subst.
      eapply IH; [exact Hst'|exact Hr'|done|done|done|cbn in Hn; lia|]. intros ks c2 p2 Hst2 Hd. apply wp_ret, HQ; [done|].
      cbn [hi_prefix]. rewrite Hhi. destruct Hd as [[Herr ->]|[Hfl Hpre]]; [by left|right]. split; [done|]. by apply prefix_cons.
    + destruct Hok as [Herr Hhd]. specialize (Hhd x eq_refl). rewrite Hh, Hi in Hhd. apply wp_ret, HQ; [done|].
      left. split; [done|]. cbn [hi_prefix]. by rewrite Hhd.
Qed.

(** The cursor after the search of a scan: on the first of R, at the end, or failed. *)
Definition opened (N : gmap Z node) (c : cursor) (R : list bytes) : Prop :=
  c_err c = None /\ ((c_done c = true /\ R = []) \/ (c_done c = false /\ at_cur N c R)).

Lemma wp_skip_lo N sz r lo R : forall n c s (Q : cursor -> ix P -> Prop) E,
  stored N sz r (ix_p s) -> opened N c R -> entries_ok R -> (length R < n)%nat ->
  (forall c' p', stored N sz r p' -> (same_bounds c c' /\ opened N c' (skip_field lo R)) \/ cursor_failed c' -> Q c' (MkIx (ix_t s) p')) ->
  wp (skip_lo fuel n lo c) s Q E.
Proof.
  induction R as [|x R IH]; intros n c s Q E Hst [Herr Ho] He Hn HQ; (destruct n as [|n]; [lia|]); cbn [skip_lo].
  - destruct Ho as [[Hd _]|[_ Hat]]; [|by destruct (at_cur_head _ _ _ Hat) as (? & ? & [=] & _)].
    rewrite Hd. destruct s as [t p]. apply wp_ret, HQ; [done|]. left. split; [done|]. split; [done|]. by left.
  - destruct Ho as [[_ [=]]|[Hd Hat]]. rewrite Hd. destruct (at_cur_head _ _ _ Hat) as (k & R' & [= <- <-] & Hk).
    apply wp_bind. eapply wp_lift; [by rewrite Hk|]. inversion He as [|? ? (f & rid & -> & Hrid & _) He']; subst.
    apply wp_bind. eapply wp_lift; [apply (treeKey_parts (E:=ixErr) f rid Hrid)|]. cbn [skip_field] in HQ. rewrite field_treeKey in HQ.
    case_bool_decide as Hfl.
    + apply wp_bind. eapply wp_step; [exact Hst|exact Hat|exact Herr| | |].
      * intros c' p' Hst' Hb Herr' _ Hd' Hat'. eapply IH; [exact Hst'| |done|cbn [length] in Hn |- *; lia|].
        -- split; [done|]. right. split; [congruence|done].
        -- intros c2 p2 Hst2 [[Hb2 H2]|H2]; apply HQ; [done| |done|by right]. left. split; [|done]. destruct Hb, Hb2. split; congruence.
      * intros c' p' Hst' Hb Herr' ->. eapply IH; [exact Hst'| |done|cbn [length] in Hn |- *; lia|].
        -- split; [done|]. by left.
        -- intros c2 p2 Hst2 [[Hb2 H2]|H2]; apply HQ; [done| |done|by right]. left. split; [|done].
           destruct Hb, Hb2. split; cbn in *; congruence.
      * intros c' p' Hst' Hfl'. destruct n as [|n]; [cbn [length] in Hn; lia|]. cbn [skip_lo with_done c_done].
        apply wp_ret, HQ; [done|]. right. exact Hfl'.
    + destruct s as [t p]. apply wp_ret, HQ; [done|]. left. split; [done|]. split; [done|]. by right.
Qed.

Lemma entries_ok_app A R : entries_ok (A ++ R) -> entries_ok R.
Proof. intros H. by apply Forall_app in H as [_ H]. Qed.

Lemma ready_of_opened N c R : opened N c R -> ready N (with_primed (negb (c_done c)) c) R.
Proof.
  intros [Herr [[Hd ->]|[Hd Hat]]]; (split; [done|]); [by left|right; left]. split_and!; [done|by cbn; rewrite Hd|done].
Qed.

Lemma skip_field_entries lo R : entries_ok R -> entries_ok (skip_field lo R).
Proof.
  unfold entries_ok. rewrite !List.Forall_forall. intros H x Hx. apply H. apply list_elem_of_In in Hx. apply list_elem_of_In.
  by eapply skip_field_sub.
Qed.

(** Scan: the cursor, and the entries it has before it. *)
Lemma wp_Scan m sz K h r s lo hi opts (Q : cursor -> ix P -> Prop) (E : ixErr -> ix P -> Prop) :
  indexed m sz K h r s -> o_Reverse opts = false -> (length K < fuel)%nat ->
  (forall N c A R p', stored N sz r p' -> (forall p2, stored N sz r p2 -> indexed m sz K h r (MkIx (ix_t s) p2)) -> K = A ++ R ->
    Forall (fun x => blt x (scan_search lo)) A -> Forall (ble (scan_search lo)) R ->
    (ready N c (scan_start lo (o_IncludeLo opts) R) /\ c_hi c = hi /\ c_includeHi c = o_IncludeHi opts) \/ cursor_failed c ->
    Q c (MkIx (ix_t s) p')) ->
  (forall e p', pg_fails e -> indexed m sz K h r (MkIx (ix_t s) p') -> E (IxPage e) (MkIx (ix_t s) p')) ->
  wp (Scan fuel lo hi opts) s Q E.
Proof.
  intros Hi Hrev Hlen HQ HE. unfold Scan. rewrite Hrev. apply wp_bind, wp_get. cbv zeta.
  set (c0 := MkCursor hi (o_IncludeHi opts) 0 [] 0 0 false false None []).
  destruct (Z.eqb_spec (t_root (ix_t s)) NullPage) as [Hroot|Hroot].
  { destruct (root_empty _ _ _ _ _ _ Hi Hroot) as [-> ->]. pose proof Hi as [(N & Hst & Hfit & Hsh) I2 I3 I4].
    destruct s as [t p]. apply wp_ret. eapply (HQ N _ [] []); [exact Hst| |done|constructor|constructor|].
    - intros p2 Hst2. constructor; try done. by exists N.
    - left. split; [|done]. split; [done|]. left. split; [done|]. destruct lo as [l|]; [by destruct (o_IncludeLo opts)|done]. }
  fold (scan_search lo). apply wp_bind. eapply wp_seek; [exact Hf|exact Hi|exact Hroot| |exact HE].
  intros N q A R p1 Hst Hi2 HK HA HR Hpos. pose proof Hi as [_ _ _ I4]. pose proof (entries_of K m I4) as He.
  assert (HeR : entries_ok R) by (rewrite HK in He; by eapply entries_ok_app).
  destruct Hpos as [[Hd ->]|(Hd & l & K2 & Hl & Hnd & HRq & Hidx)]; rewrite Hd; cbv iota.
  { apply wp_ret. eapply (HQ N _ A []); [exact Hst|exact Hi2|done|exact HA|exact HR|].
    left. split; [|done]. split; [done|]. left. split; [done|]. destruct lo as [l|]; [by destruct (o_IncludeLo opts)|done]. }
  set (c1 := at_leaf (p_leaf q) (p_keys q) (p_idx q) (p_rightSib q) c0).
  assert (Ho : opened N c1 R) by (split; [done|]; right; split; [done|]; by exists l, K2).
  assert (Hfin : forall c2 p2, stored N sz r p2 ->
    (same_bounds c1 c2 /\ opened N c2 (scan_start lo (o_IncludeLo opts) R)) \/ cursor_failed c2 ->
    Q (with_primed (negb (c_done c2)) c2) (MkIx (ix_t s) p2)).
  { intros c2 p2 Hst2 H2. eapply (HQ N _ A R); [exact Hst2|exact Hi2|exact HK|exact HA|exact HR|].
    destruct H2 as [[[B1 B2] H2]|H2]; [left|right; exact H2]. split; [by apply ready_of_opened|]. split; [exact B1|exact B2]. }
  apply wp_bind. destruct lo as [lo|]; [|apply wp_ret, wp_ret, Hfin; [done|by left]].
  cbn [scan_start] in Hfin. destruct (o_IncludeLo opts) eqn:Einc; cbn [negb]; [apply wp_ret, wp_ret, Hfin; [done|by left]|].
  eapply wp_skip_lo; [exact Hst|exact Ho|exact HeR| |].
  - rewrite HK, length_app in Hlen. lia.
  - intros c2 p2 Hst2 H2. apply wp_ret, Hfin; [done|exact H2].
Qed.

(** Scan and read to the end. *)
Definition scan_all (n : nat) (lo hi : option bytes) (opts : ScanOpts) : IX P (list bytes * cursor) :=
  do! c := Scan fuel lo hi opts in drain fuel n c.

Lemma wp_scan_all m sz K h r s lo hi opts n :
  indexed m sz K h r s -> o_Reverse opts = false -> (length K < fuel)%nat -> (length K < n)%nat ->
  all_prefix_free K -> bound_ok lo K ->
  wp (scan_all n lo hi opts) s
    (fun kc s' => drained (List.filter (fun k => lo_ok lo (o_IncludeLo opts) (field k) && hi_ok hi (o_IncludeHi opts) (field k)) K) kc.1 kc.2 /\
       indexed m sz K h r s' /\ ix_t s' = ix_t s)
    (fun e s' => exists pe, e = IxPage pe /\ pg_fails pe).
Proof.
  intros Hi Hrev Hlen Hn Hpf Hb. pose proof Hi as [_ _ Hs I4]. pose proof (entries_of K m I4) as He.
  apply wp_bind. eapply wp_Scan; [exact Hi|exact Hrev|exact Hlen| |by intros e p' H _; exists e].
  intros N c A R p' Hst Hi2 HK HA HR Hc.
  rewrite <- (scan_range K A R lo (o_IncludeLo opts) hi (o_IncludeHi opts)) by done.
  assert (HlenR : (length (scan_start lo (o_IncludeLo opts) R) < n)%nat).
  { rewrite HK, length_app in Hn. assert (Hsk : forall l, (length (skip_field l R) <= length R)%nat).
    { intros l. clear. induction R as [|k R IH]; cbn [skip_field length]; [lia|]. case_bool_decide; cbn [length]; lia. }
    destruct lo as [l|]; cbn [scan_start]; [|lia]. specialize (Hsk l). destruct (o_IncludeLo opts); lia. }
  assert (HeS : entries_ok (scan_start lo (o_IncludeLo opts) R)).
  { rewrite HK in He. apply entries_ok_app in He. destruct lo as [l|]; cbn [scan_start]; [|done].
    destruct (o_IncludeLo opts); [done|by apply skip_field_entries]. }
  destruct Hc as [(Hr & H1 & H2)|Hfl].
  - eapply wp_drain; [exact Hst|exact Hr|exact HeS|exact H1|exact H2|exact HlenR|].
    intros ks c' p2 Hst2 Hd. split_and!; [exact Hd|by apply Hi2|done].
  - destruct n as [|n]; [lia|]. cbn [drain]. destruct Hfl as (e & Herr & Hpe). apply wp_bind. unfold Next. rewrite Herr.
    rewrite bool_decide_true by done. cbn [orb]. apply wp_ret, wp_ret. split_and!; [|by apply Hi2|done].
    right. split; [by exists e|apply prefix_nil].
Qed.
End scan.
