(* ===== verification/BTreeProps.v ===== *)
(** * The index against its specification

    The B-tree as an abstract sorted set of keys: every operation's outcome and
    effect, sequences of operations, and what the promises leave out. *)

From S2P Require Import Prelude Rid Checksum Page Slotted Bson BsonCompare KeyEnc PageStore BNode BTree BTreeInv BTreeSpec BTreeScan.
#[local] Open Scope ix_scope.

(** ** The specification: a sorted list of keys *)

Definition rid_of (k : bytes) : RID := match ridFromSuffix (E:=ixErr) k with Ok r => r | _ => zeroRID end.

(** The RID of the first entry of a field. *)
Fixpoint find_rid (key : bytes) (K : list bytes) : option RID :=
  match K with
  | [] => None
  | k :: K' => if bool_decide (field k = key) then Some (rid_of k) else find_rid key K'
  end.

Inductive iop : Type :=
| IPut (key : bytes) (rid : RID)
| IDelete (key : bytes) (rid : RID)
| IGet (key : bytes)
| IScan (lo hi : option bytes) (opts : ScanOpts).

Inductive iout : Type :=
| ODone
| OFail (e : ixErr)
| ORid (r : RID)
| OKeys (ks : list bytes)
| OPanic.

(** One operation on the list, in a tree that rejects duplicate fields if uniq. *)
Definition spec_op (uniq : bool) (maxKey : Z) (o : iop) (K : list bytes) : iout * list bytes :=
  match o with
  | IPut key rid =>
      if blen key + 10 >? maxKey then (OFail ErrKeyTooLarge, K)
      else match (if uniq then find_rid key K else None) with
           | Some r => if bool_decide (r = rid) then (ODone, K) else (OFail ErrDuplicateKey, K)
           | None => (ODone, key_insert (treeKey key rid) K)
           end
  | IDelete key rid =>
      if bool_decide (treeKey key rid ∈ K) then (ODone, key_delete (treeKey key rid) K) else (OFail ErrNotFound, K)
  | IGet key => (match find_rid key K with Some r => ORid r | None => OFail ErrNotFound end, K)
  | IScan lo hi opts =>
      (OKeys (List.filter (fun k => lo_ok lo (o_IncludeLo opts) (field k) && hi_ok hi (o_IncludeHi opts) (field k)) K), K)
  end.

Fixpoint spec_ops (uniq : bool) (maxKey : Z) (os : list iop) (K : list bytes) : list iout * list bytes :=
  match os with
  | [] => ([], K)
  | o :: os' => let '(x, K1) := spec_op uniq maxKey o K in let '(xs, K2) := spec_ops uniq maxKey os' K1 in (x :: xs, K2)
  end.

(** ** The same operations on the tree *)

Section run.
Context {P : Type} {ops : PageOps P} (onRoot : Z -> P -> P) (fuel : nat) (txn : Tx).

Definition out_of {A} (f : A -> iout) (x : res ixErr A * ix P) : iout * ix P :=
  (match x.1 with Ok a => f a | Err e => OFail e | Panic => OPanic end, x.2).

Definition tree_op (o : iop) (s : ix P) : iout * ix P :=
  match o with
  | IPut key rid => out_of (fun _ => ODone) (Put onRoot fuel txn key rid s)
  | IDelete key rid => out_of (fun _ => ODone) (Delete fuel txn key rid s)
  | IGet key => out_of ORid (Get fuel key s)
  | IScan lo hi opts => out_of (fun kc => OKeys kc.1) (scan_all fuel fuel lo hi opts s)
  end.

Fixpoint tree_ops (os : list iop) (s : ix P) : list iout * ix P :=
  match os with
  | [] => ([], s)
  | o :: os' => let '(x, s1) := tree_op o s in let '(xs, s2) := tree_ops os' s1 in (x :: xs, s2)
  end.
End run.

(** ** Trees to try them on *)

Definition demo (uniq : bool) : ix MemPages := OpenWithRoot 1 uniq NullPage (mem_pages 4096).
Definition demo_rw : Tx := MkTx 1 false.
Definition no_root (r : Z) (p : MemPages) : MemPages := p.

(** Pages whose Fetch fails once, when the count runs out. *)
Definition FlakyPages : Type := MemPages * nat.

#[global] Instance Flaky_ops : PageOps FlakyPages := {
  PageSize p := PageSize p.1;
  Fetch n p :=
    match p.2 with
    | 1%nat => (inl PgPoolExhausted, (p.1, 0%nat))
    | c => let '(r, q) := Fetch n p.1 in (r, (q, pred c))
    end;
  WriteBuf n b p := (WriteBuf n b p.1, p.2);
  MarkDirty n p := (MarkDirty n p.1, p.2);
  Unpin n p := (Unpin n p.1, p.2);
  Allocate p := let '(r, q) := Allocate p.1 in (r, (q, p.2));
  Commit p := let '(r, q) := Commit p.1 in (r, (q, p.2));
  ChecksumOf p := ChecksumOf p.1
}.

(** A field whose key is as long as Put allows on such pages. *)
Definition long_field (i : Z) : bytes := i :: replicate 1004 0.

Definition demo_rid : RID := MkRID 1 0.
Definition demo_rid2 : RID := MkRID 2 0.

(** Four long fields among short ones: more than half the bytes in the lower half. *)
Definition crowd : list iop :=
  IPut [0] demo_rid :: map (fun i => IPut (long_field i) demo_rid) [5; 6; 7] ++
  map (fun i => IPut [9; i] demo_rid) [0; 1; 2; 3; 4].

(** One RID per field. *)
Definition unique_fields (K : list bytes) : Prop := forall f, one_entry f K.

(** ** Fields and RIDs of sorted keys *)

Lemma rid_of_treeKey f r : rid_ok r -> rid_of (treeKey f r) = r.
Proof. intros H. unfold rid_of. by destruct (treeKey_parts (E:=ixErr) f r H) as [_ ->]. Qed.

Lemma find_rid_least key K rid :
  StronglySorted blt K -> entries_ok K -> rid_ok rid -> treeKey key rid ∈ K ->
  (forall rid', rid_ok rid' -> treeKey key rid' ∈ K -> rid_cmp rid rid' <> Gt) -> find_rid key K = Some rid.
Proof.
  intros Hs. induction Hs as [|k K Hs IH Hf]; intros He Hr Hin Hleast; [by apply elem_of_nil in Hin|].
  inversion He as [|? ? (f & r0 & -> & Hr0 & _) He']; subst. cbn [find_rid]. rewrite field_treeKey. case_bool_decide as Hfk.
  - subst f. rewrite rid_of_treeKey by done. apply elem_of_cons in Hin as [E|Hin].
    + apply (f_equal rid_of) in E. rewrite !rid_of_treeKey in E by done. by rewrite E.
    + rewrite List.Forall_forall in Hf. pose proof (Hf _ ltac:(by apply list_elem_of_In)) as Hlt. unfold blt in Hlt.
      rewrite treeKey_cmp in Hlt by done. specialize (Hleast r0 Hr0 ltac:(by left)).
      pose proof (treeKey_cmp key rid r0 Hr Hr0) as E. rewrite bcmp_antisym, treeKey_cmp, Hlt in E by done. cbn in E. congruence.
  - apply IH; [done|done| |].
    + apply elem_of_cons in Hin as [E|Hin]; [|done]. apply (f_equal field) in E. rewrite !field_treeKey in E. congruence.
    + intros rid' Hr' Hin'. apply Hleast; [done|by right].
Qed.

Lemma find_rid_none key K : entries_ok K -> (forall rid, rid_ok rid -> treeKey key rid ∉ K) -> find_rid key K = None.
Proof.
  intros He. induction He as [|k K (f & r & -> & Hr & _) He IH]; intros Hno; [done|]. cbn [find_rid]. rewrite field_treeKey.
  rewrite bool_decide_false; [|intros ->; apply (Hno r Hr); by left]. apply IH. intros rid Hrid Hin. apply (Hno rid Hrid). by right.
Qed.

Lemma find_rid_in key K r : entries_ok K -> find_rid key K = Some r -> rid_ok r /\ treeKey key r ∈ K.
Proof.
  intros He. induction He as [|k K (f & r0 & -> & Hr & _) He IH]; [done|]. cbn [find_rid]. rewrite field_treeKey.
  case_bool_decide as Hfk; intros Hfind.
  - subst f. injection Hfind as <-. rewrite rid_of_treeKey by done. split; [done|by left].
  - destruct (IH Hfind). split; [done|by right].
Qed.

Section props.
Context {P : Type} {ops : PageOps P} {laws : PageLaws P}.
Context (onRoot : Z -> P -> P) (fuel : nat) (m sz : Z).
Context (Hf : fuel_ok fuel) (Hq : root_quiet onRoot) (Hsm : small m (BodySize sz)).
(** A pager that does not fail. *)
Context (Hnofail : forall e : pgErr, ~ pg_fails e).

Lemma get_pure K h r s key :
  indexed m sz K h r s -> prefix_free key K ->
  exists p', getLocked fuel key s = (match find_rid key K with Some x => Ok x | None => Err ErrNotFound end, MkIx (ix_t s) p') /\
    indexed m sz K h r (MkIx (ix_t s) p').
Proof.
  intros Hi Hpf. pose proof Hi as [_ _ Hs Hk]. pose proof (entries_of K m Hk) as He.
  assert (Hw : wp (getLocked fuel key) s
    (fun x s' => exists p', s' = MkIx (ix_t s) p' /\ find_rid key K = Some x /\ indexed m sz K h r s')
    (fun e s' => exists p', s' = MkIx (ix_t s) p' /\ find_rid key K = None /\ e = ErrNotFound /\ indexed m sz K h r s')).
  { eapply wp_getLocked; [done|exact Hi| | |].
    - intros rid p' Hi' Hr Hin Hleast. exists p'. split_and!; [done|by apply find_rid_least|done].
    - intros p' Hi' Hno. exists p'. split_and!; [done|by apply find_rid_none; [|by apply Hno]|done|done].
    - intros e p' H. by apply Hnofail in H. }
  unfold wp in Hw. destruct (getLocked fuel key s) as [[x|e|] s']; [| |done].
  - destruct Hw as (p' & -> & -> & Hi'). by exists p'.
  - destruct Hw as (p' & -> & -> & -> & Hi'). by exists p'.
Qed.

(** The fields in use, none a prefix of another. *)
Context (F : bytes -> Prop) (HF : forall f g, F f -> F g -> f `prefix_of` g -> f = g).

Definition fields_in (K : list bytes) : Prop := forall f rid, rid_ok rid -> treeKey f rid ∈ K -> F f.

Definition op_ok (o : iop) : Prop :=
  match o with
  | IPut key rid => F key /\ bytes_ok key /\ rid_ok rid /\ blen key + 6 <= m
  | IDelete key rid => F key /\ rid_ok rid
  | IGet key => F key
  | IScan lo _ opts => o_Reverse opts = false /\ match lo with None => True | Some l => forall f, F f -> f `prefix_of` l -> f = l end
  end.

Lemma fields_prefix_free key K : fields_in K -> F key -> prefix_free key K.
Proof.
  intros HK Hkey f rid Hr Hin Hne. specialize (HK f rid Hr Hin). split; intros Hp; apply Hne; [symmetry|]; by apply HF.
Qed.

Lemma spec_op_fields uniq mk o K : op_ok o -> fields_in K -> fields_in (spec_op uniq mk o K).2.
Proof.
  intros Ho HK. destruct o as [key rid|key rid|key|lo hi opts]; cbn [spec_op]; try done.
  - destruct (_ >? _); [done|]. destruct (if uniq then _ else _); [by case_bool_decide|]. cbn [snd].
    intros f r Hr Hin. apply key_insert_In in Hin as [E|Hin]; [|by eapply HK]. apply (f_equal field) in E.
    rewrite !field_treeKey in E. subst f. apply Ho.
  - case_bool_decide; [|done]. cbn [snd]. intros f r Hr Hin. apply key_delete_sub in Hin. by eapply HK.
Qed.

Definition same_limits (s s' : ix P) : Prop := t_unique (ix_t s') = t_unique (ix_t s) /\ t_maxKey (ix_t s') = t_maxKey (ix_t s).

Lemma put_refines txn key rid K h r s :
  indexed m sz K h (S h + r) s -> op_ok (IPut key rid) -> fields_in K -> x_readOnly txn = false ->
  exists s' h', tree_op onRoot fuel txn (IPut key rid) s = ((spec_op (t_unique (ix_t s)) (t_maxKey (ix_t s)) (IPut key rid) K).1, s') /\
    indexed m sz (spec_op (t_unique (ix_t s)) (t_maxKey (ix_t s)) (IPut key rid) K).2 h' r s' /\ (h' <= S h)%nat /\ same_limits s s'.
Proof.
  intros Hi (HFk & Hkb & Hr & Hl) HK Hro. pose proof (fields_prefix_free key K HK HFk) as Hpf.
  pose proof Hi as [_ _ Hs Hk]. pose proof (entries_of K m Hk) as He.
  pose proof (wp_Put onRoot fuel m sz key rid txn Hf Hq Hsm Hkb Hl K h r s Hi) as Hw.
  cbn [tree_op spec_op]. unfold out_of. unfold wp in Hw. destruct (Z.gtb_spec (blen key + 10) (t_maxKey (ix_t s))) as [Hbig|Hsmall].
  - exists s, h. assert (E : Put onRoot fuel txn key rid s = (Err ErrKeyTooLarge, s)).
    { unfold Put, ibind, iget. rewrite Hro. unfold slotDirEntry, blen in *. rewrite treeKey_length.
      rewrite (proj2 (Z.gtb_lt _ _)) by lia. done. }
    rewrite E. split_and!; [done|by eapply indexed_room; [exact Hi|lia]|lia|done].
  - destruct (Put onRoot fuel txn key rid s) as [[[]|e|] s']; [| |done]; cbn [fst snd].
    + destruct Hw as [(h' & root & Hi' & Hh' & Ht) Hu]. exists s', h'.
      assert (Hlim : same_limits s s') by (unfold same_limits; by rewrite Ht).
      destruct (t_unique (ix_t s)) eqn:Eu; [|by split_and!]. specialize (Hu eq_refl Hnofail Hpf).
      destruct (find_rid key K) as [r0|] eqn:Ef; [|by split_and!].
      destruct (find_rid_in key K r0 He Ef) as [Hr0 Hin0]. destruct (Hu r0 Hr0 Hin0) as [Hin _].
      assert (Ef' : find_rid key K = Some rid) by (apply find_rid_least; [done|done|done|done|]; intros r1 Hr1 Hin1; by apply Hu).
      rewrite Ef in Ef'. injection Ef' as ->. rewrite bool_decide_true by done. rewrite key_insert_present in Hi' by done. by split_and!.
    + destruct Hw as [(_ & ? & _)|[(_ & ? & _)|[(-> & Eu & (r1 & Hr1 & Hne & Hin1 & Hleast) & Hi' & Ht)|(pe & _ & Hpe)]]];
        [congruence|lia| |by apply Hnofail in Hpe].
      exists s', h. rewrite Eu, (find_rid_least key K r1) by done. rewrite bool_decide_false by done.
      split_and!; [done|by eapply indexed_room; [exact Hi'|lia]|lia|by unfold same_limits; rewrite Ht].
Qed.

Lemma op_refines txn o K h r s :
  indexed m sz K h (S h + r) s -> op_ok o -> fields_in K -> x_readOnly txn = false -> (length K < fuel)%nat ->
  exists s' h', tree_op onRoot fuel txn o s = ((spec_op (t_unique (ix_t s)) (t_maxKey (ix_t s)) o K).1, s') /\
    indexed m sz (spec_op (t_unique (ix_t s)) (t_maxKey (ix_t s)) o K).2 h' r s' /\ (h' <= S h)%nat /\ same_limits s s'.
Proof.
  intros Hi Ho HK Hro Hlen. destruct o as [key rid|key rid|key|lo hi opts]; [by apply put_refines| | |].
  - destruct Ho as [HFk Hr]. pose proof (wp_Delete fuel m sz key rid txn Hf K h (S h + r) s Hi) as Hw.
    cbn [tree_op spec_op]. unfold out_of. unfold wp in Hw. destruct (Delete fuel txn key rid s) as [[[]|e|] s']; [| |done]; cbn [fst snd].
    + destruct Hw as (Hin & Hi' & Ht). rewrite bool_decide_true by done. exists s', h.
      split_and!; [done|by eapply indexed_room; [exact Hi'|lia]|lia|by unfold same_limits; rewrite Ht].
    + destruct Hw as (Hi' & Ht & [[_ ?]|[[-> Hin]|(pe & _ & Hpe)]]); [congruence| |by apply Hnofail in Hpe].
      rewrite bool_decide_false by done. exists s', h.
      split_and!; [done|by eapply indexed_room; [exact Hi'|lia]|lia|by unfold same_limits; rewrite Ht].
  - destruct (get_pure K h (S h + r) s key Hi (fields_prefix_free key K HK Ho)) as (p' & E & Hi').
    exists (MkIx (ix_t s) p'), h. cbn [tree_op spec_op]. unfold out_of, Get. rewrite E.
    split_and!; [by destruct (find_rid key K)|by eapply indexed_room; [exact Hi'|lia]|lia|done].
  - destruct Ho as [Hrev Hlo]. assert (Hpf : all_prefix_free K).
    { intros f rid Hr Hin. apply fields_prefix_free; [done|]. by eapply HK. }
    assert (Hb : bound_ok lo K).
    { destruct lo as [l|]; [|done]. intros f rid Hr Hin. apply Hlo. by eapply HK. }
    pose proof (wp_scan_all fuel Hf m sz K h (S h + r) s lo hi opts fuel Hi Hrev Hlen Hlen Hpf Hb) as Hw.
    cbn [tree_op spec_op]. unfold out_of. unfold wp in Hw. destruct (scan_all fuel fuel lo hi opts s) as [[[ks c]|e|] s']; [| |done]; cbn [fst snd] in *.
    + destruct Hw as ([[_ ->]|[(e & _ & He) _]] & Hi' & Ht); [|by apply Hnofail in He]. exists s', h.
      split_and!; [done|by eapply indexed_room; [exact Hi'|lia]|lia|by unfold same_limits; rewrite Ht].
    + destruct Hw as (pe & _ & Hpe). by apply Hnofail in Hpe.
Qed.

Lemma key_insert_length k K : (length (key_insert k K) <= S (length K))%nat.
Proof. induction K as [|x K IH]; cbn [key_insert length]; [lia|]. destruct (bcmp k x); cbn [length]; lia. Qed.

Lemma key_delete_length k K : (length (key_delete k K) <= length K)%nat.
Proof. induction K as [|x K IH]; cbn [key_delete length]; [lia|]. case_bool_decide; cbn [length]; lia. Qed.

Lemma spec_op_length uniq mk o K : (length (spec_op uniq mk o K).2 <= S (length K))%nat.
Proof.
  destruct o as [key rid|key rid|key|lo hi opts]; cbn [spec_op]; try (cbn [snd]; lia).
  - destruct (_ >? _); [cbn [snd]; lia|]. destruct (if uniq then _ else _); [case_bool_decide; cbn [snd]; lia|apply key_insert_length].
  - pose proof (key_delete_length (treeKey key rid) K). case_bool_decide; cbn [snd]; lia.
Qed.

Lemma ops_refine txn os : forall K h r s,
  indexed m sz K h (length os * (h + length os + 1) + r) s -> Forall op_ok os -> fields_in K -> x_readOnly txn = false ->
  (length K + length os < fuel)%nat ->
  exists s' h', tree_ops onRoot fuel txn os s = ((spec_ops (t_unique (ix_t s)) (t_maxKey (ix_t s)) os K).1, s') /\
    indexed m sz (spec_ops (t_unique (ix_t s)) (t_maxKey (ix_t s)) os K).2 h' r s' /\ (h' <= h + length os)%nat.
Proof.
  induction os as [|o os IH]; intros K h r s Hi Ho HK Hro Hlen; cbn [tree_ops spec_ops length] in *.
  - exists s, h. split_and!; [done|done|lia].
  - inversion Ho as [|? ? Ho1 Ho2]; subst.
    set (r1 := (length os * (S h + length os + 1) + r)%nat).
    assert (Hi1 : indexed m sz K h (S h + r1) s) by (eapply indexed_room; [exact Hi|unfold r1; nia]).
    destruct (op_refines txn o K h r1 s Hi1 Ho1 HK Hro ltac:(lia)) as (s1 & h1 & E1 & Hi2 & Hh1 & [Hu Hm]).
    set (K1 := (spec_op (t_unique (ix_t s)) (t_maxKey (ix_t s)) o K).2) in *.
    assert (HK1 : fields_in K1) by by apply spec_op_fields.
    assert (Hl1 : (length K1 <= S (length K))%nat) by apply spec_op_length.
    destruct (IH K1 h1 r s1) as (s2 & h2 & E2 & Hi3 & Hh2); try done; [|lia|].
    { eapply indexed_room; [exact Hi2|]. unfold r1. nia. }
    rewrite E1, E2, Hu, Hm in *. destruct (spec_op _ _ o K) as [x K1'] eqn:Eo. cbn [fst snd] in *. subst K1.
    destruct (spec_ops _ _ os K1') as [xs K2]. cbn [fst snd] in *. exists s2, h2. split_and!; [done|done|lia].
Qed.
End props.

(** ** A demonstration tree on pages in memory *)

Lemma demo_indexed uniq r : Z.of_nat r <= 1000 -> indexed 100 4096 [] 0 r (demo uniq).
Proof.
  intros Hr. constructor; try by constructor. exists ∅. split_and!; [|by intros ? ? ?%lookup_empty_Some|by constructor].
  constructor; [|done| |by intros ? ? ?%lookup_empty_Some].
  - split; [cbn; lia|]. split; [cbn; lia|]. split; [unfold NullPage; cbn; lia|].
    intros n b Hn. by apply (lookup_empty_Some n b) in Hn.
  - cbn [ix_p demo OpenWithRoot pg_room MemPages_laws]. unfold mp_room, mem_pages, NullPage. cbn [mp_next]. lia.
Qed.

Lemma demo_quiet : root_quiet no_root.
Proof. intros r p H _. by split_and!. Qed.

Lemma demo_small : small 100 (BodySize 4096).
Proof. split; vm_compute; by intros [=]. Qed.

Lemma big_fuel : exists fuel, fuel_ok fuel /\ (1000 < fuel)%nat.
Proof. exists (Z.to_nat (2 ^ 32)). unfold fuel_ok. split; lia. Qed.

Lemma spec_op_unique mk o K : entries_ok K -> (forall key rid, o = IPut key rid -> rid_ok rid) ->
  unique_fields K -> unique_fields (spec_op true mk o K).2.
Proof.
  intros He Ho Hu. destruct o as [key rid|key rid|key|lo hi opts]; cbn [spec_op]; try done.
  - destruct (_ >? _); [done|]. destruct (find_rid key K) as [r0|] eqn:Ef; [by case_bool_decide|]. cbn [snd].
    assert (Hno : forall r, rid_ok r -> treeKey key r ∉ K).
    { intros r Hr Hin. clear Hu Ho. induction He as [|k K (f & r0 & -> & Hr0 & _) He IH]; [by apply elem_of_nil in Hin|].
      cbn [find_rid] in Ef. rewrite field_treeKey in Ef. case_bool_decide as Hfk; [done|].
      apply elem_of_cons in Hin as [E|Hin]; [|by apply IH]. apply (f_equal field) in E. rewrite !field_treeKey in E. congruence. }
    assert (Hone : forall f r, rid_ok r -> treeKey f r = treeKey key rid -> f = key /\ r = rid).
    { intros f r Hr E. pose proof (f_equal field E) as E1. rewrite !field_treeKey in E1. split; [done|].
      apply (f_equal rid_of) in E. rewrite !rid_of_treeKey in E by (done || by apply (Ho key)). done. }
    intros f r r' Hr Hr' Hin Hin'. apply key_insert_In in Hin as [E|Hin], Hin' as [E'|Hin'].
    + destruct (Hone _ _ Hr E) as [_ ->], (Hone _ _ Hr' E') as [_ ->]. done.
    + destruct (Hone _ _ Hr E) as [-> _]. by destruct (Hno r' Hr').
    + destruct (Hone _ _ Hr' E') as [-> _]. by destruct (Hno r Hr).
    + by apply (Hu f).
  - case_bool_decide; [|done]. cbn [snd]. intros f r r' Hr Hr' Hin Hin'. apply key_delete_sub in Hin, Hin'. by apply (Hu f).
Qed.

Lemma spec_op_entries uniq mk o K : entries_ok K -> (forall key rid, o = IPut key rid -> bytes_ok key /\ rid_ok rid) ->
  entries_ok (spec_op uniq mk o K).2.
Proof.
  intros He Ho. destruct o as [key rid|key rid|key|lo hi opts]; cbn [spec_op]; try done.
  - destruct (_ >? _); [done|]. destruct (if uniq then _ else _); [by case_bool_decide|]. cbn [snd].
    apply key_insert_Forall; [|done]. exists key, rid. destruct (Ho key rid eq_refl). by split_and!.
  - case_bool_decide; [|done]. cbn [snd]. unfold entries_ok in *. rewrite List.Forall_forall in *. intros x Hx.
    apply He, list_elem_of_In, (key_delete_sub (treeKey key rid)). by apply list_elem_of_In.
Qed.

Lemma spec_ops_unique mk os : forall K, entries_ok K -> unique_fields K ->
  Forall (fun o => forall key rid, o = IPut key rid -> bytes_ok key /\ rid_ok rid) os -> unique_fields (spec_ops true mk os K).2.
Proof.
  induction os as [|o os IH]; intros K He Hu Ho; cbn [spec_ops]; [done|]. inversion Ho as [|? ? H1 H2]; subst.
  pose proof (spec_op_entries true mk o K He H1) as He'.
  pose proof (spec_op_unique mk o K He ltac:(intros key rid E; by destruct (H1 key rid E)) Hu) as Hu'.
  destruct (spec_op true mk o K) as [x K1]. cbn [snd] in *. specialize (IH K1 He' Hu' H2).
  by destruct (spec_ops true mk os K1) as [xs K2].
Qed.

(** ** What the index promises *)

Section promises.
Context {P : Type} {ops : PageOps P} {laws : PageLaws P}.
Context (onRoot : Z -> P -> P) (fuel : nat) (m sz : Z).
Context (Hf : fuel_ok fuel) (Hq : root_quiet onRoot) (Hsm : small m (BodySize sz)).

(** C15. On a pager that does not fail and has page numbers left, any sequence of
    insertions, deletions, lookups and forward range scans through a writable handle
    returns what the sorted list of keys returns, entry by entry and error by error,
    and leaves a well-formed tree holding that list, through every page split and
    growth of the root, which gains at most a level per operation. The fields are
    such that none is a prefix of another or of the lower bound of a scan, and short
    enough for a split by count: a field and its RID take m bytes at most, where
    (m + 8) * (m + 16) is at most 8 times the body of a page, which makes fields of
    162 bytes on pages of 4096. *)
Theorem index_refines_sorted_keys (F : bytes -> Prop) txn os K h r s :
  (forall e : pgErr, ~ pg_fails e) -> (forall f g, F f -> F g -> f `prefix_of` g -> f = g) ->
  indexed m sz K h (length os * (h + length os + 1) + r) s -> Forall (op_ok m F) os -> fields_in F K ->
  x_readOnly txn = false -> (length K + length os < fuel)%nat ->
  exists s' h', tree_ops onRoot fuel txn os s = ((spec_ops (t_unique (ix_t s)) (t_maxKey (ix_t s)) os K).1, s') /\
    indexed m sz (spec_ops (t_unique (ix_t s)) (t_maxKey (ix_t s)) os K).2 h' r s' /\ (h' <= h + length os)%nat.
Proof. intros Hn HF. by apply (ops_refine onRoot fuel m sz Hf Hq Hsm Hn F HF). Qed.

(** C17. In a unique index over a pager that does not fail and has page numbers
    left, with fields short enough that a page split by count fits (162 bytes on
    pages of 4096: (m + 8)(m + 16) at most eight page bodies, for entries of up to m
    bytes), none a prefix of another or of the lower bound of a scan, no sequence of
    insertions, deletions, lookups and forward scans gives a field two entries: an
    insertion of a second RID for a field is refused as a duplicate, and every other
    operation has the outcome it has on the sorted list. *)
Theorem unique_index_one_entry (F : bytes -> Prop) txn os K h r s :
  (forall e : pgErr, ~ pg_fails e) -> (forall f g, F f -> F g -> f `prefix_of` g -> f = g) ->
  indexed m sz K h (length os * (h + length os + 1) + r) s -> Forall (op_ok m F) os -> fields_in F K ->
  x_readOnly txn = false -> (length K + length os < fuel)%nat -> t_unique (ix_t s) = true -> unique_fields K ->
  exists K' h', indexed m sz K' h' r (tree_ops onRoot fuel txn os s).2 /\ unique_fields K' /\
    ((tree_ops onRoot fuel txn os s).1, K') = spec_ops true (t_maxKey (ix_t s)) os K.
Proof.
  intros Hn HF Hi Ho HK Hro Hlen Hu Huf.
  destruct (ops_refine onRoot fuel m sz Hf Hq Hsm Hn F HF txn os K h r s) as (s' & h' & E & Hi' & _); try done.
  rewrite E, Hu in *. eexists _, h'. split; [exact Hi'|]. split; [|by destruct (spec_ops true _ os K)]. apply spec_ops_unique; [|done|].
  - eapply entries_of. apply Hi.
  - eapply Forall_impl; [exact Ho|]. intros o Hop key rid ->. by destruct Hop as (_ & ? & ? & _).
Qed.

(** Put, on any pager and any tree: it inserts the key, or fails without a
    change as a read-only handle, an oversized key or a duplicate of a unique
    field, or returns the pager's error; with keys that are small for the page it
    never fails for want of room in a page, and never panics. *)
Theorem put_inserts txn key rid K h r s :
  bytes_ok key -> blen key + 6 <= m -> indexed m sz K h (S h + r) s ->
  wp (Put onRoot fuel txn key rid) s (fun _ => put_done m sz key rid K h r (ix_t s)) (put_fails m sz key rid txn K h (S h + r) s).
Proof. intros. by apply wp_Put. Qed.

(** Delete removes the entry, or reports that it is absent exactly when it is; a
    deletion that fails, in the pager too, leaves the entries. *)
Theorem delete_removes txn key rid K h r s :
  indexed m sz K h r s ->
  wp (Delete fuel txn key rid) s
    (fun _ s' => treeKey key rid ∈ K /\ indexed m sz (key_delete (treeKey key rid) K) h r s' /\ ix_t s' = ix_t s)
    (delete_fails m sz key rid txn K h r s).
Proof. by apply wp_Delete. Qed.

(** Get returns the lowest RID stored for the field; when it reports that there
    is none, there is none, provided no field is a prefix of another. *)
Theorem get_first_rid key K h r s :
  indexed m sz K h r s ->
  wp (Get fuel key) s
    (fun rid s' => indexed m sz K h r s' /\ treeKey key rid ∈ K /\
       forall rid', rid_ok rid' -> treeKey key rid' ∈ K -> rid_cmp rid rid' <> Gt)
    (fun e s' => indexed m sz K h r s' /\
       ((e = ErrNotFound /\ (prefix_free key K -> forall rid', rid_ok rid' -> treeKey key rid' ∉ K)) \/
        exists pe, e = IxPage pe /\ pg_fails pe)).
Proof.
  intros Hi. eapply wp_getLocked; [done|exact Hi| | |].
  - intros rid p' Hi' _ Hin Hl. by split_and!.
  - intros p' Hi' Hno. split; [done|]. by left.
  - intros e p' He Hi'. split; [done|]. right. by exists e.
Qed.

(** C16. When no field of the index is a prefix of another, nor a proper prefix of
    the lower bound, opening a forward scan and reading it to its end yields exactly
    the entries whose fields lie within the bounds, in key order; if the pager fails
    on the way, a prefix of them, and the cursor holds the error; if it fails while
    the scan is opened, the scan returns its error. *)
Theorem scan_yields_range K h r s lo hi opts n :
  indexed m sz K h r s -> o_Reverse opts = false -> (length K < fuel)%nat -> (length K < n)%nat ->
  all_prefix_free K -> bound_ok lo K ->
  wp (scan_all fuel n lo hi opts) s
    (fun kc s' => drained (List.filter (fun k => lo_ok lo (o_IncludeLo opts) (field k) && hi_ok hi (o_IncludeHi opts) (field k)) K) kc.1 kc.2 /\
       indexed m sz K h r s' /\ ix_t s' = ix_t s)
    (fun e s' => exists pe, e = IxPage pe /\ pg_fails pe).
Proof. by apply wp_scan_all. Qed.
End promises.

(** Keys that pass Put's size check need not leave room to split: a leaf is
    halved by count, so four of the longest fields in its lower half do not fit
    the page. Put fails for want of room with the leaf half rewritten, and keys
    stored before are gone. *)
Theorem split_loses_keys :
  (tree_ops no_root 10 demo_rw (crowd ++ [IGet [9; 0]; IPut (long_field 8) demo_rid; IGet [9; 0]]) (demo false)).1 =
  replicate 9 ODone ++ [ORid demo_rid; OFail (IxFmt ErrNoSpace); OFail ErrNotFound].
Proof. by vm_compute. Qed.

(** Put takes any error of its lookup for the absence of the field: when one
    page read fails, a unique index stores a second RID for a field, which it
    rejects when the read succeeds. *)
Theorem unique_check_skipped_on_read_error :
  (tree_ops no_root 10 demo_rw [IPut [7] demo_rid; IPut [7] demo_rid2] (demo true)).1 = [ODone; OFail ErrDuplicateKey] /\
  (tree_ops (fun _ p => p) 10 demo_rw [IPut [7] demo_rid; IPut [7] demo_rid2; IScan None None (MkScanOpts false true true)]
     (MkIx (ix_t (demo true)) ((ix_p (demo true), 1%nat) : FlakyPages))).1 =
  [ODone; ODone; OKeys [treeKey [7] demo_rid; treeKey [7] demo_rid2]].
Proof. split; by vm_compute. Qed.

(** ** The promises at work *)

Definition demo_ops : list iop :=
  [IPut [1] demo_rid; IPut [2] demo_rid; IGet [1]; IScan None (Some [2]) (MkScanOpts false true false); IDelete [1] demo_rid].

Definition demo_fields (f : bytes) : Prop := f = [1] \/ f = [2].

Lemma demo_fields_free f g : demo_fields f -> demo_fields g -> f `prefix_of` g -> f = g.
Proof. by intros [->| ->] [->| ->] [x Hx]. Qed.

Lemma demo_ops_ok : Forall (op_ok 100 demo_fields) demo_ops.
Proof.
  assert (Hr : rid_ok demo_rid) by (split; unfold in_u; cbn; lia).
  assert (H1 : bytes_ok [1]) by (apply Forall_singleton; unfold byte_ok; lia).
  assert (H2 : bytes_ok [2]) by (apply Forall_singleton; unfold byte_ok; lia).
  unfold demo_ops, demo_fields. repeat constructor; cbn; try done; (by left) || (by right) || lia.
Qed.

(** A second RID for a field, and the first one again. *)
Definition demo_dups : list iop := [IPut [1] demo_rid; IPut [1] demo_rid2; IPut [2] demo_rid2; IPut [1] demo_rid].

Lemma demo_dups_ok : Forall (op_ok 100 demo_fields) demo_dups.
Proof.
  assert (Hr : rid_ok demo_rid) by (split; unfold in_u; cbn; lia).
  assert (Hr2 : rid_ok demo_rid2) by (split; unfold in_u; cbn; lia).
  assert (H1 : bytes_ok [1]) by (apply Forall_singleton; unfold byte_ok; lia).
  assert (H2 : bytes_ok [2]) by (apply Forall_singleton; unfold byte_ok; lia).
  unfold demo_dups, demo_fields. repeat constructor; cbn; try done; (by left) || (by right) || lia.
Qed.

Lemma demo_no_fields : fields_in demo_fields [].
Proof. intros f rid _ Hx. by apply elem_of_nil in Hx. Qed.

Lemma index_refines_sorted_keys_witness :
  exists fuel s' h', tree_ops no_root fuel demo_rw demo_ops (demo false) = ((spec_ops false 1015 demo_ops []).1, s') /\
    indexed 100 4096 (spec_ops false 1015 demo_ops []).2 h' 0 s' /\ (h' <= 0 + length demo_ops)%nat.
Proof.
  destruct big_fuel as (fuel & Hf & Hf2). exists fuel.
  apply (index_refines_sorted_keys no_root fuel 100 4096 Hf demo_quiet demo_small demo_fields demo_rw demo_ops [] 0 0 (demo false)).
  - by intros e [].
  - exact demo_fields_free.
  - by apply demo_indexed.
  - exact demo_ops_ok.
  - exact demo_no_fields.
  - done.
  - change (5 < fuel)%nat. lia.
Defined.

Lemma unique_index_one_entry_witness :
  exists fuel K' h', indexed 100 4096 K' h' 0 (tree_ops no_root fuel demo_rw demo_dups (demo true)).2 /\ unique_fields K' /\
    (tree_ops no_root fuel demo_rw demo_dups (demo true)).1 = [ODone; OFail ErrDuplicateKey; ODone; ODone] /\
    K' = [treeKey [1] demo_rid; treeKey [2] demo_rid2].
Proof.
  destruct big_fuel as (fuel & Hf & Hf2). exists fuel.
  destruct (unique_index_one_entry no_root fuel 100 4096 Hf demo_quiet demo_small demo_fields demo_rw demo_dups [] 0 0 (demo true))
    as (K' & h' & Hi & Hu & E).
  - by intros e [].
  - exact demo_fields_free.
  - by apply demo_indexed.
  - exact demo_dups_ok.
  - exact demo_no_fields.
  - done.
  - change (4 < fuel)%nat. lia.
  - done.
  - intros f r r' _ _ Hx. by apply elem_of_nil in Hx.
  - assert (ES : spec_ops true (t_maxKey (ix_t (demo true))) demo_dups [] =
      ([ODone; OFail ErrDuplicateKey; ODone; ODone], [treeKey [1] demo_rid; treeKey [2] demo_rid2])) by (vm_compute; reflexivity).
    exists K', h'. split; [exact Hi|]. split; [exact Hu|].
    exact (proj1 (pair_equal_spec _ _ _ _) (eq_trans E ES)).
Defined.

Lemma put_inserts_witness :
  exists fuel, wp (Put no_root fuel demo_rw [1] demo_rid) (demo true)
    (fun _ => put_done 100 4096 [1] demo_rid [] 0 0 (ix_t (demo true))) (put_fails 100 4096 [1] demo_rid demo_rw [] 0 1 (demo true)).
Proof.
  destruct big_fuel as (fuel & Hf & Hf2). exists fuel.
  apply (put_inserts no_root fuel 100 4096 Hf demo_quiet demo_small demo_rw [1] demo_rid [] 0 0 (demo true)).
  - apply Forall_singleton. unfold byte_ok. lia.
  - change (1 + 6 <= 100). lia.
  - by apply demo_indexed.
Defined.

Lemma wp_elim {P A} (c : IX P A) s Q : wp c s Q (fun _ _ => False) -> exists a s', Q a s'.
Proof. unfold wp. destruct (c s) as [[a|e|] s']; [eauto|done|done]. Qed.

(** A tree of one key. *)
Lemma demo_one : exists s, indexed 100 4096 [treeKey [1] demo_rid] 1 10 s.
Proof.
  destruct big_fuel as (fuel & Hf & _).
  assert (Hw : wp (ibind (newLeaf [treeKey [1] demo_rid] NullPage) (newRoot no_root)) (demo false)
    (fun _ s' => indexed 100 4096 [treeKey [1] demo_rid] 1 10 s') (fun _ _ => False)).
  { eapply (wp_Put_first no_root 100 4096 10); [exact demo_quiet|exact demo_small|by apply demo_indexed| | | |done].
    - apply treeKey_bytes, Forall_singleton. unfold byte_ok. lia.
    - unfold blen. rewrite treeKey_length. cbn [length]. lia.
    - intros root p' Hi. exact Hi. }
  apply wp_elim in Hw as ([] & s' & Hi). by exists s'.
Qed.

Lemma delete_removes_witness :
  exists fuel s, wp (Delete fuel demo_rw [1] demo_rid) s
    (fun _ s' => treeKey [1] demo_rid ∈ [treeKey [1] demo_rid] /\
       indexed 100 4096 (key_delete (treeKey [1] demo_rid) [treeKey [1] demo_rid]) 1 10 s' /\ ix_t s' = ix_t s)
    (delete_fails 100 4096 [1] demo_rid demo_rw [treeKey [1] demo_rid] 1 10 s).
Proof.
  destruct big_fuel as (fuel & Hf & Hf2), demo_one as [s Hs]. exists fuel, s. by apply (delete_removes fuel 100 4096 Hf).
Defined.

Lemma get_first_rid_witness :
  exists fuel s, wp (Get fuel [1]) s
    (fun rid s' => indexed 100 4096 [treeKey [1] demo_rid] 1 10 s' /\ treeKey [1] rid ∈ [treeKey [1] demo_rid] /\
       forall rid', rid_ok rid' -> treeKey [1] rid' ∈ [treeKey [1] demo_rid] -> rid_cmp rid rid' <> Gt)
    (fun e s' => indexed 100 4096 [treeKey [1] demo_rid] 1 10 s' /\
       ((e = ErrNotFound /\ (prefix_free [1] [treeKey [1] demo_rid] -> forall rid', rid_ok rid' -> treeKey [1] rid' ∉ [treeKey [1] demo_rid])) \/
        exists pe, e = IxPage pe /\ pg_fails pe)).
Proof.
  destruct big_fuel as (fuel & Hf & Hf2), demo_one as [s Hs]. exists fuel, s. by apply (get_first_rid fuel 100 4096 Hf).
Defined.

Lemma demo_one_free : all_prefix_free [treeKey [1] demo_rid].
Proof.
  assert (Hr : rid_ok demo_rid) by (split; unfold in_u; cbn; lia).
  intros f rid Hrid Hx g rid' Hrid' Hy Hne. exfalso. apply Hne.
  apply list_elem_of_singleton in Hx, Hy. apply (f_equal field) in Hx, Hy. rewrite !field_treeKey in *. congruence.
Qed.

Lemma scan_yields_range_witness :
  exists fuel s, wp (scan_all fuel 5 (Some [1]) None (MkScanOpts false true true)) s
    (fun kc s' => drained (List.filter (fun k => lo_ok (Some [1]) true (field k) && hi_ok None true (field k)) [treeKey [1] demo_rid]) kc.1 kc.2 /\
       indexed 100 4096 [treeKey [1] demo_rid] 1 10 s' /\ ix_t s' = ix_t s)
    (fun e s' => exists pe, e = IxPage pe /\ pg_fails pe).
Proof.
  destruct big_fuel as (fuel & Hf & Hf2), demo_one as [s Hs]. exists fuel, s.
  apply (scan_yields_range fuel 100 4096 Hf [treeKey [1] demo_rid] 1 10 s (Some [1]) None (MkScanOpts false true true) 5).
  - exact Hs.
  - done.
  - cbn [length]. lia.
  - cbn [length]. lia.
  - exact demo_one_free.
  - intros f rid Hrid Hx _. apply list_elem_of_singleton in Hx. apply (f_equal field) in Hx. by rewrite !field_treeKey in Hx.
Defined.
