(* ===== verification/BTreeCheck.v ===== *)
(** * index/check.go, btree.go: Stats and Check

    The walks that measure a B-tree and look for damage. They swallow the pager's
    errors, or report them as problems. *)

From S2P Require Import Prelude Rid Checksum Page Slotted KeyEnc PageStore BNode BTree.
#[local] Open Scope ix_scope.

Record IndexStats := MkIndexStats { is_Entries : Z; is_DistinctKeys : Z; is_Height : nat; is_Pages : Z }.

(** A message of Check, as what it says. *)
Inductive problem : Type :=
| ProbMismatch (tree chain : Z)
| ProbFetch (pno : Z) (e : ixErr)
| ProbChecksum (pno : Z)
| ProbLoad (pno : Z) (e : ixErr)
| ProbSeparator (pno : Z) (i : nat)
| ProbType (pno ty : Z)
| ProbKeys (pno : Z) (i : nat)
| ProbDescent (e : ixErr)
| ProbCycle (pno : Z)
| ProbChain (pno : Z).

Record CheckResult := MkCheckResult { NodePages : Z; LeafKeys : Z; Problems : list problem }.

Definition add_problem (x : problem) (r : CheckResult) : CheckResult :=
  MkCheckResult (NodePages r) (LeafKeys r) (Problems r ++ [x]).

Section check.
Context {P : Type} {ops : PageOps P} (fuel : nat).

(** An error of m is the caller's to handle. *)
Definition itry {A B} (m : IX P A) (k : A -> IX P B) (h : ixErr -> IX P B) : IX P B := fun s =>
  match m s with
  | (Ok a, s') => k a s'
  | (Err e, s') => h e s'
  | (Panic, s') => (Panic, s')
  end.

(** ** Stats *)

Fixpoint height_loop (n : nat) (pno : Z) (height : nat) : IX P nat :=
  match n with
  | O => ifail OutOfFuel
  | S n' =>
      itry (pageType pno)
        (fun ty =>
           if ty =? PageBTreeLeaf then iret height
           else itry (loadInterior pno)
                  (fun ents => match ents with [] => iret height | e :: _ => height_loop n' e.2 (S height) end)
                  (fun _ => iret height))
        (fun _ => iret height)
  end.

Fixpoint entries_loop (n : nat) (leaf entries : Z) : IX P Z :=
  match n with
  | O => ifail OutOfFuel
  | S n' =>
      if leaf =? NullPage then iret entries
      else itry (loadLeaf leaf) (fun kr => entries_loop n' kr.2 (u64 (entries + blen kr.1))) (fun _ => iret entries)
  end.

Fixpoint countPages (n : nat) (pno : Z) : IX P Z :=
  match n with
  | O => ifail OutOfFuel
  | S n' =>
      if pno =? NullPage then iret 0
      else
        itry (pageType pno)
          (fun ty =>
             if ty =? PageBTreeLeaf then iret 1
             else itry (loadInterior pno)
                    (fun ents =>
                       (fix go (es : list intEntry) (total : Z) : IX P Z :=
                          match es with
                          | [] => iret total
                          | e :: es' => do! c := countPages n' e.2 in go es' (u64 (total + c))
                          end) ents 1)
                    (fun _ => iret 1))
          (fun _ => iret 0)
  end.

Definition Stats : IX P IndexStats :=
  do! t := iget in
  if t_root t =? NullPage then iret (MkIndexStats 0 0 0 0)
  else
    do! height := height_loop fuel (t_root t) 1 in
    do! entries := itry (descend fuel []) (fun lp => entries_loop fuel lp.1 0) (fun _ => iret 0) in
    do! np := countPages fuel (t_root t) in
    iret (MkIndexStats entries entries height np).

(** ** Check *)

(** From entry i on, with the key before it. *)
Fixpoint sorted_from (pno : Z) (prev : bytes) (keys : list bytes) (i : nat) (r : CheckResult) : CheckResult :=
  match keys with
  | [] => r
  | k :: ks => sorted_from pno k ks (S i) (if bleb k prev then add_problem (ProbKeys pno i) r else r)
  end.

Definition checkSorted (pno : Z) (keys : list bytes) (r : CheckResult) : CheckResult :=
  match keys with [] => r | k :: ks => sorted_from pno k ks 1 r end.

Fixpoint checkNode (n : nat) (pno : Z) (r : CheckResult) : IX P (Z * CheckResult) :=
  match n with
  | O => ifail OutOfFuel
  | S n' =>
      let r := MkCheckResult (NodePages r + 1) (LeafKeys r) (Problems r) in
      itry (fetch pno)
        (fun b => fun s =>
           let algo := ChecksumOf (ix_p s) in
           (do! h := ilift (DecodePageHeader b) in
            do! r := ilift (match VerifyPageChecksum b algo with
                            | Ok _ => Ok r | Err _ => Ok (add_problem (ProbChecksum pno) r) | Panic => Panic end) in
            do! _ := on_pages (Unpin pno) in
            if ph_Type h =? PageBTreeLeaf then
              itry (loadLeaf pno)
                (fun kr => iret (blen kr.1, checkSorted pno kr.1 r))
                (fun e => iret (0, add_problem (ProbLoad pno e) r))
            else if ph_Type h =? PageBTreeInterior then
              itry (loadInterior pno)
                (fun ents =>
                   (fix go (i : nat) (prev : option bytes) (es : list intEntry) (total : Z) (r : CheckResult) : IX P (Z * CheckResult) :=
                      match es with
                      | [] => iret (total, r)
                      | e :: es' =>
                          let r := match prev with
                                   | Some q => if bleb e.1 q then add_problem (ProbSeparator pno i) r else r
                                   | None => r
                                   end in
                          do! '(c, r') := checkNode n' e.2 r in
                          go (S i) (Some e.1) es' (u64 (total + c)) r'
                      end) 0%nat None ents 0 r)
                (fun e => iret (0, add_problem (ProbLoad pno e) r))
            else iret (0, add_problem (ProbType pno (ph_Type h)) r)) s)
        (fun e => iret (0, add_problem (ProbFetch pno e) r))
  end.

(** The keys of one leaf of the chain: the previous key, the total, the problems. *)
Fixpoint chain_keys (leaf : Z) (keys : list bytes) (prev : option bytes) (total : Z) (r : CheckResult) :
    option bytes * Z * CheckResult :=
  match keys with
  | [] => (prev, total, r)
  | k :: ks =>
      let r := match prev with
               | Some q => if bleb k q then add_problem (ProbChain leaf) r else r
               | None => r
               end in
      chain_keys leaf ks (Some k) (u64 (total + 1)) r
  end.

Fixpoint chain_loop (n : nat) (leaf : Z) (seen : gset Z) (prev : option bytes) (total : Z) (r : CheckResult) : IX P (Z * CheckResult) :=
  match n with
  | O => ifail OutOfFuel
  | S n' =>
      if leaf =? NullPage then iret (total, r)
      else if bool_decide (leaf ∈ seen) then iret (total, add_problem (ProbCycle leaf) r)
      else
        itry (loadLeaf leaf)
          (fun kr =>
             let '(prev', total', r') := chain_keys leaf kr.1 prev total r in
             chain_loop n' kr.2 ({[leaf]} ∪ seen) prev' total' r')
          (fun e => iret (total, add_problem (ProbLoad leaf e) r))
  end.

Definition checkLeafChain (r : CheckResult) : IX P (Z * CheckResult) :=
  itry (descend fuel []) (fun lp => chain_loop fuel lp.1 ∅ None 0 r) (fun e => iret (0, add_problem (ProbDescent e) r)).

Definition Check : IX P CheckResult :=
  do! t := iget in
  let r := MkCheckResult 0 0 [] in
  if t_root t =? NullPage then iret r
  else
    do! '(treeKeys, r) := checkNode fuel (t_root t) r in
    do! '(chainKeys, r) := checkLeafChain r in
    let r := if treeKeys =? chainKeys then r else add_problem (ProbMismatch treeKeys chainKeys) r in
    iret (MkCheckResult (NodePages r) chainKeys (Problems r)).
End check.
