(* ===== verification/BTreeCheckProps.v ===== *)
(** * What Check makes of a well-formed tree

    On a tree the operations can build, whose pager does not fail, Check counts
    every key on both of its walks and has nothing to report but pages whose
    checksum is not the one their contents have. *)

From S2P Require Import Prelude Rid Checksum Page Slotted Bson BsonCompare KeyEnc PageStore BNode BTree BTreeInv BTreeSpec BTreeScan BTreeProps BTreeCheck.
#[local] Open Scope ix_scope.

Lemma verify_no_panic b algo : Supported algo = true -> 4 <= blen b -> VerifyPageChecksum b algo <> Panic.
Proof.
  intros Hs Hl. unfold VerifyPageChecksum. rewrite !rd_Ok by (unfold ChecksumSize; lia). cbn [res_bind]. unfold Supported in Hs.
  unfold Verify, Checksum. destruct (algo =? ChecksumNone); [done|]. cbn [orb] in Hs.
  destruct (algo =? ChecksumCRC32C).
  - cbn [res_bind]. by match goal with |- context [if ?c then _ else _] => destruct c end.
  - cbn [orb] in Hs. rewrite Hs. cbn [res_bind]. by match goal with |- context [if ?c then _ else _] => destruct c end.
Qed.

Section checks.
Context {P : Type} {ops : PageOps P} {laws : PageLaws P}.

(** Page n is in use and does not carry the checksum of its contents. *)
Definition stale (p : P) (n : Z) : Prop := n ∈ pg_live p /\ VerifyPageChecksum (pg_view p n) (ChecksumOf p) <> Ok tt.

(** The only problems are stale checksums of the pager p. *)
Definition only_stale (p : P) (r : CheckResult) : Prop :=
  Forall (fun x => exists n, x = ProbChecksum n /\ stale p n) (Problems r).

Context (Hnofail : forall e : pgErr, ~ pg_fails e) (p0 : P).
Notation clean := (only_stale p0).

(** The pager keeps the nodes, on the pages p0 has. *)
Definition reading (N : gmap Z node) (sz : Z) (k : nat) (p : P) : Prop :=
  stored N sz k p /\ pg_live p = pg_live p0 /\ ChecksumOf p = ChecksumOf p0 /\
  forall m, m ∈ pg_live p0 -> pg_view p m = pg_view p0 m.

Lemma reading_readable N sz k : readable N (reading N sz k).
Proof.
  destruct (stored_readable N sz k) as [F U]. constructor.
  - intros p n nd r p' (Hst & Hl & Ha & Hv) Hn EF. destruct (F p n nd r p' Hst Hn EF) as [Hst' Hr]. split; [|exact Hr].
    destruct (st_node _ _ _ _ Hst n nd Hn) as [Hin _].
    destruct (pg_fetch p n r p' (st_inv _ _ _ _ Hst) Hin EF) as (_ & _ & I3 & _ & I5 & _).
    pose proof (pg_algo_fetch p n (st_inv _ _ _ _ Hst) Hin) as I6. rewrite EF in I6. cbn [snd] in I6.
    split; [done|]. split; [congruence|]. split; [congruence|]. intros m Hm. rewrite I5 by congruence. by apply Hv.
  - intros p n (Hst & Hl & Ha & Hv) Hpin. split; [by apply U|].
    destruct (pg_unpin p n (st_inv _ _ _ _ Hst) Hpin) as (_ & _ & I3 & _ & I5 & _).
    pose proof (pg_algo_unpin p n (st_inv _ _ _ _ Hst) Hpin) as I6.
    split; [congruence|]. split; [congruence|]. intros m Hm. rewrite I5 by congruence. by apply Hv.
Qed.

Lemma wp_itry {A B} (c : IX P A) (k : A -> IX P B) (h : ixErr -> IX P B) s Q E :
  wp c s (fun a s' => wp (k a) s' Q E) (fun e s' => wp (h e) s' Q E) -> wp (itry c k h) s Q E.
Proof. unfold wp, itry. by destruct (c s) as [[a|e|] s']. Qed.

(** checkNode on page p counts c keys, as a 64-bit number, and finds nothing. *)
Definition walk (N : gmap Z node) (sz : Z) (r n : nat) (p c : Z) : Prop :=
  forall s res Q E, reading N sz r (ix_p s) -> clean res ->
    (forall res' p', reading N sz r p' -> clean res' -> Q (u64 c, res') (MkIx (ix_t s) p')) ->
    wp (checkNode n p res) s Q E.

Inductive walks (N : gmap Z node) (sz : Z) (r n : nat) : level -> Z -> Prop :=
| walks_nil : walks N sz r n [] 0
| walks_cons low p l c C : walk N sz r n p c -> walks N sz r n l C -> walks N sz r n ((low, p) :: l) (c + C).

Lemma walks_app_inv N sz r n l1 : forall l2 C, walks N sz r n (l1 ++ l2) C ->
  exists C1 C2, C = C1 + C2 /\ walks N sz r n l1 C1 /\ walks N sz r n l2 C2.
Proof.
  induction l1 as [|e l1 IH]; intros l2 C H; cbn [app] in H.
  - exists 0, C. split_and!; [lia|constructor|done].
  - inversion H as [|low p l c C' Hw Hws]; subst. destruct (IH _ _ Hws) as (C1 & C2 & -> & H1 & H2).
    exists (c + C1), C2. split_and!; [lia|by constructor|done].
Qed.

Lemma clean_add_checksum n r : stale p0 n -> clean r -> clean (add_problem (ProbChecksum n) r).
Proof. intros Hn H. unfold only_stale. cbn. apply Forall_app. split; [done|]. apply Forall_singleton. by exists n. Qed.

Lemma checkSorted_clean p ks r : StronglySorted blt ks -> checkSorted p ks r = r.
Proof.
  intros Hs. destruct ks as [|k ks]; [done|]. cbn [checkSorted]. generalize 1%nat as i. revert k Hs.
  induction ks as [|x ks IH]; intros k Hs i; cbn [sorted_from]; [done|]. inversion Hs as [|? ? Hs' Hf]; subst.
  inversion Hf as [|? ? Hx _]; subst. rewrite (proj2 (bleb_false _ _)) by done. by apply IH.
Qed.

(** The start of checkNode: fetch the page, look at its type and checksum. *)
Lemma wp_node_head {B} N sz r n nd s (res : CheckResult) (k : PageHeader -> CheckResult -> IX P B) h Q E :
  reading N sz r (ix_p s) -> N !! n = Some nd -> clean res ->
  (forall hd res' p', ph_Type hd = node_type nd -> reading N sz r p' -> clean res' -> wp (k hd res') (MkIx (ix_t s) p') Q E) ->
  wp (itry (fetch n) (fun b => fun s => (ibind (ilift (DecodePageHeader b)) (fun hd =>
        ibind (ilift (match VerifyPageChecksum b (ChecksumOf (ix_p s)) with
                      | Ok _ => Ok res | Err _ => Ok (add_problem (ProbChecksum n) res) | Panic => Panic end)) (fun r1 =>
        ibind (on_pages (Unpin n)) (fun _ => k hd r1)))) s) h) s Q E.
Proof.
  intros Hst Hn Hc Hk. apply wp_itry. eapply (read_fetch N _ (reading_readable N sz r)); [exact Hst|exact Hn| |intros e p' He; by apply Hnofail in He].
  intros b p' Hst' Hpin -> (Hw & Ha & Ht & _).
  change (wp (ibind (ilift (DecodePageHeader (pg_view p' n))) (fun hd =>
        ibind (ilift (match VerifyPageChecksum (pg_view p' n) (ChecksumOf p') with
                      | Ok _ => Ok res | Err _ => Ok (add_problem (ProbChecksum n) res) | Panic => Panic end)) (fun r1 =>
        ibind (on_pages (Unpin n)) (fun _ => k hd r1)))) (MkIx (ix_t s) p') Q E).
  apply wp_bind. eapply wp_lift; [by apply header_ix|]. apply wp_bind.
  assert (Hv : exists r1, (match VerifyPageChecksum (pg_view p' n) (ChecksumOf p') with
                      | Ok _ => Ok res | Err _ => Ok (add_problem (ProbChecksum n) res) | Panic => Panic end) = Ok (E:=ixErr) r1 /\ clean r1).
  { pose proof Hst' as (Hsd & Hl & Hal & Hvw). destruct (st_node _ _ _ _ Hsd n nd Hn) as [Hin _]. rewrite Hl in Hin.
    destruct (VerifyPageChecksum (pg_view p' n) (ChecksumOf p')) as [[]| |] eqn:Ev; [by exists res| |].
    - eexists; split; [done|]. apply clean_add_checksum; [|done]. split; [done|]. by rewrite <- Hvw, <- Hal, Ev.
    - exfalso. revert Ev. apply verify_no_panic; [apply pg_algo, Hsd|pose proof (w_len _ Hw); lia]. }
  destruct Hv as (r1 & Ev & Hc1). eapply wp_lift; [exact Ev|]. apply wp_bind.
  eapply (read_unpin N _ (reading_readable N sz r)); [exact Hst'|exact Hpin|]. intros p2 Hst2. by apply Hk.
Qed.

(** The keys under the leaves of a chain. *)
Lemma walks_leaves m B sz r N l a b hi K n :
  nodes_fit m B N -> B <= 65536 -> leaves N l a b hi K -> StronglySorted blt K -> walks N sz r (S n) l (blen K).
Proof.
  intros Hfit HB. induction 1 as [b h|low p ks rs l b h K Hp Hk Hl IH]; intros Hs; [constructor|].
  assert (Hsplit : blen (ks ++ K) = blen ks + blen K) by (unfold blen; rewrite length_app; lia). rewrite Hsplit.
  constructor; [|apply IH; by eapply sorted_app_r].
  assert (Hbound : u64 (blen ks) = blen ks).
  { apply wrap_small. destruct (Hfit _ _ Hp) as [Ht Hks]. unfold node_total in Ht. cbn [node_cells] in Ht.
    assert (H4 : Forall (fun c => 4 <= blen c + slotDirEntry <= 4 + 2 ^ 64) ks -> 4 * blen ks <= B).
    { intros H4. apply leaf_total_bounds in H4. unfold blen in *. lia. }
    assert (Hall : 4 * blen ks <= leaf_total ks).
    { clear. induction ks as [|k ks IH]; [done|]. cbn [leaf_total]. unfold blen, slotDirEntry in *. cbn [length]. lia. }
    unfold in_u, blen in *. lia. }
  intros s res Q E Hst Hc HQ. cbn [checkNode].
  eapply (wp_node_head N sz r p); [exact Hst|exact Hp| |]; [exact Hc|]. intros hd res' p' Hhd Hst' Hc'. rewrite Hhd. cbn [node_type].
  change (PageBTreeLeaf =? PageBTreeLeaf) with true. cbv iota. apply wp_itry.
  eapply (read_leaf N _ (reading_readable N sz r)); [exact Hst'|exact Hp| |intros e p2 He; by apply Hnofail in He].
  intros p2 Hst2. apply wp_ret. cbn [fst]. rewrite checkSorted_clean by by eapply sorted_app_l. rewrite <- Hbound. by apply HQ.
Qed.

(** The loop over the entries of an interior node, from some entry on. *)
Definition entries_go (n : nat) (pno : Z) :=
  fix go (i : nat) (prev : option bytes) (es : list intEntry) (total : Z) (r : CheckResult) : IX P (Z * CheckResult) :=
    match es with
    | [] => iret (total, r)
    | e :: es' =>
        let r := match prev with
                 | Some q => if bleb e.1 q then add_problem (ProbSeparator pno i) r else r
                 | None => r
                 end in
        do! '(c, r') := checkNode n e.2 r in
        go (S i) (Some e.1) es' (u64 (total + c)) r'
    end.

Lemma wp_entries_go N sz r n pno es : forall C i prev total s res Q E,
  walks N sz r n es C -> reading N sz r (ix_p s) -> clean res -> StronglySorted low_lt es ->
  (match prev with Some q => Forall (fun e => blt q e.1) es | None => True end) -> 
  (forall res' p', reading N sz r p' -> clean res' -> Q (u64 (total + C), res') (MkIx (ix_t s) p')) ->
  u64 total = total ->
  wp (entries_go n pno i prev es total res) s Q E.
Proof.
  induction es as [|[low p] es IH]; intros C i prev total s res Q E Hw Hst Hc Hs Hprev HQ Ht; cbn [entries_go]; inversion Hw as [|? ? ? c C' Hn Hws]; subst.
  - destruct s as [t ps]. apply wp_ret. rewrite Z.add_0_r in HQ. rewrite <- Ht. by apply HQ.
  - assert (Hr : (match prev with Some q => if bleb low q then add_problem (ProbSeparator pno i) res else res | None => res end) = res).
    { destruct prev as [q|]; [|done]. inversion Hprev as [|? ? Hq _]; subst. by rewrite (proj2 (bleb_false _ _)). }
    cbn [fst snd]. rewrite Hr. apply wp_bind. eapply (Hn s res); [exact Hst|exact Hc|]. intros res' p' Hst' Hc'.
    inversion Hs as [|? ? Hs' Hf]; subst. eapply (IH C'); [exact Hws|exact Hst'|exact Hc'|exact Hs'| | |].
    + exact Hf.
    + intros res2 p2 Hst2 Hc2. assert (E2 : u64 (u64 (total + u64 c) + C') = u64 (total + (c + C'))).
      { unfold wrap. rewrite Z.add_mod_idemp_r, Z.add_mod_idemp_l by done. f_equal. lia. }
      cbn [ix_t]. rewrite E2. by apply HQ.
    + apply wrap_wrap.
Qed.

Lemma walks_up N sz r n u l C : covers N u l -> StronglySorted low_lt l -> walks N sz r n l C -> walks N sz r (S n) u C.
Proof.
  intros Hcov. revert C. induction Hcov as [|low p c es u l Hp Hcov IH]; intros C Hs Hw.
  - inversion Hw; subst. constructor.
  - change ((low, c) :: es ++ l) with (((low, c) :: es) ++ l) in Hw, Hs. apply walks_app_inv in Hw as (C1 & C2 & -> & Hw1 & Hw2).
    constructor; [|apply IH; [by eapply sorted_app_r|done]]. apply sorted_app_l in Hs.
    intros s res Q E Hst Hc HQ. cbn [checkNode].
    eapply (wp_node_head N sz r p); [exact Hst|exact Hp|exact Hc|]. intros hd res' p' Hhd Hst' Hc'. rewrite Hhd. cbn [node_type].
    change (PageBTreeInterior =? PageBTreeLeaf) with false. change (PageBTreeInterior =? PageBTreeInterior) with true. cbv iota.
    apply wp_itry. eapply (read_interior N _ (reading_readable N sz r)); [exact Hst'|exact Hp| |intros e p2 He; by apply Hnofail in He].
    intros p2 Hst2. inversion Hs as [|? ? Hs' Hf]; subst.
    apply (wp_entries_go N sz r n p (([], c) :: es) C1 0 None 0); [|exact Hst2|exact Hc'| |done| |done].
    + inversion Hw1; subst. by constructor.
    + constructor; [done|]. eapply Forall_impl; [exact Hf|]. intros e He. unfold low_lt in *. cbn [fst] in *.
      exact (ble_blt_trans _ _ _ (ble_nil low) He).
    + intros res2 p3 Hst3 Hc3. cbn [ix_t]. rewrite Z.add_0_l. by apply HQ.
Qed.

Lemma walks_root N sz r ups : forall l root n C, tower N l ups root -> StronglySorted low_lt l -> walks N sz r n l C ->
  walk N sz r (length ups + n) root C.
Proof.
  induction ups as [|u ups IH]; intros l root n C; cbn [tower length].
  - intros -> _ Hw. inversion Hw as [|? ? ? c C' Hwn Hws]; subst. inversion Hws; subst. by rewrite Z.add_0_r.
  - intros [Hc Ht] Hs Hw. cbn [Nat.add]. rewrite <- Nat.add_succ_r. eapply IH; [exact Ht|by eapply covers_sorted|].
    by eapply walks_up.
Qed.

Definition after_opt (prev : option bytes) (K : list bytes) : Prop :=
  match prev with Some q => Forall (blt q) K | None => True end.

(** The last key seen. *)
Definition last_of (prev : option bytes) (ks : list bytes) : option bytes := match last ks with Some k => Some k | None => prev end.

Lemma chain_keys_clean leaf ks : forall prev total r,
  StronglySorted blt ks -> after_opt prev ks -> chain_keys leaf ks prev (u64 total) r = (last_of prev ks, u64 (total + blen ks), r).
Proof.
  induction ks as [|k ks IH]; intros prev total r Hs Ha; cbn [chain_keys].
  - unfold last_of. cbn. by rewrite Z.add_0_r.
  - assert (Hr : (match prev with Some q => if bleb k q then add_problem (ProbChain leaf) r else r | None => r end) = r).
    { destruct prev as [q|]; [|done]. inversion Ha as [|? ? Hq _]; subst. by rewrite (proj2 (bleb_false _ _)). }
    cbv zeta. rewrite Hr. inversion Hs as [|? ? Hs' Hf]; subst. assert (Eu : u64 (u64 total + 1) = u64 (total + 1)).
    { unfold wrap. by rewrite Z.add_mod_idemp_l. }
    rewrite Eu, IH by done.
    assert (El : last_of (Some k) ks = last_of prev (k :: ks)) by (unfold last_of; rewrite last_cons; by destruct (last ks)).
    rewrite El. replace (total + 1 + blen ks) with (total + blen (k :: ks)) by (unfold blen; cbn [length]; lia). done.
Qed.

Lemma after_last prev ks K : StronglySorted blt (ks ++ K) -> after_opt prev (ks ++ K) -> after_opt (last_of prev ks) K.
Proof.
  intros Hs Ha. unfold last_of. destruct (last ks) as [k|] eqn:El.
  - apply last_Some in El as [ks' ->]. rewrite <- app_assoc in Hs. apply sorted_app_r in Hs. by inversion Hs.
  - destruct prev as [q|]; [|done]. by apply Forall_app in Ha as [_ Ha].
Qed.

Lemma wp_chain_loop N sz r l : forall n leaf K seen prev total s res Q E,
  reading N sz r (ix_p s) -> leaves N l leaf NullPage None K -> NoDup (pages l) -> (forall p, p ∈ pages l -> p ∉ seen) ->
  (length l < n)%nat -> StronglySorted blt K -> after_opt prev K ->
  (forall p', reading N sz r p' -> Q (u64 (total + blen K), res) (MkIx (ix_t s) p')) ->
  wp (chain_loop n leaf seen prev (u64 total) res) s Q E.
Proof.
  induction l as [|[low p] l IH]; intros n leaf K seen prev total s res Q E Hst Hl Hnd Hseen Hn Hs Ha HQ;
    (destruct n as [|n]; [lia|]); cbn [chain_loop].
  - inversion Hl; subst. rewrite Z.eqb_refl. destruct s as [t ps]. apply wp_ret. unfold blen in HQ. rewrite Z.add_0_r in HQ. by apply HQ.
  - inversion Hl as [|? ? ks rs ? ? ? K2 Hp Hb Hl2]; subst.
    rewrite (proj2 (Z.eqb_neq _ _)) by apply (stored_page _ _ _ _ _ _ (proj1 Hst) Hp).
    cbn [map snd] in *. rewrite bool_decide_false by (apply Hseen; by left). apply NoDup_cons in Hnd as [Hnd1 Hnd2].
    apply wp_itry. eapply (read_leaf N _ (reading_readable N sz r)); [exact Hst|exact Hp| |intros e p2 He; by apply Hnofail in He].
    intros p' Hst'. cbn [fst snd]. rewrite chain_keys_clean; [|by eapply sorted_app_l|destruct prev; [by apply Forall_app in Ha as [Ha _]|done]].
    eapply (IH n rs K2); [exact Hst'|exact Hl2|exact Hnd2| |cbn [length] in Hn; lia|by eapply sorted_app_r|by eapply after_last|].
    + intros q Hq. rewrite elem_of_union, elem_of_singleton. intros [->|Hx]; [done|]. apply (Hseen q); [by right|done].
    + intros p2 Hst2. cbn [ix_t]. replace (total + blen ks + blen K2) with (total + blen (ks ++ K2)); [by apply HQ|].
      unfold blen. rewrite length_app. lia.
Qed.
End checks.

Lemma wp_Check {P : Type} {ops : PageOps P} {laws : PageLaws P} fuel m sz K h r s :
  fuel_ok fuel -> (forall e : pgErr, ~ pg_fails e) -> indexed m sz K h r s ->
  wp (Check fuel) s (fun res s' => only_stale (ix_p s) res /\ LeafKeys res = u64 (blen K) /\ indexed m sz K h r s') (fun _ _ => False).
Proof.
  intros Hf Hnf Hi. pose proof Hi as [(N & Hst & Hfit & Hsh) Hz Hs Hk]. unfold Check. apply wp_bind, wp_get.
  destruct (Z.eqb_spec (t_root (ix_t s)) NullPage) as [Hroot|Hroot].
  { destruct (root_empty _ _ _ _ _ _ Hi Hroot) as [-> _]. destruct s as [t p]. apply wp_ret. split_and!; [constructor|done|done]. }
  inversion Hsh as [Hr|root l ups a K' _ Ht Hl Hne Hlo Hnd Hndu]; subst; [by rewrite <- Hr in Hroot|].
  assert (HB : BodySize sz <= 65536).
  { pose proof (pg_size _ (st_inv _ _ _ _ Hst)) as Hsz. rewrite (st_size _ _ _ _ Hst) in Hsz. unfold BodySize, PageHeaderSize, ChecksumSize. lia. }
  assert (Hlen : (length ups < fuel)%nat /\ (length l < fuel)%nat).
  { pose proof (upages_length _ _ _ _ Hne Ht). unfold fuel_ok in Hf.
    pose proof (stored_length _ _ _ _ (upages ups) Hst Hndu) as L1. pose proof (stored_length _ _ _ _ (pages l) Hst Hnd) as L2.
    rewrite length_map in L2.
    specialize (L1 ltac:(intros x Hx; destruct (tower_dom _ _ _ _ Ht x Hx) as [e He]; by exists (NInt e))).
    specialize (L2 ltac:(intros x Hx; destruct (leaves_dom _ _ _ _ _ _ Hl x Hx) as (? & ? & ->); by eexists)). lia. }
  destruct Hlen as [Hlu Hll].
  assert (Hrd : reading (ix_p s) N sz r (ix_p s)) by by split_and!.
  pose proof (walks_root Hnf (ix_p s) N sz r ups l (t_root (ix_t s)) (S (fuel - length ups - 1)) (blen K) Ht Hlo
    (walks_leaves Hnf (ix_p s) m (BodySize sz) sz r N l a NullPage None K _ Hfit HB Hl Hs)) as Hwalk.
  replace (length ups + S (fuel - length ups - 1))%nat with fuel in Hwalk by lia.
  apply wp_bind. eapply Hwalk; [exact Hrd|by constructor|]. intros res1 p1 Hst1 Hc1. cbv iota beta.
  apply wp_bind. unfold checkLeafChain. apply wp_itry.
  eapply (read_descend fuel N); [apply reading_readable|exact Hst1|exact Ht|exact Hlo|exact Hl|exact Hlu| |intros e p' He; by apply Hnf in He].
  intros p path p2 Hst2 Hat _. cbn [fst].
  destruct Hat as (l1 & low & l2 & -> & Hlow & _).
  assert (El1 : l1 = []).
  { destruct l1 as [|e l1]; [done|]. apply sorted_app_inv in Hlo as (Hlo & _). inversion Hlo as [|? ? He _]; subst.
    destruct (ble_nil e.1). pose proof (blt_ble_trans _ _ _ He Hlow) as Hx. unfold blt in Hx. by rewrite bcmp_antisym, Hx. }
  subst l1. cbn [app] in *.
  assert (Ea : a = p) by by inversion Hl. subst a. change 0 with (u64 0).
  eapply (wp_chain_loop Hnf (ix_p s) N sz r ((low, p) :: l2)); [exact Hst2|exact Hl|exact Hnd|set_solver|exact Hll|exact Hs|done|].
  intros p3 Hst3. cbv iota beta. rewrite Z.add_0_l, Z.eqb_refl. apply wp_ret. split_and!; [exact Hc1|done|].
  constructor; try done. exists N. split_and!; [exact (proj1 Hst3)|done|exact Hsh].
Qed.

(** C18. Check finds no fault with the structure of a well-formed tree, such as the
    operations build of short fields, on a pager whose Fetch of a page in use does
    not fail: both of its walks count all the keys, as a 64-bit number, and all it can report is the checksum of a
    page in use that does not carry the checksum of its contents, as a page changed
    since it was last committed does not. *)
Theorem check_accepts {P : Type} {ops : PageOps P} {laws : PageLaws P} fuel m sz K h r s :
  fuel_ok fuel -> (forall e : pgErr, ~ pg_fails e) -> indexed m sz K h r s ->
  exists res s', Check fuel s = (Ok res, s') /\ only_stale (ix_p s) res /\ LeafKeys res = u64 (blen K) /\ indexed m sz K h r s'.
Proof.
  intros Hf Hnf Hi. pose proof (wp_Check fuel m sz K h r s Hf Hnf Hi) as Hw. unfold wp in Hw.
  destruct (Check fuel s) as [[res|e|] s']; [|done|done]. by exists res, s'.
Qed.

Lemma check_accepts_witness :
  exists fuel s res s', Check fuel s = (Ok res, s') /\ only_stale (ix_p s) res /\ LeafKeys res = 1 /\ indexed 100 4096 [treeKey [1] demo_rid] 1 10 s'.
Proof.
  destruct big_fuel as (fuel & Hf & Hf2), demo_one as [s Hs]. exists fuel, s.
  apply (check_accepts fuel 100 4096 [treeKey [1] demo_rid] 1 10 s Hf); [by intros e []|exact Hs].
Defined.
