(* ===== verification/PagerIndex.v ===== *)
(** * index/btree.go: the index on the pager, through a crash

    The B-tree opened on the root the database header names, with SetCatalogRoot as
    the callback that persists a new root; its calls into the pager, as the actions
    of the crash model; and what the tree holds after a commit, a crash and Open. *)

From S2P Require Import Prelude Checksum Page Vfs Disk Wal DbHeader Slotted Rid PageStore Pool Pager PagerInv PagerLaws PagerFree PagerLog PagerDurable PagerCommit PagerOpen PagerProps.
From S2P Require Import Bson BsonCompare KeyEnc BNode BTree BTreeInv BTreeSpec.
From stdpp Require Import strings.

#[local] Open Scope Z_scope.

(** ** The root the header names *)

(** onRoot = pgr.SetCatalogRoot *)
Definition catalogRoot (root : Z) (s : dpager * Disk) : dpager * Disk := (SetCatalogRoot root s).2.

(** Only SetCatalogRoot changes the root the header names. *)
Definition steady {A} (m : PG (dpager * Disk) A) : Prop := forall s, CatalogRoot (m s).2.1 = CatalogRoot s.1.

Create HintDb steady.

Section steady.
#[local] Open Scope pg_scope.
Context {A B : Type}.

Lemma steady_bind (m : PG (dpager * Disk) A) (k : A -> PG (dpager * Disk) B) : steady m -> (forall a, steady (k a)) -> steady (do* a := m in k a).
Proof.
  intros Hm Hk s. unfold gbind. specialize (Hm s). destruct (m s) as [[a|e|] s']; cbn [snd] in *; [by rewrite (Hk a)|done|done].
Qed.

Lemma steady_try (m : PG (dpager * Disk) A) : steady m -> steady (gtry m).
Proof. intros Hm s. unfold gtry. specialize (Hm s). by destruct (m s) as [[a|e|] s']. Qed.

Lemma steady_ret (a : A) : steady (gret a).
Proof. done. Qed.

Lemma steady_fail e : steady (gfail (A:=A) e).
Proof. done. Qed.

Lemma steady_panic : steady (gpanic (A:=A)).
Proof. done. Qed.

Lemma steady_lift (r : res pgErr A) : steady (glift r).
Proof. done. Qed.

Lemma steady_io (f : Disk -> A * Disk) : steady (gio f).
Proof. intros s. unfold gio. by destruct (f s.2). Qed.

Lemma steady_get : steady (gget (D:=Disk)).
Proof. done. Qed.

Lemma steady_put f : (forall p, CatalogRoot (f p) = CatalogRoot p) -> steady (gput (D:=Disk) f).
Proof. intros Hf s. apply Hf. Qed.

Lemma steady_read h n off : steady (file_read (D:=Disk) h n off).
Proof. done. Qed.

Lemma steady_frame n : steady (frame (D:=Disk) n).
Proof. intros s. unfold frame. by destruct (table _ !! n). Qed.
End steady.

#[local] Hint Resolve steady_bind steady_try steady_ret steady_fail steady_panic steady_lift steady_io steady_get steady_put steady_read steady_frame : steady.

(** Follows the method; a gput leaves the header, or its catalog root, alone. *)
Ltac steady_tac :=
  repeat (intros; first
    [ done
    | progress auto with steady nocore
    | match goal with
      | |- steady (match ?x with _ => _ end) => destruct x
      | |- CatalogRoot (match ?x with _ => _ end) = _ => destruct x
      end
    | apply steady_bind | apply steady_try | apply steady_put ]).

Lemma steady_write h b off : steady (file_write (D:=Disk) h b off).
Proof. unfold file_write. steady_tac. Qed.

Lemma steady_obtain : steady (obtainFrameLocked (D:=Disk)).
Proof. unfold obtainFrameLocked, writeBack. pose proof steady_write. steady_tac. Qed.

Lemma steady_fetch n : steady (fetchLocked (D:=Disk) n).
Proof. unfold fetchLocked, readPageInto, on_pool, ctr. pose proof steady_obtain. steady_tac. Qed.

Lemma steady_mark n : steady (markDirtyLocked (D:=Disk) n).
Proof. unfold markDirtyLocked, on_pool. steady_tac. Qed.

Lemma steady_touch : steady (touchHeaderLocked (D:=Disk)).
Proof. unfold touchHeaderLocked, encodeHeaderIntoFrame0, on_pool. pose proof steady_mark. steady_tac. Qed.

Lemma steady_allocate : steady (Pager.Allocate (D:=Disk)).
Proof.
  unfold Pager.Allocate, allocateFromFreelist, allocateByGrowing, zero_frame, on_pool.
  pose proof steady_mark. pose proof steady_touch. pose proof steady_obtain. pose proof steady_fetch. steady_tac.
Qed.

(** ** The calls of a layer above *)

Section traced.
Context (csprng : nat -> Z).

#[local] Instance pager_pages : PageOps (dpager * Disk) := Pager_ops csprng.
#[local] Existing Instance Pager_laws.

Lemma frame_state n (s : dpager * Disk) : (frame n s).2 = s.
Proof. destruct s as [p d]. unfold frame. cbn [fst]. by destruct (table (p_pool p) !! n). Qed.

Lemma with_buf_state {A} (m : PG (dpager * Disk) A) n s : (with_buf m n s).2 = (m s).2.
Proof.
  unfold with_buf, gbind at 1. destruct (m s) as [[a|e|] s1]; [|done|done]. unfold gbind at 1.
  pose proof (frame_state (n a) s1) as H. by destruct (frame (n a) s1) as [[f|e|] s2].
Qed.

(** Open: the tree of the root the header names, with [catalogRoot] for its onRoot. *)
Definition OpenIndex (collID : Z) (unique : bool) (s : dpager * Disk) : ix (dpager * Disk) :=
  OpenWithRoot collID unique (CatalogRoot s.1) s.

(** The tree's root is the one the header names. *)
Definition tracked (s : ix (dpager * Disk)) : Prop := t_root (ix_t s) = CatalogRoot (ix_p s).1.

Definition tracks {A} (m : IX (dpager * Disk) A) : Prop := forall s, tracked s -> tracked (m s).2.

Lemma tracks_bind {A B} (m : IX (dpager * Disk) A) (k : A -> IX (dpager * Disk) B) : tracks m -> (forall a, tracks (k a)) -> tracks (ibind m k).
Proof. intros Hm Hk s Hs. unfold ibind. specialize (Hm s Hs). destruct (m s) as [[a|e|] s']; [by apply Hk|done|done]. Qed.

Lemma tracks_ret {A} (a : A) : tracks (iret a).
Proof. by intros s. Qed.

Lemma tracks_fail {A} e : tracks (ifail (A:=A) e).
Proof. by intros s. Qed.

Lemma tracks_lift {A} (r : res ixErr A) : tracks (ilift r).
Proof. by intros s. Qed.

Lemma tracks_get : tracks iget.
Proof. by intros s. Qed.

Lemma tracks_fetch n : tracks (fetch n).
Proof.
  intros s Hs. unfold fetch. pose proof (steady_fetch n (ix_p s)) as H. rewrite <- (with_buf_state (fetchLocked n) (fun _ => n)) in H.
  cbn [Fetch pager_pages Pager_ops]. destruct (with_buf (fetchLocked n) (fun _ => n) (ix_p s)) as [r0 s0]. unfold tracked in *. cbn [snd ix_t ix_p] in *. congruence.
Qed.

Lemma tracks_allocate : tracks allocate.
Proof.
  intros s Hs. unfold allocate. pose proof (steady_allocate (ix_p s)) as H. rewrite <- (with_buf_state Pager.Allocate id) in H.
  cbn [PageStore.Allocate pager_pages Pager_ops]. destruct (with_buf Pager.Allocate id (ix_p s)) as [r0 s0]. unfold tracked in *. cbn [snd ix_t ix_p] in *. congruence.
Qed.

Lemma tracks_write n b : tracks (on_pages (WriteBuf n b)).
Proof. by intros s. Qed.

Lemma tracks_mark n : tracks (on_pages (MarkDirty n)).
Proof. intros s Hs. pose proof (steady_mark n (ix_p s)) as H. unfold tracked in *. cbn [on_pages snd ix_t ix_p MarkDirty pager_pages Pager_ops]. congruence. Qed.

Lemma tracks_unpin n : tracks (on_pages (PageStore.Unpin n)).
Proof. by intros s. Qed.

(** A new root goes to the tree and to the header. *)
Lemma tracks_newRoot root : tracks (newRoot catalogRoot root).
Proof.
  intros s _. unfold tracked, newRoot, catalogRoot. cbn [snd ix_t ix_p t_root set_root].
  set (s1 := (set_hdr (set_catalog root (p_hdr (ix_p s).1)) (ix_p s).1, (ix_p s).2) : dpager * Disk).
  change (SetCatalogRoot root (ix_p s)) with (touchHeaderLocked s1). symmetry. exact (steady_touch s1).
Qed.

#[local] Hint Resolve tracks_ret tracks_fail tracks_lift tracks_get tracks_fetch tracks_allocate tracks_write tracks_mark tracks_unpin tracks_newRoot : steady.

Ltac tracks_tac :=
  repeat (intros; first
    [ progress auto with steady nocore
    | match goal with
      | |- tracks (match ?x with _ => _ end) => destruct x
      | |- tracks (let '(_, _) := ?x in _) => destruct x
      end
    | apply tracks_bind ]).

Lemma tracks_nodes :
  (forall n, tracks (loadLeaf n)) /\ (forall n, tracks (loadInterior n)) /\ (forall n, tracks (pageType n)) /\
  (forall n keys rs, tracks (writeLeaf n keys rs)) /\ (forall n ents, tracks (writeInterior n ents)) /\
  (forall keys rs, tracks (newLeaf keys rs)) /\ (forall ents, tracks (newInterior ents)).
Proof.
  unfold loadLeaf, loadInterior, pageType, writeLeaf, writeInterior, newLeaf, newInterior, fill_pinned.
  repeat split; tracks_tac.
Qed.

Lemma tracks_descend fuel key : tracks (descend fuel key).
Proof.
  pose proof tracks_nodes as (_ & HI & HT & _). unfold descend. apply tracks_bind; [auto with steady|]. intros t. generalize (t_root t), (@nil Z).
  induction fuel as [|fuel IH]; intros pno path; cbn [descend_loop]; tracks_tac.
Qed.

Lemma tracks_getLocked fuel key : tracks (getLocked fuel key).
Proof.
  pose proof tracks_nodes as (HL & _). pose proof (tracks_descend fuel) as HD.
  assert (HS : forall n leaf search, tracks (seek_loop n leaf search)).
  { induction n as [|n IH]; intros leaf search; cbn [seek_loop]; tracks_tac. }
  unfold getLocked, seek. tracks_tac.
Qed.

Lemma tracks_insertIntoParent rpath : forall left sep right, tracks (insertIntoParent catalogRoot rpath left sep right).
Proof.
  pose proof tracks_nodes as (_ & HI & _ & _ & HWI & _ & HNI). induction rpath as [|pno rpath IH]; intros left sep right; cbn [insertIntoParent]; tracks_tac.
Qed.

(** Put leaves the header naming the tree's root. *)
Lemma tracks_Put fuel txn key rid : tracks (Put catalogRoot fuel txn key rid).
Proof.
  pose proof tracks_nodes as (HL & _ & _ & HW & _ & HN & _). pose proof (tracks_descend fuel) as HD. pose proof tracks_insertIntoParent as HP.
  assert (HG : forall k, tracks (lookup_opt fuel k)).
  { intros k s Hs. unfold lookup_opt. pose proof (tracks_getLocked fuel k s Hs) as H. by destruct (getLocked fuel k s) as [[x|e|] s']. }
  unfold Put, Put_insert, splitLeaf. tracks_tac.
Qed.

(** A call that respects what the pager is owed, but for the log sequence numbers. *)
Definition called (a : action) (s : dpager * Disk) : Prop :=
  match a with
  | AFetch n => n ∈ live s
  | AUpdate n b => n ∈ live s /\ (0 < pins_of (table (p_pool s.1)) n)%nat /\ blen b = p_pageSize s.1 /\ bytes_ok b
  | AUnpin n => (0 < pins_of (table (p_pool s.1)) n)%nat
  | AAllocate => PagerInv.count s < NullPage
  | ASetRoot root => in_u 32 root
  | _ => False
  end.

Fixpoint calls (l : list action) (s : dpager * Disk) : Prop :=
  match l with
  | [] => True
  | a :: l' => called a s /\ calls l' (act csprng a s)
  end.

Lemma calls_snoc l a : forall s, calls l s -> called a (acts csprng l s) -> calls (l ++ [a]) s.
Proof. induction l as [|b l IH]; intros s; cbn; [done|]. intros [H1 H2] Ha. split; [done|by apply IH]. Qed.

Lemma acts_snoc l a : forall s, acts csprng (l ++ [a]) s = act csprng a (acts csprng l s).
Proof. induction l as [|b l IH]; intros s; cbn; [done|]. apply IH. Qed.

(** s is reached from s0 by such calls. *)
Definition traced (s0 s : dpager * Disk) : Prop := exists l, calls l s0 /\ s = acts csprng l s0.

Lemma traced_refl s : traced s s.
Proof. by exists []. Qed.

Lemma traced_step s0 s a : traced s0 s -> called a s -> traced s0 (act csprng a s).
Proof. intros (l & H1 & ->) Ha. exists (l ++ [a]). split; [by apply calls_snoc|by rewrite acts_snoc]. Qed.

Lemma Fetch_acts n s : (Fetch n s).2 = act csprng (AFetch n) s.
Proof.
  cbn [Fetch pager_pages Pager_ops act]. rewrite <- (with_buf_state (fetchLocked n) (fun _ => n) s).
  by destruct (with_buf (fetchLocked n) (fun _ => n) s).
Qed.

Lemma Allocate_acts s : (PageStore.Allocate s).2 = act csprng AAllocate s.
Proof.
  cbn [PageStore.Allocate pager_pages Pager_ops act]. rewrite <- (with_buf_state Pager.Allocate id s). by destruct (with_buf Pager.Allocate id s).
Qed.

(** The pager's promises, keeping the trace of the calls made on it. *)
#[program] Definition traced_laws (s0 : dpager * Disk) : PageLaws (dpager * Disk) := {|
  pg_inv s := pager_inv s /\ traced s0 s;
  pg_live := live;
  pg_view := PagerInv.view;
  pg_pins s n := pins_of (table (p_pool s.1)) n;
  pg_room s := Z.to_nat (NullPage - PagerInv.count s);
  pg_fails e := e = PgPoolExhausted \/ e = PgCorrupt
|}.
Next Obligation. intros s0 s [Hi _]. exact (@pg_size _ pager_pages (Pager_laws csprng) s Hi). Qed.
Next Obligation. intros s0 s [Hi _]. exact (@pg_algo _ pager_pages (Pager_laws csprng) s Hi). Qed.
Next Obligation. intros s0 s n [Hi _] Hn. exact (@pg_page _ pager_pages (Pager_laws csprng) s n Hi Hn). Qed.
Next Obligation.
  intros s0 s n r s' [Hi Ht] Hn HF. destruct (@pg_fetch _ pager_pages (Pager_laws csprng) s n r s' Hi Hn HF) as (H1 & H2). split; [|exact H2]. split; [exact H1|].
  replace s' with (act csprng (AFetch n) s) by (rewrite <- Fetch_acts, HF; done). by apply traced_step.
Qed.
Next Obligation.
  intros s0 s n b [Hi Ht] Hn Hp Hb Hok p'. destruct (@pg_update _ pager_pages (Pager_laws csprng) s n b Hi Hn Hp Hb Hok) as (lsn & H0 & H1 & H2).
  exists lsn. split; [exact H0|]. split; [|exact H2]. split; [exact H1|]. unfold p'.
  replace (MarkDirty n (WriteBuf n b s)) with (act csprng (AUpdate n b) s) by (symmetry; apply update_as_ops).
  apply traced_step; [done|]. by split_and!.
Qed.
Next Obligation.
  intros s0 s n [Hi Ht] Hp p'. destruct (@pg_unpin _ pager_pages (Pager_laws csprng) s n Hi Hp) as (H1 & H2). split; [|exact H2]. split; [exact H1|].
  by apply (traced_step s0 s (AUnpin n)).
Qed.
Next Obligation.
  intros s0 s r s' [Hi Ht] Hroom HA. destruct (@pg_allocate _ pager_pages (Pager_laws csprng) s r s' Hi Hroom HA) as (H1 & H2). split; [|exact H2]. split; [exact H1|].
  assert (E : s' = act csprng AAllocate s) by (rewrite <- Allocate_acts; exact (eq_sym (f_equal snd HA))). rewrite E. apply traced_step; [done|]. cbn in Hroom |- *. lia.
Qed.
Next Obligation. intros s0 s n [Hi _] Hn. exact (@pg_algo_fetch _ pager_pages (Pager_laws csprng) s n Hi Hn). Qed.
Next Obligation. intros s0 s n [Hi _] Hp. exact (@pg_algo_unpin _ pager_pages (Pager_laws csprng) s n Hi Hp). Qed.

(** Naming a new root is such a call, and leaves the pages in use. *)
Lemma catalogRoot_quiet s0 : @root_quiet _ pager_pages (traced_laws s0) catalogRoot.
Proof.
  intros root s [Hi Ht] Hr. destruct (gspec_unit _ _ _ (SetCatalogRoot_rooted s root Hi Hr)) as [R1 R2 R3 R4 _ R6 R7].
  fold (catalogRoot root s) in *. destruct (pi_free _ Hi) as (fl & Hfl). split; [split; [exact R1|by apply (traced_step s0 s (ASetRoot root))]|].
  split; [exact (f_equal fst R2)|]. split; [exact R3|]. split.
  - change (Z.to_nat (NullPage - PagerInv.count (catalogRoot root s)) = Z.to_nat (NullPage - PagerInv.count s)). by rewrite R4.
  - intros n Hn. apply R6. apply (live_range _ _ _ Hfl) in Hn. lia.
Qed.
End traced.

(** ** Calls on a durable pager *)

Section survives.
Context (csprng : nat -> Z) (ps algo : Z) (path : string).
Hypothesis (Hrand : forall k, byte_ok (csprng k)).
Notation wal := (path +:+ "-wal").
Notation durable := (durable ps algo path).
Notation calls := (calls csprng).
Notation acts := (acts csprng).

#[local] Instance survives_pages : PageOps (dpager * Disk) := Pager_ops csprng.
#[local] Instance survives_laws : PageLaws (dpager * Disk) := Pager_laws csprng.

Lemma called_allowed a s db wh ts : durable s db wh ts -> called a s -> lsn_room s -> allowed ps a s /\ a <> ACommit /\ a <> ACheckpoint.
Proof.
  intros Hd Ha Hl. pose proof (du_size _ _ _ _ _ _ _ Hd) as Hs. destruct (pi_free _ (du_inv _ _ _ _ _ _ _ Hd)) as (fl & Hfl).
  destruct a as [n|n b|n| |n|root| |l|k|on| | |]; cbn [called allowed] in *; try done.
  - apply (live_spec _ _ _ Hfl) in Ha. split; [lia|done].
  - rewrite Hs in Ha. destruct Ha as (H1 & H2 & H3 & H4). by split_and!.
Qed.

Lemma calls_durable l : forall s db wh ts,
  durable s db wh ts -> calls l s -> p_nextLSN s.1 + 2 * Z.of_nat (length l) + 2 < 2 ^ 64 ->
  durable (acts l s) db wh ts /\ safe (PagerLog.recoverable ps algo path wal (eq db)) s.2 (acts l s).2.
Proof using Hrand.
  induction l as [|a l IH]; intros s db wh ts Hd Hl Hn; cbn [PagerProps.acts PagerIndex.calls length] in *; [split; [done|apply safe_refl]|].
  destruct Hl as [Ha Hl]. destruct (called_allowed a s db wh ts Hd Ha ltac:(unfold lsn_room; lia)) as (Hal & N1 & N2).
  destruct (act_still csprng ps algo path Hrand a s db wh ts Hd Hal N1 N2) as (H1 & H2 & H3).
  destruct (IH _ _ _ _ H1 Hl ltac:(lia)) as [I1 I2]. split; [done|]. by eapply safe_trans.
Qed.

(** ** What a crash keeps of a committed state *)

(** s' holds the pages in use of s, up to their checksums. *)
Record kept (s s' : dpager * Disk) : Prop := Kept {
  kp_inv : pager_inv s';
  kp_size : p_pageSize s'.1 = p_pageSize s.1;
  kp_count : PagerInv.count s' = PagerInv.count s;
  kp_live : live s' = live s;
  kp_root : CatalogRoot s'.1 = CatalogRoot s.1;
  kp_view : forall n, n ∈ live s -> take (Z.to_nat (ps - 4)) (PagerInv.view s' n) = take (Z.to_nat (ps - 4)) (PagerInv.view s n)
}.

Lemma hdr_page_inj h h' :
  ValidPageSize ps = true -> Supported algo = true -> fits ps algo h -> fits ps algo h' -> hdr_page ps h = hdr_page ps h' ->
  FreelistRoot h = FreelistRoot h' /\ DbHeader.CatalogRoot h = DbHeader.CatalogRoot h'.
Proof.
  intros Hps Ha Hf Hf' E. destruct (header_bytes_fits ps algo h Hps Ha Hf) as (_ & _ & _ & s & H).
  destruct (header_bytes_fits ps algo h' Hps Ha Hf') as (_ & _ & _ & s' & H'). specialize (H (replicate (Z.to_nat (ps - HeaderSize)) 0)).
  specialize (H' (replicate (Z.to_nat (ps - HeaderSize)) 0)). unfold hdr_page in E. rewrite E, H' in H.
  assert (E2 : with_sum s' h' = with_sum s h) by congruence.
  split; symmetry; [exact (f_equal FreelistRoot E2)|exact (f_equal DbHeader.CatalogRoot E2)].
Qed.

Lemma durable_zero s db wh ts : durable s db wh ts -> PagerInv.view s 0 = hdr_page ps (p_hdr s.1).
Proof.
  intros Hd. destruct (ln_zero _ _ _ _ (pi_lent _ (du_inv _ _ _ _ _ _ _ Hd))) as (f & Hf & _).
  unfold PagerInv.view, page_at. rewrite Hf. by apply (du_zero _ _ _ _ _ _ _ Hd).
Qed.

Lemma reopened_kept s db wh ts s' wh' :
  durable s db wh ts -> durable s' (snapshot algo s) wh' [] -> PagerInv.count s' = blen (snapshot algo s) ->
  (forall n, 0 <= n < blen (snapshot algo s) -> PagerInv.view s' n = db_page (snapshot algo s) n) -> kept s s'.
Proof.
  intros Hd Hd' Hc Hv. pose proof (du_inv _ _ _ _ _ _ _ Hd) as Hi. pose proof (du_inv _ _ _ _ _ _ _ Hd') as Hi'.
  pose proof (pi_count _ Hi) as Hcs. destruct (durable_size _ _ _ _ _ _ _ Hd) as (_ & Hps & Ha).
  rewrite blen_snapshot in Hc, Hv by lia.
  assert (Hsv : forall n, 0 <= n < PagerInv.count s -> take (Z.to_nat (ps - 4)) (PagerInv.view s' n) = take (Z.to_nat (ps - 4)) (PagerInv.view s n) /\
    (n = 0 -> PagerInv.view s' n = PagerInv.view s n) /\ freelist_next (PagerInv.view s' n) = freelist_next (PagerInv.view s n)).
  { intros n Hn. rewrite Hv, db_page_snapshot by done. exact (snap_page_view ps algo path s db wh ts n Hd Hn). }
  assert (FreelistRoot (p_hdr s'.1) = FreelistRoot (p_hdr s.1) /\ CatalogRoot s'.1 = CatalogRoot s.1) as [Hroot Hcat].
  { pose proof (pi_hdr _ Hi) as F. pose proof (pi_hdr _ Hi') as F'. unfold hdr_fits in F, F'.
    rewrite (du_size _ _ _ _ _ _ _ Hd), (du_algo _ _ _ _ _ _ _ Hd) in F. rewrite (du_size _ _ _ _ _ _ _ Hd'), (du_algo _ _ _ _ _ _ _ Hd') in F'.
    apply hdr_page_inj; try done. rewrite <- (durable_zero s' _ _ _ Hd'), <- (durable_zero s _ _ _ Hd). by apply Hsv; [lia|]. }
  destruct (pi_free _ Hi) as (fl & Hfl). destruct (pi_free _ Hi') as (fl' & Hfl').
  assert (E : fl' = fl).
  { destruct Hfl as (C1 & C2 & C3 & _). destruct Hfl' as (D1 & D2 & D3 & _). rewrite Hroot in D1.
    assert (Hx : forall l root, chain (PagerInv.view s) root l -> Forall (fun n => 0 < n < PagerInv.count s) l -> chain (PagerInv.view s') root l).
    { induction 1 as [|n l Hn H IH]; intros Hl; [constructor|]. apply Forall_cons in Hl as [Hn0 Hl]. constructor; [done|].
      destruct (Hsv n ltac:(lia)) as (_ & _ & ->). by apply IH. }
    specialize (Hx fl _ C1 C3). pose proof (chain_walk _ _ fl (length fl + length fl') Hx ltac:(lia)) as W1.
    pose proof (chain_walk _ _ fl' (length fl + length fl') D1 ltac:(lia)) as W2. congruence. }
  subst fl'. constructor; [done| |done| |done|].
  - by rewrite (du_size _ _ _ _ _ _ _ Hd), (du_size _ _ _ _ _ _ _ Hd').
  - apply set_eq. intros n. by rewrite (live_spec _ _ _ Hfl), (live_spec _ _ _ Hfl'), Hc.
  - intros n Hn. apply (live_spec _ _ _ Hfl) in Hn as [Hn _]. apply Hsv. lia.
Qed.

(** Commit, any crash, and Open. *)
Lemma commit_kept s db wh ts :
  durable s db wh ts ->
  exists s1, Pager.Commit csprng s = (Ok tt, s1) /\
    forall fuel o rand (d : Disk), crashed wal (dk_files s1.2) (dk_files d) -> o_ReadOnly o = false -> o_Sync o <> SyncOff ->
      (length (disk_data wal d) < fuel)%nat ->
      exists p d', Open csprng fuel path o rand d = (Ok p, d') /\ kept s (p, d').
Proof using Hrand.
  intros Hd. pose proof (commit_spec csprng ps algo path Hrand s db wh ts Hd) as H. unfold gspec in H.
  destruct (Pager.Commit csprng s) as [[[]|e|] s1]; [|done|done]. destruct H as (wh1 & ts1 & Hd1 & _ & _).
  exists s1. split; [done|]. intros fuel o rand d Hc Hro Hsy Hf. destruct (durable_size _ _ _ _ _ _ _ Hd) as (_ & Hps & Ha).
  pose proof (du_db _ _ _ _ _ _ _ Hd1) as O.
  destruct (Open_recovers csprng ps algo path Hrand Hps Ha fuel o rand d (eq (snapshot algo s)) (dk_files s1.2)
    (durable_recoverable _ _ _ _ _ _ _ Hd1) Hc) as (p & d' & db' & wh' & E & <- & Hd' & Hv & Hcn & _); [by intros x <-|done..|].
  exists p, d'. split; [done|]. by eapply reopened_kept.
Qed.

(** Nothing a node holds is in its page's checksum. *)
Lemma holds_resealed b b' nd :
  blen b' = blen b -> bytes_ok b' -> take (length b - 4) b' = take (length b - 4) b -> holds b nd -> holds b' nd.
Proof.
  intros Hl Hb Ht (Hw & Ha & Htp & Hn & Hr). pose proof (w_len b Hw) as Hlen. unfold blen in Hl, Hlen.
  set (body := take (length b - 4) b) in *.
  assert (Hbl : length body = (length b - 4)%nat) by (unfold body; rewrite length_take; lia).
  assert (Hs : forall off n : nat, (off + n <= length b - 4)%nat -> sub off n b' = sub off n b).
  { intros off n Hon. rewrite <- (take_drop (length b - 4) b'), Ht. rewrite <- (take_drop (length b - 4) b) at 2. fold body.
    by rewrite !sub_app_l by lia. }
  assert (Hh : hdr b' = hdr b).
  { unfold hdr, DecodePageHeader. rewrite !rd_Ok by (unfold blen, PageHeaderSize; lia). unfold PageHeaderSize. by rewrite Hs by lia. }
  destruct (swf_same_body b b' Hw) as [H1 H2]; try (unfold Slotted.count, fend; by rewrite Hh); [unfold blen; lia|done| |].
  - intros x m Hx Hm Hxm. unfold csub. unfold bl, blen in Hxm. apply Hs. lia.
  - split; [done|]. rewrite H2, Hh. by split_and!.
Qed.

Lemma kept_stored s s' N sz k : pager_inv s -> p_pageSize s.1 = ps -> kept s s' -> stored N sz k s -> stored N sz k s'.
Proof.
  intros Hi Hps [K1 K2 K3 K4 _ K5] [S1 S2 S3 S4]. constructor; [done| | |].
  - change (p_pageSize s'.1 = sz). by rewrite K2.
  - change (k <= Z.to_nat (NullPage - PagerInv.count s'))%nat. by rewrite K3.
  - intros n nd Hn. destruct (S4 n nd Hn) as [Hl Hh]. change (n ∈ live s' /\ holds (PagerInv.view s' n) nd).
    change (n ∈ live s) in Hl. change (holds (PagerInv.view s n) nd) in Hh. rewrite K4. split; [done|].
    assert (Hl' : n ∈ live s') by by rewrite K4.
    destruct (@pg_page _ _ survives_laws s n Hi Hl) as (_ & _ & _ & P1 & _). destruct (@pg_page _ _ survives_laws s' n K1 Hl') as (_ & _ & _ & P2 & P3).
    change (blen (PagerInv.view s n) = p_pageSize s.1) in P1. change (blen (PagerInv.view s' n) = p_pageSize s'.1) in P2.
    eapply holds_resealed; [|exact P3| |exact Hh]; [congruence|].
    replace (length (PagerInv.view s n) - 4)%nat with (Z.to_nat (ps - 4)) by (unfold blen in P1; lia). by apply K5.
Qed.

(** The tree Open makes of what is kept, on the root the header names. *)
Lemma kept_indexed t s s' m K h r :
  pager_inv s -> p_pageSize s.1 = ps -> kept s s' -> t_root t = CatalogRoot s.1 -> indexed m ps K h r (MkIx t s) ->
  indexed m ps K h r (OpenIndex csprng (t_collID t) (t_unique t) s').
Proof.
  intros Hi Hps Hk Hroot [(N & H1 & H2 & H2') [Z1 Z2 Z3] H4 H5]. cbn [ix_t ix_p] in *. unfold OpenIndex, OpenWithRoot. constructor; cbn [ix_t ix_p]; [|constructor; cbn; try done|done|done].
  - exists N. split; [by eapply kept_stored|]. split; [done|]. cbn [t_root]. rewrite (kp_root _ _ Hk), <- Hroot. done.
  - change (BodySize (p_pageSize s'.1) = BodySize ps). by rewrite (kp_size _ _ Hk), Hps.
Qed.

(** The laws of a pager and those that keep its trace describe the same trees. *)
Lemma traced_indexed s0 t s m sz K h r :
  @indexed _ _ (traced_laws csprng s0) m sz K h r (MkIx t s) <-> traced csprng s0 s /\ indexed m sz K h r (MkIx t s).
Proof.
  split.
  - intros [(N & [[S1 T] S2 S3 S4] & H2) H3 H4 H5]. split; [done|]. constructor; [|done..]. exists N. split; [|done]. by constructor.
  - intros [T [(N & [S1 S2 S3 S4] & H2) H3 H4 H5]]. constructor; [|done..]. exists N. split; [|done]. by constructor.
Qed.

(** ** The promise *)

(** C4. An index on the root the database header names, SetCatalogRoot as its
    onRoot, over a durable pager. When Put succeeds, its calls on the pager are ones
    the pager is owed, it leaves the tree of exactly the keys and the new one, and
    the header names its root. As long as log sequence numbers last: a crash at any
    moment of the Put, and after it before the Commit, gives back what was last
    committed; the Commit succeeds, and after any crash from then on Open finds a
    header whose root is that of a well-formed tree of exactly the keys and the new
    one. (Keys are bounded by m with (m + 8)(m + 16) at most eight page bodies, 162
    bytes of fields on pages of 4096 bytes, and pages by the room left.) *)
Theorem put_survives_crash s db wh ts t fuel txn m key rid K h r :
  durable s db wh ts -> indexed m ps K h (S h + r) (MkIx t s) -> t_root t = CatalogRoot s.1 ->
  fuel_ok fuel -> small m (BodySize ps) -> bytes_ok key -> rid_ok rid -> blen key + 6 <= m ->
  wp (Put catalogRoot fuel txn key rid) (MkIx t s)
    (fun _ s' => exists l h', calls l s /\ ix_p s' = acts l s /\ indexed m ps (key_insert (treeKey key rid) K) h' r s' /\
       t_root (ix_t s') = CatalogRoot (ix_p s').1 /\
       (p_nextLSN s.1 + 2 * Z.of_nat (length l) + 2 < 2 ^ 64 ->
        (exists passed, went s.2 (ix_p s').2 passed /\ Forall (reopens csprng ps algo path (eq db)) (passed ++ [dk_files (ix_p s').2])) /\
        exists s1, Pager.Commit csprng (ix_p s') = (Ok tt, s1) /\
          forall fuel o rand (d : Disk), crashed wal (dk_files s1.2) (dk_files d) -> o_ReadOnly o = false -> o_Sync o <> SyncOff ->
            (length (disk_data wal d) < fuel)%nat ->
            exists p d', Open csprng fuel path o rand d = (Ok p, d') /\
              indexed m ps (key_insert (treeKey key rid) K) h' r (OpenIndex csprng (t_collID t) (t_unique t) (p, d'))))
    (fun _ _ => True).
Proof using Hrand.
  intros Hd Hi Hroot Hf Hsm Hkey Hrid Hlen.
  assert (Hi' : @indexed _ _ (traced_laws csprng s) m ps K h (S h + r) (MkIx t s)) by (apply traced_indexed; split; [apply traced_refl|done]).
  pose proof (@wp_Put _ _ (traced_laws csprng s) catalogRoot fuel m ps key rid txn Hf (catalogRoot_quiet csprng s) Hsm Hkey Hlen K h r (MkIx t s) Hi') as Hw.
  pose proof (tracks_Put csprng fuel txn key rid (MkIx t s) Hroot) as Htr.
  unfold wp in Hw |- *. destruct (Put catalogRoot fuel txn key rid (MkIx t s)) as [[[]|e|] [t' s']]; [|done|done].
  destruct Hw as [(h' & root & Hx & _ & Et) _]. unfold tracked in Htr. apply traced_indexed in Hx as [(l & Hl & E) Hx]. cbn [ix_p ix_t snd] in *.
  exists l, h'. split; [done|]. split; [done|]. split; [done|]. split; [done|]. intros Hn.
  destruct (calls_durable l s db wh ts Hd Hl Hn) as [Hd' (passed & W & HP)]. rewrite <- E in Hd', W.
  destruct (durable_size _ _ _ _ _ _ _ Hd) as (_ & Hps & Ha). pose proof (du_db _ _ _ _ _ _ _ Hd') as O.
  assert (HR : forall f, PagerLog.recoverable ps algo path wal (eq db) f -> reopens csprng ps algo path (eq db) f).
  { intros f Hr. apply recoverable_reopens; [done|done|done|by intros x <-|done]. }
  split.
  - exists passed. split; [done|]. apply Forall_app. split; [by eapply Forall_impl|]. apply Forall_singleton, HR. by eapply durable_recoverable.
  - destruct (commit_kept s' db wh ts Hd') as (s1 & E1 & H1). exists s1. split; [done|]. intros fu o rand d Hc Hro Hsy Hfu.
    destruct (H1 fu o rand d Hc Hro Hsy Hfu) as (p & d' & E2 & Hk). exists p, d'. split; [done|].
    assert (t_collID t = t_collID t' /\ t_unique t = t_unique t') as [-> ->] by (by rewrite Et).
    eapply kept_indexed; [exact (du_inv _ _ _ _ _ _ _ Hd')|exact (du_size _ _ _ _ _ _ _ Hd')|exact Hk|exact Htr|exact Hx].
Qed.
End survives.

(** ** An index in a new database *)

Lemma new_index csprng h wh p (d : Disk) r :
  durable 4096 ChecksumCRC32C "db" (p, d) (one_page 4096 h) wh [] -> PagerInv.count (p, d) = 1 -> CatalogRoot p = NullPage -> Z.of_nat r <= 1000 ->
  @indexed _ _ (Pager_laws csprng) 100 4096 [] 0 r (OpenIndex csprng 1 false (p, d)).
Proof.
  intros Hd Hc Hroot Hr. pose proof (du_size _ _ _ _ _ _ _ Hd) as Hs. unfold OpenIndex. cbn [fst]. rewrite Hroot. constructor; [ | |constructor|constructor].
  2:{ constructor; [|unfold in_u; cbn; lia|vm_compute; by intros [=]]. change (BodySize (p_pageSize (p, d).1) = BodySize 4096). by rewrite Hs. }
  exists ∅. split_and!; [|by intros ? ? ?%lookup_empty_Some|by constructor].
  constructor; [exact (du_inv _ _ _ _ _ _ _ Hd)|exact Hs| |by intros ? ? ?%lookup_empty_Some].
  change (r <= Z.to_nat (NullPage - PagerInv.count (p, d)))%nat. rewrite Hc. unfold NullPage. lia.
Qed.

(** The first Put in the demo database. *)
Definition demo_put (fuel : nat) (s : dpager * Disk) : res ixErr unit * ix (dpager * Disk) :=
  @Put _ (Pager_ops demo_csprng) catalogRoot fuel (MkTx 1 false) [5] (MkRID 1 0) (OpenIndex demo_csprng 1 false s).

Lemma demo_put_runs p d fuel :
  demo_open new_disk = (Ok p, d) -> CatalogRoot p = NullPage /\ (demo_put fuel (p, d)).1 = Ok tt.
Proof.
  assert (H : match demo_open new_disk with
    | (Ok p, d) => match (demo_put fuel (p, d)).1 with Ok tt => CatalogRoot p =? NullPage | _ => false end
    | _ => false end = true) by (vm_compute; reflexivity).
  intros E. rewrite E in H. revert H. generalize (demo_put fuel (p, d)). intros [[[]|e|] s'] H; cbn [fst] in *; [|done|done].
  split; [by apply Z.eqb_eq|done].
Qed.

Lemma put_survives_crash_witness :
  exists fuel p d h wh s', durable 4096 ChecksumCRC32C "db" (p, d) (one_page 4096 h) wh [] /\
    demo_put fuel (p, d) = (Ok tt, s') /\ t_root (ix_t s') = CatalogRoot (ix_p s').1 /\
    exists h', @indexed _ _ (Pager_laws demo_csprng) 100 4096 [treeKey [5] (MkRID 1 0)] h' 5 s'.
Proof.
  destruct demo_database as (p & d & h & wh & Ho & Hd & Hc & _). set (fuel := Z.to_nat (2 ^ 32)). 
  destruct (demo_put_runs p d fuel Ho) as [Hroot Hrun].
  pose proof (new_index demo_csprng h wh p d 6 Hd Hc Hroot ltac:(lia)) as Hi. unfold demo_put in Hrun. unfold OpenIndex, OpenWithRoot in Hi, Hrun. cbn [fst] in Hi, Hrun.
  set (t := MkBTree _ _ _ _ _ _) in *.
  pose proof (put_survives_crash demo_csprng 4096 ChecksumCRC32C "db" demo_csprng_ok (p, d) (one_page 4096 h) wh [] t
    fuel (MkTx 1 false) 100 [5] (MkRID 1 0) [] 0 5 Hd Hi eq_refl) as H. unfold wp, survives_pages in H.
  exists fuel, p, d, h, wh. unfold demo_put, OpenIndex, OpenWithRoot. cbn [fst]. fold t.
  destruct (@Put _ (Pager_ops demo_csprng) catalogRoot fuel (MkTx 1 false) [5] (MkRID 1 0) (MkIx t (p, d))) as [res s'].
  cbn [fst] in Hrun. subst res. exists s'. split; [exact Hd|]. split; [reflexivity|].
  cbn beta iota in H. assert (Hfuel : fuel_ok fuel) by (unfold fuel_ok, fuel; lia).
  assert (Hsm : small 100 (BodySize 4096)) by (split; vm_compute; by intros [=]).
  assert (Hkey : bytes_ok [5]) by (apply Forall_singleton; unfold byte_ok; lia).
  assert (Hrid : rid_ok (MkRID 1 0)) by (unfold rid_ok, in_u; cbn; lia).
  destruct (H Hfuel Hsm Hkey Hrid ltac:(vm_compute; by intros [=])) as (l & h' & _ & _ & H3 & H4 & _). split; [exact H4|]. by exists h'.
Defined.
