(* ===== verification/ColValue.v ===== *)
(** * colstore/value.go: the values of a projected column

    The value model, its keys and comparisons, with the variable-length integers of
    Go's encoding/binary that the encodings are made of. *)

From S2P Require Import Prelude Float64 Bson.

#[local] Open Scope Z_scope.

(** ** Values *)

Definition KindNull : Z := 0.
Definition KindBool : Z := 1.
Definition KindInt : Z := 2.
Definition KindFloat : Z := 3.
Definition KindString : Z := 4.
Definition KindOther : Z := 5.

(** F is the word of the float64. *)
Record Value := MkValue { v_Kind : Z; v_I : Z; v_F : Z; v_S : bytes; v_tag : Z }.

#[global] Instance Value_eq_dec : EqDecision Value.
Proof. solve_decision. Defined.

Definition NullValue : Value := MkValue KindNull 0 0 [] 0.
Definition int_value (k i : Z) : Value := MkValue k i 0 [] 0.
Definition float_value (f : Z) : Value := MkValue KindFloat 0 f [] 0.
Definition string_value (s : bytes) : Value := MkValue KindString 0 0 s 0.
Definition other_value (t : Z) (s : bytes) : Value := MkValue KindOther 0 0 s t.

Definition FromRawValue (v : RawValue) : Value :=
  let t := rv_Type v in
  if one_of t [0; TypeNull; TypeUndefined] then NullValue
  else if t =? TypeBoolean then int_value KindBool (if Boolean v then 1 else 0)
  else if t =? TypeInt32 then int_value KindInt (Int32 v)
  else if t =? TypeInt64 then int_value KindInt (Int64 v)
  else if t =? TypeDateTime then int_value KindInt (DateTime v)
  else if t =? TypeTimestamp then int_value KindInt (to_i64 (Timestamp v))
  else if t =? TypeDouble then float_value (Double v)
  else if t =? TypeString then string_value (StringValue v)
  else other_value t (rv_Data v).

Definition FromField (doc path : bytes) : Value :=
  match Lookup doc path with Some v => FromRawValue v | None => NullValue end.

Definition AsFloat (v : Value) : option Z :=
  if (v_Kind v =? KindInt) || (v_Kind v =? KindBool) then Some (f64_of_int (v_I v))
  else if v_Kind v =? KindFloat then Some (v_F v)
  else None.

(** string(b) of a byte: its UTF-8 form as a rune. *)
Definition rune_string (b : Z) : bytes := if b <? 128 then [b] else [192 + b / 64; 128 + b mod 64].

Definition hashKey (v : Value) : bytes :=
  match AsFloat v with
  | Some f => 110 :: le_bytes 8 f
  | None =>
      if v_Kind v =? KindString then 115 :: v_S v
      else if v_Kind v =? KindOther then 111 :: rune_string (v_tag v) ++ v_S v
      else [122]
  end.

Definition cmp_floats (f1 f2 : Z) : comparison := if f64_lt f1 f2 then Lt else if f64_lt f2 f1 then Gt else Eq.

Definition compareNumericOrString (a b : Value) : option comparison :=
  match AsFloat a with
  | Some f1 => match AsFloat b with Some f2 => Some (cmp_floats f1 f2) | None => None end
  | None =>
      if (v_Kind a =? KindString) && (v_Kind b =? KindString) then Some (bcmp (v_S a) (v_S b)) else None
  end.

Definition comparableForZone (v : Value) : bool := bool_decide (is_Some (AsFloat v)) || (v_Kind v =? KindString).

Definition strictKey (v : Value) : bytes :=
  if v_Kind v =? KindBool then if negb (v_I v =? 0) then [98; 49] else [98; 48]
  else if v_Kind v =? KindInt then 105 :: le_bytes 8 (u64 (v_I v))
  else if v_Kind v =? KindFloat then 102 :: le_bytes 8 (v_F v)
  else if v_Kind v =? KindString then 115 :: v_S v
  else if v_Kind v =? KindOther then 111 :: rune_string (v_tag v) ++ v_S v
  else [122].

(** A value read back out of a builder. *)
Definition scratch (body : bytes) : RawValue := default (MkRawValue 0 []) (Lookup (Build body) [118]).

Definition ToRawValue (v : Value) : RawValue :=
  if v_Kind v =? KindBool then scratch (AppendBoolean [118] (negb (v_I v =? 0)) [])
  else if v_Kind v =? KindInt then scratch (AppendInt64 [118] (v_I v) [])
  else if v_Kind v =? KindFloat then scratch (AppendDouble [118] (v_F v) [])
  else if v_Kind v =? KindString then scratch (AppendString [118] (v_S v) [])
  else if v_Kind v =? KindOther then MkRawValue (v_tag v) (v_S v)
  else scratch (AppendNull [118] []).

(** ** Variable-length integers (encoding/binary) *)

(** AppendUvarint: seven bits at a time, the low ones first. *)
Fixpoint put_uvarint (fuel : nat) (v : Z) : bytes :=
  match fuel with
  | O => []
  | S n => if v <? 128 then [v] else Z.lor (u8 v) 128 :: put_uvarint n (Z.shiftr v 7)
  end.

Definition AppendUvarint (v : Z) : bytes := put_uvarint 10 v.

(** Uvarint: the value and the bytes read; None where the source returns a count
    of 0 (the buffer is too short) or below (more than 64 bits). *)
Fixpoint uvarint_loop (b : bytes) (i : nat) (x s : Z) : option (Z * nat) :=
  match b with
  | [] => None
  | c :: b' =>
      if (i =? 10)%nat then None
      else if c <? 128 then
        if (i =? 9)%nat && (c >? 1) then None else Some (Z.lor x (u64 (Z.shiftl c s)), S i)
      else uvarint_loop b' (S i) (Z.lor x (u64 (Z.shiftl (Z.land c 127) s))) (s + 7)
  end.

Definition Uvarint (b : bytes) : option (Z * nat) := uvarint_loop b 0 0 0.

(** AppendVarint and Varint: the sign in the lowest bit. *)
Definition zigzag (v : Z) : Z := u64 (Z.lxor (Z.shiftl v 1) (Z.shiftr v 63)).
Definition unzigzag (u : Z) : Z := Z.lxor (Z.shiftr u 1) (- Z.land u 1).

Definition AppendVarint (v : Z) : bytes :=
  let ux := u64 (Z.shiftl (u64 v) 1) in
  AppendUvarint (if v <? 0 then Z.lxor ux max_u64 else ux).

Definition Varint (b : bytes) : option (Z * nat) :=
  match Uvarint b with
  | None => None
  | Some (ux, n) =>
      let x := Z.shiftr ux 1 in
      Some (if negb (Z.land ux 1 =? 0) then - x - 1 else x, n)
  end.

Example uvarint_300 : AppendUvarint 300 = [172; 2].
Proof. reflexivity. Qed.

Example uvarint_max : Uvarint (AppendUvarint max_u64) = Some (max_u64, 10%nat).
Proof. reflexivity. Qed.

Example varint_minus_2 : AppendVarint (-2) = [3] /\ Varint [3] = Some (-2, 1%nat).
Proof. done. Qed.

Example zigzag_min : zigzag (- 2 ^ 63) = max_u64 /\ unzigzag max_u64 = - 2 ^ 63.
Proof. done. Qed.

(** ** Round trips of the integers *)

Lemma testbit_above p n i : 0 <= n < 2 ^ p -> 0 <= p <= i -> Z.testbit n i = false.
Proof. intros Hn Hi. rewrite <- (Z.mod_small n (2 ^ p)) by done. apply Z.mod_pow2_bits_high. lia. Qed.

Lemma lor_shiftl x c s : 0 <= s -> 0 <= x < 2 ^ s -> 0 <= c -> Z.lor x (Z.shiftl c s) = x + c * 2 ^ s.
Proof.
  intros Hs Hx Hc. rewrite Z.shiftl_mul_pow2 by done. assert (0 < 2 ^ s) by (apply Z.pow_pos_nonneg; lia).
  apply Z.bits_inj'. intros n Hn. rewrite Z.lor_spec. destruct (Z.lt_ge_cases n s) as [Hl|Hl].
  - rewrite Z.mul_pow2_bits_low, orb_false_r by lia.
    rewrite <- (Z.mod_pow2_bits_low (x + c * 2 ^ s) s n) by lia. rewrite Z_mod_plus_full. by rewrite Z.mod_small.
  - rewrite (testbit_above s x) by lia. rewrite Z.mul_pow2_bits by lia. cbn [orb].
    replace n with (n - s + s) at 2 by lia. rewrite <- Z.div_pow2_bits by lia.
    rewrite Z.div_add, (Z.div_small x), Z.add_0_l by lia. done.
Qed.

Lemma land_127 c : Z.land (Z.lor (u8 c) 128) 127 = c mod 128.
Proof.
  unfold wrap. apply Z.bits_inj'. intros n Hn. change 127 with (Z.ones 7). change 128 with (2 ^ 7) at 2. rewrite Z.land_ones by lia.
  rewrite !Z.testbit_mod_pow2, Z.lor_spec, Z.testbit_mod_pow2 by lia. destruct (Z.ltb_spec n 7); [|done].
  change 128 with (2 ^ 7). rewrite (Z.pow2_bits_false 7 n), orb_false_r by lia. by rewrite (proj2 (Z.ltb_lt n 8)) by lia.
Qed.

Lemma lor_128_ge c : 128 <= Z.lor (u8 c) 128.
Proof.
  assert (H : Z.ldiff 128 (Z.lor (u8 c) 128) = 0).
  { apply Z.bits_inj'. intros n Hn. rewrite Z.ldiff_spec, Z.lor_spec, Z.bits_0. change 128 with (2 ^ 7). destruct (Z.testbit (2 ^ 7) n); [|done]. by rewrite orb_true_r. }
  apply Z.ldiff_le; [|done]. apply Z.lor_nonneg. split; [|done]. unfold wrap. apply Z.mod_pos_bound. lia.
Qed.

Lemma uvarint_loop_put n : forall v x rest, let i := (10 - n)%nat in
  (n <= 10)%nat -> (0 < n)%nat -> 0 <= x < 2 ^ (7 * Z.of_nat i) -> 0 <= v < 2 ^ (64 - 7 * Z.of_nat i) ->
  uvarint_loop (put_uvarint n v ++ rest) i x (7 * Z.of_nat i) = Some (x + v * 2 ^ (7 * Z.of_nat i), (i + length (put_uvarint n v))%nat).
Proof.
  induction n as [|n IH]; [intros; lia|]. intros v x rest i Hn _ Hx Hv. unfold i in *. clear i.
  set (i := (10 - S n)%nat) in *. set (s := 7 * Z.of_nat i) in *.
  assert (Hs : 0 <= s <= 63) by (unfold s, i; lia). cbn [put_uvarint].
  assert (Hsh : forall c, 0 <= c <= v -> u64 (Z.shiftl c s) = Z.shiftl c s).
  { intros c Hc. apply wrap_small. rewrite Z.shiftl_mul_pow2 by lia. unfold in_u. split; [apply Z.mul_nonneg_nonneg; lia|].
    replace (2 ^ 64) with (2 ^ (64 - s) * 2 ^ s) by (rewrite <- Z.pow_add_r by lia; f_equal; lia).
    apply Z.mul_lt_mono_pos_r; [apply Z.pow_pos_nonneg; lia|lia]. }
  destruct (Z.ltb_spec v 128) as [Hlt|Hge].
  - cbn [app uvarint_loop length]. rewrite (proj2 (Nat.eqb_neq i 10)) by (unfold i; lia). rewrite (proj2 (Z.ltb_lt v 128)) by lia.
    destruct (Nat.eqb_spec i 9) as [E|E].
    + replace (v >? 1) with false; [|symmetry; rewrite Z.gtb_ltb; apply Z.ltb_ge; unfold s in Hv; rewrite E in Hv; change (2 ^ (64 - 7 * Z.of_nat 9)) with 2 in Hv; lia].
      cbn [andb]. rewrite Hsh, lor_shiftl by lia. f_equal. f_equal. lia.
    + cbn [andb]. rewrite Hsh, lor_shiftl by lia. f_equal. f_equal. lia.
  - assert (Hi : (i < 9)%nat).
    { destruct (decide (i < 9)%nat); [done|]. assert (i = 9%nat) as E by (unfold i; lia). unfold s in Hv. rewrite E in Hv. change (2 ^ (64 - 7 * Z.of_nat 9)) with 2 in Hv. lia. }
    cbn [app uvarint_loop length]. rewrite (proj2 (Nat.eqb_neq i 10)) by lia.
    rewrite (proj2 (Z.ltb_ge _ 128)) by apply lor_128_ge. rewrite land_127.
    assert (Hm : 0 <= v mod 128 < 128) by (apply Z.mod_pos_bound; lia).
    rewrite Hsh by (split; [lia|apply Z.mod_le; lia]). rewrite lor_shiftl by lia.
    replace (s + 7) with (7 * Z.of_nat (10 - n)) by (unfold s, i; lia).
    replace (S i) with (10 - n)%nat by (unfold i; lia).
    assert (Ep : 2 ^ (7 * Z.of_nat (10 - n)) = 128 * 2 ^ s).
    { replace (7 * Z.of_nat (10 - n)) with (7 + s) by (unfold s, i; lia). rewrite Z.pow_add_r by lia. done. }
    rewrite IH; [|unfold i in Hi; lia|unfold i in Hi; lia| |].
    + f_equal. f_equal; [|unfold i; lia]. rewrite Ep, Z.shiftr_div_pow2 by lia. change (2 ^ 7) with 128. pose proof (Z.div_mod v 128 ltac:(lia)). nia.
    + rewrite Ep. nia.
    + rewrite Z.shiftr_div_pow2 by lia. change (2 ^ 7) with 128. split; [zlia|]. apply Z.div_lt_upper_bound; [lia|].
      replace (64 - 7 * Z.of_nat (10 - n)) with (64 - s - 7) by (unfold s, i; lia).
      assert (Hs' : s <= 56) by (unfold s; lia). destruct Hv as [_ Hv].
      replace (64 - s) with (7 + (64 - s - 7)) in Hv by lia. rewrite (Z.pow_add_r 2 7) in Hv by lia. exact Hv.
Qed.

Lemma Uvarint_Append v rest : in_u 64 v -> Uvarint (AppendUvarint v ++ rest) = Some (v, length (AppendUvarint v)).
Proof.
  intros Hv. unfold Uvarint, AppendUvarint. pose proof (uvarint_loop_put 10 v 0 rest) as H. cbn [Nat.sub] in H.
  change (7 * Z.of_nat 0) with 0 in H. rewrite H; [|lia|lia|lia|done]. f_equal. f_equal. lia.
Qed.


Lemma zigzag_cases v : int64 v -> zigzag v = if v <? 0 then - 2 * v - 1 else 2 * v.
Proof.
  intros Hv. unfold zigzag. destruct (Z.ltb_spec v 0) as [Hn|Hn].
  - assert (E : Z.shiftr v 63 = -1).
    { rewrite Z.shiftr_div_pow2 by lia. assert (- 2 ^ 63 <= v < 2 ^ 63) by exact Hv. symmetry. apply Z.div_unique with (v + 2 ^ 63); lia. }
    rewrite E, Z.lxor_m1_r, Z.lnot_eq_pred_opp, Z.shiftl_mul_pow2 by lia. rewrite wrap_small; [lia|]. unfold in_u, int64 in *. lia.
  - assert (E : Z.shiftr v 63 = 0).
    { rewrite Z.shiftr_div_pow2 by lia. apply Z.div_small. unfold int64 in Hv. lia. }
    rewrite E, Z.lxor_0_r, Z.shiftl_mul_pow2 by lia. rewrite wrap_small; [lia|]. unfold in_u, int64 in *. lia.
Qed.

Lemma zigzag_u64 v : in_u 64 (zigzag v).
Proof. by apply wrap_in_u. Qed.

Lemma unzigzag_cases u : 0 <= u -> unzigzag u = if Z.odd u then - (u / 2) - 1 else u / 2.
Proof.
  intros Hu. unfold unzigzag. rewrite Z.shiftr_div_pow2 by lia. change (2 ^ 1) with 2.
  change (Z.land u 1) with (Z.land u (Z.ones 1)). rewrite Z.land_ones by lia. change (2 ^ 1) with 2. rewrite Zmod_odd.
  destruct (Z.odd u); [|apply Z.lxor_0_r]. change (- (1)) with (-1). rewrite Z.lxor_m1_r. unfold Z.lnot. lia.
Qed.

Lemma unzigzag_zigzag v : int64 v -> unzigzag (zigzag v) = v.
Proof.
  intros Hv. rewrite zigzag_cases by done. destruct (Z.ltb_spec v 0).
  - rewrite unzigzag_cases by lia. replace (- 2 * v - 1) with (2 * (- v - 1) + 1) by lia.
    rewrite Z.odd_add_mul_2 || rewrite Z.odd_add, Z.odd_mul. cbn [Z.odd xorb andb]. zlia.
  - rewrite unzigzag_cases by lia. rewrite Z.odd_mul. cbn [Z.odd andb]. zlia.
Qed.

Lemma lxor_low_ones n a : 0 <= n -> 0 <= a < 2 ^ n -> Z.lxor a (Z.ones n) = 2 ^ n - 1 - a.
Proof.
  intros Hn Ha. assert (E : Z.lxor a (Z.ones n) = Z.ldiff (Z.ones n) a).
  { apply Z.bits_inj'. intros m Hm. rewrite Z.lxor_spec, Z.ldiff_spec. destruct (Z.lt_ge_cases m n).
    - rewrite Z.ones_spec_low by lia. by destruct (Z.testbit a m).
    - rewrite Z.ones_spec_high, (testbit_above n a) by lia. done. }
  rewrite E, <- Z.sub_nocarry_ldiff.
  - rewrite Z.ones_equiv. lia.
  - apply Z.bits_inj'. intros m Hm. rewrite Z.ldiff_spec, Z.bits_0. destruct (Z.lt_ge_cases m n).
    + rewrite Z.ones_spec_low by lia. by destruct (Z.testbit a m).
    + by rewrite (testbit_above n a) by lia.
Qed.

Lemma AppendVarint_zigzag v : int64 v -> AppendVarint v = AppendUvarint (zigzag v).
Proof.
  intros Hv. unfold AppendVarint. f_equal. rewrite zigzag_cases by done. rewrite Z.shiftl_mul_pow2 by lia. change (2 ^ 1) with 2.
  unfold wrap. rewrite Z.mul_mod_idemp_l by lia. unfold int64 in Hv. destruct (Z.ltb_spec v 0).
  - replace (v * 2) with (2 ^ 64 + v * 2 + (-1) * 2 ^ 64) by lia. rewrite Z_mod_plus_full, Z.mod_small by lia.
    change max_u64 with (Z.ones 64). rewrite lxor_low_ones by lia. lia.
  - rewrite Z.mod_small by lia. lia.
Qed.

Lemma Varint_Append v rest : int64 v -> Varint (AppendVarint v ++ rest) = Some (v, length (AppendVarint v)).
Proof.
  intros Hv. rewrite AppendVarint_zigzag by done. unfold Varint. rewrite Uvarint_Append by apply zigzag_u64.
  pose proof (zigzag_u64 v) as Hu. pose proof (unzigzag_zigzag v Hv) as E. set (z := zigzag v) in *. unfold in_u in Hu. rewrite unzigzag_cases in E by lia.
  cbv zeta. rewrite Z.shiftr_div_pow2 by lia. change (2 ^ 1) with 2. change (Z.land z 1) with (Z.land z (Z.ones 1)). rewrite Z.land_ones by lia. change (2 ^ 1) with 2.
  rewrite Zmod_odd. destruct (Z.odd z); cbn [Z.eqb negb]; by rewrite E.
Qed.

Lemma put_uvarint_ne n v : (0 < n)%nat -> put_uvarint n v <> [].
Proof. destruct n; [lia|]. cbn. by destruct (v <? 128). Qed.

(** ** Well-formed values

    Only the fields of the kind are set, and within the ranges of their types. *)

Definition canonical (v : Value) : Prop :=
  v = NullValue \/
  (exists i, (i = 0 \/ i = 1) /\ v = int_value KindBool i) \/
  (exists i, int64 i /\ v = int_value KindInt i) \/
  (exists f, in_u 64 f /\ v = float_value f) \/
  (exists s, in_u 63 (blen s + 2 ^ 8) /\ v = string_value s) \/
  (exists t s, byte_ok t /\ in_u 63 (blen s + 2 ^ 8) /\ v = other_value t s).

(** What a field of a document comes to. *)
Lemma FromRawValue_canonical v : bytes_ok (rv_Data v) -> byte_ok (rv_Type v) -> in_u 63 (blen (rv_Data v) + 2 ^ 8) -> canonical (FromRawValue v).
Proof.
  intros Hd Ht Hl. unfold FromRawValue.
  assert (Hp : forall n, in_u (8 * Z.of_nat n) (pay n v)).
  { intros n. unfold pay. pose proof (le_val_bound (sub 0 n (rv_Data v)) (sub_Forall _ _ _ _ Hd)) as H. unfold in_u in *. split; [lia|].
    eapply Z.lt_le_trans; [apply H|]. apply Z.pow_le_mono_r; [lia|]. unfold blen, sub. rewrite length_take. lia. }
  assert (Hp8 : in_u 64 (pay 8 v)) by apply (Hp 8%nat).
  assert (H0 : in_u 64 0) by done.
  repeat lazymatch goal with |- canonical (if ?c then _ else _) => destruct c end.
  - by left.
  - right; left. eexists. split; [|reflexivity]. destruct (Boolean v); auto.
  - right; right; left. eexists. split; [|reflexivity]. unfold Int32, Int32OK, int64. destruct (_ || _); cbn [fst]; [lia|].
    unfold to_i32. pose proof (Hp 4%nat) as H. unfold in_u in H. change (8 * Z.of_nat 4) with 32 in H. destruct (Z.ltb_spec (pay 4 v) (2 ^ 31)); lia.
  - right; right; left. eexists. split; [|reflexivity]. unfold Int64, Int64OK, int64. destruct (_ || _); cbn [fst]; [lia|]. by apply to_i64_range.
  - right; right; left. eexists. split; [|reflexivity]. unfold DateTime, int64. destruct (_ || _); [lia|]. by apply to_i64_range.
  - right; right; left. eexists. split; [|reflexivity]. unfold Timestamp, int64. destruct (_ || _); by apply to_i64_range.
  - right; right; right; left. eexists. split; [|reflexivity]. unfold Double, DoubleOK. by destruct (_ || _).
  - right; right; right; right; left. eexists. split; [|reflexivity]. unfold StringValue, StringValueOK, in_u in *.
    cbv zeta. repeat case_match; cbn [fst]; try (change (blen (@nil Z)) with 0; lia).
    unfold blen, sub in *. rewrite length_take, length_drop. lia.
  - right; right; right; right; right. by eexists _, _.
Qed.

Lemma rune_string_inj t t' s s' : byte_ok t -> byte_ok t' -> rune_string t ++ s = rune_string t' ++ s' -> t = t' /\ s = s'.
Proof.
  unfold byte_ok, rune_string. intros H H'. destruct (Z.ltb_spec t 128), (Z.ltb_spec t' 128); cbn [app]; intros E; injection E; intros; subst; try (split; (done || zlia)).
Qed.

Lemma strictKey_inj v w : canonical v -> canonical w -> strictKey v = strictKey w -> v = w.
Proof.
  assert (Hle : forall a b, in_u 64 a -> in_u 64 b -> le_bytes 8 a = le_bytes 8 b -> a = b).
  { intros a b Ha Hb E. rewrite <- (le_val_le_bytes 8 a), <- (le_val_le_bytes 8 b) by done. by rewrite E. }
  assert (Hi : forall i, int64 i -> to_i64 (u64 i) = i) by (intros; by apply to_i64_u64).
  intros Hv Hw. destruct Hv as [->|[(i & [->| ->] & ->)|[(i & Hi1 & ->)|[(f & Hf & ->)|[(s & Hs & ->)|(t & s & Ht & Hs & ->)]]]]];
  destruct Hw as [->|[(i' & [->| ->] & ->)|[(i' & Hi1' & ->)|[(f' & Hf' & ->)|[(s' & Hs' & ->)|(t' & s' & Ht' & Hs' & ->)]]]]];
  cbn -[le_bytes wrap rune_string]; try discriminate; try done; intros E; apply (f_equal tl) in E; cbn [tl] in E.
  - apply Hle in E; [|by apply wrap_in_u..]. unfold int_value. f_equal. rewrite <- (Hi i), <- (Hi i') by done. by rewrite E.
  - apply Hle in E; [|done..]. by subst.
  - by subst.
  - apply rune_string_inj in E as [-> ->]; done.
Qed.
