(* ===== verification/ColEncoding.v ===== *)
(** * colstore/encoding.go: the encodings of a column

    A column of values in the smallest of six encodings, and the way back. *)

From S2P Require Import Prelude Float64 Bson ColValue.

#[local] Open Scope Z_scope.

Inductive colErr : Type := ErrCorruptColumn | ErrBadSegment.

Definition encPlain : Z := 1.
Definition encDict : Z := 2.
Definition encRLE : Z := 3.
Definition encBitpack : Z := 4.
Definition encFOR : Z := 5.
Definition encDelta : Z := 6.

(** ** Bits *)

(** out[bit>>3] |= 1 << (bit&7), and the test of that bit. *)
Definition set_bit (k : nat) (out : bytes) : bytes := alter (fun c => Z.lor c (Z.shiftl 1 (Z.of_nat (k mod 8)))) (k / 8)%nat out.
Definition bit_at (b : bytes) (k : nat) : bool := negb (Z.land (nth (k / 8) b 0) (Z.shiftl 1 (Z.of_nat (k mod 8))) =? 0).

Fixpoint bit_width (fuel : nat) (max : Z) : nat :=
  match fuel with
  | O => 0
  | S n => if max >? 0 then S (bit_width n (Z.shiftr max 1)) else 0
  end.

Definition bitWidth (max : Z) : nat := bit_width 64 max.

(** n bits of v from bit b on, to the bits of out from bit on. *)
Fixpoint pack_value (n b : nat) (v : Z) (bit : nat) (out : bytes) : bytes :=
  match n with
  | O => out
  | S n' => pack_value n' (S b) v (S bit) (if negb (Z.land v (Z.shiftl 1 (Z.of_nat b)) =? 0) then set_bit bit out else out)
  end.

Fixpoint pack_values (vals : list Z) (width bit : nat) (out : bytes) : bytes :=
  match vals with
  | [] => out
  | v :: vals' => pack_values vals' width (bit + width) (pack_value width 0 v bit out)
  end.

Definition packed_size (width count : nat) : nat := ((width * count + 7) / 8)%nat.

Definition packBits (vals : list Z) (width : nat) : bytes :=
  if (width =? 0)%nat then [] else pack_values vals width 0 (replicate (packed_size width (length vals)) 0).

Fixpoint unpack_value (n b : nat) (data : bytes) (bit : nat) (v : Z) : Z :=
  match n with
  | O => v
  | S n' => unpack_value n' (S b) data (S bit) (if bit_at data bit then Z.lor v (u64 (Z.shiftl 1 (Z.of_nat b))) else v)
  end.

Fixpoint unpack_values (count width : nat) (data : bytes) (bit : nat) : list Z :=
  match count with
  | O => []
  | S n => unpack_value width 0 data bit 0 :: unpack_values n width data (bit + width)
  end.

Definition unpackBits (data : bytes) (width count : nat) : option (list Z) :=
  if (width =? 0)%nat then Some (replicate count 0)
  else if (length data <? packed_size width count)%nat then None
  else Some (unpack_values count width data 0).

(** ** One value *)

Definition putValue (v : Value) : bytes :=
  v_Kind v ::
    (if (v_Kind v =? KindBool) || (v_Kind v =? KindInt) then AppendVarint (v_I v)
     else if v_Kind v =? KindFloat then le_bytes 8 (v_F v)
     else if v_Kind v =? KindString then AppendUvarint (blen (v_S v)) ++ v_S v
     else if v_Kind v =? KindOther then v_tag v :: AppendUvarint (blen (v_S v)) ++ v_S v
     else []).

(** The string at off with its length before it, and the offset after it. The
    length is converted to an int, and the slice of a length that comes out below
    0, or whose end does, panics. *)
Definition get_string (b : bytes) (off : Z) : res colErr (bytes * Z) :=
  match Uvarint (drop (Z.to_nat off) b) with
  | None => Err ErrCorruptColumn
  | Some (ln, k) =>
      let n := to_i64 ln in
      let o := off + Z.of_nat k in
      if blen b <? to_i64 (u64 (o + n)) then Err ErrCorruptColumn
      else let* s := rd o n b in Ok (s, o + n)
  end.

(** The value and the bytes read. *)
Definition getValue (b : bytes) : res colErr (Value * Z) :=
  match b with
  | [] => Err ErrCorruptColumn
  | kind :: rest =>
      if kind =? KindNull then Ok (NullValue, 1)
      else if (kind =? KindBool) || (kind =? KindInt) then
        match Varint rest with
        | None => Err ErrCorruptColumn
        | Some (i, k) => Ok (int_value kind i, 1 + Z.of_nat k)
        end
      else if kind =? KindFloat then
        if blen b <? 9 then Err ErrCorruptColumn else Ok (float_value (le_val (sub 1 8 b)), 9)
      else if kind =? KindString then
        let* '(s, e) := get_string b 1 in Ok (string_value s, e)
      else if kind =? KindOther then
        if blen b <? 2 then Err ErrCorruptColumn
        else let* '(s, e) := get_string b 2 in Ok (other_value (nth 1 b 0) s, e)
      else Err ErrCorruptColumn
  end.

(** n values, and what follows them. *)
Fixpoint get_values (n : nat) (b : bytes) : res colErr (list Value * bytes) :=
  match n with
  | O => Ok ([], b)
  | S n' =>
      let* '(v, k) := getValue b in
      let* '(vs, rest) := get_values n' (drop (Z.to_nat k) b) in
      Ok (v :: vs, rest)
  end.

(** ** Plain *)

Definition encodePlain (vals : list Value) : bytes := encPlain :: concat (map putValue vals).

Definition decodePlain (b : bytes) (m : nat) : res colErr (list Value) := let* r := get_values m b in Ok r.1.

(** ** Run length *)

(** How many of the values that follow have the key. *)
Fixpoint run_len (key : bytes) (vals : list Value) : nat :=
  match vals with
  | [] => 0
  | v :: vals' => if bool_decide (strictKey v = key) then S (run_len key vals') else 0
  end.

Fixpoint runs (fuel : nat) (vals : list Value) : list (Value * nat) :=
  match fuel, vals with
  | S n, v :: vals' => let k := run_len (strictKey v) vals' in (v, S k) :: runs n (drop k vals')
  | _, _ => []
  end.

Definition encodeRLE (vals : list Value) : bytes :=
  let rs := runs (length vals) vals in
  encRLE :: AppendUvarint (blen rs) ++ concat (map (fun r => putValue r.1 ++ AppendUvarint (Z.of_nat r.2)) rs).

Fixpoint get_runs (n : nat) (b : bytes) : res colErr (list Value) :=
  match n with
  | O => Ok []
  | S n' =>
      let* '(v, k) := getValue b in
      let b1 := drop (Z.to_nat k) b in
      match Uvarint b1 with
      | None => Err ErrCorruptColumn
      | Some (ln, kk) => let* vs := get_runs n' (drop kk b1) in Ok (replicate (Z.to_nat ln) v ++ vs)
      end
  end.

Definition decodeRLE (b : bytes) (m : nat) : res colErr (list Value) :=
  match Uvarint b with
  | None => Err ErrCorruptColumn
  | Some (rs, k) =>
      let* out := get_runs (Z.to_nat rs) (drop k b) in
      if negb (length out =? m)%nat then Err ErrCorruptColumn else Ok out
  end.

(** ** Dictionary *)

Fixpoint dict_loop (vals : list Value) (codeOf : gmap bytes Z) (dict : list Value) (codes : list Z) : list Value * list Z :=
  match vals with
  | [] => (dict, codes)
  | v :: vals' =>
      match codeOf !! strictKey v with
      | Some c => dict_loop vals' codeOf dict (codes ++ [c])
      | None => let c := blen dict in dict_loop vals' (<[strictKey v := c]> codeOf) (dict ++ [v]) (codes ++ [c])
      end
  end.

Definition encodeDict (vals : list Value) : bytes :=
  let '(dict, codes) := dict_loop vals ∅ [] [] in
  let width := if blen dict >? 1 then bitWidth (blen dict - 1) else 0%nat in
  encDict :: AppendUvarint (blen dict) ++ concat (map putValue dict) ++ [Z.of_nat width] ++ packBits codes width.

(** make([]Value, n): a Value takes 48 bytes, and the run time refuses more than
    2^48 of them. *)
Definition make_refuses (n : Z) : bool := n * 48 >? 2 ^ 48.

Fixpoint dict_values (dict : list Value) (codes : list Z) : res colErr (list Value) :=
  match codes with
  | [] => Ok []
  | c :: codes' =>
      let i := to_i64 c in
      if i >=? blen dict then Err ErrCorruptColumn
      else if i <? 0 then Panic
      else let* vs := dict_values dict codes' in Ok (nth (Z.to_nat i) dict NullValue :: vs)
  end.

Definition decodeDict (b : bytes) (m : nat) : res colErr (list Value) :=
  match Uvarint b with
  | None => Err ErrCorruptColumn
  | Some (dn, k) =>
      if make_refuses dn then Panic
      else
        let* '(dict, rest) := get_values (Z.to_nat dn) (drop k b) in
        match rest with
        | [] => Err ErrCorruptColumn
        | w :: data =>
            match unpackBits data (Z.to_nat w) m with
            | None => Err ErrCorruptColumn
            | Some codes => dict_values dict codes
            end
        end
  end.

(** ** Integers *)

Definition homogeneousIntKind (vals : list Value) : option Z :=
  match vals with
  | [] => None
  | v :: _ =>
      let k := v_Kind v in
      if negb (k =? KindInt) && negb (k =? KindBool) then None
      else if forallb (fun w => v_Kind w =? k) vals then Some k else None
  end.

Definition max_of (l : list Z) : Z := fold_left (fun m x => if x >? m then x else m) l 0.

Definition encodeBitpack (vals : list Value) (rk : Z) : bytes :=
  let zz := map (fun v => zigzag (v_I v)) vals in
  let width := bitWidth (max_of zz) in
  [encBitpack; rk; Z.of_nat width] ++ packBits zz width.

Definition decodeBitpack (b : bytes) (m : nat) : res colErr (list Value) :=
  match b with
  | rk :: w :: data =>
      match unpackBits data (Z.to_nat w) m with
      | None => Err ErrCorruptColumn
      | Some raw => Ok (map (fun u => int_value rk (unzigzag u)) raw)
      end
  | _ => Err ErrCorruptColumn
  end.

(** vals is not empty. *)
Definition min_of (vals : list Value) : Z := fold_left (fun b v => if v_I v <? b then v_I v else b) vals (default 0 (v_I <$> head vals)).

Definition encodeFOR (vals : list Value) (rk : Z) : bytes :=
  let base := min_of vals in
  let offs := map (fun v => u64 (v_I v - base)) vals in
  let width := bitWidth (max_of offs) in
  [encFOR; rk] ++ AppendVarint base ++ [Z.of_nat width] ++ packBits offs width.

Definition decodeFOR (b : bytes) (m : nat) : res colErr (list Value) :=
  match b with
  | [] => Err ErrCorruptColumn
  | rk :: b1 =>
      match Varint b1 with
      | None => Err ErrCorruptColumn
      | Some (base, k) =>
          match drop k b1 with
          | [] => Err ErrCorruptColumn
          | w :: data =>
              match unpackBits data (Z.to_nat w) m with
              | None => Err ErrCorruptColumn
              | Some offs => Ok (map (fun u => int_value rk (to_i64 (u64 (base + u)))) offs)
              end
          end
      end
  end.

(** The differences of neighbours, wrapped to 64 bits. *)
Fixpoint deltas (prev : Z) (vals : list Value) : list Z :=
  match vals with
  | [] => []
  | v :: vals' => zigzag (to_i64 (u64 (v_I v - prev))) :: deltas (v_I v) vals'
  end.

Definition encodeDelta (vals : list Value) (rk : Z) : bytes :=
  match vals with
  | [] => [encDelta; rk] ++ AppendVarint 0 ++ [0]
  | v :: vals' =>
      let zz := deltas (v_I v) vals' in
      let width := bitWidth (max_of zz) in
      [encDelta; rk] ++ AppendVarint (v_I v) ++ [Z.of_nat width] ++ packBits zz width
  end.

Fixpoint undeltas (rk cur : Z) (us : list Z) : list Value :=
  match us with
  | [] => []
  | u :: us' => let c := to_i64 (u64 (cur + unzigzag u)) in int_value rk c :: undeltas rk c us'
  end.

(** The kind byte is read without a test that there is one. *)
Definition decodeDelta (b : bytes) (m : nat) : res colErr (list Value) :=
  match b with
  | [] => Panic
  | rk :: b1 =>
      match Varint b1 with
      | None => Err ErrCorruptColumn
      | Some (first, k) =>
          match drop k b1 with
          | [] => Err ErrCorruptColumn
          | w :: data =>
              match m with
              | O => Ok []
              | S m' =>
                  match unpackBits data (Z.to_nat w) m' with
                  | None => Err ErrCorruptColumn
                  | Some us => Ok (int_value rk first :: undeltas rk first us)
                  end
              end
          end
      end
  end.

(** ** The column *)

Definition smaller (c best : bytes) : bytes := if blen c <? blen best then c else best.

Definition chooseEncoding (vals : list Value) : bytes :=
  let best := smaller (encodeDict vals) (smaller (encodeRLE vals) (encodePlain vals)) in
  match homogeneousIntKind vals with
  | None => best
  | Some rk => smaller (encodeDelta vals rk) (smaller (encodeFOR vals rk) (smaller (encodeBitpack vals rk) best))
  end.

Definition decodeStream (b : bytes) (m : nat) : res colErr (list Value) :=
  match b with
  | [] => if (m =? 0)%nat then Ok [] else Err ErrCorruptColumn
  | tag :: body =>
      if tag =? encPlain then decodePlain body m
      else if tag =? encDict then decodeDict body m
      else if tag =? encRLE then decodeRLE body m
      else if tag =? encBitpack then decodeBitpack body m
      else if tag =? encFOR then decodeFOR body m
      else if tag =? encDelta then decodeDelta body m
      else Err ErrCorruptColumn
  end.

Definition is_null (v : Value) : bool := v_Kind v =? KindNull.

Fixpoint null_bits (vals : list Value) (i : nat) (nb : bytes) : bytes :=
  match vals with
  | [] => nb
  | v :: vals' => null_bits vals' (S i) (if is_null v then set_bit i nb else nb)
  end.

Definition appendNullBitmap (dst : bytes) (vals : list Value) : bytes :=
  dst ++ null_bits vals 0 (replicate ((length vals + 7) / 8) 0).

Definition readNullBitmap (b : bytes) (n : nat) : list bool := map (bit_at b) (seq 0 n).

Definition EncodeColumn (vals : list Value) : bytes :=
  let nonNull := filter (fun v => is_null v = false) vals in
  appendNullBitmap (AppendUvarint (blen vals)) vals ++ chooseEncoding nonNull.

(** The decoded values to their positions. *)
Fixpoint scatter (nulls : list bool) (stream : list Value) : list Value :=
  match nulls with
  | [] => []
  | true :: nulls' => NullValue :: scatter nulls' stream
  | false :: nulls' => default NullValue (head stream) :: scatter nulls' (tail stream)
  end.

(** A count that is below 0 as an int, or that n + 7 takes there, panics. *)
Definition DecodeColumn (b : bytes) : res colErr (list Value) :=
  match Uvarint b with
  | None => Err ErrCorruptColumn
  | Some (n64, k) =>
      if n64 + 7 >=? 2 ^ 63 then Panic
      else
        let b1 := drop k b in
        let nbBytes := (n64 + 7) / 8 in
        if blen b1 <? nbBytes then Err ErrCorruptColumn
        else
          let nulls := readNullBitmap (take (Z.to_nat nbBytes) b1) (Z.to_nat n64) in
          let m := length (filter (fun x => x = false) nulls) in
          let* stream := decodeStream (drop (Z.to_nat nbBytes) b1) m in
          Ok (scatter nulls stream)
  end.

(** ** Bits: lemmas *)

Lemma land_bit x n : 0 <= n -> negb (Z.land x (Z.shiftl 1 n) =? 0) = Z.testbit x n.
Proof.
  intros Hn. rewrite Z.shiftl_1_l. assert (E : Z.land x (2 ^ n) = if Z.testbit x n then 2 ^ n else 0).
  { apply Z.bits_inj'. intros m Hm. rewrite Z.land_spec. destruct (Z.eq_dec m n) as [->|Hne].
    - rewrite Z.pow2_bits_true by done. destruct (Z.testbit x n); [by rewrite Z.pow2_bits_true|by rewrite Z.bits_0].
    - rewrite Z.pow2_bits_false, andb_false_r by done. destruct (Z.testbit x n); [by rewrite Z.pow2_bits_false|by rewrite Z.bits_0]. }
  rewrite E. assert (0 < 2 ^ n) by (apply Z.pow_pos_nonneg; lia). destruct (Z.testbit x n); [|done].
  by rewrite (proj2 (Z.eqb_neq (2 ^ n) 0)) by lia.
Qed.

Lemma bit_at_testbit b k : bit_at b k = Z.testbit (nth (k / 8) b 0) (Z.of_nat (k mod 8)).
Proof. apply land_bit. lia. Qed.

Lemma length_set_bit k out : length (set_bit k out) = length out.
Proof. apply length_alter. Qed.

Lemma div_mod_8 j k : (j / 8 = k / 8)%nat -> (j mod 8 = k mod 8)%nat -> j = k.
Proof. intros H1 H2. rewrite (Nat.div_mod_eq j 8), (Nat.div_mod_eq k 8). lia. Qed.

Lemma bit_at_set k out j : (k < 8 * length out)%nat -> bit_at (set_bit k out) j = bit_at out j || (j =? k)%nat.
Proof.
  intros Hk. rewrite !bit_at_testbit. unfold set_bit. rewrite !nth_lookup.
  destruct (decide (j / 8 = k / 8)%nat) as [E|E].
  - rewrite E, list_lookup_alter_eq. destruct (lookup_lt_is_Some_2 out (k / 8)) as [c Hc]; [apply Nat.Div0.div_lt_upper_bound; lia|].
    rewrite Hc. cbn [fmap option_fmap option_map default from_option id]. rewrite Z.lor_spec, Z.shiftl_1_l. f_equal.
    destruct (Nat.eqb_spec j k) as [->|Hne]; [apply Z.pow2_bits_true; lia|]. apply Z.pow2_bits_false. intros H.
    apply Hne, div_mod_8; [done|lia].
  - rewrite list_lookup_alter_ne by done. destruct (Nat.eqb_spec j k) as [->|]; [done|]. by rewrite orb_false_r.
Qed.

Lemma bit_at_zeros n j : bit_at (replicate n 0) j = false.
Proof.
  rewrite bit_at_testbit, nth_lookup. destruct (replicate n 0 !! (j / 8)%nat) as [c|] eqn:E; [|apply Z.bits_0].
  apply lookup_replicate in E as [-> _]. apply Z.bits_0.
Qed.

Lemma length_pack_value n : forall b v bit out, length (pack_value n b v bit out) = length out.
Proof. induction n as [|n IH]; intros b v bit out; [done|]. cbn [pack_value]. rewrite IH. destruct (negb _); [apply length_set_bit|done]. Qed.

Lemma bit_at_pack n : forall b v bit out j, (bit + n <= 8 * length out)%nat ->
  bit_at (pack_value n b v bit out) j =
  bit_at out j || ((bit <=? j)%nat && (j <? bit + n)%nat && Z.testbit v (Z.of_nat (b + (j - bit)))).
Proof.
  induction n as [|n IH]; intros b v bit out j Hl.
  - cbn [pack_value]. destruct (Nat.leb_spec bit j), (Nat.ltb_spec j (bit + 0)); cbn [andb]; rewrite ?orb_false_r; (done || lia).
  - cbn [pack_value]. rewrite land_bit by lia. rewrite IH by (destruct (Z.testbit _ _); rewrite ?length_set_bit; lia).
    assert (E : bit_at (if Z.testbit v (Z.of_nat b) then set_bit bit out else out) j = bit_at out j || ((j =? bit)%nat && Z.testbit v (Z.of_nat b))).
    { destruct (Z.testbit v (Z.of_nat b)); [rewrite bit_at_set by lia; by rewrite andb_true_r|by rewrite andb_false_r, orb_false_r]. }
    rewrite E, <- orb_assoc. f_equal. destruct (Nat.eqb_spec j bit) as [->|Hne].
    + rewrite (proj2 (Nat.leb_gt (S bit) bit)), Nat.leb_refl, (proj2 (Nat.ltb_lt bit (bit + S n))) by lia. cbn [andb]. rewrite orb_false_r.
      by replace (b + (bit - bit))%nat with b by lia.
    + cbn [andb orb].
      destruct (Nat.leb_spec (S bit) j).
      * rewrite (proj2 (Nat.leb_le bit j)) by lia. replace (S bit + n)%nat with (bit + S n)%nat by lia. by replace (S b + (j - S bit))%nat with (b + (j - bit))%nat by lia.
      * by rewrite (proj2 (Nat.leb_gt bit j)) by lia.
Qed.

Lemma length_pack_values vals : forall w bit out, length (pack_values vals w bit out) = length out.
Proof. induction vals as [|v vals IH]; intros w bit out; [done|]. cbn [pack_values]. by rewrite IH, length_pack_value. Qed.

(** The bits of the i-th value come out at i times the width. *)
Lemma bit_at_pack_values vals : forall w bit out, (bit + w * length vals <= 8 * length out)%nat ->
  (forall j, (j < bit)%nat -> bit_at (pack_values vals w bit out) j = bit_at out j) /\
  ((forall j, (bit <= j)%nat -> bit_at out j = false) ->
   forall i v c, vals !! i = Some v -> (c < w)%nat -> bit_at (pack_values vals w bit out) (bit + i * w + c) = Z.testbit v (Z.of_nat c)).
Proof.
  induction vals as [|v vals IH]; intros w bit out Hl; cbn [pack_values length] in *; [split; [done|by intros ? []]|].
  destruct (IH w (bit + w)%nat (pack_value w 0 v bit out)) as [H1 H2]; [rewrite length_pack_value; lia|]. split.
  - intros j Hj. rewrite H1, bit_at_pack by lia. by rewrite (proj2 (Nat.leb_gt bit j)), orb_false_r by lia.
  - intros Hz [|i] x c Hi Hc.
    + injection Hi as ->. rewrite H1, bit_at_pack by lia. rewrite Hz by lia.
      rewrite (proj2 (Nat.leb_le _ _)), (proj2 (Nat.ltb_lt _ _)) by lia. cbn [andb orb]. f_equal. lia.
    + replace (bit + S i * w + c)%nat with (bit + w + i * w + c)%nat by lia. apply H2; [|done|done].
      intros j Hj. rewrite bit_at_pack, Hz by lia. rewrite (proj2 (Nat.ltb_ge _ _)) by lia. by rewrite andb_false_r.
Qed.

Lemma unpack_value_spec n : forall b data bit v x, (b + n <= 64)%nat ->
  (forall c, (c < n)%nat -> bit_at data (bit + c) = Z.testbit x (Z.of_nat (b + c))) ->
  v = x mod 2 ^ Z.of_nat b -> unpack_value n b data bit v = x mod 2 ^ Z.of_nat (b + n).
Proof.
  induction n as [|n IH]; intros b data bit v x Hb Hbits Hv; cbn [unpack_value]; [by rewrite Nat.add_0_r|].
  replace (b + S n)%nat with (S b + n)%nat by lia. apply IH; [lia| |].
  - intros c Hc. replace (S bit + c)%nat with (bit + S c)%nat by lia. rewrite Hbits by lia. f_equal. lia.
  - pose proof (Hbits 0%nat ltac:(lia)) as H0. rewrite !Nat.add_0_r in H0. rewrite H0.
    rewrite (wrap_small 64) by (rewrite Z.shiftl_1_l; unfold in_u; split; [apply Z.pow_nonneg; lia|apply Z.pow_lt_mono_r; lia]).
    apply Z.bits_inj'. intros m Hm. rewrite Z.testbit_mod_pow2 by lia.
    destruct (Z.testbit x (Z.of_nat b)) eqn:E.
    + rewrite Z.lor_spec, Z.shiftl_1_l, Hv, Z.testbit_mod_pow2 by lia. destruct (Z.eq_dec m (Z.of_nat b)) as [->|Hne].
      * rewrite Z.pow2_bits_true, orb_true_r, E by lia. by rewrite (proj2 (Z.ltb_lt _ _)) by lia.
      * rewrite Z.pow2_bits_false, orb_false_r by lia. f_equal. apply eq_bool_prop_intro. rewrite !Is_true_true, !Z.ltb_lt. lia.
    + rewrite Hv, Z.testbit_mod_pow2 by lia. destruct (Z.eq_dec m (Z.of_nat b)) as [->|Hne].
      * by rewrite E, !andb_false_r.
      * f_equal. apply eq_bool_prop_intro. rewrite !Is_true_true, !Z.ltb_lt. lia.
Qed.

Lemma unpack_values_spec w data : forall xs bit, (w <= 64)%nat -> Forall (fun x => 0 <= x < 2 ^ Z.of_nat w) xs ->
  (forall i x c, xs !! i = Some x -> (c < w)%nat -> bit_at data (bit + i * w + c) = Z.testbit x (Z.of_nat c)) ->
  unpack_values (length xs) w data bit = xs.
Proof.
  induction xs as [|x xs IH]; intros bit Hw Hx Hbits; [done|]. apply Forall_cons in Hx as [Hx Hxs]. cbn [length unpack_values]. f_equal.
  - rewrite (unpack_value_spec w 0 data bit 0 x).
    + by apply Z.mod_small.
    + lia.
    + intros c Hc. replace (bit + c)%nat with (bit + 0 * w + c)%nat by lia. exact (Hbits 0%nat x c eq_refl Hc).
    + by rewrite Z.mod_1_r.
  - apply IH; [done..|]. intros i y c Hi Hc. replace (bit + w + i * w + c)%nat with (bit + S i * w + c)%nat by lia. exact (Hbits (S i) y c Hi Hc).
Qed.

Lemma unpack_pack xs w : (w <= 64)%nat -> Forall (fun x => 0 <= x < 2 ^ Z.of_nat w) xs -> unpackBits (packBits xs w) w (length xs) = Some xs.
Proof.
  intros Hw Hx. unfold unpackBits, packBits. destruct (Nat.eqb_spec w 0) as [->|Hne].
  - f_equal. clear Hw. induction Hx as [|x xs Hx Hxs IH]; [done|]. cbn [length replicate]. rewrite IH. f_equal. change (2 ^ Z.of_nat 0) with 1 in Hx. lia.
  - rewrite length_pack_values, length_replicate, Nat.ltb_irrefl. f_equal.
    assert (Hs : (0 + w * length xs <= 8 * length (replicate (packed_size w (length xs)) 0%Z))%nat).
    { rewrite length_replicate. unfold packed_size. pose proof (Nat.div_mod_eq (w * length xs + 7) 8). pose proof (Nat.mod_upper_bound (w * length xs + 7) 8). lia. }
    apply unpack_values_spec; [done..|]. intros i x c Hi Hc.
    exact (proj2 (bit_at_pack_values xs w 0 _ Hs) (fun j _ => bit_at_zeros _ j) i x c Hi Hc).
Qed.

Lemma bit_width_spec fuel : forall max x, 0 <= x <= max -> max < 2 ^ Z.of_nat fuel -> x < 2 ^ Z.of_nat (bit_width fuel max) /\ (bit_width fuel max <= fuel)%nat.
Proof.
  induction fuel as [|n IH]; intros max x Hx Hm; cbn [bit_width]; [change (2 ^ Z.of_nat 0) with 1 in *; lia|].
  rewrite Z.gtb_ltb. destruct (Z.ltb_spec 0 max).
  - rewrite Z.shiftr_div_pow2 by lia. change (2 ^ 1) with 2. rewrite Nat2Z.inj_succ, Z.pow_succ_r in * by lia.
    destruct (IH (max / 2) (x / 2)) as [H1 H2]; [zlia|zlia|]. split; [zlia|lia].
  - change (2 ^ Z.of_nat 0) with 1. lia.
Qed.

Lemma fold_max_ge l : forall m x, 0 <= m -> (x <= m \/ x ∈ l) -> x <= fold_left (fun m x => if x >? m then x else m) l m.
Proof.
  induction l as [|y l IH]; intros m x Hm Hx; cbn [fold_left].
  - destruct Hx as [|Hx]; [done|by apply elem_of_nil in Hx].
  - rewrite Z.gtb_ltb. destruct (Z.ltb_spec m y); (apply IH; [lia|]); rewrite elem_of_cons in Hx; destruct Hx as [|[->|]]; auto; left; lia.
Qed.

Lemma fold_max_le l B : forall m, m <= B -> Forall (fun x => x <= B) l -> fold_left (fun m x => if x >? m then x else m) l m <= B.
Proof. induction l as [|y l IH]; intros m Hm Hl; [done|]. apply Forall_cons in Hl as [? ?]. cbn [fold_left]. destruct (y >? m); by apply IH. Qed.

(** Packed to the width of the largest. *)
Lemma unpack_pack_max xs : Forall (in_u 64) xs ->
  let w := bitWidth (max_of xs) in
  (w <= 64)%nat /\ unpackBits (packBits xs w) w (length xs) = Some xs.
Proof.
  intros Hx w. assert (Hm : 0 <= max_of xs < 2 ^ 64).
  { split; [apply fold_max_ge; [done|by left]|]. apply Z.lt_le_pred. apply fold_max_le; [lia|]. eapply Forall_impl; [exact Hx|]. unfold in_u. intros; lia. }
  assert (Hw : (w <= 64)%nat) by (unfold w, bitWidth; destruct (bit_width_spec 64 (max_of xs) 0 ltac:(lia) (proj2 Hm)); lia).
  split; [done|]. apply unpack_pack; [done|]. apply Forall_forall. intros x Hin. rewrite Forall_forall in Hx. specialize (Hx x Hin). split; [apply Hx|].
  apply (bit_width_spec 64 (max_of xs) x); [|exact (proj2 Hm)]. split; [apply Hx|]. apply fold_max_ge; [done|by right].
Qed.

(** ** One value: lemmas *)

Lemma to_i64_small x : 0 <= x < 2 ^ 63 -> to_i64 x = x.
Proof. intros Hx. unfold to_i64. by rewrite (proj2 (Z.ltb_lt _ _)) by lia. Qed.

Lemma uvarint_len v : (length (AppendUvarint v) <= 10)%nat.
Proof.
  unfold AppendUvarint. assert (H : forall n x, (length (put_uvarint n x) <= n)%nat).
  { induction n as [|n IH]; intros x; cbn [put_uvarint length]; [lia|]. destruct (x <? 128); cbn [length]; [lia|]. specialize (IH (Z.shiftr x 7)). lia. }
  apply H.
Qed.

Lemma get_string_put pre s rest : in_u 63 (blen s + 2 ^ 8) -> (length pre <= 2)%nat ->
  get_string (pre ++ AppendUvarint (blen s) ++ s ++ rest) (blen pre) = Ok (s, blen pre + blen (AppendUvarint (blen s)) + blen s).
Proof.
  intros Hs Hp. unfold get_string, in_u in *. rewrite drop_blen.
  assert (H0 : 0 <= blen s) by (unfold blen; lia).
  rewrite Uvarint_Append by (unfold in_u; lia). rewrite (to_i64_small (blen s)) by lia. pose proof (uvarint_len (blen s)) as Hu.
  cbv zeta. set (o := blen pre + Z.of_nat (length (AppendUvarint (blen s)))) in *.
  assert (Hpre : 0 <= blen pre <= 2) by (unfold blen; lia). assert (Ho : 0 <= o <= 12) by (unfold o; lia).
  rewrite wrap_small, to_i64_small by (unfold in_u; lia).
  assert (Hl : blen (pre ++ AppendUvarint (blen s) ++ s ++ rest) = o + blen s + blen rest) by (unfold o; rewrite !blen_app; unfold blen at 2; lia).
  rewrite Hl. rewrite (proj2 (Z.ltb_ge _ _)) by (unfold blen; lia).
  unfold rd. rewrite Hl, (proj2 (Z.leb_le 0 o)), (proj2 (Z.leb_le 0 _)), (proj2 (Z.leb_le (o + blen s) _)) by (unfold blen; lia). cbn [andb res_bind].
  replace (Z.to_nat o) with (length (pre ++ AppendUvarint (blen s))) by (rewrite length_app; unfold o; change (blen pre) with (Z.of_nat (length pre)); lia).
  replace (Z.to_nat (blen s)) with (length s) by (unfold blen; lia). rewrite (app_assoc pre), sub_mid. done.
Qed.

Lemma getValue_put v rest : canonical v -> getValue (putValue v ++ rest) = Ok (v, blen (putValue v)).
Proof.
  intros [->|[(i & Hi & ->)|[(i & Hi & ->)|[(f & Hf & ->)|[(s & Hs & ->)|(t & s & Ht & Hs & ->)]]]]]; unfold putValue;
    cbn [v_Kind v_I v_F v_S v_tag int_value float_value string_value other_value NullValue]; 
    cbn [Z.eqb Pos.eqb orb KindNull KindBool KindInt KindFloat KindString KindOther app getValue].
  - done.
  - rewrite Varint_Append by (unfold int64; destruct Hi; lia). f_equal. f_equal. unfold blen. cbn [length]. lia.
  - rewrite Varint_Append by done. f_equal. f_equal. unfold blen. cbn [length]. lia.
  - assert (El : length (le_bytes 8 f) = 8%nat) by apply length_le_bytes.
    rewrite (proj2 (Z.ltb_ge _ _)) by (unfold blen; cbn [length]; rewrite length_app; lia).
    assert (E : sub 1 8 (KindFloat :: le_bytes 8 f ++ rest) = le_bytes 8 f).
    { unfold sub. cbn [drop]. rewrite <- El at 1. apply take_app_length. }
    rewrite E, le_val_le_bytes by done. done.
  - pose proof (get_string_put [KindString] s rest Hs ltac:(cbn; lia)) as E. rewrite <- !app_assoc. change ([KindString] ++ ?l) with (KindString :: l) in E.
    change (blen [KindString]) with 1 in E. unfold KindString in *. rewrite E. cbn [res_bind]. f_equal. f_equal. unfold blen. cbn [length]. rewrite length_app. lia.
  - rewrite (proj2 (Z.ltb_ge _ _)) by (unfold blen; cbn [length]; lia). cbn [nth].
    pose proof (get_string_put [KindOther; t] s rest Hs ltac:(cbn; lia)) as E. rewrite <- !app_assoc. cbn [app] in E.
    change (blen [KindOther; t]) with 2 in E. unfold KindOther in *. rewrite E. cbn [res_bind]. f_equal. f_equal. unfold blen. cbn [length]. rewrite length_app. lia.
Qed.

Lemma get_values_put vs : forall rest, Forall canonical vs -> get_values (length vs) (concat (map putValue vs) ++ rest) = Ok (vs, rest).
Proof.
  induction vs as [|v vs IH]; intros rest Hv; [done|]. apply Forall_cons in Hv as [Hv Hvs]. cbn [length get_values map concat].
  rewrite <- app_assoc, getValue_put by done. cbn [res_bind]. rewrite drop_blen, IH by done. done.
Qed.

(** ** The six encodings: lemmas *)

Lemma plain_ok vals : Forall canonical vals -> decodeStream (encodePlain vals) (length vals) = Ok vals.
Proof.
  intros Hv. cbn. unfold decodePlain. rewrite <- (app_nil_r (concat _)), get_values_put by done. done.
Qed.

Lemma run_len_spec key vals : exists rest, vals = take (run_len key vals) vals ++ rest /\ rest = drop (run_len key vals) vals /\
  Forall (fun v => strictKey v = key) (take (run_len key vals) vals).
Proof.
  exists (drop (run_len key vals) vals). split; [by rewrite take_drop|]. split; [done|].
  induction vals as [|v vals IH]; [constructor|]. cbn [run_len]. case_bool_decide; [|constructor]. cbn [take]. by constructor.
Qed.

Lemma run_len_le key vals : (run_len key vals <= length vals)%nat.
Proof. induction vals as [|v vals IH]; cbn [run_len length]; [lia|]. case_bool_decide; lia. Qed.

Lemma runs_spec fuel : forall vals, (length vals <= fuel)%nat -> Forall canonical vals ->
  concat (map (fun r => replicate r.2 r.1) (runs fuel vals)) = vals /\
  Forall (fun r => canonical r.1 /\ (r.2 <= length vals)%nat) (runs fuel vals) /\ (length (runs fuel vals) <= length vals)%nat.
Proof.
  induction fuel as [|n IH]; intros [|v vals] Hl Hv; cbn [runs length] in *; try (split_and!; [done|constructor|lia]); try lia.
  apply Forall_cons in Hv as [Hv Hvs]. set (k := run_len (strictKey v) vals). pose proof (run_len_le (strictKey v) vals) as Hk. fold k in Hk.
  destruct (IH (drop k vals)) as (I1 & I2 & I3); [rewrite length_drop; lia|by apply Forall_drop|]. rewrite length_drop in I3. split_and!.
  - cbn [map concat fst snd]. rewrite I1. rewrite <- (take_drop k vals) at 2. cbn [replicate app]. f_equal. f_equal.
    destruct (run_len_spec (strictKey v) vals) as (_ & _ & _ & Hkeys). fold k in Hkeys.
    assert (E : take k vals = replicate (length (take k vals)) v).
    { symmetry. apply replicate_as_Forall. split; [done|]. apply Forall_forall. intros w Hw. rewrite Forall_forall in Hkeys.
      apply strictKey_inj; [done| |symmetry; by apply Hkeys]. eapply Forall_take in Hvs. rewrite Forall_forall in Hvs. by apply Hvs. }
    rewrite length_take, Nat.min_l in E by done. by symmetry.
  - constructor; [split; [done|cbn; lia]|]. eapply Forall_impl; [exact I2|]. intros [w m] [? Hm]. split; [done|]. cbn in *. rewrite length_drop in Hm. lia.
  - lia.
Qed.

Lemma get_runs_put rs : forall rest, Forall (fun r => canonical r.1 /\ in_u 64 (Z.of_nat r.2)) rs ->
  get_runs (length rs) (concat (map (fun r => putValue r.1 ++ AppendUvarint (Z.of_nat r.2)) rs) ++ rest) = Ok (concat (map (fun r => replicate r.2 r.1) rs)).
Proof.
  induction rs as [|[v n] rs IH]; intros rest Hr; [done|]. apply Forall_cons in Hr as [[Hv Hn] Hrs]. cbn [fst snd] in Hv, Hn.
  cbn [length get_runs map concat fst snd]. rewrite <- !app_assoc, getValue_put by done. cbn [res_bind]. cbv zeta. rewrite drop_blen, Uvarint_Append by done.
  rewrite drop_app_length, IH by done. cbn [res_bind]. by rewrite Nat2Z.id.
Qed.

Lemma rle_ok vals : Forall canonical vals -> blen vals < 2 ^ 63 -> decodeStream (encodeRLE vals) (length vals) = Ok vals.
Proof.
  intros Hv Hl. destruct (runs_spec (length vals) vals) as (R1 & R2 & R3); [lia|done|]. unfold encodeRLE. set (rs := runs (length vals) vals) in *.
  unfold decodeStream. change (decodeRLE (AppendUvarint (blen rs) ++ concat (map (fun r => putValue r.1 ++ AppendUvarint (Z.of_nat r.2)) rs)) (length vals) = Ok vals).
  unfold decodeRLE. rewrite Uvarint_Append by (unfold in_u, blen in *; lia). rewrite drop_app_length.
  replace (Z.to_nat (blen rs)) with (length rs) by (unfold blen; lia). rewrite <- (app_nil_r (concat _)), get_runs_put.
  - cbn [res_bind]. rewrite R1, Nat.eqb_refl. done.
  - eapply Forall_impl; [exact R2|]. intros [v n] [? Hn]. split; [done|]. cbn in *. unfold in_u, blen in *. lia.
Qed.

(** The dictionary so far: each key has the position of a value with that key. *)
Definition dict_inv (codeOf : gmap bytes Z) (dict : list Value) : Prop :=
  forall k c, codeOf !! k = Some c -> 0 <= c /\ exists v, dict !! Z.to_nat c = Some v /\ strictKey v = k.

Definition decodes_to (dict : list Value) (v : Value) (c : Z) : Prop := 0 <= c < blen dict /\ dict !! Z.to_nat c = Some v.

Lemma decodes_to_app dict ext v c : decodes_to dict v c -> decodes_to (dict ++ ext) v c.
Proof.
  intros [H1 H2]. split; [rewrite blen_app; pose proof (blen_nonneg ext); lia|]. by apply lookup_app_l_Some.
Qed.

Lemma dict_loop_spec vals : forall codeOf dict codes, Forall canonical vals -> Forall canonical dict -> dict_inv codeOf dict ->
  exists ext cs, dict_loop vals codeOf dict codes = (dict ++ ext, codes ++ cs) /\
    Forall2 (decodes_to (dict ++ ext)) vals cs /\ Forall canonical (dict ++ ext) /\ (length ext <= length vals)%nat.
Proof.
  induction vals as [|v vals IH]; intros codeOf dict codes Hv Hd Hinv; cbn [dict_loop].
  - exists [], []. rewrite !app_nil_r. split_and!; [done|constructor|done|done].
  - apply Forall_cons in Hv as [Hv Hvs]. destruct (codeOf !! strictKey v) as [c|] eqn:E.
    + destruct (IH codeOf dict (codes ++ [c]) Hvs Hd Hinv) as (ext & cs & E1 & E2 & E3 & E4). exists ext, (c :: cs).
      rewrite E1, <- app_assoc. split_and!; [done| |done|cbn [length]; lia]. constructor; [|done].
      destruct (Hinv _ _ E) as [Hc (w & Hw & Hk)]. apply decodes_to_app. assert (w = v) as ->.
      { apply strictKey_inj; [|done|done]. rewrite Forall_forall in Hd. apply Hd. by eapply list_elem_of_lookup_2. }
      split; [|done]. apply lookup_lt_Some in Hw. unfold blen. lia.
    + cbv zeta. assert (Hlast : (dict ++ [v]) !! Z.to_nat (blen dict) = Some v).
      { replace (Z.to_nat (blen dict)) with (length dict) by (unfold blen; lia). by apply list_lookup_middle. }
      destruct (IH (<[strictKey v := blen dict]> codeOf) (dict ++ [v]) (codes ++ [blen dict])) as (ext & cs & E1 & E2 & E3 & E4); [done| | |].
      * apply Forall_app. split; [done|by constructor].
      * intros k c Hk. destruct (decide (k = strictKey v)) as [->|Hne].
        -- rewrite lookup_insert_eq in Hk. injection Hk as <-. split; [apply blen_nonneg|by exists v].
        -- rewrite lookup_insert_ne in Hk by done. destruct (Hinv _ _ Hk) as [Hc (w & Hw & Hkw)]. split; [done|]. exists w. split; [by apply lookup_app_l_Some|done].
      * exists (v :: ext), (blen dict :: cs). rewrite <- app_assoc in E1, E2, E3. cbn [app] in E1, E2, E3.
        rewrite E1, <- app_assoc. split_and!; [done| |done|cbn [length]; lia]. constructor; [|done].
        replace (dict ++ v :: ext) with ((dict ++ [v]) ++ ext) by (rewrite <- app_assoc; done). apply decodes_to_app.
        split; [|done]. rewrite blen_app. change (blen [v]) with 1. pose proof (blen_nonneg dict). lia.
Qed.

Lemma dict_values_ok dict vals cs : blen dict < 2 ^ 63 -> Forall2 (decodes_to dict) vals cs -> dict_values dict cs = Ok vals.
Proof.
  intros Hd. induction 1 as [|v c vals cs [Hc Hl] _ IH]; [done|]. cbn [dict_values]. cbv zeta. rewrite to_i64_small by lia.
  rewrite Z.geb_leb, (proj2 (Z.leb_gt _ _)), (proj2 (Z.ltb_ge _ _)) by lia. rewrite IH. cbn [res_bind]. rewrite nth_lookup, Hl. done.
Qed.

(** What a slice can hold. *)
Definition slice_fits (vals : list Value) : Prop := blen vals * 48 <= 2 ^ 48.

Lemma dict_ok vals : Forall canonical vals -> slice_fits vals -> decodeStream (encodeDict vals) (length vals) = Ok vals.
Proof.
  intros Hv Hf. unfold encodeDict, slice_fits in *. destruct (dict_loop_spec vals ∅ [] [] Hv) as (dict & cs & E & H2 & H3 & H4); [constructor|by intros k c Hk|].
  cbn [app] in *. rewrite E. set (width := if blen dict >? 1 then bitWidth (blen dict - 1) else 0%nat).
  assert (Hd : 0 <= blen dict <= blen vals) by (unfold blen; lia). unfold decodeStream.
  change (decodeDict (AppendUvarint (blen dict) ++ concat (map putValue dict) ++ [Z.of_nat width] ++ packBits cs width) (length vals) = Ok vals).
  unfold decodeDict. rewrite Uvarint_Append by (unfold in_u; lia).
  replace (make_refuses (blen dict)) with false by (symmetry; unfold make_refuses; rewrite Z.gtb_ltb; apply Z.ltb_ge; lia).
  rewrite drop_app_length. replace (Z.to_nat (blen dict)) with (length dict) by (unfold blen; lia). rewrite get_values_put by done.
  cbn [res_bind app]. rewrite Nat2Z.id. rewrite (Forall2_length _ _ _ H2).
  assert (Hw : (width <= 64)%nat /\ Forall (fun x => 0 <= x < 2 ^ Z.of_nat width) cs).
  { assert (Hc : Forall (fun c => 0 <= c < blen dict) cs) by (clear -H2; induction H2 as [|? ? ? ? [? ?]]; by constructor).
    unfold width. rewrite Z.gtb_ltb. destruct (Z.ltb_spec 1 (blen dict)).
    - split.
      + unfold bitWidth. apply (bit_width_spec 64 (blen dict - 1) 0); [lia|]. change (2 ^ Z.of_nat 64) with (2 ^ 64). lia.
      + eapply Forall_impl; [exact Hc|]. intros c Hcc. cbn beta in Hcc. split; [lia|]. unfold bitWidth. apply (bit_width_spec 64 (blen dict - 1) c); [lia|]. change (2 ^ Z.of_nat 64) with (2 ^ 64). lia.
    - split; [lia|]. eapply Forall_impl; [exact Hc|]. intros c Hcc. cbn beta in Hcc. change (2 ^ Z.of_nat 0) with 1. lia. }
  destruct Hw as [Hw1 Hw2]. rewrite unpack_pack by done. apply dict_values_ok; [lia|done].
Qed.

Lemma homogeneous_spec vals rk : Forall canonical vals -> homogeneousIntKind vals = Some rk ->
  Forall (fun v => v = int_value rk (v_I v) /\ int64 (v_I v)) vals /\ vals <> [].
Proof.
  intros Hv. unfold homogeneousIntKind. destruct vals as [|v0 vals']; [done|]. set (vals := v0 :: vals') in *.
  destruct (negb (v_Kind v0 =? KindInt) && negb (v_Kind v0 =? KindBool)) eqn:E0; [done|].
  destruct (forallb _ _) eqn:E; [|done]. intros [= <-]. split; [|done]. apply Forall_forall. intros v Hin.
  rewrite Forall_forall in Hv. specialize (Hv v Hin). rewrite forallb_forall in E. apply list_elem_of_In in Hin. apply E in Hin. apply Z.eqb_eq in Hin.
  rewrite <- Hin in E0 |- *. clear Hin E. unfold int64.
  destruct Hv as [->|[(i & Hi & ->)|[(i & Hi & ->)|[(f & _ & ->)|[(s & _ & ->)|(t & s & _ & _ & ->)]]]]]; try done.
  cbn. split; [done|]. destruct Hi; lia.
Qed.

Lemma map_int_value rk vals f : Forall (fun v => v = int_value rk (v_I v) /\ int64 (v_I v)) vals ->
  (forall i, int64 i -> f i = i) -> map (fun v => int_value rk (f (v_I v))) vals = vals.
Proof.
  intros Hv Hf. induction Hv as [|v vals [H1 H2] _ IH]; [done|]. cbn [map]. rewrite IH, Hf by done. by rewrite <- H1.
Qed.

Lemma bitpack_ok vals rk : Forall canonical vals -> homogeneousIntKind vals = Some rk -> decodeStream (encodeBitpack vals rk) (length vals) = Ok vals.
Proof.
  intros Hv Hh. destruct (homogeneous_spec vals rk Hv Hh) as [Hi _]. unfold encodeBitpack. set (zz := map _ vals).
  destruct (unpack_pack_max zz) as [_ H]; [apply Forall_map, Forall_forall; intros; apply zigzag_u64|]. cbv zeta in H.
  assert (El : length zz = length vals) by apply length_map. rewrite El in H.
  cbn -[bitWidth packBits unpackBits Z.of_nat]. rewrite Nat2Z.id, H. f_equal. unfold zz. rewrite map_map.
  apply (map_int_value rk vals (fun i => unzigzag (zigzag i)) Hi). intros. by apply unzigzag_zigzag.
Qed.

Lemma i64_sum a b : int64 b -> to_i64 (u64 (a + u64 (b - a))) = b.
Proof.
  intros Hb. rewrite <- (to_i64_u64 b Hb) at 2. f_equal. unfold wrap. rewrite Z.add_mod_idemp_r by lia. f_equal. lia.
Qed.

Lemma min_of_int64 vals : Forall (fun v => int64 (v_I v)) vals -> vals <> [] -> int64 (min_of vals).
Proof.
  intros Hv Hne. unfold min_of. destruct vals as [|v vals]; [done|]. cbn [head fmap option_fmap option_map default from_option id].
  assert (H : forall l b, int64 b -> Forall (fun v => int64 (v_I v)) l -> int64 (fold_left (fun b v => if v_I v <? b then v_I v else b) l b)).
  { induction l as [|w l IH]; intros b Hb Hl; [done|]. apply Forall_cons in Hl as [? ?]. cbn [fold_left]. destruct (v_I w <? b); by apply IH. }
  apply H; [|done]. by apply Forall_cons in Hv as [? _].
Qed.

Lemma for_ok vals rk : Forall canonical vals -> homogeneousIntKind vals = Some rk -> decodeStream (encodeFOR vals rk) (length vals) = Ok vals.
Proof.
  intros Hv Hh. destruct (homogeneous_spec vals rk Hv Hh) as [Hi Hne]. unfold encodeFOR. set (base := min_of vals). set (offs := map _ vals).
  assert (Hb : int64 base) by (apply min_of_int64; [|done]; eapply Forall_impl; [exact Hi|]; by intros ? []).
  destruct (unpack_pack_max offs) as [_ H]; [apply Forall_map, Forall_forall; intros; by apply wrap_in_u|]. cbv zeta in H.
  assert (El : length offs = length vals) by apply length_map. rewrite El in H. cbv zeta. set (w := bitWidth (max_of offs)) in *.
  change (decodeFOR (rk :: AppendVarint base ++ [Z.of_nat w] ++ packBits offs w) (length vals) = Ok vals). unfold decodeFOR.
  rewrite Varint_Append by done. rewrite drop_app_length. cbn [app]. rewrite Nat2Z.id, H. f_equal. unfold offs. rewrite map_map.
  apply (map_int_value rk vals (fun i => to_i64 (u64 (base + u64 (i - base)))) Hi). intros. by apply i64_sum.
Qed.

Lemma u64_add_to_i64 a y : u64 (a + to_i64 y) = u64 (a + y).
Proof.
  unfold to_i64, wrap. destruct (y <? 2 ^ 63); [done|]. replace (a + (y - 2 ^ 64)) with (a + y + (-1) * 2 ^ 64) by lia. by rewrite Z_mod_plus_full.
Qed.

Lemma undeltas_deltas rk vals : forall prev, Forall (fun v => v = int_value rk (v_I v) /\ int64 (v_I v)) vals -> undeltas rk prev (deltas prev vals) = vals.
Proof.
  induction vals as [|v vals IH]; intros prev Hv; [done|]. apply Forall_cons in Hv as [[H1 H2] Hvs]. cbn [deltas undeltas]. cbv zeta.
  rewrite unzigzag_zigzag by (apply to_i64_range, wrap_in_u; lia).
  assert (E : to_i64 (u64 (prev + to_i64 (u64 (v_I v - prev)))) = v_I v).
  { rewrite <- (i64_sum prev (v_I v) H2) at 2. f_equal. apply u64_add_to_i64. }
  rewrite E. f_equal; [by symmetry|]. by apply IH.
Qed.

Lemma delta_ok vals rk : Forall canonical vals -> homogeneousIntKind vals = Some rk -> decodeStream (encodeDelta vals rk) (length vals) = Ok vals.
Proof.
  intros Hv Hh. destruct (homogeneous_spec vals rk Hv Hh) as [Hi Hne]. destruct vals as [|v vals]; [done|]. apply Forall_cons in Hi as [[H1 H2] Hi].
  unfold encodeDelta. set (zz := deltas (v_I v) vals).
  assert (Hz : Forall (in_u 64) zz /\ length zz = length vals).
  { unfold zz. generalize (v_I v). clear. induction vals as [|w vals IH]; intros i; cbn; [done|]. destruct (IH (v_I w)). split; [constructor; [apply zigzag_u64|done]|by f_equal]. }
  destruct Hz as [Hz El]. destruct (unpack_pack_max zz Hz) as [_ H]. cbv zeta in H. rewrite El in H. cbv zeta. set (w := bitWidth (max_of zz)) in *.
  change (decodeDelta (rk :: AppendVarint (v_I v) ++ [Z.of_nat w] ++ packBits zz w) (S (length vals)) = Ok (v :: vals)). unfold decodeDelta.
  rewrite Varint_Append by done. rewrite drop_app_length. cbn [app]. rewrite Nat2Z.id, H. unfold zz. rewrite undeltas_deltas by done. by rewrite <- H1.
Qed.

(** Whatever encoding is chosen, decoding gives the values back. *)
Lemma choose_ok vals : Forall canonical vals -> slice_fits vals -> decodeStream (chooseEncoding vals) (length vals) = Ok vals.
Proof.
  intros Hv Hf. assert (Hs : forall (P : bytes -> Prop) c b, P c -> P b -> P (smaller c b)) by (intros P c b; unfold smaller; by destruct (_ <? _)).
  set (P b := decodeStream b (length vals) = Ok vals). unfold chooseEncoding.
  assert (Hb : P (smaller (encodeDict vals) (smaller (encodeRLE vals) (encodePlain vals)))).
  { apply Hs; [by apply dict_ok|]. apply Hs; [|by apply plain_ok]. apply rle_ok; [done|]. unfold slice_fits in Hf. lia. }
  destruct (homogeneousIntKind vals) as [rk|] eqn:Hh; [|exact Hb].
  apply Hs; [by apply delta_ok|]. apply Hs; [by apply for_ok|]. apply Hs; [by apply bitpack_ok|exact Hb].
Qed.

(** ** The whole column *)

Lemma length_null_bits vals : forall i nb, length (null_bits vals i nb) = length nb.
Proof. induction vals as [|v vals IH]; intros i nb; [done|]. cbn [null_bits]. rewrite IH. destruct (is_null v); [apply length_set_bit|done]. Qed.

Lemma bit_at_null_bits vals : forall i nb j, (i + length vals <= 8 * length nb)%nat ->
  bit_at (null_bits vals i nb) j = bit_at nb j || ((i <=? j)%nat && default false (is_null <$> vals !! (j - i)%nat)).
Proof.
  induction vals as [|v vals IH]; intros i nb j Hl; cbn [null_bits length] in *.
  - by rewrite lookup_nil, andb_false_r, orb_false_r.
  - rewrite IH by (destruct (is_null v); rewrite ?length_set_bit; lia).
    assert (E : bit_at (if is_null v then set_bit i nb else nb) j = bit_at nb j || ((j =? i)%nat && is_null v)).
    { destruct (is_null v); [rewrite bit_at_set by lia; by rewrite andb_true_r|by rewrite andb_false_r, orb_false_r]. }
    rewrite E, <- orb_assoc. f_equal. destruct (Nat.eqb_spec j i) as [->|Hne].
    + rewrite (proj2 (Nat.leb_gt (S i) i)), Nat.leb_refl, Nat.sub_diag by lia. cbn. by rewrite orb_false_r.
    + cbn [andb orb]. destruct (Nat.leb_spec (S i) j).
      * rewrite (proj2 (Nat.leb_le i j)) by lia. by replace (j - i)%nat with (S (j - S i)) by lia.
      * by rewrite (proj2 (Nat.leb_gt i j)) by lia.
Qed.

Lemma read_null_bits vals nb : nb = ((length vals + 7) / 8)%nat -> readNullBitmap (null_bits vals 0 (replicate nb 0)) (length vals) = map is_null vals.
Proof.
  intros ->. apply list_eq. intros j. unfold readNullBitmap. rewrite !list_lookup_fmap. destruct (decide (j < length vals)%nat) as [Hj|Hj].
  - rewrite lookup_seq_lt by done. cbn [fmap option_fmap option_map]. rewrite Nat.add_0_l, bit_at_null_bits.
    + rewrite bit_at_zeros, Nat.sub_0_r. cbn. by destruct (lookup_lt_is_Some_2 vals j Hj) as [v ->].
    + rewrite length_replicate. pose proof (Nat.div_mod_eq (length vals + 7) 8). pose proof (Nat.mod_upper_bound (length vals + 7) 8). lia.
  - rewrite lookup_seq_ge, (lookup_ge_None_2 vals) by lia. done.
Qed.

Lemma scatter_ok vals : Forall canonical vals -> scatter (map is_null vals) (filter (fun v => is_null v = false) vals) = vals.
Proof.
  induction 1 as [|v vals Hv _ IH]; [done|]. cbn [map scatter]. rewrite filter_cons. destruct (is_null v) eqn:E.
  - rewrite decide_False by done. rewrite IH. f_equal. unfold is_null in E. apply Z.eqb_eq in E.
    by destruct Hv as [->|[(i & Hi & ->)|[(i & Hi & ->)|[(f & _ & ->)|[(s & _ & ->)|(t & s & _ & _ & ->)]]]]].
  - rewrite decide_True by done. cbn [head tail default from_option id]. by rewrite IH.
Qed.

Lemma filter_map_is_null vals : length (filter (fun x => x = false) (map is_null vals)) = length (filter (fun v => is_null v = false) vals).
Proof.
  induction vals as [|v vals IH]; [done|]. cbn [map]. rewrite !filter_cons. destruct (is_null v) eqn:E.
  - rewrite !decide_False by done. done.
  - rewrite !decide_True by done. cbn [length]. by rewrite IH.
Qed.

Lemma DecodeColumn_Encode vals :
  Forall canonical vals -> slice_fits vals -> DecodeColumn (EncodeColumn vals) = Ok vals.
Proof.
  intros Hv Hf. unfold EncodeColumn, DecodeColumn, appendNullBitmap. pose proof (blen_nonneg vals) as H0. pose proof Hf as Hf'. unfold slice_fits in Hf'.
  rewrite <- app_assoc, Uvarint_Append by (unfold in_u; lia). rewrite Z.geb_leb, (proj2 (Z.leb_gt _ _)) by lia. cbv zeta. rewrite drop_app_length.
  set (stream := filter _ vals). set (nb := ((length vals + 7) / 8)%nat). set (bm := null_bits vals 0 (replicate nb 0)).
  assert (Enb : (blen vals + 7) / 8 = Z.of_nat nb) by (unfold nb, blen; rewrite Nat2Z.inj_div, Nat2Z.inj_add; done).
  assert (Ebm : length bm = nb) by (unfold bm; by rewrite length_null_bits, length_replicate).
  rewrite Enb, Nat2Z.id. rewrite (proj2 (Z.ltb_ge _ _)) by (rewrite blen_app; pose proof (blen_nonneg (chooseEncoding stream)); unfold blen in *; lia).
  rewrite take_app_length', drop_app_length' by done.
  replace (Z.to_nat (blen vals)) with (length vals) by (unfold blen; lia). unfold bm. rewrite (read_null_bits vals nb eq_refl).
  rewrite filter_map_is_null. fold stream. rewrite choose_ok.
  - cbn [res_bind]. f_equal. by apply scatter_ok.
  - apply Forall_forall. intros v Hin. apply list_elem_of_filter in Hin as [_ Hin]. rewrite Forall_forall in Hv. by apply Hv.
  - unfold slice_fits, stream. pose proof (length_filter (fun v => is_null v = false) vals). unfold blen in *. lia.
Qed.

(** C35. Decoding an encoded column gives the column back, whichever of the six
    encodings the values made the smallest. *)
Theorem column_roundtrip vals : Forall canonical vals -> slice_fits vals -> DecodeColumn (EncodeColumn vals) = Ok vals.
Proof. apply DecodeColumn_Encode. Qed.

(** Each encoding is taken for some column: columns the smallest encoding of which
    has the tag. *)
Definition tag_of (vals : list Value) : Z := nth 0 (chooseEncoding vals) 0.

Example every_encoding_chosen :
  map tag_of [[int_value KindInt 5; string_value [97]]; [string_value [97; 98; 99]; string_value [100; 101; 102]; string_value [97; 98; 99]; string_value [100; 101; 102]; string_value [97; 98; 99]];
              replicate 9 (string_value [97; 98]); map (int_value KindInt) [3; -1; 2]; map (int_value KindInt) [1000; 1900; 1010; 1890; 1020; 1880; 1030; 1870; 1040; 1860; 1050; 1850; 1060; 1840; 1070; 1830]; map (int_value KindInt) [1000; 2000; 3000; 4000; 5000]]
  = [encPlain; encDict; encRLE; encBitpack; encFOR; encDelta].
Proof. vm_compute. reflexivity. Qed.

Lemma column_roundtrip_witness :
  Forall canonical [int_value KindInt 7; NullValue; string_value [97]; float_value 4607182418800017408; other_value 255 []] /\
  DecodeColumn (EncodeColumn [int_value KindInt 7; NullValue; string_value [97]; float_value 4607182418800017408; other_value 255 []]) =
    Ok [int_value KindInt 7; NullValue; string_value [97]; float_value 4607182418800017408; other_value 255 []].
Proof.
  assert (H : Forall canonical [int_value KindInt 7; NullValue; string_value [97]; float_value 4607182418800017408; other_value 255 []]).
  { unfold canonical, int64, in_u, byte_ok. repeat (apply Forall_cons; split).
    - right; right; left. exists 7. split; [lia|done].
    - by left.
    - do 4 right; left. exists [97]. done.
    - do 3 right; left. exists 4607182418800017408. done.
    - do 5 right. exists 255, []. done.
    - constructor. }
  split; [exact H|]. apply column_roundtrip; [exact H|]. by vm_compute.
Defined.

(** Damaged columns that DecodeColumn does not refuse with ErrCorruptColumn but
    panics on: a count of values beyond what an int holds, a delta stream without
    its kind byte, a dictionary of more entries than make allows, a code beyond what
    an int holds, and a string whose length is negative as an int. *)
Theorem corrupt_columns_panic :
  DecodeColumn (AppendUvarint max_u64) = Panic /\
  DecodeColumn [1; 0; encDelta] = Panic /\
  DecodeColumn ([1; 0; encDict] ++ AppendUvarint (2 ^ 60)) = Panic /\
  DecodeColumn ([1; 0; encDict; 0; 64] ++ replicate 8 255) = Panic /\
  DecodeColumn ([1; 0; encPlain; KindString] ++ AppendUvarint (2 ^ 63)) = Panic.
Proof. split_and!; vm_compute; reflexivity. Qed.
