(* ===== verification/ColSegment.v ===== *)
(** * colstore/segment.go: segments

    Immutable runs of a column with their version stamps and zone maps, and the
    predicate (aggregate.go) that a zone map lets a scan skip a segment for. *)

From Stdlib Require Import String.
From S2P Require Import Prelude Float64 Bson ColValue ColEncoding.

#[local] Open Scope Z_scope.

Definition SegmentSize : Z := 1024.

(** sg_del 0 is live. *)
Record Segment := MkSegment {
  sg_Field : bytes;
  sg_FirstRID : Z;
  sg_n : Z;
  sg_enc : bytes;
  sg_rids : list Z;
  sg_write : list Z;
  sg_del : list Z;
  sg_hasZone : bool;
  sg_zoneMin : Value;
  sg_zoneMax : Value
}.

(** The zone map so far: whether the first value is still to come, and the map. *)
Definition zone : Type := bool * Value * Value.

Definition lower (v m : Value) : Value := match compareNumericOrString v m with Some Lt => v | _ => m end.
Definition higher (v m : Value) : Value := match compareNumericOrString v m with Some Gt => v | _ => m end.

(** The smallest and largest of the values that are not null, or that there is no
    zone map, with what the fields were last set to. *)
Fixpoint computeZone_loop (vals : list Value) (first hasZone : bool) (mn mx : Value) : bool * Value * Value :=
  match vals with
  | [] => (hasZone, mn, mx)
  | v :: vals' =>
      if is_null v then computeZone_loop vals' first hasZone mn mx
      else if negb (comparableForZone v) then (false, mn, mx)
      else if first then computeZone_loop vals' false true v v
      else computeZone_loop vals' false hasZone (lower v mn) (higher v mx)
  end.

Definition computeZone (vals : list Value) : bool * Value * Value := computeZone_loop vals true false NullValue NullValue.

Definition buildSegment (field : bytes) (vals : list Value) (rids write del : list Z) : Segment :=
  let '(hasZone, mn, mx) := computeZone vals in
  MkSegment field (default 0 (head rids)) (blen vals) (EncodeColumn vals) rids write del hasZone mn mx.

Definition Values (s : Segment) : res colErr (list Value) := DecodeColumn (sg_enc s).

(** Stamps w and d, to a reader at snap. *)
Definition visible_at (w d snap : Z) : bool := if w >? snap then false else (d =? 0) || (d >? snap).

Definition visible (s : Segment) (i : nat) (snap : Z) : res colErr bool :=
  let* w := or_panic (sg_write s !! i) in
  if w >? snap then Ok false
  else let* d := or_panic (sg_del s !! i) in Ok ((d =? 0) || (d >? snap)).

Definition skipForRange (s : Segment) (op : string) (bound : Value) : bool :=
  if negb (sg_hasZone s) then false
  else if (op =? "$gt")%string then
    match compareNumericOrString (sg_zoneMax s) bound with Some Lt | Some Eq => true | _ => false end
  else if (op =? "$gte")%string then
    match compareNumericOrString (sg_zoneMax s) bound with Some Lt => true | _ => false end
  else if (op =? "$lt")%string then
    match compareNumericOrString (sg_zoneMin s) bound with Some Gt | Some Eq => true | _ => false end
  else if (op =? "$lte")%string then
    match compareNumericOrString (sg_zoneMin s) bound with Some Gt => true | _ => false end
  else false.

Fixpoint live_loop (s : Segment) (snap : Z) (k i : nat) (c : Z) : res colErr Z :=
  match k with
  | O => Ok c
  | S k' => let* v := visible s i snap in live_loop s snap k' (S i) (if v : bool then c + 1 else c)
  end.

Definition liveCount (s : Segment) (snap : Z) : res colErr Z := live_loop s snap (Z.to_nat (sg_n s)) 0 0.

Definition EncodedSize (s : Segment) : Z := blen (sg_enc s).

(** *** The predicate a scan applies *)

Record RangePred := MkRangePred { rp_Field : bytes; rp_Op : string; rp_Bound : Value }.

Definition matches (op : string) (bound v : Value) : bool :=
  match compareNumericOrString v bound with
  | None => false
  | Some c =>
      if (op =? "$gt")%string then bool_decide (c = Gt)
      else if (op =? "$gte")%string then bool_decide (c <> Lt)
      else if (op =? "$lt")%string then bool_decide (c = Lt)
      else if (op =? "$lte")%string then bool_decide (c <> Gt)
      else if (op =? "$eq")%string then bool_decide (c = Eq)
      else false
  end.

(** ** The on-disk form *)

(** The row ids as differences. *)
Fixpoint rid_deltas (prev : Z) (rids : list Z) : bytes :=
  match rids with
  | [] => []
  | r :: rids' => AppendUvarint (u64 (r - prev)) ++ rid_deltas r rids'
  end.

Definition MarshalBinary (s : Segment) : bytes :=
  AppendUvarint (blen (sg_Field s)) ++ sg_Field s ++
  AppendUvarint (sg_FirstRID s) ++ AppendUvarint (sg_n s) ++
  rid_deltas (sg_FirstRID s) (sg_rids s) ++
  concat (map AppendUvarint (sg_write s)) ++
  concat (map AppendUvarint (sg_del s)) ++
  (if sg_hasZone s then [1] ++ putValue (sg_zoneMin s) ++ putValue (sg_zoneMax s) else [0]) ++
  AppendUvarint (blen (sg_enc s)) ++ sg_enc s.

(** *** The reader: what is left of the buffer *)

Definition R (A : Type) : Type := bytes -> res colErr (A * bytes).

Definition r_uvarint : R Z := fun b =>
  match Uvarint b with None => Err ErrBadSegment | Some (v, k) => Ok (v, drop k b) end.

(** The length is tested as an int: one that comes out below 0 passes the test and
    the slice panics. *)
Definition r_take (n : Z) : R bytes := fun b =>
  let i := to_i64 n in
  if blen b <? i then Err ErrBadSegment
  else let* s := rd 0 i b in Ok (s, drop (Z.to_nat i) b).

Definition r_byteAt : R Z := fun b => match b with [] => Err ErrBadSegment | c :: b' => Ok (c, b') end.

(** getValue's failures become ErrBadSegment. *)
Definition r_value : R Value := fun b =>
  match getValue b with
  | Ok (v, k) => Ok (v, drop (Z.to_nat k) b)
  | Err _ => Err ErrBadSegment
  | Panic => Panic
  end.

Definition r_bind {A B} (m : R A) (k : A -> R B) : R B := fun b => let* '(a, b') := m b in k a b'.
Definition r_ret {A} (a : A) : R A := fun b => Ok (a, b).

#[local] Notation "'let^' x := m 'in' k" := (r_bind m (fun x => k)) (at level 200, x name, m at level 100, k at level 200).

Fixpoint r_rids (n : nat) (prev : Z) : R (list Z) :=
  match n with
  | O => r_ret []
  | S n' =>
      let^ d := r_uvarint in
      let p := u64 (prev + d) in
      let^ l := r_rids n' p in
      r_ret (p :: l)
  end.

Fixpoint r_stamps (n : nat) : R (list Z) :=
  match n with
  | O => r_ret []
  | S n' => let^ d := r_uvarint in let^ l := r_stamps n' in r_ret (d :: l)
  end.

(** make([]uint64, n) of a count below 0 as an int, or beyond the run time's limit. *)
Definition r_make (n64 : Z) : R unit := fun b =>
  if (to_i64 n64 <? 0) || (n64 * 8 >? 2 ^ 48) then Panic else Ok (tt, b).

Definition read_segment : R Segment :=
  let^ flen := r_uvarint in
  let^ field := r_take flen in
  let^ first := r_uvarint in
  let^ n64 := r_uvarint in
  let^ _ := r_make n64 in
  let n := Z.to_nat n64 in
  let^ rids := r_rids n first in
  let^ write := r_stamps n in
  let^ del := r_stamps n in
  let^ zflag := r_byteAt in
  let^ zone := (if zflag =? 1 then let^ mn := r_value in let^ mx := r_value in r_ret (true, mn, mx) else r_ret (false, NullValue, NullValue)) in
  let^ elen := r_uvarint in
  let^ enc := r_take elen in
  r_ret (MkSegment field first (to_i64 n64) enc rids write del zone.1.1 zone.1.2 zone.2).

Definition UnmarshalSegment (b : bytes) : res colErr Segment := let* r := read_segment b in Ok r.1.

(** ** The on-disk form: lemmas *)

Definition r_put {A} (m : R A) (enc : bytes) (a : A) : Prop := forall rest, m (enc ++ rest) = Ok (a, rest).

Lemma r_put_bind {A B} (m : R A) (k : A -> R B) e1 e2 a b : r_put m e1 a -> r_put (k a) e2 b -> r_put (r_bind m k) (e1 ++ e2) b.
Proof. intros H1 H2 rest. unfold r_bind. rewrite <- app_assoc, H1. cbn [res_bind]. apply H2. Qed.

Lemma r_put_ret {A} (a : A) : r_put (r_ret a) [] a.
Proof. by intros rest. Qed.

Lemma r_put_last {A B} (m : R A) (k : A -> R B) e a b : r_put m e a -> r_put (k a) [] b -> r_put (r_bind m k) e b.
Proof. intros H1 H2. rewrite <- (app_nil_r e). by eapply r_put_bind. Qed.

Lemma r_put_uvarint v : in_u 64 v -> r_put r_uvarint (AppendUvarint v) v.
Proof. intros Hv rest. unfold r_uvarint. by rewrite Uvarint_Append, drop_app_length. Qed.

Lemma r_put_take s : blen s < 2 ^ 63 -> r_put (r_take (blen s)) s s.
Proof.
  intros Hs rest. unfold r_take. pose proof (blen_nonneg s). pose proof (blen_nonneg rest). rewrite to_i64_small by lia. cbv zeta.
  rewrite blen_app, (proj2 (Z.ltb_ge _ _)) by lia. unfold rd. rewrite blen_app, (proj2 (Z.leb_le 0 0)), (proj2 (Z.leb_le 0 (blen s))), (proj2 (Z.leb_le _ _)) by lia.
  cbn [andb res_bind]. rewrite drop_blen. change (Z.to_nat 0) with 0%nat. unfold sub. rewrite drop_0.
  replace (Z.to_nat (blen s)) with (length s) by (unfold blen; lia). by rewrite take_app_length.
Qed.

Lemma r_put_value v : canonical v -> r_put r_value (putValue v) v.
Proof. intros Hv rest. unfold r_value. by rewrite getValue_put, drop_blen. Qed.

Lemma u64_undo prev r : in_u 64 r -> u64 (prev + u64 (r - prev)) = r.
Proof. intros Hr. unfold wrap. rewrite Z.add_mod_idemp_r by lia. replace (prev + (r - prev)) with r by lia. by apply wrap_small. Qed.

Lemma r_put_rids rids : forall prev, Forall (in_u 64) rids -> r_put (r_rids (length rids) prev) (rid_deltas prev rids) rids.
Proof.
  induction rids as [|r rids IH]; intros prev Hr; [apply r_put_ret|]. apply Forall_cons in Hr as [Hr Hrs]. cbn [length r_rids rid_deltas].
  eapply r_put_bind; [by apply r_put_uvarint, wrap_in_u|]. cbv zeta. rewrite u64_undo by done.
  eapply r_put_last; [by apply IH|]. apply r_put_ret.
Qed.

Lemma r_put_stamps l : Forall (in_u 64) l -> r_put (r_stamps (length l)) (concat (map AppendUvarint l)) l.
Proof.
  induction l as [|x l IH]; intros Hl; [apply r_put_ret|]. apply Forall_cons in Hl as [Hx Hl]. cbn [length r_stamps map concat].
  eapply r_put_bind; [by apply r_put_uvarint|]. eapply r_put_last; [by apply IH|]. apply r_put_ret.
Qed.

(** The arrays have one entry a value, the numbers their width, and the zone map
    is of values. *)
Record segment_ok (s : Segment) : Prop := SegmentOk {
  so_field : blen (sg_Field s) < 2 ^ 63;
  so_enc : blen (sg_enc s) < 2 ^ 63;
  so_first : in_u 64 (sg_FirstRID s);
  so_n : 0 <= sg_n s /\ sg_n s * 8 <= 2 ^ 48;
  so_rids : blen (sg_rids s) = sg_n s /\ Forall (in_u 64) (sg_rids s);
  so_write : blen (sg_write s) = sg_n s /\ Forall (in_u 64) (sg_write s);
  so_del : blen (sg_del s) = sg_n s /\ Forall (in_u 64) (sg_del s);
  so_zone : sg_hasZone s = true -> canonical (sg_zoneMin s) /\ canonical (sg_zoneMax s)
}.

(** Without a zone map, what its fields hold is not written. *)
Definition settled (s : Segment) : Segment :=
  if sg_hasZone s then s
  else MkSegment (sg_Field s) (sg_FirstRID s) (sg_n s) (sg_enc s) (sg_rids s) (sg_write s) (sg_del s) false NullValue NullValue.

Lemma read_segment_put s : segment_ok s -> r_put read_segment (MarshalBinary s) (settled s).
Proof.
  intros [H1 H2 H3 [H4 H4'] [H5 H5'] [H6 H6'] [H7 H7'] H8]. unfold read_segment, MarshalBinary.
  assert (Hn : forall l : list Z, blen l = sg_n s -> Z.to_nat (sg_n s) = length l) by (intros l <-; unfold blen; lia).
  pose proof (blen_nonneg (sg_Field s)). pose proof (blen_nonneg (sg_enc s)).
  eapply r_put_bind; [apply r_put_uvarint; unfold in_u; lia|]. eapply r_put_bind; [by apply r_put_take|].
  eapply r_put_bind; [by apply r_put_uvarint|]. eapply r_put_bind; [apply r_put_uvarint; unfold in_u; lia|].
  rewrite <- (app_nil_l (rid_deltas _ _ ++ _)). eapply (r_put_bind _ _ [] _ tt).
  { intros rest. unfold r_make. rewrite to_i64_small by lia. by rewrite (proj2 (Z.ltb_ge _ _)), Z.gtb_ltb, (proj2 (Z.ltb_ge _ _)) by lia. }
  cbv zeta. rewrite (Hn _ H5) at 1. eapply r_put_bind; [by apply r_put_rids|]. rewrite (Hn _ H6) at 1. eapply r_put_bind; [by apply r_put_stamps|].
  rewrite (Hn _ H7) at 1. eapply r_put_bind; [by apply r_put_stamps|].
  set (z := (sg_hasZone s, if sg_hasZone s then sg_zoneMin s else NullValue, if sg_hasZone s then sg_zoneMax s else NullValue)).
  assert (Hz : forall (k : bool * Value * Value -> R Segment) e b, r_put (k z) e b ->
    r_put (r_bind r_byteAt (fun zflag => r_bind (if zflag =? 1 then r_bind r_value (fun mn => r_bind r_value (fun mx => r_ret (true, mn, mx))) else r_ret (false, NullValue, NullValue)) k))
      ((if sg_hasZone s then [1] ++ putValue (sg_zoneMin s) ++ putValue (sg_zoneMax s) else [0]) ++ e) b).
  { intros k e b Hk. destruct (sg_hasZone s) eqn:Ez.
    - destruct (H8 eq_refl) as [Z1 Z2]. rewrite <- app_assoc. eapply r_put_bind; [by intros rest|]. change (1 =? 1) with true. cbv iota.
      eapply r_put_bind; [|exact Hk]. eapply r_put_bind; [by apply r_put_value|]. eapply r_put_last; [by apply r_put_value|]. apply r_put_ret.
    - eapply r_put_bind; [by intros rest|]. change (0 =? 1) with false. cbv iota. rewrite <- (app_nil_l e). eapply r_put_bind; [apply r_put_ret|exact Hk]. }
  apply Hz. eapply r_put_bind; [apply r_put_uvarint; unfold in_u; lia|]. eapply r_put_last; [by apply r_put_take|].
  assert (E : settled s = MkSegment (sg_Field s) (sg_FirstRID s) (to_i64 (sg_n s)) (sg_enc s) (sg_rids s) (sg_write s) (sg_del s) z.1.1 z.1.2 z.2).
  { unfold settled, z. rewrite to_i64_small by lia. cbn [fst snd]. destruct (sg_hasZone s) eqn:Ez; [|done]. destruct s; cbn in *; by subst. }
  rewrite E. apply r_put_ret.
Qed.

(** A segment is read back as it was written. *)
Theorem colsegment_roundtrip s : segment_ok s -> UnmarshalSegment (MarshalBinary s) = Ok (settled s).
Proof. intros Hs. unfold UnmarshalSegment. rewrite <- (app_nil_r (MarshalBinary s)), (read_segment_put s Hs []). done. Qed.

(** ** Zone maps *)

Definition not_nan (v : Value) : Prop := forall f, AsFloat v = Some f -> f64_isNaN f = false.

(** a is no larger than b, both numeric or both strings. *)
Definition cle (a b : Value) : Prop := exists c, compareNumericOrString a b = Some c /\ c <> Gt.

Lemma cmp_floats_val f g : f64_isNaN f = false -> f64_isNaN g = false -> cmp_floats f g = (f64_val f ?= f64_val g).
Proof.
  intros Hf Hg. unfold cmp_floats, f64_lt. rewrite Hf, Hg. cbn [negb andb].
  destruct (Z.ltb_spec (f64_val f) (f64_val g)), (Z.ltb_spec (f64_val g) (f64_val f)); symmetry; (apply Z.compare_lt_iff || apply Z.compare_gt_iff || apply Z.compare_eq_iff); lia.
Qed.

(** What the comparison is on the values it applies to. *)
Lemma compare_num a b f g : AsFloat a = Some f -> AsFloat b = Some g -> compareNumericOrString a b = Some (cmp_floats f g).
Proof. unfold compareNumericOrString. by intros -> ->. Qed.

Lemma AsFloat_string v : v_Kind v = KindString -> AsFloat v = None.
Proof. unfold AsFloat. by intros ->. Qed.

Lemma compare_str a b : v_Kind a = KindString -> v_Kind b = KindString -> compareNumericOrString a b = Some (bcmp (v_S a) (v_S b)).
Proof. intros Ha Hb. unfold compareNumericOrString. by rewrite AsFloat_string, Ha, Hb. Qed.

(** A comparison that applies is of two numbers or two strings. *)
Lemma compare_inv a b c : compareNumericOrString a b = Some c ->
  (exists f g, AsFloat a = Some f /\ AsFloat b = Some g /\ c = cmp_floats f g) \/
  (v_Kind a = KindString /\ v_Kind b = KindString /\ c = bcmp (v_S a) (v_S b)).
Proof.
  unfold compareNumericOrString. destruct (AsFloat a) as [f|] eqn:Ea.
  - destruct (AsFloat b) as [g|] eqn:Eb; [|done]. intros [= <-]. left. by exists f, g.
  - destruct (v_Kind a =? KindString) eqn:Ka; [|done]. destruct (v_Kind b =? KindString) eqn:Kb; [|done]. cbn [andb]. intros [= <-].
    right. by apply Z.eqb_eq in Ka, Kb.
Qed.

(** Transitivity, below or at values that are numbers in the strict sense. *)
Lemma cle_trans_cmp a b x c : not_nan a -> not_nan b -> cle a b -> compareNumericOrString b x = Some c ->
  exists d, compareNumericOrString a x = Some d /\ (c <> Gt -> d <> Gt) /\ (c = Lt -> d = Lt).
Proof.
  intros Na Nb (e & He & Hne) Hc. apply compare_inv in He as [(f & g & Hf & Hg & ->)|(Ka & Kb & ->)]; apply compare_inv in Hc as [(g' & h & Hg' & Hh & ->)|(Kb' & Kx & ->)].
  - assert (g' = g) as -> by congruence. exists (cmp_floats f h). split; [by apply compare_num|].
    specialize (Na f Hf). specialize (Nb g Hg). rewrite cmp_floats_val in Hne by done. unfold cmp_floats, f64_lt. rewrite Na, Nb. cbn [negb andb].
    assert (f64_val f <= f64_val g) by (by apply Z.compare_le_iff).
    destruct (f64_isNaN h); cbn [negb andb]; [done|]. repeat case_match; split; intros; try done; rewrite ?Z.ltb_lt, ?Z.ltb_ge in *; lia.
  - rewrite (AsFloat_string b Kb') in Hg. done.
  - rewrite (AsFloat_string b Kb) in Hg'. done.
  - exists (bcmp (v_S a) (v_S x)). split; [by apply compare_str|]. split; intros H.
    + by eapply ble_trans.
    + by eapply ble_blt_trans.
Qed.

Lemma cmp_floats_opp f g : cmp_floats g f = CompOpp (cmp_floats f g).
Proof.
  unfold cmp_floats, f64_lt. destruct (f64_isNaN f), (f64_isNaN g); cbn [negb andb]; try done.
  destruct (Z.ltb_spec (f64_val f) (f64_val g)), (Z.ltb_spec (f64_val g) (f64_val f)); (done || lia).
Qed.

Lemma compare_opp a b c : compareNumericOrString a b = Some c -> compareNumericOrString b a = Some (CompOpp c).
Proof.
  intros [(f & g & Hf & Hg & ->)|(Ka & Kb & ->)]%compare_inv.
  - rewrite (compare_num b a g f) by done. f_equal. apply cmp_floats_opp.
  - rewrite (compare_str b a) by done. f_equal. apply bcmp_antisym.
Qed.

Lemma cmp_floats_refl f : cmp_floats f f = Eq.
Proof. unfold cmp_floats, f64_lt. rewrite Z.ltb_irrefl, andb_false_r. done. Qed.

Lemma cle_lower a b x c : not_nan a -> not_nan b -> cle a b -> compareNumericOrString a x = Some c ->
  exists d, compareNumericOrString b x = Some d /\ (c <> Lt -> d <> Lt) /\ (c = Gt -> d = Gt).
Proof.
  intros Na Nb (e & He & Hne) Hc. apply compare_inv in He as [(f & g & Hf & Hg & ->)|(Ka & Kb & ->)]; apply compare_inv in Hc as [(f' & h & Hf' & Hh & ->)|(Ka' & Kx & ->)].
  - assert (f' = f) as -> by congruence. exists (cmp_floats g h). split; [by apply compare_num|].
    specialize (Na f Hf). specialize (Nb g Hg). rewrite cmp_floats_val in Hne by done. unfold cmp_floats, f64_lt. rewrite Na, Nb. cbn [negb andb].
    assert (f64_val f <= f64_val g) by (by apply Z.compare_le_iff).
    destruct (f64_isNaN h); cbn [negb andb]; [done|]. repeat case_match; split; intros; try done; rewrite ?Z.ltb_lt, ?Z.ltb_ge in *; lia.
  - rewrite (AsFloat_string a Ka') in Hf. done.
  - rewrite (AsFloat_string a Ka) in Hf'. done.
  - exists (bcmp (v_S b) (v_S x)). split; [by apply compare_str|]. change (ble (v_S a) (v_S b)) in Hne. split.
    + intros Hge Hlt. apply Hge. by eapply ble_blt_trans.
    + intros Hgt. rewrite (bcmp_antisym (v_S x) (v_S b)). rewrite (bcmp_antisym (v_S x) (v_S a)) in Hgt.
      assert (Hx : blt (v_S x) (v_S a)) by (unfold blt; by destruct (bcmp (v_S x) (v_S a))).
      pose proof (blt_ble_trans _ _ _ Hx Hne) as Hr. unfold blt in Hr. by rewrite Hr.
Qed.

(** The kind of comparison a value takes part in: by number, or by string. *)
Definition family (v : Value) : option bool :=
  match AsFloat v with Some _ => Some true | None => if v_Kind v =? KindString then Some false else None end.

Lemma family_compare a b F : family a = Some F -> family b = Some F -> exists c, compareNumericOrString a b = Some c.
Proof.
  unfold family, compareNumericOrString. destruct (AsFloat a) as [f|], (AsFloat b) as [g|]; destruct (v_Kind a =? KindString), (v_Kind b =? KindString); intros [= <-] [=]; by eexists.
Qed.

Lemma compare_family a b c : compareNumericOrString a b = Some c -> family a = family b /\ family a <> None.
Proof.
  unfold family. intros [(f & g & Hf & Hg & _)|(Ka & Kb & _)]%compare_inv; [by rewrite Hf, Hg|]. by rewrite !AsFloat_string, Ka, Kb by done.
Qed.

Lemma family_zone v : comparableForZone v = bool_decide (is_Some (family v)).
Proof.
  unfold comparableForZone, family. destruct (AsFloat v); [done|]. rewrite (bool_decide_eq_false_2 (is_Some None)) by (by intros []). cbn [orb].
  by destruct (v_Kind v =? KindString).
Qed.

Lemma is_null_family v : is_null v = true -> family v = None.
Proof. unfold is_null, family, AsFloat. intros ->%Z.eqb_eq. done. Qed.

(** The zone map bounds the values seen that its family compares. *)
Definition zone_inv (F : bool) (seen : list Value) (mn mx : Value) : Prop :=
  family mn = Some F /\ family mx = Some F /\ not_nan mn /\ not_nan mx /\
  forall v, v ∈ seen -> family v = Some F -> not_nan v /\ cle mn v /\ cle v mx.

Lemma cle_trans a b c : not_nan a -> not_nan b -> cle a b -> cle b c -> cle a c.
Proof. intros Na Nb Hab (x & Hx & Hne). destruct (cle_trans_cmp a b c x Na Nb Hab Hx) as (d & Hd & Hd' & _). exists d. auto. Qed.

Lemma cle_refl v F : family v = Some F -> cle v v.
Proof.
  intros Hf. destruct (family_compare v v F Hf Hf) as [c Hc]. exists c. split; [done|].
  apply compare_inv in Hc as [(f & g & H1 & H2 & ->)|(_ & _ & ->)]; [|by rewrite bcmp_refl]. assert (f = g) as -> by congruence. by rewrite cmp_floats_refl.
Qed.

Lemma zone_step F seen mn mx v : zone_inv F seen mn mx -> not_nan v -> zone_inv F (seen ++ [v]) (lower v mn) (higher v mx).
Proof.
  intros (F1 & F2 & N1 & N2 & Hs) Nv. unfold lower, higher. destruct (decide (family v = Some F)) as [Fv|Fv].
  - destruct (family_compare v mn F Fv F1) as [c Hc]. destruct (family_compare v mx F Fv F2) as [d Hd]. rewrite Hc, Hd.
    assert (Hmn : let m := match c with Lt => v | _ => mn end in family m = Some F /\ not_nan m /\ cle m v /\ forall w, cle mn w -> cle m w).
    { cbv zeta. destruct c; (split; [done|]; split; [done|]).
      - split; [|done]. apply compare_opp in Hc. by eexists.
      - split; [by eapply cle_refl|]. intros w Hw. eapply (cle_trans v mn w); [done|done| |done]. by exists Lt.
      - split; [|done]. apply compare_opp in Hc. by eexists. }
    assert (Hmx : let m := match d with Gt => v | _ => mx end in family m = Some F /\ not_nan m /\ cle v m /\ forall w, not_nan w -> cle w mx -> cle w m).
    { cbv zeta. destruct d; (split; [done|]; split; [done|]).
      - split; [|done]. by exists Eq.
      - split; [|done]. by exists Lt.
      - split; [by eapply cle_refl|]. intros w Nw Hw. eapply (cle_trans w mx v); [done|done|done|]. apply compare_opp in Hd. by exists Lt. }
    cbv zeta in Hmn, Hmx. destruct Hmn as (A1 & A2 & A3 & A4), Hmx as (B1 & B2 & B3 & B4). split_and!; [done..|].
    intros w [Hw|Hw]%elem_of_app Fw; [|by apply list_elem_of_singleton in Hw as ->]. destruct (Hs w Hw Fw) as (W0 & W1 & W2).
    split; [done|]. split; [by apply A4|by apply B4].
  - assert (Hnone : forall m, family m = Some F -> compareNumericOrString v m = None).
    { intros m Hm. destruct (compareNumericOrString v m) as [c|] eqn:E; [|done]. apply compare_family in E as [E _]. congruence. }
    rewrite (Hnone mn F1), (Hnone mx F2). split_and!; [done..|]. intros w [Hw|Hw]%elem_of_app Fw; [by apply Hs|]. apply list_elem_of_singleton in Hw as ->. done.
Qed.

Lemma zone_loop F vals : forall seen mn mx h mn' mx', zone_inv F seen mn mx -> Forall not_nan vals ->
  computeZone_loop vals false h mn mx = (true, mn', mx') -> zone_inv F (seen ++ vals) mn' mx'.
Proof.
  induction vals as [|v vals IH]; intros seen mn mx h mn' mx' Hi Hv E; cbn [computeZone_loop] in E.
  - injection E as _ <- <-. by rewrite app_nil_r.
  - apply Forall_cons in Hv as [Nv Hv]. replace (seen ++ v :: vals) with ((seen ++ [v]) ++ vals) by (rewrite <- app_assoc; done).
    pose proof (zone_step F seen mn mx v Hi Nv) as Hs. destruct (is_null v) eqn:En.
    + eapply IH; [|done|exact E]. apply is_null_family in En. destruct Hi as (I1 & I2 & I3 & I4 & I5). split_and!; [done..|].
      intros w [Hw|Hw]%elem_of_app Fw; [by apply I5|]. apply list_elem_of_singleton in Hw as ->. congruence.
    + destruct (negb (comparableForZone v)); [done|]. by eapply IH.
Qed.

Lemma zone_first vals : forall h mn0 mx0 mn mx, Forall not_nan vals -> computeZone_loop vals true h mn0 mx0 = (true, mn, mx) ->
  h = true \/ exists F, zone_inv F vals mn mx.
Proof.
  induction vals as [|v vals IH]; intros h mn0 mx0 mn mx Hv E; cbn [computeZone_loop] in E; [injection E; auto|]. apply Forall_cons in Hv as [Nv Hv].
  destruct (is_null v) eqn:En.
  - apply IH in E as [E|[F (I1 & I2 & I3 & I4 & I5)]]; [by left| |done]. right. exists F. split_and!; [done..|].
    intros w [->|Hw]%elem_of_cons Fw; [|by apply I5]. apply is_null_family in En. congruence.
  - destruct (comparableForZone v) eqn:Ec; [|done]. cbn [negb] in E. right. rewrite family_zone in Ec. apply bool_decide_eq_true in Ec as [F Hf].
    exists F. apply (zone_loop F vals [v] v v true); [|done|exact E]. split_and!; [done..|].
    intros w Hw Fw. apply list_elem_of_singleton in Hw as ->. split; [done|]. split; by eapply cle_refl.
Qed.

Lemma computeZone_inv vals mn mx : Forall not_nan vals -> computeZone vals = (true, mn, mx) -> exists F, zone_inv F vals mn mx.
Proof. intros Hv E. by apply zone_first in E as [E|E]. Qed.

Lemma skip_sound field vals rids write del op bound v :
  Forall not_nan vals -> skipForRange (buildSegment field vals rids write del) op bound = true -> v ∈ vals -> matches op bound v = false.
Proof.
  intros Hv Hskip Hin. unfold buildSegment in Hskip. destruct (computeZone vals) as [[h mn] mx] eqn:E. unfold skipForRange in Hskip. cbn [sg_hasZone sg_zoneMin sg_zoneMax] in Hskip.
  destruct h; [|done]. cbn [negb] in Hskip. destruct (computeZone_inv vals mn mx Hv E) as (F & F1 & F2 & N1 & N2 & Hs).
  unfold matches. destruct (compareNumericOrString v bound) as [d|] eqn:Ed; [|done]. destruct (compare_family _ _ _ Ed) as [Ev _].
  assert (Hb : forall m c, family m = Some F -> compareNumericOrString m bound = Some c -> family v = Some F).
  { intros m c Hm Hc. apply compare_family in Hc as [Hc _]. congruence. }
  destruct (op =? "$gt")%string.
  { destruct (compareNumericOrString mx bound) as [c|] eqn:Ec; [|done]. destruct (Hs v Hin (Hb mx c F2 Ec)) as (W0 & _ & W2).
    destruct (cle_trans_cmp v mx bound c W0 N2 W2 Ec) as (d' & Hd' & H1 & _). assert (d' = d) as -> by congruence.
    apply bool_decide_eq_false. destruct c; [by apply H1|by apply H1|done]. }
  destruct (op =? "$gte")%string.
  { destruct (compareNumericOrString mx bound) as [c|] eqn:Ec; [|done]. destruct (Hs v Hin (Hb mx c F2 Ec)) as (W0 & _ & W2).
    destruct (cle_trans_cmp v mx bound c W0 N2 W2 Ec) as (d' & Hd' & _ & H2). assert (d' = d) as -> by congruence.
    destruct c; try done. by rewrite H2. }
  destruct (op =? "$lt")%string.
  { destruct (compareNumericOrString mn bound) as [c|] eqn:Ec; [|done]. destruct (Hs v Hin (Hb mn c F1 Ec)) as (W0 & W1 & _).
    destruct (cle_lower mn v bound c N1 W0 W1 Ec) as (d' & Hd' & H1 & _). assert (d' = d) as -> by congruence.
    apply bool_decide_eq_false. destruct c; [by apply H1|done|by apply H1]. }
  destruct (op =? "$lte")%string; [|done].
  destruct (compareNumericOrString mn bound) as [c|] eqn:Ec; [|done]. destruct (Hs v Hin (Hb mn c F1 Ec)) as (W0 & W1 & _).
  destruct (cle_lower mn v bound c N1 W0 W1 Ec) as (d' & Hd' & _ & H2). assert (d' = d) as -> by congruence.
  destruct c; try done. rewrite H2 by done. done.
Qed.

(** C30. A segment that its zone map lets a range scan skip holds no value that the
    predicate matches, as long as none of its values is NaN. *)
Theorem skipped_segment_has_no_match field vals rids write del op bound v :
  Forall not_nan vals -> skipForRange (buildSegment field vals rids write del) op bound = true -> v ∈ vals -> matches op bound v = false.
Proof. apply skip_sound. Qed.

(** ** Witnesses, and what NaN does to a zone map *)

Definition demo_column : list Value := [int_value KindInt 3; NullValue; float_value (f64_of_int 9); int_value KindInt 5].
Definition demo_segment : Segment := buildSegment [97] demo_column [0; 1; 2; 3] [1; 1; 2; 2] [0; 3; 0; 0].

Lemma colsegment_roundtrip_witness : segment_ok demo_segment /\ UnmarshalSegment (MarshalBinary demo_segment) = Ok (settled demo_segment).
Proof.
  assert (H : segment_ok demo_segment).
  { split; [done|done|done|done| | | |].
    - split; [done|]. repeat (apply Forall_cons; split; [done|]). constructor.
    - split; [done|]. repeat (apply Forall_cons; split; [done|]). constructor.
    - split; [done|]. repeat (apply Forall_cons; split; [done|]). constructor.
    - intros _. split; [right; right; left; by exists 3|right; right; right; left; by exists (f64_of_int 9)]. }
  split; [exact H|]. by apply colsegment_roundtrip.
Defined.

Definition not_nanb (v : Value) : bool := match AsFloat v with Some f => negb (f64_isNaN f) | None => true end.

Lemma not_nanb_all vals : forallb not_nanb vals = true -> Forall not_nan vals.
Proof.
  intros H. apply Forall_forall. intros v Hin f Hf. rewrite forallb_forall in H. apply list_elem_of_In, H in Hin. unfold not_nanb in Hin. rewrite Hf in Hin.
  by destruct (f64_isNaN f).
Qed.

Lemma skipped_segment_has_no_match_witness :
  skipForRange demo_segment "$gt" (int_value KindInt 9) = true /\ matches "$gt" (int_value KindInt 9) (int_value KindInt 5) = false.
Proof.
  split; [by vm_compute|].
  apply (skipped_segment_has_no_match [97] demo_column [0; 1; 2; 3] [1; 1; 2; 2] [0; 3; 0; 0]).
  - apply not_nanb_all. by vm_compute.
  - by vm_compute.
  - unfold demo_column. set_solver.
Defined.

(** The word of a NaN. *)
Definition nan_word : Z := 0x7FF8000000000000.

(** A NaN that comes first stays both ends of the zone map, compares as equal to
    any bound, and has the segment skipped although another value matches; and the
    predicate itself takes a NaN to equal any number, and integers that round to
    the same double to be equal. *)
Theorem nan_loses_matching_rows :
  let seg := buildSegment [97] [float_value nan_word; int_value KindInt 10] [0; 1] [1; 1] [0; 0] in
  skipForRange seg "$gt" (int_value KindInt 5) = true /\ matches "$gt" (int_value KindInt 5) (int_value KindInt 10) = true /\
  matches "$eq" (int_value KindInt 5) (float_value nan_word) = true /\
  matches "$gt" (int_value KindInt (2 ^ 53)) (int_value KindInt (2 ^ 53 + 1)) = false.
Proof. vm_compute. split_and!; reflexivity. Qed.

Lemma scratch_value v : value_ok v -> doc_fits [MkElement [118] v] -> scratch (AppendValue [118] v []) = v.
Proof.
  intros Hv Hf. unfold scratch. assert (E : Build (AppendValue [118] v []) = doc_of [MkElement [118] v]).
  { unfold doc_of. f_equal. unfold AppendValue, elem, enc_elems, enc_elem. cbn [map concat Bson.Value Key]. by rewrite app_nil_r. }
  rewrite E, Lookup_doc_of; [done| |done]. constructor; [|constructor]. split; [|split; [|done]].
  - by repeat constructor.
  - cbn. set_solver by lia.
Qed.

(** A date comes back out of the store as a plain integer, which a $min or a $max
    of dates then returns. *)
Theorem dates_become_integers x : int64 x -> ToRawValue (FromRawValue (date_val x)) = int64_val x.
Proof.
  intros Hx. assert (E : FromRawValue (date_val x) = int_value KindInt x).
  { unfold FromRawValue. change (rv_Type (date_val x)) with TypeDateTime. cbn [one_of existsb orb Z.eqb Pos.eqb TypeNull TypeUndefined TypeBoolean TypeInt32 TypeInt64 TypeDateTime].
    f_equal. by apply DateTime_date_val. }
  rewrite E. unfold ToRawValue, int_value. cbn [v_Kind v_I Z.eqb Pos.eqb KindBool KindInt]. change (AppendInt64 [118] x []) with (AppendValue [118] (int64_val x) []).
  apply scratch_value; [by apply word_value_ok|]. unfold doc_fits.
  assert (El : blen (enc_elems [MkElement [118] (int64_val x)]) = 11) by reflexivity. by rewrite El.
Qed.

Lemma dates_become_integers_witness : ToRawValue (FromRawValue (date_val 1700000000000)) = int64_val 1700000000000.
Proof. apply dates_become_integers. by unfold int64. Defined.
