(* ===== verification/ColStore.v ===== *)
(** * colstore/store.go, aggregate.go and reconstruct.go: the column store

    A collection's columnar projection: segments for each field and a buffer on one
    line of row ids, the scan over them, and what it promises to its readers. *)

From Stdlib Require Import String.
From S2P Require Import Prelude Float64 Bson ColValue ColEncoding ColSegment.

#[local] Open Scope Z_scope.

Inductive Mode := ModeOff | ModeTransactional | ModeLazy.

Record segBound := MkSegBound { sb_first : Z; sb_n : Z }.

Record Store := MkStore {
  st_mode : Mode;
  st_fields : list bytes;
  st_segs : gmap bytes (list Segment);
  st_bounds : list segBound;
  st_bufVals : gmap bytes (list Value);
  st_bufRIDs : list Z;
  st_bufWrite : list Z;
  st_bufDel : list Z;
  st_live : gmap bytes Z;
  st_nextRID : Z
}.

(** A field the map does not have reads as an empty slice. *)
Definition segs_of (f : bytes) (s : Store) : list Segment := default [] (st_segs s !! f).
Definition bufVals_of (f : bytes) (s : Store) : list Value := default [] (st_bufVals s !! f).

Definition no_segs (fields : list bytes) : gmap bytes (list Segment) := list_to_map (map (fun f => (f, [])) fields).
Definition no_vals (fields : list bytes) : gmap bytes (list Value) := list_to_map (map (fun f => (f, [])) fields).

Definition New (mode : Mode) (fields : list bytes) : Store :=
  MkStore mode fields (no_segs fields) [] (no_vals fields) [] [] [] ∅ 0.

Definition idKey (doc : bytes) : bytes :=
  match IDOf doc with Some id => strictKey (FromRawValue id) | None => [] end.

(** One segment a field, of what the buffer holds for it. *)
Fixpoint flush_fields (fs : list bytes) (rids write del : list Z) (segs : gmap bytes (list Segment)) (vals : gmap bytes (list Value))
    : gmap bytes (list Segment) * gmap bytes (list Value) :=
  match fs with
  | [] => (segs, vals)
  | f :: fs' =>
      let seg := buildSegment f (default [] (vals !! f)) rids write del in
      flush_fields fs' rids write del (<[f := default [] (segs !! f) ++ [seg]]> segs) (<[f := []]> vals)
  end.

Definition flushLocked (s : Store) : Store :=
  match st_bufRIDs s with
  | [] => s
  | first :: _ =>
      let '(segs, vals) := flush_fields (st_fields s) (st_bufRIDs s) (st_bufWrite s) (st_bufDel s) (st_segs s) (st_bufVals s) in
      MkStore (st_mode s) (st_fields s) segs (st_bounds s ++ [MkSegBound first (blen (st_bufRIDs s))]) vals [] [] [] (st_live s) (st_nextRID s)
  end.

Fixpoint project_fields (fs : list bytes) (doc : bytes) (vals : gmap bytes (list Value)) : gmap bytes (list Value) :=
  match fs with
  | [] => vals
  | f :: fs' => project_fields fs' doc (<[f := default [] (vals !! f) ++ [FromField doc f]]> vals)
  end.

Definition insertLocked (key doc : bytes) (ver : Z) (s : Store) : Store :=
  let rid := st_nextRID s in
  let s1 := MkStore (st_mode s) (st_fields s) (st_segs s) (st_bounds s) (project_fields (st_fields s) doc (st_bufVals s))
              (st_bufRIDs s ++ [rid]) (st_bufWrite s ++ [ver]) (st_bufDel s ++ [0])
              (if bool_decide (key = []) then st_live s else <[key := rid]> (st_live s)) (u64 (rid + 1)) in
  if blen (st_bufRIDs s1) >=? SegmentSize then flushLocked s1 else s1.

Definition Insert (doc : bytes) (ver : Z) (s : Store) : Store := insertLocked (idKey doc) doc ver s.

Definition locateBound (rid : Z) (s : Store) : option nat :=
  let k := sort_Search (List.length (st_bounds s)) (fun i => let b := nth i (st_bounds s) (MkSegBound 0 0) in u64 (sb_first b + sb_n b) >? rid) in
  match st_bounds s !! k with
  | Some b => if rid >=? sb_first b then Some k else None
  | None => None
  end.

(** The stamp is set once: on a row that is live. *)
Definition stamp_del (off : Z) (ver : Z) (del : list Z) : res colErr (list Z) :=
  if off >=? blen del then Ok del
  else if off <? 0 then Panic
  else Ok (alter (fun d => if d =? 0 then ver else d) (Z.to_nat off) del).

Definition set_sg_del (del : list Z) (s : Segment) : Segment :=
  MkSegment (sg_Field s) (sg_FirstRID s) (sg_n s) (sg_enc s) (sg_rids s) (sg_write s) del (sg_hasZone s) (sg_zoneMin s) (sg_zoneMax s).

Fixpoint tombstone_fields (fs : list bytes) (k : nat) (off ver : Z) (segs : gmap bytes (list Segment)) : res colErr (gmap bytes (list Segment)) :=
  match fs with
  | [] => Ok segs
  | f :: fs' =>
      let l := default [] (segs !! f) in
      let* seg := or_panic (l !! k) in
      let* del := stamp_del off ver (sg_del seg) in
      tombstone_fields fs' k off ver (<[f := <[k := set_sg_del del seg]> l]> segs)
  end.

Definition tombstone_flushed (rid ver : Z) (s : Store) : res colErr Store :=
  match locateBound rid s with
  | None => Ok s
  | Some k =>
      let* b := or_panic (st_bounds s !! k) in
      let* segs := tombstone_fields (st_fields s) k (to_i64 (u64 (rid - sb_first b))) ver (st_segs s) in
      Ok (MkStore (st_mode s) (st_fields s) segs (st_bounds s) (st_bufVals s) (st_bufRIDs s) (st_bufWrite s) (st_bufDel s) (st_live s) (st_nextRID s))
  end.

Definition tombstoneLocked (rid ver : Z) (s : Store) : res colErr Store :=
  match st_bufRIDs s with
  | first :: _ =>
      if rid >=? first then
        let* del := stamp_del (to_i64 (u64 (rid - first))) ver (st_bufDel s) in
        Ok (MkStore (st_mode s) (st_fields s) (st_segs s) (st_bounds s) (st_bufVals s) (st_bufRIDs s) (st_bufWrite s) del (st_live s) (st_nextRID s))
      else tombstone_flushed rid ver s
  | [] => tombstone_flushed rid ver s
  end.

Definition Update (oldID newDoc : bytes) (ver : Z) (s : Store) : res colErr Store :=
  let* s1 := match st_live s !! idKey oldID with Some rid => tombstoneLocked rid ver s | None => Ok s end in
  Ok (insertLocked (idKey newDoc) newDoc ver s1).

Definition set_live (l : gmap bytes Z) (s : Store) : Store :=
  MkStore (st_mode s) (st_fields s) (st_segs s) (st_bounds s) (st_bufVals s) (st_bufRIDs s) (st_bufWrite s) (st_bufDel s) l (st_nextRID s).

Definition Delete (doc : bytes) (ver : Z) (s : Store) : res colErr Store :=
  let key := idKey doc in
  match st_live s !! key with
  | Some rid => let* s1 := tombstoneLocked rid ver s in Ok (set_live (base.delete key (st_live s1)) s1)
  | None => Ok s
  end.

Definition Flush (s : Store) : Store := flushLocked s.

Definition Rebuild (docs : list bytes) (ver : Z) (s : Store) : Store :=
  let s0 := MkStore (st_mode s) (st_fields s) (no_segs (st_fields s)) [] (no_vals (st_fields s)) [] [] [] ∅ 0 in
  flushLocked (fold_left (fun s d => insertLocked (idKey d) d ver s) docs s0).

Definition SegmentCount (s : Store) : Z := blen (st_bounds s).

Fixpoint seg_rows (segs : list Segment) (snap total : Z) : res colErr Z :=
  match segs with
  | [] => Ok total
  | seg :: segs' => let* n := liveCount seg snap in seg_rows segs' snap (total + n)
  end.

Fixpoint buf_rows (k i : nat) (snap : Z) (s : Store) (total : Z) : res colErr Z :=
  match k with
  | O => Ok total
  | S k' =>
      let* w := or_panic (st_bufWrite s !! i) in
      let* d := or_panic (st_bufDel s !! i) in
      buf_rows k' (S i) snap s (if (w <=? snap) && ((d =? 0) || (d >? snap)) then total + 1 else total)
  end.

Definition RowCount (snap : Z) (s : Store) : res colErr Z :=
  let* total := match st_fields s with [] => Ok 0 | f :: _ => seg_rows (segs_of f s) snap 0 end in
  buf_rows (List.length (st_bufRIDs s)) 0 snap s total.

Definition Covers (need : list bytes) (s : Store) : bool := forallb (fun f => bool_decide (f ∈ st_fields s)) need.

(** ** aggregate.go: the scan

    The rows handed to the callback, in order, and how the scan ended. *)

Definition rows : Type := list (list Value).

Fixpoint columns (need : list bytes) (k : nat) (s : Store) : res colErr (list (list Value)) :=
  match need with
  | [] => Ok []
  | f :: need' =>
      let* seg := or_panic (segs_of f s !! k) in
      let* c := Values seg in
      let* cs := columns need' k s in
      Ok (c :: cs)
  end.

(** The column of the predicate's field: one of those decoded, or decoded for it. *)
Fixpoint predColumn (field : bytes) (k : nat) (need : list bytes) (cols : list (list Value)) (s : Store) : res colErr (list Value) :=
  match need, cols with
  | f :: need', c :: cols' => if bool_decide (f = field) then Ok c else predColumn field k need' cols' s
  | _, _ => let* seg := or_panic (segs_of field s !! k) in Values seg
  end.

Fixpoint pick (i : nat) (cols : list (list Value)) : res colErr (list Value) :=
  match cols with
  | [] => Ok []
  | c :: cols' => let* v := or_panic (c !! i) in let* vs := pick i cols' in Ok (v :: vs)
  end.

Definition kept_by (pred : option RangePred) (col : list Value) (i : nat) : res colErr bool :=
  match pred with
  | None => Ok true
  | Some p => let* v := or_panic (col !! i) in Ok (matches (rp_Op p) (rp_Bound p) v)
  end.

Fixpoint block_rows (n i : nat) (vis : Segment) (snap : Z) (pred : option RangePred) (predCol : list Value) (cols : list (list Value)) : res colErr rows :=
  match n with
  | O => Ok []
  | S n' =>
      let* v := visible vis i snap in
      let* keep := (if v : bool then kept_by pred predCol i else Ok false) in
      if keep : bool then
        let* row := pick i cols in
        let* rest := block_rows n' (S i) vis snap pred predCol cols in
        Ok (row :: rest)
      else block_rows n' (S i) vis snap pred predCol cols
  end.

(** None when the zone map lets the segment be skipped. *)
Definition skip_block (pred : option RangePred) (k : nat) (s : Store) : res colErr bool :=
  match pred with
  | None => Ok false
  | Some p =>
      match st_segs s !! rp_Field p with
      | None => Ok false
      | Some l => let* seg := or_panic (l !! k) in Ok (skipForRange seg (rp_Op p) (rp_Bound p))
      end
  end.

Definition scan_block (snap : Z) (need : list bytes) (pred : option RangePred) (visField : bytes) (k : nat) (s : Store) : res colErr rows :=
  let* skip := skip_block pred k s in
  if skip : bool then Ok []
  else
    let* cols := columns need k s in
    let* predCol := match pred with None => Ok [] | Some p => predColumn (rp_Field p) k need cols s end in
    let* vis := or_panic (segs_of visField s !! k) in
    block_rows (Z.to_nat (sg_n vis)) 0 vis snap pred predCol cols.

Fixpoint scan_blocks (n k : nat) (snap : Z) (need : list bytes) (pred : option RangePred) (visField : bytes) (s : Store) : rows * res colErr unit :=
  match n with
  | O => ([], Ok tt)
  | S n' =>
      match scan_block snap need pred visField k s with
      | Ok rs => let '(rest, e) := scan_blocks n' (S k) snap need pred visField s in (rs ++ rest, e)
      | Err e => ([], Err e)
      | Panic => ([], Panic)
      end
  end.

Fixpoint buffer_rows (n i : nat) (snap : Z) (need : list bytes) (pred : option RangePred) (s : Store) : res colErr rows :=
  match n with
  | O => Ok []
  | S n' =>
      let* w := or_panic (st_bufWrite s !! i) in
      let* hidden := (if w >? snap then Ok true else let* d := or_panic (st_bufDel s !! i) in Ok (negb (d =? 0) && (d <=? snap))) in
      let* keep := (if hidden : bool then Ok false else kept_by pred (match pred with Some p => bufVals_of (rp_Field p) s | None => [] end) i) in
      if keep : bool then
        let* row := pick i (map (fun f => bufVals_of f s) need) in
        let* rest := buffer_rows n' (S i) snap need pred s in
        Ok (row :: rest)
      else buffer_rows n' (S i) snap need pred s
  end.

Definition scan (snap : Z) (need : list bytes) (pred : option RangePred) (s : Store) : rows * res colErr unit :=
  match need with
  | [] => ([], Ok tt)
  | _ =>
      match st_fields s with
      | [] => ([], Panic)
      | visField :: _ =>
          let '(rs, e) := scan_blocks (List.length (st_bounds s)) 0 snap need pred visField s in
          match e with
          | Ok _ =>
              match buffer_rows (List.length (st_bufRIDs s)) 0 snap need pred s with
              | Ok rest => (rs ++ rest, Ok tt)
              | Err e => (rs, Err e)
              | Panic => (rs, Panic)
              end
          | _ => (rs, e)
          end
      end
  end.

(** ** reconstruct.go *)

Fixpoint row_body (fields : list bytes) (row : list Value) (body : bytes) : bytes :=
  match fields, row with
  | f :: fields', v :: row' => row_body fields' row' (if is_null v then body else AppendValue f (ToRawValue v) body)
  | _, _ => body
  end.

(** The error of the scan is dropped. *)
Definition Reconstruct (snap : Z) (fields : list bytes) (pred : option RangePred) (s : Store) : res colErr (list bytes) :=
  match scan snap fields pred s with
  | (_, Panic) => Panic
  | (rs, _) => Ok (map (fun row => Build (row_body fields row [])) rs)
  end.

(** ** The log of rows

    What the store stands for: the documents in the order they came, each with the
    versions it appeared and went at, and the row that is live for a key. *)

Record arow := MkArow { ar_doc : bytes; ar_write : Z; ar_del : Z }.
Record Log := MkLog { lg_rows : list arow; lg_live : gmap bytes nat }.

Definition end_row (ver : Z) (r : arow) : arow := if ar_del r =? 0 then MkArow (ar_doc r) (ar_write r) ver else r.

Definition log_insert (doc : bytes) (ver : Z) (l : Log) : Log :=
  MkLog (lg_rows l ++ [MkArow doc ver 0])
    (if bool_decide (idKey doc = []) then lg_live l else <[idKey doc := List.length (lg_rows l)]> (lg_live l)).
Definition log_end (i : nat) (ver : Z) (l : Log) : Log := MkLog (alter (end_row ver) i (lg_rows l)) (lg_live l).

Definition log_update (old new : bytes) (ver : Z) (l : Log) : Log :=
  log_insert new ver (match lg_live l !! idKey old with Some i => log_end i ver l | None => l end).
Definition log_delete (doc : bytes) (ver : Z) (l : Log) : Log :=
  match lg_live l !! idKey doc with
  | Some i => let l1 := log_end i ver l in MkLog (lg_rows l1) (base.delete (idKey doc) (lg_live l1))
  | None => l
  end.
Definition log_rebuild (docs : list bytes) (ver : Z) : Log := fold_left (fun l d => log_insert d ver l) docs (MkLog [] ∅).

(** The rows a reader at snap sees, through the predicate. *)
Definition row_kept (snap : Z) (pred : option RangePred) (r : arow) : bool :=
  visible_at (ar_write r) (ar_del r) snap &&
  match pred with None => true | Some p => matches (rp_Op p) (rp_Bound p) (FromField (ar_doc r) (rp_Field p)) end.

Definition log_rows (snap : Z) (need : list bytes) (pred : option RangePred) (rs : list arow) : rows :=
  map (fun r => map (FromField (ar_doc r)) need) (List.filter (row_kept snap pred) rs).

(** ** The store as a log *)

Definition vals_of (f : bytes) (rs : list arow) : list Value := map (fun r => FromField (ar_doc r) f) rs.

Definition seg_of (f : bytes) (off : Z) (rs : list arow) : Segment :=
  buildSegment f (vals_of f rs) (seqZ off (blen rs)) (map ar_write rs) (map ar_del rs).

Fixpoint segs_spec (f : bytes) (off : Z) (blocks : list (list arow)) : list Segment :=
  match blocks with
  | [] => []
  | b :: bs => seg_of f off b :: segs_spec f (off + blen b) bs
  end.

Fixpoint bounds_spec (off : Z) (blocks : list (list arow)) : list segBound :=
  match blocks with
  | [] => []
  | b :: bs => MkSegBound off (blen b) :: bounds_spec (off + blen b) bs
  end.

Definition doc_ok (doc : bytes) : Prop := forall f, canonical (FromField doc f).

(** How the rows of the log lie in the segments and the buffer. *)
Record lays (s : Store) (l : Log) (blocks : list (list arow)) (buf : list arow) : Prop := Lays {
  ly_rows : lg_rows l = concat blocks ++ buf;
  ly_blocks : Forall (fun b => b <> [] /\ blen b <= SegmentSize) blocks;
  ly_buf : blen buf < SegmentSize;
  ly_segs : forall f, f ∈ st_fields s -> st_segs s !! f = Some (segs_spec f 0 blocks);
  ly_bounds : st_bounds s = bounds_spec 0 blocks;
  ly_vals : forall f, f ∈ st_fields s -> bufVals_of f s = vals_of f buf;
  ly_rids : st_bufRIDs s = seqZ (blen (concat blocks)) (blen buf);
  ly_write : st_bufWrite s = map ar_write buf;
  ly_del : st_bufDel s = map ar_del buf;
  ly_live : st_live s = Z.of_nat <$> lg_live l;
  ly_liverow : forall k i, lg_live l !! k = Some i -> (i < List.length (lg_rows l))%nat;
  ly_next : st_nextRID s = blen (lg_rows l);
  ly_docs : Forall (fun r => doc_ok (ar_doc r)) (lg_rows l);
  ly_small : blen (lg_rows l) < 2 ^ 62;
  ly_nodup : NoDup (st_fields s)
}.

Definition represents (s : Store) (l : Log) : Prop := exists blocks buf, lays s l blocks buf.

(** *** Lists of blocks *)

Lemma segs_spec_app f bs1 : forall off bs2, segs_spec f off (bs1 ++ bs2) = segs_spec f off bs1 ++ segs_spec f (off + blen (concat bs1)) bs2.
Proof.
  induction bs1 as [|b bs IH]; intros off bs2; cbn [segs_spec app concat]; [by rewrite Z.add_0_r|]. rewrite IH, blen_app. f_equal. f_equal. f_equal. lia.
Qed.

Lemma bounds_spec_app bs1 : forall off bs2, bounds_spec off (bs1 ++ bs2) = bounds_spec off bs1 ++ bounds_spec (off + blen (concat bs1)) bs2.
Proof.
  induction bs1 as [|b bs IH]; intros off bs2; cbn [bounds_spec app concat]; [by rewrite Z.add_0_r|]. rewrite IH, blen_app. f_equal. f_equal. f_equal. lia.
Qed.

Lemma length_segs_spec f bs : forall off, List.length (segs_spec f off bs) = List.length bs.
Proof. induction bs as [|b bs IH]; intros off; cbn; [done|]. by rewrite IH. Qed.

Lemma length_bounds_spec bs : forall off, List.length (bounds_spec off bs) = List.length bs.
Proof. induction bs as [|b bs IH]; intros off; cbn; [done|]. by rewrite IH. Qed.

Lemma segs_spec_lookup f bs1 b bs2 off : segs_spec f off (bs1 ++ b :: bs2) !! List.length bs1 = Some (seg_of f (off + blen (concat bs1)) b).
Proof. rewrite segs_spec_app. rewrite <- (length_segs_spec f bs1 off). by apply list_lookup_middle. Qed.

(** *** New and flushing *)

Lemma no_segs_lookup fields f : f ∈ fields -> no_segs fields !! f = Some [].
Proof.
  intros Hf. unfold no_segs. induction fields as [|g fields IH]; [by apply elem_of_nil in Hf|]. cbn [map list_to_map foldr].
  destruct (decide (f = g)) as [->|Hne]; [by rewrite lookup_insert_eq|]. rewrite lookup_insert_ne by done. apply IH. by apply elem_of_cons in Hf as [|].
Qed.

Lemma no_vals_lookup fields f : default [] (no_vals fields !! f) = [].
Proof.
  unfold no_vals. induction fields as [|g fields IH]; [done|]. cbn [map list_to_map foldr].
  destruct (decide (f = g)) as [->|Hne]; [by rewrite lookup_insert_eq|]. by rewrite lookup_insert_ne.
Qed.

Lemma empty_lays mode fields live : NoDup fields -> live = ∅ ->
  lays (MkStore mode fields (no_segs fields) [] (no_vals fields) [] [] [] live 0) (MkLog [] ∅) [] [].
Proof.
  intros Hnd ->. split; try done.
  - intros f Hf. by apply no_segs_lookup.
  - intros f Hf. unfold bufVals_of. cbn [st_bufVals]. by rewrite no_vals_lookup.
Qed.

Lemma flush_fields_spec fs : forall rids write del segs vals segs' vals', NoDup fs ->
  flush_fields fs rids write del segs vals = (segs', vals') ->
  (forall f, f ∈ fs -> segs' !! f = Some (default [] (segs !! f) ++ [buildSegment f (default [] (vals !! f)) rids write del])) /\
  (forall f, f ∈ fs -> vals' !! f = Some []) /\
  (forall f, f ∉ fs -> segs' !! f = segs !! f /\ vals' !! f = vals !! f).
Proof.
  induction fs as [|g fs IH]; intros rids write del segs vals segs' vals' Hnd E; cbn [flush_fields] in E.
  - injection E as <- <-. split_and!; [by intros f Hf%elem_of_nil..|done].
  - apply NoDup_cons in Hnd as [Hg Hnd]. apply IH in E as (E1 & E2 & E3); [|done]. destruct (E3 g Hg) as [G1 G2]. rewrite lookup_insert_eq in G1. rewrite lookup_insert_eq in G2. split_and!.
    + intros f [->|Hf]%elem_of_cons; [done|]. assert (f <> g) by (by intros ->). rewrite (E1 f Hf), !lookup_insert_ne by done. done.
    + intros f [->|Hf]%elem_of_cons; [done|]. by apply E2.
    + intros f [Hne Hf]%not_elem_of_cons. destruct (E3 f Hf) as [-> ->]. by rewrite !lookup_insert_ne.
Qed.

Lemma seqZ_snoc m n : 0 <= n -> seqZ m n ++ [m + n] = seqZ m (n + 1).
Proof. intros Hn. rewrite (seqZ_app m n 1) by lia. done. Qed.

(** A buffer that may be full. *)
Lemma flush_lays s l blocks buf :
  lg_rows l = concat blocks ++ buf -> Forall (fun b => b <> [] /\ blen b <= SegmentSize) blocks -> blen buf <= SegmentSize ->
  (forall f, f ∈ st_fields s -> st_segs s !! f = Some (segs_spec f 0 blocks)) -> st_bounds s = bounds_spec 0 blocks ->
  (forall f, f ∈ st_fields s -> bufVals_of f s = vals_of f buf) -> st_bufRIDs s = seqZ (blen (concat blocks)) (blen buf) ->
  st_bufWrite s = map ar_write buf -> st_bufDel s = map ar_del buf -> st_live s = Z.of_nat <$> lg_live l ->
  (forall k i, lg_live l !! k = Some i -> (i < List.length (lg_rows l))%nat) -> st_nextRID s = blen (lg_rows l) ->
  Forall (fun r => doc_ok (ar_doc r)) (lg_rows l) -> blen (lg_rows l) < 2 ^ 62 -> NoDup (st_fields s) ->
  represents (flushLocked s) l.
Proof.
  intros H1 H2 H3 H4 H5 H6 H7 H8 H9 H10 H11 H12 H13 H14 H15. unfold flushLocked. destruct buf as [|r0 buf'] eqn:Eb.
  - rewrite H7. change (blen (@nil arow)) with 0. cbn [seqZ]. exists blocks, []. split; try done.
  - rewrite <- Eb in *. assert (Hpos : 0 < blen buf) by (rewrite Eb, blen_cons; pose proof (blen_nonneg buf'); lia).
    assert (Er : st_bufRIDs s = blen (concat blocks) :: seqZ (Z.succ (blen (concat blocks))) (Z.pred (blen buf))) by (rewrite H7; by apply seqZ_cons).
    rewrite Er. rewrite <- Er. destruct (flush_fields _ _ _ _ _ _) as [segs vals] eqn:EF.
    destruct (flush_fields_spec _ _ _ _ _ _ _ _ H15 EF) as (E1 & E2 & _).
    assert (Elen : blen (st_bufRIDs s) = blen buf) by (rewrite H7; unfold blen; rewrite length_seqZ; lia).
    exists (blocks ++ [buf]), []. split; cbn [st_fields st_segs st_bounds st_bufRIDs st_bufWrite st_bufDel st_live st_nextRID]; try done.
    + rewrite H1, concat_app. cbn [concat]. by rewrite !app_nil_r.
    + apply Forall_app. split; [done|]. constructor; [|constructor]. split; [by rewrite Eb|done].
    + intros f Hf. rewrite (E1 f Hf), (H4 f Hf). cbn [default from_option id]. rewrite segs_spec_app. cbn [segs_spec]. unfold seg_of. do 3 f_equal.
      fold (bufVals_of f s). by rewrite (H6 f Hf), H7, H8, H9.
    + rewrite H5, Elen, bounds_spec_app. done.
    + intros f Hf. unfold bufVals_of. cbn [st_bufVals]. by rewrite (E2 f Hf).
Qed.

Lemma flush_represents s l : represents s l -> represents (flushLocked s) l.
Proof. intros (blocks & buf & []). eapply flush_lays; try done. lia. Qed.

(** *** Inserting *)

Lemma project_fields_spec fs doc : forall vals, NoDup fs ->
  (forall f, f ∈ fs -> default [] (project_fields fs doc vals !! f) = default [] (vals !! f) ++ [FromField doc f]) /\
  (forall f, f ∉ fs -> project_fields fs doc vals !! f = vals !! f).
Proof.
  induction fs as [|g fs IH]; intros vals Hnd; cbn [project_fields]; [split; [by intros f Hf%elem_of_nil|done]|].
  apply NoDup_cons in Hnd as [Hg Hnd]. destruct (IH (<[g := default [] (vals !! g) ++ [FromField doc g]]> vals) Hnd) as [E1 E2]. split.
  - intros f [->|Hf]%elem_of_cons; [by rewrite E2, lookup_insert_eq|]. assert (f <> g) by (by intros ->). rewrite E1, lookup_insert_ne by done. done.
  - intros f [Hne Hf]%not_elem_of_cons. rewrite E2 by done. by rewrite lookup_insert_ne.
Qed.

Lemma insert_represents s l doc ver : represents s l -> doc_ok doc -> blen (lg_rows l) + 1 < 2 ^ 62 ->
  represents (Insert doc ver s) (log_insert doc ver l).
Proof.
  intros (blocks & buf & L) Hd Hsmall. unfold Insert, insertLocked. cbv zeta. cbn [st_bufRIDs].
  set (s1 := MkStore _ _ _ _ _ _ _ _ _ _). set (l1 := log_insert doc ver l). destruct L.
  assert (Hrows : lg_rows l1 = concat blocks ++ (buf ++ [MkArow doc ver 0])) by (unfold l1, log_insert; cbn [lg_rows]; rewrite ly_rows0; by rewrite <- app_assoc).
  assert (Hn : blen (lg_rows l) = blen (concat blocks) + blen buf) by (rewrite ly_rows0; apply blen_app).
  assert (Hb1 : blen (buf ++ [MkArow doc ver 0]) = blen buf + 1) by (rewrite blen_app; done).
  pose proof (blen_nonneg buf) as Hb0. destruct (project_fields_spec (st_fields s) doc (st_bufVals s) ly_nodup0) as [P1 _].
  assert (Hr : st_bufRIDs s1 = seqZ (blen (concat blocks)) (blen (buf ++ [MkArow doc ver 0]))).
  { cbn [s1 st_bufRIDs]. rewrite ly_rids0, ly_next0, Hn, Hb1. by apply seqZ_snoc. }
  assert (Hv : forall f, f ∈ st_fields s1 -> bufVals_of f s1 = vals_of f (buf ++ [MkArow doc ver 0])).
  { intros f Hf. unfold bufVals_of, vals_of. cbn [s1 st_bufVals]. rewrite (P1 f Hf), map_app. f_equal. by apply ly_vals0. }
  assert (Hw : st_bufWrite s1 = map ar_write (buf ++ [MkArow doc ver 0])) by (cbn [s1 st_bufWrite]; rewrite map_app; by f_equal).
  assert (He : st_bufDel s1 = map ar_del (buf ++ [MkArow doc ver 0])) by (cbn [s1 st_bufDel]; rewrite map_app; by f_equal).
  assert (Hl : st_live s1 = Z.of_nat <$> lg_live l1).
  { cbn [s1 l1 log_insert st_live lg_live]. case_bool_decide; [done|]. rewrite fmap_insert, <- ly_live0, ly_next0. done. }
  assert (Hlr : forall k i, lg_live l1 !! k = Some i -> (i < List.length (lg_rows l1))%nat).
  { intros k i. unfold l1, log_insert. cbn [lg_live lg_rows]. rewrite length_app. cbn [List.length]. case_bool_decide.
    - intros Hk. apply ly_liverow0 in Hk. lia.
    - destruct (decide (k = idKey doc)) as [->|Hne]; [rewrite lookup_insert_eq; intros [= <-]; lia|]. rewrite lookup_insert_ne by done. intros Hk. apply ly_liverow0 in Hk. lia. }
  assert (Hnx : st_nextRID s1 = blen (lg_rows l1)).
  { cbn [s1 st_nextRID]. rewrite ly_next0, wrap_small by (unfold in_u; pose proof (blen_nonneg (lg_rows l)); lia). unfold l1, log_insert. cbn [lg_rows]. by rewrite blen_app. }
  assert (Hdocs : Forall (fun r => doc_ok (ar_doc r)) (lg_rows l1)) by (unfold l1, log_insert; cbn [lg_rows]; apply Forall_app; split; [done|]; by constructor).
  assert (Hsm : blen (lg_rows l1) < 2 ^ 62) by (unfold l1, log_insert; cbn [lg_rows]; rewrite blen_app; done).
  assert (Hbl : blen (st_bufRIDs s ++ [st_nextRID s]) = blen buf + 1).
  { rewrite blen_app, ly_rids0. unfold blen at 1. rewrite length_seqZ. change (blen [st_nextRID s]) with 1. lia. }
  rewrite Hbl. rewrite Z.geb_leb. destruct (Z.leb_spec SegmentSize (blen buf + 1)).
  - apply (flush_lays s1 l1 blocks (buf ++ [MkArow doc ver 0])); try done. rewrite Hb1. lia.
  - exists blocks, (buf ++ [MkArow doc ver 0]). split; try done. lia.
Qed.

(** *** Ending a row *)

Lemma bounds_spec_search i (blocks : list (list arow)) : forall off, off + blen (concat blocks) < 2 ^ 62 -> 0 <= off <= i -> i < off + blen (concat blocks) -> Forall (fun b => b <> []) blocks ->
  exists bs1 b bs2, blocks = bs1 ++ b :: bs2 /\ off + blen (concat bs1) <= i < off + blen (concat bs1) + blen b.
Proof.
  induction blocks as [|b bs IH]; intros off Hsm Hoff Hi Hne; cbn [concat] in *; [change (blen (@nil arow)) with 0 in Hi; lia|]. rewrite blen_app in *.
  apply Forall_cons in Hne as [Hb Hne]. pose proof (blen_nonneg b). destruct (Z.lt_ge_cases i (off + blen b)).
  - exists [], b, bs. split; [done|]. cbn [concat]. change (blen (@nil arow)) with 0. lia.
  - destruct (IH (off + blen b)) as (bs1 & c & bs2 & -> & Hc); [lia|lia|lia|done|]. exists (b :: bs1), c, bs2. split; [done|]. cbn [concat]. rewrite blen_app. lia.
Qed.

Lemma bounds_spec_past blocks i : forall off, 0 <= off -> off + blen (concat blocks) <= i -> i < 2 ^ 62 -> Forall (fun b => (u64 (sb_first b + sb_n b) >? i) = false) (bounds_spec off blocks).
Proof.
  induction blocks as [|b bs IH]; intros off Hoff Hi Hsm; cbn [bounds_spec concat] in *; [constructor|]. rewrite blen_app in Hi. pose proof (blen_nonneg b). pose proof (blen_nonneg (concat bs)).
  constructor; [|apply IH; lia]. cbn [sb_first sb_n]. rewrite wrap_small by (unfold in_u; lia). rewrite Z.gtb_ltb. apply Z.ltb_ge. lia.
Qed.

Lemma bounds_spec_before blocks i : forall off, 0 <= i < off -> off + blen (concat blocks) < 2 ^ 62 -> Forall (fun b => (u64 (sb_first b + sb_n b) >? i) = true) (bounds_spec off blocks).
Proof.
  induction blocks as [|b bs IH]; intros off Hi Hsm; cbn [bounds_spec concat] in *; [constructor|]. rewrite blen_app in Hsm. pose proof (blen_nonneg b). pose proof (blen_nonneg (concat bs)).
  constructor; [|apply IH; lia]. cbn [sb_first sb_n]. rewrite wrap_small by (unfold in_u; lia). rewrite Z.gtb_ltb. apply Z.ltb_lt. lia.
Qed.

Lemma locate_spec s bs1 b bs2 i : st_bounds s = bounds_spec 0 (bs1 ++ b :: bs2) -> blen (concat (bs1 ++ b :: bs2)) < 2 ^ 62 ->
  blen (concat bs1) <= i < blen (concat bs1) + blen b ->
  locateBound i s = Some (List.length bs1) /\ st_bounds s !! List.length bs1 = Some (MkSegBound (blen (concat bs1)) (blen b)).
Proof.
  intros Hb Hsm Hi. rewrite concat_app in Hsm. cbn [concat] in Hsm. rewrite !blen_app in Hsm. pose proof (blen_nonneg (concat bs2)). pose proof (blen_nonneg (concat bs1)).
  rewrite bounds_spec_app in Hb. cbn [bounds_spec] in Hb. rewrite Z.add_0_l in Hb.
  assert (Hk : st_bounds s !! List.length bs1 = Some (MkSegBound (blen (concat bs1)) (blen b))).
  { rewrite Hb. rewrite <- (length_bounds_spec bs1 0). by apply list_lookup_middle. }
  assert (E : sort_Search (List.length (st_bounds s)) (fun j => let b := nth j (st_bounds s) (MkSegBound 0 0) in u64 (sb_first b + sb_n b) >? i) = List.length bs1).
  { rewrite Hb. etransitivity; [|apply (length_bounds_spec bs1 0)].
    apply (sort_Search_app (bounds_spec 0 bs1) (MkSegBound (blen (concat bs1)) (blen b) :: bounds_spec (blen (concat bs1) + blen b) bs2) (MkSegBound 0 0) (fun b => u64 (sb_first b + sb_n b) >? i)).
    - apply bounds_spec_past; lia.
    - constructor; [|apply bounds_spec_before; lia]. cbn [sb_first sb_n]. rewrite wrap_small by (unfold in_u; lia). rewrite Z.gtb_ltb. apply Z.ltb_lt. lia. }
  cbv zeta in E. unfold locateBound. rewrite E, Hk. cbn [sb_first]. by rewrite Z.geb_leb, (proj2 (Z.leb_le _ _)) by lia.
Qed.

Lemma vals_of_end f j ver b : vals_of f (alter (end_row ver) j b) = vals_of f b.
Proof.
  unfold vals_of. revert j. induction b as [|r b IH]; intros [|j]; cbn; try done.
  - f_equal. unfold end_row. by destruct (ar_del r =? 0).
  - f_equal. apply IH.
Qed.

Lemma write_end j ver b : map ar_write (alter (end_row ver) j b) = map ar_write b.
Proof.
  revert j. induction b as [|r b IH]; intros [|j]; cbn; try done.
  - f_equal. unfold end_row. by destruct (ar_del r =? 0).
  - f_equal. apply IH.
Qed.

Lemma del_end j ver b : map ar_del (alter (end_row ver) j b) = alter (fun d => if d =? 0 then ver else d) j (map ar_del b).
Proof.
  revert j. induction b as [|r b IH]; intros [|j]; cbn; try done.
  - f_equal. unfold end_row. by destruct (ar_del r =? 0).
  - f_equal. apply IH.
Qed.

Lemma blen_map {A B} (g : A -> B) (l : list A) : blen (map g l) = blen l.
Proof. unfold blen. by rewrite length_map. Qed.

Lemma blen_alter {A} (g : A -> A) i (l : list A) : blen (alter g i l) = blen l.
Proof. unfold blen. by rewrite length_alter. Qed.

Lemma stamp_del_ok off ver b : 0 <= off < blen b -> stamp_del off ver (map ar_del b) = Ok (map ar_del (alter (end_row ver) (Z.to_nat off) b)).
Proof.
  intros Ho. unfold stamp_del. rewrite blen_map, Z.geb_leb, (proj2 (Z.leb_gt _ _)), (proj2 (Z.ltb_ge _ _)) by lia. by rewrite del_end.
Qed.

Lemma seg_of_end f off j ver b : set_sg_del (map ar_del (alter (end_row ver) j b)) (seg_of f off b) = seg_of f off (alter (end_row ver) j b).
Proof.
  unfold seg_of. rewrite vals_of_end, write_end, blen_alter. unfold buildSegment. by destruct (computeZone (vals_of f b)) as [[h mn] mx].
Qed.

Lemma alter_middle {A} (g : A -> A) (a : list A) x b : alter g (List.length a) (a ++ x :: b) = a ++ g x :: b.
Proof. induction a as [|y a IH]; cbn; [done|]. f_equal. apply IH. Qed.

Lemma tombstone_fields_spec fs bs1 b bs2 off ver : forall segs, NoDup fs -> 0 <= off < blen b ->
  (forall f, f ∈ fs -> segs !! f = Some (segs_spec f 0 (bs1 ++ b :: bs2))) ->
  exists segs', tombstone_fields fs (List.length bs1) off ver segs = Ok segs' /\
    (forall f, f ∈ fs -> segs' !! f = Some (segs_spec f 0 (bs1 ++ alter (end_row ver) (Z.to_nat off) b :: bs2))) /\
    (forall f, f ∉ fs -> segs' !! f = segs !! f).
Proof.
  induction fs as [|g fs IH]; intros segs Hnd Ho Hs; cbn [tombstone_fields].
  - exists segs. split; [done|]. split; [by intros f Hf%elem_of_nil|done].
  - apply NoDup_cons in Hnd as [Hg Hnd]. rewrite (Hs g) by (by left). cbv zeta. cbn [default from_option id].
    rewrite segs_spec_lookup. cbn [or_panic res_bind]. rewrite Z.add_0_l.
    assert (Hdel : sg_del (seg_of g (blen (concat bs1)) b) = map ar_del b) by (unfold seg_of, buildSegment; by destruct (computeZone _) as [[? ?] ?]).
    rewrite Hdel, stamp_del_ok by done. cbn [res_bind]. rewrite seg_of_end.
    set (segs1 := <[g := _]> segs). destruct (IH segs1 Hnd Ho) as (segs' & E & E1 & E2).
    { intros f Hf. unfold segs1. assert (g <> f) by (by intros ->). rewrite lookup_insert_ne by done. apply Hs. by right. }
    exists segs'. split; [exact E|]. split.
    + intros f [->|Hf]%elem_of_cons; [|by apply E1]. rewrite E2 by done. unfold segs1. rewrite lookup_insert_eq. f_equal.
      rewrite !segs_spec_app. cbn [segs_spec]. rewrite blen_alter, Z.add_0_l. rewrite <- (length_segs_spec g bs1 0) at 1. by rewrite insert_app_r_alt, Nat.sub_diag by lia.
    + intros f [Hne Hf]%not_elem_of_cons. rewrite E2 by done. unfold segs1. by rewrite lookup_insert_ne.
Qed.

Lemma concat_alter {A} (g : A -> A) (bs1 : list (list A)) (b : list A) bs2 off : (off < List.length b)%nat ->
  concat (bs1 ++ alter g off b :: bs2) = alter g (List.length (concat bs1) + off)%nat (concat (bs1 ++ b :: bs2)).
Proof.
  intros Ho. rewrite !concat_app. cbn [concat]. rewrite (alter_app_r_alt g (concat bs1)) by lia. f_equal. replace (List.length (concat bs1) + off - List.length (concat bs1))%nat with off by lia.
  by rewrite alter_app_l.
Qed.

Lemma end_represents s l i ver : represents s l -> (i < List.length (lg_rows l))%nat ->
  exists s', tombstoneLocked (Z.of_nat i) ver s = Ok s' /\ represents s' (log_end i ver l) /\ st_live s' = st_live s /\ st_fields s' = st_fields s.
Proof.
  intros (blocks & buf & L) Hi. pose proof L as L'. destruct L.
  assert (Hn : List.length (lg_rows l) = (List.length (concat blocks) + List.length buf)%nat) by (rewrite ly_rows0; apply length_app).
  assert (Hdocs : forall rs, rs = alter (end_row ver) i (lg_rows l) -> Forall (fun r => doc_ok (ar_doc r)) rs).
  { intros rs ->. apply Forall_alter; [done|]. intros r _ Hr. unfold end_row. by destruct (ar_del r =? 0). }
  assert (Hlive : forall k j, lg_live l !! k = Some j -> (j < List.length (alter (end_row ver) i (lg_rows l)))%nat) by (intros k j Hk; rewrite length_alter; by eapply ly_liverow0).
  destruct (decide (i < List.length (concat blocks))%nat) as [Hflushed|Hbuf].
  - destruct (bounds_spec_search (Z.of_nat i) blocks 0) as (bs1 & b & bs2 & Eb & Hoff).
    { unfold blen in *. lia. } { lia. } { unfold blen. lia. } { eapply Forall_impl; [exact ly_blocks0|]. by intros ? []. }
    assert (Hsm : blen (concat (bs1 ++ b :: bs2)) < 2 ^ 62) by (rewrite <- Eb; unfold blen in *; lia).
    destruct (locate_spec s bs1 b bs2 (Z.of_nat i)) as [Hloc Hbound]; [by rewrite <- Eb|done|done|].
    set (off := Z.of_nat i - blen (concat bs1)). assert (Ho : 0 <= off < blen b) by (unfold off; lia). pose proof (blen_nonneg (concat bs1)) as Hc0.
    destruct (tombstone_fields_spec (st_fields s) bs1 b bs2 off ver (st_segs s) ly_nodup0 Ho) as (segs' & E & E1 & E2).
    { intros f Hf. rewrite <- Eb. by apply ly_segs0. }
    assert (Et : tombstoneLocked (Z.of_nat i) ver s = tombstone_flushed (Z.of_nat i) ver s).
    { unfold tombstoneLocked. rewrite ly_rids0. destruct (decide (buf = [])) as [->|Hne]; [done|].
      rewrite (seqZ_cons _ (blen buf)) by (destruct buf; [done|unfold blen; cbn [List.length]; lia]).
      rewrite Z.geb_leb, (proj2 (Z.leb_gt _ _)) by (unfold blen; lia). done. }
    rewrite Et. unfold tombstone_flushed. rewrite Hloc, Hbound. cbn [or_panic res_bind sb_first].
    assert (Eo : to_i64 (u64 (Z.of_nat i - blen (concat bs1))) = off).
    { fold off. rewrite concat_app in Hsm. cbn [concat] in Hsm. rewrite !blen_app in Hsm. pose proof (blen_nonneg (concat bs2)). rewrite wrap_small, to_i64_small by (unfold in_u; lia). done. }
    rewrite Eo, E. cbn [res_bind]. eexists. split; [reflexivity|]. cbn [st_live st_fields]. split; [|done].
    set (b' := alter (end_row ver) (Z.to_nat off) b).
    assert (Ec : concat (bs1 ++ b' :: bs2) = alter (end_row ver) i (concat blocks)).
    { unfold b'. rewrite concat_alter by (unfold blen in Ho; lia). rewrite Eb. f_equal. unfold off, blen in *. lia. }
    exists (bs1 ++ b' :: bs2), buf. split; cbn [st_fields st_segs st_bounds st_bufRIDs st_bufWrite st_bufDel st_live st_nextRID log_end lg_rows lg_live]; try done.
    + rewrite Ec, ly_rows0. by apply alter_app_l.
    + rewrite Eb in ly_blocks0. apply Forall_app in ly_blocks0 as [B1 [[B2 B3] B4]%Forall_cons]. apply Forall_app. split; [done|]. constructor; [|done].
      unfold b'. rewrite blen_alter. split; [|done]. intros Hnil. apply B2. destruct b; [done|]. apply (f_equal List.length) in Hnil. by rewrite length_alter in Hnil.
    + rewrite ly_bounds0, Eb, !bounds_spec_app. cbn [bounds_spec]. unfold b'. by rewrite blen_alter.
    + rewrite Ec, blen_alter. done.
    + by rewrite blen_alter.
    + by apply Hdocs.
    + by rewrite blen_alter.
  - assert (Hb : 0 < blen buf) by (unfold blen; lia). set (off := Z.of_nat i - blen (concat blocks)).
    assert (Ho : 0 <= off < blen buf) by (unfold off, blen; lia).
    unfold tombstoneLocked. rewrite ly_rids0. rewrite (seqZ_cons _ (blen buf)) by done. rewrite Z.geb_leb, (proj2 (Z.leb_le _ _)) by (unfold blen; lia).
    assert (Eo : to_i64 (u64 (Z.of_nat i - blen (concat blocks))) = off).
    { fold off. rewrite wrap_small, to_i64_small by (unfold in_u; unfold blen in *; lia). done. }
    rewrite Eo, ly_del0, stamp_del_ok by done. cbn [res_bind]. eexists. split; [reflexivity|]. cbn [st_live st_fields]. split; [|done].
    exists blocks, (alter (end_row ver) (Z.to_nat off) buf).
    split; cbn [st_fields st_segs st_bounds st_bufRIDs st_bufWrite st_bufDel st_live st_nextRID log_end lg_rows lg_live]; try done.
    + rewrite ly_rows0, alter_app_r_alt by lia. do 2 f_equal. unfold off, blen. lia.
    + by rewrite blen_alter.
    + intros f Hf. unfold bufVals_of. cbn [st_bufVals]. rewrite vals_of_end. by apply ly_vals0.
    + rewrite blen_alter. by rewrite <- (seqZ_cons _ (blen buf)).
    + by rewrite write_end.
    + by rewrite blen_alter.
    + by apply Hdocs.
    + by rewrite blen_alter.
Qed.

(** *** The operations *)

Lemma flush_fields_st s : st_fields (flushLocked s) = st_fields s.
Proof. unfold flushLocked. destruct (st_bufRIDs s); [done|]. by destruct (flush_fields _ _ _ _ _ _). Qed.

Lemma insert_fields doc ver s : st_fields (Insert doc ver s) = st_fields s.
Proof. unfold Insert, insertLocked. cbv zeta. destruct (_ >=? _); [by rewrite flush_fields_st|done]. Qed.

Lemma update_represents s l old new ver : represents s l -> doc_ok new -> blen (lg_rows l) + 1 < 2 ^ 62 ->
  exists s', Update old new ver s = Ok s' /\ represents s' (log_update old new ver l) /\ st_fields s' = st_fields s.
Proof.
  intros Hr Hd Hsm. pose proof Hr as (blocks & buf & L). unfold Update, log_update. rewrite (ly_live _ _ _ _ L), lookup_fmap.
  destruct (lg_live l !! idKey old) as [i|] eqn:Ei; cbn [fmap option_fmap option_map].
  - destruct (end_represents s l i ver Hr) as (s1 & E & R1 & E1 & E2); [by eapply ly_liverow|]. rewrite E. cbn [res_bind].
    eexists. split; [reflexivity|]. split; [|rewrite <- E2; apply insert_fields]. apply insert_represents; [done|done|]. unfold log_end. cbn [lg_rows]. by rewrite blen_alter.
  - cbn [res_bind]. eexists. split; [reflexivity|]. split; [by apply insert_represents|apply insert_fields].
Qed.

Lemma delete_represents s l doc ver : represents s l ->
  exists s', Delete doc ver s = Ok s' /\ represents s' (log_delete doc ver l) /\ st_fields s' = st_fields s.
Proof.
  intros Hr. pose proof Hr as (blocks & buf & L). unfold Delete, log_delete. cbv zeta. rewrite (ly_live _ _ _ _ L), lookup_fmap.
  destruct (lg_live l !! idKey doc) as [i|] eqn:Ei; cbn [fmap option_fmap option_map]; [|by exists s].
  destruct (end_represents s l i ver Hr) as (s1 & E & (blocks1 & buf1 & L1) & E1 & E2); [by eapply ly_liverow|]. rewrite E. cbn [res_bind].
  eexists. split; [reflexivity|]. split; [|done]. exists blocks1, buf1.
  destruct L1. split; cbn [set_live st_fields st_segs st_bounds st_bufRIDs st_bufWrite st_bufDel st_live st_nextRID lg_rows lg_live]; try done.
  - rewrite ly_live0. by rewrite fmap_delete.
  - intros k j Hk. apply lookup_delete_Some in Hk as [_ Hk]. by eapply ly_liverow0.
Qed.

Lemma rebuild_represents docs ver s : NoDup (st_fields s) -> Forall doc_ok docs -> blen docs < 2 ^ 62 ->
  represents (Rebuild docs ver s) (log_rebuild docs ver) /\ st_fields (Rebuild docs ver s) = st_fields s.
Proof.
  intros Hnd Hd Hsm. unfold Rebuild, log_rebuild. set (s0 := MkStore _ _ _ _ _ _ _ _ _ _).
  assert (H0 : represents s0 (MkLog [] ∅)) by (exists [], []; by apply empty_lays).
  assert (H : forall ds t l, represents t l -> Forall doc_ok ds -> blen (lg_rows l) + blen ds < 2 ^ 62 ->
    represents (fold_left (fun s d => insertLocked (idKey d) d ver s) ds t) (fold_left (fun l d => log_insert d ver l) ds l) /\
    st_fields (fold_left (fun s d => insertLocked (idKey d) d ver s) ds t) = st_fields t).
  { induction ds as [|d ds IH]; intros t l Ht Hds Hl; cbn [fold_left]; [done|]. apply Forall_cons in Hds as [Hd1 Hds]. rewrite blen_cons in Hl. pose proof (blen_nonneg ds).
    change (insertLocked (idKey d) d ver t) with (Insert d ver t). destruct (IH (Insert d ver t) (log_insert d ver l)) as [I1 I2].
    - apply insert_represents; [done|done|lia].
    - done.
    - unfold log_insert. cbn [lg_rows]. rewrite blen_app. change (blen [MkArow d ver 0]) with 1. lia.
    - split; [exact I1|]. rewrite I2. apply insert_fields. }
  destruct (H docs s0 (MkLog [] ∅) H0 Hd) as [H1 H2]; [change (blen (lg_rows (MkLog [] ∅))) with 0; lia|]. split; [by apply flush_represents|]. by rewrite flush_fields_st.
Qed.

(** ** The scan *)

Definition block_at (s : Store) (k : nat) (b : list arow) : Prop :=
  Forall (fun r => doc_ok (ar_doc r)) b /\ blen b <= SegmentSize /\
  forall f, f ∈ st_fields s -> exists l off, st_segs s !! f = Some l /\ l !! k = Some (seg_of f off b).

Lemma seg_values f off b : Forall (fun r => doc_ok (ar_doc r)) b -> blen b <= SegmentSize -> Values (seg_of f off b) = Ok (vals_of f b).
Proof.
  intros Hd Hs. unfold Values, seg_of, buildSegment. destruct (computeZone _) as [[? ?] ?]. cbn [sg_enc]. apply DecodeColumn_Encode.
  - apply Forall_map. eapply Forall_impl; [exact Hd|]. intros r Hr. apply Hr.
  - unfold slice_fits, vals_of. rewrite blen_map. unfold SegmentSize in Hs. lia.
Qed.

Lemma block_values s k b f : block_at s k b -> f ∈ st_fields s ->
  exists seg, or_panic (E:=colErr) (segs_of f s !! k) = Ok seg /\ Values seg = Ok (vals_of f b) /\ exists off, seg = seg_of f off b.
Proof.
  intros (H1 & H2 & H3) Hf. destruct (H3 f Hf) as (l & off & E1 & E2). exists (seg_of f off b). unfold segs_of. rewrite E1. cbn [default from_option id]. rewrite E2.
  split; [done|]. split; [by apply seg_values|by exists off].
Qed.

Lemma columns_ok s k b need : block_at s k b -> (forall f, f ∈ need -> f ∈ st_fields s) -> columns need k s = Ok (map (fun f => vals_of f b) need).
Proof.
  intros Hb. induction need as [|f need IH]; intros Hn; [done|]. cbn [columns map].
  destruct (block_values s k b f Hb (Hn f (list_elem_of_here _ _))) as (seg & -> & E & _). cbn [res_bind]. rewrite E. cbn [res_bind].
  rewrite IH by (intros g Hg; apply Hn; by right). done.
Qed.

Lemma predColumn_ok s k b field need : block_at s k b -> field ∈ st_fields s ->
  predColumn field k need (map (fun f => vals_of f b) need) s = Ok (vals_of field b).
Proof.
  intros Hb Hf. destruct (block_values s k b field Hb Hf) as (seg & E1 & E2 & _). induction need as [|f need IH]; cbn [predColumn map].
  - by rewrite E1.
  - case_bool_decide; [by subst|]. apply IH.
Qed.

Lemma pick_ok (b : list arow) i r need : b !! i = Some r -> pick i (map (fun f => vals_of f b) need) = Ok (map (FromField (ar_doc r)) need).
Proof.
  intros Hr. induction need as [|f need IH]; [done|]. cbn [map pick]. unfold vals_of at 1. rewrite list_lookup_fmap, Hr. cbn [fmap option_fmap option_map or_panic res_bind]. by rewrite IH.
Qed.

Lemma kept_ok pred (b : list arow) i r : b !! i = Some r ->
  kept_by pred (match pred with Some p => vals_of (rp_Field p) b | None => [] end) i =
  Ok (match pred with None => true | Some p => matches (rp_Op p) (rp_Bound p) (FromField (ar_doc r) (rp_Field p)) end).
Proof.
  intros Hr. unfold kept_by. destruct pred as [p|]; [|done]. unfold vals_of. rewrite list_lookup_fmap, Hr. done.
Qed.

Lemma visible_ok f off b i r snap : b !! i = Some r -> visible (seg_of f off b) i snap = Ok (visible_at (ar_write r) (ar_del r) snap).
Proof.
  intros Hr. unfold visible, seg_of, buildSegment. destruct (computeZone _) as [[? ?] ?]. cbn [sg_write sg_del].
  rewrite !list_lookup_fmap, Hr. cbn [fmap option_fmap option_map or_panic res_bind]. unfold visible_at. by destruct (ar_write r >? snap).
Qed.

Lemma log_rows_cons snap need pred r rs :
  log_rows snap need pred (r :: rs) = (if row_kept snap pred r then [map (FromField (ar_doc r)) need] else []) ++ log_rows snap need pred rs.
Proof. unfold log_rows. cbn [List.filter]. by destruct (row_kept snap pred r). Qed.

Lemma log_rows_app snap need pred rs rs' : log_rows snap need pred (rs ++ rs') = log_rows snap need pred rs ++ log_rows snap need pred rs'.
Proof. induction rs as [|r rs IH]; [done|]. cbn [app]. by rewrite !log_rows_cons, IH, app_assoc. Qed.

Lemma block_rows_ok f off b snap pred need : forall n i, (i + n = List.length b)%nat ->
  block_rows n i (seg_of f off b) snap pred (match pred with Some p => vals_of (rp_Field p) b | None => [] end) (map (fun f => vals_of f b) need) =
  Ok (log_rows snap need pred (drop i b)).
Proof.
  induction n as [|n IH]; intros i Hi; cbn [block_rows].
  - by rewrite drop_ge by lia.
  - destruct (lookup_lt_is_Some_2 b i) as [r Hr]; [lia|]. rewrite (visible_ok f off b i r snap Hr). cbn [res_bind]. rewrite (drop_S _ _ _ Hr), log_rows_cons.
    unfold row_kept. destruct (visible_at _ _ _); cbn [andb]; [|cbn [res_bind]; apply IH; lia].
    rewrite (kept_ok pred b i r Hr). cbn [res_bind]. destruct (match pred with None => true | Some _ => _ end); [|apply IH; lia].
    rewrite (pick_ok b i r need Hr). cbn [res_bind]. rewrite IH by lia. done.
Qed.

(** No NaN in the field of the predicate. *)
Definition pred_ok (pred : option RangePred) (rs : list arow) : Prop :=
  forall p, pred = Some p -> Forall (fun r => not_nan (FromField (ar_doc r) (rp_Field p))) rs.

Lemma log_rows_none snap need p rs : Forall (fun r => matches (rp_Op p) (rp_Bound p) (FromField (ar_doc r) (rp_Field p)) = false) rs -> log_rows snap need (Some p) rs = [].
Proof.
  induction 1 as [|r rs Hr _ IH]; [done|]. rewrite log_rows_cons, IH. unfold row_kept. by rewrite Hr, andb_false_r.
Qed.

Lemma scan_block_ok s k b snap need pred visField : block_at s k b -> (forall f, f ∈ need -> f ∈ st_fields s) -> visField ∈ st_fields s ->
  (forall p, pred = Some p -> rp_Field p ∈ st_fields s) -> pred_ok pred b ->
  scan_block snap need pred visField k s = Ok (log_rows snap need pred b).
Proof.
  intros Hb Hn Hv Hp Hnan. unfold scan_block, skip_block.
  destruct (block_values s k b visField Hb Hv) as (vis & Ev & _ & off & Eoff).
  assert (Hrest : (let* cols := columns need k s in let* predCol := match pred with None => Ok [] | Some p => predColumn (rp_Field p) k need cols s end in
    let* vis := or_panic (segs_of visField s !! k) in block_rows (Z.to_nat (sg_n vis)) 0 vis snap pred predCol cols) = Ok (log_rows snap need pred b)).
  { rewrite (columns_ok s k b need Hb Hn). cbn [res_bind].
    assert (Epc : match pred with None => Ok [] | Some p => predColumn (rp_Field p) k need (map (fun f => vals_of f b) need) s end = Ok (match pred with Some p => vals_of (rp_Field p) b | None => [] end)).
    { destruct pred as [p|]; [|done]. apply predColumn_ok; [done|by apply Hp]. }
    rewrite Epc. cbn [res_bind]. rewrite Ev. cbn [res_bind]. rewrite Eoff.
    assert (En : Z.to_nat (sg_n (seg_of visField off b)) = List.length b).
    { unfold seg_of, buildSegment. destruct (computeZone _) as [[? ?] ?]. cbn [sg_n]. unfold vals_of. rewrite blen_map. unfold blen. lia. }
    rewrite En. apply (block_rows_ok visField off b snap pred need (List.length b) 0). lia. }
  destruct pred as [p|]; [|cbn [res_bind]; exact Hrest]. destruct Hb as (B1 & B2 & B3). destruct (B3 (rp_Field p) (Hp p eq_refl)) as (l & o & E1 & E2).
  rewrite E1, E2. cbn [or_panic res_bind]. destruct (skipForRange _ _ _) eqn:Es; [|exact Hrest].
  rewrite log_rows_none; [done|]. apply Forall_forall. intros r Hr. unfold seg_of in Es. eapply skip_sound; [|exact Es|].
  - unfold vals_of. apply Forall_map. exact (Hnan p eq_refl).
  - unfold vals_of. apply list_elem_of_fmap. by exists r.
Qed.

Lemma scan_blocks_ok s snap need pred visField blocks : forall k off,
  (forall j b, blocks !! j = Some b -> block_at s (k + j) b) -> (forall f, f ∈ need -> f ∈ st_fields s) -> visField ∈ st_fields s ->
  (forall p, pred = Some p -> rp_Field p ∈ st_fields s) -> pred_ok pred (concat blocks) ->
  scan_blocks (List.length (bounds_spec off blocks)) k snap need pred visField s = (log_rows snap need pred (concat blocks), Ok tt).
Proof.
  induction blocks as [|b bs IH]; intros k off Hb Hn Hv Hp Hnan; [done|]. cbn [bounds_spec List.length scan_blocks concat].
  assert (Hsplit : forall p, pred = Some p -> Forall (fun r => not_nan (FromField (ar_doc r) (rp_Field p))) b /\ Forall (fun r => not_nan (FromField (ar_doc r) (rp_Field p))) (concat bs)).
  { intros p Ep. by apply Forall_app, Hnan. }
  rewrite (scan_block_ok s k b snap need pred visField); [|by rewrite <- (Nat.add_0_r k); apply Hb|done|done|done|intros p Ep; by apply Hsplit].
  rewrite IH; [by rewrite log_rows_app| |done|done|done|intros p Ep; by apply Hsplit].
  intros j c Hj. replace (S k + j)%nat with (k + S j)%nat by lia. by apply Hb.
Qed.

Lemma buffer_rows_ok s buf snap need pred : st_bufWrite s = map ar_write buf -> st_bufDel s = map ar_del buf ->
  (forall f, f ∈ st_fields s -> bufVals_of f s = vals_of f buf) -> (forall f, f ∈ need -> f ∈ st_fields s) -> (forall p, pred = Some p -> rp_Field p ∈ st_fields s) ->
  forall n i, (i + n = List.length buf)%nat -> buffer_rows n i snap need pred s = Ok (log_rows snap need pred (drop i buf)).
Proof.
  intros Hw Hd Hv Hn Hp. assert (Ecols : map (fun f => bufVals_of f s) need = map (fun f => vals_of f buf) need).
  { apply map_ext_in. intros f Hf. apply Hv, Hn. by apply list_elem_of_In. }
  assert (Epc : match pred with Some p => bufVals_of (rp_Field p) s | None => [] end = match pred with Some p => vals_of (rp_Field p) buf | None => [] end).
  { destruct pred as [p|]; [|done]. apply Hv. by apply Hp. }
  induction n as [|n IH]; intros i Hi; cbn [buffer_rows]; [by rewrite drop_ge by lia|].
  destruct (lookup_lt_is_Some_2 buf i) as [r Hr]; [lia|]. rewrite Hw, Hd, !list_lookup_fmap, Hr. cbn [fmap option_fmap option_map or_panic res_bind].
  rewrite (drop_S _ _ _ Hr), log_rows_cons, Ecols, Epc.
  assert (Evis : (let* hidden := if ar_write r >? snap then Ok true else let* d := Ok (ar_del r) in Ok (negb (d =? 0) && (d <=? snap)) in Ok hidden) = Ok (E:=colErr) (negb (visible_at (ar_write r) (ar_del r) snap))).
  { unfold visible_at. destruct (ar_write r >? snap); [done|]. cbn [res_bind]. rewrite negb_orb. f_equal. f_equal. rewrite Z.gtb_ltb. apply Z.leb_antisym. }
  destruct (if ar_write r >? snap then _ else _) as [h|e|]; [|done|done]. cbn [res_bind] in Evis |- *. assert (h = negb (visible_at (ar_write r) (ar_del r) snap)) as -> by congruence.
  unfold row_kept. destruct (visible_at _ _ _); cbn [negb andb]; [|cbn [res_bind]; apply IH; lia].
  rewrite (kept_ok pred buf i r Hr). cbn [res_bind]. destruct (match pred with None => true | Some _ => _ end); [|apply IH; lia].
  rewrite (pick_ok buf i r need Hr). cbn [res_bind]. rewrite IH by lia. done.
Qed.

Lemma scan_represents s l snap need pred : represents s l -> need <> [] -> (forall f, f ∈ need -> f ∈ st_fields s) ->
  (forall p, pred = Some p -> rp_Field p ∈ st_fields s) -> pred_ok pred (lg_rows l) ->
  scan snap need pred s = (log_rows snap need pred (lg_rows l), Ok tt).
Proof.
  intros (blocks & buf & []) Hne Hn Hp Hnan. rewrite ly_rows0 in *. unfold scan. destruct need as [|f0 need']; [done|]. set (need := f0 :: need') in *.
  destruct (st_fields s) as [|vf fs] eqn:Ef; [by specialize (Hn f0 (list_elem_of_here _ _)); apply elem_of_nil in Hn|]. rewrite <- Ef in *.
  assert (Hvf : vf ∈ st_fields s) by (rewrite Ef; by left).
  assert (Hsplit : forall p, pred = Some p -> Forall (fun r => not_nan (FromField (ar_doc r) (rp_Field p))) (concat blocks)).
  { intros p Ep. specialize (Hnan p Ep). by apply Forall_app in Hnan as [? _]. }
  rewrite ly_bounds0. rewrite (scan_blocks_ok s snap need pred vf blocks 0 0); [| |done|done|done|exact Hsplit].
  2:{ intros j b Hj. cbn [Nat.add]. apply Forall_app in ly_docs0 as [Hd _]. pose proof (list_elem_of_split_length blocks j b Hj) as (bs1 & bs2 & Eb & Hjl).
      split; [|split].
      - rewrite Eb, concat_app in Hd. apply Forall_app in Hd as [_ Hd]. cbn [concat] in Hd. by apply Forall_app in Hd as [Hd _].
      - rewrite Forall_forall in ly_blocks0. apply ly_blocks0. by eapply list_elem_of_lookup_2.
      - intros f Hf. rewrite (ly_segs0 f Hf). eexists _, (0 + blen (concat bs1)). split; [reflexivity|]. rewrite Eb, Hjl. apply segs_spec_lookup. }
  rewrite ly_rids0, length_seqZ. replace (Z.to_nat (blen buf)) with (List.length buf) by (unfold blen; lia).
  rewrite (buffer_rows_ok s buf snap need pred ly_write0 ly_del0 ly_vals0 Hn Hp (List.length buf) 0 eq_refl). by rewrite drop_0, log_rows_app.
Qed.

(** ** Histories *)

Inductive col_op :=
| OpInsert (doc : bytes) (ver : Z)
| OpUpdate (old new : bytes) (ver : Z)
| OpDelete (doc : bytes) (ver : Z)
| OpFlush
| OpRebuild (docs : list bytes) (ver : Z).

Definition run_op (o : col_op) (s : Store) : res colErr Store :=
  match o with
  | OpInsert doc ver => Ok (Insert doc ver s)
  | OpUpdate old new ver => Update old new ver s
  | OpDelete doc ver => Delete doc ver s
  | OpFlush => Ok (Flush s)
  | OpRebuild docs ver => Ok (Rebuild docs ver s)
  end.

Fixpoint run_ops (os : list col_op) (s : Store) : res colErr Store :=
  match os with [] => Ok s | o :: os' => let* s' := run_op o s in run_ops os' s' end.

Definition log_op (o : col_op) (l : Log) : Log :=
  match o with
  | OpInsert doc ver => log_insert doc ver l
  | OpUpdate old new ver => log_update old new ver l
  | OpDelete doc ver => log_delete doc ver l
  | OpFlush => l
  | OpRebuild docs ver => log_rebuild docs ver
  end.

Definition log_ops (os : list col_op) (l : Log) : Log := fold_left (fun l o => log_op o l) os l.

Definition docs_of (o : col_op) : list bytes :=
  match o with OpInsert d _ | OpUpdate _ d _ => [d] | OpRebuild ds _ => ds | _ => [] end.

Definition all_docs (os : list col_op) : list bytes := concat (map docs_of os).

Lemma log_insert_rows doc ver l : lg_rows (log_insert doc ver l) = lg_rows l ++ [MkArow doc ver 0].
Proof. done. Qed.

Lemma log_rebuild_rows ver docs : forall l, lg_rows (fold_left (fun l d => log_insert d ver l) docs l) = lg_rows l ++ map (fun d => MkArow d ver 0) docs.
Proof. induction docs as [|d ds IH]; intros l; cbn [fold_left map]; [by rewrite app_nil_r|]. rewrite IH, log_insert_rows, <- app_assoc. done. Qed.

(** Ending a row keeps its document. *)
Lemma docs_end i ver l : map ar_doc (lg_rows (log_end i ver l)) = map ar_doc (lg_rows l).
Proof.
  unfold log_end. cbn [lg_rows]. revert i. induction (lg_rows l) as [|r rs IH]; intros [|i]; cbn; try done.
  - f_equal. unfold end_row. by destruct (ar_del r =? 0).
  - f_equal. apply IH.
Qed.

(** The documents of the log are among those that came. *)
Lemma docs_of_log o l : (map ar_doc (lg_rows (log_op o l)) = map ar_doc (lg_rows l) ++ docs_of o) \/ map ar_doc (lg_rows (log_op o l)) = docs_of o.
Proof.
  destruct o as [d v|old d v|d v| |ds v]; cbn [log_op docs_of].
  - left. rewrite log_insert_rows, map_app. done.
  - left. unfold log_update. rewrite log_insert_rows, map_app. f_equal. destruct (lg_live l !! idKey old); [apply docs_end|done].
  - left. rewrite app_nil_r. unfold log_delete. destruct (lg_live l !! idKey d); [|done]. cbn [lg_rows]. apply (docs_end n v l).
  - left. by rewrite app_nil_r.
  - right. unfold log_rebuild. rewrite log_rebuild_rows. cbn [lg_rows app]. rewrite map_map. apply map_id.
Qed.

Lemma run_op_represents o s l : represents s l -> NoDup (st_fields s) -> Forall doc_ok (docs_of o) -> blen (lg_rows l) + blen (docs_of o) < 2 ^ 62 ->
  exists s', run_op o s = Ok s' /\ represents s' (log_op o l) /\ st_fields s' = st_fields s.
Proof.
  intros Hr Hnd Hd Hsm. destruct o as [d v|old d v|d v| |ds v]; cbn [run_op log_op docs_of] in *.
  - apply Forall_cons in Hd as [Hd _]. eexists. split; [reflexivity|]. split; [by apply insert_represents|apply insert_fields].
  - apply Forall_cons in Hd as [Hd _]. by apply update_represents.
  - by apply delete_represents.
  - eexists. split; [reflexivity|]. split; [by apply flush_represents|apply flush_fields_st].
  - eexists. split; [reflexivity|]. apply rebuild_represents; [done|done|]. pose proof (blen_nonneg (lg_rows l)). lia.
Qed.

Lemma run_ops_represents os : forall s l, represents s l -> NoDup (st_fields s) -> Forall doc_ok (all_docs os) -> blen (lg_rows l) + blen (all_docs os) < 2 ^ 62 ->
  exists s', run_ops os s = Ok s' /\ represents s' (log_ops os l) /\ st_fields s' = st_fields s.
Proof.
  induction os as [|o os IH]; intros s l Hr Hnd Hd Hsm; [by exists s|]. unfold all_docs in *. cbn [map concat] in *. apply Forall_app in Hd as [Hd1 Hd2]. rewrite blen_app in Hsm.
  pose proof (blen_nonneg (docs_of o)). pose proof (blen_nonneg (concat (map docs_of os))). pose proof (blen_nonneg (lg_rows l)).
  destruct (run_op_represents o s l Hr Hnd Hd1) as (s1 & E & R1 & E1); [lia|]. cbn [run_ops]. rewrite E. cbn [res_bind].
  assert (Hl : blen (lg_rows (log_op o l)) <= blen (lg_rows l) + blen (docs_of o)).
  { rewrite <- (blen_map ar_doc (lg_rows (log_op o l))). destruct (docs_of_log o l) as [-> | ->]; [rewrite blen_app, blen_map; lia|lia]. }
  destruct (IH s1 (log_op o l) R1) as (s2 & E2 & R2 & E3); [by rewrite E1|done|lia|]. exists s2. split; [done|]. split; [done|congruence].
Qed.

(** Any row of a log holds a document that came. *)
Lemma log_ops_docs (P : bytes -> Prop) os : forall l, Forall P (map ar_doc (lg_rows l)) -> Forall P (all_docs os) -> Forall P (map ar_doc (lg_rows (log_ops os l))).
Proof.
  induction os as [|o os IH]; intros l Hl Hos; [done|]. unfold all_docs in Hos. cbn [map concat] in Hos. apply Forall_app in Hos as [H1 H2]. cbn [log_ops fold_left].
  apply IH; [|done]. destruct (docs_of_log o l) as [-> | ->]; [by apply Forall_app|done].
Qed.

(** No document has NaN in the field of the predicate. *)
Definition nan_free (pred : option RangePred) (docs : list bytes) : Prop :=
  forall p, pred = Some p -> Forall (fun d => not_nan (FromField d (rp_Field p))) docs.

(** The fields the scan reads are projected. *)
Definition covered (need : list bytes) (pred : option RangePred) (fields : list bytes) : Prop :=
  need <> [] /\ (forall f, f ∈ need -> f ∈ fields) /\ (forall p, pred = Some p -> rp_Field p ∈ fields).

(** C28. Whatever inserts, updates, deletes, flushes and rebuilds a store of fewer
    than 2^62 documents has been through, none of them fails. A scan of it at any
    version, of columns it has, for a predicate on a column in which no document has
    a NaN, returns what the log of its rows holds there: the compressed segments,
    their zone maps and the buffer change nothing. *)
Theorem column_store_refines_log mode fields os snap need pred :
  NoDup fields -> Forall doc_ok (all_docs os) -> blen (all_docs os) < 2 ^ 62 ->
  covered need pred fields -> nan_free pred (all_docs os) ->
  exists s, run_ops os (New mode fields) = Ok s /\
    scan snap need pred s = (log_rows snap need pred (lg_rows (log_ops os (MkLog [] ∅))), Ok tt).
Proof.
  intros Hnd Hd Hsm (C1 & C2 & C3) Hnan.
  destruct (run_ops_represents os (New mode fields) (MkLog [] ∅)) as (s & E & R1 & E1); [exists [], []; by apply empty_lays|done|done|done|].
  exists s. split; [done|]. apply scan_represents; [done|done|by rewrite E1|by rewrite E1|]. intros p Ep.
  pose proof (log_ops_docs (fun d => not_nan (FromField d (rp_Field p))) os (MkLog [] ∅) (Forall_nil_2 _) (Hnan p Ep)) as H. by apply (Forall_map ar_doc (fun d => not_nan (FromField d (rp_Field p)))).
Qed.

(** *** Readers at an earlier version *)

Definition op_after (snap : Z) (o : col_op) : Prop :=
  match o with OpInsert _ v | OpUpdate _ _ v | OpDelete _ v => snap < v | OpFlush => True | OpRebuild _ _ => False end.

Lemma row_kept_end snap pred ver r : 0 <= snap < ver -> row_kept snap pred (end_row ver r) = row_kept snap pred r.
Proof.
  intros Hv. unfold end_row. destruct (Z.eqb_spec (ar_del r) 0) as [E|E]; [|done]. unfold row_kept. cbn [ar_write ar_del ar_doc]. f_equal. unfold visible_at. rewrite E.
  destruct (ar_write r >? snap); [done|]. rewrite (proj2 (Z.eqb_neq ver 0)) by lia. rewrite Z.gtb_ltb, (proj2 (Z.ltb_lt _ _)) by lia. done.
Qed.

Lemma log_rows_end snap need pred i ver l : 0 <= snap < ver -> log_rows snap need pred (lg_rows (log_end i ver l)) = log_rows snap need pred (lg_rows l).
Proof.
  intros Hv. unfold log_end. cbn [lg_rows]. revert i. induction (lg_rows l) as [|r rs IH]; intros [|i]; cbn [alter list_alter]; try done.
  - rewrite !log_rows_cons, row_kept_end by done. unfold end_row. by destruct (ar_del r =? 0).
  - rewrite !log_rows_cons. f_equal. apply IH.
Qed.

Lemma log_rows_insert snap need pred doc ver l : snap < ver -> log_rows snap need pred (lg_rows (log_insert doc ver l)) = log_rows snap need pred (lg_rows l).
Proof.
  intros Hv. rewrite log_insert_rows, log_rows_app, log_rows_cons. unfold row_kept, visible_at. cbn [ar_write]. rewrite Z.gtb_ltb, (proj2 (Z.ltb_lt _ _)) by done. apply app_nil_r.
Qed.

Lemma log_rows_op snap need pred o l : 0 <= snap -> op_after snap o -> log_rows snap need pred (lg_rows (log_op o l)) = log_rows snap need pred (lg_rows l).
Proof.
  intros H0. destruct o as [d v|old d v|d v| |ds v]; cbn [op_after log_op]; intros Hv; try done.
  - by apply log_rows_insert.
  - unfold log_update. rewrite log_rows_insert by done. destruct (lg_live l !! idKey old); [|done]. by apply log_rows_end.
  - unfold log_delete. destruct (lg_live l !! idKey d); [|done]. cbn [lg_rows]. apply (log_rows_end snap need pred n v l). lia.
Qed.

Lemma log_rows_ops snap need pred later : 0 <= snap -> Forall (op_after snap) later -> forall l,
  log_rows snap need pred (lg_rows (log_ops later l)) = log_rows snap need pred (lg_rows l).
Proof.
  intros H0. induction 1 as [|o os Ho _ IH]; intros l; [done|]. cbn [log_ops fold_left]. unfold log_ops in IH. rewrite IH. by apply log_rows_op.
Qed.

(** C29. What a reader sees at a version does not change, unless the store is
    rebuilt or its predicate's column has a NaN: not by inserts, updates and deletes
    that commit later, nor by the buffer being sealed into segments. (The store has
    the columns the scan reads, and fewer than 2^62 documents.) *)
Theorem column_scan_stable mode fields os later snap need pred s s' :
  NoDup fields -> Forall doc_ok (all_docs (os ++ later)) -> blen (all_docs (os ++ later)) < 2 ^ 62 ->
  covered need pred fields -> nan_free pred (all_docs (os ++ later)) -> 0 <= snap -> Forall (op_after snap) later ->
  run_ops os (New mode fields) = Ok s -> run_ops later s = Ok s' -> scan snap need pred s' = scan snap need pred s.
Proof.
  intros Hnd Hd Hsm (C1 & C2 & C3) Hnan H0 Hlater E1 E2. unfold all_docs in *. rewrite map_app, concat_app in *. rewrite blen_app in Hsm. apply Forall_app in Hd as [Hd1 Hd2].
  pose proof (blen_nonneg (concat (map docs_of os))). pose proof (blen_nonneg (concat (map docs_of later))).
  destruct (run_ops_represents os (New mode fields) (MkLog [] ∅)) as (s1 & F1 & R1 & G1); [exists [], []; by apply empty_lays|done|done|change (blen (lg_rows (MkLog [] ∅))) with 0; unfold all_docs; lia|].
  assert (s1 = s) as -> by congruence. cbn [New st_fields] in G1.
  assert (Hn : forall p ds, pred = Some p -> (forall d, d ∈ ds -> d ∈ concat (map docs_of os) ++ concat (map docs_of later)) -> Forall (fun d => not_nan (FromField d (rp_Field p))) ds).
  { intros p ds Ep Hsub. apply Forall_forall. intros d Hin. specialize (Hnan p Ep). rewrite Forall_forall in Hnan. apply Hnan. by apply Hsub. }
  set (l := log_ops os (MkLog [] ∅)) in *.
  assert (P1 : forall p, pred = Some p -> Forall (fun d => not_nan (FromField d (rp_Field p))) (map ar_doc (lg_rows l))).
  { intros p Ep. apply log_ops_docs; [constructor|]. apply (Hn p); [done|]. intros d Hin. apply elem_of_app. by left. }
  assert (Hl : blen (lg_rows l) <= blen (concat (map docs_of os))).
  { assert (Hgen : forall xs l0, blen (lg_rows (log_ops xs l0)) <= blen (lg_rows l0) + blen (concat (map docs_of xs))).
    { clear. induction xs as [|o os IH]; intros l0; cbn [log_ops fold_left map concat]; [change (blen (@nil bytes)) with 0; lia|]. specialize (IH (log_op o l0)). unfold log_ops in IH.
      rewrite blen_app. pose proof (blen_nonneg (docs_of o)). pose proof (blen_nonneg (lg_rows l0)).
      assert (blen (lg_rows (log_op o l0)) <= blen (lg_rows l0) + blen (docs_of o)).
      { rewrite <- (blen_map ar_doc (lg_rows (log_op o l0))). destruct (docs_of_log o l0) as [-> | ->]; [rewrite blen_app, blen_map; lia|lia]. }
      lia. }
    specialize (Hgen os (MkLog [] ∅)). change (blen (lg_rows (MkLog [] ∅))) with 0 in Hgen. exact Hgen. }
  destruct (run_ops_represents later s l R1) as (s2 & F2 & R2 & G2); [by rewrite G1|done|unfold all_docs; lia|]. assert (s2 = s') as -> by congruence.
  rewrite (scan_represents s l), (scan_represents s' (log_ops later l)); [|done|done|by rewrite G2, G1|by rewrite G2, G1| |done|done|by rewrite G1|by rewrite G1|].
  - f_equal. by apply log_rows_ops.
  - intros p Ep. apply (Forall_map ar_doc (fun d => not_nan (FromField d (rp_Field p)))). apply log_ops_docs; [by apply P1|]. apply (Hn p); [done|]. intros d Hin. apply elem_of_app. by right.
  - intros p Ep. apply (Forall_map ar_doc (fun d => not_nan (FromField d (rp_Field p)))). by apply P1.
Qed.

(** ** Documents, and a concrete history *)

Lemma lookup_loop_ok key fuel : forall b v, bytes_ok b -> lookup_loop fuel key b = Some v -> bytes_ok (rv_Data v) /\ byte_ok (rv_Type v) /\ (List.length (rv_Data v) <= List.length b)%nat.
Proof.
  induction fuel as [|fuel IH]; intros b v Hb; cbn [lookup_loop]; [done|]. destruct b as [|t b']; [done|].
  destruct (Z.eqb_spec t 0); [done|]. destruct (next_element (t :: b') t) as [e|[e rest]] eqn:En; [done|].
  apply next_element_inv in En as (He & Ht & Eb & Hlen); [|done|done|done]. case_bool_decide.
  - intros [= <-]. destruct He as (_ & _ & Hv). rewrite Eb in Hb. apply Forall_app in Hb as [Hb _]. unfold enc_elem in Hb. apply Forall_cons in Hb as [Hbt Hb]. apply Forall_app in Hb as [_ Hb].
    apply Forall_cons in Hb as [_ Hb]. split; [done|]. split; [done|]. rewrite Eb. unfold enc_elem. rewrite length_app. cbn [List.length]. rewrite length_app. cbn [List.length]. lia.
  - intros Hl. apply IH in Hl as (H1 & H2 & H3); [split_and!; [done|done|lia]|]. rewrite Eb in Hb. by apply Forall_app in Hb as [_ Hb].
Qed.

(** Every field of a document is a well-formed column value. *)
Lemma doc_ok_bytes doc : bytes_ok doc -> blen doc < 2 ^ 62 -> doc_ok doc.
Proof.
  intros Hb Hl f. unfold FromField, Lookup. destruct (_ || _); [by left|]. destruct (lookup_loop _ _ _) as [v|] eqn:E; [|by left].
  apply lookup_loop_ok in E as (H1 & H2 & H3); [|by apply Forall_drop]. rewrite length_drop in H3. apply FromRawValue_canonical; [done|done|]. unfold in_u, blen in *. lia.
Qed.

(** {_id: id, a: x} *)
Definition demo_row (id x : Z) : bytes := Build (AppendInt32 [97] x (AppendInt32 idField id [])).

Definition demo_history : list col_op :=
  [OpInsert (demo_row 1 10) 1; OpInsert (demo_row 2 20) 1; OpFlush; OpUpdate (demo_row 1 10) (demo_row 1 30) 2; OpInsert (demo_row 3 40) 3; OpDelete (demo_row 2 20) 4].

Definition demo_pred : RangePred := MkRangePred [97] "$gt" (int_value KindInt 15).

Lemma demo_history_ok : Forall doc_ok (all_docs demo_history) /\ nan_free (Some demo_pred) (all_docs demo_history).
Proof.
  split.
  - assert (H : Forall (fun d => bytes_okb d = true /\ blen d < 2 ^ 62) (all_docs demo_history)) by (repeat (apply Forall_cons; split; [by vm_compute|]); constructor).
    eapply Forall_impl; [exact H|]. intros d [H1 H2]. apply doc_ok_bytes; [by apply bytes_okb_ok|done].
  - intros p [= <-]. apply (Forall_map (fun d => FromField d [97]) not_nan). apply not_nanb_all. by vm_compute.
Qed.

Lemma column_store_refines_log_witness :
  log_rows 3 [[97]] (Some demo_pred) (lg_rows (log_ops demo_history (MkLog [] ∅))) = [[int_value KindInt 20]; [int_value KindInt 30]; [int_value KindInt 40]] /\
  exists s, run_ops demo_history (New ModeTransactional [[97]]) = Ok s /\
    scan 3 [[97]] (Some demo_pred) s = (log_rows 3 [[97]] (Some demo_pred) (lg_rows (log_ops demo_history (MkLog [] ∅))), Ok tt).
Proof.
  split; [by vm_compute|]. destruct demo_history_ok as [H1 H2].
  apply (column_store_refines_log ModeTransactional [[97]] demo_history 3 [[97]] (Some demo_pred)).
  - apply NoDup_singleton.
  - exact H1.
  - by vm_compute.
  - split_and!; [done|done|]. intros p [= <-]. by left.
  - exact H2.
Defined.

Lemma column_scan_stable_witness :
  exists s s', run_ops (take 4 demo_history) (New ModeTransactional [[97]]) = Ok s /\ run_ops (drop 4 demo_history) s = Ok s' /\
    scan 2 [[97]] (Some demo_pred) s' = scan 2 [[97]] (Some demo_pred) s.
Proof.
  destruct demo_history_ok as [H1 H2].
  destruct (run_ops (take 4 demo_history) (New ModeTransactional [[97]])) as [s| |] eqn:E1; [|by vm_compute in E1..].
  assert (E1' := E1). vm_compute in E1'. injection E1' as <-. 
  eexists _, _. split; [reflexivity|]. split; [vm_compute; reflexivity|].
  apply (column_scan_stable ModeTransactional [[97]] (take 4 demo_history) (drop 4 demo_history) 2 [[97]] (Some demo_pred)).
  - apply NoDup_singleton.
  - exact H1.
  - by vm_compute.
  - split_and!; [done|done|]. intros p [= <-]. by left.
  - exact H2.
  - lia.
  - cbn. repeat constructor; lia.
  - exact E1.
  - vm_compute. reflexivity.
Defined.
