(* ===== verification/Query.v ===== *)
(** * query/: matching documents against filters

    match.go, leaves.go and traverse.go: a filter document is compiled into a
    predicate tree, which is evaluated on documents. Then what they mean: a path
    reaches the values the relation [reaches] says, on the fast path as on the slow
    one; a field predicate holds of a document as [match_semantics] says; compiling
    ends; operators are complements and unions of each other. *)

From Stdlib Require Import String Ascii.
From S2P Require Import Prelude Float64 Bson BsonCompare.

Local Open Scope Z_scope.

(** ** Strings *)

Fixpoint str (s : string) : bytes :=
  match s with
  | EmptyString => []
  | String.String c s' => Z.of_N (N_of_ascii c) :: str s'
  end.

(** strings.HasPrefix(key, "$"). *)
Definition has_dollar (key : bytes) : bool := match key with c :: _ => c =? 36 | [] => false end.

(** strings.Split(key, "."). *)
Fixpoint split_dots (key : bytes) : list bytes :=
  match key with
  | [] => [[]]
  | c :: key' =>
      match split_dots key' with
      | seg :: segs => if c =? 46 then [] :: seg :: segs else (c :: seg) :: segs
      | [] => []
      end
  end.

(** ** Floats to integers

    Go leaves int64(f) to the implementation where the integer part of f is not an
    int64. *)

Class Platform := wild_int64 : Z -> Z.

Definition f64_eq (a b : Z) : bool := negb (f64_isNaN a) && negb (f64_isNaN b) && (f64_val a =? f64_val b).
Definition f64_trunc (f : Z) : Z := Z.quot (f64_val f) (2 ^ 1074).

Definition int64_of_float `{Platform} (f : Z) : Z :=
  if f64_isNaN f || f64_isInf f || negb (bool_decide (- 2 ^ 63 <= f64_trunc f < 2 ^ 63)) then wild_int64 f
  else f64_trunc f.

(** ** Arrays (traverse.go) *)

(** The values of an array or a document in stored order, none of any other
    value. *)
Definition arrayElems (v : RawValue) : list RawValue :=
  if one_of (rv_Type v) [TypeArray; TypeDocument] then map Value (elems (Document v)) else [].

Definition nthElement (v : RawValue) (idx : Z) : option RawValue :=
  if (idx <? 0) || (idx >=? blen (arrayElems v)) then None else arrayElems v !! Z.to_nat idx.

(** The number is an int, which wraps around. *)
Fixpoint index_loop (s : bytes) (n : Z) : option Z :=
  match s with
  | [] => Some n
  | c :: s' => if (c <? 48) || (c >? 57) then None else index_loop s' (to_i64 (u64 (n * 10 + (c - 48))))
  end.

Definition arrayIndex (s : bytes) : option Z :=
  match s with
  | [] => None
  | c :: s' => if bool_decide (s = [48]) then Some 0 else if c =? 48 then None else index_loop s 0
  end.

(** ** Paths *)

Definition root (doc : bytes) : RawValue := MkRawValue TypeDocument doc.

(** The value and whether it was found are an option; the second result is the
    flag simple. *)
Fixpoint single_loop (cur : RawValue) (path : list bytes) : option RawValue * bool :=
  match path with
  | [] => (Some cur, true)
  | comp :: path' =>
      if rv_Type cur =? TypeArray then (None, false)
      else if negb (rv_Type cur =? TypeDocument) then (None, true)
      else
        match Lookup (Document cur) comp with
        | None => (None, true)
        | Some sub => single_loop sub path'
        end
  end.

Definition traverseSingle (doc : bytes) (path : list bytes) : option RawValue * bool := single_loop (root doc) path.

(** The values out of several calls, and whether one of them found something. *)
Definition fan (f : RawValue -> list RawValue * bool) (l : list RawValue) : list RawValue * bool :=
  (concat (map (fun e => (f e).1) l), existsb (fun e => (f e).2) l).

Definition descend_body (descend : RawValue -> list bytes -> list RawValue * bool) (v : RawValue) (path : list bytes) : list RawValue * bool :=
  match path with
  | [] => ([v], true)
  | comp :: path' =>
      if rv_Type v =? TypeDocument then
        match Lookup (Document v) comp with
        | None => ([], false)
        | Some sub => descend sub path'
        end
      else if rv_Type v =? TypeArray then
        let first :=
          match arrayIndex comp with
          | Some idx => match nthElement v idx with Some elem => descend elem path' | None => ([], false) end
          | None => ([], false)
          end in
        let rest := fan (fun e => descend e path) (arrayElems v) in
        (first.1 ++ rest.1, first.2 || rest.2)
      else ([], false)
  end.

Fixpoint descend_fuel (fuel : nat) (v : RawValue) (path : list bytes) : list RawValue * bool :=
  match fuel with
  | O => ([], false)
  | S n => descend_body (descend_fuel n) v path
  end.

(** Each call shortens the value: the length of its payload is fuel enough
    ([descend_eq]). *)
Definition descend (v : RawValue) (path : list bytes) : list RawValue * bool := descend_fuel (S (List.length (rv_Data v))) v path.

Definition traverse (doc : bytes) (path : list bytes) : list RawValue * bool := descend (root doc) path.

(** ** Operators on values (leaves.go) *)

Definition isNullOperand (v : RawValue) : bool := one_of (rv_Type v) [TypeNull; TypeUndefined].

Definition truthy (v : RawValue) : bool :=
  if rv_Type v =? TypeBoolean then Boolean v
  else if one_of (rv_Type v) [TypeNull; TypeUndefined] then false
  else let '(f, ok) := AsFloat64 v in if ok then negb (f64_eq f 0) else true.

Inductive cmpOp : Type := opGt | opGte | opLt | opLte.

(** A predicate tree and the operators at its leaves. *)
Inductive predicate : Type :=
| truePred
| andPred (parts : list predicate)
| orPred (parts : list predicate)
| notPred (inner : predicate)
| fieldPred (path : list bytes) (leaf : fieldLeaf)
with fieldLeaf : Type :=
| eqLeaf (want : RawValue)
| cmpLeaf (want : RawValue) (op : cmpOp)
| inLeaf (wants : list RawValue) (hasNull : bool)
| existsLeaf (want : bool)
| typeLeaf (want : gset Z)
| sizeLeaf (n : Z)
| allLeaf (wants : list RawValue)
| elemMatchLeaf (inner : predicate) (wrap : bool).

Definition matchMissing (l : fieldLeaf) : bool :=
  match l with
  | eqLeaf want => isNullOperand want
  | inLeaf _ hasNull => hasNull
  | existsLeaf want => negb want
  | cmpLeaf _ _ | typeLeaf _ | sizeLeaf _ | allLeaf _ | elemMatchLeaf _ _ => false
  end.

Definition elementWise (l : fieldLeaf) : bool :=
  match l with
  | eqLeaf _ | cmpLeaf _ _ | inLeaf _ _ | typeLeaf _ => true
  | existsLeaf _ | sizeLeaf _ | allLeaf _ | elemMatchLeaf _ _ => false
  end.

Definition cmp_holds (op : cmpOp) (c : comparison) : bool :=
  match op, c with
  | opGt, Gt | opGte, (Gt | Eq) | opLt, Lt | opLte, (Lt | Eq) => true
  | _, _ => false
  end.

Definition cmp_match (want : RawValue) (op : cmpOp) (v : RawValue) : bool :=
  if negb (CanonicalType (rv_Type v) =? CanonicalType (rv_Type want)) then false else cmp_holds op (Compare v want).

Definition contains (v w : RawValue) : bool :=
  Equal v w || ((rv_Type v =? TypeArray) && existsb (fun e => Equal e w) (arrayElems v)).

Definition all_match (wants : list RawValue) (v : RawValue) : bool :=
  match wants with [] => false | _ => forallb (contains v) wants end.

Definition in_match (wants : list RawValue) (v : RawValue) : bool := existsb (fun w => Equal v w) wants.

Definition size_match (n : Z) (v : RawValue) : bool := (rv_Type v =? TypeArray) && (blen (arrayElems v) =? n).

(** With the inner predicate as a function of a document. *)
Definition elem_match (inner : bytes -> bool) (wrap : bool) (v : RawValue) : bool :=
  (rv_Type v =? TypeArray) &&
  existsb (fun e => if wrap then inner (Build (AppendValue [] e [])) else (rv_Type e =? TypeDocument) && inner (Document e)) (arrayElems v).

(** *** Field predicates: from the operator on one value to a document *)

(** The operator on a value and, where it is an array and the operator is
    element-wise, on its elements. *)
Definition match_one (mv : RawValue -> bool) (ew : bool) (v : RawValue) : bool :=
  mv v || (ew && (rv_Type v =? TypeArray) && existsb mv (arrayElems v)).

Definition field_eval (mv : RawValue -> bool) (mm ew : bool) (path : list bytes) (doc : bytes) : bool :=
  match traverseSingle doc path with
  | (found, true) => match found with None => mm | Some v => match_one mv ew v end
  | (_, false) =>
      let '(values, present) := traverse doc path in
      if negb present then mm else existsb (match_one mv ew) values
  end.

Fixpoint eval (p : predicate) (doc : bytes) {struct p} : bool :=
  match p with
  | truePred => true
  | andPred parts => forallb (fun c => eval c doc) parts
  | orPred parts => existsb (fun c => eval c doc) parts
  | notPred inner => negb (eval inner doc)
  | fieldPred path leaf => field_eval (matchValue leaf) (matchMissing leaf) (elementWise leaf) path doc
  end
with matchValue (l : fieldLeaf) (v : RawValue) {struct l} : bool :=
  match l with
  | eqLeaf want => Equal v want
  | cmpLeaf want op => cmp_match want op v
  | inLeaf wants _ => in_match wants v
  | existsLeaf want => want
  | typeLeaf want => bool_decide (rv_Type v ∈ want)
  | sizeLeaf n => size_match n v
  | allLeaf wants => all_match wants v
  | elemMatchLeaf inner wrap => elem_match (eval inner) wrap v
  end.

Record Matcher := MkMatcher { m_pred : predicate }.
Definition Match (m : Matcher) (doc : bytes) : bool := eval (m_pred m) doc.

(** ** Compiling a filter (match.go) *)

(** An error of the filter, an error of its encoding, and fuel that runs out. *)
Inductive queryErr : Type := ErrBadQuery | ErrBson (e : bsonErr) | OutOfFuel.

Definition elements_of (d : bytes) : res queryErr (list Element) :=
  match Elements d with inl e => Err (ErrBson e) | inr es => Ok es end.

(** What f makes of each element, or the first error. *)
Fixpoint try_each {A B} (f : A -> res queryErr B) (l : list A) : res queryErr (list B) :=
  match l with
  | [] => Ok []
  | a :: l' => let* b := f a in let* bs := try_each f l' in Ok (b :: bs)
  end.

Definition isOperatorDoc (v : RawValue) : bool :=
  (rv_Type v =? TypeDocument) &&
  match Elements (Document v) with inr (e :: _) => has_dollar (Key e) | _ => false end.

Definition newInLeaf (arg : RawValue) : res queryErr fieldLeaf :=
  if negb (rv_Type arg =? TypeArray) then Err ErrBadQuery
  else
    let elems := arrayElems arg in
    if existsb isOperatorDoc elems then Err ErrBadQuery
    else Ok (inLeaf elems (existsb isNullOperand elems)).

Definition newAllPred (path : list bytes) (arg : RawValue) : res queryErr predicate :=
  if negb (rv_Type arg =? TypeArray) then Err ErrBadQuery
  else
    let elems := arrayElems arg in
    if existsb isOperatorDoc elems then Err ErrBadQuery
    else Ok (fieldPred path (allLeaf elems)).

Definition typeAlias : list (string * Z) :=
  [("double", TypeDouble); ("string", TypeString); ("object", TypeDocument); ("array", TypeArray); ("binData", TypeBinary);
   ("undefined", TypeUndefined); ("objectId", TypeObjectID); ("bool", TypeBoolean); ("date", TypeDateTime); ("null", TypeNull);
   ("regex", TypeRegex); ("dbPointer", TypeDBPointer); ("javascript", TypeJavaScript); ("symbol", TypeSymbol);
   ("javascriptWithScope", TypeCodeWithScope); ("int", TypeInt32); ("timestamp", TypeTimestamp); ("long", TypeInt64);
   ("decimal", TypeDecimal128); ("minKey", TypeMinKey); ("maxKey", TypeMaxKey)]%string.

Definition alias_type (s : bytes) : option Z :=
  snd <$> List.find (fun a => bool_decide (str a.1 = s)) typeAlias.

Section compile.
Context {PF : Platform}.

Definition resolveTypeArg (v : RawValue) : res queryErr (list Z) :=
  let '(s, ok) := StringValueOK v in
  if ok then
    if bool_decide (s = str "number") then Ok [TypeDouble; TypeInt32; TypeInt64; TypeDecimal128]
    else match alias_type s with None => Err ErrBadQuery | Some t => Ok [t] end
  else
    let '(f, ok) := AsFloat64 v in
    if ok && f64_eq f (f64_of_int (int64_of_float f)) then Ok [u8 (int64_of_float f)] else Err ErrBadQuery.

Definition newTypeLeaf (arg : RawValue) : res queryErr fieldLeaf :=
  if rv_Type arg =? TypeArray then
    let* ts := try_each resolveTypeArg (arrayElems arg) in Ok (typeLeaf (list_to_set (concat ts)))
  else let* ts := resolveTypeArg arg in Ok (typeLeaf (list_to_set ts)).

Definition size_arg (arg : RawValue) : res queryErr Z :=
  let '(n, ok) := AsFloat64 arg in
  if negb ok || f64_lt n 0 || negb (f64_eq n (f64_of_int (int64_of_float n))) then Err ErrBadQuery
  else Ok (int64_of_float n).

(** A conjunction of several predicates, or the one there is. *)
Definition conj_of (parts : list predicate) : predicate := match parts with [p] => p | _ => andPred parts end.

(** The functions that call each other, over the ones they call on parts of the
    filter. *)
Section bodies.
Context (compileDoc : bytes -> res queryErr predicate) (compileOperators : list bytes -> bytes -> res queryErr predicate)
  (compileOperator : list bytes -> bytes -> RawValue -> res queryErr predicate).

Definition compileElemMatch (d : bytes) : res queryErr (predicate * bool) :=
  let* elems := elements_of d in
  match elems with
  | e :: _ =>
      if has_dollar (Key e) then
        let* parts := try_each (fun e => compileOperator [[]] (Key e) (Value e)) elems in Ok (conj_of parts, true)
      else let* inner := compileDoc d in Ok (inner, false)
  | [] => let* inner := compileDoc d in Ok (inner, false)
  end.

Definition newElemMatchPred (path : list bytes) (arg : RawValue) : res queryErr predicate :=
  if negb (rv_Type arg =? TypeDocument) then Err ErrBadQuery
  else let* '(inner, wrap) := compileElemMatch (Document arg) in Ok (fieldPred path (elemMatchLeaf inner wrap)).

Definition operator_body (path : list bytes) (op : bytes) (arg : RawValue) : res queryErr predicate :=
  let is_op s := bool_decide (op = str s) in
  if is_op "$eq"%string then Ok (fieldPred path (eqLeaf arg))
  else if is_op "$ne"%string then Ok (notPred (fieldPred path (eqLeaf arg)))
  else if is_op "$gt"%string then Ok (fieldPred path (cmpLeaf arg opGt))
  else if is_op "$gte"%string then Ok (fieldPred path (cmpLeaf arg opGte))
  else if is_op "$lt"%string then Ok (fieldPred path (cmpLeaf arg opLt))
  else if is_op "$lte"%string then Ok (fieldPred path (cmpLeaf arg opLte))
  else if is_op "$in"%string then let* leaf := newInLeaf arg in Ok (fieldPred path leaf)
  else if is_op "$nin"%string then let* leaf := newInLeaf arg in Ok (notPred (fieldPred path leaf))
  else if is_op "$exists"%string then Ok (fieldPred path (existsLeaf (truthy arg)))
  else if is_op "$type"%string then let* leaf := newTypeLeaf arg in Ok (fieldPred path leaf)
  else if is_op "$size"%string then let* n := size_arg arg in Ok (fieldPred path (sizeLeaf n))
  else if is_op "$all"%string then newAllPred path arg
  else if is_op "$elemMatch"%string then newElemMatchPred path arg
  else if is_op "$not"%string then
    if negb (isOperatorDoc arg) then Err ErrBadQuery
    else let* inner := compileOperators path (Document arg) in Ok (notPred inner)
  else Err ErrBadQuery.

Definition operators_body (path : list bytes) (d : bytes) : res queryErr predicate :=
  let* elems := elements_of d in
  let* parts := try_each (fun e => compileOperator path (Key e) (Value e)) elems in
  match parts with [] => Ok truePred | _ => Ok (conj_of parts) end.

Definition compileFilterArray (v : RawValue) : res queryErr (list predicate) :=
  if negb (rv_Type v =? TypeArray) then Err ErrBadQuery
  else
    match arrayElems v with
    | [] => Err ErrBadQuery
    | elems => try_each (fun e => if negb (rv_Type e =? TypeDocument) then Err ErrBadQuery else compileDoc (Document e)) elems
    end.

Definition compileLogical (op : bytes) (v : RawValue) : res queryErr predicate :=
  if bool_decide (op = str "$and") then let* subs := compileFilterArray v in Ok (andPred subs)
  else if bool_decide (op = str "$or") then let* subs := compileFilterArray v in Ok (orPred subs)
  else if bool_decide (op = str "$nor") then let* subs := compileFilterArray v in Ok (notPred (orPred subs))
  else Err ErrBadQuery.

Definition compileField (key : bytes) (v : RawValue) : res queryErr predicate :=
  let path := split_dots key in
  if isOperatorDoc v then compileOperators path (Document v) else Ok (fieldPred path (eqLeaf v)).

Definition doc_body (d : bytes) : res queryErr predicate :=
  if bool_decide (d = []) then Ok truePred
  else
    match WellFormed d with
    | Some e => Err (ErrBson e)
    | None =>
        let* elems := elements_of d in
        let* parts := try_each (fun e => if has_dollar (Key e) then compileLogical (Key e) (Value e) else compileField (Key e) (Value e)) elems in
        Ok (conj_of parts)
    end.
End bodies.

Fixpoint compileDoc_fuel (fuel : nat) (d : bytes) : res queryErr predicate :=
  match fuel with
  | O => Err OutOfFuel
  | S n => doc_body (compileDoc_fuel n) (compileOperators_fuel n) d
  end
with compileOperators_fuel (fuel : nat) (path : list bytes) (d : bytes) : res queryErr predicate :=
  match fuel with
  | O => Err OutOfFuel
  | S n => operators_body (compileOperator_fuel n) path d
  end
with compileOperator_fuel (fuel : nat) (path : list bytes) (op : bytes) (arg : RawValue) : res queryErr predicate :=
  match fuel with
  | O => Err OutOfFuel
  | S n => operator_body (compileDoc_fuel n) (compileOperators_fuel n) (compileOperator_fuel n) path op arg
  end.

(** Every call but those of an operator on its argument shortens the filter:
    twice its length is fuel enough ([compile_total]). *)
Definition doc_fuel (d : bytes) : nat := (2 * List.length d + 2)%nat.
Definition op_fuel (arg : RawValue) : nat := (2 * List.length (rv_Data arg) + 3)%nat.

Definition compileDoc (d : bytes) : res queryErr predicate := compileDoc_fuel (doc_fuel d) d.
Definition compileOperators (path : list bytes) (d : bytes) : res queryErr predicate := compileOperators_fuel (doc_fuel d) path d.
Definition compileOperator (path : list bytes) (op : bytes) (arg : RawValue) : res queryErr predicate := compileOperator_fuel (op_fuel arg) path op arg.

Definition Compile (filter : bytes) : res queryErr Matcher := let* p := compileDoc filter in Ok (MkMatcher p).
End compile.

(** ** Every call is on a part of the value *)

Definition dlen (v : RawValue) : nat := List.length (rv_Data v).

Lemma lookup_loop_shorter fuel key : forall b v, lookup_loop fuel key b = Some v -> (dlen v < List.length b)%nat.
Proof.
  induction fuel as [|fuel IH]; intros b v; cbn [lookup_loop]; [done|]. destruct b as [|t b]; [done|]. destruct (t =? 0); [done|].
  destruct (next_element (t :: b) t) as [|[e b']] eqn:En; [done|]. apply next_element_data in En as (H1 & H2 & _).
  case_bool_decide; [by intros [= <-]|]. intros H3%IH. lia.
Qed.

Lemma Lookup_shorter r key v : Lookup r key = Some v -> (dlen v < List.length r)%nat.
Proof. unfold Lookup. destruct (_ || _); [done|]. intros H%lookup_loop_shorter. rewrite length_drop in H. lia. Qed.

Lemma Lookup_Document_shorter v key w : Lookup (Document v) key = Some w -> (dlen w < dlen v)%nat.
Proof. intros H%Lookup_shorter. pose proof (Document_data v) as [H1 _]. unfold dlen in *. lia. Qed.

Lemma elems_shorter r e : e ∈ elems r -> (dlen (Value e) < List.length r)%nat.
Proof. intros He. pose proof (elems_data r) as H. rewrite Forall_forall in H. by apply H in He as [He _]. Qed.

Lemma arrayElems_shorter v e : e ∈ arrayElems v -> (dlen e < dlen v)%nat.
Proof.
  unfold arrayElems. destruct (one_of _ _); [|by intros ?%not_elem_of_nil]. intros (x & -> & Hx)%list_elem_of_fmap.
  apply elems_shorter in Hx. pose proof (Document_data v) as [H1 _]. unfold dlen in *. lia.
Qed.

Lemma nthElement_elem v i e : nthElement v i = Some e -> e ∈ arrayElems v.
Proof. unfold nthElement. destruct (_ || _); [done|]. apply list_elem_of_lookup_2. Qed.

(** *** The walk down a path ends *)

Lemma descend_body_ext f g v path :
  (forall w path', (dlen w < dlen v)%nat -> f w path' = g w path') -> descend_body f v path = descend_body g v path.
Proof.
  intros H. unfold descend_body. destruct path as [|comp path]; [done|]. destruct (_ =? _).
  { destruct (Lookup _ _) eqn:E; [|done]. by apply H, (Lookup_Document_shorter v comp). }
  destruct (_ =? _); [|done].
  assert (E1 : forall e, e ∈ arrayElems v -> f e (comp :: path) = g e (comp :: path)) by (intros e He; by apply H, arrayElems_shorter).
  assert (E2 : fan (fun e => f e (comp :: path)) (arrayElems v) = fan (fun e => g e (comp :: path)) (arrayElems v)).
  { unfold fan. f_equal.
    - f_equal. apply map_ext_in. intros e He. f_equal. by apply E1, list_elem_of_In.
    - revert E1. generalize (arrayElems v). intros l. induction l as [|x l IH]; intros E1; [done|]. cbn [existsb].
      rewrite (E1 x), IH; [done| |left]. intros e He. apply E1. by right. }
  rewrite E2. destruct (arrayIndex comp); [|done]. destruct (nthElement v _) eqn:En; [|done].
  rewrite H; [done|]. by apply arrayElems_shorter, (nthElement_elem v z).
Qed.

Lemma descend_fuel_stable n : forall m v path, (dlen v < n)%nat -> (dlen v < m)%nat -> descend_fuel n v path = descend_fuel m v path.
Proof.
  induction n as [|n IH]; intros m v path Hn Hm; [lia|]. destruct m as [|m]; [lia|]. cbn [descend_fuel].
  apply descend_body_ext. intros w path' Hw. apply IH; lia.
Qed.

(** The walk satisfies the recursive equation the source is written as. *)
Lemma descend_eq v path : descend v path = descend_body descend v path.
Proof.
  unfold descend at 1. cbn [descend_fuel]. apply descend_body_ext. intros w path' Hw. apply descend_fuel_stable; unfold dlen in *; lia.
Qed.

(** Induction on a value through the calls of the walk. *)
Lemma value_ind (P : RawValue -> Prop) : (forall v, (forall w, (dlen w < dlen v)%nat -> P w) -> P v) -> forall v, P v.
Proof. intros H. apply (well_founded_ind (well_founded_ltof _ dlen)). intros v IH. apply H, IH. Qed.

(** ** What a path reaches *)

Inductive reaches : RawValue -> list bytes -> RawValue -> Prop :=
| reaches_here v : reaches v [] v
| reaches_field v comp path sub w :
    rv_Type v = TypeDocument -> Lookup (Document v) comp = Some sub -> reaches sub path w -> reaches v (comp :: path) w
| reaches_index v comp path i e w :
    rv_Type v = TypeArray -> arrayIndex comp = Some i -> 0 <= i -> arrayElems v !! Z.to_nat i = Some e -> reaches e path w ->
    reaches v (comp :: path) w
| reaches_fan v comp path e w :
    rv_Type v = TypeArray -> e ∈ arrayElems v -> reaches e (comp :: path) w -> reaches v (comp :: path) w.

Lemma nthElement_Some v i e : nthElement v i = Some e <-> 0 <= i /\ arrayElems v !! Z.to_nat i = Some e.
Proof.
  unfold nthElement. destruct (Z.ltb_spec i 0); cbn [orb]; [split; [done|lia]|].
  rewrite Z.geb_leb. destruct (Z.leb_spec (blen (arrayElems v)) i); [|by split; [|intros []]].
  split; [done|]. intros [_ H1]. apply lookup_lt_Some in H1. unfold blen in *. lia.
Qed.

Lemma fan_elem f l w : w ∈ (fan f l).1 <-> exists e, e ∈ l /\ w ∈ (f e).1.
Proof.
  unfold fan. cbn [fst]. induction l as [|x l IH]; cbn [map concat]; [split; [by intros ?%not_elem_of_nil|by intros (e & ?%not_elem_of_nil & _)]|].
  rewrite elem_of_app, IH. split; [intros [H|(e & He & H)]|intros (e & [->|He]%elem_of_cons & H)].
  - exists x. split; [left|done].
  - exists e. split; [by right|done].
  - by left.
  - right. by exists e.
Qed.

Lemma descend_sound : forall v path w, w ∈ (descend v path).1 -> reaches v path w.
Proof.
  intros v. induction v as [v IH] using value_ind. intros path w. rewrite descend_eq. unfold descend_body. destruct path as [|comp path].
  { cbn [fst]. intros ->%list_elem_of_singleton. constructor. }
  destruct (Z.eqb_spec (rv_Type v) TypeDocument) as [Ed|_].
  { destruct (Lookup _ _) as [sub|] eqn:El; [|by intros ?%not_elem_of_nil]. intros H. eapply reaches_field; [done..|].
    apply IH; [by apply (Lookup_Document_shorter v comp)|done]. }
  destruct (Z.eqb_spec (rv_Type v) TypeArray) as [Ea|_]; [|by intros ?%not_elem_of_nil]. cbn zeta. cbn [fst]. rewrite elem_of_app, fan_elem. intros [H|(e & He & H)].
  - destruct (arrayIndex comp) as [i|] eqn:Ei; [|by apply not_elem_of_nil in H]. destruct (nthElement v i) as [e|] eqn:En; [|by apply not_elem_of_nil in H].
    pose proof (arrayElems_shorter v e (nthElement_elem _ _ _ En)). apply nthElement_Some in En as [Hi En]. eapply reaches_index; [done..|]. by apply IH.
  - eapply reaches_fan; [done..|]. apply IH; [by apply arrayElems_shorter|done].
Qed.

Lemma descend_complete v path w : reaches v path w -> w ∈ (descend v path).1.
Proof.
  induction 1 as [v|v comp path sub w Ed El _ IH|v comp path i e w Ea Ei Hi En _ IH|v comp path e w Ea He _ IH]; rewrite descend_eq; unfold descend_body.
  - cbn [fst]. by apply list_elem_of_singleton.
  - by rewrite Ed, Z.eqb_refl, El.
  - rewrite Ea. change (TypeArray =? TypeDocument) with false. rewrite Z.eqb_refl, Ei. cbn zeta. cbn [fst].
    assert (En' : nthElement v i = Some e) by (by apply nthElement_Some). rewrite En', elem_of_app. by left.
  - rewrite Ea. change (TypeArray =? TypeDocument) with false. rewrite Z.eqb_refl. cbn zeta. cbn [fst]. rewrite elem_of_app, fan_elem. right. by exists e.
Qed.

(** A walk reports that it found something when it has a value to show. *)
Lemma descend_found : forall v path, (descend v path).2 = true <-> (descend v path).1 <> [].
Proof.
  intros v. induction v as [v IH] using value_ind. intros path. rewrite descend_eq. unfold descend_body. destruct path as [|comp path]; [done|].
  destruct (_ =? _).
  { destruct (Lookup _ _) as [sub|] eqn:El; [|done]. apply IH. by apply (Lookup_Document_shorter v comp). }
  destruct (_ =? _); [|done]. cbn zeta. cbn [fst snd].
  assert (Hf : (fan (fun e => descend e (comp :: path)) (arrayElems v)).2 = true <-> (fan (fun e => descend e (comp :: path)) (arrayElems v)).1 <> []).
  { assert (IH' : forall e, e ∈ arrayElems v -> (descend e (comp :: path)).2 = true <-> (descend e (comp :: path)).1 <> []) by (intros e He; by apply IH, arrayElems_shorter).
    unfold fan. cbn [fst snd]. revert IH'. generalize (arrayElems v). intros l. induction l as [|x l IHl]; intros IH'; [done|].
    cbn [existsb map concat]. rewrite orb_true_iff, (IH' x) by left. rewrite IHl by (intros e He; apply IH'; by right).
    destruct (descend x (comp :: path)).1; cbn [app]; [naive_solver|]. split; [done|]. intros _. by left. }
  rewrite orb_true_iff, Hf. destruct (arrayIndex comp) as [i|]; cbn [fst snd app]; [|naive_solver].
  destruct (nthElement v i) as [e|] eqn:En; cbn [fst snd app]; [|naive_solver].
  rewrite IH by (by apply arrayElems_shorter, (nthElement_elem v i)). destruct (descend e path).1; cbn [app]; [naive_solver|]. split; [done|]. intros _. by left.
Qed.

Lemma traverse_exact doc path w : w ∈ (traverse doc path).1 <-> reaches (root doc) path w.
Proof. split; [apply descend_sound|apply descend_complete]. Qed.

Lemma traverse_present doc path : (traverse doc path).2 = true <-> exists w, reaches (root doc) path w.
Proof.
  unfold traverse. rewrite descend_found. split.
  - destruct (descend (root doc) path).1 as [|w l] eqn:E; [done|]. intros _. exists w. apply descend_sound. rewrite E. left.
  - intros (w & H%descend_complete) E. rewrite E in H. by apply not_elem_of_nil in H.
Qed.

(** ** The fast path *)

Lemma single_loop_descend path : forall v o,
  single_loop v path = (o, true) -> descend v path = match o with Some w => ([w], true) | None => ([], false) end.
Proof.
  induction path as [|comp path IH]; intros v o; rewrite descend_eq; unfold descend_body; cbn [single_loop]; [by intros [= <-]|].
  destruct (Z.eqb_spec (rv_Type v) TypeArray) as [Ea|_]; [done|].
  destruct (rv_Type v =? TypeDocument); cbn [negb]; [|by intros [= <-]].
  destruct (Lookup (Document v) comp) as [sub|]; [apply IH|by intros [= <-]].
Qed.

(** The walk over all values, without the fast path. *)
Definition field_eval_slow (mv : RawValue -> bool) (mm ew : bool) (path : list bytes) (doc : bytes) : bool :=
  let '(values, present) := traverse doc path in
  if negb present then mm else existsb (match_one mv ew) values.

Lemma field_eval_slow_eq mv mm ew path doc : field_eval mv mm ew path doc = field_eval_slow mv mm ew path doc.
Proof.
  unfold field_eval, field_eval_slow, traverseSingle, traverse. destruct (single_loop (root doc) path) as [o []] eqn:E; [|done].
  rewrite (single_loop_descend _ _ _ E). destruct o; cbn [negb existsb]; [by rewrite orb_false_r|done].
Qed.

Lemma existsb_elem {A} (f : A -> bool) l : existsb f l = true <-> exists a, a ∈ l /\ f a = true.
Proof. rewrite existsb_exists. by setoid_rewrite list_elem_of_In. Qed.

Lemma forallb_elem {A} (f : A -> bool) l : forallb f l = true <-> forall a, a ∈ l -> f a = true.
Proof. rewrite forallb_forall. by setoid_rewrite list_elem_of_In. Qed.

(** The operator holds of a value, or of an element of it. *)
Definition satisfied (leaf : fieldLeaf) (w : RawValue) : Prop :=
  matchValue leaf w = true \/
  (elementWise leaf = true /\ rv_Type w = TypeArray /\ exists e, e ∈ arrayElems w /\ matchValue leaf e = true).

Lemma match_one_true leaf w : match_one (matchValue leaf) (elementWise leaf) w = true <-> satisfied leaf w.
Proof. unfold match_one, satisfied. rewrite orb_true_iff, !andb_true_iff, Z.eqb_eq, existsb_elem. tauto. Qed.

(** ** Compiling ends *)

Section total.
Context {PF : Platform}.

Lemma elements_of_shorter d es e : elements_of d = Ok es -> e ∈ es -> (dlen (Value e) < List.length d)%nat.
Proof.
  unfold elements_of. intros H He. apply elems_shorter. unfold elems. by destruct (Elements d); [|injection H as ->].
Qed.

Lemma Document_shorter v : (List.length (Document v) <= dlen v)%nat.
Proof. apply Document_data. Qed.

Lemma try_each_ext {A B} (f g : A -> res queryErr B) l : (forall a, a ∈ l -> f a = g a) -> try_each f l = try_each g l.
Proof.
  induction l as [|a l IH]; intros H; [done|]. cbn [try_each]. rewrite (H a) by left. rewrite IH; [done|]. intros b Hb. apply H. by right.
Qed.

Lemma elements_bind_ext {B} d (k k' : list Element -> res queryErr B) :
  (forall es, elements_of d = Ok es -> k es = k' es) -> res_bind (elements_of d) k = res_bind (elements_of d) k'.
Proof. intros H. destruct (elements_of d) as [es|e|]; cbn [res_bind]; [by apply H|done|done]. Qed.

Lemma doc_body_ext f f' g g' d :
  (forall x, (List.length x < List.length d)%nat -> f x = f' x) -> (forall path x, (List.length x < List.length d)%nat -> g path x = g' path x) ->
  doc_body f g d = doc_body f' g' d.
Proof.
  intros Hf Hg. unfold doc_body. case_bool_decide; [done|]. destruct (WellFormed d); [done|]. apply elements_bind_ext. intros es Hes. f_equal.
  apply try_each_ext. intros e He. pose proof (elements_of_shorter d es e Hes He) as Hl. pose proof (Document_shorter (Value e)).
  assert (Ha : compileFilterArray f (Value e) = compileFilterArray f' (Value e)).
  { unfold compileFilterArray. destruct (negb _); [done|]. pose proof (arrayElems_shorter (Value e)) as Hs. revert Hs. generalize (arrayElems (Value e)) as l. intros l Hs.
    destruct l as [|x l]; [done|]. apply try_each_ext. intros y Hy. destruct (negb _); [done|]. apply Hf. apply Hs in Hy. pose proof (Document_shorter y). lia. }
  destruct (has_dollar (Key e)); [unfold compileLogical; by rewrite Ha|]. unfold compileField. destruct (isOperatorDoc _); [|done]. apply Hg. lia.
Qed.

Lemma operators_body_ext h h' path d :
  (forall path op a, (dlen a < List.length d)%nat -> h path op a = h' path op a) -> operators_body h path d = operators_body h' path d.
Proof.
  intros H. unfold operators_body. apply elements_bind_ext. intros es Hes. f_equal. apply try_each_ext. intros e He. by apply H, (elements_of_shorter d es).
Qed.

Lemma operator_body_ext f f' g g' h h' path op arg :
  (forall x, (List.length x <= dlen arg)%nat -> f x = f' x) -> (forall path x, (List.length x <= dlen arg)%nat -> g path x = g' path x) ->
  (forall path op a, (dlen a < dlen arg)%nat -> h path op a = h' path op a) -> operator_body f g h path op arg = operator_body f' g' h' path op arg.
Proof.
  intros Hf Hg Hh. pose proof (Document_shorter arg) as Hd.
  assert (E : newElemMatchPred f h path arg = newElemMatchPred f' h' path arg).
  { unfold newElemMatchPred, compileElemMatch. destruct (negb _); [done|]. f_equal. apply elements_bind_ext. intros es Hes.
    rewrite (Hf (Document arg)) by done. destruct es as [|e es]; [done|]. destruct (has_dollar _); [|done]. f_equal.
    apply try_each_ext. intros x Hx. apply Hh. pose proof (elements_of_shorter _ _ x Hes Hx). lia. }
  unfold operator_body. cbv zeta. rewrite E, (Hg path (Document arg)) by done. done.
Qed.

Lemma compile_stable n :
  (forall m d, (2 * List.length d + 1 <= n)%nat -> (2 * List.length d + 1 <= m)%nat -> compileDoc_fuel n d = compileDoc_fuel m d) /\
  (forall m path d, (2 * List.length d + 1 <= n)%nat -> (2 * List.length d + 1 <= m)%nat -> compileOperators_fuel n path d = compileOperators_fuel m path d) /\
  (forall m path op a, (2 * dlen a + 2 <= n)%nat -> (2 * dlen a + 2 <= m)%nat -> compileOperator_fuel n path op a = compileOperator_fuel m path op a).
Proof.
  induction n as [|n (IH1 & IH2 & IH3)]; [split_and!; intros; lia|]. split_and!.
  - intros m d Hn Hm. destruct m as [|m]; [lia|]. cbn [compileDoc_fuel]. apply doc_body_ext; intros; [apply IH1|apply IH2]; lia.
  - intros m path d Hn Hm. destruct m as [|m]; [lia|]. cbn [compileOperators_fuel]. apply operators_body_ext. intros. apply IH3; lia.
  - intros m path op a Hn Hm. destruct m as [|m]; [lia|]. cbn [compileOperator_fuel]. apply operator_body_ext; intros; [apply IH1|apply IH2|apply IH3]; lia.
Qed.

(** *** The equations the source is written as *)

Lemma compileDoc_eq d : compileDoc d = doc_body compileDoc compileOperators d.
Proof.
  unfold compileDoc at 1, doc_fuel. replace (2 * List.length d + 2)%nat with (S (2 * List.length d + 1)) by lia. cbn [compileDoc_fuel].
  apply doc_body_ext; intros; unfold compileDoc, compileOperators, doc_fuel; [apply compile_stable|apply (compile_stable _)]; lia.
Qed.

Lemma compileOperators_eq path d : compileOperators path d = operators_body compileOperator path d.
Proof.
  unfold compileOperators, doc_fuel. replace (2 * List.length d + 2)%nat with (S (2 * List.length d + 1)) by lia. cbn [compileOperators_fuel].
  apply operators_body_ext. intros. unfold compileOperator, op_fuel, dlen in *. apply (compile_stable _); unfold dlen; lia.
Qed.

Lemma compileOperator_eq path op a : compileOperator path op a = operator_body compileDoc compileOperators compileOperator path op a.
Proof.
  unfold compileOperator at 1, op_fuel. replace (2 * List.length (rv_Data a) + 3)%nat with (S (2 * dlen a + 2)) by (unfold dlen; lia). cbn [compileOperator_fuel].
  apply operator_body_ext; intros; unfold compileDoc, compileOperators, compileOperator, doc_fuel, op_fuel; apply (compile_stable _); unfold dlen in *; lia.
Qed.

(** *** An outcome of its own *)

(** A result that is neither a panic nor for want of fuel. *)
Definition settles {A} (r : res queryErr A) : Prop :=
  (exists a, r = Ok a) \/ r = Err ErrBadQuery \/ exists e, r = Err (ErrBson e).

Lemma settles_Ok {A} (a : A) : settles (Ok a).
Proof. left. by exists a. Qed.

Lemma settles_bad {A} : settles (@Err queryErr A ErrBadQuery).
Proof. right. by left. Qed.

Lemma settles_bind {A B} (r : res queryErr A) (k : A -> res queryErr B) :
  settles r -> (forall a, r = Ok a -> settles (k a)) -> settles (res_bind r k).
Proof. intros [(a & ->)|[->|(e & ->)]] H; [by apply H|right; by left|right; right; by exists e]. Qed.

Lemma settles_try_each {A B} (f : A -> res queryErr B) l : (forall a, a ∈ l -> settles (f a)) -> settles (try_each f l).
Proof.
  induction l as [|a l IH]; intros H; cbn [try_each]; [apply settles_Ok|].
  apply settles_bind; [apply H; left|]. intros b _. apply settles_bind; [apply IH; intros x Hx; apply H; by right|]. intros; apply settles_Ok.
Qed.

Lemma settles_elements d : settles (elements_of d).
Proof. unfold elements_of. destruct (Elements d) as [e|es]; [right; right; by exists e|apply settles_Ok]. Qed.

Create HintDb settle.
#[local] Hint Resolve settles_Ok settles_bad settles_elements : settle.

Lemma settles_resolve v : settles (resolveTypeArg v).
Proof. unfold resolveTypeArg. destruct (StringValueOK v) as [s []]; [|destruct (AsFloat64 v)]; repeat case_match; auto with settle. Qed.

Lemma settles_type v : settles (newTypeLeaf v).
Proof.
  unfold newTypeLeaf. destruct (_ =? _); apply settles_bind; auto using settles_resolve with settle.
  apply settles_try_each. auto using settles_resolve.
Qed.

Lemma settles_size v : settles (size_arg v).
Proof. unfold size_arg. destruct (AsFloat64 v). destruct (_ || _); auto with settle. Qed.

Lemma settles_in v : settles (newInLeaf v).
Proof. unfold newInLeaf. repeat case_match; auto with settle. Qed.

Lemma doc_body_settles f g d :
  (forall x, (List.length x < List.length d)%nat -> settles (f x)) -> (forall path x, (List.length x < List.length d)%nat -> settles (g path x)) ->
  settles (doc_body f g d).
Proof.
  intros Hf Hg. unfold doc_body. case_bool_decide; [auto with settle|]. destruct (WellFormed d) as [e|]; [right; right; by exists e|].
  apply settles_bind; [auto with settle|]. intros es Hes. apply settles_bind; [|auto with settle].
  apply settles_try_each. intros e He. pose proof (elements_of_shorter d es e Hes He) as Hl. pose proof (Document_shorter (Value e)).
  assert (Ha : settles (compileFilterArray f (Value e))).
  { unfold compileFilterArray. destruct (negb _); [auto with settle|]. pose proof (arrayElems_shorter (Value e)) as Hs. revert Hs. generalize (arrayElems (Value e)) as l. intros l Hs.
    destruct l as [|x l]; [auto with settle|]. apply settles_try_each. intros y Hy. destruct (negb _); [auto with settle|]. apply Hf. apply Hs in Hy. pose proof (Document_shorter y). lia. }
  destruct (has_dollar (Key e)).
  - unfold compileLogical. repeat (case_bool_decide; [apply settles_bind; [done|auto with settle]|]). auto with settle.
  - unfold compileField. destruct (isOperatorDoc _); [|auto with settle]. apply Hg. lia.
Qed.

Lemma operators_body_settles h path d :
  (forall path op a, (dlen a < List.length d)%nat -> settles (h path op a)) -> settles (operators_body h path d).
Proof.
  intros H. unfold operators_body. apply settles_bind; [auto with settle|]. intros es Hes. apply settles_bind.
  - apply settles_try_each. intros e He. by apply H, (elements_of_shorter d es).
  - intros [|p ps] _; auto with settle.
Qed.

Lemma elemMatch_settles f h path arg :
  (forall x, (List.length x <= dlen arg)%nat -> settles (f x)) -> (forall path op a, (dlen a < dlen arg)%nat -> settles (h path op a)) ->
  settles (newElemMatchPred f h path arg).
Proof.
  intros Hf Hh. pose proof (Document_shorter arg) as Hd. unfold newElemMatchPred, compileElemMatch. destruct (negb _); [auto with settle|].
  apply settles_bind; [|intros []; auto with settle]. apply settles_bind; [auto with settle|]. intros es Hes.
  assert (Hdoc : settles (f (Document arg))) by auto. destruct es as [|e es]; [apply settles_bind; auto with settle|].
  destruct (has_dollar _); apply settles_bind; auto with settle.
  apply settles_try_each. intros x Hx. apply Hh. pose proof (elements_of_shorter _ _ x Hes Hx). lia.
Qed.

Lemma operator_body_settles f g h path op arg :
  (forall x, (List.length x <= dlen arg)%nat -> settles (f x)) -> (forall path x, (List.length x <= dlen arg)%nat -> settles (g path x)) ->
  (forall path op a, (dlen a < dlen arg)%nat -> settles (h path op a)) -> settles (operator_body f g h path op arg).
Proof.
  intros Hf Hg Hh. pose proof (Document_shorter arg) as Hd. pose proof (elemMatch_settles f h path arg Hf Hh) as He.
  assert (Hg' : settles (g path (Document arg))) by auto. unfold operator_body, newAllPred. cbv zeta.
  repeat (case_bool_decide; [solve [auto with settle | done | apply settles_bind; auto using settles_in, settles_type, settles_size with settle
    | repeat case_match; auto with settle; apply settles_bind; auto with settle]|]).
  auto with settle.
Qed.

Lemma compile_settles n :
  (forall d, (2 * List.length d + 1 <= n)%nat -> settles (compileDoc_fuel n d)) /\
  (forall path d, (2 * List.length d + 1 <= n)%nat -> settles (compileOperators_fuel n path d)) /\
  (forall path op a, (2 * dlen a + 2 <= n)%nat -> settles (compileOperator_fuel n path op a)).
Proof.
  induction n as [|n (IH1 & IH2 & IH3)]; [split_and!; intros; lia|]. split_and!.
  - intros d Hn. apply doc_body_settles; intros; [apply IH1|apply IH2]; lia.
  - intros path d Hn. apply operators_body_settles. intros. apply IH3; lia.
  - intros path op a Hn. apply operator_body_settles; intros; [apply IH1|apply IH2|apply IH3]; lia.
Qed.

(** C22. Compile returns on every filter, with a matcher or an error of the filter:
    fuel of twice its length is never used up, and more of it changes nothing. *)
Theorem compile_total filter :
  settles (Compile filter) /\ forall n, (doc_fuel filter <= n)%nat -> compileDoc_fuel n filter = compileDoc filter.
Proof.
  split.
  - apply settles_bind; [|auto with settle]. apply compile_settles. unfold doc_fuel. lia.
  - intros n Hn. apply compile_stable; unfold doc_fuel in *; lia.
Qed.
End total.

(** ** Operators in terms of others *)

Lemma bool_iff (a b : bool) : (a = true <-> b = true) -> a = b.
Proof. destruct a, b; naive_solver. Qed.

Lemma field_true path leaf doc :
  eval (fieldPred path leaf) doc = true <->
  (exists w, reaches (root doc) path w /\ satisfied leaf w) \/ (matchMissing leaf = true /\ ~ exists w, reaches (root doc) path w).
Proof.
  cbn [eval]. rewrite field_eval_slow_eq. unfold field_eval_slow. pose proof (traverse_present doc path) as Hp. pose proof (traverse_exact doc path) as He.
  destruct (traverse doc path) as [values present]. cbn [fst snd] in *. destruct present; cbn [negb].
  - rewrite existsb_elem. setoid_rewrite match_one_true. setoid_rewrite He. destruct Hp as [Hp _]. split; [by left|]. intros [H|[_ H]]; [done|]. destruct (H (Hp eq_refl)).
  - split; [|intros [(w & H & _)|[H _]]; [|done]].
    + intros H. right. split; [done|]. intros H'. by apply Hp in H'.
    + assert (false = true) by (apply Hp; by exists w). done.
Qed.

(** C21. A field predicate holds of a document when its path reaches a value that
    satisfies the operator, itself or in one of its elements, or reaches none and
    the operator matches what is missing. *)
Theorem match_semantics path leaf doc :
  eval (fieldPred path leaf) doc = true <->
  (exists w, reaches (root doc) path w /\ satisfied leaf w) \/ (matchMissing leaf = true /\ ~ exists w, reaches (root doc) path w).
Proof. apply field_true. Qed.

(** Two leaves, that are satisfied by the same values and match what is missing
    alike, one of them element-wise as the other. *)
Lemma leaf_or_split path l l1 l2 doc :
  elementWise l = true -> elementWise l1 = true -> elementWise l2 = true ->
  (forall v, matchValue l v = matchValue l1 v || matchValue l2 v) -> matchMissing l = matchMissing l1 || matchMissing l2 ->
  eval (fieldPred path l) doc = eval (fieldPred path l1) doc || eval (fieldPred path l2) doc.
Proof.
  intros E E1 E2 Hv Hm. apply bool_iff. rewrite orb_true_iff, !field_true, Hm, orb_true_iff.
  assert (Hs : forall w, satisfied l w <-> satisfied l1 w \/ satisfied l2 w).
  { intros w. unfold satisfied. rewrite E, E1, E2. split.
    - intros [H|(_ & Ha & e & He & H)]; rewrite Hv in H; apply orb_true_iff in H as [H|H]; [left; by left|right; by left|left; right; eauto|right; right; eauto].
    - intros [[H|(_ & Ha & e & He & H)]|[H|(_ & Ha & e & He & H)]].
      + left. by rewrite Hv, H.
      + right. split_and!; [done..|]. exists e. by rewrite Hv, H.
      + left. by rewrite Hv, H, orb_true_r.
      + right. split_and!; [done..|]. exists e. by rewrite Hv, H, orb_true_r. }
  setoid_rewrite Hs. split.
  - intros [(w & H & [Hw|Hw])|[[Hw|Hw] H]]; [left; left|right; left|left; right|right; right]; eauto.
  - intros [[(w & H & Hw)|[Hw H]]|[(w & H & Hw)|[Hw H]]]; [left; exists w; auto|right; auto|left; exists w; auto|right; auto].
Qed.

Lemma existsb_orb {A} (f g : A -> bool) l : existsb (fun a => f a || g a) l = existsb f l || existsb g l.
Proof. induction l as [|a l IH]; [done|]. cbn [existsb]. rewrite IH. by destruct (f a), (g a), (existsb f l). Qed.

(** {f: {$in: [v1, ..., vn]}} selects what {$or: [{f: v1}, ..., {f: vn}]} does,
    missing fields and nulls included. *)
Theorem in_is_or arg leaf path doc :
  newInLeaf arg = Ok leaf ->
  eval (fieldPred path leaf) doc = eval (orPred (map (fun w => fieldPred path (eqLeaf w)) (arrayElems arg))) doc.
Proof.
  unfold newInLeaf. destruct (negb _); [done|]. cbv zeta. destruct (existsb isOperatorDoc _); [done|]. intros [= <-].
  generalize (arrayElems arg) as ws. intros ws. change (eval (orPred ?l) doc) with (existsb (fun c => eval c doc) l).
  induction ws as [|w ws IH].
  - apply bool_iff. rewrite field_true. cbn [map existsb matchMissing]. split; [|done]. intros [(v & _ & H)|[H _]]; [|done].
    destruct H as [H|(_ & _ & e & _ & H)]; done.
  - cbn [map existsb]. rewrite <- IH. apply leaf_or_split; try done.
Qed.

(** A value equal to the operand is in its type bracket. *)
Lemma Equal_bracket v w : Equal v w = true -> CanonicalType (rv_Type v) = CanonicalType (rv_Type w).
Proof.
  unfold Equal, Compare. cbn [compare_fuel]. destruct (Z.eqb_spec (CanonicalType (rv_Type v)) (CanonicalType (rv_Type w))); [done|]. cbn [negb].
  by destruct (_ <? _).
Qed.

(** $gte is $gt or $eq and $lte is $lt or $eq, but for null: a missing field
    equals null and is not compared to it. *)
Theorem inclusive_is_strict_or_equal want path doc :
  isNullOperand want = false ->
  eval (fieldPred path (cmpLeaf want opGte)) doc = eval (fieldPred path (cmpLeaf want opGt)) doc || eval (fieldPred path (eqLeaf want)) doc /\
  eval (fieldPred path (cmpLeaf want opLte)) doc = eval (fieldPred path (cmpLeaf want opLt)) doc || eval (fieldPred path (eqLeaf want)) doc.
Proof.
  intros Hn. split; (apply leaf_or_split; [done..| |by cbn [matchMissing]; rewrite Hn]); intros v; cbn [matchValue]; unfold cmp_match.
  all: pose proof (Equal_bracket v want) as Hb; unfold Equal in *; destruct (Z.eqb_spec (CanonicalType (rv_Type v)) (CanonicalType (rv_Type want))) as [E|E]; cbn [negb orb].
  all: destruct (Compare v want); cbn [cmp_holds orb]; try done; by destruct E, Hb.
Qed.

(** ** Filters on documents *)

#[local] Instance amd64 : Platform := fun _ => - 2 ^ 63.

Definition doc1 (key : string) (v : RawValue) : bytes := Build (AppendValue (str key) v []).
Definition array_val (vs : list RawValue) : RawValue := MkRawValue TypeArray (BuildArray vs).
Definition doc_val (d : bytes) : RawValue := MkRawValue TypeDocument d.
Definition matches_filter (filter doc : bytes) : option bool :=
  match Compile filter with Ok m => Some (Match m doc) | _ => None end.

Definition int_n (n : Z) : RawValue := int32_val n.

(** {a: [{b: 1}, {b: 2}]} *)
Definition fan_doc : bytes := doc1 "a" (array_val [doc_val (doc1 "b" (int_n 1)); doc_val (doc1 "b" (int_n 2))]).

Example fan_out : matches_filter (doc1 "a.b" (int_n 2)) fan_doc = Some true.
Proof. vm_compute. reflexivity. Qed.

Example fan_out_position : matches_filter (doc1 "a.0.b" (int_n 2)) fan_doc = Some false.
Proof. vm_compute. reflexivity. Qed.

Example elem_match_fan : matches_filter (doc1 "a" (doc_val (doc1 "$elemMatch" (doc_val (doc1 "b" (doc_val (doc1 "$gt" (int_n 1)))))))) fan_doc = Some true.
Proof. vm_compute. reflexivity. Qed.

Example cross_type_equality : matches_filter (doc1 "a" (double_val (f64_of_int 5))) (doc1 "a" (int_n 5)) = Some true.
Proof. vm_compute. reflexivity. Qed.

Example null_matches_missing : matches_filter (doc1 "z" null_val) fan_doc = Some true.
Proof. vm_compute. reflexivity. Qed.

Example unknown_operator : Compile (doc1 "a" (doc_val (doc1 "$near" (int_n 5)))) = Err ErrBadQuery.
Proof. vm_compute. reflexivity. Qed.

(** An index in a path is an int that wraps around: the component 2^64 is the
    element at position 0. *)
Theorem array_index_wraps :
  arrayIndex (str "18446744073709551616") = Some 0 /\
  matches_filter (doc1 "a.18446744073709551616.b" (int_n 1)) fan_doc = Some true /\
  matches_filter (doc1 "a.9.b" (int_n 1)) fan_doc = Some false.
Proof. vm_compute. split_and!; reflexivity. Qed.

Lemma in_is_or_witness :
  newInLeaf (array_val [int_n 1; null_val]) = Ok (inLeaf [int_n 1; null_val] true) /\
  eval (fieldPred [str "c"] (inLeaf [int_n 1; null_val] true)) fan_doc
    = eval (orPred (map (fun w => fieldPred [str "c"] (eqLeaf w)) (arrayElems (array_val [int_n 1; null_val])))) fan_doc.
Proof.
  assert (H : newInLeaf (array_val [int_n 1; null_val]) = Ok (inLeaf [int_n 1; null_val] true)) by (vm_compute; reflexivity).
  split; [exact H|]. apply in_is_or. exact H.
Defined.

Lemma inclusive_is_strict_or_equal_witness :
  eval (fieldPred [str "a"; str "b"] (cmpLeaf (int_n 2) opGte)) fan_doc
  = eval (fieldPred [str "a"; str "b"] (cmpLeaf (int_n 2) opGt)) fan_doc || eval (fieldPred [str "a"; str "b"] (eqLeaf (int_n 2))) fan_doc.
Proof. apply inclusive_is_strict_or_equal. reflexivity. Defined.
