(* ===== verification/QueryShape.v ===== *)
(** * query/: projections, sorts, distinct values

    project.go, sort.go and distinct.go. A projection keeps exactly the elements
    its document names, in their order; a sort returns the one arrangement of its
    input that is in order and stable; the distinct values of a field are those an
    equality filter on the field finds. *)

From Stdlib Require Import String.
From S2P Require Import Prelude Float64 Bson BsonCompare Query.

Local Open Scope Z_scope.

(** ** Projections (project.go) *)

Record Projection := MkProjection {
  pj_fields : gset bytes;
  pj_include : bool;
  pj_keepID : bool;
  pj_empty : bool
}.

Definition no_projection : Projection := MkProjection ∅ false false true.

Definition projectionTruthy (v : RawValue) : bool := truthy v.

(** The loop over the elements: whether the polarity is set and _id named, then
    the fields of the projection. *)
Fixpoint projection_loop (es : list Element) (polaritySet idExplicit : bool) (p : Projection) : res queryErr (bool * bool * Projection) :=
  match es with
  | [] => Ok (polaritySet, idExplicit, p)
  | e :: es' =>
      let keep := projectionTruthy (Value e) in
      if bool_decide (Key e = idField) then projection_loop es' polaritySet true (MkProjection (pj_fields p) (pj_include p) keep (pj_empty p))
      else if negb polaritySet then
        projection_loop es' true idExplicit (MkProjection ({[Key e]} ∪ pj_fields p) keep (pj_keepID p) (pj_empty p))
      else if negb (eqb keep (pj_include p)) then Err ErrBadQuery
      else projection_loop es' true idExplicit (MkProjection ({[Key e]} ∪ pj_fields p) (pj_include p) (pj_keepID p) (pj_empty p))
  end.

Definition CompileProjection (proj : bytes) : res queryErr Projection :=
  if bool_decide (proj = []) then Ok no_projection
  else
    let* elems := elements_of proj in
    if bool_decide (elems = []) then Ok no_projection
    else
      let* '(polaritySet, idExplicit, p) := projection_loop elems false false (MkProjection ∅ false true false) in
      Ok (MkProjection (pj_fields p) (if polaritySet then pj_include p else pj_keepID p) (if idExplicit then pj_keepID p else true) (pj_empty p)).

(** strings.SplitN(path, ".", 2)[0]. *)
Fixpoint before_dot (path : bytes) : bytes :=
  match path with
  | [] => []
  | c :: path' => if c =? 46 then [] else c :: before_dot path'
  end.

Definition named (p : Projection) (field : bytes) : bool :=
  if bool_decide (field ∈ pj_fields p) then true
  else existsb (fun path => bool_decide (before_dot path = field)) (elements (pj_fields p)).

Definition keep (p : Projection) (field : bytes) : bool := if pj_include p then named p field else negb (named p field).

(** Whether the loop of Apply appends an element. *)
Definition keeps (p : Projection) (e : Element) : bool := if bool_decide (Key e = idField) then pj_keepID p else keep p (Key e).

Definition project_loop (p : Projection) (es : list Element) (body : bytes) : bytes :=
  fold_left (fun b e => if keeps p e then AppendValue (Key e) (Value e) b else b) es body.

Definition Projection_Apply (p : Projection) (d : bytes) : res queryErr bytes :=
  if pj_empty p then Ok d else let* elems := elements_of d in Ok (Build (project_loop p elems [])).

(** ** Sorts (sort.go) *)

Record sortKey := MkSortKey { sk_path : list bytes; sk_desc : bool }.
Record Sort := MkSort { so_keys : list sortKey }.

(** The loop of splitPath: what is left of the key, the segment so far, the
    segments before it. *)
Fixpoint split_loop (rest seg : bytes) (out : list bytes) : list bytes :=
  match rest with
  | [] => out ++ [seg]
  | c :: rest' => if c =? 46 then split_loop rest' [] (out ++ [seg]) else split_loop rest' (seg ++ [c]) out
  end.

Definition splitPath (key : bytes) : list bytes := if bool_decide (key = []) then [[]] else split_loop key [] [].

Definition sort_key (e : Element) : res queryErr sortKey :=
  let '(dir, ok) := AsFloat64 (Value e) in
  if negb ok || (negb (f64_eq dir (f64_of_int 1)) && negb (f64_eq dir (f64_of_int (-1)))) then Err ErrBadQuery
  else Ok (MkSortKey (splitPath (Key e)) (f64_eq dir (f64_of_int (-1)))).

Definition CompileSort (s : bytes) : res queryErr Sort :=
  if bool_decide (s = []) then Ok (MkSort [])
  else let* elems := elements_of s in let* keys := try_each sort_key elems in Ok (MkSort keys).

Definition Sort_Empty (s : Sort) : bool := bool_decide (so_keys s = []).

Definition nullValue : RawValue := default (MkRawValue 0 []) (Lookup (Build (AppendNull (str "n") [])) (str "n")).

Definition min_value (vs : list RawValue) (min : RawValue) : RawValue :=
  fold_left (fun m v => match Compare v m with Lt => v | _ => m end) vs min.

Definition sortValue (d : bytes) (path : list bytes) : RawValue :=
  let '(values, present) := traverse d path in
  match negb present, values with
  | true, _ | _, [] => nullValue
  | false, v :: vs => min_value vs v
  end.

(** The comparison of two documents on one key. *)
Definition cmp_key (k : sortKey) (a b : bytes) : comparison :=
  let c := Compare (sortValue a (sk_path k)) (sortValue b (sk_path k)) in
  if sk_desc k then CompOpp c else c.

Fixpoint less_loop (ks : list sortKey) (a b : bytes) : bool :=
  match ks with
  | [] => false
  | k :: ks' => match cmp_key k a b with Lt => true | Gt => false | Eq => less_loop ks' a b end
  end.

Definition less (s : Sort) (a b : bytes) : bool := less_loop (so_keys s) a b.

(** sort.SliceStable: a stable sort. Which one does not matter where less is an
    order ([stable_unique]). *)
Section stable.
Context {A : Type} (lt : A -> A -> bool).

Fixpoint stable_insert (x : A) (l : list A) : list A :=
  match l with
  | [] => [x]
  | y :: l' => if lt y x then y :: stable_insert x l' else x :: y :: l'
  end.

Fixpoint SliceStable (l : list A) : list A :=
  match l with
  | [] => []
  | x :: l' => stable_insert x (SliceStable l')
  end.
End stable.

Definition Sort_Apply (s : Sort) (docs : list bytes) : list bytes :=
  if Sort_Empty s || (blen docs <? 2) then docs else SliceStable (less s) docs.

(** ** Distinct (distinct.go) *)

Definition Distinct (doc field : bytes) : list RawValue :=
  concat (map (fun v => if rv_Type v =? TypeArray then arrayElems v else [v]) (traverse doc (splitPath field)).1).

(** ** Projections: what they keep *)

Lemma project_loop_filter p es body : project_loop p es body = append_all (List.filter (keeps p) es) body.
Proof.
  unfold project_loop, append_all. revert body. induction es as [|e es IH]; intros body; [done|]. cbn [fold_left List.filter].
  destruct (keeps p e); cbn [fold_left]; apply IH.
Qed.

Lemma filter_Forall {A} (P : A -> Prop) f l : Forall P l -> Forall P (List.filter f l).
Proof. rewrite !List.Forall_forall. intros H x [Hx _]%filter_In. by apply H. Qed.

Lemma filter_enc f es : blen (enc_elems (List.filter f es)) <= blen (enc_elems es).
Proof.
  induction es as [|e es IH]; [done|]. cbn [List.filter]. destruct (f e); unfold enc_elems in *; cbn [map concat]; rewrite !blen_app; [lia|].
  pose proof (blen_nonneg (enc_elem e)). lia.
Qed.

Lemma filter_fits f es : doc_fits es -> doc_fits (List.filter f es).
Proof. unfold doc_fits, in_u. pose proof (filter_enc f es). pose proof (blen_nonneg (enc_elems (List.filter f es))). lia. Qed.

Lemma filter_filter {A} (f : A -> bool) l : List.filter f (List.filter f l) = List.filter f l.
Proof. induction l as [|a l IH]; [done|]. cbn [List.filter]. destruct (f a) eqn:E; [|done]. cbn [List.filter]. by rewrite E, IH. Qed.

Lemma elements_of_inv r es : bytes_ok r -> elements_of r = Ok es -> Forall elem_ok es /\ doc_fits es /\ r = doc_of es.
Proof. unfold elements_of. intros Hr H. apply Elements_inv; [done|]. by destruct (Elements r); [|injection H as ->]. Qed.

Lemma elements_of_doc es : Forall elem_ok es -> doc_fits es -> elements_of (doc_of es) = Ok es.
Proof. intros. unfold elements_of. by rewrite Elements_doc_of. Qed.

Lemma Apply_spec p d es :
  bytes_ok d -> elements_of d = Ok es -> pj_empty p = false ->
  Projection_Apply p d = Ok (doc_of (List.filter (keeps p) es)).
Proof. intros Hd He Hp. unfold Projection_Apply. rewrite Hp, He. cbn [res_bind]. by rewrite project_loop_filter, append_all_nil. Qed.

(** *** The fields of a projection document *)

Definition other (e : Element) : bool := bool_decide (Key e <> idField).

(** What the loop has made of the elements es, after the state it started in. *)
Lemma projection_loop_ok es : forall ps ie p r,
  projection_loop es ps ie p = Ok r ->
  (forall e, e ∈ es -> other e = true -> projectionTruthy (Value e) = pj_include r.2) /\
  pj_fields r.2 = list_to_set (map Key (List.filter other es)) ∪ pj_fields p /\
  r.1.1 = ps || existsb other es /\ r.1.2 = ie || existsb (fun e => negb (other e)) es /\
  (ps = true -> pj_include r.2 = pj_include p) /\ pj_empty r.2 = pj_empty p /\
  pj_keepID r.2 = match last (List.filter (fun e => negb (other e)) es) with Some e => projectionTruthy (Value e) | None => pj_keepID p end.
Proof.
  induction es as [|e es IH]; intros ps ie p r; cbn [projection_loop].
  { intros [= <-]. cbn [fst snd]. split_and!; try done; [intros e He; by apply not_elem_of_nil in He|cbn; set_solver|by rewrite orb_false_r..]. }
  assert (Ho : other e = negb (bool_decide (Key e = idField))) by (unfold other; repeat case_bool_decide; done).
  cbn [List.filter existsb]. rewrite Ho. destruct (bool_decide (Key e = idField)) eqn:Ek; cbn [negb orb map list_to_set].
  - intros H. apply IH in H as (H1 & H2 & H3 & H4 & H5 & H6 & H7). cbn [pj_fields pj_include pj_keepID pj_empty] in *.
    split_and!; [|done|done|by rewrite H4, orb_true_r|done|done|].
    + intros x [->|Hx]%elem_of_cons Hox; [by rewrite Ho in Hox|by apply H1].
    + rewrite H7. destruct (List.filter (fun e => negb (other e)) es) as [|y ys] eqn:Ef; [reflexivity|]. change (last (e :: y :: ys)) with (last (y :: ys)).
      destruct (last (y :: ys)) eqn:El; [done|]. by apply last_None in El.
  - destruct ps; cbn [negb].
    + destruct (eqb (projectionTruthy (Value e)) (pj_include p)) eqn:Et; cbn [negb]; [|done]. apply eqb_prop in Et.
      intros H. apply IH in H as (H1 & H2 & H3 & H4 & H5 & H6 & H7). cbn [pj_fields pj_include pj_keepID pj_empty] in *.
      split_and!; [|rewrite H2; set_solver|done..].
      intros x [->|Hx]%elem_of_cons Hox; [by rewrite H5|by apply H1].
    + intros H. apply IH in H as (H1 & H2 & H3 & H4 & H5 & H6 & H7). cbn [pj_fields pj_include pj_keepID pj_empty] in *.
      split_and!; [|rewrite H2; set_solver|done|done|done|done|done].
      intros x [->|Hx]%elem_of_cons Hox; [by rewrite H5|by apply H1].
Qed.

(** *** What a projection document asks for *)

(** The value of its last _id, true without one; whether it includes the fields
    it names. *)
Definition asks_id (es : list Element) : bool :=
  match last (List.filter (fun e => negb (other e)) es) with Some e => projectionTruthy (Value e) | None => true end.

Definition asks_include (es : list Element) : bool :=
  match List.filter other es with e :: _ => projectionTruthy (Value e) | [] => asks_id es end.

(** The fields it names: an inclusion names the field a dotted path begins with,
    whose value it carries whole; an exclusion names fields alone. *)
Definition names (es : list Element) (field : bytes) : bool :=
  existsb (fun e => other e && (bool_decide (Key e = field) || (asks_include es && bool_decide (before_dot (Key e) = field)))) es.

(** It excludes no part of a field. *)
Definition whole_fields (es : list Element) : Prop := asks_include es = true \/ forall e, e ∈ es -> other e = true -> 46 ∉ Key e.

Definition asked (es : list Element) (e : Element) : bool :=
  if other e then eqb (asks_include es) (names es (Key e)) else asks_id es.

Lemma existsb_false_filter {A} (f : A -> bool) l : existsb f l = false -> List.filter f l = [].
Proof. induction l as [|a l IH]; [done|]. cbn [existsb List.filter]. destruct (f a); [done|]. apply IH. Qed.

Lemma last_filter_none {A} (f : A -> bool) l : existsb f l = true -> last (List.filter f l) <> None.
Proof.
  intros H E. apply last_None in E. apply existsb_elem in H as (a & Ha & Hf). assert (Hin : In a (List.filter f l)) by (apply filter_In; split; [by apply list_elem_of_In|done]).
  by rewrite E in Hin.
Qed.

(** The field, or a path into it. *)
Definition mentions (es : list Element) (field : bytes) : bool :=
  existsb (fun e => other e && (bool_decide (Key e = field) || bool_decide (before_dot (Key e) = field))) es.

Lemma before_dot_none path : 46 ∉ path -> before_dot path = path.
Proof.
  induction path as [|c path IH]; [done|]. intros [Hc Hp]%not_elem_of_cons. cbn [before_dot].
  rewrite (proj2 (Z.eqb_neq c 46)) by done. by rewrite IH.
Qed.

Lemma mentions_names es field : whole_fields es -> mentions es field = names es field.
Proof.
  unfold mentions, names, whole_fields. intros [->|Hw]; [done|]. generalize (asks_include es). intros b.
  induction es as [|e es IH]; [done|]. cbn [existsb]. rewrite IH by (intros x Hx; apply Hw; by right).
  destruct (other e) eqn:Ho; [|done]. rewrite (before_dot_none (Key e)) by (apply Hw; [by left|done]).
  destruct (bool_decide _), b; done.
Qed.

Lemma named_mentions es p field : pj_fields p = list_to_set (map Key (List.filter other es)) -> named p field = mentions es field.
Proof.
  intros Hp. apply bool_iff. unfold named, mentions. rewrite Hp.
  assert (Hin : forall k, k ∈ (list_to_set (map Key (List.filter other es)) : gset bytes) <-> exists e, e ∈ es /\ other e = true /\ Key e = k).
  { intros k. rewrite elem_of_list_to_set, list_elem_of_In, in_map_iff. setoid_rewrite filter_In. setoid_rewrite <- list_elem_of_In. naive_solver. }
  assert (Hr : existsb (fun e => other e && (bool_decide (Key e = field) || bool_decide (before_dot (Key e) = field))) es = true <->
    exists e, e ∈ es /\ other e = true /\ (Key e = field \/ before_dot (Key e) = field)).
  { rewrite existsb_elem. setoid_rewrite andb_true_iff. setoid_rewrite orb_true_iff. by setoid_rewrite bool_decide_eq_true. }
  rewrite Hr. destruct (bool_decide (field ∈ _)) eqn:E.
  - apply bool_decide_eq_true, Hin in E as (e & He & Ho & Hk). split; [|done]. intros _. exists e. auto.
  - apply bool_decide_eq_false in E. rewrite existsb_elem. split.
    + intros (k & Hk & Hd%bool_decide_eq_true). apply elem_of_elements, Hin in Hk as (e & He & Ho & <-). exists e. auto.
    + intros (e & He & Ho & [Hk|Hd]); [destruct E; apply Hin; by exists e|]. exists (Key e). split; [|by apply bool_decide_eq_true]. apply elem_of_elements, Hin. by exists e.
Qed.

Lemma compiled_spec proj p es :
  elements_of proj = Ok es -> es <> [] -> CompileProjection proj = Ok p ->
  pj_empty p = false /\ (whole_fields es -> forall e, keeps p e = asked es e) /\
  (forall e, e ∈ es -> other e = true -> projectionTruthy (Value e) = asks_include es).
Proof.
  intros He Hn. unfold CompileProjection. rewrite bool_decide_eq_false_2 by (intros ->; vm_compute in He; done). rewrite He. cbn [res_bind].
  rewrite bool_decide_eq_false_2 by done. destruct (projection_loop es false false _) as [[[ps ie] q]| |] eqn:El; [|done..]. cbn [res_bind]. intros [= <-].
  apply projection_loop_ok in El as (H1 & H2 & H3 & H4 & _ & H6 & H7). cbn [fst snd orb pj_fields pj_include pj_keepID pj_empty] in *.
  assert (Hf : pj_fields q = list_to_set (map Key (List.filter other es))) by (rewrite H2; set_solver).
  assert (Hid : (if ie then pj_keepID q else true) = asks_id es).
  { unfold asks_id. rewrite H4, H7. destruct (existsb (fun e => negb (other e)) es) eqn:E; [|by rewrite (existsb_false_filter _ _ E)].
    apply last_filter_none in E. by destruct (last (List.filter (fun e => negb (other e)) es)). }
  assert (Hinc : (if ps then pj_include q else pj_keepID q) = asks_include es).
  { unfold asks_include. rewrite H3. destruct (existsb other es) eqn:E.
    - apply existsb_elem in E as (e & Hin & Ho). destruct (List.filter other es) as [|x l] eqn:Ef.
      + assert (Hx : In e (List.filter other es)) by (apply filter_In; split; [by apply list_elem_of_In|done]). by rewrite Ef in Hx.
      + assert (Hx : In x (List.filter other es)) by (rewrite Ef; by left). apply filter_In in Hx as [Hx%list_elem_of_In Hox]. symmetry. by apply H1.
    - rewrite (existsb_false_filter _ _ E). rewrite <- Hid, H4. destruct es as [|e0 es0]; [done|]. cbn [existsb] in E |- *. apply orb_false_iff in E as [E _]. by rewrite E. }
  split_and!; [done| |].
  - intros Hw e. unfold keeps, asked. assert (Ho : other e = negb (bool_decide (Key e = idField))) by (unfold other; repeat case_bool_decide; done).
    rewrite Ho. destruct (bool_decide _); cbn [negb pj_keepID]; [done|]. unfold keep. cbn [pj_include]. rewrite Hinc.
    rewrite (named_mentions es), mentions_names by done. by destruct (asks_include es), (names es (Key e)).
  - intros e Hin Hoe. rewrite <- Hinc, (H1 e Hin Hoe), H3.
    assert (Hx : existsb other es = true) by (apply existsb_elem; by exists e). by rewrite Hx.
Qed.

Lemma filter_ext_elem {A} (f g : A -> bool) l : (forall a, f a = g a) -> List.filter f l = List.filter g l.
Proof. intros H. induction l as [|a l IH]; [done|]. cbn [List.filter]. by rewrite H, IH. Qed.

(** C24. The fields of a projection that compiles agree on including or excluding.
    Unless it is an exclusion with a dotted path, which drops the whole field the
    path begins with, a projected document holds exactly the elements the projection
    asks for, as they were and in their order: an inclusion those of the fields it
    names, by themselves or by a path into them, an exclusion those of the fields it
    does not name, and _id as its last mention says, or by default; projecting the
    result again changes nothing. *)
Theorem projection_exact proj p es d fs :
  elements_of proj = Ok es -> es <> [] -> CompileProjection proj = Ok p -> bytes_ok d -> elements_of d = Ok fs ->
  (forall e, e ∈ es -> other e = true -> projectionTruthy (Value e) = asks_include es) /\
  (whole_fields es ->
   exists d', Projection_Apply p d = Ok d' /\ elements_of d' = Ok (List.filter (asked es) fs) /\ Projection_Apply p d' = Ok d').
Proof.
  intros He Hn Hp Hd Hf. destruct (compiled_spec proj p es He Hn Hp) as (H1 & H2 & H3). split; [done|]. intros Hw. specialize (H2 Hw).
  destruct (elements_of_inv d fs Hd Hf) as (Hok & Hfit & _). exists (doc_of (List.filter (asked es) fs)).
  assert (Hok' : Forall elem_ok (List.filter (asked es) fs)) by by apply filter_Forall.
  assert (Hfit' : doc_fits (List.filter (asked es) fs)) by by apply filter_fits.
  split_and!.
  - rewrite (Apply_spec p d fs) by done. by rewrite (filter_ext_elem _ _ _ H2).
  - by apply elements_of_doc.
  - rewrite (Apply_spec p _ (List.filter (asked es) fs)); [|by apply doc_of_ok|by apply elements_of_doc|done].
    by rewrite (filter_ext_elem _ _ _ H2), filter_filter.
Qed.

(** ** Stable sorts *)

Section stable_facts.
Context {A : Type} {P : A -> Prop} (c : A -> A -> comparison) `{!TotalOn P c}.

Definition below (a b : A) : bool := match c a b with Lt => true | _ => false end.
Definition tied (a b : A) : bool := match c a b with Eq => true | _ => false end.
Definition in_order (l : list A) : Prop := StronglySorted (fun a b => c a b <> Gt) l.

Lemma stable_insert_perm x l : stable_insert below x l ≡ₚ x :: l.
Proof. induction l as [|y l IH]; [done|]. cbn [stable_insert]. destruct (below y x); [|done]. rewrite IH. apply Permutation_swap. Qed.

Lemma SliceStable_perm l : SliceStable below l ≡ₚ l.
Proof. induction l as [|x l IH]; [done|]. cbn [SliceStable]. by rewrite stable_insert_perm, IH. Qed.

Lemma stable_insert_order x l : P x -> Forall P l -> in_order l -> in_order (stable_insert below x l).
Proof.
  intros Hx Hl Ho. induction Ho as [|y l Ho IH Hy]; [repeat constructor|]. apply Forall_cons in Hl as [Py Hl]. cbn [stable_insert]. unfold below at 1.
  destruct (c y x) eqn:E.
  - constructor; [by constructor|]. assert (Exy : c x y = Eq) by (by rewrite (to_anti y x), E). constructor; [by rewrite Exy|].
    rewrite Forall_forall in *. intros z Hz. rewrite (to_eq_l (c:=c) x y z) by auto. by apply Hy.
  - constructor; [by apply IH|]. rewrite stable_insert_perm. constructor; [by rewrite E|done].
  - assert (Exy : c x y = Lt) by (by rewrite (to_anti y x), E). constructor; [by constructor|]. constructor; [by rewrite Exy|].
    rewrite Forall_forall in *. intros z Hz. by rewrite (to_lt_trans (c:=c) x y z) by auto.
Qed.

Lemma SliceStable_order l : Forall P l -> in_order (SliceStable below l).
Proof.
  induction 1 as [|x l Hx Hl IH]; [constructor|]. cbn [SliceStable]. apply stable_insert_order; [done| |done]. by rewrite SliceStable_perm.
Qed.

(** Elements that compare equal keep their order. *)
Lemma stable_insert_tied d x l :
  P d -> P x -> Forall P l -> List.filter (tied d) (stable_insert below x l) = List.filter (tied d) (x :: l).
Proof.
  intros Hd Hx Hl. induction Hl as [|y l Hy Hl IH]; [done|]. cbn [stable_insert]. unfold below at 1. destruct (c y x) eqn:E; [done| |done].
  cbn [List.filter] in *. rewrite IH. destruct (tied d x) eqn:Ex, (tied d y) eqn:Ey; try done. exfalso. unfold tied in *.
  destruct (c d x) eqn:Edx; try done. destruct (c d y) eqn:Edy; try done.
  assert (Hyx : c y x = Eq); [|congruence]. rewrite <- (to_eq_l (c:=c) d y x) by done. done.
Qed.

Lemma SliceStable_tied d l : P d -> Forall P l -> List.filter (tied d) (SliceStable below l) = List.filter (tied d) l.
Proof.
  intros Hd. induction 1 as [|x l Hx Hl IH]; [done|]. cbn [SliceStable]. rewrite stable_insert_tied; [|done..|by rewrite SliceStable_perm].
  cbn [List.filter]. by rewrite IH.
Qed.

(** Two arrangements of the same elements that are both in order and have tied
    elements in the same order are the same. *)
Lemma stable_unique r : forall r', Forall P r -> r ≡ₚ r' -> in_order r -> in_order r' ->
  (forall d, d ∈ r -> List.filter (tied d) r = List.filter (tied d) r') -> r = r'.
Proof.
  induction r as [|a r IH]; intros r' Hp Hr Ho Ho' Ht; [by apply Permutation_nil_l in Hr|].
  destruct r' as [|b r']; [by apply Permutation_nil_r in Hr|].
  apply Forall_cons in Hp as [Pa Hp]. assert (Hp' : Forall P (b :: r')) by (rewrite <- Hr; by constructor). apply Forall_cons in Hp' as [Pb Hp'].
  inversion Ho as [|? ? Ho1 Ha]; subst. inversion Ho' as [|? ? Ho1' Hb]; subst. rewrite Forall_forall in Ha, Hb.
  assert (Hab : c a b <> Gt).
  { assert (H : b ∈ a :: r) by (rewrite Hr; left). apply elem_of_cons in H as [->|H]; [by rewrite to_refl|by apply Ha]. }
  assert (Hba : c b a <> Gt).
  { assert (H : a ∈ b :: r') by (rewrite <- Hr; left). apply elem_of_cons in H as [->|H]; [by rewrite to_refl|by apply Hb]. }
  assert (E : c a b = Eq) by (rewrite (to_anti a b) in Hba by done; by destruct (c a b)).
  assert (Eq : a = b).
  { specialize (Ht a ltac:(left)). cbn [List.filter] in Ht. assert (Ta : tied a a = true) by (unfold tied; by rewrite (to_refl (c:=c) a Pa)).
    assert (Tb : tied a b = true) by (unfold tied; by rewrite E). rewrite Ta, Tb in Ht. congruence. }
  subst b. f_equal. apply Permutation_cons_inv in Hr. apply IH; try done. intros d Hd. specialize (Ht d ltac:(by right)). cbn [List.filter] in Ht.
  destruct (tied d a); [by injection Ht|done].
Qed.
End stable_facts.

(** ** The order of documents *)

Lemma total_opp {A} (P : A -> Prop) c : TotalOn P c -> TotalOn P (fun x y => CompOpp (c x y)).
Proof.
  intros Hc. apply (total_ext _ _ (fun x y => c y x)); [intros x y Hx Hy; by rewrite (to_anti x y)|]. constructor.
  - intros x Hx. by apply to_refl.
  - intros x y Hx Hy. by apply to_anti.
  - intros x y z Hx Hy Hz H1 H2. by apply (to_trans (c:=c) z y x).
Qed.

Lemma lookup_bytes fuel key : forall b v, lookup_loop fuel key b = Some v -> bytes_ok b -> v_ok v.
Proof.
  induction fuel as [|fuel IH]; intros b v; cbn [lookup_loop]; [done|]. destruct b as [|t b]; [done|]. destruct (t =? 0); [done|].
  destruct (next_element (t :: b) t) as [|[e b']] eqn:En; [done|]. apply next_element_data in En as (_ & _ & H2).
  case_bool_decide; [intros [= <-] Hb; by apply H2|]. intros H3 Hb. apply (IH _ _ H3). by apply H2.
Qed.

Lemma Lookup_ok r key v : bytes_ok r -> Lookup r key = Some v -> v_ok v.
Proof. intros Hr. unfold Lookup. destruct (_ || _); [done|]. intros H%lookup_bytes; [done|]. by apply Forall_drop. Qed.

Lemma arrayElems_ok v e : v_ok v -> e ∈ arrayElems v -> v_ok e.
Proof.
  intros Hv. unfold arrayElems. destruct (one_of _ _); [|by intros ?%not_elem_of_nil]. intros (x & -> & Hx)%list_elem_of_fmap.
  pose proof (elems_Document_ok v Hv) as H. rewrite Forall_forall in H. by apply H.
Qed.

Lemma reaches_ok v path w : reaches v path w -> v_ok v -> v_ok w.
Proof.
  induction 1 as [v|v comp path sub w _ El _ IH|v comp path i e w _ _ _ En _ IH|v comp path e w _ He _ IH]; intros Hv.
  - done.
  - apply IH. apply (Lookup_ok (Document v) comp); [by apply Document_data|done].
  - apply IH. apply (arrayElems_ok v); [done|]. by apply list_elem_of_lookup_2 in En.
  - apply IH. by apply (arrayElems_ok v).
Qed.

Lemma min_value_elem vs : forall m, min_value vs m = m \/ min_value vs m ∈ vs.
Proof.
  unfold min_value. induction vs as [|v vs IH]; intros m; [by left|]. cbn [fold_left].
  destruct (IH (match Compare v m with Lt => v | _ => m end)) as [E|E]; [|right; by right]. rewrite E. destruct (Compare v m); [by left|right; left|by left].
Qed.

Lemma nullValue_null : nullValue = null_val.
Proof. vm_compute. reflexivity. Qed.

Lemma sortValue_cases d path : sortValue d path = null_val /\ (~ exists w, reaches (root d) path w) \/ reaches (root d) path (sortValue d path).
Proof.
  unfold sortValue. pose proof (traverse_exact d path) as He. pose proof (traverse_present d path) as Hp.
  destruct (traverse d path) as [values present]. cbn [fst snd] in *. destruct present; cbn [negb].
  - destruct values as [|v vs]; [destruct (proj1 Hp eq_refl) as (w & Hw); by apply He, not_elem_of_nil in Hw|]. right. apply He.
    destruct (min_value_elem vs v) as [->|H]; [left|by right].
  - left. split; [by rewrite nullValue_null|]. intros H. by apply Hp in H.
Qed.

Lemma sortValue_ok d path : bytes_ok d -> v_ok (sortValue d path).
Proof.
  intros Hd. destruct (sortValue_cases d path) as [[-> _]|H]; [constructor|]. by apply (reaches_ok _ _ _ H).
Qed.

#[local] Instance total_key k : TotalOn bytes_ok (cmp_key k).
Proof.
  assert (H : TotalOn bytes_ok (fun a b => Compare (sortValue a (sk_path k)) (sortValue b (sk_path k)))).
  { apply (total_proj _ v_ok (fun d => sortValue d (sk_path k))); [|apply total_Compare]. intros d Hd. by apply sortValue_ok. }
  unfold cmp_key. destruct (sk_desc k); [by apply total_opp|done].
Qed.

Fixpoint cmp_keys (ks : list sortKey) (a b : bytes) : comparison :=
  match ks with
  | [] => Eq
  | k :: ks' => then_cmp (cmp_key k a b) (cmp_keys ks' a b)
  end.

Lemma less_loop_cmp ks a b : less_loop ks a b = below (cmp_keys ks) a b.
Proof. induction ks as [|k ks IH]; [done|]. unfold below in *. cbn [less_loop cmp_keys]. rewrite IH. by destruct (cmp_key k a b). Qed.

#[local] Instance total_keys ks : TotalOn bytes_ok (cmp_keys ks).
Proof. induction ks as [|k ks IH]; [apply total_const|]. cbn [cmp_keys]. apply total_then; apply _. Qed.

(** Neither document comes before the other. *)
Definition tie (s : Sort) (a b : bytes) : bool := negb (less s a b) && negb (less s b a).

(** In order, of the same documents, tied ones as they came. *)
Definition sorted_stably (s : Sort) (docs r : list bytes) : Prop :=
  r ≡ₚ docs /\ StronglySorted (fun a b => less s b a = false) r /\
  forall d, d ∈ docs -> List.filter (tie s d) r = List.filter (tie s d) docs.

Lemma less_not_gt s a b : bytes_ok a -> bytes_ok b -> less s b a = false <-> cmp_keys (so_keys s) a b <> Gt.
Proof.
  intros Ha Hb. unfold less. rewrite less_loop_cmp. unfold below. rewrite (to_anti (c:=cmp_keys (so_keys s)) a b) by done.
  by destruct (cmp_keys (so_keys s) a b).
Qed.

Lemma tie_tied s a b : bytes_ok a -> bytes_ok b -> tie s a b = tied (cmp_keys (so_keys s)) a b.
Proof.
  intros Ha Hb. unfold tie, tied, less. rewrite !less_loop_cmp. unfold below. rewrite (to_anti (c:=cmp_keys (so_keys s)) a b) by done.
  by destruct (cmp_keys (so_keys s) a b).
Qed.

Lemma filter_ext_Forall {A} (P : A -> Prop) (f g : A -> bool) l : Forall P l -> (forall a, P a -> f a = g a) -> List.filter f l = List.filter g l.
Proof. intros Hl H. induction Hl as [|a l Ha Hl IH]; [done|]. cbn [List.filter]. by rewrite H, IH. Qed.

Lemma sorted_stably_keys s docs r :
  Forall bytes_ok docs ->
  sorted_stably s docs r <->
  r ≡ₚ docs /\ in_order (cmp_keys (so_keys s)) r /\ forall d, d ∈ docs -> List.filter (tied (cmp_keys (so_keys s)) d) r = List.filter (tied (cmp_keys (so_keys s)) d) docs.
Proof.
  intros Hd. unfold sorted_stably, in_order. split; intros (H1 & H2 & H3).
  all: assert (Hr : Forall bytes_ok r) by (by rewrite H1); split_and!; [done| |].
  1, 3: clear - Hr H2; induction H2 as [|a l Hl IH Ha]; [constructor|]; apply Forall_cons in Hr as [Hoa Hol]; constructor; [by apply IH|];
    rewrite Forall_forall in *; intros b Hb; apply less_not_gt; auto.
  - intros d Hin. assert (Hod : bytes_ok d) by (rewrite Forall_forall in Hd; by apply Hd). specialize (H3 d Hin).
    rewrite !(filter_ext_Forall bytes_ok (tied (cmp_keys (so_keys s)) d) (tie s d)) by (done || intros; by rewrite tie_tied). done.
  - intros d Hin. assert (Hod : bytes_ok d) by (rewrite Forall_forall in Hd; by apply Hd). specialize (H3 d Hin).
    rewrite !(filter_ext_Forall bytes_ok (tie s d) (tied (cmp_keys (so_keys s)) d)) by (done || intros; by rewrite tie_tied). done.
Qed.

Lemma SliceStable_ext {A} (f g : A -> A -> bool) l : (forall a b, f a b = g a b) -> SliceStable f l = SliceStable g l.
Proof.
  intros H. induction l as [|x l IH]; [done|]. cbn [SliceStable]. rewrite IH. generalize (SliceStable g l). intros k.
  induction k as [|y k IHk]; [done|]. cbn [stable_insert]. by rewrite H, IHk.
Qed.

Lemma Sort_Apply_stably s docs : Forall bytes_ok docs -> sorted_stably s docs (Sort_Apply s docs).
Proof.
  intros Hd. apply sorted_stably_keys; [done|]. unfold Sort_Apply, Sort_Empty. case_bool_decide as Ek; cbn [orb].
  { rewrite Ek. split_and!; [done| |done]. clear. induction docs; constructor; [done|]. by apply Forall_true. }
  destruct (Z.ltb_spec (blen docs) 2).
  { split_and!; [done| |done]. destruct docs as [|a [|b docs]]; [constructor|repeat constructor|]. unfold blen in *. cbn [List.length] in *. lia. }
  rewrite (SliceStable_ext (less s) (below (cmp_keys (so_keys s)))) by (intros; apply less_loop_cmp). split_and!.
  - apply SliceStable_perm.
  - by apply (SliceStable_order (P:=bytes_ok) (cmp_keys (so_keys s))).
  - intros d Hin. rewrite Forall_forall in Hd. apply (SliceStable_tied (P:=bytes_ok) (cmp_keys (so_keys s))); [by apply Hd|by rewrite Forall_forall].
Qed.

(** C23. Apply puts the documents in order and leaves tied documents as they came, and
    there is no other arrangement of which that is true: the result is the same
    whichever stable sort does the work. *)
Theorem sort_is_the_stable_one s docs r :
  Forall bytes_ok docs -> (sorted_stably s docs r <-> r = Sort_Apply s docs).
Proof.
  intros Hd. split; [|intros ->; by apply Sort_Apply_stably]. pose proof (Sort_Apply_stably s docs Hd) as Ha.
  rewrite !sorted_stably_keys in * by done. destruct Ha as (A1 & A2 & A3). intros (H1 & H2 & H3).
  apply (stable_unique (P:=bytes_ok) (cmp_keys (so_keys s))); try done; [by rewrite H1|by rewrite H1, A1|].
  intros d Hin. rewrite H1 in Hin. by rewrite H3, A3.
Qed.

(** ** Paths of sorts and filters are split alike *)

Lemma split_dots_ne key : split_dots key <> [].
Proof. induction key as [|c key IH]; [done|]. cbn [split_dots]. destruct (split_dots key); [done|]. by destruct (c =? 46). Qed.

Lemma split_loop_spec rest : forall seg out,
  split_loop rest seg out = out ++ match split_dots rest with s :: ss => (seg ++ s) :: ss | [] => [] end.
Proof.
  induction rest as [|c rest IH]; intros seg out; cbn [split_loop split_dots]; [by rewrite app_nil_r|].
  pose proof (split_dots_ne rest). rewrite !IH. destruct (split_dots rest) as [|s ss]; [done|].
  destruct (c =? 46); [by rewrite app_nil_r, <- app_assoc|]. by rewrite <- app_assoc.
Qed.

Lemma splitPath_split_dots key : splitPath key = split_dots key.
Proof.
  unfold splitPath. case_bool_decide as E; [by rewrite E|]. rewrite split_loop_spec. pose proof (split_dots_ne key). by destruct (split_dots key).
Qed.

(** ** Distinct values *)

Lemma Distinct_elem doc field v :
  v ∈ Distinct doc field <-> exists w, reaches (root doc) (split_dots field) w /\ (if rv_Type w =? TypeArray then v ∈ arrayElems w else v = w).
Proof.
  unfold Distinct. rewrite splitPath_split_dots. setoid_rewrite <- (traverse_exact doc). generalize (traverse doc (split_dots field)).1 as l. intros l.
  induction l as [|w l IH]; cbn [map concat]; [split; [by intros ?%not_elem_of_nil|by intros (w & ?%not_elem_of_nil & _)]|].
  rewrite elem_of_app, IH. split.
  - intros [H|(x & Hx & H)]; [|exists x; split; [by right|done]]. exists w. split; [left|]. destruct (_ =? _); [done|]. by apply list_elem_of_singleton.
  - intros (x & [->|Hx]%elem_of_cons & H); [|right; by exists x]. left. destruct (_ =? _); [done|]. by apply list_elem_of_singleton.
Qed.

Lemma distinct_equality doc field v :
  isNullOperand v = false -> CanonicalType (rv_Type v) <> rankArray ->
  (exists u, u ∈ Distinct doc field /\ Equal u v = true) <-> eval (fieldPred (split_dots field) (eqLeaf v)) doc = true.
Proof.
  intros Hn Ha. rewrite field_true. cbn [matchMissing]. rewrite Hn. setoid_rewrite Distinct_elem. unfold satisfied. cbn [matchValue elementWise]. split.
  - intros (u & (w & Hw & Hu) & He). left. exists w. split; [done|]. destruct (Z.eqb_spec (rv_Type w) TypeArray) as [E|E]; [|left; by subst u].
    right. split_and!; [done..|]. by exists u.
  - intros [(w & Hw & [He|(_ & Hwa & e & Hin & He)])|[]]; [| |done].
    + exists w. split; [|done]. exists w. split; [done|]. destruct (Z.eqb_spec (rv_Type w) TypeArray) as [E|E]; [|done].
      apply Equal_bracket in He. rewrite E in He. by destruct Ha.
    + exists e. split; [|done]. exists w. split; [done|]. rewrite Hwa, Z.eqb_refl. done.
Qed.

(** A value is equal to one of the distinct values of a field exactly when the
    filter {field: value} matches: what Distinct lists is what equality finds. Null
    (which matches missing fields) and whole arrays are the exceptions. *)
Theorem distinct_is_what_equality_finds doc field v :
  isNullOperand v = false -> CanonicalType (rv_Type v) <> rankArray ->
  (exists u, u ∈ Distinct doc field /\ Equal u v = true) <-> eval (fieldPred (split_dots field) (eqLeaf v)) doc = true.
Proof. apply distinct_equality. Qed.

(** ** Examples *)

Definition ab_doc : bytes := Build (AppendValue (str "d") (int_n 3) (AppendValue (str "a") (doc_val (Build (AppendValue (str "c") (int_n 2) (AppendValue (str "b") (int_n 1) [])))) [])).

Definition projected (proj d : bytes) : option bytes :=
  match CompileProjection proj with Ok p => match Projection_Apply p d with Ok d' => Some d' | _ => None end | _ => None end.

Example inclusion : projected (doc1 "d" (int_n 1)) ab_doc = Some (doc1 "d" (int_n 3)).
Proof. vm_compute. reflexivity. Qed.

Example mixed_projection :
  CompileProjection (Build (AppendValue (str "b") (int_n 0) (AppendValue (str "a") (int_n 1) []))) = Err ErrBadQuery.
Proof. vm_compute. reflexivity. Qed.

(** Excluding a path excludes the whole field it starts with: {"a.b": 0} drops
    a.c as well. *)
Theorem dotted_exclusion_drops_field : projected (doc1 "a.b" (int_n 0)) ab_doc = Some (doc1 "d" (int_n 3)).
Proof. vm_compute. reflexivity. Qed.

Definition sorted_by (s : bytes) (docs : list bytes) : option (list bytes) :=
  match CompileSort s with Ok s => Some (Sort_Apply s docs) | _ => None end.

Example descending_sort :
  sorted_by (doc1 "a" (int_n (-1))) [doc1 "a" (int_n 1); doc1 "a" (int_n 3); doc1 "b" (int_n 9); doc1 "a" (int_n 2)]
  = Some [doc1 "a" (int_n 3); doc1 "a" (int_n 2); doc1 "a" (int_n 1); doc1 "b" (int_n 9)].
Proof. vm_compute. reflexivity. Qed.

(** A field that is an array is compared as an array, above every number, and
    not by its smallest element; and a descending sort takes the smallest of several
    values as an ascending one does. *)
Theorem arrays_sort_as_arrays :
  sorted_by (doc1 "a" (int_n 1)) [doc1 "a" (array_val [int_n 1]); doc1 "a" (int_n 2)] = Some [doc1 "a" (int_n 2); doc1 "a" (array_val [int_n 1])] /\
  sorted_by (doc1 "a.b" (int_n (-1))) [fan_doc; doc1 "a" (doc_val (doc1 "b" (double_val 0x3FF8000000000000)))]
  = Some [doc1 "a" (doc_val (doc1 "b" (double_val 0x3FF8000000000000))); fan_doc].
Proof. vm_compute. split; reflexivity. Qed.

Lemma projection_exact_witness :
  exists p d', CompileProjection (doc1 "d" (int_n 1)) = Ok p /\ Projection_Apply p ab_doc = Ok d' /\ elements_of d' = Ok [MkElement (str "d") (int_n 3)].
Proof.
  destruct (CompileProjection (doc1 "d" (int_n 1))) as [p| |] eqn:Ep; [|vm_compute in Ep; discriminate Ep..].
  assert (He : elements_of (doc1 "d" (int_n 1)) = Ok [MkElement (str "d") (int_n 1)]) by (vm_compute; reflexivity).
  assert (Hd : bytes_ok ab_doc) by (apply bytes_okb_ok; vm_compute; reflexivity).
  assert (Hf : exists fs, elements_of ab_doc = Ok fs /\ List.filter (asked [MkElement (str "d") (int_n 1)]) fs = [MkElement (str "d") (int_n 3)])
    by (eexists; split; vm_compute; reflexivity).
  destruct Hf as (fs & Hf & Hk).
  destruct (projection_exact _ p _ ab_doc fs He ltac:(discriminate) Ep Hd Hf) as (_ & H).
  destruct (H ltac:(left; vm_compute; reflexivity)) as (d' & H1 & H2 & _).
  exists p, d'. split; [reflexivity|]. split; [exact H1|]. rewrite H2. f_equal. exact Hk.
Defined.

Lemma sort_is_the_stable_one_witness :
  let s := MkSort [MkSortKey [str "a"] false] in
  sorted_stably s [doc1 "a" (int_n 2); doc1 "a" (int_n 1)] [doc1 "a" (int_n 1); doc1 "a" (int_n 2)].
Proof.
  intros s. apply sort_is_the_stable_one; [|vm_compute; reflexivity].
  repeat (apply Forall_cons; split; [apply bytes_okb_ok; vm_compute; reflexivity|]). constructor.
Defined.

Lemma distinct_is_what_equality_finds_witness :
  exists u, u ∈ Distinct fan_doc (str "a.b") /\ Equal u (double_val (f64_of_int 2)) = true.
Proof.
  apply (distinct_is_what_equality_finds fan_doc (str "a.b") (double_val (f64_of_int 2))); [reflexivity|discriminate|vm_compute; reflexivity].
Defined.
