(* ===== verification/IndexSpec.v ===== *)
(** * catalog/spec.go: index specifications and the keys of a document

    The specification of a secondary index, and Keys: the encoded keys a document
    contributes, with arrays expanded. *)

From Stdlib Require Import String.
From S2P Require Import Prelude Bson BsonCompare KeyEnc Query QueryShape.

Local Open Scope Z_scope.

(** ** Specifications *)

Inductive catErr : Type :=
| ErrIndexExists | ErrIndexNotFound | ErrCannotDropID | ErrBadIndexSpec | ErrParallelArrays
| CatKey (e : keyErr).

Definition IDIndexName : bytes := str "_id_".

Record KeyPart := MkKeyPart { kp_Field : bytes; kp_Desc : bool }.

Record IndexSpec := MkIndexSpec {
  is_Name : bytes;
  is_Key : list KeyPart;
  is_Unique : bool;
  is_Sparse : bool;
  is_PartialFilter : option bytes;
  is_ExpireAfterSeconds : Z;
  is_Multikey : bool;
  is_Root : Z
}.

Definition name_part (p : KeyPart) : bytes := kp_Field p ++ str "_" ++ (if kp_Desc p then str "-1" else str "1").

Fixpoint name_parts (key : list KeyPart) : bytes :=
  match key with
  | [] => []
  | [p] => name_part p
  | p :: key' => name_part p ++ str "_" ++ name_parts key'
  end.

Definition DefaultName (key : list KeyPart) : bytes := name_parts key.

(** The error, if there is one. *)
Definition validate (s : IndexSpec) : option catErr :=
  if bool_decide (is_Key s = []) then Some ErrBadIndexSpec
  else if existsb (fun p => bool_decide (kp_Field p = [])) (is_Key s) then Some ErrBadIndexSpec
  else if (is_ExpireAfterSeconds s >? 0) && negb (blen (is_Key s) =? 1) then Some ErrBadIndexSpec
  else None.

(** ** The values of a field *)

(** The elements of v, whatever its type is. *)
Definition spec_arrayElems (v : RawValue) : list RawValue := map Value (elems (Document v)).

(** The leaf values, whether the path was present, whether an array was met. *)
Definition found : Type := list RawValue * bool * bool.

Definition join (a b : found) : found := (a.1.1 ++ b.1.1, a.1.2 || b.1.2, a.2 || b.2).

Definition field_body (rec : RawValue -> list bytes -> found) (v : RawValue) (parts : list bytes) : found :=
  match parts with
  | [] => if rv_Type v =? TypeArray then (spec_arrayElems v, true, true) else ([v], true, false)
  | part :: parts' =>
      if rv_Type v =? TypeDocument then
        match Lookup (Document v) part with
        | None => ([], false, false)
        | Some sub => rec sub parts'
        end
      else if rv_Type v =? TypeArray then
        fold_left (fun acc e => join acc (rec e parts)) (spec_arrayElems v) ([], false, true)
      else ([], false, false)
  end.

(** Each call shortens the value, as in [Query.descend]. *)
Fixpoint field_fuel (fuel : nat) (v : RawValue) (parts : list bytes) : found :=
  match fuel with
  | O => ([], false, false)
  | S n => field_body (field_fuel n) v parts
  end.

Definition field_descend (v : RawValue) (parts : list bytes) : found := field_fuel (S (List.length (rv_Data v))) v parts.

Definition fieldValues (doc path : bytes) : found := field_descend (root doc) (split_dots path).

Definition spec_nullValue : RawValue := MkRawValue TypeNull [].

(** ** Keys *)

(** The loop over the parts: the values of each field, whether one is present, and
    the position of the field with an array. *)
Fixpoint fields_loop (doc : bytes) (key : list KeyPart) (i : Z) (anyPresent : bool) (arrayField : Z) : res catErr (list (list RawValue) * bool * Z) :=
  match key with
  | [] => Ok ([], anyPresent, arrayField)
  | p :: key' =>
      let '(vals, present, sawArray) := fieldValues doc (kp_Field p) in
      if sawArray && (arrayField >=? 0) then Err ErrParallelArrays
      else
        let vals' := match vals with [] => [spec_nullValue] | _ => vals end in
        let* '(rest, anyP, aF) := fields_loop doc key' (i + 1) (anyPresent || present) (if sawArray then i else arrayField) in
        Ok (vals' :: rest, anyP, aF)
  end.

(** One key: of the array field the j-th value, of the others the first. *)
Fixpoint key_loop (key : list KeyPart) (perField : list (list RawValue)) (i arrayField : Z) (j : nat) (k : bytes) : res catErr bytes :=
  match key, perField with
  | p :: key', vals :: perField' =>
      let* v := or_panic (vals !! (if i =? arrayField then j else 0%nat)) in
      match AppendField k v (kp_Desc p) with
      | inl e => Err (CatKey e)
      | inr k' => key_loop key' perField' (i + 1) arrayField j k'
      end
  | [], _ => Ok k
  | _ :: _, [] => Panic
  end.

Fixpoint keys_loop (key : list KeyPart) (perField : list (list RawValue)) (arrayField : Z) (js : list nat) : res catErr (list bytes) :=
  match js with
  | [] => Ok []
  | j :: js' =>
      let* k := key_loop key perField 0 arrayField j [] in
      let* ks := keys_loop key perField arrayField js' in
      Ok (k :: ks)
  end.

(** The keys, whether the document is indexed, and whether an array was expanded. *)
Definition Keys (s : IndexSpec) (doc : bytes) : res catErr (list bytes * bool * bool) :=
  let* '(perField, anyPresent, arrayField) := fields_loop doc (is_Key s) 0 false (-1) in
  let multikey := arrayField >=? 0 in
  if is_Sparse s && negb anyPresent then Ok ([], false, multikey)
  else
    let fan := if arrayField >=? 0 then List.length (nth (Z.to_nat arrayField) perField []) else 1%nat in
    let* keys := keys_loop (is_Key s) perField arrayField (seq 0 fan) in
    Ok (keys, true, multikey).

(** ** The walk ends *)

Lemma spec_arrayElems_shorter v e : e ∈ spec_arrayElems v -> (dlen e < dlen v)%nat.
Proof.
  unfold spec_arrayElems. intros (x & -> & Hx)%list_elem_of_fmap. apply elems_shorter in Hx. pose proof (Document_shorter v). lia.
Qed.

Lemma fold_left_ext_elem {A B} (f g : B -> A -> B) l : (forall b a, a ∈ l -> f b a = g b a) -> forall b, fold_left f l b = fold_left g l b.
Proof.
  induction l as [|a l IH]; intros H b; [done|]. cbn [fold_left]. rewrite (H b a) by left. apply IH. intros b' a' Ha. apply H. by right.
Qed.

Lemma field_body_ext f g v parts : (forall w ps, (dlen w < dlen v)%nat -> f w ps = g w ps) -> field_body f v parts = field_body g v parts.
Proof.
  intros H. unfold field_body. destruct parts as [|part parts]; [done|]. destruct (_ =? _).
  { destruct (Lookup _ _) eqn:E; [|done]. by apply H, (Lookup_Document_shorter v part). }
  destruct (_ =? _); [|done]. apply fold_left_ext_elem. intros acc e He. rewrite H; [done|]. by apply spec_arrayElems_shorter.
Qed.

Lemma field_fuel_stable n : forall m v parts, (dlen v < n)%nat -> (dlen v < m)%nat -> field_fuel n v parts = field_fuel m v parts.
Proof.
  induction n as [|n IH]; intros m v parts Hn Hm; [lia|]. destruct m as [|m]; [lia|]. cbn [field_fuel].
  apply field_body_ext. intros w ps Hw. apply IH; lia.
Qed.

Lemma field_descend_eq v parts : field_descend v parts = field_body field_descend v parts.
Proof.
  unfold field_descend at 1. cbn [field_fuel]. apply field_body_ext. intros w ps Hw. apply field_fuel_stable; unfold dlen in *; lia.
Qed.

(** ** Fields without arrays *)

Lemma join_saw {A} acc (l : list A) f : (fold_left (fun acc e => join acc (f e)) l acc : found).2 = acc.2 || existsb (fun e => (f e).2) l.
Proof.
  revert acc. induction l as [|e l IH]; intros acc; cbn [fold_left existsb]; [by rewrite orb_false_r|].
  rewrite IH. cbn [join snd]. by rewrite orb_assoc.
Qed.

(** Where no array is met the path leads to one value at most, the one a filter's
    path leads to. *)
Lemma field_no_array parts : forall v,
  (field_descend v parts).2 = false ->
  (exists w, field_descend v parts = ([w], true, false) /\ descend v parts = ([w], true) /\ rv_Type w <> TypeArray) \/
  (field_descend v parts = ([], false, false) /\ descend v parts = ([], false)).
Proof.
  induction parts as [|part parts IH]; intros v; rewrite field_descend_eq, descend_eq; unfold field_body, descend_body.
  - destruct (Z.eqb_spec (rv_Type v) TypeArray); [done|]. intros _. left. by exists v.
  - destruct (rv_Type v =? TypeDocument).
    + destruct (Lookup (Document v) part) as [sub|]; [apply IH|]. by right.
    + destruct (rv_Type v =? TypeArray); [|by right]. rewrite join_saw. done.
Qed.

Definition no_array (doc path : bytes) : bool := negb (fieldValues doc path).2.

(** What a field is indexed as: its value, null where it is missing. *)
Definition field_value (doc path : bytes) : RawValue := match (fieldValues doc path).1.1 with v :: _ => v | [] => spec_nullValue end.

Lemma no_array_cases doc path :
  no_array doc path = true ->
  (exists w, fieldValues doc path = ([w], true, false) /\ traverse doc (split_dots path) = ([w], true) /\ rv_Type w <> TypeArray /\ field_value doc path = w) \/
  (fieldValues doc path = ([], false, false) /\ traverse doc (split_dots path) = ([], false) /\ field_value doc path = spec_nullValue).
Proof.
  unfold no_array, field_value. intros H%negb_true_iff. destruct (field_no_array (split_dots path) (root doc) H) as [(w & E & D & Ht)|(E & D)]; unfold fieldValues in *; rewrite E.
  - left. by exists w.
  - by right.
Qed.

(** The keys of a document without arrays in the indexed fields. *)
Lemma fields_loop_scalar doc key : forall i any,
  Forall (fun p => no_array doc (kp_Field p) = true) key ->
  exists any', fields_loop doc key i any (-1) = Ok (map (fun p => [field_value doc (kp_Field p)]) key, any', -1) /\
    any' = any || existsb (fun p => (fieldValues doc (kp_Field p)).1.2) key.
Proof.
  induction key as [|p key IH]; intros i any Hk; [exists any; by rewrite orb_false_r|]. apply Forall_cons in Hk as [Hp Hk]. cbn [fields_loop map existsb].
  destruct (no_array_cases doc (kp_Field p) Hp) as [(w & E & _ & _ & Ev)|(E & _ & Ev)]; rewrite E, Ev; cbn [andb fst snd].
  - destruct (IH (i + 1) (any || true) Hk) as (any' & E' & ->). rewrite E'. cbn [res_bind]. eexists. split; [done|]. by rewrite orb_assoc.
  - destruct (IH (i + 1) (any || false) Hk) as (any' & E' & ->). rewrite E'. cbn [res_bind]. eexists. split; [done|]. by rewrite orb_assoc.
Qed.

Lemma key_loop_scalar doc key : forall i j k, 0 <= i ->
  key_loop key (map (fun p => [field_value doc (kp_Field p)]) key) i (-1) j k =
  match AppendFields k (zip (map (fun p => field_value doc (kp_Field p)) key) (map kp_Desc key)) with inl e => Err (CatKey e) | inr k' => Ok k' end.
Proof.
  induction key as [|p key IH]; intros i j k Hi; [done|]. cbn [map key_loop zip zip_with AppendFields]. rewrite (proj2 (Z.eqb_neq i (-1))) by lia.
  cbn [lookup list_lookup or_panic res_bind]. destruct (AppendField k _ _); [done|]. apply IH. lia.
Qed.

(** Keys of a document with no array in an indexed field: one key, of the fields'
    values in order, null for what is missing; none for a sparse index of fields that
    are all missing. *)
Theorem scalar_document_has_one_key s doc :
  Forall (fun p => no_array doc (kp_Field p) = true) (is_Key s) ->
  Keys s doc =
  if is_Sparse s && negb (existsb (fun p => (fieldValues doc (kp_Field p)).1.2) (is_Key s)) then Ok ([], false, false)
  else match AppendFields [] (zip (map (fun p => field_value doc (kp_Field p)) (is_Key s)) (map kp_Desc (is_Key s))) with
       | inl e => Err (CatKey e)
       | inr k => Ok ([k], true, false)
       end.
Proof.
  intros Hk. unfold Keys. destruct (fields_loop_scalar doc (is_Key s) 0 false Hk) as (any & E & Ha). rewrite E. cbn [res_bind].
  change (-1 >=? 0) with false. rewrite Ha. cbn [orb]. destruct (_ && _); [done|]. cbn [seq keys_loop]. rewrite key_loop_scalar by done.
  by destruct (AppendFields _ _).
Qed.

(** ** Arrays *)

Lemma spec_arrayElems_array v : rv_Type v = TypeArray -> spec_arrayElems v = arrayElems v.
Proof. intros E. unfold spec_arrayElems, arrayElems. by rewrite E. Qed.

Lemma join_fold {A} (f : A -> found) l : forall acc, fold_left (fun acc e => join acc (f e)) l acc =
  (acc.1.1 ++ concat (map (fun e => (f e).1.1) l), acc.1.2 || existsb (fun e => (f e).1.2) l, acc.2 || existsb (fun e => (f e).2) l).
Proof.
  induction l as [|e l IH]; intros [[vs p] s]; cbn [fold_left map concat existsb fst snd]; [by rewrite app_nil_r, !orb_false_r|].
  rewrite IH. cbn [join fst snd]. by rewrite <- app_assoc, !orb_assoc.
Qed.

(** The values of a list, arrays replaced by their elements. *)
Definition unwind (vs : list RawValue) : list RawValue := concat (map (fun v => if rv_Type v =? TypeArray then arrayElems v else [v]) vs).

Lemma unwind_app vs ws : unwind (vs ++ ws) = unwind vs ++ unwind ws.
Proof. unfold unwind. by rewrite map_app, concat_app. Qed.

Lemma field_descend_values : forall v parts,
  Forall (fun part => arrayIndex part = None) parts ->
  (field_descend v parts).1.1 = unwind (descend v parts).1 /\ (field_descend v parts).1.2 = (descend v parts).2.
Proof.
  intros v. induction v as [v IH] using value_ind. intros parts Hp. rewrite field_descend_eq, descend_eq. unfold field_body, descend_body.
  destruct parts as [|part parts].
  { unfold unwind. cbn [fst snd map concat]. rewrite app_nil_r. destruct (Z.eqb_spec (rv_Type v) TypeArray) as [E|_]; [|done]. by rewrite spec_arrayElems_array. }
  apply Forall_cons in Hp as [Hpart Hp]. destruct (Z.eqb_spec (rv_Type v) TypeDocument).
  { destruct (Lookup (Document v) part) as [sub|] eqn:El; [|done]. apply IH; [by apply (Lookup_Document_shorter v part)|done]. }
  destruct (Z.eqb_spec (rv_Type v) TypeArray) as [E|_]; [|done]. rewrite Hpart, join_fold, spec_arrayElems_array by done. cbn [fst snd app orb].
  assert (Hall : Forall (fun e => (field_descend e (part :: parts)).1.1 = unwind (descend e (part :: parts)).1 /\ (field_descend e (part :: parts)).1.2 = (descend e (part :: parts)).2) (arrayElems v)).
  { apply Forall_forall. intros e He. apply IH; [by apply arrayElems_shorter|by constructor]. }
  unfold fan. cbn [fst snd]. induction Hall as [|e l [H1 H2] _ IHl]; [done|]. cbn [map concat existsb]. rewrite unwind_app, H1, H2. destruct IHl as [-> ->]. done.
Qed.

(** *** The keys of a document with an array *)

(** The values a field is indexed under. *)
Definition indexed_values (doc path : bytes) : list RawValue := match (fieldValues doc path).1.1 with [] => [spec_nullValue] | vs => vs end.

Lemma no_array_saw doc path : no_array doc path = true -> (fieldValues doc path).2 = false.
Proof. unfold no_array. apply negb_true_iff. Qed.

Lemma indexed_scalar doc path : no_array doc path = true -> indexed_values doc path = [field_value doc path].
Proof.
  intros H. unfold indexed_values. destruct (no_array_cases doc path H) as [(w & E & _ & _ & ->)|(E & _ & ->)]; by rewrite E.
Qed.

Lemma fields_loop_cons doc p key i any af :
  (fieldValues doc (kp_Field p)).2 && (af >=? 0) = false ->
  fields_loop doc (p :: key) i any af =
  let* '(rest, anyP, aF) := fields_loop doc key (i + 1) (any || (fieldValues doc (kp_Field p)).1.2) (if (fieldValues doc (kp_Field p)).2 then i else af) in
  Ok (indexed_values doc (kp_Field p) :: rest, anyP, aF).
Proof.
  intros H. cbn [fields_loop]. unfold indexed_values. destruct (fieldValues doc (kp_Field p)) as [[vs pr] saw]. cbn [fst snd] in *. rewrite H. by destruct vs.
Qed.

Lemma fields_loop_no_more doc key : forall i any af,
  Forall (fun p => no_array doc (kp_Field p) = true) key ->
  fields_loop doc key i any af = Ok (map (fun p => [field_value doc (kp_Field p)]) key, any || existsb (fun p => (fieldValues doc (kp_Field p)).1.2) key, af).
Proof.
  induction key as [|p key IH]; intros i any af Hk; [cbn; by rewrite orb_false_r|]. apply Forall_cons in Hk as [Hp Hk].
  pose proof (no_array_saw _ _ Hp) as Hs. rewrite fields_loop_cons by (by rewrite Hs). rewrite Hs, IH by done. cbn [res_bind map existsb].
  by rewrite indexed_scalar, orb_assoc.
Qed.

Lemma fields_loop_one doc pre p post : forall i any,
  Forall (fun q => no_array doc (kp_Field q) = true) pre -> no_array doc (kp_Field p) = false -> Forall (fun q => no_array doc (kp_Field q) = true) post ->
  fields_loop doc (pre ++ p :: post) i any (-1) =
  Ok (map (fun q => indexed_values doc (kp_Field q)) (pre ++ p :: post), any || existsb (fun q => (fieldValues doc (kp_Field q)).1.2) (pre ++ p :: post), i + blen pre).
Proof.
  intros i any Hpre Hp Hpost. revert i any. induction Hpre as [|q pre Hq _ IH]; intros i any; cbn [app].
  - rewrite fields_loop_cons by apply andb_false_r. unfold no_array in Hp. apply negb_false_iff in Hp. rewrite Hp, fields_loop_no_more by done. cbn [res_bind map existsb].
    change (blen (@nil KeyPart)) with 0. rewrite orb_assoc, Z.add_0_r. do 4 f_equal. clear - Hpost. induction Hpost as [|q l Hq _ IH]; [done|]. cbn [map]. by rewrite IH, indexed_scalar.
  - rewrite fields_loop_cons by apply andb_false_r. rewrite (no_array_saw _ _ Hq), IH. cbn [res_bind map existsb]. rewrite orb_assoc, blen_cons. do 2 f_equal. lia.
Qed.

Lemma key_loop_arrays doc key : forall i af j k vs,
  0 <= i -> List.length vs = List.length key ->
  (forall n p, key !! n = Some p -> indexed_values doc (kp_Field p) !! (if i + Z.of_nat n =? af then j else 0%nat) = vs !! n) ->
  key_loop key (map (fun p => indexed_values doc (kp_Field p)) key) i af j k =
  match AppendFields k (zip vs (map kp_Desc key)) with inl e => Err (CatKey e) | inr k' => Ok k' end.
Proof.
  induction key as [|p key IH]; intros i af j k [|v vs] Hi Hl Hv; try done. cbn [map key_loop zip zip_with AppendFields].
  pose proof (Hv 0%nat p eq_refl) as H0. rewrite Z.add_0_r in H0. rewrite H0. cbn [lookup list_lookup or_panic res_bind].
  destruct (AppendField k v (kp_Desc p)); [done|]. apply IH; [lia|cbn [List.length] in Hl; lia|]. intros n q Hq. specialize (Hv (S n) q Hq).
  replace (i + 1 + Z.of_nat n) with (i + Z.of_nat (S n)) by lia. done.
Qed.

Definition keys_of (descs : list bool) (vss : list (list RawValue)) : res catErr (list bytes) :=
  fold_right (fun vs acc => match AppendFields [] (zip vs descs) with inl e => Err (CatKey e) | inr k => let* ks := acc in Ok (k :: ks) end) (Ok []) vss.

(** Keys of a document with an array in one indexed field: one key for each value
    of that field, in order, the other fields the same in each; an empty array
    counts as null. *)
Theorem array_document_has_a_key_per_element s doc pre p post :
  is_Key s = pre ++ p :: post ->
  Forall (fun q => no_array doc (kp_Field q) = true) (pre ++ post) -> no_array doc (kp_Field p) = false ->
  is_Sparse s && negb (existsb (fun q => (fieldValues doc (kp_Field q)).1.2) (is_Key s)) = false ->
  let others := map (fun q => field_value doc (kp_Field q)) in
  Keys s doc = let* ks := keys_of (map kp_Desc (is_Key s)) (map (fun v => others pre ++ v :: others post) (indexed_values doc (kp_Field p))) in Ok (ks, true, true).
Proof.
  intros Ek Hno Hp Hs others. apply Forall_app in Hno as [Hpre Hpost]. unfold Keys. rewrite Ek in *. rewrite fields_loop_one by done. cbn [res_bind orb].
  pose proof (blen_nonneg pre). rewrite Z.add_0_l, (proj2 (Z.geb_le _ _)) by lia. rewrite Hs.
  assert (Hn : nth (Z.to_nat (blen pre)) (map (fun q => indexed_values doc (kp_Field q)) (pre ++ p :: post)) [] = indexed_values doc (kp_Field p)).
  { unfold blen. rewrite Nat2Z.id, map_app, app_nth2; rewrite length_map; [|lia]. by rewrite Nat.sub_diag. }
  rewrite Hn. f_equal.
  assert (Hj : forall j v, indexed_values doc (kp_Field p) !! j = Some v -> key_loop (pre ++ p :: post) (map (fun q => indexed_values doc (kp_Field q)) (pre ++ p :: post)) 0 (blen pre) j [] =
    match AppendFields [] (zip (others pre ++ v :: others post) (map kp_Desc (pre ++ p :: post))) with inl e => Err (CatKey e) | inr k => Ok k end).
  { intros j v Hv. apply key_loop_arrays; [lia|by rewrite !length_app; cbn [List.length]; unfold others; rewrite !length_map|].
    intros n q Hq. unfold others. rewrite Z.add_0_l. destruct (Z.eqb_spec (Z.of_nat n) (blen pre)) as [En|En].
    - unfold blen in En. apply Nat2Z.inj in En as ->. rewrite lookup_app_r in Hq by lia. rewrite Nat.sub_diag in Hq. injection Hq as <-.
      rewrite lookup_app_r; rewrite length_map; [|lia]. by rewrite Nat.sub_diag, Hv.
    - assert (Hnq : no_array doc (kp_Field q) = true).
      { rewrite Forall_forall in Hpre, Hpost. apply lookup_app_Some in Hq as [Hq|[Hge Hq]]; [apply Hpre; by apply list_elem_of_lookup_2 in Hq|].
        unfold blen in En. destruct (n - List.length pre)%nat as [|m] eqn:Em; [lia|]. apply Hpost. change (post !! m = Some q) in Hq. by apply list_elem_of_lookup_2 in Hq. }
      rewrite indexed_scalar by done. apply lookup_app_Some in Hq as [Hq|[Hge Hq]].
      + rewrite lookup_app_l by (rewrite length_map; by apply lookup_lt_Some in Hq). by rewrite list_lookup_fmap, Hq.
      + unfold blen in En. rewrite lookup_app_r; rewrite length_map; [|done]. destruct (n - List.length pre)%nat as [|m] eqn:Em; [lia|].
        change (post !! m = Some q) in Hq. pose proof (list_lookup_fmap (fun q => field_value doc (kp_Field q)) post m) as Hm. rewrite Hq in Hm. symmetry. exact Hm. }
  revert Hj. generalize (indexed_values doc (kp_Field p)) as vs. intros vs.
  assert (Hgen : forall l a, (forall j v, l !! j = Some v -> key_loop (pre ++ p :: post) (map (fun q => indexed_values doc (kp_Field q)) (pre ++ p :: post)) 0 (blen pre) (a + j)%nat [] =
     match AppendFields [] (zip (others pre ++ v :: others post) (map kp_Desc (pre ++ p :: post))) with inl e => Err (CatKey e) | inr k => Ok k end) ->
     keys_loop (pre ++ p :: post) (map (fun q => indexed_values doc (kp_Field q)) (pre ++ p :: post)) (blen pre) (seq a (List.length l)) =
     keys_of (map kp_Desc (pre ++ p :: post)) (map (fun v => others pre ++ v :: others post) l)).
  { induction l as [|v l IH]; intros a Hj; [done|]. cbn [List.length seq keys_loop map keys_of fold_right]. pose proof (Hj 0%nat v eq_refl) as H0. rewrite Nat.add_0_r in H0. rewrite H0.
    destruct (AppendFields [] _) as [e|k]; cbn [res_bind]; [done|]. rewrite IH; [done|]. intros j w Hw. rewrite Nat.add_succ_comm. by apply Hj. }
  intros Hj. apply (Hgen vs 0%nat). intros j v Hv. by apply Hj.
Qed.

(** ** Indexed values and equality filters *)

Lemma Distinct_unwind doc path : Distinct doc path = unwind (traverse doc (split_dots path)).1.
Proof. unfold Distinct, unwind. by rewrite splitPath_split_dots. Qed.

(** C27. A path without positions in arrays is indexed under the values Distinct lists,
    and so under a value equal to v exactly when the filter {path: v} matches: an
    equality can be answered from the index. (Null, which matches what is missing,
    and whole arrays are other matters.) *)
Theorem index_has_what_equality_finds doc path v :
  Forall (fun part => arrayIndex part = None) (split_dots path) ->
  (fieldValues doc path).1.1 = Distinct doc path /\
  (isNullOperand v = false -> CanonicalType (rv_Type v) <> rankArray ->
   (exists u, u ∈ (fieldValues doc path).1.1 /\ Equal u v = true) <-> eval (fieldPred (split_dots path) (eqLeaf v)) doc = true).
Proof.
  intros Hp. assert (E : (fieldValues doc path).1.1 = Distinct doc path).
  { rewrite Distinct_unwind. unfold fieldValues, traverse. by apply field_descend_values. }
  split; [done|]. intros Hn Ha. rewrite E. by apply distinct_equality.
Qed.

(** ** Examples *)

Definition tags_spec : IndexSpec := MkIndexSpec (str "tags_1_n_-1") [MkKeyPart (str "tags") false; MkKeyPart (str "n") true] false true None 0 false 0.

Example default_name : DefaultName (is_Key tags_spec) = is_Name tags_spec.
Proof. vm_compute. reflexivity. Qed.

Definition tags_doc : bytes := Build (AppendValue (str "n") (int_n 5) (AppendValue (str "tags") (array_val [int_n 1; int_n 2]) [])).

Example tags_keys :
  Keys tags_spec tags_doc = Ok ([EncodeInt64 1 ++ invert (EncodeInt64 5); EncodeInt64 2 ++ invert (EncodeInt64 5)], true, true).
Proof. vm_compute. reflexivity. Qed.

Example sparse_skips : Keys tags_spec (doc1 "z" (int_n 1)) = Ok ([], false, false).
Proof. vm_compute. reflexivity. Qed.

Example parallel_arrays :
  Keys tags_spec (Build (AppendValue (str "n") (array_val [int_n 5]) (AppendValue (str "tags") (array_val [int_n 1; int_n 2]) []))) = Err ErrParallelArrays.
Proof. vm_compute. reflexivity. Qed.

Definition one_field (path : string) : IndexSpec := MkIndexSpec (str path ++ str "_1") [MkKeyPart (str path) false] false false None 0 false 0.

(** A position in a path is a position to a filter and a field name to an index:
    a document that {"a.0": 5} matches is indexed under null on "a.0". And an array
    is never indexed as a whole, which {a: [1, 2]} looks for. *)
Theorem index_lacks_positions_and_arrays :
  matches_filter (doc1 "a.0" (int_n 5)) (doc1 "a" (array_val [int_n 5])) = Some true /\
  Keys (one_field "a.0") (doc1 "a" (array_val [int_n 5])) = Ok ([EncodeNull], true, true) /\
  matches_filter (doc1 "a" (array_val [int_n 1; int_n 2])) (doc1 "a" (array_val [int_n 1; int_n 2])) = Some true /\
  Keys (one_field "a") (doc1 "a" (array_val [int_n 1; int_n 2])) = Ok ([EncodeInt64 1; EncodeInt64 2], true, true).
Proof. vm_compute. split_and!; reflexivity. Qed.

Lemma scalar_document_has_one_key_witness : Keys (one_field "n") tags_doc = Ok ([EncodeInt64 5], true, false).
Proof.
  rewrite (scalar_document_has_one_key (one_field "n") tags_doc); [vm_compute; reflexivity|].
  apply Forall_cons. split; [vm_compute; reflexivity|constructor].
Defined.

Lemma array_document_has_a_key_per_element_witness : Keys (one_field "tags") tags_doc = Ok ([EncodeInt64 1; EncodeInt64 2], true, true).
Proof.
  rewrite (array_document_has_a_key_per_element (one_field "tags") tags_doc [] (MkKeyPart (str "tags") false) []);
    [vm_compute; reflexivity|reflexivity|constructor|vm_compute; reflexivity|reflexivity].
Defined.

Lemma index_has_what_equality_finds_witness : exists u, u ∈ (fieldValues tags_doc (str "tags")).1.1 /\ Equal u (int_n 2) = true.
Proof.
  apply (proj2 (index_has_what_equality_finds tags_doc (str "tags") (int_n 2) ltac:(apply Forall_cons; split; [vm_compute; reflexivity|constructor])));
    [reflexivity|discriminate|vm_compute; reflexivity].
Defined.
