(* ===== verification/PlanBounds.v ===== *)
(** * plan/bounds.go: index bounds of a filter

    The bounds a filter puts on its fields and the byte range they become on an
    index, and that the range holds the key of every document the filter matches, as
    long as no indexed field of the document is an array. *)

From Stdlib Require Import String.
From S2P Require Import Prelude Bson BsonCompare KeyEnc Query QueryShape IndexSpec.

Local Open Scope Z_scope.

(** ** Intervals and bounds *)

Record Interval := MkInterval {
  iv_Lo : RawValue; iv_HasLo : bool; iv_LoInclusive : bool;
  iv_Hi : RawValue; iv_HasHi : bool; iv_HiInclusive : bool;
  iv_Point : bool; iv_AlwaysTrue : bool; iv_AlwaysFalse : bool; iv_Tight : bool
}.

Definition no_value : RawValue := MkRawValue 0 [].
Definition always_true : Interval := MkInterval no_value false false no_value false false false true false false.

(** A bound of a comparison: its value, and whether it includes it. *)
Record fieldBound := MkFieldBound {
  fb_eq : option RawValue;
  fb_lo : option (RawValue * bool);
  fb_hi : option (RawValue * bool)
}.

Abbreviation bounds := (gmap bytes fieldBound).

Definition boundFor (out : bounds) (field : bytes) : fieldBound := default (MkFieldBound None None None) (out !! field).

Definition setEq (out : bounds) (field : bytes) (v : RawValue) : bounds :=
  let b := boundFor out field in <[field := MkFieldBound (Some v) (fb_lo b) (fb_hi b)]> out.

Definition mergeLo (out : bounds) (field : bytes) (v : RawValue) (inc : bool) : bounds :=
  let b := boundFor out field in
  let lo' :=
    match fb_lo b with
    | None => (v, inc)
    | Some (lo, loInc) => match Compare v lo with Gt => (v, inc) | Eq => (lo, loInc && inc) | Lt => (lo, loInc) end
    end in
  <[field := MkFieldBound (fb_eq b) (Some lo') (fb_hi b)]> out.

Definition mergeHi (out : bounds) (field : bytes) (v : RawValue) (inc : bool) : bounds :=
  let b := boundFor out field in
  let hi' :=
    match fb_hi b with
    | None => (v, inc)
    | Some (hi, hiInc) => match Compare v hi with Lt => (v, inc) | Eq => (hi, hiInc && inc) | Gt => (hi, hiInc) end
    end in
  <[field := MkFieldBound (fb_eq b) (fb_lo b) (Some hi')]> out.

(** *** Extracting the bounds of a filter *)

Definition apply_op (out : bounds) (field op : bytes) (v : RawValue) : bounds :=
  if bool_decide (op = str "$eq") then setEq out field v
  else if bool_decide (op = str "$gt") then mergeLo out field v false
  else if bool_decide (op = str "$gte") then mergeLo out field v true
  else if bool_decide (op = str "$lt") then mergeHi out field v false
  else if bool_decide (op = str "$lte") then mergeHi out field v true
  else out.

(** [elems] holds no element of a malformed document, as the early returns do. *)
Definition applyOps (out : bounds) (field ops : bytes) : bounds :=
  fold_left (fun out e => apply_op out field (Key e) (Value e)) (elems ops) out.

Definition arrayDocs (v : RawValue) : list bytes :=
  if negb (rv_Type v =? TypeArray) then []
  else map (fun e => Document (Value e)) (List.filter (fun e => rv_Type (Value e) =? TypeDocument) (elems (Document v))).

Definition collect_elem (rec : bytes -> bounds -> bounds) (out : bounds) (e : Element) : bounds :=
  if bool_decide (Key e = str "$and") then fold_left (fun out sub => rec sub out) (arrayDocs (Value e)) out
  else if has_dollar (Key e) then out
  else if isOperatorDoc (Value e) then applyOps out (Key e) (Document (Value e))
  else setEq out (Key e) (Value e).

Definition collect_body (rec : bytes -> bounds -> bounds) (d : bytes) (out : bounds) : bounds :=
  fold_left (collect_elem rec) (elems d) out.

Fixpoint collect_fuel (fuel : nat) (d : bytes) (out : bounds) : bounds :=
  match fuel with
  | O => out
  | S n => collect_body (collect_fuel n) d out
  end.

(** The operands of $and are shorter than the filter ([collectBounds_eq]). *)
Definition collectBounds (d : bytes) (out : bounds) : bounds := collect_fuel (S (List.length d)) d out.

Definition extractBounds (filter : bytes) : bounds := collectBounds filter ∅.

(** *** From bounds to intervals *)

Definition intervalOf (b : option fieldBound) : Interval :=
  match b with
  | None => always_true
  | Some (MkFieldBound (Some eq) _ _) => MkInterval eq true true eq true true true false false true
  | Some (MkFieldBound None None None) => always_true
  | Some (MkFieldBound None lo hi) =>
      let '(lo, hasLo, loInc) := match lo with Some (v, inc) => (v, true, inc) | None => (no_value, false, false) end in
      let '(hi, hasHi, hiInc) := match hi with Some (v, inc) => (v, true, inc) | None => (no_value, false, false) end in
      MkInterval lo hasLo loInc hi hasHi hiInc false false false true
  end.

Definition encodeRange (iv : Interval) (desc : bool) : keyErr + (bytes * bytes) :=
  let '(loVal, loOpen, hiVal, hiOpen) :=
    if desc then (iv_Hi iv, negb (iv_HasHi iv), iv_Lo iv, negb (iv_HasLo iv)) else (iv_Lo iv, negb (iv_HasLo iv), iv_Hi iv, negb (iv_HasHi iv)) in
  match (if loOpen then inr (EncodeBoundMin desc) else EncodeField loVal desc) with
  | inl e => inl e
  | inr lo =>
      match (if hiOpen then inr (EncodeBoundMax desc) else EncodeField hiVal desc) with
      | inl e => inl e
      | inr hi => inr (lo, hi)
      end
  end.

(** *** The byte range of an index *)

Record scanBounds := MkScanBounds {
  sb_Lo : bytes; sb_Hi : bytes; sb_Intervals : list Interval;
  sb_Usable : bool; sb_Empty : bool; sb_Tight : bool
}.

(** The loop over the key parts: its variables are arguments. No interval is ever
    AlwaysFalse, the case is there in the source. *)
Fixpoint bounds_loop (key : list KeyPart) (fb : bounds) (i : Z) (lo hi : bytes) (ivs : list Interval) (usable tight stopped : bool) : scanBounds :=
  match key with
  | [] => MkScanBounds lo hi ivs usable false tight
  | kp :: key' =>
      let iv := intervalOf (fb !! kp_Field kp) in
      let widen := bounds_loop key' fb (i + 1) (lo ++ EncodeBoundMin (kp_Desc kp)) (hi ++ EncodeBoundMax (kp_Desc kp)) (ivs ++ [always_true]) usable false true in
      if stopped then widen
      else if iv_AlwaysFalse iv then MkScanBounds [] [] (ivs ++ [iv]) (i =? 0) true false
      else if iv_AlwaysTrue iv then widen
      else if iv_Point iv then
        match EncodeField (iv_Lo iv) (kp_Desc kp) with
        | inl _ => widen
        | inr enc => bounds_loop key' fb (i + 1) (lo ++ enc) (hi ++ enc) (ivs ++ [iv]) (usable || (i =? 0)) tight false
        end
      else
        match encodeRange iv (kp_Desc kp) with
        | inl _ => widen
        | inr (loEnc, hiEnc) =>
            bounds_loop key' fb (i + 1) (lo ++ loEnc) (hi ++ hiEnc) (ivs ++ [iv]) (usable || (i =? 0))
              (tight && iv_LoInclusive iv && iv_HiInclusive iv) true
        end
  end.

Definition buildScanBounds (key : list KeyPart) (fb : bounds) : scanBounds := bounds_loop key fb 0 [] [] [] false true false.

(** ** The walk over $and ends *)

Lemma fold_left_ext_in {A B} (f g : B -> A -> B) l : (forall b a, a ∈ l -> f b a = g b a) -> forall b, fold_left f l b = fold_left g l b.
Proof. apply fold_left_ext_elem. Qed.

Lemma arrayDocs_elem v sub : sub ∈ arrayDocs v -> exists w, w ∈ arrayElems v /\ sub = Document w.
Proof.
  unfold arrayDocs. destruct (Z.eqb_spec (rv_Type v) TypeArray) as [E|]; cbn [negb]; [|by intros ?%not_elem_of_nil].
  intros (e & -> & He)%list_elem_of_fmap. apply list_elem_of_In, filter_In in He as [He _]. exists (Value e). split; [|done].
  unfold arrayElems. rewrite E. cbn [one_of existsb orb]. apply list_elem_of_fmap. exists e. split; [done|]. by apply list_elem_of_In.
Qed.

Lemma arrayDocs_shorter v sub : sub ∈ arrayDocs v -> (List.length sub < dlen v)%nat.
Proof. intros (w & Hw & ->)%arrayDocs_elem. apply arrayElems_shorter in Hw. pose proof (Document_shorter w). lia. Qed.

Lemma collect_body_ext f g d out : (forall x o, (List.length x < List.length d)%nat -> f x o = g x o) -> collect_body f d out = collect_body g d out.
Proof.
  intros H. unfold collect_body. apply fold_left_ext_in. intros o e He. unfold collect_elem. case_bool_decide; [|done].
  apply fold_left_ext_in. intros o' sub Hs. apply H. apply arrayDocs_shorter in Hs. apply elems_shorter in He. lia.
Qed.

Lemma collect_fuel_stable n : forall m d out, (List.length d < n)%nat -> (List.length d < m)%nat -> collect_fuel n d out = collect_fuel m d out.
Proof.
  induction n as [|n IH]; intros m d out Hn Hm; [lia|]. destruct m as [|m]; [lia|]. cbn [collect_fuel]. apply collect_body_ext. intros. apply IH; lia.
Qed.

Lemma collectBounds_eq d out : collectBounds d out = collect_body collectBounds d out.
Proof. unfold collectBounds at 1. cbn [collect_fuel]. apply collect_body_ext. intros x o Hx. apply collect_fuel_stable; lia. Qed.

(** ** The bounds hold of what the filter matches *)

Definition within (v : RawValue) (b : fieldBound) : Prop :=
  (forall e, fb_eq b = Some e -> Compare v e = Eq) /\
  (forall lo inc, fb_lo b = Some (lo, inc) -> Compare v lo <> Lt) /\
  (forall hi inc, fb_hi b = Some (hi, inc) -> Compare v hi <> Gt).

Definition bounds_hold (doc : bytes) (out : bounds) : Prop :=
  forall f b, out !! f = Some b -> no_array doc f = true -> within (field_value doc f) b.

Lemma bounds_hold_for doc out f : bounds_hold doc out -> no_array doc f = true -> within (field_value doc f) (boundFor out f).
Proof. intros H Hf. unfold boundFor. destruct (out !! f) eqn:E; [by apply H|]. by split_and!. Qed.

Lemma bounds_hold_insert doc out f b :
  bounds_hold doc out -> (no_array doc f = true -> within (field_value doc f) b) -> bounds_hold doc (<[f := b]> out).
Proof.
  intros H Hb g c. destruct (decide (f = g)) as [->|Hne]; [rewrite lookup_insert_eq; intros [= <-]; done|]. rewrite lookup_insert_ne by done. apply H.
Qed.

Lemma setEq_holds doc out f v :
  bounds_hold doc out -> (no_array doc f = true -> Compare (field_value doc f) v = Eq) -> bounds_hold doc (setEq out f v).
Proof.
  intros H Hv. apply bounds_hold_insert; [done|]. intros Hf. destruct (bounds_hold_for doc out f H Hf) as (_ & H2 & H3). split_and!; [|done..].
  intros e [= <-]. by apply Hv.
Qed.

Lemma mergeLo_holds doc out f v inc :
  bounds_hold doc out -> (no_array doc f = true -> Compare (field_value doc f) v <> Lt) -> bounds_hold doc (mergeLo out f v inc).
Proof.
  intros H Hv. apply bounds_hold_insert; [done|]. intros Hf. destruct (bounds_hold_for doc out f H Hf) as (H1 & H2 & H3). split_and!; [done| |done].
  cbn [fb_lo]. intros lo i [= E]. destruct (fb_lo (boundFor out f)) as [[lo0 i0]|]; [destruct (Compare v lo0)|]; injection E as <- _; eauto.
Qed.

Lemma mergeHi_holds doc out f v inc :
  bounds_hold doc out -> (no_array doc f = true -> Compare (field_value doc f) v <> Gt) -> bounds_hold doc (mergeHi out f v inc).
Proof.
  intros H Hv. apply bounds_hold_insert; [done|]. intros Hf. destruct (bounds_hold_for doc out f H Hf) as (H1 & H2 & H3). split_and!; [done..|].
  cbn [fb_hi]. intros hi i [= E]. destruct (fb_hi (boundFor out f)) as [[hi0 i0]|]; [destruct (Compare v hi0)|]; injection E as <- _; eauto.
Qed.

(** *** A field without arrays under one operator *)

Lemma eval_scalar doc f leaf :
  no_array doc f = true -> eval (fieldPred (split_dots f) leaf) doc = true ->
  (matchValue leaf (field_value doc f) = true) \/ (matchMissing leaf = true /\ field_value doc f = spec_nullValue).
Proof.
  intros Hf. cbn [eval]. rewrite field_eval_slow_eq. unfold field_eval_slow.
  destruct (no_array_cases doc f Hf) as [(w & _ & -> & Hw & ->)|(_ & -> & ->)]; cbn [negb existsb]; [|auto].
  unfold match_one. rewrite (proj2 (Z.eqb_neq _ _)) by done. rewrite andb_false_r, !orb_false_r. auto.
Qed.

Lemma Equal_Compare v w : Equal v w = true -> Compare v w = Eq.
Proof. unfold Equal. by destruct (Compare v w). Qed.

Lemma null_Compare w : isNullOperand w = true -> Compare spec_nullValue w = Eq.
Proof.
  unfold isNullOperand, one_of. cbn [existsb]. rewrite orb_false_r, orb_true_iff, !Z.eqb_eq. intros H.
  rewrite Compare_unfold. change (CanonicalType (rv_Type spec_nullValue)) with rankNull.
  assert (E : CanonicalType (rv_Type w) = rankNull) by (by destruct H as [-> | ->]). by rewrite E.
Qed.

Lemma eq_scalar doc f want : no_array doc f = true -> eval (fieldPred (split_dots f) (eqLeaf want)) doc = true -> Compare (field_value doc f) want = Eq.
Proof. intros Hf H. apply (eval_scalar doc f _ Hf) in H as [H|[H ->]]; [by apply Equal_Compare|by apply null_Compare]. Qed.

Lemma cmp_scalar doc f want op :
  no_array doc f = true -> eval (fieldPred (split_dots f) (cmpLeaf want op)) doc = true -> cmp_holds op (Compare (field_value doc f) want) = true.
Proof.
  intros Hf H. apply (eval_scalar doc f _ Hf) in H as [H|[H _]]; [|done]. cbn [matchValue] in H. unfold cmp_match in H. by destruct (negb _).
Qed.

Lemma try_each_inv {A B} (f : A -> res queryErr B) l bs : try_each f l = Ok bs -> Forall2 (fun a b => f a = Ok b) l bs.
Proof.
  revert bs. induction l as [|a l IH]; intros bs; cbn [try_each]; [intros [= <-]; constructor|].
  destruct (f a) as [b| |] eqn:E; [|done..]. cbn [res_bind]. destruct (try_each f l) as [bs'| |]; [|done..]. intros [= <-]. constructor; [done|by apply IH].
Qed.

Lemma conj_true parts doc : eval (conj_of parts) doc = true -> Forall (fun p => eval p doc = true) parts.
Proof.
  intros H. destruct parts as [|p [|q ps]]; [constructor|by constructor|]. cbn [conj_of eval] in H. apply Forall_forall. by apply forallb_elem.
Qed.

Lemma elements_elems d es : elements_of d = Ok es -> elems d = es.
Proof. unfold elements_of, elems. destruct (Elements d); [done|]. by intros [= ->]. Qed.

(** Folding a step over the elements of a document, beside the predicates they
    were compiled to. *)
Lemma fold_holds {A} (doc : bytes) (step : bounds -> A -> bounds) (f : A -> res queryErr predicate) (l : list A) (parts : list predicate) :
  (forall a p out, f a = Ok p -> eval p doc = true -> bounds_hold doc out -> bounds_hold doc (step out a)) ->
  try_each f l = Ok parts -> Forall (fun p => eval p doc = true) parts -> forall out, bounds_hold doc out -> bounds_hold doc (fold_left step l out).
Proof.
  intros Hs Hl. apply try_each_inv in Hl. induction Hl as [|a p l parts Hap _ IH]; intros Hp out Ho; [done|]. apply Forall_cons in Hp as [Hp Hps].
  cbn [fold_left]. apply IH; [done|]. by apply (Hs a p).
Qed.

Section holds.
Context {PF : Platform} (doc : bytes).

Lemma compile_comparisons path v :
  compileOperator path (str "$eq") v = Ok (fieldPred path (eqLeaf v)) /\
  compileOperator path (str "$gt") v = Ok (fieldPred path (cmpLeaf v opGt)) /\ compileOperator path (str "$gte") v = Ok (fieldPred path (cmpLeaf v opGte)) /\
  compileOperator path (str "$lt") v = Ok (fieldPred path (cmpLeaf v opLt)) /\ compileOperator path (str "$lte") v = Ok (fieldPred path (cmpLeaf v opLte)).
Proof. rewrite !compileOperator_eq. split_and!; reflexivity. Qed.

Lemma apply_op_holds out f op v p :
  compileOperator (split_dots f) op v = Ok p -> eval p doc = true -> bounds_hold doc out -> bounds_hold doc (apply_op out f op v).
Proof.
  destruct (compile_comparisons (split_dots f) v) as (C1 & C2 & C3 & C4 & C5). intros Hp He Ho. unfold apply_op.
  case_bool_decide as E1; [subst op; rewrite C1 in Hp; injection Hp as <-; apply setEq_holds; [done|]; intros Hf; by apply eq_scalar|].
  case_bool_decide as E2; [subst op; rewrite C2 in Hp; injection Hp as <-; apply mergeLo_holds; [done|]; intros Hf; apply (cmp_scalar doc f) in He; [by destruct (Compare _ v)|done]|].
  case_bool_decide as E3; [subst op; rewrite C3 in Hp; injection Hp as <-; apply mergeLo_holds; [done|]; intros Hf; apply (cmp_scalar doc f) in He; [by destruct (Compare _ v)|done]|].
  case_bool_decide as E4; [subst op; rewrite C4 in Hp; injection Hp as <-; apply mergeHi_holds; [done|]; intros Hf; apply (cmp_scalar doc f) in He; [by destruct (Compare _ v)|done]|].
  case_bool_decide as E5; [subst op; rewrite C5 in Hp; injection Hp as <-; apply mergeHi_holds; [done|]; intros Hf; apply (cmp_scalar doc f) in He; [by destruct (Compare _ v)|done]|done].
Qed.

Lemma applyOps_holds out f ops p :
  compileOperators (split_dots f) ops = Ok p -> eval p doc = true -> bounds_hold doc out -> bounds_hold doc (applyOps out f ops).
Proof.
  rewrite compileOperators_eq. unfold operators_body, applyOps. destruct (elements_of ops) as [es| |] eqn:Ee; [|done..]. cbn [res_bind].
  rewrite (elements_elems _ _ Ee). destruct (try_each _ es) as [parts| |] eqn:Et; [|done..]. cbn [res_bind]. intros Hp He Ho.
  apply (fold_holds doc (fun out e => apply_op out f (Key e) (Value e)) (fun e => compileOperator (split_dots f) (Key e) (Value e)) es parts); try done.
  - intros e q o Hq Heq Hoo. by apply (apply_op_holds o f (Key e) (Value e) q).
  - destruct parts as [|q qs]; [constructor|]. injection Hp as <-. by apply conj_true.
Qed.

Lemma arrayDocs_filters (v : RawValue) subs :
  compileFilterArray compileDoc v = Ok subs -> try_each compileDoc (arrayDocs v) = Ok subs.
Proof.
  unfold compileFilterArray, arrayDocs, arrayElems. destruct (Z.eqb_spec (rv_Type v) TypeArray) as [E|]; cbn [negb]; [|done].
  assert (Ea : one_of (rv_Type v) [TypeArray; TypeDocument] = true) by (by rewrite E). rewrite Ea.
  assert (H : forall es, try_each (fun e => if negb (rv_Type e =? TypeDocument) then Err ErrBadQuery else compileDoc (Document e)) (map Value es) = Ok subs ->
    try_each compileDoc (map (fun e => Document (Value e)) (List.filter (fun e => rv_Type (Value e) =? TypeDocument) es)) = Ok subs).
  { intros es. revert subs. induction es as [|e es IH]; intros subs; [done|]. cbn [map try_each List.filter].
    destruct (rv_Type (Value e) =? TypeDocument); cbn [negb]; [|done]. cbn [map try_each]. destruct (compileDoc _) as [p| |]; [|done..]. cbn [res_bind].
    destruct (try_each _ (map Value es)) as [ps| |]; [|done..]. rewrite (IH ps) by done. done. }
  destruct (map Value (elems (Document v))) as [|x l] eqn:Em; [done|]. rewrite <- Em. apply H.
Qed.

Lemma collectBounds_holds : forall d out p,
  compileDoc d = Ok p -> eval p doc = true -> bounds_hold doc out -> bounds_hold doc (collectBounds d out).
Proof.
  intros d. induction d as [d IH] using (well_founded_ind (well_founded_ltof _ (@List.length Z))). intros out p.
  rewrite compileDoc_eq, collectBounds_eq. unfold doc_body, collect_body. case_bool_decide as E; [subst d; by intros _ _|]. destruct (WellFormed d); [done|].
  destruct (elements_of d) as [es| |] eqn:Ee; [|done..]. cbn [res_bind]. rewrite (elements_elems _ _ Ee).
  destruct (try_each _ es) as [parts| |] eqn:Et; [|done..]. cbn [res_bind]. intros [= <-] He%conj_true Ho.
  assert (Hsh : forall e, e ∈ es -> (dlen (Value e) < List.length d)%nat) by (intros e; by apply elements_of_shorter).
  clear Ee E. apply try_each_inv in Et. revert out Ho. induction Et as [|e q es parts Hq _ IHes]; intros out Ho; [done|].
  apply Forall_cons in He as [He Hes]. cbn [fold_left]. apply IHes; [done|intros x Hx; apply Hsh; by right|]. unfold collect_elem.
  specialize (Hsh e ltac:(left)). destruct (bool_decide (Key e = str "$and")) eqn:Ek.
  - apply bool_decide_eq_true in Ek. rewrite Ek in Hq. change (has_dollar (str "$and")) with true in Hq. unfold compileLogical in Hq.
    rewrite bool_decide_eq_true_2 in Hq by done. destruct (compileFilterArray compileDoc (Value e)) as [subs| |] eqn:Ea; [|done..]. injection Hq as <-.
    apply arrayDocs_filters, try_each_inv in Ea. cbn [eval] in He. rewrite forallb_elem in He.
    assert (Hin : forall sub, sub ∈ arrayDocs (Value e) -> ltof bytes (@List.length Z) sub d) by (intros sub Hs%arrayDocs_shorter; unfold ltof; lia).
    revert out Ho. clear - IH Ea He Hin. induction Ea as [|sub q l qs Hq _ IHl]; intros out Ho; [done|]. cbn [fold_left].
    apply IHl; [intros c Hc; apply He; by right|intros c Hc; apply Hin; by right|]. apply (IH sub ltac:(apply Hin; left) out q); [exact Hq|apply He; left|done].
  - destruct (has_dollar (Key e)); [done|]. unfold compileField in Hq. destruct (isOperatorDoc (Value e)); [by apply (applyOps_holds out _ _ q)|].
    injection Hq as <-. apply setEq_holds; [done|]. intros Hf. by apply eq_scalar.
Qed.

Lemma extractBounds_holds filter m : Compile filter = Ok m -> Match m doc = true -> bounds_hold doc (extractBounds filter).
Proof.
  unfold Compile. destruct (compileDoc filter) as [p| |] eqn:E; [|done..]. intros [= <-] H. apply (collectBounds_holds filter ∅ p); [done..|]. by intros f b.
Qed.
End holds.

(** ** Bounds as bytes *)

(** x is no larger than y, and stays so when what follows x is no larger than what
    follows y. *)
Definition le_ext (x y : bytes) : Prop := forall s t, ble s t -> ble (x ++ s) (y ++ t).

Lemma le_ext_app x y x' y' : le_ext x y -> le_ext x' y' -> le_ext (x ++ x') (y ++ y').
Proof. intros H H' s t Hst. rewrite <- !app_assoc. by apply H, H'. Qed.

Lemma le_ext_ble x y : le_ext x y -> ble x y.
Proof. intros H. specialize (H [] [] (ble_refl [])). by rewrite !app_nil_r in H. Qed.

Lemma le_ext_nil : le_ext [] [].
Proof. by intros s t. Qed.

Lemma le_ext_lt a b x y : a < b -> le_ext (a :: x) (b :: y).
Proof. intros H s t _. unfold ble. cbn [app]. rewrite bcmp_cons. by rewrite (proj2 (Z.compare_lt_iff a b)). Qed.

Lemma le_ext_refl x : le_ext x x.
Proof. intros s t H. unfold ble in *. by rewrite bcmp_app_same. Qed.

Section ranges.
Context (st : Z).

Definition orderly (v : RawValue) : Prop := v_ok v /\ key_ordered st v = true.

Lemma le_ext_fields desc a b ka kb :
  orderly a -> orderly b -> EncodeField a desc = inr ka -> EncodeField b desc = inr kb -> directed desc (Compare a b) <> Gt -> le_ext ka kb.
Proof.
  intros [Va Oa] [Vb Ob] Ea Eb Hc s t Hst. unfold ble in *. rewrite (field_key_app st desc a b ka kb s t) by done.
  by destruct (directed desc (Compare a b)).
Qed.

(** The key of a value lies between the sentinels: it starts with a tag between
    theirs, and is the tag alone where they are the same. *)
Lemma key_tag v k : orderly v -> EncodeValue v = inr k ->
  exists c r, k = c :: r /\ tagMinKey <= c <= tagMaxKey /\ (c = tagMinKey \/ c = tagMaxKey -> r = []).
Proof.
  intros [Hv Ho] Hk. destruct (key_body_of st v k Hv Ho Hk) as (body & -> & Hb). exists (rank_tag (CanonicalType (rv_Type v))), body. split; [done|].
  pose proof (rank_bounds (rv_Type v)) as Hr. revert Hb Hr. generalize (CanonicalType (rv_Type v)) as r. intros r Hb Hr.
  assert (Hcase : r = 0 \/ r = 1 \/ r = 2 \/ r = 3 \/ r = 4 \/ r = 5 \/ r = 6 \/ r = 7 \/ r = 8 \/ r = 9 \/ r = 10 \/ r = 11 \/ r = 12) by lia.
  repeat (destruct Hcase as [->|Hcase]); [..|subst r]; (split; [vm_compute; split; discriminate|]); try (intros [H|H]; vm_compute in H; discriminate H); intros _; exact Hb.
Qed.

Lemma le_ext_min v desc k : orderly v -> EncodeField v desc = inr k -> le_ext (EncodeBoundMin desc) k.
Proof.
  unfold EncodeField. intros Hv. destruct (EncodeValue v) as [|k0] eqn:E; [done|]. intros [= <-].
  destruct (key_tag v k0 Hv E) as (c & r & -> & Hc & Hr). destruct desc; unfold EncodeBoundMin.
  - cbn [invert map]. assert (E255 : Z.lxor 0xFF c = 255 - c) by (apply lxor_255; unfold byte_ok, tagMinKey, tagMaxKey in *; lia). rewrite E255.
    change (Z.lxor 0xFF tagMaxKey) with 0. destruct (decide (c = tagMaxKey)) as [->|Hne]; [rewrite Hr by auto; apply le_ext_refl|].
    apply le_ext_lt. unfold tagMaxKey in *. lia.
  - destruct (decide (c = tagMinKey)) as [->|Hne]; [rewrite Hr by auto; apply le_ext_refl|]. apply le_ext_lt. lia.
Qed.

Lemma le_ext_max v desc k : orderly v -> EncodeField v desc = inr k -> le_ext k (EncodeBoundMax desc).
Proof.
  unfold EncodeField. intros Hv. destruct (EncodeValue v) as [|k0] eqn:E; [done|]. intros [= <-].
  destruct (key_tag v k0 Hv E) as (c & r & -> & Hc & Hr). destruct desc; unfold EncodeBoundMax.
  - cbn [invert map]. assert (E255 : Z.lxor 0xFF c = 255 - c) by (apply lxor_255; unfold byte_ok, tagMinKey, tagMaxKey in *; lia). rewrite E255.
    change (Z.lxor 0xFF tagMinKey) with 254. destruct (decide (c = tagMinKey)) as [->|Hne]; [rewrite Hr by auto; apply le_ext_refl|].
    apply le_ext_lt. unfold tagMinKey in *. lia.
  - destruct (decide (c = tagMaxKey)) as [->|Hne]; [rewrite Hr by auto; apply le_ext_refl|]. apply le_ext_lt. lia.
Qed.

(** The values of a bound compare as their keys do. *)
Definition bound_orderly (b : fieldBound) : Prop :=
  (forall e, fb_eq b = Some e -> orderly e) /\ (forall v inc, fb_lo b = Some (v, inc) -> orderly v) /\ (forall v inc, fb_hi b = Some (v, inc) -> orderly v).

Lemma opp_le desc a b : v_ok a -> v_ok b -> Compare a b <> Gt -> directed desc (if desc then Compare b a else Compare a b) <> Gt.
Proof. intros Ha Hb H. destruct desc; [|done]. cbn [directed]. by rewrite (to_anti (c:=Compare) a b), CompOpp_involutive by done. Qed.

Lemma encodeRange_brackets b v desc k lo hi :
  fb_eq b = None -> bound_orderly b -> within v b -> orderly v -> EncodeField v desc = inr k ->
  encodeRange (intervalOf (Some b)) desc = inr (lo, hi) -> iv_AlwaysTrue (intervalOf (Some b)) = false -> le_ext lo k /\ le_ext k hi.
Proof.
  destruct b as [eq lo0 hi0]. cbn [fb_eq]. intros -> (_ & Olo & Ohi) (_ & Wlo & Whi) Hv Hk. cbn [fb_lo fb_hi] in *.
  assert (Hlow : forall l inc, lo0 = Some (l, inc) -> forall kl, EncodeField l desc = inr kl -> if desc then le_ext k kl else le_ext kl k).
  { intros l inc E kl El. specialize (Olo l inc E). specialize (Wlo l inc E). destruct desc; [apply (le_ext_fields true v l k kl)|apply (le_ext_fields false l v kl k)]; try done; cbn [directed].
    - by destruct (Compare v l).
    - destruct Hv, Olo. rewrite (to_anti v l) by done. by destruct (Compare v l). }
  assert (Hhigh : forall h inc, hi0 = Some (h, inc) -> forall kh, EncodeField h desc = inr kh -> if desc then le_ext kh k else le_ext k kh).
  { intros h inc E kh Eh. specialize (Ohi h inc E). specialize (Whi h inc E). destruct desc; [apply (le_ext_fields true h v kh k)|apply (le_ext_fields false v h k kh)]; try done; cbn [directed].
    destruct Hv, Ohi. rewrite (to_anti v h) by done. by destruct (Compare v h). }
  pose proof (le_ext_min v desc k Hv Hk) as Hmin. pose proof (le_ext_max v desc k Hv Hk) as Hmax. unfold encodeRange, intervalOf.
  destruct lo0 as [[l li]|], hi0 as [[h hi']|]; destruct desc; cbn [iv_Lo iv_Hi iv_HasLo iv_HasHi negb].
  all: repeat (match goal with |- context [EncodeField ?x ?d] => destruct (EncodeField x d) eqn:? end; try done).
  all: intros [= <- <-] Hat; try discriminate Hat; split; eauto.
  all: first [by eapply (Hlow _ _ eq_refl)|by eapply (Hhigh _ _ eq_refl)].
Qed.

(** The loop over the key parts, when the bytes so far bracket the key so far. *)
Lemma bounds_loop_brackets (fb : bounds) key : forall vs ks i lo hi x ivs usable tight stopped,
  Forall2 (fun (p : KeyPart) v => orderly v /\ forall b, fb !! kp_Field p = Some b -> bound_orderly b /\ within v b) key vs ->
  Forall2 (fun (pv : KeyPart * RawValue) k => EncodeField pv.2 (kp_Desc pv.1) = inr k) (zip key vs) ks ->
  le_ext lo x -> le_ext x hi ->
  let sb := bounds_loop key fb i lo hi ivs usable tight stopped in
  sb_Empty sb = false /\ ble (sb_Lo sb) (x ++ concat ks) /\ ble (x ++ concat ks) (sb_Hi sb).
Proof.
  induction key as [|p key IH]; intros vs ks i lo hi x ivs usable tight stopped Hv Hk Hlo Hhi.
  { inversion Hv; subst. inversion Hk; subst. cbn [bounds_loop sb_Empty sb_Lo sb_Hi concat]. rewrite app_nil_r. split_and!; [done|by apply le_ext_ble..]. }
  inversion Hv as [|? v ? vs' [Hvo Hb] Hvs]; subst. cbn [zip zip_with] in Hk. inversion Hk as [|? k ? ks' Hkv Hks]; subst. cbn [fst snd] in Hkv.
  cbn [concat]. rewrite app_assoc. cbn [bounds_loop]. cbv zeta.
  assert (Hwide : forall iv', let sb := bounds_loop key fb (i + 1) (lo ++ EncodeBoundMin (kp_Desc p)) (hi ++ EncodeBoundMax (kp_Desc p)) (ivs ++ [iv']) usable false true in
    sb_Empty sb = false /\ ble (sb_Lo sb) ((x ++ k) ++ concat ks') /\ ble ((x ++ k) ++ concat ks') (sb_Hi sb)).
  { intros iv'. apply (IH vs' ks'); try done; apply le_ext_app; [done|by eapply le_ext_min|done|by eapply le_ext_max]. }
  destruct stopped; [apply Hwide|]. destruct (fb !! kp_Field p) as [b|] eqn:Eb; [|apply Hwide]. destruct (Hb b eq_refl) as [Ob Wb].
  assert (Haf : iv_AlwaysFalse (intervalOf (Some b)) = false) by (by destruct b as [[] [[]|] [[]|]]). rewrite Haf.
  destruct (iv_AlwaysTrue (intervalOf (Some b))) eqn:Eat; [apply Hwide|]. destruct (iv_Point (intervalOf (Some b))) eqn:Ep.
  - destruct b as [[e|] lo0 hi0]; [|by destruct lo0 as [[]|], hi0 as [[]|]]. change (iv_Lo (intervalOf (Some (MkFieldBound (Some e) lo0 hi0)))) with e.
    destruct (EncodeField e (kp_Desc p)) as [|enc] eqn:Ee; [apply Hwide|]. destruct Ob as (Oe & _). specialize (Oe e eq_refl). destruct Wb as (We & _). specialize (We e eq_refl).
    assert (We' : Compare e v = Eq) by (destruct Hvo, Oe; by rewrite (to_anti v e), We).
    apply (IH vs' ks'); try done; apply le_ext_app; try done.
    + apply (le_ext_fields (kp_Desc p) e v enc k); try done. rewrite We'. by destruct (kp_Desc p).
    + apply (le_ext_fields (kp_Desc p) v e k enc); try done. rewrite We. by destruct (kp_Desc p).
  - assert (Eeq : fb_eq b = None) by (by destruct b as [[] ? ?]). destruct (encodeRange _ _) as [|[loE hiE]] eqn:Er; [apply Hwide|].
    destruct (encodeRange_brackets b v (kp_Desc p) k loE hiE Eeq Ob Wb Hvo Hkv Er Eat) as [H1 H2]. apply (IH vs' ks'); try done; by apply le_ext_app.
Qed.
End ranges.

(** ** The range holds the keys of the documents that match *)

Lemma AppendFields_concat vs : forall descs k, AppendFields [] (zip vs descs) = inr k -> List.length vs = List.length descs ->
  exists ks, Forall2 (fun (pv : RawValue * bool) kv => EncodeField pv.1 pv.2 = inr kv) (zip vs descs) ks /\ k = concat ks.
Proof.
  induction vs as [|v vs IH]; intros [|d descs] k; cbn [zip zip_with]; try done; [intros [= <-] _; by exists []|].
  intros (kv & kr & Ev & Er & ->)%AppendFields_cons Hl. destruct (IH descs kr Er ltac:(cbn [List.length] in Hl; lia)) as (ks & Hks & ->).
  exists (kv :: ks). split; [by constructor|done].
Qed.

Definition scalar_key (doc : bytes) (key : list KeyPart) : keyErr + bytes :=
  AppendFields [] (zip (map (fun p => field_value doc (kp_Field p)) key) (map kp_Desc key)).

Lemma bounds_cover st `{Platform} filter m doc key k :
  Compile filter = Ok m -> Match m doc = true ->
  Forall (fun p => no_array doc (kp_Field p) = true /\ orderly st (field_value doc (kp_Field p)) /\
                   forall b, extractBounds filter !! kp_Field p = Some b -> bound_orderly st b) key ->
  scalar_key doc key = inr k ->
  let sb := buildScanBounds key (extractBounds filter) in
  sb_Empty sb = false /\ ble (sb_Lo sb) k /\ ble k (sb_Hi sb).
Proof.
  intros Hc Hm Hkey Hk. pose proof (extractBounds_holds doc filter m Hc Hm) as Hb.
  apply AppendFields_concat in Hk as (ks & Hks & ->); [|by rewrite !length_map].
  set (vs := map (fun p => field_value doc (kp_Field p)) key).
  assert (H1 : Forall2 (fun (p : KeyPart) v => orderly st v /\ forall b, extractBounds filter !! kp_Field p = Some b -> bound_orderly st b /\ within v b) key vs).
  { unfold vs. clear Hks ks vs. induction Hkey as [|p key (Hn & Ho & Hp) _ IH]; [constructor|]. cbn [map]. constructor; [|done].
    split; [done|]. intros b E. split; [by apply Hp|]. by apply (Hb (kp_Field p)). }
  assert (H2 : Forall2 (fun (pv : KeyPart * RawValue) k => EncodeField pv.2 (kp_Desc pv.1) = inr k) (zip key vs) ks).
  { unfold vs. clear - Hks. revert ks Hks. induction key as [|p key IH]; intros ks Hks; cbn [map zip zip_with] in *; inversion Hks; subst; constructor; auto. }
  apply (bounds_loop_brackets st (extractBounds filter) key vs ks 0 [] [] [] [] false true false H1 H2 le_ext_nil le_ext_nil).
Qed.

(** C20. The planner's range is a superset: whatever the filter, if it matches a
    document with no array in the indexed fields, the document's key lies between the
    bounds of the range, both included, in every field order and direction. The values
    compared must be ones whose keys are ordered as they are (no NaN, no negative
    zero, no integer beyond 53 bits, no decimal, binaries of one subtype, nothing
    nested). *)
Theorem bounds_cover_matches st `{Platform} filter m doc key k :
  Compile filter = Ok m -> Match m doc = true ->
  Forall (fun p => no_array doc (kp_Field p) = true /\ orderly st (field_value doc (kp_Field p)) /\
                   forall b, extractBounds filter !! kp_Field p = Some b -> bound_orderly st b) key ->
  scalar_key doc key = inr k ->
  let sb := buildScanBounds key (extractBounds filter) in
  sb_Empty sb = false /\ ble (sb_Lo sb) k /\ ble k (sb_Hi sb).
Proof. apply bounds_cover. Qed.

(** ** What the range misses *)

#[local] Existing Instance amd64.

Definition range_of (filter : bytes) (key : list KeyPart) : bytes * bytes := let sb := buildScanBounds key (extractBounds filter) in (sb_Lo sb, sb_Hi sb).

Definition in_range (filter : bytes) (key : list KeyPart) (k : bytes) : bool := let '(lo, hi) := range_of filter key in bleb lo k && bleb k hi.

Definition a_key : list KeyPart := [MkKeyPart (str "a") false].

(** {a: {$gt: 5, $lt: 3}} *)
Definition gap_filter : bytes := doc1 "a" (doc_val (Build (AppendValue (str "$lt") (int_n 3) (AppendValue (str "$gt") (int_n 5) [])))).

(** On an array the two sides of a range are met by different elements: the filter
    matches [1, 10], and the intersected range is empty of its keys. Negative zero
    equals zero and has another key; a whole array is looked for under a key that no
    document has. *)
Theorem bounds_miss_matches :
  (matches_filter gap_filter (doc1 "a" (array_val [int_n 1; int_n 10])) = Some true /\
   Keys (one_field "a") (doc1 "a" (array_val [int_n 1; int_n 10])) = Ok ([EncodeInt64 1; EncodeInt64 10], true, true) /\
   map (in_range gap_filter a_key) [EncodeInt64 1; EncodeInt64 10] = [false; false]) /\
  (matches_filter (doc1 "a" (int_n 0)) (doc1 "a" (double_val (2 ^ 63))) = Some true /\
   Keys (one_field "a") (doc1 "a" (double_val (2 ^ 63))) = Ok ([EncodeFloat64 (2 ^ 63)], true, false) /\
   in_range (doc1 "a" (int_n 0)) a_key (EncodeFloat64 (2 ^ 63)) = false) /\
  (matches_filter (doc1 "a" (array_val [int_n 1])) (doc1 "a" (array_val [int_n 1])) = Some true /\
   Keys (one_field "a") (doc1 "a" (array_val [int_n 1])) = Ok ([EncodeInt64 1], true, true) /\
   in_range (doc1 "a" (array_val [int_n 1])) a_key (EncodeInt64 1) = false).
Proof. vm_compute. split_and!; reflexivity. Qed.

Definition range_filter : bytes := doc1 "a" (doc_val (Build (AppendValue (str "$lte") (int_n 9) (AppendValue (str "$gt") (int_n 5) [])))).

Lemma bounds_cover_matches_witness :
  ble (sb_Lo (buildScanBounds [MkKeyPart (str "a") true; MkKeyPart (str "b") false] (extractBounds range_filter))) (invert (EncodeInt64 7) ++ EncodeNull).
Proof.
  destruct (Compile range_filter) as [m| |] eqn:Em; [|vm_compute in Em; discriminate Em..].
  assert (Hm : Match m (doc1 "a" (int_n 7)) = true).
  { assert (E : matches_filter range_filter (doc1 "a" (int_n 7)) = Some true) by (vm_compute; reflexivity). unfold matches_filter in E. rewrite Em in E. by injection E. }
  assert (Hk : scalar_key (doc1 "a" (int_n 7)) [MkKeyPart (str "a") true; MkKeyPart (str "b") false] = inr (invert (EncodeInt64 7) ++ EncodeNull)) by (vm_compute; reflexivity).
  destruct (bounds_cover_matches 0 range_filter m (doc1 "a" (int_n 7)) [MkKeyPart (str "a") true; MkKeyPart (str "b") false] (invert (EncodeInt64 7) ++ EncodeNull) Em Hm) as (_ & Hlo & _);
    [|exact Hk|exact Hlo].
  apply Forall_cons. split; [|apply Forall_cons; split; [|constructor]].
  - split; [vm_compute; reflexivity|]. split; [split; [apply bytes_okb_ok; vm_compute; reflexivity|vm_compute; reflexivity]|].
    intros b Hb. assert (E : extractBounds range_filter !! str "a" = Some (MkFieldBound None (Some (int_n 5, false)) (Some (int_n 9, true)))) by (vm_compute; reflexivity).
    cbn [kp_Field] in Hb. rewrite E in Hb. injection Hb as <-. split; [discriminate|].
    split; intros v inc [= <- <-]; (split; [apply bytes_okb_ok; vm_compute; reflexivity|vm_compute; reflexivity]).
  - split; [vm_compute; reflexivity|]. split; [split; [apply bytes_okb_ok; vm_compute; reflexivity|vm_compute; reflexivity]|].
    intros b Hb. assert (E : extractBounds range_filter !! str "b" = None) by (vm_compute; reflexivity). cbn [kp_Field] in Hb. rewrite E in Hb. discriminate Hb.
Defined.
