(* ===== verification/PlanStages.v ===== *)
(** * plan/stages.go: the execution stages

    Each stage answers GetNext by pulling from its child and keeps counters. What a
    stage still has to give is a list and the error that ends it ([stream]); pulling
    from a stage gives the head of the list and leaves its tail
    ([GetNext_answers]). *)

From Stdlib Require Import String.
From S2P Require Import Prelude Rid Bson BsonCompare KeyEnc Query QueryShape IndexSpec.

Local Open Scope Z_scope.

#[global] Instance RID_countable : Countable RID.
Proof. refine (inj_countable' (fun r => (PageNo r, Slot r)) (fun p => MkRID p.1 p.2) _). by intros []. Defined.

(** ** Rows, members, counters *)

Record Row := MkRow { row_RID : RID; row_Doc : bytes }.

Record WorkingSetMember := MkMember { wm_RID : RID; wm_Key : bytes; wm_Doc : bytes }.

(** The name of a stage is its constructor. *)
Record StageStats := MkStats { Works : Z; Advanced : Z; KeysExamined : Z; DocsExamined : Z }.
Definition no_stats : StageStats := MkStats 0 0 0 0.

Definition worked (s : StageStats) : StageStats := MkStats (u64 (Works s + 1)) (Advanced s) (KeysExamined s) (DocsExamined s).
Definition advanced (s : StageStats) : StageStats := MkStats (Works s) (u64 (Advanced s + 1)) (KeysExamined s) (DocsExamined s).
Definition key_examined (s : StageStats) : StageStats := MkStats (Works s) (Advanced s) (u64 (KeysExamined s + 1)) (DocsExamined s).
Definition doc_examined (s : StageStats) : StageStats := MkStats (Works s) (Advanced s) (KeysExamined s) (u64 (DocsExamined s + 1)).

(** EOF, an error of the source or its cursors, of a key, of a query; and fuel that
    runs out. *)
Inductive planErr : Type :=
| EOF
| SourceErr (e : Z)
| KeyErr (e : keyErr)
| errCoveredMismatch
| QueryErr (e : queryErr)
| PlanFuel.

(** An index cursor: the entries it has left, and the error Err reports after
    them. *)
Record IndexCursor := MkIndexCursor { ic_entries : list (bytes * RID); ic_err : option Z }.

(** ** Stages *)

Inductive PlanStage : Type :=
| CollectionScanStage (rows : list Row) (pos : nat) (stats : StageStats)
| IndexScanStage (cur : IndexCursor) (stats : StageStats)
| FetchStage (child : PlanStage) (seen : gset RID) (stats : StageStats)
| coveredFetchStage (child : PlanStage) (parts : list KeyPart) (stats : StageStats)
| FilterStage (child : PlanStage) (matcher : Matcher) (stats : StageStats)
| SortStage (child : PlanStage) (sort : Sort) (buf : list bytes) (pos : nat) (loaded : bool) (stats : StageStats)
| SkipStage (child : PlanStage) (amount remaining : Z) (stats : StageStats)
| LimitStage (child : PlanStage) (amount remaining : Z) (stats : StageStats)
| ProjectionStage (child : PlanStage) (proj : Projection) (covered : bool) (stats : StageStats).

Definition newCollectionScan (rows : list Row) : PlanStage := CollectionScanStage rows 0 no_stats.
Definition newIndexScan (cur : IndexCursor) : PlanStage := IndexScanStage cur no_stats.
Definition newFetch (child : PlanStage) : PlanStage := FetchStage child ∅ no_stats.
Definition newCoveredFetch (child : PlanStage) (parts : list KeyPart) : PlanStage := coveredFetchStage child parts no_stats.
Definition newFilter (child : PlanStage) (m : Matcher) : PlanStage := FilterStage child m no_stats.
Definition newSort (child : PlanStage) (s : Sort) : PlanStage := SortStage child s [] 0 false no_stats.
Definition newSkip (child : PlanStage) (n : Z) : PlanStage := SkipStage child n n no_stats.
Definition newLimit (child : PlanStage) (n : Z) : PlanStage := LimitStage child n n no_stats.
Definition newProjection (child : PlanStage) (p : Projection) (covered : bool) : PlanStage := ProjectionStage child p covered no_stats.

(** The loop of decodeKey, with the builder's body and what is left of the key. *)
Fixpoint decode_parts (parts : list KeyPart) (b rest : bytes) : res planErr (bytes * bytes) :=
  match parts with
  | [] => Ok (b, rest)
  | kp :: parts' =>
      match AppendDecodedField b (kp_Field kp) rest (kp_Desc kp) with
      | inl e => Err (KeyErr e)
      | inr (b', n) => if n >? blen rest then Panic else decode_parts parts' b' (drop (Z.to_nat n) rest)
      end
  end.

Definition decodeKey (key : bytes) (parts : list KeyPart) : res planErr bytes :=
  let* '(b, rest) := decode_parts parts [] key in
  match rest with [] => Ok (Build b) | _ => Err errCoveredMismatch end.

Definition set_doc (doc : bytes) (m : WorkingSetMember) : WorkingSetMember := MkMember (wm_RID m) (wm_Key m) doc.

(** A member of the sort stage has a document alone. *)
Definition only_doc (doc : bytes) : WorkingSetMember := MkMember (MkRID 0 0) [] doc.

Section stages.
(** LookupRID of the source. *)
Context (LookupRID : RID -> option bytes).

(** GetNext, with the stage it leaves behind. A loop of the source is a call of
    the stage it has got to. *)
Fixpoint GetNext (fuel : nat) (s : PlanStage) : res planErr WorkingSetMember * PlanStage :=
  match fuel with
  | O => (Err PlanFuel, s)
  | S n =>
      match s with
      | CollectionScanStage rows pos st =>
          match rows !! pos with
          | None => (Err EOF, CollectionScanStage rows pos (worked st))
          | Some r => (Ok (MkMember (row_RID r) [] (row_Doc r)), CollectionScanStage rows (S pos) (advanced (doc_examined (worked st))))
          end
      | IndexScanStage cur st =>
          match ic_entries cur with
          | [] => (Err match ic_err cur with Some e => SourceErr e | None => EOF end, IndexScanStage cur (worked st))
          | (k, rid) :: rest => (Ok (MkMember rid k []), IndexScanStage (MkIndexCursor rest (ic_err cur)) (advanced (key_examined (worked st))))
          end
      | FetchStage child seen st =>
          match GetNext n child with
          | (Ok m, child') =>
              if bool_decide (wm_RID m ∈ seen) then GetNext n (FetchStage child' seen (worked st))
              else
                match LookupRID (wm_RID m) with
                | None => GetNext n (FetchStage child' ({[wm_RID m]} ∪ seen) (worked st))
                | Some doc => (Ok (set_doc doc m), FetchStage child' ({[wm_RID m]} ∪ seen) (advanced (doc_examined (worked st))))
                end
          | (r, child') => (r, FetchStage child' seen (worked st))
          end
      | coveredFetchStage child parts st =>
          match GetNext n child with
          | (Ok m, child') =>
              match decodeKey (wm_Key m) parts with
              | Ok doc => (Ok (set_doc doc m), coveredFetchStage child' parts (advanced (worked st)))
              | Err e => (Err e, coveredFetchStage child' parts (worked st))
              | Panic => (Panic, coveredFetchStage child' parts (worked st))
              end
          | (r, child') => (r, coveredFetchStage child' parts (worked st))
          end
      | FilterStage child matcher st =>
          match GetNext n child with
          | (Ok m, child') =>
              if Match matcher (wm_Doc m) then (Ok m, FilterStage child' matcher (advanced (worked st)))
              else GetNext n (FilterStage child' matcher (worked st))
          | (r, child') => (r, FilterStage child' matcher (worked st))
          end
      | SortStage child sort buf pos loaded st =>
          if loaded then
            match buf !! pos with
            | None => (Err EOF, SortStage child sort buf pos true (worked st))
            | Some doc => (Ok (only_doc doc), SortStage child sort buf (S pos) true (advanced (worked st)))
            end
          else
            match GetNext n child with
            | (Ok m, child') => GetNext n (SortStage child' sort (buf ++ [wm_Doc m]) pos false st)
            | (Err EOF, child') => GetNext n (SortStage child' sort (Sort_Apply sort buf) pos true st)
            | (r, child') => (r, SortStage child' sort buf pos false st)
            end
      | SkipStage child amount remaining st =>
          match GetNext n child with
          | (Ok m, child') =>
              if remaining >? 0 then GetNext n (SkipStage child' amount (remaining - 1) (worked st))
              else (Ok m, SkipStage child' amount remaining (advanced (worked st)))
          | (r, child') => (r, SkipStage child' amount remaining (worked st))
          end
      | LimitStage child amount remaining st =>
          if remaining <=? 0 then (Err EOF, LimitStage child amount remaining (worked st))
          else
            match GetNext n child with
            | (Ok m, child') => (Ok m, LimitStage child' amount (remaining - 1) (advanced (worked st)))
            | (r, child') => (r, LimitStage child' amount remaining (worked st))
            end
      | ProjectionStage child proj covered st =>
          match GetNext n child with
          | (Ok m, child') =>
              match Projection_Apply proj (wm_Doc m) with
              | Ok out => (Ok (set_doc out m), ProjectionStage child' proj covered (advanced (worked st)))
              | Err e => (Err (QueryErr e), ProjectionStage child' proj covered (worked st))
              | Panic => (Panic, ProjectionStage child' proj covered (worked st))
              end
          | (r, child') => (r, ProjectionStage child' proj covered (worked st))
          end
      end
  end.

(** The loop of Execute: the documents, or the first error that is not EOF. *)
Fixpoint drain_stage (fuel : nat) (s : PlanStage) : res planErr (list bytes) :=
  match fuel with
  | O => Err PlanFuel
  | S n =>
      match GetNext n s with
      | (Ok m, s') => let* docs := drain_stage n s' in Ok (wm_Doc m :: docs)
      | (Err EOF, _) => Ok []
      | (Err e, _) => Err e
      | (Panic, _) => Panic
      end
  end.

(** ** What a stage still has to give *)

(** The members, then what comes instead of a next one. *)
Definition giving : Type := list WorkingSetMember * res planErr WorkingSetMember.

Fixpoint fetched (seen : gset RID) (ms : list WorkingSetMember) : list WorkingSetMember :=
  match ms with
  | [] => []
  | m :: ms' =>
      if bool_decide (wm_RID m ∈ seen) then fetched seen ms'
      else match LookupRID (wm_RID m) with
           | None => fetched ({[wm_RID m]} ∪ seen) ms'
           | Some doc => set_doc doc m :: fetched ({[wm_RID m]} ∪ seen) ms'
           end
  end.

(** Members made over one by one, up to the first that cannot be. *)
Fixpoint made (f : WorkingSetMember -> res planErr bytes) (ms : list WorkingSetMember) (e : res planErr WorkingSetMember) : giving :=
  match ms with
  | [] => ([], e)
  | m :: ms' =>
      match f m with
      | Ok doc => (set_doc doc m :: (made f ms' e).1, (made f ms' e).2)
      | Err err => ([], Err err)
      | Panic => ([], Panic)
      end
  end.

Definition projected_doc (proj : Projection) (m : WorkingSetMember) : res planErr bytes :=
  match Projection_Apply proj (wm_Doc m) with Ok d => Ok d | Err e => Err (QueryErr e) | Panic => Panic end.

Fixpoint stream (s : PlanStage) : giving :=
  match s with
  | CollectionScanStage rows pos _ => (map (fun r => MkMember (row_RID r) [] (row_Doc r)) (drop pos rows), Err EOF)
  | IndexScanStage cur _ => (map (fun e => MkMember e.2 e.1 []) (ic_entries cur), Err match ic_err cur with Some e => SourceErr e | None => EOF end)
  | FetchStage child seen _ => (fetched seen (stream child).1, (stream child).2)
  | coveredFetchStage child parts _ => made (fun m => decodeKey (wm_Key m) parts) (stream child).1 (stream child).2
  | FilterStage child matcher _ => (List.filter (fun m => Match matcher (wm_Doc m)) (stream child).1, (stream child).2)
  | SortStage child sort buf pos loaded _ =>
      if loaded then (map only_doc (drop pos buf), Err EOF)
      else match (stream child).2 with
           | Err EOF => (map only_doc (drop pos (Sort_Apply sort (buf ++ map wm_Doc (stream child).1))), Err EOF)
           | e => ([], e)
           end
  | SkipStage child _ remaining _ => (drop (Z.to_nat remaining) (stream child).1, (stream child).2)
  | LimitStage child _ remaining _ =>
      if blen (stream child).1 <? remaining then stream child
      else (take (Z.to_nat remaining) (stream child).1, Err EOF)
  | ProjectionStage child proj _ _ => made (projected_doc proj) (stream child).1 (stream child).2
  end.

(** The end of a stream is not a member, and not for want of fuel. *)
Definition ends (e : res planErr WorkingSetMember) : Prop := match e with Ok _ | Err PlanFuel => False | _ => True end.

(** Pulls enough for the next answer. *)
Fixpoint pulls (s : PlanStage) : nat :=
  match s with
  | CollectionScanStage _ _ _ | IndexScanStage _ _ => 1
  | FetchStage child _ _ | FilterStage child _ _ | SkipStage child _ _ _ => S (List.length (stream child).1 + pulls child)
  | SortStage child _ _ _ loaded _ => if loaded then 1 else S (S (List.length (stream child).1 + pulls child))
  | coveredFetchStage child _ _ | LimitStage child _ _ _ | ProjectionStage child _ _ _ => S (pulls child)
  end%nat.

(** An answer: the head of the stream with a stage whose stream is the tail, or the
    end of the stream. *)
Definition answers (s : PlanStage) (r : res planErr WorkingSetMember * PlanStage) : Prop :=
  match (stream s).1 with
  | m :: ms => r.1 = Ok m /\ stream r.2 = (ms, (stream s).2) /\ (pulls r.2 <= pulls s)%nat
  | [] => r.1 = (stream s).2
  end.

(** A maker that never runs out of fuel. *)
Definition maker (f : WorkingSetMember -> res planErr bytes) : Prop := forall m, f m <> Err PlanFuel.

Lemma made_ends f ms e : maker f -> ends e -> ends (made f ms e).2.
Proof.
  intros Hf He. induction ms as [|m ms IH]; [done|]. cbn [made]. pose proof (Hf m) as Hm. destruct (f m) as [d|err|]; [done| |done]. by destruct err.
Qed.

Lemma decodeKey_maker parts : maker (fun m => decodeKey (wm_Key m) parts).
Proof.
  intros m. unfold decodeKey. assert (H : forall b rest, decode_parts parts b rest <> Err PlanFuel).
  { induction parts as [|kp parts IH]; intros b rest; [done|]. cbn [decode_parts]. destruct (AppendDecodedField _ _ _ _) as [|[b' n]]; [done|]. destruct (_ >? _); [done|apply IH]. }
  specialize (H [] (wm_Key m)). destruct (decode_parts _ _ _) as [[b rest]|e|]; cbn [res_bind]; [by destruct rest|congruence|done].
Qed.

Lemma projected_maker proj : maker (projected_doc proj).
Proof. intros m. unfold projected_doc. by destruct (Projection_Apply _ _). Qed.

Lemma stream_ends s : ends (stream s).2.
Proof.
  induction s as [rows pos st|cur st|child IH seen st|child IH parts st|child IH mt st|child IH so buf pos ld st|child IH a r st|child IH a r st|child IH pr cov st]; cbn [stream snd]; try done.
  - by destruct (ic_err cur).
  - apply made_ends; [apply decodeKey_maker|done].
  - destruct ld; [done|]. destruct (stream child) as [ms e]. cbn [fst snd] in *. by destruct e as [|[]|].
  - by destruct (_ <? _).
  - apply made_ends; [apply projected_maker|done].
Qed.

Lemma ends_not_Ok e m : ends e -> e <> Ok m.
Proof. by intros H ->. Qed.

Lemma drop_lookup {A} (l : list A) i : drop i l = match l !! i with Some x => x :: drop (S i) l | None => [] end.
Proof.
  destruct (l !! i) as [x|] eqn:E; [by apply drop_S|]. apply drop_ge. by apply lookup_ge_None in E.
Qed.

Lemma answers_via s s' r : stream s' = stream s -> (pulls s' <= pulls s)%nat -> answers s' r -> answers s r.
Proof.
  intros E Hp. unfold answers. rewrite E. destruct (stream s).1; [done|]. intros (H1 & H2 & H3). split_and!; [done..|lia].
Qed.

(** What a pull from the child gives. *)
Definition pulled (child : PlanStage) (r : res planErr WorkingSetMember) (child' : PlanStage) : Prop :=
  match (stream child).1 with
  | m :: ms => r = Ok m /\ stream child' = (ms, (stream child).2) /\ (pulls child' <= pulls child)%nat
  | [] => r = (stream child).2 /\ ends r
  end.

Lemma answers_pulled child r child' : answers child (r, child') -> pulled child r child'.
Proof. unfold answers, pulled. cbn [fst snd]. destruct (stream child).1; [|done]. intros ->. split; [done|apply stream_ends]. Qed.

(** Pulling from a stage answers with the next of its stream. *)
Lemma GetNext_answers n : forall s, (pulls s <= n)%nat -> answers s (GetNext n s).
Proof.
  induction n as [|n IH]; intros s Hn; [destruct s; cbn [pulls] in Hn; try lia; destruct loaded; lia|].
  assert (Hchild : forall child, (pulls child <= n)%nat -> forall r child', GetNext n child = (r, child') -> pulled child r child').
  { intros child Hp r child' E. apply answers_pulled. rewrite <- E. by apply IH. }
  destruct s as [rows pos st|cur st|child seen st|child parts st|child mt st|child so buf pos ld st|child a r st|child a r st|child pr cov st]; cbn [GetNext pulls] in *.
  - unfold answers. cbn [stream fst snd]. rewrite (drop_lookup rows pos). destruct (rows !! pos) as [x|]; cbn [map fst snd pulls stream]; [split; [done|split; [done|lia]]|done].
  - unfold answers. cbn [stream fst snd]. destruct cur as [[|[k rid] es] err]; cbn [ic_entries ic_err map fst snd pulls stream]; [done|split; [done|split; [done|lia]]].
  - destruct (GetNext n child) as [r child'] eqn:Eg. pose proof (Hchild child ltac:(lia) r child' Eg) as Hr. unfold pulled in Hr.
    destruct (stream child) as [[|m ms] e] eqn:Es; cbn [fst snd List.length] in *.
    + destruct Hr as [-> He]. unfold answers. cbn [stream]. rewrite Es. cbn [fst snd fetched]. by destruct e as [|[]|].
    + destruct Hr as (-> & Es' & Hp). case_bool_decide as Hin.
      { apply (answers_via _ (FetchStage child' seen (worked st))); [cbn [stream]; rewrite Es, Es'; cbn [fst snd fetched]; by rewrite bool_decide_eq_true_2|cbn [pulls]; rewrite Es, Es'; cbn [fst List.length]; lia|].
        apply IH. cbn [pulls]. rewrite Es'. cbn [fst]. lia. }
      destruct (LookupRID (wm_RID m)) as [doc|] eqn:El.
      { unfold answers. cbn [stream pulls]. rewrite Es. cbn [fst snd fetched]. rewrite bool_decide_eq_false_2, El by done. cbn [stream pulls]. rewrite Es'. cbn [fst snd List.length]. split_and!; [done..|lia]. }
      apply (answers_via _ (FetchStage child' ({[wm_RID m]} ∪ seen) (worked st))); [cbn [stream]; rewrite Es, Es'; cbn [fst snd fetched]; by rewrite bool_decide_eq_false_2, El|cbn [pulls]; rewrite Es, Es'; cbn [fst List.length]; lia|].
      apply IH. cbn [pulls]. rewrite Es'. cbn [fst]. lia.
  - destruct (GetNext n child) as [r child'] eqn:Eg. pose proof (Hchild child ltac:(lia) r child' Eg) as Hr. unfold pulled in Hr. unfold answers. cbn [stream pulls].
    destruct (stream child) as [[|m ms] e] eqn:Es; cbn [fst snd] in *.
    + destruct Hr as [-> He]. cbn [made]. by destruct e as [|[]|].
    + destruct Hr as (-> & Es' & Hp). cbn [made]. destruct (decodeKey (wm_Key m) parts); cbn [fst snd stream pulls]; [|done..]. rewrite Es'. cbn [fst snd]. split_and!; [done|by destruct (made _ ms e)|lia].
  - destruct (GetNext n child) as [r child'] eqn:Eg. pose proof (Hchild child ltac:(lia) r child' Eg) as Hr. unfold pulled in Hr.
    destruct (stream child) as [[|m ms] e] eqn:Es; cbn [fst snd List.length] in *.
    + destruct Hr as [-> He]. unfold answers. cbn [stream]. rewrite Es. cbn [fst snd List.filter]. by destruct e as [|[]|].
    + destruct Hr as (-> & Es' & Hp). destruct (Match mt (wm_Doc m)) eqn:Em.
      { unfold answers. cbn [stream pulls]. rewrite Es. cbn [fst snd List.filter]. rewrite Em. cbn [stream pulls]. rewrite Es'. cbn [fst snd List.length]. split_and!; [done..|lia]. }
      apply (answers_via _ (FilterStage child' mt (worked st))); [cbn [stream]; rewrite Es, Es'; cbn [fst snd List.filter]; by rewrite Em|cbn [pulls]; rewrite Es, Es'; cbn [fst List.length]; lia|].
      apply IH. cbn [pulls]. rewrite Es'. cbn [fst]. lia.
  - destruct ld.
    { unfold answers. cbn [stream fst snd]. rewrite (drop_lookup buf pos). destruct (buf !! pos) as [x|]; cbn [map fst snd pulls stream]; [split; [done|split; [done|lia]]|done]. }
    destruct (GetNext n child) as [r child'] eqn:Eg. pose proof (Hchild child ltac:(lia) r child' Eg) as Hr. unfold pulled in Hr.
    destruct (stream child) as [[|m ms] e] eqn:Es; cbn [fst snd List.length] in *.
    + destruct Hr as [-> He]. destruct e as [|err|]; [done| |unfold answers; cbn [stream]; by rewrite Es].
      destruct err; try (unfold answers; cbn [stream]; by rewrite Es).
      apply (answers_via _ (SortStage child' so (Sort_Apply so buf) pos true st)); [cbn [stream]; rewrite Es; cbn [fst snd map]; by rewrite app_nil_r|cbn [pulls]; lia|]. apply IH. cbn [pulls]. lia.
    + destruct Hr as (-> & Es' & Hp).
      apply (answers_via _ (SortStage child' so (buf ++ [wm_Doc m]) pos false st)); [cbn [stream]; rewrite Es, Es'; cbn [fst snd map]; by rewrite <- app_assoc|cbn [pulls]; rewrite Es, Es'; cbn [fst List.length]; lia|].
      apply IH. cbn [pulls]. rewrite Es'. cbn [fst]. lia.
  - destruct (GetNext n child) as [r0 child'] eqn:Eg. pose proof (Hchild child ltac:(lia) r0 child' Eg) as Hr. unfold pulled in Hr.
    destruct (stream child) as [[|m ms] e] eqn:Es; cbn [fst snd List.length] in *.
    + destruct Hr as [-> He]. unfold answers. cbn [stream]. rewrite Es. cbn [fst snd]. rewrite drop_nil. by destruct e as [|[]|].
    + destruct Hr as (-> & Es' & Hp). rewrite Z.gtb_ltb. destruct (Z.ltb_spec 0 r) as [Hpos|Hpos].
      { assert (Hz : Z.to_nat r = S (Z.to_nat (r - 1))) by lia.
        apply (answers_via _ (SkipStage child' a (r - 1) (worked st))); [cbn [stream]; rewrite Es, Es'; cbn [fst snd]; by rewrite Hz|cbn [pulls]; rewrite Es, Es'; cbn [fst List.length]; lia|].
        apply IH. cbn [pulls]. rewrite Es'. cbn [fst]. lia. }
      unfold answers. cbn [stream pulls]. rewrite Es. cbn [fst snd]. assert (Hz : Z.to_nat r = 0%nat) by lia. rewrite Hz, drop_0. cbn [stream pulls]. rewrite Es', Hz, drop_0. cbn [fst snd List.length]. split_and!; [done..|lia].
  - destruct (Z.leb_spec r 0) as [Hr0|Hr0].
    { unfold answers. cbn [stream]. pose proof (blen_nonneg (stream child).1). rewrite (proj2 (Z.ltb_ge _ _)) by lia. replace (Z.to_nat r) with 0%nat by lia. by rewrite take_0. }
    destruct (GetNext n child) as [r0 child'] eqn:Eg. pose proof (Hchild child ltac:(lia) r0 child' Eg) as Hr. unfold pulled in Hr. unfold answers. cbn [stream pulls].
    destruct (stream child) as [[|m ms] e] eqn:Es; cbn [fst snd] in *.
    + destruct Hr as [-> He]. change (blen (@nil WorkingSetMember)) with 0. rewrite (proj2 (Z.ltb_lt _ _)) by lia. cbn [fst snd]. by destruct e as [|[]|].
    + destruct Hr as (-> & Es' & Hp). rewrite blen_cons. assert (Hz : Z.to_nat r = S (Z.to_nat (r - 1))) by lia.
      destruct (Z.ltb_spec (1 + blen ms) r); cbn [fst snd stream pulls]; rewrite ?Hz; cbn [take fst snd]; rewrite Es'; cbn [fst snd].
      * rewrite (proj2 (Z.ltb_lt _ _)) by lia. split_and!; [done..|lia].
      * rewrite (proj2 (Z.ltb_ge _ _)) by lia. split_and!; [done..|lia].
  - destruct (GetNext n child) as [r child'] eqn:Eg. pose proof (Hchild child ltac:(lia) r child' Eg) as Hr. unfold pulled in Hr. unfold answers. cbn [stream pulls].
    destruct (stream child) as [[|m ms] e] eqn:Es; cbn [fst snd] in *.
    + destruct Hr as [-> He]. cbn [made]. by destruct e as [|[]|].
    + destruct Hr as (-> & Es' & Hp). cbn [made]. replace (projected_doc pr m) with (match Projection_Apply pr (wm_Doc m) with Ok d => Ok d | Err e => Err (QueryErr e) | Panic => Panic end) by done. destruct (Projection_Apply pr (wm_Doc m)); cbn [fst snd stream pulls]; [|done..]. rewrite Es'. cbn [fst snd]. split_and!; [done|by destruct (made _ ms e)|lia].
Qed.

(** ** Running a tree to its end *)

(** What Execute makes of a stream. *)
Definition finish (g : giving) : res planErr (list bytes) :=
  match g.2 with
  | Err EOF => Ok (map wm_Doc g.1)
  | Err e => Err e
  | Ok _ | Panic => Panic
  end.

Definition enough (s : PlanStage) : nat := (S (S (pulls s + List.length (stream s).1)))%nat.

Lemma drain_stream n : forall s, (enough s <= n)%nat -> drain_stage n s = finish (stream s).
Proof.
  induction n as [|n IH]; intros s Hn; unfold enough in *; [lia|]. cbn [drain_stage].
  pose proof (GetNext_answers n s ltac:(lia)) as Ha. pose proof (stream_ends s) as He. unfold answers in Ha. unfold finish.
  destruct (GetNext n s) as [r s'], (stream s) as [[|m ms] e]; cbn [fst snd List.length] in *.
  - subst r. by destruct e as [m|[]|].
  - destruct Ha as (-> & Hs' & Hp). rewrite IH by (rewrite Hs'; cbn [fst List.length]; lia). rewrite Hs'. unfold finish. cbn [fst snd]. by destruct e as [|[]|].
Qed.

(** C19. The execution stages refine lists: pulling a stage tree to its end gives the
    documents of its stream — the rows of a scan, the entries of a cursor, each
    document fetched once and dead entries skipped, the members the filter matches,
    everything sorted, the rest after the skipped ones, the first of the limit, each
    projected — or the error the stream ends with, which loses the documents before
    it; a limit that is reached hides the error behind it. With that many pulls the
    loops of the stages have ended. *)
Theorem stages_refine_streams s fuel : (enough s <= fuel)%nat -> drain_stage fuel s = finish (stream s).
Proof. apply drain_stream. Qed.

(** Over a scan: the slice of the stably sorted matches. *)
Lemma scan_stack rows mt so a l st1 st2 st3 st4 st5 :
  0 <= l ->
  stream (LimitStage (SkipStage (SortStage (FilterStage (CollectionScanStage rows 0 st1) mt st2) so [] 0 false st3) a a st4) l l st5) =
  (map only_doc (take (Z.to_nat l) (drop (Z.to_nat a) (Sort_Apply so (List.filter (Match mt) (map row_Doc rows))))), Err EOF).
Proof.
  intros Hl. cbn [stream fst snd]. rewrite !drop_0, app_nil_l.
  assert (E : map wm_Doc (List.filter (fun m => Match mt (wm_Doc m)) (map (fun r => MkMember (row_RID r) [] (row_Doc r)) rows)) = List.filter (Match mt) (map row_Doc rows)).
  { clear. induction rows as [|r rows IH]; [done|]. cbn [map List.filter wm_Doc]. destruct (Match mt (row_Doc r)); cbn [map wm_Doc]; by rewrite IH. }
  rewrite E. set (L := Sort_Apply _ _). rewrite !skipn_map. unfold blen. rewrite length_map, length_skipn.
  destruct (Z.ltb_spec (Z.of_nat (List.length L - Z.to_nat a)) l) as [H|H]; [|by rewrite firstn_map].
  f_equal. rewrite take_ge; [done|]. rewrite length_drop. lia.
Qed.

(** A fetch gives no record twice, and only records that are alive. *)
Lemma fetched_fresh ms : forall seen,
  NoDup (map wm_RID (fetched seen ms)) /\ Forall (fun m => wm_RID m ∉ seen /\ LookupRID (wm_RID m) = Some (wm_Doc m)) (fetched seen ms).
Proof.
  induction ms as [|m ms IH]; intros seen; cbn [fetched]; [split; constructor|]. case_bool_decide as Hin; [apply IH|].
  destruct (IH ({[wm_RID m]} ∪ seen)) as [Hd Hf].
  assert (Hf' : Forall (fun m => wm_RID m ∉ seen /\ LookupRID (wm_RID m) = Some (wm_Doc m)) (fetched ({[wm_RID m]} ∪ seen) ms))
    by (eapply Forall_impl; [exact Hf|]; intros x [H ?]; split; [set_solver|done]).
  destruct (LookupRID (wm_RID m)) as [doc|] eqn:El; [|done]. split.
  - cbn [map set_doc wm_RID]. constructor; [|done]. intros (x & Hx & Hi)%list_elem_of_fmap. rewrite Forall_forall in Hf. apply Hf in Hi as [Hi _]. set_solver.
  - by constructor.
Qed.

(** Every live record of the members is fetched. *)
Lemma fetched_complete ms : forall seen m doc,
  m ∈ ms -> wm_RID m ∉ seen -> LookupRID (wm_RID m) = Some doc -> exists x, x ∈ fetched seen ms /\ wm_RID x = wm_RID m /\ wm_Doc x = doc.
Proof.
  induction ms as [|y ms IH]; intros seen m doc Hm Hn Hd; [by apply not_elem_of_nil in Hm|]. cbn [fetched].
  destruct (decide (wm_RID y = wm_RID m)) as [E|Hne].
  { rewrite E, bool_decide_eq_false_2 by done. rewrite Hd. exists (set_doc doc y). split; [by left|]. by split. }
  apply elem_of_cons in Hm as [->|Hm]; [done|].
  case_bool_decide; [by apply (IH seen m doc)|].
  destruct (IH ({[wm_RID y]} ∪ seen) m doc Hm ltac:(set_solver) Hd) as (x & Hx & Hr).
  exists x. split; [|done]. destruct (LookupRID (wm_RID y)); [by right|done].
Qed.
End stages.

(** ** A stack on concrete rows *)

Definition demo_rows : list Row :=
  [MkRow (MkRID 1 0) (doc1 "a" (int_n 3)); MkRow (MkRID 1 1) (doc1 "a" (int_n 1)); MkRow (MkRID 1 2) (doc1 "b" (int_n 1)); MkRow (MkRID 1 3) (doc1 "a" (int_n 2))].

Definition demo_stack : PlanStage :=
  newLimit (newSkip (newSort (newFilter (newCollectionScan demo_rows) (MkMatcher (fieldPred [str "a"] (existsLeaf true)))) (MkSort [MkSortKey [str "a"] false])) 1) 5.

(** An index scan, whose cursor sees a record twice and one that is gone, and fails
    in the end. *)
Definition demo_fetch : PlanStage :=
  newFetch (newIndexScan (MkIndexCursor [(EncodeInt64 1, MkRID 1 0); (EncodeInt64 2, MkRID 1 0); (EncodeInt64 2, MkRID 9 9)] (Some 7))).

Lemma stages_refine_streams_witness :
  drain_stage (fun _ => None) 20 demo_stack = Ok [doc1 "a" (int_n 2); doc1 "a" (int_n 3)] /\
  drain_stage (fun r => if bool_decide (r = MkRID 1 0) then Some (doc1 "a" (int_n 3)) else None) 20 demo_fetch = Err (SourceErr 7) /\
  drain_stage (fun r => if bool_decide (r = MkRID 1 0) then Some (doc1 "a" (int_n 3)) else None) 20 (newLimit demo_fetch 1) = Ok [doc1 "a" (int_n 3)].
Proof.
  split_and!; rewrite stages_refine_streams; vm_compute; first [reflexivity|lia].
Defined.
