(* ===== verification/Plan.v ===== *)
(** * plan/planner.go: planning and running a find

    The indexes a request may use, what a plan over each would look like, and the
    tree of stages it runs. Which of them the cost estimate prefers is left open: the
    theorems hold for every one it may choose. *)

From Stdlib Require Import String.
From S2P Require Import Prelude Rid Float64 Bson BsonCompare KeyEnc Query QueryShape IndexSpec PlanBounds PlanStages.

Local Open Scope Z_scope.

Record IndexDesc := MkIndexDesc {
  ix_Name : bytes; ix_Key : list KeyPart; ix_Unique : bool; ix_Sparse : bool; ix_Multikey : bool; ix_Partial : bool
}.

Record Request := MkRequest {
  rq_Filter : bytes; rq_Projection : bytes; rq_Sort : bytes; rq_Skip : Z; rq_Limit : Z;
  rq_Indexes : list IndexDesc; rq_AllowIndex : bool
}.

(** ** Small predicates *)

Definition docEmpty (d : bytes) : bool :=
  bool_decide (d = []) || match Elements d with inr [] => true | _ => false end.

Definition filterEmpty (filter : bytes) : bool := docEmpty filter.
Definition projectionEmpty (proj : bytes) : bool := docEmpty proj.
Definition sortEmpty (sort : bytes) : bool := docEmpty sort.

(** The least int64 is its own negation. *)
Definition normalizeLimit (limit : Z) : Z := if limit <? 0 then to_i64 (u64 (- limit)) else limit.

Definition has_dot (field : bytes) : bool := existsb (Z.eqb 46) field.

(** ** Sort orders and coverage *)

Fixpoint sort_matches (es : list Element) (key : list KeyPart) : bool :=
  match es, key with
  | [], _ => true
  | e :: es', kp :: key' =>
      let '(dir, ok) := AsFloat64 (Value e) in
      ok && bool_decide (kp_Field kp = Key e) && eqb (kp_Desc kp) (f64_lt dir 0) && sort_matches es' key'
  | _ :: _, [] => false
  end.

Definition providesSort (key : list KeyPart) (sort : bytes) : bool :=
  if sortEmpty sort then false
  else
    match Elements sort with
    | inl _ => false
    | inr es => negb (blen es >? blen key) && sort_matches es key
    end.

Definition projTruthy (v : RawValue) : bool :=
  let '(f, ok) := AsFloat64 v in
  if ok then negb (f64_eq f 0) else (rv_Type v =? TypeBoolean) && Boolean v.

Fixpoint coverable_loop (es : list Element) (keyset : gset bytes) (idExcluded : bool) : bool :=
  match es with
  | [] => idExcluded
  | e :: es' =>
      let inc := projTruthy (Value e) in
      if bool_decide (Key e = idField) then coverable_loop es' keyset (idExcluded || negb inc)
      else if negb inc then false
      else if bool_decide (Key e ∈ keyset) then coverable_loop es' keyset idExcluded
      else false
  end.

Definition projectionCoverable (proj : bytes) (keyset : gset bytes) : bool :=
  match Elements proj with
  | inl _ | inr [] => false
  | inr es => coverable_loop es keyset (bool_decide (idField ∈ keyset))
  end.

Definition hasElemMatch (v : RawValue) : bool :=
  if negb (rv_Type v =? TypeDocument) then false
  else match Elements (Document v) with inl _ => false | inr es => existsb (fun e => bool_decide (Key e = str "$elemMatch")) es end.

(** All results, or none where one is missing. *)
Definition concat_opt {A} (l : list (option (list A))) : option (list A) :=
  fold_right (fun o acc => match o, acc with Some a, Some b => Some (a ++ b) | _, _ => None end) (Some []) l.

Definition filter_field (rec : bytes -> option (list bytes)) (e : Element) : option (list bytes) :=
  if bool_decide (Key e = str "$and") || bool_decide (Key e = str "$or") || bool_decide (Key e = str "$nor")
  then concat_opt (map rec (arrayDocs (Value e)))
  else if has_dollar (Key e) then None
  else if hasElemMatch (Value e) then None
  else Some [Key e].

Fixpoint filter_fuel (fuel : nat) (d : bytes) : option (list bytes) :=
  match fuel with
  | O => None
  | S n => match Elements d with inl _ => None | inr es => concat_opt (map (filter_field (filter_fuel n)) es) end
  end.

(** The operands are shorter than the filter. *)
Definition collectFilterFields (d : bytes) : option (list bytes) := filter_fuel (S (List.length d)) d.

Definition filterFields (filter : bytes) : option (list bytes) := collectFilterFields filter.

Definition sortFields (sort : bytes) : option (list bytes) :=
  if sortEmpty sort then Some []
  else
    match Elements sort with
    | inl _ => None
    | inr es => if existsb (fun e => has_dot (Key e)) es then None else Some (map Key es)
    end.

Definition subset (fields : list bytes) (set : gset bytes) : bool := forallb (fun f => bool_decide (f ∈ set)) fields.

Definition canCover (req : Request) (idx : IndexDesc) : bool :=
  if ix_Multikey idx then false
  else if existsb (fun kp => has_dot (kp_Field kp)) (ix_Key idx) then false
  else
    let keyset : gset bytes := list_to_set (map kp_Field (ix_Key idx)) in
    if projectionEmpty (rq_Projection req) then false
    else if negb (projectionCoverable (rq_Projection req) keyset) then false
    else
      match filterFields (rq_Filter req), sortFields (rq_Sort req) with
      | Some ff, Some sf => subset ff keyset && subset sf keyset
      | _, _ => false
      end.

(** ** Candidates and plans *)

Record candidate := MkCandidate { cd_desc : IndexDesc; cd_sb : scanBounds; cd_providesSort : bool; cd_covered : bool }.

(** The body of the loop of chooseIndex, but for the costs. *)
Definition candidate_of (req : Request) (fb : gmap bytes fieldBound) (idx : IndexDesc) : option candidate :=
  if ix_Partial idx then None
  else
    let sb := buildScanBounds (ix_Key idx) fb in
    let provides := providesSort (ix_Key idx) (rq_Sort req) in
    if negb (sb_Usable sb) && negb (sb_Empty sb) && negb provides then None
    else Some (MkCandidate idx sb provides (canCover req idx)).

Definition candidates (req : Request) : list candidate := omap (candidate_of req (extractBounds (rq_Filter req))) (rq_Indexes req).

Record Plan := MkPlan {
  p_req : Request; p_rows : list Row; p_matcher : Matcher; p_proj : Projection; p_sortc : Sort; p_cand : option candidate
}.

Section plan.
Context {PF : Platform}.
(** The source: its documents, its index cursors between two bounds, its records. *)
Context (ScanDocuments : res planErr (list Row)) (OpenIndexCursor : bytes -> bytes -> bytes -> res planErr IndexCursor).
Context (LookupRID : RID -> option bytes).

Definition of_query {A} (r : res queryErr A) : res planErr A := match r with Ok a => Ok a | Err e => Err (QueryErr e) | Panic => Panic end.

(** [choice] is what the costs choose. *)
Definition New (req : Request) (choice : option candidate) : res planErr Plan :=
  let* m := of_query (Compile (rq_Filter req)) in
  let* proj := of_query (CompileProjection (rq_Projection req)) in
  let* srt := of_query (CompileSort (rq_Sort req)) in
  let* rows := ScanDocuments in
  Ok (MkPlan req rows m proj srt (if rq_AllowIndex req then choice else None)).

(** The scan and what turns its members into documents. *)
Definition access_path (p : Plan) : res planErr (PlanStage * bool) :=
  match p_cand p with
  | Some c =>
      let* cur := OpenIndexCursor (ix_Name (cd_desc c)) (sb_Lo (cd_sb c)) (sb_Hi (cd_sb c)) in
      let root := newIndexScan cur in
      if cd_covered c then Ok (newCoveredFetch root (ix_Key (cd_desc c)), true) else Ok (newFetch root, false)
  | None => Ok (newCollectionScan (p_rows p), false)
  end.

Definition buildTree (p : Plan) : res planErr PlanStage :=
  let req := p_req p in
  let* '(root, covered) := access_path p in
  let root := if negb (filterEmpty (rq_Filter req)) then newFilter root (p_matcher p) else root in
  let root := if negb (sortEmpty (rq_Sort req)) && negb (match p_cand p with Some c => cd_providesSort c | None => false end) then newSort root (p_sortc p) else root in
  let root := if rq_Skip req >? 0 then newSkip root (rq_Skip req) else root in
  let lim := normalizeLimit (rq_Limit req) in
  let root := if lim >? 0 then newLimit root lim else root in
  let root := if negb (projectionEmpty (rq_Projection req)) then newProjection root (p_proj p) covered else root in
  Ok root.

(** The loop pulls until the stages are exhausted ([PlanStages.drain_stream]). *)
Definition Execute (p : Plan) : res planErr (list bytes) :=
  let* root := buildTree p in drain_stage LookupRID (enough LookupRID root) root.

(** A find: plan and run. *)
Definition run (req : Request) (choice : option candidate) : res planErr (list bytes) := let* p := New req choice in Execute p.

Lemma Execute_stream p : Execute p = let* root := buildTree p in finish (stream LookupRID root).
Proof. unfold Execute. destruct (buildTree p); [|done..]. cbn [res_bind]. by apply drain_stream. Qed.
End plan.

(** ** A collection and an index on concrete documents *)

#[local] Existing Instance amd64.

Definition demo_source (docs : list bytes) : list Row := imap (fun i d => MkRow (MkRID 1 (Z.of_nat i)) d) docs.

Definition demo_index (key : list KeyPart) (docs : list bytes) : list (bytes * RID) :=
  omap (fun r => match scalar_key (row_Doc r) key with inr k => Some (k, row_RID r) | inl _ => None end) (demo_source docs).

Definition demo_cursor (key : list KeyPart) (docs : list bytes) (_ lo hi : bytes) : res planErr IndexCursor :=
  Ok (MkIndexCursor (List.filter (fun e => bleb lo e.1 && bleb e.1 hi) (demo_index key docs)) None).

Definition demo_lookup (docs : list bytes) (rid : RID) : option bytes := row_Doc <$> List.find (fun r => bool_decide (row_RID r = rid)) (demo_source docs).

Definition a_index : IndexDesc := MkIndexDesc (str "a_1") a_key false false false false.

Definition find_req (filter proj : bytes) : Request := MkRequest filter proj [] 0 0 [a_index] true.

(** The answers of the plan that scans the collection and of each that uses an
    index. *)
Definition all_answers (req : Request) (docs : list bytes) : list (res planErr (list bytes)) :=
  map (fun c => run (Ok (demo_source docs)) (demo_cursor a_key docs) (demo_lookup docs) req c) (None :: map Some (candidates req)).

Definition two_fields (a b : RawValue) : bytes := Build (AppendValue (str "b") b (AppendValue (str "a") a [])).
Definition big_int : RawValue := int64_val (2 ^ 53 + 1).
Definition a_only : bytes := Build (AppendValue idField (int_n 0) (AppendValue (str "a") (int_n 1) [])).
Definition no_id : bytes := Build (AppendValue idField (int_n 0) []).

Example index_finds_the_same :
  all_answers (find_req (doc1 "a" (int_n 5)) []) [two_fields (int_n 4) (int_n 1); two_fields (int_n 5) (int_n 2); two_fields (int_n 5) (int_n 3)]
  = [Ok [two_fields (int_n 5) (int_n 2); two_fields (int_n 5) (int_n 3)]; Ok [two_fields (int_n 5) (int_n 2); two_fields (int_n 5) (int_n 3)]].
Proof. vm_compute. reflexivity. Qed.

(** A covered plan answers from the keys of the index, and differently: a projection
    that only leaves out _id counts as covered and loses every field that is not in
    the index; a key holds an int64 as a double, which the filter then does not find
    equal; a field the document does not have comes back as null. *)
Theorem covered_plan_changes_answer :
  all_answers (find_req (doc1 "a" (int_n 5)) no_id) [two_fields (int_n 5) (int_n 2)]
    = [Ok [two_fields (int_n 5) (int_n 2)]; Ok [doc1 "a" (double_val (f64_of_int 5))]] /\
  all_answers (find_req (doc1 "a" big_int) a_only) [doc1 "a" big_int] = [Ok [doc1 "a" big_int]; Ok []] /\
  all_answers (find_req (doc1 "a" null_val) a_only) [doc1 "b" (int_n 1)] = [Ok [Build []]; Ok [doc1 "a" null_val]].
Proof. vm_compute. split_and!; reflexivity. Qed.

(** ** An index scan finds what a collection scan finds *)

Definition member_of (e : bytes * RID) : WorkingSetMember := MkMember e.2 e.1 [].

Section same_answer.
Context {PF : Platform} (LookupRID : RID -> option bytes).

(** The documents behind entries. *)
Fixpoint docs_at (es : list (bytes * RID)) : list bytes :=
  match es with
  | [] => []
  | e :: es' => match LookupRID e.2 with Some d => d :: docs_at es' | None => docs_at es' end
  end.

(** Entries of different records that are all alive. *)
Lemma fetched_docs es : forall seen,
  NoDup (map snd es) -> (forall e, e ∈ es -> e.2 ∉ seen) -> Forall (fun e => LookupRID e.2 <> None) es ->
  map wm_Doc (fetched LookupRID seen (map member_of es)) = docs_at es.
Proof.
  induction es as [|e es IH]; intros seen Hn Hs Ha; [done|]. cbn [map] in Hn. apply NoDup_cons in Hn as [He Hn]. apply Forall_cons in Ha as [Ha Has].
  cbn [map fetched docs_at]. cbn [member_of wm_RID]. rewrite bool_decide_eq_false_2 by (apply Hs; by left).
  destruct (LookupRID e.2) as [d|] eqn:Ed; [|done]. cbn [map set_doc wm_Doc].
  f_equal. apply IH; [done| |done]. intros x Hx. apply not_elem_of_union. split; [|apply Hs; by right].
  intros Hx'%elem_of_singleton. apply He. rewrite <- Hx'. apply list_elem_of_fmap. by exists x.
Qed.

Lemma omap_filter_docs (m : Matcher) (f : bytes * RID -> bool) es :
  (forall e d, e ∈ es -> LookupRID e.2 = Some d -> Match m d = true -> f e = true) ->
  List.filter (Match m) (docs_at (List.filter f es)) = List.filter (Match m) (docs_at es).
Proof.
  induction es as [|e es IH]; intros H; [done|]. cbn [List.filter docs_at].
  assert (IH' := IH ltac:(intros x d Hx; apply H; by right)). destruct (f e) eqn:Ef.
  - cbn [docs_at].
    destruct (LookupRID e.2) as [d|]; [|done]. cbn [List.filter]. by rewrite IH'.
  - rewrite IH'. destruct (LookupRID e.2) as [d|] eqn:Ed; [|done]. cbn [List.filter]. destruct (Match m d) eqn:Em; [|done].
    rewrite (H e d) in Ef by (done || by left). done.
Qed.

Lemma filter_members m ms : map wm_Doc (List.filter (fun x => Match m (wm_Doc x)) ms) = List.filter (Match m) (map wm_Doc ms).
Proof. induction ms as [|x ms IH]; [done|]. cbn [List.filter map]. destruct (Match m (wm_Doc x)); cbn [map]; by rewrite IH. Qed.

Lemma NoDup_filter_map {A B} (f : A -> bool) (g : A -> B) l : NoDup (map g l) -> NoDup (map g (List.filter f l)).
Proof.
  induction l as [|a l IH]; intros H; [done|]. cbn [map List.filter] in *. apply NoDup_cons in H as [Ha H]. destruct (f a); [|by apply IH].
  cbn [map]. apply NoDup_cons. split; [|by apply IH]. intros (b & Eb & Hb)%list_elem_of_fmap. apply Ha. apply list_elem_of_fmap. exists b. split; [done|].
  apply list_elem_of_In. apply list_elem_of_In, filter_In in Hb. by apply Hb.
Qed.

Lemma filter_perm {A} (f : A -> bool) l l' : l ≡ₚ l' -> List.filter f l ≡ₚ List.filter f l'.
Proof.
  intros H. induction H as [|a l l' H IH|a b l|l1 l2 l3 H1 IH1 H2 IH2]; [done| | |by rewrite IH1]; cbn [List.filter].
  - destruct (f a); by rewrite IH.
  - destruct (f a), (f b); try done. apply Permutation_swap.
Qed.

Lemma sorted_filter {A} (R : A -> A -> Prop) f l : StronglySorted R l -> StronglySorted R (List.filter f l).
Proof.
  intros H. induction H as [|a l Hl IH Ha]; [constructor|]. cbn [List.filter]. destruct (f a); [|done]. constructor; [done|]. by apply filter_Forall.
Qed.

(** ** The documents of an index

    The collection's rows have different identifiers and are found by them; every
    row has one entry in the index, under the key of its document, and the entries are
    in the order of their keys: what BTreeProps and IndexSpec show of an index that
    has an entry for every document and no arrays. *)
Record indexed (rows : list Row) (key : list KeyPart) (entries : list (bytes * RID)) : Prop := {
  in_rids : NoDup (map row_RID rows);
  in_alive : Forall (fun r => LookupRID (row_RID r) = Some (row_Doc r)) rows;
  in_entries : exists rows', rows' ≡ₚ rows /\ Forall2 (fun e r => e.2 = row_RID r /\ scalar_key (row_Doc r) key = inr e.1) entries rows';
  in_sorted : StronglySorted (fun e e' => ble e.1 e'.1) entries
}.

Lemma entries_docs rows key entries :
  indexed rows key entries ->
  NoDup (map snd entries) /\ Forall (fun e => LookupRID e.2 <> None) entries /\ docs_at entries ≡ₚ map row_Doc rows /\
  (forall e d, e ∈ entries -> LookupRID e.2 = Some d -> d ∈ map row_Doc rows /\ scalar_key d key = inr e.1).
Proof.
  intros [Hn Ha (rows' & Hp & Hf) _].
  assert (Ha' : Forall (fun r => LookupRID (row_RID r) = Some (row_Doc r)) rows') by by rewrite Hp.
  assert (Hm : map snd entries = map row_RID rows') by (clear - Hf; induction Hf as [|e r es rs [He _] _ IH]; [done|]; cbn [map]; by rewrite He, IH).
  assert (Ho : docs_at entries = map row_Doc rows').
  { clear - Hf Ha'. induction Hf as [|e r es rs [He _] _ IH]; [done|]. apply Forall_cons in Ha' as [Hr Hrs]. cbn [docs_at map]. rewrite He, Hr.
    f_equal. by apply IH. }
  split_and!.
  - rewrite Hm. by rewrite (fmap_Permutation row_RID _ _ Hp).
  - clear - Hf Ha'. induction Hf as [|e r es rs [He _] _ IH]; [constructor|]. apply Forall_cons in Ha' as [Hr Hrs]. constructor; [by rewrite He, Hr|by apply IH].
  - rewrite Ho. by apply (fmap_Permutation row_Doc).
  - intros e d He Hd. apply list_elem_of_lookup_1 in He as [i Hi]. destruct (Forall2_lookup_l _ _ _ _ _ Hf Hi) as (r & Hr & Er & Ek).
    apply (list_elem_of_lookup_2 _ i) in Hr. assert (Hd' : LookupRID (row_RID r) = Some (row_Doc r)) by (rewrite Forall_forall in Ha'; by apply Ha').
    rewrite Er, Hd' in Hd. injection Hd as <-. split; [|done]. apply list_elem_of_fmap. exists r. split; [done|]. by rewrite <- Hp.
Qed.

(** The range scanned, which holds the keys of all matches. *)
Definition covers_matches (m : Matcher) (sb : scanBounds) (key : list KeyPart) (rows : list Row) : Prop :=
  forall d k, d ∈ map row_Doc rows -> Match m d = true -> scalar_key d key = inr k -> ble (sb_Lo sb) k /\ ble k (sb_Hi sb).

Definition in_sb (sb : scanBounds) (e : bytes * RID) : bool := bleb (sb_Lo sb) e.1 && bleb e.1 (sb_Hi sb).

(** The documents behind the entries of a range. *)
Definition range_docs (sb : scanBounds) (entries : list (bytes * RID)) : list bytes := docs_at (List.filter (in_sb sb) entries).

Lemma range_docs_fetched sb rows key entries :
  indexed rows key entries ->
  map wm_Doc (fetched LookupRID ∅ (map member_of (List.filter (in_sb sb) entries))) = range_docs sb entries.
Proof.
  intros Hi. destruct (entries_docs rows key entries Hi) as (H1 & H2 & _ & _). apply fetched_docs; [by apply NoDup_filter_map|set_solver|by apply filter_Forall].
Qed.

Lemma range_docs_perm m sb rows key entries :
  indexed rows key entries -> covers_matches m sb key rows ->
  List.filter (Match m) (range_docs sb entries) ≡ₚ List.filter (Match m) (map row_Doc rows).
Proof.
  intros Hi Hc. destruct (entries_docs rows key entries Hi) as (_ & _ & H3 & H4). unfold range_docs. rewrite omap_filter_docs; [by apply filter_perm|].
  intros e d He Hd Hm. destruct (H4 e d He Hd) as [Hin Hk]. destruct (Hc d e.1 Hin Hm Hk) as [L1 L2].
  unfold in_sb. apply bleb_ble in L1, L2. by rewrite L1, L2.
Qed.
End same_answer.

(** ** The order of an index *)

Lemma one_or_minus_one dir :
  f64_eq dir (f64_of_int 1) = true \/ f64_eq dir (f64_of_int (-1)) = true -> f64_eq dir (f64_of_int (-1)) = f64_lt dir 0.
Proof.
  unfold f64_eq, f64_lt. assert (E1 : f64_isNaN (f64_of_int 1) = false) by reflexivity. assert (E2 : f64_isNaN (f64_of_int (-1)) = false) by reflexivity.
  assert (E3 : f64_isNaN 0 = false) by reflexivity. rewrite E1, E2, E3. destruct (f64_isNaN dir); [done|]. cbn [negb andb].
  assert (V1 : f64_val (f64_of_int 1) = 2 ^ 1074) by (vm_compute; reflexivity). assert (V2 : f64_val (f64_of_int (-1)) = - 2 ^ 1074) by (vm_compute; reflexivity).
  assert (V0 : f64_val 0 = 0) by reflexivity. rewrite V1, V2, V0. assert (0 < 2 ^ 1074) by (apply Z.pow_pos_nonneg; lia).
  set (x := 2 ^ 1074) in *. clearbody x. intros [E|E]; apply Z.eqb_eq in E; rewrite E.
  - rewrite (proj2 (Z.ltb_ge _ _)) by lia. by apply Z.eqb_neq; lia.
  - rewrite Z.eqb_refl. symmetry. apply Z.ltb_lt. lia.
Qed.

Lemma sortValue_field d f : no_array d f = true -> sortValue d (QueryShape.splitPath f) = field_value d f.
Proof.
  intros H. unfold sortValue. rewrite splitPath_split_dots. destruct (no_array_cases d f H) as [(w & _ & -> & _ & ->)|(_ & -> & ->)]; [done|].
  cbn [negb]. by rewrite nullValue_null.
Qed.

Definition values_of (key : list KeyPart) (d : bytes) : list RawValue := map (fun p => field_value d (kp_Field p)) key.

(** A provided sort is a prefix of the order of the index. *)
Lemma sort_matches_cmp es : forall key ks a b,
  try_each sort_key es = Ok ks -> sort_matches es key = true ->
  Forall (fun p => no_array a (kp_Field p) = true /\ no_array b (kp_Field p) = true) key ->
  exists rest, fields_cmp (map kp_Desc key) (values_of key a) (values_of key b) = then_cmp (cmp_keys ks a b) rest.
Proof.
  induction es as [|e es IH]; intros key ks a b Hk Hm Hn; cbn [try_each] in Hk; [injection Hk as <-; by eexists|].
  destruct (sort_key e) as [k| |] eqn:Ek; try done. cbn [res_bind] in Hk. destruct (try_each sort_key es) as [ks'| |]; try done. injection Hk as <-.
  destruct key as [|p key]; [done|]. cbn [sort_matches] in Hm. apply Forall_cons in Hn as [[Ha Hb] Hn].
  unfold sort_key in Ek. destruct (AsFloat64 (Value e)) as [dir ok]. apply andb_true_iff in Hm as [Hm Hes]. apply andb_true_iff in Hm as [Hm Hd].
  apply andb_true_iff in Hm as [-> Hf]. apply bool_decide_eq_true in Hf. apply eqb_prop in Hd. cbn [negb orb] in Ek.
  destruct (f64_eq dir (f64_of_int 1)) eqn:E1, (f64_eq dir (f64_of_int (-1))) eqn:E2; cbn [negb andb] in Ek; try done; injection Ek as <-.
  all: assert (Hdesc : f64_eq dir (f64_of_int (-1)) = f64_lt dir 0) by (apply one_or_minus_one; auto); rewrite E2 in Hdesc.
  all: destruct (IH key ks' a b eq_refl Hes Hn) as (rest & Er); exists rest; cbn [map values_of fields_cmp cmp_keys].
  all: change (map (fun p : KeyPart => field_value a (kp_Field p)) key) with (values_of key a); change (map (fun p : KeyPart => field_value b (kp_Field p)) key) with (values_of key b).
  all: rewrite Er; unfold cmp_key; cbn [sk_path sk_desc]; rewrite <- Hf, !sortValue_field, Hd, <- Hdesc by done; unfold directed; by destruct (Compare _ _).
Qed.

Section order.
Context (st : Z).

Definition doc_orderly (key : list KeyPart) (d : bytes) : Prop :=
  Forall (fun p => no_array d (kp_Field p) = true /\ orderly st (field_value d (kp_Field p))) key.

Lemma key_order_docs key a b ka kb :
  doc_orderly key a -> doc_orderly key b -> scalar_key a key = inr ka -> scalar_key b key = inr kb ->
  bcmp ka kb = fields_cmp (map kp_Desc key) (values_of key a) (values_of key b).
Proof.
  intros Ha Hb Ka Kb. unfold scalar_key in Ka, Kb. fold (values_of key a) in Ka. fold (values_of key b) in Kb.
  assert (Hv : forall d, doc_orderly key d -> Forall (fun v => v_ok v /\ key_ordered st v = true) (values_of key d)).
  { intros d Hd. apply Forall_map. eapply Forall_impl; [exact Hd|]. by intros p [_ Ho]. }
  pose proof (fields_key_app st (map kp_Desc key) (values_of key a) (values_of key b) ka kb [] [] (Hv a Ha) (Hv b Hb)) as H.
  rewrite !app_nil_r in H. rewrite H; [by destruct (fields_cmp _ _ _)|unfold values_of; by rewrite !length_map..|done|done].
Qed.

Lemma docs_at_sorted LookupRID rows key entries es ks s :
  indexed LookupRID rows key entries -> Forall (doc_orderly key) (map row_Doc rows) -> Forall bytes_ok (map row_Doc rows) ->
  try_each sort_key es = Ok ks -> so_keys s = ks -> sort_matches es key = true ->
  forall sub, StronglySorted (fun e e' => ble e.1 e'.1) sub -> (forall e, e ∈ sub -> e ∈ entries) ->
  StronglySorted (fun a b => less s b a = false) (docs_at LookupRID sub).
Proof.
  intros Hi Ho Hb Hk Hs Hm. destruct (entries_docs LookupRID rows key entries Hi) as (_ & _ & _ & Hd). rewrite Forall_forall in Ho, Hb.
  induction sub as [|e sub IH]; intros Hsort Hsub; [constructor|]. inversion Hsort as [|? ? Hsort' Hall]; subst. cbn [docs_at].
  assert (IH' := IH Hsort' ltac:(intros x Hx; apply Hsub; by right)).
  destruct (LookupRID e.2) as [d|] eqn:El; [|done]. constructor; [done|]. destruct (Hd e d (Hsub e ltac:(by left)) El) as [Hin Hkd].
  assert (Hx : forall l, (forall x, x ∈ l -> x ∈ sub) -> Forall (fun b => less s b d = false) (docs_at LookupRID l)).
  { induction l as [|x l IHl]; intros Hl; [constructor|]. cbn [docs_at]. assert (IHl' := IHl ltac:(intros y Hy; apply Hl; by right)).
    destruct (LookupRID x.2) as [d'|] eqn:El'; [|done]. constructor; [|done]. assert (Hxs : x ∈ sub) by (apply Hl; by left).
    destruct (Hd x d' (Hsub x ltac:(by right)) El') as [Hin' Hkd']. rewrite Forall_forall in Hall. specialize (Hall x Hxs). cbn beta in Hall.
    apply (less_not_gt s d d'); [by apply Hb..|]. unfold ble in Hall. rewrite (key_order_docs key d d' e.1 x.1) in Hall by (done || by apply Ho).
    destruct (sort_matches_cmp es key (so_keys s) d d' Hk Hm) as (rest & Er).
    - pose proof (Ho d Hin) as O1. pose proof (Ho d' Hin') as O2. unfold doc_orderly in O1, O2. rewrite Forall_forall in O1, O2. apply Forall_forall. intros p Hp. by split; [apply O1|apply O2].
    - rewrite Er in Hall. by destruct (cmp_keys (so_keys s) d d'). }
  by apply Hx.
Qed.
End order.

(** ** The answers of the plans *)

Section answers.
Context {PF : Platform} (st : Z) (LookupRID : RID -> option bytes).

Lemma docEmpty_Elements d : docEmpty d = true -> d = [] \/ Elements d = inr [].
Proof. unfold docEmpty. rewrite orb_true_iff, bool_decide_eq_true. destruct (Elements d) as [|[]]; intros [H|H]; auto; done. Qed.

Lemma empty_filter_matches f m d : filterEmpty f = true -> Compile f = Ok m -> Match m d = true.
Proof.
  intros He Hc. unfold Compile in Hc. rewrite compileDoc_eq in Hc. unfold doc_body in Hc.
  apply docEmpty_Elements in He as [->|He]; [rewrite bool_decide_eq_true_2 in Hc by done; by injection Hc as <-|].
  case_bool_decide; [by injection Hc as <-|]. destruct (WellFormed f); [done|]. unfold elements_of in Hc. rewrite He in Hc. by injection Hc as <-.
Qed.

Lemma filter_always {A} (f : A -> bool) l : (forall a, f a = true) -> List.filter f l = l.
Proof. intros H. induction l as [|a l IH]; [done|]. cbn [List.filter]. by rewrite H, IH. Qed.

(** What becomes of the documents of a plan without skip, limit and projection. *)
Definition arranged (sorts : bool) (s : Sort) (docs : list bytes) : list bytes := if sorts then Sort_Apply s docs else docs.

Lemma tree_answer root req m s (sorts : bool) ms :
  stream LookupRID root = (ms, Err EOF) -> Compile (rq_Filter req) = Ok m ->
  finish (stream LookupRID (let root := if negb (filterEmpty (rq_Filter req)) then newFilter root m else root in if sorts then newSort root s else root))
  = Ok (arranged sorts s (List.filter (Match m) (map wm_Doc ms))).
Proof.
  intros Hr Hc. set (root1 := if negb (filterEmpty (rq_Filter req)) then newFilter root m else root).
  assert (H1 : exists ms1, stream LookupRID root1 = (ms1, Err EOF) /\ map wm_Doc ms1 = List.filter (Match m) (map wm_Doc ms)).
  { unfold root1. destruct (filterEmpty (rq_Filter req)) eqn:Ef; cbn [negb].
    - exists ms. split; [done|]. symmetry. apply filter_always. intros d. by apply (empty_filter_matches (rq_Filter req)).
    - eexists. cbn [newFilter stream]. rewrite Hr. split; [done|]. by rewrite filter_members. }
  destruct H1 as (ms1 & E1 & E2). clearbody root1. cbn zeta. rewrite <- E2. unfold arranged. destruct sorts; [|by rewrite E1].
  cbn [newSort stream]. rewrite E1. cbn [fst snd]. unfold finish. cbn [fst snd]. rewrite drop_0, app_nil_l. by rewrite map_map, map_id.
Qed.

(** A request without skip, limit and projection. *)
Definition plain (req : Request) : Prop := rq_Skip req <= 0 /\ normalizeLimit (rq_Limit req) <= 0 /\ projectionEmpty (rq_Projection req) = true.

Context (rows : list Row) (entries : list (bytes * RID)).

(** The cursor of an index between two bounds, both included. *)
Definition index_cursor (_ lo hi : bytes) : res planErr IndexCursor :=
  Ok (MkIndexCursor (List.filter (fun e => bleb lo e.1 && bleb e.1 hi) entries) None).

Definition sorts_with (req : Request) (choice : option candidate) : bool :=
  negb (sortEmpty (rq_Sort req)) && negb (match choice with Some c => cd_providesSort c | None => false end).

Lemma run_answer req choice m proj s :
  plain req -> rq_AllowIndex req = true -> Compile (rq_Filter req) = Ok m -> CompileProjection (rq_Projection req) = Ok proj -> CompileSort (rq_Sort req) = Ok s ->
  match choice with Some c => cd_covered c = false /\ indexed LookupRID rows (ix_Key (cd_desc c)) entries | None => True end ->
  run (Ok rows) index_cursor LookupRID req choice =
  Ok (arranged (sorts_with req choice) s (List.filter (Match m)
        match choice with Some c => range_docs LookupRID (cd_sb c) entries | None => map row_Doc rows end)).
Proof.
  intros (Hs & Hl & Hp) Ha Hc Hpr Hso Hch. unfold run, New. rewrite Hc, Hpr, Hso, Ha. cbn [of_query res_bind]. rewrite Execute_stream.
  unfold buildTree. cbn [p_req p_cand p_rows p_matcher p_sortc p_proj]. rewrite !Z.gtb_ltb, (proj2 (Z.ltb_ge 0 (rq_Skip req))), (proj2 (Z.ltb_ge 0 (normalizeLimit _))) by done.
  rewrite Hp. cbn [negb]. fold (sorts_with req choice). destruct choice as [c|].
  - destruct Hch as [Hcov Hi]. unfold access_path, index_cursor. cbn [p_cand res_bind]. rewrite Hcov. cbn [res_bind].
    rewrite (tree_answer _ req m s (sorts_with req (Some c)) (fetched LookupRID ∅ (map member_of (List.filter (in_sb (cd_sb c)) entries)))); [|done|done].
    do 3 f_equal. by apply (range_docs_fetched LookupRID (cd_sb c) rows (ix_Key (cd_desc c))).
  - unfold access_path. cbn [p_cand res_bind p_rows].
    rewrite (tree_answer _ req m s (sorts_with req None) (map (fun r => MkMember (row_RID r) [] (row_Doc r)) rows)); [by rewrite map_map|done|done].
Qed.

Lemma candidates_elem req c : c ∈ candidates req -> cd_sb c = buildScanBounds (ix_Key (cd_desc c)) (extractBounds (rq_Filter req)) /\
  cd_providesSort c = providesSort (ix_Key (cd_desc c)) (rq_Sort req).
Proof.
  unfold candidates. intros (idx & _ & H)%list_elem_of_omap. unfold candidate_of in H. destruct (ix_Partial idx); [done|]. cbv zeta in H.
  destruct (_ && _); [done|]. by injection H as <-.
Qed.

Lemma provides_spec key sort s : providesSort key sort = true -> CompileSort sort = Ok s ->
  exists es, try_each sort_key es = Ok (so_keys s) /\ sort_matches es key = true.
Proof.
  unfold providesSort, CompileSort. intros Hp Hs. destruct (sortEmpty sort) eqn:He; [done|]. destruct (Elements sort) as [|es] eqn:E; [done|].
  apply andb_true_iff in Hp as [_ Hm]. exists es. split; [|done]. unfold elements_of in Hs. rewrite E in Hs.
  case_bool_decide as Hn; [rewrite Hn in He; discriminate He|]. cbn [res_bind] in Hs. destruct (try_each sort_key es); try done. by injection Hs as <-.
Qed.

Lemma arranged_perm b s docs : Forall bytes_ok docs -> arranged b s docs ≡ₚ docs.
Proof. intros H. destruct b; [|done]. by destruct (Sort_Apply_stably s docs H) as (Hp & _). Qed.

Lemma same_answer req c m proj s :
  plain req -> rq_AllowIndex req = true -> Compile (rq_Filter req) = Ok m -> CompileProjection (rq_Projection req) = Ok proj -> CompileSort (rq_Sort req) = Ok s ->
  c ∈ candidates req -> cd_covered c = false ->
  indexed LookupRID rows (ix_Key (cd_desc c)) entries ->
  Forall bytes_ok (map row_Doc rows) -> Forall (doc_orderly st (ix_Key (cd_desc c))) (map row_Doc rows) ->
  (forall p b, p ∈ ix_Key (cd_desc c) -> extractBounds (rq_Filter req) !! kp_Field p = Some b -> bound_orderly st b) ->
  exists scanned found,
    run (Ok rows) index_cursor LookupRID req None = Ok scanned /\ run (Ok rows) index_cursor LookupRID req (Some c) = Ok found /\
    found ≡ₚ scanned /\ scanned ≡ₚ List.filter (Match m) (map row_Doc rows) /\
    (sortEmpty (rq_Sort req) = false ->
       StronglySorted (fun a b => less s b a = false) scanned /\ StronglySorted (fun a b => less s b a = false) found).
Proof.
  intros Hpl Ha Hc Hpr Hso Hin Hcov Hi Hb Ho Hbo. destruct (candidates_elem req c Hin) as [Esb Eps].
  assert (Hcm : covers_matches m (cd_sb c) (ix_Key (cd_desc c)) rows).
  { intros d k Hd Hm Hk. rewrite Esb. rewrite Forall_forall in Ho.
    destruct (bounds_cover st (rq_Filter req) m d (ix_Key (cd_desc c)) k Hc Hm) as (_ & H); [|done|done].
    specialize (Ho d Hd). unfold doc_orderly in Ho. rewrite Forall_forall in Ho. apply Forall_forall. intros p Hp. destruct (Ho p Hp) as [O1 O2].
    split; [done|]. split; [done|]. intros b. by apply Hbo. }
  pose proof (range_docs_perm LookupRID m (cd_sb c) rows (ix_Key (cd_desc c)) entries Hi Hcm) as Hperm.
  set (R := List.filter (Match m) (map row_Doc rows)) in *. set (F := List.filter (Match m) (range_docs LookupRID (cd_sb c) entries)) in *.
  assert (HbR : Forall bytes_ok R) by by apply filter_Forall. assert (HbF : Forall bytes_ok F) by by rewrite Hperm.
  exists (arranged (sorts_with req None) s R), (arranged (sorts_with req (Some c)) s F).
  split; [by apply (run_answer req None m proj s)|]. split; [by apply (run_answer req (Some c) m proj s)|].
  split; [by rewrite !arranged_perm, Hperm|]. split; [by apply arranged_perm|]. intros Hse. unfold sorts_with. rewrite Hse. cbn [negb andb]. split.
  - apply (Sort_Apply_stably s R HbR).
  - destruct (cd_providesSort c) eqn:Ep; cbn [negb arranged]; [|apply (Sort_Apply_stably s F HbF)].
    destruct (provides_spec _ _ _ (eq_sym Eps) Hso) as (es & Hes & Hm). apply sorted_filter.
    apply (docs_at_sorted st LookupRID rows (ix_Key (cd_desc c)) entries es (so_keys s) s Hi Ho Hb Hes eq_refl Hm).
    + apply sorted_filter. apply Hi.
    + intros e He. apply list_elem_of_In, filter_In in He as [He _]. by apply list_elem_of_In.
Qed.
End answers.

(** C5. Planning does not change the answer. For a request without skip, limit and
    projection, every index plan the costs may choose that is not covered answers
    with the same documents, each as often, as the scan of the whole collection, and
    those are the documents the filter matches; with a sort both answers are in its
    order, also where the plan leaves the sorting to the order of the index. What it takes: every document has
    its one entry in the index (no array in an indexed field, no sparse index), and
    the values indexed and compared have keys ordered as they are. *)
Theorem index_plan_finds_the_same `{Platform} st LookupRID rows entries req c m proj s :
  plain req -> rq_AllowIndex req = true -> Compile (rq_Filter req) = Ok m -> CompileProjection (rq_Projection req) = Ok proj -> CompileSort (rq_Sort req) = Ok s ->
  c ∈ candidates req -> cd_covered c = false ->
  indexed LookupRID rows (ix_Key (cd_desc c)) entries ->
  Forall bytes_ok (map row_Doc rows) -> Forall (doc_orderly st (ix_Key (cd_desc c))) (map row_Doc rows) ->
  (forall p b, p ∈ ix_Key (cd_desc c) -> extractBounds (rq_Filter req) !! kp_Field p = Some b -> bound_orderly st b) ->
  exists scanned found,
    run (Ok rows) (index_cursor entries) LookupRID req None = Ok scanned /\ run (Ok rows) (index_cursor entries) LookupRID req (Some c) = Ok found /\
    found ≡ₚ scanned /\ scanned ≡ₚ List.filter (Match m) (map row_Doc rows) /\
    (sortEmpty (rq_Sort req) = false ->
       StronglySorted (fun a b => less s b a = false) scanned /\ StronglySorted (fun a b => less s b a = false) found).
Proof. apply same_answer. Qed.

(** {a: {$gte: 5}} sorted by a: the index provides the sort. *)
Definition sorted_req : Request :=
  MkRequest (doc1 "a" (doc_val (doc1 "$gte" (int_n 5)))) [] (doc1 "a" (int_n 1)) 0 0 [a_index] true.

Definition three_docs : list bytes := [two_fields (int_n 6) (int_n 1); two_fields (int_n 4) (int_n 2); two_fields (int_n 5) (int_n 3)].

Definition three_entries : list (bytes * RID) :=
  [(EncodeInt64 4, MkRID 1 1); (EncodeInt64 5, MkRID 1 2); (EncodeInt64 6, MkRID 1 0)].

Definition sort_by_a : Sort := MkSort [MkSortKey [str "a"] false].

Definition gte5_matcher : Matcher := MkMatcher (fieldPred [str "a"] (cmpLeaf (int_n 5) opGte)).

Lemma three_indexed : indexed (demo_lookup three_docs) (demo_source three_docs) a_key three_entries.
Proof.
  split.
  - apply (bool_decide_unpack _). vm_compute. reflexivity.
  - repeat (apply Forall_cons; split; [vm_compute; reflexivity|]). constructor.
  - exists [MkRow (MkRID 1 1) (two_fields (int_n 4) (int_n 2)); MkRow (MkRID 1 2) (two_fields (int_n 5) (int_n 3)); MkRow (MkRID 1 0) (two_fields (int_n 6) (int_n 1))]. split.
    + change (demo_source three_docs) with [MkRow (MkRID 1 0) (two_fields (int_n 6) (int_n 1)); MkRow (MkRID 1 1) (two_fields (int_n 4) (int_n 2)); MkRow (MkRID 1 2) (two_fields (int_n 5) (int_n 3))].
      symmetry. apply (Permutation_cons_append [_; _] _).
    + repeat (constructor; [vm_compute; split; reflexivity|]). constructor.
  - repeat constructor; vm_compute; discriminate.
Qed.

Lemma index_plan_finds_the_same_witness :
  exists c scanned found,
    c ∈ candidates sorted_req /\
    run (Ok (demo_source three_docs)) (index_cursor three_entries) (demo_lookup three_docs) sorted_req None = Ok scanned /\
    run (Ok (demo_source three_docs)) (index_cursor three_entries) (demo_lookup three_docs) sorted_req (Some c) = Ok found /\
    found ≡ₚ scanned.
Proof.
  pose (c := MkCandidate a_index (buildScanBounds a_key (extractBounds (rq_Filter sorted_req))) true false).
  assert (Hc : c ∈ candidates sorted_req).
  { assert (E : candidates sorted_req = [c]) by (vm_compute; reflexivity). rewrite E. by apply list_elem_of_singleton. }
  destruct (index_plan_finds_the_same 0 (demo_lookup three_docs) (demo_source three_docs) three_entries sorted_req c gte5_matcher no_projection sort_by_a)
    as (scanned & found & H1 & H2 & H3 & _).
  - split; [vm_compute; discriminate|]. split; [vm_compute; discriminate|vm_compute; reflexivity].
  - reflexivity.
  - vm_compute. reflexivity.
  - vm_compute. reflexivity.
  - vm_compute. reflexivity.
  - exact Hc.
  - reflexivity.
  - exact three_indexed.
  - repeat (apply Forall_cons; split; [apply bytes_okb_ok; vm_compute; reflexivity|]). constructor.
  - repeat (apply Forall_cons; split; [apply Forall_cons; split; [|constructor]; split; [vm_compute; reflexivity|split; [apply bytes_okb_ok; vm_compute; reflexivity|vm_compute; reflexivity]]|]). constructor.
  - intros p b Hp Hb. change (ix_Key (cd_desc c)) with a_key in Hp. apply list_elem_of_singleton in Hp as ->.
    assert (E : extractBounds (rq_Filter sorted_req) !! str "a" = Some (MkFieldBound None (Some (int_n 5, true)) None)) by (vm_compute; reflexivity).
    cbn [kp_Field] in Hb. rewrite E in Hb. injection Hb as <-. split; [discriminate|]. split; [|discriminate].
    intros v inc [= <- <-]. split; [apply bytes_okb_ok; vm_compute; reflexivity|vm_compute; reflexivity].
  - exists c, scanned, found. exact (conj Hc (conj H1 (conj H2 H3))).
Defined.
