(* ===== verification/Update.v ===== *)
(** * update/: update-operator documents

    update.go, operators.go, container.go, array.go, numeric.go and bit.go: an
    update document is compiled into operations, which are applied one after the
    other to a tree decoded from the document on the way down a path. *)

From Stdlib Require Import String SpecFloat.
From S2P Require Import Prelude Float64 Bson BsonCompare Query QueryShape.

Local Open Scope Z_scope.

(** The errors of the package, of a document's encoding and of a query. *)
Inductive updErr : Type :=
| ErrBadUpdate | ErrConflict | ErrPathConflict | ErrNotNumeric | ErrOverflow | ErrRenameArray
| ErrBadArrayOperand | ErrBitType
| UpdBson (e : bsonErr) | UpdQuery (e : queryErr).

Definition fields_of (d : bytes) : res updErr (list Element) :=
  match Elements d with inl e => Err (UpdBson e) | inr es => Ok es end.

(** ** The document tree (container.go)

    The keys and nodes of a container, two slices in step, are one list. *)

Inductive node : Type :=
| RawNode (raw : RawValue)
| SubNode (sub : container)
with container : Type :=
| MkContainer (fields : list (bytes * node)) (array : bool).

Definition c_fields (c : container) : list (bytes * node) := let '(MkContainer fs _) := c in fs.
Definition c_array (c : container) : bool := let '(MkContainer _ a) := c in a.

Definition decodeDoc (d : bytes) : res updErr container :=
  let* es := fields_of d in Ok (MkContainer (map (fun e => (Key e, RawNode (Value e))) es) false).

Definition as_array (c : container) : container := MkContainer (c_fields c) true.

Fixpoint encode (c : container) : bytes :=
  match c with
  | MkContainer fs _ =>
      Build ((fix encode_fields (fs : list (bytes * node)) (b : bytes) : bytes :=
                match fs with
                | [] => b
                | (k, n) :: fs' =>
                    encode_fields fs'
                      match n with
                      | SubNode sub => if c_array sub then AppendArray k (encode sub) b else AppendDocument k (encode sub) b
                      | RawNode raw => AppendValue k raw b
                      end
                end) fs [])
  end.

Fixpoint find_key (key : bytes) (fs : list (bytes * node)) : option nat :=
  match fs with
  | [] => None
  | (k, _) :: fs' => if bool_decide (k = key) then Some O else S <$> find_key key fs'
  end.

Definition find (c : container) (key : bytes) : option nat := find_key key (c_fields c).

(** The node at a position replaced. *)
Definition put_at (i : nat) (n : node) (c : container) : container :=
  MkContainer (alter (fun kn => (kn.1, n)) i (c_fields c)) (c_array c).

Definition append_field (key : bytes) (n : node) (c : container) : container := MkContainer (c_fields c ++ [(key, n)]) (c_array c).

(** The sub-container of a key: the container as child leaves it, with the position
    of the sub-container and the sub-container. *)
Definition child (c : container) (key : bytes) (create : bool) : res updErr (option (container * nat * container)) :=
  match find c key with
  | None =>
      if negb create then Ok None
      else if c_array c then Err ErrPathConflict
      else let nc := MkContainer [] false in Ok (Some (append_field key (SubNode nc) c, List.length (c_fields c), nc))
  | Some i =>
      match c_fields c !! i with
      | None => Panic
      | Some (_, SubNode sub) => Ok (Some (c, i, sub))
      | Some (_, RawNode raw) =>
          if rv_Type raw =? TypeDocument then
            let* dec := decodeDoc (Document raw) in Ok (Some (put_at i (SubNode dec) c, i, dec))
          else if rv_Type raw =? TypeArray then
            let* dec := decodeDoc (Document raw) in Ok (Some (put_at i (SubNode (as_array dec)) c, i, as_array dec))
          else Err ErrPathConflict
      end
  end.

Definition setNode (key : bytes) (n : node) (c : container) : container :=
  match find c key with
  | Some i => put_at i n c
  | None => append_field key n c
  end.

Definition setLeaf (key : bytes) (v : RawValue) (c : container) : container := setNode key (RawNode v) c.

Definition drop_at (i : nat) (c : container) : container := MkContainer (delete i (c_fields c)) (c_array c).

Definition remove (key : bytes) (c : container) : container :=
  match find c key with Some i => drop_at i c | None => c end.

Definition node_value (n : node) : RawValue :=
  match n with
  | SubNode sub => MkRawValue (if c_array sub then TypeArray else TypeDocument) (encode sub)
  | RawNode raw => raw
  end.

Definition leafValue (key : bytes) (c : container) : option RawValue :=
  match find c key with Some i => (fun kn => node_value kn.2) <$> c_fields c !! i | None => None end.

Definition takeNode (key : bytes) (c : container) : option node * container :=
  match find c key with
  | Some i => (snd <$> c_fields c !! i, drop_at i c)
  | None => (None, c)
  end.

(** resolve returns a pointer to the parent of the last component, which its callers
    go on to change: what they do there is an argument, and the result is the tree
    with the parent changed. Where the path leads nowhere the answer is [missing]. *)
Fixpoint resolve {A} (missing : A) (act : container -> bytes -> res updErr (container * A))
    (cur : container) (path : list bytes) (create forbidArray : bool) : res updErr (container * A) :=
  match path with
  | [] => Panic
  | comp :: path' =>
      if forbidArray && c_array cur then Err ErrRenameArray
      else
        match path' with
        | [] => act cur comp
        | _ =>
            let* next := child cur comp create in
            match next with
            | None => Ok (cur, missing)
            | Some (cur', i, sub) =>
                let* '(sub', a) := resolve missing act sub path' create forbidArray in
                Ok (put_at i (SubNode sub') cur', a)
            end
        end
  end.

(** Of an operation that only changes the tree. *)
Definition at_path (act : container -> bytes -> res updErr container) (root : container) (path : list bytes) (create : bool) : res updErr container :=
  let* '(root', _) := resolve tt (fun c leaf => let* c' := act c leaf in Ok (c', tt)) root path create false in Ok root'.

(** ** Numbers (numeric.go) *)

(** float64 arithmetic is IEEE 754's (SpecFloat), round to nearest even. *)
Definition f64_spec (b : Z) : spec_float :=
  if f64_isNaN b then S754_nan
  else if f64_isInf b then S754_infinity (f64_neg b)
  else
    match (if f64_exp b =? 0 then f64_man b else 2 ^ 52 + f64_man b) with
    | Zpos m => S754_finite (f64_neg b) m (Z.max 1 (f64_exp b) - 1075)
    | _ => S754_zero (f64_neg b)
    end.

Definition f64_word (s : bool) (a : Z) : Z := if s then 2 ^ 63 + a else a.

(** Go leaves the bits of a NaN to the implementation. *)
Class FloatUnit := nan_word : Z -> Z -> Z.

Definition f64_bits (nan : Z) (f : spec_float) : Z :=
  match f with
  | S754_nan => nan
  | S754_infinity s => f64_word s (2047 * 2 ^ 52)
  | S754_zero s => f64_word s 0
  | S754_finite s m e => f64_word s (if Zpos m <? 2 ^ 52 then Zpos m else (e + 1075) * 2 ^ 52 + (Zpos m - 2 ^ 52))
  end.

Definition f64_add `{FloatUnit} (a b : Z) : Z := f64_bits (nan_word a b) (SFadd 53 1024 (f64_spec a) (f64_spec b)).
Definition f64_mul `{FloatUnit} (a b : Z) : Z := f64_bits (nan_word a b) (SFmul 53 1024 (f64_spec a) (f64_spec b)).

(** A number: the kind is the constructor. *)
Inductive num : Type := Num32 (i : Z) | Num64 (i : Z) | NumF (f : Z).

Definition toNum (v : RawValue) : option num :=
  if rv_Type v =? TypeInt32 then Some (Num32 (Int32 v))
  else if rv_Type v =? TypeInt64 then Some (Num64 (Int64 v))
  else if rv_Type v =? TypeDouble then Some (NumF (Double v))
  else None.

Definition num_int (n : num) : Z := match n with Num32 i | Num64 i => i | NumF _ => 0 end.
Definition asFloat (n : num) : Z := match n with NumF f => f | Num32 i | Num64 i => f64_of_int i end.
Definition is_double (n : num) : bool := match n with NumF _ => true | _ => false end.
Definition is_int64 (n : num) : bool := match n with Num64 _ => true | _ => false end.
Definition resultDouble (a b : num) : bool := is_double a || is_double b.
Definition resultInt64 (a b : num) : bool := is_int64 a || is_int64 b.

(** The value of a field v of a fresh document. *)
Definition framed (append : bytes -> bytes) : RawValue := default (MkRawValue 0 []) (Lookup (Build (append [])) (str "v")).

Definition int32Value (v : Z) : RawValue := framed (AppendInt32 (str "v") v).
Definition int64Value (v : Z) : RawValue := framed (AppendInt64 (str "v") v).
Definition doubleValue (v : Z) : RawValue := framed (AppendDouble (str "v") v).
Definition nullValue : RawValue := framed (AppendNull (str "v")).

(** A time is its nanoseconds since 1970. *)
Definition dateValue (now : Z) : RawValue := framed (AppendDateTime (str "v") (now / 10 ^ 6)).
Definition timestampValue (now : Z) : RawValue := framed (AppendTimestamp (str "v") (u64 (now / 10 ^ 9 * 2 ^ 32))).

Definition arith (cur arg : RawValue) (iop fop : Z -> Z -> Z) : res updErr RawValue :=
  match toNum cur, toNum arg with
  | Some a, Some b =>
      if resultDouble a b then Ok (doubleValue (fop (asFloat a) (asFloat b)))
      else
        let r := to_i64 (u64 (iop (num_int a) (num_int b))) in
        if resultInt64 a b then Ok (int64Value r)
        else if (r <? - 2 ^ 31) || (r >? 2 ^ 31 - 1) then Err ErrOverflow
        else Ok (int32Value r)
  | _, _ => Err ErrNotNumeric
  end.

Definition addNumeric `{FloatUnit} (cur arg : RawValue) : res updErr RawValue := arith cur arg Z.add f64_add.
Definition mulNumeric `{FloatUnit} (cur arg : RawValue) : res updErr RawValue := arith cur arg Z.mul f64_mul.

Definition zeroLike (arg : RawValue) : RawValue :=
  if rv_Type arg =? TypeInt64 then int64Value 0 else if rv_Type arg =? TypeDouble then doubleValue 0 else int32Value 0.

(** ** Bit operations (bit.go) *)

Inductive bitOp : Type := bitAnd | bitOr | bitXor.
Record bitSpec := MkBitSpec { bs_op : bitOp; bs_mask : Z }.

Definition intMask (v : RawValue) : option Z :=
  if rv_Type v =? TypeInt32 then Some (Int32 v) else if rv_Type v =? TypeInt64 then Some (Int64 v) else None.

Definition compileBit (v : RawValue) : res updErr bitSpec :=
  if negb (rv_Type v =? TypeDocument) then Err ErrBadUpdate
  else
    let* es := fields_of (Document v) in
    match es with
    | [e] =>
        match intMask (Value e) with
        | None => Err ErrBadUpdate
        | Some mask =>
            if bool_decide (Key e = str "and") then Ok (MkBitSpec bitAnd mask)
            else if bool_decide (Key e = str "or") then Ok (MkBitSpec bitOr mask)
            else if bool_decide (Key e = str "xor") then Ok (MkBitSpec bitXor mask)
            else Err ErrBadUpdate
        end
    | _ => Err ErrBadUpdate
    end.

Definition bitApply (bs : bitSpec) (cur : Z) : Z :=
  match bs_op bs with
  | bitAnd => Z.land cur (bs_mask bs)
  | bitOr => Z.lor cur (bs_mask bs)
  | bitXor => Z.lxor cur (bs_mask bs)
  end.

(** ** Array operands (array.go) *)

Record pushSort := MkPushSort { ps_dir : Z; ps_field : bytes }.

Record pushSpec := MkPushSpec {
  pu_each : list RawValue;
  pu_sortBy : option pushSort;
  pu_slice : option Z;
  pu_position : option Z;
  pu_simple : option RawValue
}.

Record pullSpec := MkPullSpec { pl_matcher : option Matcher; pl_wrapped : bool; pl_val : RawValue; pl_hasVal : bool }.

Definition arrayValues (v : RawValue) : res updErr (list RawValue) :=
  if negb (rv_Type v =? TypeArray) then Err ErrBadUpdate else let* es := fields_of (Document v) in Ok (map Value es).

Definition buildArray (vals : list RawValue) : RawValue := MkRawValue TypeArray (Build (build_array 0 vals [])).

Definition containsValue (vals : list RawValue) (v : RawValue) : bool := existsb (fun e => Equal e v) vals.

Definition insertAt (arr add : list RawValue) (pos : option Z) : list RawValue :=
  match pos with
  | None => arr ++ add
  | Some p => if p >=? blen arr then arr ++ add else take (Z.to_nat p) arr ++ add ++ drop (Z.to_nat p) arr
  end.

Definition subField (v : RawValue) (field : bytes) : RawValue :=
  if negb (rv_Type v =? TypeDocument) then MkRawValue 0 [] else default (MkRawValue 0 []) (Lookup (Document v) field).

Definition sort_key_of (s : pushSort) (v : RawValue) : RawValue := if bool_decide (ps_field s = []) then v else subField v (ps_field s).

(** dir * Compare is below zero. *)
Definition push_less (s : pushSort) (a b : RawValue) : bool :=
  match Compare (sort_key_of s a) (sort_key_of s b) with Lt => ps_dir s >? 0 | Eq => false | Gt => ps_dir s <? 0 end.

Definition sortArray (arr : list RawValue) (s : pushSort) : list RawValue := SliceStable (push_less s) arr.

(** -n wraps around; a bound outside the slice panics. *)
Definition sliceArray (arr : list RawValue) (n : Z) : res updErr (list RawValue) :=
  if n =? 0 then Ok []
  else if n >? 0 then if n >=? blen arr then Ok arr else Ok (take (Z.to_nat n) arr)
  else if to_i64 (u64 (- n)) >=? blen arr then Ok arr
  else
    let from := to_i64 (u64 (blen arr + n)) in
    if (from <? 0) || (from >? blen arr) then Panic else Ok (drop (Z.to_nat from) arr).

Definition isPushModifierDoc (v : RawValue) : bool :=
  (rv_Type v =? TypeDocument) &&
  match Elements (Document v) with inr (e :: _) => bool_decide (Key e = str "$each") | _ => false end.

Definition isOperatorOnlyDoc (v : RawValue) : bool :=
  (rv_Type v =? TypeDocument) &&
  match Elements (Document v) with inr [] | inl _ => false | inr es => forallb (fun e => has_dollar (Key e)) es end.

Definition pullField : bytes := str "__pull_elem__".

Definition pullMatches (pl : pullSpec) (e : RawValue) : res updErr bool :=
  if pl_hasVal pl then Ok (Equal e (pl_val pl))
  else
    match pl_matcher pl with
    | None => Panic
    | Some m =>
        if pl_wrapped pl then Ok (Match m (Build (AppendValue pullField e [])))
        else if negb (rv_Type e =? TypeDocument) then Ok false
        else Ok (Match m (Document e))
    end.

(** ** Compiling an update (update.go, array.go) *)

Inductive opKind : Type :=
| opSet | opUnset | opInc | opMul | opMin | opMax | opRename | opCurrentDateDate | opCurrentDateTimestamp
| opPush | opAddToSet | opPop | opPull | opPullAll | opBit.

Record operation := MkOperation {
  op_kind : opKind;
  op_path : list bytes;
  op_dest : list bytes;
  op_arg : RawValue;
  op_push : option pushSpec;
  op_vals : list RawValue;
  op_pull : option pullSpec;
  op_bit : option bitSpec;
  op_onlyInsert : bool
}.

Record Update := MkUpdate { u_ops : list operation; u_usesNow : bool }.

Definition no_arg : RawValue := MkRawValue 0 [].

(** An operation with an operand alone. *)
Definition operand (kind : opKind) (path : list bytes) (arg : RawValue) (onlyInsert : bool) : operation :=
  MkOperation kind path [] arg None [] None None onlyInsert.

Definition IsOperatorDoc (d : bytes) : bool :=
  match Elements d with inr (e :: _) => has_dollar (Key e) | _ => false end.

Definition splitPath (p : bytes) : list bytes := if bool_decide (p = []) then [] else split_dots p.

Definition renameDest (v : RawValue) : res updErr (list bytes) :=
  let '(s, ok) := StringValueOK v in
  if negb ok then Err ErrBadUpdate
  else let dest := splitPath s in if bool_decide (dest = []) then Err ErrBadUpdate else Ok dest.

Definition currentDateKind (v : RawValue) : res updErr opKind :=
  if rv_Type v =? TypeBoolean then Ok opCurrentDateDate
  else if rv_Type v =? TypeDocument then
    match Lookup (Document v) (str "$type") with
    | None => Err ErrBadUpdate
    | Some t =>
        let '(s, ok) := StringValueOK t in
        if negb ok then Err ErrBadUpdate
        else if bool_decide (s = str "date") then Ok opCurrentDateDate
        else if bool_decide (s = str "timestamp") then Ok opCurrentDateTimestamp
        else Err ErrBadUpdate
    end
  else Err ErrBadUpdate.

Section compile.
Context {PF : Platform}.

Definition intOperand (v : RawValue) : option Z :=
  if rv_Type v =? TypeInt32 then Some (Int32 v)
  else if rv_Type v =? TypeInt64 then Some (Int64 v)
  else if rv_Type v =? TypeDouble then
    let f := Double v in if f64_eq f (f64_of_int (int64_of_float f)) then Some (int64_of_float f) else None
  else None.

Definition is_sign (n : Z) : bool := (n =? 1) || (n =? -1).

Definition compilePushSort (v : RawValue) : res updErr pushSort :=
  match intOperand v with
  | Some n => if is_sign n then Ok (MkPushSort n []) else Err ErrBadUpdate
  | None =>
      if rv_Type v =? TypeDocument then
        match Elements (Document v) with
        | inr [e] =>
            match intOperand (Value e) with
            | Some n => if is_sign n then Ok (MkPushSort n (Key e)) else Err ErrBadUpdate
            | None => Err ErrBadUpdate
            end
        | _ => Err ErrBadUpdate
        end
      else Err ErrBadUpdate
  end.

(** One modifier, and whether it was $each. *)
Definition push_modifier (e : Element) (ps : pushSpec) (sawEach : bool) : res updErr (pushSpec * bool) :=
  if bool_decide (Key e = str "$each") then
    match arrayValues (Value e) with
    | Ok vals => Ok (MkPushSpec vals (pu_sortBy ps) (pu_slice ps) (pu_position ps) (pu_simple ps), true)
    | _ => Err ErrBadUpdate
    end
  else if bool_decide (Key e = str "$sort") then
    let* s := compilePushSort (Value e) in
    Ok (MkPushSpec (pu_each ps) (Some s) (pu_slice ps) (pu_position ps) (pu_simple ps), sawEach)
  else if bool_decide (Key e = str "$slice") then
    match intOperand (Value e) with
    | Some n => Ok (MkPushSpec (pu_each ps) (pu_sortBy ps) (Some n) (pu_position ps) (pu_simple ps), sawEach)
    | None => Err ErrBadUpdate
    end
  else if bool_decide (Key e = str "$position") then
    match intOperand (Value e) with
    | Some n => if n <? 0 then Err ErrBadUpdate else Ok (MkPushSpec (pu_each ps) (pu_sortBy ps) (pu_slice ps) (Some n) (pu_simple ps), sawEach)
    | None => Err ErrBadUpdate
    end
  else Err ErrBadUpdate.

Fixpoint push_modifiers (es : list Element) (ps : pushSpec) (sawEach : bool) : res updErr (pushSpec * bool) :=
  match es with
  | [] => Ok (ps, sawEach)
  | e :: es' => let* '(ps', saw') := push_modifier e ps sawEach in push_modifiers es' ps' saw'
  end.

Definition compilePush (v : RawValue) : res updErr pushSpec :=
  if negb (isPushModifierDoc v) then Ok (MkPushSpec [] None None None (Some v))
  else
    let* es := fields_of (Document v) in
    let* '(ps, sawEach) := push_modifiers es (MkPushSpec [] None None None None) false in
    if negb sawEach then Err ErrBadUpdate else Ok ps.

Definition compileAddToSet (v : RawValue) : res updErr (list RawValue) :=
  if rv_Type v =? TypeDocument then
    match Lookup (Document v) (str "$each") with
    | Some each =>
        let* es := fields_of (Document v) in
        if negb (blen es =? 1) then Err ErrBadUpdate else arrayValues each
    | None => Ok [v]
    end
  else Ok [v].

Definition compilePop (v : RawValue) : res updErr RawValue :=
  match intOperand v with Some n => if is_sign n then Ok v else Err ErrBadUpdate | None => Err ErrBadUpdate end.

Definition query_Compile (d : bytes) : res updErr Matcher :=
  match Compile d with Ok m => Ok m | Err e => Err (UpdQuery e) | Panic => Panic end.

Definition pullMatcher (v : RawValue) : res updErr (Matcher * bool) :=
  if isOperatorOnlyDoc v then
    let* m := query_Compile (Build (AppendDocument pullField (Document v) [])) in Ok (m, true)
  else let* m := query_Compile (Document v) in Ok (m, false).

Definition compilePull (v : RawValue) : res updErr pullSpec :=
  if rv_Type v =? TypeDocument then let* '(m, wrapped) := pullMatcher v in Ok (MkPullSpec (Some m) wrapped no_arg false)
  else Ok (MkPullSpec None false v true).

Definition compilePullAll (v : RawValue) : res updErr (list RawValue) :=
  if negb (rv_Type v =? TypeArray) then Err ErrBadUpdate else arrayValues v.

(** The operation of one field of an operator's document, and whether it uses the
    clock. *)
Definition compile_field (op : bytes) (path : list bytes) (v : RawValue) : res updErr (operation * bool) :=
  let is_op s := bool_decide (op = str s) in
  if is_op "$set"%string then Ok (operand opSet path v false, false)
  else if is_op "$unset"%string then Ok (operand opUnset path no_arg false, false)
  else if is_op "$inc"%string then if IsNumeric (rv_Type v) then Ok (operand opInc path v false, false) else Err ErrBadUpdate
  else if is_op "$mul"%string then if IsNumeric (rv_Type v) then Ok (operand opMul path v false, false) else Err ErrBadUpdate
  else if is_op "$min"%string then Ok (operand opMin path v false, false)
  else if is_op "$max"%string then Ok (operand opMax path v false, false)
  else if is_op "$rename"%string then let* dest := renameDest v in Ok (MkOperation opRename path dest no_arg None [] None None false, false)
  else if is_op "$currentDate"%string then let* kind := currentDateKind v in Ok (operand kind path no_arg false, true)
  else if is_op "$setOnInsert"%string then Ok (operand opSet path v true, false)
  else if is_op "$push"%string then let* ps := compilePush v in Ok (MkOperation opPush path [] no_arg (Some ps) [] None None false, false)
  else if is_op "$addToSet"%string then let* vals := compileAddToSet v in Ok (MkOperation opAddToSet path [] no_arg None vals None None false, false)
  else if is_op "$pop"%string then let* dir := compilePop v in Ok (operand opPop path dir false, false)
  else if is_op "$pull"%string then let* pl := compilePull v in Ok (MkOperation opPull path [] no_arg None [] (Some pl) None false, false)
  else if is_op "$pullAll"%string then let* vals := compilePullAll v in Ok (MkOperation opPullAll path [] no_arg None vals None None false, false)
  else if is_op "$bit"%string then let* bs := compileBit v in Ok (MkOperation opBit path [] no_arg None [] None (Some bs) false, false)
  else Err ErrBadUpdate.

Fixpoint compile_fields (op : bytes) (fields : list Element) (u : Update) : res updErr Update :=
  match fields with
  | [] => Ok u
  | f :: fields' =>
      let path := splitPath (Key f) in
      if bool_decide (path = []) then Err ErrBadUpdate
      else
        let* '(o, now) := compile_field op path (Value f) in
        compile_fields op fields' (MkUpdate (u_ops u ++ [o]) (u_usesNow u || now))
  end.

Definition compileOperator (u : Update) (op : bytes) (spec : RawValue) : res updErr Update :=
  if negb (rv_Type spec =? TypeDocument) then Err ErrBadUpdate
  else let* fields := fields_of (Document spec) in compile_fields op fields u.

(** min(len(a), len(b)) components agree. *)
Fixpoint pathPrefixConflict (a b : list bytes) : bool :=
  match a, b with
  | x :: a', y :: b' => bool_decide (x = y) && pathPrefixConflict a' b'
  | _, _ => true
  end.

Definition is_rename (k : opKind) : bool := match k with opRename => true | _ => false end.

Definition op_paths (o : operation) : list (list bytes) := op_path o :: if is_rename (op_kind o) then [op_dest o] else [].

Definition paths_of (u : Update) : list (list bytes) := concat (map op_paths (u_ops u)).

Fixpoint any_conflict (paths : list (list bytes)) : bool :=
  match paths with
  | [] => false
  | p :: paths' => existsb (pathPrefixConflict p) paths' || any_conflict paths'
  end.

Definition checkConflicts (u : Update) : res updErr unit := if any_conflict (paths_of u) then Err ErrConflict else Ok tt.

Fixpoint compile_operators (es : list Element) (u : Update) : res updErr Update :=
  match es with
  | [] => Ok u
  | e :: es' =>
      if negb (has_dollar (Key e)) then Err ErrBadUpdate
      else let* u' := compileOperator u (Key e) (Value e) in compile_operators es' u'
  end.

Definition Update_Compile (d : bytes) : res updErr Update :=
  let* es := fields_of d in
  if bool_decide (es = []) then Err ErrBadUpdate
  else
    let* u := compile_operators es (MkUpdate [] false) in
    let* _ := checkConflicts u in
    Ok u.
End compile.

(** ** Applying an update (operators.go, array.go, bit.go, update.go) *)

Definition applySet (root : container) (path : list bytes) (v : RawValue) : res updErr container :=
  at_path (fun parent leaf => Ok (setLeaf leaf v parent)) root path true.

Definition applyUnset (root : container) (path : list bytes) : res updErr container :=
  at_path (fun parent leaf =>
    if c_array parent then Ok (match find parent leaf with Some _ => setLeaf leaf nullValue parent | None => parent end)
    else Ok (remove leaf parent)) root path false.

Definition applyArith (root : container) (path : list bytes) (arg : RawValue) (combine : RawValue -> RawValue -> res updErr RawValue) : res updErr container :=
  at_path (fun parent leaf =>
    let* v := combine (default (zeroLike arg) (leafValue leaf parent)) arg in
    Ok (setLeaf leaf v parent)) root path true.

Definition orders (arg cur : RawValue) (isMin : bool) : bool :=
  match Compare arg cur with Lt => isMin | Eq => false | Gt => negb isMin end.

Definition applyMinMax (root : container) (path : list bytes) (arg : RawValue) (isMin : bool) : res updErr container :=
  at_path (fun parent leaf =>
    match leafValue leaf parent with
    | None => Ok (setLeaf leaf arg parent)
    | Some cur => if orders arg cur isMin then Ok (setLeaf leaf arg parent) else Ok parent
    end) root path true.

Definition applyRename (root : container) (src dest : list bytes) : res updErr container :=
  let* '(root', moved) := resolve None (fun parent leaf => let '(n, parent') := takeNode leaf parent in Ok (parent', n)) root src false true in
  match moved with
  | None => Ok root'
  | Some n =>
      let* '(root'', found) := resolve false (fun dparent dleaf => Ok (setNode dleaf n dparent, true)) root' dest true true in
      if negb found then Err ErrPathConflict else Ok root''
  end.

Definition currentArray (parent : container) (leaf : bytes) : res updErr (list RawValue) :=
  match leafValue leaf parent with
  | None => Ok []
  | Some cur => if negb (rv_Type cur =? TypeArray) then Err ErrBadArrayOperand else arrayValues cur
  end.

(** The array of $push: appended to or inserted into, sorted, cut. *)
Definition pushed (ps : pushSpec) (arr : list RawValue) : res updErr (list RawValue) :=
  let add := match pu_simple ps with Some v => [v] | None => pu_each ps end in
  let arr := insertAt arr add (pu_position ps) in
  let arr := match pu_sortBy ps with Some s => sortArray arr s | None => arr end in
  match pu_slice ps with Some n => sliceArray arr n | None => Ok arr end.

Definition applyPush (root : container) (path : list bytes) (ps : pushSpec) : res updErr container :=
  at_path (fun parent leaf =>
    let* arr := currentArray parent leaf in
    let* arr := pushed ps arr in
    Ok (setLeaf leaf (buildArray arr) parent)) root path true.

Definition added (vals arr : list RawValue) : list RawValue :=
  fold_left (fun arr v => if negb (containsValue arr v) then arr ++ [v] else arr) vals arr.

Definition applyAddToSet (root : container) (path : list bytes) (vals : list RawValue) : res updErr container :=
  at_path (fun parent leaf =>
    let* arr := currentArray parent leaf in
    Ok (setLeaf leaf (buildArray (added vals arr)) parent)) root path true.

(** The operators that take elements out of an array there is. *)
Definition on_array (f : list RawValue -> res updErr (option (list RawValue))) (parent : container) (leaf : bytes) : res updErr container :=
  match leafValue leaf parent with
  | None => Ok parent
  | Some cur =>
      if negb (rv_Type cur =? TypeArray) then Err ErrBadArrayOperand
      else
        let* arr := arrayValues cur in
        let* arr' := f arr in
        Ok (match arr' with Some arr' => setLeaf leaf (buildArray arr') parent | None => parent end)
  end.

Fixpoint pulled_from (pl : pullSpec) (arr : list RawValue) : res updErr (list RawValue) :=
  match arr with
  | [] => Ok []
  | e :: arr' =>
      let* b := pullMatches pl e in
      let* kept := pulled_from pl arr' in
      Ok (if b then kept else e :: kept)
  end.

Definition applyPull (root : container) (path : list bytes) (pl : pullSpec) : res updErr container :=
  at_path (on_array (fun arr => let* kept := pulled_from pl arr in Ok (Some kept))) root path false.

Definition applyPullAll (root : container) (path : list bytes) (vals : list RawValue) : res updErr container :=
  at_path (on_array (fun arr => Ok (Some (List.filter (fun e => negb (containsValue vals e)) arr)))) root path false.

Definition applyBit (root : container) (path : list bytes) (bs : bitSpec) : res updErr container :=
  at_path (fun parent leaf =>
    match leafValue leaf parent with
    | None => Err ErrBitType
    | Some cur =>
        if rv_Type cur =? TypeInt32 then Ok (setLeaf leaf (int32Value (to_i32 (u32 (bitApply bs (Int32 cur))))) parent)
        else if rv_Type cur =? TypeInt64 then Ok (setLeaf leaf (int64Value (bitApply bs (Int64 cur))) parent)
        else Err ErrBitType
    end) root path false.

Section apply.
Context {PF : Platform} {FU : FloatUnit}.

(** arr[:len(arr)-1] or arr[1:]; an empty array is left alone. *)
Definition popped (dir : RawValue) (arr : list RawValue) : option (list RawValue) :=
  match arr with
  | [] => None
  | _ => Some (if default 0 (intOperand dir) =? 1 then take (List.length arr - 1) arr else drop 1 arr)
  end.

Definition applyPop (root : container) (path : list bytes) (dir : RawValue) : res updErr container :=
  at_path (on_array (fun arr => Ok (popped dir arr))) root path false.

Definition applyOp (root : container) (op : operation) (now : Z) : res updErr container :=
  match op_kind op with
  | opSet => applySet root (op_path op) (op_arg op)
  | opUnset => applyUnset root (op_path op)
  | opInc => applyArith root (op_path op) (op_arg op) addNumeric
  | opMul => applyArith root (op_path op) (op_arg op) mulNumeric
  | opMin => applyMinMax root (op_path op) (op_arg op) true
  | opMax => applyMinMax root (op_path op) (op_arg op) false
  | opRename => applyRename root (op_path op) (op_dest op)
  | opCurrentDateDate => applySet root (op_path op) (dateValue now)
  | opCurrentDateTimestamp => applySet root (op_path op) (timestampValue now)
  | opPush => match op_push op with Some ps => applyPush root (op_path op) ps | None => Panic end
  | opAddToSet => applyAddToSet root (op_path op) (op_vals op)
  | opPop => applyPop root (op_path op) (op_arg op)
  | opPull => match op_pull op with Some pl => applyPull root (op_path op) pl | None => Panic end
  | opPullAll => applyPullAll root (op_path op) (op_vals op)
  | opBit => match op_bit op with Some bs => applyBit root (op_path op) bs | None => Panic end
  end.

Fixpoint apply_ops (root : container) (ops : list operation) (now : Z) (insert : bool) : res updErr container :=
  match ops with
  | [] => Ok root
  | op :: ops' =>
      if op_onlyInsert op && negb insert then apply_ops root ops' now insert
      else let* root' := applyOp root op now in apply_ops root' ops' now insert
  end.

(** The new document, and whether its bytes are others. *)
Definition apply (u : Update) (doc : bytes) (now : Z) (insert : bool) : res updErr (bytes * bool) :=
  let* root := decodeDoc doc in
  let* root' := apply_ops root (u_ops u) now insert in
  let out := encode root' in
  Ok (out, negb (bool_decide (doc = out))).

Definition Update_Apply (u : Update) (doc : bytes) (now : Z) : res updErr (bytes * bool) := apply u doc now false.
Definition ApplyForInsert (u : Update) (doc : bytes) (now : Z) : res updErr (bytes * bool) := apply u doc now true.
End apply.

(** ** Concrete updates *)

#[local] Existing Instance amd64.
#[local] Instance default_nan : FloatUnit := fun _ _ => 0x7FF8000000000001.

Definition updated (u doc : bytes) : res updErr (bytes * bool) := let* u := Update_Compile u in Update_Apply u doc 0.

Definition op1 (op path : string) (v : RawValue) : bytes := doc1 op (doc_val (doc1 path v)).

Definition fields2 (k1 : string) (v1 : RawValue) (k2 : string) (v2 : RawValue) : bytes := Build (AppendValue (str k2) v2 (AppendValue (str k1) v1 [])).

Example set_creates : updated (op1 "$set" "a.b" (int_n 1)) (doc1 "z" (int_n 0)) = Ok (fields2 "z" (int_n 0) "a" (doc_val (doc1 "b" (int_n 1))), true).
Proof. vm_compute. reflexivity. Qed.

Example set_same : updated (op1 "$set" "a.b" (int_n 1)) (doc1 "a" (doc_val (doc1 "b" (int_n 1)))) = Ok (doc1 "a" (doc_val (doc1 "b" (int_n 1))), false).
Proof. vm_compute. reflexivity. Qed.

Example inc_int32 : updated (op1 "$inc" "a" (int_n 5)) (doc1 "a" (int_n 2)) = Ok (doc1 "a" (int_n 7), true).
Proof. vm_compute. reflexivity. Qed.

Example inc_overflow : updated (op1 "$inc" "a" (int_n 1)) (doc1 "a" (int_n (2 ^ 31 - 1))) = Err ErrOverflow.
Proof. vm_compute. reflexivity. Qed.

(** 1.5 * 3 = 4.5 *)
Example mul_double : updated (op1 "$mul" "a" (double_val 0x3FF8000000000000)) (doc1 "a" (int_n 3)) = Ok (doc1 "a" (double_val 0x4012000000000000), true).
Proof. vm_compute. reflexivity. Qed.

(** 0.1 + 0.2 *)
Example inc_double : updated (op1 "$inc" "a" (double_val 0x3FC999999999999A)) (doc1 "a" (double_val 0x3FB999999999999A)) = Ok (doc1 "a" (double_val 0x3FD3333333333334), true).
Proof. vm_compute. reflexivity. Qed.

Example rename_moves :
  updated (op1 "$rename" "a.b" (string_val (str "c"))) (doc1 "a" (doc_val (doc1 "b" (int_n 1)))) = Ok (fields2 "a" (doc_val (Build [])) "c" (int_n 1), true).
Proof. vm_compute. reflexivity. Qed.

Example push_sorted_slice :
  updated (op1 "$push" "a" (doc_val (Build (AppendValue (str "$slice") (int_n (-2)) (AppendValue (str "$sort") (int_n 1) (AppendValue (str "$each") (array_val [int_n 2; int_n 9]) []))))))
          (doc1 "a" (array_val [int_n 5; int_n 3])) = Ok (doc1 "a" (array_val [int_n 5; int_n 9]), true).
Proof. vm_compute. reflexivity. Qed.

Example conflicting : updated (fields2 "$set" (doc_val (doc1 "a.b" (int_n 1))) "$unset" (doc_val (doc1 "a" (int_n 1)))) (doc1 "z" (int_n 1)) = Err ErrConflict.
Proof. vm_compute. reflexivity. Qed.

(** ** Where the operators do not do what they say *)

(** A field set in an array: a missing position is appended under its own key,
    whatever the length is, and so is a name that is no position. *)
Definition bad_array (key : string) : RawValue := MkRawValue TypeArray (Build (AppendValue (str key) (int_n 9) (build_array 0 [int_n 1; int_n 2] []))).

(** $slice counts from the end with the length of the array plus the least int64. *)
Definition least_slice : RawValue :=
  doc_val (Build (AppendValue (str "$slice") (int64_val (- 2 ^ 63)) (AppendValue (str "$each") (array_val []) []))).

Definition by_b : RawValue := doc_val (Build (AppendValue (str "$sort") (doc_val (doc1 "b" (int_n 1))) (AppendValue (str "$each") (array_val []) []))).

(** $set into an array writes keys that are no positions: "a.5" of a short array is
    appended as it is, and "a.x" becomes a field of the array. A sort by a field puts
    elements without it last, like the greatest value. $slice with the least int64
    panics. Modifiers of $push with $each not in front are pushed as a document. An
    unknown operator without fields is accepted. $bit refuses a missing field and
    ignores a missing parent. A sum of int64 values wraps around. A destination of
    $rename with a NUL in it breaks the document. *)
Theorem update_operators_misbehave :
  updated (op1 "$set" "a.5" (int_n 9)) (doc1 "a" (array_val [int_n 1; int_n 2])) = Ok (doc1 "a" (bad_array "5"), true) /\
  updated (op1 "$set" "a.x" (int_n 9)) (doc1 "a" (array_val [int_n 1; int_n 2])) = Ok (doc1 "a" (bad_array "x"), true) /\
  updated (op1 "$push" "a" by_b) (doc1 "a" (array_val [int_n 7; doc_val (doc1 "b" (int_n 5))])) = Ok (doc1 "a" (array_val [doc_val (doc1 "b" (int_n 5)); int_n 7]), true) /\
  updated (op1 "$push" "a" least_slice) (doc1 "a" (array_val [int_n 1])) = Panic /\
  updated (op1 "$push" "a" (doc_val (fields2 "$slice" (int_n 1) "$each" (array_val [int_n 2])))) (doc1 "a" (array_val [int_n 1]))
    = Ok (doc1 "a" (array_val [int_n 1; doc_val (fields2 "$slice" (int_n 1) "$each" (array_val [int_n 2]))]), true) /\
  updated (doc1 "$frobnicate" (doc_val (Build []))) (doc1 "a" (int_n 1)) = Ok (doc1 "a" (int_n 1), false) /\
  (updated (op1 "$bit" "a" (doc_val (doc1 "or" (int_n 1)))) (doc1 "z" (int_n 1)) = Err ErrBitType /\
   updated (op1 "$bit" "a.b" (doc_val (doc1 "or" (int_n 1)))) (doc1 "z" (int_n 1)) = Ok (doc1 "z" (int_n 1), false)) /\
  updated (op1 "$inc" "a" (int_n 1)) (doc1 "a" (int64_val (2 ^ 63 - 1))) = Ok (doc1 "a" (int64_val (- 2 ^ 63)), true) /\
  match updated (op1 "$rename" "a" (string_val [98; 0; 99])) (doc1 "a" (int_n 7)) with Ok (out, _) => Elements out = inl ErrMalformed | _ => False end.
Proof. vm_compute. split_and!; reflexivity. Qed.
