(* ===== verification/UpdateProps.v ===== *)
(** * What update operators do to a document

    The tree of an update beside the document it was decoded from: reading a path in
    the tree is reading it in the document, encoding the tree gives the document its
    fields say, and an operation changes the tree at its own paths only. *)

From Stdlib Require Import String.
From S2P Require Import Prelude Float64 Bson BsonCompare Query QueryShape Update.

Local Open Scope Z_scope.

(** ** Fields by name *)

Definition look (fs : list (bytes * node)) (k : bytes) : option node :=
  match find_key k fs with Some i => snd <$> fs !! i | None => None end.

Lemma look_cons k' n fs k : look ((k', n) :: fs) k = if bool_decide (k' = k) then Some n else look fs k.
Proof. unfold look. cbn [find_key]. case_bool_decide; [done|]. by destruct (find_key k fs). Qed.

Lemma find_key_Some k fs : forall i, find_key k fs = Some i -> exists n, fs !! i = Some (k, n).
Proof.
  induction fs as [|[k' n] fs IH]; intros i; cbn [find_key]; [done|]. case_bool_decide as E; [intros [= <-]; subst; by exists n|].
  intros (j & Hj & ->)%fmap_Some. by apply IH.
Qed.

Lemma find_key_None k fs : find_key k fs = None <-> look fs k = None.
Proof.
  unfold look. destruct (find_key k fs) as [i|] eqn:E; [|done]. destruct (find_key_Some _ _ _ E) as [n ->]. done.
Qed.

Lemma look_put i n k fs k' :
  find_key k fs = Some i -> look (alter (fun kn => (kn.1, n)) i fs) k' = if bool_decide (k = k') then Some n else look fs k'.
Proof.
  revert i. induction fs as [|[k0 n0] fs IH]; intros i; cbn [find_key]; [done|]. destruct (bool_decide_reflect (k0 = k)) as [E|E].
  - intros Hi. injection Hi as <-. subst. cbn [alter list_alter fst]. rewrite !look_cons. by case_bool_decide.
  - intros (j & Hj & ->)%fmap_Some. cbn [alter list_alter]. change (list_alter _ _ fs) with (alter (fun kn : bytes * node => (kn.1, n)) j fs).
    rewrite !look_cons, (IH j Hj). destruct (decide (k = k')) as [->|Hne]; [by rewrite !(bool_decide_eq_true_2 (k' = k')), bool_decide_eq_false_2|].
    by rewrite (bool_decide_eq_false_2 (k = k')).
Qed.

Lemma find_put i n (fs : list (bytes * node)) (k' : bytes) : find_key k' (alter (fun kn => (kn.1, n)) i fs) = find_key k' fs.
Proof.
  revert i. induction fs as [|[k0 n0] fs IH]; intros i; [done|]. destruct i as [|i]; cbn [alter list_alter find_key fst]; [done|].
  change (list_alter _ _ fs) with (alter (fun kn : bytes * node => (kn.1, n)) i fs). by rewrite IH.
Qed.

Lemma look_append k n fs k' :
  find_key k fs = None -> look (fs ++ [(k, n)]) k' = if bool_decide (k = k') then Some n else look fs k'.
Proof.
  induction fs as [|[k0 n0] fs IH]; cbn [find_key app]; intros Hk; [by rewrite look_cons|].
  destruct (bool_decide_reflect (k0 = k)) as [E0|E0]; [done|]. apply fmap_None in Hk. rewrite !look_cons, IH by done. case_bool_decide as E; [|done]. subst.
  by rewrite bool_decide_eq_false_2 by done.
Qed.

Lemma find_append k n fs : find_key k fs = None -> find_key k (fs ++ [(k, n)]) = Some (List.length fs).
Proof.
  induction fs as [|[k0 n0] fs IH]; cbn [find_key app List.length]; [intros _; by rewrite bool_decide_eq_true_2|].
  case_bool_decide; [done|]. intros Hk. apply fmap_None in Hk. by rewrite IH.
Qed.

Lemma look_drop i k fs k' : find_key k fs = Some i -> k' <> k -> look (delete i fs) k' = look fs k'.
Proof.
  revert i. induction fs as [|[k0 n0] fs IH]; intros i; cbn [find_key]; [done|]. intros H Hne. destruct (bool_decide_reflect (k0 = k)) as [E|E].
  - injection H as <-. subst. cbn [delete list_delete]. rewrite look_cons. by rewrite bool_decide_eq_false_2 by done.
  - apply fmap_Some in H as (j & Hj & ->). cbn [delete list_delete]. change (list_delete j fs) with (delete j fs). by rewrite !look_cons, IH.
Qed.

Definition clook (c : container) (k : bytes) : option node := look (c_fields c) k.

Lemma clook_at c k i kn : find c k = Some i -> c_fields c !! i = Some kn -> clook c k = Some kn.2.
Proof. unfold find, clook, look. intros -> ->. done. Qed.

Lemma clook_put_at c i n k k' : find c k = Some i -> clook (put_at i n c) k' = if bool_decide (k = k') then Some n else clook c k'.
Proof. apply look_put. Qed.

Lemma clook_append c n k k' : find c k = None -> clook (append_field k n c) k' = if bool_decide (k = k') then Some n else clook c k'.
Proof. apply look_append. Qed.

Lemma clook_setNode c n k k' : clook (setNode k n c) k' = if bool_decide (k = k') then Some n else clook c k'.
Proof. unfold setNode. destruct (find c k) as [i|] eqn:E; [by apply clook_put_at|by apply clook_append]. Qed.

Lemma setNode_array c n k : c_array (setNode k n c) = c_array c.
Proof. unfold setNode. by destruct (find c k). Qed.

Lemma leafValue_look c k : leafValue k c = node_value <$> clook c k.
Proof. unfold leafValue, clook, look, find. destruct (find_key _ _); [|done]. by destruct (_ !! _). Qed.

(** ** Encoding *)

Definition field_elem (kn : bytes * node) : Element := MkElement kn.1 (node_value kn.2).
Definition elems_of (c : container) : list Element := map field_elem (c_fields c).

Lemma encode_eq c : encode c = doc_of (elems_of c).
Proof.
  destruct c as [fs a]. unfold doc_of. cbn [encode elems_of c_fields]. f_equal.
  assert (H : forall b, (fix encode_fields (fs : list (bytes * node)) (b : bytes) : bytes :=
                match fs with
                | [] => b
                | (k, n) :: fs' =>
                    encode_fields fs'
                      match n with
                      | SubNode sub => if c_array sub then AppendArray k (encode sub) b else AppendDocument k (encode sub) b
                      | RawNode raw => AppendValue k raw b
                      end
                end) fs b = b ++ enc_elems (map field_elem fs)).
  { induction fs as [|[k n] fs IH]; intros b; [by rewrite app_nil_r|]. rewrite IH. unfold enc_elems. cbn [map concat]. rewrite app_assoc. f_equal.
    pose proof (AppendValue_enc (field_elem (k, n)) b) as E. rewrite <- E. unfold field_elem. cbn [Key Value fst snd].
    destruct n as [raw|sub]; [done|]. unfold AppendArray, AppendDocument, AppendValue, node_value. by destruct (c_array sub). }
  by rewrite H.
Qed.

Lemma find_elem fs k : Value <$> List.find (fun e => bool_decide (Key e = k)) (map field_elem fs) = node_value <$> look fs k.
Proof.
  induction fs as [|[k' n] fs IH]; [done|]. cbn [map List.find]. unfold field_elem at 1. cbn [Key fst]. rewrite look_cons. destruct (decide (k' = k)); [by rewrite !bool_decide_eq_true_2 by done|by rewrite !bool_decide_eq_false_2 by done].
Qed.

Lemma elem_smaller e es : e ∈ es -> blen (rv_Data (Value e)) < blen (doc_of es).
Proof.
  intros (i & Hi)%list_elem_of_lookup_1. rewrite <- (take_drop_middle es i e Hi). unfold doc_of. rewrite blen_Build, !enc_elems_app.
  unfold enc_elems at 2. cbn [map concat]. rewrite !blen_app. unfold enc_elem at 1. rewrite blen_cons, blen_app, blen_cons.
  pose proof (blen_nonneg (enc_elems (take i es))). pose proof (blen_nonneg (Key e)). pose proof (blen_nonneg (concat (map enc_elem (drop (S i) es)))). lia.
Qed.

(** ** Well-formed trees *)

(** A value that is whole if it is short enough to be. *)
Definition leaf_ok (v : RawValue) : Prop :=
  rv_Type v <> 0 /\ byte_ok (rv_Type v) /\ bytes_ok (rv_Data v) /\
  (blen (rv_Data v) < 2 ^ 32 -> scanValue (rv_Data v) (rv_Type v) = inr (blen (rv_Data v))).

Definition key_ok (k : bytes) : Prop := bytes_ok k /\ ~ 0 ∈ k.

Fixpoint node_ok (n : node) : Prop :=
  match n with
  | RawNode raw => leaf_ok raw
  | SubNode sub => container_ok sub
  end
with container_ok (c : container) : Prop :=
  match c with
  | MkContainer fs _ =>
      (fix fields_ok (fs : list (bytes * node)) : Prop :=
         match fs with [] => True | (k, n) :: fs' => (key_ok k /\ node_ok n) /\ fields_ok fs' end) fs
  end.

Definition field_ok (kn : bytes * node) : Prop := key_ok kn.1 /\ node_ok kn.2.

Lemma container_ok_fields c : container_ok c <-> Forall field_ok (c_fields c).
Proof.
  destruct c as [fs a]. cbn [container_ok c_fields]. induction fs as [|[k n] fs IH]; [split; [constructor|done]|].
  rewrite Forall_cons, <- IH. done.
Qed.

(** Induction over a tree. *)
Fixpoint container_tree_ind (P : container -> Prop)
    (H : forall c, (forall k sub, (k, SubNode sub) ∈ c_fields c -> P sub) -> P c) (c : container) : P c.
Proof.
  apply H. destruct c as [fs a]. cbn [c_fields]. induction fs as [|[k' [raw|sub']] fs IH]; intros k sub Hin; [by apply not_elem_of_nil in Hin| |].
  - apply elem_of_cons in Hin as [Hin|Hin]; [discriminate Hin|by apply (IH k)].
  - pose proof (container_tree_ind P H sub') as Hs. apply elem_of_cons in Hin as [Hin|Hin]; [|by apply (IH k)].
    assert (sub = sub') as -> by (injection Hin; done). exact Hs.
Defined.

(** ** Paths *)

(** The value at a path of field names, positions in arrays among them. *)
Fixpoint vget (v : RawValue) (q : list bytes) : option RawValue :=
  match q with
  | [] => Some v
  | k :: q' => match Lookup (Document v) k with Some w => vget w q' | None => None end
  end.

Fixpoint nget (n : node) (q : list bytes) : option RawValue :=
  match q with
  | [] => Some (node_value n)
  | k :: q' =>
      match n with
      | RawNode raw => vget raw q
      | SubNode sub => match clook sub k with Some n' => nget n' q' | None => None end
      end
  end.

Definition cget (c : container) (q : list bytes) : option RawValue := nget (SubNode c) q.

Lemma nget_raw v q : nget (RawNode v) q = vget v q.
Proof. by destruct q. Qed.

Lemma cget_cons c k q : cget c (k :: q) = match clook c k with Some n => nget n q | None => None end.
Proof. done. Qed.

Lemma value_leaf_ok v : value_ok v -> leaf_ok v.
Proof. intros (H1 & H2 & H3 & H4). by split_and!. Qed.

Lemma clook_ok c k n : container_ok c -> clook c k = Some n -> node_ok n.
Proof.
  rewrite container_ok_fields. unfold clook, look. intros H. destruct (find_key _ _) as [i|]; [|done]. intros (kn & Hi & ->)%fmap_Some.
  by apply (proj1 (Forall_lookup _ _) H) in Hi as [_ Hn].
Qed.

Lemma decode_exact raw dec :
  bytes_ok (rv_Data raw) -> decodeDoc (Document raw) = Ok dec ->
  Document raw = rv_Data raw /\ container_ok dec /\ encode dec = rv_Data raw /\ (forall k, clook dec k = RawNode <$> Lookup (Document raw) k).
Proof.
  intros Hb. unfold decodeDoc, fields_of. destruct (Elements (Document raw)) as [|es] eqn:E; [done|]. cbn [res_bind]. intros [= <-].
  assert (Hd : Document raw = rv_Data raw) by (unfold Document in *; destruct (_ && _); [done|discriminate E]).
  rewrite Hd in *. destruct (Elements_inv _ _ Hb E) as (He & Hf & Hr). split_and!; [done| | |].
  - rewrite container_ok_fields. cbn [c_fields]. apply Forall_map. eapply Forall_impl; [exact He|]. intros e (H1 & H2 & H3).
    split; [by split|]. by apply value_leaf_ok.
  - rewrite encode_eq. unfold elems_of. cbn [c_fields]. rewrite map_map. rewrite Hr. f_equal. rewrite <- map_id. apply map_ext. by intros [].
  - intros k. rewrite Hr, Lookup_doc_of by done. unfold clook. cbn [c_fields]. clear. induction es as [|e es IH]; [done|].
    cbn [map List.find]. rewrite look_cons, IH. by case_bool_decide.
Qed.

(** Decoding a value in place does not change what is at a path. *)
Lemma decode_nget raw dec (arr : bool) q :
  bytes_ok (rv_Data raw) -> decodeDoc (Document raw) = Ok dec -> rv_Type raw = (if arr then TypeArray else TypeDocument) ->
  nget (SubNode (MkContainer (c_fields dec) arr)) q = vget raw q.
Proof.
  intros Hb Hd Ht. destruct (decode_exact _ _ Hb Hd) as (_ & _ & He & Hl). destruct dec as [fs a]. destruct q as [|k q].
  - cbn [nget vget]. f_equal. unfold node_value. cbn [c_array c_fields]. change (encode (MkContainer fs arr)) with (encode (MkContainer fs a)).
    rewrite He, <- Ht. by destruct raw.
  - cbn [nget vget]. change (clook (MkContainer (c_fields (MkContainer fs a)) arr) k) with (clook (MkContainer fs a) k). rewrite Hl.
    destruct (Lookup (Document raw) k); [|done]. by rewrite <- nget_raw.
Qed.

(** ** One step down *)

Definition empty_container : container := MkContainer [] false.

Lemma empty_get q : q <> [] -> cget empty_container q = None.
Proof. by destruct q. Qed.

(** What child leaves: the container with the sub-container in place, holding what
    was there. *)
Record stepped (c : container) (key : bytes) (c' : container) (i : nat) (sub : container) : Prop := {
  st_array : c_array c' = c_array c;
  st_others : forall k, k <> key -> clook c' k = clook c k;
  st_find : find c' key = Some i;
  st_ok : container_ok c';
  st_sub_ok : container_ok sub;
  st_same : forall q, q <> [] -> cget sub q = cget c (key :: q)
}.

Lemma put_at_ok c i n : container_ok c -> node_ok n -> container_ok (put_at i n c).
Proof.
  rewrite !container_ok_fields. cbn [put_at c_fields]. intros Hc Hn. apply Forall_alter; [done|]. intros kn Hk [H1 _]. by split.
Qed.

Lemma append_field_ok c k n : container_ok c -> key_ok k -> node_ok n -> container_ok (append_field k n c).
Proof. rewrite !container_ok_fields. cbn [append_field c_fields]. intros. apply Forall_app_2; [done|]. by apply Forall_singleton. Qed.

Lemma setNode_ok c k n : container_ok c -> key_ok k -> node_ok n -> container_ok (setNode k n c).
Proof. intros. unfold setNode. destruct (find c k); [by apply put_at_ok|by apply append_field_ok]. Qed.

Lemma drop_at_ok c i : container_ok c -> container_ok (drop_at i c).
Proof. rewrite !container_ok_fields. cbn [drop_at c_fields]. intros H. by apply Forall_delete. Qed.

Lemma stepped_decode c key raw dec i (arr : bool) :
  container_ok c -> find c key = Some i -> c_fields c !! i = Some (key, RawNode raw) ->
  rv_Type raw = (if arr then TypeArray else TypeDocument) -> decodeDoc (Document raw) = Ok dec ->
  stepped c key (put_at i (SubNode (MkContainer (c_fields dec) arr)) c) i (MkContainer (c_fields dec) arr).
Proof.
  intros Hc Hf Hi Ht Hd. pose proof (clook_at _ _ _ _ Hf Hi) as Hl. cbn [snd] in Hl. pose proof (clook_ok _ _ _ Hc Hl) as (_ & _ & Hb & _).
  assert (Hs : container_ok (MkContainer (c_fields dec) arr)).
  { rewrite container_ok_fields. cbn [c_fields]. rewrite <- container_ok_fields. by apply (decode_exact raw). }
  split; [done| | |by apply put_at_ok|done|].
  - intros k Hk. rewrite (clook_put_at c i _ key) by done. by rewrite bool_decide_eq_false_2.
  - unfold find in *. cbn [put_at c_fields]. by rewrite find_put.
  - intros q _. unfold cget at 1. rewrite (decode_nget raw dec arr q Hb Hd Ht), cget_cons, Hl. by rewrite nget_raw.
Qed.

Lemma child_spec c key create :
  container_ok c -> key_ok key ->
  match child c key create with
  | Ok (Some (c', i, sub)) => stepped c key c' i sub /\ (clook c key = None -> sub = empty_container /\ create = true)
  | Ok None => create = false /\ clook c key = None
  | _ => True
  end.
Proof.
  intros Hc Hk. unfold child. destruct (find c key) as [i|] eqn:Hf.
  - destruct (find_key_Some _ _ _ Hf) as [n Hi]. pose proof (clook_at _ _ _ _ Hf Hi) as Hl. cbn [snd] in Hl. rewrite Hi. destruct n as [raw|sub].
    + destruct (Z.eqb_spec (rv_Type raw) TypeDocument) as [Et|]; [|destruct (Z.eqb_spec (rv_Type raw) TypeArray) as [Et|]; [|done]];
        destruct (decodeDoc (Document raw)) as [dec| |] eqn:Ed; try done; cbn [res_bind]; (split; [|by rewrite Hl]).
      * assert (E : dec = MkContainer (c_fields dec) false).
        { unfold decodeDoc in Ed. destruct (fields_of _); [|done..]. by injection Ed as <-. }
        rewrite E. cbn [c_fields]. by apply (stepped_decode c key raw dec i false).
      * by apply (stepped_decode c key raw dec i true).
    + split; [|by rewrite Hl]. split; try done; [by apply (clook_ok c key (SubNode sub))|]. intros q _. by rewrite cget_cons, Hl.
  - pose proof (proj1 (find_key_None _ _) Hf) as Hl. destruct create; cbn [negb]; [|done]. destruct (c_array c); [done|]. split; [|by split].
    split; [done| | |by apply append_field_ok|done|].
    + intros k Hne. rewrite clook_append by done. by rewrite bool_decide_eq_false_2.
    + by apply find_append.
    + intros q Hq. rewrite cget_cons. unfold clook at 1. rewrite Hl. by apply empty_get.
Qed.

(** ** Down a path *)

(** Neither path is a prefix of the other. *)
Definition apart (p q : list bytes) : Prop := pathPrefixConflict p q = false.

Lemma apart_nil p : ~ apart p [].
Proof. by destruct p. Qed.

Lemma apart_sym p q : apart p q <-> apart q p.
Proof.
  unfold apart. revert q. induction p as [|x p IH]; intros [|y q]; cbn [pathPrefixConflict]; [done..|].
  destruct (decide (x = y)) as [->|Hne]; [by rewrite bool_decide_eq_true_2, !andb_true_l by done|].
  by rewrite !bool_decide_eq_false_2 by congruence.
Qed.

Lemma apart_cons x p y q : apart (x :: p) (y :: q) <-> x <> y \/ apart p q.
Proof. unfold apart. cbn [pathPrefixConflict]. rewrite andb_false_iff, bool_decide_eq_false. done. Qed.

Section resolve.
Context {A : Type} (missing : A) (act : container -> bytes -> res updErr (container * A)).
Context (R : option node -> option node -> A -> Prop).
Context (Hact : forall c leaf c' a, container_ok c -> key_ok leaf -> act c leaf = Ok (c', a) ->
  container_ok c' /\ c_array c' = c_array c /\ (forall k, k <> leaf -> clook c' k = clook c k) /\ R (clook c leaf) (clook c' leaf) a).

(** The tree after an action at a path: only what is at the path has changed, from m
    to m', or the path leads nowhere. *)
Record resolved (create : bool) (c : container) (path : list bytes) (c' : container) (a : A) : Prop := {
  rs_ok : container_ok c';
  rs_array : c_array c' = c_array c;
  rs_apart : forall q, apart path q -> cget c' q = cget c q;
  rs_at : (exists m m', R m m' a /\ cget c path = node_value <$> m /\ cget c' path = node_value <$> m') \/
          (create = false /\ a = missing /\ cget c path = None /\ cget c' path = None)
}.

Lemma resolve_last create c leaf c' a : container_ok c -> key_ok leaf -> act c leaf = Ok (c', a) -> resolved create c [leaf] c' a.
Proof.
  intros Hc Hk Ha. destruct (Hact _ _ _ _ Hc Hk Ha) as (H1 & H2 & H3 & H4). split; [done..| |].
  - intros [|k q] Hq; [by apply apart_nil in Hq|]. apply apart_cons in Hq as [Hq|Hq]; [|by destruct q]. rewrite !cget_cons, H3 by congruence. done.
  - left. exists (clook c leaf), (clook c' leaf). rewrite !cget_cons. split; [done|]. by destruct (clook c leaf), (clook c' leaf).
Qed.

Lemma resolve_step create c comp c1 i sub path sub' a :
  container_ok c -> key_ok comp -> path <> [] -> stepped c comp c1 i sub -> resolved create sub path sub' a ->
  resolved create c (comp :: path) (put_at i (SubNode sub') c1) a.
Proof.
  intros Hc Hk Hp [S1 S2 S3 S4 S5 S6] [H1 H2 H3 H4].
  assert (Hl : forall k, clook (put_at i (SubNode sub') c1) k = if bool_decide (comp = k) then Some (SubNode sub') else clook c1 k)
    by (intros k; by apply clook_put_at).
  assert (Hg : forall q, q <> [] -> cget (put_at i (SubNode sub') c1) (comp :: q) = cget sub' q).
  { intros q Hq. by rewrite cget_cons, Hl, bool_decide_eq_true_2. }
  split; [by apply put_at_ok|done| |].
  - intros [|k q] Hq; [by apply apart_nil in Hq|]. apply apart_cons in Hq as [Hq|Hq].
    + by rewrite !cget_cons, Hl, bool_decide_eq_false_2, S2 by congruence.
    + destruct (decide (comp = k)) as [<-|Hne]; [|by rewrite !cget_cons, Hl, bool_decide_eq_false_2, S2 by congruence].
      assert (q <> []) by (intros ->; by apply apart_nil in Hq). rewrite Hg, H3, S6 by done. done.
  - rewrite Hg, <- S6 by done. exact H4.
Qed.

Lemma resolve_spec path : forall c create forbid c' a,
  container_ok c -> Forall key_ok path -> resolve missing act c path create forbid = Ok (c', a) -> resolved create c path c' a.
Proof.
  induction path as [|comp path IH]; intros c create forbid c' a Hc Hp H; [done|]. apply Forall_cons in Hp as [Hk Hp].
  cbn [resolve] in H. destruct (forbid && _); [done|]. destruct path as [|comp2 path]; [by apply resolve_last|].
  remember (comp2 :: path) as rest eqn:Er. pose proof (child_spec c comp create Hc Hk) as Hch.
  destruct (child c comp create) as [[[[c1 i] sub]|]| |]; try done; cbn [res_bind] in H.
  - destruct Hch as [Hst Hno]. destruct (resolve missing act sub rest create forbid) as [[sub' a']| |] eqn:E; try done. cbn [res_bind] in H.
    injection H as <- <-. apply (resolve_step create c comp c1 i sub rest sub' a'); try done; [by subst|]. apply (IH _ create forbid); [by apply Hst|done|done].
  - injection H as <- <-. destruct Hch as [Hcr Hl]. split; try done. right. split; [done|]. split; [done|]. rewrite cget_cons, Hl. done.
Qed.
End resolve.

(** ** An action at a path *)

(** Acting on one container: its field [leaf] becomes f of it, all else stays. *)
Definition acts (act : container -> bytes -> res updErr container) (f : option RawValue -> res updErr (option RawValue)) : Prop :=
  forall c leaf c', container_ok c -> key_ok leaf -> act c leaf = Ok c' ->
  container_ok c' /\ c_array c' = c_array c /\ (forall k, k <> leaf -> clook c' k = clook c k) /\
  f (leafValue leaf c) = Ok (leafValue leaf c').

(** What an operation has done to a tree: it is as well-formed as it was, and paths
    apart from those it names are as they were. *)
Definition framed_by (paths : list (list bytes)) (c c' : container) : Prop :=
  container_ok c' /\ c_array c' = c_array c /\ forall q, Forall (fun p => apart p q) paths -> cget c' q = cget c q.

Lemma at_path_spec act f c path create c' :
  acts act f -> (create = false -> f None = Ok None) ->
  container_ok c -> Forall key_ok path -> at_path act c path create = Ok c' ->
  framed_by [path] c c' /\ f (cget c path) = Ok (cget c' path).
Proof.
  intros Hf Hn Hc Hp H. unfold at_path in H. destruct (resolve _ _ _ _ _ _) as [[c1 []]| |] eqn:E; try done. injection H as <-.
  apply (resolve_spec tt _ (fun m m' _ => f (node_value <$> m) = Ok (node_value <$> m'))) in E as [H1 H2 H3 H4]; [|clear -Hf|done..].
  - split.
    + split; [done|]. split; [done|]. intros q Hq. apply H3. apply Forall_cons in Hq as [Hq _]. exact Hq.
    + destruct H4 as [(m & m2 & HR & E1 & E2)|(E0 & _ & E1 & E2)]; rewrite E1, E2; [exact HR|by apply Hn].
  - intros c leaf c' a Hc Hk Ha. destruct (act c leaf) as [c2| |] eqn:E; try done. injection Ha as <- <-.
    destruct (Hf _ _ _ Hc Hk E) as (H1 & H2 & H3 & H4). rewrite !leafValue_look in H4. done.
Qed.

(** ** Values the operators write *)

Lemma framed_value app v :
  (forall body, app body = AppendValue (str "v") v body) -> value_ok v -> blen (rv_Data v) <= 100 -> framed app = v.
Proof.
  intros Ha Hv Hl. unfold framed. rewrite Ha. pose (e := MkElement (str "v") v).
  assert (He : elem_ok e) by (split_and!; [apply bytes_okb_ok; reflexivity|apply (bool_decide_unpack _); reflexivity|exact Hv]).
  assert (Hf : doc_fits [e]).
  { pose proof (blen_nonneg (rv_Data v)). unfold doc_fits, enc_elems, enc_elem, in_u, e. cbn [map concat Key Value]. rewrite app_nil_r, blen_cons, blen_app, blen_cons.
    change (blen (str "v")) with 1. change (2 ^ 32) with 4294967296. lia. }
  change (AppendValue (str "v") v []) with (append_all [e] []). rewrite append_all_nil, Lookup_doc_of by (done || by apply Forall_singleton).
  cbn [List.find]. by rewrite bool_decide_eq_true_2.
Qed.

Lemma int32_val_ok x : value_ok (int32_val x).
Proof. apply (fixed_value_ok _ _ 4); [done|apply blen_le|done|done|apply bytes_ok_le]. Qed.
Lemma int64_val_ok x : value_ok (int64_val x).
Proof. by apply word_value_ok. Qed.
Lemma double_val_ok x : value_ok (double_val x).
Proof. by apply word_value_ok. Qed.
Lemma date_val_ok x : value_ok (date_val x).
Proof. by apply word_value_ok. Qed.
Lemma timestamp_val_ok x : value_ok (timestamp_val x).
Proof. by apply word_value_ok. Qed.
Lemma null_val_ok : value_ok null_val.
Proof. unfold value_ok. split_and!; try done. constructor. Qed.

Lemma int32Value_eq x : int32Value x = int32_val x.
Proof. apply framed_value; [done|apply int32_val_ok|]. unfold int32_val. cbn [rv_Data]. rewrite blen_le. lia. Qed.
Lemma int64Value_eq x : int64Value x = int64_val x.
Proof. apply framed_value; [done|apply int64_val_ok|]. unfold int64_val. cbn [rv_Data]. rewrite blen_le. lia. Qed.
Lemma doubleValue_eq x : doubleValue x = double_val x.
Proof. apply framed_value; [done|apply double_val_ok|]. unfold double_val. cbn [rv_Data]. rewrite blen_le. lia. Qed.
Lemma nullValue_eq : nullValue = null_val.
Proof. apply framed_value; [apply AppendNull_value|apply null_val_ok|done]. Qed.
Lemma dateValue_eq now : dateValue now = date_val (now / 10 ^ 6).
Proof. apply framed_value; [done|apply date_val_ok|]. unfold date_val. cbn [rv_Data]. rewrite blen_le. lia. Qed.
Lemma timestampValue_eq now : timestampValue now = timestamp_val (u64 (now / 10 ^ 9 * 2 ^ 32)).
Proof. apply framed_value; [done|apply timestamp_val_ok|]. unfold timestamp_val. cbn [rv_Data]. rewrite blen_le. lia. Qed.

(** *** Arrays *)

Lemma digits_ok fuel : forall n acc, Forall (fun c => 48 <= c <= 57) acc -> Forall (fun c => 48 <= c <= 57) (digits fuel n acc).
Proof.
  induction fuel as [|fuel IH]; intros n acc Ha; cbn [digits]; [done|]. destruct (_ >? _); [|done]. apply IH. constructor; [|done].
  pose proof (Z.mod_pos_bound n 10 ltac:(lia)). lia.
Qed.

Lemma itoa_ok i : key_ok (itoa i).
Proof.
  assert (H : Forall (fun c => 48 <= c <= 57) (itoa i)) by (unfold itoa; destruct (_ =? _); [repeat constructor; lia|apply digits_ok; constructor]).
  split; [eapply Forall_impl; [exact H|]; intros c [Hc1 Hc2]; unfold byte_ok; lia|]. intros Hz. rewrite Forall_forall in H. destruct (H 0 Hz). lia.
Qed.

Fixpoint numbered (i : Z) (vals : list RawValue) : list Element :=
  match vals with [] => [] | v :: vals' => MkElement (itoa i) v :: numbered (i + 1) vals' end.

Lemma build_array_enc vals : forall i body, build_array i vals body = body ++ enc_elems (numbered i vals).
Proof.
  induction vals as [|v vals IH]; intros i body; cbn [build_array numbered]; [by rewrite app_nil_r|]. rewrite IH.
  pose proof (AppendValue_enc (MkElement (itoa i) v) body) as E. cbn [Key Value] in E. rewrite E, <- app_assoc. done.
Qed.

Lemma buildArray_eq vals : buildArray vals = MkRawValue TypeArray (doc_of (numbered 0 vals)).
Proof. unfold buildArray, doc_of. by rewrite build_array_enc. Qed.

Lemma numbered_ok vals : forall i, Forall value_ok vals -> Forall elem_ok (numbered i vals).
Proof.
  induction vals as [|v vals IH]; intros i H; [constructor|]. apply Forall_cons in H as [Hv H]. constructor; [|by apply IH].
  destruct (itoa_ok i). by split_and!.
Qed.

Lemma numbered_values vals : forall i, map Value (numbered i vals) = vals.
Proof. induction vals as [|v vals IH]; intros i; [done|]. cbn [numbered map]. by rewrite IH. Qed.

(** A document or an array of whole elements. *)
Lemma doc_leaf_ok t es : one_of t [TypeDocument; TypeArray] = true -> bytes_ok (doc_of es) -> leaf_ok (MkRawValue t (doc_of es)).
Proof.
  intros Ht He. assert (Ht' : t = TypeDocument \/ t = TypeArray).
  { unfold one_of in Ht. cbn [existsb] in Ht. rewrite orb_false_r, orb_true_iff, !Z.eqb_eq in Ht. done. }
  unfold leaf_ok. cbn [rv_Type rv_Data]. split_and!; [by destruct Ht' as [-> | ->]|by destruct Ht' as [-> | ->]|done|].
  intros Hl. assert (Hf : doc_fits es).
  { unfold doc_of in Hl. rewrite blen_Build in Hl. pose proof (blen_nonneg (enc_elems es)). unfold doc_fits, in_u. lia. }
  pose proof (doc_of_last es) as Hlast. pose proof (Build_framed _ Hf) as [Hm Hp]. fold (doc_of es) in Hm, Hp.
  apply Z.ltb_ge in Hm. apply Z.eqb_eq in Hp. unfold MinDocLen in Hm.
  assert (E : scanValue (doc_of es) t = if blen (doc_of es) <? 4 then inl ErrMalformed
    else if (le_val (sub 0 4 (doc_of es)) <? MinDocLen) || (le_val (sub 0 4 (doc_of es)) >? blen (doc_of es)) ||
      negb (nth (Z.to_nat (le_val (sub 0 4 (doc_of es)) - 1)) (doc_of es) 0 =? 0) then inl ErrMalformed else inr (le_val (sub 0 4 (doc_of es)))).
  { destruct Ht' as [-> | ->]; reflexivity. }
  rewrite E, Hp. rewrite (proj2 (Z.ltb_ge _ 4)), (proj2 (Z.ltb_ge _ MinDocLen)) by (unfold MinDocLen; lia). rewrite Z.gtb_ltb, Z.ltb_irrefl.
  replace (Z.to_nat (blen (doc_of es) - 1)) with (length (doc_of es) - 1)%nat by (unfold blen; lia). by rewrite Hlast.
Qed.

Lemma buildArray_ok vals : Forall value_ok vals -> leaf_ok (buildArray vals).
Proof. intros H. rewrite buildArray_eq. apply doc_leaf_ok; [done|]. by apply doc_of_ok, numbered_ok. Qed.


Lemma leaves_bytes_ok es : Forall (fun e => key_ok (Key e) /\ leaf_ok (Value e)) es -> bytes_ok (doc_of es).
Proof.
  intros He. unfold doc_of, Build, bytes_ok. apply Forall_app_2; [apply bytes_ok_le|].
  apply Forall_app_2; [|repeat constructor; lia]. apply Forall_concat, Forall_map.
  eapply Forall_impl; [exact He|]. intros e [[Hk _] (_ & Ht & Hd & _)]. unfold enc_elem.
  constructor; [done|]. apply Forall_app_2; [done|]. constructor; [unfold byte_ok; lia|done].
Qed.

Lemma fields_leaves c : container_ok c -> (forall n, n ∈ map snd (c_fields c) -> node_ok n -> leaf_ok (node_value n)) ->
  Forall (fun e => key_ok (Key e) /\ leaf_ok (Value e)) (elems_of c).
Proof.
  rewrite container_ok_fields. intros Hc Hn. apply Forall_map, Forall_forall. intros [k n] Hi. rewrite Forall_forall in Hc.
  destruct (Hc _ Hi) as [Hk Ho]. cbn [fst snd] in *. split; [done|]. apply Hn; [|done]. apply list_elem_of_fmap. by exists (k, n).
Qed.

Lemma container_value_ok c : container_ok c -> leaf_ok (node_value (SubNode c)).
Proof.
  induction c as [c IH] using container_tree_ind. intros Hc. cbn [node_value]. rewrite encode_eq. apply doc_leaf_ok; [by destruct (c_array c)|].
  apply leaves_bytes_ok, fields_leaves; [done|]. intros [raw|sub] Hi Ho; [done|]. apply list_elem_of_fmap in Hi as ([k n] & En & Hi). cbn [snd] in En. subst n. by apply (IH k).
Qed.

Lemma node_value_ok n : node_ok n -> leaf_ok (node_value n).
Proof. destruct n; [done|apply container_value_ok]. Qed.

Lemma leafValue_ok c k v : container_ok c -> leafValue k c = Some v -> leaf_ok v.
Proof. rewrite leafValue_look. intros Hc (n & Hn & ->)%fmap_Some. by apply node_value_ok, (clook_ok c k). Qed.

(** ** The document of a tree *)

Lemma elems_of_ok c : container_ok c -> blen (encode c) < 2 ^ 32 -> Forall elem_ok (elems_of c) /\ doc_fits (elems_of c).
Proof.
  intros Hc. rewrite encode_eq. intros Hl. split.
  - pose proof (fields_leaves c Hc (fun n _ => node_value_ok n)) as H. rewrite Forall_forall in H. apply Forall_forall. intros e He.
    destruct (H e He) as [[Hk Hz] (H1 & H2 & H3 & H4)]. pose proof (elem_smaller e _ He). split_and!; try done. split_and!; try done. apply H4. lia.
  - unfold doc_of in Hl. rewrite blen_Build in Hl. pose proof (blen_nonneg (enc_elems (elems_of c))). unfold doc_fits, in_u. lia.
Qed.

Lemma encode_Elements c : container_ok c -> blen (encode c) < 2 ^ 32 -> Elements (encode c) = inr (elems_of c).
Proof. intros Hc Hl. destruct (elems_of_ok c Hc Hl). rewrite encode_eq. by apply Elements_doc_of. Qed.

(** Reading a path in the encoded document is reading it in the tree. *)
Lemma vget_node q : forall n, node_ok n -> blen (rv_Data (node_value n)) < 2 ^ 32 -> vget (node_value n) q = nget n q.
Proof.
  induction q as [|k q IH]; intros n Hn Hl; [done|]. destruct n as [raw|c]; [done|]. cbn [nget vget]. cbn [node_value rv_Data node_ok] in *.
  destruct (elems_of_ok c Hn Hl) as [He Hf].
  assert (Hd : Document (MkRawValue (if c_array c then TypeArray else TypeDocument) (encode c)) = encode c).
  { unfold Document. cbn [rv_Type rv_Data]. rewrite encode_eq. unfold doc_of. rewrite blen_Build. pose proof (blen_nonneg (enc_elems (elems_of c))).
    rewrite Z.geb_leb, (proj2 (Z.leb_le _ _)) by (unfold MinDocLen; lia). by destruct (c_array c). }
  rewrite Hd, encode_eq, Lookup_doc_of by done. unfold elems_of. rewrite find_elem. fold (clook c k).
  destruct (clook c k) as [n|] eqn:El; [|done]. cbn [fmap option_fmap option_map]. apply IH; [by apply (clook_ok c k)|].
  assert (Hi : field_elem (k, n) ∈ elems_of c).
  { unfold clook, look in El. destruct (find_key k (c_fields c)) as [i|] eqn:Ek; [|done]. destruct (find_key_Some _ _ _ Ek) as [n' Hn'].
    rewrite Hn' in El. injection El as ->. apply list_elem_of_fmap. exists (k, n). split; [done|]. by apply (list_elem_of_lookup_2 _ i). }
  apply elem_smaller in Hi. rewrite encode_eq in Hl. cbn [field_elem Value snd] in Hi. lia.
Qed.

Lemma vget_encode c q : container_ok c -> c_array c = false -> blen (encode c) < 2 ^ 32 -> vget (root (encode c)) q = cget c q.
Proof.
  intros Hc Ha Hl. unfold cget. rewrite <- (vget_node q (SubNode c)) by done. cbn [node_value]. by rewrite Ha.
Qed.

Lemma decode_root doc c : bytes_ok doc -> decodeDoc doc = Ok c -> container_ok c /\ c_array c = false /\ encode c = doc /\ forall q, cget c q = vget (root doc) q.
Proof.
  intros Hb Hd. assert (Ha : c_array c = false) by (unfold decodeDoc in Hd; destruct (fields_of doc); [|done..]; by injection Hd as <-).
  assert (HD : Document (root doc) = doc).
  { unfold Document, root. cbn [rv_Type rv_Data]. unfold decodeDoc, fields_of, Elements in Hd. destruct (Z.ltb_spec (blen doc) MinDocLen); [done|].
    rewrite Z.geb_leb, (proj2 (Z.leb_le _ _)) by done. done. }
  rewrite <- HD in Hd. destruct (decode_exact (root doc) c Hb Hd) as (_ & Hc & He & _). split_and!; try done.
  intros q. rewrite <- (decode_nget (root doc) c false q Hb Hd) by done. unfold cget. destruct c as [fs a]. cbn [c_array] in Ha. by subst a.
Qed.

(** ** Operators as functions of one value *)

(** What an operator makes of the value at its path: the value it writes, or none
    where it leaves what there is. *)
Definition array_at (cur : option RawValue) : res updErr (list RawValue) :=
  match cur with
  | None => Ok []
  | Some v => if negb (rv_Type v =? TypeArray) then Err ErrBadArrayOperand else arrayValues v
  end.

Definition shrunk (f : list RawValue -> res updErr (option (list RawValue))) (cur : option RawValue) : res updErr (option RawValue) :=
  match cur with
  | None => Ok None
  | Some _ => let* arr := array_at cur in let* arr' := f arr in Ok (buildArray <$> arr')
  end.

Section effects.
Context {PF : Platform} {FU : FloatUnit} (now : Z).

Definition writes (o : operation) (cur : option RawValue) : res updErr (option RawValue) :=
  match op_kind o with
  | opSet => Ok (Some (op_arg o))
  | opInc => let* v := addNumeric (default (zeroLike (op_arg o)) cur) (op_arg o) in Ok (Some v)
  | opMul => let* v := mulNumeric (default (zeroLike (op_arg o)) cur) (op_arg o) in Ok (Some v)
  | opMin => Ok (match cur with Some v => if orders (op_arg o) v true then Some (op_arg o) else None | None => Some (op_arg o) end)
  | opMax => Ok (match cur with Some v => if orders (op_arg o) v false then Some (op_arg o) else None | None => Some (op_arg o) end)
  | opCurrentDateDate => Ok (Some (dateValue now))
  | opCurrentDateTimestamp => Ok (Some (timestampValue now))
  | opPush =>
      let* ps := or_panic (op_push o) in
      let* arr := array_at cur in let* arr := pushed ps arr in Ok (Some (buildArray arr))
  | opAddToSet => let* arr := array_at cur in Ok (Some (buildArray (added (op_vals o) arr)))
  | opPop => shrunk (fun arr => Ok (popped (op_arg o) arr)) cur
  | opPull => let* pl := or_panic (op_pull o) in shrunk (fun arr => let* kept := pulled_from pl arr in Ok (Some kept)) cur
  | opPullAll => shrunk (fun arr => Ok (Some (List.filter (fun e => negb (containsValue (op_vals o) e)) arr))) cur
  | opBit =>
      let* bs := or_panic (op_bit o) in
      match cur with
      | None => Ok None
      | Some v =>
          if rv_Type v =? TypeInt32 then Ok (Some (int32Value (to_i32 (u32 (bitApply bs (Int32 v))))))
          else if rv_Type v =? TypeInt64 then Ok (Some (int64Value (bitApply bs (Int64 v))))
          else Err ErrBitType
      end
  | opUnset | opRename => Ok None
  end.

(** What a value operator leaves at its path. *)
Definition kept (g : option RawValue -> res updErr (option RawValue)) (cur : option RawValue) : res updErr (option RawValue) :=
  let* r := g cur in Ok (match r with Some v => Some v | None => cur end).

Definition effect (o : operation) : option RawValue -> res updErr (option RawValue) := kept (writes o).

Definition is_value_op (o : operation) : bool := match op_kind o with opUnset | opRename => false | _ => true end.

Definition creates (o : operation) : bool :=
  match op_kind o with opUnset | opRename | opPop | opPull | opPullAll | opBit => false | _ => true end.

(** *** Operations as Compile makes them *)

Definition op_ok (o : operation) : Prop :=
  Forall key_ok (op_path o) /\ Forall key_ok (op_dest o) /\
  (match op_kind o with opSet | opMin | opMax => value_ok (op_arg o) | _ => True end) /\
  (forall ps, op_push o = Some ps -> Forall value_ok (pu_each ps) /\ (forall v, pu_simple ps = Some v -> value_ok v)) /\
  Forall value_ok (op_vals o).

Lemma fields_of_ok d es : bytes_ok d -> fields_of d = Ok es -> Forall elem_ok es.
Proof. unfold fields_of. intros Hd. destruct (Elements d) as [|es'] eqn:E; [done|]. intros [= <-]. by apply (Elements_inv d). Qed.

Lemma Document_ok v : bytes_ok (rv_Data v) -> bytes_ok (Document v).
Proof. intros H. unfold Document. destruct (_ && _); [done|constructor]. Qed.

Lemma arrayValues_ok v arr : bytes_ok (rv_Data v) -> arrayValues v = Ok arr -> Forall value_ok arr.
Proof.
  intros Hb. unfold arrayValues. destruct (negb _); [done|]. destruct (fields_of (Document v)) as [es| |] eqn:E; [|done..]. intros [= <-].
  apply Forall_map. eapply Forall_impl; [apply (fields_of_ok _ _ (Document_ok _ Hb) E)|]. by intros e (_ & _ & Hv).
Qed.

Lemma array_at_ok cur arr : (forall v, cur = Some v -> leaf_ok v) -> array_at cur = Ok arr -> Forall value_ok arr.
Proof.
  intros Hc. unfold array_at. destruct cur as [v|]; [|intros [= <-]; constructor]. destruct (negb _); [done|]. apply arrayValues_ok. by apply (Hc v).
Qed.

Lemma Forall_take_drop {A} (P : A -> Prop) n l : Forall P l -> Forall P (take n l) /\ Forall P (drop n l).
Proof. split; [by apply Forall_take|by apply Forall_drop]. Qed.

Lemma SliceStable_Forall {A} (P : A -> Prop) lt l : Forall P l -> Forall P (SliceStable lt l).
Proof.
  intros H. induction H as [|x l Hx _ IH]; cbn [SliceStable]; [constructor|].
  induction IH as [|y l' Hy Hl IH]; cbn [stable_insert]; [by apply Forall_singleton|]. destruct (lt y x); repeat constructor; done.
Qed.

Lemma pushed_ok ps arr arr' :
  Forall value_ok (pu_each ps) -> (forall v, pu_simple ps = Some v -> value_ok v) -> Forall value_ok arr -> pushed ps arr = Ok arr' -> Forall value_ok arr'.
Proof.
  intros He Hs Ha. unfold pushed. set (add := match pu_simple ps with Some v => [v] | None => pu_each ps end).
  assert (Hadd : Forall value_ok add) by (unfold add; destruct (pu_simple ps); [apply Forall_singleton; by apply Hs|done]). clearbody add.
  assert (H1 : Forall value_ok (insertAt arr add (pu_position ps))).
  { unfold insertAt. destruct (pu_position ps) as [p|]; [|by apply Forall_app_2]. destruct (_ >=? _); [by apply Forall_app_2|].
    destruct (Forall_take_drop _ (Z.to_nat p) _ Ha). by repeat apply Forall_app_2. }
  set (arr1 := insertAt _ _ _) in *. clearbody arr1.
  assert (H2 : Forall value_ok (match pu_sortBy ps with Some s => sortArray arr1 s | None => arr1 end)).
  { destruct (pu_sortBy ps) as [s|]; [|done]. by apply SliceStable_Forall. }
  set (arr2 := match pu_sortBy ps with Some s => sortArray arr1 s | None => arr1 end) in *. clearbody arr2.
  destruct (pu_slice ps) as [n|]; [|by intros [= <-]]. unfold sliceArray.
  destruct (n =? 0); [intros [= <-]; constructor|]. destruct (n >? 0).
  { destruct (n >=? blen arr2); intros [= <-]; [done|by apply Forall_take]. }
  destruct (_ >=? blen arr2); [by intros [= <-]|]. cbv zeta. destruct (_ || _); [done|]. intros [= <-]. by apply Forall_drop.
Qed.

Lemma added_ok vals : forall arr, Forall value_ok vals -> Forall value_ok arr -> Forall value_ok (added vals arr).
Proof.
  unfold added. induction vals as [|v vals IH]; intros arr Hv Ha; [done|]. apply Forall_cons in Hv as [Hv Hvs]. cbn [fold_left].
  apply IH; [done|]. destruct (negb _); [|done]. apply Forall_app_2; [done|]. by apply Forall_singleton.
Qed.

Lemma shrunk_ok f cur v :
  (forall v, cur = Some v -> leaf_ok v) -> (forall arr arr', Forall value_ok arr -> f arr = Ok (Some arr') -> Forall value_ok arr') ->
  shrunk f cur = Ok (Some v) -> leaf_ok v.
Proof.
  intros Hc Hf. unfold shrunk. destruct cur as [w|]; [|done]. destruct (array_at (Some w)) as [arr| |] eqn:Ea; [|done..]. cbn [res_bind].
  destruct (f arr) as [[arr'|]| |] eqn:Ef; try done. intros [= <-]. apply buildArray_ok. apply (Hf arr); [|done]. by apply (array_at_ok (Some w)).
Qed.

Lemma pulled_from_ok pl arr : forall arr', Forall value_ok arr -> pulled_from pl arr = Ok arr' -> Forall value_ok arr'.
Proof.
  induction arr as [|e arr IH]; intros arr' Ha; cbn [pulled_from]; [intros [= <-]; constructor|]. apply Forall_cons in Ha as [He Ha].
  destruct (pullMatches pl e) as [b| |]; [|done..]. cbn [res_bind]. destruct (pulled_from pl arr) as [r| |]; [|done..]. intros [= <-].
  pose proof (IH r Ha eq_refl). destruct b; [done|by constructor].
Qed.

Lemma arith_ok a b iop fop v : arith a b iop fop = Ok v -> value_ok v.
Proof.
  unfold arith. destruct (toNum a), (toNum b); try done. destruct (resultDouble _ _); [intros [= <-]; rewrite doubleValue_eq; apply double_val_ok|].
  destruct (resultInt64 _ _); [intros [= <-]; rewrite int64Value_eq; apply int64_val_ok|]. destruct (_ || _); [done|].
  intros [= <-]. rewrite int32Value_eq. apply int32_val_ok.
Qed.

Lemma popped_ok dir arr arr' : Forall value_ok arr -> popped dir arr = Some arr' -> Forall value_ok arr'.
Proof.
  intros Ha. unfold popped. destruct arr as [|x arr]; [done|]. destruct (_ =? _); intros [= <-]; [by apply Forall_take|]. by apply Forall_cons in Ha as [_ Ha].
Qed.

Lemma Forall_filter {A} (P : A -> Prop) f l : Forall P l -> Forall P (List.filter f l).
Proof. rewrite !Forall_forall. intros H x Hx. apply H. apply list_elem_of_In in Hx. apply filter_In in Hx as [Hx _]. by apply list_elem_of_In. Qed.

Lemma writes_ok o cur v : op_ok o -> (forall v, cur = Some v -> leaf_ok v) -> writes o cur = Ok (Some v) -> leaf_ok v.
Proof.
  intros (_ & _ & Harg & Hpush & Hvals) Hc. unfold writes. destruct (op_kind o); cbv beta iota; try done.
  - intros [= <-]. by apply value_leaf_ok.
  - destruct (addNumeric _ _) as [w| |] eqn:E; try done. intros [= <-]. by eapply value_leaf_ok, arith_ok.
  - destruct (mulNumeric _ _) as [w| |] eqn:E; try done. intros [= <-]. by eapply value_leaf_ok, arith_ok.
  - destruct cur as [w|]; [destruct (orders _ _ _); [|done]|]; intros [= <-]; by apply value_leaf_ok.
  - destruct cur as [w|]; [destruct (orders _ _ _); [|done]|]; intros [= <-]; by apply value_leaf_ok.
  - intros [= <-]. rewrite dateValue_eq. apply value_leaf_ok, date_val_ok.
  - intros [= <-]. rewrite timestampValue_eq. apply value_leaf_ok, timestamp_val_ok.
  - destruct (op_push o) as [ps|]; [|done]. cbn [or_panic res_bind]. destruct (Hpush ps eq_refl) as [H1 H2].
    destruct (array_at cur) as [arr| |] eqn:Ea; try done. cbn [res_bind]. destruct (pushed ps arr) as [arr'| |] eqn:Ep; try done. intros [= <-].
    apply buildArray_ok. apply (pushed_ok ps arr); try done. by apply (array_at_ok cur).
  - destruct (array_at cur) as [arr| |] eqn:Ea; try done. intros [= <-]. apply buildArray_ok, added_ok; [done|]. by apply (array_at_ok cur).
  - apply shrunk_ok; [done|]. intros arr arr' Ha [= E]. by apply (popped_ok (op_arg o) arr).
  - destruct (op_pull o) as [pl|]; [|done]. apply shrunk_ok; [done|]. intros arr arr' Ha E.
    destruct (pulled_from pl arr) as [r| |] eqn:Er; try done. injection E as <-. by apply (pulled_from_ok pl arr).
  - apply shrunk_ok; [done|]. intros arr arr' Ha [= <-]. by apply Forall_filter.
  - destruct (op_bit o) as [bs|]; [|done]. cbn [or_panic res_bind]. destruct cur as [w|]; [|done].
    destruct (_ =? _); [intros [= <-]; rewrite int32Value_eq; apply value_leaf_ok, int32_val_ok|].
    destruct (_ =? _); [intros [= <-]; rewrite int64Value_eq; apply value_leaf_ok, int64_val_ok|done].
Qed.
End effects.

(** ** One operation *)

Lemma acts_writes act g :
  (forall c leaf c', act c leaf = Ok c' -> exists r, g (leafValue leaf c) = Ok r /\ c' = match r with Some v => setLeaf leaf v c | None => c end) ->
  (forall cur v, (forall v, cur = Some v -> leaf_ok v) -> g cur = Ok (Some v) -> leaf_ok v) ->
  acts act (kept g).
Proof.
  intros Hact Hg c leaf c' Hc Hk Ha. destruct (Hact c leaf c' Ha) as (r & Hr & ->). unfold kept. rewrite Hr. cbn [res_bind].
  destruct r as [v|]; [|by split_and!].
  assert (Hv : leaf_ok v) by (apply (Hg (leafValue leaf c)); [intros w; by apply leafValue_ok|done]).
  split; [by apply setNode_ok|]. split; [apply setNode_array|]. split.
  - intros k Hne. unfold setLeaf. by rewrite clook_setNode, bool_decide_eq_false_2 by congruence.
  - rewrite leafValue_look. unfold setLeaf. by rewrite clook_setNode, bool_decide_eq_true_2.
Qed.

Section one.
Context {PF : Platform} {FU : FloatUnit} (now : Z).

(** What an operation has done: the paths apart from its own are as before, and its
    own path has what the operator makes of what was there. *)
Record done_op (o : operation) (c c' : container) : Prop := {
  do_framed : framed_by (op_paths o) c c';
  do_value : is_value_op o = true -> effect now o (cget c (op_path o)) = Ok (cget c' (op_path o));
  do_rename : op_kind o = opRename -> cget c' (op_dest o) = match cget c (op_path o) with Some v => Some v | None => cget c (op_dest o) end
}.

Lemma done_value o c c' act :
  op_ok o -> is_value_op o = true -> (creates o = false -> writes now o None = Ok None) ->
  (forall c leaf c', act c leaf = Ok c' -> exists r, writes now o (leafValue leaf c) = Ok r /\ c' = match r with Some v => setLeaf leaf v c | None => c end) ->
  container_ok c -> at_path act c (op_path o) (creates o) = Ok c' -> done_op o c c'.
Proof.
  intros Ho Hv Hn Hact Hc H. pose proof Ho as (Hp & _).
  assert (Ha : acts act (effect now o)) by (apply acts_writes; [done|]; intros cur v; by apply writes_ok).
  destruct (at_path_spec act (effect now o) c (op_path o) (creates o) c' Ha) as [H1 H2]; try done.
  { intros Hcr. unfold effect, kept. by rewrite Hn. }
  split.
  - unfold op_paths. destruct (op_kind o) eqn:Ek; try exact H1. unfold is_value_op in Hv. by rewrite Ek in Hv.
  - done.
  - intros Ek. unfold is_value_op in Hv. by rewrite Ek in Hv.
Qed.

Lemma on_array_writes f c leaf c' :
  on_array f c leaf = Ok c' -> exists r, shrunk f (leafValue leaf c) = Ok r /\ c' = match r with Some v => setLeaf leaf v c | None => c end.
Proof.
  unfold on_array, shrunk, array_at. destruct (leafValue leaf c) as [v|]; [|intros [= <-]; by exists None]. destruct (negb _); [done|].
  destruct (arrayValues v) as [arr| |]; try done. cbn [res_bind]. destruct (f arr) as [r| |]; try done. intros [= <-]. exists (buildArray <$> r). by destruct r.
Qed.

Lemma done_unset o c c' :
  op_ok o -> op_kind o = opUnset -> container_ok c -> applyUnset c (op_path o) = Ok c' -> done_op o c c'.
Proof.
  intros (Hp & _) Ek Hc H. unfold applyUnset, at_path in H. destruct (resolve _ _ _ _ _ _) as [[c1 []]| |] eqn:E; try done. injection H as <-.
  apply (resolve_spec tt _ (fun _ _ _ => True)) in E as [H1 H2 H3 _]; [| |done..].
  - split; [|unfold is_value_op; by rewrite Ek|by rewrite Ek].
    split; [done|]. split; [done|]. intros q Hq. unfold op_paths in Hq. rewrite Ek in Hq. apply Forall_cons in Hq as [Hq _]. by apply H3.
  - clear. intros c leaf c' a Hc Hk Ha. destruct (c_array c) eqn:Earr; cbn [res_bind] in Ha; injection Ha as <- <-.
    + destruct (find c leaf); [|by split_and!]. split_and!; [|by unfold setLeaf; rewrite setNode_array| |done].
      * apply setNode_ok; [done..|]. rewrite nullValue_eq. apply value_leaf_ok, null_val_ok.
      * intros k Hne. unfold setLeaf. by rewrite clook_setNode, bool_decide_eq_false_2 by congruence.
    + unfold remove. destruct (find c leaf) as [i|] eqn:Ef; [|by split_and!]. split_and!; [by apply drop_at_ok|done| |done].
      intros k Hne. by apply (look_drop i leaf).
Qed.

Lemma take_spec c leaf c' n :
  container_ok c -> key_ok leaf -> (let '(n, parent') := takeNode leaf c in Ok (E:=updErr) (parent', n)) = Ok (c', n) ->
  container_ok c' /\ c_array c' = c_array c /\ (forall k, k <> leaf -> clook c' k = clook c k) /\ (clook c leaf = n /\ forall m, n = Some m -> node_ok m).
Proof.
  intros Hc Hk. unfold takeNode. destruct (find c leaf) as [i|] eqn:Ef; intros [= <- <-].
  - split; [by apply drop_at_ok|]. split; [done|]. split; [intros k Hne; by apply (look_drop i leaf)|].
    assert (E : clook c leaf = snd <$> c_fields c !! i) by (unfold clook, look, find in *; by rewrite Ef).
    split; [done|]. intros m Hm. apply (clook_ok c leaf); [done|]. by rewrite E.
  - split_and!; try done. apply (proj1 (find_key_None _ _)) in Ef. exact Ef.
Qed.

Lemma done_rename o c c' :
  op_ok o -> op_kind o = opRename -> apart (op_path o) (op_dest o) -> container_ok c -> applyRename c (op_path o) (op_dest o) = Ok c' -> done_op o c c'.
Proof.
  intros (Hp & Hd & _) Ek Hap Hc H. unfold applyRename in H. destruct (resolve None _ c _ _ _) as [[c1 moved]| |] eqn:E1; try done. cbn [res_bind] in H.
  apply (resolve_spec None _ (fun m _ a => m = a /\ forall n, a = Some n -> node_ok n)) in E1 as [A1 A2 A3 A4]; [|intros; by apply take_spec|done..].
  assert (Hval : op_kind o = opRename -> is_value_op o = true -> False) by (intros _; unfold is_value_op; by rewrite Ek).
  assert (Hpaths : op_paths o = [op_path o; op_dest o]) by (unfold op_paths; by rewrite Ek).
  assert (Hmv : cget c (op_path o) = node_value <$> moved /\ forall n, moved = Some n -> node_ok n).
  { destruct A4 as [(m & m' & [-> Hn] & E & _)|(_ & -> & E & _)]; [by split|]. by split. }
  destruct Hmv as [Emv Hmn]. destruct moved as [n|].
  - destruct (resolve false _ c1 _ _ _) as [[c2 found]| |] eqn:E2; try done. cbn [res_bind] in H. destruct found; [|done]. injection H as <-.
    apply (resolve_spec false _ (fun _ m' _ => m' = Some n)) in E2 as [B1 B2 B3 B4]; [| |done..].
    + split; [|intros Hv; by destruct (Hval Ek Hv)|].
      * split; [done|]. split; [congruence|]. intros q Hq. rewrite Hpaths in Hq. apply Forall_cons in Hq as [Hq1 Hq]. apply Forall_cons in Hq as [Hq2 _].
        rewrite B3, A3 by done. done.
      * intros _. rewrite Emv. cbn [fmap option_fmap option_map]. destruct B4 as [(m & m' & -> & _ & ->)|(_ & Hf & _)]; [done|discriminate Hf].
    + intros d leaf d' a Hdo Hk [= <- <-]. split; [by apply setNode_ok; [..|apply Hmn]|]. split; [apply setNode_array|].
      split; [intros k Hne; by rewrite clook_setNode, bool_decide_eq_false_2 by congruence|]. by rewrite clook_setNode, bool_decide_eq_true_2.
  - injection H as <-. split; [|intros Hv; by destruct (Hval Ek Hv)|].
    + split; [done|]. split; [done|]. intros q Hq. rewrite Hpaths in Hq. apply Forall_cons in Hq as [Hq1 Hq]. by apply A3.
    + intros _. rewrite Emv. by apply A3.
Qed.

(** The action of a value operator at the last container of its path. *)
Definition writing (o : operation) (act : container -> bytes -> res updErr container) : Prop :=
  forall c leaf c', act c leaf = Ok c' ->
    exists r, writes now o (leafValue leaf c) = Ok r /\ c' = match r with Some v => setLeaf leaf v c | None => c end.

Lemma applyOp_act o c c' :
  is_value_op o = true -> applyOp c o now = Ok c' -> exists act, writing o act /\ at_path act c (op_path o) (creates o) = Ok c'.
Proof.
  intros Hv H. unfold applyOp in H. unfold is_value_op in Hv. unfold creates, writing, writes. destruct (op_kind o) eqn:Ek; try done.
  all: try match type of H with match ?x with Some _ => _ | None => _ end = _ => destruct x eqn:Ex; [|done] end.
  all: eexists; split; [|exact H]; clear H; intros d leaf d' H; cbn [or_panic res_bind]; cbv beta in H.
  - injection H as <-. by eexists.
  - destruct (addNumeric _ _) as [v| |]; try done. injection H as <-. by eexists.
  - destruct (mulNumeric _ _) as [v| |]; try done. injection H as <-. by eexists.
  - destruct (leafValue leaf d) as [v|]; [destruct (orders _ _ _)|]; injection H as <-; by eexists.
  - destruct (leafValue leaf d) as [v|]; [destruct (orders _ _ _)|]; injection H as <-; by eexists.
  - injection H as <-. by eexists.
  - injection H as <-. by eexists.
  - change (currentArray d leaf) with (array_at (leafValue leaf d)) in H. destruct (array_at _) as [arr| |]; try done. cbn [res_bind] in *.
    destruct (pushed _ arr) as [arr'| |]; try done. injection H as <-. by eexists.
  - change (currentArray d leaf) with (array_at (leafValue leaf d)) in H. destruct (array_at _) as [arr| |]; try done. injection H as <-. by eexists.
  - by apply on_array_writes.
  - by apply on_array_writes.
  - by apply on_array_writes.
  - destruct (leafValue leaf d) as [v|]; [|done]. destruct (_ =? _); [injection H as <-; by eexists|]. destruct (_ =? _); [injection H as <-; by eexists|done].
Qed.

(** Where nothing is created, a missing value stays missing. *)
Lemma writes_none o c c' : is_value_op o = true -> applyOp c o now = Ok c' -> creates o = false -> writes now o None = Ok None.
Proof.
  intros Hv H Hc. unfold is_value_op in Hv. unfold creates in Hc. unfold writes. unfold applyOp in H. destruct (op_kind o); try done.
  - by destruct (op_pull o).
  - by destruct (op_bit o).
Qed.

Lemma applyOp_done o c c' :
  op_ok o -> any_conflict (op_paths o) = false -> container_ok c -> applyOp c o now = Ok c' -> done_op o c c'.
Proof.
  intros Ho Hap Hc H. destruct (is_value_op o) eqn:Hv.
  - destruct (applyOp_act o c c' Hv H) as (act & Hact & Hp). apply (done_value o c c' act); try done. by apply (writes_none o c c').
  - unfold is_value_op in Hv. unfold applyOp in H. destruct (op_kind o) eqn:Ek; try done; [by apply done_unset|].
    apply done_rename; try done. unfold op_paths in Hap. rewrite Ek in Hap. unfold apart. cbn [is_rename any_conflict existsb] in Hap.
    rewrite !orb_false_r in Hap. exact Hap.
Qed.
End one.

(** ** All operations of an update *)

Lemma any_conflict_app l1 l2 :
  any_conflict (l1 ++ l2) = false <-> any_conflict l1 = false /\ any_conflict l2 = false /\ (forall p q, p ∈ l1 -> q ∈ l2 -> apart p q).
Proof.
  induction l1 as [|p l1 IH]; cbn [app any_conflict]; [split; [intros; split_and!; try done; by intros p q ?%not_elem_of_nil|by intros (_ & ? & _)]|].
  rewrite existsb_app, !orb_false_iff, IH. split.
  - intros ([H1 H2] & H3 & H4 & H5). split_and!; try done. intros p' q [->|Hp]%elem_of_cons Hq; [|by apply H5].
    destruct (apart_sym p q) as [_ _]. unfold apart. destruct (pathPrefixConflict p q) eqn:E; [|done].
    assert (Hx : existsb (pathPrefixConflict p) l2 = true) by (apply existsb_exists; exists q; by rewrite <- list_elem_of_In). congruence.
  - intros ([H1 H2] & H3 & H4). split_and!; try done; [|intros p' q ? ?; apply H4; [by right|done]].
    destruct (existsb (pathPrefixConflict p) l2) eqn:E; [|done]. apply existsb_exists in E as (q & Hq & E). apply list_elem_of_In in Hq.
    pose proof (H4 p q ltac:(by left) Hq) as Ha. unfold apart in Ha. congruence.
Qed.

(** The operations that run: those of $setOnInsert on an insert only. *)
Definition runs (insert : bool) (o : operation) : bool := negb (op_onlyInsert o) || insert.

Definition running (insert : bool) (u : Update) : list operation := List.filter (runs insert) (u_ops u).

Section all.
Context {PF : Platform} {FU : FloatUnit} (now : Z).

Lemma applyOp_array o c c' : done_op now o c c' -> c_array c' = c_array c.
Proof. by intros [(_ & H & _) _ _]. Qed.

(** Every operation sees what was at its path before the first of them. *)
Lemma apply_ops_done insert ops : forall c c',
  Forall op_ok ops -> any_conflict (concat (map op_paths ops)) = false -> container_ok c -> apply_ops c ops now insert = Ok c' ->
  framed_by (concat (map op_paths (List.filter (runs insert) ops))) c c' /\
  (forall o, o ∈ List.filter (runs insert) ops ->
     (is_value_op o = true -> effect now o (cget c (op_path o)) = Ok (cget c' (op_path o))) /\
     (op_kind o = opRename -> cget c' (op_dest o) = match cget c (op_path o) with Some v => Some v | None => cget c (op_dest o) end)).
Proof.
  induction ops as [|o ops IH]; intros c c' Ho Hap Hc H; cbn [apply_ops List.filter map concat] in *.
  { injection H as <-. split; [by split_and!|]. by intros o ?%not_elem_of_nil. }
  apply Forall_cons in Ho as [Ho Hos]. apply any_conflict_app in Hap as (Hap1 & Hap2 & Hap3).
  assert (Er : op_onlyInsert o && negb insert = negb (runs insert o)) by (unfold runs; by destruct (op_onlyInsert o), insert).
  rewrite Er in H. destruct (runs insert o); cbn [negb] in H; [|by apply (IH c)]. cbn [map concat].
  destruct (applyOp c o now) as [c1| |] eqn:E1; try done. cbn [res_bind] in H.
  destruct (applyOp_done now o c c1 Ho Hap1 Hc E1) as [(D1 & D2 & D3) D4 D5].
  destruct (IH c1 c' Hos Hap2 D1 H) as [(F1 & F2 & F3) F4]. set (run := List.filter (runs insert) ops) in *.
  assert (Hsub : forall q, q ∈ concat (map op_paths run) -> q ∈ concat (map op_paths ops)).
  { intros q Hq. apply list_elem_of_In, in_concat in Hq as (l & Hl & Hq). apply in_map_iff in Hl as (o' & <- & Ho'). apply filter_In in Ho' as [Ho' _].
    apply list_elem_of_In, in_concat. exists (op_paths o'). split; [by apply in_map|done]. }
  assert (Hfar : forall p, p ∈ op_paths o -> Forall (fun q => apart q p) (concat (map op_paths run))).
  { intros p Hp. apply Forall_forall. intros q Hq. apply apart_sym, Hap3; [done|by apply Hsub]. }
  assert (Hlate : forall p, p ∈ op_paths o -> cget c' p = cget c1 p) by (intros p Hp; by apply F3, Hfar).
  assert (Hearly : forall o' p, o' ∈ run -> p ∈ op_paths o' -> cget c1 p = cget c p).
  { intros o' p Ho' Hp. apply D3. apply Forall_forall. intros q Hq. apply Hap3; [done|]. apply Hsub. apply list_elem_of_In, in_concat. exists (op_paths o').
    split; [|by apply list_elem_of_In]. apply in_map. by apply list_elem_of_In. }
  assert (Hown : forall o', op_path o' ∈ op_paths o') by (intros o'; by left).
  assert (Hdest : forall o', op_kind o' = opRename -> op_dest o' ∈ op_paths o') by (intros o' Ek; unfold op_paths; rewrite Ek; right; by left).
  split.
  - split; [done|]. split; [congruence|]. intros q Hq. apply Forall_app in Hq as [Hq1 Hq2]. by rewrite F3, D3.
  - intros o' [->|Ho']%elem_of_cons.
    + split; [intros Hv; rewrite Hlate by done; by apply D4|]. intros Ek. rewrite Hlate by (by apply Hdest). by apply D5.
    + destruct (F4 o' Ho') as [V R]. rewrite (Hearly o' (op_path o')) in V, R by done. split; [done|]. intros Ek.
      rewrite R by done. by rewrite (Hearly o' (op_dest o')) by (done || by apply Hdest).
Qed.

(** *** From documents to documents *)

Lemma apply_spec u doc insert out changed :
  bytes_ok doc -> Forall op_ok (u_ops u) -> any_conflict (paths_of u) = false ->
  apply u doc now insert = Ok (out, changed) -> blen out < 2 ^ 32 ->
  (exists es, Elements out = inr es) /\
  (changed = true <-> out <> doc) /\
  (forall q, Forall (fun p => apart p q) (concat (map op_paths (running insert u))) -> vget (root out) q = vget (root doc) q) /\
  (forall o, o ∈ running insert u ->
     (is_value_op o = true -> effect now o (vget (root doc) (op_path o)) = Ok (vget (root out) (op_path o))) /\
     (op_kind o = opRename -> vget (root out) (op_dest o) = match vget (root doc) (op_path o) with Some v => Some v | None => vget (root doc) (op_dest o) end)).
Proof.
  intros Hb Ho Hap H Hl. unfold apply in H. destruct (decodeDoc doc) as [c| |] eqn:Ed; try done. cbn [res_bind] in H.
  destruct (apply_ops c (u_ops u) now insert) as [c'| |] eqn:Ea; try done. injection H as <- <-.
  destruct (decode_root doc c Hb Ed) as (Hc & Harr & _ & Hg). destruct (apply_ops_done insert (u_ops u) c c' Ho Hap Hc Ea) as [(F1 & F2 & F3) F4].
  assert (Ha' : c_array c' = false) by congruence.
  assert (Hg' : forall q, vget (root (encode c')) q = cget c' q) by (intros q; by apply vget_encode).
  split_and!.
  - exists (elems_of c'). by apply encode_Elements.
  - rewrite negb_true_iff, bool_decide_eq_false. split; congruence.
  - intros q Hq. rewrite Hg', F3, Hg by done. done.
  - intros o Hin. rewrite !Hg', <- !Hg. by apply F4.
Qed.
End all.

(** ** What Compile lets through *)

Lemma split_dots_ok k : key_ok k -> Forall key_ok (split_dots k).
Proof.
  induction k as [|c k IH]; intros [Hb Hz]; cbn [split_dots]; [apply Forall_singleton; by split|].
  apply Forall_cons in Hb as [Hc Hb]. apply not_elem_of_cons in Hz as [Hc0 Hz]. specialize (IH (conj Hb Hz)).
  destruct (split_dots k) as [|seg segs]; [constructor|]. apply Forall_cons in IH as [[Hs1 Hs2] Hss].
  destruct (c =? 46); [constructor; [split; [constructor|by intros ?%not_elem_of_nil]|by constructor; [split|]]|].
  constructor; [|done]. split; [by constructor|]. by apply not_elem_of_cons.
Qed.

Lemma splitPath_ok k : key_ok k -> Forall key_ok (Update.splitPath k).
Proof. intros H. unfold Update.splitPath. case_bool_decide; [constructor|by apply split_dots_ok]. Qed.

Lemma split_dots_bytes k : bytes_ok k -> Forall bytes_ok (split_dots k).
Proof.
  induction k as [|c k IH]; intros Hb; cbn [split_dots]; [apply Forall_singleton; constructor|].
  apply Forall_cons in Hb as [Hc Hb]. specialize (IH Hb). destruct (split_dots k) as [|seg segs]; [constructor|].
  apply Forall_cons in IH as [Hs1 Hss]. destruct (c =? 46); repeat (constructor; try done).
Qed.

Definition names_ok (o : operation) : Prop := ~ 0 ∈ concat (op_dest o).

(** All but what is said of the destination of $rename. *)
Definition op_pre (o : operation) : Prop :=
  Forall key_ok (op_path o) /\ Forall bytes_ok (op_dest o) /\
  (match op_kind o with opSet | opMin | opMax => value_ok (op_arg o) | _ => True end) /\
  (forall ps, op_push o = Some ps -> Forall value_ok (pu_each ps) /\ (forall v, pu_simple ps = Some v -> value_ok v)) /\
  Forall value_ok (op_vals o).

Lemma op_pre_ok o : op_pre o -> names_ok o -> op_ok o.
Proof.
  intros (H1 & H2 & H3) Hn. split; [done|]. split; [|done]. apply Forall_forall. intros k Hk. split; [by apply (proj1 (Forall_forall _ _) H2)|].
  intros Hz. apply Hn. apply list_elem_of_In, in_concat. exists k. by rewrite <- !list_elem_of_In.
Qed.

Lemma value_bytes v : value_ok v -> bytes_ok (rv_Data v).
Proof. by intros (_ & _ & H & _). Qed.

Lemma Value_ok e d es : bytes_ok d -> fields_of d = Ok es -> e ∈ es -> value_ok (Value e) /\ key_ok (Key e).
Proof.
  intros Hd He Hin. pose proof (fields_of_ok _ _ Hd He) as H. rewrite Forall_forall in H. destruct (H e Hin) as (H1 & H2 & H3). done.
Qed.

Lemma lookup_loop_value fuel key : forall b v, lookup_loop fuel key b = Some v -> bytes_ok b -> value_ok v.
Proof.
  induction fuel as [|fuel IH]; intros b v; cbn [lookup_loop]; [done|]. destruct b as [|t b]; [done|]. destruct (Z.eqb_spec t 0) as [|Ht]; [done|].
  destruct (next_element (t :: b) t) as [|[e b']] eqn:En; [done|]. intros Hl Hb.
  apply next_element_inv in En as (He & _ & E & _); [|done..]. case_bool_decide; [injection Hl as <-; apply He|].
  apply (IH b'); [done|]. rewrite E in Hb. by apply Forall_app in Hb as [_ Hb].
Qed.

Lemma Lookup_value_ok r key v : bytes_ok r -> Lookup r key = Some v -> value_ok v.
Proof.
  intros Hr. unfold Lookup. destruct (_ || _); [done|]. intros H. apply (lookup_loop_value _ _ _ _ H). by apply Forall_drop.
Qed.

Section compiled.
Context {PF : Platform}.

Definition spec_ok (ps : pushSpec) : Prop := Forall value_ok (pu_each ps) /\ (forall v, pu_simple ps = Some v -> value_ok v).

Lemma push_modifier_ok e ps saw ps' saw' : value_ok (Value e) -> spec_ok ps -> push_modifier e ps saw = Ok (ps', saw') -> spec_ok ps'.
Proof.
  intros Hv [H1 H2]. unfold push_modifier. case_bool_decide.
  { destruct (arrayValues (Value e)) as [vals| |] eqn:E; try done. intros [= <- _]. split; [|done]. by apply (arrayValues_ok (Value e)); [apply value_bytes|]. }
  case_bool_decide; [destruct (compilePushSort _); try done; by intros [= <- _]|].
  case_bool_decide; [destruct (intOperand _); [|done]; by intros [= <- _]|].
  case_bool_decide; [|done]. destruct (intOperand _); [|done]. destruct (_ <? _); [done|]. by intros [= <- _].
Qed.

Lemma push_modifiers_ok es : forall ps saw ps' saw', Forall (fun e => value_ok (Value e)) es -> spec_ok ps -> push_modifiers es ps saw = Ok (ps', saw') -> spec_ok ps'.
Proof.
  induction es as [|e es IH]; intros ps saw ps' saw' He Hp; cbn [push_modifiers]; [by intros [= <- _]|]. apply Forall_cons in He as [He Hes].
  destruct (push_modifier e ps saw) as [[p1 s1]| |] eqn:E; try done. cbn [res_bind]. apply IH; [done|]. by apply (push_modifier_ok e ps saw p1 s1).
Qed.

Lemma compilePush_ok v ps : value_ok v -> compilePush v = Ok ps -> spec_ok ps.
Proof.
  intros Hv. unfold compilePush. destruct (negb _).
  { intros [= <-]. split; [constructor|]. by intros w [= <-]. }
  destruct (fields_of (Document v)) as [es| |] eqn:E; try done. cbn [res_bind].
  destruct (push_modifiers es _ false) as [[p1 s1]| |] eqn:Em; try done. cbn [res_bind]. destruct (negb s1); [done|]. intros [= <-].
  apply (push_modifiers_ok es _ _ _ _) in Em; [done| |].
  - apply Forall_forall. intros e He. apply (Value_ok e (Document v) es); [apply Document_ok; by apply value_bytes|done..].
  - split; [constructor|done].
Qed.

Lemma compileAddToSet_ok v vals : value_ok v -> compileAddToSet v = Ok vals -> Forall value_ok vals.
Proof.
  intros Hv. unfold compileAddToSet. destruct (_ =? _); [|intros [= <-]; by apply Forall_singleton].
  destruct (Lookup (Document v) (str "$each")) as [each|] eqn:El; [|intros [= <-]; by apply Forall_singleton].
  destruct (fields_of _); try done. cbn [res_bind]. destruct (negb _); [done|]. apply arrayValues_ok, value_bytes.
  apply (Lookup_value_ok (Document v) (str "$each")); [|done]. apply Document_ok. by apply value_bytes.
Qed.

Lemma compilePullAll_ok v vals : value_ok v -> compilePullAll v = Ok vals -> Forall value_ok vals.
Proof. intros Hv. unfold compilePullAll. destruct (negb _); [done|]. by apply arrayValues_ok, value_bytes. Qed.

Lemma StringValue_bytes v : bytes_ok (rv_Data v) -> bytes_ok (StringValueOK v).1.
Proof.
  intros H. unfold StringValueOK. destruct (negb _); [constructor|]. destruct (_ <? _); [constructor|]. cbv zeta.
  destruct (_ || _); [constructor|]. by apply sub_Forall.
Qed.

Lemma renameDest_ok v dest : value_ok v -> renameDest v = Ok dest -> Forall bytes_ok dest.
Proof.
  intros Hv. pose proof (StringValue_bytes v (value_bytes v Hv)) as Hs. unfold renameDest. destruct (StringValueOK v) as [s ok]. cbn [fst] in Hs.
  destruct (negb ok); [done|]. cbv zeta. case_bool_decide; [done|]. intros [= <-]. unfold Update.splitPath. case_bool_decide; [constructor|]. by apply split_dots_bytes.
Qed.

(** The operations of Compile, and that their path is there and $setOnInsert alone
    is kept for inserts. *)
Lemma compile_field_ok op path v o now :
  value_ok v -> Forall key_ok path -> compile_field op path v = Ok (o, now) -> op_pre o /\ op_path o = path.
Proof.
  intros Hv Hp. unfold compile_field.
  assert (Hop : forall kind a i, (match kind with opSet | opMin | opMax => value_ok a | _ => True end) -> op_pre (operand kind path a i) /\ op_path (operand kind path a i) = path).
  { intros kind a i Ha. split; [|done]. split_and!; try done; constructor. }
  repeat case_bool_decide; try done; try (intros [= <- _]; by apply Hop).
  - destruct (IsNumeric _); [|done]. intros [= <- _]. by apply Hop.
  - destruct (IsNumeric _); [|done]. intros [= <- _]. by apply Hop.
  - destruct (renameDest v) as [dest| |] eqn:E; try done. intros [= <- _]. split; [|done]. pose proof (renameDest_ok v dest Hv E). split_and!; try done; constructor.
  - destruct (currentDateKind v) as [kind| |] eqn:E; try done. intros [= <- _]. apply Hop.
    assert (Hk : kind = opCurrentDateDate \/ kind = opCurrentDateTimestamp); [|by destruct Hk as [-> | ->]].
    unfold currentDateKind in E. destruct (_ =? _); [injection E as <-; auto|]. destruct (_ =? _); [|done]. destruct (Lookup _ _); [|done].
    destruct (StringValueOK _) as [s ok]. destruct (negb ok); [done|]. case_bool_decide; [injection E as <-; auto|]. case_bool_decide; [injection E as <-; auto|done].
  - destruct (compilePush v) as [ps| |] eqn:E; try done. intros [= <- _]. split; [|done]. pose proof (compilePush_ok v ps Hv E). split; [done|]. split; [constructor|]. split; [done|]. split; [|constructor].
    by intros ps' [= <-].
  - destruct (compileAddToSet v) as [vals| |] eqn:E; try done. intros [= <- _]. split; [|done]. pose proof (compileAddToSet_ok v vals Hv E). split_and!; try done; constructor.
  - destruct (compilePop v) as [dir| |] eqn:E; try done. intros [= <- _]. by apply Hop.
  - destruct (compilePull v) as [pl| |] eqn:E; try done. intros [= <- _]. split; [|done]. split_and!; try done; constructor.
  - destruct (compilePullAll v) as [vals| |] eqn:E; try done. intros [= <- _]. split; [|done]. pose proof (compilePullAll_ok v vals Hv E). split_and!; try done; constructor.
  - destruct (compileBit v) as [bs| |] eqn:E; try done. intros [= <- _]. split; [|done]. split_and!; try done; constructor.
Qed.

Definition op_good (o : operation) : Prop := op_pre o /\ op_path o <> [].

Lemma compile_fields_ok op fields : forall u u',
  Forall (fun e => value_ok (Value e) /\ key_ok (Key e)) fields -> Forall op_good (u_ops u) -> compile_fields op fields u = Ok u' -> Forall op_good (u_ops u').
Proof.
  induction fields as [|f fields IH]; intros u u' Hf Hu; cbn [compile_fields]; [by intros [= <-]|]. apply Forall_cons in Hf as [[Hv Hk] Hfs].
  case_bool_decide as Hne; [done|]. destruct (compile_field op _ (Value f)) as [[o now]| |] eqn:E; try done. cbn [res_bind].
  apply IH; [done|]. cbn [u_ops]. apply Forall_app_2; [done|]. apply Forall_singleton.
  destruct (compile_field_ok _ _ _ _ _ Hv (splitPath_ok _ Hk) E) as [H1 H2]. split; [done|]. congruence.
Qed.

Lemma compile_operators_ok es : forall u u',
  Forall (fun e => value_ok (Value e)) es -> Forall op_good (u_ops u) -> compile_operators es u = Ok u' -> Forall op_good (u_ops u').
Proof.
  induction es as [|e es IH]; intros u u' He Hu; cbn [compile_operators]; [by intros [= <-]|]. apply Forall_cons in He as [He Hes].
  destruct (negb _); [done|]. destruct (compileOperator u (Key e) (Value e)) as [u1| |] eqn:E; try done. cbn [res_bind]. apply IH; [done|].
  unfold compileOperator in E. destruct (negb _); [done|]. destruct (fields_of (Document (Value e))) as [fields| |] eqn:Ef; try done. cbn [res_bind] in E.
  apply (compile_fields_ok (Key e) fields u); [|done..]. apply Forall_forall. intros f Hf.
  apply (Value_ok f (Document (Value e)) fields); [apply Document_ok; by apply value_bytes|done..].
Qed.

Lemma Update_Compile_ok d u :
  bytes_ok d -> Update_Compile d = Ok u -> Forall op_good (u_ops u) /\ any_conflict (paths_of u) = false.
Proof.
  intros Hb. unfold Update_Compile. destruct (fields_of d) as [es| |] eqn:E; try done. cbn [res_bind]. case_bool_decide; [done|].
  destruct (compile_operators es _) as [u1| |] eqn:Ec; try done. cbn [res_bind]. unfold checkConflicts. destruct (any_conflict _) eqn:Ea; [done|].
  intros [= <-]. split; [|done]. apply (compile_operators_ok es _ _) in Ec; [done| |constructor].
  apply Forall_forall. intros e He. by apply (Value_ok e d es).
Qed.

Lemma Update_Compile_ops d u : bytes_ok d -> Update_Compile d = Ok u -> Forall names_ok (u_ops u) -> Forall op_ok (u_ops u).
Proof.
  intros Hb Hu Hn. destruct (Update_Compile_ok d u Hb Hu) as [H _]. rewrite !Forall_forall in *. intros o Ho. apply op_pre_ok; [by apply H|by apply Hn].
Qed.
End compiled.

(** ** Updates that change nothing *)

Lemma elems_put_at c i k n m :
  c_fields c !! i = Some (k, n) -> node_value m = node_value n -> elems_of (put_at i m c) = elems_of c.
Proof.
  intros Hi Hv. unfold elems_of. cbn [put_at c_fields]. apply list_eq. intros j. change (@map) with (@fmap list _). rewrite !list_lookup_fmap.
  destruct (decide (i = j)) as [<-|]; [|by rewrite list_lookup_alter_ne]. rewrite list_lookup_alter_eq, Hi. cbn. unfold field_elem. cbn [fst snd]. by rewrite Hv.
Qed.

Lemma encode_elems c c' : elems_of c = elems_of c' -> encode c = encode c'.
Proof. intros H. by rewrite !encode_eq, H. Qed.

(** Decoding on the way down leaves the elements as they are. *)
Lemma child_elems c key create c' i sub :
  container_ok c -> clook c key <> None -> child c key create = Ok (Some (c', i, sub)) ->
  elems_of c' = elems_of c /\ c_array c' = c_array c /\ c_fields c' !! i = Some (key, SubNode sub).
Proof.
  intros Hc Hl. unfold child. destruct (find c key) as [j|] eqn:Hf; [|by apply (proj1 (find_key_None _ _)) in Hf].
  destruct (find_key_Some _ _ _ Hf) as [n Hi]. pose proof (clook_ok _ _ _ Hc (clook_at _ _ _ _ Hf Hi)) as Hn. cbn [snd] in Hn. rewrite Hi.
  assert (Hput : forall m, c_fields (put_at j m c) !! j = Some (key, m)) by (intros m; cbn [put_at c_fields]; by rewrite list_lookup_alter_eq, Hi).
  destruct n as [raw|s]; [|by intros [= <- <- <-]]. pose proof Hn as (_ & _ & Hb & _).
  destruct (Z.eqb_spec (rv_Type raw) TypeDocument) as [Et|]; [|destruct (Z.eqb_spec (rv_Type raw) TypeArray) as [Et|]; [|done]];
    destruct (decodeDoc (Document raw)) as [dec| |] eqn:Ed; try done; cbn [res_bind]; intros [= <- <- <-]; (split; [|by split]).
  - apply (elems_put_at c j key (RawNode raw)); [done|]. pose proof (decode_nget raw dec false [] Hb Ed Et) as E. cbn [nget vget] in E.
    assert (E' : dec = MkContainer (c_fields dec) false) by (unfold decodeDoc in Ed; destruct (fields_of _); [|done..]; by injection Ed as <-).
    rewrite E'. cbn [c_fields]. by injection E.
  - apply (elems_put_at c j key (RawNode raw)); [done|]. pose proof (decode_nget raw dec true [] Hb Ed Et) as E. cbn [nget vget] in E. by injection E.
Qed.

Section same.
Context {A : Type} (missing : A) (act : container -> bytes -> res updErr (container * A)) (P : option RawValue -> Prop).
Context (Hact : forall c leaf c' a, container_ok c -> P (leafValue leaf c) -> act c leaf = Ok (c', a) -> encode c' = encode c /\ c_array c' = c_array c).

Lemma resolve_same path : forall c create forbid c' a,
  container_ok c -> Forall key_ok path -> P (cget c path) -> (create = true -> ~ P None) ->
  resolve missing act c path create forbid = Ok (c', a) -> encode c' = encode c /\ c_array c' = c_array c.
Proof.
  induction path as [|comp path IH]; intros c create forbid c' a Hc Hp HP Hcr H; [done|]. apply Forall_cons in Hp as [Hk Hp].
  cbn [resolve] in H. destruct (forbid && _); [done|]. destruct path as [|comp2 path].
  { apply (Hact c comp c' a); try done. rewrite leafValue_look. rewrite cget_cons in HP. destruct (clook c comp); exact HP. }
  remember (comp2 :: path) as rest eqn:Er. pose proof (child_spec c comp create Hc Hk) as Hch.
  destruct (child c comp create) as [[[[c1 i] sub]|]| |] eqn:Ech; try done; cbn [res_bind] in H; [|by injection H as <- <-].
  destruct Hch as [[S1 S2 S3 S4 S5 S6] Hno]. destruct (resolve missing act sub rest create forbid) as [[sub' a']| |] eqn:E; try done. injection H as <- <-.
  assert (Hl : clook c comp <> None).
  { intros Hl. destruct (Hno Hl) as [_ ->]. apply Hcr; [done|]. rewrite cget_cons, Hl in HP. exact HP. }
  destruct (child_elems c comp create c1 i sub Hc Hl Ech) as (E1 & E2 & E3).
  destruct (IH sub create forbid sub' a' S5 Hp) as [I1 I2]; [by rewrite S6; [|subst]|done..|].
  split; [|done]. apply encode_elems. rewrite <- E1. apply (elems_put_at c1 i comp (SubNode sub)); [done|]. cbn [node_value]. by rewrite I1, I2.
Qed.
End same.

Section idle.
Context {PF : Platform} {FU : FloatUnit} (now : Z).

(** The operator leaves its path as it is: it writes nothing, or what is there; there
    is nothing to remove or to move. *)
Definition idle (o : operation) (cur : option RawValue) : Prop :=
  if is_value_op o then
    match writes now o cur with
    | Ok (Some v) => cur = Some v
    | Ok None => creates o = true -> cur <> None
    | _ => False
    end
  else cur = None.

Lemma setLeaf_same c leaf v : leafValue leaf c = Some v -> encode (setLeaf leaf v c) = encode c.
Proof.
  intros Hv. apply encode_elems. unfold setLeaf, setNode. unfold leafValue in Hv. destruct (find c leaf) as [i|] eqn:Ef; [|done].
  destruct (find_key_Some _ _ _ Ef) as [n Hi]. rewrite Hi in Hv. injection Hv as Hv. by apply (elems_put_at c i leaf n).
Qed.

Lemma idle_value o c c' :
  op_ok o -> is_value_op o = true -> container_ok c -> idle o (cget c (op_path o)) -> applyOp c o now = Ok c' -> encode c' = encode c /\ c_array c' = c_array c.
Proof.
  intros (Hp & _) Hv Hc Hi H. destruct (applyOp_act now o c c' Hv H) as (act & Hact & Ha). unfold at_path in Ha.
  destruct (resolve _ _ _ _ _ _) as [[c1 []]| |] eqn:E; try done. injection Ha as <-.
  apply (resolve_same tt _ (idle o)) in E; try done.
  - clear - Hact Hv. intros c leaf c' a Hc Hi Ha. destruct (act c leaf) as [c2| |] eqn:E; try done. injection Ha as <- <-.
    destruct (Hact c leaf c2 E) as (r & Hr & ->). unfold idle in Hi. rewrite Hv, Hr in Hi. destruct r as [v|]; [|done].
    split; [by apply setLeaf_same|]. apply setNode_array.
  - intros Hcr HP. unfold idle in HP. rewrite Hv in HP. destruct (writes now o None) as [[v|]| |]; try done. by apply HP.
Qed.

Lemma find_None c k : clook c k = None -> find c k = None.
Proof. intros H. by apply find_key_None. Qed.

Lemma leafValue_None c k : leafValue k c = None -> find c k = None.
Proof. rewrite leafValue_look. intros H. apply find_None. by destruct (clook c k). Qed.

Lemma idle_op o c c' :
  op_ok o -> container_ok c -> idle o (cget c (op_path o)) -> applyOp c o now = Ok c' -> encode c' = encode c /\ c_array c' = c_array c.
Proof.
  intros Ho Hc Hi H. destruct (is_value_op o) eqn:Hv; [by apply (idle_value o)|]. pose proof Ho as (Hp & _).
  unfold idle in Hi. rewrite Hv in Hi. unfold is_value_op in Hv. unfold applyOp in H. destruct (op_kind o) eqn:Ek; try done.
  - unfold applyUnset, at_path in H. destruct (resolve _ _ _ _ _ _) as [[c1 []]| |] eqn:E; try done. injection H as <-.
    apply (resolve_same tt _ (fun cur => cur = None)) in E; try done. clear. intros c leaf c' a Hc Hi Ha. apply leafValue_None in Hi.
    unfold remove in Ha. rewrite Hi in Ha. destruct (c_array c) eqn:Ea; injection Ha as <- <-; by split.
  - unfold applyRename in H. destruct (resolve None _ c _ _ _) as [[c1 moved]| |] eqn:E1; try done. cbn [res_bind] in H.
    pose proof E1 as E2. apply (resolve_spec None _ (fun m _ a => m = a /\ forall n, a = Some n -> node_ok n)) in E2 as [_ _ _ A4]; [|intros; by apply take_spec|done..].
    assert (moved = None) as ->.
    { destruct A4 as [(m & m' & [-> _] & E & _)|(_ & -> & _)]; [|done]. rewrite Hi in E. by destruct moved. }
    injection H as <-. apply (resolve_same None _ (fun cur => cur = None)) in E1; try done. clear. intros c leaf c' a Hc Hi Ha. apply leafValue_None in Hi.
    unfold takeNode in Ha. rewrite Hi in Ha. by injection Ha as <- <-.
Qed.

Lemma apply_ops_idle insert ops : forall c c',
  Forall op_ok ops -> container_ok c -> c_array c = false -> blen (encode c) < 2 ^ 32 ->
  any_conflict (concat (map op_paths ops)) = false ->
  (forall o, o ∈ List.filter (runs insert) ops -> idle o (vget (root (encode c)) (op_path o))) ->
  apply_ops c ops now insert = Ok c' -> encode c' = encode c.
Proof.
  induction ops as [|o ops IH]; intros c c' Ho Hc Harr Hl Hap Hi H; cbn [apply_ops List.filter map concat] in *; [by injection H as <-|].
  apply Forall_cons in Ho as [Ho Hos]. apply any_conflict_app in Hap as (Hap1 & Hap2 & _).
  assert (Er : op_onlyInsert o && negb insert = negb (runs insert o)) by (unfold runs; by destruct (op_onlyInsert o), insert).
  rewrite Er in H. destruct (runs insert o); cbn [negb] in H; [|by apply (IH c)].
  destruct (applyOp c o now) as [c1| |] eqn:E1; try done. cbn [res_bind] in H.
  assert (Hio : idle o (cget c (op_path o))) by (rewrite <- vget_encode by done; apply Hi; by left).
  destruct (idle_op o c c1 Ho Hc Hio E1) as [D1 D2]. pose proof (applyOp_done now o c c1 Ho Hap1 Hc E1) as [(D3 & _) _ _].
  rewrite <- D1. apply (IH c1); [done|done|congruence|by rewrite D1|done| |done]. intros o' Ho'. rewrite D1. apply Hi. by right.
Qed.
End idle.

(** ** The properties *)

Section properties.
Context {PF : Platform} {FU : FloatUnit}.

Lemma pathPrefixConflict_iff p q : pathPrefixConflict p q = true <-> (exists r, q = p ++ r) \/ (exists r, p = q ++ r).
Proof.
  revert q. induction p as [|x p IH]; intros [|y q]; cbn [pathPrefixConflict].
  - split; [left; by exists []|done].
  - split; [left; by eexists|done].
  - split; [right; by eexists|done].
  - rewrite andb_true_iff, bool_decide_eq_true, IH. split.
    + intros [-> [[r ->]|[r ->]]]; [left|right]; by exists r.
    + intros [[r [= -> ->]]|[r [= -> ->]]]; (split; [done|]); [left|right]; by exists r.
Qed.

(** C6. An update runs as one step. Take an update that Compile accepts, none of
    whose $rename operators moves a field to a name with a NUL byte, and a document
    it applies to with a result shorter than 4 GiB. The result is a document; the
    paths that neither contain nor lie in a path of the update's operations have the
    values they had; each value operator has put at its path what it makes of the
    value that was there before the update, whatever the other operators are and in
    whatever order they ran; and $rename has moved the value its source had. The
    flag is whether the bytes have changed. *)
Theorem operators_act_at_their_paths d u doc now insert out changed :
  bytes_ok d -> bytes_ok doc -> Update_Compile d = Ok u -> Forall names_ok (u_ops u) ->
  apply u doc now insert = Ok (out, changed) -> blen out < 2 ^ 32 ->
  (exists es, Elements out = inr es) /\
  (changed = true <-> out <> doc) /\
  (forall q, Forall (fun p => ~ (exists r, q = p ++ r) /\ ~ (exists r, p = q ++ r)) (concat (map op_paths (running insert u))) ->
     vget (root out) q = vget (root doc) q) /\
  (forall o, o ∈ running insert u ->
     (is_value_op o = true -> effect now o (vget (root doc) (op_path o)) = Ok (vget (root out) (op_path o))) /\
     (op_kind o = opRename ->
        vget (root out) (op_dest o) = match vget (root doc) (op_path o) with Some v => Some v | None => vget (root doc) (op_dest o) end)).
Proof.
  intros Hd Hb Hu Hn Ha Hl. pose proof (Update_Compile_ops d u Hd Hu Hn) as Ho. destruct (Update_Compile_ok d u Hd Hu) as [_ Hap].
  destruct (apply_spec now u doc insert out changed Hb Ho Hap Ha Hl) as (H1 & H2 & H3 & H4). split_and!; try done.
  intros q Hq. apply H3. eapply Forall_impl; [exact Hq|]. intros p [N1 N2]. unfold apart. destruct (pathPrefixConflict p q) eqn:E; [|done].
  apply pathPrefixConflict_iff in E as [E|E]; [by destruct N1|by destruct N2].
Qed.

(** C25. An update that Compile accepts (no $rename to a name with a NUL byte), on a
    document shorter than 4 GiB, whose operators leave what they find, is no change:
    the document comes back byte for byte and is reported as unmodified, although
    the way down to every path has been decoded and encoded again. *)
Theorem noop_update_detected d u doc now insert out changed :
  bytes_ok d -> bytes_ok doc -> Update_Compile d = Ok u -> Forall names_ok (u_ops u) ->
  Forall (fun o => idle now o (vget (root doc) (op_path o))) (running insert u) ->
  apply u doc now insert = Ok (out, changed) -> blen doc < 2 ^ 32 -> out = doc /\ changed = false.
Proof.
  intros Hd Hb Hu Hn Hi Ha Hl. pose proof (Update_Compile_ops d u Hd Hu Hn) as Ho. destruct (Update_Compile_ok d u Hd Hu) as [_ Hap].
  unfold apply in Ha. destruct (decodeDoc doc) as [c| |] eqn:Ed; try done. cbn [res_bind] in Ha.
  destruct (apply_ops c (u_ops u) now insert) as [c'| |] eqn:Ea; try done. injection Ha as <- <-.
  destruct (decode_root doc c Hb Ed) as (Hc & Harr & He & _).
  assert (E : encode c' = doc).
  { rewrite <- He. apply (apply_ops_idle now insert (u_ops u) c c'); try done; [by rewrite He|].
    rewrite He. intros o Hin. rewrite Forall_forall in Hi. by apply Hi. }
  split; [done|]. rewrite E. by rewrite bool_decide_eq_true_2.
Qed.

(** Compile finds every pair of paths of which one is a prefix of the other. *)
Lemma any_conflict_pairs ps : any_conflict ps = true <->
  exists i j p q, (i < j)%nat /\ ps !! i = Some p /\ ps !! j = Some q /\ pathPrefixConflict p q = true.
Proof.
  induction ps as [|p ps IH]; cbn [any_conflict]; [split; [done|by intros (i & j & p & q & _ & Hi & _)]|]. rewrite orb_true_iff, IH. split.
  - intros [H|(i & j & a & b & Hij & Hi & Hj & H)]; [|exists (S i), (S j), a, b; split_and!; try done; lia].
    apply existsb_exists in H as (q & Hq & H). apply list_elem_of_In, list_elem_of_lookup_1 in Hq as [j Hj]. exists 0%nat, (S j), p, q. split_and!; try done. lia.
  - intros (i & j & a & b & Hij & Hi & Hj & H). destruct j as [|j]; [lia|]. cbn in Hj. destruct i as [|i].
    + injection Hi as <-. left. apply existsb_exists. exists b. split; [|done]. apply list_elem_of_In. by apply (list_elem_of_lookup_2 _ j).
    + right. exists i, j, a, b. split_and!; try done. lia.
Qed.

(** *** Numbers *)

Lemma Int32_is_int32 v : bytes_ok (rv_Data v) -> - 2 ^ 31 <= Int32 v < 2 ^ 31.
Proof.
  intros H. unfold Int32, Int32OK. destruct (_ || _); cbn [fst]; [lia|]. unfold pay, to_i32.
  assert (Hs : bytes_ok (sub 0 4 (rv_Data v))) by by apply sub_Forall. pose proof (le_val_bound _ Hs) as Hb. unfold in_u in Hb.
  assert (Hl : (length (sub 0 4 (rv_Data v)) <= 4)%nat) by (unfold sub; rewrite length_take; lia).
  assert (2 ^ (8 * blen (sub 0 4 (rv_Data v))) <= 2 ^ 32) by (apply Z.pow_le_mono_r; unfold blen; lia).
  change (2 ^ 32) with 4294967296 in *. change (2 ^ 31) with 2147483648 in *. destruct (Z.ltb_spec (le_val (sub 0 4 (rv_Data v))) 2147483648); lia.
Qed.

Definition is_int (v : RawValue) : Prop := rv_Type v = TypeInt32 \/ rv_Type v = TypeInt64.
Definition int_of (v : RawValue) : Z := if rv_Type v =? TypeInt32 then Int32 v else Int64 v.

(** C26. $inc and $mul on integers: two int32 values give their exact sum or product
    where it is an int32 and ErrOverflow where it is not; with an int64 the result is
    an int64 that wraps around, and so exact just where it fits. *)
Theorem integer_arithmetic_bounds cur arg :
  bytes_ok (rv_Data cur) -> bytes_ok (rv_Data arg) -> is_int cur -> is_int arg ->
  let exact := fun (z : Z) (r : res updErr RawValue) =>
    if (rv_Type cur =? TypeInt32) && (rv_Type arg =? TypeInt32) then
      r = if bool_decide (- 2 ^ 31 <= z < 2 ^ 31) then Ok (int32_val z) else Err ErrOverflow
    else r = Ok (int64_val z) /\ (- 2 ^ 63 <= z < 2 ^ 63 -> Int64 (int64_val z) = z) in
  exact (int_of cur + int_of arg) (addNumeric cur arg) /\ exact (int_of cur * int_of arg) (mulNumeric cur arg).
Proof.
  intros Hb1 Hb2 H1 H2 exact. pose proof (Int32_is_int32 cur Hb1) as R1. pose proof (Int32_is_int32 arg Hb2) as R2.
  assert (H64 : forall z, int64Value (to_i64 (u64 z)) = int64_val z /\ (- 2 ^ 63 <= z < 2 ^ 63 -> Int64 (int64_val z) = z)).
  { intros z. rewrite int64Value_eq. split; [unfold int64_val; f_equal; f_equal; by rewrite u64_to_i64 by (apply wrap_in_u; lia)|].
    intros Hz. unfold Int64. by rewrite Int64_int64_val. }
  assert (H32 : forall z, - 2 ^ 63 <= z < 2 ^ 63 ->
    (if (to_i64 (u64 z) <? - 2 ^ 31) || (to_i64 (u64 z) >? 2 ^ 31 - 1) then Err (E:=updErr) ErrOverflow else Ok (int32Value (to_i64 (u64 z))))
    = if bool_decide (- 2 ^ 31 <= z < 2 ^ 31) then Ok (int32_val z) else Err ErrOverflow).
  { intros z Hz. rewrite to_i64_u64 by done. rewrite int32Value_eq, Z.gtb_ltb. case_bool_decide as Hc.
    - by rewrite (proj2 (Z.ltb_ge _ _)), (proj2 (Z.ltb_ge _ _)) by lia.
    - destruct (Z.ltb_spec z (- 2 ^ 31)); [done|]. destruct (Z.ltb_spec (2 ^ 31 - 1) z); [done|]. lia. }
  assert (Hz : forall x, - 2 ^ 31 <= x < 2 ^ 31 -> forall y, - 2 ^ 31 <= y < 2 ^ 31 -> - 2 ^ 63 <= x + y < 2 ^ 63 /\ - 2 ^ 63 <= x * y < 2 ^ 63).
  { intros x Hx y Hy. change (2 ^ 63) with 9223372036854775808. change (2 ^ 31) with 2147483648 in *. split; [lia|nia]. }
  destruct (Hz _ R1 _ R2) as [Hadd Hmul].
  unfold exact, addNumeric, mulNumeric, arith, toNum, int_of. destruct H1 as [-> | ->], H2 as [-> | ->]; cbn -[Z.pow int64_val int32_val]; (split; [|]); auto; (split; [f_equal; apply H64|apply H64]).
Qed.

(** *** $addToSet *)

Lemma containsValue_true vals v : containsValue vals v = true <-> exists e, e ∈ vals /\ Equal e v = true.
Proof. apply existsb_elem. Qed.

Lemma Equal_same v : v_ok v -> Equal v v = true.
Proof. intros H. unfold Equal. by rewrite (to_refl (P := v_ok)). Qed.

Lemma added_spec vals : forall arr,
  Forall v_ok vals -> exists extra, added vals arr = arr ++ extra /\ Forall (fun e => e ∈ vals) extra /\
    (forall i e, extra !! i = Some e -> containsValue (arr ++ take i extra) e = false) /\
    (forall v, v ∈ vals -> containsValue (arr ++ extra) v = true).
Proof.
  unfold added. induction vals as [|v vals IH]; intros arr Hv; cbn [fold_left].
  { exists []. split_and!; [by rewrite app_nil_r|constructor|done|by intros v ?%not_elem_of_nil]. }
  apply Forall_cons in Hv as [Hv Hvs]. destruct (containsValue arr v) eqn:E; cbn [negb].
  - destruct (IH arr Hvs) as (extra & H1 & H2 & H3 & H4). exists extra. split_and!; try done.
    + eapply Forall_impl; [exact H2|]. intros e He. by right.
    + intros w [->|Hw]%elem_of_cons; [|by apply H4]. apply containsValue_true in E as (e & He & E). apply containsValue_true. exists e. split; [|done].
      apply elem_of_app. by left.
  - destruct (IH (arr ++ [v]) Hvs) as (extra & H1 & H2 & H3 & H4). exists (v :: extra). rewrite H1, <- app_assoc. split_and!; [done| | |].
    + constructor; [by left|]. eapply Forall_impl; [exact H2|]. intros e He. by right.
    + intros [|i] e Hi; [injection Hi as <-; cbn [take]; by rewrite app_nil_r|]. cbn [take]. specialize (H3 i e Hi). by rewrite <- app_assoc in H3.
    + intros w [->|Hw]%elem_of_cons.
      * apply containsValue_true. exists v. split; [|by apply Equal_same]. apply elem_of_app. right. by left.
      * specialize (H4 w Hw). by rewrite <- app_assoc in H4.
Qed.

Lemma added_nothing vals arr : (forall v, v ∈ vals -> containsValue arr v = true) -> added vals arr = arr.
Proof.
  unfold added. induction vals as [|v vals IH]; intros H; [done|]. cbn [fold_left]. rewrite (H v) by (by left). cbn [negb]. apply IH. intros w Hw. apply H. by right.
Qed.

(** $addToSet is a union: the array keeps its elements in front, is followed by some
    of the values, none of which equals an element before it, and then has an element
    equal to each value; adding the same values again changes nothing. *)
Theorem add_to_set_is_union vals arr :
  Forall v_ok vals ->
  exists extra, added vals arr = arr ++ extra /\ Forall (fun e => e ∈ vals) extra /\
    (forall i e, extra !! i = Some e -> containsValue (arr ++ take i extra) e = false) /\
    (forall v, v ∈ vals -> containsValue (added vals arr) v = true) /\
    added vals (added vals arr) = added vals arr.
Proof.
  intros Hv. destruct (added_spec vals arr Hv) as (extra & H1 & H2 & H3 & H4). exists extra. rewrite !H1. split_and!; try done. by apply added_nothing.
Qed.
End properties.

(** ** Concrete updates *)

#[local] Existing Instance amd64.
#[local] Existing Instance default_nan.

(** {$set: {"a.b": 1}, $inc: {n: 2}, $rename: {x: "y.z"}, $unset: {g: 1}} on {a: {k: 5}, n: 3, x: 8, g: 9} *)
Definition four_update : bytes :=
  Build (AppendValue (str "$unset") (doc_val (doc1 "g" (int_n 1))) (AppendValue (str "$rename") (doc_val (doc1 "x" (string_val (str "y.z"))))
    (AppendValue (str "$inc") (doc_val (doc1 "n" (int_n 2))) (AppendValue (str "$set") (doc_val (doc1 "a.b" (int_n 1))) [])))).

Definition four_doc : bytes :=
  Build (AppendValue (str "g") (int_n 9) (AppendValue (str "x") (int_n 8) (AppendValue (str "n") (int_n 3) (AppendValue (str "a") (doc_val (doc1 "k" (int_n 5))) [])))).

Definition four_result : bytes :=
  Build (AppendValue (str "y") (doc_val (doc1 "z" (int_n 8))) (AppendValue (str "n") (int_n 5) (AppendValue (str "a") (doc_val (fields2 "k" (int_n 5) "b" (int_n 1))) []))).

Definition compiled (d : bytes) : Update := match Update_Compile d with Ok u => u | _ => MkUpdate [] false end.

Lemma operators_act_at_their_paths_witness :
  vget (root four_result) [str "a"; str "k"] = Some (int_n 5) /\
  vget (root four_result) [str "y"; str "z"] = Some (int_n 8) /\
  effect 0 (operand opInc [str "n"] (int_n 2) false) (Some (int_n 3)) = Ok (vget (root four_result) [str "n"]).
Proof.
  assert (Hu : Update_Compile four_update = Ok (compiled four_update)) by (vm_compute; reflexivity).
  destruct (operators_act_at_their_paths four_update (compiled four_update) four_doc 0 false four_result true) as (_ & _ & H3 & H4).
  - apply bytes_okb_ok. vm_compute. reflexivity.
  - apply bytes_okb_ok. vm_compute. reflexivity.
  - exact Hu.
  - repeat (apply Forall_cons; split; [apply (bool_decide_unpack _); vm_compute; reflexivity|]). constructor.
  - vm_compute. reflexivity.
  - vm_compute. reflexivity.
  - split; [|split].
    + rewrite (H3 [str "a"; str "k"]); [vm_compute; reflexivity|].
      repeat (apply Forall_cons; split; [split; intros [r Hr]; vm_compute in Hr; discriminate Hr|]). constructor.
    + assert (Hr : nth 2 (running false (compiled four_update)) (operand opSet [] no_arg false) ∈ running false (compiled four_update))
        by (apply list_elem_of_In, nth_In; vm_compute; lia).
      destruct (H4 _ Hr) as [_ R]. specialize (R ltac:(vm_compute; reflexivity)). vm_compute in R. vm_compute. exact R.
    + assert (Hr : nth 1 (running false (compiled four_update)) (operand opSet [] no_arg false) ∈ running false (compiled four_update))
        by (apply list_elem_of_In, nth_In; vm_compute; lia).
      destruct (H4 _ Hr) as [V _]. specialize (V ltac:(vm_compute; reflexivity)). vm_compute in V. vm_compute. exact V.
Defined.

Lemma noop_update_detected_witness : apply (compiled (op1 "$set" "a.k" (int_n 5))) four_doc 0 false = Ok (four_doc, false).
Proof.
  destruct (apply (compiled (op1 "$set" "a.k" (int_n 5))) four_doc 0 false) as [[out changed]| |] eqn:E; [|vm_compute in E; discriminate E..].
  destruct (noop_update_detected (op1 "$set" "a.k" (int_n 5)) (compiled (op1 "$set" "a.k" (int_n 5))) four_doc 0 false out changed) as [-> ->]; [..|reflexivity].
  - apply bytes_okb_ok. vm_compute. reflexivity.
  - apply bytes_okb_ok. vm_compute. reflexivity.
  - vm_compute. reflexivity.
  - repeat (apply Forall_cons; split; [apply (bool_decide_unpack _); vm_compute; reflexivity|]). constructor.
  - apply Forall_cons. split; [vm_compute; reflexivity|constructor].
  - exact E.
  - vm_compute. reflexivity.
Defined.

Lemma integer_arithmetic_bounds_witness : addNumeric (int_n (2 ^ 31 - 1)) (int_n 1) = Err ErrOverflow.
Proof.
  destruct (integer_arithmetic_bounds (int_n (2 ^ 31 - 1)) (int_n 1)) as [H _]; [| |by left|by left|].
  - apply bytes_okb_ok. vm_compute. reflexivity.
  - apply bytes_okb_ok. vm_compute. reflexivity.
  - rewrite H. vm_compute. reflexivity.
Defined.

Lemma add_to_set_is_union_witness :
  added [int_n 2; int_n 3; int_n 3] (added [int_n 2; int_n 3; int_n 3] [int_n 1; int_n 2]) = added [int_n 2; int_n 3; int_n 3] [int_n 1; int_n 2] /\
  added [int_n 2; int_n 3; int_n 3] [int_n 1; int_n 2] = [int_n 1; int_n 2; int_n 3].
Proof.
  destruct (add_to_set_is_union [int_n 2; int_n 3; int_n 3] [int_n 1; int_n 2]) as (extra & _ & _ & _ & _ & H);
    [repeat (apply Forall_cons; split; [apply bytes_okb_ok; vm_compute; reflexivity|]); constructor|].
  split; [exact H|vm_compute; reflexivity].
Defined.
